(* ===== verification/_CoqProject ===== *)
-Q . S2P
Prelude.v
Lists.v
UserMem.v
RingBuf.v
Blocking.v
Pipe.v
Unicode.v
Time.v
Avl.v
IntervalTree.v
XArray.v
Rman.v
Tty.v
Kheap.v
Pmm.v
Signal.v
Vmm.v
Sync.v
Paging.v
Slab.v
Fault.v
Wait.v
Workqueue.v
FatTable.v
FatName.v
FatDir.v
Cache.v
CacheInv.v
CacheFile.v
CacheBack.v
Vfs.v
Tmpfs.v
VfsInv.v
TmpfsLaws.v
VfsLookup.v
VfsPath.v
Vfd.v
VfdInv.v
VfdOpen.v
TmpfsDefects.v
Process.v
ProcessInv.v
ProcessDefects.v
Block.v
Sched.v
Socket.v
Part.v
