(* ===== verification/Prelude.v ===== *)
(** Verification of the core of the Stanix kernel

    Stanix is a Unix-like kernel in C with its own user space.  This library models the
    parts of the kernel that carry its logic, as executable functions and step relations
    translated from the source, and proves the theorems that make them correct.  File
    names below are relative to src/kernel.

    * How the parts fit together

    The physical memory manager hands out pages; the kernel heap and the address spaces
    are built on them.  An address space keeps its segments in an AVL tree and its pages
    in a page table; fork clones it with copy-on-write.  Lists, trees, extensible arrays
    and ring buffers are the containers of the rest of the kernel: pipes and terminals
    hold their data in ring buffers, devices get their ranges from resource managers.
    Tasks sleep on queues and with timeouts, exclude one another with mutexes and
    read-write semaphores, and are interrupted by signals, which terminals send too.  The
    page tables of the processor and the caches of objects take their pages from the same
    manager.  A page fault fills in a page of a segment or copies a shared one.  Files are
    read and written through the page cache; names are looked up in a tree of cached
    directory entries over the directories of the file systems, of which tmpfs keeps its
    files in the page cache alone and FAT in chains of clusters on a device.  Processes
    reach open files through tables of descriptors.  The cache of a disk reads and writes runs
    of pages through the block layer.

    * The files

    - [Prelude]: machine integers with their wrap-around, results, pages, tactics, hint
      databases and the lemmas on lists and bits that the components share.
    - [Lists] (klib/list.c): a store of nodes with pointers, related to sequences.  Every
      insertion and the removal refine the operation on sequences and write nothing else;
      [foreach] visits what is left.  The other files use the sequence level.
    - [UserMem] (include/task/userspace.h): byte memory and copies that can fault.
    - [RingBuf] (klib/ringbuf.c): reading and writing refine a bounded queue, also across
      the wrap-around and on faults.  The class [ByteQueue] and its laws are what pipes
      and terminals rely on; the ring buffer is the instance.
    - [Blocking] (include/task/sleep.h): sleeping under a lock until a condition holds, with
      what other tasks do as an explicit schedule.
    - [Pipe] (fs/pipe.c): reads are first in, first out and writes up to 4096 bytes atomic
      under every schedule; hang-up; proved against [ByteQueue].
    - [Unicode] (klib/unicode.c): the UTF-8 coder and decoder are exact inverses.
    - [Time] (klib/time.c, include/klib/time.h, nano_sleep): calendar conversions end and
      invert one another up to the day; arithmetic on timespecs.
    - [Avl] (klib/avltree.c): trees with parent pointers, heights and a summary of each
      subtree; the callbacks are the class [avltree_ops], what the theorems need of them
      [avltree_laws].  Insertion keeps the trees AVL and in order, removal takes out exactly
      the node, searches and the traversal agree with the sequence of the nodes.  The
      trees of segments of mem/vmm.c are an instance.
    - [IntervalTree] (klib/intervaltree.c): another instance, with the largest end.
    - [XArray] (klib/xarray.c): radix trees as maps from indices; get, set, search, allocation.
    - [Rman] (drivers/resource.c): allocation of ranges: exactly the range, the lowest that
      fits, segments in order and merged.
    - [Tty] (drivers/tty.c): the line discipline refines an abstract line editor, never
      leaves its arrays, and reads return one line.
    - [Kheap] (mem/kheap.c): blocks are aligned, inside the heap and disjoint; allocation and
      release change exactly one block; free segments are merged.  Whether pages can be
      mapped is a parameter: where they cannot, the heap has holes, as in the code.
    - [Pmm] (mem/pmm.c, mem/pmm1.c): the buddy allocator.  The free lists hold exactly the
      free pages in disjoint aligned blocks and the counters count them; allocation and
      release keep that and change exactly the pages asked for; the reserve is kept.
    - [Signal] (task/signal.c, part of task/syscall.c): pending sets, sending, dequeuing,
      delivery to a handler and return from it.
    - [Vmm] (mem/vmm.c): unmapping, protecting, mapping and cloning as functions on what each
      address is mapped to, with exact counters, page table inside the segments and
      copy-on-write.  The removal of a segment from its tree is a parameter, since it may
      not come back, and the defects of the page-table functions on the way of a fork are
      kept as they are.
    - [Sync] (task/sleep.c, task/mutex.c, task/rwsem.c): queues, sorted timeouts, and mutual
      exclusion of mutexes and semaphores as an invariant of every reachable state.
    - [Paging] (arch/x86_64/paging.c): the four levels of tables in memory with the locks of
      the tables.  Mapping, unmapping, allocation and destruction are given by what each
      page of the space is mapped to; tables are taken from the pool and given back, no
      lock is left held, translation inverts mapping.
    - [Slab] (mem/slab.c): an allocation gives an object that was not live and overlaps no
      other; freeing takes away exactly that object; the sizes fit the blocks.
    - [Fault] (mem/vmm.c): page faults.  A fault leaves no lock held, keeps the counts of the
      pages, and a page that others share is copied before it can be written; how far a fault
      reads ahead.
    - [Wait] (include/task/sleep.h, task/oneshot.c, task/condvar.c, task/futex.c): the
      instructions of a task that waits, interleaved with other waiters, signals and the
      task that wakes.  No wake-up is lost and every waiter returns; programs are checked
      against labels and ranks by a decision procedure that is proved sound.
    - [Workqueue] (task/workqueue.c): work is run once, in order, and not forgotten.
    - [FatTable] (../modules/fs/fat/fat.c): the allocation table on a device (class
      [Device] with [DeviceLaws], an image in memory is the instance), chains of clusters,
      growing, freeing and truncating files, pages of files, mounting.
    - [FatName]: short names, long-name entries, dates.
    - [FatDir]: directories as sequences of slots and items; lookup and listing refine the
      search in the items, creation and removal change one item.
    - [Cache], [CacheInv], [CacheFile], [CacheBack] (fs/cache.c): the page cache over any
      driver ([CacheOps] with its laws); reads and writes refine those of a sequence of bytes,
      a flush makes the device agree, and the array of pages is a map.
    - [Vfs] (fs/vfs/vdentry.c, vnode.c, vfs.c): directory entries, inodes, lookup, paths, the
      operations on names, permissions and mounts, over any file system (classes [NodeTables]
      and [DirTables]).
    - [Tmpfs] (fs/tmpfs.c): an instance of the tables, with its files in the page cache.
    - [VfsInv]: the invariant of the entries and their counts, and what a file system promises
      ([FsLaws]); [TmpfsLaws]: tmpfs keeps the promises, and a state that satisfies the invariant.
    - [VfsLookup], [VfsPath]: a lookup finds what the directory holds, whatever is cached, and
      gives exact references; the walk along a path refines the meaning of paths; the path of
      an entry leads back to it.
    - [Vfd] (fs/vfs/vfd.c, task/process.c, task/syscall.c): open files, descriptors and the
      system calls on files.  [VfdInv]: the invariant that ties the descriptors to the open
      files and these to entries and inodes; closing and copying descriptors.  [VfdOpen]:
      opening along a path gives the lowest free descriptor or leaves nothing behind.
    - [Process] (task/process.c, task/cred.c, task/syscall.c): credentials, process groups,
      sessions, children, exit.  [ProcessInv]: no privilege is gained, groups and sessions
      are consistent after a process moves, waiting reaps the first child that exited.
    - [Block] (drivers/block.c, klib/iobuf.c): how batches of pages become requests to a driver
      (class [Driver] with [DriverLaws]); writing puts the pages on the device and keeps the rest
      of the sectors, a read request names for each byte the page that keeps it.
    - [Sched] (task/scheduler.c): the run queue, the switch of tasks, timeouts, the life of tasks
      and the reaper as steps that interleave.  No task that is ready is lost, none that runs is
      freed, and each task of the queue runs after as many turns as its place.
    - [Socket] (fs/socket.c, fs/unix.c): sockets of the unix domain.  What is received and what is
      left in the queue are what was sent; peers know each other and no freed socket is used,
      as long as sockets that wait to be accepted are left alone.
    - [Part] (../modules/block/part): MBR and GPT; a table that is written is the table that is
      read, and the partitions are those it describes.
    - [TmpfsDefects], [ProcessDefects]: runs in which the code does not do what it means to.

    * Conventions

    An integer is a [Z], with [u64] and its like where the source can wrap.  [Err] is a
    negative error code; [None] is a state the program does not survive: a failed
    assertion, a panic, an invalid access, a spinlock acquired twice, undefined behaviour.
    Theorems that a function returns show that it is not [None].  Code outside the
    repository (the C library's constants, drivers behind callbacks, the success of an
    allocation) is a parameter.  Operations that run under a lock are one step; where a
    task sleeps in the middle, other tasks run in between.

    Recursion that is not structural has fuel, and the theorems show that the fuel given is
    enough: eight levels of blocks for the buddy allocator (orders 0 to 6), the length of
    the list plus three for changing a protection, eleven levels for an array (64-bit
    indices, 6 bits a level), the number of nodes for the walks in trees, the number of
    days or bytes for the calendar and the codecs; the loop of a pipe write is given any
    fuel from two.  The walk that unmaps a range has one unit for each entry of the tables
    and one more; the transfer of a page of a file, 4096 (each round moves a byte or more);
    the walks of a directory, any number above that of its entries; the release of an entry
    and the path of one, one more than the number of entries; the walk along a path, two more
    than the limit on links; the runs of a batch, one more than its pages.

    Theorems named as claims carry their number in their comment.  Some statements show
    where the code differs from what it means to do; they describe the code as it is.

    * What is not modelled

    msync and the mapping of files, fork and exec beyond the copy of an address space,
    device drivers and most loadable modules, the registers of the processor and all of user
    space.  They are input and output, register access or glue between the parts above. *)

From Stdlib Require Import ZArith Lia.
From stdpp Require Export base numbers gmap list sorting.

#[global] Open Scope Z_scope.

(** * Machine integers

    The kernel is built for x86_64: [size_t], [uintptr_t] and [unsigned long]
    are 64 bits wide.  An integer of the source is a [Z] here, and each
    operation of the source that can wrap is written with the reduction of its
    width. *)

Definition u8 (z : Z) : Z := z mod 2 ^ 8.
Definition u16 (z : Z) : Z := z mod 2 ^ 16.
Definition u32 (z : Z) : Z := z mod 2 ^ 32.
Definition u64 (z : Z) : Z := z mod 2 ^ 64.

(** The range of a [size_t]. *)
Definition is_u64 (z : Z) : Prop := 0 <= z < 2 ^ 64.

Declare Scope stanix_scope.
Delimit Scope stanix_scope with stanix.
Notation "a +! b" := (u64 (a + b)) (at level 50, left associativity) : stanix_scope.
Notation "a -! b" := (u64 (a - b)) (at level 50, left associativity) : stanix_scope.
Notation "a *! b" := (u64 (a * b)) (at level 40, left associativity) : stanix_scope.
#[global] Open Scope stanix_scope.

(** [flags & bit] used as a condition: some bit of [bit] is set. *)
Definition has (flags bit : Z) : bool := negb (Z.land flags bit =? 0).

(** * Pages *)

(** kernel/include/mem/page.h *)
Definition PAGE_SHIFT : Z := 12.
Definition PAGE_SIZE : Z := 4096.
Definition PAGE_INVALID : Z := 2 ^ 54 - PAGE_SIZE.
Definition PAGE_ALIGN_DOWN (address : Z) : Z := address / PAGE_SIZE * PAGE_SIZE.
Definition PAGE_ALIGN_UP (address : Z) : Z :=
  ((address +! PAGE_SIZE) -! 1) / PAGE_SIZE *! PAGE_SIZE.

(** * Results

    A function of the kernel that can fail returns a negated [errno]; here it
    returns [Err] of that code.  [option] is kept for a different purpose: [None]
    is a state the C program does not survive or that the C standard leaves
    undefined (a failed [kassert], a panic, a dereference of a null or unmapped
    pointer, an access outside an array). *)

Inductive errno :=
  | EINVAL | ENOMEM | EAGAIN | EINTR | EPIPE | EFAULT | EILSEQ | ENOTSUP | ESRCH | EPERM
  | EACCES | EIO | ENOSYS | ENOSPC | ENOENT | EFTYPE | ENOTEMPTY | EEXIST | EBADF | ENOTDIR
  | EOPNOTSUPP | EISDIR | ELOOP | EXDEV | ENAMETOOLONG | EROFS | EBUSY | ENOTTY | ESPIPE | ENXIO | ENODEV | EOVERFLOW | EMFILE | EDOM | ERANGE | E2BIG | ENOEXEC | ECHILD | ETIMEDOUT | ENOTBLK | ENOTSOCK | EISCONN | ENOTCONN | EADDRINUSE | ECONNREFUSED | EMSGSIZE | EAFNOSUPPORT | EPROTOTYPE | ECONNABORTED | ECONNRESET | EDESTADDRREQ | ENOLINK.

#[global] Instance errno_eq_dec : EqDecision errno.
Proof. solve_decision. Defined.

Inductive res (A : Type) :=
  | Ok (a : A)
  | Err (e : errno).
Arguments Ok {A} _.
Arguments Err {A} _.

#[global] Instance res_eq_dec {A} `{EqDecision A} : EqDecision (res A).
Proof. solve_decision. Defined.

(** An assertion of the kernel. *)
Definition kassert (b : bool) : option unit := if b then Some tt else None.

(** A count of references that is decremented, 64 bits wide. *)
Definition ref_dec (r : Z) : Z := if r =? 0 then 2 ^ 64 - 1 else r - 1.

(** * Automation *)

Create HintDb stanix.
Create Rewrite HintDb stanix_len.

(** Boolean comparisons of the code, turned into the propositions they decide. *)
Ltac zbool :=
  repeat match goal with
  | H : (_ && _)%bool = true |- _ => apply andb_true_iff in H; destruct H
  | H : (_ || _)%bool = false |- _ => apply orb_false_iff in H; destruct H
  | H : negb _ = true |- _ => apply negb_true_iff in H
  | H : negb _ = false |- _ => apply negb_false_iff in H
  | H : (_ =? _) = true |- _ => apply Z.eqb_eq in H
  | H : (_ =? _) = false |- _ => apply Z.eqb_neq in H
  | H : (_ <? _) = true |- _ => apply Z.ltb_lt in H
  | H : (_ <? _) = false |- _ => apply Z.ltb_ge in H
  | H : (_ <=? _) = true |- _ => apply Z.leb_le in H
  | H : (_ <=? _) = false |- _ => apply Z.leb_gt in H
  end.

(** The parts of a conjunction, without unfolding definitions. *)
Ltac conjs := repeat match goal with |- _ /\ _ => split end.

(** Case analysis on the test of the [if] in the goal, with its meaning. *)
Ltac case_if :=
  match goal with
  | |- context [if ?b then _ else _] => destruct b eqn:?; zbool
  end.
Ltac case_if_in H :=
  match type of H with
  | context [if ?b then _ else _] => destruct b eqn:?; zbool
  end.

(** * Integers *)

Lemma u64_small z : is_u64 z -> u64 z = z.
Proof. intros. apply Z.mod_small. done. Qed.

Lemma u64_range z : is_u64 (u64 z).
Proof. apply Z.mod_pos_bound. lia. Qed.

Lemma u64_idemp z : u64 (u64 z) = u64 z.
Proof. apply u64_small, u64_range. Qed.

#[global] Instance is_u64_dec z : Decision (is_u64 z).
Proof. unfold is_u64. apply _. Defined.

#[export] Hint Resolve u64_range : stanix.

(** Removes the reductions that the bounds in the context make idle. *)
Ltac unwrap :=
  repeat match goal with
  | |- context [u64 ?z] => rewrite (u64_small z) by (unfold is_u64 in *; lia)
  | H : context [u64 ?z] |- _ => rewrite (u64_small z) in H by (unfold is_u64 in *; lia)
  end.

Lemma PAGE_ALIGN_UP_spec a :
  0 <= a -> a + PAGE_SIZE < 2 ^ 64 ->
  a <= PAGE_ALIGN_UP a < a + PAGE_SIZE /\ PAGE_ALIGN_UP a mod PAGE_SIZE = 0.
Proof.
  unfold PAGE_ALIGN_UP, PAGE_SIZE. intros. unwrap.
  pose proof (Z.div_mod (a + 4096 - 1) 4096 ltac:(lia)).
  pose proof (Z.mod_pos_bound (a + 4096 - 1) 4096 ltac:(lia)).
  unwrap. split; [lia|]. apply Z_mod_mult.
Qed.

(** * Lists *)

(** The value of a list at an index of the source. *)
Definition nthZ {A} (d : A) (l : list A) (i : Z) : A := nth (Z.to_nat i) l d.

Definition lenZ {A} (l : list A) : Z := Z.of_nat (length l).

Definition takeZ {A} (n : Z) (l : list A) : list A := take (Z.to_nat n) l.
Definition dropZ {A} (n : Z) (l : list A) : list A := drop (Z.to_nat n) l.

(** [memcpy] of [bs] at offset [off] of a buffer. *)
Definition blit {A} (off : Z) (bs buf : list A) : list A :=
  list_inserts (Z.to_nat off) bs buf.

Fixpoint sumZ (l : list Z) : Z :=
  match l with
  | [] => 0
  | x :: l => x + sumZ l
  end.

Lemma sumZ_app l1 l2 : sumZ (l1 ++ l2) = sumZ l1 + sumZ l2.
Proof. induction l1; simpl; lia. Qed.

Lemma lenZ_app {A} (l1 l2 : list A) : lenZ (l1 ++ l2) = lenZ l1 + lenZ l2.
Proof. unfold lenZ. rewrite length_app. lia. Qed.

Lemma lenZ_cons {A} (x : A) l : lenZ (x :: l) = 1 + lenZ l.
Proof. unfold lenZ. simpl. lia. Qed.

Lemma rev_cons_app {A} (p : A) prev l : rev (p :: prev) ++ l = rev prev ++ p :: l.
Proof. simpl. by rewrite <- app_assoc. Qed.

Lemma lenZ_nonneg {A} (l : list A) : 0 <= lenZ l.
Proof. unfold lenZ. lia. Qed.

Lemma lenZ_blit {A} off (bs buf : list A) : lenZ (blit off bs buf) = lenZ buf.
Proof. unfold lenZ, blit. rewrite length_inserts. done. Qed.

Lemma lenZ_takeZ {A} n (l : list A) : 0 <= n <= lenZ l -> lenZ (takeZ n l) = n.
Proof. unfold lenZ, takeZ. intros. rewrite length_take. lia. Qed.

Lemma lenZ_dropZ {A} n (l : list A) : 0 <= n <= lenZ l -> lenZ (dropZ n l) = lenZ l - n.
Proof. unfold lenZ, dropZ. intros. rewrite length_drop. lia. Qed.

#[export] Hint Rewrite @lenZ_app @lenZ_cons @lenZ_blit : stanix_len.

Lemma list_inserts_eq {A} i (k l : list A) :
  (i + length k <= length l)%nat ->
  list_inserts i k l = take i l ++ k ++ drop (i + length k) l.
Proof.
  revert i. induction k as [|y k IH]; intros i Hi; simpl in *.
  - by rewrite Nat.add_0_r, take_drop.
  - rewrite IH by lia.
    destruct (lookup_lt_is_Some_2 l i) as [z Hz]; [lia|].
    rewrite (take_S_r l i z Hz), <- app_assoc. simpl.
    rewrite insert_app_r_alt by (rewrite length_take; lia).
    rewrite length_take, Nat.min_l by lia. rewrite Nat.sub_diag. simpl.
    by rewrite Nat.add_succ_r.
Qed.

(** [memcpy] inside the bounds of the buffer replaces exactly the slice. *)
Lemma blit_eq {A} off (bs buf : list A) :
  0 <= off -> off + lenZ bs <= lenZ buf ->
  blit off bs buf = takeZ off buf ++ bs ++ dropZ (off + lenZ bs) buf.
Proof.
  unfold blit, takeZ, dropZ, lenZ. intros. rewrite list_inserts_eq by lia.
  do 3 f_equal. lia.
Qed.

(** * Counting objects

    How many objects of a heap have a property: the references that objects hold to another one are
    counted with it. *)

Definition b2Z (b : bool) : Z := if b then 1 else 0.

(** One reference, to [x]. *)
Definition one (x y : Z) : Z := if decide (y = x) then 1 else 0.

Lemma one_self x : one x x = 1.
Proof. unfold one. by rewrite decide_True. Qed.
Lemma one_ne x y : y <> x -> one x y = 0.
Proof. intros. unfold one. by rewrite decide_False. Qed.
Lemma one_range x y : 0 <= one x y <= 1.
Proof. unfold one. case_decide; lia. Qed.
Lemma one_nonneg x y : 0 <= one x y.
Proof. apply one_range. Qed.

Definition count_if {A} (P : A -> bool) (m : gmap Z A) : Z := Z.of_nat (size (filter (fun p : Z * A => Is_true (P p.2)) m)).

Section count_if.
Context {A : Type}.
Implicit Types (P : A -> bool) (m : gmap Z A).

Lemma count_if_nonneg P m : 0 <= count_if P m.
Proof. unfold count_if. lia. Qed.

Lemma count_if_delete P m a x : m !! a = Some x -> count_if P m = b2Z (P x) + count_if P (delete a m).
Proof.
  intros Hx. unfold count_if. rewrite map_filter_delete. destruct (P x) eqn:HP; cbn [b2Z].
  - assert (Hf : filter (fun p : Z * A => Is_true (P p.2)) m !! a = Some x) by (apply map_lookup_filter_Some; split; [done|cbn; rewrite HP; exact I]).
    rewrite <- (insert_id _ _ _ Hf) at 1. rewrite <- insert_delete_eq, map_size_insert_None by apply lookup_delete_eq. lia.
  - rewrite delete_id; [lia|]. apply map_lookup_filter_None. right. intros v Hv. rewrite Hx in Hv. injection Hv as <-. cbn. rewrite HP. by intros [].
Qed.

Lemma count_if_insert P m a x : count_if P (<[a := x]> m) = b2Z (P x) + count_if P (delete a m).
Proof. rewrite (count_if_delete P _ a x) by apply lookup_insert_eq. by rewrite delete_insert_eq. Qed.

Lemma count_if_new P m a x : m !! a = None -> count_if P (<[a := x]> m) = b2Z (P x) + count_if P m.
Proof. intros Ha. by rewrite count_if_insert, delete_id. Qed.

Lemma count_if_update P m a x y : m !! a = Some x -> count_if P (<[a := y]> m) = count_if P m - b2Z (P x) + b2Z (P y).
Proof. intros Ha. rewrite count_if_insert, (count_if_delete P m a x Ha). lia. Qed.

Lemma count_if_pos P m a x : m !! a = Some x -> P x = true -> 1 <= count_if P m.
Proof. intros Ha HP. rewrite (count_if_delete P m a x Ha), HP. pose proof (count_if_nonneg P (delete a m)). cbn [b2Z]. lia. Qed.

Lemma count_if_witness P m : 1 <= count_if P m -> exists a x, m !! a = Some x /\ P x = true.
Proof.
  unfold count_if. intros H. destruct (map_choose (filter (fun p : Z * A => Is_true (P p.2)) m)) as (a & x & Hx); [intros E; rewrite E, map_size_empty in H; lia|].
  apply map_lookup_filter_Some in Hx as (Hx & HP). exists a, x. split; [done|]. by apply Is_true_eq_true.
Qed.
End count_if.

(** * Bits *)

(** The bitwise operations of the source on fields that do not overlap are sums
    and remainders. *)
Lemma land_ones_mod z k n : 0 <= n -> k = 2 ^ n - 1 -> Z.land z k = z mod 2 ^ n.
Proof.
  intros Hn ->. rewrite <- Z.land_ones by done. f_equal. rewrite Z.ones_equiv. lia.
Qed.

Lemma lor_add x y n : 0 <= n -> 0 <= y < 2 ^ n -> Z.lor (x * 2 ^ n) y = x * 2 ^ n + y.
Proof.
  intros Hn Hy. symmetry. apply Z.add_nocarry_lor.
  rewrite <- Z.shiftl_mul_pow2 by done. apply Z.bits_inj'. intros i Hi.
  rewrite Z.land_spec, Z.bits_0. destruct (decide (i < n)).
  - rewrite Z.shiftl_spec_low by done. done.
  - rewrite <- (Z.mod_small y (2 ^ n)) by done.
    rewrite Z.mod_pow2_bits_high by lia. apply andb_false_r.
Qed.

(** The masks of the code stay inside their width. *)
Lemma testbit_high a n i : 0 <= n -> 0 <= a < 2 ^ n -> n <= i -> Z.testbit a i = false.
Proof. intros Hn Ha. revert i. apply Z.bounded_iff_bits_nonneg; lia. Qed.

Lemma lor_range a b n :
  0 <= n -> 0 <= a < 2 ^ n -> 0 <= b < 2 ^ n -> 0 <= Z.lor a b < 2 ^ n.
Proof.
  intros Hn Ha Hb. split; [apply Z.lor_nonneg; lia|].
  apply Z.bounded_iff_bits_nonneg; [done|apply Z.lor_nonneg; lia|]. intros i Hi.
  by rewrite Z.lor_spec, (testbit_high a n), (testbit_high b n).
Qed.

Lemma land_range a b n : 0 <= n -> 0 <= a < 2 ^ n -> 0 <= Z.land a b < 2 ^ n.
Proof.
  intros Hn Ha. assert (0 <= Z.land a b) by (apply Z.land_nonneg; lia). split; [done|].
  apply Z.bounded_iff_bits_nonneg; [done|done|]. intros i Hi.
  by rewrite Z.land_spec, (testbit_high a n).
Qed.

Lemma bit_range i n : 0 <= i < n -> 0 <= Z.shiftl 1 i < 2 ^ n.
Proof.
  intros. rewrite Z.shiftl_1_l. split; [apply Z.pow_nonneg; lia|].
  apply Z.pow_lt_mono_r; lia.
Qed.

Lemma testbit_bit i j : 0 <= i -> 0 <= j -> Z.testbit (Z.shiftl 1 i) j = (j =? i).
Proof.
  intros. rewrite Z.shiftl_1_l. rewrite Z.pow2_bits_eqb by done.
  destruct (i =? j) eqn:E1, (j =? i) eqn:E2; zbool; lia.
Qed.

(** [mask & (1 << i)] tests a bit. *)
Lemma has_bit m i : 0 <= i -> has m (Z.shiftl 1 i) = Z.testbit m i.
Proof.
  intros Hi. unfold has. destruct (Z.testbit m i) eqn:E.
  - apply negb_true_iff, Z.eqb_neq. intros H. apply (f_equal (fun z => Z.testbit z i)) in H.
    rewrite Z.land_spec, testbit_bit, E, Z.eqb_refl, Z.bits_0 in H by done. done.
  - apply negb_false_iff, Z.eqb_eq. apply Z.bits_inj'. intros j Hj.
    rewrite Z.land_spec, testbit_bit, Z.bits_0 by done. case_eq (j =? i); intros Hji; zbool.
    + subst. by rewrite E.
    + by rewrite andb_false_r.
Qed.

(** A full mask has every bit. *)
Lemma testbit_ones64 i : 0 <= i < 64 -> Z.testbit (2 ^ 64 - 1) i = true.
Proof.
  intros. replace (2 ^ 64 - 1) with (Z.ones 64) by done. apply Z.ones_spec_low. done.
Qed.

(** * Ordered sequences *)

(** A sequence around one of its elements. *)
Lemma StronglySorted_mid {A} (R : relation A) l x r :
  StronglySorted R (l ++ x :: r) <->
  Forall (fun y => R y x) l /\ Forall (R x) r /\
  (forall y z, y ∈ l -> z ∈ r -> R y z) /\ StronglySorted R l /\ StronglySorted R r.
Proof.
  rewrite StronglySorted_app, StronglySorted_cons, !Forall_forall.
  setoid_rewrite elem_of_cons. naive_solver.
Qed.

Lemma StronglySorted_impl {A} (R S : relation A) l :
  (forall x y, R x y -> S x y) -> StronglySorted R l -> StronglySorted S l.
Proof.
  intros H. induction 1; constructor; [done|]. eapply Forall_impl; [done|]. intros; by apply H.
Qed.

(** * Bytes

    Numbers in memory, the lowest byte first. *)

Definition is_byte (b : Z) : Prop := 0 <= b < 256.

Fixpoint le_val (bs : list Z) : Z :=
  match bs with
  | [] => 0
  | b :: bs => b + 256 * le_val bs
  end.

Fixpoint le_bytes (n : nat) (v : Z) : list Z :=
  match n with
  | O => []
  | S n => v mod 256 :: le_bytes n (v / 256)
  end.

Lemma length_le_bytes n v : length (le_bytes n v) = n.
Proof. revert v. induction n; intros; simpl; auto. Qed.

Lemma le_bytes_byte n v : Forall is_byte (le_bytes n v).
Proof.
  revert v. induction n; intros; simpl; constructor; [|done]. apply Z.mod_pos_bound. lia.
Qed.

Lemma le_val_bound bs : Forall is_byte bs -> 0 <= le_val bs < 256 ^ lenZ bs.
Proof.
  induction 1 as [|b bs Hb _ IH]; [done|]. rewrite lenZ_cons. simpl.
  rewrite Z.pow_add_r by (try lia; apply lenZ_nonneg). unfold is_byte in Hb. lia.
Qed.

Lemma le_val_bytes n v : 0 <= v < 256 ^ Z.of_nat n -> le_val (le_bytes n v) = v.
Proof.
  revert v. induction n as [|n IH]; intros v Hv; simpl; [simpl in Hv; lia|].
  rewrite Nat2Z.inj_succ, Z.pow_succ_r in Hv by lia.
  rewrite IH; [rewrite (Z.div_mod v 256) at 3 by lia; lia|].
  split; [apply Z.div_pos; lia|apply Z.div_lt_upper_bound; lia].
Qed.

Lemma le_bytes_val bs : Forall is_byte bs -> le_bytes (length bs) (le_val bs) = bs.
Proof.
  induction 1 as [|b bs Hb _ IH]; [done|]. simpl. unfold is_byte in Hb.
  replace (b + 256 * le_val bs) with (le_val bs * 256 + b) by lia.
  rewrite Z.div_add_l, (Z.div_small b), Z.add_0_r, IH by lia. f_equal.
  rewrite Z.add_comm, Z.mod_add by lia. apply Z.mod_small. lia.
Qed.

(** The bytes of a store from an offset. *)
Definition sliceZ {A} (off n : Z) (l : list A) : list A := takeZ n (dropZ off l).

Lemma lenZ_sliceZ {A} off n (l : list A) :
  0 <= off -> 0 <= n -> off + n <= lenZ l -> lenZ (sliceZ off n l) = n.
Proof. intros. unfold sliceZ. apply lenZ_takeZ. rewrite lenZ_dropZ; lia. Qed.

(** What a slice holds after a write: the bytes written, or what it held. *)
Lemma sliceZ_blit_same {A} off (bs buf : list A) :
  0 <= off -> off + lenZ bs <= lenZ buf -> sliceZ off (lenZ bs) (blit off bs buf) = bs.
Proof.
  intros. rewrite blit_eq by done. unfold sliceZ, takeZ, dropZ, lenZ in *.
  rewrite drop_app_length' by (rewrite length_take; lia). rewrite take_app_length' by lia. done.
Qed.

Lemma lookup_blit {A} off (bs buf : list A) i :
  0 <= off -> (off + lenZ bs <= Z.of_nat i \/ Z.of_nat i < off) -> blit off bs buf !! i = buf !! i.
Proof.
  unfold blit, lenZ. intros ? []; [apply list_lookup_inserts_ge|apply list_lookup_inserts_lt]; lia.
Qed.

Lemma lookup_blit_in {A} off (bs buf : list A) i :
  0 <= off -> off + lenZ bs <= lenZ buf -> off <= Z.of_nat i < off + lenZ bs ->
  blit off bs buf !! i = bs !! (i - Z.to_nat off)%nat.
Proof. unfold blit, lenZ. intros. apply list_lookup_inserts; lia. Qed.

Lemma sliceZ_lookup {A} off n (l : list A) i :
  sliceZ off n l !! i = if (decide (i < Z.to_nat n)%nat) then l !! (Z.to_nat off + i)%nat else None.
Proof.
  unfold sliceZ, takeZ, dropZ. case_decide.
  - rewrite lookup_take_lt by done. apply lookup_drop.
  - apply lookup_take_ge. lia.
Qed.

Lemma sliceZ_blit_other {A} off n off' (bs buf : list A) :
  0 <= off -> 0 <= off' -> 0 <= n -> (off + n <= off' \/ off' + lenZ bs <= off) ->
  sliceZ off n (blit off' bs buf) = sliceZ off n buf.
Proof.
  intros. apply list_eq. intros i. rewrite !sliceZ_lookup. case_decide; [|done].
  apply lookup_blit; lia.
Qed.

Lemma Forall_blit {A} (P : A -> Prop) off bs buf :
  Forall P bs -> Forall P buf -> Forall P (blit off bs buf).
Proof.
  unfold blit. intros Hbs Hbuf. generalize (Z.to_nat off). induction Hbs; intros; simpl; [done|].
  by apply Forall_insert.
Qed.

Lemma Forall_sliceZ {A} (P : A -> Prop) off n l : Forall P l -> Forall P (sliceZ off n l).
Proof. intros. unfold sliceZ, takeZ, dropZ. by apply Forall_take, Forall_drop. Qed.
