(* ===== verification/Lists.v ===== *)
(** The intrusive doubly linked lists of the kernel
    (kernel/klib/list.c, kernel/include/klib/list.h).

    A list node lives in memory at an address and is linked through its [next]
    and [prev] fields; a [list_t] holds the two ends and a count.  The memory
    is a finite map from addresses to nodes.  The operations follow the C code
    store by store; a store or load through a pointer that is not a node of the
    memory is [None].  The spinlock of the list serialises the operations and
    carries no data.

    [represents] relates a memory and a [list_t] to the sequence of nodes it
    stands for; the theorems show that every operation implements the expected
    change of that sequence and touches nothing else. *)

From S2P Require Import Prelude.

Module KList.

Definition NULL : Z := 0.

Record list_node := mk_node { next : Z; prev : Z }.

Record list_t := mk_list { first_node : Z; last_node : Z; node_count : Z }.

#[global] Instance list_node_eq_dec : EqDecision list_node.
Proof. solve_decision. Defined.
#[global] Instance list_t_eq_dec : EqDecision list_t.
Proof. solve_decision. Defined.

Implicit Types (h : gmap Z list_node) (l : list_t) (xs ys : list Z) (node ref p : Z).

(** Stores to one field of a node. *)
Definition set_next h p (v : Z) : option (gmap Z list_node) :=
  n ← h !! p; Some (<[p := mk_node v (prev n)]> h).
Definition set_prev h p (v : Z) : option (gmap Z list_node) :=
  n ← h !! p; Some (<[p := mk_node (next n) v]> h).

Definition set_first l (v : Z) : list_t := mk_list v (last_node l) (node_count l).
Definition set_last l (v : Z) : list_t := mk_list (first_node l) v (node_count l).
Definition count_add l (d : Z) : list_t :=
  mk_list (first_node l) (last_node l) (node_count l +! d).

Definition list_init : list_t := mk_list NULL NULL 0.

Definition list_is_empty l : bool := first_node l =? NULL.

Definition list_prepend h l node : option (gmap Z list_node * list_t) :=
  h ← set_prev h node NULL;
  h ← set_next h node (first_node l);
  '(h, l) ← (if first_node l =? NULL then Some (h, set_last l node)
             else h ← set_prev h (first_node l) node; Some (h, l));
  let l := set_first l node in
  Some (h, count_add l 1).

Definition list_append h l node : option (gmap Z list_node * list_t) :=
  h ← set_prev h node (last_node l);
  h ← set_next h node NULL;
  '(h, l) ← (if last_node l =? NULL then Some (h, set_first l node)
             else h ← set_next h (last_node l) node; Some (h, l));
  let l := set_last l node in
  Some (h, count_add l 1).

Definition list_add_after h l ref node : option (gmap Z list_node * list_t) :=
  if ref =? NULL then list_prepend h l node else
  h ← set_prev h node ref;
  r ← h !! ref;
  h ← set_next h node (next r);
  r ← h !! ref;
  '(h, l) ← (if next r =? NULL then Some (h, set_last l node)
             else h ← set_prev h (next r) node; Some (h, l));
  h ← set_next h ref node;
  Some (h, count_add l 1).

Definition list_add_before h l ref node : option (gmap Z list_node * list_t) :=
  if ref =? NULL then list_append h l node
  else r ← h !! ref; list_add_after h l (prev r) node.

Definition list_remove h l node : option (gmap Z list_node * list_t) :=
  if node =? NULL then Some (h, l) else
  n ← h !! node;
  '(h, l) ← (if prev n =? NULL then Some (h, set_first l (next n))
             else h ← set_next h (prev n) (next n); Some (h, l));
  n ← h !! node;
  '(h, l) ← (if next n =? NULL then Some (h, set_last l (prev n))
             else h ← set_prev h (next n) (prev n); Some (h, l));
  Some (h, count_add l (-1)).

(** The [foreach] macro: the nodes visited from [p], with a bound on the number
    of iterations; [None] when the walk leaves the memory or the bound is hit. *)
Fixpoint walk (fuel : nat) h p : option (list Z) :=
  if p =? NULL then Some [] else
  match fuel with
  | O => None
  | S fuel => n ← h !! p; xs ← walk fuel h (next n); Some (p :: xs)
  end.

Definition foreach (fuel : nat) h l : option (list Z) := walk fuel h (first_node l).

(** * The sequence a list stands for *)

Definition hd_or (d : Z) xs : Z := match xs with [] => d | x :: _ => x end.

Fixpoint last_or (d : Z) xs : Z := match xs with [] => d | x :: xs => last_or x xs end.

(** [chain h p xs n]: the nodes [xs] are linked in order, entered from [p] and
    left to [n]. *)
Fixpoint chain h p xs (n : Z) : Prop :=
  match xs with
  | [] => True
  | x :: xs => h !! x = Some (mk_node (hd_or n xs) p) /\ chain h x xs n
  end.

Record represents h l xs : Prop := {
  rep_first : first_node l = hd_or NULL xs;
  rep_last : last_node l = last_or NULL xs;
  rep_count : node_count l = u64 (lenZ xs);
  rep_chain : chain h NULL xs NULL;
  rep_nodup : NoDup xs;
  rep_null : NULL ∉ xs;
}.

(** A node the program may link: allocated, and not in the list already. *)
Record fresh_node h xs node : Prop := {
  fresh_alloc : is_Some (h !! node);
  fresh_notin : node ∉ xs;
  fresh_null : node <> NULL;
}.

(** Nothing but the nodes [xs] differs between two memories. *)
Definition only_changes h h' xs : Prop := forall p, p ∉ xs -> h' !! p = h !! p.

Lemma hd_or_app d xs ys : hd_or d (xs ++ ys) = hd_or (hd_or d ys) xs.
Proof. destruct xs; done. Qed.

Lemma last_or_app d xs ys : last_or d (xs ++ ys) = last_or (last_or d xs) ys.
Proof. revert d. induction xs; simpl; auto. Qed.

Lemma last_or_in d xs : xs <> [] -> last_or d xs ∈ xs.
Proof.
  destruct xs as [|x xs]; [done|intros _; simpl].
  revert x. induction xs as [|y xs IH]; intros x; simpl; [left|right; apply IH].
Qed.

Lemma last_or_change d d' xs : xs <> [] -> last_or d xs = last_or d' xs.
Proof. destruct xs; done. Qed.

Lemma chain_app h p xs ys n :
  chain h p (xs ++ ys) n <-> chain h p xs (hd_or n ys) /\ chain h (last_or p xs) ys n.
Proof.
  revert p. induction xs as [|x xs IH]; intros p; simpl; [tauto|].
  rewrite IH, hd_or_app. tauto.
Qed.

Lemma chain_frame h p xs n x v : x ∉ xs -> chain h p xs n -> chain (<[x := v]> h) p xs n.
Proof.
  revert p. induction xs as [|y xs IH]; intros p; simpl; [done|].
  intros Hx [Hy Hc]. rewrite not_elem_of_cons in Hx. destruct Hx.
  rewrite lookup_insert_ne by done. auto.
Qed.

Lemma chain_mem h p xs n x : chain h p xs n -> x ∈ xs -> is_Some (h !! x).
Proof.
  revert p. induction xs as [|y xs IH]; intros p; simpl; [set_solver|].
  intros [Hy Hc] [->|Hin]%elem_of_cons; eauto.
Qed.

(** The last node of a chain is found through it and can be relinked. *)
Lemma chain_snoc h p xs x n :
  chain h p (xs ++ [x]) n <-> chain h p xs x /\ h !! x = Some (mk_node n (last_or p xs)).
Proof. rewrite chain_app. simpl. tauto. Qed.

Lemma u64_succ z : u64 z +! 1 = u64 (z + 1).
Proof. unfold u64. rewrite Zplus_mod_idemp_l. done. Qed.

Lemma u64_pred z : u64 z +! -1 = u64 (z - 1).
Proof. unfold u64. rewrite Zplus_mod_idemp_l. f_equal. Qed.

Lemma chain_relink_head h p y ys n q :
  chain h p (y :: ys) n -> y ∉ ys ->
  chain (<[y := mk_node (hd_or n ys) q]> h) q (y :: ys) n.
Proof.
  simpl. intros [_ Hc] Hy. rewrite lookup_insert_eq.
  split; [done|]. by apply chain_frame.
Qed.

Lemma chain_relink_last h p xs x n m :
  chain h p (xs ++ [x]) n -> x ∉ xs ->
  chain (<[x := mk_node m (last_or p xs)]> h) p (xs ++ [x]) m.
Proof.
  rewrite !chain_snoc. intros [Hc _] Hx. rewrite lookup_insert_eq.
  split; [|done]. by apply chain_frame.
Qed.

(** Evaluates the stores of an operation: looks up inserted nodes, keeps the
    other ones. *)
Ltac run :=
  repeat first
    [ progress simpl
    | progress unfold set_next, set_prev
    | rewrite lookup_insert_eq
    | rewrite lookup_insert_ne by congruence
    | rewrite insert_insert_eq
    | match goal with H : _ !! ?x = Some _ |- context [_ !! ?x] => rewrite H end
    | match goal with |- context [?x =? NULL] =>
        rewrite (proj2 (Z.eqb_neq x NULL)) by congruence end
    | match goal with |- context [NULL =? NULL] => rewrite Z.eqb_refl end ].

(** The five facts of [represents], destructured. *)
Ltac open_rep H :=
  let Hf := fresh "Hf" in let Hl := fresh "Hl" in let Hn := fresh "Hn" in
  let Hc := fresh "Hc" in let Hnd := fresh "Hnd" in let H0 := fresh "H0" in
  destruct H as [Hf Hl Hn Hc Hnd H0]; simpl in Hf, Hl, Hn.

(** ** Insertion at the ends and after a node *)

Lemma list_prepend_refines h l xs node :
  represents h l xs -> fresh_node h xs node ->
  exists h' l', list_prepend h l node = Some (h', l') /\
    represents h' l' (node :: xs) /\ only_changes h h' (node :: xs).
Proof.
  intros Hrep [[n Hn'] Hfr Hnull]. destruct l as [f la c]. open_rep Hrep. subst.
  unfold list_prepend. destruct xs as [|y ys]; run.
  - eexists _, _. split; [done|]. split.
    + split; simpl; [done..| |rewrite lookup_insert_eq; done|apply NoDup_singleton|set_solver].
      apply (u64_succ 0).
    + intros p Hp. rewrite lookup_insert_ne; set_solver.
  - apply not_elem_of_cons in H0 as [Hy0 Hys0]. apply not_elem_of_cons in Hfr as [Hny Hnys].
    pose proof Hc as [Hy _]. apply NoDup_cons in Hnd as [Hy' Hnd]. run.
    eexists _, _. split; [done|]. split.
    + split; simpl; [done..| | | |].
      * rewrite u64_succ. f_equal. rewrite !lenZ_cons. lia.
      * rewrite lookup_insert_ne, lookup_insert_eq by done. split; [done|].
        apply (chain_relink_head _ NULL); [|done].
        apply (chain_frame _ _ (y :: ys)); [set_solver|done].
      * repeat apply NoDup_cons_2; set_solver.
      * set_solver.
    + intros p Hp. rewrite !lookup_insert_ne; set_solver.
Qed.
(** Shared by the insertions: the count, the absence of duplicates and of NULL
    after [node] is linked between [xs] and [ys]. *)
Lemma represents_link h h' l' xs ys node :
  NoDup (xs ++ ys) -> NULL ∉ xs ++ ys -> node ∉ xs ++ ys -> node <> NULL ->
  first_node l' = hd_or node xs -> last_node l' = last_or node ys ->
  node_count l' = u64 (lenZ (xs ++ ys)) +! 1 ->
  h' !! node = Some (mk_node (hd_or NULL ys) (last_or NULL xs)) ->
  chain h' NULL xs node -> chain h' node ys NULL ->
  represents h' l' (xs ++ node :: ys).
Proof.
  intros Hnd H0 Hfr Hnull Hf Hl Hn Hnode Hxs Hys. split.
  - rewrite hd_or_app. done.
  - rewrite last_or_app. done.
  - rewrite Hn, u64_succ, !lenZ_app, lenZ_cons. f_equal. lia.
  - apply chain_app. simpl. auto.
  - rewrite <- Permutation_middle. by apply NoDup_cons_2.
  - set_solver.
Qed.

Lemma list_append_refines h l xs node :
  represents h l xs -> fresh_node h xs node ->
  exists h' l', list_append h l node = Some (h', l') /\
    represents h' l' (xs ++ [node]) /\ only_changes h h' (node :: xs).
Proof.
  intros Hrep [[n Hn'] Hfr Hnull]. destruct l as [f la c]. open_rep Hrep. subst.
  unfold list_append. destruct xs as [|x xs _] using rev_ind; simpl.
  - run. eexists _, _. split; [done|]. split.
    + apply (represents_link h _ _ [] []); simpl; try done.
      apply lookup_insert_eq.
    + intros p Hp. rewrite lookup_insert_ne; set_solver.
  - rewrite last_or_app. simpl.
    pose proof Hc as [Hc' Hx]%chain_snoc.
    assert (x <> NULL /\ x <> node /\ x ∉ xs /\ node ∉ xs) as (Hx0 & Hxn & Hxx & Hnx).
    { apply NoDup_app in Hnd as (_ & Hd & _). set_solver. }
    run. eexists _, _. split; [done|]. split.
    + apply (represents_link h _ _ (xs ++ [x]) []); simpl; try done.
      * by rewrite app_nil_r.
      * by rewrite app_nil_r.
      * by rewrite app_nil_r.
      * rewrite !hd_or_app. done.
      * by rewrite app_nil_r.
      * rewrite lookup_insert_ne, lookup_insert_eq, last_or_app by done. done.
      * apply (chain_relink_last _ _ _ _ NULL); [|done].
        apply chain_frame; [set_solver|done].
    + intros p Hp. rewrite !lookup_insert_ne; set_solver.
Qed.

Lemma list_add_after_refines h l xs ref ys node :
  represents h l (xs ++ ref :: ys) -> fresh_node h (xs ++ ref :: ys) node ->
  exists h' l', list_add_after h l ref node = Some (h', l') /\
    represents h' l' (xs ++ ref :: node :: ys) /\
    only_changes h h' (node :: xs ++ ref :: ys).
Proof.
  intros Hrep [[n Hn'] Hfr Hnull]. destruct l as [f la c]. open_rep Hrep. subst.
  apply chain_app in Hc as [Hxs Hc]. pose proof Hc as [Href Hys].
  assert (ref <> NULL /\ ref <> node /\ ref ∉ xs /\ ref ∉ ys /\ node ∉ xs /\ node ∉ ys)
    as (Hr0 & Hrn & Hrx & Hry & Hnx & Hny).
  { pose proof Hnd as (? & Hd & ?%NoDup_cons)%NoDup_app. set_solver. }
  assert (chain h NULL (xs ++ [ref]) (hd_or NULL ys)) as Hxs' by (apply chain_snoc; auto).
  replace (xs ++ ref :: node :: ys) with ((xs ++ [ref]) ++ node :: ys)
    by (rewrite <- app_assoc; done).
  replace (xs ++ ref :: ys) with ((xs ++ [ref]) ++ ys) in *
    by (rewrite <- app_assoc; done).
  unfold list_add_after. destruct ys as [|y ys].
  - run. eexists _, _. split; [done|]. split.
    + apply (represents_link h _ _ (xs ++ [ref]) []); simpl; try done.
      * rewrite app_nil_r, !hd_or_app. done.
      * rewrite lookup_insert_ne, lookup_insert_eq, last_or_app by done. done.
      * apply (chain_relink_last _ _ _ _ NULL); [|done].
        apply chain_frame; [set_solver|done].
    + intros p Hp. rewrite !lookup_insert_ne; set_solver.
  - assert (y <> NULL /\ y <> node /\ y <> ref /\ y ∉ xs /\ y ∉ ys /\ NoDup ys)
      as (Hy0 & Hyn & Hyr & Hyx & Hyy & Hnd').
    { pose proof Hnd as (? & Hd & [? ?]%NoDup_cons)%NoDup_app. set_solver. }
    pose proof Hys as [Hy _]. run.
    eexists _, _. split; [done|]. split.
    + apply (represents_link h _ _ (xs ++ [ref]) (y :: ys)); simpl; try done.
      * rewrite !hd_or_app. done.
      * rewrite !last_or_app. done.
      * rewrite !lookup_insert_ne, lookup_insert_eq, last_or_app by done. done.
      * apply (chain_relink_last _ _ _ _ y); [|done].
        repeat apply chain_frame; [set_solver..|done].
      * apply (chain_frame _ _ (y :: ys)); [set_solver|].
        apply (chain_relink_head _ ref); [|done].
        apply (chain_frame _ _ (y :: ys)); [set_solver|done].
    + intros p Hp. rewrite !lookup_insert_ne; set_solver.
Qed.

Lemma list_add_before_refines h l xs ref ys node :
  represents h l (xs ++ ref :: ys) -> fresh_node h (xs ++ ref :: ys) node ->
  exists h' l', list_add_before h l ref node = Some (h', l') /\
    represents h' l' (xs ++ node :: ref :: ys) /\
    only_changes h h' (node :: xs ++ ref :: ys).
Proof.
  intros Hrep Hfr. pose proof Hrep as [_ _ _ Hc _ H0].
  apply chain_app in Hc as [_ [Href _]].
  unfold list_add_before. assert (ref <> NULL) by set_solver. run.
  destruct xs as [|x xs _] using rev_ind; simpl.
  - unfold list_add_after. rewrite Z.eqb_refl. by apply list_prepend_refines.
  - rewrite last_or_app. simpl. rewrite <- !app_assoc in *. simpl in *.
    destruct (list_add_after_refines h l xs x (ref :: ys) node) as (h' & l' & -> & ? & ?);
      [done..|]. eauto.
Qed.
(** ** Removal *)

Lemma list_remove_refines h l xs x ys :
  represents h l (xs ++ x :: ys) ->
  exists h' l', list_remove h l x = Some (h', l') /\
    represents h' l' (xs ++ ys) /\ only_changes h h' (xs ++ ys).
Proof.
  intros Hrep. destruct l as [f la c]. open_rep Hrep. subst.
  assert (x <> NULL /\ x ∉ xs /\ x ∉ ys) as (Hx0 & Hxx & Hxy).
  { pose proof Hnd as (? & Hd & [? ?]%NoDup_cons)%NoDup_app. set_solver. }
  assert (NoDup (xs ++ ys) /\ NULL ∉ xs ++ ys) as [Hnd' H0'].
  { split; [|set_solver]. rewrite <- Permutation_middle in Hnd.
    by apply NoDup_cons in Hnd as [_ ?]. }
  assert (u64 (lenZ (xs ++ x :: ys)) +! -1 = u64 (lenZ (xs ++ ys))) as Hlen.
  { rewrite u64_pred, !lenZ_app, lenZ_cons. f_equal. lia. }
  apply chain_app in Hc as [Hxs [Hx Hys]]. simpl in Hxs.
  unfold list_remove. destruct xs as [|w xs _] using rev_ind; destruct ys as [|y ys];
    simpl in *; rewrite ?last_or_app, ?hd_or_app in *; simpl in *.
  - run. eexists _, _. split; [done|]. split; [split; done|done].
  - assert (y <> NULL /\ y ∉ ys) as [Hy0 Hyy] by (apply NoDup_cons in Hnd'; set_solver).
    assert (x <> y) by set_solver. pose proof Hys as [Hy _]. run.
    eexists _, _. split; [done|]. split.
    + split; simpl; try done. by apply (chain_relink_head _ x).
    + intros p Hp. rewrite lookup_insert_ne; set_solver.
  - pose proof Hxs as [_ Hw]%chain_snoc.
    assert (w <> NULL /\ w <> x /\ w ∉ xs) as (Hw0 & Hwx & Hww).
    { rewrite app_nil_r in Hnd'. apply NoDup_app in Hnd' as (_ & Hd & _). set_solver. }
    run. rewrite app_nil_r in *. eexists _, _. split; [done|]. split.
    + split; simpl; rewrite ?hd_or_app, ?last_or_app; try done.
      by apply (chain_relink_last _ _ _ _ x).
    + intros p Hp. rewrite lookup_insert_ne; set_solver.
  - pose proof Hxs as [_ Hw]%chain_snoc. pose proof Hys as [Hy _].
    assert (w <> NULL /\ w <> x /\ w ∉ xs /\ y <> NULL /\ x <> y /\ y ∉ ys /\ w <> y /\
      w ∉ ys /\ y ∉ xs) as (Hw0 & Hwx & Hww & Hy0 & Hxy0 & Hyy & Hwy & Hwys & Hyx).
    { pose proof Hnd' as (Hnd1 & Hd & [? ?]%NoDup_cons)%NoDup_app.
      apply NoDup_app in Hnd1 as (_ & Hd1 & _). set_solver. }
    run. eexists _, _. split; [done|]. split.
    + split; simpl; rewrite ?last_or_app, ?hd_or_app; simpl; try done.
      * apply chain_app. rewrite last_or_app. split.
        -- apply chain_frame; [set_solver|]. by apply (chain_relink_last _ _ _ _ x).
        -- apply (chain_relink_head _ x); [|done].
           apply (chain_frame _ _ (y :: ys)); [set_solver|done].
    + intros p Hp. rewrite !lookup_insert_ne; set_solver.
Qed.

(** ** Traversal *)

Lemma walk_chain fuel h p xs :
  NULL ∉ xs -> chain h p xs NULL -> (length xs <= fuel)%nat ->
  walk fuel h (hd_or NULL xs) = Some xs.
Proof.
  revert p fuel. induction xs as [|x xs IH]; intros p fuel H0 Hc Hf; simpl in *.
  - destruct fuel; done.
  - destruct fuel as [|fuel]; [lia|]. destruct Hc as [Hx Hc].
    assert (x <> NULL /\ NULL ∉ xs) as [Hx0 Hxs] by set_solver.
    simpl. run. rewrite (IH x fuel) by (done || lia). done.
Qed.

(** * Properties *)

(** The insertions of list.c are correct.  On a memory and a list header that
    represent the sequence [xs ++ ref :: ys], with a node that is allocated and
    not linked yet, prepending, appending, adding after [ref] and adding before
    [ref] all succeed, the result represents the sequence with the node at the
    expected place (ends, count and both directions of links included), and no
    memory outside the list and the node changes. *)
Theorem list_insert_correct h l xs ref ys node :
  represents h l (xs ++ ref :: ys) -> fresh_node h (xs ++ ref :: ys) node ->
  let inserts op res := exists h' l', op = Some (h', l') /\ represents h' l' res /\
    only_changes h h' (node :: xs ++ ref :: ys) in
  inserts (list_prepend h l node) (node :: xs ++ ref :: ys) /\
  inserts (list_append h l node) (xs ++ ref :: ys ++ [node]) /\
  inserts (list_add_after h l ref node) (xs ++ ref :: node :: ys) /\
  inserts (list_add_before h l ref node) (xs ++ node :: ref :: ys).
Proof.
  intros Hrep Hfr. split_and!.
  - by apply list_prepend_refines.
  - replace (xs ++ ref :: ys ++ [node]) with ((xs ++ ref :: ys) ++ [node])
      by (rewrite <- app_assoc; done).
    by apply list_append_refines.
  - by apply list_add_after_refines.
  - by apply list_add_before_refines.
Qed.

(** [list_remove] of a linked node is correct, and [foreach] then visits
    exactly the remaining nodes in order: the removal succeeds, the result
    represents the sequence without the node, only the remaining nodes are
    written, and a traversal with at least as many steps as nodes terminates
    with them. *)
Theorem list_remove_foreach_correct h l xs x ys :
  represents h l (xs ++ x :: ys) ->
  exists h' l', list_remove h l x = Some (h', l') /\
    represents h' l' (xs ++ ys) /\ only_changes h h' (xs ++ ys) /\
    forall fuel, (length (xs ++ ys) <= fuel)%nat -> foreach fuel h' l' = Some (xs ++ ys).
Proof.
  intros Hrep. destruct (list_remove_refines _ _ _ _ _ Hrep) as (h' & l' & He & Hr & Ho).
  exists h', l'. split_and!; [done..|]. intros fuel Hf.
  unfold foreach. rewrite (rep_first _ _ _ Hr).
  by eapply walk_chain; [apply Hr|apply (rep_chain _ _ _ Hr)|].
Qed.

(** A concrete list: nodes at 16, 32 and 48, and a free node at 64. *)
Definition ex_heap : gmap Z list_node :=
  {[ 16 := mk_node 32 0; 32 := mk_node 48 16; 48 := mk_node 0 32; 64 := mk_node 7 7 ]}.
Definition ex_list : list_t := mk_list 16 48 3.

Lemma ex_represents : represents ex_heap ex_list [16; 32; 48].
Proof.
  split; [done..| | |].
  - repeat split; by vm_compute.
  - by apply (bool_decide_unpack (NoDup [16; 32; 48])).
  - by apply (bool_decide_unpack (NULL ∉ [16; 32; 48])).
Qed.

Lemma ex_fresh : fresh_node ex_heap [16; 32; 48] 64.
Proof.
  split; [by eexists| |done]. by apply (bool_decide_unpack (64 ∉ [16; 32; 48])).
Qed.

Lemma list_insert_correct_witness :
  exists h' l', list_add_before ex_heap ex_list 32 64 = Some (h', l') /\
    represents h' l' [16; 64; 32; 48].
Proof.
  destruct (list_insert_correct ex_heap ex_list [16] 32 [48] 64 ex_represents ex_fresh)
    as (_ & _ & _ & h' & l' & H1 & H2 & _).
  exists h', l'. split; [exact H1|exact H2].
Defined.

Lemma list_remove_foreach_correct_witness :
  exists h' l', list_remove ex_heap ex_list 32 = Some (h', l') /\
    foreach 2 h' l' = Some [16; 48].
Proof.
  destruct (list_remove_foreach_correct ex_heap ex_list [16] 32 [48] ex_represents)
    as (h' & l' & H1 & _ & _ & H4).
  exists h', l'. split; [exact H1|apply H4; simpl; lia].
Defined.

End KList.
