(* ===== verification/UserMem.v ===== *)
(** Memory seen by the copy routines of the kernel
    (kernel/include/task/userspace.h, kernel/arch/x86_64/copy.s).

    A byte memory is a finite map from addresses to bytes whose domain is the
    accessible part of the address space.  [safe_copy_from] and [safe_copy_to]
    move a block of bytes, or report a fault when a byte of the outer buffer is
    not accessible.  What a faulting copy has moved before the fault is not
    observable through the kernel objects that use it: they count the bytes only
    after a successful copy; the memory of the faulting buffer is left as it
    was. *)

From S2P Require Import Prelude.

Module UserMem.

Implicit Types (m : gmap Z Z) (bs : list Z) (addr n : Z).

(** The bytes at [addr], [addr + 1], ..., [addr + n - 1]. *)
Definition load_bytes m addr n : option (list Z) := mapM (fun a => m !! a) (seqZ addr n).

Fixpoint poke m addr bs : gmap Z Z :=
  match bs with
  | [] => m
  | b :: bs => poke (<[addr := b]> m) (addr + 1) bs
  end.

Definition safe_copy_from m addr n : option (list Z) := load_bytes m addr n.

Definition safe_copy_to m addr bs : option (gmap Z Z) :=
  match load_bytes m addr (lenZ bs) with
  | Some _ => Some (poke m addr bs)
  | None => None
  end.

Lemma load_bytes_nil m addr n : n <= 0 -> load_bytes m addr n = Some [].
Proof. intros. unfold load_bytes. rewrite seqZ_nil by lia. done. Qed.

Lemma load_bytes_cons m addr n :
  0 < n -> load_bytes m addr n =
    b ← m !! addr; bs ← load_bytes m (addr + 1) (n - 1); Some (b :: bs).
Proof.
  intros. unfold load_bytes. rewrite seqZ_cons by lia. simpl.
  rewrite <- Z.add_1_r. replace (Z.pred n) with (n - 1) by lia. done.
Qed.

Lemma load_bytes_length m addr n bs :
  0 <= n -> load_bytes m addr n = Some bs -> lenZ bs = n.
Proof.
  unfold load_bytes, lenZ. intros Hn H. apply length_mapM in H.
  rewrite <- H, length_seqZ. lia.
Qed.

Lemma load_bytes_add m addr a b :
  0 <= a -> 0 <= b ->
  load_bytes m addr (a + b) =
    xs ← load_bytes m addr a; ys ← load_bytes m (addr + a) b; Some (xs ++ ys).
Proof.
  intros Ha Hb. unfold load_bytes. rewrite seqZ_app by lia.
  generalize (seqZ (addr + a) b). intros l2. induction (seqZ addr a) as [|x l IH]; simpl.
  - destruct (mapM (fun a0 => m !! a0) l2); done.
  - destruct (m !! x); simpl; [|done]. rewrite IH.
    destruct (mapM _ l); simpl; [|done]. destruct (mapM _ l2); done.
Qed.

Lemma load_bytes_split m addr a b bs :
  0 <= a -> 0 <= b -> load_bytes m addr (a + b) = Some bs ->
  load_bytes m addr a = Some (takeZ a bs) /\ load_bytes m (addr + a) b = Some (dropZ a bs).
Proof.
  intros Ha Hb. rewrite load_bytes_add by done.
  destruct (load_bytes m addr a) as [xs|] eqn:Hx; simpl; [|done].
  destruct (load_bytes m (addr + a) b) as [ys|] eqn:Hy; simpl; [|done].
  intros [= <-]. apply load_bytes_length in Hx as Hl; [|done].
  assert (Z.to_nat a = length xs) as E by (unfold lenZ in *; lia).
  unfold takeZ, dropZ. rewrite E, take_app_length, drop_app_length. done.
Qed.

Lemma poke_out m addr bs a :
  (a < addr \/ addr + lenZ bs <= a) -> poke m addr bs !! a = m !! a.
Proof.
  revert m addr. induction bs as [|b bs IH]; intros m addr Ha; simpl; [done|].
  rewrite lenZ_cons in Ha. pose proof (lenZ_nonneg bs).
  rewrite IH by lia. apply lookup_insert_ne. lia.
Qed.

Lemma load_bytes_ext m m' addr n :
  (forall a, addr <= a < addr + n -> m !! a = m' !! a) ->
  load_bytes m addr n = load_bytes m' addr n.
Proof.
  intros H. unfold load_bytes. apply Forall_mapM_ext.
  apply Forall_forall. intros a Ha%elem_of_seqZ. apply H. lia.
Qed.

Lemma load_poke m addr bs : load_bytes (poke m addr bs) addr (lenZ bs) = Some bs.
Proof.
  revert m addr. induction bs as [|b bs IH]; intros m addr; simpl.
  - by apply load_bytes_nil.
  - rewrite lenZ_cons. pose proof (lenZ_nonneg bs).
    rewrite load_bytes_cons by lia. rewrite poke_out, lookup_insert_eq by lia. simpl.
    replace (1 + lenZ bs - 1) with (lenZ bs) by lia. rewrite IH. done.
Qed.

(** Accessibility does not change when accessible bytes are written. *)
Lemma load_bytes_poke_is_Some m addr bs a n :
  is_Some (load_bytes m addr (lenZ bs)) -> is_Some (load_bytes m a n) ->
  is_Some (load_bytes (poke m addr bs) a n).
Proof.
  unfold load_bytes. rewrite !mapM_is_Some. intros H1 H2.
  apply Forall_forall. intros x Hx. rewrite Forall_forall in H1, H2.
  destruct (decide (addr <= x < addr + lenZ bs)) as [Hin|Hout].
  - clear H1 H2. revert m addr Hin. induction bs as [|b bs IH]; intros m addr Hin.
    { unfold lenZ in Hin. simpl in Hin. lia. }
    rewrite lenZ_cons in Hin. simpl. destruct (decide (x = addr)) as [->|].
    + rewrite poke_out, lookup_insert_eq by lia. by eexists.
    + apply IH. lia.
  - simpl. rewrite poke_out by lia. by apply H2.
Qed.

Lemma poke_app m addr xs ys : poke m addr (xs ++ ys) = poke (poke m addr xs) (addr + lenZ xs) ys.
Proof.
  revert m addr. induction xs as [|x xs IH]; intros m addr; simpl.
  - unfold lenZ. simpl. by rewrite Z.add_0_r.
  - rewrite IH, lenZ_cons. f_equal. lia.
Qed.

End UserMem.
