(* ===== verification/RingBuf.v ===== *)
(** The ring buffer of the kernel (kernel/klib/ringbuf.c,
    kernel/include/klib/ringbuf.h).

    [ringbuffer_read] and [ringbuffer_write] are the two-step circular copies of
    the source, with their early returns on a fault.  [contents] is the queue of
    bytes that a ring buffer holds; the theorems show that a write appends to it,
    a read takes from its front, and that the well-formedness of the offsets is
    preserved on every path.  [ByteQueue] is the interface the clients (pipes,
    terminals) rely on; the ring buffer is its instance. *)

From S2P Require Import Prelude UserMem.
Import UserMem.

Module RingBuf.

Record ringbuffer := mk_ring {
  buffer : list Z;
  write_offset : Z;
  read_offset : Z;
  buffer_size : Z;
  read_available : Z;
}.

#[global] Instance ringbuffer_eq_dec : EqDecision ringbuffer.
Proof. solve_decision. Defined.

Implicit Types (ring : ringbuffer) (mem : gmap Z Z) (buf count : Z).

(** [mem] is what [kmalloc (buffer_size)] returned. *)
Definition ringbuffer_init (mem : option (list Z)) (size : Z) : ringbuffer * res unit :=
  match mem with
  | None => (mk_ring [] 0 0 size 0, Err ENOMEM)
  | Some b => (mk_ring b 0 0 size 0, Ok tt)
  end.

Definition ringbuffer_read_available ring : Z := read_available ring.

Definition ringbuffer_write_available ring : Z :=
  buffer_size ring -! ringbuffer_read_available ring.

Definition ringbuffer_read ring mem buf count : ringbuffer * gmap Z Z * res Z :=
  let count := if ringbuffer_read_available ring <? count
               then ringbuffer_read_available ring else count in
  let finish ring mem buf rest_count :=
    match safe_copy_to mem buf (takeZ rest_count (dropZ (read_offset ring) (buffer ring))) with
    | None => (ring, mem, Err EFAULT)
    | Some mem =>
        (mk_ring (buffer ring) (write_offset ring) (read_offset ring +! rest_count)
           (buffer_size ring) (read_available ring -! rest_count), mem, Ok count)
    end in
  if buffer_size ring <=? count +! read_offset ring then
    let first := buffer_size ring -! read_offset ring in
    match safe_copy_to mem buf (takeZ first (dropZ (read_offset ring) (buffer ring))) with
    | None => (ring, mem, Err EFAULT)
    | Some mem =>
        finish (mk_ring (buffer ring) (write_offset ring) 0 (buffer_size ring)
                  (read_available ring -! first)) mem (buf + first) (count -! first)
    end
  else finish ring mem buf count.

Definition ringbuffer_write ring mem buf count : ringbuffer * res Z :=
  let count := if ringbuffer_write_available ring <? count
               then ringbuffer_write_available ring else count in
  let finish ring buf rest_count :=
    match safe_copy_from mem buf rest_count with
    | None => (ring, Err EFAULT)
    | Some bs =>
        (mk_ring (blit (write_offset ring) bs (buffer ring)) (write_offset ring +! rest_count)
           (read_offset ring) (buffer_size ring) (read_available ring +! rest_count), Ok count)
    end in
  if buffer_size ring <=? count +! write_offset ring then
    let first := buffer_size ring -! write_offset ring in
    match safe_copy_from mem buf first with
    | None => (ring, Err EFAULT)
    | Some bs =>
        finish (mk_ring (blit (write_offset ring) bs (buffer ring)) 0 (read_offset ring)
                  (buffer_size ring) (read_available ring +! first))
               (buf + first) (count -! first)
    end
  else finish ring buf count.

(** * The queue a ring buffer holds *)

(** The bytes of the buffer in reading order. *)
Definition unrolled ring : list Z :=
  dropZ (read_offset ring) (buffer ring) ++ takeZ (read_offset ring) (buffer ring).

Definition contents ring : list Z := takeZ (read_available ring) (unrolled ring).

Record wf ring : Prop := {
  wf_size : 0 < buffer_size ring < 2 ^ 63;
  wf_len : lenZ (buffer ring) = buffer_size ring;
  wf_read : 0 <= read_offset ring < buffer_size ring;
  wf_avail : 0 <= read_available ring <= buffer_size ring;
  wf_write : write_offset ring = (read_offset ring + read_available ring) mod buffer_size ring;
}.

(** The two cases of the write offset, without [mod]. *)
Lemma wf_write_cases ring :
  wf ring ->
  (read_offset ring + read_available ring < buffer_size ring /\
   write_offset ring = read_offset ring + read_available ring) \/
  (buffer_size ring <= read_offset ring + read_available ring /\
   write_offset ring = read_offset ring + read_available ring - buffer_size ring).
Proof.
  intros [? ? ? ? Hw].
  destruct (decide (read_offset ring + read_available ring < buffer_size ring)).
  - left. rewrite Hw, Z.mod_small by lia. lia.
  - right. split; [lia|]. rewrite Hw. symmetry.
    apply Z.mod_unique with 1; lia.
Qed.

Lemma lenZ_unrolled ring : wf ring -> lenZ (unrolled ring) = buffer_size ring.
Proof.
  intros []. unfold unrolled. rewrite lenZ_app, lenZ_dropZ, lenZ_takeZ by lia. lia.
Qed.

Lemma lenZ_contents ring : wf ring -> lenZ (contents ring) = read_available ring.
Proof.
  intros Hwf. unfold contents. rewrite lenZ_takeZ; [done|].
  rewrite lenZ_unrolled by done. apply Hwf.
Qed.
(** ** Circular views, on lists *)

(** The first [av] elements of [buf] read circularly from [ro]. *)
Definition view (buf : list Z) (ro av : nat) : list Z := take av (drop ro buf ++ take ro buf).

(** Reading [k] elements that do not cross the end of the buffer. *)
Lemma view_advance (buf : list Z) ro ro' av k :
  (ro < length buf)%nat -> (k <= av <= length buf)%nat -> (ro + k <= length buf)%nat ->
  (ro' = ro + k \/ (ro + k = length buf /\ ro' = 0))%nat ->
  view buf ro av = take k (drop ro buf) ++ view buf ro' (av - k).
Proof.
  intros Hro Hk Hle Hro'. unfold view.
  rewrite <- (take_drop k (drop ro buf)) at 1. rewrite drop_drop, <- app_assoc.
  assert (length (take k (drop ro buf)) = k) as Hl by (rewrite length_take, length_drop; lia).
  rewrite take_app_ge by lia. rewrite Hl. f_equal.
  destruct Hro' as [->|[He ->]].
  - rewrite <- (take_drop ro (take (ro + k) buf)), take_take, Nat.min_l by lia.
    rewrite app_assoc. rewrite (take_app_le (_ ++ _)); [done|].
    rewrite length_app, length_drop, length_take. lia.
  - rewrite (drop_ge buf) by lia. simpl. rewrite app_nil_r, take_take, Nat.min_l by lia. done.
Qed.

(** Storing [bs] after the elements in use, without crossing the end. *)
Lemma view_store (buf : list Z) ro av w bs :
  (ro < length buf)%nat -> (av + length bs <= length buf)%nat ->
  (w + length bs <= length buf)%nat ->
  (w = ro + av \/ (length buf <= ro + av /\ w = ro + av - length buf))%nat ->
  view (list_inserts w bs buf) ro (av + length bs) = view buf ro av ++ bs.
Proof.
  intros Hro Hav Hw Hcase. unfold view. rewrite list_inserts_eq by lia.
  destruct Hcase as [->|[Hge ->]].
  - rewrite drop_app_le by (rewrite length_take; lia).
    rewrite (take_app_le (take (ro + av) buf)) by (rewrite length_take; lia).
    rewrite !skipn_firstn_comm. replace (ro + av - ro)%nat with av by lia.
    rewrite <- !app_assoc, app_assoc.
    rewrite take_app_le; [|rewrite !length_app, length_take, length_drop; lia].
    rewrite take_ge by (rewrite length_app, length_take; lia).
    rewrite take_app_le by (rewrite length_drop; lia). done.
  - set (w := (ro + av - length buf)%nat). assert (w + length bs <= ro)%nat by lia.
    rewrite drop_app_ge by (rewrite length_take; lia).
    rewrite drop_app_ge by (rewrite length_take; lia).
    rewrite drop_drop, length_take, Nat.min_l by lia.
    replace (w + length bs + (ro - w - length bs))%nat with ro by lia.
    rewrite (take_app_ge (take w buf)) by (rewrite length_take; lia).
    rewrite (take_app_ge bs) by (rewrite length_take; lia).
    rewrite !app_assoc. rewrite take_app_le;
      [|rewrite !length_app, length_take, length_drop; lia].
    rewrite take_ge by (rewrite !length_app, length_take, length_drop; lia).
    f_equal. rewrite take_app_ge by (rewrite length_drop; lia).
    rewrite take_take, length_drop, Nat.min_l by lia. do 2 f_equal. lia.
Qed.

Lemma contents_view ring :
  contents ring = view (buffer ring) (Z.to_nat (read_offset ring)) (Z.to_nat (read_available ring)).
Proof. done. Qed.
(** ** One copy that does not cross the end of the buffer *)

Lemma push_wf ring bs wo' :
  wf ring ->
  read_available ring + lenZ bs <= buffer_size ring ->
  write_offset ring + lenZ bs <= buffer_size ring ->
  (wo' = write_offset ring + lenZ bs /\ wo' < buffer_size ring \/
   write_offset ring + lenZ bs = buffer_size ring /\ wo' = 0) ->
  let ring' := mk_ring (blit (write_offset ring) bs (buffer ring)) wo' (read_offset ring)
                 (buffer_size ring) (read_available ring + lenZ bs) in
  wf ring' /\ contents ring' = contents ring ++ bs.
Proof.
  intros Hwf Hav Hw Hwo ring'. pose proof (wf_write_cases _ Hwf) as Hcase.
  pose proof Hwf as [? Hlen ? ? _]. pose proof (lenZ_nonneg bs). split.
  - split; simpl; [done|by rewrite lenZ_blit|done|lia|].
    destruct Hcase as [[? ?]|[? ?]], Hwo as [[-> ?]|[? ->]].
    + rewrite Z.mod_small by lia. lia.
    + apply Z.mod_unique with 1; lia.
    + apply Z.mod_unique with 1; lia.
    + apply Z.mod_unique with 2; lia.
  - rewrite !contents_view. unfold ring', blit, lenZ in *. simpl.
    rewrite Z2Nat.inj_add, Nat2Z.id by lia. apply view_store; lia.
Qed.

Lemma pop_wf ring k ro' :
  wf ring -> 0 <= k <= read_available ring -> read_offset ring + k <= buffer_size ring ->
  (ro' = read_offset ring + k /\ ro' < buffer_size ring \/
   read_offset ring + k = buffer_size ring /\ ro' = 0) ->
  let ring' := mk_ring (buffer ring) (write_offset ring) ro' (buffer_size ring)
                 (read_available ring - k) in
  wf ring' /\
  contents ring = takeZ k (dropZ (read_offset ring) (buffer ring)) ++ contents ring'.
Proof.
  intros Hwf Hk Hr Hro ring'. pose proof (wf_write_cases _ Hwf) as Hcase.
  pose proof Hwf as [? Hlen ? ? _]. split.
  - split; simpl; [done..|lia|lia|].
    destruct Hcase as [[? ->]|[? ->]], Hro as [[-> ?]|[? ->]].
    + rewrite Z.mod_small by lia. lia.
    + apply Z.mod_unique with 0; lia.
    + apply Z.mod_unique with 1; lia.
    + apply Z.mod_unique with 0; lia.
  - rewrite !contents_view. unfold ring', takeZ, dropZ, lenZ in *. simpl.
    replace (Z.to_nat (read_available ring - k))
      with (Z.to_nat (read_available ring) - Z.to_nat k)%nat by lia.
    apply view_advance; lia.
Qed.

(** The bytes a read or write transfers. *)
Definition write_count ring count : Z :=
  Z.min count (buffer_size ring - read_available ring).
Definition read_count ring count : Z := Z.min count (read_available ring).

(** The clamping of the count in the source. *)
Lemma write_clamp ring count :
  wf ring -> (if ringbuffer_write_available ring <? count
              then ringbuffer_write_available ring else count) = write_count ring count.
Proof.
  intros []. unfold ringbuffer_write_available, ringbuffer_read_available, write_count.
  unwrap. case_if; lia.
Qed.

Lemma read_clamp ring count :
  wf ring -> (if ringbuffer_read_available ring <? count
              then ringbuffer_read_available ring else count) = read_count ring count.
Proof.
  intros []. unfold ringbuffer_read_available, read_count. case_if; lia.
Qed.

Lemma ringbuffer_write_spec ring mem buf count bs :
  wf ring -> 0 <= count -> load_bytes mem buf (write_count ring count) = Some bs ->
  exists ring', ringbuffer_write ring mem buf count = (ring', Ok (write_count ring count)) /\
    wf ring' /\ contents ring' = contents ring ++ bs /\
    buffer_size ring' = buffer_size ring.
Proof.
  intros Hwf Hc Hload. pose proof (wf_write_cases _ Hwf) as Hcase. pose proof Hwf as [? ? ? ? _].
  assert (0 <= write_count ring count <= buffer_size ring - read_available ring) as Hn
    by (unfold write_count; lia).
  unfold ringbuffer_write. rewrite write_clamp by done.
  generalize dependent (write_count ring count). intros n Hload Hn.
  apply load_bytes_length in Hload as Hlen; [|lia]. unwrap. case_if.
  - set (k := buffer_size ring - write_offset ring) in *.
    replace n with (k + (n - k)) in Hload by lia.
    apply load_bytes_split in Hload as [H1 H2]; [|lia..].
    unfold safe_copy_from. rewrite H1.
    apply load_bytes_length in H1 as HL1; [|lia].
    apply load_bytes_length in H2 as HL2; [|lia].
    destruct (push_wf ring (takeZ k bs) 0) as [Hwf1 Hc1]; [done|lia..|].
    unwrap. rewrite H2. simpl.
    destruct (push_wf _ (dropZ k bs) (n - k) Hwf1) as [Hwf2 Hc2]; simpl; [lia..|].
    simpl in Hwf2, Hc2. rewrite HL1 in *. rewrite HL2 in *.
    unwrap. eexists. split; [done|]. split; [done|]. split; [|done].
    etrans; [exact Hc2|]. rewrite Hc1, <- app_assoc.
    unfold takeZ, dropZ. by rewrite take_drop.
  - unfold safe_copy_from. rewrite Hload.
    destruct (push_wf ring bs (write_offset ring + n)) as [Hwf1 Hc1]; [done|lia..|].
    simpl in Hwf1, Hc1. rewrite Hlen in *. unwrap. eexists. eauto.
Qed.
Lemma ringbuffer_write_fault ring mem buf count :
  wf ring -> 0 <= count -> load_bytes mem buf (write_count ring count) = None ->
  exists ring' bs, ringbuffer_write ring mem buf count = (ring', Err EFAULT) /\
    wf ring' /\ contents ring' = contents ring ++ bs /\
    load_bytes mem buf (lenZ bs) = Some bs /\
    buffer_size ring' = buffer_size ring.
Proof.
  intros Hwf Hc Hload. pose proof (wf_write_cases _ Hwf) as Hcase. pose proof Hwf as [? ? ? ? _].
  assert (0 <= write_count ring count <= buffer_size ring - read_available ring) as Hn
    by (unfold write_count; lia).
  unfold ringbuffer_write. rewrite write_clamp by done.
  generalize dependent (write_count ring count). intros n Hload Hn. unwrap. case_if.
  - set (k := buffer_size ring - write_offset ring) in *.
    replace n with (k + (n - k)) in Hload by lia.
    rewrite load_bytes_add in Hload by lia. unfold safe_copy_from.
    destruct (load_bytes mem buf k) as [xs|] eqn:Hx; simpl in Hload.
    + destruct (load_bytes mem (buf + k) (n - k)) as [ys|] eqn:Hy; [done|].
      apply load_bytes_length in Hx as HL; [|lia].
      destruct (push_wf ring xs 0) as [Hwf1 Hc1]; [done|lia..|].
      unwrap. rewrite Hy. rewrite HL in *. exists (mk_ring
        (blit (write_offset ring) xs (buffer ring)) 0 (read_offset ring)
        (buffer_size ring) (read_available ring + k)), xs. rewrite HL. done.
    + exists ring, []. rewrite app_nil_r, load_bytes_nil by done. done.
  - unfold safe_copy_from. rewrite Hload. exists ring, [].
    rewrite app_nil_r, load_bytes_nil by done. done.
Qed.

Lemma lenZ_slice ring k :
  wf ring -> 0 <= k -> read_offset ring + k <= buffer_size ring ->
  lenZ (takeZ k (dropZ (read_offset ring) (buffer ring))) = k.
Proof. intros [] ? ?. rewrite lenZ_takeZ; rewrite ?lenZ_dropZ; lia. Qed.

Lemma dropZ_takeZ_app {A} k (xs ys zs : list A) :
  lenZ xs = k -> zs = xs ++ ys -> takeZ k zs = xs /\ dropZ k zs = ys.
Proof.
  unfold lenZ, takeZ, dropZ. intros Hk ->.
  replace (Z.to_nat k) with (length xs) by lia.
  by rewrite take_app_length, drop_app_length.
Qed.

Lemma ringbuffer_read_spec ring mem buf count :
  wf ring -> 0 <= count -> is_Some (load_bytes mem buf (read_count ring count)) ->
  let n := read_count ring count in
  exists ring', ringbuffer_read ring mem buf count =
      (ring', poke mem buf (takeZ n (contents ring)), Ok n) /\
    wf ring' /\ contents ring' = dropZ n (contents ring) /\
    buffer_size ring' = buffer_size ring.
Proof.
  intros Hwf Hc Hload n. pose proof Hwf as [? ? ? ? _].
  assert (0 <= n <= read_available ring) as Hn by (unfold n, read_count; lia).
  unfold ringbuffer_read. rewrite read_clamp by done. fold n in Hload |- *.
  unwrap. case_if.
  - set (k := buffer_size ring - read_offset ring) in *.
    destruct (pop_wf ring k 0) as [Hwf1 Hc1]; [done|lia..|].
    set (ring1 := mk_ring (buffer ring) (write_offset ring) 0 (buffer_size ring)
                    (read_available ring - k)) in *.
    destruct (pop_wf ring1 (n - k) (n - k)) as [Hwf2 Hc2]; [done|simpl; lia..|].
    pose proof (lenZ_slice ring k Hwf ltac:(lia) ltac:(lia)) as HL1.
    pose proof (lenZ_slice ring1 (n - k) Hwf1 ltac:(lia) ltac:(simpl; lia)) as HL2.
    simpl in HL2, Hc2, Hwf2.
    replace n with (k + (n - k)) in Hload by lia. destruct Hload as [bs Hload].
    apply load_bytes_split in Hload as [H1 H2]; [|lia..].
    unfold safe_copy_to. rewrite HL1, H1. unwrap. fold ring1. simpl. rewrite HL2.
    edestruct (load_bytes_poke_is_Some mem buf) as [bs2 ->];
      [rewrite HL1, H1; by eexists|rewrite H2; by eexists|].
    pose proof Hc1 as Hcc. rewrite Hc2, app_assoc in Hcc.
    apply (dropZ_takeZ_app n) in Hcc as [-> ->]; [|rewrite lenZ_app, HL1, HL2; lia].
    unwrap. eexists. split; [|done]. rewrite poke_app, HL1. done.
  - destruct (pop_wf ring n (read_offset ring + n)) as [Hwf1 Hc1]; [done|lia..|].
    pose proof (lenZ_slice ring n Hwf ltac:(lia) ltac:(lia)) as HL.
    destruct (dropZ_takeZ_app n _ _ _ HL Hc1) as [-> ->].
    unfold safe_copy_to. rewrite HL. destruct Hload as [bs ->]. unwrap.
    eexists. split; [done|]. split; [done|]. done.
Qed.

Lemma ringbuffer_read_fault ring mem buf count :
  wf ring -> 0 <= count -> load_bytes mem buf (read_count ring count) = None ->
  exists ring' mem' k, ringbuffer_read ring mem buf count = (ring', mem', Err EFAULT) /\
    wf ring' /\ contents ring' = dropZ k (contents ring) /\
    buffer_size ring' = buffer_size ring.
Proof.
  intros Hwf Hc Hload. pose proof Hwf as [? ? ? ? _].
  assert (0 <= read_count ring count <= read_available ring) as Hn
    by (unfold read_count; lia).
  unfold ringbuffer_read. rewrite read_clamp by done.
  generalize dependent (read_count ring count). intros n Hload Hn. unwrap. case_if.
  - set (k := buffer_size ring - read_offset ring) in *.
    pose proof (lenZ_slice ring k Hwf ltac:(lia) ltac:(lia)) as HL1.
    destruct (pop_wf ring k 0) as [Hwf1 Hc1]; [done|lia..|].
    set (ring1 := mk_ring (buffer ring) (write_offset ring) 0 (buffer_size ring)
                    (read_available ring - k)) in *.
    pose proof (lenZ_slice ring1 (n - k) Hwf1 ltac:(lia) ltac:(simpl; lia)) as HL2.
    simpl in HL2. replace n with (k + (n - k)) in Hload by lia.
    rewrite load_bytes_add in Hload by lia. unfold safe_copy_to. rewrite HL1.
    destruct (load_bytes mem buf k) as [xs|] eqn:Hx; simpl in Hload.
    + destruct (load_bytes mem (buf + k) (n - k)) as [ys|] eqn:Hy; [done|].
      unwrap. fold ring1. simpl. rewrite HL2.
      rewrite (load_bytes_ext _ mem), Hy by (intros; apply poke_out; lia).
      eexists _, _, k. split; [done|]. split; [done|]. split; [|done].
      by destruct (dropZ_takeZ_app k _ _ _ HL1 Hc1) as [_ ->].
    + eexists _, _, 0. split; [done|]. done.
  - unfold safe_copy_to.
    rewrite (lenZ_slice ring n Hwf ltac:(lia) ltac:(lia)), Hload.
    eexists _, _, 0. split; [done|]. done.
Qed.
(** * The interface of a byte queue

    What the clients of the ring buffer use: its four operations, the bytes it
    holds and its capacity, with the laws that tie them together. *)

Class ByteQueue (Q : Type) := {
  q_read : Q -> gmap Z Z -> Z -> Z -> Q * gmap Z Z * res Z;
  q_write : Q -> gmap Z Z -> Z -> Z -> Q * res Z;
  q_read_available : Q -> Z;
  q_write_available : Q -> Z;
  q_ok : Q -> Prop;
  q_contents : Q -> list Z;
  q_capacity : Q -> Z;
}.

Class ByteQueueLaws (Q : Type) `{ByteQueue Q} : Prop := {
  q_capacity_pos : forall q, q_ok q -> 0 < q_capacity q < 2 ^ 63;
  q_bounded : forall q, q_ok q -> lenZ (q_contents q) <= q_capacity q;
  q_read_available_spec : forall q, q_ok q -> q_read_available q = lenZ (q_contents q);
  q_write_available_spec : forall q, q_ok q ->
    q_write_available q = q_capacity q - lenZ (q_contents q);
  q_write_spec : forall q mem buf count, q_ok q -> 0 <= count ->
    match load_bytes mem buf (Z.min count (q_write_available q)) with
    | Some bs => exists q', q_write q mem buf count = (q', Ok (lenZ bs)) /\
        q_ok q' /\ q_contents q' = q_contents q ++ bs /\ q_capacity q' = q_capacity q
    | None => exists q' bs, q_write q mem buf count = (q', Err EFAULT) /\
        q_ok q' /\ q_contents q' = q_contents q ++ bs /\
        load_bytes mem buf (lenZ bs) = Some bs /\ q_capacity q' = q_capacity q
    end;
  q_read_spec : forall q mem buf count, q_ok q -> 0 <= count ->
    let n := Z.min count (q_read_available q) in
    match load_bytes mem buf n with
    | Some _ => exists q', q_read q mem buf count =
          (q', poke mem buf (takeZ n (q_contents q)), Ok n) /\
        q_ok q' /\ q_contents q' = dropZ n (q_contents q) /\ q_capacity q' = q_capacity q
    | None => exists q' mem' k, q_read q mem buf count = (q', mem', Err EFAULT) /\
        q_ok q' /\ q_contents q' = dropZ k (q_contents q) /\ q_capacity q' = q_capacity q
    end;
}.

#[export] Instance ring_queue : ByteQueue ringbuffer := {
  q_read := ringbuffer_read;
  q_write := ringbuffer_write;
  q_read_available := ringbuffer_read_available;
  q_write_available := ringbuffer_write_available;
  q_ok := wf;
  q_contents := contents;
  q_capacity := buffer_size;
}.

Lemma write_available_eq ring :
  wf ring -> ringbuffer_write_available ring = buffer_size ring - read_available ring.
Proof.
  intros []. unfold ringbuffer_write_available, ringbuffer_read_available. by unwrap.
Qed.

#[export] Instance ring_queue_laws : ByteQueueLaws ringbuffer.
Proof.
  split; simpl; intros q.
  - apply wf_size.
  - intros Hwf. rewrite lenZ_contents by done. apply Hwf.
  - intros Hwf. by rewrite lenZ_contents.
  - intros Hwf. by rewrite lenZ_contents, write_available_eq.
  - intros mem buf count Hwf Hc. rewrite write_available_eq by done.
    destruct (load_bytes _ _ _) as [bs|] eqn:E.
    + pose proof (wf_avail _ Hwf). apply load_bytes_length in E as HL; [|lia].
      rewrite HL. by apply ringbuffer_write_spec.
    + by apply ringbuffer_write_fault.
  - intros mem buf count Hwf Hc. destruct (load_bytes _ _ _) as [bs|] eqn:E.
    + apply ringbuffer_read_spec; [done..|by eexists].
    + by apply ringbuffer_read_fault.
Qed.

(** * Properties *)

(** [ringbuffer_write] is a bounded append on every path.  From a well-formed
    ring, when the [min count free] source bytes can be read they are appended
    to the queue and their number is returned, across the wrap-around of the
    buffer; when they cannot, -EFAULT is returned and at most an accessible prefix of
    them has been appended.  Well-formedness and capacity are kept. *)
Theorem ringbuffer_write_correct ring mem buf count :
  wf ring -> 0 <= count ->
  match load_bytes mem buf (write_count ring count) with
  | Some bs => exists ring',
      ringbuffer_write ring mem buf count = (ring', Ok (write_count ring count)) /\
      wf ring' /\ contents ring' = contents ring ++ bs /\
      buffer_size ring' = buffer_size ring
  | None => exists ring' bs, ringbuffer_write ring mem buf count = (ring', Err EFAULT) /\
      wf ring' /\ contents ring' = contents ring ++ bs /\
      load_bytes mem buf (lenZ bs) = Some bs /\ buffer_size ring' = buffer_size ring
  end.
Proof.
  intros. destruct (load_bytes _ _ _) eqn:?.
  - by apply ringbuffer_write_spec.
  - by apply ringbuffer_write_fault.
Qed.

(** [ringbuffer_read] delivers the front of the queue.  From a well-formed
    ring, when the destination of the [min count available] bytes is accessible
    exactly the oldest bytes are stored there in order, they leave the queue and
    their number is returned; otherwise -EFAULT is returned and what remains is
    a suffix of the queue. *)
Theorem ringbuffer_read_correct ring mem buf count :
  wf ring -> 0 <= count ->
  let n := read_count ring count in
  match load_bytes mem buf n with
  | Some _ => exists ring',
      ringbuffer_read ring mem buf count =
        (ring', poke mem buf (takeZ n (contents ring)), Ok n) /\
      wf ring' /\ contents ring' = dropZ n (contents ring) /\
      buffer_size ring' = buffer_size ring
  | None => exists ring' mem' k,
      ringbuffer_read ring mem buf count = (ring', mem', Err EFAULT) /\
      wf ring' /\ contents ring' = dropZ k (contents ring) /\
      buffer_size ring' = buffer_size ring
  end.
Proof.
  intros. destruct (load_bytes _ _ _) eqn:?.
  - apply ringbuffer_read_spec; [done..|by eexists].
  - by apply ringbuffer_read_fault.
Qed.

(** A ring of four slots that holds [7; 8] across its end. *)
Definition ex_ring : ringbuffer := mk_ring [8; 0; 0; 7] 1 3 4 2.
Definition ex_mem : gmap Z Z := {[ 100 := 1; 101 := 2; 102 := 3 ]}.

Lemma ex_ring_wf : wf ex_ring.
Proof. by split. Qed.

Lemma ringbuffer_write_correct_witness :
  exists ring', ringbuffer_write ex_ring ex_mem 100 3 = (ring', Ok 2) /\
    contents ring' = [7; 8; 1; 2].
Proof.
  destruct (ringbuffer_write_correct ex_ring ex_mem 100 3 ex_ring_wf ltac:(lia))
    as (ring' & H1 & _ & H3 & _).
  exists ring'. split; [exact H1|exact H3].
Defined.

Lemma ringbuffer_read_correct_witness :
  exists ring', ringbuffer_read ex_ring ex_mem 100 3 =
      (ring', {[ 100 := 7; 101 := 8; 102 := 3 ]}, Ok 2) /\ contents ring' = [].
Proof.
  destruct (ringbuffer_read_correct ex_ring ex_mem 100 3 ex_ring_wf ltac:(lia))
    as (ring' & H1 & _ & H3 & _).
  exists ring'. split; [exact H1|exact H3].
Defined.

End RingBuf.
