(* ===== verification/Blocking.v ===== *)
(** Blocking on a sleep queue (the macros of kernel/include/task/sleep.h).

    A task that waits on a queue releases its lock, blocks, and tests its
    condition again each time it is woken.  What the other tasks do to the
    shared state in between is an explicit schedule: a list of wake-ups, each
    either an interruption by a signal or a normal wake-up that finds the state
    changed by some function.  A schedule that runs out leaves the task
    asleep. *)

From S2P Require Import Prelude.

Module Blocking.

Inductive wake (S : Type) :=
  | Interrupted
  | Woken (others : S -> S).
Arguments Interrupted {S}.
Arguments Woken {S} _.

Inductive slept (S : Type) :=
  | Ready (s : S) (rest : list (wake S))
  | Intr (s : S) (rest : list (wake S))
  | Asleep.
Arguments Ready {S} _ _.
Arguments Intr {S} _ _.
Arguments Asleep {S}.

(** The condition is evaluated twice per turn of the loop of the macro, both
    times under the lock, hence on the same state. *)
Fixpoint sleep_on_queue_lock_interruptible {S} (cond : S -> bool) (s : S)
    (sched : list (wake S)) : slept S :=
  if cond s then Ready s sched else
  match sched with
  | [] => Asleep
  | Interrupted :: sched => Intr s sched
  | Woken others :: sched => sleep_on_queue_lock_interruptible cond (others s) sched
  end.

(** The other tasks keep a property of the shared state. *)
Definition respects {S} (P : S -> Prop) (sched : list (wake S)) : Prop :=
  Forall (fun w => match w with Interrupted => True | Woken f => forall s, P s -> P (f s) end)
    sched.

Lemma sleep_outcome {S} (P : S -> Prop) cond (s : S) sched :
  P s -> respects P sched ->
  match sleep_on_queue_lock_interruptible cond s sched with
  | Ready s' rest => P s' /\ cond s' = true /\ respects P rest
  | Intr s' rest => P s' /\ cond s' = false /\ respects P rest
  | Asleep => True
  end.
Proof.
  revert s. induction sched as [|w sched IH]; intros s Hs Hr; simpl.
  - destruct (cond s) eqn:?; done.
  - apply Forall_cons in Hr as Hr'. destruct Hr' as [Hw Hr'].
    destruct (cond s) eqn:?; [done|]. destruct w as [|f]; [done|].
    apply IH; auto.
Qed.

(** What the other tasks have done to the state during a part of a schedule. *)
Fixpoint run_others {S} (sched : list (wake S)) (s : S) : S :=
  match sched with
  | [] => s
  | Interrupted :: sched => run_others sched s
  | Woken f :: sched => run_others sched (f s)
  end.

(** The state after the sleep is the work of the other tasks only. *)
Lemma sleep_only_others {S} cond (s : S) sched :
  match sleep_on_queue_lock_interruptible cond s sched with
  | Ready s' rest => exists pre, sched = pre ++ rest /\ s' = run_others pre s
  | Intr s' rest => exists pre, sched = pre ++ Interrupted :: rest /\ s' = run_others pre s
  | Asleep => True
  end.
Proof.
  revert s. induction sched as [|w sched IH]; intros s; simpl.
  - destruct (cond s); [by exists []|done].
  - destruct (cond s); [by exists []|]. destruct w as [|f]; [by exists []|].
    specialize (IH (f s)). destruct (sleep_on_queue_lock_interruptible cond (f s) sched);
      [| |done]; destruct IH as (pre & -> & ->); exists (Woken f :: pre); done.
Qed.

(** The task sleeps through the whole of a part of a schedule: each of its
    wake-ups is a normal one, and the condition failed before it. *)
Fixpoint waits {S} (cond : S -> bool) (s : S) (sched : list (wake S)) : Prop :=
  match sched with
  | [] => True
  | Interrupted :: _ => False
  | Woken f :: sched => cond s = false /\ waits cond (f s) sched
  end.

(** Where the sleep ends: at the first point of the schedule at which the
    condition holds, or at the first interruption if that comes earlier; a task
    that stays asleep has slept through the whole schedule and the condition
    fails at its end. *)
Lemma sleep_exact {S} (cond : S -> bool) (s : S) sched :
  match sleep_on_queue_lock_interruptible cond s sched with
  | Ready s' rest => exists pre, sched = pre ++ rest /\ waits cond s pre /\
      s' = run_others pre s /\ cond s' = true
  | Intr s' rest => exists pre, sched = pre ++ Interrupted :: rest /\ waits cond s pre /\
      s' = run_others pre s /\ cond s' = false
  | Asleep => waits cond s sched /\ cond (run_others sched s) = false
  end.
Proof.
  revert s. induction sched as [|w sched IH]; intros s; simpl.
  - destruct (cond s) eqn:?; [by exists []|done].
  - destruct (cond s) eqn:Hc; [by exists []|]. destruct w as [|f]; [by exists []|].
    specialize (IH (f s)). destruct (sleep_on_queue_lock_interruptible cond (f s) sched);
      [| |by destruct IH]; destruct IH as (pre & -> & Hw & -> & ?);
      exists (Woken f :: pre); done.
Qed.

End Blocking.
