(* ===== verification/Pipe.v ===== *)
(** Pipes (kernel/fs/pipe.c).

    A pipe is a ring buffer with a broken flag and two sleep queues.  The model
    is over the [ByteQueue] interface of the ring buffer; the wake-ups that an
    operation sends are recorded in [woken], most recent first.  Blocking uses
    the schedules of [Blocking]; the write loop has fuel, and [WSpin] is the
    state in which the fuel is exhausted. *)

From S2P Require Import Prelude UserMem RingBuf Blocking.
Import UserMem RingBuf Blocking.

Module Pipe.

Inductive side := Readers | Writers.

Section pipe.
Context {Q : Type} `{BQ : ByteQueue Q}.

(** The numbers behind the error codes: [errno_val e] is the positive value that
    the C library gives [e]. *)
Context (errno_val : errno -> Z).

Record pipe := mk_pipe { isbroken : bool; ring : Q; woken : list side }.

Implicit Types (p : pipe) (mem : gmap Z Z) (buffer count total : Z) (nonblock : bool)
  (sched : list (wake pipe)).

Definition PIPE_SIZE : Z := 4096.

Definition set_ring p (q : Q) : pipe := mk_pipe (isbroken p) q (woken p).
Definition wakeup p (s : side) : pipe := mk_pipe (isbroken p) (ring p) (s :: woken p).

Inductive read_result :=
  | RDone (p : pipe) (mem : gmap Z Z) (r : res Z) (sched : list (wake pipe))
  | RBlocked.

Definition pipe_raw_read p mem buffer count nonblock sched : read_result :=
  let do_read p sched :=
    let '(q, mem, r) := q_read (ring p) mem buffer count in
    RDone (wakeup (set_ring p q) Writers) mem r sched in
  if q_read_available (ring p) =? 0 then
    if isbroken p then RDone p mem (Ok 0) sched
    else if nonblock then RDone p mem (Err EAGAIN) sched
    else
      match sleep_on_queue_lock_interruptible
              (fun p => (0 <? q_read_available (ring p)) || isbroken p)%bool p sched with
      | Asleep => RBlocked
      | Intr p sched => RDone p mem (Err EINTR) sched
      | Ready p sched =>
          if (isbroken p && (q_read_available (ring p) =? 0))%bool
          then RDone p mem (Ok 0) sched
          else do_read p sched
      end
  else do_read p sched.

Inductive write_result :=
  | WDone (p : pipe) (r : res Z) (sched : list (wake pipe))
  | WBlocked
  | WSpin.

(** The [ssize_t] that a [res] stands for. *)
Definition ssize (r : res Z) : Z := match r with Ok n => n | Err e => - errno_val e end.

Fixpoint write_loop (fuel : nat) p mem buffer count nonblock sched total : write_result :=
  match fuel with
  | O => WSpin
  | S fuel =>
      let finish p e sched := WDone p (if total =? 0 then Err e else Ok total) sched in
      let do_write p sched :=
        let '(q, r) := q_write (ring p) mem buffer count in
        let written := ssize r in
        write_loop fuel (wakeup (set_ring p q) Readers) mem (buffer + written)
          (count -! written) nonblock sched (total + written) in
      if count =? 0 then WDone p (Ok total) sched else
      let minimum_write := if count <? 4096 then count else 4096 in
      if q_write_available (ring p) <? minimum_write then
        if nonblock then finish p EAGAIN sched
        else
          match sleep_on_queue_lock_interruptible
                  (fun p => (minimum_write <=? q_write_available (ring p)) || isbroken p)%bool
                  p sched with
          | Asleep => WBlocked
          | Intr p sched => finish p EINTR sched
          | Ready p sched => if isbroken p then finish p EPIPE sched else do_write p sched
          end
      else do_write p sched
  end.

Definition pipe_raw_write (fuel : nat) p mem buffer count nonblock sched : write_result :=
  if isbroken p then WDone p (Err EPIPE) sched
  else write_loop fuel p mem buffer count nonblock sched 0.

(** Which end of the pipe a file descriptor is: the reading end has a [read]
    operation and no [write] operation, and conversely. *)
Inductive pipe_end := ReadEnd | WriteEnd.

Record pollset := mk_poll { POLLHUP : bool; POLLIN : bool; POLLOUT : bool }.

Definition pipe_poll_get p (e : pipe_end) (revents : pollset) : pollset :=
  mk_poll
    (POLLHUP revents || isbroken p)
    (POLLIN revents || match e with ReadEnd => 0 <? q_read_available (ring p) | WriteEnd => false end)
    (POLLOUT revents || match e with WriteEnd => 0 <? q_write_available (ring p) | ReadEnd => false end).

(** The queue on which [poll] registers the task, if it may wait at all. *)
Definition pipe_poll_add p (e : pipe_end) : option side :=
  if isbroken p then None
  else Some match e with ReadEnd => Readers | WriteEnd => Writers end.

Definition pipe_poll_remove (e : pipe_end) : side :=
  match e with ReadEnd => Readers | WriteEnd => Writers end.

(** Closing one end: [None] when the pipe is deleted. *)
Definition pipe_close p : option pipe :=
  if isbroken p then None
  else
    let p := mk_pipe true (ring p) (woken p) in
    Some (wakeup (wakeup p Readers) Writers).

End pipe.

Arguments pipe Q : clear implicits.
Arguments read_result Q : clear implicits.
Arguments write_result Q : clear implicits.

(** * Creation *)

(** What [pipe_create] can have allocated. *)
Inductive block := BPipe | BRing | BReadFd | BWriteFd.

#[global] Instance block_eq_dec : EqDecision block.
Proof. solve_decision. Defined.

(** The four allocations, in order: the pipe, the memory of its ring buffer and
    the two descriptors; a [false] or [None] is a failure.  The result comes
    with the blocks that stay allocated. *)
Definition pipe_create (pipe_mem : bool) (ring_mem : option (list Z)) (read_fd write_fd : bool)
  : res (pipe ringbuffer) * list block :=
  if negb pipe_mem then (Err ENOMEM, []) else
  let '(ring, ret) := ringbuffer_init ring_mem PIPE_SIZE in
  match ret with
  | Err e => (Err e, [BPipe])
  | Ok _ =>
      if negb read_fd then (Err ENOMEM, [BRing]) else
      if negb write_fd then (Err ENOMEM, [BRing]) else
      (Ok (mk_pipe false ring []), [BPipe; BRing; BReadFd; BWriteFd])
  end.
(** * Properties *)

Section properties.
Context {Q : Type} `{BL : ByteQueueLaws Q} (errno_val : errno -> Z).

Implicit Types (p : pipe Q) (mem : gmap Z Z) (buffer count total : Z) (nonblock : bool)
  (sched : list (wake (pipe Q))).

(** The invariant of a pipe of capacity [cap]. *)
Definition inv (cap : Z) p : Prop := q_ok (ring p) /\ q_capacity (ring p) = cap.

Lemma available_contents (q : Q) :
  q_ok q -> (q_read_available q =? 0) = true <-> q_contents q = [].
Proof.
  intros Hq. rewrite Z.eqb_eq, q_read_available_spec by done.
  destruct (q_contents q); done.
Qed.

(** One call of the queue inside [pipe_raw_read]. *)
Lemma q_read_step (q : Q) mem buffer count :
  q_ok q -> 0 <= count -> is_Some (load_bytes mem buffer count) ->
  let n := Z.min count (lenZ (q_contents q)) in
  exists q', q_read q mem buffer count = (q', poke mem buffer (takeZ n (q_contents q)), Ok n) /\
    q_ok q' /\ q_contents q' = dropZ n (q_contents q) /\ q_capacity q' = q_capacity q.
Proof.
  intros Hq Hc [bs Hbs] n. pose proof (q_read_spec q mem buffer count Hq Hc) as H0.
  rewrite q_read_available_spec in H0 by done. fold n in H0. simpl in H0.
  assert (0 <= n <= count) as Hn by (unfold n; pose proof (lenZ_nonneg (q_contents q)); lia).
  replace count with (n + (count - n)) in Hbs by lia.
  apply load_bytes_split in Hbs as [Hbs _]; [|lia..]. rewrite Hbs in H0. exact H0.
Qed.

(** The state from which a successful read took its bytes. *)
Definition read_from p0 (count : Z) mem buffer (p' : pipe Q) (mem' : gmap Z Z) (n : Z) : Prop :=
  q_contents (ring p0) <> [] /\ n = Z.min count (lenZ (q_contents (ring p0))) /\
  mem' = poke mem buffer (takeZ n (q_contents (ring p0))) /\
  q_contents (ring p') = dropZ n (q_contents (ring p0)).

Lemma read_step cap p0 mem buffer count :
  inv cap p0 -> 0 <= count -> is_Some (load_bytes mem buffer count) ->
  (q_read_available (ring p0) =? 0) = false ->
  exists q mem' n, q_read (ring p0) mem buffer count = (q, mem', Ok n) /\
    let p' := wakeup (set_ring p0 q) Writers in
    inv cap p' /\ read_from p0 count mem buffer p' mem' n.
Proof.
  intros [Hq Hcap] Hc Hacc E.
  destruct (q_read_step _ mem buffer count Hq Hc Hacc) as (q' & -> & ? & ? & ?).
  eexists _, _, _. split; [done|]. split; [split; simpl; congruence|].
  split; [|done]. intros Hnil. apply available_contents in Hnil; [congruence|done].
Qed.

(** Reading a pipe is first-in first-out and reports end of file only at the
    end.  Whatever the other tasks do (keeping the invariant), with an
    accessible destination: if the read blocks the pipe was empty and open; if it
    returns [n], either the pipe is broken and empty and [n] is 0, or [n] is
    the number of bytes available up to [count], they are the oldest bytes of
    the non-empty queue found when the task ran, they are stored in order at the
    destination and leave the queue; the only errors are -EAGAIN on an empty
    non-blocking pipe and -EINTR. *)
Theorem pipe_read_correct cap p mem buffer count nonblock sched :
  inv cap p -> respects (inv cap) sched -> 0 <= count ->
  is_Some (load_bytes mem buffer count) ->
  match pipe_raw_read p mem buffer count nonblock sched with
  | RBlocked => nonblock = false /\ q_contents (ring p) = [] /\ isbroken p = false
  | RDone p' mem' (Ok n) _ =>
      inv cap p' /\
      ((n = 0 /\ isbroken p' = true /\ q_contents (ring p') = [] /\ mem' = mem) \/
       exists pre, read_from (run_others pre p) count mem buffer p' mem' n)
  | RDone p' mem' (Err e) _ =>
      inv cap p' /\ mem' = mem /\
      (e = EAGAIN /\ nonblock = true /\ q_contents (ring p) = [] /\ p' = p \/
       e = EINTR /\ exists pre, p' = run_others pre p)
  end.
Proof.
  intros Hinv Hr Hc Hacc.
  unfold pipe_raw_read. destruct (q_read_available (ring p) =? 0) eqn:E.
  - apply available_contents in E; [|apply Hinv].
    destruct (isbroken p) eqn:Eb; [split; [done|by left]|].
    destruct nonblock; [split_and!; [done..|by left]|].
    pose proof (sleep_outcome (inv cap) (fun p => (0 <? q_read_available (ring p)) || isbroken p)%bool
      p sched Hinv Hr) as Ho.
    pose proof (sleep_only_others (fun p => (0 <? q_read_available (ring p)) || isbroken p)%bool
      p sched) as Hp.
    destruct (sleep_on_queue_lock_interruptible _ p sched) as [p' s|p' s|]; [| |by split_and!].
    + destruct Ho as (Hi & Hcond & _), Hp as (pre & _ & Hp).
      destruct (q_read_available (ring p') =? 0) eqn:E'.
      * assert (isbroken p' = true) as Hb.
        { apply Z.eqb_eq in E'. rewrite E' in Hcond. done. }
        rewrite Hb. simpl. apply available_contents in E'; [|apply Hi].
        split; [done|]. auto.
      * rewrite andb_false_r.
        destruct (read_step cap p' mem buffer count) as (q & m & n & -> & Hi' & Hrf); [done..|].
        subst p'. eauto.
    + destruct Ho as (Hi & _ & _), Hp as (pre & _ & ->). eauto 6.
  - destruct (read_step cap p mem buffer count) as (q & m & n & -> & Hi' & Hrf); [done..|].
    split; [done|]. right. by exists [].
Qed.
(** ** Writing *)

(** One call of the queue inside the write loop, with a readable buffer. *)
Lemma q_write_step (q : Q) mem buffer count bs :
  q_ok q -> 0 <= count -> load_bytes mem buffer count = Some bs ->
  let n := Z.min count (q_capacity q - lenZ (q_contents q)) in
  exists q', q_write q mem buffer count = (q', Ok n) /\
    q_ok q' /\ q_contents q' = q_contents q ++ takeZ n bs /\ q_capacity q' = q_capacity q /\
    load_bytes mem (buffer + n) (count - n) = Some (dropZ n bs).
Proof.
  intros Hq Hc Hbs n. pose proof (q_write_spec q mem buffer count Hq Hc) as Hw.
  rewrite q_write_available_spec in Hw by done. fold n in Hw. simpl in Hw.
  pose proof (q_bounded q Hq). assert (0 <= n <= count) as Hn by (unfold n; lia).
  replace count with (n + (count - n)) in Hbs by lia.
  apply load_bytes_split in Hbs as [H1 H2]; [|lia..]. rewrite H1 in Hw.
  apply load_bytes_length in H1; [|lia]. rewrite H1 in Hw.
  destruct Hw as (q' & ? & ? & ? & ?). exists q'. auto.
Qed.

(** The write that finds room for everything: one turn writes, the next one ends
    the loop. *)
Lemma write_all_step cap p0 mem buffer count bs nonblock fuel s :
  inv cap p0 -> 0 < count -> count <= q_write_available (ring p0) ->
  load_bytes mem buffer count = Some bs ->
  exists p', (let '(q, r) := q_write (ring p0) mem buffer count in
    write_loop errno_val (S fuel) (wakeup (set_ring p0 q) Readers) mem
      (buffer + ssize errno_val r) (count -! ssize errno_val r) nonblock s
      (0 + ssize errno_val r)) = WDone p' (Ok count) s /\
    inv cap p' /\ q_contents (ring p') = q_contents (ring p0) ++ bs /\
    isbroken p' = isbroken p0 /\ woken p' = Readers :: woken p0.
Proof.
  intros [Hq Hcap0] Hc Hav Hbs. rewrite q_write_available_spec in Hav by done.
  destruct (q_write_step (ring p0) mem buffer count bs Hq ltac:(lia) Hbs)
    as (q' & Hw & Hq' & Hcont & Hcap' & _).
  rewrite Z.min_l in Hw, Hcont by lia. rewrite Hw. simpl.
  rewrite Z.sub_diag. simpl. eexists. split; [done|]. split; [split; simpl; congruence|].
  split; [|done]. simpl. rewrite Hcont. f_equal. apply load_bytes_length in Hbs; [|lia].
  unfold takeZ. apply take_ge. unfold lenZ in Hbs. lia.
Qed.

(** What a writer of [count] bytes waits for. *)
Definition writable count p : bool :=
  ((count <=? q_write_available (ring p)) || isbroken p)%bool.

(** C34: a pipe write of 1 to 4096 bytes is atomic, as POSIX asks.  Hypotheses:
    the pipe's ring buffer is well formed and holds at least [count] bytes, the
    other tasks keep it so, and the whole source buffer can be read (with one
    that cannot the loop spins: [pipe_write_fault_spins]).  The schedule lists
    what happens while the writer sleeps: interruptions by signals, and wake-ups
    with what the other tasks did to the pipe before them.  The write sleeps
    through exactly the part [pre] of the schedule in front of the first point
    where the pipe has room for all its bytes or is broken, or of the first
    interruption; a non-blocking one does not sleep.  Then, with [p0] the state
    at that point: it returns [count], the contents are those of [p0] followed by
    all the bytes, and the readers have been woken once; or the state is [p0]
    itself, without a byte written, and it returns -EPIPE because the pipe is
    broken there, -EINTR because the interruption came first, or -EAGAIN because
    it may not block.  It stays blocked only when the schedule ends before any of
    this.  Two turns of its loop are enough. *)
Theorem pipe_write_atomic cap p mem buffer count nonblock sched bs fuel :
  inv cap p -> respects (inv cap) sched ->
  0 < count <= 4096 -> count <= cap -> load_bytes mem buffer count = Some bs ->
  (2 <= fuel)%nat ->
  match pipe_raw_write errno_val fuel p mem buffer count nonblock sched with
  | WSpin => False
  | WBlocked => nonblock = false /\ waits (writable count) p sched /\
      writable count (run_others sched p) = false
  | WDone p' r rest => inv cap p' /\ exists pre, let p0 := run_others pre p in
      waits (writable count) p pre /\ (nonblock = true -> pre = []) /\
      match r with
      | Ok n => sched = pre ++ rest /\ n = count /\
          isbroken p0 = false /\ count <= q_write_available (ring p0) /\
          q_contents (ring p') = q_contents (ring p0) ++ bs /\
          isbroken p' = false /\ woken p' = Readers :: woken p0
      | Err e => p' = p0 /\
          (e = EPIPE /\ sched = pre ++ rest /\ isbroken p0 = true \/
           writable count p0 = false /\
           (e = EINTR /\ nonblock = false /\ sched = pre ++ Interrupted :: rest \/
            e = EAGAIN /\ nonblock = true /\ sched = rest))
      end
  end.
Proof.
  intros Hinv Hr Hc Hcap Hbs Hfuel.
  destruct fuel as [|[|fuel]]; [lia..|]. unfold pipe_raw_write.
  destruct (isbroken p) eqn:Hb; [split; [done|]; exists []; simpl; split_and!; auto|].
  remember (S fuel) as fuel1. simpl.
  replace (count =? 0) with false by (symmetry; apply Z.eqb_neq; lia).
  set (m := if count <? 4096 then count else 4096).
  assert (m = count) as Hm by (unfold m; case_if; lia).
  destruct (q_write_available (ring p) <? m) eqn:E; zbool; subst m; rewrite Hm in *.
  - assert (writable count p = false) as Hwp.
    { unfold writable. rewrite Hb, orb_false_r. apply Z.leb_gt. lia. }
    destruct nonblock; [split; [done|]; exists []; simpl; split_and!; auto 6|].
    pose proof (sleep_outcome (inv cap) (writable count) p sched Hinv Hr) as Ho.
    pose proof (sleep_exact (writable count) p sched) as Hp. unfold writable in Ho, Hp at 1.
    destruct (sleep_on_queue_lock_interruptible _ p sched) as [p' s|p' s|]; [| |done].
    + destruct Ho as (Hi & _ & _), Hp as (pre & Hs & Hw & Hp & Hcond).
      destruct (isbroken p') eqn:Hb'.
      * simpl. split; [done|]. exists pre. subst p'. split_and!; try congruence; auto 8.
      * unfold writable in Hcond. rewrite Hb', orb_false_r in Hcond. zbool.
        subst fuel1. destruct (write_all_step cap p' mem buffer count bs false fuel s)
          as (p2 & -> & ? & ? & ? & ?); [done|lia|done|done|]. split; [done|].
        exists pre. subst p'. split_and!; try congruence; auto.
    + destruct Ho as (Hi & _ & _), Hp as (pre & Hs & Hw & Hp & Hcond). simpl.
      split; [done|]. exists pre. subst p'. split_and!; try congruence; auto 8.
  - subst fuel1. destruct (write_all_step cap p mem buffer count bs nonblock fuel sched)
      as (p2 & -> & ? & ? & ? & ?); [done|lia|done|done|].
    split; [done|]. exists []. split_and!; simpl; try congruence; auto.
Qed.

(** A copy from memory in which nothing is accessible faults and moves nothing. *)
Lemma q_write_unmapped (q : Q) buffer count :
  q_ok q -> 0 < count -> lenZ (q_contents q) < q_capacity q ->
  exists q', q_write q ∅ buffer count = (q', Err EFAULT) /\ q_ok q' /\
    q_contents q' = q_contents q /\ q_capacity q' = q_capacity q.
Proof.
  intros Hq Hc Hroom. pose proof (q_write_spec q ∅ buffer count Hq ltac:(lia)) as Hw.
  rewrite q_write_available_spec in Hw by done.
  rewrite load_bytes_cons, lookup_empty in Hw by lia. simpl in Hw.
  destruct Hw as (q' & bs & ? & ? & Hcont & Hbs & ?). exists q'. split_and!; [done..| |done].
  destruct bs as [|b bs]; [by rewrite app_nil_r in Hcont|].
  rewrite load_bytes_cons, lookup_empty in Hbs; [done|].
  rewrite lenZ_cons. pose proof (lenZ_nonneg bs). lia.
Qed.

(** A pipe write whose source buffer is not accessible does not return -EFAULT:
    the loop adds the negative result of the ring buffer to its counters, so
    the remaining count grows and the loop goes on.  On an empty pipe, however
    much fuel it is given (as long as the remaining count stays below 2^64), it
    is still running; the caller spins with the spinlock of the pipe held. *)
Theorem pipe_write_fault_spins fuel p buffer count nonblock sched :
  q_ok (ring p) -> isbroken p = false -> q_contents (ring p) = [] ->
  4096 <= q_capacity (ring p) -> 0 < errno_val EFAULT -> 0 < count ->
  count + Z.of_nat fuel * errno_val EFAULT < 2 ^ 64 ->
  pipe_raw_write errno_val fuel p ∅ buffer count nonblock sched = WSpin.
Proof.
  intros Hq Hb Hcont Hcap He. unfold pipe_raw_write. rewrite Hb. clear Hb.
  generalize 0 at 2 as total.
  revert p buffer count Hq Hcont Hcap.
  induction fuel as [|fuel IH]; intros p buffer count Hq Hcont Hcap total Hc Hbound; [done|].
  simpl. replace (count =? 0) with false by (symmetry; apply Z.eqb_neq; lia).
  rewrite q_write_available_spec by done. rewrite Hcont. change (lenZ []) with 0.
  set (m := if count <? 4096 then count else 4096).
  assert (m <= 4096) as Hm by (unfold m; case_if; lia).
  replace (q_capacity (ring p) - 0 <? m) with false by (symmetry; apply Z.ltb_ge; lia).
  destruct (q_write_unmapped (ring p) buffer count) as (q' & -> & Hq' & Hc' & Hcap');
    [done|done|rewrite Hcont; change (lenZ []) with 0; lia|].
  simpl. unwrap. apply IH; simpl; [done|congruence|lia..].
Qed.

(** Hanging up.  After one end of an open pipe is closed, both queues have
    been woken, every write fails at once with -EPIPE, no read blocks (an empty
    pipe gives end of file), the poll reports a hang-up, nobody may wait on the
    pipe any more, and closing the other end deletes it. *)
Theorem pipe_hangup p p' :
  pipe_close p = Some p' ->
  isbroken p = false /\ ring p' = ring p /\ woken p' = Writers :: Readers :: woken p /\
  (forall fuel mem buffer count nonblock sched,
     pipe_raw_write errno_val fuel p' mem buffer count nonblock sched = WDone p' (Err EPIPE) sched) /\
  (forall mem buffer count nonblock sched,
     pipe_raw_read p' mem buffer count nonblock sched <> RBlocked) /\
  (forall mem buffer count nonblock sched, q_read_available (ring p) = 0 ->
     pipe_raw_read p' mem buffer count nonblock sched = RDone p' mem (Ok 0) sched) /\
  (forall e revents, POLLHUP (pipe_poll_get p' e revents) = true) /\
  (forall e, pipe_poll_add p' e = None) /\
  pipe_close p' = None.
Proof.
  unfold pipe_close. destruct (isbroken p) eqn:Hb; [done|]. intros [= <-].
  split_and!; try done.
  - intros. unfold pipe_raw_read. simpl.
    destruct (q_read_available (ring p) =? 0); [done|].
    by destruct (q_read _ _ _ _) as [[? ?] ?].
  - intros * H0. unfold pipe_raw_read. simpl. by rewrite H0.
  - intros. simpl. by rewrite orb_true_r.
Qed.

End properties.

(** [pipe_create] succeeds exactly when its four allocations do, and then gives
    an open, empty, well-formed pipe of 4096 bytes; and each of its failures
    after the first allocation leaves a block allocated that nothing refers to
    any more (the pipe itself when the ring buffer cannot be allocated, the
    memory of the ring buffer when a descriptor cannot). *)
Theorem pipe_create_blocks pipe_mem ring_mem read_fd write_fd :
  match ring_mem with Some b => lenZ b = PIPE_SIZE | None => True end ->
  let '(r, live) := pipe_create pipe_mem ring_mem read_fd write_fd in
  match r with
  | Ok p => pipe_mem = true /\ is_Some ring_mem /\ read_fd = true /\ write_fd = true /\
      inv PIPE_SIZE p /\ isbroken p = false /\ q_contents (ring p) = [] /\
      live = [BPipe; BRing; BReadFd; BWriteFd]
  | Err e => e = ENOMEM /\
      live = if negb pipe_mem then [] else if ring_mem then [BRing] else [BPipe]
  end.
Proof.
  intros Hlen. unfold pipe_create. destruct pipe_mem; [|done].
  destruct ring_mem as [b|]; simpl; [|done].
  destruct read_fd; [|done]. destruct write_fd; [|done]. simpl. split_and!; try done.
Qed.

(** A pipe with two bytes of room for four, and the values of Linux for the
    error codes that matter here. *)
Definition ex_pipe : pipe ringbuffer := mk_pipe false ex_ring [].
Definition ex_errno (e : errno) : Z := match e with EFAULT => 14 | _ => 1 end.

Lemma ex_pipe_inv : inv 4 ex_pipe.
Proof. split; [exact ex_ring_wf|done]. Qed.

Lemma pipe_read_correct_witness :
  exists p' mem', pipe_raw_read ex_pipe ex_mem 100 3 false [] = RDone p' mem' (Ok 2) [] /\
    q_contents (ring p') = [] /\ inv 4 p' /\ mem' !! 100 = Some 7 /\ mem' !! 101 = Some 8.
Proof.
  eexists _, _. pose proof (pipe_read_correct 4 ex_pipe ex_mem 100 3 false [] ex_pipe_inv
    ltac:(constructor) ltac:(lia) ltac:(eexists; reflexivity)) as [H1 _].
  split_and!; [reflexivity..|exact H1|reflexivity|reflexivity].
Defined.

Lemma pipe_write_atomic_witness :
  exists p', pipe_raw_write ex_errno 2 ex_pipe ex_mem 100 2 true [] = WDone p' (Ok 2) [] /\
    inv 4 p' /\ q_contents (ring p') = [7; 8; 1; 2].
Proof.
  eexists. pose proof (pipe_write_atomic ex_errno 4 ex_pipe ex_mem 100 2 true [] [1; 2] 2 ex_pipe_inv
    ltac:(constructor) ltac:(lia) ltac:(lia) eq_refl ltac:(lia)) as (H1 & _).
  split_and!; [reflexivity|exact H1|reflexivity].
Defined.

Definition ex_empty : pipe ringbuffer := mk_pipe false (mk_ring (replicate 4096 0) 0 0 4096 0) [].

Lemma pipe_write_fault_spins_witness :
  pipe_raw_write ex_errno 1000 ex_empty ∅ 4096 10 false [] = WSpin.
Proof.
  apply (pipe_write_fault_spins ex_errno 1000 ex_empty 4096 10 false []);
    [|reflexivity|reflexivity|simpl; lia|simpl; lia|lia|simpl; lia].
  split; simpl; try lia; try done.
Defined.

Lemma pipe_hangup_witness :
  exists p', pipe_close ex_pipe = Some p' /\ pipe_close p' = None.
Proof.
  eexists. split; [reflexivity|].
  refine (_ (pipe_hangup ex_errno ex_pipe _ eq_refl)).
  intros (_ & _ & _ & _ & _ & _ & _ & _ & H). exact H.
Defined.

Lemma pipe_create_blocks_witness :
  snd (pipe_create true None true true) = [BPipe].
Proof.
  destruct (pipe_create_blocks true None true true I) as [_ H]. exact H.
Defined.

End Pipe.
