(* ===== verification/Unicode.v ===== *)
(** The UTF-8 and UTF-16 codecs of the kernel (kernel/klib/unicode.c).

    The input of a decoder is the list of the [count] code units that remain; a
    decoder returns the number of units it has consumed with the code point it
    has stored.  An encoder returns the units it has stored, whose number is the
    value it returns.  The loops over buffers consume at least one unit per turn,
    so the length of the input is enough fuel. *)

From S2P Require Import Prelude.

Module Unicode.

Implicit Types (data : list Z) (codepoint : Z).

Definition at_ data (i : Z) : Z := nthZ 0 data i.

(** [(ret, codepoint)] *)
Definition utf8_decode_char data : res (Z * Z) :=
  let count := lenZ data in
  let d := at_ data in
  if count =? 0 then Ok (0, 0)
  else if d 0 <=? 0x7f then Ok (1, d 0)
  else if d 0 <=? 0xc1 then Err EILSEQ
  else if d 0 <=? 0xdf then
    if count <? 2 then Err EILSEQ else
    if negb (Z.land (d 1) 0xc0 =? 0x80) then Err EILSEQ else
    let decoded := Z.shiftl (Z.land (d 0) 0x1f) 6 in
    let decoded := Z.lor decoded (Z.land (d 1) 0x3f) in
    if decoded <=? 0x7f then Err EILSEQ else Ok (2, decoded)
  else if d 0 <=? 0xef then
    if count <? 3 then Err EILSEQ else
    if negb (Z.land (d 1) 0xc0 =? 0x80) then Err EILSEQ else
    if negb (Z.land (d 2) 0xc0 =? 0x80) then Err EILSEQ else
    let decoded := Z.shiftl (Z.land (d 0) 0x0f) 12 in
    let decoded := Z.lor decoded (Z.shiftl (Z.land (d 1) 0x3f) 6) in
    let decoded := Z.lor decoded (Z.land (d 2) 0x3f) in
    if decoded <=? 0x7ff then Err EILSEQ else
    if (0xd800 <=? decoded) && (decoded <=? 0xdfff) then Err EILSEQ else Ok (3, decoded)
  else if d 0 <=? 0xf7 then
    if count <? 4 then Err EILSEQ else
    if negb (Z.land (d 1) 0xc0 =? 0x80) then Err EILSEQ else
    if negb (Z.land (d 2) 0xc0 =? 0x80) then Err EILSEQ else
    if negb (Z.land (d 3) 0xc0 =? 0x80) then Err EILSEQ else
    let decoded := Z.shiftl (Z.land (d 0) 0x07) 18 in
    let decoded := Z.lor decoded (Z.shiftl (Z.land (d 1) 0x3f) 12) in
    let decoded := Z.lor decoded (Z.shiftl (Z.land (d 2) 0x3f) 6) in
    let decoded := Z.lor decoded (Z.land (d 3) 0x3f) in
    if decoded <=? 0xffff then Err EILSEQ else
    if 0x10ffff <? decoded then Err EILSEQ else Ok (4, decoded)
  else Err EILSEQ.

Definition utf8_encode_char codepoint : res (list Z) :=
  if codepoint <? 0 then Err EINVAL
  else if codepoint <=? 0x7f then Ok [codepoint]
  else if codepoint <=? 0x7ff then
    Ok [Z.lor 0xc0 (Z.land (Z.shiftr codepoint 6) 0x1f); Z.lor 0x80 (Z.land codepoint 0x3f)]
  else if codepoint <=? 0xffff then
    if (0xd800 <=? codepoint) && (codepoint <=? 0xdfff) then Err EINVAL else
    Ok [Z.lor 0xe0 (Z.land (Z.shiftr codepoint 12) 0x0f);
        Z.lor 0x80 (Z.land (Z.shiftr codepoint 6) 0x3f);
        Z.lor 0x80 (Z.land codepoint 0x3f)]
  else if codepoint <=? 0x10ffff then
    Ok [Z.lor 0xf0 (Z.land (Z.shiftr codepoint 18) 0x07);
        Z.lor 0x80 (Z.land (Z.shiftr codepoint 12) 0x3f);
        Z.lor 0x80 (Z.land (Z.shiftr codepoint 6) 0x3f);
        Z.lor 0x80 (Z.land codepoint 0x3f)]
  else Err EINVAL.

Definition utf16_decode_char data : res (Z * Z) :=
  let count := lenZ data in
  let d := at_ data in
  if count =? 0 then Ok (0, 0)
  else if d 0 <=? 0xd7ff then Ok (1, d 0)
  else if d 0 <=? 0xdbff then
    if count <? 2 then Err EILSEQ else
    if negb (Z.land (d 1) 0xfc00 =? 0xdc00) then Err EILSEQ else
    Ok (2, Z.lor (Z.shiftl (Z.land (d 0) 0x3ff) 10) (Z.land (d 1) 0x3ff) + 0x10000)
  else if d 0 <=? 0xdfff then Err EILSEQ
  else Ok (1, d 0).

Definition utf16_encode_char codepoint : res (list Z) :=
  if codepoint <? 0 then Err EINVAL
  else if codepoint <=? 0xd7ff then Ok [codepoint]
  else if codepoint <=? 0xdfff then Err EINVAL
  else if codepoint <=? 0xffff then Ok [codepoint]
  else if codepoint <=? 0x10ffff then
    let codepoint := codepoint - 0x10000 in
    Ok [0xdc00 + Z.land codepoint 0x3ff; 0xd800 + Z.land (Z.shiftr codepoint 10) 0x3ff]
  else Err EINVAL.

(** The loop of the two [decode_buf] functions: the code points stored. *)
Fixpoint decode_loop (decode : list Z -> res (Z * Z)) (fuel : nat) data : res (list Z) :=
  match data, fuel with
  | [], _ => Ok []
  | _, O => Ok []
  | _, S fuel =>
      match decode data with
      | Err e => Err e
      | Ok (ret, codepoint) =>
          match decode_loop decode fuel (dropZ ret data) with
          | Err e => Err e
          | Ok codepoints => Ok (codepoint :: codepoints)
          end
      end
  end.

Definition utf8_decode_buf data : res (list Z) :=
  decode_loop utf8_decode_char (length data) data.
Definition utf16_decode_buf data : res (list Z) :=
  decode_loop utf16_decode_char (length data) data.

(** The loop of the two [encode_buf] functions: the units stored. *)
Fixpoint encode_loop (encode : Z -> res (list Z)) (codepoints : list Z) : res (list Z) :=
  match codepoints with
  | [] => Ok []
  | codepoint :: codepoints =>
      match encode codepoint with
      | Err e => Err e
      | Ok units =>
          match encode_loop encode codepoints with
          | Err e => Err e
          | Ok rest => Ok (units ++ rest)
          end
      end
  end.

Definition utf8_encode_buf (codepoints : list Z) : res (list Z) :=
  encode_loop utf8_encode_char codepoints.
Definition utf16_encode_buf (codepoints : list Z) : res (list Z) :=
  encode_loop utf16_encode_char codepoints.

(** The loop of the two conversions: decode one code point, encode it, stop after
    a null one. *)
Fixpoint convert_loop (decode : list Z -> res (Z * Z)) (encode : Z -> res (list Z))
    (fuel : nat) data : res (list Z) :=
  match data, fuel with
  | [], _ => Ok []
  | _, O => Ok []
  | _, S fuel =>
      match decode data with
      | Err e => Err e
      | Ok (ret, codepoint) =>
          match encode codepoint with
          | Err e => Err e
          | Ok units =>
              if codepoint =? 0 then Ok units else
              match convert_loop decode encode fuel (dropZ ret data) with
              | Err e => Err e
              | Ok rest => Ok (units ++ rest)
              end
          end
      end
  end.

Definition utf16_to_utf8 data : res (list Z) :=
  convert_loop utf16_decode_char utf8_encode_char (length data) data.
Definition utf8_to_utf16 data : res (list Z) :=
  convert_loop utf8_decode_char utf16_encode_char (length data) data.

(** * Arithmetic of the encodings *)

(** The Unicode scalar values. *)
Definition scalar codepoint : Prop :=
  0 <= codepoint < 0xd800 \/ 0xdfff < codepoint <= 0x10ffff.

Definition byte (b : Z) : Prop := 0 <= b < 256.

(** A fact about bytes that evaluation settles. *)
Lemma byte_all (P : Z -> bool) : forallb P (seqZ 0 256) = true -> forall b, byte b -> P b = true.
Proof.
  intros HP b Hb. rewrite forallb_forall in HP. apply HP.
  apply list_elem_of_In, elem_of_seqZ. unfold byte in Hb. lia.
Qed.

Lemma continuation b : byte b -> (Z.land b 0xc0 =? 0x80) = ((128 <=? b) && (b <? 192))%bool.
Proof.
  intros Hb. apply Bool.eqb_prop.
  apply (byte_all (fun b => Bool.eqb (Z.land b 0xc0 =? 0x80) ((128 <=? b) && (b <? 192)))); done.
Qed.

(** [prefix | payload] where the payload fits under the prefix. *)
Lemma prefix_add p y n q : 0 <= n -> p = q * 2 ^ n -> 0 <= y < 2 ^ n -> Z.lor p y = p + y.
Proof. intros Hn -> Hy. by apply lor_add. Qed.

(** Quotients and remainders by constants are linear for [lia]. *)
#[local] Ltac Zify.zify_post_hook ::= Z.div_mod_to_equations.

(** Masks and shifts as remainders, quotients and products. *)
Ltac bits :=
  rewrite ?(land_ones_mod _ 0x3f 6), ?(land_ones_mod _ 0x1f 5), ?(land_ones_mod _ 0x0f 4),
    ?(land_ones_mod _ 0x07 3), ?(land_ones_mod _ 0x3ff 10) by done;
  rewrite ?Z.shiftr_div_pow2, ?Z.shiftl_mul_pow2 by done;
  change (2 ^ 18) with 262144 in *; change (2 ^ 12) with 4096 in *;
  change (2 ^ 10) with 1024 in *; change (2 ^ 6) with 64 in *; change (2 ^ 5) with 32 in *;
  change (2 ^ 4) with 16 in *; change (2 ^ 3) with 8 in *.

(** Decides the tests of the goal that the bounds in the context decide. *)
Ltac tests :=
  repeat match goal with
  | |- context [?a <=? ?b] =>
      first [ replace (a <=? b) with true by (symmetry; apply Z.leb_le; lia)
            | replace (a <=? b) with false by (symmetry; apply Z.leb_gt; lia) ]
  | |- context [?a <? ?b] =>
      first [ replace (a <? b) with true by (symmetry; apply Z.ltb_lt; lia)
            | replace (a <? b) with false by (symmetry; apply Z.ltb_ge; lia) ]
  end; simpl andb; cbv iota.

Lemma encode1 c : 0 <= c <= 0x7f -> utf8_encode_char c = Ok [c].
Proof. intros. unfold utf8_encode_char. tests. done. Qed.

Lemma encode2 c :
  0x7f < c <= 0x7ff -> utf8_encode_char c = Ok [192 + c / 64; 128 + c mod 64].
Proof.
  intros. unfold utf8_encode_char. tests. bits.
  rewrite (prefix_add 0xc0 _ 5 6), (prefix_add 0x80 _ 6 2) by lia.
  do 3 f_equal. lia.
Qed.

Lemma encode3 c :
  0x7ff < c <= 0xffff -> ~ (0xd800 <= c <= 0xdfff) ->
  utf8_encode_char c = Ok [224 + c / 4096; 128 + (c / 64) mod 64; 128 + c mod 64].
Proof.
  intros. unfold utf8_encode_char. tests.
  replace ((0xd800 <=? c) && (c <=? 0xdfff))%bool with false
    by (symmetry; apply andb_false_iff; rewrite !Z.leb_gt; lia).
  bits. rewrite (prefix_add 0xe0 _ 4 14), !(prefix_add 0x80 _ 6 2) by lia.
  do 3 f_equal. lia.
Qed.

Lemma encode4 c :
  0xffff < c <= 0x10ffff ->
  utf8_encode_char c = Ok [240 + c / 262144; 128 + (c / 4096) mod 64;
                           128 + (c / 64) mod 64; 128 + c mod 64].
Proof.
  intros. unfold utf8_encode_char. tests. bits.
  rewrite (prefix_add 0xf0 _ 3 30), !(prefix_add 0x80 _ 6 2) by lia.
  do 3 f_equal. lia.
Qed.

(** The values that the decoder assembles. *)
Lemma assemble2 b0 b1 :
  192 <= b0 < 224 -> 128 <= b1 < 192 ->
  Z.lor (Z.shiftl (Z.land b0 0x1f) 6) (Z.land b1 0x3f) = (b0 - 192) * 64 + (b1 - 128).
Proof. intros. bits. rewrite (prefix_add _ _ 6 (b0 mod 32)) by lia. lia. Qed.

Lemma assemble3 b0 b1 b2 :
  224 <= b0 < 240 -> 128 <= b1 < 192 -> 128 <= b2 < 192 ->
  Z.lor (Z.lor (Z.shiftl (Z.land b0 0x0f) 12) (Z.shiftl (Z.land b1 0x3f) 6)) (Z.land b2 0x3f) =
  (b0 - 224) * 4096 + (b1 - 128) * 64 + (b2 - 128).
Proof.
  intros. bits. rewrite (prefix_add (_ * 4096) _ 12 (b0 mod 16)) by lia.
  rewrite (prefix_add _ _ 6 (b0 mod 16 * 64 + b1 mod 64)) by lia. lia.
Qed.

Lemma assemble4 b0 b1 b2 b3 :
  240 <= b0 < 248 -> 128 <= b1 < 192 -> 128 <= b2 < 192 -> 128 <= b3 < 192 ->
  Z.lor (Z.lor (Z.lor (Z.shiftl (Z.land b0 0x07) 18) (Z.shiftl (Z.land b1 0x3f) 12))
    (Z.shiftl (Z.land b2 0x3f) 6)) (Z.land b3 0x3f) =
  (b0 - 240) * 262144 + (b1 - 128) * 4096 + (b2 - 128) * 64 + (b3 - 128).
Proof.
  intros. bits. rewrite (prefix_add (_ * 262144) _ 18 (b0 mod 8)) by lia.
  rewrite (prefix_add _ (_ * 64) 12 (b0 mod 8 * 64 + b1 mod 64)) by lia.
  rewrite (prefix_add _ _ 6 (b0 mod 8 * 4096 + b1 mod 64 * 64 + b2 mod 64)) by lia. lia.
Qed.

(** ** Decoding what starts with given bytes *)

Lemma lenZ_eqb_0 b data : (lenZ (b :: data) =? 0) = false.
Proof. apply Z.eqb_neq. rewrite lenZ_cons. pose proof (lenZ_nonneg data). lia. Qed.

Lemma decode1 b0 rest : 0 <= b0 <= 0x7f -> utf8_decode_char (b0 :: rest) = Ok (1, b0).
Proof.
  intros. unfold utf8_decode_char. rewrite lenZ_eqb_0. unfold at_, nthZ. simpl. tests. done.
Qed.

Lemma decode2 b0 b1 rest :
  0xc1 < b0 <= 0xdf -> 128 <= b1 < 192 ->
  utf8_decode_char (b0 :: b1 :: rest) = Ok (2, (b0 - 192) * 64 + (b1 - 128)).
Proof.
  intros. unfold utf8_decode_char. rewrite lenZ_eqb_0. unfold at_, nthZ. simpl.
  rewrite !lenZ_cons. pose proof (lenZ_nonneg rest).
  rewrite continuation, assemble2 by (unfold byte; lia). tests. done.
Qed.

Lemma decode3 b0 b1 b2 rest :
  0xdf < b0 <= 0xef -> 128 <= b1 < 192 -> 128 <= b2 < 192 ->
  let v := (b0 - 224) * 4096 + (b1 - 128) * 64 + (b2 - 128) in
  0x7ff < v -> ~ (0xd800 <= v <= 0xdfff) ->
  utf8_decode_char (b0 :: b1 :: b2 :: rest) = Ok (3, v).
Proof.
  intros ? ? ? v ? ?. unfold utf8_decode_char. rewrite lenZ_eqb_0. unfold at_, nthZ. simpl.
  rewrite !lenZ_cons. pose proof (lenZ_nonneg rest).
  rewrite !continuation, assemble3 by (unfold byte; lia). fold v. tests.
  replace ((0xd800 <=? v) && (v <=? 0xdfff))%bool with false
    by (symmetry; apply andb_false_iff; rewrite !Z.leb_gt; lia). done.
Qed.

Lemma decode4 b0 b1 b2 b3 rest :
  0xef < b0 <= 0xf7 -> 128 <= b1 < 192 -> 128 <= b2 < 192 -> 128 <= b3 < 192 ->
  let v := (b0 - 240) * 262144 + (b1 - 128) * 4096 + (b2 - 128) * 64 + (b3 - 128) in
  0xffff < v <= 0x10ffff ->
  utf8_decode_char (b0 :: b1 :: b2 :: b3 :: rest) = Ok (4, v).
Proof.
  intros ? ? ? ? v ?. unfold utf8_decode_char. rewrite lenZ_eqb_0. unfold at_, nthZ. simpl.
  rewrite !lenZ_cons. pose proof (lenZ_nonneg rest).
  rewrite !continuation, assemble4 by (unfold byte; lia). fold v. tests. done.
Qed.

Lemma utf8_encode_decode c rest :
  scalar c -> exists bs, utf8_encode_char c = Ok bs /\ (1 <= length bs)%nat /\
    utf8_decode_char (bs ++ rest) = Ok (lenZ bs, c).
Proof.
  unfold scalar. intros Hc.
  destruct (decide (c <= 0x7f)); [|destruct (decide (c <= 0x7ff));
    [|destruct (decide (c <= 0xffff))]].
  - rewrite encode1 by lia. eexists. split; [done|]. split; [simpl; lia|].
    simpl. rewrite decode1 by lia. done.
  - rewrite encode2 by lia. eexists. split; [done|]. split; [simpl; lia|].
    simpl. rewrite decode2 by lia. unfold lenZ. simpl. do 2 f_equal. lia.
  - rewrite encode3 by lia. eexists. split; [done|]. split; [simpl; lia|].
    simpl. rewrite decode3 by lia. unfold lenZ. simpl. do 2 f_equal. lia.
  - rewrite encode4 by lia. eexists. split; [done|]. split; [simpl; lia|].
    simpl. rewrite decode4 by lia. unfold lenZ. simpl. do 2 f_equal. lia.
Qed.

(** ** Strictness of the decoder *)

Lemma continuation_range b : byte b -> Z.land b 0xc0 = 0x80 -> 128 <= b < 192.
Proof.
  intros Hb H. apply Z.eqb_eq in H. rewrite continuation in H by done. zbool. lia.
Qed.

(** The units of an input known to be long enough, with their bounds. *)
Ltac next_byte b :=
  match goal with
  | H : Forall byte ?l |- _ =>
      destruct l as [|b l];
      [rewrite ?lenZ_cons in *; unfold lenZ in *; simpl in *; lia|];
      let Hb := fresh "Hb" in apply Forall_cons in H as [Hb H]
  end.
Ltac continuations :=
  repeat match goal with
  | H : Z.land _ 0xc0 = 0x80 |- _ => apply continuation_range in H; [|done]
  end.

Lemma utf8_decode_sound data n c :
  data <> [] -> Forall byte data -> utf8_decode_char data = Ok (n, c) ->
  scalar c /\ utf8_encode_char c = Ok (takeZ n data).
Proof.
  destruct data as [|b0 data]; [done|]. intros _ Hb. apply Forall_cons in Hb as [Hb0 Hb].
  unfold utf8_decode_char. rewrite lenZ_eqb_0. cbv zeta.
  change (at_ (b0 :: data) 0) with b0. intros H. unfold byte in Hb0. unfold scalar.
  case_if_in H; [injection H as <- <-; rewrite encode1 by lia; split; [lia|done]|].
  case_if_in H; [done|].
  case_if_in H; [|case_if_in H; [|case_if_in H; [|done]]]; (case_if_in H; [done|]).
  - next_byte b1. change (at_ (b0 :: b1 :: data) 1) with b1 in *.
    case_if_in H; [done|]. continuations.
    rewrite assemble2 in H by lia. case_if_in H; [done|]. injection H as <- <-.
    rewrite encode2 by lia. split; [lia|]. unfold takeZ. simpl. repeat f_equal; lia.
  - next_byte b1. next_byte b2.
    change (at_ (b0 :: b1 :: b2 :: data) 1) with b1 in *.
    change (at_ (b0 :: b1 :: b2 :: data) 2) with b2 in *.
    do 2 (case_if_in H; [done|]). continuations.
    rewrite assemble3 in H by lia. case_if_in H; [done|].
    destruct (_ && _)%bool eqn:E in H; [done|]. apply andb_false_iff in E.
    rewrite !Z.leb_gt in E. injection H as <- <-.
    rewrite encode3 by lia. split; [lia|]. unfold takeZ. simpl. repeat f_equal; lia.
  - next_byte b1. next_byte b2. next_byte b3.
    change (at_ (b0 :: b1 :: b2 :: b3 :: data) 1) with b1 in *.
    change (at_ (b0 :: b1 :: b2 :: b3 :: data) 2) with b2 in *.
    change (at_ (b0 :: b1 :: b2 :: b3 :: data) 3) with b3 in *.
    do 3 (case_if_in H; [done|]). continuations.
    rewrite assemble4 in H by lia. do 2 (case_if_in H; [done|]). injection H as <- <-.
    rewrite encode4 by lia. split; [lia|]. unfold takeZ. simpl. repeat f_equal; lia.
Qed.

Lemma utf8_encode_scalar c bs : utf8_encode_char c = Ok bs -> scalar c.
Proof.
  unfold utf8_encode_char, scalar. intros H. repeat (case_if_in H; try done); try lia.
Qed.

(** ** Buffers *)

(** One turn of the loop on an encoded scalar value. *)
Lemma decode_loop_step c bs rest fuel :
  utf8_encode_char c = Ok bs -> (length (bs ++ rest) <= S fuel)%nat ->
  decode_loop utf8_decode_char (S fuel) (bs ++ rest) =
    match decode_loop utf8_decode_char fuel rest with
    | Err e => Err e
    | Ok codepoints => Ok (c :: codepoints)
    end.
Proof.
  intros Hbs _. destruct (utf8_encode_decode c rest (utf8_encode_scalar _ _ Hbs))
    as (bs' & Hbs' & Hlen & Hdec). assert (bs' = bs) as -> by congruence.
  destruct bs as [|b bs]; [simpl in Hlen; lia|].
  simpl. simpl in Hdec. rewrite Hdec.
  unfold dropZ, lenZ. rewrite Nat2Z.id. simpl. by rewrite drop_app_length.
Qed.

Lemma utf8_encode_length c bs : utf8_encode_char c = Ok bs -> (1 <= length bs)%nat.
Proof.
  intros Hbs. destruct (utf8_encode_decode c [] (utf8_encode_scalar _ _ Hbs))
    as (bs' & Hbs' & Hlen & _). congruence.
Qed.

Lemma decode_encode_loop cps bs fuel :
  utf8_encode_buf cps = Ok bs -> (length bs <= fuel)%nat ->
  decode_loop utf8_decode_char fuel bs = Ok cps.
Proof.
  unfold utf8_encode_buf. revert bs fuel. induction cps as [|c cps IH]; intros bs fuel; simpl.
  - intros [= <-]. by destruct fuel.
  - destruct (utf8_encode_char c) as [u|] eqn:Hu; [|done].
    destruct (encode_loop utf8_encode_char cps) as [rest|]; [|done].
    intros [= <-] Hf. pose proof (utf8_encode_length _ _ Hu). rewrite length_app in Hf.
    destruct fuel as [|fuel]; [lia|].
    rewrite (decode_loop_step c) by (rewrite ?length_app; done || lia).
    by rewrite (IH rest) by (done || lia).
Qed.

(** ** UTF-16 *)

Definition unit16 (u : Z) : Prop := 0 <= u < 0x10000.

Lemma utf16_decode_scalar data n c :
  data <> [] -> Forall unit16 data -> utf16_decode_char data = Ok (n, c) ->
  scalar c /\ 1 <= n.
Proof.
  destruct data as [|d0 data]; [done|]. intros _ Hb. apply Forall_cons in Hb as [Hd0 Hb].
  unfold utf16_decode_char. rewrite lenZ_eqb_0. cbv zeta.
  change (at_ (d0 :: data) 0) with d0. intros H. unfold unit16 in Hd0. unfold scalar.
  case_if_in H; [injection H as <- <-; lia|].
  case_if_in H; [|case_if_in H; [done|injection H as <- <-; lia]].
  case_if_in H; [done|]. case_if_in H; [done|]. injection H as <- <-.
  bits. rewrite (prefix_add _ _ 10 (d0 mod 1024)) by lia. lia.
Qed.

Lemma utf16_decode_bmp c rest :
  0 <= c <= 0xffff -> scalar c -> utf16_decode_char (c :: rest) = Ok (1, c).
Proof.
  unfold scalar. intros. unfold utf16_decode_char. rewrite lenZ_eqb_0. unfold at_, nthZ. simpl.
  destruct (decide (c < 0xd800)); tests; done.
Qed.

Lemma utf16_encode_bmp c : 0 <= c <= 0xffff -> scalar c -> utf16_encode_char c = Ok [c].
Proof.
  unfold scalar. intros. unfold utf16_encode_char.
  destruct (decide (c < 0xd800)); tests; done.
Qed.

(** The code points up to and with the first null one. *)
Fixpoint through_nul (cps : list Z) : list Z :=
  match cps with
  | [] => []
  | c :: cps => if c =? 0 then [c] else c :: through_nul cps
  end.

Lemma convert_loop_correct fuel data cps :
  Forall unit16 data -> (length data <= fuel)%nat ->
  decode_loop utf16_decode_char fuel data = Ok cps ->
  exists bs, convert_loop utf16_decode_char utf8_encode_char fuel data = Ok bs /\
    utf8_encode_buf (through_nul cps) = Ok bs.
Proof.
  revert data cps. induction fuel as [|fuel IH]; intros data cps Hd Hf; simpl.
  { destruct data; [|simpl in Hf; lia]. intros [= <-]. by exists []. }
  destruct data as [|d0 data]; [intros [= <-]; by exists []|].
  destruct (utf16_decode_char (d0 :: data)) as [[n c]|] eqn:Hdec; [|done].
  apply utf16_decode_scalar in Hdec as [Hc Hn]; [|done|done].
  destruct (utf8_encode_decode c [] Hc) as (u & Hu & _). rewrite Hu.
  destruct (decode_loop _ _ _) as [rest|] eqn:Hrest; [|done]. intros [= <-].
  unfold utf8_encode_buf. cbn [through_nul]. destruct (c =? 0).
  - exists u. simpl. rewrite Hu. by rewrite app_nil_r.
  - destruct (IH (dropZ n (d0 :: data)) rest) as (bs & -> & Hbs); [| |done|].
    + by apply Forall_drop.
    + unfold dropZ. rewrite length_drop. simpl in Hf |- *. lia.
    + exists (u ++ bs). split; [done|]. simpl. rewrite Hu.
      unfold utf8_encode_buf in Hbs. by rewrite Hbs.
Qed.

(** * Properties *)

(** The UTF-8 codec is exact.  Every Unicode scalar value has an encoding that
    decodes to it whatever follows; every successful decoding of a non-empty
    buffer of bytes yields a scalar value whose encoding is exactly the bytes
    consumed (so overlong forms, surrogates and values above 0x10ffff are
    rejected); and the encoder refuses everything that is not a scalar value. *)
Theorem utf8_exact :
  (forall c rest, scalar c -> exists bs, utf8_encode_char c = Ok bs /\
     utf8_decode_char (bs ++ rest) = Ok (lenZ bs, c)) /\
  (forall data n c, data <> [] -> Forall byte data -> utf8_decode_char data = Ok (n, c) ->
     scalar c /\ utf8_encode_char c = Ok (takeZ n data)) /\
  (forall c, ~ scalar c -> utf8_encode_char c = Err EINVAL).
Proof.
  split_and!.
  - intros c rest Hc. destruct (utf8_encode_decode c rest Hc) as (bs & ? & _ & ?). eauto.
  - apply utf8_decode_sound.
  - intros c Hc. destruct (utf8_encode_char c) as [bs|e] eqn:E.
    + by apply utf8_encode_scalar in E.
    + revert E. unfold utf8_encode_char. repeat case_if; congruence.
Qed.

(** C35: encoding a buffer of code points in UTF-8 and decoding the result gives
    the code points back. *)
Theorem utf8_buf_roundtrip cps bs :
  utf8_encode_buf cps = Ok bs -> utf8_decode_buf bs = Ok cps.
Proof. intros H. by apply decode_encode_loop. Qed.

(** UTF-16 code units round-trip on the basic plane, but the encoder stores
    the two surrogates of a supplementary code point in the wrong order, low
    surrogate first, so that the decoder of the same file rejects every one of
    them. *)
Theorem utf16_encode_surrogates c rest :
  scalar c ->
  (c <= 0xffff -> utf16_encode_char c = Ok [c] /\ utf16_decode_char (c :: rest) = Ok (1, c)) /\
  (0xffff < c -> exists units, utf16_encode_char c = Ok units /\ lenZ units = 2 /\
     utf16_decode_char (units ++ rest) = Err EILSEQ).
Proof.
  intros Hc. split; intros Hle.
  - assert (0 <= c) by (unfold scalar in Hc; lia).
    rewrite utf16_encode_bmp, utf16_decode_bmp by (done || lia). done.
  - unfold scalar in Hc. unfold utf16_encode_char. tests. eexists. split; [done|].
    split; [done|]. bits. unfold utf16_decode_char. simpl app. rewrite lenZ_eqb_0.
    unfold at_, nthZ. simpl nth. tests. done.
Qed.

(** [utf16_to_utf8] translates the text: when its input decodes to code points
    as UTF-16, the conversion succeeds and its output decodes as UTF-8 to the
    same code points, up to and with the first null one. *)
Theorem utf16_to_utf8_correct data cps :
  Forall unit16 data -> utf16_decode_buf data = Ok cps ->
  exists bs, utf16_to_utf8 data = Ok bs /\ utf8_decode_buf bs = Ok (through_nul cps).
Proof.
  intros Hd H. destruct (convert_loop_correct (length data) data cps Hd ltac:(lia) H)
    as (bs & ? & ?). exists bs. split; [done|]. by apply decode_encode_loop.
Qed.

Lemma utf8_buf_roundtrip_witness :
  utf8_decode_buf [0x41; 0xc3; 0xa9; 0xe2; 0x82; 0xac; 0xf0; 0x9f; 0x98; 0x80] =
    Ok [0x41; 0xe9; 0x20ac; 0x1f600].
Proof. apply (utf8_buf_roundtrip [0x41; 0xe9; 0x20ac; 0x1f600]). reflexivity. Defined.

Lemma utf16_encode_surrogates_witness :
  exists units, utf16_encode_char 0x1f600 = Ok units /\ utf16_decode_char units = Err EILSEQ.
Proof.
  destruct (utf16_encode_surrogates 0x1f600 [] ltac:(unfold scalar; lia)) as [_ H].
  destruct (H ltac:(lia)) as (u & H1 & _ & H2). exists u. split; [exact H1|].
  rewrite app_nil_r in H2. exact H2.
Defined.

Lemma utf16_to_utf8_correct_witness :
  exists bs, utf16_to_utf8 [0x41; 0xd83d; 0xde00] = Ok bs /\
    utf8_decode_buf bs = Ok [0x41; 0x1f600].
Proof.
  apply (utf16_to_utf8_correct [0x41; 0xd83d; 0xde00] [0x41; 0x1f600]);
    [repeat constructor; unfold unit16; lia|reflexivity].
Defined.

(** ** Text of the basic plane

    Names without zero and without supplementary code points go through UTF-16 and back. *)

Definition bmp (c : Z) : Prop := scalar c /\ 0 < c <= 0xffff.

Lemma dropZ_app_exact {A} (l1 l2 : list A) : dropZ (lenZ l1) (l1 ++ l2) = l2.
Proof. unfold dropZ, lenZ. rewrite Nat2Z.id. apply drop_app_length. Qed.

Lemma utf8_to_utf16_bmp cps name :
  Forall bmp cps -> utf8_encode_buf cps = Ok name -> utf8_to_utf16 (name ++ [0]) = Ok (cps ++ [0]).
Proof.
  intros Hb He. unfold utf8_to_utf16.
  assert (Hgen : forall fuel, (length (name ++ [0%Z]) <= fuel)%nat ->
    convert_loop utf8_decode_char utf16_encode_char fuel (name ++ [0]) = Ok (cps ++ [0])); [|by apply Hgen].
  revert name He. induction Hb as [|c cps [Hs Hc] _ IH]; intros name He fuel Hf.
  - injection He as <-. destruct fuel as [|fuel]; [simpl in Hf; lia|]. done.
  - unfold utf8_encode_buf in He. simpl in He.
    destruct (utf8_encode_char c) as [bs|] eqn:Eb; [|done].
    destruct (encode_loop utf8_encode_char cps) as [rest|] eqn:Er; [|done]. injection He as <-.
    rewrite <- app_assoc in *. destruct (utf8_encode_decode c (rest ++ [0]) Hs) as (bs' & Eb' & _ & Hd).
    rewrite Eb in Eb'. injection Eb' as <-. pose proof (utf8_encode_length _ _ Eb) as Hl.
    destruct bs as [|b bs]; [simpl in Hl; lia|]. rewrite length_app in Hf. simpl in Hf.
    destruct fuel as [|fuel]; [lia|]. cbn [app convert_loop]. cbn [app] in Hd. rewrite Hd.
    rewrite utf16_encode_bmp by (done || lia). rewrite (proj2 (Z.eqb_neq _ _)) by lia.
    change (b :: bs ++ rest ++ [0]) with ((b :: bs) ++ rest ++ [0]). rewrite dropZ_app_exact.
    rewrite (IH rest) by (done || lia). done.
Qed.

Lemma utf16_to_utf8_bmp cps name pad :
  Forall bmp cps -> utf8_encode_buf cps = Ok name -> utf16_to_utf8 (cps ++ 0 :: pad) = Ok (name ++ [0]).
Proof.
  intros Hb He. unfold utf16_to_utf8.
  assert (Hgen : forall fuel, (length (cps ++ 0%Z :: pad) <= fuel)%nat ->
    convert_loop utf16_decode_char utf8_encode_char fuel (cps ++ 0 :: pad) = Ok (name ++ [0])); [|by apply Hgen].
  revert name He. induction Hb as [|c cps [Hs Hc] _ IH]; intros name He fuel Hf.
  - injection He as <-. destruct fuel as [|fuel]; [simpl in Hf; lia|]. done.
  - unfold utf8_encode_buf in He. simpl in He.
    destruct (utf8_encode_char c) as [bs|] eqn:Eb; [|done].
    destruct (encode_loop utf8_encode_char cps) as [rest|] eqn:Er; [|done]. injection He as <-.
    destruct fuel as [|fuel]; [simpl in Hf; lia|]. cbn [app convert_loop].
    rewrite utf16_decode_bmp by (done || lia). rewrite Eb. rewrite (proj2 (Z.eqb_neq _ _)) by lia.
    change (dropZ 1 (c :: cps ++ 0 :: pad)) with (cps ++ 0 :: pad). simpl in Hf.
    rewrite (IH rest) by (done || lia). by rewrite app_assoc.
Qed.

End Unicode.
