(* ===== verification/Time.v ===== *)
(** Calendar time and timespecs (kernel/klib/time.c, kernel/include/klib/time.h)
    and the deadline of [nano_sleep] (kernel/task/sleep.c).

    [long] and [time_t] are signed 64-bit numbers; the values here stay far from
    their bounds and are plain integers.  C's [/] and [%] are [Z.quot] and
    [Z.rem].  The two loops of [time2date] have fuel; the theorems show that the
    fuel chosen always ends them. *)

From S2P Require Import Prelude.

Module Time.

Implicit Types (year month day hour minute second time : Z).

Definition is_leap year : bool :=
  if negb (Z.rem year 4 =? 0) then false
  else if (negb (Z.rem year 400 =? 0) && (Z.rem year 100 =? 0))%bool then false
  else true.

Definition nbofdayin year month : Z :=
  match month with
  | 12 => 31
  | 11 => 30
  | 10 => 31
  | 9 => 30
  | 8 => 31
  | 7 => 31
  | 6 => 30
  | 5 => 31
  | 4 => 30
  | 3 => 31
  | 2 => if is_leap year then 29 else 28
  | 1 => 31
  | _ => -1
  end.

(** The [switch] of [date2time]: each case adds its days and falls through to the
    next lower month. *)
Definition month_days year month : Z :=
  let c2 := 31 in
  let c3 := (if is_leap year then 29 else 28) + c2 in
  let c4 := 31 + c3 in
  let c5 := 30 + c4 in
  let c6 := 31 + c5 in
  let c7 := 30 + c6 in
  let c8 := 31 + c7 in
  let c9 := 31 + c8 in
  let c10 := 30 + c9 in
  let c11 := 31 + c10 in
  let c12 := 30 + c11 in
  match month with
  | 12 => c12
  | 11 => c11
  | 10 => c10
  | 9 => c9
  | 8 => c8
  | 7 => c7
  | 6 => c6
  | 5 => c5
  | 4 => c4
  | 3 => c3
  | 2 => c2
  | _ => 0
  end.

(** The loop [while (year > 1970)], with [n] turns left. *)
Fixpoint year_loop (n : nat) year (days : Z) : Z :=
  match n with
  | O => days
  | S n =>
      if 1970 <? year then
        let year := year - 1 in
        year_loop n year (if is_leap year then days + 366 else days + 365)
      else days
  end.

Definition date2time year month day hour minute second : Z :=
  let days := day - 1 in
  let days := days + month_days year month in
  let days := year_loop (Z.to_nat (year - 1970)) year days in
  second + minute * 60 + hour * 3600 + days * 86400.

(** The first [for] of [time2date]: the year and the day in it. *)
Fixpoint find_year (fuel : nat) (day year : Z) : option (Z * Z) :=
  match fuel with
  | O => None
  | S fuel =>
      if is_leap year then
        if day <? 366 then Some (day, year) else find_year fuel (day - 366) (year + 1)
      else
        if day <? 365 then Some (day, year) else find_year fuel (day - 365) (year + 1)
  end.

(** The second [for]: the month and the day in it. *)
Fixpoint find_month (fuel : nat) year (day month : Z) : option (Z * Z) :=
  match fuel with
  | O => None
  | S fuel =>
      if day <? nbofdayin year month then Some (day, month)
      else find_month fuel year (day - nbofdayin year month) (month + 1)
  end.

Record date := mk_date {
  d_year : Z; d_month : Z; d_day : Z; d_hour : Z; d_minute : Z; d_second : Z }.

Definition time2date time : option date :=
  let second := Z.rem time 60 in
  let minute := Z.rem (Z.quot time 60) 60 in
  let hour := Z.rem (Z.quot time 3600) 24 in
  let day := Z.quot time 86400 in
  '(day, year) ← find_year (Z.to_nat day + 1) day 1970;
  '(day, month) ← find_month 12 year day 1;
  Some (mk_date year month day hour minute second).

(** ** Timespecs *)

Record timespec := mk_timespec { tv_sec : Z; tv_nsec : Z }.

Definition NSEC_PER_SEC : Z := 1000000000.

Implicit Types (a b : timespec).

Definition timespec_cmp a b : Z :=
  if tv_sec b <? tv_sec a then 1
  else if tv_sec a <? tv_sec b then -1
  else if tv_nsec b <? tv_nsec a then 1
  else if tv_nsec a <? tv_nsec b then -1
  else 0.

Definition timespec_add a b : timespec :=
  let sec := tv_sec a + tv_sec b in
  let nsec := tv_nsec a + tv_nsec b in
  if NSEC_PER_SEC <? nsec then mk_timespec (sec + 1) (Z.rem nsec NSEC_PER_SEC)
  else mk_timespec sec nsec.

Definition timespec_sub a b : timespec :=
  let sec := tv_sec a - tv_sec b in
  let nsec := tv_nsec a - tv_nsec b in
  if nsec <? 0 then mk_timespec (sec - 1) (nsec + NSEC_PER_SEC)
  else mk_timespec sec nsec.

(** The wake-up time that [nano_sleep] computes from the current time, or [None]
    when it returns at once. *)
Definition nano_sleep_deadline (now : timespec) (nano_seconds : Z) : option timespec :=
  if nano_seconds <? 100 then None
  else if nano_seconds <? 1000000000 - tv_nsec now then
    Some (mk_timespec (tv_sec now) (tv_nsec now + nano_seconds))
  else
    let nano_seconds := nano_seconds - (1000000000 - tv_nsec now) in
    Some (mk_timespec (tv_sec now + 1 + Z.quot nano_seconds 1000000000)
            (Z.rem nano_seconds 1000000000)).

(** * Reference definitions *)

(** The Gregorian rule. *)
Definition gregorian_leap year : Prop :=
  year mod 4 = 0 /\ (year mod 100 <> 0 \/ year mod 400 = 0).

Definition year_length year : Z := if is_leap year then 366 else 365.

(** The number of days of the [n] years from 1970. *)
Fixpoint days_of_years (n : nat) : Z :=
  match n with
  | O => 0
  | S n => year_length (1970 + Z.of_nat n) + days_of_years n
  end.

Definition nanoseconds a : Z := tv_sec a * NSEC_PER_SEC + tv_nsec a.
Definition normal a : Prop := 0 <= tv_nsec a < NSEC_PER_SEC.

Lemma year_loop_days n days :
  year_loop n (1970 + Z.of_nat n) days = days + days_of_years n.
Proof.
  revert days. induction n as [|n IH]; intros days; simpl; [lia|].
  case_if; [|lia]. replace (1970 + Z.of_nat (S n) - 1) with (1970 + Z.of_nat n) by lia.
  rewrite IH. unfold year_length. destruct (is_leap _); lia.
Qed.

Lemma year_length_bounds year : 365 <= year_length year <= 366.
Proof. unfold year_length. destruct (is_leap year); lia. Qed.

Lemma find_year_spec fuel day n :
  0 <= day -> (Z.to_nat day < fuel)%nat ->
  exists m d, find_year fuel day (1970 + Z.of_nat n) = Some (d, 1970 + Z.of_nat m) /\
    0 <= d < year_length (1970 + Z.of_nat m) /\
    day + days_of_years n = d + days_of_years m.
Proof.
  revert day n. induction fuel as [|fuel IH]; intros day n Hd Hf; [lia|].
  assert (find_year (S fuel) day (1970 + Z.of_nat n) =
    if day <? year_length (1970 + Z.of_nat n) then Some (day, 1970 + Z.of_nat n)
    else find_year fuel (day - year_length (1970 + Z.of_nat n)) (1970 + Z.of_nat n + 1)) as ->.
  { unfold year_length. simpl. destruct (is_leap _); done. }
  case_if; [exists n, day; done|].
  pose proof (year_length_bounds (1970 + Z.of_nat n)).
  replace (1970 + Z.of_nat n + 1) with (1970 + Z.of_nat (S n)) by lia.
  destruct (IH (day - year_length (1970 + Z.of_nat n)) (S n)) as (m & d & -> & ? & He); [lia..|].
  exists m, d. split; [done|]. split; [done|]. simpl in He. lia.
Qed.

Lemma find_month_spec year day :
  0 <= day < year_length year ->
  exists month d, find_month 12 year day 1 = Some (d, month) /\
    1 <= month <= 12 /\ 0 <= d < nbofdayin year month /\ month_days year month + d = day.
Proof.
  unfold year_length. intros Hd. simpl find_month. unfold nbofdayin, month_days.
  destruct (is_leap year); repeat (case_if; [eexists _, _; split; [done|simpl; lia]|]); lia.
Qed.
Lemma is_leap_gregorian year : is_leap year = true <-> gregorian_leap year.
Proof.
  unfold is_leap, gregorian_leap.
  assert (forall k, 0 < k -> Z.rem year k = 0 <-> year mod k = 0) as Hr.
  { intros k Hk. rewrite Z.rem_divide, Z.mod_divide by lia. done. }
  pose proof (Hr 4 ltac:(lia)). pose proof (Hr 100 ltac:(lia)). pose proof (Hr 400 ltac:(lia)).
  destruct (Z.rem year 4 =? 0) eqn:E4; simpl; zbool; [|split; [done|tauto]].
  destruct (Z.rem year 400 =? 0) eqn:E400; simpl; zbool; [split; [tauto|done]|].
  destruct (Z.rem year 100 =? 0) eqn:E100; simpl; zbool; split; try done; tauto.
Qed.

(** ** Uniqueness of the decomposition *)

Lemma days_of_years_mono n m :
  (n <= m)%nat -> days_of_years n + 365 * (Z.of_nat m - Z.of_nat n) <= days_of_years m.
Proof.
  induction 1 as [|m Hm IH]; [lia|]. simpl.
  pose proof (year_length_bounds (1970 + Z.of_nat m)). lia.
Qed.

Lemma find_year_unique n m d d' :
  days_of_years n + d = days_of_years m + d' ->
  0 <= d < year_length (1970 + Z.of_nat n) -> 0 <= d' < year_length (1970 + Z.of_nat m) ->
  n = m /\ d = d'.
Proof.
  intros He Hd Hd'. assert (n = m) as ->; [|lia].
  destruct (Nat.lt_trichotomy n m) as [Hlt|[->|Hlt]]; [|done|].
  - pose proof (days_of_years_mono (S n) m ltac:(lia)) as Hm. simpl in Hm. lia.
  - pose proof (days_of_years_mono (S m) n ltac:(lia)) as Hm. simpl in Hm. lia.
Qed.

Lemma month_cases month : 1 <= month <= 12 ->
  month = 1 \/ month = 2 \/ month = 3 \/ month = 4 \/ month = 5 \/ month = 6 \/
  month = 7 \/ month = 8 \/ month = 9 \/ month = 10 \/ month = 11 \/ month = 12.
Proof. lia. Qed.

Lemma month_days_succ year month :
  1 <= month < 12 -> month_days year (month + 1) = month_days year month + nbofdayin year month.
Proof.
  intros. assert (1 <= month <= 12) as Hm by lia. apply month_cases in Hm.
  destruct Hm as [->|[->|[->|[->|[->|[->|[->|[->|[->|[->|[->| ->]]]]]]]]]]]; try lia;
    unfold month_days, nbofdayin; simpl; destruct (is_leap year); lia.
Qed.

Lemma month_days_bound year month d :
  1 <= month <= 12 -> d < nbofdayin year month -> month_days year month + d < year_length year.
Proof.
  intros Hm. apply month_cases in Hm. unfold year_length.
  destruct Hm as [->|[->|[->|[->|[->|[->|[->|[->|[->|[->|[->| ->]]]]]]]]]]];
    unfold month_days, nbofdayin; simpl; destruct (is_leap year); lia.
Qed.

Lemma month_days_nonneg year month : 0 <= month_days year month.
Proof.
  unfold month_days. destruct (is_leap year);
    repeat case_match; lia.
Qed.

Lemma nbofdayin_bounds year month : 1 <= month <= 12 -> 28 <= nbofdayin year month <= 31.
Proof.
  intros Hm. apply month_cases in Hm.
  destruct Hm as [->|[->|[->|[->|[->|[->|[->|[->|[->|[->|[->| ->]]]]]]]]]]];
    unfold nbofdayin; destruct (is_leap year); lia.
Qed.

Lemma month_days_mono year j month :
  1 <= j <= month -> month <= 12 -> month_days year j <= month_days year month.
Proof.
  intros Hj Hm. remember (Z.to_nat (month - j)) as n eqn:Hn. revert j Hj Hn.
  induction n as [|n IH]; intros j Hj Hn; [assert (j = month) as -> by lia; lia|].
  specialize (IH (j + 1) ltac:(lia) ltac:(lia)).
  rewrite month_days_succ in IH by lia.
  pose proof (nbofdayin_bounds year j ltac:(lia)). lia.
Qed.

Lemma find_month_at year d k month fuel :
  1 <= k <= month -> month <= 12 -> 0 <= d < nbofdayin year month ->
  (Z.to_nat (month - k) < fuel)%nat ->
  find_month fuel year (month_days year month + d - month_days year k) k = Some (d, month).
Proof.
  intros Hk Hm Hd. remember (Z.to_nat (month - k)) as n eqn:Hn.
  revert k fuel Hk Hn. induction n as [|n IH]; intros k fuel Hk Hn Hf;
    (destruct fuel as [|fuel]; [lia|]); simpl.
  - assert (k = month) as -> by lia. replace (_ + d - _) with d by lia.
    case_if; [done|lia].
  - assert (month_days year (k + 1) <= month_days year month) as Hmono.
    { apply month_days_mono; lia. }
    rewrite month_days_succ in Hmono by lia. case_if; [lia|].
    specialize (IH (k + 1) fuel ltac:(lia) ltac:(lia) ltac:(lia)).
    rewrite month_days_succ in IH by lia.
    replace (month_days year month + d - month_days year k - nbofdayin year k)
      with (month_days year month + d - (month_days year k + nbofdayin year k)) by lia.
    done.
Qed.

(** * Properties *)

(** The fields of a date are in range; the day counts from [first]. *)
Definition valid_date (first : Z) (d : date) : Prop :=
  1970 <= d_year d /\ 1 <= d_month d <= 12 /\
  first <= d_day d < first + nbofdayin (d_year d) (d_month d) /\
  0 <= d_hour d < 24 /\ 0 <= d_minute d < 60 /\ 0 <= d_second d < 60.

Lemma time2date_spec time :
  0 <= time ->
  exists d, time2date time = Some d /\ valid_date 0 d /\
    date2time (d_year d) (d_month d) (d_day d + 1) (d_hour d) (d_minute d) (d_second d) = time /\
    date2time (d_year d) (d_month d) (d_day d) (d_hour d) (d_minute d) (d_second d) = time - 86400.
Proof.
  intros Ht. unfold time2date. rewrite !Z.quot_div_nonneg by lia.
  pose proof (Z.div_pos time 60 Ht ltac:(lia)). pose proof (Z.div_pos time 3600 Ht ltac:(lia)).
  pose proof (Z.div_pos time 86400 Ht ltac:(lia)).
  rewrite !Z.rem_mod_nonneg by lia.
  destruct (find_year_spec (Z.to_nat (time / 86400) + 1) (time / 86400) 0)
    as (n & d & Hfy & Hd & He); [lia..|].
  change (1970 + Z.of_nat 0) with 1970 in Hfy. rewrite Hfy. cbn [mbind option_bind].
  destruct (find_month_spec _ _ Hd) as (month & d' & -> & Hm & Hd' & Hdm). cbn [mbind option_bind].
  eexists. split; [done|]. unfold valid_date. simpl.
  pose proof (Z.mod_pos_bound (time / 3600) 24 ltac:(lia)).
  pose proof (Z.mod_pos_bound (time / 60) 60 ltac:(lia)).
  pose proof (Z.mod_pos_bound time 60 ltac:(lia)).
  split; [lia|]. unfold date2time.
  replace (Z.to_nat (1970 + Z.of_nat n - 1970)) with n by lia.
  rewrite !year_loop_days. simpl in He. clear Hfy.
  pose proof (Z.div_div time 60 60 ltac:(lia) ltac:(lia)) as E1.
  pose proof (Z.div_div time 3600 24 ltac:(lia) ltac:(lia)) as E2.
  simpl in E1, E2. Z.div_mod_to_equations. lia.
Qed.

(** C36: [time2date] always ends on a non-negative time, with every field in its
    range, and [date2time] of the fields, with the day shifted by one, is the
    time: the day it stores counts from 0 while [date2time] counts days from 1,
    so converting a time to a date and back loses exactly one day. *)
Theorem time2date_correct time :
  0 <= time ->
  exists d, time2date time = Some d /\ valid_date 0 d /\
    date2time (d_year d) (d_month d) (d_day d + 1) (d_hour d) (d_minute d) (d_second d) = time /\
    date2time (d_year d) (d_month d) (d_day d) (d_hour d) (d_minute d) (d_second d) = time - 86400.
Proof. apply time2date_spec. Qed.

(** The inverse direction: [time2date] recovers every field of a valid date
    from 1970 on, except that the day it reports counts from 0. *)
Theorem date2time_inverse d :
  valid_date 1 d ->
  time2date (date2time (d_year d) (d_month d) (d_day d) (d_hour d) (d_minute d) (d_second d)) =
    Some (mk_date (d_year d) (d_month d) (d_day d - 1) (d_hour d) (d_minute d) (d_second d)).
Proof.
  destruct d as [y mo da h mi s]. unfold valid_date. simpl. intros (Hy & Hmo & Hda & Hh & Hmi & Hs).
  unfold date2time. remember (Z.to_nat (y - 1970)) as n eqn:Hn.
  assert (y = 1970 + Z.of_nat n) as -> by lia. rewrite year_loop_days.
  set (days := da - 1 + month_days (1970 + Z.of_nat n) mo + days_of_years n).
  pose proof (month_days_nonneg (1970 + Z.of_nat n) mo).
  pose proof (days_of_years_mono 0 n ltac:(lia)) as Hn0. simpl in Hn0.
  assert (0 <= days) as Hdays by lia.
  set (t := s + mi * 60 + h * 3600 + days * 86400). unfold time2date.
  rewrite !Z.quot_div_nonneg by lia.
  assert (t / 86400 = days /\ t mod 60 = s /\ (t / 60) mod 60 = mi /\ (t / 3600) mod 24 = h)
    as (-> & Es & Em & Eh) by (unfold t; Z.div_mod_to_equations; lia).
  rewrite !Z.rem_mod_nonneg, Es, Em, Eh by (lia || (apply Z.div_pos; lia)).
  destruct (find_year_spec (Z.to_nat days + 1) days 0) as (m & d & Hfy & Hd & He); [lia..|].
  change (1970 + Z.of_nat 0) with 1970 in Hfy. simpl in He.
  destruct (find_year_unique n m (da - 1 + month_days (1970 + Z.of_nat n) mo) d) as [<- <-].
  { unfold days in He. lia. }
  { split; [lia|]. rewrite Z.add_comm. apply month_days_bound; lia. }
  { done. }
  rewrite Hfy. cbn [mbind option_bind].
  pose proof (find_month_at (1970 + Z.of_nat n) (da - 1) 1 mo 12) as Hfm.
  change (month_days (1970 + Z.of_nat n) 1) with 0 in Hfm.
  replace (month_days (1970 + Z.of_nat n) mo + (da - 1) - 0)
    with (da - 1 + month_days (1970 + Z.of_nat n) mo) in Hfm by lia.
  rewrite Hfm by lia. done.
Qed.

(** Arithmetic on normalised timespecs is exact.  [timespec_cmp] is the
    comparison of the nanosecond counts, [timespec_sub] gives the normalised
    difference, the deadline of [nano_sleep] is normalised and exactly the
    requested time later; and [timespec_add] gives the sum, normalised except
    in the one case its strict test misses, when the nanoseconds add up to
    exactly one second. *)
Theorem timespec_arith a b ns :
  normal a -> normal b ->
  timespec_cmp a b = Z.sgn (nanoseconds a - nanoseconds b) /\
  (normal (timespec_sub a b) /\ nanoseconds (timespec_sub a b) = nanoseconds a - nanoseconds b) /\
  (nanoseconds (timespec_add a b) = nanoseconds a + nanoseconds b /\
   (normal (timespec_add a b) <-> tv_nsec a + tv_nsec b <> NSEC_PER_SEC)) /\
  match nano_sleep_deadline a ns with
  | None => ns < 100
  | Some t => normal t /\ nanoseconds t = nanoseconds a + ns
  end.
Proof.
  unfold normal, nanoseconds, NSEC_PER_SEC. intros Ha Hb. split; [|split; [|split]].
  - unfold timespec_cmp. repeat case_if; symmetry;
      first [apply Z.sgn_pos; lia | apply Z.sgn_neg; lia | apply Z.sgn_null; lia].
  - unfold timespec_sub, NSEC_PER_SEC. case_if; simpl; lia.
  - unfold timespec_add, NSEC_PER_SEC. case_if; simpl; [|lia].
    rewrite Z.rem_mod_nonneg by lia. Z.div_mod_to_equations. lia.
  - unfold nano_sleep_deadline. case_if; [done|]. case_if; simpl; [lia|].
    rewrite Z.quot_div_nonneg, Z.rem_mod_nonneg by lia. Z.div_mod_to_equations. lia.
Qed.

(** [is_leap] is the Gregorian rule. *)
Theorem is_leap_correct year : is_leap year = true <-> gregorian_leap year.
Proof. apply is_leap_gregorian. Qed.

Lemma time2date_correct_witness :
  exists d, time2date 951782400 = Some d /\ date2time 2000 2 29 0 0 0 = 951782400.
Proof.
  destruct (time2date_correct 951782400 ltac:(lia)) as (d & H1 & _ & H2 & _).
  exists d. split; [exact H1|]. vm_compute in H1. injection H1 as <-. exact H2.
Defined.

Lemma date2time_inverse_witness :
  time2date (date2time 2024 12 31 23 59 58) = Some (mk_date 2024 12 30 23 59 58).
Proof.
  apply (date2time_inverse (mk_date 2024 12 31 23 59 58)).
  unfold valid_date. simpl. lia.
Defined.

Lemma timespec_arith_witness :
  timespec_cmp (mk_timespec 1 600000000) (mk_timespec 2 400000000) = -1.
Proof.
  destruct (timespec_arith (mk_timespec 1 600000000) (mk_timespec 2 400000000) 1000)
    as [H _]; [unfold normal, NSEC_PER_SEC; simpl; lia..|]. exact H.
Defined.

End Time.
