(* ===== verification/Avl.v ===== *)
(** AVL trees (kernel/klib/avltree.c, kernel/include/klib/avltree.h).

    A node of the source is embedded in the structure it orders; here a node is a
    record of its address, its [parent] pointer, its [height] and the data of the
    structure around it.  The [left] and [right] pointers of the source own their
    target, so they are the subtrees of an inductive tree; the [parent] pointer
    is an address, and [avltree_next], which climbs through it, looks addresses
    up.  The callbacks of a tree ([struct avltree_ops]) are a class; what the
    theorems need of them is a second class, so that a user of the trees
    discharges the laws once.  [None] stands for [__builtin_unreachable] and for
    null dereferences.  Heights are below 2^31: a tree of height [h] has at least
    [h] nodes in memory. *)

From S2P Require Import Prelude.

Module Avl.

(** ** Data *)

Section data.
Context (A : Type).

Record avltree_node := mk_node {
  addr : Z;
  parent : option Z;
  height : Z;
  data : A;
}.

Inductive tree :=
  | Null
  | Node (n : avltree_node) (left right : tree).
End data.
Arguments mk_node {A} _ _ _ _.
Arguments addr {A} _.
Arguments parent {A} _.
Arguments height {A} _.
Arguments data {A} _.
Arguments Null {A}.
Arguments Node {A} _ _ _.

(** The callbacks see a node and, through its pointers, its two children. *)
Class avltree_ops (A K : Type) := {
  compare_nodes : A -> A -> Z;
  compare_key : K -> A -> option A -> option A -> Z;
  recalculate : option (A -> option A -> option A -> A);
}.

(** Which of [&( *current)->left] and [&( *current)->right] a [child] pointer is. *)
Inductive side := L | R.

Section ops.
Context {A K : Type} {ops : avltree_ops A K}.
Implicit Types (t l r : tree A) (c n : avltree_node A).

Definition avltree_init : tree A := Null.

Definition sign (ret : Z) : Z :=
  if ret <? 0 then -1 else if ret >? 0 then 1 else 0.

Definition avltree_compare_nodes n c : Z := sign (compare_nodes (data n) (data c)).

Definition root_data t : option A :=
  match t with Null => None | Node c _ _ => Some (data c) end.

Definition avltree_compare_key (key : K) c l r : Z :=
  sign (compare_key key (data c) (root_data l) (root_data r)).

Definition avltree_height t : Z :=
  match t with Null => 0 | Node c _ _ => height c end.

Definition avltree_compute_height c l r : avltree_node A :=
  let left_height := avltree_height l in
  let right_height := avltree_height r in
  mk_node (addr c) (parent c)
    ((if left_height >? right_height then left_height else right_height) + 1)
    (match recalculate with
     | Some f => f (data c) (root_data l) (root_data r)
     | None => data c
     end).

Definition avltree_balance_factor t : Z :=
  match t with
  | Null => 0
  | Node _ l r => avltree_height r - avltree_height l
  end.

(** [if (t) t->parent = p] *)
Definition set_parent (p : option Z) t : tree A :=
  match t with
  | Null => Null
  | Node c l r => Node (mk_node (addr c) p (height c) (data c)) l r
  end.

Definition with_parent (p : option Z) c : avltree_node A :=
  mk_node (addr c) p (height c) (data c).

Definition avltree_rotate_left t : option (tree A) :=
  match t with
  | Node node nl (Node nright rl rr) =>
      let nright := with_parent (parent node) nright in
      let node := with_parent (Some (addr nright)) node in
      let rl := set_parent (Some (addr node)) rl in
      let node := avltree_compute_height node nl rl in
      Some (Node (avltree_compute_height nright (Node node nl rl) rr) (Node node nl rl) rr)
  | _ => None
  end.

Definition avltree_rotate_right t : option (tree A) :=
  match t with
  | Node node (Node nleft ll lr) nr =>
      let nleft := with_parent (parent node) nleft in
      let node := with_parent (Some (addr nleft)) node in
      let lr := set_parent (Some (addr node)) lr in
      let node := avltree_compute_height node lr nr in
      Some (Node (avltree_compute_height nleft ll (Node node lr nr)) ll (Node node lr nr))
  | _ => None
  end.

Fixpoint avltree_leftest_subnode t : option (avltree_node A) :=
  match t with
  | Null => None
  | Node c Null _ => Some c
  | Node _ l _ => avltree_leftest_subnode l
  end.

(** [*child] and the assignment to it. *)
Definition get_child (s : side) t : tree A :=
  match t, s with
  | Null, _ => Null
  | Node _ l _, L => l
  | Node _ _ r, R => r
  end.
Definition set_child (s : side) t (v : tree A) : tree A :=
  match t, s with
  | Null, _ => Null
  | Node c _ r, L => Node c v r
  | Node c l _, R => Node c l v
  end.

Definition avltree_rebalance (current : tree A) (child : side) : option (tree A) :=
  match current with
  | Null => Some Null
  | Node c l r =>
      let current := Node (avltree_compute_height c l r) l r in
      match avltree_balance_factor current with
      | -2 =>
          current ←
            (if avltree_balance_factor (get_child child current) >? 0
             then v ← avltree_rotate_left (get_child child current);
                  Some (set_child child current v)
             else Some current);
          avltree_rotate_right current
      | -1 | 0 | 1 => Some current
      | 2 =>
          current ←
            (if avltree_balance_factor (get_child child current) <? 0
             then v ← avltree_rotate_right (get_child child current);
                  Some (set_child child current v)
             else Some current);
          avltree_rotate_left current
      | _ => None
      end
  end.

(** [node] is the node with what its [left] and [right] fields hold. *)
Fixpoint avltree_insert_helper (p : option Z) (current : tree A)
    (n : avltree_node A) (nl nr : tree A) : option (tree A) :=
  match current with
  | Null => Some (Node (with_parent p n) nl nr)
  | Node c l r =>
      match avltree_compare_nodes n c with
      | -1 =>
          l ← avltree_insert_helper (Some (addr c)) l n nl nr;
          avltree_rebalance (Node c l r) L
      | _ =>
          r ← avltree_insert_helper (Some (addr c)) r n nl nr;
          avltree_rebalance (Node c l r) R
      end
  end.

Definition avltree_insert (root : tree A) (n : avltree_node A) (nl nr : tree A)
    : option (tree A) :=
  avltree_insert_helper None root (mk_node (addr n) (parent n) 1 (data n)) nl nr.

(** The tree and the value returned. *)
Fixpoint avltree_remove_helper (current : tree A) (n : avltree_node A)
    : option (tree A * Z) :=
  match current with
  | Null => Some (Null, 0)
  | Node c l r =>
      let descend (s : side) :=
        '(v, ret) ← avltree_remove_helper (match s with L => l | R => r end) n;
        if ret =? 0 then Some (set_child s current v, 0)
        else
          t ← avltree_rebalance (set_child s current v) s;
          Some (t, 1) in
      match avltree_compare_nodes n c with
      | -1 => descend L
      | 1 => descend R
      | _ =>
          if negb (addr c =? addr n) then descend R
          else
            match l, r with
            | _, Null => Some (set_parent (parent c) l, 1)
            | Null, _ => Some (set_parent (parent c) r, 1)
            | _, _ =>
                leftest ← avltree_leftest_subnode r;
                '(r', ret) ← avltree_remove_helper r leftest;
                if ret =? 0 then None
                else
                  t ← avltree_rebalance
                        (Node (with_parent (parent c) leftest)
                           (set_parent (Some (addr leftest)) l)
                           (set_parent (Some (addr leftest)) r')) R;
                  Some (t, 1)
            end
      end
  end.

Definition avltree_remove (root : tree A) (n : avltree_node A) : option (tree A * Z) :=
  avltree_remove_helper root n.

Fixpoint avltree_lookup (node : tree A) (key : K) : option (avltree_node A) :=
  match node with
  | Null => None
  | Node c l r =>
      match avltree_compare_key key c l r with
      | -1 => avltree_lookup l key
      | 1 => avltree_lookup r key
      | _ => Some c
      end
  end.

Fixpoint first_superior_or_equal_loop (best : option (avltree_node A)) (node : tree A)
    (key : K) : option (avltree_node A) :=
  match node with
  | Null => best
  | Node c l r =>
      match avltree_compare_key key c l r with
      | 1 => first_superior_or_equal_loop best r key
      | _ => first_superior_or_equal_loop (Some c) l key
      end
  end.

Definition avltree_first_superior_or_equal (root : tree A) (key : K)
    : option (avltree_node A) :=
  first_superior_or_equal_loop None root key.

Definition avltree_first (root : tree A) : option (avltree_node A) :=
  avltree_leftest_subnode root.

(** The node at an address. *)
Fixpoint deref (root : tree A) (a : Z) : option (tree A) :=
  match root with
  | Null => None
  | Node c l r =>
      if addr c =? a then Some root
      else match deref l a with Some t => Some t | None => deref r a end
  end.

Definition root_addr t : option Z :=
  match t with Null => None | Node c _ _ => Some (addr c) end.

(** The loop that moves up: [parent] and [node] are its two variables; the inner
    option is the pointer returned. *)
Fixpoint next_up (fuel : nat) (root : tree A) (p : option Z) (node : Z)
    : option (option Z) :=
  match fuel with
  | O => None
  | S fuel =>
      match p with
      | None => Some None
      | Some pa =>
          t ← deref root pa;
          match t with
          | Null => None
          | Node pc _ pr =>
              if decide (root_addr pr = Some node) then next_up fuel root (parent pc) pa
              else Some (Some pa)
          end
      end
  end.

Fixpoint size t : nat :=
  match t with Null => 0 | Node _ l r => S (size l + size r) end%nat.

Definition avltree_next (root : tree A) (node : option Z) : option (option Z) :=
  match node with
  | None => Some None
  | Some a =>
      t ← deref root a;
      match t with
      | Null => None
      | Node c _ Null => next_up (S (size root)) root (parent c) a
      | Node _ _ r => Some (addr <$> avltree_leftest_subnode r)
      end
  end.

(** The addresses a loop [avltree_foreach] visits. *)
Fixpoint foreach_from (fuel : nat) (root : tree A) (node : option Z)
    : option (list Z) :=
  match fuel, node with
  | _, None => Some []
  | O, Some _ => None
  | S fuel, Some a =>
      next ← avltree_next root node;
      rest ← foreach_from fuel root next;
      Some (a :: rest)
  end.

Definition avltree_foreach (root : tree A) : option (list Z) :=
  foreach_from (size root) root (addr <$> avltree_first root).
End ops.

(** ** What the trees need of their callbacks

    [recalculate] may refresh a summary of the subtree stored in the node, but
    not what the comparison looks at ([base]). *)
Class avltree_laws {A K : Type} (ops : avltree_ops A K) (B : Type) := {
  base : A -> B;
  cmp : B -> B -> Z;
  compare_nodes_base a b : compare_nodes a b = cmp (base a) (base b);
  recalculate_base f a x y : recalculate = Some f -> base (f a x y) = base a;
  recalculate_again f a x y x' y' :
    recalculate = Some f -> f (f a x y) x' y' = f a x' y';
}.

Section spec.
Context {A K B : Type} {ops : avltree_ops A K} {laws : avltree_laws ops B}.
Implicit Types (t l r : tree A) (c n : avltree_node A).

(** The identity of a node: its address and what it is compared by. *)
Definition ent c : Z * B := (addr c, base (data c)).

(** The nodes in order. *)
Fixpoint elements t : list (Z * B) :=
  match t with
  | Null => []
  | Node c l r => elements l ++ ent c :: elements r
  end.

Definition refreshed (a : A) (x y : option A) : A :=
  match recalculate with Some f => f a x y | None => a end.

(** The fields of every node say the truth: the parent pointer, the height and
    the summary. *)
Fixpoint wf (p : option Z) t : Prop :=
  match t with
  | Null => True
  | Node c l r =>
      parent c = p /\
      height c = Z.max (avltree_height l) (avltree_height r) + 1 /\
      data c = refreshed (data c) (root_data l) (root_data r) /\
      wf (Some (addr c)) l /\ wf (Some (addr c)) r
  end.

(** The balance factors are at most [k]. *)
Fixpoint bal (k : Z) t : Prop :=
  match t with
  | Null => True
  | Node c l r =>
      Z.abs (avltree_height r - avltree_height l) <= k /\ bal k l /\ bal k r
  end.

Lemma height_pos p t : wf p t -> 0 <= avltree_height t.
Proof.
  revert p. induction t as [|c l IHl r IHr]; simpl; intros p; [lia|].
  intros (_ & -> & _ & Hl%IHl & Hr%IHr). lia.
Qed.

Lemma height_zero p t : wf p t -> avltree_height t <= 0 -> t = Null.
Proof.
  destruct t as [|c l r]; simpl; [done|]. intros (_ & -> & _ & Hl & Hr).
  apply height_pos in Hl, Hr. lia.
Qed.

Lemma bal_weaken k k' t : k <= k' -> bal k t -> bal k' t.
Proof. intros Hk. induction t; simpl; [done|]. intros (? & ? & ?). split; [lia|]. auto. Qed.

(** *** [set_parent] *)

Lemma height_set_parent q t : avltree_height (set_parent q t) = avltree_height t.
Proof. by destruct t. Qed.
Lemma bf_set_parent q t : avltree_balance_factor (set_parent q t) = avltree_balance_factor t.
Proof. by destruct t. Qed.
Lemma root_data_set_parent q t : root_data (set_parent q t) = root_data t.
Proof. by destruct t. Qed.
Lemma elements_set_parent q t : elements (set_parent q t) = elements t.
Proof. by destruct t. Qed.
Lemma bal_set_parent q k t : bal k (set_parent q t) <-> bal k t.
Proof. by destruct t. Qed.
Lemma wf_set_parent p q t : wf p t -> wf q (set_parent q t).
Proof. destruct t; simpl; naive_solver. Qed.

(** *** A node whose fields have just been computed *)

Definition mk c l r : tree A := Node (avltree_compute_height c l r) l r.

Lemma ent_compute c l r : ent (avltree_compute_height c l r) = ent c.
Proof.
  unfold ent, avltree_compute_height. simpl.
  destruct recalculate eqn:E; [|done]. by rewrite (recalculate_base _ _ _ _ E).
Qed.

Lemma height_mk c l r :
  avltree_height (mk c l r) = Z.max (avltree_height l) (avltree_height r) + 1.
Proof. simpl. case_if; lia. Qed.

Lemma elements_mk c l r : elements (mk c l r) = elements l ++ ent c :: elements r.
Proof. simpl. by rewrite ent_compute. Qed.

Lemma bal_mk k c l r :
  Z.abs (avltree_height r - avltree_height l) <= k -> bal k l -> bal k r ->
  bal k (mk c l r).
Proof. done. Qed.

Lemma refreshed_again a x y x' y' : refreshed (refreshed a x y) x' y' = refreshed a x' y'.
Proof. unfold refreshed. destruct recalculate eqn:E; [|done]. by apply recalculate_again. Qed.

Lemma wf_mk p c l r :
  parent c = p -> wf (Some (addr c)) l -> wf (Some (addr c)) r -> wf p (mk c l r).
Proof.
  intros Hp Hl Hr. change (wf p (mk c l r)) with
    (parent c = p /\ avltree_height (mk c l r) = Z.max (avltree_height l) (avltree_height r) + 1
     /\ refreshed (data c) (root_data l) (root_data r) =
        refreshed (refreshed (data c) (root_data l) (root_data r)) (root_data l) (root_data r)
     /\ wf (Some (addr c)) l /\ wf (Some (addr c)) r).
  rewrite height_mk, refreshed_again. done.
Qed.

Lemma root_data_mk c l r : root_data (mk c l r) = Some (refreshed (data c) (root_data l) (root_data r)).
Proof. done. Qed.


(** A rotation on nodes with truthful fields: order and fields are kept, and one
    of the two subtrees of the result is untouched. *)
Lemma rotate_right_spec c d ll lr r :
  wf (Some (addr c)) (Node d ll lr) -> wf (Some (addr c)) r ->
  exists f fr, avltree_rotate_right (Node c (Node d ll lr) r) = Some (Node f ll fr)
  /\ wf (parent c) (Node f ll fr)
  /\ elements (Node f ll fr) = elements (Node c (Node d ll lr) r)
  /\ avltree_height fr = Z.max (avltree_height lr) (avltree_height r) + 1
  /\ (forall k, bal k lr -> bal k r ->
       Z.abs (avltree_height r - avltree_height lr) <= k -> bal k fr).
Proof.
  intros (? & ? & ? & Hll & Hlr) Hr. set (d' := with_parent (parent c) d).
  set (fr := mk (with_parent (Some (addr d)) c) (set_parent (Some (addr c)) lr) r).
  exists (avltree_compute_height d' ll fr), fr.
  change (Node (avltree_compute_height d' ll fr) ll fr) with (mk d' ll fr).
  split; [done|]. split_and!.
  - apply wf_mk; [done|done|]. apply wf_mk; [done| |done]. by eapply wf_set_parent.
  - subst fr d'. rewrite !elements_mk, elements_set_parent. simpl. by rewrite <- app_assoc.
  - unfold fr. by rewrite height_mk, height_set_parent.
  - intros. apply bal_mk; [by rewrite height_set_parent|by apply bal_set_parent|done].
Qed.

Lemma rotate_left_spec c l d rl rr :
  wf (Some (addr c)) l -> wf (Some (addr c)) (Node d rl rr) ->
  exists f fl, avltree_rotate_left (Node c l (Node d rl rr)) = Some (Node f fl rr)
  /\ wf (parent c) (Node f fl rr)
  /\ elements (Node f fl rr) = elements (Node c l (Node d rl rr))
  /\ avltree_height fl = Z.max (avltree_height l) (avltree_height rl) + 1
  /\ (forall k, bal k l -> bal k rl ->
       Z.abs (avltree_height rl - avltree_height l) <= k -> bal k fl).
Proof.
  intros Hl (? & ? & ? & Hrl & Hrr). set (d' := with_parent (parent c) d).
  set (fl := mk (with_parent (Some (addr d)) c) l (set_parent (Some (addr c)) rl)).
  exists (avltree_compute_height d' fl rr), fl.
  change (Node (avltree_compute_height d' fl rr) fl rr) with (mk d' fl rr).
  split; [done|]. split_and!.
  - apply wf_mk; [done| |done]. apply wf_mk; [done|done|]. by eapply wf_set_parent.
  - subst fl d'. rewrite !elements_mk, elements_set_parent. simpl. by rewrite <- app_assoc.
  - unfold fl. by rewrite height_mk, height_set_parent.
  - intros. apply bal_mk; [by rewrite height_set_parent|done|by apply bal_set_parent].
Qed.

(** The root of a rotated subtree, when it becomes a child again. *)
Lemma rebalance_unfold c l r s :
  avltree_rebalance (Node c l r) s =
  match avltree_height r - avltree_height l with
  | -2 =>
      cur ←
        (if avltree_balance_factor (get_child s (mk c l r)) >? 0
         then v ← avltree_rotate_left (get_child s (mk c l r));
              Some (set_child s (mk c l r) v)
         else Some (mk c l r));
      avltree_rotate_right cur
  | -1 | 0 | 1 => Some (mk c l r)
  | 2 =>
      cur ←
        (if avltree_balance_factor (get_child s (mk c l r)) <? 0
         then v ← avltree_rotate_right (get_child s (mk c l r));
              Some (set_child s (mk c l r) v)
         else Some (mk c l r));
      avltree_rotate_left cur
  | _ => None
  end.
Proof. done. Qed.

Lemma rebalance_small c l r s :
  Z.abs (avltree_height r - avltree_height l) <= 1 ->
  avltree_rebalance (Node c l r) s = Some (mk c l r).
Proof.
  intros H. rewrite rebalance_unfold.
  assert (avltree_height r - avltree_height l = -1 \/ avltree_height r - avltree_height l = 0
          \/ avltree_height r - avltree_height l = 1) as [-> | [-> | ->]] by lia; done.
Qed.

(** What rebalancing promises of its result. *)
Definition rebalanced c l r (t' : tree A) : Prop :=
  wf (parent c) t' /\ elements t' = elements (Node c l r) /\ bal 1 t' /\
  Z.max (avltree_height l) (avltree_height r) <= avltree_height t'
    <= Z.max (avltree_height l) (avltree_height r) + 1.

Lemma rebalanced_node c l r f fl fr :
  wf (parent c) (Node f fl fr) -> elements (Node f fl fr) = elements (Node c l r) ->
  Z.abs (avltree_height fr - avltree_height fl) <= 1 -> bal 1 fl -> bal 1 fr ->
  Z.max (avltree_height l) (avltree_height r)
    <= Z.max (avltree_height fl) (avltree_height fr) + 1
    <= Z.max (avltree_height l) (avltree_height r) + 1 ->
  rebalanced c l r (Node f fl fr).
Proof. intros W E ? ? ? ?. pose proof W as (_ & Hh & _). split_and!; try done; simpl; lia. Qed.

Lemma rebalance_left_heavy c l r :
  wf (Some (addr c)) l -> wf (Some (addr c)) r -> bal 1 l -> bal 1 r ->
  avltree_height r - avltree_height l = -2 ->
  exists t', avltree_rebalance (Node c l r) L = Some t' /\ rebalanced c l r t'.
Proof.
  intros Hl Hr Bl Br H. pose proof (height_pos _ _ Hr).
  destruct l as [|d ll lr]; [simpl in *; lia|].
  rewrite rebalance_unfold, H. unfold mk.
  set (c' := avltree_compute_height c _ r). assert (Ec : ent c' = ent c) by apply ent_compute.
  assert (Hc : addr c = addr c' /\ parent c = parent c') by done. clearbody c'.
  destruct Hc as (Ha & Hp). rewrite Ha in Hl, Hr.
  pose proof Hl as (Hd & Hhd & _ & Hll & Hlr). destruct Bl as (Bd & Bll & Blr). simpl in H, Hhd.
  cbn [get_child set_child mbind option_bind avltree_balance_factor]. case_if.
  - destruct lr as [|e lrl lrr].
    { apply height_pos in Hll. simpl in *; lia. }
    destruct (rotate_left_spec d ll e lrl lrr) as (f & fl & -> & W1 & El1 & Hh1 & B1); [done..|].
    destruct Hlr as (_ & He & _ & Hlrl & Hlrr). destruct Blr as (? & ? & ?).
    rewrite Hd in W1. cbn [mbind option_bind set_child].
    destruct (rotate_right_spec c' f fl lrr r) as (g & gr & -> & W2 & El2 & Hh2 & B2); [done..|].
    simpl in *. eexists. split; [done|]. apply rebalanced_node; simpl; try lia.
    + by rewrite Hp.
    + by rewrite El2, El1, Ec.
    + apply B1; [done..|lia].
    + apply B2; [done..|lia].
  - cbn [mbind option_bind].
    destruct (rotate_right_spec c' d ll lr r) as (g & gr & -> & W2 & El2 & Hh2 & B2); [done..|].
    simpl in *. eexists. split; [done|]. apply rebalanced_node; simpl; try lia; try done.
    + by rewrite Hp.
    + by rewrite El2, Ec.
    + apply B2; [done..|lia].
Qed.

Lemma rebalance_right_heavy c l r :
  wf (Some (addr c)) l -> wf (Some (addr c)) r -> bal 1 l -> bal 1 r ->
  avltree_height r - avltree_height l = 2 ->
  exists t', avltree_rebalance (Node c l r) R = Some t' /\ rebalanced c l r t'.
Proof.
  intros Hl Hr Bl Br H. pose proof (height_pos _ _ Hl).
  destruct r as [|d rl rr]; [simpl in *; lia|].
  rewrite rebalance_unfold, H. unfold mk.
  set (c' := avltree_compute_height c l _). assert (Ec : ent c' = ent c) by apply ent_compute.
  assert (Hc : addr c = addr c' /\ parent c = parent c') by done. clearbody c'.
  destruct Hc as (Ha & Hp). rewrite Ha in Hl, Hr.
  pose proof Hr as (Hd & Hhd & _ & Hrl & Hrr). destruct Br as (Bd & Brl & Brr). simpl in H, Hhd.
  cbn [get_child set_child mbind option_bind avltree_balance_factor]. case_if.
  - destruct rl as [|e rll rlr].
    { apply height_pos in Hrr. simpl in *; lia. }
    destruct (rotate_right_spec d e rll rlr rr) as (f & fr & -> & W1 & El1 & Hh1 & B1); [done..|].
    destruct Hrl as (_ & He & _ & Hrll & Hrlr). destruct Brl as (? & ? & ?).
    rewrite Hd in W1. cbn [mbind option_bind set_child].
    destruct (rotate_left_spec c' l f rll fr) as (g & gl & -> & W2 & El2 & Hh2 & B2); [done..|].
    simpl in *. eexists. split; [done|]. apply rebalanced_node; simpl; try lia.
    + by rewrite Hp.
    + by rewrite El2, El1, Ec.
    + apply B2; [done..|lia].
    + apply B1; [done..|lia].
  - cbn [mbind option_bind].
    destruct (rotate_left_spec c' l d rl rr) as (g & gl & -> & W2 & El2 & Hh2 & B2); [done..|].
    simpl in *. eexists. split; [done|]. apply rebalanced_node; simpl; try lia; try done.
    + by rewrite Hp.
    + by rewrite El2, Ec.
    + apply B2; [done..|lia].
Qed.

(** Rebalancing on the side that grew gives an AVL tree of the same nodes. *)
Lemma rebalance_spec c l r s :
  wf (Some (addr c)) l -> wf (Some (addr c)) r -> bal 1 l -> bal 1 r ->
  Z.abs (avltree_height r - avltree_height l) <= 2 ->
  (avltree_height r - avltree_height l = -2 -> s = L) ->
  (avltree_height r - avltree_height l = 2 -> s = R) ->
  exists t', avltree_rebalance (Node c l r) s = Some t' /\ rebalanced c l r t' /\
    (Z.abs (avltree_height r - avltree_height l) <= 1 ->
     avltree_height t' = Z.max (avltree_height l) (avltree_height r) + 1).
Proof.
  intros Hl Hr Bl Br H HL HR.
  destruct (decide (Z.abs (avltree_height r - avltree_height l) <= 1)) as [Hs|Hs].
  - eexists. rewrite rebalance_small by done. split; [done|]. rewrite height_mk.
    split; [|done]. split_and!; try lia; rewrite ?height_mk; try lia.
    + by apply wf_mk.
    + apply elements_mk.
    + by apply bal_mk.
  - assert (avltree_height r - avltree_height l = -2 \/ avltree_height r - avltree_height l = 2)
      as [E|E] by lia.
    + rewrite HL by done. destruct (rebalance_left_heavy c l r) as (t' & ? & ?); naive_solver.
    + rewrite HR by done. destruct (rebalance_right_heavy c l r) as (t' & ? & ?); naive_solver.
Qed.

(** *** Insertion *)

(** The comparison places [x] with respect to [y] as the order [before] does. *)
Definition fits (before : relation B) (x y : B) : Prop :=
  (cmp x y < 0 -> before x y) /\ (0 <= cmp x y -> before y x).

Definition sorted (before : relation B) t : Prop :=
  StronglySorted (fun x y => before x.2 y.2) (elements t).

Lemma sign_lt z : sign z = -1 <-> z < 0.
Proof. unfold sign. destruct (z <? 0) eqn:?; [|destruct (z >? 0) eqn:?]; zbool; lia. Qed.
Lemma sign_gt z : sign z = 1 <-> 0 < z.
Proof. unfold sign. destruct (z <? 0) eqn:?; [|destruct (z >? 0) eqn:?]; zbool; lia. Qed.
Lemma sign_eq z : sign z = 0 <-> z = 0.
Proof. unfold sign. destruct (z <? 0) eqn:?; [|destruct (z >? 0) eqn:?]; zbool; lia. Qed.
Lemma sign_cases z :
  (sign z = -1 /\ z < 0) \/ (sign z = 0 /\ z = 0) \/ (sign z = 1 /\ 0 < z).
Proof. unfold sign. destruct (z <? 0) eqn:?; [|destruct (z >? 0) eqn:?]; zbool; lia. Qed.

(** The nodes around the place of [n] in a sequence. *)
Definition placed before (n : Z * B) (l1 l2 : list (Z * B)) : Prop :=
  Transitive before -> StronglySorted (fun x y => before x.2 y.2) (l1 ++ l2) ->
  Forall (fun x => fits before n.2 x.2) (l1 ++ l2) ->
  Forall (fun x => before x.2 n.2) l1 /\ Forall (fun x => before n.2 x.2) l2.

Lemma placed_left before (n x : Z * B) (l1 l2 r : list (Z * B)) :
  cmp n.2 x.2 < 0 -> placed before n l1 l2 -> placed before n l1 (l2 ++ x :: r).
Proof.
  unfold placed. rewrite app_assoc. intros Hc Hp Ht Hs Hf.
  apply StronglySorted_mid in Hs as (Hx & Hr & _ & Hs & _).
  apply Forall_app in Hf as (Hf & Hf2). apply Forall_cons in Hf2 as (Hfx & _).
  destruct (Hp Ht Hs Hf) as (H1 & H2). split; [done|].
  assert (before n.2 x.2) by (by apply Hfx).
  apply Forall_app; split; [done|]. constructor; [done|].
  eapply Forall_impl; [exact Hr|]. intros z Hz. simpl in *. by etransitivity.
Qed.

Lemma placed_right before (n x : Z * B) (l1 l2 l : list (Z * B)) :
  0 <= cmp n.2 x.2 -> placed before n l1 l2 -> placed before n (l ++ x :: l1) l2.
Proof.
  unfold placed. rewrite <- app_assoc. simpl. intros Hc Hp Ht Hs Hf.
  apply StronglySorted_mid in Hs as (Hx & Hr & _ & _ & Hs).
  apply Forall_app in Hf as (_ & Hf). apply Forall_cons in Hf as (Hfx & Hf).
  destruct (Hp Ht Hs Hf) as (H1 & H2). split; [|done].
  assert (before x.2 n.2) by (by apply Hfx).
  apply Forall_app; split; [|by constructor].
  eapply Forall_impl; [exact Hx|]. intros z Hz. simpl in *. by etransitivity.
Qed.

(** A node that is inserted: not linked to others, with its own summary. *)
Definition fresh_node n : Prop := height n = 1 /\ data n = refreshed (data n) None None.

Lemma compare_nodes_ent n c : compare_nodes (data n) (data c) = cmp (ent n).2 (ent c).2.
Proof. apply compare_nodes_base. Qed.

Lemma insert_helper_spec p t n :
  wf p t -> bal 1 t -> fresh_node n ->
  exists t', avltree_insert_helper p t n Null Null = Some t'
  /\ wf p t' /\ bal 1 t'
  /\ avltree_height t <= avltree_height t' <= avltree_height t + 1
  /\ exists (l1 l2 : list (Z * B)), elements t = l1 ++ l2 /\ elements t' = l1 ++ ent n :: l2
     /\ forall before, placed before (ent n) l1 l2.
Proof.
  intros Hw Hb (Hn & Hd). revert p Hw Hb.
  induction t as [|c l IHl r IHr]; intros p Hw Hb.
  - eexists. split; [done|]. split; [done|]. simpl. split_and!; try lia.
    exists [], []. done.
  - destruct Hw as (Hp & Hh & _ & Hl & Hr). destruct Hb as (Hb & Bl & Br).
    simpl. unfold avltree_compare_nodes. rewrite compare_nodes_ent.
    destruct (sign_cases (cmp (ent n).2 (ent c).2)) as [(-> & Hc)|Hc].
    + destruct (IHl _ Hl Bl) as (l' & -> & Wl' & Bl' & Hl' & l1 & l2 & E1 & E2 & Hpl).
      destruct (rebalance_spec c l' r L) as (t' & E & (Wt & Et & Bt & Ht) & Hs);
        [done..|lia|done|lia|].
      exists t'. rewrite <- Hp. split_and!; try done; try lia.
      exists l1, (l2 ++ ent c :: elements r). rewrite Et. simpl. rewrite E1, E2.
      rewrite <- !app_assoc. split_and!; try done. intros. by apply placed_left.
    + assert (0 <= cmp (ent n).2 (ent c).2) by lia.
      destruct (IHr _ Hr Br) as (r' & E & Wr' & Br' & Hr' & l1 & l2 & E1 & E2 & Hpl).
      destruct (rebalance_spec c l r' R) as (t' & E' & (Wt & Et & Bt & Ht) & Hs);
        [done..|lia|lia|done|].
      exists t'. rewrite <- Hp. split_and!; try done; try lia.
      { destruct Hc as [(-> & _)|(-> & _)]; by rewrite E. }
      exists (elements l ++ ent c :: l1), l2. rewrite Et. simpl. rewrite E1, E2.
      rewrite <- !app_assoc. split_and!; try done. intros. by apply placed_right.
Qed.

(** *** Removal *)

(** How the height of a subtree changes when a node leaves it: a subtree that
    became lower is balanced at its root, so the test [avltree_rebalance] does
    on that child never rotates it. *)
Definition shrunk (h0 : Z) t : Prop :=
  avltree_height t = h0 \/ (avltree_height t = h0 - 1 /\ avltree_balance_factor t = 0).

Definition removed_ok c l r (h : Z) (t' : tree A) : Prop :=
  wf (parent c) t' /\ elements t' = elements (Node c l r) /\ bal 2 t' /\ shrunk h t'.

Lemma removed_ok_small c l r h :
  wf (Some (addr c)) l -> wf (Some (addr c)) r -> bal 2 l -> bal 2 r ->
  Z.abs (avltree_height r - avltree_height l) <= 1 ->
  h = Z.max (avltree_height l) (avltree_height r) + 1 \/
  (h = Z.max (avltree_height l) (avltree_height r) + 2 /\ avltree_height l = avltree_height r) ->
  exists t', avltree_rebalance (Node c l r) R = Some t' /\
             avltree_rebalance (Node c l r) L = Some t' /\ removed_ok c l r h t'.
Proof.
  intros. eexists. rewrite !rebalance_small by done. split; [done|]. split; [done|].
  split_and!; [by apply wf_mk|apply elements_mk|apply bal_mk; [lia|done..]|].
  unfold shrunk. rewrite height_mk. change (avltree_balance_factor (mk c l r)) with
    (avltree_height r - avltree_height l). lia.
Qed.

Lemma rebalance_removed_right c l r h0 :
  wf (Some (addr c)) l -> wf (Some (addr c)) r -> bal 1 l -> bal 2 r ->
  Z.abs (h0 - avltree_height l) <= 1 -> shrunk h0 r ->
  exists t', avltree_rebalance (Node c l r) R = Some t' /\
    removed_ok c l r (Z.max (avltree_height l) h0 + 1) t'.
Proof.
  intros Hl Hr Bl Br Hh Hs. pose proof (height_pos _ _ Hr).
  destruct (decide (Z.abs (avltree_height r - avltree_height l) <= 1)).
  { destruct (removed_ok_small c l r (Z.max (avltree_height l) h0 + 1)) as (t' & ? & _ & ?);
      [done|done|by apply (bal_weaken 1 2)|done|done|destruct Hs; lia|eauto]. }
  destruct Hs as [?|[? Hf]]; [lia|].
  assert (H2 : avltree_height r - avltree_height l = -2) by lia.
  destruct l as [|d ll lr]; [simpl in *; lia|].
  rewrite rebalance_unfold, H2. unfold mk.
  set (c' := avltree_compute_height c _ r). assert (Ec : ent c' = ent c) by apply ent_compute.
  assert (Hc : addr c = addr c' /\ parent c = parent c') by done. clearbody c'.
  destruct Hc as (Ha & Hp). rewrite Ha in Hl, Hr. cbn [get_child]. rewrite Hf. change (0 >? 0) with false.
  cbn [mbind option_bind].
  destruct (rotate_right_spec c' d ll lr r) as (g & gr & E & W & El & Hg & B2); [done..|].
  destruct Hl as (_ & Hhd & _). destruct Bl as (? & ? & ?).
  exists (Node g ll gr). split; [exact E|]. rewrite <- Hp in W. pose proof W as (_ & Hhg & _). simpl in Hhd, Hh, H2 |- *.
  split; [exact W|]. split_and!; try split_and!.
  - etrans; [exact El|]. simpl. by rewrite Ec.
  - lia.
  - by apply (bal_weaken 1 2).
  - apply B2; [by apply (bal_weaken 1 2)|done|lia].
  - unfold shrunk. simpl. lia.
Qed.

Lemma rebalance_removed_left c l r h0 :
  wf (Some (addr c)) l -> wf (Some (addr c)) r -> bal 2 l -> bal 1 r ->
  Z.abs (avltree_height r - h0) <= 1 -> shrunk h0 l ->
  exists t', avltree_rebalance (Node c l r) L = Some t' /\
    removed_ok c l r (Z.max h0 (avltree_height r) + 1) t'.
Proof.
  intros Hl Hr Bl Br Hh Hs. pose proof (height_pos _ _ Hl).
  destruct (decide (Z.abs (avltree_height r - avltree_height l) <= 1)).
  { destruct (removed_ok_small c l r (Z.max h0 (avltree_height r) + 1)) as (t' & _ & ? & ?);
      [done|done|done|by apply (bal_weaken 1 2)|done|destruct Hs; lia|eauto]. }
  destruct Hs as [?|[? Hf]]; [lia|].
  assert (H2 : avltree_height r - avltree_height l = 2) by lia.
  destruct r as [|d rl rr]; [simpl in *; lia|].
  rewrite rebalance_unfold, H2. unfold mk.
  set (c' := avltree_compute_height c l _). assert (Ec : ent c' = ent c) by apply ent_compute.
  assert (Hc : addr c = addr c' /\ parent c = parent c') by done. clearbody c'.
  destruct Hc as (Ha & Hp). rewrite Ha in Hl, Hr. cbn [get_child]. rewrite Hf. change (0 <? 0) with false.
  cbn [mbind option_bind].
  destruct (rotate_left_spec c' l d rl rr) as (g & gl & E & W & El & Hg & B2); [done..|].
  destruct Hr as (_ & Hhd & _). destruct Br as (? & ? & ?).
  exists (Node g gl rr). split; [exact E|]. rewrite <- Hp in W. pose proof W as (_ & Hhg & _). simpl in Hhd, Hh, H2 |- *.
  split; [exact W|]. split_and!; try split_and!.
  - etrans; [exact El|]. simpl. by rewrite Ec.
  - lia.
  - apply B2; [done|by apply (bal_weaken 1 2)|lia].
  - by apply (bal_weaken 1 2).
  - unfold shrunk. simpl. lia.
Qed.

(** No two nodes compare equal, and each compares equal to itself. *)
Definition distinct (es : list (Z * B)) : Prop :=
  StronglySorted (fun x y => cmp x.2 y.2 < 0 /\ 0 < cmp y.2 x.2) es /\
  Forall (fun x => cmp x.2 x.2 = 0) es.

Lemma distinct_mid (es1 es2 : list (Z * B)) x :
  distinct (es1 ++ x :: es2) ->
  distinct es1 /\ distinct es2 /\ cmp x.2 x.2 = 0 /\
  Forall (fun y => cmp y.2 x.2 < 0) es1 /\ Forall (fun y => 0 < cmp y.2 x.2) es2.
Proof.
  intros (Hs & Hr). apply StronglySorted_mid in Hs as (H1 & H2 & _ & H3 & H4).
  apply Forall_app in Hr as (R1 & R2). apply Forall_cons in R2 as (R2 & R3).
  unfold distinct. split_and!; try done.
  - eapply Forall_impl; [exact H1|]. intros y ?. naive_solver.
  - eapply Forall_impl; [exact H2|]. intros y ?. naive_solver.
Qed.

Lemma leftest_spec t :
  t <> Null -> exists c rest, avltree_leftest_subnode t = Some c /\ elements t = ent c :: rest.
Proof.
  induction t as [|c l IHl r _]; [done|]. intros _. destruct l as [|d ll lr].
  - simpl. eauto.
  - destruct IHl as (e & rest & He & El); [done|]. exists e. eexists. split; [exact He|].
    change (elements (Node c (Node d ll lr) r))
      with (elements (Node d ll lr) ++ ent c :: elements r).
    by rewrite El.
Qed.

Lemma low_tree p t : wf p t -> avltree_height t <= 1 -> bal 1 t /\ avltree_balance_factor t = 0.
Proof.
  destruct t as [|c l r]; simpl; [done|]. intros (_ & -> & _ & Hl & Hr) H.
  apply height_zero in Hl as ->; [|lia]. apply height_zero in Hr as ->; [|simpl in *; lia]. done.
Qed.

(** What [avltree_remove_helper] gives when the node is in the subtree. *)
Definition removes (p : option Z) t n : Prop :=
  exists t', avltree_remove_helper t n = Some (t', 1) /\ wf p t' /\ bal 2 t' /\
    shrunk (avltree_height t) t' /\
    exists es1 es2, elements t = es1 ++ ent n :: es2 /\ elements t' = es1 ++ es2.

(** The only child of a removed node takes its place. *)
Lemma only_child p h q t :
  wf q t -> bal 1 t -> avltree_height t <= 1 /\ h = avltree_height t + 1 ->
  wf p (set_parent p t) /\ bal 2 (set_parent p t) /\ shrunk h (set_parent p t).
Proof.
  intros Hw Hb (Hle & ->). destruct (low_tree _ _ Hw Hle) as (_ & Hf). split_and!.
  - by eapply wf_set_parent.
  - apply bal_set_parent. by apply (bal_weaken 1 2).
  - right. rewrite height_set_parent, bf_set_parent. lia.
Qed.

(** An element equal to the first one is the first one. *)
Lemma distinct_first es (x : Z * B) rest es1 es2 :
  distinct es -> es = x :: rest -> es = es1 ++ x :: es2 -> es1 = [].
Proof.
  intros (Hs & Hself) -> E. destruct es1 as [|y es1]; [done|]. injection E as _ ->. exfalso.
  apply StronglySorted_cons in Hs as (Hs & _). apply Forall_cons in Hself as (Hself & _).
  rewrite Forall_forall in Hs. destruct (Hs x) as (Hx & _); [|lia].
  rewrite elem_of_app, elem_of_cons. tauto.
Qed.

Lemma removes_here p c l r n :
  wf p (Node c l r) -> bal 1 (Node c l r) -> distinct (elements (Node c l r)) ->
  addr n = addr c -> base (data n) = base (data c) ->
  (forall m, ent m ∈ elements r -> removes (Some (addr c)) r m) ->
  removes p (Node c l r) n.
Proof.
  intros (Hp & Hh & _ & Hl & Hr) (Hb & Bl & Br) Hd Ha Hn IH.
  destruct (distinct_mid _ _ _ Hd) as (_ & _ & Hc & _).
  assert (En : ent n = ent c) by (unfold ent; by rewrite Ha, Hn).
  unfold removes. simpl. unfold avltree_compare_nodes. rewrite compare_nodes_ent, En, Hc, Ha.
  simpl. rewrite Z.eqb_refl. simpl.
  destruct r as [|rc rl rr].
  { exists (set_parent p l). simpl in Hb, Hh. rewrite Hp. destruct (only_child p (height c) (Some (addr c)) l) as (? & ? & ?); try done.
    { pose proof (height_pos _ _ Hl). lia. }
    split_and!; try done; [by destruct l|].
    exists (elements l), []. by rewrite elements_set_parent, app_nil_r. }
  destruct l as [|lc ll lr].
  { exists (set_parent p (Node rc rl rr)). simpl in Hb, Hh. rewrite Hp.
    destruct (only_child p (height c) (Some (addr c)) (Node rc rl rr)) as (? & ? & ?); try done.
    { pose proof (height_pos _ _ Hr). simpl in *. lia. }
    split_and!; try done. by exists [], (elements (Node rc rl rr)). }
  destruct (leftest_spec (Node rc rl rr)) as (m & rest & Em & Er); [done|].
  destruct (IH m) as (r' & E' & Wr' & Br' & Hr' & es1 & es2 & E1 & E2).
  { rewrite Er. by left. }
  destruct (rebalance_removed_right (with_parent (parent c) m)
      (set_parent (Some (addr m)) (Node lc ll lr)) (set_parent (Some (addr m)) r')
      (avltree_height (Node rc rl rr)))
    as (t' & Et & Wt & Elt & Bt & Ht).
  { by eapply wf_set_parent. } { by eapply wf_set_parent. }
  { done. } { by apply bal_set_parent. } { done. }
  { unfold shrunk. by rewrite height_set_parent, bf_set_parent. }
  exists t'. split_and!.
  - rewrite Em. cbn [mbind option_bind]. rewrite E'. cbn [mbind option_bind].
    match type of Et with ?e = _ => transitivity (x ← e; Some (x, 1)) end; [done|].
    by rewrite Et.
  - by rewrite <- Hp.
  - done.
  - by rewrite Hh.
  - exists (elements (Node lc ll lr)), (elements (Node rc rl rr)). split; [done|].
    rewrite Elt. cbn [elements]. rewrite !elements_set_parent. simpl.
    apply distinct_mid in Hd as (_ & Hd & _).
    pose proof (distinct_first _ _ _ _ _ Hd Er E1) as ->. rewrite E2. simpl in E1. by rewrite E1.
Qed.

#[local] Arguments avltree_rebalance : simpl never.

Lemma remove_descend c l r n s :
  avltree_compare_nodes n c = match s with L => -1 | R => 1 end ->
  avltree_remove_helper (Node c l r) n =
  ('(v, ret) ← avltree_remove_helper (match s with L => l | R => r end) n;
   if ret =? 0 then Some (set_child s (Node c l r) v, 0)
   else t ← avltree_rebalance (set_child s (Node c l r) v) s; Some (t, 1)).
Proof. simpl. intros ->. by destruct s. Qed.

Lemma remove_helper_spec p t n :
  wf p t -> bal 1 t -> distinct (elements t) -> ent n ∈ elements t -> removes p t n.
Proof.
  revert p n. induction t as [|c l IHl r IHr]; intros p n Hw Hb Hd Hn; [set_solver|].
  pose proof Hw as (Hp & Hh & _ & Hl & Hr). pose proof Hb as (Hb1 & Bl & Br).
  pose proof (distinct_mid _ _ _ Hd) as (Dl & Dr & _ & Fl & Fr).
  simpl in Hn. apply elem_of_app in Hn as [Hn|Hn]; [|apply elem_of_cons in Hn as [Hn|Hn]].
  - destruct (IHl (Some (addr c)) n) as (l' & E' & Wl' & Bl' & Hl' & es1 & es2 & E1 & E2); [done..|].
    destruct (rebalance_removed_left c l' r (avltree_height l))
      as (t' & Et & Wt & Elt & Bt & Ht); [done..|].
    exists t'. split_and!; [|by rewrite <- Hp|done|simpl; by rewrite Hh|].
    + rewrite (remove_descend _ _ _ _ L).
      * rewrite E'. simpl. by rewrite Et.
      * apply sign_lt. rewrite compare_nodes_ent. rewrite Forall_forall in Fl. by apply Fl.
    + exists es1, (es2 ++ ent c :: elements r). rewrite Elt. simpl. rewrite E1, E2.
      by rewrite <- !app_assoc.
  - unfold ent in Hn. simplify_eq. apply removes_here; try done. intros m Hm. by apply IHr.
  - destruct (IHr (Some (addr c)) n) as (r' & E' & Wr' & Br' & Hr' & es1 & es2 & E1 & E2); [done..|].
    destruct (rebalance_removed_right c l r' (avltree_height r))
      as (t' & Et & Wt & Elt & Bt & Ht); [done..|].
    exists t'. split_and!; [|by rewrite <- Hp|done|simpl; by rewrite Hh|].
    + rewrite (remove_descend _ _ _ _ R).
      * rewrite E'. simpl. by rewrite Et.
      * apply sign_gt. rewrite compare_nodes_ent. rewrite Forall_forall in Fr. by apply Fr.
    + exists (elements l ++ ent c :: es1), es2. rewrite Elt. simpl. rewrite E1, E2.
      by rewrite <- !app_assoc.
Qed.

(** A node that is not in the tree is reported as such. *)
Lemma remove_helper_absent t n :
  addr n ∉ (elements t).*1 -> avltree_remove_helper t n = Some (t, 0).
Proof.
  induction t as [|c l IHl r IHr]; [done|]. simpl. rewrite fmap_app, fmap_cons.
  intros Hn. rewrite elem_of_app, elem_of_cons in Hn. simpl in Hn.
  rewrite IHl by tauto. rewrite IHr by tauto. simpl.
  destruct (addr c =? addr n) eqn:E; zbool; [naive_solver|]. simpl.
  unfold avltree_compare_nodes.
  destruct (sign_cases (compare_nodes (data n) (data c))) as [(-> & _)|[(-> & _)|(-> & _)]]; done.
Qed.

(** *** Searches *)

(** A search key splits the order: nodes below it, nodes it matches, nodes above. *)
Definition key_sound (key : K) (ck : B -> Z) (es : list (Z * B)) : Prop :=
  (forall c l r, compare_key key (data c) (root_data l) (root_data r) = ck (base (data c))) /\
  StronglySorted (fun x y => (ck x.2 < 0 -> ck y.2 < 0) /\ (0 < ck y.2 -> 0 < ck x.2)) es.

Lemma key_sound_mid key ck es1 x es2 :
  key_sound key ck (es1 ++ x :: es2) ->
  key_sound key ck es1 /\ key_sound key ck es2 /\
  (ck x.2 < 0 -> Forall (fun y => ck y.2 < 0) es2) /\
  (0 < ck x.2 -> Forall (fun y => 0 < ck y.2) es1).
Proof.
  intros (Hk & Hs). apply StronglySorted_mid in Hs as (H1 & H2 & _ & H3 & H4).
  unfold key_sound. split_and!; try done; intros Hx.
  - eapply Forall_impl; [exact H2|]. intros y ?. naive_solver.
  - eapply Forall_impl; [exact H1|]. intros y ?. naive_solver.
Qed.

(** [avltree_lookup] finds a matching node if there is one. *)
Lemma lookup_spec key ck t :
  key_sound key ck (elements t) ->
  match avltree_lookup t key with
  | Some c => ent c ∈ elements t /\ ck (ent c).2 = 0
  | None => Forall (fun x => ck x.2 <> 0) (elements t)
  end.
Proof.
  induction t as [|c l IHl r IHr]; intros Hk; [by constructor|]. simpl.
  destruct (key_sound_mid _ _ _ _ _ Hk) as (Hl & Hr & Hlt & Hgt). destruct Hk as (Hck & _).
  unfold avltree_compare_key. rewrite Hck. change (base (data c)) with (ent c).2.
  destruct (sign_cases (ck (ent c).2)) as [(-> & H)|[(-> & H)|(-> & H)]].
  - cbv iota. specialize (IHl Hl). destruct (avltree_lookup l key); [rewrite elem_of_app, elem_of_cons; tauto|].
    apply Forall_app; split; [done|]. constructor; [lia|].
    eapply Forall_impl; [by apply Hlt|]. simpl; lia.
  - rewrite elem_of_app, elem_of_cons; tauto.
  - cbv iota. specialize (IHr Hr). destruct (avltree_lookup r key); [rewrite elem_of_app, elem_of_cons; tauto|].
    apply Forall_app; split; [|constructor; [lia|done]].
    eapply Forall_impl; [by apply Hgt|]. simpl; lia.
Qed.

Definition not_above (ck : B -> Z) (x : Z * B) : bool := ck x.2 <=? 0.

Lemma find_app (f : Z * B -> bool) es1 es2 :
  List.find f (es1 ++ es2) = match List.find f es1 with Some x => Some x | None => List.find f es2 end.
Proof. induction es1 as [|x es1 IH]; simpl; [done|]. by destruct (f x). Qed.

Lemma find_none_Forall (f : Z * B -> bool) es : Forall (fun x => f x = false) es -> List.find f es = None.
Proof. induction 1 as [|x es Hx _ IH]; simpl; [done|]. by rewrite Hx. Qed.

(** [avltree_first_superior_or_equal] finds the first node, in order, that is not
    below the key. *)
Lemma first_superior_spec key ck best t :
  key_sound key ck (elements t) ->
  ent <$> first_superior_or_equal_loop best t key =
  match List.find (not_above ck) (elements t) with
  | Some x => Some x
  | None => ent <$> best
  end.
Proof.
  revert best. induction t as [|c l IHl r IHr]; intros best Hk; [done|]. simpl.
  destruct (key_sound_mid _ _ _ _ _ Hk) as (Hl & Hr & Hlt & Hgt). destruct Hk as (Hck & _).
  unfold avltree_compare_key. rewrite Hck.
  rewrite find_app. simpl. unfold not_above at 2. change (base (data c)) with (ent c).2.
  destruct (sign_cases (ck (ent c).2)) as [(-> & H)|[(-> & H)|(-> & H)]].
  1,2: rewrite IHl by done; destruct List.find; [done|]; simpl;
    by rewrite (proj2 (Z.leb_le _ _)) by (simpl in *; lia).
  rewrite IHr by done. rewrite (find_none_Forall _ (elements l)).
  - by rewrite (proj2 (Z.leb_gt _ _)) by (simpl in *; lia).
  - eapply Forall_impl; [by apply Hgt|]. intros x Hx. apply Z.leb_gt. simpl in *. lia.
Qed.

(** *** Traversal

    A position in a tree: the frames from a subtree up to the root, each with
    the side the subtree hangs on and the node and the other subtree there. *)
Definition frames := list (side * avltree_node A * tree A).
Implicit Types (fs : frames).

Fixpoint plug fs t : tree A :=
  match fs with
  | [] => t
  | (L, c, o) :: fs => plug fs (Node c t o)
  | (R, c, o) :: fs => plug fs (Node c o t)
  end.

Fixpoint before fs : list (Z * B) :=
  match fs with
  | [] => []
  | (L, c, o) :: fs => before fs
  | (R, c, o) :: fs => before fs ++ elements o ++ [ent c]
  end.

Fixpoint after fs : list (Z * B) :=
  match fs with
  | [] => []
  | (L, c, o) :: fs => ent c :: elements o ++ after fs
  | (R, c, o) :: fs => after fs
  end.

Definition frame_parent fs : option Z :=
  match fs with [] => None | (_, c, _) :: _ => Some (addr c) end.

Lemma elements_plug fs t : elements (plug fs t) = before fs ++ elements t ++ after fs.
Proof.
  revert t. induction fs as [|[[[] c] o] fs IH]; intros t; simpl; [by rewrite app_nil_r|..];
    rewrite IH; simpl; by rewrite <- !app_assoc.
Qed.

Lemma wf_plug fs t : wf None (plug fs t) -> wf (frame_parent fs) t.
Proof.
  revert t. induction fs as [|[[[] c] o] fs IH]; intros t; simpl; [done|..];
    intros (_ & _ & _ & Hl & Hr)%IH; done.
Qed.

Lemma size_plug fs t : (length fs + size t <= size (plug fs t))%nat.
Proof.
  revert t. induction fs as [|[[[] c] o] fs IH]; intros t; simpl; [done|..];
    match goal with |- context [plug fs ?t'] => specialize (IH t') end; simpl in IH; lia.
Qed.

Lemma deref_None t a : deref t a = None <-> a ∉ (elements t).*1.
Proof.
  induction t as [|c l IHl r IHr]; simpl; [set_solver|].
  rewrite fmap_app, fmap_cons, elem_of_app, elem_of_cons. simpl.
  destruct (addr c =? a) eqn:E; zbool; [naive_solver|].
  destruct (deref l a); naive_solver.
Qed.

(** A pointer to a node of the tree leads to that node. *)
Lemma deref_plug fs c l r :
  NoDup (elements (plug fs (Node c l r))).*1 ->
  deref (plug fs (Node c l r)) (addr c) = Some (Node c l r).
Proof.
  assert (H : forall t, NoDup (elements (plug fs t)).*1 -> deref t (addr c) = Some (Node c l r) ->
            deref (plug fs t) (addr c) = Some (Node c l r)).
  { induction fs as [|[[[] d] o] fs IH]; intros t Hnd Ht; simpl; [done|..]; apply IH; try done;
      simpl in Hnd |- *; rewrite elements_plug, !fmap_app in Hnd;
      apply NoDup_app in Hnd as (_ & _ & Hnd); apply NoDup_app in Hnd as (Hnd & _ & _);
      simpl in Hnd; rewrite fmap_app in Hnd; simpl in Hnd;
      apply NoDup_app in Hnd as (_ & Hd & Hnd); apply NoDup_cons in Hnd as (Hn1 & Hn2);
      assert (Hin : addr c ∈ (elements t).*1) by
        (destruct (decide (addr c ∈ (elements t).*1)) as [|Hn]; [done|];
         apply deref_None in Hn; congruence).
    - destruct (addr d =? addr c) eqn:E; zbool; [|by rewrite Ht].
      rewrite <- E in Hin. apply Hd in Hin. set_solver.
    - destruct (addr d =? addr c) eqn:E; zbool; [by rewrite E in Hn1|].
      destruct (deref o (addr c)) eqn:Ho; [|done]. exfalso.
      assert (Hin' : ¬ (addr c ∉ (elements o).*1)) by (rewrite <- deref_None; congruence).
      apply Hin'. intros Hc. apply (Hd _ Hc). set_solver. }
  intros. apply H; [done|]. simpl. by rewrite Z.eqb_refl.
Qed.

(** The climb ends at the first node whose left subtree it comes from. *)
Lemma next_up_spec fs c l r fuel root :
  root = plug fs (Node c l r) -> wf None root -> NoDup (elements root).*1 ->
  (length fs < fuel)%nat ->
  next_up fuel root (frame_parent fs) (addr c) = Some (fst <$> head (after fs)).
Proof.
  revert c l r fuel. induction fs as [|[[s d] o] fs IH]; intros c l r fuel -> Hw Hnd Hf;
    (destruct fuel as [|fuel]; [simpl in Hf; lia|]); [done|].
  destruct s; simpl.
  - simpl in Hw, Hnd. rewrite deref_plug by done. simpl.
    rewrite decide_False; [done|]. intros Ho.
    rewrite elements_plug, !fmap_app in Hnd. apply NoDup_app in Hnd as (_ & _ & Hnd).
    apply NoDup_app in Hnd as (Hnd & _). simpl in Hnd. rewrite fmap_app in Hnd.
    apply NoDup_app in Hnd as (_ & Hd & _). apply (Hd (addr c)).
    { rewrite fmap_app, fmap_cons. set_solver. }
    destruct o as [|oc ol or]; simplify_eq/=. rewrite fmap_app, fmap_cons. set_solver.
  - simpl in Hw, Hnd. rewrite deref_plug by done. simpl. rewrite decide_True by done.
    pose proof (wf_plug _ _ Hw) as (-> & _). eapply IH; try done. simpl in Hf. lia.
Qed.

(** Every node of the tree has a position. *)
Lemma position t x (es1 es2 : list (Z * B)) fs :
  elements t = es1 ++ x :: es2 ->
  exists fs' c l r, plug fs t = plug fs' (Node c l r) /\ ent c = x /\
    elements r ++ after fs' = es2 ++ after fs.
Proof.
  revert es1 es2 fs. induction t as [|c l IHl r IHr]; intros es1 es2 fs He.
  { by destruct es1. }
  simpl in He. apply app_eq_app in He as [k [[H1 H2]|[H1 H2]]]; destruct k as [|y k];
    simplify_eq/=; rewrite ?app_nil_r in *.
  - by exists fs, c, l, r.
  - destruct (IHl es1 k ((L, c, r) :: fs)) as (fs' & c' & l' & r' & E1 & E2 & E3); [done|].
    exists fs', c', l', r'. split; [exact E1|]. split; [done|]. rewrite E3. simpl.
    by rewrite <- app_assoc.
  - by exists fs, c, l, r.
  - destruct (IHr k es2 ((R, c, l) :: fs)) as (fs' & c' & l' & r' & E1 & E2 & E3); [done|].
    by exists fs', c', l', r'.
Qed.

Lemma next_spec t x (es1 es2 : list (Z * B)) :
  wf None t -> NoDup (elements t).*1 -> elements t = es1 ++ x :: es2 ->
  avltree_next t (Some x.1) = Some (fst <$> head es2).
Proof.
  intros Hw Hnd He. destruct (position t x es1 es2 [] He) as (fs & c & l & r & Et & <- & Ea).
  simpl in Et, Ea. rewrite app_nil_r in Ea. subst es2 t.
  unfold avltree_next. change (ent c).1 with (addr c).
  rewrite deref_plug by done. cbn [mbind option_bind].
  destruct r as [|rc rl rr].
  - pose proof (wf_plug _ _ Hw) as (-> & _). eapply next_up_spec; try done.
    pose proof (size_plug fs (Node c l Null)). lia.
  - destruct (leftest_spec (Node rc rl rr)) as (m & rest & -> & ->); [done|]. done.
Qed.

Lemma foreach_from_spec t (es1 es2 : list (Z * B)) fuel :
  wf None t -> NoDup (elements t).*1 -> elements t = es1 ++ es2 ->
  (length es2 <= fuel)%nat ->
  foreach_from fuel t (fst <$> head es2) = Some es2.*1.
Proof.
  intros Hw Hnd. revert es1 fuel. induction es2 as [|x es2 IH]; intros es1 fuel He Hf.
  { by destruct fuel. }
  destruct fuel as [|fuel]; [simpl in Hf; lia|].
  cbn [foreach_from head fmap option_fmap option_map].
  rewrite (next_spec t x es1 es2) by done. cbn [mbind option_bind].
  rewrite (IH (es1 ++ [x])); [done| |simpl in Hf; lia]. by rewrite <- app_assoc.
Qed.

Lemma size_elements t : length (elements t) = size t.
Proof. induction t; simpl; [done|]. rewrite length_app. simpl. lia. Qed.

Lemma foreach_spec t :
  wf None t -> NoDup (elements t).*1 -> avltree_foreach t = Some (elements t).*1.
Proof.
  intros Hw Hnd. unfold avltree_foreach, avltree_first.
  rewrite <- (foreach_from_spec t [] (elements t) (size t)); [|done..|by rewrite size_elements].
  destruct t as [|c l r]; [done|].
  destruct (leftest_spec (Node c l r)) as (m & rest & -> & ->); done.
Qed.

(** *** The properties of the trees *)

(** C30: inserting an unlinked node into an AVL tree (fields truthful, balance
    factors at most 1) always succeeds and gives an AVL tree with truthful fields,
    at most one level higher, whose nodes in order are the old ones with the new
    node between some prefix and suffix; and for every transitive order for which
    the old nodes are sorted and with which the comparison of the new node with
    each of them agrees, the new sequence is sorted too. *)
Theorem avltree_insert_correct t n :
  wf None t -> bal 1 t -> data n = refreshed (data n) None None ->
  exists t', avltree_insert t n Null Null = Some t'
  /\ wf None t' /\ bal 1 t'
  /\ avltree_height t <= avltree_height t' <= avltree_height t + 1
  /\ (exists (es1 es2 : list (Z * B)),
       elements t = es1 ++ es2 /\ elements t' = es1 ++ ent n :: es2)
  /\ (forall ord, Transitive ord -> sorted ord t ->
       Forall (fun x => fits ord (base (data n)) x.2) (elements t) -> sorted ord t').
Proof.
  intros Hw Hb Hd.
  destruct (insert_helper_spec None t (mk_node (addr n) (parent n) 1 (data n)))
    as (t' & Ht & Hw' & Hb' & Hh & es1 & es2 & E1 & E2 & Hp); [done..|].
  exists t'. split_and!; try done; try lia; [eauto|]. intros ord Hord Hs Hf.
  unfold sorted in *. rewrite E1 in Hs, Hf. rewrite E2.
  destruct (Hp ord Hord Hs Hf) as (H1 & H2). apply StronglySorted_app in Hs as (? & ? & ?).
  apply StronglySorted_mid. by split_and!.
Qed.

(** C31: removing a node from an AVL tree in which no two nodes compare equal
    always succeeds, returns 1 when the node is in the tree and takes exactly it
    out, leaving the order of the others, parent pointers, heights and summaries
    right, the height the same or one less and no balance factor above 2; when
    the node is not in the tree it returns 0 and nothing changes. *)
Theorem avltree_remove_correct t n :
  wf None t -> bal 1 t -> distinct (elements t) ->
  (ent n ∈ elements t ->
    exists t', avltree_remove t n = Some (t', 1) /\ wf None t' /\ bal 2 t'
    /\ avltree_height t - 1 <= avltree_height t' <= avltree_height t
    /\ exists (es1 es2 : list (Z * B)),
         elements t = es1 ++ ent n :: es2 /\ elements t' = es1 ++ es2)
  /\ (addr n ∉ (elements t).*1 -> avltree_remove t n = Some (t, 0)).
Proof.
  intros Hw Hb Hd. split; [|apply remove_helper_absent]. intros Hn.
  destruct (remove_helper_spec None t n) as (t' & ? & ? & ? & Hs & ?); [done..|].
  exists t'. split_and!; try done; destruct Hs; lia.
Qed.

(** In a tree ordered for a key, [avltree_lookup] returns a node that
    matches the key, and null only when no node does; and
    [avltree_first_superior_or_equal] returns the first node, in order, that the
    key is not above. *)
Theorem avltree_search_correct t key (ck : B -> Z) :
  key_sound key ck (elements t) ->
  match avltree_lookup t key with
  | Some c => ent c ∈ elements t /\ ck (base (data c)) = 0
  | None => Forall (fun x => ck x.2 <> 0) (elements t)
  end /\
  ent <$> avltree_first_superior_or_equal t key = List.find (not_above ck) (elements t).
Proof.
  intros Hk. split; [by apply lookup_spec|]. unfold avltree_first_superior_or_equal.
  rewrite first_superior_spec with (ck := ck) by done. by destruct List.find.
Qed.

(** On a tree with truthful parent pointers, [avltree_next] leads from every
    node to its successor in order and from the last one to null, and the loop
    [avltree_foreach] ends and visits every node exactly once, in order. *)
Theorem avltree_foreach_inorder t :
  wf None t -> NoDup (elements t).*1 ->
  avltree_foreach t = Some (elements t).*1 /\
  forall es1 x es2, elements t = es1 ++ x :: es2 ->
    avltree_next t (Some x.1) = Some (fst <$> head es2).
Proof. intros. split; [by apply foreach_spec|]. intros. by eapply next_spec. Qed.
End spec.

(** ** The trees of the address spaces (kernel/mem/vmm.c)

    Of a segment the tree only looks at its bounds; [rest] is what else it holds. *)
Record vmm_seg (X : Type) := mk_seg { start : Z; end_ : Z; rest : X }.
Arguments mk_seg {X} _ _ _.
Arguments start {X} _.
Arguments end_ {X} _.
Arguments rest {X} _.

Definition vmm_tree_compare_nodes {X} (seg_a seg_b : vmm_seg X) : Z :=
  if end_ seg_a <=? start seg_b then -1
  else if start seg_a >=? end_ seg_b then 1
  else 0.

Definition vmm_tree_compare_key {X} (key : Z) (seg : vmm_seg X) (_ _ : option (vmm_seg X)) : Z :=
  if key <? start seg then -1
  else if key >=? end_ seg then 1
  else 0.

Definition vmm_tree_recalculate {X} (seg : vmm_seg X) (_ _ : option (vmm_seg X)) : vmm_seg X := seg.

#[export] Instance vmm_tree_ops X : avltree_ops (vmm_seg X) Z := {
  compare_nodes := vmm_tree_compare_nodes;
  compare_key := vmm_tree_compare_key;
  recalculate := Some vmm_tree_recalculate;
}.

#[export, refine] Instance vmm_tree_laws X : avltree_laws (vmm_tree_ops X) (vmm_seg X) := {
  base := id;
  cmp := vmm_tree_compare_nodes;
}.
Proof. all: intros; simplify_eq/=; done. Defined.

(** Segments that are not empty and in increasing order without overlap. *)
Definition disjoint_before {X} (a b : vmm_seg X) : Prop :=
  start a < end_ a /\ end_ a <= start b /\ start b < end_ b.

Lemma disjoint_before_distinct {X} (es : list (Z * vmm_seg X)) :
  StronglySorted (fun x y => disjoint_before x.2 y.2) es ->
  Forall (fun x => start x.2 < end_ x.2) es -> distinct es.
Proof.
  intros Hs Hf. split.
  - eapply StronglySorted_impl; [|exact Hs]. intros x y (? & ? & ?).
    simpl. unfold vmm_tree_compare_nodes. repeat case_if; lia.
  - eapply Forall_impl; [exact Hf|]. intros x Hx. simpl in *. unfold vmm_tree_compare_nodes.
    repeat case_if; lia.
Qed.

(** The tree of an address space: AVL, with segments in order and apart. *)
Definition segs_ok {X} (t : tree (vmm_seg X)) : Prop :=
  wf None t /\ bal 1 t /\ sorted disjoint_before t /\
  Forall (fun x => start x.2 < end_ x.2) (elements t).

Definition apart {X} (a b : vmm_seg X) : Prop := end_ a <= start b \/ end_ b <= start a.

Definition covers {X} (addr : Z) (s : vmm_seg X) : Prop := start s <= addr < end_ s.

Lemma key_sound_segs {X} (t : tree (vmm_seg X)) key :
  sorted disjoint_before t ->
  key_sound key (fun s => vmm_tree_compare_key key s None None) (elements t).
Proof.
  intros Hs. split; [done|]. eapply StronglySorted_impl; [|exact Hs].
  intros x y (? & ? & ?). simpl. unfold vmm_tree_compare_key. repeat case_if; lia.
Qed.

Lemma compare_key_covers {X} key (s : vmm_seg X) :
  start s < end_ s -> vmm_tree_compare_key key s None None = 0 <-> covers key s.
Proof. intros. unfold vmm_tree_compare_key, covers. repeat case_if; lia. Qed.

Lemma apart_fits {X} (a b : vmm_seg X) :
  start a < end_ a -> start b < end_ b -> apart a b -> fits disjoint_before a b.
Proof.
  unfold fits, apart, disjoint_before. simpl. unfold vmm_tree_compare_nodes.
  intros. repeat case_if; lia.
Qed.

(** Inserting a segment apart from the others, with the sequence it gives. *)
Lemma segs_insert {X} (t : tree (vmm_seg X)) n :
  segs_ok t -> start (data n) < end_ (data n) ->
  Forall (fun x => apart (data n) x.2) (elements t) ->
  exists t', avltree_insert t n Null Null = Some t' /\ segs_ok t' /\
    forall x, x ∈ elements t' <-> x = ent n \/ x ∈ elements t.
Proof.
  intros (Hw & Hb & Hs & Hne) Hn Ha.
  destruct (insert_helper_spec None t (mk_node (addr n) (parent n) 1 (data n)))
    as (t' & Ht & Hw' & Hb' & _ & es1 & es2 & E1 & E2 & Hp); [done..|].
  exists t'. split; [done|].
  assert (Hx : forall x, x ∈ elements t' <-> x = ent n \/ x ∈ elements t).
  { intros x. rewrite E1, E2, !elem_of_app, elem_of_cons. tauto. }
  split; [|done]. split; [done|]. split; [done|].
  unfold sorted in *. rewrite E1 in Hs, Hne, Ha. rewrite E2. split.
  - destruct (Hp disjoint_before) as (H1 & H2); [|done| |].
    + intros a b c (? & ? & ?) (? & ? & ?). unfold disjoint_before. lia.
    + rewrite Forall_forall in Ha, Hne |- *. intros x Hin.
      apply apart_fits; [done|by apply Hne|by apply Ha].
    + apply StronglySorted_app in Hs as (? & ? & ?). apply StronglySorted_mid. by split_and!.
  - apply Forall_app in Hne as (? & ?). apply Forall_app. split; [done|]. by constructor.
Qed.

(** The segment tree of an address space.  Inserting a non-empty segment that
    overlaps none of the tree keeps the tree well formed, with its segments in
    order and apart; and then the lookup of any address returns the segment that
    covers it, and null exactly when none does. *)
Theorem vmm_tree_insert_lookup {X} (t : tree (vmm_seg X)) n addr :
  segs_ok t -> start (data n) < end_ (data n) ->
  Forall (fun x => apart (data n) x.2) (elements t) ->
  exists t', avltree_insert t n Null Null = Some t' /\ segs_ok t' /\
    match avltree_lookup t' addr with
    | Some c => covers addr (data c) /\ (ent c = ent n \/ ent c ∈ elements t)
    | None => ~ covers addr (data n) /\ Forall (fun x => ~ covers addr x.2) (elements t)
    end.
Proof.
  intros Ht Hn Ha. destruct (segs_insert t n Ht Hn Ha) as (t' & E & Ht' & Hx).
  exists t'. split; [done|]. split; [done|]. destruct Ht' as (_ & _ & Hs & Hne).
  pose proof (lookup_spec addr _ t' (key_sound_segs t' addr Hs)) as Hl.
  rewrite Forall_forall in Hne. destruct (avltree_lookup t' addr) as [c|].
  - destruct Hl as (Hc & Hk). split; [|by apply Hx].
    apply compare_key_covers; [exact (Hne (ent c) Hc)|done].
  - rewrite Forall_forall in Hl |- *. split.
    + assert (Hin : ent n ∈ elements t') by (apply Hx; by left).
      specialize (Hl _ Hin). by rewrite <- compare_key_covers.
    + intros x Hin. assert (Hin' : x ∈ elements t') by (apply Hx; by right).
      specialize (Hl _ Hin'). rewrite <- compare_key_covers; [done|by apply Hne].
Qed.

(** ** Concrete trees *)

Definition seg_at (k : Z) : avltree_node (vmm_seg unit) :=
  mk_node k None 0 (mk_seg (k * PAGE_SIZE) (k * PAGE_SIZE + PAGE_SIZE) ()).

(** The tree after insertions from the empty one. *)
Fixpoint build (t : tree (vmm_seg unit)) (ks : list Z) : option (tree (vmm_seg unit)) :=
  match ks with
  | [] => Some t
  | k :: ks => t ← avltree_insert t (seg_at k) Null Null; build t ks
  end.

(** Closes the well-formedness of a concrete tree. *)
Ltac by_computation :=
  vm_compute; repeat first [split | constructor | reflexivity | discriminate | intros []].

(** The removal does not keep the trees balanced, and that has a
    consequence.  [avltree_rebalance] looks at the balance of the child the node was
    removed from, where the rotations need the balance of the other one.  After
    seven insertions and one removal a tree is no longer an AVL tree, and the next
    removal, of a segment that is in the tree, reaches the
    [__builtin_unreachable()] of [avltree_rebalance]. *)
Theorem avltree_remove_unreachable :
  exists t t1, build Null [0; 4; 6; 1; 5; 3; 2] = Some t
  /\ segs_ok t
  /\ avltree_remove t (seg_at 4) = Some (t1, 1)
  /\ ~ bal 1 t1
  /\ ent (seg_at 0) ∈ elements t1
  /\ avltree_remove t1 (seg_at 0) = None.
Proof.
  do 2 eexists. split; [vm_compute; reflexivity|].
  split_and!.
  - by_computation.
  - vm_compute; reflexivity.
  - vm_compute. naive_solver.
  - vm_compute. by repeat constructor.
  - vm_compute; reflexivity.
Qed.

(** A tree of three segments. *)
Definition tree3 : tree (vmm_seg unit) :=
  Node (mk_node 2 None 2 (data (seg_at 2)))
    (Node (mk_node 1 (Some 2) 1 (data (seg_at 1))) Null Null)
    (Node (mk_node 5 (Some 2) 1 (data (seg_at 5))) Null Null).

Lemma avltree_insert_correct_witness :
  build Null [1; 2; 5] = Some tree3 /\
  exists t', avltree_insert tree3 (seg_at 3) Null Null = Some t' /\ wf None t' /\ bal 1 t'
    /\ sorted disjoint_before t' /\ (elements t').*1 = [1; 2; 3; 5].
Proof.
  split; [vm_compute; reflexivity|].
  destruct (avltree_insert_correct tree3 (seg_at 3)) as (t' & E & Hw & Hb & _ & _ & Hs);
    [by_computation|by_computation|reflexivity|].
  exists t'. split; [exact E|]. split; [exact Hw|]. split; [exact Hb|]. split.
  - apply Hs.
    + intros a b c (? & ? & ?) (? & ? & ?). unfold disjoint_before. lia.
    + by_computation.
    + repeat (constructor; [apply apart_fits; vm_compute; first [reflexivity|by left|by right]|]).
      constructor.
  - vm_compute in E. injection E as <-. vm_compute; reflexivity.
Defined.

Lemma avltree_remove_correct_witness :
  (exists t', avltree_remove tree3 (seg_at 2) = Some (t', 1) /\ wf None t' /\ bal 2 t')
  /\ avltree_remove tree3 (seg_at 7) = Some (tree3, 0).
Proof.
  destruct (avltree_remove_correct tree3 (seg_at 2)) as (H & _);
    [by_computation|by_computation|by_computation|].
  destruct (avltree_remove_correct tree3 (seg_at 7)) as (_ & H');
    [by_computation|by_computation|by_computation|].
  split.
  - destruct H as (t' & ? & ? & ? & _); [vm_compute; apply elem_of_cons; right; by left|].
    exists t'. auto.
  - apply H'. apply (bool_decide_unpack _). vm_compute. exact I.
Defined.

Lemma avltree_search_correct_witness :
  (exists c, avltree_lookup tree3 (5 * PAGE_SIZE + 7) = Some c /\ addr c = 5)
  /\ avltree_lookup tree3 (3 * PAGE_SIZE) = None
  /\ (ent <$> avltree_first_superior_or_equal tree3 (3 * PAGE_SIZE) = Some (ent (seg_at 5))).
Proof.
  split; [eexists; split; vm_compute; reflexivity|]. split; [vm_compute; reflexivity|].
  destruct (avltree_search_correct tree3 (3 * PAGE_SIZE)
    (fun s => vmm_tree_compare_key (3 * PAGE_SIZE) s None None)) as (_ & ->).
  - apply key_sound_segs. by_computation.
  - vm_compute. reflexivity.
Defined.

Lemma avltree_foreach_inorder_witness :
  avltree_foreach tree3 = Some [1; 2; 5] /\ avltree_next tree3 (Some 1) = Some (Some 2).
Proof.
  destruct (avltree_foreach_inorder tree3) as (H1 & H2);
    [by_computation|apply (bool_decide_unpack _); vm_compute; exact I|].
  split; [exact H1|]. apply (H2 [] (ent (seg_at 1)) [ent (seg_at 2); ent (seg_at 5)]).
  vm_compute. reflexivity.
Defined.

Lemma vmm_tree_insert_lookup_witness :
  exists t', avltree_insert tree3 (seg_at 4) Null Null = Some t' /\ segs_ok t' /\
    exists c, avltree_lookup t' (4 * PAGE_SIZE + 100) = Some c /\ covers (4 * PAGE_SIZE + 100) (data c).
Proof.
  destruct (vmm_tree_insert_lookup tree3 (seg_at 4) (4 * PAGE_SIZE + 100)) as (t' & E & Ht & Hl);
    [by_computation|vm_compute; reflexivity| |].
  { repeat (constructor; [vm_compute; first [by left|by right]|]). constructor. }
  exists t'. split; [exact E|]. split; [exact Ht|].
  destruct (avltree_lookup t' (4 * PAGE_SIZE + 100)) as [c|].
  - exists c. split; [reflexivity|apply Hl].
  - exfalso. destruct Hl as (H & _). apply H. vm_compute. split; [discriminate|reflexivity].
Defined.

End Avl.
