(* ===== verification/IntervalTree.v ===== *)
(** Interval trees (kernel/klib/intervaltree.c, kernel/include/klib/intervaltree.h):
    AVL trees of half-open spans, in which each node also holds the largest end of
    its subtree ([max]).  The operations are those of [Avl] with the callbacks of
    this file. *)

From S2P Require Import Prelude Avl.

Module IntervalTree.

Import Avl.

Record interval_tree_span := mk_span { span_start : Z; span_end : Z }.

(** [interval_tree_node_t] without the embedded [avltree_node_t]. *)
Record interval := mk_interval { span : interval_tree_span; max : Z }.

Definition compare_spans (a b : interval_tree_span) : Z :=
  if span_start a <? span_start b then -1
  else if span_start a >? span_start b then 1
  else if span_end a <? span_end b then -1
  else if span_end a >? span_end b then 1
  else 0.

Definition interval_tree_compare_nodes (a b : interval) : Z := compare_spans (span a) (span b).

Definition interval_tree_compare_key (key : interval_tree_span) (node : interval)
    (nleft nright : option interval) : Z :=
  let own :=
    if (span_start key <? span_end (span node)) && (span_end key >? span_end (span node))
    then 0 else 1 in
  match nleft with
  | Some nleft => if (max nleft >=? span_start key)%Z then -1 else own
  | None => own
  end.

Definition interval_tree_recalculate (node : interval) (nleft nright : option interval) : interval :=
  let m := span_end (span node) in
  let m := match nleft with Some nleft => if max nleft >? m then max nleft else m | None => m end in
  let m := match nright with Some nright => if max nright >? m then max nright else m | None => m end in
  mk_interval (span node) m.

#[export] Instance interval_tree_ops : avltree_ops interval interval_tree_span := {
  compare_nodes := interval_tree_compare_nodes;
  compare_key := interval_tree_compare_key;
  recalculate := Some interval_tree_recalculate;
}.

#[export, refine] Instance interval_tree_laws : avltree_laws interval_tree_ops interval_tree_span := {
  base := span;
  cmp := compare_spans;
}.
Proof. all: intros; simplify_eq/=; done. Defined.

Definition interval_tree_init : tree interval := avltree_init.
Definition interval_tree_insert (t : tree interval) (n : avltree_node interval) :=
  avltree_insert t n Null Null.
Definition interval_tree_remove (t : tree interval) (n : avltree_node interval) :=
  avltree_remove t n.
Definition interval_tree_first (t : tree interval) := avltree_first t.
Definition interval_tree_next (t : tree interval) (node : option Z) : option (option Z) :=
  match node with None => Some None | Some _ => avltree_next t node end.

Definition interval_tree_first_span (t : tree interval) (s : interval_tree_span)
    : option (avltree_node interval) :=
  match avltree_first_superior_or_equal t s with
  | None => None
  | Some n => if span_start (span (data n)) >=? span_end s then None else Some n
  end.

(** The outer option is a pointer that does not lead to a node. *)
Definition interval_tree_next_span (t : tree interval) (node : option Z) (s : interval_tree_span)
    : option (option Z) :=
  match node with
  | None => Some None
  | Some _ =>
      next ← avltree_next t node;
      match next with
      | None => Some None
      | Some a =>
          sub ← deref t a;
          match sub with
          | Null => None
          | Node c _ _ =>
              if span_start (span (data c)) >=? span_end s then Some None else Some (Some a)
          end
      end
  end.

(** ** The order and the summary *)

Definition span_le (a b : interval_tree_span) : Prop :=
  span_start a < span_start b \/
  (span_start a = span_start b /\ span_end a <= span_end b).

#[export] Instance span_le_trans : Transitive span_le.
Proof. intros a b c. unfold span_le. lia. Qed.

Lemma span_fits a b : fits span_le a b.
Proof. unfold fits, span_le. simpl. unfold compare_spans. repeat case_if; lia. Qed.

(** The largest end of the spans of a subtree. *)
Fixpoint max_end (t : tree interval) : option Z :=
  match t with
  | Null => None
  | Node c l r =>
      Some (Z.max (span_end (span (data c)))
             (Z.max (default (span_end (span (data c))) (max_end l))
                    (default (span_end (span (data c))) (max_end r))))
  end.

Lemma wf_max p (t : tree interval) : wf p t -> max <$> root_data t = max_end t.
Proof.
  revert p. induction t as [|c l IHl r IHr]; intros p; [done|].
  intros (_ & _ & Hd & Hl%IHl & Hr%IHr). simpl in *. f_equal.
  rewrite Hd at 1. rewrite <- Hl, <- Hr. unfold refreshed. cbn [recalculate interval_tree_ops].
  destruct (root_data l); destruct (root_data r); unfold interval_tree_recalculate; simpl; repeat case_if;
    repeat match goal with H : _ = _ |- _ => case_if_in H end; lia.
Qed.

Lemma max_end_elements (t : tree interval) x :
  x ∈ elements t -> exists m, max_end t = Some m /\ span_end x.2 <= m.
Proof.
  induction t as [|c l IHl r IHr]; simpl; [set_solver|].
  rewrite elem_of_app, elem_of_cons. intros [Hx|[->|Hx]]; eexists; (split; [done|]).
  - destruct (IHl Hx) as (m & -> & ?). simpl. lia.
  - simpl. lia.
  - destruct (IHr Hx) as (m & -> & ?). simpl. lia.
Qed.

(** Inserting a node whose [max] is the end of its own span keeps the tree
    AVL and its spans in order, and makes [max] of the root the largest end of
    all the spans of the tree. *)
Theorem interval_tree_insert_correct t n :
  wf None t -> bal 1 t -> sorted span_le t -> max (data n) = span_end (span (data n)) ->
  exists t', interval_tree_insert t n = Some t' /\ wf None t' /\ bal 1 t' /\ sorted span_le t'
  /\ (forall x, x ∈ elements t' <-> x = ent n \/ x ∈ elements t)
  /\ max <$> root_data t' = max_end t'
  /\ Forall (fun x => span_end x.2 <= default 0 (max_end t')) (elements t').
Proof.
  intros Hw Hb Hs Hm.
  destruct (insert_helper_spec None t (mk_node (addr n) (parent n) 1 (data n)))
    as (t' & Ht & Hw' & Hb' & _ & es1 & es2 & E1 & E2 & Hp); [done|done| |].
  { split; [done|]. simpl. destruct (data n) as [sp m]. simpl in *. by subst m. }
  exists t'. split; [done|]. split; [done|]. split; [done|]. split_and!.
  - unfold sorted in *. rewrite E1 in Hs. rewrite E2.
    destruct (Hp span_le) as (H1 & H2); [apply _|done| |].
    + apply Forall_forall. intros. apply span_fits.
    + apply StronglySorted_app in Hs as (? & ? & ?). apply StronglySorted_mid. by split_and!.
  - intros x. rewrite E1, E2, !elem_of_app, elem_of_cons. tauto.
  - by eapply wf_max.
  - apply Forall_forall. intros x Hx. destruct (max_end_elements t' x Hx) as (m & -> & ?). done.
Qed.

Definition span_node (a s e : Z) : avltree_node interval :=
  mk_node a None 0 (mk_interval (mk_span s e) e).

Lemma interval_tree_insert_correct_witness :
  exists t1 t2, interval_tree_insert Null (span_node 1 10 40) = Some t1
  /\ interval_tree_insert t1 (span_node 2 20 30) = Some t2
  /\ max <$> root_data t2 = Some 40 /\ sorted span_le t2.
Proof.
  eexists.
  destruct (interval_tree_insert_correct
    (Node (mk_node 1 None 1 (mk_interval (mk_span 10 40) 40)) Null Null) (span_node 2 20 30))
    as (t2 & E & _ & _ & Hs & _).
  - by_computation.
  - by_computation.
  - by_computation.
  - reflexivity.
  - exists t2. split; [reflexivity|]. split; [exact E|].
    vm_compute in E. injection E as <-. split; [reflexivity|exact Hs].
Defined.

(** The search for the spans that meet a given one misses some: the
    comparison with the key tests the end of the node twice where an overlap needs
    its start, so the span [[0, 100)] of a tree is not found for [[20, 30)] inside
    it.  And a leaf whose [max] was not set before the insertion keeps the stale
    value, because the insertion of a leaf does not recalculate it. *)
Theorem interval_tree_first_span_misses :
  exists t, interval_tree_insert Null (span_node 1 0 100) = Some t
  /\ elements t = [(1, mk_span 0 100)]
  /\ interval_tree_first_span t (mk_span 20 30) = None
  /\ (forall stale, exists t', interval_tree_insert Null
        (mk_node 1 None 0 (mk_interval (mk_span 0 100) stale)) = Some t'
      /\ max <$> root_data t' = Some stale).
Proof.
  eexists. split; [vm_compute; reflexivity|]. split_and!; try (vm_compute; reflexivity).
  intros stale. eexists. split; reflexivity.
Qed.

End IntervalTree.
