(* ===== verification/XArray.v ===== *)
(** Extensible arrays (kernel/klib/xarray.c, kernel/include/klib/xarray.h): radix
    trees of 64-entry nodes that map an index to a pointer.

    An entry of the source is a machine word: zero, a value (a pointer with its
    lowest bit clear) or a pointer to a node with its lowest bit set.  Nodes are
    owned by the entry that points to them, so entries are an inductive type here.
    A tree has at most eleven levels; the walks have fuel for twelve (the size of
    the array [parents] of [xarray_raw_set]).  [None] stands for a failed [kassert],
    a shift by more than the width of the type and an access outside an array.
    [slab_alloc] is taken to succeed (its result is not tested) and gives a zeroed
    node, the work of [xarray_entry_constructor].  The write lock is held by the
    writers, so the operations are sequential; RCU readers see whole entries. *)

From S2P Require Import Prelude.

Module XArray.

Definition XARRAY_SHIFT_BITS : Z := 6.
Definition XARRAY_ENTRIES_PER_NODE : Z := 64.
Definition XARRAY_MASK : Z := 63.
Definition UINT64_MAX : Z := 2 ^ 64 - 1.

Inductive entry :=
  | Null
  | Value (v : Z)
  | Node (shift full_mask : Z) (entries : list entry).

Record xarray := mk_xarray { root : entry }.

Definition xarray_init : xarray := mk_xarray Null.

Definition xarray_entry_from_value (value : Z) : entry :=
  if value =? 0 then Null else Value value.

#[global] Instance is_null_dec (e : entry) : Decision (e = Null).
Proof. destruct e; [left|right|right]; done. Defined.

Definition xarray_node_get_local_index (shift index : Z) : Z :=
  Z.land (Z.shiftr index shift) XARRAY_MASK.

(** A zeroed node. *)
Definition no_entries : list entry := replicate 64 Null.

(** [1UL << n]: undefined when [n] is not below the width. *)
Definition shl1 (n : Z) : option Z := if n <? 64 then Some (Z.shiftl 1 n) else None.

Definition xarray_is_in_bound (e : entry) (index : Z) : option bool :=
  match e with
  | Null | Value _ => Some (index <? 1)
  | Node shift _ _ => size ← shl1 (shift + XARRAY_SHIFT_BITS); Some (index <? size)
  end.

Definition fetch (entries : list entry) (i : Z) : option entry :=
  entries !! Z.to_nat i.
Definition store (entries : list entry) (i : Z) (e : entry) : list entry :=
  <[Z.to_nat i := e]> entries.

(** ** Reading *)

Fixpoint get_walk (fuel : nat) (current_entry : entry) (index : Z) : option Z :=
  match fuel with
  | O => None
  | S fuel =>
      match current_entry with
      | Null => Some 0
      | Value v => Some v
      | Node shift _ entries =>
          e ← fetch entries (xarray_node_get_local_index shift index);
          get_walk fuel e index
      end
  end.

Definition xarray_raw_get (x : xarray) (index : Z) : option Z :=
  inb ← xarray_is_in_bound (root x) index;
  if negb inb then Some 0 else get_walk 12 (root x) index.

(** ** Writing *)

(** The nodes added below a null entry. *)
Fixpoint set_fill (fuel : nat) (current_shift index value : Z) : option entry :=
  match fuel with
  | O => None
  | S fuel =>
      if current_shift >=? XARRAY_SHIFT_BITS then
        let shift := current_shift - XARRAY_SHIFT_BITS in
        let local_index := xarray_node_get_local_index shift index in
        e ← set_fill fuel shift index value;
        Some (Node shift (Z.lor 0 (Z.shiftl 1 local_index)) (store no_entries local_index e))
      else Some (xarray_entry_from_value value)
  end.

(** The walk of [xarray_raw_set] to the entry and the way back over [parents]: the
    new entry, the value it held, and whether the loop that sets masks is still
    running when it gets to the node above. *)
Fixpoint set_walk (fuel : nat) (current_entry : entry) (current_shift index value : Z)
    : option (entry * Z * bool) :=
  match fuel with
  | O => None
  | S fuel =>
      match current_entry with
      | Value old => Some (xarray_entry_from_value value, old, negb (value =? 0))
      | Node shift full_mask entries =>
          let local_index := xarray_node_get_local_index shift index in
          let full_mask :=
            if value =? 0 then Z.land full_mask (Z.lnot (Z.shiftl 1 local_index))
            else full_mask in
          child ← fetch entries local_index;
          '(child, old, report) ← set_walk fuel child shift index value;
          let full_mask :=
            if (report : bool) then Z.lor full_mask (Z.shiftl 1 local_index) else full_mask in
          Some (Node shift full_mask (store entries local_index child), old,
                report && (full_mask =? UINT64_MAX))
      | Null =>
          if value =? 0 then Some (Null, 0, false)
          else if negb (current_shift mod XARRAY_SHIFT_BITS =? 0) then None
          else e ← set_fill 12 current_shift index value; Some (e, 0, false)
      end
  end.

(** [while (index >= (1UL << target_shift)) target_shift += XARRAY_SHIFT_BITS;] *)
Fixpoint target_shift_loop (fuel : nat) (target_shift index : Z) : option Z :=
  match fuel with
  | O => None
  | S fuel =>
      size ← shl1 target_shift;
      if index >=? size then target_shift_loop fuel (target_shift + XARRAY_SHIFT_BITS) index
      else Some target_shift
  end.

Fixpoint grow_loop (fuel : nat) (current_shift target_shift : Z) (e : entry)
    (previous_is_full : bool) : option entry :=
  match fuel with
  | O => None
  | S fuel =>
      if current_shift <? target_shift then
        grow_loop fuel (current_shift + XARRAY_SHIFT_BITS) target_shift
          (Node current_shift (if previous_is_full then 1 else 0) (store no_entries 0 e)) false
      else Some e
  end.

(** The entry after growing the array to hold [index]. *)
Definition grow (e : entry) (index : Z) : option entry :=
  let '(current_shift, previous_is_full) :=
    match e with
    | Null => (0, false)
    | Value _ => (0, true)
    | Node shift full_mask _ => (shift + XARRAY_SHIFT_BITS, full_mask =? UINT64_MAX)
    end in
  target_shift ← target_shift_loop 12 0 index;
  if negb (current_shift <? target_shift) then None
  else grow_loop 12 current_shift target_shift e previous_is_full.

Definition xarray_raw_set (x : xarray) (index value : Z) : option (xarray * Z) :=
  if negb (Z.land value 1 =? 0) then None
  else
    inb ← xarray_is_in_bound (root x) index;
    if negb inb && (value =? 0) then Some (x, 0)
    else
      e ← (if inb then Some (root x) else grow (root x) index);
      '(e, old, _) ← set_walk 13 e 0 index value;
      Some (mk_xarray e, old).

Definition xarray_raw_clear (x : xarray) (index : Z) := xarray_raw_set x index 0.

Definition xarray_raw_cmpxchg (x : xarray) (index expected value : Z) : option (xarray * Z) :=
  if negb (Z.land value 1 =? 0) then None
  else
    old ← xarray_raw_get x index;
    if negb (old =? expected) then Some (x, old)
    else xarray_raw_set x index value.

(** ** Searching *)

(** The loop over the entries of a node from [start]; [rec] is the recursive call. *)
Fixpoint find_loop (rec : entry -> Z -> option (option (Z * Z))) (l : list entry)
    (i start min shift : Z) : option (option (Z * Z)) :=
  match l with
  | [] => Some None
  | e :: l =>
      ret ← rec e (if i =? start then min else 0);
      match ret with
      | Some (v, index) => Some (Some (v, index +! u64 (Z.shiftl i shift)))
      | None => find_loop rec l (i + 1) start min shift
      end
  end.

(** The value found and its index. *)
Fixpoint xarray_entry_find_non_null (fuel : nat) (e : entry) (min : Z)
    : option (option (Z * Z)) :=
  match fuel with
  | O => None
  | S fuel =>
      match e with
      | Null => Some None
      | Value v => Some (Some (v, 0))
      | Node shift _ entries =>
          let start := xarray_node_get_local_index shift min in
          find_loop (xarray_entry_find_non_null fuel) (dropZ start entries) start start min shift
      end
  end.

Definition xarray_raw_first (x : xarray) : option (option (Z * Z)) :=
  xarray_entry_find_non_null 12 (root x) 0.

Definition xarray_raw_first_from (x : xarray) (from : Z) : option (option (Z * Z)) :=
  inb ← xarray_is_in_bound (root x) from;
  if negb inb then Some None else xarray_entry_find_non_null 12 (root x) from.

Definition xarray_next (x : xarray) (after : Z) : option (option (Z * Z)) :=
  xarray_raw_first_from x (after +! 1).

(** ** Allocating *)

(** The subtrees added below a null entry, and [*full]. *)
Fixpoint allocate_fill (fuel : nat) (parent_shift min value : Z) : option entry :=
  match fuel with
  | O => None
  | S fuel =>
      if parent_shift >=? XARRAY_SHIFT_BITS then
        let shift := parent_shift - XARRAY_SHIFT_BITS in
        e ← allocate_fill fuel shift min value;
        Some (Node shift 0 (store no_entries (xarray_node_get_local_index shift min) e))
      else Some (xarray_entry_from_value value)
  end.

(** The loop over the entries of a node: the entries with the new one, the index
    and the mask, [None] when nothing was found. *)
Fixpoint allocate_loop (rec : entry -> Z -> option (option (entry * Z * bool)))
    (entries l : list entry) (i start min shift full_mask : Z)
    : option (option (list entry * Z * Z)) :=
  match l with
  | [] => Some None
  | e :: l =>
      if has full_mask (Z.shiftl 1 i)
      then allocate_loop rec entries l (i + 1) start min shift full_mask
      else
        ret ← rec e (if i =? start then min else 0);
        match ret with
        | Some (e', index, child_is_full) =>
            Some (Some (store entries i e', index +! u64 (Z.shiftl i shift),
                        if (child_is_full : bool) then Z.lor full_mask (Z.shiftl 1 i)
                        else full_mask))
        | None => allocate_loop rec entries l (i + 1) start min shift full_mask
        end
  end.

(** The new entry, [*index] and [*full] when it returns 1, [None] when it returns 0
    (and writes nothing). *)
Fixpoint xarray_entry_allocate (fuel : nat) (e : entry) (min parent_shift value : Z)
    : option (option (entry * Z * bool)) :=
  match fuel with
  | O => None
  | S fuel =>
      match e with
      | Null =>
          e ← allocate_fill 12 parent_shift min value;
          Some (Some (e, 0, negb (parent_shift >=? XARRAY_SHIFT_BITS)))
      | Value _ => Some None
      | Node shift full_mask entries =>
          if full_mask =? UINT64_MAX then Some None
          else
            let start := xarray_node_get_local_index shift min in
            ret ← allocate_loop (fun e min => xarray_entry_allocate fuel e min shift value)
                    entries (dropZ start entries) start start min shift full_mask;
            match ret with
            | Some (entries, index, full_mask) =>
                Some (Some (Node shift full_mask entries, index, full_mask =? UINT64_MAX))
            | None => Some None
            end
      end
  end.

(** [junk] is the content of the variable [child_is_full], which is not initialised
    when [xarray_entry_allocate] returns 0. *)
Definition xarray_raw_allocate_from (junk : bool) (x : xarray) (start value : Z)
    : option (xarray * Z) :=
  inb ← xarray_is_in_bound (root x) start;
  if negb inb then
    '(x, _) ← xarray_raw_set x start value;
    Some (x, start)
  else
    ret ← xarray_entry_allocate 12 (root x) start 0 value;
    match ret with
    | Some (e, index, _) => Some (mk_xarray e, index)
    | None =>
        let shift :=
          match root x with
          | Node shift _ _ => shift + XARRAY_SHIFT_BITS
          | _ => 0
          end in
        ret ← xarray_entry_allocate 12 Null 0 shift value;
        match ret with
        | None => None
        | Some (e, index, _) =>
            size ← shl1 shift;
            Some (mk_xarray (Node shift (if junk then 1 else 0)
                               (store (store no_entries 0 (root x)) 1 e)),
                  index +! size)
        end
    end.

Definition xarray_allocate_from (junk : bool) (x : xarray) (start value : Z)
    : option (xarray * Z) :=
  if negb (Z.land value 1 =? 0) then None
  else xarray_raw_allocate_from junk x start value.

Definition xarray_allocate (junk : bool) (x : xarray) (value : Z) : option (xarray * Z) :=
  xarray_allocate_from junk x 0 value.

(** ** Contents

    [W h] is the number of indices a tree of [h] levels of nodes holds. *)
Definition W (h : nat) : Z := 2 ^ (6 * Z.of_nat h).

(** The digit of an index that selects the entry of a node above [h] levels. *)
Definition digit (h : nat) (i : Z) : Z := i / W h mod 64.

(** A tree of [h] levels: shifts decrease by 6, nodes have 64 entries, values are
    at the bottom. *)
Fixpoint wf (h : nat) (e : entry) : Prop :=
  match h, e with
  | _, Null => True
  | O, Value v => v <> 0
  | S h, Node shift full_mask entries =>
      shift = 6 * Z.of_nat h /\ 0 <= full_mask < 2 ^ 64 /\
      length entries = 64%nat /\ Forall (wf h) entries
  | _, _ => False
  end.

(** The value at an index, 0 where there is none. *)
Fixpoint at_ (h : nat) (e : entry) (i : Z) : Z :=
  match h, e with
  | S h, Node _ _ entries => at_ h (nthZ Null entries (digit h i)) i
  | _, Value v => v
  | _, _ => 0
  end.

Lemma W_pos h : 0 < W h.
Proof. apply Z.pow_pos_nonneg; lia. Qed.

Lemma W_S h : W (S h) = 64 * W h.
Proof.
  unfold W. replace (6 * Z.of_nat (S h)) with (6 + 6 * Z.of_nat h) by lia.
  rewrite Z.pow_add_r by lia. done.
Qed.

Lemma W_le h : (h <= 10)%nat -> W h <= 2 ^ 60.
Proof. intros. apply Z.pow_le_mono_r; lia. Qed.

Lemma digit_range h i : 0 <= digit h i < 64.
Proof. apply Z.mod_pos_bound. lia. Qed.

Lemma local_index h i : 0 <= i ->
  xarray_node_get_local_index (6 * Z.of_nat h) i = digit h i.
Proof.
  intros. unfold xarray_node_get_local_index, XARRAY_MASK.
  rewrite Z.shiftr_div_pow2 by lia. apply (land_ones_mod _ _ 6); lia.
Qed.

(** An index below [W (S h)] is its leading digit and the rest. *)
Lemma digit_split h i : 0 <= i -> i mod W (S h) = digit h i * W h + i mod W h.
Proof.
  intros. unfold digit. pose proof (W_pos h). rewrite W_S, Z.mul_comm.
  rewrite Z.rem_mul_r by lia. lia.
Qed.

Lemma digit_join h d k : 0 <= d < 64 -> 0 <= k < W h ->
  digit h (d * W h + k) = d /\ (d * W h + k) mod W h = k.
Proof.
  intros. unfold digit. pose proof (W_pos h).
  rewrite Z.div_add_l, Z.div_small by lia. rewrite Z.add_0_r, Z.mod_small by lia.
  split; [done|]. rewrite Z.add_comm, Z_mod_plus_full. by apply Z.mod_small.
Qed.

Lemma mod_W_mod h i : 0 <= i -> (i mod W (S h)) mod W h = i mod W h.
Proof.
  intros. pose proof (W_pos h). rewrite digit_split by done.
  rewrite Z.add_comm, Z_mod_plus_full. by apply Z.mod_mod; lia.
Qed.

Lemma digit_mod h i : 0 <= i -> digit h (i mod W (S h)) = digit h i.
Proof.
  intros. rewrite digit_split by done.
  apply digit_join; [apply digit_range|apply Z.mod_pos_bound, W_pos].
Qed.

(** Two indices are the same place of a tree of [S h] levels when they have the same
    leading digit and are the same place below it. *)
Lemma same_place h i j : 0 <= i -> 0 <= j ->
  i mod W (S h) = j mod W (S h) <-> digit h i = digit h j /\ i mod W h = j mod W h.
Proof.
  intros. split.
  - intros E. split.
    + rewrite <- (digit_mod h i), <- (digit_mod h j) by done. by rewrite E.
    + rewrite <- (mod_W_mod h i), <- (mod_W_mod h j) by done. by rewrite E.
  - intros (E1 & E2). rewrite !digit_split by done. by rewrite E1, E2.
Qed.

Lemma at_mod h e i j : 0 <= i -> 0 <= j -> i mod W h = j mod W h -> at_ h e i = at_ h e j.
Proof.
  revert e. induction h as [|h IH]; intros e Hi Hj E; [done|]. simpl.
  apply same_place in E as (E1 & E2); [|done..]. destruct e; [done..|]. rewrite E1. by apply IH.
Qed.

Lemma at_join h shift m es d k : 0 <= d < 64 -> 0 <= k < W h ->
  at_ (S h) (Node shift m es) (d * W h + k) = at_ h (nthZ Null es d) k.
Proof.
  intros Hd Hk. simpl. pose proof (W_pos h). destruct (digit_join h d k Hd Hk) as (-> & E).
  apply at_mod; [nia|lia|]. rewrite E. symmetry. by apply Z.mod_small.
Qed.

Lemma at_Null h i : at_ h Null i = 0.
Proof. by destruct h. Qed.

Lemma wf_Null h : wf h Null.
Proof. by destruct h. Qed.

(** ** Entries of a node *)

Lemma nthZ_fetch es d : length es = 64%nat -> 0 <= d < 64 ->
  fetch es d = Some (nthZ Null es d).
Proof.
  intros. unfold fetch, nthZ. destruct (lookup_lt_is_Some_2 es (Z.to_nat d)) as [e He]; [lia|].
  rewrite He. f_equal. symmetry. by apply nth_lookup_Some.
Qed.

Lemma nthZ_store es d d' e : length es = 64%nat -> 0 <= d < 64 -> 0 <= d' < 64 ->
  nthZ Null (store es d e) d' = if d' =? d then e else nthZ Null es d'.
Proof.
  intros. unfold store, nthZ. rewrite !nth_lookup. case_if.
  - subst. by rewrite list_lookup_insert_eq by lia.
  - by rewrite list_lookup_insert_ne by lia.
Qed.

Lemma length_store es d e : length (store es d e) = length es.
Proof. apply length_insert. Qed.

Lemma Forall_store (P : entry -> Prop) es d e : Forall P es -> P e -> Forall P (store es d e).
Proof. intros. by apply Forall_insert. Qed.

Lemma Forall_nthZ h es d : Forall (wf h) es -> wf h (nthZ Null es d).
Proof.
  intros H. unfold nthZ. rewrite nth_lookup. destruct (es !! _) eqn:E; [|apply wf_Null].
  simpl. by eapply Forall_lookup.
Qed.

Lemma nthZ_no_entries d : nthZ Null no_entries d = Null.
Proof. unfold nthZ, no_entries. rewrite nth_lookup. destruct (_ !! _) eqn:E; [|done].
  apply lookup_replicate in E. by destruct E as (-> & _). Qed.

Lemma no_entries_wf h : length no_entries = 64%nat /\ Forall (wf h) no_entries.
Proof. split; [done|]. apply Forall_replicate, wf_Null. Qed.

Lemma get_walk_spec h fuel e i :
  wf h e -> 0 <= i -> (h < fuel)%nat -> get_walk fuel e i = Some (at_ h e i).
Proof.
  revert fuel e. induction h as [|h IH]; intros fuel e Hw Hi Hf;
    (destruct fuel as [|fuel]; [lia|]); destruct e as [|v|s m es]; try done.
  destruct Hw as (-> & _ & Hlen & Hes). cbn [get_walk at_]. rewrite local_index by done.
  rewrite nthZ_fetch by (try apply digit_range; done). cbn [mbind option_bind].
  apply IH; [by apply Forall_nthZ|done|lia].
Qed.

(** ** [xarray_raw_set] *)

(** The value a write leaves at every index of a tree of [h] levels. *)
Definition updated (h : nat) (e e' : entry) (i v : Z) : Prop :=
  forall j, 0 <= j -> at_ h e' j = if decide (j mod W h = i mod W h) then v else at_ h e j.

(** A node whose entry on the way to [i] was replaced. *)
Lemma updated_node h s m m' es e' i v :
  length es = 64%nat -> 0 <= i -> updated h (nthZ Null es (digit h i)) e' i v ->
  updated (S h) (Node s m es) (Node s m' (store es (digit h i) e')) i v.
Proof.
  intros Hlen Hi Hu j Hj. cbn [at_].
  rewrite nthZ_store by (try apply digit_range; done). case_if.
  - rewrite Hu by done. destruct (decide (j mod W h = i mod W h)) as [E|E].
    + rewrite decide_True; [done|]. by apply same_place.
    + rewrite decide_False; [by rewrite <- Heqb|]. rewrite same_place by done. tauto.
  - rewrite decide_False; [done|]. rewrite same_place by done. tauto.
Qed.

Lemma wf_node h m es e i :
  0 <= m < 2 ^ 64 -> length es = 64%nat -> Forall (wf h) es -> wf h e ->
  wf (S h) (Node (6 * Z.of_nat h) m (store es i e)).
Proof.
  intros. split; [done|]. split; [done|]. split; [by rewrite length_store|by apply Forall_store].
Qed.

Lemma from_value_spec v i : wf 0 (xarray_entry_from_value v) /\ at_ 0 (xarray_entry_from_value v) i = v.
Proof. unfold xarray_entry_from_value. case_if; simpl; [by subst|done]. Qed.

Lemma W_0_mod i : i mod W 0 = 0.
Proof. apply Z.mod_1_r. Qed.

Lemma updated_value e i v : updated 0 e (xarray_entry_from_value v) i v.
Proof. intros j Hj. rewrite !W_0_mod. apply from_value_spec. Qed.

Lemma set_fill_spec h fuel i v :
  0 <= i -> (h < fuel)%nat ->
  exists e', set_fill fuel (6 * Z.of_nat h) i v = Some e' /\ wf h e' /\ updated h Null e' i v.
Proof.
  revert fuel. induction h as [|h IH]; intros fuel Hi Hf; (destruct fuel as [|fuel]; [lia|]).
  - eexists. split; [done|]. split; [apply (from_value_spec v 0)|apply updated_value].
  - destruct (IH fuel) as (e' & He & Hw & Hu); [done|lia|]. cbn [set_fill].
    rewrite (proj2 (Z.geb_le _ _)) by (unfold XARRAY_SHIFT_BITS; lia).
    replace (6 * Z.of_nat (S h) - XARRAY_SHIFT_BITS) with (6 * Z.of_nat h)
      by (unfold XARRAY_SHIFT_BITS; lia).
    rewrite He, local_index by done. simpl. eexists. split; [done|].
    destruct (no_entries_wf h). split.
    + apply wf_node; try done. rewrite Z.lor_0_l. apply bit_range, digit_range.
    + intros j Hj. rewrite (updated_node h (6 * Z.of_nat h) 0 _ _ _ i v) by
        (try done; by rewrite nthZ_no_entries).
      case_decide; [done|]. cbn [at_]. by rewrite nthZ_no_entries, at_Null.
Qed.

Lemma set_walk_null h fuel i v :
  0 <= i -> (h < 12)%nat ->
  exists e' r, set_walk (S fuel) Null (6 * Z.of_nat h) i v = Some (e', at_ h Null i, r)
    /\ wf h e' /\ updated h Null e' i v.
Proof.
  intros Hi Hh. rewrite at_Null. cbn [set_walk]. case_if.
  - exists Null, false. split_and!; [done|apply wf_Null|].
    intros j Hj. rewrite at_Null. by case_decide.
  - replace (_ mod XARRAY_SHIFT_BITS) with 0 by
      (rewrite Z.mul_comm; symmetry; apply Z_mod_mult).
    destruct (set_fill_spec h 12 i v) as (e' & E & ? & ?); [done|lia|].
    rewrite E. exists e', false. done.
Qed.

Lemma set_walk_spec h fuel e i v :
  wf h e -> 0 <= i -> (h < fuel)%nat -> (h < 12)%nat ->
  exists e' r, set_walk fuel e (6 * Z.of_nat h) i v = Some (e', at_ h e i, r)
    /\ wf h e' /\ updated h e e' i v.
Proof.
  revert fuel e. induction h as [|h IH]; intros fuel e Hw Hi Hf Hh;
    (destruct fuel as [|fuel]; [lia|]); destruct e as [|old|s m es]; try done.
  1, 3: by apply set_walk_null.
  - exists (xarray_entry_from_value v). eexists. split; [done|].
    split; [apply (from_value_spec v 0)|apply updated_value].
  - destruct Hw as (-> & Hm & Hlen & Hes). cbn [set_walk]. rewrite local_index by done.
    rewrite nthZ_fetch by (try apply digit_range; done). cbn [mbind option_bind].
    destruct (IH fuel (nthZ Null es (digit h i))) as (e' & r & -> & Hw' & Hu);
      [by apply Forall_nthZ|done|lia|lia|]. cbn [mbind option_bind].
    do 2 eexists. split; [done|]. split; [|by apply updated_node].
    pose proof (digit_range h i).
    assert (0 <= (if v =? 0 then Z.land m (Z.lnot (Z.shiftl 1 (digit h i))) else m) < 2 ^ 64).
    { case_if; [by apply land_range|done]. }
    apply wf_node; try done. destruct r; [|done].
    apply lor_range; [lia|done|by apply bit_range].
Qed.

Lemma set_walk_shift fuel e a b i v :
  e <> Null -> set_walk fuel e a i v = set_walk fuel e b i v.
Proof. intros. destruct fuel; [done|]. by destruct e. Qed.

Lemma set_walk_node fuel h e a i v e' old r :
  wf (S h) e -> e <> Null -> set_walk fuel e a i v = Some (e', old, r) -> e' <> Null.
Proof.
  intros Hw He H. destruct fuel; [done|]. destruct e as [|?|s m es]; [done..|].
  simpl in H. destruct (fetch _ _); [|done]. simpl in H.
  destruct (set_walk _ _ _ _ _) as [[[] ]|]; [|done]. by simplify_eq/=.
Qed.

#[local] Arguments get_walk : simpl never.
#[local] Arguments set_walk : simpl never.
#[local] Arguments set_fill : simpl never.
#[local] Arguments store : simpl never.

(** A whole array: a tree of at most ten levels. *)
Definition ok (h : nat) (x : xarray) : Prop :=
  wf h (root x) /\ (h <= 10)%nat /\ (root x = Null -> h = O).

(** The value at an index, 0 outside of the tree. *)
Definition contents (h : nat) (x : xarray) (i : Z) : Z :=
  if i <? W h then at_ h (root x) i else 0.

Lemma shl1_W h : (h <= 10)%nat -> shl1 (6 * Z.of_nat h) = Some (W h).
Proof.
  intros. unfold shl1, W. rewrite (proj2 (Z.ltb_lt _ _)) by lia.
  by rewrite Z.shiftl_1_l.
Qed.

Lemma in_bound_spec h x i : ok h x -> xarray_is_in_bound (root x) i = Some (i <? W h).
Proof.
  intros (Hw & Hh & Hn). destruct (root x) as [|v|s m es]; destruct h as [|h]; try done.
  - by specialize (Hn eq_refl).
  - destruct Hw as (-> & _). cbn [xarray_is_in_bound].
    replace (6 * Z.of_nat h + XARRAY_SHIFT_BITS) with (6 * Z.of_nat (S h))
      by (unfold XARRAY_SHIFT_BITS; lia).
    by rewrite shl1_W.
Qed.

Lemma raw_get_spec h x i : ok h x -> 0 <= i -> xarray_raw_get x i = Some (contents h x i).
Proof.
  intros Hok Hi. unfold xarray_raw_get, contents. rewrite (in_bound_spec h) by done. simpl.
  destruct (i <? W h); [|done]. simpl. destruct Hok as (? & ? & _). apply get_walk_spec; [done..|lia].
Qed.

Lemma target_shift_spec k fuel i :
  0 <= i < 2 ^ 60 -> (k <= 10)%nat -> (10 - k < fuel)%nat ->
  exists H, (k <= H <= 10)%nat /\ i < W H /\
    target_shift_loop fuel (6 * Z.of_nat k) i = Some (6 * Z.of_nat H).
Proof.
  intros Hi. revert k. induction fuel as [|fuel IH]; intros k Hk Hf; [lia|].
  cbn [target_shift_loop]. rewrite shl1_W by done. cbn [mbind option_bind].
  destruct (i >=? W k) eqn:E.
  - assert (W k <= i) by lia.
    assert (k <> 10%nat). { intros ->. change (W 10) with (2 ^ 60) in *. lia. }
    destruct (IH (S k)) as (H' & ? & ? & E'); [lia|lia|].
    exists H'. split; [lia|]. split; [done|]. rewrite <- E'. f_equal.
    unfold XARRAY_SHIFT_BITS. lia.
  - exists k. split; [lia|]. split; [lia|done].
Qed.

(** A root above [e] holds what [e] held and nothing else. *)
Lemma reroot_spec h e m :
  wf h e -> 0 <= m < 2 ^ 64 ->
  let e' := Node (6 * Z.of_nat h) m (store no_entries 0 e) in
  wf (S h) e' /\
  forall j, 0 <= j < W (S h) -> at_ (S h) e' j = if j <? W h then at_ h e j else 0.
Proof.
  intros Hw Hm e'. destruct (no_entries_wf h) as (Hl & Hf). split; [by apply wf_node|].
  intros j Hj. cbn [at_ e']. pose proof (digit_range h j).
  unfold e'. cbn [at_]. rewrite nthZ_store by (done || lia).
  assert (Hd : j = digit h j * W h + j mod W h).
  { rewrite <- digit_split by lia. symmetry. by apply Z.mod_small. }
  pose proof (Z.mod_pos_bound j (W h) (W_pos h)).
  destruct (digit h j =? 0) eqn:E; zbool.
  - rewrite (proj2 (Z.ltb_lt _ _)); [done|]. rewrite E in Hd. lia.
  - rewrite (proj2 (Z.ltb_ge _ _)) by nia. by rewrite nthZ_no_entries, at_Null.
Qed.

Lemma W_mono h H : (h <= H)%nat -> W h <= W H.
Proof. intros. apply Z.pow_le_mono_r; lia. Qed.

Lemma grow_loop_spec n h fuel e full :
  wf h e -> (n < fuel)%nat ->
  exists e', grow_loop fuel (6 * Z.of_nat h) (6 * Z.of_nat (h + n)) e full = Some e'
    /\ wf (h + n) e' /\ ((0 < n)%nat -> e' <> Null)
    /\ forall j, 0 <= j < W (h + n) -> at_ (h + n) e' j = if j <? W h then at_ h e j else 0.
Proof.
  revert h fuel e full. induction n as [|n IH]; intros h fuel e full Hw Hf;
    (destruct fuel as [|fuel]; [lia|]).
  - exists e. rewrite Nat.add_0_r. cbn [grow_loop]. rewrite Z.ltb_irrefl.
    split; [done|]. split; [done|]. split; [lia|]. intros j Hj. by rewrite (proj2 (Z.ltb_lt _ _)) by lia.
  - cbn [grow_loop]. rewrite (proj2 (Z.ltb_lt _ _)) by lia.
    replace (6 * Z.of_nat h + XARRAY_SHIFT_BITS) with (6 * Z.of_nat (S h))
      by (unfold XARRAY_SHIFT_BITS; lia).
    destruct (reroot_spec h e (if full then 1 else 0)) as (Hw' & Ha);
      [done|by destruct full|].
    destruct (IH (S h) fuel _ false Hw') as (e' & E & Hw2 & Hn & Ha2); [lia|].
    replace (h + S n)%nat with (S h + n)%nat by lia. exists e'. split; [done|]. split; [done|].
    split.
    + intros _. destruct n; [|apply Hn; lia].
      destruct fuel as [|fuel]; [lia|]. cbn [grow_loop] in E. rewrite Nat.add_0_r in E.
      rewrite Z.ltb_irrefl in E. by simplify_eq.
    + intros j Hj. rewrite Ha2 by done. case_if.
      * by rewrite Ha by lia.
      * rewrite (proj2 (Z.ltb_ge _ _)); [done|]. pose proof (W_mono h (S h)). lia.
Qed.

Lemma grow_spec h x i :
  ok h x -> W h <= i < 2 ^ 60 ->
  exists e' H, grow (root x) i = Some e' /\ ok H (mk_xarray e') /\ i < W H /\ (h <= H)%nat /\
    forall j, 0 <= j -> contents H (mk_xarray e') j = contents h x j.
Proof.
  intros (Hw & Hh & Hn) Hi. pose proof (W_pos h).
  destruct (target_shift_spec 0 12 i) as (H' & HH & HiH & E); [lia..|].
  assert (h < H')%nat.
  { destruct (decide (h < H')%nat); [done|]. pose proof (W_mono H' h). lia. }
  destruct (grow_loop_spec (H' - h) h 12 (root x)
    (match root x with Null => false | Value _ => true | Node _ m _ => m =? UINT64_MAX end))
    as (e' & Eg & Hw' & Hnn & Ha); [done|lia|].
  replace (h + (H' - h))%nat with H' in * by lia.
  exists e', H'. split_and!; try done; try lia.
  - unfold grow. change (6 * Z.of_nat 0) with 0 in E. rewrite E.
    assert (Hs : (match root x with Null => (0, false) | Value _ => (0, true)
        | Node shift full_mask _ => (shift + XARRAY_SHIFT_BITS, full_mask =? UINT64_MAX) end) =
      (6 * Z.of_nat h, match root x with Null => false | Value _ => true
        | Node _ m _ => m =? UINT64_MAX end)).
    { destruct (root x) as [|v|s m es]; destruct h; try done; [by specialize (Hn eq_refl)|].
      destruct Hw as (-> & _). f_equal. unfold XARRAY_SHIFT_BITS. lia. }
    rewrite Hs. cbn [mbind option_bind]. rewrite (proj2 (Z.ltb_lt _ _)) by lia. exact Eg.
  - split; [done|]. split; [lia|]. simpl. intros En. exfalso. apply Hnn; [lia|done].
  - intros j Hj. unfold contents. simpl. destruct (j <? W H') eqn:?; zbool.
    + by rewrite Ha by lia.
    + rewrite (proj2 (Z.ltb_ge _ _)); [done|]. pose proof (W_mono h H'). lia.
Qed.

Lemma raw_set_in_bound h x i v :
  ok h x -> 0 <= i < W h ->
  exists e' r, set_walk 13 (root x) 0 i v = Some (e', contents h x i, r)
    /\ ok h (mk_xarray e')
    /\ forall j, 0 <= j -> contents h (mk_xarray e') j = if j =? i then v else contents h x j.
Proof.
  intros (Hw & Hh & Hn) Hi.
  destruct (set_walk_spec h 13 (root x) i v) as (e' & r & E & Hw' & Hu); [done|lia..|].
  exists e', r. split.
  { unfold contents. rewrite (proj2 (Z.ltb_lt _ _)) by lia.
    destruct (decide (root x = Null)) as [En|En].
    - rewrite (Hn En) in E |- *. exact E.
    - by rewrite (set_walk_shift _ _ _ (6 * Z.of_nat h)). }
  split.
  - split; [done|]. split; [done|]. simpl. intros ->. destruct h; [done|].
    destruct (decide (root x = Null)) as [En|En]; [by apply Hn|].
    by destruct (set_walk_node _ _ _ _ _ _ _ _ _ Hw En E).
  - intros j Hj. unfold contents. simpl. case_if.
    + rewrite Hu by done. rewrite !Z.mod_small by lia. case_decide; case_if; lia || done.
    + rewrite (proj2 (Z.eqb_neq _ _)); [done|lia].
Qed.

Lemma raw_set_spec h x i v :
  ok h x -> 0 <= i < 2 ^ 60 -> Z.land v 1 = 0 ->
  exists x' h', xarray_raw_set x i v = Some (x', contents h x i) /\ ok h' x'
    /\ forall j, 0 <= j -> contents h' x' j = if j =? i then v else contents h x j.
Proof.
  intros Hok Hi Hv. unfold xarray_raw_set. rewrite Hv, (in_bound_spec h) by done. simpl.
  destruct (i <? W h) eqn:Hb; zbool; simpl.
  - destruct (raw_set_in_bound h x i v) as (e' & r & E & ? & ?); [done|lia|].
    rewrite E. simpl. eauto.
  - assert (Hc : contents h x i = 0).
    { unfold contents. by rewrite (proj2 (Z.ltb_ge _ _)). }
    destruct (v =? 0) eqn:Hz; zbool.
    + exists x, h. rewrite Hc. split; [done|]. split; [done|]. intros j Hj. case_if; [|done].
      subst. done.
    + destruct (grow_spec h x i) as (e1 & H' & -> & Hok' & HiH & _ & Hc'); [done|lia|]. simpl.
      destruct (raw_set_in_bound H' (mk_xarray e1) i v) as (e' & r & E & ? & Hs); [done|lia|].
      simpl in E. rewrite E. simpl. rewrite Hc' by lia. do 2 eexists. split; [done|].
      split; [done|]. intros j Hj. rewrite Hs by done. case_if; [done|]. by apply Hc'.
Qed.

(** ** Searches *)

(** [r] is the first value of a tree from the index [lo] on. *)
Definition found (h : nat) (e : entry) (lo : Z) (r : option (Z * Z)) : Prop :=
  match r with
  | Some (v, k) => lo <= k < W h /\ v = at_ h e k /\ v <> 0 /\ forall j, lo <= j < k -> at_ h e j = 0
  | None => forall j, lo <= j < W h -> at_ h e j = 0
  end.

Lemma found_skip h e lo lo' r :
  lo <= lo' -> (forall j, lo <= j < lo' -> at_ h e j = 0) -> found h e lo' r -> found h e lo r.
Proof.
  intros Hle Hz. destruct r as [[v k]|]; simpl.
  - intros (? & ? & ? & Hj). split_and!; try done; try lia. intros j Hj'.
    destruct (decide (j < lo')); [apply Hz; lia|apply Hj; lia].
  - intros Hj j Hj'. destruct (decide (j < lo')); [apply Hz; lia|apply Hj; lia].
Qed.

(** The indices under one entry of a node. *)
Lemma under_entry h s m es d j :
  0 <= d < 64 -> d * W h <= j < (d + 1) * W h ->
  at_ (S h) (Node s m es) j = at_ h (nthZ Null es d) (j - d * W h).
Proof.
  intros Hd Hj. rewrite <- (at_join h s m es d (j - d * W h)) by lia. f_equal. lia.
Qed.

(** What a node knows from the search of its entry [d], and from the entries after. *)
Lemma found_entry h s m es d lo r :
  0 <= d < 64 -> 0 <= lo < W h -> found h (nthZ Null es d) lo r ->
  match r with
  | Some (v, k) => found (S h) (Node s m es) (d * W h + lo) (Some (v, d * W h + k))
  | None => forall r', found (S h) (Node s m es) ((d + 1) * W h) r' ->
              found (S h) (Node s m es) (d * W h + lo) r'
  end.
Proof.
  intros Hd Hlo. pose proof (W_S h). destruct r as [[v k]|]; unfold found.
  - intros (Hk & Hv & Hv0 & Hj). split; [nia|]. split; [|split; [done|]].
    + by rewrite at_join by lia.
    + intros j Hj'. rewrite (under_entry h s m es d) by lia. apply Hj. lia.
  - intros Hj r' Hr. eapply found_skip; [|intros j Hj'|exact Hr]; [nia|].
    rewrite (under_entry h s m es d) by lia. apply Hj. lia.
Qed.

Lemma dropZ_cons (es : list entry) i :
  length es = 64%nat -> 0 <= i < 64 -> dropZ i es = nthZ Null es i :: dropZ (i + 1) es.
Proof.
  intros Hl Hi. unfold dropZ. replace (Z.to_nat (i + 1)) with (S (Z.to_nat i)) by lia.
  pose proof (nthZ_fetch es i Hl Hi) as E. unfold fetch in E. by apply drop_S.
Qed.

Lemma dropZ_all (es : list entry) i : length es = 64%nat -> 64 <= i -> dropZ i es = [].
Proof. intros. apply drop_ge. lia. Qed.

(** [index += i << shift] *)
Lemma add_digit h i k :
  (h < 10)%nat -> 0 <= i < 64 -> 0 <= k < W h ->
  k +! u64 (Z.shiftl i (6 * Z.of_nat h)) = i * W h + k.
Proof.
  intros. pose proof (W_le (S h)). pose proof (W_S h).
  rewrite Z.shiftl_mul_pow2 by lia. fold (W h).
  rewrite (u64_small (i * W h)) by (unfold is_u64; nia). rewrite u64_small by (unfold is_u64; nia).
  lia.
Qed.

Lemma find_spec h fuel e min :
  wf h e -> 0 <= min -> (h < fuel)%nat -> (h <= 10)%nat ->
  exists r, xarray_entry_find_non_null fuel e min = Some r /\ found h e (min mod W h) r.
Proof.
  revert fuel e min. induction h as [|h IH]; intros fuel e min Hw Hmin Hf Hh;
    (destruct fuel as [|fuel]; [lia|]); destruct e as [|v|s m es]; try done.
  1, 3: eexists; split; [done|]; intros j Hj; apply at_Null.
  - eexists. split; [done|]. simpl. rewrite W_0_mod. split_and!; try done; lia.
  - destruct Hw as (-> & Hm & Hlen & Hes). cbn [xarray_entry_find_non_null].
    rewrite local_index by done. set (start := digit h min).
    pose proof (digit_range h min) as Hs. fold start in Hs. pose proof (W_pos h).
    rewrite digit_split by done. fold start.
    assert (Hl : forall n i, i = 64 - Z.of_nat n -> start <= i ->
      exists r, find_loop (xarray_entry_find_non_null fuel) (dropZ i es) i start min
        (6 * Z.of_nat h) = Some r /\
        found (S h) (Node (6 * Z.of_nat h) m es)
          (i * W h + if i =? start then min mod W h else 0) r).
    { induction n as [|n IHn]; intros i Hi Hsi.
      - rewrite dropZ_all by (done || lia). eexists. split; [done|].
        rewrite (proj2 (Z.eqb_neq _ _)) by lia. intros j Hj. rewrite W_S in Hj. lia.
      - rewrite dropZ_cons by (done || lia). cbn [find_loop].
        set (mi := if i =? start then min else 0).
        assert (Hmi : (if i =? start then min mod W h else 0) = mi mod W h).
        { unfold mi. case_if; [done|]. by rewrite Z.mod_0_l by lia. }
        assert (0 <= mi) by (unfold mi; case_if; lia).
        pose proof (Z.mod_pos_bound mi (W h) ltac:(lia)). rewrite Hmi.
        destruct (IH fuel (nthZ Null es i) mi) as (r & E & Hr); [by apply Forall_nthZ|lia..|].
        rewrite E. cbn [mbind option_bind].
        pose proof (found_entry h (6 * Z.of_nat h) m es i (mi mod W h) r ltac:(lia) ltac:(lia) Hr) as He.
        destruct r as [[v k]|].
        + eexists. split; [done|]. destruct Hr as (? & _). rewrite add_digit by lia. exact He.
        + destruct (IHn (i + 1)) as (r & E' & Hr'); [lia..|]. exists r. split; [exact E'|].
          apply He. rewrite (proj2 (Z.eqb_neq _ _)), Z.add_0_r in Hr' by lia. exact Hr'. }
    destruct (Hl (Z.to_nat (64 - start)) start) as (r & E & Hr); [lia..|].
    rewrite Z.eqb_refl in Hr. eauto.
Qed.

(** ** Allocation from index 0 *)

Definition full (h : nat) (e : entry) : Prop := forall j, 0 <= j < W h -> at_ h e j <> 0.

(** A bit of a mask is only set for an entry with no free index. *)
Fixpoint masks_ok (h : nat) (e : entry) : Prop :=
  match h, e with
  | S h, Node _ m es =>
      (forall d, 0 <= d < 64 -> Z.testbit m d = true -> full h (nthZ Null es d)) /\
      Forall (masks_ok h) es
  | _, _ => True
  end.

Lemma masks_ok_Null h : masks_ok h Null.
Proof. by destruct h. Qed.

Lemma masks_ok_nthZ h es d : Forall (masks_ok h) es -> masks_ok h (nthZ Null es d).
Proof.
  intros H. unfold nthZ. rewrite nth_lookup. destruct (es !! _) eqn:E; [|apply masks_ok_Null].
  simpl. by eapply Forall_lookup.
Qed.

(** A node is full when its entries are. *)
Lemma full_node h s m es :
  (forall d, 0 <= d < 64 -> full h (nthZ Null es d)) -> full (S h) (Node s m es).
Proof.
  intros H j Hj. cbn [at_]. pose proof (W_pos h).
  rewrite (at_mod h _ j (j mod W h)); [|lia|apply Z.mod_pos_bound; lia|].
  - apply H; [apply digit_range|apply Z.mod_pos_bound; lia].
  - by rewrite Z.mod_mod by lia.
Qed.

Lemma allocate_fill_spec h fuel v :
  v <> 0 -> (h < fuel)%nat ->
  exists e', allocate_fill fuel (6 * Z.of_nat h) 0 v = Some e' /\ wf h e' /\ masks_ok h e'
    /\ updated h Null e' 0 v.
Proof.
  intros Hv. revert fuel. induction h as [|h IH]; intros fuel Hf; (destruct fuel as [|fuel]; [lia|]).
  - eexists. split; [done|]. split; [apply (from_value_spec v 0)|].
    split; [done|apply updated_value].
  - destruct (IH fuel) as (e' & He & Hw & Hm & Hu); [lia|]. cbn [allocate_fill].
    rewrite (proj2 (Z.geb_le _ _)) by (unfold XARRAY_SHIFT_BITS; lia).
    replace (6 * Z.of_nat (S h) - XARRAY_SHIFT_BITS) with (6 * Z.of_nat h)
      by (unfold XARRAY_SHIFT_BITS; lia).
    rewrite He, local_index by done. simpl. eexists. split; [done|].
    destruct (no_entries_wf h). split; [by apply wf_node|]. split.
    + split; [intros d _; by rewrite Z.bits_0|]. apply Forall_store; [|done].
      apply Forall_replicate, masks_ok_Null.
    + intros j Hj. rewrite (updated_node h (6 * Z.of_nat h) 0 _ _ _ 0 v) by
        (try done; by rewrite nthZ_no_entries).
      case_decide; [done|]. cbn [at_]. by rewrite nthZ_no_entries, at_Null.
Qed.

(** What an allocation gives: the first free index, now holding the value. *)
Definition allocated (h : nat) (e : entry) (v : Z) (r : option (entry * Z * bool)) : Prop :=
  match r with
  | None => full h e
  | Some (e', k, f) =>
      0 <= k < W h /\ at_ h e k = 0 /\ (forall j, 0 <= j < k -> at_ h e j <> 0) /\
      wf h e' /\ masks_ok h e' /\ updated h e e' k v /\ (f = true -> full h e')
  end.

(** The node after the allocation in its entry [d], all entries before being full. *)
Lemma allocated_node h m es d e' k f v :
  0 <= m < 2 ^ 64 -> length es = 64%nat -> Forall (wf h) es -> 0 <= d < 64 ->
  masks_ok (S h) (Node (6 * Z.of_nat h) m es) ->
  (forall d', 0 <= d' < d -> full h (nthZ Null es d')) ->
  allocated h (nthZ Null es d) v (Some (e', k, f)) ->
  let m' := if f then Z.lor m (Z.shiftl 1 d) else m in
  allocated (S h) (Node (6 * Z.of_nat h) m es) v
    (Some (Node (6 * Z.of_nat h) m' (store es d e'), d * W h + k, m' =? UINT64_MAX)).
Proof.
  intros Hm Hlen Hes Hd (Hmk & Hmks) Hbefore (Hk & Hz & Hj & Hw & Hmo & Hu & Hf) m'.
  pose proof (W_S h). pose proof (W_pos h). destruct (digit_join h d k Hd Hk) as (Ed & Ek).
  assert (Hm' : 0 <= m' < 2 ^ 64).
  { unfold m'. destruct f; [|done]. apply lor_range; [lia|done|by apply bit_range]. }
  assert (Hbits : forall d', 0 <= d' < 64 -> Z.testbit m' d' = true ->
      full h (nthZ Null (store es d e') d')).
  { intros d' Hd' Hb. rewrite nthZ_store by done. case_if.
    - subst d'. unfold m' in Hb. destruct f; [by apply Hf|]. exfalso.
      by apply (Hmk d Hd Hb k).
    - apply Hmk; [done|]. unfold m' in Hb. destruct f; [|done].
      rewrite Z.lor_spec, testbit_bit in Hb by lia.
      rewrite (proj2 (Z.eqb_neq _ _)), orb_false_r in Hb by done. done. }
  split; [nia|]. split; [by rewrite at_join|]. split; [|split; [by apply wf_node|split; [|split]]].
  - intros j Hj'. destruct (decide (d * W h <= j)).
    + rewrite (under_entry h _ _ _ d) by lia. apply Hj. lia.
    + cbn [at_]. rewrite (at_mod h _ j (j mod W h)); [|lia|apply Z.mod_pos_bound; lia|].
      * apply Hbefore; [|apply Z.mod_pos_bound; lia]. split; [apply digit_range|].
        pose proof (Z.div_mod j (W h) ltac:(lia)). unfold digit.
        pose proof (Z.mod_pos_bound j (W h) ltac:(lia)).
        assert (j / W h < d) by nia. assert (0 <= j / W h) by (apply Z.div_pos; lia).
        rewrite Z.mod_small; lia.
      * by rewrite Z.mod_mod by lia.
  - split; [done|]. by apply Forall_store.
  - replace (store es d e') with (store es (digit h (d * W h + k)) e') by (by rewrite Ed).
    apply updated_node; [done|nia|]. rewrite Ed.
    intros j Hj'. rewrite Hu by done. rewrite Ek, (Z.mod_small k) by done. done.
  - intros E. zbool. apply full_node. intros d' Hd'. apply Hbits; [done|].
    rewrite E. unfold UINT64_MAX. by apply testbit_ones64.
Qed.

Lemma allocate_null h fuel v :
  v <> 0 -> (h <= 10)%nat ->
  exists r, xarray_entry_allocate (S fuel) Null 0 (6 * Z.of_nat h) v = Some r
    /\ allocated h Null v r.
Proof.
  intros Hv Hh. cbn [xarray_entry_allocate]. pose proof (W_pos h).
  destruct (allocate_fill_spec h 12 v) as (e' & E & ? & ? & Hu); [done|lia|].
  rewrite E. eexists. split; [done|]. split; [lia|]. split; [apply at_Null|].
  split; [intros; lia|]. split; [done|]. split; [done|]. split; [done|].
  intros Ef j Hj. unfold XARRAY_SHIFT_BITS in Ef. assert (h = O) as -> by lia.
  rewrite Hu by lia. by rewrite !W_0_mod.
Qed.

Lemma allocate_spec h fuel e v :
  wf h e -> masks_ok h e -> v <> 0 -> (h < fuel)%nat -> (h <= 10)%nat ->
  exists r, xarray_entry_allocate fuel e 0 (6 * Z.of_nat h) v = Some r /\ allocated h e v r.
Proof.
  intros Hw Hm Hv. revert fuel e Hw Hm. induction h as [|h IH]; intros fuel e Hw Hm Hf Hh;
    (destruct fuel as [|fuel]; [lia|]); destruct e as [|v0|s m es]; try done.
  1, 3: apply allocate_null; (done || lia).
  - eexists. split; [done|]. intros j Hj. done.
  - destruct Hw as (-> & Hm1 & Hlen & Hes). cbn [xarray_entry_allocate].
    destruct (m =? UINT64_MAX) eqn:E; zbool.
    { eexists. split; [done|]. apply full_node. intros d Hd. destruct Hm as (Hm & _).
      apply Hm; [done|]. subst m. unfold UINT64_MAX. by apply testbit_ones64. }
    rewrite local_index by done. replace (digit h 0) with 0 by (unfold digit; rewrite Z.div_0_l by (pose proof (W_pos h); lia); done).
    assert (Hl : forall n i, i = 64 - Z.of_nat n -> 0 <= i ->
      (forall d', 0 <= d' < i -> full h (nthZ Null es d')) ->
      exists r, (ret ← allocate_loop (fun e min => xarray_entry_allocate fuel e min (6 * Z.of_nat h) v)
          es (dropZ i es) i 0 0 (6 * Z.of_nat h) m;
          match ret with
          | Some (entries, index, full_mask) =>
              Some (Some (Node (6 * Z.of_nat h) full_mask entries, index, full_mask =? UINT64_MAX))
          | None => Some None
          end) = Some r /\ allocated (S h) (Node (6 * Z.of_nat h) m es) v r).
    { induction n as [|n IHn]; intros i Hi Hi0 Hb.
      - rewrite dropZ_all by (done || lia). eexists. split; [done|].
        apply full_node. intros d Hd. apply Hb. lia.
      - rewrite dropZ_cons by (done || lia). cbn [allocate_loop]. rewrite has_bit by done.
        assert (Hnext : full h (nthZ Null es i) ->
          forall d', 0 <= d' < i + 1 -> full h (nthZ Null es d')).
        { intros Hfi d' Hd'. destruct (decide (d' = i)) as [->|]; [done|apply Hb; lia]. }
        destruct (Z.testbit m i) eqn:Hbit.
        + apply IHn; [lia..|]. apply Hnext. destruct Hm as (Hm & _). apply Hm; [lia|done].
        + replace (if i =? 0 then 0 else 0) with 0 by (by case_if).
          destruct (IH fuel (nthZ Null es i)) as (r & Er & Hr);
            [by apply Forall_nthZ|apply masks_ok_nthZ, Hm|lia..|].
          rewrite Er. cbn [mbind option_bind]. destruct r as [[[e' k] f]|].
          * eexists. split; [done|]. pose proof Hr as (Hk & _).
            rewrite add_digit by lia. apply allocated_node; try done. lia.
          * apply IHn; [lia..|]. by apply Hnext. }
    apply (Hl 64%nat 0); [done..|]. lia.
Qed.

(** The root that is put above a full tree. *)
Lemma allocate_reroot h x v (junk : bool) e' :
  ok h x -> (h <= 9)%nat -> masks_ok h (root x) -> full h (root x) ->
  wf h e' -> masks_ok h e' -> updated h Null e' 0 v ->
  let x' := mk_xarray (Node (6 * Z.of_nat h) (if junk then 1 else 0)
                         (store (store no_entries 0 (root x)) 1 e')) in
  ok (S h) x' /\ masks_ok (S h) (root x') /\
  forall j, 0 <= j -> contents (S h) x' j = if j =? W h then v else contents h x j.
Proof.
  intros (Hw & Hh & Hn) Hh9 Hm Hfull Hw' Hm' Hu x'. pose proof (W_pos h). pose proof (W_S h).
  destruct (no_entries_wf h) as (Hl & Hes).
  assert (Hl1 : length (store no_entries 0 (root x)) = 64%nat) by (by rewrite length_store).
  assert (Hnth : forall d, 0 <= d < 64 ->
    nthZ Null (store (store no_entries 0 (root x)) 1 e') d =
    if d =? 1 then e' else if d =? 0 then root x else Null).
  { intros d Hd. rewrite !nthZ_store by (done || lia). repeat case_if; try done.
    apply nthZ_no_entries. }
  split; [|split].
  - split; [|split; [lia|done]]. apply wf_node; [by destruct junk|done| |done].
    by apply Forall_store.
  - split.
    + intros d Hd Hb. rewrite Hnth by done.
      assert (d = 0) as ->; [|done]. destruct junk; [|by rewrite Z.bits_0 in Hb].
      destruct (decide (d = 0)); [done|].
      change 1 with (Z.shiftl 1 0) in Hb. rewrite testbit_bit in Hb by lia. by zbool.
    + apply Forall_store; [|done]. apply Forall_store; [|done].
      apply Forall_replicate, masks_ok_Null.
  - intros j Hj. unfold contents. simpl root.
    destruct (j <? W (S h)) eqn:Hjs; zbool.
    2:{ rewrite (proj2 (Z.eqb_neq _ _)), (proj2 (Z.ltb_ge _ _)) by lia. done. }
    assert (Hdj : j = digit h j * W h + j mod W h).
    { rewrite <- digit_split by lia. symmetry. apply Z.mod_small. lia. }
    pose proof (digit_range h j). pose proof (Z.mod_pos_bound j (W h) ltac:(lia)).
    unfold x'. cbn [at_ root]. rewrite Hnth by done.
    destruct (digit h j =? 1) eqn:E1; zbool; [|destruct (digit h j =? 0) eqn:E0; zbool].
    + rewrite Hu by done. rewrite Z.mod_0_l, (proj2 (Z.ltb_ge _ _)) by lia.
      case_decide; case_if; try done; try lia. apply at_Null.
    + rewrite (proj2 (Z.eqb_neq _ _)), (proj2 (Z.ltb_lt _ _)) by lia. done.
    + rewrite (proj2 (Z.eqb_neq _ _)), (proj2 (Z.ltb_ge _ _)) by nia. apply at_Null.
Qed.

Lemma allocate_shift fuel e min a b v :
  e <> Null -> xarray_entry_allocate fuel e min a v = xarray_entry_allocate fuel e min b v.
Proof. intros. destruct fuel; [done|]. by destruct e. Qed.

Lemma allocate_root h x v :
  ok h x -> masks_ok h (root x) -> v <> 0 ->
  exists r, xarray_entry_allocate 12 (root x) 0 0 v = Some r /\ allocated h (root x) v r.
Proof.
  intros (Hw & Hh & Hn) Hm Hv.
  destruct (allocate_spec h 12 (root x) v) as (r & E & Hr); [done..|lia|lia|].
  exists r. split; [|done]. destruct (decide (root x = Null)) as [En|En].
  - rewrite (Hn En) in E. exact E.
  - by rewrite (allocate_shift _ _ _ _ (6 * Z.of_nat h)).
Qed.

(** Without and with a new root, in terms of the contents. *)
Lemma allocate_inside h x v e' k f :
  ok h x -> v <> 0 -> allocated h (root x) v (Some (e', k, f)) ->
  ok h (mk_xarray e') /\ contents h x k = 0 /\ (forall j, 0 <= j < k -> contents h x j <> 0) /\
  forall j, 0 <= j -> contents h (mk_xarray e') j = if j =? k then v else contents h x j.
Proof.
  intros (Hw & Hh & Hn) Hv (Hk & Hz & Hj & Hw' & _ & Hu & _). unfold contents. simpl. split_and!.
  - split; [done|]. split; [done|]. simpl. intros ->. specialize (Hu k ltac:(lia)).
    rewrite at_Null, decide_True in Hu by done. congruence.
  - by rewrite (proj2 (Z.ltb_lt _ _)) by lia.
  - intros j Hj'. rewrite (proj2 (Z.ltb_lt _ _)) by lia. by apply Hj.
  - intros j Hj'. case_if.
    + rewrite Hu by lia. rewrite !Z.mod_small by lia. case_decide; case_if; lia || done.
    + by rewrite (proj2 (Z.eqb_neq _ _)) by lia.
Qed.

Lemma allocate_contents junk h x v :
  ok h x -> (h <= 9)%nat -> masks_ok h (root x) -> v <> 0 ->
  exists x' h' i, xarray_raw_allocate_from junk x 0 v = Some (x', i)
  /\ 0 <= i /\ ok h' x' /\ masks_ok h' (root x') /\ contents h x i = 0
  /\ (forall j, 0 <= j < i -> contents h x j <> 0)
  /\ forall j, 0 <= j -> contents h' x' j = if j =? i then v else contents h x j.
Proof.
  intros Hok Hh9 Hm Hv. unfold xarray_raw_allocate_from. rewrite (in_bound_spec h) by done.
  pose proof (W_pos h). rewrite (proj2 (Z.ltb_lt _ _)) by done. cbn [mbind option_bind negb].
  destruct (allocate_root h x v) as (r & Er & Hr); [done..|]. rewrite Er. cbn [mbind option_bind].
  destruct r as [[[e' k] f]|].
  - destruct (allocate_inside h x v e' k f) as (? & ? & ? & ?); [done..|].
    destruct Hr as (? & _ & _ & _ & ? & _). exists (mk_xarray e'), h, k. split_and!; try done; lia.
  - pose proof Hok as (Hw & Hh & Hn).
    assert (Hs : match root x with Node shift _ _ => shift + XARRAY_SHIFT_BITS | _ => 0 end
                 = 6 * Z.of_nat h).
    { destruct (root x) as [|?|s m es]; destruct h; try done.
      destruct Hw as (-> & _). unfold XARRAY_SHIFT_BITS. lia. }
    rewrite Hs. cbn [xarray_entry_allocate].
    destruct (allocate_fill_spec h 12 v) as (e' & Ee & Hw' & Hm' & Hu); [done|lia|].
    rewrite Ee. cbn [mbind option_bind]. rewrite shl1_W by done. cbn [mbind option_bind].
    pose proof (W_le h Hh). rewrite Z.add_0_l, u64_small by (unfold is_u64; lia).
    destruct (allocate_reroot h x v junk e') as (Hok' & Hmk & Hc); [done..|].
    eexists _, (S h), (W h). split; [done|]. split; [lia|]. split; [exact Hok'|].
    split; [exact Hmk|]. unfold contents at 1 2. rewrite Z.ltb_irrefl. split_and!; try done.
    intros j Hj. rewrite (proj2 (Z.ltb_lt _ _)) by lia. by apply Hr.
Qed.

(** ** The properties of the arrays *)

(** An array is a map from indices to values.  For every well-formed array
    and every index below 2^60, [xarray_raw_set] of an even value ends, returns the
    value the index held and gives a well-formed array in which the index holds the
    new value and every other index what it held before; and [xarray_raw_cmpxchg]
    does the same when the index holds the expected value and changes nothing, but
    returns the value held, when it does not. *)
Theorem xarray_set_get h x i v :
  ok h x -> 0 <= i < 2 ^ 60 -> Z.land v 1 = 0 ->
  exists old x' h', xarray_raw_get x i = Some old
  /\ xarray_raw_set x i v = Some (x', old) /\ ok h' x'
  /\ xarray_raw_get x' i = Some v
  /\ (forall j, 0 <= j -> j <> i -> xarray_raw_get x' j = xarray_raw_get x j)
  /\ (forall expected, xarray_raw_cmpxchg x i expected v =
        if old =? expected then Some (x', old) else Some (x, old)).
Proof.
  intros Hok Hi Hv. destruct (raw_set_spec h x i v) as (x' & h' & E & Hok' & Hc); [done..|].
  exists (contents h x i), x', h'. rewrite (raw_get_spec h) by (done || lia).
  rewrite (raw_get_spec h') by (done || lia). rewrite Hc, Z.eqb_refl by lia.
  split_and!; try done.
  - intros j Hj Hji. rewrite (raw_get_spec h'), (raw_get_spec h), Hc by (done || lia).
    by rewrite (proj2 (Z.eqb_neq _ _)).
  - intros expected. unfold xarray_raw_cmpxchg. rewrite Hv, (raw_get_spec h) by (done || lia).
    simpl. by destruct (contents h x i =? expected).
Qed.

(** [xarray_raw_first_from] returns the first value of a well-formed array at or
    after an index, with its index, and nothing exactly when there is none;
    [xarray_raw_first] does so from 0. *)
Theorem xarray_first_from_correct h x from :
  ok h x -> 0 <= from ->
  exists r, xarray_raw_first_from x from = Some r
  /\ match r with
     | Some (v, k) => from <= k /\ xarray_raw_get x k = Some v /\ v <> 0 /\
         forall j, from <= j < k -> xarray_raw_get x j = Some 0
     | None => forall j, from <= j -> xarray_raw_get x j = Some 0
     end
  /\ (from = 0 -> xarray_raw_first x = Some r).
Proof.
  intros Hok Hf. unfold xarray_raw_first_from, xarray_raw_first. rewrite (in_bound_spec h) by done.
  pose proof Hok as (Hw & Hh & _). pose proof (W_pos h).
  destruct (from <? W h) eqn:E; zbool; cbn [mbind option_bind negb].
  - destruct (find_spec h 12 (root x) from) as (r & Er & Hr); [done|lia..|].
    exists r. split; [done|]. rewrite Z.mod_small in Hr by lia. split.
    + destruct r as [[v k]|].
      * destruct Hr as (Hk & Hv & Hv0 & Hj). split; [lia|].
        rewrite (raw_get_spec h) by (done || lia). unfold contents.
        rewrite (proj2 (Z.ltb_lt _ _)) by lia. split; [by rewrite Hv|]. split; [done|].
        intros j Hj'. rewrite (raw_get_spec h) by (done || lia). unfold contents.
        rewrite (proj2 (Z.ltb_lt _ _)) by lia. by rewrite Hj by lia.
      * intros j Hj. rewrite (raw_get_spec h) by (done || lia). unfold contents.
        case_if; [|done]. by rewrite Hr by lia.
    + by intros ->.
  - exists None. split; [done|]. split; [|lia]. intros j Hj.
    rewrite (raw_get_spec h) by (done || lia). unfold contents.
    by rewrite (proj2 (Z.ltb_ge _ _)) by lia.
Qed.

(** [xarray_allocate] on a well-formed array whose masks only mark full
    subtrees: it ends, stores the value at the first index that holds none,
    returns that index, leaves every other index as it was, and the masks of the
    new array again only mark full subtrees, whatever the uninitialised variable
    [child_is_full] holds. *)
Theorem xarray_allocate_correct junk h x v :
  ok h x -> (h <= 9)%nat -> masks_ok h (root x) -> v <> 0 -> Z.land v 1 = 0 ->
  exists x' h' i, xarray_allocate junk x v = Some (x', i)
  /\ ok h' x' /\ masks_ok h' (root x')
  /\ xarray_raw_get x i = Some 0
  /\ (forall j, 0 <= j < i -> exists w, xarray_raw_get x j = Some w /\ w <> 0)
  /\ xarray_raw_get x' i = Some v
  /\ (forall j, 0 <= j -> j <> i -> xarray_raw_get x' j = xarray_raw_get x j).
Proof.
  intros Hok Hh9 Hm Hv He. unfold xarray_allocate, xarray_allocate_from. rewrite He.
  destruct (allocate_contents junk h x v) as (x' & h' & i & E & Hi & Hok' & Hm' & Hz & Hb & Hc);
    [done..|].
  exists x', h', i. split; [exact E|]. split; [done|]. split; [done|].
  rewrite (raw_get_spec h x), (raw_get_spec h' x'), Hc, Z.eqb_refl, Hz by done. split_and!; try done.
  - intros j Hj. rewrite (raw_get_spec h) by (done || lia). eexists. split; [done|]. by apply Hb.
  - intros j Hj Hji. rewrite (raw_get_spec h x), (raw_get_spec h' x'), Hc by done.
    by rewrite (proj2 (Z.eqb_neq _ _)).
Qed.

(** ** Concrete arrays *)

(** An array after writes to the empty one. *)
Fixpoint writes (x : xarray) (l : list (Z * Z)) : option xarray :=
  match l with
  | [] => Some x
  | (i, v) :: l => '(x, _) ← xarray_raw_set x i v; writes x l
  end.

(** [xarray_allocate_from] can return another index than the one it used.
    Where the entry found is null, the new subtree is filled along the bits of
    [start], but the index returned counts from the first index of the subtree:
    with values at 0 and 4095, allocating from 197 stores the value at 197 and
    returns 192, which is left empty. *)
Theorem xarray_allocate_from_wrong_index junk :
  exists x x', writes xarray_init [(0, 2); (4095, 4)] = Some x
  /\ xarray_allocate_from junk x 197 6 = Some (x', 192)
  /\ xarray_raw_get x' 197 = Some 6
  /\ xarray_raw_get x' 192 = Some 0.
Proof.
  do 2 eexists. split; [vm_compute; reflexivity|].
  split; [destruct junk; vm_compute; reflexivity|]. split; vm_compute; reflexivity.
Qed.

(** [xarray_raw_set] can mark a subtree that is nearly empty as full.  When it
    adds two levels of nodes it sets the bit of the new leaf in the mask of its
    parent, although the leaf holds one value: with values at 0 and 4096 the
    indices 4097 to 4159 are free, but an allocation from 4096 does not see them
    and gives 4160. *)
Theorem xarray_set_marks_empty_full junk :
  exists x x', writes xarray_init [(0, 2); (4096, 4)] = Some x
  /\ ~ masks_ok 3 (root x)
  /\ xarray_raw_get x 4097 = Some 0
  /\ xarray_allocate_from junk x 4096 6 = Some (x', 4160)
  /\ xarray_raw_get x' 4160 = Some 6.
Proof.
  do 2 eexists. split; [vm_compute; reflexivity|]. split.
  - intros (_ & Hes). apply Forall_lookup_1 with (i := 1%nat) (x := Node 6 1 (store no_entries 0
      (Node 0 1 (store no_entries 0 (Value 4))))) in Hes; [|vm_compute; reflexivity].
    destruct Hes as (Hm & _). apply (Hm 0 ltac:(lia) ltac:(vm_compute; reflexivity) 1).
    + split; vm_compute; congruence.
    + vm_compute. reflexivity.
  - split; [vm_compute; reflexivity|]. split; [destruct junk; vm_compute; reflexivity|].
    vm_compute. reflexivity.
Qed.

(** One value, at index 0. *)
Definition single : xarray := mk_xarray (Value 2).

Lemma single_ok : ok 0 single /\ masks_ok 0 (root single).
Proof. split; [|exact I]. split; [discriminate|]. split; [lia|discriminate]. Qed.

Lemma xarray_set_get_witness :
  exists x', xarray_raw_set single 70 8 = Some (x', 0) /\ xarray_raw_get x' 70 = Some 8
  /\ xarray_raw_get x' 0 = Some 2.
Proof.
  destruct (xarray_set_get 0 single 70 8) as (old & x' & h' & E1 & E2 & _ & E3 & E4 & _);
    [apply single_ok|lia|reflexivity|].
  vm_compute in E1. injection E1 as <-. exists x'. split; [exact E2|]. split; [exact E3|].
  rewrite E4 by lia. reflexivity.
Defined.

Lemma xarray_first_from_correct_witness :
  xarray_raw_first_from single 0 = Some (Some (2, 0)) /\
  xarray_raw_first_from single 1 = Some None /\ xarray_raw_get single 5 = Some 0.
Proof.
  destruct (xarray_first_from_correct 0 single 0) as (r & E & _ & _); [apply single_ok|lia|].
  destruct (xarray_first_from_correct 0 single 1) as (r' & E' & H & _); [apply single_ok|lia|].
  vm_compute in E, E'. injection E as <-. injection E' as <-.
  split; [reflexivity|]. split; [reflexivity|]. apply H. lia.
Defined.

Lemma xarray_allocate_correct_witness :
  exists x' i, xarray_allocate false single 4 = Some (x', i)
  /\ xarray_raw_get x' i = Some 4 /\ i = 1.
Proof.
  destruct (xarray_allocate_correct false 0 single 4) as (x' & h' & i & E & _ & _ & _ & _ & E' & _);
    [apply single_ok|lia|apply single_ok|lia|reflexivity|].
  exists x', i. split; [exact E|]. split; [exact E'|]. vm_compute in E. congruence.
Defined.

End XArray.
