(* ===== verification/Rman.v ===== *)
(** Resource managers (kernel/drivers/resource.c, kernel/include/drivers/resource.h):
    the allocator of ranges of IRQ lines, I/O ports and memory addresses to devices.

    A manager keeps a list of segments in increasing order; a segment is free or
    owned by one device.  The list nodes of the source are the elements of a
    sequence (the sequence level of [Lists]); a pointer to a segment in its list is
    the segment between the ones before it, in reverse, and the ones after it.
    Segments keep the address they were allocated at, since a resource points back
    to its segment.  What [slab_alloc] returns is an argument, [None] for null.  The
    mutex of the manager is held by every operation.  The abstract view of a manager
    is the function [owner] from addresses to owners; the theorems say what each
    operation does to it. *)

From S2P Require Import Prelude.

Module Rman.

Record rman_seg := mk_seg {
  seg_addr : Z;
  devnode : option Z;
  start : Z;
  size : Z;
}.

Record resource_request := mk_request {
  req_start : Z;
  req_end : Z;
  req_size : Z;
  req_align : Z;
  req_flags : Z;
}.

Record resource := mk_resource {
  res_private : Z;
  res_start : Z;
  res_size : Z;
  res_flags : Z;
  res_rid : Z;
}.

Record rman := mk_rman { segs : list rman_seg; type_ : Z }.

Definition RESOURCE_ANY_SIZE : Z := 0.
Definition RESOURCE_ANY_ALIGN : Z := 0.
Definition RID_NONE : Z := -1.

Definition rman_init (type : Z) : rman := mk_rman [] type.

Definition rman_seg_is_allocated (s : rman_seg) : bool :=
  match devnode s with Some _ => true | None => false end.

(** The segments before the place of [addr], in reverse, and the others: [prev] is
    the head of the first, its successor the head of the second. *)
Fixpoint rman_get_seg_before (prev l : list rman_seg) (addr : Z) : list rman_seg * list rman_seg :=
  match l with
  | [] => (prev, [])
  | seg :: rest =>
      if start seg >=? addr then (prev, l)
      else rman_get_seg_before (seg :: prev) rest addr
  end.

(** [rman_merge], first with the segment before, then with the one after. *)
Definition merge_prev (prev : list rman_seg) (seg : rman_seg) : list rman_seg * rman_seg :=
  match prev with
  | prev_seg :: prev' =>
      if (start prev_seg +! size prev_seg =? start seg) && negb (rman_seg_is_allocated prev_seg)
      then (prev', mk_seg (seg_addr seg) (devnode seg) (start prev_seg)
                     (size seg +! size prev_seg))
      else (prev, seg)
  | [] => (prev, seg)
  end.

Definition merge_next (seg : rman_seg) (next : list rman_seg) : rman_seg * list rman_seg :=
  match next with
  | next_seg :: next' =>
      if (start seg +! size seg =? start next_seg) && negb (rman_seg_is_allocated next_seg)
      then (mk_seg (seg_addr seg) (devnode seg) (start seg) (size seg +! size next_seg), next')
      else (seg, next)
  | [] => (seg, next)
  end.

Definition rman_merge (prev : list rman_seg) (seg : rman_seg) (next : list rman_seg)
    : list rman_seg :=
  let '(prev, seg) := merge_prev prev seg in
  let '(seg, next) := merge_next seg next in
  rev prev ++ seg :: next.

Definition rman_raw_add_region (r : rman) (st sz : Z) (new : option Z) : rman * res unit :=
  let '(prev, next) := rman_get_seg_before [] (segs r) st in
  let overlap_before :=
    match prev with before :: _ => start before +! size before >? st | [] => false end in
  let overlap_after :=
    match next with after :: _ => start after <? st +! sz | [] => false end in
  if overlap_before then (r, Err EINVAL)
  else if overlap_after then (r, Err EINVAL)
  else
    match new with
    | None => (r, Err ENOMEM)
    | Some a => (mk_rman (rman_merge prev (mk_seg a None st sz) next) (type_ r), Ok tt)
    end.

(** What the loop of [rman_raw_allocate] computes for one segment: where the range
    would start in it, [None] when it does not fit. *)
Definition fit (cur_seg : rman_seg) (request : resource_request) (size_ align : Z) : option Z :=
  let '(seg_start, seg_count) :=
    if start cur_seg <? req_start request
    then (req_start request, size cur_seg -! (req_start request -! start cur_seg))
    else (start cur_seg, size cur_seg) in
  let seg_count :=
    if seg_start +! seg_count >? req_end request then req_end request -! seg_start
    else seg_count in
  let aligned :=
    if negb (seg_start mod align =? 0) then
      let to_add := align -! (seg_start mod align) in
      if seg_count <? to_add then None else Some (seg_start +! to_add, seg_count -! to_add)
    else Some (seg_start, seg_count) in
  match aligned with
  | None => None
  | Some (seg_start, seg_count) => if seg_count <? size_ then None else Some seg_start
  end.

Fixpoint find_seg (prev l : list rman_seg) (request : resource_request) (size_ align : Z)
    : option (list rman_seg * rman_seg * list rman_seg * Z) :=
  match l with
  | [] => None
  | cur_seg :: rest =>
      if start cur_seg +! size cur_seg <=? req_start request
      then find_seg (cur_seg :: prev) rest request size_ align
      else if start cur_seg >=? req_end request then None
      else if rman_seg_is_allocated cur_seg
      then find_seg (cur_seg :: prev) rest request size_ align
      else
        match fit cur_seg request size_ align with
        | Some st => Some (prev, cur_seg, rest, st)
        | None => find_seg (cur_seg :: prev) rest request size_ align
        end
  end.

(** [new_before] and [new_after] are what [slab_alloc] returns for the two splits,
    [new_resource] whether [resource_allocate] succeeds. *)
Definition rman_raw_allocate (r : rman) (dev : Z) (request : resource_request)
    (new_before new_after : option Z) (new_resource : bool) : rman * res resource :=
  let size_ := if req_size request =? RESOURCE_ANY_SIZE then 1 else req_size request in
  let align := if req_align request =? RESOURCE_ANY_ALIGN then 1 else req_align request in
  if negb (req_start request mod align =? 0) then (r, Err EINVAL)
  else
    match find_seg [] (segs r) request size_ align with
    | None => (r, Err ENOMEM)
    | Some (prev, seg, next, st) =>
        let split_before :=
          if start seg <? st then
            match new_before with
            | None => None
            | Some a =>
                let new_seg := mk_seg a None (start seg) (st -! start seg) in
                Some (new_seg :: prev,
                      mk_seg (seg_addr seg) (devnode seg) (start seg +! size new_seg)
                        (size seg -! size new_seg))
            end
          else Some (prev, seg) in
        match split_before with
        | None => (r, Err ENOMEM)
        | Some (prev, seg) =>
            let split_after :=
              if size seg >? size_ then
                match new_after with
                | None => None
                | Some a =>
                    let new_seg := mk_seg a None (st +! size_) (size seg -! size_) in
                    Some (mk_seg (seg_addr seg) (devnode seg) (start seg)
                            (size seg -! size new_seg), new_seg :: next)
                end
              else Some (seg, next) in
            match split_after with
            | None => (mk_rman (rev prev ++ seg :: next) (type_ r), Err ENOMEM)
            | Some (seg, next) =>
                if negb new_resource
                then (mk_rman (rev prev ++ seg :: next) (type_ r), Err ENOMEM)
                else
                  let resource :=
                    mk_resource (seg_addr seg) (start seg) (size seg)
                      (Z.lor (req_flags request) (type_ r)) RID_NONE in
                  let seg := mk_seg (seg_addr seg) (Some dev) (start seg) (size seg) in
                  (mk_rman (rev prev ++ seg :: next) (type_ r), Ok resource)
            end
        end
    end.

(** The segment at an address, between its neighbours. *)
Fixpoint seg_at (prev l : list rman_seg) (a : Z)
    : option (list rman_seg * rman_seg * list rman_seg) :=
  match l with
  | [] => None
  | seg :: rest =>
      if seg_addr seg =? a then Some (prev, seg, rest) else seg_at (seg :: prev) rest a
  end.

(** [None]: the [kassert], or a resource whose segment is not of this manager. *)
Definition rman_raw_free (r : rman) (dev : Z) (resource : option resource) : option rman :=
  match resource with
  | None => Some r
  | Some resource =>
      '(prev, seg, next) ← seg_at [] (segs r) (res_private resource);
      if negb (bool_decide (devnode seg = Some dev)) then None
      else
        Some (mk_rman (rman_merge prev (mk_seg (seg_addr seg) None (start seg) (size seg)) next)
                (type_ r))
  end.

(** [None]: the [kassert] that no segment is in use. *)
Fixpoint rman_destroy_loop (l : list rman_seg) : option (list rman_seg) :=
  match l with
  | [] => Some []
  | seg :: rest => if rman_seg_is_allocated seg then None else rman_destroy_loop rest
  end.

Definition rman_destroy (r : rman) : option rman :=
  l ← rman_destroy_loop (segs r); Some (mk_rman l (type_ r)).

(** ** The abstract view: who owns an address

    [None] for an address outside of the regions, [Some None] for a free one. *)
Definition seg_end (s : rman_seg) : Z := start s + size s.
Definition holds (s : rman_seg) (a : Z) : bool := (start s <=? a) && (a <? seg_end s).

Fixpoint owner (l : list rman_seg) (a : Z) : option (option Z) :=
  match l with
  | [] => None
  | s :: l => if holds s a then Some (devnode s) else owner l a
  end.

(** Segments in order from [lo] on, not empty and inside the address width. *)
Fixpoint ok_from (lo : Z) (l : list rman_seg) : Prop :=
  match l with
  | [] => True
  | s :: l => lo <= start s /\ 0 < size s /\ seg_end s < 2 ^ 64 /\ ok_from (seg_end s) l
  end.

Definition is_free (s : rman_seg) : Prop := devnode s = None.

(** No two free segments touch. *)
Definition unmerged (a b : rman_seg) : Prop :=
  ~ (is_free a /\ is_free b /\ seg_end a = start b).

Fixpoint coalesced (l : list rman_seg) : Prop :=
  match l with
  | a :: (b :: _) as r => unmerged a b /\ coalesced r
  | _ => True
  end.

Definition inv (r : rman) : Prop :=
  ok_from 0 (segs r) /\ coalesced (segs r) /\ NoDup (seg_addr <$> segs r).

(** The end of the last segment. *)
Definition end_of (lo : Z) (prev : list rman_seg) : Z :=
  match prev with [] => lo | p :: _ => seg_end p end.

Lemma owner_app l1 l2 a :
  owner (l1 ++ l2) a = match owner l1 a with Some o => Some o | None => owner l2 a end.
Proof. induction l1 as [|s l1 IH]; simpl; [done|]. by case_if. Qed.

Lemma ok_from_zip lo prev l :
  ok_from lo (rev prev ++ l) <-> ok_from lo (rev prev) /\ ok_from (end_of lo prev) l.
Proof.
  assert (H : forall l1 lo l2, ok_from lo (l1 ++ l2) <->
    ok_from lo l1 /\ ok_from (end_of lo (rev l1)) l2).
  { clear. induction l1 as [|s l1 IH]; intros lo l2; simpl; [tauto|]. rewrite IH.
    assert (end_of (seg_end s) (rev l1) = end_of lo (rev l1 ++ [s])) as ->.
    { by destruct (rev l1). }
    tauto. }
  rewrite H, rev_involutive. tauto.
Qed.

Lemma ok_from_le lo lo' l : lo' <= lo -> ok_from lo l -> ok_from lo' l.
Proof. destruct l; simpl; [done|]. intros ? (? & ? & ? & ?). split_and!; try done; lia. Qed.

Lemma owner_below lo l a : ok_from lo l -> a < lo -> owner l a = None.
Proof.
  revert lo. induction l as [|s l IH]; intros lo; simpl; [done|]. intros (? & ? & ? & H) Ha.
  unfold holds. rewrite (proj2 (Z.leb_gt _ _)) by lia. apply (IH _ H). unfold seg_end. lia.
Qed.

Lemma owner_elem l a o : owner l a = Some o -> exists s, s ∈ l /\ holds s a = true /\ devnode s = o.
Proof.
  induction l as [|s l IH]; simpl; [done|]. case_if.
  - intros [= <-]. exists s. split_and!; [by left|done|done].
  - intros (s' & ? & ? & ?)%IH. exists s'. split_and!; [by right|done|done].
Qed.

Lemma ok_from_elem lo l s : ok_from lo l -> s ∈ l -> lo <= start s /\ 0 < size s /\ seg_end s < 2 ^ 64.
Proof.
  revert lo. induction l as [|t l IH]; intros lo; [set_solver|]. simpl.
  intros (? & ? & ? & H). rewrite elem_of_cons. intros [->|Hs]; [done|].
  destruct (IH _ H Hs) as (? & ? & ?). unfold seg_end in *. split_and!; try done; lia.
Qed.

Lemma coalesced_app l1 a l2 :
  coalesced (l1 ++ a :: l2) <-> coalesced (l1 ++ [a]) /\ coalesced (a :: l2).
Proof.
  induction l1 as [|b l1 IH]; [simpl; destruct l2; tauto|].
  destruct l1 as [|c l1]; [simpl; destruct l2; tauto|].
  change (coalesced ((b :: c :: l1) ++ a :: l2)) with
    (unmerged b c /\ coalesced ((c :: l1) ++ a :: l2)).
  change (coalesced ((b :: c :: l1) ++ [a])) with
    (unmerged b c /\ coalesced ((c :: l1) ++ [a])). rewrite IH. tauto.
Qed.

Definition before_ok (prev : list rman_seg) (s : rman_seg) : Prop :=
  match prev with p :: _ => unmerged p s | [] => True end.
Definition after_ok (s : rman_seg) (next : list rman_seg) : Prop :=
  match next with n :: _ => unmerged s n | [] => True end.

Lemma coalesced_zip prev s next :
  coalesced (rev prev ++ s :: next) <->
  coalesced (rev prev) /\ before_ok prev s /\ after_ok s next /\ coalesced next.
Proof.
  rewrite coalesced_app.
  assert (coalesced (s :: next) <-> after_ok s next /\ coalesced next) as ->.
  { destruct next; simpl; tauto. }
  assert (coalesced (rev prev ++ [s]) <-> coalesced (rev prev) /\ before_ok prev s) as ->.
  { destruct prev as [|p prev]; simpl; [tauto|]. rewrite <- app_assoc. simpl.
    rewrite coalesced_app. simpl. tauto. }
  tauto.
Qed.

(** Two free segments that touch can be joined. *)
Lemma join_two lo l1 p s l2 j :
  ok_from lo (l1 ++ p :: s :: l2) -> is_free p -> is_free s -> seg_end p = start s ->
  is_free j -> start j = start p -> size j = size p + size s ->
  ok_from lo (l1 ++ j :: l2) /\
  forall a, owner (l1 ++ j :: l2) a = owner (l1 ++ p :: s :: l2) a.
Proof.
  intros Hok Hp Hs Ht Hj Hst Hsz. split.
  - revert lo Hok. induction l1 as [|t l1 IH]; intros lo; simpl.
    + unfold seg_end in *. intros (? & ? & ? & ? & ? & ? & ?). rewrite Hst, Hsz.
      split_and!; try lia. replace (start p + (size p + size s)) with (start s + size s) by lia. done.
    + intros (? & ? & ? & ?). split_and!; try done. by apply IH.
  - intros a. rewrite !owner_app. destruct (owner l1 a); [done|]. simpl.
    destruct (ok_from_elem lo _ p Hok) as (_ & ? & _); [set_solver|].
    destruct (ok_from_elem lo _ s Hok) as (_ & ? & _); [set_solver|].
    unfold holds, seg_end, is_free in *. rewrite Hst, Hsz, Hj, Hp, Hs. repeat case_if; try done; lia.
Qed.

Lemma allocated_spec s : rman_seg_is_allocated s = false <-> is_free s.
Proof. unfold rman_seg_is_allocated, is_free. by destruct (devnode s). Qed.

Lemma NoDup_addr_zip prev l :
  NoDup (seg_addr <$> (rev prev ++ l)) <-> NoDup ((seg_addr <$> prev) ++ (seg_addr <$> l)).
Proof. by rewrite fmap_app, <- (Permutation_rev prev). Qed.

(** Merging with the segment before gives a list that differs from the old one at
    most by that segment. *)
Lemma merge_prev_spec lo prev s next prev' s' :
  0 <= lo -> ok_from lo (rev prev ++ s :: next) -> is_free s -> coalesced (rev prev) ->
  merge_prev prev s = (prev', s') ->
  ok_from lo (rev prev' ++ s' :: next) /\ is_free s' /\ coalesced (rev prev') /\
  before_ok prev' s' /\ seg_addr s' = seg_addr s /\ seg_end s' = seg_end s /\
  (seg_addr <$> prev') `sublist_of` (seg_addr <$> prev) /\
  forall a, owner (rev prev' ++ s' :: next) a = owner (rev prev ++ s :: next) a.
Proof.
  intros Hlo Hok Hs Hc Hm. unfold merge_prev in Hm. destruct prev as [|p prev]; [by simplify_eq|].
  assert (Hp : lo <= start p /\ 0 < size p /\ seg_end p < 2 ^ 64).
  { eapply ok_from_elem; [exact Hok|]. rewrite rev_cons_app. set_solver. }
  assert (Hsb : lo <= start s /\ 0 < size s /\ seg_end s < 2 ^ 64).
  { eapply ok_from_elem; [exact Hok|]. set_solver. }
  rewrite rev_cons_app in Hok.
  rewrite (u64_small (start p + _)) in Hm by (unfold is_u64, seg_end in *; lia).
  destruct (_ && _) eqn:E in Hm; simplify_eq.
  - zbool. apply allocated_spec in H0. rename H into Ht.
    assert (Hsz : size s +! size p = size p + size s).
    { unfold seg_end in *. rewrite u64_small by (unfold is_u64; lia). lia. }
    destruct (join_two lo (rev prev') p s next
      (mk_seg (seg_addr s) (devnode s) (start p) (size s +! size p))) as (Hok' & Ho); try done.
    rewrite rev_cons_app. change (rev (p :: prev')) with (rev prev' ++ [p]) in Hc.
    apply coalesced_zip in Hc as (Hc & Hb & _). split_and!; try done.
    + destruct prev' as [|q prev']; [done|]. unfold before_ok, unmerged, is_free in *. simpl in *.
      tauto.
    + unfold seg_end in *. simpl. lia.
    + apply sublist_cons, sublist_refl || (simpl; by constructor).
  - split_and!; try done; [by rewrite rev_cons_app|].
    simpl. unfold unmerged. intros (Hf & _ & Ht). apply allocated_spec in Hf.
    apply andb_false_iff in E as [E|E]; zbool; [|congruence]. unfold seg_end in Ht. lia.
Qed.

Lemma merge_next_spec lo prev s next s' next' :
  0 <= lo -> ok_from lo (rev prev ++ s :: next) -> is_free s -> coalesced (rev prev) ->
  before_ok prev s -> coalesced next ->
  merge_next s next = (s', next') ->
  ok_from lo (rev prev ++ s' :: next') /\ coalesced (rev prev ++ s' :: next') /\
  seg_addr s' = seg_addr s /\ (seg_addr <$> next') `sublist_of` (seg_addr <$> next) /\
  forall a, owner (rev prev ++ s' :: next') a = owner (rev prev ++ s :: next) a.
Proof.
  intros Hlo Hok Hs Hc Hb Hcn Hm. unfold merge_next in Hm. rewrite coalesced_zip.
  destruct next as [|n next]; [by simplify_eq|].
  assert (Hn : lo <= start n /\ 0 < size n /\ seg_end n < 2 ^ 64).
  { eapply ok_from_elem; [exact Hok|]. set_solver. }
  assert (Hsb : lo <= start s /\ 0 < size s /\ seg_end s < 2 ^ 64).
  { eapply ok_from_elem; [exact Hok|]. set_solver. }
  rewrite (u64_small (start s + _)) in Hm by (unfold is_u64, seg_end in *; lia).
  destruct (_ && _) eqn:E in Hm; simplify_eq.
  - zbool. apply allocated_spec in H0. rename H into Ht.
    assert (Hsz : size s +! size n = size s + size n).
    { unfold seg_end in *. rewrite u64_small by (unfold is_u64; lia). lia. }
    destruct (join_two lo (rev prev) s n next'
      (mk_seg (seg_addr s) (devnode s) (start s) (size s +! size n))) as (Hok' & Ho); try done.
    split_and!; try done.
    + destruct next' as [|q next']; [done|]. destruct Hcn as (Hcn & _).
      unfold after_ok, unmerged, is_free, seg_end in *. simpl in *. rewrite Hsz.
      intros (_ & Hq & Heq). apply Hcn. split_and!; try done. lia.
    + simpl in Hcn. by destruct next'; [|apply Hcn].
    + simpl. by constructor.
  - split_and!; try done.
    simpl. unfold unmerged. intros (_ & Hf & Ht). apply allocated_spec in Hf.
    apply andb_false_iff in E as [E|E]; zbool; [|congruence]. unfold seg_end in Ht. lia.
Qed.

(** [rman_merge] of a free segment changes the ownership of no address and leaves no
    two free segments that touch. *)
Lemma merge_spec prev s next :
  ok_from 0 (rev prev ++ s :: next) -> is_free s -> coalesced (rev prev) -> coalesced next ->
  NoDup (seg_addr <$> (rev prev ++ s :: next)) ->
  let l' := rman_merge prev s next in
  ok_from 0 l' /\ coalesced l' /\ NoDup (seg_addr <$> l') /\
  forall a, owner l' a = owner (rev prev ++ s :: next) a.
Proof.
  intros Hok Hs Hc Hcn Hnd. unfold rman_merge.
  destruct (merge_prev prev s) as [prev1 s1] eqn:E1.
  destruct (merge_prev_spec 0 prev s next prev1 s1)
    as (Hok1 & Hf1 & Hc1 & Hb1 & Ha1 & _ & Hsub1 & Ho1); [done..|].
  destruct (merge_next s1 next) as [s2 next2] eqn:E2.
  destruct (merge_next_spec 0 prev1 s1 next s2 next2)
    as (Hok2 & Hc2 & Ha2 & Hsub2 & Ho2); [done..|].
  split_and!; try done.
  - rewrite NoDup_addr_zip in Hnd |- *. eapply sublist_NoDup; [exact Hnd|].
    rewrite !fmap_cons, Ha2, Ha1. apply sublist_app; [done|by constructor].
  - intros a. by rewrite Ho2, Ho1.
Qed.

(** *** A segment among its neighbours *)

Lemma owner_above lo prev a : ok_from lo (rev prev) -> end_of lo prev <= a -> owner (rev prev) a = None.
Proof.
  revert a. induction prev as [|p prev IH]; intros a; [done|]. simpl rev.
  rewrite ok_from_zip, owner_app. simpl. intros (Hok & ? & ? & ? & _) Ha.
  unfold holds, seg_end in *. rewrite IH by (done || lia).
  rewrite (proj2 (Z.ltb_ge _ _)) by lia. by rewrite andb_false_r.
Qed.

(** The owner of an address, with respect to one segment. *)
Lemma owner_zip prev s next a :
  ok_from 0 (rev prev ++ s :: next) ->
  owner (rev prev ++ s :: next) a =
  if holds s a then Some (devnode s) else owner (rev prev ++ next) a.
Proof.
  rewrite ok_from_zip, !owner_app. simpl. intros (Hok & ? & ? & ? & _). case_if; [|done].
  unfold holds in Heqb. zbool. rewrite (owner_above 0) by (done || lia). done.
Qed.

Lemma get_seg_before_spec prev l addr prev' next :
  rman_get_seg_before prev l addr = (prev', next) ->
  Forall (fun s => start s < addr) prev ->
  rev prev' ++ next = rev prev ++ l /\ Forall (fun s => start s < addr) prev' /\
  match next with n :: _ => addr <= start n | [] => True end.
Proof.
  revert prev. induction l as [|s l IH]; intros prev; simpl.
  - intros [= <- <-] H. done.
  - case_if; [intros [= <- <-] H; split_and!; try done; lia|].
    intros E H. destruct (IH (s :: prev) E) as (H1 & H2 & H3).
    + constructor; [lia|done].
    + rewrite rev_cons_app in H1. done.
Qed.

(** What [rman_raw_add_region] tests is exactly whether the new region meets an old
    one. *)
Lemma add_region_overlap l st sz prev next :
  ok_from 0 l -> 0 <= st -> 0 < sz -> st + sz < 2 ^ 64 ->
  rman_get_seg_before [] l st = (prev, next) ->
  let overlap :=
    match prev with before :: _ => start before +! size before >? st | [] => false end
    || match next with after :: _ => start after <? st +! sz | [] => false end in
  l = rev prev ++ next /\
  (overlap = true -> exists a, st <= a < st + sz /\ owner l a <> None) /\
  (overlap = false -> forall new, ok_from 0 (rev prev ++ mk_seg new None st sz :: next)).
Proof.
  intros Hok Hst Hsz Hw E overlap. destruct (get_seg_before_spec _ _ _ _ _ E) as (Hl & Hp & Hn);
    [done|]. simpl in Hl. subst l. split; [done|].
  rewrite ok_from_zip in Hok. destruct Hok as (Hok1 & Hok2).
  assert (Hpe : match prev with before :: _ => start before +! size before = seg_end before
                | [] => True end).
  { destruct prev as [|p prev]; [done|]. 
    destruct (ok_from_elem 0 (rev (p :: prev)) p) as (? & ? & ?); [done| |].
    - rewrite <- (Permutation_rev (p :: prev)). by left.
    - unfold seg_end in *. by rewrite u64_small by (unfold is_u64; lia). }
  unfold overlap. rewrite (u64_small (st + sz)) by (unfold is_u64; lia). split.
  - intros Hov. apply orb_true_iff in Hov as [Hov|Hov].
    + destruct prev as [|p prev]; [done|]. rewrite Hpe in Hov. exists st. split; [lia|].
      apply Forall_cons in Hp as (Hp & _). rewrite rev_cons_app, owner_zip.
      * unfold holds. by rewrite (proj2 (Z.leb_le _ _)), (proj2 (Z.ltb_lt _ _)) by lia.
      * rewrite <- rev_cons_app. by apply ok_from_zip.
    + destruct next as [|n next]; [done|]. exists (start n). zbool. split; [lia|].
      rewrite owner_zip by (by apply ok_from_zip). destruct Hok2 as (? & ? & _).
      unfold holds, seg_end. by rewrite (proj2 (Z.leb_le _ _)), (proj2 (Z.ltb_lt _ _)) by lia.
  - intros Hov new. apply orb_false_iff in Hov as (Hb & Ha). apply ok_from_zip.
    split; [done|]. simpl. split_and!; try done.
    + destruct prev as [|p prev]; simpl; [done|]. rewrite Hpe in Hb. lia.
    + unfold seg_end. simpl. destruct next as [|n next]; [done|]. simpl in *. zbool.
      destruct Hok2 as (? & ? & ? & ?). split_and!; try done. 
Qed.

(** Adding a region to a resource manager.  It is refused exactly when some
    address of it is already managed, and then nothing changes; when it is accepted
    (and memory for the segment is available) its addresses become free and no other
    address changes; the segments stay in order, apart, and merged. *)
Theorem rman_add_region_correct r st sz new :
  inv r -> 0 <= st -> 0 < sz -> st + sz < 2 ^ 64 -> new ∉ (seg_addr <$> segs r) ->
  (rman_raw_add_region r st sz (Some new) = (r, Err EINVAL) /\
   exists a, st <= a < st + sz /\ owner (segs r) a <> None) \/
  exists r', rman_raw_add_region r st sz (Some new) = (r', Ok tt) /\ inv r' /\
    (forall a, st <= a < st + sz -> owner (segs r) a = None) /\
    forall a, owner (segs r') a =
      if (st <=? a) && (a <? st + sz) then Some None else owner (segs r) a.
Proof.
  intros (Hok & Hc & Hnd) Hst Hsz Hw Hnew. unfold rman_raw_add_region.
  destruct (rman_get_seg_before [] (segs r) st) as [prev next] eqn:E.
  destruct (add_region_overlap _ st sz prev next Hok Hst Hsz Hw E) as (Hl & Hov & Hno).
  destruct (match prev with [] => false | _ => _ end) eqn:E1;
    [left; split; [done|]; apply Hov; done|].
  destruct (match next with [] => false | _ => _ end) eqn:E2;
    [left; split; [done|]; apply Hov; by rewrite ?orb_true_r|].
  right. specialize (Hno eq_refl new). simpl in Hno. rewrite Hl in Hc, Hnd, Hnew.
  destruct (merge_spec prev (mk_seg new None st sz) next) as (H1 & H2 & H3 & H4); try done.
  - destruct next as [|n next]; [by rewrite app_nil_r in Hc|]. by apply coalesced_zip in Hc as (? & _).
  - destruct next as [|n next]; [done|]. apply coalesced_zip in Hc as (_ & _ & ? & ?). by destruct next.
  - rewrite NoDup_addr_zip in Hnd |- *. rewrite fmap_cons. simpl.
    rewrite <- Permutation_middle. apply NoDup_cons. split; [|done].
    intros Hin. apply Hnew. rewrite fmap_app, <- (Permutation_rev prev). done.
  - eexists. split; [done|]. split; [done|]. simpl.
    assert (Ho : forall a, st <= a < st + sz -> owner (segs r) a = None).
    { intros a Ha. rewrite Hl, owner_app. apply ok_from_zip in Hno as (Hp & Hs).
      simpl in Hs. destruct Hs as (? & _ & _ & Hs). rewrite (owner_above 0) by (done || lia).
      apply (owner_below (st + sz)); [done|lia]. }
    split; [done|]. intros a. rewrite H4, owner_zip by done. unfold holds, seg_end. simpl. by rewrite Hl.
Qed.

(** *** Choosing a range *)

(** A request with a non-empty window, and the size and alignment it stands for. *)
Definition request_ok (q : resource_request) : Prop :=
  0 <= req_start q < req_end q /\ req_end q < 2 ^ 64 /\ 0 <= req_size q < 2 ^ 64 /\
  0 <= req_align q < 2 ^ 64.

Definition wanted_size (q : resource_request) : Z :=
  if req_size q =? RESOURCE_ANY_SIZE then 1 else req_size q.
Definition wanted_align (q : resource_request) : Z :=
  if req_align q =? RESOURCE_ANY_ALIGN then 1 else req_align q.

(** [x] is a possible start of the range in segment [s]. *)
Definition fits (q : resource_request) (s : rman_seg) (x : Z) : Prop :=
  start s <= x /\ x + wanted_size q <= seg_end s /\
  req_start q <= x /\ x + wanted_size q <= req_end q /\ x mod wanted_align q = 0.

(** Rounding up to a multiple. *)
Lemma align_up_spec x align :
  0 < align -> x mod align <> 0 ->
  (x + (align - x mod align)) mod align = 0 /\
  forall y, x <= y -> y mod align = 0 -> x + (align - x mod align) <= y.
Proof.
  intros Ha Hx. pose proof (Z.mod_pos_bound x align Ha). pose proof (Z.div_mod x align ltac:(lia)).
  split.
  - replace (x + (align - x mod align)) with ((x / align + 1) * align) by lia. apply Z_mod_mult.
  - intros y Hxy Hy. pose proof (Z.div_mod y align ltac:(lia)). rewrite Hy in *.
    assert (x / align < y / align); [|nia]. apply Z.nle_gt. intros Hle. nia.
Qed.

Lemma fit_spec q s :
  request_ok q -> 0 <= start s -> 0 < size s -> seg_end s < 2 ^ 64 ->
  req_start q < seg_end s -> start s < req_end q ->
  match fit s q (wanted_size q) (wanted_align q) with
  | Some st => fits q s st /\ forall x, fits q s x -> st <= x
  | None => forall x, ~ fits q s x
  end.
Proof.
  intros (? & ? & ? & ?) ? ? ? ? ?. unfold seg_end in *.
  assert (Hsz : 1 <= wanted_size q) by (unfold wanted_size, RESOURCE_ANY_SIZE; case_if; lia).
  assert (Hal : 1 <= wanted_align q < 2 ^ 64) by (unfold wanted_align, RESOURCE_ANY_ALIGN; case_if; lia).
  unfold fits, seg_end. generalize dependent (wanted_size q). generalize dependent (wanted_align q).
  intros al Hal n Hn.
  (* the window inside the segment *)
  set (lo := Z.max (start s) (req_start q)). set (hi := Z.min (start s + size s) (req_end q)).
  assert (Hfit : fit s q n al =
    match (if negb (lo mod al =? 0)
           then if hi - lo <? al - lo mod al then None
                else Some (lo + (al - lo mod al), hi - lo - (al - lo mod al))
           else Some (lo, hi - lo)) with
    | None => None
    | Some (a, c) => if c <? n then None else Some a
    end).
  { unfold fit. assert (Hc : (if start s <? req_start q
      then (req_start q, size s -! (req_start q -! start s)) else (start s, size s)) =
      (lo, start s + size s - lo)).
    { unfold lo. case_if; unwrap; f_equal; lia. }
    rewrite Hc. clear Hc.
    assert (Hh : (if lo +! (start s + size s - lo) >? req_end q then req_end q -! lo
                  else start s + size s - lo) = hi - lo).
    { unfold hi, lo in *. unwrap. case_if; unwrap; lia. }
    rewrite Hh. clear Hh. pose proof (Z.mod_pos_bound lo al ltac:(lia)).
    assert (0 <= lo < hi /\ hi < 2 ^ 64) by (unfold lo, hi; lia).
    destruct (negb (lo mod al =? 0)) eqn:En; [|done]. unwrap. case_if; [done|]. by unwrap. }
  rewrite Hfit. clear Hfit. pose proof (Z.mod_pos_bound lo al ltac:(lia)).
  assert (Hlh : forall x, start s <= x -> req_start q <= x -> lo <= x) by (unfold lo; lia).
  destruct (lo mod al =? 0) eqn:E0; zbool; simpl.
  - case_if; [intros x (? & ? & ? & ? & ?); unfold lo, hi in *; lia|].
    split; [unfold lo, hi in *; split_and!; try done; lia|]. intros x (? & ? & ? & ? & ?). auto.
  - destruct (align_up_spec lo al ltac:(lia) E0) as (Hup & Hmin).
    case_if; [intros x (? & ? & ? & ? & Hx); specialize (Hmin x ltac:(auto) Hx); unfold hi in *; lia|].
    case_if; [intros x (? & ? & ? & ? & Hx); specialize (Hmin x ltac:(auto) Hx); unfold hi in *; lia|].
    split; [unfold lo, hi in *; split_and!; try done; lia|].
    intros x (? & ? & ? & ? & ?). auto.
Qed.

Lemma ok_from_good l s : ok_from 0 l -> s ∈ l -> 0 <= start s /\ 0 < size s /\ seg_end s < 2 ^ 64.
Proof. apply ok_from_elem. Qed.

(** The loop finds the lowest possible range, or there is none. *)
Lemma find_seg_spec q prev l :
  request_ok q -> ok_from 0 l ->
  match find_seg prev l q (wanted_size q) (wanted_align q) with
  | Some (prev', s, next, st) =>
      rev prev' ++ s :: next = rev prev ++ l /\ is_free s /\ fits q s st /\
      forall s' x, s' ∈ l -> is_free s' -> fits q s' x -> st <= x
  | None => forall s x, s ∈ l -> is_free s -> ~ fits q s x
  end.
Proof.
  intros Hq Hok. revert prev Hok.
  assert (Hsz : 1 <= wanted_size q).
  { destruct Hq as (_ & _ & ? & _). unfold wanted_size, RESOURCE_ANY_SIZE. case_if; lia. }
  induction l as [|s l IH]; intros prev Hok; simpl; [set_solver|].
  assert (Hgood : 0 <= start s /\ 0 < size s /\ seg_end s < 2 ^ 64)
    by (apply (ok_from_good (s :: l)); [done|set_solver]).
  destruct Hok as (_ & _ & _ & Hok). pose proof Hok as Hok'.
  apply (ok_from_le _ 0) in Hok'; [|unfold seg_end in *; lia].
  (* going on after a segment in which nothing fits *)
  assert (Hnext : (is_free s -> forall x, ~ fits q s x) ->
    match find_seg (s :: prev) l q (wanted_size q) (wanted_align q) with
    | Some (prev', s0, next, st) =>
        rev prev' ++ s0 :: next = rev prev ++ s :: l /\ is_free s0 /\ fits q s0 st /\
        forall s' x, s' ∈ s :: l -> is_free s' -> fits q s' x -> st <= x
    | None => forall s0 x, s0 ∈ s :: l -> is_free s0 -> ~ fits q s0 x
    end).
  { intros Hn. specialize (IH (s :: prev) Hok').
    destruct (find_seg _ _ _ _ _) as [[[[prev' s0] next] st]|].
    - destruct IH as (E & ? & ? & Hm). rewrite rev_cons_app in E. split_and!; try done.
      intros s' x [->|Hs']%elem_of_cons Hf Hx; [by destruct (Hn Hf x)|by eapply Hm].
    - intros s' x [->|Hs']%elem_of_cons Hf; [by apply Hn|by apply IH]. }
  rewrite (u64_small (start s + size s)) by (unfold is_u64, seg_end in *; lia).
  case_if; [apply Hnext; intros _ x (? & ? & ? & ? & _); unfold seg_end in *; lia|].
  case_if.
  { intros s' x Hin Hf (? & ? & ? & ? & _).
    assert (start s <= start s'); [|lia].
    apply elem_of_cons in Hin as [->|Hin]; [lia|].
    destruct (ok_from_elem _ _ _ Hok Hin) as (? & _). unfold seg_end in *. lia. }
  case_if; [apply Hnext; intros Hf; apply allocated_spec in Hf; congruence|].
  pose proof (fit_spec q s Hq) as Hfit. destruct Hgood as (? & ? & ?).
  specialize (Hfit ltac:(done) ltac:(done) ltac:(done) ltac:(unfold seg_end; lia) ltac:(lia)).
  destruct (fit _ _ _ _) as [st|].
  - destruct Hfit as (Hfit & Hmin). split_and!; try done; [by apply allocated_spec|].
    intros s' x [->|Hin]%elem_of_cons Hf Hx; [by apply Hmin|].
    destruct (ok_from_elem _ _ _ Hok Hin) as (? & _). destruct Hx as (? & _).
    destruct Hfit as (_ & ? & _). lia.
  - by apply Hnext.
Qed.

(** A run of free addresses lies in one segment, because free segments are merged. *)
Lemma free_run lo l x y :
  ok_from lo l -> coalesced l -> x < y ->
  (forall a, x <= a < y -> owner l a = Some None) ->
  exists s, s ∈ l /\ is_free s /\ start s <= x /\ y <= seg_end s.
Proof.
  revert lo. induction l as [|s l IH]; intros lo Hok Hc Hxy Ho.
  { specialize (Ho x ltac:(lia)). done. }
  pose proof Hok as (? & ? & ? & Hok').
  assert (Hcl : coalesced l) by (destruct l; [done|apply Hc]).
  destruct (holds s x) eqn:Hx.
  - pose proof (Ho x ltac:(lia)) as Hox. simpl in Hox. rewrite Hx in Hox. injection Hox as Hf.
    unfold holds in Hx. zbool. destruct (decide (y <= seg_end s)) as [?|Hy].
    { exists s. split_and!; [set_solver|done..]. }
    (* the address after [s] would be free in a segment that touches [s] *)
    exfalso. pose proof (Ho (seg_end s) ltac:(lia)) as Hoe. simpl in Hoe.
    unfold holds in Hoe. rewrite Z.ltb_irrefl, andb_false_r in Hoe.
    destruct l as [|n l]; [done|]. simpl in Hoe. destruct Hok' as (? & ? & ? & Hok').
    destruct (holds n (seg_end s)) eqn:Hn.
    + injection Hoe as Hfn. unfold holds in Hn. zbool. destruct Hc as (Hc & _). apply Hc.
      split_and!; try done. lia.
    + rewrite (owner_below (seg_end n)) in Hoe; [done|done|]. unfold seg_end in *. lia.
  - destruct (IH _ Hok' Hcl Hxy) as (s' & ? & ? & ? & ?).
    + intros a Ha. pose proof (Ho a Ha) as Hoa. simpl in Hoa.
      destruct (holds s a) eqn:Hsa; [|done].
      (* [x] would be below [s] and not managed *)
      exfalso. pose proof (Ho x ltac:(lia)) as Hox. simpl in Hox. rewrite Hx in Hox.
      unfold holds in Hx, Hsa. zbool. apply andb_false_iff in Hx as [Hx|Hx]; zbool; [|lia].
      rewrite (owner_below (seg_end s)) in Hox; [done|done|lia].
    + exists s'. split_and!; try done. set_solver.
Qed.

(** *** Cutting a range out of a free segment *)

(** The parts left of a segment before and after the range, if any. *)
Definition part (l : list rman_seg) (lo hi : Z) : Prop :=
  match l with
  | [] => lo = hi
  | [p] => is_free p /\ start p = lo /\ seg_end p = hi /\ lo < hi
  | _ => False
  end.

Lemma carve_spec prev s next bs m as_ :
  ok_from 0 (rev prev ++ s :: next) -> coalesced (rev prev ++ s :: next) -> is_free s ->
  0 < size m -> ~ is_free m -> start s <= start m -> seg_end m <= seg_end s ->
  part bs (start s) (start m) -> part as_ (seg_end m) (seg_end s) ->
  let l' := rev (bs ++ prev) ++ m :: (as_ ++ next) in
  ok_from 0 l' /\ coalesced l' /\
  forall a, owner l' a = if holds m a then Some (devnode m) else owner (rev prev ++ s :: next) a.
Proof.
  intros Hok Hc Hf Hm Hmf Hlo Hhi Hb Ha l'.
  pose proof Hok as Hok0. apply ok_from_zip in Hok0 as (Hp & Hs).
  destruct Hs as (Hs1 & Hs2 & Hs3 & Hs4).
  apply coalesced_zip in Hc as (Hc1 & Hc2 & Hc3 & Hc4).
  assert (Hum : forall t, unmerged t m /\ unmerged m t) by (unfold unmerged; tauto).
  assert (Hok' : ok_from 0 l').
  { unfold l'. destruct bs as [|b [|]]; try done; destruct as_ as [|c [|]]; try done;
      cbn [app]; rewrite ?rev_cons_app; apply ok_from_zip; (split; [done|]); simpl in *;
      unfold seg_end in *; intuition (try lia).
    all: try (eapply ok_from_le; [|exact Hs4]; lia). }
  split; [done|]. split.
  - unfold l'. apply coalesced_zip. split_and!.
    + destruct bs as [|b [|]]; try done. cbn [app]. change (rev (b :: prev)) with (rev prev ++ [b]).
      apply coalesced_zip. split_and!; try done. destruct Hb as (Hbf & Hb1 & _).
      destruct prev as [|p prev]; [done|]. unfold before_ok, unmerged in *. rewrite Hb1. tauto.
    + destruct (bs ++ prev); [done|apply Hum].
    + destruct (as_ ++ next); [done|apply Hum].
    + destruct as_ as [|c [|]]; try done. destruct Ha as (Haf & _ & Ha1 & _).
      destruct next as [|n next]; [done|]. simpl. split; [|done].
      unfold after_ok, unmerged in *. rewrite Ha1. tauto.
  - intros a. unfold l'. rewrite !owner_zip by done. case_if; [done|].
    destruct bs as [|b [|]]; try done; destruct as_ as [|c [|]]; try done; cbn [app];
      rewrite ?rev_cons_app, !owner_app; simpl;
      destruct (owner (rev prev) a) eqn:Eo; unfold holds, seg_end, is_free in *;
      simpl in Ha, Hb; unfold seg_end in *.
    all: try (rewrite (owner_above 0) in Eo by (done || lia); done).
    all: intuition; simplify_eq; repeat (case_if; zbool); try done; try congruence; try lia.
    all: rewrite (owner_above 0) in Eo by (done || lia); done.
Qed.

(** Closes what is left once the parts are given. *)
Ltac carve_done :=
  unfold part, is_free, seg_end; simpl;
  repeat split; try done; try lia; try (by repeat constructor).

(** What [rman_raw_allocate] does with the segment it found. *)
Lemma allocate_carves r dev q ba aa prev s next st :
  request_ok q -> ok_from 0 (segs r) -> req_start q mod wanted_align q = 0 ->
  find_seg [] (segs r) q (wanted_size q) (wanted_align q) = Some (prev, s, next, st) ->
  rev prev ++ s :: next = segs r -> fits q s st ->
  exists bs as_,
    rman_raw_allocate r dev q (Some ba) (Some aa) true =
      (mk_rman (rev (bs ++ prev) ++ mk_seg (seg_addr s) (Some dev) st (wanted_size q) :: (as_ ++ next))
         (type_ r),
       Ok (mk_resource (seg_addr s) st (wanted_size q) (Z.lor (req_flags q) (type_ r)) RID_NONE))
    /\ part bs (start s) st /\ part as_ (st + wanted_size q) (seg_end s)
    /\ (seg_addr <$> bs) `sublist_of` [ba] /\ (seg_addr <$> as_) `sublist_of` [aa].
Proof.
  intros Hq Hok Hal Hf Hl (F1 & F2 & F3 & F4 & F5).
  assert (Hs : 0 <= start s /\ 0 < size s /\ seg_end s < 2 ^ 64).
  { apply (ok_from_good (segs r)); [done|]. rewrite <- Hl. set_solver. }
  assert (Hsz : 1 <= wanted_size q).
  { destruct Hq as (_ & _ & ? & _). unfold wanted_size, RESOURCE_ANY_SIZE. case_if; lia. }
  unfold rman_raw_allocate. fold (wanted_size q) (wanted_align q). rewrite Hal, Hf.
  change (negb (0 =? 0)) with false. cbv iota. unfold seg_end in *.
  destruct (start s <? st) eqn:E1; zbool; cbn [start size seg_addr devnode negb]; unwrap.
  - replace (start s + (st - start s)) with st by lia.
    destruct (size s - (st - start s) >? wanted_size q) eqn:E2; zbool;
      cbn [start size seg_addr devnode negb]; unwrap.
    + exists [mk_seg ba None (start s) (st - start s)],
        [mk_seg aa None (st + wanted_size q) (size s - (st - start s) - wanted_size q)].
      replace (size s - (st - start s) - (size s - (st - start s) - wanted_size q))
        with (wanted_size q) by lia.
      carve_done.
    + exists [mk_seg ba None (start s) (st - start s)], [].
      replace (size s - (st - start s)) with (wanted_size q) by lia.
      carve_done.
  - assert (start s = st) as <- by lia.
    destruct (size s >? wanted_size q) eqn:E2; zbool;
      cbn [start size seg_addr devnode negb]; unwrap.
    + exists [], [mk_seg aa None (start s + wanted_size q) (size s - wanted_size q)].
      replace (size s - (size s - wanted_size q)) with (wanted_size q) by lia.
      carve_done.
    + exists [], []. replace (size s) with (wanted_size q) by lia.
      carve_done.
Qed.

Lemma NoDup_carve ba aa prev next s bs m as_ :
  NoDup (ba :: aa :: (seg_addr <$> (rev prev ++ s :: next))) -> seg_addr m = seg_addr s ->
  (seg_addr <$> bs) `sublist_of` [ba] -> (seg_addr <$> as_) `sublist_of` [aa] ->
  NoDup (seg_addr <$> (rev (bs ++ prev) ++ m :: (as_ ++ next))).
Proof.
  intros Hnd Hm Hb Ha. apply NoDup_addr_zip. rewrite fmap_cons, !fmap_app, Hm.
  eapply (sublist_NoDup _ (([ba] ++ (seg_addr <$> prev)) ++ seg_addr s :: ([aa] ++ (seg_addr <$> next)))).
  - rewrite fmap_app, <- (Permutation_rev prev), fmap_cons in Hnd. revert Hnd.
    apply NoDup_Permutation_proper. simpl. apply perm_skip.
    rewrite (Permutation_middle (seg_addr <$> prev) _ aa).
    apply Permutation_app_head, perm_swap.
  - apply sublist_app; [by apply sublist_app|]. constructor. by apply sublist_app.
Qed.

(** [x] is the start of a free range the request allows. *)
Definition feasible (r : rman) (q : resource_request) (x : Z) : Prop :=
  req_start q <= x /\ x + wanted_size q <= req_end q /\ x mod wanted_align q = 0 /\
  forall a, x <= a < x + wanted_size q -> owner (segs r) a = Some None.

Lemma feasible_fits r q x :
  inv r -> request_ok q -> feasible r q x -> exists s, s ∈ segs r /\ is_free s /\ fits q s x.
Proof.
  intros (Hok & Hc & _) Hq (H1 & H2 & H3 & Hf).
  assert (Hsz : 1 <= wanted_size q).
  { destruct Hq as (_ & _ & ? & _). unfold wanted_size, RESOURCE_ANY_SIZE. case_if; lia. }
  destruct (free_run 0 (segs r) x (x + wanted_size q)) as (s & ? & ? & ? & ?); [done|done|lia|done|].
  exists s. unfold fits. split_and!; try done; lia.
Qed.

Lemma fits_feasible r q s x prev next :
  ok_from 0 (segs r) -> segs r = rev prev ++ s :: next -> is_free s -> fits q s x -> feasible r q x.
Proof.
  intros Hok Hl Hf (? & ? & ? & ? & ?). unfold feasible. split_and!; try done.
  intros a Ha. rewrite Hl in *. rewrite owner_zip by done. unfold holds.
  rewrite (proj2 (Z.leb_le _ _)), (proj2 (Z.ltb_lt _ _)) by lia. simpl. by rewrite Hf.
Qed.

(** Allocating a range.  For a request with a non-empty window, and with memory
    for the new segments, [rman_raw_allocate] returns the lowest range of the size
    and alignment asked for that lies in the window and is free, gives exactly it
    to the device, and keeps the segments in order, apart and merged; it fails with
    [EINVAL] only for a misaligned start and with [ENOMEM] only when no such range
    exists, and then nothing changes. *)
Theorem rman_allocate_correct r dev q ba aa :
  inv r -> request_ok q -> NoDup (ba :: aa :: (seg_addr <$> segs r)) ->
  match rman_raw_allocate r dev q (Some ba) (Some aa) true with
  | (r', Ok res) =>
      inv r' /\ feasible r q (res_start res) /\ res_size res = wanted_size q
      /\ (forall x, feasible r q x -> res_start res <= x)
      /\ (forall a, owner (segs r') a =
           if (res_start res <=? a) && (a <? res_start res + wanted_size q)
           then Some (Some dev) else owner (segs r) a)
  | (r', Err e) =>
      r' = r /\ ((e = EINVAL /\ req_start q mod wanted_align q <> 0) \/
                 (e = ENOMEM /\ forall x, ~ feasible r q x))
  end.
Proof.
  intros Hinv Hq Hnd. pose proof Hinv as (Hok & Hc & _).
  destruct (decide (req_start q mod wanted_align q = 0)) as [Hal|Hal].
  2:{ unfold rman_raw_allocate. fold (wanted_size q) (wanted_align q).
      rewrite (proj2 (Z.eqb_neq _ _)) by done. simpl. tauto. }
  pose proof (find_seg_spec q [] (segs r) Hq Hok) as Hfind.
  destruct (find_seg [] (segs r) q (wanted_size q) (wanted_align q))
    as [[[[prev s] next] st]|] eqn:Ef.
  - destruct Hfind as (Hl & Hsf & Hfit & Hmin). simpl in Hl.
    destruct (allocate_carves r dev q ba aa prev s next st)
      as (bs & as_ & -> & Hb & Ha & Sb & Sa); [done..|].
    cbn [res_start res_size]. rewrite <- Hl in Hok, Hc. pose proof Hfit as (? & ? & _).
    assert (Hsz : 1 <= wanted_size q).
    { destruct Hq as (_ & _ & ? & _). unfold wanted_size, RESOURCE_ANY_SIZE. case_if; lia. }
    destruct (carve_spec prev s next bs (mk_seg (seg_addr s) (Some dev) st (wanted_size q)) as_)
      as (Hok' & Hc' & Ho'); try done; try (unfold seg_end in *; simpl; lia).
    split; [split; [done|split; [done|]]|split; [|split; [done|split]]].
    + simpl segs. rewrite <- Hl in Hnd. by apply (NoDup_carve ba aa _ _ s).
    + rewrite Hl in Hok. by eapply fits_feasible.
    + intros x (s' & ? & ? & ?)%feasible_fits; [by eapply Hmin|done|done].
    + intros a. simpl. rewrite Ho', Hl. done.
  - unfold rman_raw_allocate. fold (wanted_size q) (wanted_align q). rewrite Hal, Ef. simpl.
    split; [done|]. right. split; [done|]. intros x (s' & ? & ? & ?)%feasible_fits; [|done..].
    by eapply Hfind.
Qed.

(** *** Giving a range back *)

Lemma seg_at_spec prev l s :
  NoDup (seg_addr <$> l) -> s ∈ l ->
  exists prev' next, seg_at prev l (seg_addr s) = Some (prev', s, next) /\
    rev prev' ++ s :: next = rev prev ++ l.
Proof.
  revert prev. induction l as [|t l IH]; intros prev Hnd Hin; [set_solver|]. simpl.
  rewrite fmap_cons, NoDup_cons in Hnd. destruct Hnd as (Hnt & Hnd).
  apply elem_of_cons in Hin as [->|Hin].
  - rewrite Z.eqb_refl. eauto.
  - rewrite (proj2 (Z.eqb_neq _ _)).
    + destruct (IH (t :: prev) Hnd Hin) as (prev' & next & E & Hl).
      rewrite rev_cons_app in Hl. eauto.
    + intros E. apply Hnt. rewrite E. by apply list_elem_of_fmap_2.
Qed.

(** Giving a range back.  Freeing a resource whose segment is held by the device
    makes exactly the addresses of the segment free and keeps the segments in order,
    apart and merged; freeing it for another device stops at the assertion; freeing
    null does nothing. *)
Theorem rman_free_correct r dev s res :
  inv r -> s ∈ segs r -> devnode s = Some dev -> res_private res = seg_addr s ->
  (exists r', rman_raw_free r dev (Some res) = Some r' /\ inv r' /\
     forall a, owner (segs r') a = if holds s a then Some None else owner (segs r) a) /\
  (forall dev', dev' <> dev -> rman_raw_free r dev' (Some res) = None) /\
  rman_raw_free r dev None = Some r.
Proof.
  intros (Hok & Hc & Hnd) Hs Hd Hp. unfold rman_raw_free. rewrite Hp.
  destruct (seg_at_spec [] (segs r) s Hnd Hs) as (prev & next & -> & Hl). simpl in Hl.
  cbn [mbind option_bind]. rewrite Hd. split_and!; [|intros; by rewrite bool_decide_false by congruence|done].
  rewrite bool_decide_true by done. simpl. rewrite <- Hl in Hok, Hc, Hnd |- *.
  apply coalesced_zip in Hc as (Hc1 & _ & _ & Hc2).
  set (s' := mk_seg (seg_addr s) None (start s) (size s)).
  assert (Hok' : ok_from 0 (rev prev ++ s' :: next)).
  { rewrite ok_from_zip in Hok |- *. exact Hok. }
  destruct (merge_spec prev s' next) as (H1 & H2 & H3 & H4); try done.
  { rewrite NoDup_addr_zip in Hnd |- *. exact Hnd. }
  eexists. split; [done|]. split; [done|]. intros a. simpl. rewrite H4, !owner_zip by done.
  change (holds s' a) with (holds s a). by case_if.
Qed.

(** ** Concrete managers *)

(** Two regions, in the first of which a device holds ten addresses. *)
Definition rman3 : rman :=
  mk_rman [mk_seg 1 None 16 84; mk_seg 2 (Some 7) 100 10; mk_seg 3 None 200 100] RESOURCE_ANY_ALIGN.

Lemma rman3_inv : inv rman3.
Proof.
  split; [|split].
  - simpl. unfold seg_end. simpl. lia.
  - simpl. unfold unmerged, is_free, seg_end. simpl. split_and!; try done; intros (? & ? & ?); done.
  - apply (bool_decide_unpack _). vm_compute. exact I.
Qed.

Lemma rman_add_region_correct_witness :
  exists r', rman_raw_add_region rman3 110 20 (Some 4) = (r', Ok tt)
  /\ owner (segs r') 115 = Some None /\ owner (segs r') 105 = Some (Some 7).
Proof.
  destruct (rman_add_region_correct rman3 110 20 4) as [(E & _)|(r' & E & _ & _ & Ho)];
    [exact rman3_inv|lia|lia|lia|vm_compute; set_solver|discriminate E|].
  exists r'. split; [exact E|]. rewrite !Ho. split; reflexivity.
Defined.

Lemma rman_allocate_correct_witness :
  exists r', rman_raw_allocate rman3 9 (mk_request 0 1000 40 64 0) (Some 4) (Some 5) true
    = (r', Ok (mk_resource 3 256 40 0 RID_NONE)) /\ inv r'.
Proof.
  pose proof (rman_allocate_correct rman3 9 (mk_request 0 1000 40 64 0) 4 5 rman3_inv) as H.
  specialize (H ltac:(unfold request_ok; simpl; lia)).
  specialize (H ltac:(apply (bool_decide_unpack _); vm_compute; exact I)).
  eexists. split; [vm_compute; reflexivity|]. apply H.
Defined.

Lemma rman_free_correct_witness :
  exists r', rman_raw_free rman3 7 (Some (mk_resource 2 100 10 0 RID_NONE)) = Some r'
  /\ owner (segs r') 105 = Some None.
Proof.
  destruct (rman_free_correct rman3 7 (mk_seg 2 (Some 7) 100 10) (mk_resource 2 100 10 0 RID_NONE))
    as ((r' & E & _ & Ho) & _); [exact rman3_inv|set_solver|reflexivity|reflexivity|].
  exists r'. split; [exact E|]. rewrite Ho. reflexivity.
Defined.

End Rman.
