(* ===== verification/Tty.v ===== *)
(** Terminals (kernel/drivers/tty.c, kernel/include/drivers/tty.h): output
    processing, the line discipline and the reading side.

    The input buffer is a [ByteQueue].  The flags of a [struct termios] are bits
    whose values are in a header of the C library; here each one is a boolean, and
    a test of several flags at once is a conjunction.  The control characters are
    the fields of [c_cc].  [iscntrl] is the function of the C library, an argument.
    A character is a byte; where the source compares a [char] with an [int], [cval]
    is its promoted value (signed, as on x86_64).  Characters given to the driver
    ([ops->out]) are recorded in [output], signals to the foreground group in
    [signals] and wake-ups in [woken], each most recent first.  [None] stands for an access outside an array. *)

From S2P Require Import Prelude UserMem RingBuf Blocking.
Import UserMem RingBuf Blocking.

Module Tty.

Record termios := mk_termios {
  OPOST : bool; OLCUC : bool; ONLCR : bool; OCRNL : bool; ONOCR : bool; ONLRET : bool;
  IMAXBEL : bool; INLCR : bool; IGNCR : bool; ICRNL : bool; IUCLC : bool; ISTRIP : bool;
  ISIG : bool; ICANON : bool; ECHO : bool; ECHOE : bool; ECHOK : bool; ECHONL : bool;
  ECHOCTL : bool;
  VEOF : Z; VEOL : Z; VERASE : Z; VINTR : Z; VKILL : Z; VQUIT : Z; VSUSP : Z; VMIN : Z;
}.

Inductive signal := SIGINT | SIGQUIT | SIGTSTP.
Inductive queue := Readers | Writers.

Definition NL : Z := 10.
Definition CR : Z := 13.
Definition TAB : Z := 9.
Definition BS : Z := 8.
Definition BEL : Z := 7.
Definition SPACE : Z := 32.

Definition CANON_SIZE : Z := 512.
Definition LINES_SIZE : Z := 256.

(** A [char] as an [int]. *)
Definition cval (c : Z) : Z := if c <? 128 then c else c - 256.

Section tty.
Context {Q : Type} `{BQ : ByteQueue Q}.
Context (iscntrl : Z -> bool).

Record tty := mk_tty {
  input_buffer : Q;
  canon_buf : list Z;
  canon_index : Z;
  termios_ : termios;
  column : Z;
  lines : list Z;
  lines_count : Z;
  unplugged : bool;
  output : list Z;
  signals : list signal;
  woken : list queue;
}.

Implicit Types (t : tty) (c : Z).

Definition set_input t q := mk_tty q (canon_buf t) (canon_index t) (termios_ t) (column t)
  (lines t) (lines_count t) (unplugged t) (output t) (signals t) (woken t).
Definition set_canon t buf i := mk_tty (input_buffer t) buf i (termios_ t) (column t)
  (lines t) (lines_count t) (unplugged t) (output t) (signals t) (woken t).
Definition set_lines t ls n := mk_tty (input_buffer t) (canon_buf t) (canon_index t) (termios_ t)
  (column t) ls n (unplugged t) (output t) (signals t) (woken t).
Definition set_termios t tm := mk_tty (input_buffer t) (canon_buf t) (canon_index t) tm
  (column t) (lines t) (lines_count t) (unplugged t) (output t) (signals t) (woken t).
Definition emit t (col : Z) c := mk_tty (input_buffer t) (canon_buf t) (canon_index t) (termios_ t)
  col (lines t) (lines_count t) (unplugged t) (c :: output t) (signals t) (woken t).
Definition signal_send_group t s := mk_tty (input_buffer t) (canon_buf t) (canon_index t)
  (termios_ t) (column t) (lines t) (lines_count t) (unplugged t) (output t) (s :: signals t)
  (woken t).
Definition wakeup_queue t q := mk_tty (input_buffer t) (canon_buf t) (canon_index t)
  (termios_ t) (column t) (lines t) (lines_count t) (unplugged t) (output t) (signals t)
  (q :: woken t).

(** ** Output *)

(** The body of [tty_output]; [rec] is its recursive call with ['\r']. *)
Definition output_body (rec : tty -> tty) t c : tty :=
  let tm := termios_ t in
  let finish t c :=
    emit t (if (c =? CR) || ((c =? NL) && ONLRET tm) then 0 else column t +! 1) c in
  if OPOST tm then
    let c := if OLCUC tm then if (97 <=? c) && (c <=? 122) then c - 32 else c else c in
    let t := if ONLCR tm then if c =? NL then rec t else t else t in
    let c := if OCRNL tm then if c =? CR then NL else c else c in
    if ONOCR tm && ((c =? CR) && (column t =? 0)) then t
    else finish t c
  else finish t c.

(** The inner call is with ['\r'] and does not recurse. *)
Definition tty_output t c : tty := output_body (fun t => output_body id t CR) t c.

Definition tty_max_bell t : tty := if IMAXBEL (termios_ t) then tty_output t BEL else t.

Definition tty_erase t c : tty :=
  let rub t := tty_output (tty_output (tty_output t BS) SPACE) BS in
  let t := if iscntrl (cval c) && ECHOCTL (termios_ t) then rub t else t in
  rub t.

Definition canon_at t (i : Z) : option Z :=
  if (0 <=? i) && (i <? CANON_SIZE) then canon_buf t !! Z.to_nat i else None.

Definition tty_echo t c : option tty :=
  let tm := termios_ t in
  if (c =? NL) && (ECHONL tm && ICANON tm) then Some (tty_output t c)
  else if ECHO tm then
    if (c =? NL) || (c =? TAB) then Some (tty_output t c)
    else if (cval c =? VERASE tm) && (ECHOE tm && ICANON tm) then
      e ← canon_at t (canon_index t -! 1);
      Some (tty_erase t e)
    else if (cval c =? VKILL tm) && (ECHOK tm && ICANON tm) then
      (* the loop over the line returns in its first turn *)
      if canon_index t >? 0 then
        e ← canon_at t (canon_index t -! 1);
        Some (tty_erase t e)
      else Some t
    else if iscntrl (cval c) && ECHOCTL tm then
      Some (tty_output (tty_output t 94) (u8 (c + 65 - 1)))
    else Some (tty_output t c)
  else Some t.

(** ** Input *)

(** Kernel memory that holds [bs] at address 0. *)
Definition kernel_buffer (bs : list Z) : gmap Z Z := poke ∅ 0 bs.

(** [ret] and the test of [ringbuffer_write] against what was asked for. *)
Definition ret_of (r : res Z) : Z := match r with Ok n => n | Err _ => -1 end.

Definition tty_canon_send_line t : tty :=
  let '(q, r) := q_write (input_buffer t) (kernel_buffer (canon_buf t)) 0 (canon_index t) in
  let ret := ret_of r in
  let t := set_input t q in
  let t := if ret <? canon_index t then tty_max_bell t else t in
  if lines_count t >=? LINES_SIZE then tty_max_bell t
  else
    let t := set_lines t (<[Z.to_nat (lines_count t) := u64 ret]> (lines t)) (lines_count t + 1) in
    wakeup_queue (set_canon t (canon_buf t) 0) Readers.

(** The translations of [tty_input]; [None] when the character is ignored. *)
Definition input_map (tm : termios) c : option Z :=
  let c := if INLCR tm then if c =? NL then CR else c else c in
  if IGNCR tm && (c =? CR) then None
  else
    let c := if ICRNL tm then if c =? CR then NL else c else c in
    let c := if IUCLC tm then if (65 <=? c) && (c <=? 90) then c + 32 else c else c in
    let c := if ISTRIP tm then Z.land c 127 else c in
    Some c.

Definition tty_input t c : option tty :=
  let tm := termios_ t in
  match input_map tm c with
  | None => Some t
  | Some c =>
      if ISIG tm && (cval c =? VINTR tm) then
        t ← tty_echo t c; Some (signal_send_group t SIGINT)
      else if ISIG tm && (cval c =? VQUIT tm) then
        t ← tty_echo t c; Some (signal_send_group t SIGQUIT)
      else if ISIG tm && (cval c =? VSUSP tm) then
        t ← tty_echo t c; Some (signal_send_group t SIGTSTP)
      else if ICANON tm then
        if VERASE tm =? cval c then
          if canon_index t >? 0 then
            t ← tty_echo t c;
            Some (set_canon t (canon_buf t) (canon_index t - 1))
          else Some t
        else if VKILL tm =? cval c then
          t ← tty_echo t c;
          Some (set_canon t (canon_buf t) 0)
        else if VEOF tm =? cval c then Some (tty_canon_send_line t)
        else
          t ← (if canon_index t >=? CANON_SIZE then Some (tty_max_bell t)
               else
                 tty_echo (set_canon t (<[Z.to_nat (canon_index t) := c]> (canon_buf t))
                             (canon_index t + 1)) c);
          Some (if (c =? NL) || (cval c =? VEOL tm) then tty_canon_send_line t else t)
      else
        t ← tty_echo t c;
        let '(q, r) := q_write (input_buffer t) (kernel_buffer [c]) 0 1 in
        let t := set_input t q in
        Some (if ret_of r =? 0 then tty_max_bell t else wakeup_queue t Readers)
  end.

Fixpoint tty_raw_add_input t (buffer : list Z) : option (tty * Z) :=
  match buffer with
  | [] => Some (t, 0)
  | c :: buffer =>
      t ← tty_input t c;
      '(t, total) ← tty_raw_add_input t buffer;
      Some (t, 1 + total)
  end.

(** ** Reading *)

Definition tty_end_read_sleep t : bool :=
  if unplugged t then true
  else if ICANON (termios_ t) then lines_count t >? 0
  else q_read_available (input_buffer t) >=? VMIN (termios_ t).

Inductive read_result :=
  | RDone (t : tty) (mem : gmap Z Z) (r : res Z) (sched : list (wake tty))
  | RBlocked.

Definition line0 t : Z := nthZ 0 (lines t) 0.

Definition tty_raw_read t (mem : gmap Z Z) (buffer count : Z) (nonblock : bool)
    (sched : list (wake tty)) : read_result :=
  let finish t mem r sched :=
    RDone (match r with Ok _ => wakeup_queue t Writers | Err _ => t end) mem r sched in
  let do_read t sched :=
    if ICANON (termios_ t) then
      if lines_count t <=? 0 then RDone t mem (if unplugged t then Ok 0 else Err EAGAIN) sched
      else
        let count := if count >? line0 t then line0 t else count in
        let '(q, mem, r) := q_read (input_buffer t) mem buffer count in
        let t := set_input t q in
        match r with
        | Ok ret =>
            let ls := <[0%nat := line0 t -! ret]> (lines t) in
            if line0 t -! ret =? 0 then
              let n := lines_count t - 1 in
              finish (set_lines t (takeZ n (drop 1 ls) ++ dropZ n ls) n) mem r sched
            else finish (set_lines t ls (lines_count t)) mem r sched
        | Err _ => finish t mem r sched
        end
    else if q_read_available (input_buffer t) <? VMIN (termios_ t)
    then RDone t mem (if unplugged t then Ok 0 else Err EAGAIN) sched
    else
      let '(q, mem, r) := q_read (input_buffer t) mem buffer count in
      finish (set_input t q) mem r sched in
  if nonblock then do_read t sched
  else
    match sleep_on_queue_lock_interruptible tty_end_read_sleep t sched with
    | Asleep => RBlocked
    | Intr t sched => RDone t mem (Err EINTR) sched
    | Ready t sched => do_read t sched
    end.

Record pollset := mk_poll { POLLHUP : bool; POLLIN : bool; POLLOUT : bool }.

Definition tty_poll_get t (revents : pollset) : pollset :=
  mk_poll (POLLHUP revents || unplugged t)
    (POLLIN revents ||
     if ICANON (termios_ t) then lines_count t >? 0
     else q_read_available (input_buffer t) >=? VMIN (termios_ t))
    true.

(** ** Writing

    [out] is what [tty_output] returns for a character, the value of the driver:
    negative for an error. *)
Fixpoint write_chars (out : tty -> Z -> Z) t (kbuf : list Z) (ret : Z) : tty * Z :=
  match kbuf with
  | [] => (t, ret)
  | c :: kbuf =>
      let ret := out t c in
      let t := tty_output t c in
      if ret <? 0 then (t, ret) else write_chars out t kbuf ret
  end.

Fixpoint write_loop (fuel : nat) (out : tty -> Z -> Z) t (mem : gmap Z Z)
    (buffer count total ret : Z) : option (tty * res Z) :=
  match fuel with
  | O => None
  | S fuel =>
      if count >? 0 then
        let w := if 128 <? count then 128 else count in
        match safe_copy_from mem buffer w with
        | None => Some (t, if total =? 0 then Err EFAULT else Ok total)
        | Some kbuf =>
            let '(t, ret) := write_chars out t kbuf ret in
            write_loop fuel out t mem (buffer + w) (count - w) (total + w) ret
        end
      else Some (t, Ok total)
  end.

(** After a chunk was written [total] is positive, so an error of the driver is
    never returned. *)
Definition tty_raw_write (out : tty -> Z -> Z) t mem buffer count : option (tty * res Z) :=
  write_loop (S (Z.to_nat count)) out t mem buffer count 0 0.

(** ** Settings *)

(** [update] is what [ops->update_termios] returns. *)
Definition tty_termios_update t (update : res unit) (new : termios) : tty * res unit :=
  match update with
  | Err e => (t, Err e)
  | Ok _ =>
      let t :=
        if ICANON new && negb (ICANON (termios_ t)) then
          let av := q_read_available (input_buffer t) in
          let t := if av >? 0 then set_lines t (<[0%nat := av]> (lines t)) 1
                   else set_lines t (lines t) 0 in
          set_canon t (canon_buf t) 0
        else t in
      let t :=
        if negb (ICANON new) && ICANON (termios_ t) then
          if canon_index t >? 0 then tty_canon_send_line t else t
        else t in
      (wakeup_queue (set_termios t new) Readers, Ok tt)
  end.

Definition default_termios : termios :=
  mk_termios true false true false false false
    true false false true false false
    true true true true true true true
    4 0 127 3 21 28 26 1.

(** The state [tty_register] leaves: [mem] is the memory of the tty, which the caller
    allocated zeroed. *)
Definition tty_register (q : Q) : tty :=
  mk_tty q (replicate 512 0) 0 default_termios 0 (replicate 256 0) 0 false [] [] [].


(** ** What display operations do *)

(** Only the column and what was given to the driver change. *)
Definition with_out t (col : Z) (o : list Z) : tty :=
  mk_tty (input_buffer t) (canon_buf t) (canon_index t) (termios_ t) col
    (lines t) (lines_count t) (unplugged t) o (signals t) (woken t).

Definition displays t t' : Prop := exists col o, t' = with_out t col o.

Lemma displays_refl t : displays t t.
Proof. exists (column t), (output t). by destruct t. Qed.

Lemma displays_trans t1 t2 t3 : displays t1 t2 -> displays t2 t3 -> displays t1 t3.
Proof. intros (col & o & ->) (col' & o' & ->). by exists col', o'. Qed.

Lemma displays_emit t col c : displays t (emit t col c).
Proof. by exists col, (c :: output t). Qed.

Lemma displays_body rec t c : (forall t, displays t (rec t)) -> displays t (output_body rec t c).
Proof.
  intros Hrec. unfold output_body. destruct (OPOST _); [|apply displays_emit].
  match goal with |- context [if ONLCR _ then ?x else _] => set (t1 := if ONLCR (termios_ t) then x else t) end.
  assert (H1 : displays t t1).
  { unfold t1. repeat case_if; try apply displays_refl; apply Hrec. }
  clearbody t1. case_if; [done|]. eapply displays_trans; [exact H1|apply displays_emit].
Qed.

Lemma displays_output t c : displays t (tty_output t c).
Proof. apply displays_body. intros t'. apply displays_body. apply displays_refl. Qed.

Lemma displays_bell t : displays t (tty_max_bell t).
Proof. unfold tty_max_bell. case_if; [apply displays_output|apply displays_refl]. Qed.

Lemma displays_erase t c : displays t (tty_erase t c).
Proof.
  unfold tty_erase. case_if; repeat (eapply displays_trans; [|apply displays_output]);
    apply displays_refl.
Qed.

(** The echo of a character fails only for an erase at the start of a line. *)
Lemma echo_spec t c :
  length (canon_buf t) = 512%nat -> 0 <= canon_index t <= CANON_SIZE ->
  (0 < canon_index t \/ cval c <> VERASE (termios_ t)) ->
  exists t', tty_echo t c = Some t' /\ displays t t'.
Proof.
  intros Hl Hi He. unfold tty_echo.
  assert (Hat : 0 < canon_index t -> exists e, canon_at t (canon_index t -! 1) = Some e).
  { intros Hp. unfold CANON_SIZE in *. unfold canon_at. rewrite u64_small by (unfold is_u64; lia).
    unfold CANON_SIZE. rewrite (proj2 (Z.leb_le _ _)), (proj2 (Z.ltb_lt _ _)) by lia. simpl.
    apply lookup_lt_is_Some_2. lia. }
  repeat case_if; eauto using displays_output, displays_refl.
  - destruct Hat as (e & ->); [lia|]. simpl. eauto using displays_erase.
  - destruct Hat as (e & ->); [lia|]. simpl. eauto using displays_erase.
  - eexists. split; [done|]. eapply displays_trans; apply displays_output.
Qed.

(** ** Invariant *)

(** The lengths of the lines that wait to be read. *)
Definition live t : list Z := takeZ (lines_count t) (lines t).

Record tty_ok t : Prop := {
  ok_queue : q_ok (input_buffer t);
  ok_canon : length (canon_buf t) = 512%nat;
  ok_index : 0 <= canon_index t <= CANON_SIZE;
  ok_lines : length (lines t) = 256%nat;
  ok_count : 0 <= lines_count t <= LINES_SIZE;
  ok_live : Forall (fun n => 0 <= n) (live t);
  ok_sum : ICANON (termios_ t) = true -> sumZ (live t) <= lenZ (q_contents (input_buffer t));
}.

Lemma displays_ok t t' : displays t t' -> tty_ok t -> tty_ok t'.
Proof. intros (col & o & ->) []. by constructor. Qed.

End tty.

Arguments tty Q : clear implicits.

Section laws.
Context {Q : Type} `{BQ : ByteQueue Q} {BQL : ByteQueueLaws Q}.
Context (iscntrl : Z -> bool).
Implicit Types (t : tty Q) (c : Z).

Lemma load_kernel_buffer bs n :
  0 <= n <= lenZ bs -> load_bytes (kernel_buffer bs) 0 n = Some (takeZ n bs).
Proof.
  intros Hn. pose proof (load_poke ∅ 0 bs) as H.
  replace (lenZ bs) with (n + (lenZ bs - n)) in H by lia.
  rewrite load_bytes_add in H by lia.
  destruct (load_bytes (poke ∅ 0 bs) 0 n) as [xs|] eqn:E1; [|done]. simpl in H.
  destruct (load_bytes (poke ∅ 0 bs) (0 + n) (lenZ bs - n)) as [ys|] eqn:E2; [|done].
  simpl in H. injection H as <-. unfold kernel_buffer. rewrite E1. f_equal.
  apply load_bytes_length in E1; [|lia]. unfold takeZ. rewrite <- E1. unfold lenZ.
  by rewrite Nat2Z.id, take_app_length.
Qed.

(** Appending a line to the array. *)
Lemma live_append t q buf i n :
  tty_ok t -> lines_count t < LINES_SIZE ->
  live (set_canon (set_lines (set_input t q) (<[Z.to_nat (lines_count t) := n]> (lines t))
    (lines_count t + 1)) buf i) = live t ++ [n].
Proof.
  intros [_ _ _ Hl Hc _ _] Hlt. unfold live, LINES_SIZE in *. simpl. unfold takeZ.
  replace (Z.to_nat (lines_count t + 1)) with (S (Z.to_nat (lines_count t))) by lia.
  rewrite (take_S_r _ _ n) by (rewrite list_lookup_insert_eq by lia; done).
  by rewrite take_insert_ge by lia.
Qed.

Lemma send_line_spec t :
  tty_ok t ->
  let t' := tty_canon_send_line t in
  let n := Z.min (canon_index t) (q_write_available (input_buffer t)) in
  tty_ok t' /\ canon_buf t' = canon_buf t /\ termios_ t' = termios_ t /\ unplugged t' = unplugged t
  /\ q_capacity (input_buffer t') = q_capacity (input_buffer t)
  /\ q_contents (input_buffer t') = q_contents (input_buffer t) ++ takeZ n (canon_buf t)
  /\ (lines_count t < LINES_SIZE -> live t' = live t ++ [n] /\ canon_index t' = 0 /\
        lines_count t' = lines_count t + 1).
Proof.
  intros Hok t' n. pose proof Hok as [Hq Hb Hi Hl Hc Hlv Hs].
  pose proof (q_write_available_spec _ Hq). pose proof (q_bounded _ Hq).
  unfold CANON_SIZE, LINES_SIZE in *.
  assert (Hn : 0 <= n <= 512) by (unfold n; lia).
  assert (Hlb : lenZ (canon_buf t) = 512) by (unfold lenZ; lia).
  pose proof (q_write_spec _ (kernel_buffer (canon_buf t)) 0 (canon_index t) Hq ltac:(lia)) as Hw.
  fold n in Hw. rewrite load_kernel_buffer in Hw by lia.
  destruct Hw as (q' & Ew & Hq' & Hc' & Hcap). rewrite lenZ_takeZ in Ew by lia.
  unfold t', tty_canon_send_line. rewrite Ew. cbn [ret_of].
  set (t1 := if n <? canon_index (set_input t q') then _ else _).
  assert (H1 : displays (set_input t q') t1).
  { unfold t1. case_if; [apply displays_bell|apply displays_refl]. }
  clearbody t1. destruct H1 as (col & o & ->). cbn [lines_count with_out set_input].
  rewrite u64_small by (unfold is_u64; lia). unfold LINES_SIZE.
  assert (Hsum : ICANON (termios_ t) = true ->
    sumZ (live t) + n <= lenZ (q_contents q')).
  { intros Hcan. rewrite Hc', lenZ_app, lenZ_takeZ by lia. specialize (Hs Hcan). lia. }
  destruct (lines_count t >=? 256) eqn:E.
  - destruct (displays_bell (with_out (set_input t q') col o)) as (col' & o' & ->).
    split_and!; try done; [|lia]. constructor; try done. simpl. intros Hcan.
    specialize (Hsum Hcan). unfold live in *. simpl. lia.
  - assert (Hlive : forall i, live (set_canon (set_lines (set_input t q')
        (<[Z.to_nat (lines_count t) := n]> (lines t)) (lines_count t + 1)) (canon_buf t) i)
        = live t ++ [n]) by (intros; apply live_append; [done|unfold LINES_SIZE; lia]).
    split_and!; try done.
    + constructor; simpl; try done; try (unfold CANON_SIZE, LINES_SIZE; lia).
      * by rewrite length_insert.
      * change (Forall (fun n => 0 <= n) (live (set_canon (set_lines (set_input t q')
          (<[Z.to_nat (lines_count t) := n]> (lines t)) (lines_count t + 1)) (canon_buf t) 0))).
        rewrite Hlive. apply Forall_app. split; [done|]. constructor; [lia|constructor].
      * change (ICANON (termios_ t) = true -> sumZ (live (set_canon (set_lines (set_input t q')
          (<[Z.to_nat (lines_count t) := n]> (lines t)) (lines_count t + 1)) (canon_buf t) 0)) <=
          lenZ (q_contents q')).
        rewrite Hlive, sumZ_app. simpl. intros Hcan. specialize (Hsum Hcan). lia.
    + intros _. split_and!; try done. exact (Hlive 0).
Qed.

(** ** The line discipline *)

Lemma set_canon_ok t buf i :
  tty_ok t -> length buf = 512%nat -> 0 <= i <= CANON_SIZE -> tty_ok (set_canon t buf i).
Proof. intros [] ? ?. by constructor. Qed.

Lemma signal_ok t s : tty_ok t -> tty_ok (signal_send_group t s).
Proof. intros []. by constructor. Qed.

Lemma wakeup_ok t q : tty_ok t -> tty_ok (wakeup_queue t q).
Proof. intros []. by constructor. Qed.

Lemma set_input_ok t q ds :
  tty_ok t -> q_ok q -> q_contents q = q_contents (input_buffer t) ++ ds -> tty_ok (set_input t q).
Proof.
  intros [] Hq Hc. constructor; try done. simpl. intros Hcan. rewrite Hc, lenZ_app.
  pose proof (lenZ_nonneg ds). specialize (ok_sum0 Hcan). unfold live in *. simpl. lia.
Qed.

(** The erase character is not one that sends a signal. *)
Definition erase_plain (tm : termios) : Prop :=
  ISIG tm = true -> VERASE tm <> VINTR tm /\ VERASE tm <> VQUIT tm /\ VERASE tm <> VSUSP tm.

Lemma echo_ok t c :
  tty_ok t -> (0 < canon_index t \/ cval c <> VERASE (termios_ t)) ->
  exists t', tty_echo iscntrl t c = Some t' /\ displays t t' /\ tty_ok t'.
Proof.
  intros Hok H. destruct (echo_spec iscntrl t c) as (t' & E & Hd); [apply Hok|apply Hok|done|].
  exists t'. split; [done|]. split; [done|]. by eapply displays_ok.
Qed.

(** Canonical mode, after the translations and the signals. *)
Definition canon_input t c : option (tty Q) :=
  let tm := termios_ t in
  if VERASE tm =? cval c then
    if canon_index t >? 0 then
      t ← tty_echo iscntrl t c;
      Some (set_canon t (canon_buf t) (canon_index t - 1))
    else Some t
  else if VKILL tm =? cval c then
    t ← tty_echo iscntrl t c;
    Some (set_canon t (canon_buf t) 0)
  else if VEOF tm =? cval c then Some (tty_canon_send_line t)
  else
    t ← (if canon_index t >=? CANON_SIZE then Some (tty_max_bell t)
         else
           tty_echo iscntrl (set_canon t (<[Z.to_nat (canon_index t) := c]> (canon_buf t))
                       (canon_index t + 1)) c);
    Some (if (c =? NL) || (cval c =? VEOL tm) then tty_canon_send_line t else t).

(** Non-canonical mode. *)
Definition raw_input t c : option (tty Q) :=
  t ← tty_echo iscntrl t c;
  let '(q, r) := q_write (input_buffer t) (kernel_buffer [c]) 0 1 in
  let t := set_input t q in
  Some (if ret_of r =? 0 then tty_max_bell t else wakeup_queue t Readers).

Lemma input_unfold t c0 :
  tty_input iscntrl t c0 =
  match input_map (termios_ t) c0 with
  | None => Some t
  | Some c =>
      let tm := termios_ t in
      if ISIG tm && (cval c =? VINTR tm) then
        t ← tty_echo iscntrl t c; Some (signal_send_group t SIGINT)
      else if ISIG tm && (cval c =? VQUIT tm) then
        t ← tty_echo iscntrl t c; Some (signal_send_group t SIGQUIT)
      else if ISIG tm && (cval c =? VSUSP tm) then
        t ← tty_echo iscntrl t c; Some (signal_send_group t SIGTSTP)
      else if ICANON tm then canon_input t c else raw_input t c
  end.
Proof. done. Qed.

Lemma canon_input_ok t c :
  tty_ok t -> exists t', canon_input t c = Some t' /\ tty_ok t' /\ termios_ t' = termios_ t.
Proof.
  intros Hok. pose proof (ok_index t Hok) as Hi. unfold canon_input.
  destruct (VERASE (termios_ t) =? cval c) eqn:E1; zbool.
  { destruct (canon_index t >? 0) eqn:Ei; [|by exists t].
    destruct (echo_ok t c) as (t' & -> & Hd & Hok'); [done|lia|]. simpl. eexists. split; [done|].
    destruct Hd as (col & o & ->). split; [|done]. apply set_canon_ok; [done|apply Hok|]. simpl. lia. }
  destruct (VKILL (termios_ t) =? cval c) eqn:E2; zbool.
  { destruct (echo_ok t c) as (t' & -> & Hd & Hok'); [done|by right|]. simpl. eexists. split; [done|].
    destruct Hd as (col & o & ->). split; [|done]. apply set_canon_ok; [done|apply Hok|].
    unfold CANON_SIZE in *. lia. }
  destruct (VEOF (termios_ t) =? cval c) eqn:E3.
  { eexists. split; [done|]. by destruct (send_line_spec t Hok) as (? & _ & ? & _). }
  match goal with |- context [mbind _ ?m] => set (stored := m) end.
  assert (H : exists t1, stored = Some t1 /\ tty_ok t1 /\ termios_ t1 = termios_ t).
  { unfold stored. destruct (canon_index t >=? CANON_SIZE) eqn:E4.
    - eexists. split; [done|]. pose proof (displays_bell t) as Hd. split; [by eapply displays_ok|].
      by destruct Hd as (col & o & ->).
    - destruct (echo_ok (set_canon t (<[Z.to_nat (canon_index t) := c]> (canon_buf t))
        (canon_index t + 1)) c) as (t1 & E & Hd & Hok1).
      + apply set_canon_ok; [done|rewrite length_insert; apply Hok|lia].
      + by right.
      + exists t1. split; [done|]. split; [done|]. by destruct Hd as (col & o & ->). }
  destruct H as (t1 & -> & Hok1 & Htm). simpl. eexists. split; [done|].
  case_if; [|done]. destruct (send_line_spec t1 Hok1) as (? & _ & Htm' & _).
  split; [done|]. by rewrite Htm'.
Qed.

Lemma raw_input_ok t c :
  tty_ok t -> ICANON (termios_ t) = false ->
  exists t', raw_input t c = Some t' /\ tty_ok t' /\ termios_ t' = termios_ t.
Proof.
  intros Hok Hcan. unfold raw_input.
  assert (He : exists t1, tty_echo iscntrl t c = Some t1 /\ displays t t1).
  { unfold tty_echo. rewrite Hcan, !andb_false_r.
    repeat case_if; eauto using displays_output, displays_refl.
    eexists. split; [done|]. eapply displays_trans; apply displays_output. }
  destruct He as (t1 & -> & Hd). cbn [mbind option_bind].
  pose proof (displays_ok _ _ Hd Hok) as Hok1.
  assert (Htm : termios_ t1 = termios_ t) by (by destruct Hd as (col & o & ->)).
  pose proof (q_write_spec (input_buffer t1) (kernel_buffer [c]) 0 1 (ok_queue _ Hok1) ltac:(lia)) as Hw.
  pose proof (q_write_available_spec _ (ok_queue _ Hok1)). pose proof (q_bounded _ (ok_queue _ Hok1)).
  rewrite load_kernel_buffer in Hw by (unfold lenZ; simpl; lia).
  destruct Hw as (q' & -> & Hq' & Hc' & _). cbn [ret_of].
  pose proof (set_input_ok t1 q' _ Hok1 Hq' Hc') as Hok2.
  eexists. split; [done|]. case_if.
  - pose proof (displays_bell (set_input t1 q')) as Hd2. split; [by eapply displays_ok|].
    by destruct Hd2 as (col & o & ->).
  - split; [by apply wakeup_ok|done].
Qed.

(** No character can break a terminal.  Whatever the settings, as long as the
    erase character is not also one that sends a signal, handling a character ends
    without leaving the arrays of the line and of the line lengths and without
    changing the settings, and keeps the invariant: indices in range, the ring
    buffer well formed and, in canonical mode, at least as many bytes buffered as
    the lines that wait account for. *)
Theorem tty_input_safe t c :
  tty_ok t -> erase_plain (termios_ t) ->
  exists t', tty_input iscntrl t c = Some t' /\ tty_ok t' /\ termios_ t' = termios_ t.
Proof.
  intros Hok He. rewrite input_unfold. destruct (input_map (termios_ t) c) as [c'|]; [|by exists t].
  assert (Hsig : ISIG (termios_ t) = true ->
    (cval c' = VINTR (termios_ t) \/ cval c' = VQUIT (termios_ t) \/ cval c' = VSUSP (termios_ t)) ->
    forall s, exists t', (t ← tty_echo iscntrl t c'; Some (signal_send_group t s)) = Some t'
      /\ tty_ok t' /\ termios_ t' = termios_ t).
  { intros Hs Hc s. destruct (echo_ok t c') as (t1 & -> & Hd & Hok1); [done| |].
    - right. destruct (He Hs) as (? & ? & ?). intuition congruence.
    - simpl. eexists. split; [done|]. split; [by apply signal_ok|]. by destruct Hd as (col & o & ->). }
  cbv zeta. case_if; [apply Hsig; tauto|]. case_if; [apply Hsig; tauto|].
  case_if; [apply Hsig; tauto|].
  destruct (ICANON (termios_ t)) eqn:Ec; [by apply canon_input_ok|].
  by apply raw_input_ok.
Qed.

(** *** The abstract line editor

    What canonical mode promises: a line under edition and the lines sent. *)
Record editor := mk_editor { pend : list Z; sent : list (list Z) }.

Definition send (e : editor) : editor := mk_editor [] (sent e ++ [pend e]).

Definition edit (tm : termios) (e : editor) c : editor :=
  if VERASE tm =? cval c then mk_editor (removelast (pend e)) (sent e)
  else if VKILL tm =? cval c then mk_editor [] (sent e)
  else if VEOF tm =? cval c then send e
  else
    let e := mk_editor (pend e ++ [c]) (sent e) in
    if (c =? NL) || (cval c =? VEOL tm) then send e else e.

(** A terminal in canonical mode holds the state of an editor. *)
Definition represents t (e : editor) : Prop :=
  tty_ok t /\ ICANON (termios_ t) = true /\
  takeZ (canon_index t) (canon_buf t) = pend e /\
  live t = lenZ <$> sent e /\
  q_contents (input_buffer t) = concat (sent e).

Lemma concat_snoc (ls : list (list Z)) l : concat (ls ++ [l]) = concat ls ++ l.
Proof. rewrite concat_app. simpl. by rewrite app_nil_r. Qed.

Lemma represents_displays t t' e : displays t t' -> represents t e -> represents t' e.
Proof. intros Hd (Hok & ?). split; [by eapply displays_ok|]. by destruct Hd as (col & o & ->). Qed.

Lemma represents_canon t e buf i p :
  represents t e -> length buf = 512%nat -> 0 <= i <= CANON_SIZE -> takeZ i buf = p ->
  represents (set_canon t buf i) (mk_editor p (sent e)).
Proof. intros (Hok & ? & _ & ? & ?) ? ? ?. split; [by apply set_canon_ok|]. done. Qed.

(** Sending a line when there is room for it. *)
Lemma represents_send t e :
  represents t e -> lines_count t < LINES_SIZE ->
  lenZ (q_contents (input_buffer t)) + canon_index t <= q_capacity (input_buffer t) ->
  represents (tty_canon_send_line t) (send e).
Proof.
  intros (Hok & Hcan & Hp & Hl & Hq) Hc Hroom.
  destruct (send_line_spec t Hok) as (Hok' & Hb & Htm & _ & _ & Hq' & Hlive).
  destruct (Hlive Hc) as (Hlv & Hi & _).
  rewrite q_write_available_spec in Hq', Hlv by apply Hok. rewrite Z.min_l in Hq', Hlv by lia.
  split; [done|]. rewrite Htm, Hi, Hlv, Hq', Hp, Hl, Hq. simpl. split_and!; try done.
  - rewrite fmap_app. simpl. rewrite <- Hp, lenZ_takeZ; [done|].
    pose proof (ok_index t Hok). pose proof (ok_canon t Hok). unfold lenZ, CANON_SIZE in *. lia.
  - by rewrite concat_snoc.
Qed.

Lemma takeZ_insert_snoc (buf : list Z) i c :
  0 <= i < lenZ buf -> takeZ (i + 1) (<[Z.to_nat i := c]> buf) = takeZ i buf ++ [c].
Proof.
  intros Hi. unfold takeZ, lenZ in *. replace (Z.to_nat (i + 1)) with (S (Z.to_nat i)) by lia.
  rewrite (take_S_r _ _ c) by (rewrite list_lookup_insert_eq by lia; done).
  by rewrite take_insert_ge by lia.
Qed.

Lemma takeZ_removelast (buf : list Z) i :
  0 < i <= lenZ buf -> takeZ (i - 1) buf = removelast (takeZ i buf).
Proof.
  intros Hi. unfold takeZ, lenZ in *. replace (Z.to_nat i) with (S (Z.to_nat (i - 1))) by lia.
  destruct (lookup_lt_is_Some_2 buf (Z.to_nat (i - 1))) as [x Hx]; [lia|].
  rewrite (take_S_r _ _ x Hx). by rewrite removelast_last.
Qed.

Lemma canon_input_edit t e c :
  represents t e -> canon_index t < CANON_SIZE -> lines_count t < LINES_SIZE ->
  lenZ (q_contents (input_buffer t)) + canon_index t + 1 <= q_capacity (input_buffer t) ->
  exists t', canon_input t c = Some t' /\ represents t' (edit (termios_ t) e c).
Proof.
  intros Hr Hi Hc Hroom. pose proof Hr as (Hok & Hcan & Hp & Hl & Hq).
  pose proof (ok_index t Hok) as Hix. pose proof (ok_canon t Hok) as Hb.
  assert (Hlb : lenZ (canon_buf t) = 512) by (unfold lenZ; lia). unfold CANON_SIZE in *.
  unfold canon_input, edit. destruct (VERASE (termios_ t) =? cval c) eqn:E1; zbool.
  { destruct (canon_index t >? 0) eqn:Ei.
    - destruct (echo_ok t c) as (t' & -> & Hd & Hok'); [done|lia|]. simpl. eexists. split; [done|].
      apply (represents_displays _ _ e) in Hd as Hr'; [|done]. destruct Hd as (col & o & ->).
      apply (represents_canon _ _ _ _ _ Hr'); [done|unfold CANON_SIZE; simpl; lia|].
      simpl. rewrite takeZ_removelast by lia. by rewrite Hp.
    - exists t. split; [done|]. replace (canon_index t) with 0 in Hp by lia.
      destruct e as [p s]. simpl in *. by rewrite <- Hp in *. }
  destruct (VKILL (termios_ t) =? cval c) eqn:E2; zbool.
  { destruct (echo_ok t c) as (t' & -> & Hd & Hok'); [done|by right|]. simpl. eexists. split; [done|].
    apply (represents_displays _ _ e) in Hd as Hr'; [|done]. destruct Hd as (col & o & ->).
    by apply (represents_canon _ _ _ _ _ Hr'); [done|unfold CANON_SIZE; lia|]. }
  destruct (VEOF (termios_ t) =? cval c) eqn:E3.
  { eexists. split; [done|]. apply represents_send; [done..|lia]. }
  unfold CANON_SIZE.
  destruct (canon_index t >=? 512) eqn:E4; [lia|].
  set (t0 := set_canon t (<[Z.to_nat (canon_index t) := c]> (canon_buf t)) (canon_index t + 1)).
  assert (Hr0 : represents t0 (mk_editor (pend e ++ [c]) (sent e))).
  { apply represents_canon with (e := e); [done|by rewrite length_insert|unfold CANON_SIZE; lia|].
    by rewrite takeZ_insert_snoc, Hp by lia. }
  destruct (echo_ok t0 c) as (t1 & -> & Hd & Hok1); [apply Hr0|by right|].
  apply (represents_displays _ _ _) with (1 := Hd) in Hr0 as Hr1. simpl. eexists. split; [done|].
  case_if; [|done]. destruct Hd as (col & o & ->). apply represents_send; [done|done|].
  simpl. lia.
Qed.

(** Canonical mode is a line editor.  While there is room (in the line, in the
    array of lengths and in the input buffer), handling a character that is not
    ignored and sends no signal does to the terminal exactly what the abstract
    editor does: erase and kill edit the line, the end-of-file character and the
    end-of-line characters send it, anything else is appended. *)
Theorem tty_input_edits t e c0 c :
  represents t e -> input_map (termios_ t) c0 = Some c ->
  (ISIG (termios_ t) = true ->
     cval c <> VINTR (termios_ t) /\ cval c <> VQUIT (termios_ t) /\ cval c <> VSUSP (termios_ t)) ->
  canon_index t < CANON_SIZE -> lines_count t < LINES_SIZE ->
  lenZ (q_contents (input_buffer t)) + canon_index t + 1 <= q_capacity (input_buffer t) ->
  exists t', tty_input iscntrl t c0 = Some t' /\ represents t' (edit (termios_ t) e c).
Proof.
  intros Hr Hm Hsig Hi Hc Hroom. rewrite input_unfold, Hm. cbv zeta.
  pose proof Hr as (_ & Hcan & _). rewrite Hcan.
  destruct (ISIG (termios_ t)) eqn:Es; simpl; [|by apply canon_input_edit].
  destruct (Hsig eq_refl) as (? & ? & ?).
  rewrite !(proj2 (Z.eqb_neq _ _)) by done. by apply canon_input_edit.
Qed.

(** *** Reading a line *)

Lemma live_cons t n ns :
  tty_ok t -> live t = n :: ns ->
  0 < lines_count t /\ line0 t = n /\ lenZ ns = lines_count t - 1 /\
  exists rest, lines t = n :: ns ++ rest.
Proof.
  intros Hok Hl. pose proof (ok_lines t Hok) as Hln. pose proof (ok_count t Hok) as Hc.
  unfold live, takeZ, LINES_SIZE in *. destruct (lines t) as [|x xs] eqn:E; [done|].
  destruct (Z.to_nat (lines_count t)) as [|k] eqn:Ek; [done|]. simpl in Hl. injection Hl as -> <-.
  simpl in Hln. unfold line0, nthZ. rewrite E. split; [lia|]. split; [done|].
  unfold lenZ. rewrite length_take, Nat.min_l by lia. split; [lia|].
  exists (drop k xs). by rewrite take_drop.
Qed.

(** The array after the first line lost bytes, or was consumed. *)
Lemma live_shrink t q n n' ns :
  tty_ok t -> live t = n :: ns ->
  live (set_lines (set_input t q) (<[0%nat := n']> (lines t)) (lines_count t)) = n' :: ns.
Proof.
  intros Hok Hl. destruct (live_cons t n ns Hok Hl) as (Hc & _ & Hn & rest & Er).
  unfold live, takeZ. simpl. rewrite Er. simpl.
  replace (Z.to_nat (lines_count t)) with (S (length ns)) by (unfold lenZ in Hn; lia).
  simpl. by rewrite take_app_length.
Qed.

Lemma live_shift t q n n' ns :
  tty_ok t -> live t = n :: ns ->
  let ls := <[0%nat := n']> (lines t) in
  let k := lines_count t - 1 in
  live (set_lines (set_input t q) (takeZ k (drop 1 ls) ++ dropZ k ls) k) = ns /\
  length (takeZ k (drop 1 ls) ++ dropZ k ls) = 256%nat.
Proof.
  intros Hok Hl ls k. destruct (live_cons t n ns Hok Hl) as (Hc & _ & Hn & rest & Er).
  pose proof (ok_lines t Hok) as Hln. unfold ls. rewrite Er in Hln |- *. simpl in Hln.
  rewrite length_app in Hln. simpl.
  assert (Hk : k = lenZ ns) by (unfold k; lia). rewrite Hk. clearbody k. subst k.
  unfold live, takeZ, dropZ, lenZ. simpl. rewrite Nat2Z.id, ?drop_0, take_app_length. split.
  - by rewrite take_app_length.
  - rewrite length_app, length_drop. simpl. rewrite length_app. lia.
Qed.

Lemma drop_concat (l0 : list Z) ls n :
  0 <= n <= lenZ l0 ->
  takeZ n (concat (l0 :: ls)) = takeZ n l0 /\
  dropZ n (concat (l0 :: ls)) = concat (if n =? lenZ l0 then ls else dropZ n l0 :: ls).
Proof.
  intros Hn. unfold takeZ, dropZ, lenZ in *. simpl. rewrite take_app_le, drop_app_le by lia.
  split; [done|]. case_if; [|done]. subst n. by rewrite Nat2Z.id, drop_all.
Qed.

Lemma sumZ_lens (v : list (list Z)) : sumZ (lenZ <$> v) <= lenZ (concat v).
Proof.
  induction v as [|x v IH]; [done|]. rewrite fmap_cons. cbn [sumZ concat]. rewrite lenZ_app. lia.
Qed.

Lemma lens_nonneg (v : list (list Z)) : Forall (fun m => 0 <= m) (lenZ <$> v).
Proof. apply Forall_fmap, Forall_forall. intros. apply lenZ_nonneg. Qed.

(** A read in canonical mode, once the terminal is ready. *)
Lemma canon_read_spec t e l0 ls mem buffer count bs :
  represents t e -> sent e = l0 :: ls -> 0 <= count ->
  let n := Z.min count (lenZ l0) in
  load_bytes mem buffer n = Some bs ->
  exists t', (forall sched, tty_raw_read t mem buffer count true sched =
      RDone t' (poke mem buffer (takeZ n l0)) (Ok n) sched) /\
    represents t' (mk_editor (pend e) (if n =? lenZ l0 then ls else dropZ n l0 :: ls)).
Proof.
  intros (Hok & Hcan & Hp & Hl & Hq) He Hcount n Hbs. rewrite He in Hl, Hq.
  rewrite fmap_cons in Hl. pose proof (lenZ_nonneg l0).
  destruct (live_cons t _ _ Hok Hl) as (Hc & H0 & Hn & _).
  pose proof (q_read_spec (input_buffer t) mem buffer n (ok_queue t Hok) ltac:(unfold n; lia)) as Hr.
  cbv zeta in Hr. rewrite q_read_available_spec in Hr by apply Hok.
  assert (Hav : lenZ l0 <= lenZ (q_contents (input_buffer t))).
  { rewrite Hq. simpl. rewrite lenZ_app. pose proof (lenZ_nonneg (concat ls)). lia. }
  rewrite Z.min_l, Hbs in Hr by lia. destruct Hr as (q' & Er & Hq' & Hcq & Hcap).
  destruct (drop_concat l0 ls n ltac:(unfold n; lia)) as (Ht & Hd). rewrite Hq, Ht in Er.
  rewrite Hq, Hd in Hcq.
  assert (Hcnt : (if count >? line0 t then line0 t else count) = n).
  { rewrite H0. unfold n. destruct (count >? lenZ l0) eqn:E; lia. }
  unfold tty_raw_read. cbv zeta. rewrite Hcan, (proj2 (Z.leb_gt _ _)) by lia.
  rewrite Hcnt, Er. change (line0 (set_input t q')) with (line0 t). rewrite H0.
  assert (Hwr : lenZ l0 -! n = lenZ l0 - n).
  { pose proof (q_capacity_pos _ (ok_queue t Hok)). pose proof (q_bounded _ (ok_queue t Hok)).
    rewrite u64_small by (unfold is_u64, n; lia). done. }
  rewrite Hwr. change (lines (set_input t q')) with (lines t).
  change (lines_count (set_input t q')) with (lines_count t).
  destruct (n =? lenZ l0) eqn:En; zbool.
  - rewrite (proj2 (Z.eqb_eq (lenZ l0 - n) 0)) by lia.
    destruct (live_shift t q' (lenZ l0) (lenZ l0 - n) (lenZ <$> ls) Hok Hl) as (Hlv & Hlen).
    eexists. split; [done|]. split; [|split_and!; try done; exact Hlv].
    constructor; try apply Hok; try done; try (simpl; pose proof (ok_count t Hok); lia).
    + change (Forall (fun m => 0 <= m) (live (set_lines (set_input t q')
        (takeZ (lines_count t - 1) (drop 1 (<[0%nat:=lenZ l0 - n]> (lines t))) ++
         dropZ (lines_count t - 1) (<[0%nat:=lenZ l0 - n]> (lines t))) (lines_count t - 1)))).
      rewrite Hlv. apply lens_nonneg.
    + intros _. simpl. rewrite Hcq. etrans; [|apply sumZ_lens].
      apply Z.eq_le_incl. f_equal. exact Hlv.
  - rewrite (proj2 (Z.eqb_neq (lenZ l0 - n) 0)) by lia.
    pose proof (live_shrink t q' (lenZ l0) (lenZ l0 - n) (lenZ <$> ls) Hok Hl) as Hlv.
    assert (Hlv' : live (set_lines (set_input t q') (<[0%nat:=lenZ l0 - n]> (lines t))
      (lines_count t)) = lenZ <$> (dropZ n l0 :: ls)).
    { rewrite Hlv, fmap_cons. rewrite lenZ_dropZ by (unfold n; lia). done. }
    eexists. split; [done|]. split; [|split_and!; try done; exact Hlv'].
    constructor; try apply Hok; try done.
    + simpl. rewrite length_insert. apply Hok.
    + change (Forall (fun m => 0 <= m) (live (set_lines (set_input t q')
        (<[0%nat:=lenZ l0 - n]> (lines t)) (lines_count t)))). rewrite Hlv'. apply lens_nonneg.
    + intros _. simpl. rewrite Hcq. etrans; [|apply sumZ_lens].
      apply Z.eq_le_incl. f_equal. exact Hlv'.
Qed.

(** A terminal with a line does not sleep. *)
Lemma read_ready t mem buffer count nonblock sched :
  ICANON (termios_ t) = true -> 0 < lines_count t ->
  tty_raw_read t mem buffer count nonblock sched = tty_raw_read t mem buffer count true sched.
Proof.
  intros Hcan Hc. destruct nonblock; [done|]. unfold tty_raw_read. cbv zeta.
  assert (Hs : sleep_on_queue_lock_interruptible tty_end_read_sleep t sched = Ready t sched).
  { assert (tty_end_read_sleep t = true) as He.
    { unfold tty_end_read_sleep. rewrite Hcan. destruct (unplugged t); lia. }
    destruct sched; simpl; by rewrite He. }
  by rewrite Hs.
Qed.

(** A read in canonical mode returns from one line only.  When lines wait, a
    read, blocking or not, returns at once with as many bytes as fit of the first
    line, in order, and leaves the rest of that line and the other lines; an empty
    line reads as 0 bytes, the end of file.  When none waits, a non-blocking read
    changes nothing and fails with [EAGAIN], or returns 0 on an unplugged terminal. *)
Theorem tty_read_one_line t e mem buffer count nonblock sched :
  represents t e -> 0 <= count ->
  match sent e with
  | l0 :: ls =>
      let n := Z.min count (lenZ l0) in
      forall bs, load_bytes mem buffer n = Some bs ->
      exists t', tty_raw_read t mem buffer count nonblock sched =
          RDone t' (poke mem buffer (takeZ n l0)) (Ok n) sched /\
        represents t' (mk_editor (pend e) (if n =? lenZ l0 then ls else dropZ n l0 :: ls))
  | [] => tty_raw_read t mem buffer count true sched =
          RDone t mem (if unplugged t then Ok 0 else Err EAGAIN) sched
  end.
Proof.
  intros Hr Hcount. pose proof Hr as (Hok & Hcan & _ & Hl & _).
  destruct (sent e) as [|l0 ls] eqn:He.
  - unfold tty_raw_read. cbv zeta. rewrite Hcan.
    assert (lines_count t <= 0) as Hz.
    { unfold live in Hl. simpl in Hl. apply (f_equal length) in Hl. unfold takeZ in Hl.
      rewrite length_take in Hl. pose proof (ok_lines t Hok). simpl in Hl. lia. }
    by rewrite (proj2 (Z.leb_le _ _)).
  - intros n bs Hbs. destruct (canon_read_spec t e l0 ls mem buffer count bs)
      as (t' & E & Hr'); [done..|].
    exists t'. split; [|done]. rewrite fmap_cons in Hl.
    destruct (live_cons t _ _ Hok Hl) as (Hc & _). rewrite read_ready by done. apply E.
Qed.

(** *** Output *)

(** Post-processing in the default settings. *)
Definition cooked (tm : termios) : Prop :=
  OPOST tm = true /\ ONLCR tm = true /\ OLCUC tm = false /\ OCRNL tm = false /\ ONOCR tm = false.

(** What a text becomes: each newline is preceded by a carriage return. *)
Definition crlf (bs : list Z) : list Z :=
  flat_map (fun c => if c =? NL then [CR; NL] else [c]) bs.

Lemma output_cooked t c :
  cooked (termios_ t) ->
  displays t (tty_output t c) /\ output (tty_output t c) = rev (crlf [c]) ++ output t.
Proof.
  intros (H1 & H2 & H3 & H4 & H5). split; [apply displays_output|].
  unfold tty_output, crlf, output_body. rewrite H1, H2, H3, H4, H5. simpl.
  destruct (c =? NL) eqn:E; simpl; [|done]. rewrite ?H1, ?H2, ?H3, ?H4, ?H5. simpl.
  zbool. by subst c.
Qed.

Lemma write_chars_cooked out t kbuf ret :
  cooked (termios_ t) -> (forall t c, 0 <= out t c) -> 0 <= ret ->
  let '(t', ret') := write_chars out t kbuf ret in
  0 <= ret' /\ displays t t' /\ output t' = rev (crlf kbuf) ++ output t.
Proof.
  intros Hc Hout. revert t ret Hc. induction kbuf as [|c kbuf IH]; intros t ret Hc Hr;
    cbn [write_chars].
  { split; [done|]. split; [apply displays_refl|done]. }
  pose proof (Hout t c) as Ho. rewrite (proj2 (Z.ltb_ge _ _)) by done.
  destruct (output_cooked t c Hc) as (Hd & Eo).
  assert (Hc' : cooked (termios_ (tty_output t c))) by (by destruct Hd as (col & o & ->)).
  specialize (IH (tty_output t c) (out t c) Hc' Ho).
  destruct (write_chars out (tty_output t c) kbuf (out t c)) as [t' ret'].
  destruct IH as (? & Hd' & Eo'). split; [done|]. split; [by eapply displays_trans|].
  rewrite Eo', Eo.
  assert (crlf (c :: kbuf) = crlf [c] ++ crlf kbuf) as ->.
  { unfold crlf. rewrite <- flat_map_app. done. }
  by rewrite rev_app_distr, <- app_assoc.
Qed.

Lemma write_loop_cooked fuel out t mem buffer count total ret bs :
  cooked (termios_ t) -> (forall t c, 0 <= out t c) -> 0 <= ret -> 0 <= count < Z.of_nat fuel ->
  load_bytes mem buffer count = Some bs ->
  exists t', write_loop fuel out t mem buffer count total ret = Some (t', Ok (total + count)) /\
    displays t t' /\ output t' = rev (crlf bs) ++ output t.
Proof.
  intros Hc Hout. revert t buffer count total ret bs Hc.
  induction fuel as [|fuel IH]; intros t buffer count total ret bs Hc Hr Hf Hbs; [lia|]. simpl.
  destruct (count >? 0) eqn:E.
  - set (w := if 128 <? count then 128 else count).
    assert (Hw : 0 < w <= count) by (unfold w; case_if; lia).
    replace count with (w + (count - w)) in Hbs by lia. rewrite load_bytes_add in Hbs by lia.
    unfold safe_copy_from. destruct (load_bytes mem buffer w) as [kbuf|]; [|done]. simpl in Hbs.
    destruct (load_bytes mem (buffer + w) (count - w)) as [rest|] eqn:Erest; [|done].
    simpl in Hbs. injection Hbs as <-.
    pose proof (write_chars_cooked out t kbuf ret Hc Hout Hr) as Hwc.
    destruct (write_chars out t kbuf ret) as [t1 ret1]. destruct Hwc as (Hr1 & Hd1 & Eo1).
    assert (Hc1 : cooked (termios_ t1)) by (by destruct Hd1 as (col & o & ->)).
    destruct (IH t1 (buffer + w) (count - w) (total + w) ret1 rest) as (t' & E' & Hd' & Eo');
      [done|done|lia|done|].
    exists t'. split; [rewrite E'; do 3 f_equal; lia|]. split; [by eapply displays_trans|].
    rewrite Eo', Eo1. unfold crlf. by rewrite flat_map_app, rev_app_distr, app_assoc.
  - rewrite load_bytes_nil in Hbs by lia. injection Hbs as <-. exists t.
    split; [do 3 f_equal; lia|]. split; [apply displays_refl|done].
Qed.

(** A write in the default output mode.  Writing readable memory to a driver
    that reports no error ends, returns the number of bytes asked for, and gives the
    driver the text with every newline turned into a carriage return and a newline,
    although it is copied in pieces of 128 bytes; nothing but the column changes
    besides.  Writing from unreadable memory fails without output. *)
Theorem tty_write_cooked out t mem buffer count :
  cooked (termios_ t) -> (forall t c, 0 <= out t c) -> 0 <= count ->
  (forall bs, load_bytes mem buffer count = Some bs ->
    exists t', tty_raw_write out t mem buffer count = Some (t', Ok count) /\
      displays t t' /\ rev (output t') = rev (output t) ++ crlf bs) /\
  (0 < count -> load_bytes mem buffer (Z.min 128 count) = None ->
    tty_raw_write out t mem buffer count = Some (t, Err EFAULT)).
Proof.
  intros Hc Hout Hcount. split.
  - intros bs Hbs. destruct (write_loop_cooked (S (Z.to_nat count)) out t mem buffer count 0 0 bs)
      as (t' & E & Hd & Eo); [done|done|done|lia|done|].
    exists t'. split; [exact E|]. split; [done|]. by rewrite Eo, rev_app_distr, rev_involutive.
  - intros Hp Hn. unfold tty_raw_write. simpl. destruct (count >? 0) eqn:E; [|lia].
    unfold safe_copy_from. replace (if 128 <? count then 128 else count) with (Z.min 128 count).
    + by rewrite Hn.
    + case_if; lia.
Qed.

End laws.
(** ** A concrete terminal *)

(** Control characters of ASCII. *)
Definition is_control (c : Z) : bool := ((0 <=? c) && (c <? 32)) || (c =? 127).

Definition ring0 : ringbuffer := mk_ring (replicate 4096 0) 0 0 4096 0.
Definition tty0 : tty ringbuffer := tty_register ring0.

Lemma ring0_ok : q_ok ring0.
Proof. split; vm_compute; intuition congruence. Qed.

Lemma tty0_ok : tty_ok tty0.
Proof.
  split; try exact ring0_ok; try reflexivity; try (vm_compute; intuition congruence).
  constructor.
Qed.

Lemma tty0_represents : represents tty0 (mk_editor [] []).
Proof. split; [exact tty0_ok|]. split_and!; vm_compute; reflexivity. Qed.

(** Two defects of the line discipline.  The kill character, after "abc", empties
    the line, but the loop that should rub out every character returns after the first:
    the driver gets a single backspace-space-backspace.  And a terminal can be made
    to read before the start of its line: if a program makes the interrupt character
    the erase character too, that character on an empty line echoes the byte before
    [canon_buf]. *)
Theorem tty_echo_defects :
  (exists t t', tty_raw_add_input is_control tty0 [97; 98; 99] = Some (t, 3)
   /\ represents t (mk_editor [97; 98; 99] [])
   /\ tty_input is_control t 21 = Some t'
   /\ represents t' (mk_editor [] [])
   /\ output t' = [BS; SPACE; BS] ++ output t)
  /\ tty_input is_control (set_termios tty0
       (let d := default_termios in
        mk_termios (OPOST d) (OLCUC d) (ONLCR d) (OCRNL d) (ONOCR d) (ONLRET d) (IMAXBEL d)
          (INLCR d) (IGNCR d) (ICRNL d) (IUCLC d) (ISTRIP d) (ISIG d) (ICANON d) (ECHO d)
          (ECHOE d) (ECHOK d) (ECHONL d) (ECHOCTL d) (VEOF d) (VEOL d) (VERASE d)
          (VERASE d) (VKILL d) (VQUIT d) (VSUSP d) (VMIN d))) 127 = None.
Proof.
  split; [|vm_compute; reflexivity].
  do 2 eexists. split; [vm_compute; reflexivity|].
  assert (Hq : forall t : tty ringbuffer, input_buffer t = ring0 -> length (canon_buf t) = 512%nat ->
    0 <= canon_index t <= CANON_SIZE -> lines t = replicate 256 0 -> lines_count t = 0 ->
    termios_ t = default_termios -> represents t (mk_editor (takeZ (canon_index t) (canon_buf t)) [])).
  { intros t E1 E2 E3 E4 E5 E6. split; [|rewrite E1, E6; unfold live; by rewrite E4, E5].
    constructor; rewrite ?E1, ?E4, ?E5; try done; try exact ring0_ok; unfold live; rewrite E4, E5.
    - constructor.
    - intros _. vm_compute. discriminate. }
  split; [apply Hq; try reflexivity; vm_compute; split; discriminate|].
  split; [vm_compute; reflexivity|].
  split; [apply Hq; try reflexivity; vm_compute; split; discriminate|reflexivity].
Qed.

Lemma tty_input_safe_witness :
  exists t', tty_input is_control tty0 200 = Some t' /\ tty_ok t' /\ canon_index t' = 1.
Proof.
  destruct (tty_input_safe is_control tty0 200) as (t' & E & Hok & _);
    [exact tty0_ok|intros _; vm_compute; split_and!; discriminate|].
  exists t'. split; [exact E|]. split; [exact Hok|].
  vm_compute in E. injection E as <-. reflexivity.
Defined.

Lemma tty_input_edits_witness :
  exists t', tty_input is_control tty0 97 = Some t' /\ represents t' (mk_editor [97] []).
Proof.
  destruct (tty_input_edits is_control tty0 (mk_editor [] []) 97 97) as (t' & E & Hr).
  - exact tty0_represents.
  - reflexivity.
  - intros _. vm_compute. split_and!; discriminate.
  - reflexivity.
  - reflexivity.
  - vm_compute. discriminate.
  - exists t'. split; [exact E|exact Hr].
Defined.

Lemma tty_read_one_line_witness :
  tty_raw_read tty0 ∅ 0 10 true [] = RDone tty0 ∅ (Err EAGAIN) [].
Proof.
  exact (tty_read_one_line tty0 (mk_editor [] []) ∅ 0 10 true [] tty0_represents ltac:(lia)).
Defined.

Lemma tty_write_cooked_witness :
  exists t', tty_raw_write (fun _ _ => 1) tty0 (poke ∅ 50 [104; 105; 10]) 50 3 = Some (t', Ok 3)
  /\ rev (output t') = [104; 105; 13; 10].
Proof.
  destruct (tty_write_cooked (fun _ _ => 1) tty0 (poke ∅ 50 [104; 105; 10]) 50 3) as (H & _);
    [vm_compute; split_and!; reflexivity|intros; lia|lia|].
  destruct (H [104; 105; 10]) as (t' & E & _ & Eo); [vm_compute; reflexivity|].
  exists t'. split; [exact E|]. rewrite Eo. vm_compute. reflexivity.
Defined.

End Tty.
