(* ===== verification/Kheap.v ===== *)
(** The kernel heap (kernel/mem/kheap.c, kernel/include/mem/kheap.h).

    The heap is a range of virtual memory tiled by segments, each a 32-byte header
    ([sizeof(heap_segment_t)]) and a body.  The doubly linked list of headers is a
    sequence here; a pointer to a header in the list is the segment between the
    ones before it, in reverse, and the ones after it.  The magic number of a header
    is the boolean [is_free].  [mmu_maps] says whether [mmu_allocate_and_map_pages] can map
    memory at an address; the code ignores its result, and the part of the heap that it
    could not map is a hole.  [None] stands for a header that is not one of the heap
    (where [kfree] panics or reads wild memory) and for the write of a header into a hole.
    The lock is held by each operation.  The abstract view of the heap is the
    multiset of its allocated blocks. *)

From S2P Require Import Prelude.

Module Kheap.

Record heap_segment := mk_seg { seg_addr : Z; is_free : bool; length_ : Z }.

#[global] Instance heap_segment_eq_dec : EqDecision heap_segment.
Proof. solve_decision. Defined.

(** [holes] are the parts of the heap that are not mapped: where they start and how long
    they are. *)
Record kheap := mk_heap {
  kheap_start : Z;
  kheap_length : Z;
  segs : list heap_segment;
  holes : list (Z * Z);
}.

Definition SIZEOF_SEG : Z := 32.

(** Whether a header at an address is in mapped memory. *)
Definition header_mapped (hs : list (Z * Z)) (a : Z) : bool :=
  forallb (fun hole => (a + SIZEOF_SEG <=? hole.1) || (hole.1 + hole.2 <=? a)) hs.

Section kheap.
Context (mmu_maps : Z -> Z -> bool).

Definition init_kheap (mem_kheap_start : Z) : option kheap :=
  let start := PAGE_ALIGN_DOWN mem_kheap_start in
  if negb (mmu_maps start PAGE_SIZE) then None
  else Some (mk_heap start PAGE_SIZE [mk_seg start true (PAGE_SIZE - SIZEOF_SEG)] []).

(** [change_kheap_size]: the new length and the holes. *)
Definition change_kheap_size (start len : Z) (hs : list (Z * Z)) (offset : Z) : Z * list (Z * Z) :=
  if offset =? 0 then (len, hs)
  else
    let size := offset / PAGE_SIZE *! PAGE_SIZE in
    let virt_page := start +! len in
    (len +! size, if mmu_maps virt_page size then hs else (virt_page, size) :: hs).

Definition align16 (amount : Z) : Z :=
  if negb (Z.land amount 15 =? 0) then amount +! (16 - amount mod 16) else amount.

(** The search: the segment found among its neighbours, the length of the heap and its
    holes. *)
Fixpoint find_seg (start len : Z) (hs : list (Z * Z)) (prev : list heap_segment)
    (current_seg : heap_segment) (next : list heap_segment) (amount : Z)
    : option (list heap_segment * heap_segment * list heap_segment * (Z * list (Z * Z))) :=
  if (length_ current_seg <? amount) || negb (is_free current_seg) then
    match next with
    | [] =>
        if is_free current_seg then
          let delta := PAGE_ALIGN_UP (((amount -! length_ current_seg) +! SIZEOF_SEG) +! 16) in
          Some (prev, mk_seg (seg_addr current_seg) true (length_ current_seg +! delta), [],
                change_kheap_size start len hs delta)
        else
          let delta := PAGE_ALIGN_UP ((amount +! (SIZEOF_SEG * 2)) +! 16) in
          let '(len, hs) := change_kheap_size start len hs delta in
          let new_seg := (seg_addr current_seg +! length_ current_seg) +! SIZEOF_SEG in
          if negb (header_mapped hs new_seg) then None
          else Some (current_seg :: prev, mk_seg new_seg true (delta -! SIZEOF_SEG), [], (len, hs))
    | n :: next => find_seg start len hs (current_seg :: prev) n next amount
    end
  else Some (prev, current_seg, next, (len, hs)).

(** Cutting the segment that was found. *)
Definition cut (hs : list (Z * Z)) (amount : Z) (current_seg : heap_segment) (next : list heap_segment)
    : option (heap_segment * list heap_segment) :=
  if length_ current_seg >=? (amount +! SIZEOF_SEG) +! 16 then
    let new_seg := (seg_addr current_seg +! amount) +! SIZEOF_SEG in
    if negb (header_mapped hs new_seg) then None
    else Some (mk_seg (seg_addr current_seg) (is_free current_seg) amount,
               mk_seg new_seg true (length_ current_seg -! (SIZEOF_SEG +! amount)) :: next)
  else Some (current_seg, next).

Definition kmalloc_flags (h : kheap) (amount : Z) : option (kheap * Z) :=
  let amount := align16 amount in
  match segs h with
  | [] => None
  | first_seg :: rest =>
      '(prev, current_seg, next, (len, hs)) ←
        find_seg (kheap_start h) (kheap_length h) (holes h) [] first_seg rest amount;
      '(current_seg, next) ← cut hs amount current_seg next;
      let current_seg := mk_seg (seg_addr current_seg) false (length_ current_seg) in
      Some (mk_heap (kheap_start h) len (rev prev ++ current_seg :: next) hs,
            seg_addr current_seg +! SIZEOF_SEG)
  end.

Definition kmalloc (h : kheap) (amount : Z) : option (kheap * Z) := kmalloc_flags h amount.

(** The segment with its header at an address. *)
Fixpoint seg_at (prev l : list heap_segment) (a : Z)
    : option (list heap_segment * heap_segment * list heap_segment) :=
  match l with
  | [] => None
  | s :: rest => if seg_addr s =? a then Some (prev, s, rest) else seg_at (s :: prev) rest a
  end.

(** The two merges of [kfree]. *)
Definition merge_next (s : heap_segment) (next : list heap_segment)
    : heap_segment * list heap_segment :=
  match next with
  | n :: next' =>
      if is_free n
      then (mk_seg (seg_addr s) true (length_ s +! (length_ n +! SIZEOF_SEG)), next')
      else (s, next)
  | [] => (s, next)
  end.

Definition merge_prev (prev : list heap_segment) (s : heap_segment) (next : list heap_segment)
    : list heap_segment :=
  match prev with
  | p :: prev' =>
      if is_free p
      then rev prev' ++ mk_seg (seg_addr p) true (length_ p +! (length_ s +! SIZEOF_SEG)) :: next
      else rev prev ++ s :: next
  | [] => rev prev ++ s :: next
  end.

Definition kfree (h : kheap) (ptr : Z) : option kheap :=
  if ptr =? 0 then Some h
  else
    '(prev, current_seg, next) ← seg_at [] (segs h) (ptr -! SIZEOF_SEG);
    if is_free current_seg then Some h
    else
      let '(s, next) := merge_next (mk_seg (seg_addr current_seg) true (length_ current_seg)) next in
      Some (mk_heap (kheap_start h) (kheap_length h) (merge_prev prev s next) (holes h)).

(** The heap, the pointer returned (0 for null) and how many bytes were copied to it. *)
Definition krealloc_flags (h : kheap) (ptr new_size : Z) : option (kheap * Z * Z) :=
  if ptr =? 0 then
    '(h, p) ← kmalloc h new_size; Some (h, p, 0)
  else if new_size =? 0 then h ← kfree h ptr; Some (h, 0, 0)
  else
    '(_, seg, _) ← seg_at [] (segs h) (ptr -! SIZEOF_SEG);
    '(h, new_buf) ← kmalloc h new_size;
    let copied := if new_size >? length_ seg then length_ seg else new_size in
    h ← kfree h ptr;
    Some (h, new_buf, copied).

End kheap.

(** ** Well-formed heaps *)

Definition seg_end (s : heap_segment) : Z := seg_addr s + SIZEOF_SEG + length_ s.

(** The segments tile the range from [a] to [e]. *)
Fixpoint tiles (a : Z) (l : list heap_segment) (e : Z) : Prop :=
  match l with
  | [] => a = e
  | s :: l => seg_addr s = a /\ 0 <= length_ s /\ length_ s mod 16 = 0 /\ tiles (seg_end s) l e
  end.

(** No two free segments are neighbours. *)
Fixpoint merged (l : list heap_segment) : Prop :=
  match l with
  | a :: (b :: _) as r => (is_free a && is_free b = false) /\ merged r
  | _ => True
  end.

Definition heap_end (h : kheap) : Z := kheap_start h + kheap_length h.

Definition heap_ok (h : kheap) : Prop :=
  0 < kheap_start h /\ kheap_start h mod 16 = 0 /\ heap_end h < 2 ^ 64 /\
  kheap_length h mod PAGE_SIZE = 0 /\
  segs h <> [] /\ tiles (kheap_start h) (segs h) (heap_end h) /\ merged (segs h) /\ holes h = [].

(** The allocated blocks: where they start and how long they are. *)
Definition block_of (s : heap_segment) : Z * Z := (seg_addr s + SIZEOF_SEG, length_ s).
Definition blocks_of (l : list heap_segment) : list (Z * Z) :=
  block_of <$> filter (fun s => is_free s = false) l.
Definition blocks (h : kheap) : list (Z * Z) := blocks_of (segs h).

Lemma tiles_app a l1 l2 e : tiles a (l1 ++ l2) e <-> exists m, tiles a l1 m /\ tiles m l2 e.
Proof.
  revert a. induction l1 as [|s l1 IH]; intros a; simpl.
  - split; [intros H; exists a; done|intros (m & -> & H); done].
  - rewrite IH. split.
    + intros (H1 & H2 & H3 & m & H4 & H5). exists m. done.
    + intros (m & (H1 & H2 & H3 & H4) & H5). split_and!; try done. by exists m.
Qed.

Lemma tiles_le a l e : tiles a l e -> a <= e.
Proof.
  revert a. induction l as [|s l IH]; intros a; simpl; [lia|].
  intros (? & ? & _ & H%IH). unfold seg_end, SIZEOF_SEG in *. lia.
Qed.

(** A segment between its neighbours. *)
Lemma tiles_zip a prev s next e :
  tiles a (rev prev ++ s :: next) e ->
  tiles a (rev prev) (seg_addr s) /\ tiles (seg_end s) next e /\
  a <= seg_addr s /\ 0 <= length_ s /\ length_ s mod 16 = 0 /\ seg_end s <= e.
Proof.
  intros H. apply tiles_app in H as (m & H1 & H2 & H3 & H4 & H5). subst m.
  pose proof (tiles_le _ _ _ H1). pose proof (tiles_le _ _ _ H5). done.
Qed.

Lemma tiles_zip_intro a prev s next e :
  tiles a (rev prev) (seg_addr s) -> tiles (seg_end s) next e ->
  0 <= length_ s -> length_ s mod 16 = 0 -> tiles a (rev prev ++ s :: next) e.
Proof. intros. apply tiles_app. exists (seg_addr s). done. Qed.

Lemma mod16_page d : d mod PAGE_SIZE = 0 -> d mod 16 = 0.
Proof. unfold PAGE_SIZE. Z.div_mod_to_equations. lia. Qed.

Lemma tiles_mod a l e : a mod 16 = 0 -> tiles a l e -> e mod 16 = 0.
Proof.
  revert a. induction l as [|s l IH]; intros a Ha; simpl; [by intros <-|].
  intros (<- & _ & Hl & H). eapply IH; [|exact H]. unfold seg_end, SIZEOF_SEG.
  Z.div_mod_to_equations. lia.
Qed.

Lemma blocks_of_app l1 l2 : blocks_of (l1 ++ l2) = blocks_of l1 ++ blocks_of l2.
Proof. unfold blocks_of. by rewrite filter_app, fmap_app. Qed.

Lemma blocks_of_free s l : is_free s = true -> blocks_of (s :: l) = blocks_of l.
Proof. intros H. unfold blocks_of. rewrite filter_cons_False; [done|]. by rewrite H. Qed.

Lemma blocks_of_used s l : is_free s = false -> blocks_of (s :: l) = block_of s :: blocks_of l.
Proof. intros H. unfold blocks_of. by rewrite filter_cons_True. Qed.

Definition not_both (a b : heap_segment) : Prop := is_free a && is_free b = false.
Definition before_ok (prev : list heap_segment) (s : heap_segment) : Prop :=
  match prev with p :: _ => not_both p s | [] => True end.
Definition after_ok (s : heap_segment) (next : list heap_segment) : Prop :=
  match next with n :: _ => not_both s n | [] => True end.

Lemma merged_app l1 a l2 : merged (l1 ++ a :: l2) <-> merged (l1 ++ [a]) /\ merged (a :: l2).
Proof.
  induction l1 as [|b l1 IH]; [simpl; destruct l2; tauto|].
  destruct l1 as [|c l1]; [simpl; destruct l2; tauto|].
  change (merged ((b :: c :: l1) ++ a :: l2)) with (not_both b c /\ merged ((c :: l1) ++ a :: l2)).
  change (merged ((b :: c :: l1) ++ [a])) with (not_both b c /\ merged ((c :: l1) ++ [a])).
  rewrite IH. tauto.
Qed.

Lemma merged_zip prev s next :
  merged (rev prev ++ s :: next) <->
  merged (rev prev) /\ before_ok prev s /\ after_ok s next /\ merged next.
Proof.
  rewrite merged_app.
  assert (merged (s :: next) <-> after_ok s next /\ merged next) as ->.
  { destruct next; simpl; unfold not_both; tauto. }
  assert (merged (rev prev ++ [s]) <-> merged (rev prev) /\ before_ok prev s) as ->.
  { destruct prev as [|p prev]; simpl; [tauto|]. rewrite <- app_assoc. simpl.
    rewrite merged_app. simpl. unfold not_both. tauto. }
  tauto.
Qed.

(** ** Allocation *)

Lemma align16_spec amount :
  0 <= amount < 2 ^ 62 ->
  amount <= align16 amount < amount + 16 /\ align16 amount mod 16 = 0.
Proof.
  intros H. unfold align16. rewrite (land_ones_mod amount 15 4) by lia. change (2 ^ 4) with 16.
  pose proof (Z.mod_pos_bound amount 16 ltac:(lia)).
  destruct (amount mod 16 =? 0) eqn:E; zbool; simpl; [lia|].
  rewrite u64_small by (unfold is_u64; lia). split; [lia|]. Z.div_mod_to_equations. lia.
Qed.

Section allocation.
Context (mmu_maps : Z -> Z -> bool).

Lemma change_kheap_size_spec start len d :
  0 < start -> 0 <= len -> 0 < d -> d mod PAGE_SIZE = 0 -> start + len + d < 2 ^ 64 ->
  mmu_maps (start + len) d = true -> change_kheap_size mmu_maps start len [] d = (len + d, []).
Proof.
  intros ? ? ? ? ? Hmap. unfold change_kheap_size. rewrite (proj2 (Z.eqb_neq _ _)) by lia.
  unfold PAGE_SIZE in *. assert (d / 4096 * 4096 = d) by (Z.div_mod_to_equations; lia).
  rewrite (u64_small (d / 4096 * 4096)) by (unfold is_u64; lia).
  rewrite !u64_small by (unfold is_u64; lia). replace (d / 4096 * 4096) with d by lia. by rewrite Hmap.
Qed.

(** What the search promises: a free segment that is large enough, in a heap with the
    same blocks. *)
Definition found (start len amount : Z) (l : list heap_segment) prev s next (len' : Z) : Prop :=
  is_free s = true /\ amount <= length_ s /\
  tiles start (rev prev ++ s :: next) (start + len') /\ merged (rev prev ++ s :: next) /\
  blocks_of (rev prev ++ s :: next) = blocks_of l /\
  len <= len' <= len + amount + 8192 /\ len' mod PAGE_SIZE = 0.

Lemma found_here start len amount prev s next :
  is_free s = true -> amount <= length_ s -> 0 <= amount ->
  tiles start (rev prev ++ s :: next) (start + len) -> merged (rev prev ++ s :: next) ->
  len mod PAGE_SIZE = 0 ->
  found start len amount (rev prev ++ s :: next) prev s next len.
Proof. intros. unfold found. split_and!; try done; lia. Qed.

(** The two ways to grow the heap at its last segment. *)
Lemma found_grown_free start len amount prev s :
  is_free s = true -> length_ s < amount -> 0 <= amount < 2 ^ 60 -> 0 < start ->
  tiles start (rev prev ++ [s]) (start + len) -> merged (rev prev ++ [s]) ->
  len mod PAGE_SIZE = 0 -> start + len + amount + 8192 < 2 ^ 64 ->
  (forall n, n <= amount + 8192 -> mmu_maps (start + len) n = true) ->
  let delta := PAGE_ALIGN_UP (((amount -! length_ s) +! SIZEOF_SEG) +! 16) in
  exists len', change_kheap_size mmu_maps start len [] delta = (len', []) /\
    found start len amount (rev prev ++ [s]) prev (mk_seg (seg_addr s) true (length_ s +! delta)) [] len'.
Proof.
  intros Hf Hlt Ha Hst Ht Hm Hp Hw Hmap delta.
  destruct (tiles_zip _ _ _ _ _ Ht) as (Ht1 & Ht2 & ? & ? & Hmod & Hend). simpl in Ht2.
  unfold seg_end, SIZEOF_SEG in *.
  assert (Hx : ((amount -! length_ s) +! 32) +! 16 = amount - length_ s + 48).
  { unwrap. lia. }
  destruct (PAGE_ALIGN_UP_spec (amount - length_ s + 48)) as (Hd & Hdm); [lia|unfold PAGE_SIZE; lia|].
  unfold delta. rewrite Hx. unfold PAGE_SIZE in Hd.
  set (d := PAGE_ALIGN_UP (amount - length_ s + 48)) in *. clearbody d.
  exists (len + d). split; [apply change_kheap_size_spec; try done; try lia; apply Hmap; lia|].
  rewrite u64_small by (unfold is_u64; lia).
  unfold found. split_and!; try done; simpl; try lia.
  - apply tiles_zip_intro; simpl; try done; [|lia|].
    + unfold seg_end, SIZEOF_SEG. simpl. lia.
    + apply mod16_page in Hdm. Z.div_mod_to_equations. lia.
  - apply merged_zip. apply merged_zip in Hm as (? & Hb & _). split_and!; try done.
    destruct prev; [done|]. unfold before_ok, not_both in *. simpl. by rewrite Hf in Hb.
  - by rewrite !blocks_of_app, !blocks_of_free.
  - unfold PAGE_SIZE in *. Z.div_mod_to_equations. lia.
Qed.

Lemma found_grown_used start len amount prev s :
  is_free s = false -> 0 <= amount < 2 ^ 60 -> amount mod 16 = 0 -> 0 < start ->
  tiles start (rev prev ++ [s]) (start + len) -> merged (rev prev ++ [s]) ->
  len mod PAGE_SIZE = 0 -> start + len + amount + 8192 < 2 ^ 64 ->
  (forall n, n <= amount + 8192 -> mmu_maps (start + len) n = true) ->
  let delta := PAGE_ALIGN_UP ((amount +! (SIZEOF_SEG * 2)) +! 16) in
  exists len', change_kheap_size mmu_maps start len [] delta = (len', []) /\
    found start len amount (rev prev ++ [s]) (s :: prev)
      (mk_seg ((seg_addr s +! length_ s) +! SIZEOF_SEG) true (delta -! SIZEOF_SEG)) [] len'.
Proof.
  intros Hf Ha Ham Hst Ht Hm Hp Hw Hmap delta.
  destruct (tiles_zip _ _ _ _ _ Ht) as (Ht1 & Ht2 & ? & ? & Hmod & Hend). simpl in Ht2.
  unfold seg_end, SIZEOF_SEG in *.
  assert (Hx : (amount +! (32 * 2)) +! 16 = amount + 80) by (unwrap; lia).
  destruct (PAGE_ALIGN_UP_spec (amount + 80)) as (Hd & Hdm); [lia|unfold PAGE_SIZE; lia|].
  unfold delta. rewrite Hx. unfold PAGE_SIZE in Hd.
  set (d := PAGE_ALIGN_UP (amount + 80)) in *. clearbody d.
  exists (len + d). split; [apply change_kheap_size_spec; try done; try lia; apply Hmap; lia|]. unwrap.
  unfold found. rewrite rev_cons_app. split_and!; try done; simpl; try lia.
  - apply tiles_zip_intro; try done. simpl. unfold seg_end, SIZEOF_SEG. simpl.
    split_and!; try lia. apply mod16_page in Hdm. Z.div_mod_to_equations. lia.
  - apply merged_zip. apply merged_zip in Hm as (? & Hb & _). split_and!; try done.
    simpl. unfold not_both. by rewrite Hf.
  - by rewrite !blocks_of_app.
  - unfold PAGE_SIZE in *. Z.div_mod_to_equations. lia.
Qed.

Lemma heap_find_seg_spec start len amount prev cur next :
  0 <= amount < 2 ^ 60 -> amount mod 16 = 0 -> 0 < start ->
  tiles start (rev prev ++ cur :: next) (start + len) -> merged (rev prev ++ cur :: next) ->
  len mod PAGE_SIZE = 0 -> start + len + amount + 8192 < 2 ^ 64 ->
  (forall n, n <= amount + 8192 -> mmu_maps (start + len) n = true) ->
  exists prev' s next' len', find_seg mmu_maps start len [] prev cur next amount = Some (prev', s, next', (len', [])) /\
    found start len amount (rev prev ++ cur :: next) prev' s next' len'.
Proof.
  intros Ha Ham Hst Ht Hm Hp Hw Hmap. revert prev cur Ht Hm.
  induction next as [|n next IH]; intros prev cur Ht Hm; cbn [find_seg];
    (destruct ((length_ cur <? amount) || negb (is_free cur)) eqn:E;
     [|apply orb_false_iff in E as (? & Hf%negb_false_iff); zbool; eexists _, _, _, _;
       split; [done|]; apply found_here; (done || lia)]).
  - destruct (is_free cur) eqn:Ef.
    + apply orb_true_iff in E as [E|E]; [|done]. zbool.
      destruct (found_grown_free start len amount prev cur) as (len' & E' & Hfound); try done.
      eexists _, _, _, len'. rewrite E'. by split.
    + destruct (found_grown_used start len amount prev cur) as (len' & E' & Hfound); try done.
      eexists _, _, _, len'. rewrite E'. by split.
  - specialize (IH (cur :: prev) n). rewrite !rev_cons_app in IH. by apply IH.
Qed.

(** Cutting the segment that was found and marking it. *)
Lemma cut_spec start e amount prev s next :
  0 < start -> e < 2 ^ 64 -> 0 <= amount <= length_ s -> amount < 2 ^ 60 -> amount mod 16 = 0 ->
  is_free s = true ->
  tiles start (rev prev ++ s :: next) e -> merged (rev prev ++ s :: next) ->
  exists s' next', cut [] amount s next = Some (s', next') /\
  let used := mk_seg (seg_addr s') false (length_ s') in
  seg_addr s' = seg_addr s /\ amount <= length_ s' <= length_ s /\
  tiles start (rev prev ++ used :: next') e /\ merged (rev prev ++ used :: next') /\
  blocks_of (rev prev ++ used :: next') ≡ₚ block_of used :: blocks_of (rev prev ++ s :: next).
Proof.
  intros Hst He Ha Hb Ham Hf Ht Hm. destruct (tiles_zip _ _ _ _ _ Ht) as (Ht1 & Ht2 & ? & ? & Hmod & Hend).
  apply merged_zip in Hm as (Hm1 & Hm2 & Hm3 & Hm4). unfold cut, seg_end, SIZEOF_SEG in *. unwrap.
  assert (Hused : forall l prev, before_ok prev (mk_seg (seg_addr s) false l)).
  { intros l [|p ?]; [done|]. unfold before_ok, not_both. simpl. by rewrite andb_false_r. }
  destruct (length_ s >=? amount + 32 + 16) eqn:E.
  - unwrap. cbn [header_mapped forallb negb]. eexists _, _. split; [done|].
    cbv beta iota zeta. cbn [seg_addr length_ is_free]. split_and!; try done; try lia.
    + apply tiles_zip_intro; simpl; try done; try lia. unfold seg_end, SIZEOF_SEG. simpl.
      split_and!; try lia; [Z.div_mod_to_equations; lia|].
      replace (seg_addr s + amount + 32 + 32 + (length_ s - (32 + amount)))
        with (seg_addr s + 32 + length_ s) by lia. done.
    + apply merged_zip. simpl. split_and!; try done.
      destruct next as [|n next]; [done|]. simpl in *. unfold not_both in Hm3. rewrite Hf in Hm3.
      split; [done|]. done.
    + rewrite !blocks_of_app. simpl. rewrite blocks_of_used, !blocks_of_free by done.
      symmetry. apply Permutation_middle.
  - eexists _, _. split; [done|]. cbv beta iota zeta. cbn [seg_addr length_ is_free]. split_and!; try done; try lia.
    + apply tiles_zip_intro; done.
    + apply merged_zip. split_and!; try done. by destruct next.
    + rewrite !blocks_of_app. rewrite blocks_of_used, blocks_of_free by done.
      symmetry. apply Permutation_middle.
Qed.

(** The allocated blocks are in order, apart and inside the heap. *)
Lemma blocks_sorted a l e :
  tiles a l e ->
  StronglySorted (fun x y => x.1 + x.2 <= y.1) (blocks_of l) /\
  Forall (fun b => a + SIZEOF_SEG <= b.1 /\ 0 <= b.2 /\ b.1 + b.2 <= e) (blocks_of l).
Proof.
  revert a. induction l as [|s l IH]; intros a; [split; constructor|].
  intros (<- & Hl & _ & H). pose proof (tiles_le _ _ _ H). destruct (IH _ H) as (Hs & Hf).
  unfold seg_end, SIZEOF_SEG in *. destruct (is_free s) eqn:E.
  - rewrite blocks_of_free by done. split; [done|]. eapply Forall_impl; [exact Hf|].
    intros b. simpl. lia.
  - rewrite blocks_of_used by done. split.
    + constructor; [done|]. eapply Forall_impl; [exact Hf|]. intros b. simpl. unfold SIZEOF_SEG. lia.
    + constructor; [simpl; unfold SIZEOF_SEG; lia|]. eapply Forall_impl; [exact Hf|].
      intros b. simpl. lia.
Qed.

(** C28: allocation from the kernel heap.  The heap is tiled by segments with lengths that
    are multiples of 16, is mapped, and has no two free neighbours; the request is below
    2^48 and leaves the heap below 2^64; and the pages that the heap has to grow by, at most
    8192 bytes more than the request, can be mapped behind it: [kmalloc] does not look
    whether they were ([kmalloc_into_hole]).  Then [kmalloc] returns a pointer aligned to 16
    bytes to a new block of at least the size asked for; every block that was allocated
    stays allocated, where it was and as long as it was, and no other appears; the blocks
    of the new heap lie inside it and do not overlap; and the new heap is of the same kind. *)
Theorem kmalloc_correct h amount :
  heap_ok h -> 0 <= amount < 2 ^ 48 -> heap_end h + amount + 8208 < 2 ^ 64 ->
  (forall n, n <= amount + 8208 -> mmu_maps (heap_end h) n = true) ->
  exists h' p len, kmalloc mmu_maps h amount = Some (h', p)
  /\ heap_ok h' /\ amount <= len /\ p mod 16 = 0
  /\ blocks h' ≡ₚ (p, len) :: blocks h
  /\ StronglySorted (fun x y => x.1 + x.2 <= y.1) (blocks h')
  /\ Forall (fun b => kheap_start h < b.1 /\ b.1 + b.2 <= heap_end h') (blocks h').
Proof.
  intros (Hst & Hsm & Hend & Hlen & Hne & Ht & Hm & Hh) Ha Hroom Hmap.
  destruct (align16_spec amount ltac:(lia)) as (Hal & Ham). unfold kmalloc, kmalloc_flags.
  destruct (segs h) as [|first rest] eqn:Es; [done|]. unfold heap_end in *.
  destruct (heap_find_seg_spec (kheap_start h) (kheap_length h) (align16 amount) [] first rest)
    as (prev & s & next & len' & Ef & Hf); try done; try lia; [intros n Hn; apply Hmap; lia|].
  rewrite Hh, Ef. cbn [mbind option_bind]. destruct Hf as (Hfree & Hbig & Ht' & Hm' & Hb & Hlen' & Hlm).
  destruct (cut_spec (kheap_start h) (kheap_start h + len') (align16 amount) prev s next
    Hst ltac:(lia) ltac:(lia) ltac:(lia) Ham Hfree Ht' Hm') as (s' & next' & -> & Hsa & Hsl & Ht2 & Hm2 & Hb2).
  cbn [mbind option_bind].
  destruct (tiles_zip _ _ _ _ _ Ht2) as (Htp & _ & ? & ? & ? & Hse). simpl in Htp.
  unfold seg_end, SIZEOF_SEG in Hse. simpl in Hse.
  eexists _, _, (length_ s'). split; [done|].
  assert (Hp : seg_addr s' +! SIZEOF_SEG = seg_addr s' + SIZEOF_SEG).
  { unfold SIZEOF_SEG. apply u64_small. unfold is_u64. simpl in *. lia. }
  destruct (blocks_sorted _ _ _ Ht2) as (Hso & Hin).
  split; [|split; [lia|split; [|split; [|split; [exact Hso|]]]]].
  - unfold heap_ok, heap_end. simpl. split_and!; try done; try lia. by destruct (rev prev).
  - simpl. rewrite Hp. pose proof (tiles_mod _ _ _ Hsm Htp) as Hx. unfold SIZEOF_SEG.
    Z.div_mod_to_equations. lia.
  - simpl seg_addr. rewrite Hp. unfold blocks. simpl segs. rewrite Es. change (first :: rest) with (rev [] ++ first :: rest).
    rewrite <- Hb. exact Hb2.
  - simpl. eapply Forall_impl; [exact Hin|]. intros b. unfold SIZEOF_SEG. simpl. lia.
Qed.

End allocation.

(** ** Release *)

Lemma heap_seg_at_spec a l e prev s :
  tiles a l e -> s ∈ l ->
  exists prev' next, seg_at prev l (seg_addr s) = Some (prev', s, next) /\
    rev prev' ++ s :: next = rev prev ++ l.
Proof.
  revert a prev. induction l as [|t l IH]; intros a prev Ht Hin; [set_solver|]. simpl.
  destruct Ht as (Ha & ? & _ & Ht). destruct (decide (s = t)) as [->|Hne].
  - rewrite Z.eqb_refl. eauto.
  - apply elem_of_cons in Hin as [->|Hin]; [done|].
    assert (seg_end t <= seg_addr s).
    { clear -Ht Hin. revert Ht. generalize (seg_end t). induction l as [|u l IH]; [set_solver|].
      intros a (<- & ? & _ & H). apply elem_of_cons in Hin as [->|Hin]; [lia|].
      specialize (IH Hin _ H). unfold seg_end, SIZEOF_SEG in *. lia. }
    rewrite (proj2 (Z.eqb_neq _ _)) by (unfold seg_end, SIZEOF_SEG in *; lia).
    destruct (IH _ (t :: prev) Ht Hin) as (prev' & next & E & Hl).
    rewrite rev_cons_app in Hl. eauto.
Qed.

Lemma heap_merge_next_spec start e prev s next :
  0 < start -> e < 2 ^ 64 -> is_free s = true -> tiles start (rev prev ++ s :: next) e -> merged next ->
  let '(s', next') := merge_next s next in
  tiles start (rev prev ++ s' :: next') e /\ is_free s' = true /\ after_ok s' next' /\ merged next' /\
  blocks_of next' = blocks_of next.
Proof.
  intros Hst He Hf Ht Hm. unfold merge_next. destruct next as [|n next]; [done|].
  destruct (is_free n) eqn:En.
  - destruct (tiles_zip _ _ _ _ _ Ht) as (H1 & H2 & ? & ? & ? & ?).
    destruct H2 as (Ha & ? & ? & H2). pose proof (tiles_le _ _ _ H2).
    unfold seg_end, SIZEOF_SEG in *. unwrap. split_and!; try done.
    + apply tiles_zip_intro; simpl; try done; try lia; [|Z.div_mod_to_equations; lia].
      unfold seg_end, SIZEOF_SEG. simpl. rewrite Ha in H2.
      replace (seg_addr s + 32 + (length_ s + (length_ n + 32)))
        with (seg_addr s + 32 + length_ s + 32 + length_ n) by lia. done.
    + destruct next as [|m next]; [done|]. destruct Hm as (Hm & _). simpl. unfold not_both. simpl.
      by rewrite En in Hm.
    + by destruct next; [|apply Hm].
    + by rewrite blocks_of_free.
  - split_and!; try done. simpl. unfold not_both. by rewrite En, andb_false_r.
Qed.

Lemma heap_merge_prev_spec start e prev s next :
  0 < start -> e < 2 ^ 64 -> is_free s = true -> tiles start (rev prev ++ s :: next) e ->
  merged (rev prev) -> after_ok s next -> merged next ->
  let l' := merge_prev prev s next in
  tiles start l' e /\ merged l' /\ blocks_of l' = blocks_of (rev prev) ++ blocks_of next /\ l' <> [].
Proof.
  intros Hst He Hf Ht Hm Ha Hmn. destruct (tiles_zip _ _ _ _ _ Ht) as (H1 & H2 & ? & ? & ? & ?).
  unfold merge_prev. destruct prev as [|p prev].
  { simpl. split_and!; try done; [by apply (merged_zip [])|by rewrite blocks_of_free]. }
  destruct (is_free p) eqn:Ep.
  - simpl rev in H1, Hm. destruct (tiles_zip _ _ _ _ _ H1) as (Hp1 & Hp2 & ? & ? & ? & ?). simpl in Hp2.
    apply merged_zip in Hm as (Hm & Hb & _). unfold seg_end, SIZEOF_SEG in *. unwrap. split_and!.
    + apply tiles_zip_intro; simpl; try done; try lia; [|Z.div_mod_to_equations; lia].
      unfold seg_end, SIZEOF_SEG. simpl.
      replace (seg_addr p + 32 + (length_ p + (length_ s + 32)))
        with (seg_addr s + 32 + length_ s) by lia. done.
    + apply merged_zip. split_and!; try done.
      * destruct prev; [done|]. unfold before_ok, not_both in *. simpl. by rewrite Ep in Hb.
      * destruct next; [done|]. unfold after_ok, not_both in *. simpl. by rewrite Hf in Ha.
    + simpl rev. rewrite !blocks_of_app, !blocks_of_free by done. unfold blocks_of at 4. simpl.
      by rewrite app_nil_r.
    + by destruct (rev prev).
  - split_and!; try done.
    + apply merged_zip. split_and!; try done. simpl. unfold not_both. by rewrite Ep.
    + by rewrite blocks_of_app, blocks_of_free.
    + by destruct (rev (p :: prev)).
Qed.

(** Release to the kernel heap.  Freeing a pointer to an allocated block makes
    exactly that block disappear, leaves the bounds of the heap and every other
    block as they were, and no two free segments become neighbours; freeing it a
    second time, when the segment is still the header of a free one, or freeing
    null, changes nothing. *)
Theorem kfree_correct h p len :
  heap_ok h ->
  ((p, len) ∈ blocks h ->
    exists h', kfree h p = Some h' /\ heap_ok h' /\ heap_end h' = heap_end h /\
      blocks h ≡ₚ (p, len) :: blocks h') /\
  (forall s, s ∈ segs h -> is_free s = true -> kfree h (seg_addr s + SIZEOF_SEG) = Some h) /\
  kfree h 0 = Some h.
Proof.
  intros (Hst & Hsm & Hend & Hlen & Hne & Ht & Hm & Hh).
  assert (Hptr : forall s, s ∈ segs h -> exists prev next,
    segs h = rev prev ++ s :: next /\ seg_addr s + SIZEOF_SEG =? 0 = false /\
    seg_at [] (segs h) ((seg_addr s + SIZEOF_SEG) -! SIZEOF_SEG) = Some (prev, s, next)).
  { intros s Hs. destruct (heap_seg_at_spec _ _ _ [] s Ht Hs) as (prev & next & E & Hl). simpl in Hl.
    exists prev, next. rewrite <- Hl in Ht. destruct (tiles_zip _ _ _ _ _ Ht) as (_ & _ & ? & ? & _ & ?).
    unfold seg_end, SIZEOF_SEG in *. rewrite u64_small by (unfold is_u64; lia).
    rewrite Z.add_simpl_r. split_and!; try done. apply Z.eqb_neq. lia. }
  split_and!; [| |done].
  - intros Hin. unfold blocks, blocks_of in Hin.
    apply list_elem_of_fmap in Hin as (s & Eb & Hs). apply list_elem_of_filter in Hs as (Hf & Hs).
    unfold block_of in Eb. injection Eb as -> ->.
    destruct (Hptr s Hs) as (prev & next & Hl & Hz & Hat). unfold kfree. rewrite Hz, Hat.
    cbn [mbind option_bind]. rewrite Hf. rewrite Hl in Ht, Hm.
    apply merged_zip in Hm as (Hm1 & _ & _ & Hm2).
    set (s0 := mk_seg (seg_addr s) true (length_ s)).
    assert (Ht0 : tiles (kheap_start h) (rev prev ++ s0 :: next) (heap_end h)).
    { apply tiles_app in Ht as (m & ? & ?). apply tiles_app. by exists m. }
    pose proof (heap_merge_next_spec _ _ prev s0 next Hst Hend eq_refl Ht0 Hm2) as Hn.
    destruct (merge_next s0 next) as [s1 next1]. destruct Hn as (Ht1 & Hf1 & Ha1 & Hm3 & Hb1).
    destruct (heap_merge_prev_spec _ _ prev s1 next1 Hst Hend Hf1 Ht1 Hm1 Ha1 Hm3) as (Ht2 & Hm4 & Hb2 & Hne2).
    eexists. split; [done|]. split; [by unfold heap_ok|]. split; [done|].
    unfold blocks. simpl. rewrite Hb2, Hb1, Hl, blocks_of_app, blocks_of_used by done.
    symmetry. apply Permutation_middle.
  - intros s Hs Hf. destruct (Hptr s Hs) as (prev & next & Hl & Hz & Hat). unfold kfree.
    by rewrite Hz, Hat; cbn [mbind option_bind]; rewrite Hf.
Qed.

(** An addition that is too large: the size near the top of [size_t] is rounded up to
    0, and [kmalloc] returns a block of no bytes. *)
Lemma kmalloc_wraps :
  exists h p, (h ← init_kheap (fun _ _ => true) 1048576; kmalloc (fun _ _ => true) h (2 ^ 64 - 1)) = Some (h, p) /\
    blocks h = [(p, 0)].
Proof. do 2 eexists. split; vm_compute; reflexivity. Qed.

(** The pages for a larger heap cannot be mapped: the header that is cut off behind the new
    block, or that of a new segment, is written to memory that is not mapped. *)
Lemma kmalloc_into_hole :
  let full (a _ : Z) := a =? 1048576 in
  let heap last := mk_heap 1048576 4096 [mk_seg 1048576 last 4064] [] in
  init_kheap full 1048576 = Some (heap true) /\
  kmalloc full (heap true) 5000 = None /\ kmalloc full (heap false) 16 = None.
Proof. by vm_compute. Qed.

(** ** A concrete heap *)

Definition heap1 : kheap :=
  mk_heap 1048576 4096 [mk_seg 1048576 false 112; mk_seg 1048720 true 3920] [].

Lemma heap1_ok : heap_ok heap1.
Proof. vm_compute. split_and!; try done; try lia. Qed.

Lemma kmalloc_correct_witness :
  exists h' p len, kmalloc (fun _ _ => true) heap1 100 = Some (h', p) /\ 100 <= len /\
    blocks h' ≡ₚ (p, len) :: blocks heap1.
Proof.
  destruct (kmalloc_correct (fun _ _ => true) heap1 100) as (h' & p & len & E & _ & Hl & _ & Hb & _);
    [exact heap1_ok|lia|vm_compute; reflexivity|done|].
  exists h', p, len. split; [exact E|]. split; [exact Hl|exact Hb].
Defined.

Lemma kfree_correct_witness :
  exists h', kfree heap1 1048608 = Some h' /\ blocks h' = [].
Proof.
  destruct (kfree_correct heap1 1048608 112 heap1_ok) as (H & _ & _).
  destruct H as (h' & E & _ & _ & Hb); [by left|].
  exists h'. split; [exact E|]. vm_compute in E. injection E as <-. reflexivity.
Defined.

End Kheap.
