(* ===== verification/Pmm.v ===== *)
(** The physical memory manager (kernel/mem/pmm.c, kernel/include/mem/pmm.h): a buddy
    allocator of pages with reference counts, in three zones.

    A page is its frame number (its address divided by [PAGE_SIZE]).  [info] holds
    the [page_t] of the pages that have one ([pmm_page_info] returns null for the
    others); a free list of a zone and an order is a sequence of the first pages of
    its blocks (the sequence level of [Lists]).  Removing a node from a list that
    does not hold it corrupts both lists in the source and is [None] here, like a
    failed [kassert]; a null page ([PAGE_INVALID]) is the inner [None].  The locks
    and atomic operations make each operation a step.  [head] is the list of
    the allocator of the first stage of the boot (kernel/mem/pmm1.c). *)

From S2P Require Import Prelude.

Module Pmm.

Record page := mk_page { ref_count : Z; flags : Z; order_ : Z }.

Record pmm := mk_pmm {
  info : gmap Z page;
  entries : gmap (Z * Z) (list Z);
  used_pages : Z;
  total_pages : Z;
  private_pages : Z;
  shared_pages : Z;
  pmm_is_stage2 : bool;
  head : list (Z * Z);
}.

Definition ORDERS_COUNT : Z := 7.
Definition ORDER2COUNT (order : Z) : Z := 2 ^ order.
Definition PAGE_FLAG_USABLE : Z := 4.
Definition PAGE_FLAG_RESERVED : Z := 8.
Definition ZONE_DEFAULT : Z := 42.
Definition ZONE_DMA24 : Z := 0.
Definition ZONE_DMA32 : Z := 1.
Definition ZONE_NORMAL : Z := 2.
Definition ZONE_DMA24_END : Z := 2 ^ 16.
Definition ZONE_DMA32_END : Z := 2 ^ 32.
Definition ALLOC_FLAG_OOM : Z := 2.
Definition ALLOC_FLAG_EMERGENCY : Z := 4.

Implicit Types (st : pmm) (zone order start : Z).

Definition entry st zone order : list Z := default [] (entries st !! (zone, order)).
Definition set_entry st zone order (l : list Z) : pmm :=
  mk_pmm (info st) (<[(zone, order) := l]> (entries st)) (used_pages st) (total_pages st)
    (private_pages st) (shared_pages st) (pmm_is_stage2 st) (head st).
Definition set_info st (i : gmap Z page) : pmm :=
  mk_pmm i (entries st) (used_pages st) (total_pages st) (private_pages st) (shared_pages st)
    (pmm_is_stage2 st) (head st).
Definition set_counts st (used priv shared : Z) : pmm :=
  mk_pmm (info st) (entries st) used (total_pages st) priv shared (pmm_is_stage2 st) (head st).
Definition set_head st (h : list (Z * Z)) : pmm :=
  mk_pmm (info st) (entries st) (used_pages st) (total_pages st) (private_pages st)
    (shared_pages st) (pmm_is_stage2 st) h.

(** ** The first stage

    A list of runs of pages; [pmm1_allocate_page] takes the last page of the first. *)
Definition pmm1_allocate_page (head : list (Z * Z)) : list (Z * Z) * option Z :=
  match head with
  | [] => ([], None)
  | (start, count) :: next =>
      if count >? 1 then ((start, count - 1) :: next, Some (start + (count - 1)))
      else (next, Some start)
  end.

Definition pmm1_add_free_pages (head : list (Z * Z)) start (count : Z) : list (Z * Z) :=
  if count =? 0 then head else (start, count) :: head.

Definition pmm1_get_free_pages (head : list (Z * Z)) : list (Z * Z) * option (Z * Z) :=
  match head with
  | [] => ([], None)
  | e :: next => (next, Some e)
  end.

(** ** The second stage *)

Definition pmm_get_zone (start : Z) : Z :=
  if start * PAGE_SIZE <? ZONE_DMA24_END then ZONE_DMA24
  else if start * PAGE_SIZE <? ZONE_DMA32_END then ZONE_DMA32
  else ZONE_NORMAL.

Definition pmm_is_free (p : page) : bool :=
  (ref_count p =? 0) && negb (has (flags p) PAGE_FLAG_RESERVED).

(** [page_info->pmm.order = order]; null when the page has no information. *)
Definition set_order st (start order : Z) : option pmm :=
  p ← info st !! start;
  Some (set_info st (<[start := mk_page (ref_count p) (flags p) order]> (info st))).

(** [list_remove] of the node of a page. *)
Fixpoint list_remove (x : Z) (l : list Z) : option (list Z) :=
  match l with
  | [] => None
  | y :: l => if y =? x then Some l else l ← list_remove x l; Some (y :: l)
  end.

Fixpoint pmm_raw_helper_allocate_pages (fuel : nat) st zone order : option (pmm * option Z) :=
  match fuel with
  | O => None
  | S fuel =>
      if order >=? ORDERS_COUNT then Some (st, None)
      else
        match last (entry st zone order) with
        | Some pages => Some (set_entry st zone order (removelast (entry st zone order)), Some pages)
        | None =>
            '(st, pages) ← pmm_raw_helper_allocate_pages fuel st zone (order + 1);
            match pages with
            | None => Some (st, None)
            | Some pages =>
                let unused := pages + ORDER2COUNT order in
                st ← set_order st unused order;
                Some (set_entry st zone order (entry st zone order ++ [unused]), Some pages)
            end
        end
  end.

(** The loop that resets the pages of a block. *)
Fixpoint reset_pages (i : gmap Z page) (pages : list Z) : option (gmap Z page) :=
  match pages with
  | [] => Some i
  | p :: pages =>
      pg ← i !! p;
      reset_pages
        (<[p := mk_page 1 (Z.land (flags pg) (Z.lor PAGE_FLAG_USABLE PAGE_FLAG_RESERVED))
                  (order_ pg)]> i) pages
  end.

Definition pmm_helper_allocate_pages st zone order : option (pmm * option Z) :=
  '(st, pages) ← pmm_raw_helper_allocate_pages 8 st zone order;
  match pages with
  | None => Some (st, None)
  | Some pages =>
      let st := set_counts st (used_pages st +! ORDER2COUNT order)
                  (private_pages st +! ORDER2COUNT order) (shared_pages st) in
      i ← reset_pages (info st) (seqZ pages (ORDER2COUNT order));
      Some (set_info st i, Some pages)
  end.

Definition pmm_get_free_pages st : Z := total_pages st -! used_pages st.
Definition pmm_get_emergency_pages : Z := 3 * 1000000 / PAGE_SIZE.
Definition pmm_get_free_pages_threshold : Z := 4 * 1000000 / PAGE_SIZE.

(** [while (zone >= 0)]: the pages, and whether the evicter is woken. *)
Fixpoint zones_loop (fuel : nat) st zone order : option (pmm * option Z * bool) :=
  match fuel with
  | O => None
  | S fuel =>
      if zone <? 0 then Some (st, None, false)
      else
        '(st, pages) ← pmm_helper_allocate_pages st zone order;
        match pages with
        | Some p => Some (st, Some p, pmm_get_free_pages st <? pmm_get_free_pages_threshold)
        | None => zones_loop fuel st (zone - 1) order
        end
  end.

(** [task_flags] is what [pmm_get_flags] returns.  [None] is also the panic of
    [pmm_oom]; the result says whether the evicter is woken. *)
Definition pmm_zone_allocate_pages_flags st zone order (fl task_flags : Z)
    : option (pmm * option Z * bool) :=
  let fl := Z.lor fl task_flags in
  let zone := if zone =? ZONE_DEFAULT then ZONE_NORMAL else zone in
  let oom st := if has fl ALLOC_FLAG_OOM then None else Some (st, None, false) in
  if negb (pmm_is_stage2 st) then
    if negb (order =? 0) then None
    else
      let '(h, page) := pmm1_allocate_page (head st) in
      match page with
      | None => oom st
      | Some page => Some (set_head st h, Some page, false)
      end
  else if negb (has fl ALLOC_FLAG_EMERGENCY) &&
     (pmm_get_free_pages st <? pmm_get_emergency_pages +! ORDER2COUNT order)
  then oom st
  else
    '(st, pages, evict) ← zones_loop 4 st zone order;
    match pages with
    | Some p => Some (st, Some p, evict)
    | None => oom st
    end.

(** The merging loop: the block to put on a list. *)
Fixpoint merge_loop (fuel : nat) st zone start order : option (pmm * Z * Z) :=
  match fuel with
  | O => None
  | S fuel =>
      if order + 1 <? ORDERS_COUNT then
        let merging_page := Z.lxor start (ORDER2COUNT order) in
        match info st !! merging_page with
        | None => Some (st, start, order)
        | Some pg =>
            if negb (pmm_is_free pg) || negb (order_ pg =? order) then Some (st, start, order)
            else
              l ← list_remove merging_page (entry st zone order);
              merge_loop fuel (set_entry st zone order l) zone
                (if merging_page <? start then merging_page else start) (order + 1)
        end
      else Some (st, start, order)
  end.

Definition pmm_zone_set_free_pages st zone start order : option pmm :=
  let st := set_counts st (used_pages st -! ORDER2COUNT order)
              (private_pages st -! ORDER2COUNT order) (shared_pages st) in
  '(st, start, order) ← merge_loop 8 st zone start order;
  let st := set_entry st zone order (entry st zone order ++ [start]) in
  set_order st start order.

(** The loop that marks the pages of a block as free. *)
Fixpoint mark_free (i : gmap Z page) (pages : list Z) : gmap Z page :=
  match pages with
  | [] => i
  | p :: pages =>
      mark_free
        (match i !! p with
         | Some pg => <[p := mk_page 0 (flags pg) (order_ pg)]> i
         | None => i
         end) pages
  end.

Definition pmm_set_free_pages st start order : option pmm :=
  if negb (start mod ORDER2COUNT order =? 0) then None
  else
    let st := set_info st (mark_free (info st) (seqZ start (ORDER2COUNT order))) in
    pmm_zone_set_free_pages st (pmm_get_zone start) start order.

(** The largest order, from [order] down, that fits the rest of a range. *)
Fixpoint fitting_order (n : nat) start (count : Z) : Z :=
  match n with
  | O => 0
  | S n =>
      if (count <? ORDER2COUNT (Z.of_nat n)) || negb (start mod ORDER2COUNT (Z.of_nat n) =? 0)
      then fitting_order n start count
      else Z.of_nat n
  end.

Fixpoint set_free_range_loop (fuel : nat) st start (count : Z) : option pmm :=
  match fuel with
  | O => None
  | S fuel =>
      if count >? 0 then
        let order := fitting_order 7 start count in
        st ← pmm_set_free_pages st start order;
        set_free_range_loop fuel st (start + ORDER2COUNT order) (count - ORDER2COUNT order)
      else Some st
  end.

Definition pmm_set_free_pages_range st start (count : Z) : option pmm :=
  set_free_range_loop (S (Z.to_nat count)) st start count.

Definition pmm_release_page st (p : Z) : option pmm :=
  match info st !! p with
  | Some pg =>
      let ref := ref_count pg in
      let st := set_info st (<[p := mk_page (u32 (ref - 1)) (flags pg) (order_ pg)]> (info st)) in
      if negb (ref =? 1) then
        Some (if ref =? 2
              then set_counts st (used_pages st) (private_pages st +! 1) (shared_pages st -! 1)
              else st)
      else pmm_set_free_pages st p 0
  | None => pmm_set_free_pages st p 0
  end.

Definition pmm_retain st (p : Z) : option (pmm * Z) :=
  pg ← info st !! p;
  let old := ref_count pg in
  if old =? 0 then Some (st, 0)
  else
    let st := set_info st (<[p := mk_page (u32 (old + 1)) (flags pg) (order_ pg)]> (info st)) in
    Some (if old =? 1
          then set_counts st (used_pages st) (private_pages st -! 1) (shared_pages st +! 1)
          else st, 1).

(** ** Blocks *)

Definition block (s k p : Z) : Prop := s <= p < s + 2 ^ k.

(** The free lists hold exactly the pages of [C], in disjoint aligned blocks whose
    first page knows the order. *)
Record inv st (C : Z -> Prop) : Prop := {
  inv_head : forall z k s, s ∈ entry st z k ->
    0 <= k < 7 /\ 0 <= s /\ s mod 2 ^ k = 0 /\ pmm_get_zone s = z /\
    exists pg, info st !! s = Some pg /\ order_ pg = k;
  inv_cover : forall p, C p <-> exists z k s, s ∈ entry st z k /\ block s k p;
  inv_disjoint : forall z k s z' k' s' p, s ∈ entry st z k -> s' ∈ entry st z' k' ->
    block s k p -> block s' k' p -> z = z' /\ k = k' /\ s = s';
  inv_nodup : forall z k, NoDup (entry st z k);
}.

Lemma entry_set st z k l z' k' :
  entry (set_entry st z k l) z' k' = if decide ((z, k) = (z', k')) then l else entry st z' k'.
Proof.
  unfold entry, set_entry. simpl. case_decide as E.
  - injection E as <- <-. by rewrite lookup_insert_eq.
  - by rewrite lookup_insert_ne.
Qed.

Lemma block_head s k : 0 <= k -> block s k s.
Proof. intros. unfold block. pose proof (Z.pow_pos_nonneg 2 k). lia. Qed.

Lemma inv_ext st C C' : (forall p, C p <-> C' p) -> inv st C -> inv st C'.
Proof. intros H [H1 H2 H3 H4]. constructor; try done. intros p. by rewrite <- H, H2. Qed.

(** What the lists say does not depend on the counters nor on other fields of the
    pages. *)
Lemma inv_info st st' C :
  entries st' = entries st ->
  (forall p pg, info st !! p = Some pg -> exists pg', info st' !! p = Some pg' /\ order_ pg' = order_ pg) ->
  inv st C -> inv st' C.
Proof.
  intros He Hi [H1 H2 H3 H4].
  assert (E : forall z k, entry st' z k = entry st z k) by (intros; unfold entry; by rewrite He).
  constructor; setoid_rewrite E; [|done..].
  intros z k s Hs. destruct (H1 z k s Hs) as (Hk & Hs0 & Ha & Hz & pg & Hpg & Ho).
  destruct (Hi _ _ Hpg) as (pg' & ? & ?).
  split; [done|]. split; [done|]. split; [done|]. split; [done|]. exists pg'. split; congruence.
Qed.

(** Taking a block off its list. *)
Lemma inv_remove st C z k s l :
  inv st C -> s ∈ entry st z k -> NoDup l -> (forall x, x ∈ l <-> x ∈ entry st z k /\ x <> s) ->
  inv (set_entry st z k l) (fun p => C p /\ ~ block s k p).
Proof.
  intros [H1 H2 H3 H4] Hs Hnd Hl.
  assert (E : forall z' k' x, x ∈ entry (set_entry st z k l) z' k' <->
    x ∈ entry st z' k' /\ (z', k', x) <> (z, k, s)).
  { intros z' k' x. rewrite entry_set. case_decide as Ed.
    - injection Ed as <- <-. rewrite Hl. naive_solver.
    - naive_solver. }
  constructor.
  - intros z' k' x (Hx & _)%E. by apply H1.
  - intros p. rewrite H2. setoid_rewrite E. split.
    + intros ((z' & k' & x & Hx & Hb) & Hn). exists z', k', x. split_and!; try done. naive_solver.
    + intros (z' & k' & x & (Hx & Hne) & Hb). split; [eauto|]. intros Hb'.
      destruct (H3 z' k' x z k s p) as (-> & -> & ->); done.
  - intros z1 k1 s1 z2 k2 s2 p (Hx & _)%E (Hy & _)%E. by apply H3.
  - intros z' k'. rewrite entry_set. case_decide; done.
Qed.

(** Putting a block on its list. *)
Lemma inv_add st C z k s l st' :
  inv st C -> 0 <= k < 7 -> 0 <= s -> s mod 2 ^ k = 0 -> pmm_get_zone s = z ->
  (forall p, block s k p -> ~ C p) ->
  l ≡ₚ s :: entry st z k ->
  set_order (set_entry st z k l) s k = Some st' ->
  inv st' (fun p => C p \/ block s k p).
Proof.
  intros [H1 H2 H3 H4] Hk Hs0 Ha Hz Hn Hl Ho. unfold set_order in Ho.
  destruct (info (set_entry st z k l) !! s) as [pg|] eqn:Ep; [|done]. simpl in Ho, Ep.
  injection Ho as <-.
  set (st' := set_info _ _).
  assert (Hhead : forall z' k', s ∉ entry st z' k').
  { intros z' k' Hs. destruct (H1 _ _ _ Hs) as (? & _). apply (Hn s); [apply block_head; lia|].
    apply H2. exists z', k', s. split; [done|]. apply block_head; lia. }
  assert (E : forall z' k' x, x ∈ entry st' z' k' <-> x ∈ entry st z' k' \/ (z', k', x) = (z, k, s)).
  { intros z' k' x. change (entry st' z' k') with (entry (set_entry st z k l) z' k').
    rewrite entry_set. case_decide as Ed.
    - injection Ed as <- <-. rewrite Hl, elem_of_cons. naive_solver.
    - naive_solver. }
  constructor.
  - intros z' k' x [Hx|[= -> -> ->]]%E.
    + destruct (H1 _ _ _ Hx) as (? & ? & ? & ? & pg' & Hpg' & ?). split_and!; try done; try lia.
      exists pg'. split; [|done]. simpl. rewrite lookup_insert_ne; [done|].
      intros <-. by eapply Hhead.
    + split_and!; try done; try lia. eexists. simpl. by rewrite lookup_insert_eq.
  - intros p. rewrite H2. setoid_rewrite E. split.
    + intros [(z' & k' & x & ? & ?)|?]; [exists z', k', x; tauto|exists z, k, s; tauto].
    + intros (z' & k' & x & [?|[= -> -> ->]] & ?); [left; eauto|by right].
  - intros z1 k1 s1 z2 k2 s2 p Hx Hy Hb1 Hb2. apply E in Hx, Hy.
    destruct Hx as [Hx|[= -> -> ->]], Hy as [Hy|[= -> -> ->]].
    + by eapply H3.
    + destruct (Hn p Hb2). apply H2. eauto.
    + destruct (Hn p Hb1). apply H2. eauto.
    + done.
  - intros z' k'. change (entry st' z' k') with (entry (set_entry st z k l) z' k').
    rewrite entry_set. case_decide as Ed; [|done]. injection Ed as <- <-.
    rewrite Hl. apply NoDup_cons. split; [apply Hhead|done].
Qed.

(** ** Allocation *)

Lemma removelast_spec (l : list Z) s :
  NoDup l -> last l = Some s ->
  NoDup (removelast l) /\ s ∈ l /\ forall x, x ∈ removelast l <-> x ∈ l /\ x <> s.
Proof.
  intros Hnd Hl. apply last_Some in Hl as (l' & ->). rewrite removelast_last.
  apply NoDup_app in Hnd as (? & Hd & _). split; [done|]. split; [set_solver|].
  intros x. rewrite elem_of_app, list_elem_of_singleton. specialize (Hd x). set_solver.
Qed.

Lemma pow2_succ k : 0 <= k -> 2 ^ (k + 1) = 2 * 2 ^ k.
Proof. intros. by rewrite Z.pow_add_r, Z.mul_comm by lia. Qed.

(** A block of twice the size is aligned for its two halves. *)
Lemma mod_half s k : 0 <= k -> s mod 2 ^ (k + 1) = 0 -> s mod 2 ^ k = 0 /\ (s + 2 ^ k) mod 2 ^ k = 0.
Proof.
  intros Hk H. rewrite pow2_succ in H by done. pose proof (Z.pow_pos_nonneg 2 k ltac:(lia) Hk).
  apply Z.mod_divide in H as (q & ->); [|lia].
  replace (q * (2 * 2 ^ k)) with (2 * q * 2 ^ k) by lia.
  replace (2 * q * 2 ^ k + 2 ^ k) with ((2 * q + 1) * 2 ^ k) by lia. by rewrite !Z_mod_mult.
Qed.

(** Both halves are in one zone unless the block straddles the end of the first. *)
Definition same_zone (s k : Z) : Prop := forall p, block s k p -> pmm_get_zone p = pmm_get_zone s.

Lemma zone_stable s k :
  0 <= k <= 6 -> 64 <= s -> s mod 2 ^ k = 0 -> same_zone s k.
Proof.
  intros Hk Hs Ha p Hp. unfold block in Hp. unfold pmm_get_zone, ZONE_DMA24_END, ZONE_DMA32_END, PAGE_SIZE.
  rewrite !(proj2 (Z.ltb_ge _ (2 ^ 16))) by lia.
  assert (Hd : exists q, 2 ^ 20 = q * 2 ^ k).
  { exists (2 ^ (20 - k)). rewrite <- Z.pow_add_r by lia. f_equal. lia. }
  destruct Hd as (q & Hq). apply Z.mod_divide in Ha as (r & ->); [|apply Z.pow_nonzero; lia].
  pose proof (Z.pow_pos_nonneg 2 k ltac:(lia) ltac:(lia)).
  destruct (decide (r < q)).
  - rewrite !(proj2 (Z.ltb_lt _ _)) by nia. done.
  - rewrite !(proj2 (Z.ltb_ge _ _)) by nia. done.
Qed.

(** Only pages from the 64th on, where no block straddles two zones. *)
Definition high (C : Z -> Prop) : Prop := forall p, C p -> 64 <= p.

(** Only the [order] fields of pages may differ. *)
Definition same_pages st st' : Prop :=
  (forall p, (fun pg => (ref_count pg, flags pg)) <$> info st' !! p =
             (fun pg => (ref_count pg, flags pg)) <$> info st !! p) /\
  used_pages st' = used_pages st /\ total_pages st' = total_pages st /\
  private_pages st' = private_pages st /\ shared_pages st' = shared_pages st /\
  pmm_is_stage2 st' = pmm_is_stage2 st.

Lemma same_pages_refl st : same_pages st st.
Proof. done. Qed.

Lemma same_pages_trans st1 st2 st3 : same_pages st1 st2 -> same_pages st2 st3 -> same_pages st1 st3.
Proof.
  intros (Ha & ? & ? & ? & ? & ?) (Hb & ? & ? & ? & ? & ?). split; [intros p; by rewrite Hb|].
  split_and!; congruence.
Qed.

Lemma set_order_spec st s k :
  is_Some (info st !! s) ->
  exists st', set_order st s k = Some st' /\ entries st' = entries st /\ same_pages st st' /\
    forall z k' l, set_order (set_entry st z k' l) s k = Some (set_entry st' z k' l).
Proof.
  intros (pg & Hp). unfold set_order. simpl. rewrite Hp. simpl. eexists. split; [done|].
  split; [done|]. split; [|done]. split; [|done]. intros p. simpl.
  destruct (decide (p = s)) as [->|]; [by rewrite lookup_insert_eq, Hp|by rewrite lookup_insert_ne].
Qed.

(** The pages of [C] have information. *)
Definition known st (C : Z -> Prop) : Prop := forall p, C p -> is_Some (info st !! p).

Lemma raw_allocate_spec fuel st z k C :
  inv st C -> high C -> known st C -> 0 <= k <= 7 -> 7 - k < Z.of_nat fuel ->
  exists st' r, pmm_raw_helper_allocate_pages fuel st z k = Some (st', r) /\
    match r with
    | None => st' = st /\ forall k', k <= k' -> entry st z k' = []
    | Some s => k < 7 /\ 64 <= s /\ s mod 2 ^ k = 0 /\ pmm_get_zone s = z /\
        (forall p, block s k p -> C p) /\ same_pages st st' /\
        inv st' (fun p => C p /\ ~ block s k p)
    end.
Proof.
  intros Hinv Hh Hk. revert k. induction fuel as [|fuel IH]; intros k Hr Hf; [lia|].
  cbn [pmm_raw_helper_allocate_pages]. unfold ORDERS_COUNT.
  destruct (k >=? 7) eqn:E7.
  { eexists _, _. split; [done|]. simpl. split; [done|]. intros k' Hk'.
    destruct (entry st z k') as [|x l] eqn:Ee; [done|].
    destruct (inv_head _ _ Hinv z k' x) as (? & _); [rewrite Ee; by left|lia]. }
  destruct (last (entry st z k)) as [s|] eqn:El.
  - destruct (removelast_spec _ _ (inv_nodup _ _ Hinv z k) El) as (Hnd & Hin & Hx).
    eexists _, _. split; [done|].
    destruct (inv_head _ _ Hinv _ _ _ Hin) as (? & ? & ? & ? & _).
    assert (Hb : forall p, block s k p -> C p) by (intros p Hp; apply (inv_cover _ _ Hinv); eauto).
    split_and!; try done; try lia; [apply Hh, Hb, block_head; lia|]. by apply inv_remove.
  - apply last_None in El. destruct (IH (k + 1) ltac:(lia) ltac:(lia)) as (st1 & r & -> & Hr1).
    cbn [mbind option_bind]. destruct r as [s|].
    2:{ destruct Hr1 as (-> & Hnone). eexists _, _. split; [done|]. split; [done|].
        intros k' Hk'. destruct (decide (k' = k)) as [->|]; [done|]. apply Hnone. lia. }
    destruct Hr1 as (Hk7 & Hs & Ha & Hz & Hb & Hsame & Hinv1). unfold ORDER2COUNT.
    pose proof (Z.pow_pos_nonneg 2 k ltac:(lia) ltac:(lia)). pose proof (pow2_succ k ltac:(lia)).
    destruct (mod_half s k ltac:(lia) Ha) as (Ha1 & Ha2).
    assert (Hu : block s (k + 1) (s + 2 ^ k)) by (unfold block; lia).
    assert (Hp : is_Some (info st1 !! (s + 2 ^ k))).
    { destruct (Hk _ (Hb _ Hu)) as (pg & Hpg). destruct Hsame as (Hs1 & _).
      specialize (Hs1 (s + 2 ^ k)). rewrite Hpg in Hs1.
      destruct (info st1 !! (s + 2 ^ k)); [by eexists|done]. }
    destruct (set_order_spec st1 (s + 2 ^ k) k Hp) as (st2 & E2 & Een & Hsame2 & Hcomm).
    rewrite E2. cbn [mbind option_bind]. eexists _, _. split; [done|].
    assert (Hee : entry st2 z k = entry st1 z k) by (unfold entry; by rewrite Een).
    split_and!; try done; try lia.
    + intros p Hp'. apply Hb. unfold block in *. lia.
    + eapply same_pages_trans; [exact Hsame|]. destruct Hsame2 as (? & ?). by split.
    + eapply inv_ext; [|eapply (inv_add st1 _ z k (s + 2 ^ k) (entry st2 z k ++ [s + 2 ^ k]));
        [exact Hinv1|lia|lia|done| | | |apply Hcomm]].
      * intros p. simpl. unfold block in *. split.
        -- intros [(? & ?)|?]; [split; [done|lia]|]. split; [apply Hb; unfold block; lia|lia].
        -- intros (Hc & Hn). destruct (decide (s <= p < s + 2 ^ (k + 1))); [right; lia|by left].
      * rewrite <- Hz. apply (zone_stable s (k + 1)); [lia|lia|done|done].
      * intros p Hp' (_ & Hn). apply Hn. unfold block in *. lia.
      * rewrite Hee. by rewrite Permutation_app_comm.
Qed.

(** ** The pages that are free, and those that are usable *)

Definition free_set (i : gmap Z page) : gset Z := dom (filter (fun x => pmm_is_free x.2 = true) i).

Definition usable (pg : page) : bool := has (flags pg) PAGE_FLAG_USABLE.
Definition usable_set (i : gmap Z page) : gset Z := dom (filter (fun x => usable x.2 = true) i).

Lemma elem_of_free i p : p ∈ free_set i <-> exists pg, i !! p = Some pg /\ pmm_is_free pg = true.
Proof.
  unfold free_set. rewrite elem_of_dom. unfold is_Some. by setoid_rewrite map_lookup_filter_Some.
Qed.

Lemma elem_of_usable i p : p ∈ usable_set i <-> exists pg, i !! p = Some pg /\ usable pg = true.
Proof.
  unfold usable_set. rewrite elem_of_dom. unfold is_Some. by setoid_rewrite map_lookup_filter_Some.
Qed.

(** What the two sets depend on. *)
Definition same_flags (i i' : gmap Z page) : Prop :=
  forall p, (fun pg => (ref_count pg, flags pg)) <$> i' !! p = (fun pg => (ref_count pg, flags pg)) <$> i !! p.

Lemma same_flags_lookup i i' p pg :
  same_flags i i' -> i !! p = Some pg ->
  exists pg', i' !! p = Some pg' /\ ref_count pg' = ref_count pg /\ flags pg' = flags pg.
Proof.
  intros H Hp. specialize (H p). rewrite Hp in H. destruct (i' !! p) as [pg'|]; [|done].
  simpl in H. injection H as ? ?. eauto.
Qed.

Lemma same_flags_sym i i' : same_flags i i' -> same_flags i' i.
Proof. intros H p. by rewrite H. Qed.

Lemma same_free i i' : same_flags i i' -> free_set i' = free_set i.
Proof.
  intros H. apply set_eq. intros p. rewrite !elem_of_free. unfold pmm_is_free.
  split; intros (pg & Hp & Hf).
  - destruct (same_flags_lookup _ _ _ _ (same_flags_sym _ _ H) Hp) as (pg' & ? & Hr & Hl).
    exists pg'. by rewrite Hr, Hl.
  - destruct (same_flags_lookup _ _ _ _ H Hp) as (pg' & ? & Hr & Hl).
    exists pg'. by rewrite Hr, Hl.
Qed.

Lemma same_usable i i' : same_flags i i' -> usable_set i' = usable_set i.
Proof.
  intros H. apply set_eq. intros p. rewrite !elem_of_usable. unfold usable.
  split; intros (pg & Hp & Hf).
  - destruct (same_flags_lookup _ _ _ _ (same_flags_sym _ _ H) Hp) as (pg' & ? & _ & Hl).
    exists pg'. by rewrite Hl.
  - destruct (same_flags_lookup _ _ _ _ H Hp) as (pg' & ? & _ & Hl). exists pg'. by rewrite Hl.
Qed.

(** The pages of a block as a set. *)
Definition block_set (s k : Z) : gset Z := list_to_set (seqZ s (2 ^ k)).

Lemma elem_of_block s k p : p ∈ block_set s k <-> block s k p.
Proof. unfold block_set, block. by rewrite elem_of_list_to_set, elem_of_seqZ. Qed.

Lemma size_block s k : 0 <= k -> Z.of_nat (size (block_set s k)) = 2 ^ k.
Proof.
  intros. unfold block_set. rewrite size_list_to_set, length_seqZ by apply NoDup_seqZ.
  rewrite Z2Nat.id; [done|]. pose proof (Z.pow_pos_nonneg 2 k). lia.
Qed.

(** A page that [reset_pages] resets. *)
Definition reset_page (pg : page) : page :=
  mk_page 1 (Z.land (flags pg) (Z.lor PAGE_FLAG_USABLE PAGE_FLAG_RESERVED)) (order_ pg).

Lemma reset_pages_spec pages i :
  NoDup pages -> (forall p, p ∈ pages -> is_Some (i !! p)) ->
  exists i', reset_pages i pages = Some i' /\
    forall p, i' !! p = if decide (p ∈ pages) then reset_page <$> i !! p else i !! p.
Proof.
  revert i. induction pages as [|x pages IH]; intros i Hnd Hin.
  { exists i. split; [done|]. intros p. rewrite decide_False by apply not_elem_of_nil. done. }
  cbn [reset_pages].
  apply NoDup_cons in Hnd as (Hx & Hnd). destruct (Hin x ltac:(by left)) as (pg & Hpg).
  rewrite Hpg. cbn [mbind option_bind]. fold (reset_page pg).
  destruct (IH (<[x := reset_page pg]> i) Hnd) as (i' & E & Hi').
  { intros p Hp. rewrite lookup_insert_is_Some'. right. apply Hin. by right. }
  exists i'. split; [exact E|]. intros p. rewrite Hi'.
  destruct (decide (p = x)) as [->|Hne].
  - rewrite decide_False by done. rewrite decide_True by by left. by rewrite lookup_insert_eq, Hpg.
  - rewrite lookup_insert_ne by done. case_decide as E1; case_decide as E2; try done; set_solver.
Qed.

(** A page that [mark_free] marks. *)
Definition free_page (pg : page) : page := mk_page 0 (flags pg) (order_ pg).

Lemma mark_free_spec pages i p :
  NoDup pages ->
  mark_free i pages !! p = if decide (p ∈ pages) then free_page <$> i !! p else i !! p.
Proof.
  revert i. induction pages as [|x pages IH]; intros i Hnd.
  { rewrite decide_False by apply not_elem_of_nil. done. }
  cbn [mark_free].
  apply NoDup_cons in Hnd as (Hx & Hnd). rewrite IH by done.
  destruct (decide (p = x)) as [->|Hne].
  - rewrite decide_False by done. rewrite decide_True by by left.
    destruct (i !! x) eqn:E; [by rewrite lookup_insert_eq|by rewrite E].
  - assert (E : forall pg, (<[x := pg]> i) !! p = i !! p) by (intros; by rewrite lookup_insert_ne).
    replace (match i !! x with Some pg => <[x:=mk_page 0 (flags pg) (order_ pg)]> i | None => i end !! p)
      with (i !! p) by (destruct (i !! x); [by rewrite E|done]).
    case_decide as E1; case_decide as E2; try done; set_solver.
Qed.

Lemma has_land_keep fl m b :
  Z.land m b = b -> has (Z.land fl m) b = has fl b.
Proof. intros H. unfold has. by rewrite <- Z.land_assoc, H. Qed.

Lemma reset_page_flags pg :
  usable (reset_page pg) = usable pg /\
  has (flags (reset_page pg)) PAGE_FLAG_RESERVED = has (flags pg) PAGE_FLAG_RESERVED /\
  pmm_is_free (reset_page pg) = false.
Proof. unfold usable. simpl. rewrite !has_land_keep by done. done. Qed.

(** The invariant: the lists hold the free pages, none of them below the 64th, and the
    counters count them. *)
Record pmm_ok st : Prop := {
  ok_lists : inv st (fun p => p ∈ free_set (info st));
  ok_high : high (fun p => p ∈ free_set (info st));
  ok_usable : free_set (info st) ⊆ usable_set (info st);
  ok_total : Z.of_nat (size (usable_set (info st))) <= total_pages st < 2 ^ 64;
  ok_used : used_pages st = total_pages st - Z.of_nat (size (free_set (info st)));
  ok_shared : private_pages st +! shared_pages st = used_pages st;
}.

(** [st'] is [st] with the block allocated: its pages were free and have one
    reference, and nothing changes in the references and flags of the others. *)
Record allocated st st' (z s k : Z) : Prop := {
  al_aligned : 64 <= s /\ s mod 2 ^ k = 0 /\ pmm_get_zone s = z;
  al_was_free : block_set s k ⊆ free_set (info st);
  al_ref : forall p, block s k p ->
    exists pg, info st' !! p = Some pg /\ ref_count pg = 1;
  al_free : free_set (info st') = free_set (info st) ∖ block_set s k;
  al_others : forall p, ~ block s k p ->
    (fun pg => (ref_count pg, flags pg)) <$> info st' !! p =
    (fun pg => (ref_count pg, flags pg)) <$> info st !! p;
  al_used : used_pages st' = used_pages st + 2 ^ k;
  al_total : total_pages st' = total_pages st;
  al_ok : pmm_ok st';
}.

(** The sets after a block is reset. *)
Lemma reset_sets i i' s k :
  0 <= k ->
  (forall p, i' !! p = if decide (p ∈ seqZ s (2 ^ k)) then reset_page <$> i !! p else i !! p) ->
  free_set i' = free_set i ∖ block_set s k /\ usable_set i' = usable_set i.
Proof.
  intros Hk H. split; apply set_eq; intros p.
  - rewrite elem_of_difference, elem_of_block, !elem_of_free, H. unfold block.
    case_decide as E; rewrite elem_of_seqZ in E.
    + split; [|tauto]. intros (pg & Hp & Hf). destruct (i !! p) as [pg0|]; [|done].
      injection Hp as <-. by rewrite (proj2 (proj2 (reset_page_flags pg0))) in Hf.
    + split; [intros; by split|tauto].
  - rewrite !elem_of_usable, H. case_decide as E; [|done].
    destruct (i !! p) as [pg0|]; simpl.
    + split; intros (pg & [= <-] & Hu); eexists; (split; [done|]);
        by rewrite ?(proj1 (reset_page_flags pg0)) in *.
    + by split; intros (? & ? & _).
Qed.

Lemma size_free_usable st :
  pmm_ok st -> Z.of_nat (size (free_set (info st))) <= total_pages st.
Proof.
  intros H. pose proof (ok_total _ H). pose proof (subseteq_size _ _ (ok_usable _ H)). lia.
Qed.

Lemma helper_allocate_spec st z k :
  pmm_ok st -> 0 <= k < 7 ->
  exists st' r, pmm_helper_allocate_pages st z k = Some (st', r) /\
    match r with
    | None => st' = st /\ forall k', k <= k' -> entry st z k' = []
    | Some s => allocated st st' z s k /\ pmm_is_stage2 st' = pmm_is_stage2 st
    end.
Proof.
  intros Hok Hk. unfold pmm_helper_allocate_pages.
  destruct (raw_allocate_spec 8 st z k _ (ok_lists _ Hok) (ok_high _ Hok)) as (st1 & r & -> & Hr);
    [|lia|lia|].
  { intros p (pg & ? & _)%elem_of_free. by exists pg. }
  cbn [mbind option_bind]. destruct r as [s|]; [|by eexists _, _].
  destruct Hr as (_ & Hs & Ha & Hz & Hb & Hsame & Hinv1).
  destruct Hsame as (Hfl & Hu & Ht & Hp & Hsh & Hst). fold (same_flags (info st) (info st1)) in Hfl.
  unfold ORDER2COUNT. cbn [info set_counts].
  destruct (reset_pages_spec (seqZ s (2 ^ k)) (info st1)) as (i' & -> & Hi'); [apply NoDup_seqZ| |].
  { intros p Hin%elem_of_seqZ. destruct (proj1 (elem_of_free _ p) (Hb p Hin)) as (pg & Hpg & _).
    destruct (same_flags_lookup _ _ _ _ Hfl Hpg) as (pg' & ? & _). by exists pg'. }
  destruct (reset_sets _ _ _ k ltac:(lia) Hi') as (Hfree & Husable).
  rewrite (same_free _ _ Hfl) in Hfree. rewrite (same_usable _ _ Hfl) in Husable.
  cbn [mbind option_bind]. eexists _, _. split; [done|]. split; [|exact Hst].
  assert (Hsub : block_set s k ⊆ free_set (info st)) by (intros p Hp'; by apply Hb, elem_of_block).
  assert (Hsize : Z.of_nat (size (free_set i')) = Z.of_nat (size (free_set (info st))) - 2 ^ k).
  { rewrite Hfree, size_difference by done. rewrite <- (size_block s k) by lia.
    pose proof (subseteq_size _ _ Hsub). lia. }
  pose proof (Z.pow_pos_nonneg 2 k ltac:(lia) ltac:(lia)). pose proof (size_free_usable _ Hok).
  pose proof (ok_total _ Hok). pose proof (ok_used _ Hok) as Hused.
  assert (Hu' : used_pages st1 +! 2 ^ k = used_pages st + 2 ^ k).
  { rewrite Hu. unfold u64. apply Z.mod_small. lia. }
  constructor; cbn [info used_pages total_pages set_info set_counts]; try done.
  - intros p Hp'. rewrite Hi', decide_True by by apply elem_of_seqZ.
    destruct (proj1 (elem_of_free _ p) (Hb p Hp')) as (pg & Hpg & _).
    destruct (same_flags_lookup _ _ _ _ Hfl Hpg) as (pg' & -> & _). by eexists.
  - intros p Hp'. rewrite Hi', decide_False by by rewrite elem_of_seqZ. apply Hfl.
  - constructor; cbn [info used_pages total_pages private_pages shared_pages set_info set_counts].
    + rewrite Hfree. eapply inv_ext; [|eapply (inv_info st1); [done| |exact Hinv1]].
      * intros p. by rewrite elem_of_difference, elem_of_block.
      * intros p pg Hpg. cbn [info]. rewrite Hi', Hpg. case_decide; by eexists.
    + rewrite Hfree. intros p (? & _)%elem_of_difference. by apply (ok_high _ Hok).
    + rewrite Hfree, Husable. pose proof (ok_usable _ Hok). set_solver.
    + by rewrite Husable, Ht.
    + rewrite Hu', Ht, Hsize. lia.
    + rewrite Hu', Hp, Hsh, <- (ok_shared _ Hok). unfold u64.
      rewrite Zplus_mod_idemp_l.
      replace (private_pages st + 2 ^ k + shared_pages st)
        with (private_pages st + shared_pages st + 2 ^ k) by lia.
      rewrite <- Zplus_mod_idemp_l. apply Z.mod_small.
      fold (private_pages st +! shared_pages st). rewrite (ok_shared _ Hok). lia.
Qed.

Lemma get_free_pages_size st :
  pmm_ok st -> pmm_get_free_pages st = Z.of_nat (size (free_set (info st))).
Proof.
  intros H. unfold pmm_get_free_pages. pose proof (size_free_usable _ H). pose proof (ok_total _ H).
  rewrite (ok_used _ H). unfold u64. rewrite Z.mod_small; lia.
Qed.

(** The lists of the zones from [z] down have no block of order [k] or more. *)
Definition exhausted st (z k : Z) : Prop := forall z' k', 0 <= z' <= z -> k <= k' -> entry st z' k' = [].

Lemma zones_loop_spec fuel st z k :
  pmm_ok st -> 0 <= k < 7 -> -1 <= z -> z + 1 < Z.of_nat fuel ->
  exists st' r ev, zones_loop fuel st z k = Some (st', r, ev) /\
    match r with
    | None => st' = st /\ ev = false /\ exhausted st z k
    | Some s => exists z', z' <= z /\ allocated st st' z' s k /\
        pmm_is_stage2 st' = pmm_is_stage2 st /\
        ev = (pmm_get_free_pages st' <? pmm_get_free_pages_threshold)
    end.
Proof.
  intros Hok Hk. revert z. induction fuel as [|fuel IH]; intros z Hz Hf; [lia|].
  cbn [zones_loop]. destruct (z <? 0) eqn:E; zbool.
  { eexists _, _, _. split; [done|]. split; [done|]. split; [done|]. intros z' k'. lia. }
  destruct (helper_allocate_spec st z k Hok Hk) as (st1 & r & -> & Hr). cbn [mbind option_bind].
  destruct r as [s|].
  - destruct Hr as (Hal & Hst). eexists _, _, _. split; [done|]. exists z. by split_and!.
  - destruct Hr as (-> & Hnone).
    destruct (IH (z - 1) ltac:(lia) ltac:(lia)) as (st' & r & ev & -> & Hr).
    eexists _, _, _. split; [done|]. destruct r as [s|].
    + destruct Hr as (z' & ? & Hr). exists z'. split; [lia|done].
    + destruct Hr as (-> & -> & Hx). split; [done|]. split; [done|]. intros z' k' Hz' Hk'.
      destruct (decide (z' = z)) as [->|]; [by apply Hnone|]. apply Hx; lia.
Qed.

(** Why an allocation has no pages: the reserve, or no list has a block. *)
Definition no_pages st (z k fl : Z) : Prop :=
  (has fl ALLOC_FLAG_EMERGENCY = false /\ pmm_get_free_pages st < pmm_get_emergency_pages + 2 ^ k) \/
  exhausted st z k.

(** C1: [pmm_zone_allocate_pages_flags] of a block of order below 7 from a known zone, in the
    second stage, from a state in which the free lists of the zones hold exactly the free
    pages in disjoint aligned blocks, the counters count them and every free page is the
    64th or a later one (256 KiB: below that a block can straddle the end of the first
    zone, [zone_straddle]): it returns a block of [2^order] pages aligned to its size,
    in the requested zone or a lower one; all its pages were free and now have one
    reference, no reference or flag of another page changes, [used_pages] grows by
    [2^order] and the invariant holds again; without [ALLOC_FLAG_EMERGENCY] the reserve
    of 732 pages stays free; the evicter is woken exactly below the threshold.
    Otherwise nothing changes, either because the allocation would take from the
    reserve or because no list of these zones has a large enough block, and it panics
    exactly with [ALLOC_FLAG_OOM], given or set by the task. *)
Theorem pmm_allocate_correct st zone order fl tf :
  pmm_ok st -> pmm_is_stage2 st = true -> 0 <= order < 7 ->
  zone = ZONE_DEFAULT \/ 0 <= zone <= 2 ->
  let z := if zone =? ZONE_DEFAULT then ZONE_NORMAL else zone in
  match pmm_zone_allocate_pages_flags st zone order fl tf with
  | Some (st', Some s, evict) =>
      (exists z', z' <= z /\ allocated st st' z' s order) /\
      evict = (pmm_get_free_pages st' <? 976) /\
      (has (Z.lor fl tf) ALLOC_FLAG_EMERGENCY = false -> 732 <= pmm_get_free_pages st')
  | Some (st', None, evict) =>
      st' = st /\ evict = false /\ has (Z.lor fl tf) ALLOC_FLAG_OOM = false /\
      no_pages st z order (Z.lor fl tf)
  | None => has (Z.lor fl tf) ALLOC_FLAG_OOM = true /\ no_pages st z order (Z.lor fl tf)
  end.
Proof.
  intros Hok Hst Hk Hzone z. unfold pmm_zone_allocate_pages_flags. rewrite Hst. fold z.
  assert (Hz : 0 <= z <= 2) by (unfold z, ZONE_DEFAULT, ZONE_NORMAL in *; destruct (Z.eqb_spec zone 42); lia).
  cbn [negb]. pose proof (Z.pow_le_mono_r 2 order 6 ltac:(lia) ltac:(lia)) as H64.
  pose proof (Z.pow_pos_nonneg 2 order ltac:(lia) ltac:(lia)).
  assert (Ew : pmm_get_emergency_pages +! ORDER2COUNT order = 732 + 2 ^ order).
  { unfold ORDER2COUNT. change pmm_get_emergency_pages with 732. unfold u64. rewrite Z.mod_small; lia. }
  rewrite Ew. destruct (has (Z.lor fl tf) ALLOC_FLAG_EMERGENCY) eqn:Ee; cbn [negb andb].
  2: destruct (pmm_get_free_pages st <? 732 + 2 ^ order) eqn:El; zbool.
  2:{ destruct (has (Z.lor fl tf) ALLOC_FLAG_OOM); split_and!; try done; by left. }
  all: destruct (zones_loop_spec 4 st z order Hok Hk ltac:(lia) ltac:(lia)) as (st' & r & ev & -> & Hr);
    cbn [mbind option_bind]; (destruct r as [s|];
      [destruct Hr as (z' & Hle & Hal & _ & Hev); split; [by exists z'|]; split; [exact Hev|]
      |destruct Hr as (-> & -> & Hx);
       destruct (has (Z.lor fl tf) ALLOC_FLAG_OOM); split_and!; try done; by right]).
  - done.
  - intros _. rewrite (get_free_pages_size _ (al_ok _ _ _ _ _ Hal)).
    pose proof (al_used _ _ _ _ _ Hal) as Hu. rewrite (ok_used _ (al_ok _ _ _ _ _ Hal)) in Hu.
    rewrite (ok_used _ Hok), (al_total _ _ _ _ _ Hal) in Hu.
    rewrite (get_free_pages_size _ Hok) in El. lia.
Qed.

(** ** Freeing *)

(** The buddy of an aligned block: the block of twice the size starts at one of the two. *)
Lemma buddy_cases s k :
  0 <= k -> s mod 2 ^ k = 0 ->
  (s mod 2 ^ (k + 1) = 0 /\ Z.lxor s (2 ^ k) = s + 2 ^ k) \/
  ((s - 2 ^ k) mod 2 ^ (k + 1) = 0 /\ Z.lxor s (2 ^ k) = s - 2 ^ k).
Proof.
  intros Hk Ha. pose proof (Z.pow_pos_nonneg 2 k ltac:(lia) Hk). pose proof (pow2_succ k Hk) as E2.
  apply Z.mod_divide in Ha as (q & ->); [|lia].
  assert (Ex : Z.lxor (q * 2 ^ k) (2 ^ k) = Z.lxor q 1 * 2 ^ k).
  { rewrite <- !Z.shiftl_mul_pow2 by done. rewrite Z.shiftl_lxor, Z.shiftl_1_l. done. }
  assert (E : forall r, Z.lxor (2 * r) 1 = 2 * r + 1).
  { intros r. symmetry. apply Z.add_nocarry_lxor. change 1 with (Z.ones 1).
    rewrite Z.land_ones by done. rewrite Z.mul_comm. apply Z_mod_mult. }
  rewrite Ex. destruct (Z.Even_or_Odd q) as [(r & ->)|(r & ->)]; [left|right].
  - rewrite E. split; [|lia]. replace (2 * r * 2 ^ k) with (r * 2 ^ (k + 1)) by lia.
    apply Z_mod_mult.
  - rewrite <- (E r), Z.lxor_assoc, Z.lxor_nilpotent, Z.lxor_0_r, E. split; [|lia].
    replace ((2 * r + 1) * 2 ^ k - 2 ^ k) with (r * 2 ^ (k + 1)) by lia. apply Z_mod_mult.
Qed.

(** A block around an aligned page that is not larger than the alignment starts at it. *)
Lemma small_block_start t k' m k :
  0 <= k' <= k -> t mod 2 ^ k' = 0 -> m mod 2 ^ k = 0 -> block t k' m -> t = m.
Proof.
  intros Hk Ht Hm Hb. unfold block in Hb.
  pose proof (Z.pow_pos_nonneg 2 k' ltac:(lia) ltac:(lia)).
  replace k with (k - k' + k') in Hm by lia. rewrite Z.pow_add_r in Hm by lia.
  pose proof (Z.pow_pos_nonneg 2 (k - k') ltac:(lia) ltac:(lia)).
  apply Z.mod_divide in Hm as (a & ->); [|nia]. apply Z.mod_divide in Ht as (b & ->); [|lia].
  assert (b = a * 2 ^ (k - k')) by nia. nia.
Qed.

(** A block around a page holds every smaller aligned block around it. *)
Lemma large_block_holds t k' b k m p :
  0 <= k <= k' -> t mod 2 ^ k' = 0 -> b mod 2 ^ k = 0 -> block t k' m -> block b k m ->
  block b k p -> block t k' p.
Proof.
  unfold block. intros Hk Ht Hb Hm Hbm Hp.
  pose proof (Z.pow_pos_nonneg 2 k ltac:(lia) ltac:(lia)).
  replace k' with (k' - k + k) in * by lia. rewrite Z.pow_add_r in * by lia.
  pose proof (Z.pow_pos_nonneg 2 (k' - k) ltac:(lia) ltac:(lia)).
  apply Z.mod_divide in Ht as (c & ->); [|nia]. apply Z.mod_divide in Hb as (d & ->); [|lia].
  assert (c * 2 ^ (k' - k) <= d < (c + 1) * 2 ^ (k' - k)) by nia. nia.
Qed.

Lemma list_remove_spec (l : list Z) x :
  NoDup l -> x ∈ l ->
  exists l', list_remove x l = Some l' /\ NoDup l' /\ forall y, y ∈ l' <-> y ∈ l /\ y <> x.
Proof.
  induction l as [|y l IH]; intros Hnd Hx; [by apply elem_of_nil in Hx|].
  apply NoDup_cons in Hnd as (Hy & Hnd). cbn [list_remove]. destruct (Z.eqb_spec y x) as [->|Hne].
  - exists l. split; [done|]. split; [done|]. set_solver.
  - destruct IH as (l' & -> & Hnd' & Hl'); [done|set_solver|]. eexists. split; [done|].
    split; [|set_solver]. apply NoDup_cons. split; [|done]. rewrite Hl'. tauto.
Qed.

(** A free page with the order of the buddy is the buddy, on the list of the zone. *)
Lemma buddy_listed st C z s k pg :
  inv st C -> high C -> 0 <= k < 6 -> 64 <= s -> s mod 2 ^ k = 0 -> pmm_get_zone s = z ->
  (forall p, block s k p -> ~ C p) ->
  info st !! Z.lxor s (2 ^ k) = Some pg -> order_ pg = k -> C (Z.lxor s (2 ^ k)) ->
  Z.lxor s (2 ^ k) ∈ entry st z k.
Proof.
  intros Hinv Hh Hk Hs Ha Hz Hdis Hpg Ho Hc. set (m := Z.lxor s (2 ^ k)) in *.
  pose proof (Z.pow_pos_nonneg 2 k ltac:(lia) ltac:(lia)). pose proof (pow2_succ k ltac:(lia)).
  pose proof (buddy_cases s k ltac:(lia) Ha) as Hbud. fold m in Hbud.
  assert (Ham : m mod 2 ^ k = 0).
  { destruct Hbud as [(Hb & ->)|(Hb & ->)]; by destruct (mod_half _ k ltac:(lia) Hb). }
  destruct (proj1 (inv_cover _ _ Hinv m) Hc) as (z' & k' & t & Ht & Hb).
  destruct (inv_head _ _ Hinv _ _ _ Ht) as (Hk' & Ht0 & Hta & Htz & pg' & Hpg' & Ho').
  destruct (decide (k' <= k)) as [Hle|Hgt].
  - assert (t = m) as -> by (eapply (small_block_start t k' m k); [lia|done..]).
    assert (Hord : order_ pg' = order_ pg) by congruence. rewrite Ho', Ho in Hord. subst k'.
    rewrite Hord in Ht. replace z with z'; [done|]. rewrite <- Htz, <- Hz. pose proof (Hh m Hc).
    destruct Hbud as [(Hb' & Em)|(Hb' & Em)]; rewrite Em.
    + apply (zone_stable s (k + 1)); [lia|lia|done|]. unfold block. lia.
    + symmetry. rewrite <- Em. apply (zone_stable m (k + 1)); [lia|lia|by rewrite Em|].
      unfold block. lia.
  - exfalso. apply (Hdis s); [apply block_head; lia|]. apply (inv_cover _ _ Hinv).
    exists z', k', t. split; [done|]. destruct Hbud as [(Hb' & Em)|(Hb' & Em)].
    + eapply (large_block_holds t k' s (k + 1) m); try done; unfold block; lia.
    + eapply (large_block_holds t k' m (k + 1) m); try done; [lia|by rewrite Em| |];
        unfold block; lia.
Qed.

(** What merging does: the lists and the block hold the same pages as before. *)
Record merged st st' (C C' : Z -> Prop) (s k s' k' : Z) : Prop := {
  mg_info : info st' = info st;
  mg_used : used_pages st' = used_pages st;
  mg_total : total_pages st' = total_pages st;
  mg_private : private_pages st' = private_pages st;
  mg_shared : shared_pages st' = shared_pages st;
  mg_inv : inv st' C';
  mg_range : k <= k' < 7 /\ 64 <= s' /\ s' mod 2 ^ k' = 0 /\ pmm_get_zone s' = pmm_get_zone s;
  mg_disjoint : forall p, block s' k' p -> ~ C' p;
  mg_same : forall p, C' p \/ block s' k' p <-> C p \/ block s k p;
}.

Lemma merge_loop_spec fuel st C s k :
  inv st C -> high C -> 64 <= s -> s mod 2 ^ k = 0 -> 0 <= k < 7 ->
  (forall p, block s k p -> ~ C p) ->
  (forall p, p ∈ free_set (info st) <-> C p \/ block s k p) ->
  6 - k < Z.of_nat fuel ->
  exists st' s' k' C', merge_loop fuel st (pmm_get_zone s) s k = Some (st', s', k') /\
    merged st st' C C' s k s' k'.
Proof.
  revert st C s k. induction fuel as [|fuel IH]; intros st C s k Hinv Hh Hs Ha Hk Hdis Hfree Hf; [lia|].
  assert (Hstop : merged st st C C s k s k) by (constructor; try done; lia).
  cbn [merge_loop]. unfold ORDERS_COUNT, ORDER2COUNT.
  destruct (k + 1 <? 7) eqn:E7; zbool; [|by eexists _, _, _, _].
  destruct (info st !! Z.lxor s (2 ^ k)) as [pg|] eqn:Epg; [|by eexists _, _, _, _].
  destruct (pmm_is_free pg) eqn:Ef; cbn [negb orb]; [|by eexists _, _, _, _].
  destruct (order_ pg =? k) eqn:Eo; cbn [negb]; zbool; [|by eexists _, _, _, _].
  pose proof (Z.pow_pos_nonneg 2 k ltac:(lia) ltac:(lia)). pose proof (pow2_succ k ltac:(lia)).
  pose proof (buddy_cases s k ltac:(lia) Ha) as Hbud.
  assert (Hc : C (Z.lxor s (2 ^ k))).
  { destruct (proj1 (Hfree (Z.lxor s (2 ^ k)))) as [?|Hb]; [apply elem_of_free; by exists pg|done|].
    unfold block in Hb. lia. }
  pose proof (buddy_listed st C _ s k pg Hinv Hh ltac:(lia) Hs Ha eq_refl Hdis Epg Eo Hc) as Hin.
  set (m := Z.lxor s (2 ^ k)) in *. pose proof (Hh m Hc).
  destruct (list_remove_spec _ m (inv_nodup _ _ Hinv _ _) Hin) as (l & -> & Hnd & Hl).
  cbn [mbind option_bind].
  pose proof (inv_remove _ _ _ _ _ _ Hinv Hin Hnd Hl) as Hinv1.
  assert (Hbm : forall p, block m k p -> C p) by (intros p Hp; apply (inv_cover _ _ Hinv); eauto).
  set (s1 := if m <? s then m else s).
  assert (Hs1 : 64 <= s1 /\ s1 mod 2 ^ (k + 1) = 0 /\ forall p, block s1 (k + 1) p <-> block s k p \/ block m k p).
  { unfold s1, block. case_eq (m <? s); intros; zbool; destruct Hbud as [(Hb & Em)|(Hb & Em)]; try lia;
      (split; [lia|]; split; [by rewrite ?Em|]; intros; lia). }
  destruct Hs1 as (Hs1 & Ha1 & Hb1).
  assert (Hz1 : pmm_get_zone s1 = pmm_get_zone s).
  { symmetry. apply (zone_stable s1 (k + 1)); [lia|done|done|]. apply Hb1. left. apply block_head. lia. }
  destruct (IH (set_entry st (pmm_get_zone s) k l) (fun p => C p /\ ~ block m k p) s1 (k + 1))
    as (st' & s' & k' & C' & E & Hm); try done; try lia.
  - intros p (? & _). by apply Hh.
  - intros p Hp (Hcp & Hn). apply Hb1 in Hp as [Hp|Hp]; [by apply (Hdis p)|done].
  - intros p. simpl. rewrite Hfree, Hb1. specialize (Hbm p).
    destruct (decide (m <= p < m + 2 ^ k)); unfold block in *; tauto.
  - rewrite <- Hz1. eexists _, _, _, C'. split; [rewrite Hz1 in *; exact E|].
    destruct Hm as [M1 M2 M3 M4 M5 M6 (Hk' & Hr) M8 M9]. constructor; try done.
    + split; [lia|]. by rewrite <- Hz1.
    + intros p. rewrite M9, Hb1. specialize (Hbm p).
      destruct (decide (m <= p < m + 2 ^ k)); unfold block in *; tauto.
Qed.

(** A usable page that somebody holds. *)
Definition in_use st (p : Z) : Prop :=
  exists pg, info st !! p = Some pg /\ usable pg = true /\
    has (flags pg) PAGE_FLAG_RESERVED = false /\ ref_count pg <> 0.

(** [st'] is [st] with the pages of [S] free. *)
Record freed st st' (S : gset Z) : Prop := {
  fr_free : free_set (info st') = free_set (info st) ∪ S;
  fr_others : forall p, p ∉ S ->
    (fun pg => (ref_count pg, flags pg)) <$> info st' !! p =
    (fun pg => (ref_count pg, flags pg)) <$> info st !! p;
  fr_used : used_pages st' = used_pages st - Z.of_nat (size S);
  fr_total : total_pages st' = total_pages st;
  fr_ok : pmm_ok st';
}.

Lemma in_use_not_free st p : in_use st p -> p ∉ free_set (info st).
Proof.
  intros (pg & Hp & _ & _ & Hr) (pg' & Hp' & Hf)%elem_of_free. simplify_eq.
  unfold pmm_is_free in Hf. apply andb_true_iff in Hf as (?%Z.eqb_eq & _). done.
Qed.

(** The sets after a block is marked. *)
Lemma mark_sets st s k :
  (forall p, block s k p -> in_use st p) ->
  let i' := mark_free (info st) (seqZ s (2 ^ k)) in
  free_set i' = free_set (info st) ∪ block_set s k /\ usable_set i' = usable_set (info st).
Proof.
  intros Hb i'. assert (Hi : forall p, i' !! p = if decide (p ∈ seqZ s (2 ^ k))
    then free_page <$> info st !! p else info st !! p) by (intros; apply mark_free_spec, NoDup_seqZ).
  split; apply set_eq; intros p.
  - rewrite elem_of_union, elem_of_block, !elem_of_free, Hi. unfold block.
    case_decide as E; rewrite elem_of_seqZ in E; [|intuition lia].
    destruct (Hb p E) as (pg & Hp & _ & Hr & _). rewrite Hp. split; [by right|]. intros _.
    eexists. split; [done|]. unfold pmm_is_free. simpl. by rewrite Hr.
  - rewrite !elem_of_usable, Hi. case_decide as E; [|done].
    apply elem_of_seqZ in E. destruct (Hb p E) as (pg & Hp & Hu & _). rewrite Hp. simpl.
    split; intros _; eexists; (split; [done|]); done.
Qed.

(** A block in use is counted. *)
Lemma in_use_counted st s k :
  pmm_ok st -> 0 <= k -> (forall p, block s k p -> in_use st p) ->
  Z.of_nat (size (free_set (info st) ∪ block_set s k)) = Z.of_nat (size (free_set (info st))) + 2 ^ k /\
  2 ^ k <= used_pages st.
Proof.
  intros Hok Hk Hb.
  assert (E : Z.of_nat (size (free_set (info st) ∪ block_set s k)) =
              Z.of_nat (size (free_set (info st))) + 2 ^ k).
  { rewrite size_union, <- (size_block s k); [lia|done|]. intros p Hp Hp'%elem_of_block.
    by apply (in_use_not_free _ _ (Hb p Hp')). }
  split; [done|]. rewrite (ok_used _ Hok). pose proof (ok_total _ Hok).
  assert (Hsub : free_set (info st) ∪ block_set s k ⊆ usable_set (info st)).
  { apply union_subseteq. split; [apply (ok_usable _ Hok)|]. intros p Hp%elem_of_block.
    destruct (Hb p Hp) as (pg & ? & ? & _). apply elem_of_usable. by exists pg. }
  pose proof (subseteq_size _ _ Hsub). lia.
Qed.

Lemma free_is_Some (i : gmap Z page) p : p ∈ free_set i -> is_Some (i !! p).
Proof. intros (pg & -> & _)%elem_of_free. by eexists. Qed.

(** The private pages lose the pages freed, modulo the width of the counters. *)
Lemma private_freed priv shared used n :
  priv +! shared = used -> 0 <= used - n < 2 ^ 64 -> (priv -! n) +! shared = used - n.
Proof.
  unfold u64. intros <- H. rewrite Zplus_mod_idemp_l.
  replace (priv - n + shared) with (priv + shared - n) by lia.
  rewrite <- Zminus_mod_idemp_l. by apply Z.mod_small.
Qed.

Lemma set_free_pages_spec st s k :
  pmm_ok st -> 64 <= s -> 0 <= k < 7 -> s mod 2 ^ k = 0 ->
  (forall p, block s k p -> in_use st p) ->
  exists st', pmm_set_free_pages st s k = Some st' /\ freed st st' (block_set s k).
Proof.
  intros Hok Hs Hk Ha Hb. unfold pmm_set_free_pages, pmm_zone_set_free_pages, ORDER2COUNT.
  rewrite Ha. cbn [negb Z.eqb].
  destruct (in_use_counted st s k Hok ltac:(lia) Hb) as (Hsize & Hused).
  destruct (mark_sets st s k Hb) as (Hfree & Husable).
  set (i' := mark_free (info st) (seqZ s (2 ^ k))) in *.
  set (st0 := set_counts _ _ _ _).
  assert (Hi : forall p, i' !! p = if decide (p ∈ seqZ s (2 ^ k))
    then free_page <$> info st !! p else info st !! p) by (intros; apply mark_free_spec, NoDup_seqZ).
  assert (Hnf : forall p, block s k p -> p ∉ free_set (info st)).
  { intros p Hp. by apply in_use_not_free, Hb. }
  destruct (merge_loop_spec 8 st0 (fun p => p ∈ free_set (info st)) s k)
    as (st1 & s' & k' & C' & -> & Hm); try done; try lia.
  { eapply (inv_info st); [done| |apply (ok_lists _ Hok)]. intros p pg Hp. cbn [info st0 set_counts set_info].
    change (info st0) with i'. rewrite Hi, Hp. case_decide; by eexists. }
  { apply (ok_high _ Hok). }
  { intros p. change (info st0) with i'. by rewrite Hfree, elem_of_union, elem_of_block. }
  cbn [mbind option_bind].
  destruct Hm as [Minfo Mused Mtotal Mpriv Mshared Minv (Mk & Ms & Ma & Mz) Mdis Msame].
  assert (Hin : is_Some (info st1 !! s')).
  { rewrite Minfo. apply free_is_Some. change (info st0) with i'.
    rewrite Hfree, elem_of_union, elem_of_block. apply Msame. right. apply block_head. lia. }
  destruct (set_order_spec st1 s' k' Hin) as (st2 & E2 & Een & Hsame & Hcomm).
  rewrite Hcomm. eexists. split; [done|].
  destruct Hsame as (Hfl & Hu & Ht & Hp & Hsh & _). fold (same_flags (info st1) (info st2)) in Hfl.
  rewrite Minfo in Hfl. change (info st0) with i' in Hfl.
  pose proof (Z.pow_pos_nonneg 2 k ltac:(lia) ltac:(lia)). pose proof (ok_total _ Hok).
  pose proof (size_free_usable _ Hok). pose proof (ok_used _ Hok) as Hus.
  assert (Hu' : used_pages st2 = used_pages st - 2 ^ k).
  { rewrite Hu, Mused. cbn [st0 used_pages set_counts set_info]. unfold u64. apply Z.mod_small. lia. }
  assert (Hf2 : free_set (info st2) = free_set (info st) ∪ block_set s k).
  { by rewrite (same_free _ _ Hfl), Hfree. }
  assert (Hcover : forall p, (C' p \/ block s' k' p) <-> p ∈ free_set (info st) ∪ block_set s k).
  { intros p. by rewrite Msame, elem_of_union, elem_of_block. }
  constructor; cbn [info used_pages total_pages set_entry]; try done.
  - intros p Hp'. rewrite (Hfl p), Hi, decide_False; [done|].
    intros Hin'. apply Hp', elem_of_list_to_set, Hin'.
  - rewrite Hu', size_block; lia.
  - by rewrite Ht, Mtotal.
  - constructor; cbn [info used_pages total_pages private_pages shared_pages set_entry].
    + rewrite Hf2. eapply inv_ext; [exact Hcover|].
      eapply (inv_add st1 C' (pmm_get_zone s) k' s' (entry st1 (pmm_get_zone s) k' ++ [s']));
        [done|lia|lia|done|done|done| |apply Hcomm].
      by rewrite Permutation_app_comm.
    + rewrite Hf2. intros p [Hp'|Hp']%elem_of_union; [by apply (ok_high _ Hok)|].
      apply elem_of_block in Hp'. unfold block in Hp'. lia.
    + rewrite Hf2, (same_usable _ _ Hfl), Husable. apply union_subseteq.
      split; [apply (ok_usable _ Hok)|]. intros p Hp'%elem_of_block.
      destruct (Hb p Hp') as (pg & ? & ? & _). apply elem_of_usable. by exists pg.
    + by rewrite (same_usable _ _ Hfl), Husable, Ht, Mtotal.
    + rewrite Hu', Ht, Mtotal, Hf2, Hsize, Hus. cbn [st0 total_pages set_counts set_info]. lia.
    + rewrite Hu', Hp, Hsh, Mpriv, Mshared. cbn [st0 private_pages shared_pages set_counts set_info].
      apply private_freed; [apply (ok_shared _ Hok)|lia].
Qed.

Lemma fitting_order_spec n s count :
  0 < count ->
  let k := fitting_order (S n) s count in
  0 <= k <= Z.of_nat n /\ 2 ^ k <= count /\ s mod 2 ^ k = 0.
Proof.
  intros Hc. induction n as [|n IH]; intros k.
  - unfold k. cbn [fitting_order]. unfold ORDER2COUNT. change (2 ^ Z.of_nat 0) with 1.
    rewrite Z.mod_1_r. case_match; (split; [lia|]; split; [lia|apply Z.mod_1_r]).
  - unfold k. remember (S n) as m eqn:Em. cbn [fitting_order]. unfold ORDER2COUNT.
    destruct (count <? 2 ^ Z.of_nat m) eqn:E1; cbn [orb].
    { subst m. destruct IH as (? & ?). split; [lia|done]. }
    destruct (s mod 2 ^ Z.of_nat m =? 0) eqn:E2; cbn [negb]; zbool.
    + split; [lia|]. split; [lia|done].
    + subst m. destruct IH as (? & ?). split; [lia|done].
Qed.

(** Freeing one block after another. *)
Lemma freed_trans st1 st2 st3 S S' :
  freed st1 st2 S -> freed st2 st3 S' -> S ## S' -> freed st1 st3 (S ∪ S').
Proof.
  intros [F1 O1 U1 T1 K1] [F2 O2 U2 T2 K2] Hd. constructor; [| | |congruence|done].
  - rewrite F2, F1. by rewrite assoc_L by apply _.
  - intros p Hp. rewrite O2, O1; [done|set_solver..].
  - rewrite U2, U1, size_union by done. lia.
Qed.

Lemma in_use_others st st' S p : freed st st' S -> p ∉ S -> in_use st p -> in_use st' p.
Proof.
  intros Hf Hp (pg & Hpg & Hu & Hr & Hn). pose proof (fr_others _ _ _ Hf p Hp) as H.
  rewrite Hpg in H. destruct (info st' !! p) as [pg'|] eqn:E; [|done]. simpl in H.
  injection H as Hrc Hfl. exists pg'. unfold usable in *. by rewrite Hrc, Hfl.
Qed.

Lemma set_free_range_spec fuel st s count :
  pmm_ok st -> 64 <= s -> 0 <= count < Z.of_nat fuel ->
  (forall p, s <= p < s + count -> in_use st p) ->
  exists st', set_free_range_loop fuel st s count = Some st' /\
    freed st st' (list_to_set (seqZ s count)).
Proof.
  revert st s count. induction fuel as [|fuel IH]; intros st s count Hok Hs Hc Hin; [lia|].
  cbn [set_free_range_loop]. rewrite Z.gtb_ltb. destruct (0 <? count) eqn:E; zbool.
  2:{ exists st. split; [done|]. rewrite seqZ_nil, list_to_set_nil by lia.
      constructor; try done; [set_solver|]. rewrite size_empty. lia. }
  destruct (fitting_order_spec 6 s count E) as (Hk & Hle & Ha). unfold ORDER2COUNT.
  set (k := fitting_order 7 s count) in *. pose proof (Z.pow_pos_nonneg 2 k ltac:(lia) ltac:(lia)).
  destruct (set_free_pages_spec st s k Hok Hs ltac:(lia) Ha) as (st1 & -> & Hf1).
  { intros p Hp. apply Hin. unfold block in Hp. lia. }
  cbn [mbind option_bind].
  destruct (IH st1 (s + 2 ^ k) (count - 2 ^ k)) as (st2 & -> & Hf2); [apply Hf1|lia|lia| |].
  { intros p Hp. eapply in_use_others; [done| |apply Hin; lia]. rewrite elem_of_block.
    unfold block. lia. }
  exists st2. split; [done|].
  replace (list_to_set (seqZ s count) : gset Z)
    with (block_set s k ∪ list_to_set (seqZ (s + 2 ^ k) (count - 2 ^ k))).
  { eapply freed_trans; [done..|]. intros p. rewrite elem_of_block, elem_of_list_to_set, elem_of_seqZ.
    unfold block. lia. }
  apply set_eq. intros p.
  rewrite elem_of_union, elem_of_block, !elem_of_list_to_set, !elem_of_seqZ. unfold block. lia.
Qed.

(** C2: [pmm_set_free_pages_range] (and [pmm_set_free_pages], which it calls on the
    largest aligned blocks of the range) on a range of pages that are in use, from the 64th
    page on, in a state in which the free lists hold exactly the free pages in disjoint
    aligned blocks, the counters count them and every free page is the 64th or a later one
    (the first zone ends inside the first 64 pages, and freeing there can unlink a buddy
    from the list of another zone, [zone_straddle]): it terminates, every
    [list_remove] of the merging finds its block, and afterwards exactly the pages of
    the range are free besides those that were; no reference or flag of another page
    changes, [used_pages] drops by the size of the range and the invariant holds: merged
    or not, the blocks of the lists are again disjoint, aligned and in their zone. *)
Theorem pmm_set_free_pages_range_correct st start count :
  pmm_ok st -> 64 <= start -> 0 <= count ->
  (forall p, start <= p < start + count -> in_use st p) ->
  exists st', pmm_set_free_pages_range st start count = Some st' /\
    freed st st' (list_to_set (seqZ start count)).
Proof. intros. apply set_free_range_spec; [done|done|lia|done]. Qed.

(** Eight pages in use, from the 64th. *)
Definition ex_used : pmm :=
  mk_pmm (list_to_map ((fun p => (p, mk_page 1 4 0)) <$> seqZ 64 8)) ∅ 8 8 8 0 true [].

Lemma ex_used_ok : pmm_ok ex_used.
Proof.
  assert (E : free_set (info ex_used) = ∅) by by vm_compute.
  assert (Hn : forall z k s, s ∈ entry ex_used z k -> False).
  { intros z k s Hs. unfold entry in Hs. cbn [entries ex_used] in Hs. rewrite lookup_empty in Hs.
    by apply elem_of_nil in Hs. }
  constructor; rewrite ?E; try done.
  - constructor.
    + intros z k s []%Hn.
    + intros p. split; [set_solver|]. intros (z & k & s & []%Hn & _).
    + intros z k s z' k' s' p []%Hn.
    + intros z k. unfold entry. cbn [entries ex_used]. rewrite lookup_empty. constructor.
Qed.

Lemma ex_used_in_use p : 64 <= p < 64 + 8 -> in_use ex_used p.
Proof.
  intros Hp. exists (mk_page 1 4 0). split; [|done].
  assert (Hc : p = 64 \/ p = 65 \/ p = 66 \/ p = 67 \/ p = 68 \/ p = 69 \/ p = 70 \/ p = 71) by lia.
  destruct_or! Hc; subst p; by vm_compute.
Qed.

(** The pages 65 to 70 become free: 65, the pairs at 66 and 68 and 70. *)
Lemma pmm_set_free_pages_range_correct_witness :
  (fun st => (entry st 1 0, entry st 1 1)) <$> pmm_set_free_pages_range ex_used 65 6 =
    Some ([65; 70], [66; 68]) /\
  exists st', pmm_set_free_pages_range ex_used 65 6 = Some st' /\
    freed ex_used st' (list_to_set (seqZ 65 6)).
Proof.
  split; [by vm_compute|]. apply (pmm_set_free_pages_range_correct ex_used 65 6);
    [apply ex_used_ok|lia|lia|]. intros p Hp. apply ex_used_in_use. lia.
Defined.

(** The state after it. *)
Definition ex_free : pmm := Eval vm_compute in default ex_used (pmm_set_free_pages_range ex_used 65 6).

Lemma ex_free_ok : pmm_ok ex_free.
Proof.
  destruct (set_free_range_spec 7 ex_used 65 6) as (st' & E & Hf);
    [apply ex_used_ok|lia|lia|intros; apply ex_used_in_use; lia|].
  replace ex_free with st'; [apply Hf|]. vm_compute in E. injection E as <-. reflexivity.
Qed.

(** A page out of the last pair, with the reserve allowed. *)
Lemma pmm_allocate_correct_witness :
  match pmm_zone_allocate_pages_flags ex_free ZONE_DEFAULT 1 ALLOC_FLAG_EMERGENCY 0 with
  | Some (st', Some s, evict) =>
      s = 68 /\ (exists z', z' <= 2 /\ allocated ex_free st' z' s 1) /\
      evict = (pmm_get_free_pages st' <? 976)
  | _ => False
  end.
Proof.
  pose proof (pmm_allocate_correct ex_free ZONE_DEFAULT 1 ALLOC_FLAG_EMERGENCY 0
    ex_free_ok eq_refl ltac:(lia) ltac:(by left)) as H.
  destruct (pmm_zone_allocate_pages_flags ex_free ZONE_DEFAULT 1 ALLOC_FLAG_EMERGENCY 0)
    as [[[st' [s|]] ev]|] eqn:E; vm_compute in E; try done.
  destruct H as (Hal & Hev & _). split; [congruence|]. by split.
Defined.

(** [pmm_retain] and [pmm_release_page] undo one another on a page with references. *)
Lemma retain_release st p pg :
  info st !! p = Some pg -> 0 < ref_count pg < 2 ^ 32 - 1 ->
  is_u64 (private_pages st) -> is_u64 (shared_pages st) ->
  exists st1, pmm_retain st p = Some (st1, 1) /\ pmm_release_page st1 p = Some st.
Proof.
  intros Hp Hr Hpr Hsh. unfold pmm_retain. rewrite Hp. cbn [mbind option_bind].
  destruct (ref_count pg =? 0) eqn:E; zbool; [lia|].
  assert (Hu : u32 (ref_count pg + 1) = ref_count pg + 1) by (unfold u32; apply Z.mod_small; lia).
  assert (Hu' : u32 (ref_count pg) = ref_count pg) by (unfold u32; apply Z.mod_small; lia).
  rewrite Hu. eexists. split; [done|]. unfold pmm_release_page.
  assert (Hpg : mk_page (u32 (ref_count pg + 1 - 1)) (flags pg) (order_ pg) = pg).
  { replace (ref_count pg + 1 - 1) with (ref_count pg) by lia. rewrite Hu'. by destruct pg. }
  destruct (ref_count pg =? 1) eqn:E1; cbn [info set_counts set_info]; rewrite lookup_insert_eq;
    cbn [ref_count flags order_]; rewrite Hpg, insert_insert_eq, (insert_id _ _ _ Hp); zbool.
  - rewrite E1. cbn. f_equal. destruct st. unfold set_info, set_counts. cbn in *. f_equal.
    + unfold u64, is_u64 in *. rewrite Zplus_mod_idemp_l. rewrite Z.mod_small; lia.
    + unfold u64, is_u64 in *. rewrite Zminus_mod_idemp_l. rewrite Z.mod_small; lia.
  - rewrite (proj2 (Z.eqb_neq (ref_count pg + 1) 1)) by lia. cbn [negb].
    rewrite (proj2 (Z.eqb_neq (ref_count pg + 1) 2)) by lia. by destruct st.
Qed.

(** The first zone ends at 64 KiB, inside a block of 64 pages: page 16, in the second
    zone, is the buddy of the block at 0, in the first, and freeing it when that block
    is free unlinks the block from a list that does not hold it. *)
Example zone_straddle :
  pmm_get_zone 0 = ZONE_DMA24 /\ pmm_get_zone 16 = ZONE_DMA32 /\
  let i := list_to_map ((fun p => (p, mk_page (if p <? 16 then 0 else 1) 4 4)) <$> seqZ 0 32) in
  let st := mk_pmm i {[ (0, 4) := [0] ]} 16 32 16 0 true [] in
  pmm_set_free_pages st 16 4 = None.
Proof. split; [done|]. split; [done|]. by vm_compute. Qed.

End Pmm.
