(* ===== verification/Signal.v ===== *)
(** Signals (kernel/task/signal.c, the signal system calls of kernel/task/syscall.c).

    A process and each of its tasks have a signal context: the queued signals with
    their information, a mask of pending signals, which also holds the lightweight
    ones that have no information, and a spinlock.  The lock is part of the state:
    acquiring it when it is held never returns and is [None], like a failed
    [kassert] or an index outside an array.  The numbers of the signals, [_NSIG],
    [sigmask] and the constants of [sigaction] come from the C library
    (abi/signal.h) and are parameters, with what the kernel needs of them in
    [abi_ok].  [mem] says for which process or task [slab_alloc] has memory.  The
    user stack of a handler is a map from addresses to the frames and words the
    kernel pushed; the floating-point state and the thread pointer that a frame
    also holds are left out. *)

From S2P Require Import Prelude.

Module Signal.

Inductive signame :=
  | SIGHUP | SIGINT | SIGQUIT | SIGILL | SIGTRAP | SIGABRT | SIGCAT | SIGFPE | SIGKILL | SIGBUS
  | SIGSEGV | SIGSYS | SIGPIPE | SIGALRM | SIGTERM | SIGURG | SIGSTOP | SIGTSTP | SIGCONT
  | SIGCHLD | SIGTTIN | SIGTTOU | SIGPOLL | SIGXCPU | SIGXFSZ | SIGVTALRM | SIGPROF | SIGWINCH
  | SIGINFO | SIGUSR1 | SIGUSR2 | SIGTHR.

#[global] Instance signame_eq_dec : EqDecision signame.
Proof. solve_decision. Defined.

Inductive handling := IGN | KILL | CORE | STOP | CONT.

#[global] Instance handling_eq_dec : EqDecision handling.
Proof. solve_decision. Defined.

Definition default_table : list (signame * handling) :=
  [(SIGHUP, KILL); (SIGINT, KILL); (SIGQUIT, CORE); (SIGILL, CORE); (SIGTRAP, CORE);
   (SIGABRT, CORE); (SIGCAT, IGN); (SIGFPE, CORE); (SIGKILL, KILL); (SIGBUS, CORE);
   (SIGSEGV, CORE); (SIGSYS, CORE); (SIGPIPE, KILL); (SIGALRM, KILL); (SIGTERM, KILL);
   (SIGURG, IGN); (SIGSTOP, STOP); (SIGTSTP, STOP); (SIGCONT, CONT); (SIGCHLD, IGN);
   (SIGTTIN, STOP); (SIGTTOU, STOP); (SIGPOLL, KILL); (SIGXCPU, CORE); (SIGXFSZ, CORE);
   (SIGVTALRM, KILL); (SIGPROF, KILL); (SIGWINCH, IGN); (SIGINFO, IGN); (SIGUSR1, IGN);
   (SIGUSR2, IGN); (SIGTHR, IGN)].

(** What the headers of the C library define. *)
Class Abi := {
  signo : signame -> Z;
  NSIG : Z;
  sigmask : Z -> Z;
  SIG_DFL : Z;
  SIG_IGN : Z;
  SA_RESETHAND : Z;
  SA_NODEFER : Z;
  sizeof_signal_frame : Z;
}.

Record siginfo := mk_siginfo { si_signo : Z; si_pid : Z; si_uid : Z; si_value : Z }.

Record signal_context := mk_ctx { pendings : list siginfo; pending_mask : Z; lock : bool }.

Record sigaction := mk_action { sa_handler : Z; sa_flags : Z; sa_mask : Z }.

Inductive task_status := RUNNING | BLOCKED | INTERRUPTIBLE | DEAD.
Inductive reason := WAKEUP_OTHER | WAKEUP_SIGNAL | WAKEUP_TIMEOUT.

Record task := mk_task {
  process_of : Z;
  sig_mask : Z;
  signal_context_of : signal_context;
  status : task_status;
  wakeup_reason : reason;
}.

Record cred := mk_cred { uid : Z; euid : Z; suid : Z }.

Record process := mk_process {
  proc_cred : cred;
  group : Z;
  threads : list Z;
  sig_handlers : list sigaction;
  proc_signal_context : signal_context;
}.

Record system := mk_system {
  procs : gmap Z process;
  tasks : gmap Z task;
  groups : gmap Z (list Z);
  current : Z;
}.

Implicit Types (sys : system) (c : signal_context) (t : task) (p : process) (si : siginfo) (mask : Z).

Definition set_mask t mask : task :=
  mk_task (process_of t) mask (signal_context_of t) (status t) (wakeup_reason t).
Definition set_task_ctx t c : task :=
  mk_task (process_of t) (sig_mask t) c (status t) (wakeup_reason t).
Definition set_proc_ctx p c : process :=
  mk_process (proc_cred p) (group p) (threads p) (sig_handlers p) c.
Definition set_handlers p (h : list sigaction) : process :=
  mk_process (proc_cred p) (group p) (threads p) h (proc_signal_context p).
Definition set_task sys tid t : system :=
  mk_system (procs sys) (<[tid := t]> (tasks sys)) (groups sys) (current sys).
Definition set_proc sys pid p : system :=
  mk_system (<[pid := p]> (procs sys)) (tasks sys) (groups sys) (current sys).
Definition current_task sys : option task := tasks sys !! current sys.
Definition current_proc sys : option (Z * process) :=
  t ← current_task sys; p ← procs sys !! process_of t; Some (process_of t, p).

Definition acquire c : option signal_context :=
  if lock c then None else Some (mk_ctx (pendings c) (pending_mask c) true).
Definition release c : signal_context := mk_ctx (pendings c) (pending_mask c) false.

Section abi.
Context `{A : Abi}.

(** An entry of the table that is not given is 0, [IGN]; the array ends at the largest
    number it names. *)
Definition default_handling (signum : Z) : option handling :=
  match find (fun e => signo e.1 =? signum) default_table with
  | Some (_, h) => Some h
  | None =>
      if (0 <=? signum) && (signum <=? foldr Z.max 0 ((fun e => signo e.1) <$> default_table))
      then Some IGN else None
  end.

Definition lookup_handler (h : list sigaction) (signum : Z) : option sigaction :=
  if signum <? 0 then None else h !! Z.to_nat signum.

(** The condition under which a signal is not queued. *)
Definition ignored p (signum : Z) : option bool :=
  a ← lookup_handler (sig_handlers p) signum;
  if sa_handler a =? SIG_IGN then Some true
  else if sa_handler a =? SIG_DFL then
    d ← default_handling signum; Some (bool_decide (d = IGN))
  else Some false.

(** [None] inside is the lack of memory. *)
Definition signal_create_pending (mem : bool) sys si : option (option siginfo) :=
  if negb mem then Some None
  else if si_pid si =? 0 then
    '(pid, p) ← current_proc sys;
    Some (Some (mk_siginfo (si_signo si) pid (uid (proc_cred p)) (si_value si)))
  else Some (Some si).

Definition signal_add_pending c p si : option (signal_context * bool) :=
  if negb (lock c) then None
  else
    let signum := si_signo si in
    if has (pending_mask c) (sigmask signum) then Some (c, false)
    else
      ign ← ignored p signum;
      if ign : bool then Some (c, false)
      else Some (mk_ctx (pendings c ++ [si]) (Z.lor (pending_mask c) (sigmask signum)) (lock c), true).

Definition signal_add_lightweight_pending c p (signum : Z) : option (signal_context * bool) :=
  if negb (lock c) then None
  else if has (pending_mask c) (sigmask signum) then Some (c, false)
  else
    ign ← ignored p signum;
    if ign : bool then Some (c, false)
    else Some (mk_ctx (pendings c) (Z.lor (pending_mask c) (sigmask signum)) (lock c), true).

(** kernel/task/scheduler.c; the run queues are left out. *)
Definition unblock_task_reason t (why : reason) : task :=
  match status t, why with
  | INTERRUPTIBLE, _ | BLOCKED, (WAKEUP_OTHER | WAKEUP_TIMEOUT) =>
      mk_task (process_of t) (sig_mask t) (signal_context_of t) RUNNING why
  | _, _ => t
  end.

(** Every thread of the list. *)
Fixpoint unblock_threads (ts : gmap Z task) (l : list Z) : option (gmap Z task) :=
  match l with
  | [] => Some ts
  | tid :: l =>
      t ← ts !! tid;
      unblock_threads (<[tid := unblock_task_reason t WAKEUP_SIGNAL]> ts) l
  end.

Definition signal_send_siginfo_proc (mem : Z -> bool) sys (pid : Z) si : option (system * res unit) :=
  if si_signo si =? 0 then Some (sys, Ok tt)
  else
    sp ← signal_create_pending (mem pid) sys si;
    match sp with
    | None => Some (sys, Err ENOMEM)
    | Some sp =>
        p ← procs sys !! pid;
        c ← acquire (proc_signal_context p);
        '(c, added) ← signal_add_pending c p sp;
        let sys := set_proc sys pid (set_proc_ctx p (release c)) in
        if added : bool then
          ts ← unblock_threads (tasks sys) (threads p);
          Some (mk_system (procs sys) ts (groups sys) (current sys), Ok tt)
        else Some (sys, Ok tt)
    end.

Fixpoint send_each (mem : Z -> bool) sys (l : list Z) si : option system :=
  match l with
  | [] => Some sys
  | pid :: l => '(sys, _) ← signal_send_siginfo_proc mem sys pid si; send_each mem sys l si
  end.

Definition signal_send_siginfo_group (mem : Z -> bool) sys (g : option (list Z)) si
    : option (system * res unit) :=
  if si_signo si =? 0 then Some (sys, Ok tt)
  else
    match g with
    | None => Some (sys, Err ESRCH)
    | Some l => sys ← send_each mem sys l si; Some (sys, Ok tt)
    end.

(** The lock is not released on the path that interrupts the thread. *)
Definition signal_send_siginfo_task (mem : Z -> bool) sys (tid : Z) si : option (system * res unit) :=
  if si_signo si =? 0 then Some (sys, Ok tt)
  else
    sp ← signal_create_pending (mem tid) sys si;
    match sp with
    | None => Some (sys, Err ENOMEM)
    | Some sp =>
        t ← tasks sys !! tid;
        p ← procs sys !! process_of t;
        c ← acquire (signal_context_of t);
        '(c, added) ← signal_add_pending c p sp;
        if (added : bool) && has (sig_mask t) (sigmask (si_signo si)) then
          Some (set_task sys tid (unblock_task_reason (set_task_ctx t c) WAKEUP_SIGNAL), Ok tt)
        else Some (set_task sys tid (set_task_ctx t (release c)), Ok tt)
    end.

Definition signal_send_siginfo_lightweight_task sys (tid signum : Z) : option (system * res unit) :=
  if signum =? 0 then Some (sys, Ok tt)
  else
    t ← tasks sys !! tid;
    p ← procs sys !! process_of t;
    c ← acquire (signal_context_of t);
    '(c, added) ← signal_add_lightweight_pending c p signum;
    if (added : bool) && has (sig_mask t) (sigmask signum) then
      Some (set_task sys tid (unblock_task_reason (set_task_ctx t c) WAKEUP_SIGNAL), Ok tt)
    else Some (set_task sys tid (set_task_ctx t (release c)), Ok tt).

(** ** Taking a signal *)

Inductive scanned :=
  | Found (before : list siginfo) (si : siginfo) (after : list siginfo)
  | Unwanted
  | NotFound.

(** The loop over the queued signals. *)
Fixpoint scan (before l : list siginfo) (mask blocked : Z) : scanned :=
  match l with
  | [] => NotFound
  | si :: l =>
      if has (sigmask (si_signo si)) mask then Found (rev before) si l
      else if has (sigmask (si_signo si)) (Z.lnot blocked) then Unwanted
      else scan (si :: before) l mask blocked
  end.

Inductive dequeued := Signal (si : siginfo) | NoSignal | Interrupted.

Definition clear c (signum : Z) (l : list siginfo) : signal_context :=
  mk_ctx l (Z.land (pending_mask c) (Z.lnot (sigmask signum))) false.

(** [blocked] is the [sig_mask] of the current task. *)
Definition signal_dequeue_context c mask (blocked : Z) : option (signal_context * dequeued) :=
  c ← acquire c;
  match scan [] (pendings c) mask blocked with
  | Found before si after => Some (clear c (si_signo si) (before ++ after), Signal si)
  | Unwanted => Some (release c, Interrupted)
  | NotFound =>
      match
        (if has (pending_mask c) mask
         then find (fun signum => has (Z.land (pending_mask c) (sigmask signum)) mask)
                (seqZ 1 (NSIG - 1))
         else None)
      with
      | Some signum => Some (clear c signum (pendings c), Signal (mk_siginfo signum 0 0 0))
      | None =>
          Some (release c, if has (pending_mask c) (Z.lnot blocked) then Interrupted else NoSignal)
      end
  end.

Definition signal_dequeue sys mask : option (system * dequeued) :=
  t ← current_task sys;
  '(c, d) ← signal_dequeue_context (signal_context_of t) mask (sig_mask t);
  let sys := set_task sys (current sys) (set_task_ctx t c) in
  match d with
  | NoSignal =>
      '(pid, p) ← current_proc sys;
      '(c, d) ← signal_dequeue_context (proc_signal_context p) mask (sig_mask t);
      Some (set_proc sys pid (set_proc_ctx p c), d)
  | _ => Some (sys, d)
  end.

Definition signal_get_pending_mask sys : option Z :=
  t ← current_task sys;
  _ ← acquire (signal_context_of t);
  '(_, p) ← current_proc sys;
  _ ← acquire (proc_signal_context p);
  Some (Z.lor (pending_mask (signal_context_of t)) (pending_mask (proc_signal_context p))).

Definition signal_get_unhandled_mask sys : option Z :=
  m ← signal_get_pending_mask sys;
  t ← current_task sys;
  Some (Z.land m (Z.lnot (sig_mask t))).

(** ** Handling a signal *)

Record registers := mk_regs { SP : Z; PC : Z; ARG1 : Z; ARG2 : Z; ARG3 : Z; others : list Z }.

Record frame := mk_frame { uc_sigmask : Z; uc_registers : registers; frame_siginfo : siginfo }.

(** The user stack: the frames and the words pushed, and where it is mapped. *)
Record stack := mk_stack { frames : gmap Z frame; words : gmap Z Z; mapped : Z -> Z -> bool }.

Inductive outcome :=
  | Runs (sys : system) (stk : stack) (regs : registers)
  | Exits (status : Z).

Definition MAGIC_SIGRETURN : Z := 18504.

Definition proc_sigexit (signum : Z) : outcome := Exits (Z.lor (2 ^ 17) signum).

Definition handle_default sys (stk : stack) (regs : registers) (signum : Z) : option outcome :=
  d ← default_handling signum;
  Some match d with
       | CORE | KILL => proc_sigexit signum
       | IGN | CONT | STOP => Runs sys stk regs
       end.

(** The offsets of [siginfo] and of [ucontext] in a frame are parameters. *)
Definition signal_handle_siginfo (off_siginfo off_ucontext : Z) sys (stk : stack) si
    (regs : registers) : option outcome :=
  t ← current_task sys;
  _ ← acquire (signal_context_of t);
  '(pid, p) ← current_proc sys;
  handler ← lookup_handler (sig_handlers p) (si_signo si);
  let sys :=
    if has (sa_flags handler) SA_RESETHAND && negb (sa_handler handler =? SIG_IGN)
    then set_proc sys pid
           (set_handlers p
              (<[Z.to_nat (si_signo si) := mk_action SIG_DFL (sa_flags handler) (sa_mask handler)]>
                 (sig_handlers p)))
    else sys in
  if sa_handler handler =? SIG_IGN then Some (Runs sys stk regs)
  else if sa_handler handler =? SIG_DFL then handle_default sys stk regs (si_signo si)
  else
    let user_frame :=
      Z.land ((SP regs -! 128) -! sizeof_signal_frame) (Z.lnot 15) in
    if negb (mapped stk user_frame sizeof_signal_frame) then Some (proc_sigexit (signo SIGILL))
    else
      let fr := mk_frame (sig_mask t) regs si in
      let sp := user_frame -! 8 in
      if negb (mapped stk sp 8) then Some (proc_sigexit (signo SIGILL))
      else
        let stk := mk_stack (<[user_frame := fr]> (frames stk))
                     (<[sp := MAGIC_SIGRETURN]> (words stk)) (mapped stk) in
        let m := Z.lor (sig_mask t) (sa_mask handler) in
        let m := if has (sa_flags handler) SA_NODEFER then m
                 else Z.lor m (sigmask (si_signo si)) in
        Some (Runs (set_task sys (current sys) (set_mask t m)) stk
                (mk_regs sp (sa_handler handler) (si_signo si)
                   (user_frame +! off_siginfo) (user_frame +! off_ucontext) (others regs))).

(** [while (max-- > 0 && signal_dequeue(~sig_mask, &siginfo) > 0)] *)
Fixpoint signal_handle_loop (max : nat) (o1 o2 : Z) sys (stk : stack) (regs : registers)
    : option outcome :=
  match max with
  | O => Some (Runs sys stk regs)
  | S max =>
      t ← current_task sys;
      '(sys, d) ← signal_dequeue sys (Z.lnot (sig_mask t));
      match d with
      | Signal si =>
          o ← signal_handle_siginfo o1 o2 sys stk si regs;
          match o with
          | Runs sys stk regs => signal_handle_loop max o1 o2 sys stk regs
          | Exits s => Some (Exits s)
          end
      | _ => Some (Runs sys stk regs)
      end
  end.

Definition signal_handle := signal_handle_loop 64.

Definition signal_restore_handler (is_userspace : registers -> bool) sys (stk : stack)
    (regs : registers) : option outcome :=
  match frames stk !! SP regs with
  | None => Some (proc_sigexit (signo SIGILL))
  | Some fr =>
      t ← current_task sys;
      _ ← acquire (signal_context_of t);
      let sys := set_task sys (current sys) (set_mask t (uc_sigmask fr)) in
      if negb (is_userspace regs) then Some (proc_sigexit (signo SIGILL))
      else Some (Runs sys stk (uc_registers fr))
  end.

(** ** System calls

    A pointer argument is null, bad, or points to a value. *)

Inductive uptr (T : Type) := Null | Bad | At (x : T).
#[global] Arguments Null {T}.
#[global] Arguments Bad {T}.
#[global] Arguments At {T} _.

Inductive how := SIG_BLOCK | SIG_UNBLOCK | SIG_SETMASK | SIG_other.

(** The result also has the value written to [oldset]. *)
Definition sys_sigprocmask sys (h : how) (set : uptr Z) (oldset : uptr unit)
    : option (system * option Z * res unit) :=
  match set with
  | Bad => Some (sys, None, Err EFAULT)
  | _ =>
      t ← current_task sys;
      _ ← acquire (signal_context_of t);
      let koldset := sig_mask t in
      let finish sys :=
        match oldset with
        | Null => (sys, None, Ok tt)
        | Bad => (sys, None, Err EFAULT)
        | At _ => (sys, Some koldset, Ok tt)
        end in
      let put m := set_task sys (current sys) (set_mask t m) in
      match set with
      | At kset =>
          Some match h with
               | SIG_BLOCK => finish (put (Z.lor (sig_mask t) kset))
               | SIG_UNBLOCK => finish (put (Z.land (sig_mask t) (Z.lnot kset)))
               | SIG_SETMASK => finish (put kset)
               | SIG_other => (sys, None, Err EINVAL)
               end
      | _ => Some (finish sys)
      end
  end.

(** [koldact] is copied from [act] and stored in the table; [oldact] is only tested. *)
Definition sys_sigaction sys (signum : Z) (act : uptr sigaction) (oldact : uptr unit)
    : option (system * res unit) :=
  let non_null := match oldact with Null => false | _ => true end in
  match act, non_null with
  | Bad, _ | Null, true => Some (sys, Err EFAULT)
  | _, _ =>
      if (signum >=? NSIG) || (signum <=? 0) then Some (sys, Err EINVAL)
      else
        '(pid, p) ← current_proc sys;
        _ ← lookup_handler (sig_handlers p) signum;
        match act with
        | At kact =>
            let h := if non_null then <[Z.to_nat signum := kact]> (sig_handlers p)
                     else sig_handlers p in
            let h := if negb (signum =? signo SIGKILL) || negb (signum =? signo SIGSTOP)
                     then <[Z.to_nat signum := kact]> h else h in
            Some (set_proc sys pid (set_handlers p h), Ok tt)
        | _ => Some (sys, Ok tt)
        end
  end.

Definition check_sig_perm sys p : option bool :=
  '(_, cur) ← current_proc sys;
  let current_cred := proc_cred cur in
  Some ((euid current_cred =? 0) || (uid current_cred =? uid (proc_cred p))
        || (euid current_cred =? suid (proc_cred p))).

Definition user_send_siginfo_task (mem : Z -> bool) sys (pid tid : Z) si : option (system * res unit) :=
  t ← tasks sys !! tid;
  if negb (process_of t =? pid) then Some (sys, Err ESRCH)
  else
    p ← procs sys !! process_of t;
    ok ← check_sig_perm sys p;
    if ok : bool then signal_send_siginfo_task mem sys tid si else Some (sys, Err EPERM).

Definition user_send_siginfo_proc (mem : Z -> bool) sys (pid : Z) si : option (system * res unit) :=
  p ← procs sys !! pid;
  ok ← check_sig_perm sys p;
  if ok : bool then signal_send_siginfo_proc mem sys pid si else Some (sys, Err EPERM).

Fixpoint user_send_each (mem : Z -> bool) sys (l : list Z) si (ret : res unit)
    : option (system * res unit) :=
  match l with
  | [] => Some (sys, ret)
  | pid :: l =>
      '(sys, sub_ret) ← user_send_siginfo_proc mem sys pid si;
      user_send_each mem sys l si
        (match ret, sub_ret with
         | Err ESRCH, _ | _, Ok _ => sub_ret
         | _, _ => ret
         end)
  end.

Definition user_send_siginfo_group (mem : Z -> bool) sys (l : list Z) si : option (system * res unit) :=
  user_send_each mem sys l si (Err ESRCH).

Definition sig_is_valid (signum : Z) : bool := negb ((signum >=? NSIG) || (signum <? 0)).

Definition sys_kill (mem : Z -> bool) sys (pid sig : Z) : option (system * res unit) :=
  if negb (sig_is_valid sig) then Some (sys, Err EINVAL)
  else
    let si := mk_siginfo sig 0 0 0 in
    if pid <? 0 then
      match groups sys !! (- pid) with
      | None => Some (sys, Err ESRCH)
      | Some l => user_send_siginfo_group mem sys l si
      end
    else if pid =? 0 then
      '(_, p) ← current_proc sys;
      l ← groups sys !! group p;
      user_send_siginfo_group mem sys l si
    else if pid =? -1 then Some (sys, Err ENOSYS)
    else
      match procs sys !! pid with
      | None => Some (sys, Err ESRCH)
      | Some _ => user_send_siginfo_proc mem sys pid si
      end.

Definition sys_tgkill (mem : Z -> bool) sys (pid tid sig : Z) : option (system * res unit) :=
  if negb (sig_is_valid sig) then Some (sys, Err EINVAL)
  else if (pid <? 0) || (tid <? 0) then Some (sys, Err EINVAL)
  else
    match tasks sys !! tid with
    | None => Some (sys, Err ESRCH)
    | Some _ => user_send_siginfo_task mem sys pid tid (mk_siginfo sig 0 0 0)
    end.

Definition sys_sigqueue (mem : Z -> bool) sys (pid sig value : Z) : option (system * res unit) :=
  if negb (sig_is_valid sig) then Some (sys, Err EINVAL)
  else if pid <? 0 then Some (sys, Err EINVAL)
  else
    match procs sys !! pid with
    | None => Some (sys, Err ESRCH)
    | Some _ => user_send_siginfo_proc mem sys pid (mk_siginfo sig 0 0 value)
    end.

Definition sys_tgsigqueue (mem : Z -> bool) sys (pid tid sig value : Z) : option (system * res unit) :=
  if negb (sig_is_valid sig) then Some (sys, Err EINVAL)
  else if (pid <? 0) || (tid <? 0) then Some (sys, Err EINVAL)
  else
    match tasks sys !! tid with
    | None => Some (sys, Err ESRCH)
    | Some _ => user_send_siginfo_task mem sys pid tid (mk_siginfo sig 0 0 value)
    end.

(** ** What the kernel needs of [sigmask]: one bit for each signal *)

Definition valid (s : Z) : Prop := 0 < s < NSIG.

Class AbiOk (sigbit : Z -> Z) : Prop := {
  abi_range : forall s, valid s -> 0 <= sigbit s < 64;
  abi_mask : forall s, valid s -> sigmask s = Z.shiftl 1 (sigbit s);
  abi_inj : forall s s', valid s -> valid s' -> sigbit s = sigbit s' -> s = s';
}.

Section bits.
Context (sigbit : Z -> Z) `{Hok : !AbiOk sigbit}.

(** A signal is in a set. *)
Definition member (s m : Z) : Prop := Z.testbit m (sigbit s) = true.
Definition pending c (s : Z) : Prop := member s (pending_mask c).

Lemma has_member m s : valid s -> has m (sigmask s) = Z.testbit m (sigbit s).
Proof. intros Hs. rewrite abi_mask by done. apply has_bit. by apply abi_range. Qed.

Lemma has_member_l m s : valid s -> has (sigmask s) m = Z.testbit m (sigbit s).
Proof. intros Hs. rewrite <- has_member by done. unfold has. by rewrite Z.land_comm. Qed.

(** Two sets that meet have a common bit. *)
Lemma has_common a b :
  0 <= a -> has a b = true -> exists i, 0 <= i /\ Z.testbit a i = true /\ Z.testbit b i = true.
Proof.
  intros Ha H. apply negb_true_iff, Z.eqb_neq in H.
  assert (0 <= Z.land a b) by (apply Z.land_nonneg; by left).
  exists (Z.log2 (Z.land a b)). split; [apply Z.log2_nonneg|].
  apply andb_true_iff. rewrite <- Z.land_spec. apply Z.bit_log2. lia.
Qed.

Lemma has_common_false a b i :
  has a b = false -> Z.testbit a i = true -> Z.testbit b i = false.
Proof.
  intros H Hi. apply negb_false_iff, Z.eqb_eq in H.
  assert (E : Z.testbit (Z.land a b) i = false) by (rewrite H; apply Z.bits_0).
  rewrite Z.land_spec, Hi in E. exact E.
Qed.

Lemma not_blocked blocked s : valid s -> Z.testbit (Z.lnot blocked) (sigbit s) = negb (Z.testbit blocked (sigbit s)).
Proof. intros Hs. apply Z.lnot_spec. by apply abi_range. Qed.

(** A context: what is queued is pending, once, and only signals are pending. *)
Record wf c : Prop := {
  wf_mask : 0 <= pending_mask c;
  wf_bits : forall i, 0 <= i -> Z.testbit (pending_mask c) i = true -> exists s, valid s /\ sigbit s = i;
  wf_queued : forall si, si ∈ pendings c -> valid (si_signo si) /\ pending c (si_signo si);
  wf_nodup : NoDup (si_signo <$> pendings c);
}.

(** The queued signals that the search passes over: not wanted, and blocked. *)
Definition passed mask (blocked : Z) (si : siginfo) : Prop :=
  ~ member (si_signo si) mask /\ member (si_signo si) blocked.

Lemma scan_spec before l mask blocked :
  (forall si, si ∈ l -> valid (si_signo si)) ->
  match scan before l mask blocked with
  | Found b si a =>
      exists l1, l = l1 ++ si :: a /\ b = rev before ++ l1 /\ member (si_signo si) mask /\
        Forall (passed mask blocked) l1
  | Unwanted => exists l1 si l2, l = l1 ++ si :: l2 /\ Forall (passed mask blocked) l1 /\
      ~ member (si_signo si) mask /\ ~ member (si_signo si) blocked
  | NotFound => Forall (passed mask blocked) l
  end.
Proof.
  revert before. induction l as [|x l IH]; intros before Hv; cbn [scan].
  { constructor. }
  assert (Hx : valid (si_signo x)) by (apply Hv; by left).
  rewrite !has_member_l, not_blocked by done.
  destruct (Z.testbit mask (sigbit (si_signo x))) eqn:Em.
  { exists []. by rewrite app_nil_r. }
  assert (Hnm : ~ member (si_signo x) mask) by (unfold member; congruence).
  destruct (Z.testbit blocked (sigbit (si_signo x))) eqn:Eb; cbn [negb].
  2:{ exists [], x, l. split; [done|]. split; [done|]. split; [done|]. unfold member. congruence. }
  specialize (IH (x :: before) (fun si Hs => Hv si (list_elem_of_further _ _ _ Hs))).
  destruct (scan (x :: before) l mask blocked) as [b si a| |].
  - destruct IH as (l1 & -> & -> & ? & ?). exists (x :: l1). split; [done|].
    cbn [rev]. rewrite <- app_assoc. split; [done|]. split; [done|]. by constructor.
  - destruct IH as (l1 & si & l2 & -> & ? & ?). exists (x :: l1), si, l2.
    split; [done|]. split; [by constructor|done].
  - by constructor.
Qed.

(** Clearing the bit of a signal. *)
Lemma testbit_clear m s s' :
  valid s -> valid s' ->
  Z.testbit (Z.land m (Z.lnot (sigmask s))) (sigbit s') =
    Z.testbit m (sigbit s') && negb (bool_decide (s' = s)).
Proof.
  intros Hs Hs'. rewrite Z.land_spec, abi_mask by done.
  pose proof (abi_range s Hs). pose proof (abi_range s' Hs').
  rewrite Z.lnot_spec, testbit_bit by lia. f_equal. f_equal.
  destruct (Z.eqb_spec (sigbit s') (sigbit s)) as [E|E]; symmetry.
  - apply bool_decide_eq_true. by apply abi_inj.
  - apply bool_decide_eq_false. by intros ->.
Qed.

Lemma pending_clear c s l s' :
  valid s -> valid s' -> pending (clear c s l) s' <-> pending c s' /\ s' <> s.
Proof.
  intros. unfold pending, member, clear. simpl. rewrite testbit_clear by done.
  rewrite andb_true_iff, negb_true_iff, bool_decide_eq_false. done.
Qed.

Lemma wf_clear c s l :
  wf c -> valid s -> (forall si, si ∈ l -> si ∈ pendings c /\ si_signo si <> s) ->
  NoDup (si_signo <$> l) -> wf (clear c s l).
Proof.
  intros [Hm Hb Hq Hn] Hs Hl Hnd. constructor; [| | |done].
  - apply Z.land_nonneg. by left.
  - intros i Hi H. apply Hb; [done|]. unfold clear in H. simpl in H. rewrite Z.land_spec in H.
    by apply andb_true_iff in H as (? & _).
  - intros si Hsi. apply Hl in Hsi as (Hin & Hne). destruct (Hq si Hin) as (Hv & Hp).
    split; [done|]. apply pending_clear; done.
Qed.

(** What [signal_dequeue_context] gives, in the order in which it looks: the
    queued signals from the oldest on, then the set of the pending ones. *)
Definition taken c c' mask (blocked : Z) si : Prop :=
  let s := si_signo si in
  valid s /\ member s mask /\ pending c s /\
  (forall s', valid s' -> pending c' s' <-> pending c s' /\ s' <> s) /\
  ((exists l1 l2, pendings c = l1 ++ si :: l2 /\ pendings c' = l1 ++ l2 /\
      Forall (passed mask blocked) l1) \/
   (si = mk_siginfo s 0 0 0 /\ pendings c' = pendings c /\
      Forall (passed mask blocked) (pendings c) /\
      forall s', valid s' -> pending c s' -> member s' mask -> s <= s')).

Definition interrupted c mask (blocked : Z) : Prop :=
  (exists l1 si l2, pendings c = l1 ++ si :: l2 /\ Forall (passed mask blocked) l1 /\
      ~ member (si_signo si) mask /\ ~ member (si_signo si) blocked) \/
  (Forall (passed mask blocked) (pendings c) /\
   (forall s, valid s -> pending c s -> ~ member s mask) /\
   exists s, valid s /\ pending c s /\ ~ member s blocked).

Definition dequeue_result c c' mask (blocked : Z) (d : dequeued) : Prop :=
  match d with
  | Signal si => taken c c' mask blocked si
  | NoSignal => c' = c /\ forall s, valid s -> pending c s -> ~ member s mask /\ member s blocked
  | Interrupted => c' = c /\ interrupted c mask blocked
  end.

Lemma dequeue_queued c mask blocked b si a :
  wf c -> scan [] (pendings c) mask blocked = Found b si a ->
  wf (clear c (si_signo si) (b ++ a)) /\ taken c (clear c (si_signo si) (b ++ a)) mask blocked si.
Proof.
  intros Hwf E. pose proof (scan_spec [] (pendings c) mask blocked (fun x Hx => proj1 (wf_queued _ Hwf x Hx))) as H.
  rewrite E in H. destruct H as (l1 & El & -> & Hm & Hf). cbn [rev app].
  assert (Hin : si ∈ pendings c) by (rewrite El; set_solver).
  destruct (wf_queued _ Hwf _ Hin) as (Hv & Hp).
  pose proof (wf_nodup _ Hwf) as Hnd. rewrite El, fmap_app, fmap_cons in Hnd.
  apply NoDup_app in Hnd as (Hn1 & Hd & (Hn2 & Hn3)%NoDup_cons).
  split.
  - apply wf_clear; [done|done| |].
    + intros x Hx. split; [rewrite El; set_solver|]. intros Ex.
      apply elem_of_app in Hx as [Hx|Hx].
      * apply (Hd (si_signo x)); [by apply list_elem_of_fmap_2|]. rewrite Ex. by left.
      * apply Hn2. rewrite <- Ex. by apply list_elem_of_fmap_2.
    + rewrite fmap_app. apply NoDup_app. split; [done|]. split; [|done].
      intros x Hx Hx'. apply (Hd x Hx). by right.
  - split; [done|]. split; [done|]. split; [done|]. split; [intros; by apply pending_clear|].
    left. by exists l1, a.
Qed.

(** The search for a lightweight signal finds the lowest wanted one. *)
Lemma find_lowest f n s s' :
  find f (seqZ 1 n) = Some s -> 1 <= s' <= n -> f s' = true -> s <= s'.
Proof.
  intros Hf Hs Hs'. destruct (decide (s <= s')) as [|Hlt]; [done|exfalso].
  assert (E : seqZ 1 n = seqZ 1 s' ++ seqZ (1 + s') (n - s'))
    by (rewrite <- seqZ_app by lia; f_equal; lia).
  rewrite E in Hf. clear E.
  assert (H : forall l l', find f (l ++ l') = Some s -> In s' l -> In s l).
  { induction l as [|x l IH]; simpl; [done|]. intros l' H Hin. destruct (f x) eqn:Ex; [by left; injection H|].
    destruct Hin as [->|Hin]; [congruence|]. right. by eapply IH. }
  apply H, list_elem_of_In, elem_of_seqZ in Hf; [lia|].
  apply list_elem_of_In, elem_of_seqZ. lia.
Qed.

Lemma wanted_bit c mask s :
  valid s -> pending c s -> member s mask ->
  has (Z.land (pending_mask c) (sigmask s)) mask = true.
Proof.
  intros Hv Hp Hm. unfold pending, member in *.
  destruct (has (Z.land (pending_mask c) (sigmask s)) mask) eqn:Hh; [done|].
  apply (has_common_false _ _ (sigbit s)) in Hh; [by rewrite Hm in Hh|].
  rewrite Z.land_spec, Hp, abi_mask, testbit_bit by (try done; apply abi_range; done).
  by rewrite Z.eqb_refl.
Qed.

(** The lightweight signals, when no queued signal is wanted. *)
Lemma dequeue_lightweight c mask blocked s :
  wf c -> Forall (passed mask blocked) (pendings c) ->
  find (fun signum => has (Z.land (pending_mask c) (sigmask signum)) mask) (seqZ 1 (NSIG - 1)) = Some s ->
  wf (clear c s (pendings c)) /\ taken c (clear c s (pendings c)) mask blocked (mk_siginfo s 0 0 0).
Proof.
  intros Hwf Hf Hfind. pose proof Hfind as (Hin & Hs)%find_some.
  apply list_elem_of_In, elem_of_seqZ in Hin. assert (Hv : valid s) by (unfold valid; lia).
  apply has_common in Hs as (i & Hi & Hi1 & Hi2); [|apply Z.land_nonneg; left; apply (wf_mask _ Hwf)].
  rewrite Z.land_spec, abi_mask, testbit_bit in Hi1 by (try done; apply abi_range; done).
  apply andb_true_iff in Hi1 as (Hi1 & ->%Z.eqb_eq). split.
  - apply wf_clear; [done|done| |apply (wf_nodup _ Hwf)]. intros x Hx. split; [done|].
    intros E. rewrite Forall_forall in Hf. apply (Hf x); [done|]. unfold member. by rewrite E.
  - split; [done|]. split; [done|]. split; [done|]. split; [intros; by apply pending_clear|].
    right. split_and!; try done. intros s' Hv' Hp' Hm'. eapply find_lowest; [exact Hfind| |].
    + unfold valid in Hv'. lia.
    + by apply wanted_bit.
Qed.

Lemma dequeue_nothing c mask blocked :
  wf c -> Forall (passed mask blocked) (pendings c) ->
  (if has (pending_mask c) mask
   then find (fun signum => has (Z.land (pending_mask c) (sigmask signum)) mask) (seqZ 1 (NSIG - 1))
   else None) = None ->
  dequeue_result c c mask blocked
    (if has (pending_mask c) (Z.lnot blocked) then Interrupted else NoSignal).
Proof.
  intros Hwf Hf Hnone.
  assert (Hno : forall s, valid s -> pending c s -> ~ member s mask).
  { intros s Hv Hp Hm. unfold pending, member in *. destruct (has (pending_mask c) mask) eqn:E.
    - assert (Hin : In s (seqZ 1 (NSIG - 1))).
      { apply list_elem_of_In, elem_of_seqZ. unfold valid in Hv. lia. }
      pose proof (find_none _ _ Hnone s Hin) as Hh. cbn beta in Hh.
      by rewrite (wanted_bit c mask s) in Hh.
    - by rewrite (has_common_false _ _ _ E Hp) in Hm. }
  destruct (has (pending_mask c) (Z.lnot blocked)) eqn:E; split; try done.
  - apply has_common in E as (i & Hi & Hp & Hb); [|apply (wf_mask _ Hwf)].
    destruct (wf_bits _ Hwf i Hi Hp) as (s & Hv & <-). right. split_and!; try done.
    exists s. split_and!; try done. unfold member. rewrite not_blocked in Hb by done. by destruct (Z.testbit blocked (sigbit s)).
  - intros s Hv Hp. split; [by apply Hno|]. pose proof (has_common_false _ _ _ E Hp) as Hb.
    rewrite not_blocked in Hb by done. by apply negb_false_iff in Hb.
Qed.

(** C32: [signal_dequeue_context] on a context whose lock is free, in which every
    queued signal is pending, no two queued ones have the same number, and only
    signals are pending; each signal below [NSIG] has its own bit in a set, as the
    C library defines it.  It always returns, with the lock free and the context
    of that kind again.  The result is the one of the first of these that applies,
    in the order in which the signals were queued: a queued signal of the mask, all
    those in front of it being blocked and not in the mask, is returned with its
    information and its node leaves the queue; a queued signal that is neither in
    the mask nor blocked, again behind such ones only, gives [-EINTR]; the lowest
    pending signal of the mask is returned, with empty information, and the queue
    stays; a pending signal that is not blocked gives [-EINTR]; 0 otherwise.  When a
    signal is returned exactly that one stops being pending, and nothing changes with
    [-EINTR] and 0. *)
Theorem signal_dequeue_context_correct c mask blocked :
  wf c -> lock c = false ->
  exists c' d, signal_dequeue_context c mask blocked = Some (c', d) /\
    lock c' = false /\ wf c' /\ dequeue_result c c' mask blocked d.
Proof.
  intros Hwf Hl. unfold signal_dequeue_context, acquire. rewrite Hl. cbn [mbind option_bind].
  destruct c as [l m lk]. cbn in Hl. subst lk. set (c := mk_ctx l m false) in *.
  assert (Hrel : release (mk_ctx (pendings c) (pending_mask c) true) = c) by done.
  cbn [pendings pending_mask]. change l with (pendings c). change m with (pending_mask c).
  pose proof (scan_spec [] (pendings c) mask blocked (fun x Hx => proj1 (wf_queued _ Hwf x Hx))) as Hs.
  destruct (scan [] (pendings c) mask blocked) as [b si a| |] eqn:E.
  - destruct (dequeue_queued c mask blocked b si a Hwf E) as (? & ?).
    eexists _, _. split; [done|]. by split_and!.
  - eexists _, _. split; [done|]. rewrite Hrel. split; [done|]. split; [done|]. split; [done|].
    by left.
  - match goal with |- context [match ?X with Some _ => _ | None => _ end] => destruct X as [s|] eqn:Ef end.
    + destruct (dequeue_lightweight c mask blocked s Hwf Hs) as (? & ?).
      { by destruct (has (pending_mask c) mask). }
      eexists _, _. split; [done|]. by split_and!.
    + eexists _, _. split; [done|]. rewrite Hrel. split; [done|]. split; [done|].
      by apply dequeue_nothing.
Qed.

(** Adding a signal. *)
Definition add c si : signal_context :=
  mk_ctx (pendings c ++ [si]) (Z.lor (pending_mask c) (sigmask (si_signo si))) false.

Lemma pending_add c si s' :
  valid (si_signo si) -> valid s' -> pending (add c si) s' <-> pending c s' \/ s' = si_signo si.
Proof.
  intros Hs Hs'. unfold pending, member, add. simpl.
  pose proof (abi_range _ Hs). pose proof (abi_range _ Hs').
  rewrite Z.lor_spec, abi_mask, testbit_bit, orb_true_iff, Z.eqb_eq by (done || lia).
  split; (intros [?|E]; [by left|right]); [by apply abi_inj|by rewrite E].
Qed.

Lemma wf_add c si : wf c -> valid (si_signo si) -> ~ pending c (si_signo si) -> wf (add c si).
Proof.
  intros [Hm Hb Hq Hn] Hv Hp. pose proof (abi_range _ Hv) as Hr. constructor.
  - apply Z.lor_nonneg. split; [done|]. rewrite abi_mask by done. apply Z.shiftl_nonneg. lia.
  - intros i Hi. unfold add. simpl. rewrite Z.lor_spec, abi_mask, testbit_bit by (done || lia).
    intros [?|?%Z.eqb_eq]%orb_true_iff; [by apply Hb|]. by exists (si_signo si).
  - intros x Hx. simpl in Hx. apply elem_of_app in Hx as [Hx|Hx].
    + destruct (Hq x Hx). split; [done|]. apply pending_add; [done|done|by left].
    + apply list_elem_of_singleton in Hx as ->. split; [done|]. apply pending_add; [done|done|by right].
  - simpl. rewrite fmap_app. apply NoDup_app. split; [done|]. split; [|apply NoDup_singleton].
    intros s' (x & -> & Hx)%list_elem_of_fmap Hs'. apply list_elem_of_singleton in Hs'.
    apply Hp. rewrite <- Hs'. by apply Hq.
Qed.

(** [signal_add_pending], with the lock held: nothing happens when the signal is pending
    or ignored, otherwise it is queued. *)
Lemma add_pending_spec c p si ign :
  valid (si_signo si) -> lock c = false -> ignored p (si_signo si) = Some ign ->
  exists c' (added : bool), (acquire c ≫= fun c => signal_add_pending c p si) = Some (c', added) /\
    lock c' = true /\ release c' = (if added then add c si else c) /\
    added = negb (ign || Z.testbit (pending_mask c) (sigbit (si_signo si))).
Proof.
  intros Hv Hl Hi. unfold acquire. rewrite Hl. cbn [mbind option_bind]. unfold signal_add_pending.
  cbn [lock negb pending_mask pendings]. rewrite has_member, Hi by done. cbn [mbind option_bind].
  destruct (Z.testbit _ _) eqn:E; [|destruct ign]; eexists _, _; (split; [done|]); (split; [done|]).
  - split; [by destruct c; cbn in *; subst|by rewrite orb_true_r].
  - split; [by destruct c; cbn in *; subst|done].
  - done.
Qed.

Lemma unblock_threads_spec ts l :
  NoDup l -> (forall tid, tid ∈ l -> is_Some (ts !! tid)) ->
  exists ts', unblock_threads ts l = Some ts' /\
    forall tid, ts' !! tid = (fun t => if decide (tid ∈ l) then unblock_task_reason t WAKEUP_SIGNAL else t)
                               <$> ts !! tid.
Proof.
  revert ts. induction l as [|x l IH]; intros ts Hnd Hin; cbn [unblock_threads].
  { exists ts. split; [done|]. intros tid. by destruct (ts !! tid). }
  apply NoDup_cons in Hnd as (Hx & Hnd). destruct (Hin x ltac:(by left)) as (t & Ht).
  rewrite Ht. cbn [mbind option_bind].
  destruct (IH (<[x := unblock_task_reason t WAKEUP_SIGNAL]> ts) Hnd) as (ts' & -> & Hts').
  { intros tid Htid. rewrite lookup_insert_is_Some'. right. apply Hin. by right. }
  exists ts'. split; [done|]. intros tid. rewrite Hts'. destruct (decide (tid = x)) as [->|Hne].
  - rewrite lookup_insert_eq, Ht. simpl. rewrite decide_False by done. by rewrite decide_True by by left.
  - rewrite lookup_insert_ne by done. destruct (ts !! tid); [|done]. simpl. f_equal.
    repeat case_decide; try done; set_solver.
Qed.

(** The signal is added to the context of the process: it was neither ignored nor
    pending. *)
Definition sent sys sys' (pid : Z) p si : Prop :=
  exists si', si_signo si' = si_signo si /\
    procs sys' = <[pid := set_proc_ctx p (add (proc_signal_context p) si')]> (procs sys) /\
    wf (add (proc_signal_context p) si') /\
    forall tid, tasks sys' !! tid =
      (fun t => if decide (tid ∈ threads p) then unblock_task_reason t WAKEUP_SIGNAL else t)
        <$> tasks sys !! tid.

(** [signal_send_siginfo_proc] of a valid signal to a process whose context is
    consistent: without memory it returns [-ENOMEM] and nothing changes; when the
    process ignores the signal (by its handler or by default) or the signal is already
    pending it returns 0 and nothing changes, so a pending signal is never queued
    twice; otherwise the signal is queued last and becomes pending, the context stays
    consistent with its lock free, and exactly the threads of the process that sleep
    interruptibly are woken. *)
Theorem signal_send_proc_correct mem sys pid p si ign :
  valid (si_signo si) -> procs sys !! pid = Some p ->
  wf (proc_signal_context p) -> lock (proc_signal_context p) = false ->
  ignored p (si_signo si) = Some ign -> is_Some (current_proc sys) ->
  NoDup (threads p) -> (forall tid, tid ∈ threads p -> is_Some (tasks sys !! tid)) ->
  exists sys' r, signal_send_siginfo_proc mem sys pid si = Some (sys', r) /\
    if negb (mem pid) then sys' = sys /\ r = Err ENOMEM
    else r = Ok tt /\
      if ign || Z.testbit (pending_mask (proc_signal_context p)) (sigbit (si_signo si))
      then procs sys' = procs sys /\ tasks sys' = tasks sys
      else sent sys sys' pid p si.
Proof.
  intros Hv Hp Hwf Hl Hi (pc & Hpc) Hnd Hth. unfold signal_send_siginfo_proc, signal_create_pending.
  destruct (si_signo si =? 0) eqn:E0; zbool; [unfold valid in Hv; lia|].
  destruct (mem pid); cbn [negb]; [|by eexists _, _].
  assert (Hc : exists si', (if si_pid si =? 0 then '(pid, p) ← current_proc sys;
      Some (Some (mk_siginfo (si_signo si) pid (uid (proc_cred p)) (si_value si))) else Some (Some si))
      = Some (Some si') /\ si_signo si' = si_signo si).
  { rewrite Hpc. destruct (si_pid si =? 0), pc; by eexists. }
  destruct Hc as (si' & -> & Es). cbn [mbind option_bind]. rewrite Hp. cbn [mbind option_bind].
  destruct (add_pending_spec (proc_signal_context p) p si' ign) as (c' & added & Hadd & Hl' & Hr & Ha);
    [by rewrite Es|done|by rewrite Es|].
  destruct (acquire (proc_signal_context p)) as [c1|]; [|done]. cbn [mbind option_bind] in *.
  rewrite Hadd. cbn [mbind option_bind]. rewrite Hr, Es in *. destruct added.
  - apply eq_sym, negb_true_iff in Ha. rewrite Ha. cbn [tasks set_proc].
    destruct (unblock_threads_spec (tasks sys) (threads p) Hnd Hth) as (ts & -> & Hts).
    eexists _, _. split; [done|]. split; [done|]. exists si'. split_and!; try done.
    apply wf_add; [done|by rewrite Es|]. rewrite Es. unfold pending, member.
    apply orb_false_iff in Ha as (_ & ->). done.
  - apply eq_sym, negb_false_iff in Ha. rewrite Ha. eexists _, _. split; [done|]. split; [done|].
    split; [|done]. simpl. apply insert_id. rewrite Hp. f_equal. by destruct p.
Qed.

(** [signal_send_siginfo_task] tests the mask of the thread the wrong way round.  For a
    valid signal that is neither ignored nor pending and for which there is memory, the
    signal is queued in both cases; but when the thread blocks it, the thread is the one
    that gets woken and the function returns without releasing the lock of the context,
    so the next signal sent to the thread, or its next dequeue, spins for ever; and when
    the thread does not block it, the thread keeps sleeping. *)
Theorem signal_send_task_mask_inverted mem sys tid t p si :
  valid (si_signo si) -> tasks sys !! tid = Some t -> procs sys !! process_of t = Some p ->
  lock (signal_context_of t) = false -> ignored p (si_signo si) = Some false ->
  ~ pending (signal_context_of t) (si_signo si) -> si_pid si <> 0 -> mem tid = true ->
  exists sys' t', signal_send_siginfo_task mem sys tid si = Some (sys', Ok tt) /\
    tasks sys' !! tid = Some t' /\ pendings (signal_context_of t') = pendings (signal_context_of t) ++ [si] /\
    if Z.testbit (sig_mask t) (sigbit (si_signo si))
    then lock (signal_context_of t') = true /\
      (status t = INTERRUPTIBLE -> status t' = RUNNING) /\
      (forall mask blocked, signal_dequeue_context (signal_context_of t') mask blocked = None) /\
      (forall si2, si_signo si2 <> 0 -> si_pid si2 <> 0 -> signal_send_siginfo_task mem sys' tid si2 = None)
    else lock (signal_context_of t') = false /\ status t' = status t.
Proof.
  intros Hv Ht Hp Hl Hi Hnp Hpid Hmem. unfold signal_send_siginfo_task, signal_create_pending.
  destruct (si_signo si =? 0) eqn:E0; zbool; [unfold valid in Hv; lia|].
  rewrite Hmem. cbn [negb]. rewrite (proj2 (Z.eqb_neq _ _) Hpid). cbn [mbind option_bind].
  rewrite Ht. cbn [mbind option_bind]. rewrite Hp. cbn [mbind option_bind].
  destruct (add_pending_spec (signal_context_of t) p si false Hv Hl Hi) as (c' & added & Hadd & Hl' & Hr & Ha).
  destruct (acquire (signal_context_of t)) as [c1|]; [|done]. cbn [mbind option_bind] in *.
  rewrite Hadd. cbn [mbind option_bind]. rewrite has_member by done.
  assert (added = true) as ->.
  { rewrite Ha. unfold pending, member in Hnp. by destruct (Z.testbit (pending_mask _) _). }
  cbn [andb]. assert (Hpend : pendings c' = pendings (signal_context_of t) ++ [si]).
  { change (pendings c') with (pendings (release c')). by rewrite Hr. }
  destruct (Z.testbit (sig_mask t) (sigbit (si_signo si))); eexists _, _; (split; [done|]);
    (split; [cbn [tasks set_task]; apply lookup_insert_eq|]).
  - split; [by unfold unblock_task_reason; destruct (status _)|].
    assert (Hlk : lock (signal_context_of (unblock_task_reason (set_task_ctx t c') WAKEUP_SIGNAL)) = true)
      by by unfold unblock_task_reason; destruct (status _).
    split; [done|]. split; [by unfold unblock_task_reason; simpl; intros ->|]. split.
    + intros mask blocked. unfold signal_dequeue_context, acquire. by rewrite Hlk.
    + intros si2 Hs2 Hp2. rewrite (proj2 (Z.eqb_neq _ _) Hs2). rewrite (proj2 (Z.eqb_neq _ _) Hp2).
      cbn [mbind option_bind tasks set_task]. rewrite lookup_insert_eq. cbn [mbind option_bind].
      unfold acquire. rewrite Hlk.
      match goal with |- (?X ≫= _) = _ => by destruct X end.
  - split; [done|]. done.
Qed.

End bits.

(** Aligning an address down to 16. *)
Lemma aligned16 x : 0 <= x -> Z.land x (Z.lnot 15) = x - x mod 16.
Proof.
  intros Hx. change 15 with (Z.ones 4). rewrite <- Z.ldiff_land, Z.ldiff_ones_r by lia.
  rewrite Z.shiftr_div_pow2, Z.shiftl_mul_pow2 by lia. change (2 ^ 4) with 16.
  pose proof (Z.div_mod x 16). lia.
Qed.

(** Delivering a signal to a handler and returning from it.  When the process has a
    handler and its stack is mapped, [signal_handle_siginfo] pushes a frame that starts
    below the red zone on a multiple of 16 and a return address below it, starts the
    handler with the signal, and masks for its duration the signals of [sa_mask] and,
    without [SA_NODEFER], the signal itself; when the handler has returned (the return
    address popped) with the frame intact, [signal_restore_handler] gives back the
    registers and the mask of the interrupted task exactly.  With [SA_RESETHAND] the
    handler is the default one afterwards. *)
Theorem signal_handler_roundtrip (o1 o2 : Z) (user : registers -> bool) sys stk si regs t pid p a :
  current_task sys = Some t -> lock (signal_context_of t) = false -> current_proc sys = Some (pid, p) ->
  lookup_handler (sig_handlers p) (si_signo si) = Some a ->
  sa_handler a <> SIG_IGN -> sa_handler a <> SIG_DFL ->
  (forall x n, mapped stk x n = true) ->
  0 < sizeof_signal_frame -> sizeof_signal_frame + 256 <= SP regs < 2 ^ 64 ->
  exists sys' stk' regs', signal_handle_siginfo o1 o2 sys stk si regs = Some (Runs sys' stk' regs') /\
    PC regs' = sa_handler a /\ ARG1 regs' = si_signo si /\
    SP regs' mod 16 = 8 /\ SP regs' + 8 + sizeof_signal_frame <= SP regs - 128 /\
    words stk' !! SP regs' = Some MAGIC_SIGRETURN /\
    (exists t', current_task sys' = Some t' /\
      sig_mask t' = Z.lor (Z.lor (sig_mask t) (sa_mask a))
        (if has (sa_flags a) SA_NODEFER then 0 else sigmask (si_signo si))) /\
    (has (sa_flags a) SA_RESETHAND = true ->
       exists p', procs sys' !! pid = Some p' /\
         lookup_handler (sig_handlers p') (si_signo si) = Some (mk_action SIG_DFL (sa_flags a) (sa_mask a))) /\
    forall ret, SP ret = SP regs' + 8 -> user ret = true ->
      exists sys'', signal_restore_handler user sys' stk' ret = Some (Runs sys'' stk' regs) /\
        exists t'', current_task sys'' = Some t'' /\ sig_mask t'' = sig_mask t.
Proof.
  intros Ht Hl Hp Ha Hign Hdfl Hmap Hsz Hsp. unfold signal_handle_siginfo.
  rewrite Ht. cbn [mbind option_bind]. unfold acquire at 1. rewrite Hl. cbn [mbind option_bind].
  rewrite Hp. cbn [mbind option_bind]. rewrite Ha. cbn [mbind option_bind].
  rewrite (proj2 (Z.eqb_neq _ _) Hign), (proj2 (Z.eqb_neq _ _) Hdfl), andb_true_r.
  rewrite !Hmap. cbn [negb].
  set (F := Z.land _ _).
  assert (HF : F mod 16 = 0 /\ 8 <= F /\ F + sizeof_signal_frame <= SP regs - 128 /\ F < 2 ^ 64).
  { unfold F. replace ((SP regs -! 128) -! sizeof_signal_frame) with (SP regs - 128 - sizeof_signal_frame)
      by (unfold u64; rewrite !Z.mod_small by (rewrite ?Z.mod_small; lia); lia).
    rewrite aligned16 by lia. pose proof (Z.mod_pos_bound (SP regs - 128 - sizeof_signal_frame) 16 ltac:(lia)).
    split; [|lia]. rewrite Zminus_mod_idemp_r, Z.sub_diag. done. }
  destruct HF as (Hal & HF8 & HFle & HFlt).
  assert (Hsub : F -! 8 = F - 8) by (unfold u64; apply Z.mod_small; lia). rewrite Hsub.
  set (sys1 := if has (sa_flags a) SA_RESETHAND then _ else sys).
  assert (Hcur : current sys1 = current sys) by (unfold sys1; by case_match).
  eexists _, _, _. split; [done|]. split_and!; try done; cbn [SP].
  - rewrite <- (Z.mod_unique_pos (F - 8) 16 (F / 16 - 1) 8); [done|lia|].
    pose proof (Z.div_mod F 16 ltac:(lia)). lia.
  - lia.
  - cbn [words]. apply lookup_insert_eq.
  - unfold current_task. cbn [tasks set_task current]. rewrite lookup_insert_eq. eexists. split; [done|].
    simpl. destruct (has (sa_flags a) SA_NODEFER); [by rewrite Z.lor_0_r|done].
  - intros Hre. unfold sys1. rewrite Hre. cbn [procs set_task set_proc]. rewrite lookup_insert_eq.
    eexists. split; [done|]. unfold lookup_handler in *. cbn [sig_handlers set_handlers].
    destruct (si_signo si <? 0); [done|]. apply list_lookup_insert_eq. by apply lookup_lt_Some in Ha.
  - intros ret Hret Hu. unfold signal_restore_handler. cbn [frames].
    replace (SP ret) with F by lia. rewrite lookup_insert_eq. unfold current_task at 1.
    cbn [tasks set_task current]. rewrite lookup_insert_eq. cbn [mbind option_bind].
    unfold acquire. cbn [signal_context_of set_mask]. rewrite Hl. cbn [mbind option_bind].
    rewrite Hu. cbn [negb]. eexists. split; [done|]. unfold current_task.
    cbn [tasks set_task current]. rewrite lookup_insert_eq. eexists. by split.
Qed.

(** [sys_sigaction] against its contract: it never reports the previous action (a call
    that only asks for it, with a null [act], fails with [-EFAULT] and nothing is ever
    written through [oldact]), and the test that should protect [SIGKILL] and [SIGSTOP] is
    always true: any valid signal gets the new action. *)
Theorem sys_sigaction_defects sys pid p signum kact :
  current_proc sys = Some (pid, p) -> procs sys !! pid = Some p ->
  0 < signum < NSIG -> NSIG <= Z.of_nat (length (sig_handlers p)) ->
  signo SIGKILL <> signo SIGSTOP ->
  sys_sigaction sys signum Null (At tt) = Some (sys, Err EFAULT) /\
  forall oldact, exists sys' p', sys_sigaction sys signum (At kact) oldact = Some (sys', Ok tt) /\
    procs sys' = <[pid := p']> (procs sys) /\
    lookup_handler (sig_handlers p') signum = Some kact.
Proof.
  intros Hc Hp Hs Hn Hks. split; [done|]. intros oldact. unfold sys_sigaction.
  destruct (signum >=? NSIG) eqn:E1; zbool; [lia|]. destruct (signum <=? 0) eqn:E2; zbool; [lia|].
  cbn [orb]. rewrite Hc. cbn [mbind option_bind].
  assert (Hlk : (Z.to_nat signum < length (sig_handlers p))%nat) by lia.
  unfold lookup_handler. rewrite (proj2 (Z.ltb_ge signum 0)) by lia.
  destruct (lookup_lt_is_Some_2 _ _ Hlk) as (old & ->). cbn [mbind option_bind].
  assert (Hne : negb (signum =? signo SIGKILL) || negb (signum =? signo SIGSTOP) = true).
  { destruct (Z.eqb_spec signum (signo SIGKILL)), (Z.eqb_spec signum (signo SIGSTOP)); try done; congruence. }
  rewrite Hne. destruct oldact; eexists _, _; (split; [done|]); (split; [done|]);
    cbn [sig_handlers set_handlers]; apply list_lookup_insert_eq; rewrite ?length_insert; done.
Qed.

End abi.

(** ** A concrete numbering *)

Definition ex_signo (n : signame) : Z :=
  1 + Z.of_nat (default 0%nat (fst <$> list_find (fun e => e.1 = n) default_table)).

#[local] Instance ex_abi : Abi := {|
  signo := ex_signo; NSIG := 32; sigmask s := Z.shiftl 1 (s - 1); SIG_DFL := 0; SIG_IGN := 1;
  SA_RESETHAND := 4; SA_NODEFER := 16; sizeof_signal_frame := 1000;
|}.

Lemma ex_abi_ok : AbiOk (fun s => s - 1).
Proof.
  constructor; unfold valid; cbn [NSIG ex_abi]; [lia|done|lia].
Qed.

(** [SIGTERM] is queued, [SIGHUP] is a lightweight signal. *)
Definition ex_ctx : signal_context := mk_ctx [mk_siginfo 15 3 0 0] (Z.lor (Z.shiftl 1 14) (Z.shiftl 1 0)) false.

Lemma ex_ctx_wf : wf (fun s => s - 1) ex_ctx.
Proof.
  constructor; cbn [pending_mask pendings ex_ctx]; [done| | |].
  - intros i Hi. rewrite Z.lor_spec, !testbit_bit by done. unfold valid. cbn [NSIG ex_abi].
    intros [->%Z.eqb_eq| ->%Z.eqb_eq]%orb_true_iff; [exists 15|exists 1]; lia.
  - intros si ->%list_elem_of_singleton. by split.
  - apply NoDup_singleton.
Qed.

(** Waiting for [SIGHUP] with [SIGTERM] blocked. *)
Lemma signal_dequeue_context_correct_witness :
  signal_dequeue_context ex_ctx 1 (Z.shiftl 1 14) =
    Some (mk_ctx [mk_siginfo 15 3 0 0] (Z.shiftl 1 14) false, Signal (mk_siginfo 1 0 0 0)) /\
  exists c' d, signal_dequeue_context ex_ctx 1 (Z.shiftl 1 14) = Some (c', d) /\
    lock c' = false /\ wf (fun s => s - 1) c' /\
    dequeue_result (fun s => s - 1) ex_ctx c' 1 (Z.shiftl 1 14) d.
Proof.
  split; [done|]. apply (signal_dequeue_context_correct _ (Hok := ex_abi_ok));
    [apply ex_ctx_wf|done].
Defined.

(** A process with a handler for [SIGHUP] whose only thread sleeps with [SIGALRM] blocked. *)
Definition ex_handlers : list sigaction :=
  <[1%nat := mk_action 4096 4 2]> (replicate 32 (mk_action 0 0 0)).
Definition ex_task : task := mk_task 7 (Z.shiftl 1 13) (mk_ctx [] 0 false) INTERRUPTIBLE WAKEUP_OTHER.
Definition ex_proc : process := mk_process (mk_cred 0 0 0) 7 [7] ex_handlers ex_ctx.
Definition ex_system : system := mk_system {[ 7 := ex_proc ]} {[ 7 := ex_task ]} {[ 7 := [7] ]} 7.

Lemma signal_send_proc_correct_witness :
  exists sys' r, signal_send_siginfo_proc (fun _ => true) ex_system 7 (mk_siginfo 14 3 0 0) = Some (sys', r) /\
    r = Ok tt /\ sent (fun s => s - 1) ex_system sys' 7 ex_proc (mk_siginfo 14 3 0 0).
Proof.
  refine (signal_send_proc_correct _ (Hok := ex_abi_ok) (fun _ => true) ex_system 7 ex_proc
    (mk_siginfo 14 3 0 0) false _ _ ex_ctx_wf _ _ _ _ _); try done.
  - apply NoDup_singleton.
  - intros tid ->%list_elem_of_singleton. by eexists.
Defined.

(** [SIGALRM] is sent to the thread that blocks it. *)
Lemma signal_send_task_mask_inverted_witness :
  exists sys' t', signal_send_siginfo_task (fun _ => true) ex_system 7 (mk_siginfo 14 3 0 0) = Some (sys', Ok tt) /\
    tasks sys' !! 7 = Some t' /\ lock (signal_context_of t') = true /\ status t' = RUNNING.
Proof.
  destruct (signal_send_task_mask_inverted _ (Hok := ex_abi_ok) (fun _ => true) ex_system 7 ex_task ex_proc
    (mk_siginfo 14 3 0 0)) as (sys' & t' & E & Ht & _ & Hl & Hs & _); try done.
  exists sys', t'. split; [done|]. split; [done|]. split; [done|]. by apply Hs.
Defined.

Lemma signal_handler_roundtrip_witness :
  let regs := mk_regs 65536 0 0 0 0 [] in
  exists sys' stk' regs',
    signal_handle_siginfo 936 0 ex_system (mk_stack ∅ ∅ (fun _ _ => true)) (mk_siginfo 1 0 0 0) regs =
      Some (Runs sys' stk' regs') /\
    PC regs' = 4096 /\ SP regs' = 64392 /\
    exists sys'', signal_restore_handler (fun _ => true) sys' stk' (mk_regs 64400 0 0 0 0 []) =
      Some (Runs sys'' stk' regs).
Proof.
  intros regs.
  destruct (signal_handler_roundtrip 936 0 (fun _ => true) ex_system (mk_stack ∅ ∅ (fun _ _ => true))
    (mk_siginfo 1 0 0 0) regs ex_task 7 ex_proc (mk_action 4096 4 2))
    as (sys' & stk' & regs' & E & Hpc & _ & _ & _ & _ & _ & _ & Hret); try done.
  assert (Hsp : SP regs' = 64392) by (vm_compute in E; injection E as _ _ <-; done).
  exists sys', stk', regs'. split; [done|]. split; [done|]. split; [done|].
  destruct (Hret (mk_regs 64400 0 0 0 0 [])) as (sys'' & ? & _); [by rewrite Hsp|done|]. by exists sys''.
Defined.

(** A handler for [SIGKILL]. *)
Lemma sys_sigaction_defects_witness :
  sys_sigaction ex_system 9 Null (At tt) = Some (ex_system, Err EFAULT) /\
  exists sys' p', sys_sigaction ex_system (ex_signo SIGKILL) (At (mk_action 8192 0 0)) Null = Some (sys', Ok tt) /\
    procs sys' = <[7 := p']> (procs ex_system) /\
    lookup_handler (sig_handlers p') 9 = Some (mk_action 8192 0 0).
Proof.
  assert (Hr : 0 < 9 < NSIG) by done. assert (Hn : NSIG <= 32) by done.
  assert (Hne : ex_signo SIGKILL <> ex_signo SIGSTOP) by done.
  destruct (sys_sigaction_defects ex_system 7 ex_proc 9 (mk_action 8192 0 0) eq_refl eq_refl Hr Hn Hne)
    as (Hget & Hset).
  split; [exact Hget|]. exact (Hset Null).
Defined.

End Signal.
