(* ===== verification/Vmm.v ===== *)
(** The segments of an address space (kernel/mem/vmm.c).

    The segments are kept in an AVL tree in address order ([Avl]); here a space holds
    the sequence of its segments, as the theorems on the trees allow: a new segment goes
    to its place, the first segment that is not below an address is found, and the next
    one follows.  What the sequence does not show is the shape of the tree, which decides
    whether [avltree_remove] comes back ([Avl.Avl.avltree_remove_unreachable] is a removal
    that does not): [tree_removes] says whether the removal that leaves given segments
    does, and an operation whose removal does not has no result ([None]).  The page
    table is a map from virtual page numbers to pages with their protection; [refs] are
    the reference counts of pages ([Pmm]).  [allocs] says which of the following
    allocations of a segment or of a page-table entry succeed, [fresh] the pages the
    physical allocator gives.  [can_split] and [can_mprotect] are the callbacks of the
    driver of a segment, [vfs_mmap] that of the file system.  [depth] counts how often
    the mutex of a segment is held when an operation returns.  What the drivers do when a
    segment is synchronised, duplicated or destroyed, the closing of its file and the
    invalidation of translations are left out, and so is the page-fault path.  The entries
    of the page table are found with the functions of [Paging], which are verified there;
    an entry of the map is a present one, and a protection always has the present flag in
    it, as every caller gives it.  Two functions of [Paging] that [vmm_clone_seg] calls do
    not do what they say, and are here as they are: [mmu_create_next_entry] takes an
    address two tables further for one of the same table ([create_next]), and
    [mmu_entry_clear_flags] makes what it clears the write flag of executable
    ([clear_flag_write]). *)

From S2P Require Import Prelude.

Module Vmm.

Definition VMM_FLAG_ANONYMOUS : Z := 1.
Definition VMM_FLAG_PRIVATE : Z := 2.
Definition VMM_FLAG_SHARED : Z := 4.
Definition VMM_FLAG_IO : Z := 8.

Definition WRITE : Z := 4. (* MMU_FLAG_WRITE *)
Definition EXEC : Z := 8. (* MMU_FLAG_EXEC *)
Definition PAGING_ENTRIES_PER_LEVEL : Z := 512.

Record vfs_fd := mk_fd { fd_id : Z; O_WRONLY : bool; O_RDWR : bool }.

Record vmm_seg := mk_seg {
  start : Z;
  end_ : Z;
  prot : Z;
  flags : Z;
  fd : option vfs_fd;
  offset : Z;
  private_data : Z;
  depth : Z;
}.

Definition VMM_SIZE (seg : vmm_seg) : Z := end_ seg - start seg.

Record pte := mk_pte { page : Z; pte_flags : Z }.

Record vmm_space := mk_space {
  segs : list vmm_seg;
  total_size : Z;
  peak_size : Z;
  private_size : Z;
  shared_size : Z;
  file_size : Z;
  anon_size : Z;
  table : gmap Z pte;
}.

(** What the address spaces share. *)
Record env := mk_env { refs : gmap Z Z; allocs : list bool; fresh : list Z }.

Implicit Types (sp : vmm_space) (seg : vmm_seg) (e : env).

Definition set_segs sp (l : list vmm_seg) : vmm_space :=
  mk_space l (total_size sp) (peak_size sp) (private_size sp) (shared_size sp) (file_size sp)
    (anon_size sp) (table sp).
Definition set_table sp (t : gmap Z pte) : vmm_space :=
  mk_space (segs sp) (total_size sp) (peak_size sp) (private_size sp) (shared_size sp)
    (file_size sp) (anon_size sp) t.
Definition set_end seg (x : Z) : vmm_seg :=
  mk_seg (start seg) x (prot seg) (flags seg) (fd seg) (offset seg) (private_data seg) (depth seg).
Definition set_prot seg (x : Z) : vmm_seg :=
  mk_seg (start seg) (end_ seg) x (flags seg) (fd seg) (offset seg) (private_data seg) (depth seg).
Definition held seg : vmm_seg :=
  mk_seg (start seg) (end_ seg) (prot seg) (flags seg) (fd seg) (offset seg) (private_data seg)
    (depth seg + 1).

(** The next allocation. *)
Definition alloc e : env * bool :=
  match allocs e with
  | [] => (e, false)
  | b :: l => (mk_env (refs e) l (fresh e), b)
  end.

Definition retain e (p : Z) : env := mk_env (alter (fun n => n + 1) p (refs e)) (allocs e) (fresh e).
Definition release e (p : Z) : env := mk_env (alter (fun n => n - 1) p (refs e)) (allocs e) (fresh e).
Definition ref_count e (p : Z) : Z := default 0 (refs e !! p).

#[local] Set Default Proof Using "Type".

Section vmm.
Context (can_split : vmm_seg -> Z -> res unit).
Context (can_mprotect : vmm_seg -> Z -> res unit).
Context (vfs_mmap : vmm_seg -> res vmm_seg).
Context (zero_page : Z).
Context (tree_removes : list vmm_seg -> vmm_seg -> bool).

(** The solvers of stdpp, kept away from the parameters of the section. *)
Ltac forget_parameters :=
  try clear can_split; try clear can_mprotect; try clear vfs_mmap; try clear zero_page;
  try clear tree_removes.
Ltac list_solver := forget_parameters; set_solver.
Ltac case_solver := forget_parameters; naive_solver.

Definition vmm_init_space : vmm_space := mk_space [] 0 0 0 0 0 0 ∅.

Definition covers (addr : Z) seg : bool := (start seg <=? addr) && (addr <? end_ seg).

Definition vmm_space_lookup sp (addr : Z) : option vmm_seg := find (covers addr) (segs sp).

(** The segment and, when it was cut, the new one behind it.  The callers assert that
    [cut] is aligned. *)
Definition vmm_space_split e seg (cut : Z) : env * vmm_seg * option vmm_seg * res unit :=
  if (cut <=? start seg) || (cut >=? end_ seg) then (e, seg, None, Err EINVAL)
  else
    match can_split seg cut with
    | Err x => (e, seg, None, Err x)
    | Ok _ =>
        let '(e, ok) := alloc e in
        if negb ok then (e, held seg, None, Err ENOMEM)
        else
          let new_seg := mk_seg cut (end_ seg) (prot seg) (flags seg) (fd seg)
                           (offset seg + (cut - start seg)) (private_data seg) 0 in
          (e, set_end seg cut, Some new_seg, Ok tt)
    end.

(** [None] is the dereference of a null descriptor. *)
Definition vmm_has_perm (f : option vfs_fd) (p fl : Z) : option bool :=
  if has fl VMM_FLAG_ANONYMOUS then Some true
  else
    f ← f;
    if O_WRONLY f then Some false
    else if has fl VMM_FLAG_SHARED && has p WRITE && negb (O_RDWR f) then Some false
    else Some true.

(** ** Unmapping *)

Definition pages_of (a b : Z) : list Z := seqZ (a / PAGE_SIZE) ((b - a) / PAGE_SIZE).

(** [mmu_unmap_pages] and [mmu_unmap_and_release_pages]. *)
Fixpoint unmap_pages (rel : bool) e (t : gmap Z pte) (l : list Z) : env * gmap Z pte :=
  match l with
  | [] => (e, t)
  | v :: l =>
      match t !! v with
      | None => unmap_pages rel e t l
      | Some x => unmap_pages rel (if rel then release e (page x) else e) (delete v t) l
      end
  end.

(** [vmm_space_raw_unmap]: the tree, the sizes and the page table; [l] are the segments
    without this one. *)
Definition vmm_space_raw_unmap e sp seg (l : list vmm_seg) : option (env * vmm_space) :=
  if negb (tree_removes l seg) then None else
  let size := VMM_SIZE seg in
  let file := match fd seg with Some _ => true | None => false end in
  let priv := has (flags seg) VMM_FLAG_PRIVATE in
  let '(e, t) := unmap_pages (negb (has (flags seg) VMM_FLAG_IO)) e (table sp)
                   (pages_of (start seg) (end_ seg)) in
  Some (e, mk_space l (total_size sp -! size) (peak_size sp)
        (if priv then private_size sp -! size else private_size sp)
        (if priv then shared_size sp else shared_size sp -! size)
        (if file then file_size sp -! size else file_size sp)
        (if file then anon_size sp else anon_size sp -! size) t).

(** [if (start > seg->start)]: the part in front, and the segment to go on with. *)
Definition cut_before e seg (s : Z) : env * list vmm_seg * vmm_seg * res unit :=
  if s >? start seg then
    match vmm_space_split e seg s with
    | (e, seg, Some new, Ok _) => (e, [seg], new, Ok tt)
    | (e, seg, _, r) => (e, [], seg, r)
    end
  else (e, [], seg, Ok tt).

(** [if (end < seg->end)]: the segment to go on with, and the part behind. *)
Definition cut_after e seg (x : Z) : env * vmm_seg * list vmm_seg * res unit :=
  if x <? end_ seg then
    match vmm_space_split e seg x with
    | (e, seg, Some new, Ok _) => (e, seg, [new], Ok tt)
    | (e, seg, _, r) => (e, seg, [], r)
    end
  else (e, seg, [], Ok tt).

(** The loop of [vmm_space_raw_unmap_range]: [pre] are the segments in front, last
    first, [l] those from the current one on. *)
Fixpoint unmap_loop e sp (s x : Z) (pre l : list vmm_seg) : option (env * vmm_space * res unit) :=
  match l with
  | [] => Some (e, set_segs sp (rev pre ++ l), Ok tt)
  | seg :: l' =>
      if start seg >=? x then Some (e, set_segs sp (rev pre ++ l), Ok tt)
      else
        let '(e1, front, seg1, r1) := cut_before e seg s in
        match r1 with
        | Err err => Some (e1, set_segs sp (rev pre ++ front ++ seg1 :: l'), Err err)
        | Ok _ =>
            let '(e2, seg2, back, r2) := cut_after e1 seg1 x in
            match r2 with
            | Err err => Some (e2, set_segs sp (rev pre ++ front ++ seg2 :: back ++ l'), Err err)
            | Ok _ =>
                '(e3, sp) ← vmm_space_raw_unmap e2 sp seg2 (rev pre ++ front ++ back ++ l');
                unmap_loop e3 sp s x (rev back ++ rev front ++ pre) l'
            end
        end
  end.

(** The segments that end before an address, last first, and the others. *)
Fixpoint split_below (s : Z) (pre l : list vmm_seg) : list vmm_seg * list vmm_seg :=
  match l with
  | [] => (pre, [])
  | seg :: l => if end_ seg <=? s then split_below s (seg :: pre) l else (pre, seg :: l)
  end.

Definition vmm_space_unmap_range e sp (s x : Z) : option (env * vmm_space * res unit) :=
  if negb (s mod PAGE_SIZE =? 0) || negb (x mod PAGE_SIZE =? 0) then None
  else let '(pre, l) := split_below s [] (segs sp) in unmap_loop e sp s x pre l.

Fixpoint unmap_all_loop e sp (l : list vmm_seg) : option (env * vmm_space) :=
  match l with
  | [] => Some (e, sp)
  | seg :: l => '(e, sp) ← vmm_space_raw_unmap e sp seg l; unmap_all_loop e sp l
  end.

Definition vmm_space_unmap_all e sp : option (env * vmm_space) := unmap_all_loop e sp (segs sp).

(** ** Changing the protection *)

Definition no_write (p : Z) : Z := Z.land p (Z.lnot WRITE).

(** The loop over the entries of a segment: a page of a private segment that others
    refer to stays read-only. *)
Fixpoint chprot_pages (priv : bool) e (p : Z) (t : gmap Z pte) (l : list Z) : gmap Z pte :=
  match l with
  | [] => t
  | v :: l =>
      chprot_pages priv e p
        (match t !! v with
         | None => t
         | Some x => <[v := mk_pte (page x) (if priv && (ref_count e (page x) >? 1)
                                             then no_write p else p)]> t
         end) l
  end.

Definition vmm_space_chprot e (t : gmap Z pte) seg (p : Z) : option (vmm_seg * gmap Z pte * res unit) :=
  ok ← vmm_has_perm (fd seg) p (flags seg);
  if negb ok then Some (seg, t, Err EACCES)
  else
    match can_mprotect seg p with
    | Err x => Some (seg, t, Err x)
    | Ok _ =>
        if prot seg =? p then Some (seg, t, Ok tt)
        else
          Some (set_prot seg p,
                chprot_pages (has (flags seg) VMM_FLAG_PRIVATE) e p t
                  (pages_of (start seg) (end_ seg)), Ok tt)
    end.

(** The loop of [vmm_space_raw_chprot_range]. *)
Fixpoint chprot_loop (fuel : nat) e sp (s x p : Z) (pre l : list vmm_seg)
    : option (env * vmm_space * res unit) :=
  match fuel with
  | O => None
  | S fuel =>
      match l with
      | [] => Some (e, set_segs sp (rev pre ++ l), Ok tt)
      | seg :: l' =>
          if start seg >=? x then Some (e, set_segs sp (rev pre ++ l), Ok tt)
          else if s >? start seg then
            match vmm_space_split e seg s with
            | (e, seg, Some new, Ok _) => chprot_loop fuel e sp s x p (seg :: pre) (new :: l')
            | (e, seg, _, r) => Some (e, set_segs sp (rev pre ++ seg :: l'), r)
            end
          else
            let '(e, seg, back, r) := cut_after e seg x in
            match r with
            | Err err => Some (e, set_segs sp (rev pre ++ seg :: back ++ l'), Err err)
            | Ok _ =>
                '(seg, t, r) ← vmm_space_chprot e (table sp) seg p;
                let sp := set_table sp t in
                match r with
                | Err err => Some (e, set_segs sp (rev pre ++ seg :: back ++ l'), Err err)
                | Ok _ => chprot_loop fuel e sp s x p (seg :: pre) (back ++ l')
                end
            end
      end
  end.

Definition vmm_space_chprot_range e sp (s x p : Z) : option (env * vmm_space * res unit) :=
  if negb (s mod PAGE_SIZE =? 0) || negb (x mod PAGE_SIZE =? 0) then None
  else
    let '(pre, l) := split_below s [] (segs sp) in
    chprot_loop (length l + 3) e sp s x p pre l.

(** ** Mapping *)

(** The place of a new segment in the tree. *)
Fixpoint insert_seg (new : vmm_seg) (l : list vmm_seg) : list vmm_seg :=
  match l with
  | [] => [new]
  | seg :: l' => if end_ new <=? start seg then new :: l else seg :: insert_seg new l'
  end.

(** The loop that looks for a place, with the subtraction of a [uintptr_t]. *)
Fixpoint find_gap (address size : Z) (l : list vmm_seg) : Z :=
  match l with
  | [] => address
  | seg :: l => if (start seg -! address) >=? size then address else find_gap (end_ seg) size l
  end.

Definition USER_START : Z := PAGE_SIZE * 128.

Definition vmm_space_raw_create_seg e sp (address size p fl : Z)
    : option (env * vmm_space * res vmm_seg) :=
  let '(e, ok) := alloc e in
  if negb ok then Some (e, sp, Err ENOMEM)
  else
    let insert e sp a :=
      let new_seg := mk_seg a (a +! size) p fl None 0 0 1 in
      Some (e, set_segs sp (insert_seg new_seg (segs sp)), Ok new_seg) in
    if negb (address =? 0) then
      '(e, sp, r) ← vmm_space_unmap_range e sp address (address +! size);
      match r with
      | Err err => Some (e, sp, Err err)
      | Ok _ => insert e sp address
      end
    else
      let a := find_gap USER_START size (segs sp) in
      if a =? 0 then Some (e, sp, Err ENOMEM) else insert e sp a.

(** The loop that maps the zero page at the pages of a private anonymous segment:
    [done_] are those already mapped, the last first. *)
Fixpoint map_zero_pages e (zero p : Z) (t : gmap Z pte) (done_ l : list Z)
    : env * gmap Z pte * res unit :=
  match l with
  | [] => (e, t, Ok tt)
  | v :: l =>
      let '(e, ok) := alloc e in
      if negb ok then
        let '(e, t) := unmap_pages true e t (rev done_) in (e, t, Err ENOMEM)
      else map_zero_pages (retain e zero) zero p (<[v := mk_pte zero (no_write p)]> t) (v :: done_) l
  end.

(** [mmu_allocate_zero_and_map_pages]: a new page for each. *)
Fixpoint map_fresh_pages e (p : Z) (t : gmap Z pte) (done_ l : list Z) : env * gmap Z pte * res unit :=
  match l with
  | [] => (e, t, Ok tt)
  | v :: l =>
      let fail e := let '(e, t) := unmap_pages true e t (rev done_) in (e, t, Err ENOMEM) in
      match fresh e with
      | [] => fail e
      | pg :: rest =>
          let '(e, ok) := alloc (mk_env (<[pg := 1]> (refs e)) (allocs e) rest) in
          if negb ok then fail (release e pg)
          else map_fresh_pages e p (<[v := mk_pte pg p]> t) (v :: done_) l
      end
  end.

Definition same_bounds seg seg' : bool := (start seg =? start seg') && (end_ seg =? end_ seg').
Definition remove_seg (new : vmm_seg) (l : list vmm_seg) : list vmm_seg :=
  List.filter (fun g => negb (same_bounds g new)) l.
(** The segment is updated in place. *)
Definition replace_seg (new : vmm_seg) (l : list vmm_seg) : list vmm_seg :=
  (fun g => if same_bounds g new then new else g) <$> l.

(** The counters of a mapping that succeeded. *)
Definition count_map sp seg (fl : Z) : vmm_space :=
  let size := VMM_SIZE seg in
  let total := total_size sp +! size in
  mk_space (segs sp) total (if total >? peak_size sp then total else peak_size sp)
    (if has fl VMM_FLAG_PRIVATE then private_size sp +! size else private_size sp)
    (if has fl VMM_FLAG_PRIVATE then shared_size sp else shared_size sp +! size)
    (match fd seg with Some _ => file_size sp +! size | None => file_size sp end)
    (match fd seg with Some _ => anon_size sp | None => anon_size sp +! size end) (table sp).

Definition vmm_space_raw_map e sp (address size p fl : Z) (f : option vfs_fd) (off : Z)
    : option (env * vmm_space * res vmm_seg) :=
  let size := PAGE_ALIGN_UP size in
  ok ← vmm_has_perm f p fl;
  if negb ok then Some (e, sp, Err EACCES)
  else
    '(e, sp, r) ← vmm_space_raw_create_seg e sp address size p fl;
    match r with
    | Err err => Some (e, sp, Err err)
    | Ok new =>
        let l := pages_of (start new) (end_ new) in
        let '(e, t, r) :=
          if has fl VMM_FLAG_ANONYMOUS then
            let '(e, t, r) :=
              if has fl VMM_FLAG_SHARED then map_fresh_pages e p (table sp) [] l
              else map_zero_pages (retain e zero_page) zero_page p (table sp) [] l in
            (e, t, match r with Ok _ => Ok new | Err err => Err err end)
          else
            match f with
            | Some _ => (e, table sp, vfs_mmap new)
            | None => (e, table sp, Err EINVAL)
            end in
        let sp := set_table sp t in
        match r with
        | Err err =>
            let l := remove_seg new (segs sp) in
            if negb (tree_removes l new) then None else Some (e, set_segs sp l, Err err)
        | Ok seg =>
            let f := if has fl VMM_FLAG_ANONYMOUS then None else f in
            let off := match f with Some _ => off | None => offset seg end in
            let seg := mk_seg (start seg) (end_ seg) (prot seg) (flags seg) f off (private_data seg) 0 in
            Some (e, count_map (set_segs sp (replace_seg seg (segs sp))) seg fl, Ok seg)
        end
    end.

Definition vmm_space_map := vmm_space_raw_map.

(** ** Cloning (fork) *)

(** [mmu_create_next_entry_and_acquire_lock] for the page [v] after the page [old]: the
    two are taken to be in the same table when bit 21 of their addresses is the same, and
    then the entry is found from the old one without a walk.  [None] when they are not: the
    entry then lies outside of the table. *)
Definition same_bit (v old : Z) : bool :=
  Z.land (v * PAGE_SIZE) (PAGING_ENTRIES_PER_LEVEL * PAGE_SIZE) =?
  Z.land (old * PAGE_SIZE) (PAGING_ENTRIES_PER_LEVEL * PAGE_SIZE).
Definition same_table (v old : Z) : bool :=
  v / PAGING_ENTRIES_PER_LEVEL =? old / PAGING_ENTRIES_PER_LEVEL.
Definition create_next e (v : Z) (old : option Z) : option (env * bool) :=
  match old with
  | Some o => if same_bit v o then if same_table v o then Some (e, true) else None else Some (alloc e)
  | None => Some (alloc e)
  end.

(** The loop over the entries of the parent: the page of each is mapped in the child. *)
Fixpoint clone_pages (io : bool) e (p : Z) (pt ct : gmap Z pte) (old : option Z) (done_ l : list Z)
    : option (env * gmap Z pte * res unit) :=
  match l with
  | [] => Some (e, ct, Ok tt)
  | v :: l =>
      match pt !! v with
      | None => clone_pages io e p pt ct old (v :: done_) l
      | Some x =>
          let e := if io then e else retain e (page x) in
          '(e, ok) ← create_next e v old;
          if negb ok then
            let '(e, ct) := unmap_pages (negb io) e ct (rev done_) in Some (e, ct, Err ENOMEM)
          else clone_pages io e p pt (<[v := mk_pte (page x) p]> ct) (Some v) (v :: done_) l
      end
  end.

(** [mmu_entry_clear_flags] with [MMU_FLAG_WRITE] on the entries of a segment: the hardware
    flags it clears are the write flag and, as [MMU_FLAG_EXEC] is not among its flags, the
    no-execute flag. *)
Definition clear_flag_write (fl : Z) : Z := Z.lor (no_write fl) EXEC.
Fixpoint clear_write (t : gmap Z pte) (l : list Z) : gmap Z pte :=
  match l with
  | [] => t
  | v :: l => clear_write (alter (fun x => mk_pte (page x) (clear_flag_write (pte_flags x))) v t) l
  end.

Definition unheld seg : vmm_seg :=
  mk_seg (start seg) (end_ seg) (prot seg) (flags seg) (fd seg) (offset seg) (private_data seg) 0.

(** The result also says whether the segment of the parent has been freed. *)
Definition vmm_clone_seg e (parent child : vmm_space) seg
    : option (env * vmm_space * vmm_space * res unit * bool) :=
  let '(e, ok) := alloc e in
  if negb ok then Some (e, parent, child, Err ENOMEM, false)
  else
    let priv := has (flags seg) VMM_FLAG_PRIVATE in
    let p := if priv then no_write (prot seg) else prot seg in
    let l := pages_of (start seg) (end_ seg) in
    '(e, ct, r) ← clone_pages (has (flags seg) VMM_FLAG_IO) e p (table parent) (table child) None [] l;
    let child := set_table child ct in
    match r with
    | Err err => Some (e, parent, child, Err err, true)
    | Ok _ =>
        Some (e, if priv then set_table parent (clear_write (table parent) l) else parent,
              set_segs child (insert_seg (unheld seg) (segs child)), Ok tt, false)
    end.

Fixpoint clone_loop e (parent child : vmm_space) (l : list vmm_seg)
    : option (env * vmm_space * vmm_space * res unit * bool) :=
  match l with
  | [] => Some (e, parent, child, Ok tt, false)
  | seg :: l =>
      '(e, parent, child, r, freed) ← vmm_clone_seg e parent child seg;
      match r with
      | Ok _ => clone_loop e parent child l
      | Err err => Some (e, parent, child, Err err, freed)
      end
  end.

Definition vmm_clone e (parent child : vmm_space)
    : option (env * vmm_space * vmm_space * res unit * bool) :=
  let child := mk_space (segs child) (total_size parent) (peak_size parent) (private_size parent)
                 (shared_size parent) (file_size parent) (anon_size parent) (table child) in
  '(e, parent, child, r, freed) ← clone_loop e parent child (segs parent);
  match r with
  | Ok _ => Some (e, parent, child, Ok tt, freed)
  | Err err =>
      '(e, child) ← vmm_space_unmap_all e child;
      Some (e, parent, child, Err err, freed)
  end.

(** ** What a space maps *)

(** What an address of a segment stands for. *)
Definition mapping : Type := Z * Z * option vfs_fd * Z * Z.
Definition mapping_at seg (addr : Z) : mapping :=
  (prot seg, flags seg, fd seg, offset seg + (addr - start seg), private_data seg).
Definition view (l : list vmm_seg) (addr : Z) : option mapping :=
  (fun seg => mapping_at seg addr) <$> find (covers addr) l.

Definition aligned (a : Z) : Prop := a mod PAGE_SIZE = 0.
Record seg_ok seg : Prop := {
  seg_range : 0 <= start seg < end_ seg /\ end_ seg < 2 ^ 64;
  seg_start : aligned (start seg);
  seg_end : aligned (end_ seg);
  seg_fd : has (flags seg) VMM_FLAG_ANONYMOUS = false -> is_Some (fd seg);
}.
Definition below seg seg' : Prop := end_ seg <= start seg'.
Definition ok_segs (l : list vmm_seg) : Prop := Forall seg_ok l /\ StronglySorted below l.

(** The sum of the sizes of the segments that are selected. *)
Fixpoint wsum (sel : vmm_seg -> bool) (l : list vmm_seg) : Z :=
  match l with
  | [] => 0
  | seg :: l => (if sel seg then VMM_SIZE seg else 0) + wsum sel l
  end.

Definition is_private seg : bool := has (flags seg) VMM_FLAG_PRIVATE.
Definition is_file seg : bool := match fd seg with Some _ => true | None => false end.

(** The counters of a space count the segments, and pages are mapped only in them. *)
Record acct sp (l : list vmm_seg) : Prop := {
  ac_total : total_size sp = wsum (fun _ => true) l;
  ac_private : private_size sp = wsum is_private l;
  ac_shared : shared_size sp = wsum (fun g => negb (is_private g)) l;
  ac_file : file_size sp = wsum is_file l;
  ac_anon : anon_size sp = wsum (fun g => negb (is_file g)) l;
}.
Definition covered (t : gmap Z pte) (l : list vmm_seg) : Prop :=
  forall v x, t !! v = Some x -> exists g, g ∈ l /\ covers (v * PAGE_SIZE) g = true.

Record inv sp (l : list vmm_seg) : Prop := {
  in_ok : ok_segs l;
  in_acct : acct sp l;
  in_table : covered (table sp) l;
}.

Lemma covers_spec a seg : covers a seg = true <-> start seg <= a < end_ seg.
Proof. unfold covers. rewrite andb_true_iff, Z.leb_le, Z.ltb_lt. lia. Qed.

Lemma view_app l1 l2 a :
  view (l1 ++ l2) a = match view l1 a with Some x => Some x | None => view l2 a end.
Proof.
  unfold view. induction l1 as [|g l1 IH]; [done|]. simpl. destruct (covers a g); [done|exact IH].
Qed.

Lemma view_cons seg l a :
  view (seg :: l) a = if covers a seg then Some (mapping_at seg a) else view l a.
Proof. unfold view. simpl. by destruct (covers a seg). Qed.

Lemma view_none l a : (forall g, g ∈ l -> covers a g = false) -> view l a = None.
Proof.
  induction l as [|g l IH]; intros H; [done|]. rewrite view_cons, H by by left.
  apply IH. intros g' Hg. apply H. by right.
Qed.

Lemma wsum_app sel l1 l2 : wsum sel (l1 ++ l2) = wsum sel l1 + wsum sel l2.
Proof. induction l1; simpl; lia. Qed.

Lemma wsum_bound sel l lo :
  ok_segs l -> Forall (fun g => lo <= start g) l -> lo < 2 ^ 64 -> 0 <= wsum sel l < 2 ^ 64 - lo.
Proof.
  revert lo. induction l as [|g l IH]; intros lo (Hok & Hs) Hlo Hl; simpl; [lia|].
  apply Forall_cons in Hok as (Hg & Hok), Hlo as (Hlo & _). apply StronglySorted_inv in Hs as (Hs & Hb).
  destruct (seg_range _ Hg). specialize (IH (end_ g) (conj Hok Hs) Hb ltac:(lia)).
  unfold VMM_SIZE. destruct (sel g); lia.
Qed.

(** Replacing segments in the middle. *)
Lemma ok_segs_app l1 l2 :
  ok_segs (l1 ++ l2) <->
  ok_segs l1 /\ ok_segs l2 /\ forall g1 g2, g1 ∈ l1 -> g2 ∈ l2 -> below g1 g2.
Proof.
  unfold ok_segs. rewrite Forall_app, StronglySorted_app. split.
  - intros ((? & ?) & ? & ? & ?). split_and!; try done.
  - intros ((? & ?) & (? & ?) & ?). split_and!; try done.
Qed.

Lemma ok_segs_cons seg l :
  ok_segs (seg :: l) <-> seg_ok seg /\ ok_segs l /\ forall g, g ∈ l -> below seg g.
Proof.
  unfold ok_segs. rewrite Forall_cons. split.
  - intros ((? & ?) & (? & Hb)%StronglySorted_inv). rewrite Forall_forall in Hb. by split_and!.
  - intros (? & (? & ?) & Hb). split; [done|]. constructor; [done|]. by apply Forall_forall.
Qed.

Lemma ok_segs_remove l1 seg l2 : ok_segs (l1 ++ seg :: l2) -> ok_segs (l1 ++ l2).
Proof.
  intros (H1 & (_ & H2 & _)%ok_segs_cons & H3)%ok_segs_app. apply ok_segs_app.
  split; [done|]. split; [done|]. intros g1 g2 ? ?. apply H3; [done|by right].
Qed.

(** The two parts of a segment that is cut. *)
Definition front_of seg (cut : Z) : vmm_seg := set_end seg cut.
Definition back_of seg (cut : Z) : vmm_seg :=
  mk_seg cut (end_ seg) (prot seg) (flags seg) (fd seg) (offset seg + (cut - start seg)) (private_data seg) 0.

Lemma split_spec e seg cut :
  match vmm_space_split e seg cut with
  | (e', a, Some b, Ok _) => start seg < cut < end_ seg /\ a = front_of seg cut /\ b = back_of seg cut
  | (e', a, None, Err _) => a = seg \/ a = held seg
  | _ => False
  end.
Proof.
  unfold vmm_space_split. destruct (cut <=? start seg) eqn:E1; [by left|].
  destruct (cut >=? end_ seg) eqn:E2; [by left|]. cbn [orb]. zbool.
  destruct (can_split seg cut); [|by left]. destruct (alloc e) as [e' []]; cbn [negb]; [|by right].
  split; [lia|done].
Qed.

Lemma view_cut seg cut l a :
  start seg < cut < end_ seg -> view (front_of seg cut :: back_of seg cut :: l) a = view (seg :: l) a.
Proof.
  intros Hc. rewrite !view_cons. unfold covers, front_of, back_of, mapping_at, set_end. cbn.
  repeat case_match; zbool; try lia; try done. do 3 f_equal. lia.
Qed.

Lemma cut_ok l1 seg cut l2 :
  aligned cut -> start seg < cut < end_ seg -> ok_segs (l1 ++ seg :: l2) ->
  ok_segs (l1 ++ front_of seg cut :: back_of seg cut :: l2).
Proof.
  intros Ha Hc (H1 & (Hg & H2 & Hb)%ok_segs_cons & H3)%ok_segs_app. destruct Hg as [(? & ?) ? ? ?].
  apply ok_segs_app. split; [done|]. split.
  - apply ok_segs_cons. split; [by constructor; simpl; try done; lia|]. split.
    + apply ok_segs_cons. split; [by constructor; simpl; try done; lia|]. by split.
    + intros g [->|Hin]%elem_of_cons; [unfold below; simpl; lia|].
      specialize (Hb g Hin). unfold below in *. simpl. lia.
  - intros g1 g2 Hin Hin2. specialize (H3 g1 seg Hin ltac:(by left)) as Hs.
    apply elem_of_cons in Hin2 as [->|[->|Hin2]%elem_of_cons]; unfold below in *; simpl; try lia.
    apply H3; [done|by right].
Qed.

Lemma cut_wsum sel l1 seg cut l2 :
  sel (front_of seg cut) = sel seg -> sel (back_of seg cut) = sel seg ->
  wsum sel (l1 ++ front_of seg cut :: back_of seg cut :: l2) = wsum sel (l1 ++ seg :: l2).
Proof.
  intros E1 E2. rewrite !wsum_app. simpl. rewrite E1, E2. unfold VMM_SIZE. simpl. destruct (sel seg); lia.
Qed.

Lemma cut_inv sp l1 seg cut l2 :
  aligned cut -> start seg < cut < end_ seg -> inv sp (l1 ++ seg :: l2) ->
  inv sp (l1 ++ front_of seg cut :: back_of seg cut :: l2).
Proof.
  intros Ha Hc [Hok [A1 A2 A3 A4 A5] Ht]. constructor; [by apply cut_ok| |].
  - constructor; rewrite cut_wsum by done; done.
  - intros v x Hv. destruct (Ht v x Hv) as (g & Hin & Hg).
    apply elem_of_app in Hin as [?|[->|?]%elem_of_cons]; [exists g; list_solver| |exists g; list_solver].
    rewrite covers_spec in Hg. destruct (decide (v * PAGE_SIZE < cut)).
    + exists (front_of seg cut). rewrite covers_spec. simpl. split; [list_solver|lia].
    + exists (back_of seg cut). rewrite covers_spec. simpl. split; [list_solver|lia].
Qed.

(** A held mutex does not matter to any of this. *)
Lemma held_inv sp l1 seg l2 : inv sp (l1 ++ seg :: l2) -> inv sp (l1 ++ held seg :: l2).
Proof.
  intros [Hok [A1 A2 A3 A4 A5] Ht].
  assert (E : forall sel, sel (held seg) = sel seg -> wsum sel (l1 ++ held seg :: l2) = wsum sel (l1 ++ seg :: l2)).
  { intros sel Es. rewrite !wsum_app. simpl. by rewrite Es. }
  constructor.
  - apply ok_segs_app in Hok as (H1 & (Hg & H2 & Hb)%ok_segs_cons & H3). apply ok_segs_app.
    split; [done|]. split; [apply ok_segs_cons; split; [by destruct Hg|by split]|].
    intros g1 g2 Hin [->|Hin2]%elem_of_cons; [|apply H3; list_solver].
    exact (H3 g1 seg Hin ltac:(by left)).
  - constructor; rewrite E by done; done.
  - intros v x Hv. destruct (Ht v x Hv) as (g & Hin & Hg).
    apply elem_of_app in Hin as [?|[->|?]%elem_of_cons]; [exists g; list_solver| |exists g; list_solver].
    exists (held seg). split; [list_solver|done].
Qed.

Lemma held_view l1 seg l2 a : view (l1 ++ held seg :: l2) a = view (l1 ++ seg :: l2) a.
Proof. by rewrite !view_app, !view_cons. Qed.

(** ** Unmapping a range *)

Lemma elem_of_pages a b v :
  aligned a -> aligned b -> a <= b -> v ∈ pages_of a b <-> a <= v * PAGE_SIZE < b.
Proof.
  unfold aligned, pages_of, PAGE_SIZE. intros Ha Hb Hab. rewrite elem_of_seqZ.
  apply Z.mod_divide in Ha as (q & ->); [|lia]. apply Z.mod_divide in Hb as (r & ->); [|lia].
  rewrite <- Z.mul_sub_distr_r, !Z.div_mul by lia. lia.
Qed.

Lemma unmap_pages_table rel e t l v :
  snd (unmap_pages rel e t l) !! v = if decide (v ∈ l) then None else t !! v.
Proof.
  revert e t. induction l as [|w l IH]; intros e t; cbn [unmap_pages].
  { by rewrite decide_False by apply not_elem_of_nil. }
  destruct (t !! w) as [x|] eqn:E; rewrite IH; destruct (decide (v = w)) as [->|Hne].
  - rewrite lookup_delete_eq. repeat case_decide; try done; list_solver.
  - rewrite lookup_delete_ne by done. repeat case_decide; try done; list_solver.
  - rewrite E. repeat case_decide; done.
  - repeat case_decide; try done; list_solver.
Qed.

Lemma ok_nonneg l : ok_segs l -> Forall (fun g => 0 <= start g) l.
Proof. intros (H & _). eapply Forall_impl; [done|]. intros g [(? & _) _ _ _]. lia. Qed.

Lemma wsum_minus sel sp l1 seg l2 x :
  ok_segs (l1 ++ seg :: l2) -> x = wsum sel (l1 ++ seg :: l2) ->
  (if sel seg then x -! VMM_SIZE seg else x) = wsum sel (l1 ++ l2).
Proof.
  intros Hok ->. pose proof (ok_segs_remove _ _ _ Hok) as Hok'.
  pose proof (wsum_bound sel _ 0 Hok' (ok_nonneg _ Hok') ltac:(lia)) as Hb.
  rewrite !wsum_app in *. simpl. destruct (sel seg); [|lia].
  unfold u64. rewrite Z.mod_small; lia.
Qed.

(** A removal from the tree of segments that does not come back. *)
Definition stuck : Prop := exists l seg, tree_removes l seg = false.

Lemma raw_unmap_spec e sp l1 seg l2 :
  inv sp (l1 ++ seg :: l2) -> tree_removes (l1 ++ l2) seg = true ->
  exists e' sp', vmm_space_raw_unmap e sp seg (l1 ++ l2) = Some (e', sp') /\ inv sp' (l1 ++ l2) /\
    segs sp' = l1 ++ l2 /\
    forall v, table sp' !! v = if covers (v * PAGE_SIZE) seg then None else table sp !! v.
Proof.
  intros [Hok [A1 A2 A3 A4 A5] Ht] Hrem. unfold vmm_space_raw_unmap. rewrite Hrem. cbn [negb].
  destruct (unmap_pages _ e (table sp) _) as [e' t'] eqn:E.
  pose proof Hok as (_ & ([Hr Hs He _] & _ & _)%ok_segs_cons & _)%ok_segs_app.
  assert (Htab : forall v, t' !! v = if covers (v * PAGE_SIZE) seg then None else table sp !! v).
  { intros v. pose proof (unmap_pages_table (negb (has (flags seg) VMM_FLAG_IO)) e (table sp)
      (pages_of (start seg) (end_ seg)) v) as H. rewrite E in H. cbn [snd] in H. rewrite H.
    pose proof (elem_of_pages _ _ v Hs He ltac:(lia)) as Hin. rewrite <- covers_spec in Hin.
    destruct (covers (v * PAGE_SIZE) seg); case_decide as Hd; try done; [|]; exfalso.
    - apply Hd. by apply Hin.
    - by apply Hin in Hd. }
  eexists _, _. split; [done|]. split; [|done]. constructor; [by eapply ok_segs_remove| |].
  - constructor; cbn [total_size private_size shared_size file_size anon_size].
    + by apply (wsum_minus (fun _ => true) sp l1 seg l2).
    + by apply (wsum_minus is_private sp l1 seg l2).
    + rewrite <- (wsum_minus (fun g => negb (is_private g)) sp l1 seg l2 _ Hok A3). unfold is_private.
      by destruct (has (flags seg) VMM_FLAG_PRIVATE).
    + rewrite <- (wsum_minus is_file sp l1 seg l2 _ Hok A4). unfold is_file. by destruct (fd seg).
    + rewrite <- (wsum_minus (fun g => negb (is_file g)) sp l1 seg l2 _ Hok A5). unfold is_file.
      by destruct (fd seg).
  - intros v x. cbn [table]. rewrite Htab. destruct (covers (v * PAGE_SIZE) seg) eqn:Ec; [done|].
    intros Hv. destruct (Ht v x Hv) as (g & Hin & Hg).
    apply elem_of_app in Hin as [?|[->|?]%elem_of_cons]; [exists g; list_solver|congruence|exists g; list_solver].
Qed.

(** What unmapping a range gives: the rest of the space is as before, and when it
    succeeds nothing is mapped in the range. *)
Record unmapped (s x : Z) sp sp' (l : list vmm_seg) (r : res unit) : Prop := {
  um_inv : inv sp' (segs sp');
  um_outside : forall a, ~ (s <= a < x) -> view (segs sp') a = view l a;
  um_inside : r = Ok tt -> forall a, s <= a < x -> view (segs sp') a = None;
  um_table : forall v, ~ (s <= v * PAGE_SIZE < x) -> table sp' !! v = table sp !! v;
}.

Definition outside (s x : Z) seg : Prop := end_ seg <= s \/ x <= start seg.

Lemma outside_view s x l a : Forall (outside s x) l -> s <= a < x -> view l a = None.
Proof.
  intros H Ha. apply view_none. intros g Hg. rewrite Forall_forall in H. specialize (H g Hg).
  destruct (covers a g) eqn:E; [|done]. apply covers_spec in E. unfold outside in H. lia.
Qed.

Lemma inv_set_segs sp l : inv sp l -> inv (set_segs sp l) (segs (set_segs sp l)).
Proof. intros [? [] ?]. constructor; [done| |done]. by constructor. Qed.

(** One way for the loop to end: the list as it is. *)
Lemma unmapped_stop s x sp l l' r :
  inv sp l' -> (forall a, view l' a = view l a) ->
  (r = Ok tt -> Forall (outside s x) l') -> unmapped s x sp (set_segs sp l') l r.
Proof.
  intros Hinv Hv Ho. constructor; [by apply inv_set_segs| | |done].
  - intros a _. apply Hv.
  - intros Hr a Ha. simpl. eapply outside_view; [by apply Ho|done].
Qed.

Lemma cut_before_spec e sp seg s l1 l2 :
  aligned s -> s < end_ seg -> inv sp (l1 ++ seg :: l2) ->
  exists e' front seg' r, cut_before e seg s = (e', front, seg', r) /\
    inv sp (l1 ++ front ++ seg' :: l2) /\
    (forall a, view (l1 ++ front ++ seg' :: l2) a = view (l1 ++ seg :: l2) a) /\
    (r = Ok tt -> Forall (fun g => end_ g <= s) front /\ start seg' = Z.max s (start seg) /\ end_ seg' = end_ seg).
Proof.
  intros Ha Hs Hinv. unfold cut_before. rewrite Z.gtb_ltb. destruct (start seg <? s) eqn:E; zbool.
  2:{ eexists _, _, _, _. split; [done|]. split; [done|]. split; [done|]. intros _.
      split; [constructor|]. lia. }
  pose proof (split_spec e seg s) as Hsp.
  destruct (vmm_space_split e seg s) as [[[e' g] [new|]] [u|err]]; try done.
  - destruct Hsp as (Hc & -> & ->). eexists _, _, _, _. split; [done|]. split; [by apply cut_inv|]. split.
    + intros a. cbn [app]. rewrite !view_app. destruct (view l1 a); [done|]. by apply view_cut.
    + intros _. split; [by repeat constructor|]. simpl. lia.
  - eexists _, _, _, _. split; [done|]. cbn [app]. split; [by destruct Hsp as [->| ->]; [|apply held_inv]|].
    split; [|done]. intros a. destruct Hsp as [->| ->]; [done|]. apply held_view.
Qed.

Lemma cut_after_spec e sp seg x l1 l2 :
  aligned x -> start seg < x -> inv sp (l1 ++ seg :: l2) ->
  exists e' seg' back r, cut_after e seg x = (e', seg', back, r) /\
    inv sp (l1 ++ seg' :: back ++ l2) /\
    (forall a, view (l1 ++ seg' :: back ++ l2) a = view (l1 ++ seg :: l2) a) /\
    (r = Ok tt -> Forall (fun g => x <= start g) back /\ start seg' = start seg /\ end_ seg' = Z.min x (end_ seg)).
Proof.
  intros Ha Hs Hinv. unfold cut_after. destruct (x <? end_ seg) eqn:E; zbool.
  2:{ eexists _, _, _, _. split; [done|]. split; [done|]. split; [done|]. intros _.
      split; [constructor|]. lia. }
  pose proof (split_spec e seg x) as Hsp.
  destruct (vmm_space_split e seg x) as [[[e' g] [new|]] [u|err]]; try done.
  - destruct Hsp as (Hc & -> & ->). eexists _, _, _, _. split; [done|]. split; [by apply cut_inv|]. split.
    + intros a. cbn [app]. rewrite !view_app. destruct (view l1 a); [done|]. by apply view_cut.
    + intros _. split; [by repeat constructor|]. simpl. lia.
  - eexists _, _, _, _. split; [done|]. cbn [app]. split; [by destruct Hsp as [->| ->]; [|apply held_inv]|].
    split; [|done]. intros a. destruct Hsp as [->| ->]; [done|]. apply held_view.
Qed.

(** Taking out a segment inside the range changes nothing outside it. *)
Lemma view_remove s x l1 seg l2 a :
  s <= start seg -> end_ seg <= x -> ~ (s <= a < x) -> view (l1 ++ l2) a = view (l1 ++ seg :: l2) a.
Proof.
  intros H1 H2 Ha. rewrite !view_app, view_cons. destruct (view l1 a); [done|].
  destruct (covers a seg) eqn:E; [|done]. apply covers_spec in E. lia.
Qed.

Lemma unmap_loop_spec s x l e sp pre :
  aligned s -> aligned x -> s < x -> inv sp (rev pre ++ l) ->
  Forall (outside s x) pre -> Forall (fun g => s < end_ g) l ->
  (unmap_loop e sp s x pre l = None /\ stuck) \/
  exists e' sp' r, unmap_loop e sp s x pre l = Some (e', sp', r) /\ unmapped s x sp sp' (rev pre ++ l) r.
Proof.
  intros Has Hax Hsx. revert e sp pre. induction l as [|seg l IH]; intros e sp pre Hinv Hpre Hl; cbn [unmap_loop].
  { right. eexists _, _, _. split; [done|]. apply unmapped_stop; try done. intros _.
    rewrite app_nil_r. by apply Forall_rev. }
  apply Forall_cons in Hl as (Hse & Hl).
  pose proof (in_ok _ _ Hinv) as (_ & (Hg & _ & Hbelow)%ok_segs_cons & _)%ok_segs_app.
  rewrite Z.geb_leb. destruct (x <=? start seg) eqn:E; zbool.
  { right. eexists _, _, _. split; [done|]. apply unmapped_stop; try done. intros _. apply Forall_app.
    split; [by apply Forall_rev|]. constructor; [by right|]. apply Forall_forall. intros g Hin. right.
    specialize (Hbelow g Hin). unfold below in Hbelow. destruct (seg_range _ Hg). lia. }
  destruct (cut_before_spec e sp seg s (rev pre) l Has Hse Hinv)
    as (e1 & front & seg1 & r1 & -> & Hinv1 & Hv1 & Hok1).
  destruct r1 as [u|err].
  2:{ right. eexists _, _, _. split; [done|]. by apply unmapped_stop. }
  destruct u. destruct (Hok1 eq_refl) as (Hfront & Hst1 & Hen1). rewrite app_assoc in Hinv1.
  destruct (cut_after_spec e1 sp seg1 x (rev pre ++ front) l Hax ltac:(lia) Hinv1)
    as (e2 & seg2 & back & r2 & -> & Hinv2 & Hv2 & Hok2).
  assert (Hv12 : forall a, view ((rev pre ++ front) ++ seg2 :: back ++ l) a = view (rev pre ++ seg :: l) a).
  { intros a. by rewrite Hv2, <- app_assoc, Hv1. }
  destruct r2 as [u|err].
  2:{ right. eexists _, _, _. split; [done|]. rewrite (app_assoc (rev pre)). by apply unmapped_stop. }
  destruct u. destruct (Hok2 eq_refl) as (Hback & Hst2 & Hen2).
  rewrite (app_assoc (rev pre)).
  destruct (tree_removes ((rev pre ++ front) ++ back ++ l) seg2) eqn:Hrem.
  2:{ left. unfold vmm_space_raw_unmap. rewrite Hrem. split; [done|by eexists _, _]. }
  destruct (raw_unmap_spec e2 sp (rev pre ++ front) seg2 (back ++ l) Hinv2 Hrem)
    as (e3 & sp3 & Eun & Hinv3 & _ & Htab3).
  rewrite Eun. cbn [mbind option_bind].
  assert (Hrev : rev (rev back ++ rev front ++ pre) ++ l = (rev pre ++ front) ++ back ++ l).
  { by rewrite !rev_app_distr, !rev_involutive, <- !app_assoc. }
  destruct (IH e3 sp3 (rev back ++ rev front ++ pre)) as [(-> & ?)|(e' & sp' & r & -> & [U1 U2 U3 U4])].
  { by rewrite Hrev. }
  { rewrite !Forall_app. split; [apply Forall_rev; eapply Forall_impl; [done|]; intros; by right|].
    split; [apply Forall_rev; eapply Forall_impl; [done|]; intros; by left|done]. }
  { done. }
  { by left. }
  right. eexists _, _, _. split; [done|]. rewrite Hrev in *.
  assert (s <= start seg2 /\ end_ seg2 <= x) as (? & ?) by lia.
  constructor; [done| |done|].
  - intros a Ha. rewrite (U2 a Ha), <- Hv12. by apply (view_remove s x).
  - intros v Hv. rewrite (U4 v Hv), Htab3.
    destruct (covers (v * PAGE_SIZE) seg2) eqn:Ec; [|done]. apply covers_spec in Ec. lia.
Qed.

Lemma split_below_spec s pre l :
  ok_segs (rev pre ++ l) -> Forall (fun g => end_ g <= s) pre ->
  exists pre' l', split_below s pre l = (pre', l') /\ rev pre' ++ l' = rev pre ++ l /\
    Forall (fun g => end_ g <= s) pre' /\ Forall (fun g => s < end_ g) l'.
Proof.
  revert pre. induction l as [|seg l IH]; intros pre Hok Hpre; cbn [split_below]; [by eexists _, _|].
  destruct (end_ seg <=? s) eqn:E; zbool.
  - destruct (IH (seg :: pre)) as (pre' & l' & -> & Hl & ?); [cbn [rev]; by rewrite <- app_assoc|by constructor|].
    eexists _, _. split; [done|]. cbn [rev] in Hl. by rewrite <- app_assoc in Hl.
  - eexists _, _. split; [done|]. split; [done|]. split; [done|].
    apply ok_segs_app in Hok as (_ & (_ & Hok & Hb)%ok_segs_cons & _). constructor; [lia|].
    apply Forall_forall. intros g Hg. specialize (Hb g Hg). unfold below in Hb.
    destruct Hok as (Hf & _). rewrite Forall_forall in Hf. destruct (seg_range _ (Hf g Hg)). lia.
Qed.

(** Splits succeed when the driver allows them and there is memory, and two are enough. *)
Definition has_memory e (n : nat) : Prop := exists l, allocs e = replicate n true ++ l.

Lemma has_memory_le e n m : (m <= n)%nat -> has_memory e n -> has_memory e m.
Proof.
  intros H (l & Hl). exists (replicate (n - m) true ++ l). rewrite Hl.
  rewrite app_assoc, <- replicate_add. do 2 f_equal. lia.
Qed.

Lemma split_succeeds e seg cut n :
  (forall g c, can_split g c = Ok tt) -> start seg < cut < end_ seg -> has_memory e (S n) ->
  exists e', vmm_space_split e seg cut = (e', front_of seg cut, Some (back_of seg cut), Ok tt) /\
    has_memory e' n.
Proof.
  intros Hsp Hc (l & Hl). unfold vmm_space_split.
  rewrite (proj2 (Z.leb_gt cut (start seg))) by lia. rewrite Z.geb_leb, (proj2 (Z.leb_gt (end_ seg) cut)) by lia.
  cbn [orb]. rewrite Hsp. unfold alloc. rewrite Hl. cbn [replicate app negb]. eexists. split; [done|].
  by exists l.
Qed.

Definition need (s : Z) (l : list vmm_seg) : nat :=
  match l with [] => 0%nat | g :: _ => if start g <? s then 2%nat else 1%nat end.

Lemma unmap_loop_succeeds s x l e sp pre :
  (forall g c, can_split g c = Ok tt) -> s < x -> ok_segs l -> Forall (fun g => s < end_ g) l ->
  has_memory e (need s l) ->
  match unmap_loop e sp s x pre l with Some (_, _, r) => r = Ok tt | None => True end.
Proof.
  intros Hsp Hsx. revert e sp pre. induction l as [|seg l IH]; intros e sp pre Hok Hl Hm; cbn [unmap_loop].
  { done. }
  apply Forall_cons in Hl as (Hse & Hl). apply ok_segs_cons in Hok as (Hg & Hok & Hb).
  rewrite Z.geb_leb. destruct (x <=? start seg) eqn:E; zbool; [done|].
  assert (H1 : exists e1 front seg1, cut_before e seg s = (e1, front, seg1, Ok tt) /\ has_memory e1 1 /\
    start seg1 < x /\ end_ seg1 = end_ seg).
  { unfold cut_before. rewrite Z.gtb_ltb. cbn [need] in Hm. destruct (start seg <? s) eqn:Es; zbool.
    - destruct (split_succeeds e seg s 1 Hsp ltac:(lia) Hm) as (e1 & -> & ?).
      eexists _, _, _. split; [done|]. by split_and!.
    - eexists _, _, _. split; [done|]. by split_and!. }
  destruct H1 as (e1 & front & seg1 & -> & Hm1 & Hs1 & He1).
  assert (H2 : exists e2 seg2 back, cut_after e1 seg1 x = (e2, seg2, back, Ok tt) /\
    (end_ seg <= x -> has_memory e2 1)).
  { unfold cut_after. destruct (x <? end_ seg1) eqn:Ex; zbool.
    - destruct (split_succeeds e1 seg1 x 0 Hsp ltac:(lia) Hm1) as (e2 & -> & ?).
      eexists _, _, _. split; [done|]. lia.
    - eexists _, _, _. split; [done|]. done. }
  destruct H2 as (e2 & seg2 & back & -> & Hm2).
  destruct (vmm_space_raw_unmap e2 sp seg2 _) as [[e3 sp3]|] eqn:Eun; [|done]. cbn [mbind option_bind].
  assert (Hall : allocs e3 = allocs e2).
  { unfold vmm_space_raw_unmap in Eun. destruct (negb (tree_removes _ _)); [done|]. revert Eun. generalize (pages_of (start seg2) (end_ seg2)).
    intros vs. generalize (table sp). intros t. destruct (unmap_pages _ e2 t vs) as [e4 t4] eqn:E4.
    intros [= <- _]. revert e2 t E4 Hm2. induction vs as [|v vs IHv]; intros e2 t E4 Hm2; cbn [unmap_pages] in E4.
    { by injection E4 as <- _. }
    destruct (t !! v); [|by eapply IHv]. destruct (negb _); apply IHv in E4; done. }
  destruct (decide (end_ seg <= x)) as [Hle|Hgt].
  - apply IH; [done|done|]. destruct (Hm2 Hle) as (l' & Hl'). apply (has_memory_le _ 1).
    2:{ exists l'. by rewrite Hall. }
    destruct l as [|g l]; cbn [need]; [lia|]. specialize (Hb g ltac:(by left)). unfold below in Hb.
    rewrite (proj2 (Z.ltb_ge (start g) s)) by lia. done.
  - destruct l as [|g l]; cbn [unmap_loop]; [done|].
    specialize (Hb g ltac:(by left)). unfold below in Hb.
    rewrite Z.geb_leb, (proj2 (Z.leb_le x (start g))) by lia. done.
Qed.

Lemma unmap_range_spec e sp s x :
  inv sp (segs sp) -> aligned s -> aligned x -> s < x ->
  (vmm_space_unmap_range e sp s x = None /\ stuck) \/
  exists e' sp' r, vmm_space_unmap_range e sp s x = Some (e', sp', r) /\
    inv sp' (segs sp') /\
    (forall a, ~ (s <= a < x) -> view (segs sp') a = view (segs sp) a) /\
    (forall v, ~ (s <= v * PAGE_SIZE < x) -> table sp' !! v = table sp !! v) /\
    (r = Ok tt -> (forall a, s <= a < x -> view (segs sp') a = None) /\
                  (forall v, s <= v * PAGE_SIZE < x -> table sp' !! v = None)) /\
    ((forall g c, can_split g c = Ok tt) -> has_memory e 2 -> r = Ok tt).
Proof.
  intros Hinv Has Hax Hsx. unfold vmm_space_unmap_range. rewrite Has, Hax. cbn [negb orb Z.eqb].
  destruct (split_below_spec s [] (segs sp)) as (pre & l & -> & El & Hpre & Hl);
    [apply (in_ok _ _ Hinv)|done|]. cbn [rev app] in El.
  destruct (unmap_loop_spec s x l e sp pre Has Hax Hsx) as [?|(e' & sp' & r & Eloop & [U1 U2 U3 U4])];
    [by rewrite El|eapply Forall_impl; [done|]; by left|done|by left|].
  right. exists e', sp', r. split; [by rewrite Eloop|]. rewrite El in U2. split_and!; try done.
  2:{ intros Hsp Hm. pose proof (in_ok _ _ Hinv) as Hok. rewrite <- El in Hok.
      apply ok_segs_app in Hok as (_ & Hok & _).
      pose proof (unmap_loop_succeeds s x l e sp pre Hsp Hsx Hok Hl) as E2. rewrite Eloop in E2.
      apply E2. eapply has_memory_le; [|done]. destruct l; cbn [need]; [lia|case_match; lia]. }
  intros Hr. split; [by apply U3|]. intros v Hv. destruct (table sp' !! v) as [y|] eqn:Ey; [|done]. exfalso.
  destruct (in_table _ _ U1 v y Ey) as (g & Hin & Hg).
  specialize (U3 Hr _ Hv). unfold view in U3. destruct (find _ (segs sp')) eqn:Ef; [done|].
  eapply find_none in Ef; [|by apply list_elem_of_In]. congruence.
Qed.


(** ** Changing the protection of a range *)

Definition with_prot (p : Z) (m : mapping) : mapping :=
  let '(_, fl, f, off, priv) := m in (p, fl, f, off, priv).

(** Copy on write: no page of a private segment that others refer to is writable. *)
Definition cow_ok (r : gmap Z Z) (t : gmap Z pte) (l : list vmm_seg) : Prop :=
  forall v x g, t !! v = Some x -> g ∈ l -> covers (v * PAGE_SIZE) g = true ->
    is_private g = true -> 1 < default 0 (r !! page x) -> has (pte_flags x) WRITE = false.

Lemma has_no_write p : has (no_write p) WRITE = false.
Proof.
  unfold has, no_write. rewrite <- Z.land_assoc, (Z.land_comm (Z.lnot WRITE)), Z.land_lnot_diag, Z.land_0_r.
  done.
Qed.

Lemma split_refs e seg cut : refs (vmm_space_split e seg cut).1.1.1 = refs e.
Proof.
  unfold vmm_space_split, alloc. destruct (_ || _); [done|]. destruct (can_split seg cut); [|done].
  destruct (allocs e) as [|[] ?]; done.
Qed.

Lemma cow_cut r t l1 seg cut l2 :
  cow_ok r t (l1 ++ seg :: l2) -> start seg < cut < end_ seg ->
  cow_ok r t (l1 ++ front_of seg cut :: back_of seg cut :: l2).
Proof.
  intros H Hc v x g Hv Hg Hcov Hp Hr.
  assert (Hg' : exists g', g' ∈ l1 ++ seg :: l2 /\ covers (v * PAGE_SIZE) g' = true /\ is_private g' = true).
  { apply elem_of_app in Hg as [?|[->|[->|?]%elem_of_cons]%elem_of_cons];
      [exists g; list_solver| | |exists g; list_solver]; exists seg;
      (split; [list_solver|]); (split; [|done]); rewrite covers_spec in *; simpl in *; lia. }
  destruct Hg' as (g' & ? & ? & ?). by eapply H.
Qed.

Lemma cow_held r t l1 seg l2 : cow_ok r t (l1 ++ seg :: l2) -> cow_ok r t (l1 ++ held seg :: l2).
Proof.
  intros H v x g Hv [Hg|[->|Hg]%elem_of_cons]%elem_of_app Hcov Hp Hr.
  - eapply H; try done. list_solver.
  - apply (H v x seg); try done. list_solver.
  - eapply H; try done. list_solver.
Qed.

Lemma chprot_pages_table priv e p t l v :
  NoDup l ->
  chprot_pages priv e p t l !! v =
    if decide (v ∈ l)
    then (fun x => mk_pte (page x) (if priv && (ref_count e (page x) >? 1) then no_write p else p)) <$> t !! v
    else t !! v.
Proof.
  revert t. induction l as [|w l IH]; intros t Hnd; cbn [chprot_pages].
  { by rewrite decide_False by apply not_elem_of_nil. }
  apply NoDup_cons in Hnd as (Hw & Hnd). rewrite IH by done. destruct (decide (v = w)) as [->|Hne].
  - rewrite decide_False by done. rewrite decide_True by by left.
    destruct (t !! w) eqn:E; [by rewrite lookup_insert_eq|by rewrite E].
  - assert (E : (match t !! w with
                 | Some x => <[w := mk_pte (page x) (if priv && (ref_count e (page x) >? 1) then no_write p else p)]> t
                 | None => t end) !! v = t !! v) by (destruct (t !! w); [by rewrite lookup_insert_ne|done]).
    rewrite E. repeat case_decide; try done; list_solver.
Qed.

(** The entry of a page that is mapped as [m], when its protection has been made [p]: as it
    was when the protection of its segment was [p] already; otherwise with the flags [p],
    without the write flag when the segment is private and others refer to the page. *)
Definition new_entry (p : Z) (rf : gmap Z Z) (m : mapping) (x : pte) : pte :=
  let '(pr, fl, _, _, _) := m in
  if pr =? p then x
  else mk_pte (page x) (if has fl VMM_FLAG_PRIVATE && (default 0 (rf !! page x) >? 1) then no_write p else p).

Lemma new_entry_id p rf m x : new_entry p rf (with_prot p m) x = x.
Proof. destruct m as [[[[pr fl] f] off] pd]. cbn. by rewrite Z.eqb_refl. Qed.

(** What changing the protection of one segment gives. *)
Record chprot_one e sp seg (l1 l2 : list vmm_seg) (p : Z) seg' (t' : gmap Z pte) (r : res unit) : Prop := {
  co_inv : inv (set_table sp t') (l1 ++ seg' :: l2);
  co_cow : cow_ok (refs e) t' (l1 ++ seg' :: l2);
  co_table : forall v, covers (v * PAGE_SIZE) seg = false -> t' !! v = table sp !! v;
  co_pages : forall v, page <$> t' !! v = page <$> table sp !! v;
  co_entries : r = Ok tt -> forall v, covers (v * PAGE_SIZE) seg = true ->
    t' !! v = new_entry p (refs e) (mapping_at seg (v * PAGE_SIZE)) <$> table sp !! v;
  co_seg : seg' = match r with Ok _ => set_prot seg p | Err _ => seg end;
}.

Lemma set_prot_inv sp l1 seg p l2 t' :
  inv sp (l1 ++ seg :: l2) -> (forall v, page <$> t' !! v = page <$> table sp !! v) ->
  inv (set_table sp t') (l1 ++ set_prot seg p :: l2).
Proof.
  intros [Hok [A1 A2 A3 A4 A5] Ht] Hpg.
  assert (E : forall sel, sel (set_prot seg p) = sel seg ->
    wsum sel (l1 ++ set_prot seg p :: l2) = wsum sel (l1 ++ seg :: l2)).
  { intros sel Es. rewrite !wsum_app. simpl. by rewrite Es. }
  constructor.
  - apply ok_segs_app in Hok as (H1 & (Hg & H2 & Hb)%ok_segs_cons & H3). apply ok_segs_app.
    split; [done|]. split; [apply ok_segs_cons; split; [by destruct Hg|by split]|].
    intros g1 g2 Hin [->|Hin2]%elem_of_cons; [|apply H3; list_solver].
    exact (H3 g1 seg Hin ltac:(by left)).
  - constructor; rewrite E by done; done.
  - intros v x Hv. cbn [table set_table] in Hv. specialize (Hpg v). rewrite Hv in Hpg.
    destruct (table sp !! v) as [y|] eqn:Ey; [|done].
    destruct (Ht v y Ey) as (g & Hin & Hg).
    apply elem_of_app in Hin as [?|[->|?]%elem_of_cons]; [exists g; list_solver| |exists g; list_solver].
    exists (set_prot seg p). split; [list_solver|done].
Qed.

Lemma has_perm_some seg p : seg_ok seg -> exists b, vmm_has_perm (fd seg) p (flags seg) = Some b.
Proof.
  intros [_ _ _ Hfd]. unfold vmm_has_perm. destruct (has (flags seg) VMM_FLAG_ANONYMOUS); [by eexists|].
  destruct (Hfd eq_refl) as (f & ->). cbn [mbind option_bind].
  destruct (O_WRONLY f); [by eexists|]. destruct (_ && _); by eexists.
Qed.

Lemma chprot_spec e sp seg l1 l2 p :
  inv sp (l1 ++ seg :: l2) -> cow_ok (refs e) (table sp) (l1 ++ seg :: l2) ->
  exists seg' t' r, vmm_space_chprot e (table sp) seg p = Some (seg', t', r) /\
    chprot_one e sp seg l1 l2 p seg' t' r.
Proof.
  intros Hinv Hcow. pose proof (in_ok _ _ Hinv) as (_ & (Hg & _ & Hb2)%ok_segs_cons & Hb1)%ok_segs_app.
  assert (Hsame : forall r seg', seg' = seg -> (r = Ok tt -> prot seg = p) ->
    seg' = match r with Ok _ => set_prot seg p | Err _ => seg end -> chprot_one e sp seg l1 l2 p seg' (table sp) r).
  { intros r seg' -> Hp Hr. constructor; try done; [destruct Hinv as [? [] ?]; by constructor; [|constructor|]|].
    intros Hok v _. unfold new_entry, mapping_at. rewrite (Hp Hok), Z.eqb_refl. by destruct (table sp !! v). }
  unfold vmm_space_chprot. destruct (has_perm_some seg p Hg) as (b & ->). cbn [mbind option_bind].
  destruct b; cbn [negb]; [|eexists _, _, _; split; [done|]; by apply Hsame].
  destruct (can_mprotect seg p); [|eexists _, _, _; split; [done|]; by apply Hsame].
  destruct (prot seg =? p) eqn:Ep; zbool.
  { eexists _, _, _. split; [done|]. apply Hsame; [done|done|]. subst p. by destruct seg. }
  eexists _, _, _. split; [done|].
  assert (Htab := fun v => chprot_pages_table (has (flags seg) VMM_FLAG_PRIVATE) e p (table sp)
    (pages_of (start seg) (end_ seg)) v (NoDup_seqZ _ _)).
  assert (Hin : forall v, v ∈ pages_of (start seg) (end_ seg) <-> covers (v * PAGE_SIZE) seg = true).
  { intros v. rewrite covers_spec. destruct Hg as [? ? ? _]. apply elem_of_pages; [done|done|lia]. }
  assert (Hpg : forall v, page <$> chprot_pages (has (flags seg) VMM_FLAG_PRIVATE) e p (table sp)
    (pages_of (start seg) (end_ seg)) !! v = page <$> table sp !! v).
  { intros v. rewrite Htab. case_decide; [|done]. by destruct (table sp !! v). }
  constructor; try done.
  - by apply set_prot_inv.
  - intros v x g Hv Hgin Hcov Hp Hr. rewrite Htab in Hv. case_decide as Hd.
    + apply Hin in Hd. destruct (table sp !! v) as [y|] eqn:Ey; [|done]. simpl in Hv. injection Hv as <-.
      simpl in *. assert (Hprivate : is_private seg = true).
      { apply covers_spec in Hcov, Hd. destruct Hg as [Hrg _ _ _].
        apply elem_of_app in Hgin as [Hgin|[->|Hgin]%elem_of_cons]; [|exact Hp|].
        - specialize (Hb1 g seg Hgin ltac:(by left)). unfold below in Hb1. lia.
        - specialize (Hb2 g Hgin). unfold below in Hb2. lia. }
      unfold is_private in Hprivate. rewrite Hprivate. cbn [andb].
      unfold ref_count. rewrite Z.gtb_ltb, (proj2 (Z.ltb_lt _ _) Hr). apply has_no_write.
    + rewrite Hin in Hd. apply elem_of_app in Hgin as [Hgin|[->|Hgin]%elem_of_cons]; [|done|];
        (eapply Hcow; [done| |done..]; list_solver).
  - intros v Hv. rewrite Htab, decide_False; [done|]. rewrite Hin. congruence.
  - intros _ v Hv. rewrite Htab, decide_True by by apply Hin. unfold new_entry, mapping_at.
    by rewrite (proj2 (Z.eqb_neq _ _) Ep).
Qed.

(** What changing the protection of a range gives. *)
Record reprotected (s x p : Z) (rf : gmap Z Z) sp sp' (l : list vmm_seg) (r : res unit) : Prop := {
  rp_inv : inv sp' (segs sp');
  rp_cow : cow_ok rf (table sp') (segs sp');
  rp_outside : forall a, ~ (s <= a < x) -> view (segs sp') a = view l a;
  rp_inside : r = Ok tt -> forall a, s <= a < x -> view (segs sp') a = with_prot p <$> view l a;
  rp_table : forall v, ~ (s <= v * PAGE_SIZE < x) -> table sp' !! v = table sp !! v;
  rp_pages : forall v, page <$> table sp' !! v = page <$> table sp !! v;
  rp_entries : r = Ok tt -> forall v m, s <= v * PAGE_SIZE < x -> view l (v * PAGE_SIZE) = Some m ->
    table sp' !! v = new_entry p rf m <$> table sp !! v;
}.

(** A segment that needs no change. *)
Definition settled (s x p : Z) seg : Prop := outside s x seg \/ prot seg = p.

Lemma settled_view s x p l a :
  Forall (settled s x p) l -> s <= a < x -> view l a = with_prot p <$> view l a.
Proof.
  intros H Ha. induction H as [|g l Hg H IH]; [done|]. rewrite view_cons.
  destruct (covers a g) eqn:E; [|exact IH]. apply covers_spec in E.
  destruct Hg as [Hg| <-]; [unfold outside in Hg; lia|done].
Qed.

Lemma reprotected_stop s x p rf sp l l' r :
  inv sp l' -> cow_ok rf (table sp) l' -> (forall a, view l' a = view l a) ->
  (r = Ok tt -> Forall (settled s x p) l') -> reprotected s x p rf sp (set_segs sp l') l r.
Proof.
  intros Hinv Hcow Hv Ho. constructor; try done.
  - by apply inv_set_segs.
  - intros Hr a Ha. simpl. rewrite <- Hv. apply (settled_view s x); [by apply Ho|done].
  - intros Hr v m Ha Hm. rewrite <- Hv in Hm. pose proof (settled_view s x p l' _ (Ho Hr) Ha) as Es.
    rewrite Hm in Es. injection Es as ->. cbn [table set_segs]. destruct (table sp !! v) as [y|]; [|done].
    simpl. by rewrite new_entry_id.
Qed.

Lemma with_prot_idem p (m : option mapping) : with_prot p <$> (with_prot p <$> m) = with_prot p <$> m.
Proof. by destruct m as [[[[[? ?] ?] ?] ?]|]. Qed.

(** One segment of the range, then the others. *)
Lemma reprotected_step s x p rf sp t' sp' l1 seg l2 r :
  ok_segs (l1 ++ seg :: l2) -> s <= start seg -> end_ seg <= x ->
  (forall v, covers (v * PAGE_SIZE) seg = false -> t' !! v = table sp !! v) ->
  (forall v, page <$> t' !! v = page <$> table sp !! v) ->
  (forall v, covers (v * PAGE_SIZE) seg = true ->
     t' !! v = new_entry p rf (mapping_at seg (v * PAGE_SIZE)) <$> table sp !! v) ->
  reprotected s x p rf (set_table sp t') sp' (l1 ++ set_prot seg p :: l2) r ->
  reprotected s x p rf sp sp' (l1 ++ seg :: l2) r.
Proof.
  intros Hok Hs He Ht Hp Hent [R1 R2 R3 R4 R5 R6 R7]. constructor; [done|done| | | | |].
  - intros a Ha. rewrite R3 by done. rewrite !view_app, !view_cons.
    destruct (view l1 a); [done|]. change (covers a (set_prot seg p)) with (covers a seg).
    destruct (covers a seg) eqn:E; [|done]. apply covers_spec in E. lia.
  - intros Hr a Ha. rewrite R4 by done. rewrite !view_app, !view_cons.
    destruct (view l1 a); [done|]. change (covers a (set_prot seg p)) with (covers a seg).
    by destruct (covers a seg).
  - intros v Hv. rewrite R5 by done. cbn [table set_table]. apply Ht.
    destruct (covers (v * PAGE_SIZE) seg) eqn:E; [|done]. apply covers_spec in E. lia.
  - intros v. by rewrite R6, <- Hp.
  - intros Hr v m Hv. set (a := v * PAGE_SIZE) in *. specialize (R7 Hr v). fold a in R7.
    assert (Hl1 : covers a seg = true -> view l1 a = None).
    { intros Hc%covers_spec. apply view_none. intros g Hg.
      apply ok_segs_app in Hok as (_ & _ & Hb). specialize (Hb g seg Hg ltac:(by left)). unfold below in Hb.
      destruct (covers a g) eqn:E; [|done]. apply covers_spec in E. lia. }
    rewrite !view_app, !view_cons in *. change (covers a (set_prot seg p)) with (covers a seg) in R7.
    destruct (covers a seg) eqn:E.
    + rewrite Hl1 in * by done. intros [= <-].
      rewrite (R7 (with_prot p (mapping_at seg a)) Hv eq_refl). cbn [table set_table]. rewrite Hent by done.
      fold a. destruct (table sp !! v) as [y|]; [|done]. simpl. by rewrite Z.eqb_refl.
    + intros Hm. rewrite (R7 m Hv Hm). cbn [table set_table]. by rewrite Ht.
Qed.

Definition enough (s x : Z) (fuel : nat) (l : list vmm_seg) : Prop :=
  (1 <= fuel)%nat /\
  match l with
  | [] => True
  | g :: _ => x <= start g \/ (length l + (if (start g <? s)%Z then 3 else 2) <= fuel)%nat
  end.

Lemma cut_after_cow e sp seg x l1 l2 :
  cow_ok (refs e) (table sp) (l1 ++ seg :: l2) ->
  let '(e', seg', back, r) := cut_after e seg x in
  refs e' = refs e /\ cow_ok (refs e) (table sp) (l1 ++ seg' :: back ++ l2) /\ (length back <= 1)%nat.
Proof.
  intros Hcow. unfold cut_after. destruct (x <? end_ seg); [|by split_and!; simpl; try lia].
  pose proof (split_spec e seg x) as Hsp. pose proof (split_refs e seg x) as Hr.
  destruct (vmm_space_split e seg x) as [[[e' g] [new|]] [u|err]]; try done.
  - destruct Hsp as (Hc & -> & ->). split; [done|]. split; [by apply cow_cut|simpl; lia].
  - split; [done|]. split; [|simpl; lia]. destruct Hsp as [->| ->]; [done|by apply cow_held].
Qed.

(** [reprotected] looks at the segments before the change through [view] only. *)
Lemma reprotected_view s x p rf sp sp' l l' r :
  (forall a, view l' a = view l a) -> reprotected s x p rf sp sp' l' r -> reprotected s x p rf sp sp' l r.
Proof.
  intros Hv [R1 R2 R3 R4 R5 R6 R7]. constructor; try done; [| |by intros ????; rewrite <- Hv; apply R7];
    intros; rewrite <- Hv; auto.
Qed.

(** Segments that start at or above the end of the range need no change. *)
Lemma settled_above s x p seg l :
  seg_ok seg -> (forall g, g ∈ l -> below seg g) -> x <= start seg -> Forall (settled s x p) (seg :: l).
Proof.
  intros Hg Hbelow Hx. constructor; [left; by right|]. apply Forall_forall. intros g Hin.
  left. right. specialize (Hbelow g Hin). unfold below in Hbelow. destruct (seg_range _ Hg). lia.
Qed.

Lemma enough_after s x fuel seg back l :
  seg_ok seg -> (forall g, g ∈ l -> below seg g) -> s <= start seg ->
  Forall (fun g => x <= start g) back -> (length (seg :: l) + 2 <= S fuel)%nat -> enough s x fuel (back ++ l).
Proof.
  intros Hg Hbelow Hs Hback Hf. split; [simpl in Hf; lia|]. destruct back as [|b back]; cbn [app].
  - destruct l as [|g l]; [done|]. right. specialize (Hbelow g ltac:(by left)). unfold below in Hbelow.
    destruct (seg_range _ Hg). rewrite (proj2 (Z.ltb_ge (start g) s)) by lia. simpl in *. lia.
  - left. by apply Forall_cons in Hback as (? & _).
Qed.

Lemma back_ends s x sp l1 seg back l2 :
  inv sp (l1 ++ seg :: back ++ l2) -> s < x -> Forall (fun g => x <= start g) back ->
  Forall (fun g => s < end_ g) back.
Proof.
  intros [Hok _ _] Hsx Hback. apply ok_segs_app in Hok as (_ & (_ & Hok & _)%ok_segs_cons & _).
  apply ok_segs_app in Hok as ((Hok & _) & _). rewrite Forall_forall in Hok, Hback |- *.
  intros g Hin. specialize (Hback g Hin). destruct (seg_range _ (Hok g Hin)). lia.
Qed.

Lemma chprot_loop_spec s x p rf fuel l e sp pre :
  aligned s -> aligned x -> s < x -> refs e = rf -> inv sp (rev pre ++ l) ->
  cow_ok rf (table sp) (rev pre ++ l) -> Forall (settled s x p) pre ->
  Forall (fun g => s < end_ g) l -> enough s x fuel l ->
  exists e' sp' r, chprot_loop fuel e sp s x p pre l = Some (e', sp', r) /\
    reprotected s x p rf sp sp' (rev pre ++ l) r.
Proof.
  intros Has Hax Hsx. revert l e sp pre. induction fuel as [|fuel IH];
    intros l e sp pre Hrf Hinv Hcow Hpre Hl (Hf1 & Hf); [lia|].
  cbn [chprot_loop]. destruct l as [|seg l].
  { eexists _, _, _. split; [done|]. apply reprotected_stop; try done. intros _.
    rewrite app_nil_r. by apply Forall_rev. }
  apply Forall_cons in Hl as (Hse & Hl).
  pose proof (in_ok _ _ Hinv) as (_ & (Hg & _ & Hbelow)%ok_segs_cons & _)%ok_segs_app.
  rewrite Z.geb_leb. destruct (x <=? start seg) eqn:E; zbool.
  { eexists _, _, _. split; [done|]. apply reprotected_stop; try done. intros _. apply Forall_app.
    split; [by apply Forall_rev|by apply settled_above]. }
  destruct Hf as [Hf|Hf]; [lia|]. rewrite Z.gtb_ltb. destruct (start seg <? s) eqn:Es; zbool.
  - pose proof (split_spec e seg s) as Hsp. pose proof (split_refs e seg s) as Hr.
    destruct (vmm_space_split e seg s) as [[[e' g] [new|]] [u|err]]; try done.
    + destruct Hsp as (Hc & -> & ->). cbn [fst] in Hr.
      destruct (IH (back_of seg s :: l) e' sp (front_of seg s :: pre)) as (e2 & sp2 & r & -> & HR).
      * by rewrite Hr.
      * cbn [rev]. rewrite <- app_assoc. by apply cut_inv.
      * cbn [rev]. rewrite <- app_assoc. by apply cow_cut.
      * constructor; [|done]. left. left. simpl. lia.
      * by constructor.
      * split; [simpl in Hf; lia|]. right. simpl. rewrite Z.ltb_irrefl. simpl in Hf. lia.
      * eexists _, _, _. split; [done|]. cbn [rev] in HR. rewrite <- app_assoc in HR.
        eapply reprotected_view; [|exact HR]. intros a. cbn [app].
        rewrite !view_app. destruct (view (rev pre) a); [done|]. by apply view_cut.
    + eexists _, _, _. split; [done|]. apply reprotected_stop; try done; destruct Hsp as [->| ->]; try done;
        [by apply held_inv|by apply cow_held|intros; apply held_view].
  - pose proof (cut_after_cow e sp seg x (rev pre) l) as Hcc. rewrite Hrf in Hcc. specialize (Hcc Hcow).
    destruct (cut_after_spec e sp seg x (rev pre) l Hax ltac:(lia) Hinv)
      as (e1 & seg1 & back & r1 & Ecut & Hinv1 & Hv1 & Hok1).
    rewrite Ecut in *. destruct Hcc as (Hr1 & Hcow1 & Hlen).
    destruct r1 as [u|err]; [|eexists _, _, _; split; [done|]; by apply reprotected_stop].
    destruct u. destruct (Hok1 eq_refl) as (Hback & Hst1 & Hen1).
    destruct (chprot_spec e1 sp seg1 (rev pre) (back ++ l) p Hinv1 ltac:(by rewrite Hr1))
      as (seg2 & t2 & r2 & -> & [C1 C2 C3 C4 C6 C5]). cbn [mbind option_bind].
    destruct r2 as [[]|err].
    + destruct (IH (back ++ l) e1 (set_table sp t2) (seg2 :: pre)) as (e3 & sp3 & r3 & -> & HR).
      * by rewrite Hr1.
      * cbn [rev]. by rewrite <- app_assoc.
      * cbn [rev table set_table]. rewrite <- app_assoc. rewrite <- Hr1. exact C2.
      * constructor; [|done]. right. by rewrite C5.
      * apply Forall_app. split; [exact (back_ends _ _ _ _ _ _ _ Hinv1 Hsx Hback)|done].
      * apply (enough_after s x fuel seg); try done; simpl in *; lia.
      * eexists _, _, _. split; [done|]. apply (reprotected_view _ _ _ _ _ _ _ _ _ Hv1). cbn [rev] in HR. rewrite <- app_assoc in HR.
        rewrite C5 in HR. eapply reprotected_step; [apply (in_ok _ _ Hinv1)|lia|lia|done|done| |exact HR].
        intros v Hv. rewrite (C6 eq_refl v Hv). congruence.
    + subst seg2. eexists _, _, _. split; [done|]. apply (reprotected_view _ _ _ _ _ _ _ _ _ Hv1).
      constructor; try done; [by apply inv_set_segs|by rewrite <- Hr1|].
      intros v Hv. cbn [table set_segs set_table]. apply C3.
      destruct (covers (v * PAGE_SIZE) seg1) eqn:Ec; [|done]. apply covers_spec in Ec. lia.
Qed.


(** ** Mapping memory *)

Definition apart seg seg' : Prop := below seg seg' \/ below seg' seg.

Lemma insert_seg_split new l :
  seg_ok new -> ok_segs l -> Forall (apart new) l ->
  exists l1 l2, l = l1 ++ l2 /\ insert_seg new l = l1 ++ new :: l2 /\ ok_segs (l1 ++ new :: l2).
Proof.
  intros Hn. induction l as [|g l IH]; intros Hok Ha; cbn [insert_seg].
  { exists [], []. split; [done|]. split; [done|]. apply ok_segs_cons. split; [done|]. split; [done|].
    intros g []%not_elem_of_nil. }
  apply Forall_cons in Ha as (Hg & Ha). pose proof Hok as Hok'. apply ok_segs_cons in Hok as (Hgok & Hok & Hb).
  destruct (end_ new <=? start g) eqn:E; zbool.
  - exists [], (g :: l). split; [done|]. split; [done|]. apply ok_segs_cons. split; [done|]. split; [done|].
    intros g' [->|Hin]%elem_of_cons; [done|]. specialize (Hb g' Hin). destruct (seg_range _ Hgok).
    unfold below in *. lia.
  - destruct IH as (l1 & l2 & -> & -> & Hok1); [done|done|]. exists (g :: l1), l2. split; [done|]. split; [done|].
    cbn [app]. apply ok_segs_cons. split; [done|]. split; [done|].
    intros g' [Hin|[->|Hin]%elem_of_cons]%elem_of_app; [apply Hb; list_solver| |apply Hb; list_solver].
    destruct Hg as [Hg|Hg]; [unfold below in Hg; lia|done].
Qed.

(** The place that is found is after [lo], and free. *)
Lemma find_gap_spec address size l :
  ok_segs l -> 0 < size -> 0 <= address < 2 ^ 64 -> Forall (fun g => address <= start g) l ->
  let a := find_gap address size l in
  address <= a < 2 ^ 64 /\ Forall (fun g => end_ g <= a \/ a + size <= start g) l /\
  (a = address \/ exists g, g ∈ l /\ a = end_ g).
Proof.
  revert address. induction l as [|g l IH]; intros address Hok Hs Ha Hl; cbn [find_gap].
  { split; [lia|]. split; [constructor|by left]. }
  apply Forall_cons in Hl as (Hg & Hl). apply ok_segs_cons in Hok as (Hgok & Hok & Hb).
  destruct (seg_range _ Hgok) as (Hr1 & Hr2).
  assert (Eu : start g -! address = start g - address) by (unfold u64; apply Z.mod_small; lia).
  rewrite Eu, Z.geb_leb. destruct (size <=? start g - address) eqn:E; zbool.
  - split; [lia|]. split; [|by left]. constructor; [lia|]. apply Forall_forall. intros g' Hin.
    specialize (Hb g' Hin). unfold below in Hb. lia.
  - destruct (IH (end_ g)) as (H1 & H2 & H3); try done; [lia| |].
    + apply Forall_forall. intros g' Hin. by apply Hb.
    + cbn zeta in *. split; [lia|]. split; [constructor; [lia|done]|]. right.
      destruct H3 as [H3|(g' & ? & ?)]; [exists g; split; [by left|done]|exists g'; split; [by right|done]].
Qed.

Lemma map_zero_pages_spec e zero p t done_ l :
  NoDup (rev done_ ++ l) -> (forall v, v ∈ done_ -> is_Some (t !! v)) ->
  exists e' t' r, map_zero_pages e zero p t done_ l = (e', t', r) /\
    match r with
    | Ok _ => forall v, t' !! v = if decide (v ∈ l) then Some (mk_pte zero (no_write p)) else t !! v
    | Err _ => forall v, t' !! v = if decide (v ∈ done_) then None
                 else if decide (v ∈ l) then t' !! v else t !! v
    end /\ (match r with Err _ => forall v, v ∈ l -> t !! v = None -> t' !! v = None | _ => True end).
Proof.
  revert e t done_. induction l as [|v l IH]; intros e t done_ Hnd Hd; cbn [map_zero_pages].
  { eexists _, _, _. split; [done|]. split; [|done]. intros v. by rewrite decide_False by apply not_elem_of_nil. }
  assert (Hv : v ∉ rev done_ /\ v ∉ l).
  { apply NoDup_app in Hnd as (_ & Hx & (Hy & _)%NoDup_cons). split; [|done]. intros H. apply (Hx v H). by left. }
  destruct Hv as (Hv1 & Hv2). rewrite list_elem_of_In, <- in_rev, <- list_elem_of_In in Hv1.
  destruct (alloc e) as [e1 []]; cbn [negb].
  - destruct (IH (retain e1 zero) (<[v := mk_pte zero (no_write p)]> t) (v :: done_)) as (e' & t' & r & -> & H & H').
    { cbn [rev]. by rewrite <- app_assoc. }
    { intros w [->|Hw]%elem_of_cons; [rewrite lookup_insert_eq; by eexists|].
      rewrite lookup_insert_is_Some'. right. by apply Hd. }
    eexists _, _, _. split; [done|]. destruct r; split; try done.
    + intros w. rewrite H. destruct (decide (w = v)) as [->|Hne].
      * rewrite decide_False by done. rewrite decide_True by by left. apply lookup_insert_eq.
      * rewrite lookup_insert_ne by done. repeat case_decide; try done; list_solver.
    + intros w. destruct (decide (w = v)) as [->|Hne].
      * rewrite decide_False by done. by rewrite decide_True by by left.
      * specialize (H w). rewrite lookup_insert_ne in H by done. repeat case_decide; try done; list_solver.
    + intros w Hw Ht. destruct (decide (w = v)) as [->|Hne].
      * specialize (H v). rewrite decide_True in H by by left. done.
      * apply H'; [list_solver|]. by rewrite lookup_insert_ne.
  - destruct (unmap_pages true e1 t (rev done_)) as [e2 t2] eqn:E. eexists _, _, _. split; [done|].
    assert (Ht2 : forall w, t2 !! w = if decide (w ∈ rev done_) then None else t !! w).
    { intros w. pose proof (unmap_pages_table true e1 t (rev done_) w) as H. by rewrite E in H. }
    split.
    + intros w. rewrite Ht2. assert (Hr : w ∈ rev done_ <-> w ∈ done_).
      { by rewrite list_elem_of_In, <- in_rev, <- list_elem_of_In. }
      repeat case_decide; try done; tauto.
    + intros w _ Ht. rewrite Ht2. by case_decide.
Qed.

(** Where a mapping may go: at the address that is asked for, or in the user part of a
    space that has nothing below it, with room before the end of the address space. *)
Definition placeable sp (address n : Z) : Prop :=
  aligned address /\ 0 <= address /\
  (address <> 0 -> address + n < 2 ^ 64) /\
  (address = 0 -> USER_START + n < 2 ^ 64 /\
     Forall (fun g => USER_START <= start g /\ end_ g + n < 2 ^ 64) (segs sp)).

(** A new segment stands between [l1] and [l2], which are what was mapped before without
    its range. *)
Record created sp sp1 (l1 l2 : list vmm_seg) (new : vmm_seg) (address n : Z) : Prop := {
  cr_place : if address =? 0 then USER_START <= start new /\ view (segs sp) = view (l1 ++ l2)
             else start new = address;
  cr_end : end_ new = start new + n;
  cr_inv : inv sp1 (l1 ++ l2);
  cr_ok : ok_segs (l1 ++ new :: l2);
  cr_outside : forall a, covers a new = false -> view (l1 ++ l2) a = view (segs sp) a;
  cr_inside : forall a, covers a new = true -> view (l1 ++ l2) a = None;
  cr_table : forall v, covers (v * PAGE_SIZE) new = false -> table sp1 !! v = table sp !! v;
}.

(** What is left when no segment is created. *)
Definition kept sp sp' (address n : Z) : Prop :=
  inv sp' (segs sp') /\
  forall a, address = 0 \/ ~ (address <= a < address + n) -> view (segs sp') a = view (segs sp) a.

Lemma view_none_apart l new :
  ok_segs l -> 0 < VMM_SIZE new -> (forall a, covers a new = true -> view l a = None) -> Forall (apart new) l.
Proof.
  intros (Hok & _) Hn Hv. rewrite Forall_forall in Hok |- *. intros g Hin.
  destruct (seg_range _ (Hok g Hin)) as (Hr & _). unfold apart, below, VMM_SIZE in *.
  destruct (decide (end_ new <= start g)); [by left|]. destruct (decide (end_ g <= start new)); [by right|].
  exfalso. set (a := Z.max (start new) (start g)).
  assert (Hc : covers a new = true) by (apply covers_spec; lia).
  assert (Hg : covers a g = true) by (apply covers_spec; lia).
  specialize (Hv a Hc). unfold view in Hv. destruct (find (covers a) l) eqn:Ef; [done|].
  eapply find_none in Ef; [|by apply list_elem_of_In]. congruence.
Qed.

Lemma create_insert sp sp1 a n p fl address :
  inv sp1 (segs sp1) -> aligned a -> aligned n -> 0 <= a -> 0 < n -> a + n < 2 ^ 64 ->
  has fl VMM_FLAG_ANONYMOUS = true ->
  let new := mk_seg a (a +! n) p fl None 0 0 1 in
  (forall x, a <= x < a + n -> view (segs sp1) x = None) ->
  (forall x, ~ (a <= x < a + n) -> view (segs sp1) x = view (segs sp) x) ->
  (forall v, ~ (a <= v * PAGE_SIZE < a + n) -> table sp1 !! v = table sp !! v) ->
  (if address =? 0 then USER_START <= a /\ segs sp1 = segs sp else a = address) ->
  exists l1 l2, segs sp1 = l1 ++ l2 /\ insert_seg new (segs sp1) = l1 ++ new :: l2 /\
    created sp sp1 l1 l2 new address n.
Proof.
  intros Hinv Ha Hn Ha0 Hn0 Hlt Hanon new Hin Hout Htab Hpl.
  assert (Ee : a +! n = a + n) by (unfold u64; apply Z.mod_small; lia).
  assert (Hcov : forall x, covers x new = true <-> a <= x < a + n).
  { intros x. rewrite covers_spec. unfold new. rewrite Ee. simpl. lia. }
  assert (Hncov : forall x, covers x new = false -> ~ (a <= x < a + n)).
  { intros x Hx Hr. apply Hcov in Hr. congruence. }
  assert (Hsok : seg_ok new).
  { unfold new. rewrite Ee. constructor; simpl; [lia|done| |congruence].
    unfold aligned in *. by rewrite Z.add_mod, Ha, Hn by done. }
  destruct (insert_seg_split new (segs sp1) Hsok (in_ok _ _ Hinv)) as (l1 & l2 & El & Ei & Hok).
  { apply view_none_apart; [apply (in_ok _ _ Hinv)| |].
    - unfold new, VMM_SIZE. rewrite Ee. simpl. lia.
    - intros x Hx%Hcov. by apply Hin. }
  exists l1, l2. split; [done|]. split; [done|]. rewrite El in *. constructor; try done.
  - destruct (address =? 0); [|done]. destruct Hpl as (? & ->). done.
  - intros x Hx. apply Hout. by apply Hncov.
  - intros x Hx%Hcov. by apply Hin.
  - intros v Hx. apply Htab. by apply Hncov.
Qed.

Lemma create_seg_spec e sp address n p fl :
  (forall l g, tree_removes l g = true) ->
  inv sp (segs sp) -> placeable sp address n -> aligned n -> 0 < n -> has fl VMM_FLAG_ANONYMOUS = true ->
  exists e' sp' r, vmm_space_raw_create_seg e sp address n p fl = Some (e', sp', r) /\
    match r with
    | Err _ => kept sp sp' address n
    | Ok new => exists sp1 l1 l2, sp' = set_segs sp1 (l1 ++ new :: l2) /\
        prot new = p /\ flags new = fl /\ fd new = None /\ offset new = 0 /\ private_data new = 0 /\
        created sp sp1 l1 l2 new address n
    end.
Proof.
  intros Hrem Hinv (Ha & Ha0 & Hfix & Hany) Hn Hn0 Hanon. unfold vmm_space_raw_create_seg.
  destruct (alloc e) as [e1 []]; cbn [negb]; [|by eexists _, _, _].
  destruct (address =? 0) eqn:E0; zbool; cbn [negb].
  - destruct (Hany E0) as (Hus & Hsegs).
    assert (Hlow : Forall (fun g => USER_START <= start g) (segs sp)).
    { eapply Forall_impl; [done|]. by intros g (? & _). }
    assert (Hu : 0 <= USER_START < 2 ^ 64) by done.
    destruct (find_gap_spec USER_START n (segs sp) (in_ok _ _ Hinv) Hn0 Hu Hlow) as (Hg1 & Hg2 & Hg3).
    set (a := find_gap USER_START n (segs sp)) in *.
    assert (Hnz : a <> 0) by (unfold USER_START, PAGE_SIZE in Hg1; lia).
    rewrite (proj2 (Z.eqb_neq _ _) Hnz).
    assert (Hal : aligned a /\ a + n < 2 ^ 64).
    { destruct Hg3 as [->|(g & Hin & ->)]; [done|]. rewrite Forall_forall in Hsegs.
      destruct (in_ok _ _ Hinv) as (Hok & _). rewrite Forall_forall in Hok.
      split; [apply (Hok g Hin)|]. by apply Hsegs. }
    destruct (create_insert sp sp a n p fl address) as (l1 & l2 & El & Ei & Hcr); try done; try lia; try tauto.
    + intros x Hx. apply view_none. intros g Hin. rewrite Forall_forall in Hg2. specialize (Hg2 g Hin).
      destruct (covers x g) eqn:Ec; [|done]. apply covers_spec in Ec. lia.
    + rewrite E0. cbn. split; [lia|done].
    + eexists _, _, _. split; [done|]. exists sp, l1, l2. rewrite Ei. by split_and!.
  - assert (Eu : address +! n = address + n) by (unfold u64; apply Z.mod_small; lia). rewrite Eu.
    destruct (unmap_range_spec e1 sp address (address + n)) as [(_ & ? & ? & ?)|(e2 & sp2 & r & -> & U1 & U2 & U3 & U4 & _)];
      try done; try lia; [|congruence|].
    { unfold aligned in *. by rewrite Z.add_mod, Ha, Hn by done. }
    cbn [mbind option_bind]. destruct r as [[]|err].
    2:{ eexists _, _, _. split; [done|]. split; [done|]. intros x [Hx|Hx]; [lia|by apply U2]. }
    destruct (U4 eq_refl) as (U5 & _). rewrite <- Eu.
    destruct (create_insert sp sp2 address n p fl address) as (l1 & l2 & El & Ei & Hcr); try done; try lia.
    + by rewrite (proj2 (Z.eqb_neq _ _) E0).
    + eexists _, _, _. split; [done|]. exists sp2, l1, l2. rewrite Ei. by split_and!.
Qed.

Lemma same_bounds_refl seg : same_bounds seg seg = true.
Proof. unfold same_bounds. by rewrite !Z.eqb_refl. Qed.

Lemma same_bounds_others l1 seg l2 g :
  ok_segs (l1 ++ seg :: l2) -> g ∈ l1 ++ l2 -> same_bounds g seg = false.
Proof.
  intros (Hl1 & (Hg & _ & Hb)%ok_segs_cons & H3)%ok_segs_app Hin. destruct (seg_range _ Hg).
  unfold same_bounds. apply elem_of_app in Hin as [Hin|Hin].
  - specialize (H3 g seg Hin ltac:(by left)). unfold below in H3.
    destruct (Z.eqb_spec (end_ g) (end_ seg)); [lia|by rewrite andb_false_r].
  - specialize (Hb g Hin). unfold below in Hb. destruct (Z.eqb_spec (start g) (start seg)); [lia|done].
Qed.

Lemma remove_seg_middle l1 seg l2 : ok_segs (l1 ++ seg :: l2) -> remove_seg seg (l1 ++ seg :: l2) = l1 ++ l2.
Proof.
  intros Hok. unfold remove_seg. pose proof (fun g => same_bounds_others l1 seg l2 g Hok) as H.
  assert (Hid : forall l, (forall g, g ∈ l -> same_bounds g seg = false) ->
    List.filter (fun g => negb (same_bounds g seg)) l = l).
  { intros l. induction l as [|g l IH]; intros Hl; [done|]. simpl. rewrite Hl by by left. cbn [negb].
    f_equal. apply IH. intros g' Hg'. apply Hl. by right. }
  rewrite List.filter_app. simpl. rewrite same_bounds_refl. cbn [negb].
  rewrite !Hid; [done| |]; intros; apply H; list_solver.
Qed.

Lemma replace_seg_middle l1 new seg l2 :
  ok_segs (l1 ++ new :: l2) -> start seg = start new -> end_ seg = end_ new ->
  replace_seg seg (l1 ++ new :: l2) = l1 ++ seg :: l2.
Proof.
  intros Hok Hs He. pose proof (fun g => same_bounds_others l1 new l2 g Hok) as H.
  assert (Eb : forall g, same_bounds g seg = same_bounds g new) by (intros; unfold same_bounds; by rewrite Hs, He).
  assert (Hid : forall l, (forall g, g ∈ l -> same_bounds g new = false) -> replace_seg seg l = l).
  { intros l. induction l as [|g l IH]; intros Hl; [done|]. unfold replace_seg in *. rewrite fmap_cons, Eb, Hl by by left.
    f_equal. apply IH. intros g' Hg'. apply Hl. by right. }
  unfold replace_seg. rewrite fmap_app, fmap_cons, Eb, same_bounds_refl.
  fold (replace_seg seg l1) (replace_seg seg l2). rewrite !Hid; [done| |]; intros; apply H; list_solver.
Qed.

Lemma wsum_plus sel l1 seg l2 x :
  ok_segs (l1 ++ seg :: l2) -> x = wsum sel (l1 ++ l2) ->
  (if sel seg then x +! VMM_SIZE seg else x) = wsum sel (l1 ++ seg :: l2).
Proof.
  intros Hok ->. pose proof (wsum_bound sel _ 0 Hok (ok_nonneg _ Hok) ltac:(lia)) as Hb.
  rewrite !wsum_app in *. simpl in *. destruct (sel seg); [|lia]. unfold u64. rewrite Z.mod_small; lia.
Qed.

Lemma count_map_acct sp l1 seg l2 fl :
  acct sp (l1 ++ l2) -> ok_segs (l1 ++ seg :: l2) -> flags seg = fl ->
  acct (count_map sp seg fl) (l1 ++ seg :: l2).
Proof.
  intros [A1 A2 A3 A4 A5] Hok <-. constructor; cbn [total_size private_size shared_size file_size anon_size count_map].
  - by apply (wsum_plus (fun _ => true)).
  - by apply (wsum_plus is_private).
  - rewrite <- (wsum_plus (fun g => negb (is_private g)) _ _ _ _ Hok A3). unfold is_private.
    by destruct (has (flags seg) VMM_FLAG_PRIVATE).
  - rewrite <- (wsum_plus is_file _ _ _ _ Hok A4). unfold is_file. by destruct (fd seg).
  - rewrite <- (wsum_plus (fun g => negb (is_file g)) _ _ _ _ Hok A5). unfold is_file. by destruct (fd seg).
Qed.

Lemma view_insert l1 seg l2 a :
  ok_segs (l1 ++ seg :: l2) ->
  view (l1 ++ seg :: l2) a = if covers a seg then Some (mapping_at seg a) else view (l1 ++ l2) a.
Proof.
  intros (_ & _ & H3)%ok_segs_app. rewrite !view_app, view_cons. destruct (covers a seg) eqn:E; [|done].
  rewrite view_none; [done|]. intros g Hin. specialize (H3 g seg Hin ltac:(by left)). unfold below in H3.
  apply covers_spec in E. destruct (covers a g) eqn:Eg; [|done]. apply covers_spec in Eg. lia.
Qed.

Section mapped.
Context sp sp1 (l1 l2 : list vmm_seg) (new : vmm_seg) (address n p fl : Z).
Context (Hcr : created sp sp1 l1 l2 new address n).
Context (Hnew : prot new = p /\ flags new = fl /\ fd new = None /\ offset new = 0 /\ private_data new = 0).

Lemma created_pages v : v ∈ pages_of (start new) (end_ new) <-> covers (v * PAGE_SIZE) new = true.
Proof using Hcr.
  pose proof (cr_ok _ _ _ _ _ _ _ Hcr) as (_ & ([Hrg Hst Hen _] & _ & _)%ok_segs_cons & _)%ok_segs_app.
  rewrite covers_spec. apply elem_of_pages; [done|done|lia].
Qed.

Lemma created_empty v : covers (v * PAGE_SIZE) new = true -> table sp1 !! v = None.
Proof using Hcr.
  intros Hv. destruct (table sp1 !! v) as [y|] eqn:Ey; [|done]. exfalso.
  destruct (in_table _ _ (cr_inv _ _ _ _ _ _ _ Hcr) v y Ey) as (g & Hin & Hg).
  pose proof (cr_inside _ _ _ _ _ _ _ Hcr _ Hv) as Hnone.
  unfold view in Hnone. destruct (find _ (l1 ++ l2)) eqn:Ef; [done|].
  eapply find_none in Ef; [|by apply list_elem_of_In]. congruence.
Qed.

Let seg := mk_seg (start new) (end_ new) (prot new) (flags new) None (offset new) (private_data new) 0.

Lemma created_ok : has fl VMM_FLAG_ANONYMOUS = true -> ok_segs (l1 ++ seg :: l2).
Proof using Hcr Hnew.
  intros Hanon. pose proof (cr_ok _ _ _ _ _ _ _ Hcr) as (H1 & (Hg & H2 & Hb)%ok_segs_cons & H3)%ok_segs_app.
  destruct Hnew as (_ & Hfl & _). destruct Hg as [G1 G2 G3 _]. apply ok_segs_app. split; [done|]. split.
  - apply ok_segs_cons. split; [|done]. constructor; simpl; try done. by rewrite Hfl, Hanon.
  - intros g1 g2 Hin [->|Hin2]%elem_of_cons; [|apply H3; list_solver].
    exact (H3 g1 new Hin ltac:(by left)).
Qed.

(** The space when every page is mapped. *)
Lemma mapped_spec t :
  has fl VMM_FLAG_ANONYMOUS = true ->
  (forall v, t !! v = if decide (v ∈ pages_of (start new) (end_ new))
                      then Some (mk_pte zero_page (no_write p)) else table sp1 !! v) ->
  let sp' := count_map (set_segs (set_table (set_segs sp1 (l1 ++ new :: l2)) t)
               (replace_seg seg (l1 ++ new :: l2))) seg fl in
  inv sp' (segs sp') /\ end_ seg = start seg + n /\
  (if address =? 0 then USER_START <= start seg /\ forall a, covers a seg = true -> view (segs sp) a = None
   else start seg = address) /\
  (forall a, view (segs sp') a = if covers a seg then Some (p, fl, None, a - start seg, 0) else view (segs sp) a) /\
  (forall v, table sp' !! v =
     if covers (v * PAGE_SIZE) seg then Some (mk_pte zero_page (no_write p)) else table sp !! v).
Proof using Hcr Hnew.
  intros Hanon Ht sp'. pose proof (created_ok Hanon) as Hok'. destruct Hnew as (Hp & Hfl & _ & Hoff & Hpd).
  assert (Hcv : forall a, covers a seg = covers a new) by done.
  assert (Esegs : segs sp' = l1 ++ seg :: l2) by (apply replace_seg_middle; [apply Hcr|done|done]).
  rewrite Esegs. split; [|split; [apply Hcr|split; [|split]]].
  - constructor; [done| |].
    + apply count_map_acct; [|done|done]. destruct (in_acct _ _ (cr_inv _ _ _ _ _ _ _ Hcr)). by constructor.
    + intros v y. unfold sp'. cbn [table count_map set_segs set_table]. rewrite Ht. case_decide as Hd.
      * intros _. exists seg. split; [list_solver|]. rewrite Hcv. by apply created_pages.
      * intros Hy. destruct (in_table _ _ (cr_inv _ _ _ _ _ _ _ Hcr) v y Hy) as (g & Hin & Hg).
        exists g. split; [list_solver|done].
  - pose proof (cr_place _ _ _ _ _ _ _ Hcr) as Hplace. destruct (address =? 0); [|done].
    destruct Hplace as (? & Ev). split; [done|]. intros a Ha. rewrite Ev.
    apply (cr_inside _ _ _ _ _ _ _ Hcr). by rewrite <- Hcv.
  - intros a. rewrite view_insert, Hcv by done. destruct (covers a new) eqn:E.
    + unfold mapping_at. simpl. rewrite Hp, Hfl, Hoff, Hpd. done.
    + by apply (cr_outside _ _ _ _ _ _ _ Hcr).
  - intros v. unfold sp'. cbn [table count_map set_segs set_table]. rewrite Ht, Hcv.
    pose proof (created_pages v) as Hpg. destruct (covers (v * PAGE_SIZE) new) eqn:E; case_decide as Hd.
    + done.
    + exfalso. by apply Hd, Hpg.
    + by apply Hpg in Hd.
    + by apply (cr_table _ _ _ _ _ _ _ Hcr).
Qed.

(** The space when the mapping is undone. *)
Lemma unmapped_again t :
  (forall v, v ∈ pages_of (start new) (end_ new) -> table sp1 !! v = None -> t !! v = None) ->
  (forall v, v ∉ pages_of (start new) (end_ new) -> t !! v = table sp1 !! v) ->
  kept sp (set_segs (set_table (set_segs sp1 (l1 ++ new :: l2)) t) (remove_seg new (l1 ++ new :: l2))) address n.
Proof using Hcr.
  intros Hin Hout. rewrite remove_seg_middle by apply Hcr. split.
  - cbn [segs set_segs]. destruct (cr_inv _ _ _ _ _ _ _ Hcr) as [Ho Ha Hc]. constructor; [done|by destruct Ha; constructor|].
    intros v y Hy. cbn [table set_segs set_table] in Hy.
    destruct (decide (v ∈ pages_of (start new) (end_ new))) as [Hd|Hd].
    + rewrite Hin in Hy; [done|done|]. by apply created_empty, created_pages.
    + rewrite Hout in Hy by done. by apply (Hc v y).
  - intros a Ha. cbn [segs set_segs]. pose proof (cr_place _ _ _ _ _ _ _ Hcr) as Hplace.
    destruct (address =? 0) eqn:E0; zbool.
    + destruct Hplace as (_ & ->). done.
    + apply (cr_outside _ _ _ _ _ _ _ Hcr). destruct (covers a new) eqn:E; [|done].
      apply covers_spec in E. rewrite (cr_end _ _ _ _ _ _ _ Hcr) in E. lia.
Qed.

End mapped.

(** Mapping private anonymous memory ([vmm_space_map], as [mmap] and the loader use it).
    It returns when every removal from the tree of segments does.  When it succeeds, the new segment has the size rounded up to
    pages and starts at the address asked for, replacing what was mapped there, or, when
    none is asked for, at a place of the user part where nothing was mapped; every
    address in it is mapped with the protection and flags given, its pages are all the
    zero page, read-only, and everything outside is mapped as before; the space is again
    well formed, with exact counters.  When it fails, the space is well formed and
    outside the range asked for, or everywhere when none was, nothing has changed. *)
Theorem vmm_map_anonymous_correct e sp address size p fl f off :
  let n := PAGE_ALIGN_UP size in
  (forall l g, tree_removes l g = true) -> inv sp (segs sp) -> 0 < size < 2 ^ 63 -> placeable sp address n ->
  has fl VMM_FLAG_ANONYMOUS = true -> has fl VMM_FLAG_SHARED = false ->
  exists e' sp' r, vmm_space_map e sp address size p fl f off = Some (e', sp', r) /\
    match r with
    | Err _ => kept sp sp' address n
    | Ok seg =>
        inv sp' (segs sp') /\ size <= n < size + PAGE_SIZE /\ end_ seg = start seg + n /\
        (if address =? 0 then USER_START <= start seg /\ forall a, covers a seg = true -> view (segs sp) a = None
         else start seg = address) /\
        (forall a, view (segs sp') a =
           if covers a seg then Some (p, fl, None, a - start seg, 0) else view (segs sp) a) /\
        (forall v, table sp' !! v =
           if covers (v * PAGE_SIZE) seg then Some (mk_pte zero_page (no_write p)) else table sp !! v)
    end.
Proof.
  intros n Hrem Hinv Hsz Hpl Hanon Hsh. unfold vmm_space_map, vmm_space_raw_map, vmm_has_perm. fold n.
  rewrite Hanon. cbn [mbind option_bind negb].
  destruct (PAGE_ALIGN_UP_spec size) as (Hn & Hal); [lia|unfold PAGE_SIZE; lia|]. fold n in Hn, Hal.
  destruct (create_seg_spec e sp address n p fl Hrem Hinv Hpl Hal ltac:(lia) Hanon) as (e1 & sp' & r & -> & Hr).
  cbn [mbind option_bind]. destruct r as [new|err]; [|by eexists _, _, _].
  destruct Hr as (sp1 & l1 & l2 & -> & Hp & Hfl & Hfd & Hoff & Hpd & Hcr). rewrite Hsh. cbn [segs table set_segs].
  destruct (map_zero_pages_spec (retain e1 zero_page) zero_page p (table sp1) [] (pages_of (start new) (end_ new)))
    as (e2 & t2 & r2 & -> & Ht & Hterr); [apply NoDup_seqZ|by intros v []%not_elem_of_nil|].
  destruct r2 as [u|err]; [|rewrite Hrem]; eexists _, _, _; (split; [done|]).
  - destruct (mapped_spec sp sp1 l1 l2 new address n p fl Hcr ltac:(done) t2 Hanon Ht) as (? & ? & ? & ? & ?).
    split_and!; try done; lia.
  - apply (unmapped_again sp sp1 l1 l2 new address n Hcr); [done|]. intros v Hv. specialize (Ht v).
    rewrite decide_False in Ht by apply not_elem_of_nil. by rewrite decide_False in Ht.
Qed.

(** ** Cloning a space *)

(** How often a table maps a page, in the pages of a list and in those of segments that
    are not I/O memory. *)
Fixpoint uses (t : gmap Z pte) (l : list Z) (q : Z) : Z :=
  match l with
  | [] => 0
  | v :: l => (if decide (page <$> t !! v = Some q) then 1 else 0) + uses t l q
  end.
Fixpoint shares (t : gmap Z pte) (l : list vmm_seg) (q : Z) : Z :=
  match l with
  | [] => 0
  | g :: l => (if has (flags g) VMM_FLAG_IO then 0 else uses t (pages_of (start g) (end_ g)) q) + shares t l q
  end.

Lemma uses_ext t t' l q : (forall v, page <$> t !! v = page <$> t' !! v) -> uses t l q = uses t' l q.
Proof. intros H. induction l as [|v l IH]; [done|]. cbn [uses]. by rewrite H, IH. Qed.

Lemma shares_ext t t' l q : (forall v, page <$> t !! v = page <$> t' !! v) -> shares t l q = shares t' l q.
Proof. intros H. induction l as [|g l IH]; [done|]. cbn [shares]. by rewrite IH, (uses_ext t t'). Qed.

(** Two pages of a table, with none between them, that lie in different tables of the
    hardware although bit 21 of their addresses is the same. *)
Record skips (t : gmap Z pte) (v1 v2 : Z) : Prop := {
  sk_order : v1 < v2;
  sk_mapped : is_Some (t !! v1) /\ is_Some (t !! v2);
  sk_between : forall v, v1 < v < v2 -> t !! v = None;
  sk_bit : same_bit v2 v1 = true;
  sk_table : same_table v2 v1 = false;
}.

Lemma next_entry_spec e v old :
  match create_next e v old with
  | Some (e', _) => refs e' = refs e
  | None => exists o, old = Some o /\ same_bit v o = true /\ same_table v o = false
  end.
Proof.
  unfold create_next, alloc. destruct old as [o|]; [destruct (same_bit v o) eqn:E1; [destruct (same_table v o) eqn:E2|]|];
    try done; [by exists o|by destruct (allocs e)..].
Qed.

(** The page that was mapped last: there is none between it and the page [a]. *)
Definition last_before (t : gmap Z pte) (old : option Z) (a : Z) : Prop :=
  match old with
  | Some o => o < a /\ is_Some (t !! o) /\ forall v, o < v < a -> t !! v = None
  | None => True
  end.

Lemma last_before_none t old a : last_before t old a -> t !! a = None -> last_before t old (a + 1).
Proof.
  destruct old as [o|]; [|done]. intros (Ho & Hs & Hb) Ha. split; [lia|]. split; [done|].
  intros v Hv. destruct (decide (v = a)) as [->|]; [done|]. apply Hb. lia.
Qed.

Lemma last_before_some t a : is_Some (t !! a) -> last_before t (Some a) (a + 1).
Proof. intros Ha. split; [lia|]. split; [done|]. lia. Qed.

Lemma clone_pages_spec io e p pt ct old done_ a l :
  l = seqZ a (lenZ l) -> last_before pt old a ->
  match clone_pages io e p pt ct old done_ l with
  | Some (e', ct', Ok _) =>
      (forall v, ct' !! v = if decide (v ∈ l)
        then match pt !! v with Some x => Some (mk_pte (page x) p) | None => ct !! v end
        else ct !! v) /\
      (forall q, refs e' !! q = (fun n => n + (if io then 0 else uses pt l q)) <$> refs e !! q)
  | Some (_, _, Err err) => err = ENOMEM
  | None => exists v1 v2, (old = Some v1 \/ v1 ∈ l) /\ v2 ∈ l /\ skips pt v1 v2
  end.
Proof.
  revert e ct old done_ a. induction l as [|v l IH]; intros e ct old done_ a Hl Hold; cbn [clone_pages].
  { split; [intros v; by rewrite decide_False by apply not_elem_of_nil|]. intros q. cbn [uses].
    destruct io; destruct (refs e !! q); simpl; f_equal; lia. }
  assert (Hl' : v = a /\ l = seqZ (a + 1) (lenZ l)).
  { unfold lenZ in *. cbn [length] in Hl. rewrite Nat2Z.inj_succ, seqZ_cons in Hl by lia.
    injection Hl as -> E. split; [done|]. rewrite E at 1. f_equal; lia. }
  destruct Hl' as (-> & Hl'). assert (Ha : a ∉ l) by (rewrite Hl', elem_of_seqZ; lia).
  assert (Hmem : forall w (x y : option pte), w <> a ->
    (if decide (w ∈ l) then x else y) = if decide (w ∈ a :: l) then x else y).
  { intros w x y Hne. repeat case_decide; try done; list_solver. }
  destruct (pt !! a) as [x|] eqn:Ex.
  - pose proof (next_entry_spec (if io then e else retain e (page x)) a old) as Hcn.
    destruct (create_next _ a old) as [[e1 b]|]; cbn [mbind option_bind].
    2:{ destruct Hcn as (o & -> & Hb & Ht). destruct Hold as (Ho & Hs & Hbetween). exists o, a.
        split; [by left|]. split; [by left|]. by constructor. }
    destruct b; cbn [negb]; [|by destruct (unmap_pages _ _ _ _)].
    specialize (IH e1 (<[a := mk_pte (page x) p]> ct) (Some a) (a :: done_) (a + 1) Hl'
      (last_before_some pt a ltac:(by rewrite Ex))).
    destruct (clone_pages _ _ _ _ _ _ _ _) as [[[e' ct'] [u|err]]|]; [|done|].
    2:{ destruct IH as (v1 & v2 & H1 & H2 & H3). exists v1, v2. split; [right|by split; [right|]].
        destruct H1 as [[= ->]|?]; [by left|by right]. }
    destruct IH as (IHt & IHr). split.
    + intros w. rewrite IHt. destruct (decide (w = a)) as [->|Hne].
      * rewrite decide_False by done. rewrite decide_True by by left. by rewrite Ex, lookup_insert_eq.
      * rewrite lookup_insert_ne by done. by apply Hmem.
    + intros q. rewrite IHr, Hcn. cbn [uses]. rewrite Ex. cbn [fmap option_fmap option_map].
      destruct io; [done|]. unfold retain. cbn [refs]. destruct (decide (page x = q)) as [->|Hne].
      * rewrite decide_True, lookup_alter_eq by done. destruct (refs e !! q); simpl; f_equal; lia.
      * rewrite decide_False, lookup_alter_ne by congruence. destruct (refs e !! q); simpl; f_equal; lia.
  - specialize (IH e ct old (a :: done_) (a + 1) Hl' (last_before_none _ _ _ Hold Ex)).
    destruct (clone_pages _ _ _ _ _ _ _ _) as [[[e' ct'] [u|err]]|]; [|done|].
    2:{ destruct IH as (v1 & v2 & H1 & H2 & H3). exists v1, v2. split; [|by split; [right|]].
        destruct H1 as [?|?]; [by left|by right; right]. }
    destruct IH as (IHt & IHr). split.
    + intros w. rewrite IHt. destruct (decide (w = a)) as [->|Hne]; [|by apply Hmem].
      rewrite decide_False by done. rewrite decide_True by by left. by rewrite Ex.
    + intros q. rewrite IHr. cbn [uses]. by rewrite Ex.
Qed.

Definition read_only (x : pte) : pte := mk_pte (page x) (clear_flag_write (pte_flags x)).

Lemma read_only_page (x : pte) : page (read_only x) = page x.
Proof. done. Qed.

Lemma has_clear_flag_write fl : has (clear_flag_write fl) WRITE = false.
Proof.
  unfold has, clear_flag_write. rewrite Z.land_lor_distr_l. change (Z.land EXEC WRITE) with 0.
  rewrite Z.lor_0_r. apply has_no_write.
Qed.

Lemma clear_write_table t l v :
  NoDup l -> clear_write t l !! v = if decide (v ∈ l) then read_only <$> t !! v else t !! v.
Proof.
  revert t. induction l as [|w l IH]; intros t Hnd; cbn [clear_write].
  { by rewrite decide_False by apply not_elem_of_nil. }
  apply NoDup_cons in Hnd as (Hw & Hnd). rewrite IH by done. destruct (decide (v = w)) as [->|Hne].
  - rewrite decide_False by done. rewrite decide_True by by left. apply lookup_alter_eq.
  - rewrite lookup_alter_ne by done. repeat case_decide; try done; list_solver.
Qed.

(** The entries of parent and child for a page, when the segments of [l] are cloned. *)
Definition parent_entry (l : list vmm_seg) (v : Z) (x : option pte) : option pte :=
  if existsb (fun g => covers (v * PAGE_SIZE) g && is_private g) l then read_only <$> x else x.
Definition child_entry (l : list vmm_seg) (v : Z) (x : option pte) : option pte :=
  match find (covers (v * PAGE_SIZE)) l with
  | Some g => (fun y => mk_pte (page y) (if is_private g then no_write (prot g) else prot g)) <$> x
  | None => None
  end.

Lemma insert_seg_last new l :
  seg_ok new -> (forall g, g ∈ l -> below g new /\ seg_ok g) -> insert_seg new l = l ++ [new].
Proof.
  intros Hn. induction l as [|g l IH]; intros H; [done|]. cbn [insert_seg].
  destruct (H g ltac:(by left)) as (Hb & Hg). destruct (seg_range _ Hn), (seg_range _ Hg). unfold below in Hb.
  rewrite (proj2 (Z.leb_gt _ _)) by lia. cbn [app]. f_equal. apply IH. intros g' Hg'. apply H. by right.
Qed.

(** A cloned space: [done_] are the segments already cloned. *)
Record cloned (parent parent' child child' : vmm_space) (done_ l : list vmm_seg) : Prop := {
  cl_parent : segs parent' = segs parent;
  cl_counts : forall l, acct parent l -> acct parent' l;
  cl_table : forall v, table parent' !! v = parent_entry l v (table parent !! v);
  cl_child : segs child' = (unheld <$> done_) ++ (unheld <$> l);
  cl_child_counts : total_size child' = total_size child /\ private_size child' = private_size child /\
    shared_size child' = shared_size child /\ file_size child' = file_size child /\ anon_size child' = anon_size child;
  cl_child_table : forall v, table child' !! v =
    match child_entry l v (table parent !! v) with Some x => Some x | None => table child !! v end;
}.

Lemma covers_disjoint a g l :
  ok_segs (g :: l) -> covers a g = true -> find (covers a) l = None /\ existsb (fun g' => covers a g' && is_private g') l = false.
Proof.
  intros (Hg & _ & Hb)%ok_segs_cons Hc. apply covers_spec in Hc.
  assert (H : forall g', g' ∈ l -> covers a g' = false).
  { intros g' Hin. specialize (Hb g' Hin). unfold below in Hb. destruct (covers a g') eqn:E; [|done].
    apply covers_spec in E. lia. }
  split.
  - clear Hb. induction l as [|g' l IH]; [done|]. simpl. rewrite H by by left. apply IH.
    intros g'' Hin. apply H. by right.
  - clear Hb. induction l as [|g' l IH]; [done|]. simpl. rewrite H by by left. apply IH.
    intros g'' Hin. apply H. by right.
Qed.

Lemma find_covers l g a : ok_segs l -> g ∈ l -> covers a g = true -> find (covers a) l = Some g.
Proof.
  intros Hok Hin Hg. induction l as [|g0 l IH]; [by apply not_elem_of_nil in Hin|]. simpl.
  destruct (covers a g0) eqn:E.
  - apply elem_of_cons in Hin as [->|Hin]; [done|].
    apply (covers_disjoint _ _ _ Hok) in E as (Ef & _). eapply find_none in Ef; [|by apply list_elem_of_In].
    congruence.
  - apply elem_of_cons in Hin as [->|Hin]; [congruence|]. apply ok_segs_cons in Hok as (_ & Hok & _).
    by apply IH.
Qed.

Lemma pages_of_seq a b : a <= b -> pages_of a b = seqZ (a / PAGE_SIZE) (lenZ (pages_of a b)).
Proof.
  intros Hab. unfold pages_of, lenZ. rewrite length_seqZ. f_equal. rewrite Z2Nat.id; [done|].
  apply Z.div_pos; [lia|done].
Qed.

(** A segment in which the walk over the entries leaves a table of the child. *)
Definition leaves (t : gmap Z pte) seg : Prop :=
  exists v1 v2, covers (v1 * PAGE_SIZE) seg = true /\ covers (v2 * PAGE_SIZE) seg = true /\ skips t v1 v2.

Lemma clone_seg_spec e parent child seg done_ l :
  ok_segs (done_ ++ seg :: l) -> segs child = unheld <$> done_ ->
  match vmm_clone_seg e parent child seg with
  | Some (e', parent', child', Ok _, freed) =>
      freed = false /\
      (forall v, table parent' !! v = parent_entry [seg] v (table parent !! v)) /\
      segs child' = unheld <$> (done_ ++ [seg]) /\
      (forall v, table child' !! v =
         match child_entry [seg] v (table parent !! v) with Some x => Some x | None => table child !! v end) /\
      parent' = set_table parent (table parent') /\
      child' = set_segs (set_table child (table child')) (segs child') /\
      (forall q, refs e' !! q = (fun n => n + shares (table parent) [seg] q) <$> refs e !! q)
  | Some (_, _, _, Err err, _) => err = ENOMEM
  | None => leaves (table parent) seg
  end.
Proof.
  intros (Hd & (Hg & _ & _)%ok_segs_cons & Hb)%ok_segs_app Hc. unfold vmm_clone_seg.
  destruct (alloc e) as [e1 b] eqn:Ea.
  assert (He1 : refs e1 = refs e) by (revert Ea; unfold alloc; destruct (allocs e); by intros [= <- _]).
  destruct b; cbn [negb]; [|done].
  set (p := if has (flags seg) VMM_FLAG_PRIVATE then no_write (prot seg) else prot seg).
  assert (Hpages : forall v, v ∈ pages_of (start seg) (end_ seg) <-> covers (v * PAGE_SIZE) seg = true).
  { intros v. rewrite covers_spec. destruct Hg as [? ? ? _]. apply elem_of_pages; [done|done|lia]. }
  pose proof (clone_pages_spec (has (flags seg) VMM_FLAG_IO) e1 p (table parent) (table child) None []
    (start seg / PAGE_SIZE) (pages_of (start seg) (end_ seg))) as Hcp.
  specialize (Hcp ltac:(apply pages_of_seq; destruct (seg_range _ Hg); lia) I).
  destruct (clone_pages _ _ _ _ _ _ _ _) as [[[e2 ct] [u|err]]|]; cbn [mbind option_bind]; [|done|].
  2:{ destruct Hcp as (v1 & v2 & [?|H1] & H2 & H3); [done|]. exists v1, v2. by rewrite <- !Hpages. }
  destruct Hcp as (Hct & Hrf).
  split; [done|]. split; [|split; [|split; [|split; [|split]]]].
  - intros v. unfold parent_entry. simpl. rewrite orb_false_r. unfold is_private.
    destruct (has (flags seg) VMM_FLAG_PRIVATE); [|by rewrite andb_false_r].
    cbn [table set_table]. rewrite clear_write_table, andb_true_r by apply NoDup_seqZ.
    pose proof (Hpages v). destruct (covers (v * PAGE_SIZE) seg); case_decide; case_solver.
  - cbn [segs set_segs set_table]. rewrite Hc, fmap_app, insert_seg_last; [done|by destruct Hg|].
    intros g (g' & -> & Hin)%list_elem_of_fmap. split; [exact (Hb g' seg Hin ltac:(by left))|].
    destruct Hd as (Hd & _). rewrite Forall_forall in Hd. by destruct (Hd g' Hin).
  - intros v. cbn [table set_segs set_table]. rewrite Hct. unfold child_entry. simpl. pose proof (Hpages v).
    destruct (covers (v * PAGE_SIZE) seg); case_decide; [|case_solver..].
    by destruct (table parent !! v).
  - destruct (has _ _); [done|]. by destruct parent.
  - done.
  - intros q. rewrite Hrf, He1. cbn [shares]. by rewrite Z.add_0_r.
Qed.

Lemma clone_loop_spec l e parent child done_ :
  ok_segs (done_ ++ l) -> segs child = unheld <$> done_ ->
  match clone_loop e parent child l with
  | Some (e', parent', child', Ok _, freed) =>
      freed = false /\ cloned parent parent' child child' done_ l /\
      (forall q, refs e' !! q = (fun n => n + shares (table parent) l q) <$> refs e !! q)
  | Some (_, _, _, Err err, _) => err = ENOMEM
  | None => exists seg, seg ∈ l /\ leaves (table parent) seg
  end.
Proof.
  revert e parent child done_. induction l as [|seg l IH]; intros e parent child done_ Hok Hc; cbn [clone_loop].
  { split; [done|]. split; [constructor; try done; by rewrite Hc, app_nil_r|]. intros q. cbn [shares].
    destruct (refs e !! q); simpl; f_equal; lia. }
  pose proof (clone_seg_spec e parent child seg done_ l Hok Hc) as H1.
  destruct (vmm_clone_seg e parent child seg) as [[[[[e1 parent1] child1] [u|err]] fr]|];
    cbn [mbind option_bind]; [|done|by exists seg; split; [left|]].
  destruct H1 as (_ & Hp1 & Hs1 & Ht1 & Ep1 & Ec1 & Hr1).
  assert (Hpg : forall v, page <$> table parent1 !! v = page <$> table parent !! v).
  { intros v. rewrite Hp1. unfold parent_entry. destruct (existsb _ _); [|done]. by destruct (table parent !! v). }
  assert (Hok' : ok_segs ((done_ ++ [seg]) ++ l)) by by rewrite <- app_assoc.
  specialize (IH e1 parent1 child1 (done_ ++ [seg]) Hok' Hs1).
  destruct (clone_loop e1 parent1 child1 l) as [[[[[e2 parent2] child2] [u2|err]] fr2]|]; [|done|].
  2:{ destruct IH as (g & Hin & v1 & v2 & Hv1 & Hv2 & [K1 (K2 & K2') K3 K4 K5]). exists g. split; [by right|].
      assert (Hs : forall v, is_Some (table parent1 !! v) <-> is_Some (table parent !! v)).
      { intros v. rewrite <- !(fmap_is_Some page). by rewrite Hpg. }
      exists v1, v2. split_and!; try done. constructor; try done; [by rewrite <- !Hs|]. intros v Hv.
      specialize (K3 v Hv). apply eq_None_not_Some. rewrite <- Hs, K3. by intros [? ?]. }
  destruct IH as (-> & [C1 C2 C3 C4 C5 C6] & Hr2). split; [done|].
  apply ok_segs_app in Hok as (_ & Hsl & _). split.
  2:{ intros q. rewrite Hr2, Hr1. rewrite (shares_ext _ _ l q Hpg). cbn [shares].
      destruct (refs e !! q); simpl; f_equal; lia. }
  constructor.
  - by rewrite C1, Ep1.
  - intros l' Hl'. apply C2. rewrite Ep1. destruct Hl'. by constructor.
  - intros v. rewrite C3, Hp1. unfold parent_entry. simpl. rewrite orb_false_r.
    destruct (covers (v * PAGE_SIZE) seg) eqn:E; [|done]. cbn [andb].
    rewrite (proj2 (covers_disjoint _ _ _ Hsl E)), orb_false_r. done.
  - rewrite C4, fmap_app, <- app_assoc. done.
  - rewrite Ec1 in C5. exact C5.
  - intros v. rewrite C6, Ht1, Hp1. unfold child_entry, parent_entry. simpl. rewrite orb_false_r.
    destruct (covers (v * PAGE_SIZE) seg) eqn:E; [|done].
    by rewrite (proj1 (covers_disjoint _ _ _ Hsl E)).
Qed.

Lemma unheld_view l a : view (unheld <$> l) a = view l a.
Proof. induction l as [|g l IH]; [done|]. rewrite fmap_cons, !view_cons. by rewrite IH. Qed.

Lemma unheld_wsum sel l : (forall g, sel (unheld g) = sel g) -> wsum sel (unheld <$> l) = wsum sel l.
Proof. intros H. induction l as [|g l IH]; [done|]. rewrite fmap_cons. simpl. by rewrite H, IH. Qed.

Lemma unheld_ok l : ok_segs l -> ok_segs (unheld <$> l).
Proof.
  induction l as [|g l IH]; intros Hok; [done|]. apply ok_segs_cons in Hok as (Hg & Hok & Hb).
  rewrite fmap_cons. apply ok_segs_cons. split; [by destruct Hg|]. split; [by apply IH|].
  intros g' (g2 & -> & Hin)%list_elem_of_fmap. exact (Hb g2 Hin).
Qed.

Lemma unheld_shares t l q : shares t (unheld <$> l) q = shares t l q.
Proof. induction l as [|g l IH]; [done|]. rewrite fmap_cons. cbn [shares]. by rewrite IH. Qed.

Lemma child_entry_page parent v :
  inv parent (segs parent) ->
  page <$> child_entry (segs parent) v (table parent !! v) = page <$> table parent !! v.
Proof.
  intros Hinv. unfold child_entry. destruct (table parent !! v) as [x|] eqn:Ex.
  - destruct (in_table _ _ Hinv v x Ex) as (g & Hin & Hg).
    by rewrite (find_covers _ _ _ (in_ok _ _ Hinv) Hin Hg).
  - by destruct (find _ _).
Qed.

Lemma covered_as parent t l :
  inv parent (segs parent) -> (forall v, page <$> t !! v = page <$> table parent !! v) ->
  (forall g, g ∈ segs parent -> exists g', g' ∈ l /\ forall a, covers a g' = covers a g) -> covered t l.
Proof.
  intros Hinv Ht Hl v x Hv. specialize (Ht v). rewrite Hv in Ht.
  destruct (table parent !! v) as [y|] eqn:Ey; [|done]. destruct (in_table _ _ Hinv v y Ey) as (g & Hin & Hg).
  destruct (Hl g Hin) as (g' & ? & Hcg). exists g'. by rewrite Hcg.
Qed.

Lemma parent_cow parent t rf :
  (forall v, t !! v = parent_entry (segs parent) v (table parent !! v)) -> cow_ok rf t (segs parent).
Proof.
  intros Ht v x g Hv Hin Hc Hp _. rewrite Ht in Hv. unfold parent_entry in Hv.
  assert (Hex : existsb (fun g => covers (v * PAGE_SIZE) g && is_private g) (segs parent) = true).
  { apply existsb_exists. exists g. split; [by apply list_elem_of_In|]. by rewrite Hc, Hp. }
  rewrite Hex in Hv. destruct (table parent !! v); [|done]. injection Hv as <-. apply has_clear_flag_write.
Qed.

Lemma child_cow parent t rf :
  inv parent (segs parent) -> (forall v, t !! v = child_entry (segs parent) v (table parent !! v)) ->
  cow_ok rf t (unheld <$> segs parent).
Proof.
  intros Hinv Ht v x g Hv (g' & -> & Hin)%list_elem_of_fmap Hc Hp _. rewrite Ht in Hv. unfold child_entry in Hv.
  destruct (table parent !! v) as [y|] eqn:Ey; [|by destruct (find _ _)].
  rewrite (find_covers _ _ _ (in_ok _ _ Hinv) Hin Hc) in Hv. injection Hv as <-. simpl.
  change (is_private (unheld g')) with (is_private g') in Hp. rewrite Hp. apply has_no_write.
Qed.

Lemma unmap_all_stuck e sp : vmm_space_unmap_all e sp = None -> stuck.
Proof.
  unfold vmm_space_unmap_all. generalize (segs sp) as l. intros l. revert e sp.
  induction l as [|g l IH]; intros e sp; cbn [unmap_all_loop]; [done|]. unfold vmm_space_raw_unmap.
  destruct (tree_removes l g) eqn:E; [|by intros _; eexists _, _]. cbn [negb].
  destruct (unmap_pages _ _ _ _). cbn [mbind option_bind]. apply IH.
Qed.


End vmm.

(** ** Concrete spaces *)

Definition allow (_ : vmm_seg) (_ : Z) : res unit := Ok tt.

Definition comes_back (_ : list vmm_seg) (_ : vmm_seg) : bool := true.

(** Four pages of private memory from page 128; two are present, one shared with another
    space. *)
Definition ex_seg : vmm_seg := mk_seg 524288 540672 7 3 None 0 0 0.
Definition ex_space : vmm_space :=
  mk_space [ex_seg] 16384 16384 16384 0 0 16384 {[ 128 := mk_pte 7 7; 130 := mk_pte 8 3 ]}.
Definition ex_env : env := mk_env {[ 7 := 1; 8 := 2 ]} (replicate 40 true) [].

Lemma ex_space_inv : inv ex_space (segs ex_space).
Proof.
  constructor.
  - apply ok_segs_cons. split; [by constructor|]. split; [by split; constructor|].
    intros g []%not_elem_of_nil.
  - by constructor.
  - intros v x Hv. exists ex_seg. split; [by left|]. cbn [table ex_space] in Hv.
    apply lookup_insert_Some in Hv as [(<- & _)|(_ & (<- & _)%lookup_singleton_Some)]; done.
Qed.

Lemma ex_space_cow : cow_ok (refs ex_env) (table ex_space) (segs ex_space).
Proof.
  intros v x g Hv Hg _ _ Hr. cbn [table ex_space] in Hv.
  apply lookup_insert_Some in Hv as [(_ & <-)|(_ & (_ & <-)%lookup_singleton_Some)]; [|done].
  vm_compute in Hr. done.
Qed.



(** A page without an address: it goes behind the four. *)
Lemma vmm_map_anonymous_correct_witness :
  exists e' sp' seg, vmm_space_map allow (fun g => Ok g) 5 comes_back ex_env ex_space 0 100 7 3 None 0 = Some (e', sp', Ok seg) /\
    start seg = 540672 /\ end_ seg = 544768 /\ table sp' !! 132 = Some (mk_pte 5 3) /\
    view (segs sp') 540672 = Some (7, 3, None, 0, 0).
Proof.
  destruct (vmm_map_anonymous_correct allow (fun g => Ok g) 5 comes_back ex_env ex_space 0 100 7 3 None 0)
    as (e' & sp' & r & E & Hr).
  - done.
  - apply ex_space_inv.
  - lia.
  - split; [done|]. split; [lia|]. split; [done|]. intros _. split; [done|]. by repeat constructor.
  - done.
  - done.
  - assert (Hs : exists seg, r = Ok seg /\ start seg = 540672 /\ end_ seg = 544768).
    { vm_compute in E. injection E as _ _ <-. by eexists. }
    destruct Hs as (seg & -> & Hs1 & Hs2). destruct Hr as (_ & _ & _ & _ & Hv & Ht).
    exists e', sp', seg. split; [exact E|]. split; [done|]. split; [done|].
    rewrite Ht, Hv. unfold covers. rewrite Hs1, Hs2. done.
Defined.


(** Memory in which the first page and one two tables further are present. *)
Definition sparse_space : vmm_space :=
  let g := mk_seg 524288 8388608 7 3 None 0 0 0 in
  mk_space [g] 7864320 7864320 7864320 0 0 7864320 {[ 128 := mk_pte 7 7; 1152 := mk_pte 8 3 ]}.

(** Cloning it writes outside of the page table of the child. *)
Theorem vmm_clone_leaves_table :
  inv sparse_space (segs sparse_space) /\ vmm_clone comes_back ex_env sparse_space vmm_init_space = None.
Proof.
  split; [|by vm_compute]. constructor.
  - apply ok_segs_cons. split; [by constructor|]. split; [by split; constructor|].
    intros g []%not_elem_of_nil.
  - by constructor.
  - intros v x Hv. eexists. split; [by left|]. cbn [table sparse_space] in Hv.
    apply lookup_insert_Some in Hv as [(<- & _)|(_ & (<- & _)%lookup_singleton_Some)]; done.
Qed.

(** A split that finds no memory returns with the mutex of the segment held. *)
Example split_keeps_mutex :
  vmm_space_split allow (mk_env ∅ [] []) ex_seg 528384 =
    (mk_env ∅ [] [], mk_seg 524288 540672 7 3 None 0 0 1, None, Err ENOMEM).
Proof. done. Qed.

(** A segment below the user part makes the search for a place stop at once: the place
    it gives is already mapped. *)
Example gap_overlaps :
  let low := mk_seg 4096 8192 3 3 None 0 0 0 in
  ok_segs [low; ex_seg] /\ find_gap USER_START 4096 [low; ex_seg] = start ex_seg.
Proof.
  split; [|done]. apply ok_segs_cons. split; [by constructor|]. split.
  - apply (in_ok _ _ ex_space_inv).
  - intros g ->%list_elem_of_singleton. done.
Qed.

(** When the entry of a page cannot be created, cloning frees the segment of the parent,
    which stays in its tree. *)
Example clone_frees_parent :
  match vmm_clone comes_back (mk_env {[ 7 := 1; 8 := 2 ]} [true; false] []) ex_space vmm_init_space with
  | Some (_, parent', _, Err ENOMEM, true) => segs parent' = [ex_seg]
  | _ => False
  end.
Proof. done. Qed.

(** Mapping one page of private memory takes two references to the zero page, and
    unmapping it gives one back. *)
Example zero_page_leak :
  match vmm_space_map allow (fun g => Ok g) 5 comes_back (mk_env {[ 5 := 1 ]} (replicate 4 true) []) vmm_init_space
          0 4096 3 3 None 0 with
  | Some (e, sp, Ok seg) =>
      refs e !! 5 = Some 3 /\
      match vmm_space_unmap_range allow comes_back e sp (start seg) (end_ seg) with
      | Some (e, sp, Ok _) => refs e !! 5 = Some 2 /\ segs sp = []
      | _ => False
      end
  | _ => False
  end.
Proof. by vm_compute. Qed.

End Vmm.
