(* ===== verification/Sync.v ===== *)
(** Sleep queues, timeouts, mutexes and read-write semaphores (kernel/task/sleep.c,
    kernel/task/mutex.c, kernel/task/rwsem.c, [wakeup_sleepers] of
    kernel/task/scheduler.c).

    A task is a number.  A queue is the sequence of the tasks that wait on it, and the
    list of timeouts the sequence of the sleeping tasks with their wake-up times (the
    sequence level of [Lists]).  The operations of a mutex are atomic, those of a
    semaphore run under its spinlock; a task that has to sleep in the middle of one
    releases the lock, so the operation is a step before the sleep and a step after
    it.  A state machine runs these steps in any order, by any tasks, together with a
    record of what each task holds. *)

From S2P Require Import Prelude Time.

Module Sync.
Import Time.

Implicit Types (q : list Z) (task : Z).

(** ** Sleep queues *)

Definition sleep_add_to_queue q task : list Z := q ++ [task].

Fixpoint sleep_remove_from_queue q task : list Z :=
  match q with
  | [] => []
  | t :: q => if t =? task then q else t :: sleep_remove_from_queue q task
  end.

(** The tasks woken, in order, and those left; [count] is a [size_t] and 0 is all. *)
Fixpoint wakeup_queue q (count : Z) : list Z * list Z :=
  match q with
  | [] => ([], [])
  | t :: q =>
      if negb (count =? 0) && (count - 1 =? 0) then ([t], q)
      else
        let '(woken, rest) := wakeup_queue q (if count =? 0 then 0 else count - 1) in
        (t :: woken, rest)
  end.

(** ** Timeouts *)

Definition sleeper : Type := Z * timespec.
Implicit Types (l : list sleeper) (s : sleeper).

(** The tasks are passed while they do not wake later; the new one goes behind them. *)
Fixpoint sleep_add_timeout l s : list sleeper :=
  match l with
  | [] => [s]
  | x :: l' => if timespec_cmp s.2 x.2 <? 0 then s :: l else x :: sleep_add_timeout l' s
  end.

(** Only a task whose flag says that it is still in the list is removed. *)
Definition sleep_remove_timeout l task (flag_sleep : bool) : list sleeper :=
  if flag_sleep then filter (fun s => s.1 <> task) l else l.

(** The tasks woken, and those left. *)
Fixpoint wakeup_sleepers l (time : timespec) : list sleeper * list sleeper :=
  match l with
  | [] => ([], [])
  | x :: l' =>
      if timespec_cmp x.2 time >? 0 then ([], l)
      else let '(woken, rest) := wakeup_sleepers l' time in (x :: woken, rest)
  end.

(** ** Mutexes *)

Record mutex := mk_mutex { lock : option Z; depth : Z }.

Definition mutex_init : mutex := mk_mutex None 0.

Definition mutex_try_acquire (m : mutex) task : mutex * bool :=
  match lock m with
  | None => (mk_mutex (Some task) 1, true)
  | Some t => if t =? task then (mk_mutex (Some t) (depth m +! 1), true) else (m, false)
  end.

(** The mutex, and whether a sleeper is woken. *)
Definition mutex_release (m : mutex) : mutex * bool :=
  let d := depth m -! 1 in
  if d =? 0 then (mk_mutex None d, true) else (mk_mutex (lock m) d, false).

(** The acquisitions that have not been released, the last first. *)
Inductive mutex_step : mutex * list Z -> mutex * list Z -> Prop :=
  | step_acquire m h task m' :
      mutex_try_acquire m task = (m', true) -> lenZ h < 2 ^ 64 - 1 ->
      mutex_step (m, h) (m', task :: h)
  | step_fail m h task m' :
      mutex_try_acquire m task = (m', false) -> mutex_step (m, h) (m', h)
  | step_release m h task m' w :
      mutex_release m = (m', w) -> mutex_step (m, task :: h) (m', h).

(** ** Read-write semaphores *)

Record rwsem := mk_rwsem {
  waiting_writers_count : Z;
  readers_count : Z;
  lock_depth : Z;
  writer_active : option Z;
}.
Implicit Types (r : rwsem).

Definition rwsem_init : rwsem := mk_rwsem 0 0 0 None.

Definition is_writer r task : bool := bool_decide (writer_active r = Some task).

(** Acquiring for reading; [None] is a task that sleeps (and tries again when it is
    woken). *)
Definition rwsem_acquire_read r task : option rwsem :=
  if is_writer r task then
    Some (mk_rwsem (waiting_writers_count r) (readers_count r) (lock_depth r +! 1) (writer_active r))
  else if (waiting_writers_count r =? 0) && bool_decide (writer_active r = None) then
    Some (mk_rwsem (waiting_writers_count r) (readers_count r +! 1) (lock_depth r) (writer_active r))
  else None.

Inductive woken := WakeNone | WakeWriter | WakeReaders.

(** [None] is a failed [kassert]. *)
Definition rwsem_release_read r task : option (rwsem * woken) :=
  if is_writer r task then
    if lock_depth r >? 0 then
      Some (mk_rwsem (waiting_writers_count r) (readers_count r) (lock_depth r -! 1) (writer_active r), WakeNone)
    else None
  else if readers_count r >? 0 then
    let n := readers_count r -! 1 in
    Some (mk_rwsem (waiting_writers_count r) n (lock_depth r) (writer_active r),
          if n =? 0 then WakeWriter else WakeNone)
  else None.

(** The part before the sleep: the semaphore is acquired at once by the task that has it,
    and otherwise the task is waiting. *)
Definition rwsem_acquire_write_begin r task : rwsem * bool :=
  if is_writer r task then
    (mk_rwsem (waiting_writers_count r) (readers_count r) (lock_depth r +! 1) (writer_active r), true)
  else
    (mk_rwsem (waiting_writers_count r +! 1) (readers_count r) (lock_depth r) (writer_active r), false).

(** The part after it; [None] while the condition of the sleep is false. *)
Definition rwsem_acquire_write_end r task : option rwsem :=
  if (readers_count r =? 0) && bool_decide (writer_active r = None) then
    Some (mk_rwsem (waiting_writers_count r -! 1) (readers_count r) 1 (Some task))
  else None.

Definition rwsem_release_write r task : option (rwsem * woken) :=
  if negb (is_writer r task) then None
  else if lock_depth r >? 0 then
    let d := lock_depth r -! 1 in
    if d =? 0 then
      Some (mk_rwsem (waiting_writers_count r) (readers_count r) d None,
            if waiting_writers_count r >? 0 then WakeWriter else WakeReaders)
    else Some (mk_rwsem (waiting_writers_count r) (readers_count r) d (writer_active r), WakeNone)
  else None.

(** What the tasks hold: [readers] and [writers] have a task once for each acquisition
    (those of the writer count as its own, also for reading), [waiting] the tasks that
    wait to write. *)
Record holders := mk_holders { readers : list Z; writers : list Z; waiting : list Z }.

(** Tasks acquire as they like, also for writing while they hold the semaphore for
    reading, and release only what they hold.  With [nested] the last thing that a
    writer releases is an acquisition for writing, as in properly nested sections; the
    source does not check it.  A wait for writing ends only when the condition of
    the sleep holds.  The counters have not reached their width. *)
Inductive rwsem_step (nested : bool) : rwsem * holders -> rwsem * holders -> Prop :=
  | step_read r h task r' :
      rwsem_acquire_read r task = Some r' -> lenZ (readers h) + lenZ (writers h) < 2 ^ 64 - 1 ->
      rwsem_step nested (r, h)
        (r', if is_writer r task then mk_holders (readers h) (task :: writers h) (waiting h)
             else mk_holders (task :: readers h) (writers h) (waiting h))
  | step_release_read r h task r' w :
      rwsem_release_read r task = Some (r', w) -> task ∈ readers h ->
      rwsem_step nested (r, h)
        (r', mk_holders (sleep_remove_from_queue (readers h) task) (writers h) (waiting h))
  | step_release_read_writer r h task r' w :
      rwsem_release_read r task = Some (r', w) -> task ∈ writers h ->
      (nested = true -> (1 < length (writers h))%nat) ->
      rwsem_step nested (r, h)
        (r', mk_holders (readers h) (sleep_remove_from_queue (writers h) task) (waiting h))
  | step_write_begin r h task r' now :
      rwsem_acquire_write_begin r task = (r', now) ->
      lenZ (writers h) < 2 ^ 64 - 1 -> lenZ (waiting h) < 2 ^ 64 - 1 ->
      rwsem_step nested (r, h)
        (r', if now then mk_holders (readers h) (task :: writers h) (waiting h)
             else mk_holders (readers h) (writers h) (task :: waiting h))
  | step_write_end r h task r' :
      rwsem_acquire_write_end r task = Some r' -> task ∈ waiting h ->
      rwsem_step nested (r, h)
        (r', mk_holders (readers h) (task :: writers h) (sleep_remove_from_queue (waiting h) task))
  | step_release_write r h task r' w :
      rwsem_release_write r task = Some (r', w) -> task ∈ writers h ->
      rwsem_step nested (r, h)
        (r', mk_holders (readers h) (sleep_remove_from_queue (writers h) task) (waiting h)).

(** ** Queues *)

Lemma remove_from_queue_length q task :
  task ∈ q -> lenZ (sleep_remove_from_queue q task) = lenZ q - 1.
Proof.
  induction q as [|t q IH]; intros Hin; [by apply not_elem_of_nil in Hin|]. cbn [sleep_remove_from_queue].
  unfold lenZ in *. destruct (Z.eqb_spec t task) as [->|Hne]; simpl; [lia|].
  apply elem_of_cons in Hin as [->|Hin]; [done|]. specialize (IH Hin). lia.
Qed.

Lemma remove_from_queue_Forall (P : Z -> Prop) q task : Forall P q -> Forall P (sleep_remove_from_queue q task).
Proof. induction 1 as [|t q Ht Hq IH]; simpl; [constructor|]. destruct (t =? task); [done|by constructor]. Qed.

Lemma wakeup_queue_count q n :
  0 < n -> wakeup_queue q n = (take (Z.to_nat n) q, drop (Z.to_nat n) q).
Proof.
  revert n. induction q as [|t q IH]; intros n Hn; cbn [wakeup_queue].
  { by rewrite take_nil, drop_nil. }
  rewrite (proj2 (Z.eqb_neq n 0)) by lia. cbn [negb andb].
  destruct (n - 1 =? 0) eqn:E; zbool; [by replace n with 1 by lia|].
  rewrite IH by lia. replace (Z.to_nat n) with (S (Z.to_nat (n - 1))) by lia. done.
Qed.

Lemma wakeup_queue_all q : wakeup_queue q 0 = (q, []).
Proof. induction q as [|t q IH]; [done|]. cbn. by rewrite IH. Qed.

(** ** Timeouts *)

Definition earlier (s s' : sleeper) : Prop := nanoseconds s.2 <= nanoseconds s'.2.

Lemma timespec_cmp_sign a b :
  normal a -> normal b -> timespec_cmp a b = Z.sgn (nanoseconds a - nanoseconds b).
Proof.
  intros Ha Hb. unfold timespec_cmp, nanoseconds, normal, NSEC_PER_SEC in *.
  repeat case_if; symmetry; zbool; [apply Z.sgn_pos|apply Z.sgn_neg|apply Z.sgn_pos|apply Z.sgn_neg|apply Z.sgn_null_iff];
    lia.
Qed.

(** Timeouts.  For normalised times, [sleep_add_timeout] keeps the list of sleeping
    tasks sorted by wake-up time, adding exactly the new task, behind those with the same
    time; and on a sorted list [wakeup_sleepers] wakes exactly the tasks whose time has
    come, the earliest first, and leaves exactly the others. *)
Theorem sleep_timeouts_correct l s time :
  Forall (fun x => normal x.2) (s :: l) -> normal time -> StronglySorted earlier l ->
  (exists l1 l2, l = l1 ++ l2 /\ sleep_add_timeout l s = l1 ++ s :: l2 /\
     Forall (fun x => nanoseconds x.2 <= nanoseconds s.2) l1 /\
     Forall (fun x => nanoseconds s.2 < nanoseconds x.2) l2 /\
     StronglySorted earlier (sleep_add_timeout l s)) /\
  (exists woken rest, wakeup_sleepers l time = (woken, rest) /\ l = woken ++ rest /\
     Forall (fun x => nanoseconds x.2 <= nanoseconds time) woken /\
     Forall (fun x => nanoseconds time < nanoseconds x.2) rest).
Proof.
  intros (Hns & Hn)%Forall_cons Ht Hs. split.
  - assert (H : exists l1 l2, l = l1 ++ l2 /\ sleep_add_timeout l s = l1 ++ s :: l2 /\
      Forall (fun x => nanoseconds x.2 <= nanoseconds s.2) l1 /\
      Forall (fun x => nanoseconds s.2 < nanoseconds x.2) l2).
    { induction l as [|x l IH]; cbn [sleep_add_timeout]; [exists [], []; by repeat constructor|].
      apply Forall_cons in Hn as (Hx & Hn). apply StronglySorted_inv in Hs as (Hs & Hb).
      rewrite timespec_cmp_sign by done. destruct (Z.sgn _ <? 0) eqn:E; zbool.
      - apply Z.sgn_neg_iff in E. exists [], (x :: l). split; [done|]. split; [done|]. split; [constructor|].
        constructor; [lia|]. eapply Forall_impl; [exact Hb|]. unfold earlier. simpl. intros. lia.
      - destruct IH as (l1 & l2 & -> & -> & H1 & H2); [done|done|]. exists (x :: l1), l2.
        split; [done|]. split; [done|]. split; [|done]. constructor; [|done].
        pose proof (Z.sgn_neg_iff (nanoseconds s.2 - nanoseconds x.2)). lia. }
    destruct H as (l1 & l2 & -> & E & H1 & H2). exists l1, l2. split_and!; try done. rewrite E.
    apply StronglySorted_app in Hs as (Hx & Hs1 & Hs2). apply StronglySorted_mid. split_and!; try done.
    eapply Forall_impl; [exact H2|]. unfold earlier. intros. lia.
  - induction l as [|x l IH]; cbn [wakeup_sleepers]; [exists [], []; by repeat constructor|].
    apply Forall_cons in Hn as (Hx & Hn). apply StronglySorted_inv in Hs as (Hs & Hb).
    rewrite timespec_cmp_sign, Z.gtb_ltb by done. destruct (0 <? Z.sgn _) eqn:E; zbool.
    + apply Z.sgn_pos_iff in E. exists [], (x :: l). split; [done|]. split; [done|]. split; [constructor|].
      constructor; [lia|]. eapply Forall_impl; [exact Hb|]. unfold earlier. simpl. intros. lia.
    + destruct IH as (w & rest & -> & -> & H1 & H2); [done|done|]. exists (x :: w), rest.
      split; [done|]. split; [done|]. split; [|done]. constructor; [|done].
      pose proof (Z.sgn_pos_iff (nanoseconds x.2 - nanoseconds time)). lia.
Qed.

(** ** Mutual exclusion *)

Definition mutex_inv (x : mutex * list Z) : Prop :=
  let '(m, h) := x in
  depth m = lenZ h /\ lenZ h < 2 ^ 64 /\
  match lock m with None => h = [] | Some t => h <> [] /\ Forall (eq t) h end.

Lemma mutex_step_inv x y : mutex_step x y -> mutex_inv x -> mutex_inv y.
Proof.
  intros [m h task m' E Hl|m h task m' E|m h task m' w E]; intros (Hd & Hb & Ho); unfold mutex_inv, lenZ in *.
  - unfold mutex_try_acquire in E. unfold lenZ in *. destruct (lock m) as [t|].
    + destruct (Z.eqb_spec t task) as [Et|]; [subst task|done]. injection E as <-. destruct Ho as (_ & Ho).
      split; [|split; [simpl; lia|]; simpl; by split; [|constructor]].
      simpl. rewrite Hd. unfold u64. rewrite Z.mod_small; lia.
    + injection E as <-. subst h. split_and!; try done. by repeat constructor.
  - unfold mutex_try_acquire in E. destruct (lock m) as [t|] eqn:El; [|done].
    destruct (t =? task); [done|]. injection E as <-. unfold mutex_inv. by rewrite El.
  - unfold mutex_release in E. unfold lenZ in *. destruct (lock m) as [t|]; [|done].
    destruct Ho as (_ & (<- & Ho)%Forall_cons).
    assert (Eu : depth m -! 1 = Z.of_nat (length h)).
    { rewrite Hd. unfold u64. rewrite Z.mod_small; simpl in *; lia. }
    rewrite Eu in E. simpl in Hb. destruct h as [|t' h].
    + by injection E as <- <-.
    + simpl in E. injection E as <- <-. split; [done|]. split; [simpl in *; lia|]. done.
Qed.

(** Mutexes exclude: in every state that tasks reach from a fresh mutex by acquiring it
    (or failing to) and by releasing acquisitions, in any order, all the acquisitions
    not yet released belong to one task, the owner, and their number is the depth; the
    mutex is free exactly when there are none. *)
Theorem mutex_exclusion m h :
  rtc mutex_step (mutex_init, []) (m, h) ->
  depth m = lenZ h /\ (forall t, lock m = Some t <-> t ∈ h) /\
  (forall t t', t ∈ h -> t' ∈ h -> t = t').
Proof.
  intros H. assert (Hi : mutex_inv (m, h)).
  { remember (mutex_init, []) as x eqn:Ex. remember (m, h) as y eqn:Ey. clear m h Ey.
    assert (Hx : mutex_inv x) by (subst; done). clear Ex.
    induction H as [|x y z Hs _ IH]; [done|]. by eapply IH, mutex_step_inv. }
  destruct Hi as (Hd & _ & Ho). split; [done|]. destruct (lock m) as [t0|].
  - destruct Ho as (Hne & Ho). rewrite Forall_forall in Ho. split.
    + intros t. split; [intros [= <-]|intros Ht; by rewrite (Ho t Ht)].
      destruct h as [|t' h]; [done|]. rewrite (Ho t'); by left.
    + intros t t' Ht Ht'. by rewrite <- (Ho t Ht), <- (Ho t' Ht').
  - subst h. split; [|by intros t t' []%not_elem_of_nil]. intros t. split; [done|by intros []%not_elem_of_nil].
Qed.

(** ** Readers and writers *)

Definition rw_inv (nested : bool) (x : rwsem * holders) : Prop :=
  let '(r, h) := x in
  readers_count r = lenZ (readers h) /\ lock_depth r = lenZ (writers h) /\
  waiting_writers_count r = lenZ (waiting h) /\
  lenZ (readers h) < 2 ^ 64 /\ lenZ (writers h) < 2 ^ 64 /\ lenZ (waiting h) < 2 ^ 64 /\
  match writer_active r with
  | None => writers h = []
  | Some t => readers h = [] /\ (nested = true -> writers h <> []) /\ Forall (eq t) (writers h)
  end.

Lemma lenZ_nil_iff {A} (l : list A) : lenZ l = 0 <-> l = [].
Proof. unfold lenZ. destruct l; simpl; split; intros; try done; lia. Qed.

Lemma is_writer_true r task : is_writer r task = true <-> writer_active r = Some task.
Proof. unfold is_writer. apply bool_decide_eq_true. Qed.

(** Splits the invariant into its parts. *)
Ltac rw_split := repeat match goal with |- _ /\ _ => split end; try done; try lia.

Lemma rw_read_inv nested r h task r' :
  rwsem_acquire_read r task = Some r' -> lenZ (readers h) + lenZ (writers h) < 2 ^ 64 - 1 ->
  rw_inv nested (r, h) ->
  rw_inv nested (r', if is_writer r task then mk_holders (readers h) (task :: writers h) (waiting h)
              else mk_holders (task :: readers h) (writers h) (waiting h)).
Proof.
  intros E Hl (Hrc & Hd & Hww & Hb1 & Hb2 & Hb3 & Ho).
  pose proof (lenZ_nonneg (readers h)). pose proof (lenZ_nonneg (writers h)).
  unfold rwsem_acquire_read in E. destruct (is_writer r task) eqn:Ew.
  - injection E as <-. apply is_writer_true in Ew. rewrite Ew in Ho. destruct Ho as (Ho1 & Ho2 & Ho3).
    unfold rw_inv. simpl. rewrite Ew, lenZ_cons, u64_small by (unfold is_u64; lia). rw_split. by constructor.
  - destruct (waiting_writers_count r =? 0); [|done]. destruct (writer_active r) eqn:Ea; [done|].
    simpl in E. injection E as <-. unfold rw_inv. simpl.
    rewrite lenZ_cons, u64_small by (unfold is_u64; lia). rw_split.
Qed.

Lemma rw_release_read_inv nested r h task r' w :
  rwsem_release_read r task = Some (r', w) -> task ∈ readers h -> rw_inv nested (r, h) ->
  rw_inv nested (r', mk_holders (sleep_remove_from_queue (readers h) task) (writers h) (waiting h)).
Proof.
  intros E Hin (Hrc & Hd & Hww & Hb1 & Hb2 & Hb3 & Ho).
  assert (Ew : is_writer r task = false).
  { destruct (is_writer r task) eqn:Ew; [|done]. apply is_writer_true in Ew. rewrite Ew in Ho.
    destruct Ho as (Hn & _). rewrite Hn in Hin. by apply not_elem_of_nil in Hin. }
  unfold rwsem_release_read in E. rewrite Ew in E. destruct (readers_count r >? 0) eqn:Eg; [|done].
  injection E as <- _. pose proof (remove_from_queue_length _ _ Hin) as Hlen.
  pose proof (lenZ_nonneg (sleep_remove_from_queue (readers h) task)).
  unfold rw_inv. simpl. rewrite u64_small by (unfold is_u64; lia). rw_split.
  destruct (writer_active r); [|done]. destruct Ho as (Hn & _). rewrite Hn in Hin.
  by apply not_elem_of_nil in Hin.
Qed.

Lemma rw_release_read_writer_inv nested r h task r' w :
  rwsem_release_read r task = Some (r', w) -> task ∈ writers h ->
  (nested = true -> (1 < length (writers h))%nat) -> rw_inv nested (r, h) ->
  rw_inv nested (r', mk_holders (readers h) (sleep_remove_from_queue (writers h) task) (waiting h)).
Proof.
  intros E Hin Hlen (Hrc & Hd & Hww & Hb1 & Hb2 & Hb3 & Ho).
  destruct (writer_active r) as [t|] eqn:Ea.
  2:{ rewrite Ho in Hin. by apply not_elem_of_nil in Hin. }
  destruct Ho as (Hn & _ & Hf). assert (t = task) as -> by (rewrite Forall_forall in Hf; by apply Hf).
  unfold rwsem_release_read in E. rewrite (proj2 (is_writer_true r task) Ea) in E.
  destruct (lock_depth r >? 0) eqn:Eg; [|done]. injection E as <- _.
  pose proof (remove_from_queue_length _ _ Hin) as Hlr. unfold rw_inv. simpl.
  rewrite Ea, u64_small by (unfold is_u64, lenZ in *; lia). rw_split.
  - intros Hn1%Hlen Hnil. rewrite Hnil in Hlr. unfold lenZ in Hlr. simpl in Hlr. lia.
  - by apply remove_from_queue_Forall.
Qed.

Lemma rw_write_inv nested r h task r' now :
  rwsem_acquire_write_begin r task = (r', now) -> lenZ (writers h) < 2 ^ 64 - 1 ->
  lenZ (waiting h) < 2 ^ 64 - 1 -> rw_inv nested (r, h) ->
  rw_inv nested (r', if now then mk_holders (readers h) (task :: writers h) (waiting h)
              else mk_holders (readers h) (writers h) (task :: waiting h)).
Proof.
  intros E Hl Hlw (Hrc & Hd & Hww & Hb1 & Hb2 & Hb3 & Ho).
  pose proof (lenZ_nonneg (writers h)). pose proof (lenZ_nonneg (waiting h)).
  unfold rwsem_acquire_write_begin in E. destruct (is_writer r task) eqn:Ew; injection E as <- <-.
  - apply is_writer_true in Ew. rewrite Ew in Ho. destruct Ho as (Ho1 & Ho2 & Ho3).
    unfold rw_inv. simpl. rewrite Ew, lenZ_cons, u64_small by (unfold is_u64; lia). rw_split. by constructor.
  - unfold rw_inv. simpl. rewrite lenZ_cons, u64_small by (unfold is_u64; lia). rw_split.
Qed.

Lemma rw_write_end_inv nested r h task r' :
  rwsem_acquire_write_end r task = Some r' -> task ∈ waiting h -> rw_inv nested (r, h) ->
  rw_inv nested (r', mk_holders (readers h) (task :: writers h) (sleep_remove_from_queue (waiting h) task)).
Proof.
  intros E Hin (Hrc & Hd & Hww & Hb1 & Hb2 & Hb3 & Ho).
  unfold rwsem_acquire_write_end in E. destruct (readers_count r =? 0) eqn:E0; [|done].
  destruct (writer_active r) eqn:Ea; [done|]. simpl in E. injection E as <-. zbool.
  pose proof (remove_from_queue_length _ _ Hin) as Hlr.
  pose proof (lenZ_nonneg (sleep_remove_from_queue (waiting h) task)).
  unfold rw_inv. simpl. rewrite Ho, u64_small by (unfold is_u64; lia). rw_split.
  - apply lenZ_nil_iff. lia.
  - by repeat constructor.
Qed.

Lemma rw_release_write_inv nested r h task r' w :
  rwsem_release_write r task = Some (r', w) -> task ∈ writers h -> rw_inv nested (r, h) ->
  rw_inv nested (r', mk_holders (readers h) (sleep_remove_from_queue (writers h) task) (waiting h)).
Proof.
  intros E Hin (Hrc & Hd & Hww & Hb1 & Hb2 & Hb3 & Ho).
  unfold rwsem_release_write in E. destruct (is_writer r task) eqn:Ew; [|done]. cbn [negb] in E.
  apply is_writer_true in Ew. rewrite Ew in Ho. destruct Ho as (Ho1 & Ho2 & Ho3).
  destruct (lock_depth r >? 0) eqn:Eg; [|done].
  pose proof (remove_from_queue_length _ _ Hin) as Hlr.
  pose proof (lenZ_nonneg (sleep_remove_from_queue (writers h) task)).
  rewrite u64_small in E by (unfold is_u64; lia).
  destruct (lock_depth r - 1 =? 0) eqn:E1; zbool; injection E as <- _;
    unfold rw_inv; simpl; rewrite ?Ew; rw_split.
  - apply lenZ_nil_iff. lia.
  - intros _. rewrite <- lenZ_nil_iff. lia.
  - by apply remove_from_queue_Forall.
Qed.

Lemma rw_step_inv nested x y : rwsem_step nested x y -> rw_inv nested x -> rw_inv nested y.
Proof.
  intros [] Hi; eauto using rw_read_inv, rw_release_read_inv, rw_release_read_writer_inv,
    rw_write_inv, rw_write_end_inv, rw_release_write_inv.
Qed.

Lemma rw_reachable nested r h :
  rtc (rwsem_step nested) (rwsem_init, mk_holders [] [] []) (r, h) -> rw_inv nested (r, h).
Proof.
  intros H. remember (rwsem_init, mk_holders [] [] []) as x eqn:Ex. remember (r, h) as y eqn:Ey. clear r h Ey.
  assert (Hx : rw_inv nested x) by (subst; done). clear Ex.
  induction H as [|x y z Hs _ IH]; [done|]. by eapply IH, rw_step_inv.
Qed.

(** C33: read-write semaphores exclude.  In every state reached from a fresh semaphore by
    tasks that acquire for reading or writing, sleep, are woken and release what they
    hold, in any order, as long as no counter reaches its width: the counters are the
    numbers of acquisitions not yet released and of waiting writers; while somebody
    writes nobody reads, and everything the writer holds is held by the one task of
    [writer_active]; every release of something that is held passes the assertions; and
    while a writer waits no task but that one starts to read.  If moreover the last thing a
    writer releases is always an acquisition for writing ([nested]), [writer_active] is
    empty exactly when nobody writes; without that it can stay set for ever, which
    [rwsem_release_order_stuck] shows. *)
Theorem rwsem_exclusion nested r h :
  rtc (rwsem_step nested) (rwsem_init, mk_holders [] [] []) (r, h) ->
  readers_count r = lenZ (readers h) /\ lock_depth r = lenZ (writers h) /\
  waiting_writers_count r = lenZ (waiting h) /\
  (writers h <> [] -> readers h = []) /\
  (forall t, t ∈ writers h -> writer_active r = Some t) /\
  (nested = true -> writer_active r = None <-> writers h = []) /\
  (forall t, t ∈ readers h -> is_Some (rwsem_release_read r t)) /\
  (forall t, t ∈ writers h -> is_Some (rwsem_release_write r t) /\ is_Some (rwsem_release_read r t)) /\
  (forall t, waiting h <> [] -> writer_active r <> Some t -> rwsem_acquire_read r t = None).
Proof.
  intros (Hrc & Hd & Hww & _ & _ & _ & Ho)%rw_reachable.
  assert (Hin : forall t, t ∈ writers h -> writer_active r = Some t).
  { intros t Ht. destruct (writer_active r) as [t0|].
    - destruct Ho as (_ & _ & Hf). rewrite Forall_forall in Hf. by rewrite (Hf t Ht).
    - rewrite Ho in Ht. by apply not_elem_of_nil in Ht. }
  assert (Hpos : forall (l : list Z) t, t ∈ l -> 0 < lenZ l).
  { intros [|x l] t Ht; [by apply not_elem_of_nil in Ht|]. unfold lenZ. simpl. lia. }
  do 3 (split; [done|]). split; [|split; [done|split; [|split; [|split]]]].
  - intros Hne. destruct (writer_active r); [tauto|done].
  - intros Hn. destruct (writer_active r); [|done]. destruct Ho as (_ & Hne & _).
    specialize (Hne Hn). done.
  - intros t Ht. unfold rwsem_release_read. pose proof (Hpos _ _ Ht).
    destruct (is_writer r t) eqn:Ew.
    + apply is_writer_true in Ew. rewrite Ew in Ho. destruct Ho as (Hn & _). rewrite Hn in Ht.
      by apply not_elem_of_nil in Ht.
    + rewrite Z.gtb_ltb, (proj2 (Z.ltb_lt _ _)) by lia. by eexists.
  - intros t Ht. pose proof (Hpos _ _ Ht). apply Hin in Ht. unfold rwsem_release_write, rwsem_release_read.
    rewrite (proj2 (is_writer_true r t) Ht). cbn [negb].
    rewrite Z.gtb_ltb, (proj2 (Z.ltb_lt _ _)) by lia. split; [|by eexists]. destruct (_ =? 0); by eexists.
  - intros t Hw Hn. unfold rwsem_acquire_read. destruct (is_writer r t) eqn:Ew.
    + apply is_writer_true in Ew. done.
    + destruct (Z.eqb_spec (waiting_writers_count r) 0) as [E|E]; [|done].
      rewrite Hww, lenZ_nil_iff in E. done.
Qed.

(** ** Concrete runs *)

Lemma sleep_timeouts_correct_witness :
  let l := [(1, mk_timespec 2 0); (2, mk_timespec 5 0)] in
  sleep_add_timeout l (3, mk_timespec 2 0) = [(1, mk_timespec 2 0); (3, mk_timespec 2 0); (2, mk_timespec 5 0)] /\
  exists woken rest, wakeup_sleepers l (mk_timespec 2 0) = (woken, rest) /\ l = woken ++ rest /\
    Forall (fun x => nanoseconds x.2 <= nanoseconds (mk_timespec 2 0)) woken /\
    Forall (fun x => nanoseconds (mk_timespec 2 0) < nanoseconds x.2) rest.
Proof.
  intros l. split; [done|].
  apply (sleep_timeouts_correct l (3, mk_timespec 2 0) (mk_timespec 2 0)).
  - by repeat constructor.
  - done.
  - by repeat constructor.
Defined.

(** One task acquires twice, another fails. *)
Lemma mutex_exclusion_witness :
  rtc mutex_step (mutex_init, []) (mk_mutex (Some 7) 2, [7; 7]) /\ (forall t, Some 7 = Some t <-> t ∈ [7; 7]).
Proof.
  assert (H : rtc mutex_step (mutex_init, []) (mk_mutex (Some 7) 2, [7; 7])).
  { eapply rtc_l; [by apply (step_acquire _ _ 7)|]. eapply rtc_l; [by apply (step_fail _ _ 8)|].
    eapply rtc_l; [by apply (step_acquire _ _ 7)|]. apply rtc_refl. }
  split; [exact H|]. apply (mutex_exclusion _ _ H).
Defined.

(** A reader, and a writer that waits. *)
Lemma ex_waiting :
  rtc (rwsem_step true) (rwsem_init, mk_holders [] [] []) (mk_rwsem 1 1 0 None, mk_holders [1] [] [2]).
Proof.
  eapply rtc_l; [by apply (step_read _ _ _ 1)|]. simpl.
  eapply rtc_l; [|apply rtc_refl].
  by apply (step_write_begin _ _ (mk_holders [1] [] []) 2 _ false).
Qed.

Lemma rwsem_exclusion_witness :
  rwsem_acquire_read (mk_rwsem 1 1 0 None) 3 = None /\ is_Some (rwsem_release_read (mk_rwsem 1 1 0 None) 1).
Proof.
  destruct (rwsem_exclusion _ _ _ ex_waiting) as (_ & _ & _ & _ & _ & _ & Hr & _ & Hw). split.
  - by apply Hw.
  - apply Hr. by left.
Defined.

(** A task acquires for writing, then for reading, and releases the write first and the
    read last.  It holds nothing any more, but it stays the active writer: no other task
    gets the semaphore again, for reading or for writing. *)
Theorem rwsem_release_order_stuck :
  exists r, rtc (rwsem_step false) (rwsem_init, mk_holders [] [] []) (r, mk_holders [] [] []) /\
    writer_active r = Some 1 /\
    forall t, t <> 1 -> rwsem_acquire_read r t = None /\
      rwsem_acquire_write_end (rwsem_acquire_write_begin r t).1 t = None.
Proof.
  exists (mk_rwsem 0 0 0 (Some 1)). split; [|split; [done|]].
  - eapply rtc_l; [by eapply (step_write_begin _ _ _ 1 _ false)|]. simpl.
    eapply rtc_l; [by eapply (step_write_end _ _ _ 1); [|left]|]. simpl.
    eapply rtc_l; [by eapply (step_read _ _ _ 1)|]. simpl.
    eapply rtc_l; [by eapply (step_release_write _ _ _ 1); [|left]|]. simpl.
    eapply rtc_l; [by eapply (step_release_read_writer _ _ _ 1); [|left|]|]. apply rtc_refl.
  - intros t Ht. unfold rwsem_acquire_read, rwsem_acquire_write_begin, is_writer. simpl.
    rewrite bool_decide_eq_false_2 by congruence. done.
Qed.

(** A reader that asks a second time while a writer waits: neither can go on. *)
Example rwsem_nested_read_deadlock :
  rwsem_acquire_read (mk_rwsem 1 1 0 None) 1 = None /\ rwsem_acquire_write_end (mk_rwsem 1 1 0 None) 2 = None.
Proof. done. Qed.

End Sync.
