(* ===== verification/Paging.v ===== *)
(** The page tables of x86_64 (kernel/arch/x86_64/paging.c, kernel/include/arch/mmu.h,
    kernel/include/arch/x86_64/paging.h).

    [tables] is the part of the physical memory that holds tables: a page and its entries,
    of which only those that are not 0 are kept.  [None] is an access to a page that is not
    a table, an index outside a page, a lock that is acquired twice or released by nobody, a
    failed [kassert].  A pointer to an entry is its page and its index; the mapping of the
    physical memory ([mmu_phys2virt], [mmu_hhdm2phys]) is the identity here.  [pool] are the
    pages that [pmm_allocate_page] gives next, [released] those given back, the last first.
    The locks of the pages are those of the second stage of the physical memory manager.
    The invalidation of translations is left out. *)

From S2P Require Import Prelude.

Module Paging.

Definition MMU_FLAG_PRESENT : Z := 1.
Definition MMU_FLAG_READ : Z := 2.
Definition MMU_FLAG_WRITE : Z := 4.
Definition MMU_FLAG_EXEC : Z := 8.
Definition MMU_FLAG_USER : Z := 16.
Definition MMU_FLAG_GLOBAL : Z := 32.
Definition MMU_FLAG_ACCESS : Z := 64.
Definition MMU_FLAG_DIRTY : Z := 128.
Definition MMU_FLAG_WRITE_COMBINE : Z := 256.
Definition MMU_FLAG_UNCACHED : Z := 512.

Definition PAGING_FLAG_PRESENT : Z := 1.
Definition PAGING_FLAG_WRITE : Z := 2.
Definition PAGING_FLAG_USER : Z := 4.
Definition PAGING_FLAG_PCD : Z := 16.
Definition PAGING_FLAG_ACCESS : Z := 32.
Definition PAGING_FLAG_DIRTY : Z := 64.
Definition PAGING_FLAG_PAT : Z := 128.
Definition PAGING_FLAG_GLOBAL : Z := 256.
Definition PAGING_FLAG_NO_EXE : Z := Z.shiftl 1 61.
Definition PAGING_FLAG_RW_CPL0 : Z := Z.lor PAGING_FLAG_PRESENT PAGING_FLAG_WRITE.
Definition PAGING_FLAG_RW_CPL3 : Z :=
  Z.lor (Z.lor PAGING_FLAG_PRESENT PAGING_FLAG_USER) PAGING_FLAG_WRITE.

(** Bits 12 to 51, and the flags that [mmu_entry_map_and_or_flags] keeps. *)
Definition PAGING_ENTRY_ADDRESS : Z := 2 ^ 52 - 2 ^ 12.
Definition PAGING_ENTRY_FLAGS : Z := Z.lor 0xfff (Z.shiftl 1 52).
Definition PAGING_ENTRIES_PER_LEVEL : Z := 512.
Definition PAGING_LEVEL_MAX : nat := 3.
Definition SHARED_PML4_ENTRIES_COUNT : Z := 256.

Definition PAGING_LEVEL_SHIFT (level : nat) : Z := 12 + 9 * Z.of_nat level.
Definition PAGING_LEVEL_INDEX (level : nat) (addr : Z) : Z :=
  Z.land (Z.shiftr addr (PAGING_LEVEL_SHIFT level)) 0x1ff.

(** ** Flags *)

(** [if (f & from) flags |= to]. *)
Definition flag_if (b : bool) (to flags : Z) : Z := if b then Z.lor flags to else flags.

Definition mmu2paging_flags (mmu_flags : Z) : Z :=
  let flags := 0 in
  let flags := flag_if (has mmu_flags MMU_FLAG_PRESENT) PAGING_FLAG_PRESENT flags in
  let flags := flag_if (has mmu_flags MMU_FLAG_WRITE) PAGING_FLAG_WRITE flags in
  let flags := flag_if (negb (has mmu_flags MMU_FLAG_EXEC)) PAGING_FLAG_NO_EXE flags in
  let flags := flag_if (has mmu_flags MMU_FLAG_USER) PAGING_FLAG_USER flags in
  let flags := flag_if (has mmu_flags MMU_FLAG_GLOBAL) PAGING_FLAG_GLOBAL flags in
  let flags := flag_if (has mmu_flags MMU_FLAG_WRITE_COMBINE) PAGING_FLAG_PAT flags in
  flag_if (has mmu_flags MMU_FLAG_UNCACHED) PAGING_FLAG_PCD flags.

Definition paging2mmu_flags (paging_flags : Z) : Z :=
  let flags := 0 in
  let flags := flag_if (has paging_flags PAGING_FLAG_PRESENT) (Z.lor MMU_FLAG_PRESENT MMU_FLAG_READ) flags in
  let flags := flag_if (has paging_flags PAGING_FLAG_WRITE) MMU_FLAG_WRITE flags in
  let flags := flag_if (negb (has paging_flags PAGING_FLAG_NO_EXE)) MMU_FLAG_EXEC flags in
  let flags := flag_if (has paging_flags PAGING_FLAG_USER) MMU_FLAG_USER flags in
  let flags := flag_if (has paging_flags PAGING_FLAG_ACCESS) MMU_FLAG_ACCESS flags in
  let flags := flag_if (has paging_flags PAGING_FLAG_DIRTY) MMU_FLAG_DIRTY flags in
  let flags := flag_if (has paging_flags PAGING_FLAG_PAT) MMU_FLAG_WRITE_COMBINE flags in
  flag_if (has paging_flags PAGING_FLAG_PCD) MMU_FLAG_UNCACHED flags.

Definition present (v : Z) : bool := has v PAGING_FLAG_PRESENT.

Definition mmu_entry_val_get_page (v : Z) : Z :=
  if present v then Z.land v PAGING_ENTRY_ADDRESS else PAGE_INVALID.

Definition mmu_entry_val_get_flags (v : Z) : Z :=
  if present v then paging2mmu_flags v else 0.

(** ** The memory of the tables *)

Record mem := mk_mem {
  tables : gmap Z (gmap Z Z);
  locks : gset Z;
  pool : list Z;
  released : list Z;
}.

Definition entry : Type := Z * Z.

Implicit Types (m : mem) (t : Z) (en : entry).

Definition load m en : option Z :=
  if (0 <=? en.2) && (en.2 <? PAGING_ENTRIES_PER_LEVEL)
  then tb ← tables m !! en.1; Some (default 0 (tb !! en.2))
  else None.

Definition set_table (tb : gmap Z Z) (i v : Z) : gmap Z Z :=
  if v =? 0 then delete i tb else <[i := v]> tb.

Definition store m en (v : Z) : option mem :=
  if (0 <=? en.2) && (en.2 <? PAGING_ENTRIES_PER_LEVEL)
  then tb ← tables m !! en.1;
       Some (mk_mem (<[en.1 := set_table tb en.2 v]> (tables m)) (locks m) (pool m) (released m))
  else None.

Definition pmm_acquire_page_lock m t : option mem :=
  if decide (t ∈ locks m) then None
  else Some (mk_mem (tables m) ({[t]} ∪ locks m) (pool m) (released m)).

Definition pmm_release_page_lock m t : option mem :=
  if decide (t ∈ locks m)
  then Some (mk_mem (tables m) (locks m ∖ {[t]}) (pool m) (released m))
  else None.

Definition mmu_entry_release_lock m en : option mem := pmm_release_page_lock m en.1.

Definition pmm_allocate_page m : mem * option Z :=
  match pool m with
  | [] => (m, None)
  | p :: l => (mk_mem (tables m) (locks m) l (released m), Some p)
  end.

(** [pmm_release_page] of a page that is not a table, and of a table. *)
Definition pmm_release_page m (p : Z) : mem :=
  mk_mem (tables m) (locks m) (pool m) (p :: released m).
Definition release_table m (p : Z) : mem :=
  mk_mem (delete p (tables m)) (locks m) (pool m) (p :: released m).

(** [memset] of a page with 0, after which it is an empty table. *)
Definition clear_page m t : mem :=
  mk_mem (<[t := ∅]> (tables m)) (locks m) (pool m) (released m).

(** ** Entries *)

Definition mmu_entry_map m en (paddr flags : Z) : option mem :=
  store m en (Z.lor (Z.land paddr PAGING_ENTRY_ADDRESS) (mmu2paging_flags flags)).

Definition mmu_entry_map_and_or_flags m en (paddr flags : Z) : option mem :=
  expected ← load m en;
  store m en (Z.lor (Z.lor (Z.land paddr PAGING_ENTRY_ADDRESS) (Z.land expected PAGING_ENTRY_FLAGS))
                (mmu2paging_flags flags)).

Definition mmu_entry_unmap m en : option (mem * Z) :=
  v ← load m en;
  m ← store m en 0;
  Some (m, v).

Definition mmu_entry_get_flags m en : option Z := v ← load m en; Some (mmu_entry_val_get_flags v).
Definition mmu_entry_get_page m en : option Z := v ← load m en; Some (mmu_entry_val_get_page v).

Definition mmu_entry_set_flags m en (flags : Z) : option (mem * Z) :=
  expected ← load m en;
  m ← store m en (Z.lor (Z.land expected PAGING_ENTRY_ADDRESS) (mmu2paging_flags flags));
  Some (m, expected).

Definition mmu_entry_or_flags m en (flags : Z) : option (mem * Z) :=
  v ← load m en;
  m ← store m en (Z.lor v (mmu2paging_flags flags));
  Some (m, v).

Definition mmu_entry_clear_flags m en (flags : Z) : option (mem * Z) :=
  v ← load m en;
  m ← store m en (Z.land v (Z.lnot (mmu2paging_flags flags)));
  Some (m, v).

(** ** Walks

    The inner option of a result is the pointer of the source, which can be null. *)

Fixpoint get_entry (level : nat) m t (vaddr : Z) : option (option entry) :=
  match level with
  | O => Some (Some (t, PAGING_LEVEL_INDEX 0 vaddr))
  | S l =>
      current ← load m (t, PAGING_LEVEL_INDEX level vaddr);
      if negb (present current) then Some None
      else get_entry l m (mmu_entry_val_get_page current) vaddr
  end.

Definition mmu_get_entry m (PML4 vaddr : Z) : option (option entry) :=
  get_entry PAGING_LEVEL_MAX m PML4 vaddr.

(** The loops of the functions that lock hand over hand: [t] is locked. *)
Fixpoint get_entry_locked (level : nat) m t (vaddr : Z) : option (mem * option entry) :=
  match level with
  | O => Some (m, Some (t, PAGING_LEVEL_INDEX 0 vaddr))
  | S l =>
      current ← load m (t, PAGING_LEVEL_INDEX level vaddr);
      if negb (present current) then m ← pmm_release_page_lock m t; Some (m, None)
      else
        let next := mmu_entry_val_get_page current in
        m ← pmm_acquire_page_lock m next;
        m ← pmm_release_page_lock m t;
        get_entry_locked l m next vaddr
  end.

Definition mmu_get_entry_and_acquire_lock m (PML4 vaddr : Z) : option (mem * option entry) :=
  m ← pmm_acquire_page_lock m PML4;
  get_entry_locked PAGING_LEVEL_MAX m PML4 vaddr.

(** The table below an entry, made when there is none. *)
Definition create_table m t (i : Z) : option (mem * option Z) :=
  current ← load m (t, i);
  if present current then Some (m, Some (mmu_entry_val_get_page current))
  else
    let '(m, page) := pmm_allocate_page m in
    match page with
    | None => Some (m, None)
    | Some page =>
        let current := Z.lor page PAGING_FLAG_RW_CPL3 in
        m ← store (clear_page m page) (t, i) current;
        Some (m, Some (mmu_entry_val_get_page current))
    end.

Fixpoint create_entry (level : nat) m t (vaddr : Z) : option (mem * option entry) :=
  match level with
  | O => Some (m, Some (t, PAGING_LEVEL_INDEX 0 vaddr))
  | S l =>
      '(m, next) ← create_table m t (PAGING_LEVEL_INDEX level vaddr);
      match next with
      | None => m ← pmm_release_page_lock m t; Some (m, None)
      | Some next =>
          m ← pmm_acquire_page_lock m next;
          m ← pmm_release_page_lock m t;
          create_entry l m next vaddr
      end
  end.

Definition mmu_create_entry_and_acquire_lock m (PML4 vaddr : Z) : option (mem * option entry) :=
  m ← pmm_acquire_page_lock m PML4;
  create_entry PAGING_LEVEL_MAX m PML4 vaddr.

(** The search of the next entry: the loop over the entries of a table, and the table
    below each ([sub]). *)
Fixpoint next_loop (level : nat) m t (sub : Z -> Z -> option (option (entry * Z))) (l : list Z)
    : option (option (entry * Z)) :=
  match l with
  | [] => Some None
  | i :: l =>
      current ← load m (t, i);
      if negb (present current) then next_loop level m t sub l
      else
        match level with
        | O => Some (Some ((t, i), Z.shiftl i (PAGING_LEVEL_SHIFT 0)))
        | S _ =>
            r ← sub (Z.land current PAGING_ENTRY_ADDRESS) i;
            match r with
            | None => next_loop level m t sub l
            | Some (en, vaddr) => Some (Some (en, vaddr +! Z.shiftl i (PAGING_LEVEL_SHIFT level)))
            end
        end
  end.

Fixpoint mmu_get_next_entry_helper (level : nat) m t (from : Z) : option (option (entry * Z)) :=
  let start := PAGING_LEVEL_INDEX level from in
  next_loop level m t
    (fun sub_table i =>
       match level with
       | O => None
       | S l => mmu_get_next_entry_helper l m sub_table (if i =? start then from else 0)
       end)
    (seqZ start (PAGING_ENTRIES_PER_LEVEL - start)).

Definition mmu_get_next_entry m (PML4 from : Z) : option (option (entry * Z)) :=
  mmu_get_next_entry_helper PAGING_LEVEL_MAX m PML4 from.

(** [old] is the entry of [old_vaddr], whose table is locked. *)
Definition mmu_create_next_entry_and_acquire_lock m (PML4 vaddr : Z) (old : option entry)
    (old_vaddr : Z) : option (mem * option entry) :=
  match old with
  | None => mmu_create_entry_and_acquire_lock m PML4 vaddr
  | Some old_entry =>
      if Z.land vaddr (PAGING_ENTRIES_PER_LEVEL * PAGE_SIZE) =?
         Z.land old_vaddr (PAGING_ENTRIES_PER_LEVEL * PAGE_SIZE)
      then
        if vaddr >? old_vaddr
        then Some (m, Some (old_entry.1, old_entry.2 + (vaddr - old_vaddr) / PAGE_SIZE))
        else Some (m, Some (old_entry.1, old_entry.2 - (old_vaddr - vaddr) / PAGE_SIZE))
      else
        m ← mmu_entry_release_lock m old_entry;
        mmu_create_entry_and_acquire_lock m PML4 vaddr
  end.

(** [mmu_foreach_entry_range]: [body] for each present entry up to [end_]. *)
Fixpoint foreach_entry_range (fuel : nat) (body : mem -> entry -> option mem) m (PML4 from end_ : Z)
    : option mem :=
  match fuel with
  | O => None
  | S fuel =>
      r ← mmu_get_next_entry m PML4 from;
      match r with
      | None => Some m
      | Some (en, vaddr) =>
          if vaddr <? end_ then
            m ← body m en;
            foreach_entry_range fuel body m PML4 (vaddr +! PAGE_SIZE) end_
          else Some m
      end
  end.

(** ** Ranges *)

(** A loop that unmaps each entry it meets ends after as many steps as there are entries,
    and one more. *)
Definition count_entries (tbs : gmap Z (gmap Z Z)) : nat := map_fold (fun _ tb n => (size tb + n)%nat) O tbs.
Definition unmap_fuel m : nat := S (count_entries (tables m)).

Definition aligned (a : Z) : bool := a mod PAGE_SIZE =? 0.

Definition mmu_unmap_pages m (PML4 vaddr size : Z) : option mem :=
  if negb (aligned vaddr && aligned size) then None
  else
    foreach_entry_range (unmap_fuel m)
      (fun m en => '(m, _) ← mmu_entry_unmap m en; Some m) m PML4 vaddr (vaddr +! size).

Definition mmu_unmap_and_release_pages m (PML4 vaddr size : Z) : option mem :=
  if negb (aligned vaddr && aligned size) then None
  else
    foreach_entry_range (unmap_fuel m)
      (fun m en =>
         '(m, value) ← mmu_entry_unmap m en;
         let page := mmu_entry_val_get_page value in
         Some (if page =? PAGE_INVALID then m else pmm_release_page m page))
      m PML4 vaddr (vaddr +! size).

(** The loop of [mmu_map_pages]; [n] pages are left. *)
Fixpoint map_pages_loop (n : nat) m (PML4 start vaddr paddr flags : Z) (old : option entry)
    : option (mem * res unit) :=
  match n with
  | O =>
      match old with
      | Some en => m ← mmu_entry_release_lock m en; Some (m, Ok tt)
      | None => Some (m, Ok tt)
      end
  | S n =>
      '(m, en) ← mmu_create_next_entry_and_acquire_lock m PML4 vaddr old (vaddr -! PAGE_SIZE);
      match en with
      | None => m ← mmu_unmap_pages m PML4 start (vaddr -! start); Some (m, Err ENOMEM)
      | Some en =>
          m ← mmu_entry_map m en paddr flags;
          map_pages_loop n m PML4 start (vaddr +! PAGE_SIZE) (paddr +! PAGE_SIZE) flags (Some en)
      end
  end.

Definition mmu_map_pages m (PML4 vaddr paddr size flags : Z) : option (mem * res unit) :=
  if negb (aligned vaddr && aligned size) then None
  else map_pages_loop (Z.to_nat (size / PAGE_SIZE)) m PML4 vaddr vaddr paddr flags None.

(** [mmu_allocate_and_map_pages], and [mmu_allocate_zero_and_map_pages] but for the
    contents of the pages. *)
Fixpoint allocate_and_map_loop (n : nat) m (PML4 start vaddr flags : Z) : option (mem * res unit) :=
  match n with
  | O => Some (m, Ok tt)
  | S n =>
      let '(m, page) := pmm_allocate_page m in
      match page with
      | None =>
          m ← mmu_unmap_and_release_pages m PML4 start (vaddr -! start);
          Some (m, Err ENOMEM)
      | Some page =>
          '(m, ret) ← mmu_map_pages m PML4 vaddr page PAGE_SIZE flags;
          match ret with
          | Err err =>
              m ← mmu_unmap_and_release_pages (pmm_release_page m page) PML4 start (vaddr -! start);
              Some (m, Err err)
          | Ok _ => allocate_and_map_loop n m PML4 start (vaddr +! PAGE_SIZE) flags
          end
      end
  end.

Definition mmu_allocate_and_map_pages m (PML4 vaddr size flags : Z) : option (mem * res unit) :=
  if negb (aligned vaddr && aligned size) then None
  else allocate_and_map_loop (Z.to_nat (size / PAGE_SIZE)) m PML4 vaddr vaddr flags.

Definition mmu_space_virt2phys m (PML4 address : Z) : option Z :=
  en ← mmu_get_entry m PML4 address;
  match en with
  | None => Some PAGE_INVALID
  | Some en =>
      v ← load m en;
      if present v
      then Some (Z.land v PAGING_ENTRY_ADDRESS + Z.land address 0xfff)
      else Some PAGE_INVALID
  end.

(** ** Spaces *)

(** [shared] are the entries of the upper half.  The test of the source is for page 0, not
    for [PAGE_INVALID], so a failed allocation goes on with a page that is no table. *)
Definition mmu_space_init m (shared : gmap Z Z) : option (mem * option Z) :=
  let '(m, page) := pmm_allocate_page m in
  match page with
  | None => None
  | Some p =>
      if p =? 0 then Some (m, None)
      else
        let upper := kmap (fun i => PAGING_ENTRIES_PER_LEVEL - SHARED_PML4_ENTRIES_COUNT + i) shared in
        Some (mk_mem (<[p := upper]> (tables m)) (locks m) (pool m) (released m), Some p)
  end.

(** The tables below a table, each released after those below it. *)
Fixpoint destroy_loop (sub : mem -> Z -> option mem) m t (l : list Z) : option mem :=
  match l with
  | [] => Some m
  | i :: l =>
      v ← load m (t, i);
      if negb (present v) then destroy_loop sub m t l
      else
        m ← sub m (Z.land v PAGING_ENTRY_ADDRESS);
        destroy_loop sub m t l
  end.

Fixpoint destroy_table (level : nat) m t : option mem :=
  match level with
  | O => Some (release_table m t)
  | S l => m ← destroy_loop (destroy_table l) m t (seqZ 0 PAGING_ENTRIES_PER_LEVEL); Some (release_table m t)
  end.

Definition mmu_space_destroy m (PML4 : Z) : option mem :=
  m ← destroy_loop (destroy_table 2) m PML4 (seqZ 0 (PAGING_ENTRIES_PER_LEVEL - SHARED_PML4_ENTRIES_COUNT));
  Some (release_table m PML4).


(** ** Addresses

    The walks see the 48 low bits of an address: the number of a page is [vpn], of which
    each level reads nine bits. *)

Definition vpn (v : Z) : Z := (v / PAGE_SIZE) mod 2 ^ 36.

(** The pages below an entry of a level. *)
Definition span (level : nat) : Z := 2 ^ (9 * Z.of_nat level).

(** The region a table of a level covers for a page. *)
Definition region (level : nat) (n : Z) : Z := n / span (S level).
Definition slot (level : nat) (n : Z) : Z := n / span level mod 512.

Lemma span_pos level : 0 < span level.
Proof. apply Z.pow_pos_nonneg; lia. Qed.

Lemma span_S level : span (S level) = 512 * span level.
Proof. unfold span. rewrite Nat2Z.inj_succ, Z.mul_succ_r, Z.pow_add_r by lia. lia. Qed.

Lemma slot_range level n : 0 <= slot level n < 512.
Proof. apply Z.mod_pos_bound. lia. Qed.

Lemma region_step level n : region level n = region (S level) n * 512 + slot (S level) n.
Proof.
  unfold region, slot. rewrite (span_S (S level)), (Z.mul_comm 512), <- Z.div_div by (pose proof (span_pos (S level)); lia).
  pose proof (Z.div_mod (n / span (S level)) 512). lia.
Qed.

Lemma region_0 n : n = region 0 n * 512 + slot 0 n.
Proof.
  unfold region, slot. rewrite span_S. change (span 0) with 1. rewrite Z.mul_1_r, Z.div_1_r.
  pose proof (Z.div_mod n 512). lia.
Qed.

(** The indices above the last level depend on the region only. *)
Lemma slot_region level n : slot (S level) n = region 0 n / span level mod 512.
Proof.
  unfold slot, region. rewrite !span_S. change (span 0) with 1. rewrite Z.mul_1_r.
  by rewrite Z.div_div by (pose proof (span_pos level); lia).
Qed.

Lemma index_slot level v : (level <= 3)%nat -> PAGING_LEVEL_INDEX level v = slot level (vpn v).
Proof.
  intros Hl. unfold PAGING_LEVEL_INDEX, slot, vpn, PAGING_LEVEL_SHIFT, span, PAGE_SIZE.
  rewrite (land_ones_mod _ 0x1ff 9), Z.shiftr_div_pow2 by lia. change (2 ^ 9) with 512.
  rewrite Z.pow_add_r, <- Z.div_div by (try lia; apply Z.pow_nonzero || apply Z.pow_pos_nonneg; lia).
  change (2 ^ 12) with 4096. set (k := 9 * Z.of_nat level).
  replace (2 ^ 36) with (2 ^ k * (512 * 2 ^ (27 - k))).
  2:{ change 512 with (2 ^ 9). rewrite <- !Z.pow_add_r by lia. f_equal. lia. }
  assert (0 < 2 ^ (27 - k)) by (apply Z.pow_pos_nonneg; lia).
  assert (0 < 2 ^ k) by (apply Z.pow_pos_nonneg; lia).
  rewrite Z.rem_mul_r, (Z.add_comm (_ mod _)), (Z.mul_comm (2 ^ k)), Z.div_add_l by lia.
  rewrite (Z.div_small (_ mod _)), Z.add_0_r by (apply Z.mod_pos_bound; lia).
  apply Znumtheory.Zmod_div_mod; [lia|lia|]. exists (2 ^ (27 - k)). lia.
Qed.

Lemma vpn_range v : 0 <= vpn v < 2 ^ 36.
Proof. apply Z.mod_pos_bound. lia. Qed.

Lemma vpn_small n : 0 <= n < 2 ^ 36 -> vpn (n * PAGE_SIZE) = n.
Proof. intros. unfold vpn, PAGE_SIZE. rewrite Z.div_mul, Z.mod_small by lia. done. Qed.

Lemma region_3 v : region 3 (vpn v) = 0.
Proof. apply Z.div_small, vpn_range. Qed.

Lemma region_eq_vpn v w :
  region 0 (vpn v) = region 0 (vpn w) -> slot 0 (vpn v) = slot 0 (vpn w) -> vpn v = vpn w.
Proof. intros H1 H2. rewrite (region_0 (vpn v)), (region_0 (vpn w)). lia. Qed.

(** ** Values of entries *)

Lemma has_true f b : has f b = true <-> Z.land f b <> 0.
Proof. unfold has. rewrite negb_true_iff, Z.eqb_neq. done. Qed.

(** A flag of one bit of a union. *)
Lemma has_lor f g b : has (Z.lor f g) b = has f b || has g b.
Proof.
  unfold has. rewrite Z.land_lor_distr_l. rewrite <- negb_andb. f_equal.
  destruct (Z.land f b =? 0) eqn:E1, (Z.land g b =? 0) eqn:E2; zbool;
    try (apply Z.eqb_eq; rewrite ?E1, ?E2; done);
    apply Z.eqb_neq; intros (? & ?)%Z.lor_eq_0_iff; done.
Qed.

Lemma has_land_disjoint f a b : Z.land a b = 0 -> has (Z.land f a) b = false.
Proof. intros H. unfold has. by rewrite <- Z.land_assoc, H, Z.land_0_r. Qed.

Lemma present_0 : present 0 = false.
Proof. done. Qed.

(** An entry that points to a table. *)
Lemma table_entry p :
  p mod 4096 = 0 -> 0 <= p < 2 ^ 52 ->
  present (Z.lor p PAGING_FLAG_RW_CPL3) = true /\
  Z.land (Z.lor p PAGING_FLAG_RW_CPL3) PAGING_ENTRY_ADDRESS = p /\
  Z.lor p PAGING_FLAG_RW_CPL3 <> 0.
Proof.
  intros Hp Hr. split_and!.
  - unfold present. rewrite has_lor. by rewrite orb_true_r.
  - rewrite Z.land_lor_distr_l. change (Z.land PAGING_FLAG_RW_CPL3 PAGING_ENTRY_ADDRESS) with 0.
    rewrite Z.lor_0_r. change PAGING_ENTRY_ADDRESS with (Z.ldiff (Z.ones 52) (Z.ones 12)).
    apply Z.bits_inj'. intros i Hi. rewrite Z.land_spec, Z.ldiff_spec, !Z.testbit_ones_nonneg by lia.
    destruct (decide (i < 12)).
    + rewrite (Z.div_mod p 4096), Hp, Z.add_0_r, Z.mul_comm by lia. change 4096 with (2 ^ 12).
      by rewrite Z.mul_pow2_bits_low.
    + destruct (decide (i < 52)).
      * rewrite (proj2 (Z.ltb_lt _ _)), (proj2 (Z.ltb_ge i 12)) by lia. by rewrite andb_true_r.
      * rewrite (testbit_high p 52) by lia. done.
  - intros (_ & ?)%Z.lor_eq_0_iff. done.
Qed.

(** ** What a space maps *)

(** The entry of an address below a table; 0 where there is none. *)
Fixpoint look (level : nat) m t (n : Z) : Z :=
  match level with
  | O => default 0 (load m (t, slot 0 n))
  | S l =>
      match load m (t, slot level n) with
      | Some v => if present v then look l m (Z.land v PAGING_ENTRY_ADDRESS) n else 0
      | None => 0
      end
  end.

(** The entry that an address has in a space. *)
Definition lookup m (PML4 v : Z) : Z := look PAGING_LEVEL_MAX m PML4 (vpn v).

(** [own] gives each table of a space its level and the region it covers. *)
Record wf (own : gmap Z (nat * Z)) m (PML4 : Z) : Prop := {
  wf_root : own !! PML4 = Some (3%nat, 0);
  wf_table : forall t x, own !! t = Some x -> is_Some (tables m !! t);
  wf_inj : forall t t' x, own !! t = Some x -> own !! t' = Some x -> t = t';
  wf_child : forall t l p i v, own !! t = Some (S l, p) -> load m (t, i) = Some v -> present v = true ->
    own !! (Z.land v PAGING_ENTRY_ADDRESS) = Some (l, p * 512 + i);
  wf_parent : forall t l p, own !! t = Some (l, p) ->
    t = PML4 \/ exists t' v, own !! t' = Some (S l, p / 512) /\ load m (t', p mod 512) = Some v /\
      present v = true /\ Z.land v PAGING_ENTRY_ADDRESS = t;
  wf_pool_nodup : NoDup (pool m);
  wf_pool : forall p, p ∈ pool m -> tables m !! p = None /\ p mod 4096 = 0 /\ 0 <= p < 2 ^ 52;
}.

Lemma load_table m t i : is_Some (tables m !! t) -> 0 <= i < 512 -> is_Some (load m (t, i)).
Proof.
  intros (tb & E) Hi. unfold load, PAGING_ENTRIES_PER_LEVEL. simpl. rewrite E, (proj2 (Z.leb_le 0 i)), (proj2 (Z.ltb_lt i 512)) by lia.
  by eexists.
Qed.

Lemma load_Some m t i v : load m (t, i) = Some v -> 0 <= i < 512 /\ is_Some (tables m !! t).
Proof.
  unfold load, PAGING_ENTRIES_PER_LEVEL. simpl. case_if; [|done]. destruct (tables m !! t); [|done]. done.
Qed.

Lemma load_tables m m' en : tables m !! en.1 = tables m' !! en.1 -> load m en = load m' en.
Proof. unfold load. by intros ->. Qed.

(** What a write changes. *)
Lemma store_spec m en v :
  is_Some (load m en) ->
  exists m', store m en v = Some m' /\ load m' en = Some v /\
    (forall en', en' <> en -> load m' en' = load m en') /\
    (forall t, is_Some (tables m' !! t) <-> is_Some (tables m !! t)) /\
    (forall t, t <> en.1 -> tables m' !! t = tables m !! t) /\
    locks m' = locks m /\ pool m' = pool m /\ released m' = released m.
Proof.
  destruct en as [t i]. intros (v0 & Hl). destruct (load_Some _ _ _ _ Hl) as (Hi & tb & Ht).
  unfold store. simpl. rewrite Ht, (proj2 (Z.leb_le 0 i)), (proj2 (Z.ltb_lt i _)) by (unfold PAGING_ENTRIES_PER_LEVEL; lia).
  eexists. split; [done|]. cbn [tables locks pool released]. unfold load. cbn [tables].
  split_and!; try done.
  - simpl. rewrite (proj2 (Z.leb_le 0 i)), (proj2 (Z.ltb_lt i _)) by (unfold PAGING_ENTRIES_PER_LEVEL; lia).
    simpl. rewrite lookup_insert_eq. simpl. unfold set_table. destruct (v =? 0) eqn:E; zbool.
    + by rewrite lookup_delete_eq, E.
    + by rewrite lookup_insert_eq.
  - intros [t' i'] Hne. simpl. destruct (decide (t' = t)) as [->|Hn]; [|by rewrite lookup_insert_ne].
    rewrite lookup_insert_eq, Ht. simpl. assert (i' <> i) by congruence. unfold set_table.
    destruct (v =? 0); [by rewrite lookup_delete_ne|by rewrite lookup_insert_ne].
  - intros t'. destruct (decide (t' = t)) as [->|Hn]; [|by rewrite lookup_insert_ne].
    rewrite lookup_insert_eq, Ht. split; by eexists.
  - intros t' Hn. by rewrite lookup_insert_ne.
Qed.

Section wf.
Context (own : gmap Z (nat * Z)) (PML4 : Z).

(** A walk from a table of the space ends in a table of the last level, or stops. *)
Lemma get_entry_spec m l t v :
  wf own m PML4 -> own !! t = Some (l, region l (vpn v)) -> (l <= 3)%nat ->
  (get_entry l m t v = Some None /\ look l m t (vpn v) = 0) \/
  exists t0, get_entry l m t v = Some (Some (t0, slot 0 (vpn v))) /\
    own !! t0 = Some (O, region 0 (vpn v)) /\ load m (t0, slot 0 (vpn v)) = Some (look l m t (vpn v)).
Proof.
  intros Hwf. revert t. induction l as [|l IH]; intros t Ht Hl.
  - right. exists t. cbn [get_entry look]. rewrite index_slot by lia. split_and!; try done.
    destruct (load_table m t (slot 0 (vpn v))) as (x & ->); [by eapply wf_table|apply slot_range|done].
  - cbn [get_entry look]. rewrite index_slot by done.
    destruct (load_table m t (slot (S l) (vpn v))) as (x & E); [by eapply wf_table|apply slot_range|].
    rewrite E. cbn [mbind option_bind]. destruct (present x) eqn:Ep; simpl; [|by left].
    unfold mmu_entry_val_get_page. rewrite Ep. apply IH; [|lia].
    rewrite region_step. by eapply wf_child.
Qed.

(** Addresses of the same region share the table of the last level. *)
Lemma get_entry_region m l t v w t0 i :
  region 0 (vpn v) = region 0 (vpn w) -> (l <= 3)%nat -> get_entry l m t v = Some (Some (t0, i)) ->
  get_entry l m t w = Some (Some (t0, slot 0 (vpn w))).
Proof.
  intros Hr. revert t. induction l as [|l IH]; intros t Hl; cbn [get_entry].
  - intros [= -> _]. by rewrite index_slot by lia.
  - assert (Hs : PAGING_LEVEL_INDEX (S l) v = PAGING_LEVEL_INDEX (S l) w).
    { rewrite !index_slot by done. by rewrite !slot_region, Hr. }
    rewrite Hs. destruct (load m _) as [x|]; [|done]. cbn [mbind option_bind].
    destruct (present x); [|done]. simpl. apply IH. lia.
Qed.

End wf.

(** ** Writing the entry of an address *)

Lemma wf_level own m PML4 t l p : wf own m PML4 -> own !! t = Some (l, p) -> is_Some (tables m !! t).
Proof. intros H. apply (wf_table _ _ _ H). Qed.


Section write.
Context (own : gmap Z (nat * Z)) (PML4 : Z).

(** The table of the last level that a walk reaches. *)
Lemma get_entry_frame m m' l t v :
  wf own m PML4 -> own !! t = Some (l, region l (vpn v)) -> (l <= 3)%nat ->
  (forall t' l' p i, own !! t' = Some (S l', p) -> load m' (t', i) = load m (t', i)) ->
  get_entry l m' t v = get_entry l m t v.
Proof.
  intros Hwf Ht Hl Hsame. revert t Ht. induction l as [|l IH]; intros t Ht; [done|]. cbn [get_entry].
  rewrite (Hsame _ _ _ _ Ht), index_slot by done.
  destruct (load m (t, slot (S l) (vpn v))) as [x|] eqn:E; [|done]. cbn [mbind option_bind].
  destruct (present x) eqn:Ep; [|done]. simpl. apply IH; [lia|].
  unfold mmu_entry_val_get_page. rewrite Ep, region_step. by eapply wf_child.
Qed.

Lemma lookup_get_entry m v :
  wf own m PML4 ->
  lookup m PML4 v = match mmu_get_entry m PML4 v with Some (Some en) => default 0 (load m en) | _ => 0 end.
Proof.
  intros Hwf. unfold lookup, mmu_get_entry, PAGING_LEVEL_MAX.
  destruct (get_entry_spec own PML4 m 3 PML4 v Hwf) as [(-> & ->)|(t0 & -> & _ & E)]; try done.
  - by rewrite region_3, (wf_root _ _ _ Hwf).
  - by rewrite E.
Qed.

(** Writing the entry of an address changes what that page is mapped to, and nothing else. *)
Lemma store_leaf m v t0 i x :
  wf own m PML4 -> mmu_get_entry m PML4 v = Some (Some (t0, i)) ->
  exists m', store m (t0, i) x = Some m' /\ wf own m' PML4 /\
    (forall w, mmu_get_entry m' PML4 w = mmu_get_entry m PML4 w) /\
    (forall w, lookup m' PML4 w = if decide (vpn w = vpn v) then x else lookup m PML4 w) /\
    locks m' = locks m /\ pool m' = pool m /\ released m' = released m.
Proof.
  intros Hwf Hget. pose proof (region_3 v) as H3.
  destruct (get_entry_spec own PML4 m 3 PML4 v Hwf) as [(E & _)|(t1 & E & Ho & El)]; try done;
    [by rewrite H3, (wf_root _ _ _ Hwf)|unfold mmu_get_entry, PAGING_LEVEL_MAX in Hget; congruence|].
  unfold mmu_get_entry, PAGING_LEVEL_MAX in Hget. rewrite E in Hget. injection Hget as -> <-.
  destruct (store_spec m (t0, slot 0 (vpn v)) x) as (m' & Es & Hv & Hne & Hdom & Ht & Hlk & Hpo & Hre); [by rewrite El|].
  exists m'. split; [done|].
  assert (Hup : forall t' l' p j, own !! t' = Some (S l', p) -> load m' (t', j) = load m (t', j)).
  { intros t' l' p j Hown. apply Hne. intros [= -> _]. congruence. }
  assert (Hwf' : wf own m' PML4).
  { destruct Hwf as [W1 W2 W3 W4 Wp W5 W6]. constructor; try done.
    - intros t y Hy. by apply Hdom, (W2 t y).
    - intros t l p j y Hy. rewrite (Hup _ _ _ _ Hy). by apply W4.
    - intros t l p [->|(t' & y & Hy & Hy')]%Wp; [by left|]. right. exists t', y. by rewrite (Hup _ _ _ _ Hy).
    - by rewrite Hpo.
    - rewrite Hpo. intros p Hp. destruct (W6 p Hp) as (Hnone & ?). split; [|done].
      destruct (tables m' !! p) eqn:Et; [|done]. assert (is_Some (tables m !! p)) as [? ?] by (apply Hdom; by rewrite Et).
      congruence. }
  assert (Hge : forall w, mmu_get_entry m' PML4 w = mmu_get_entry m PML4 w).
  { intros w. apply get_entry_frame; try done. by rewrite region_3, (wf_root _ _ _ Hwf). }
  split_and!; try done. intros w. rewrite !lookup_get_entry, Hge by done.
  destruct (get_entry_spec own PML4 m 3 PML4 w Hwf) as [(Ew & _)|(t2 & Ew & Ho2 & El2)]; try done;
    [by rewrite region_3, (wf_root _ _ _ Hwf)| |]; unfold mmu_get_entry, PAGING_LEVEL_MAX; rewrite Ew.
  - destruct (decide (vpn w = vpn v)) as [Hvw|]; [|done].
    apply (get_entry_region m 3 PML4 v w) in E; [congruence|by rewrite Hvw|done].
  - destruct (decide (vpn w = vpn v)) as [Hvw|Hvw].
    + rewrite Hvw in *. assert (t2 = t0) as -> by (by eapply (wf_inj _ _ _ Hwf)). by rewrite Hv.
    + rewrite Hne; [done|]. intros [= -> Hs]. apply Hvw. apply region_eq_vpn; [|done]. congruence.
Qed.

End write.

(** ** Making the tables of an address *)

(** The pages taken from the pool are exactly the new tables of the space. *)
Definition taken (own own' : gmap Z (nat * Z)) m m' : Prop :=
  exists k, pool m = k ++ pool m' /\ forall p, is_Some (own' !! p) <-> is_Some (own !! p) \/ p ∈ k.

Lemma taken_refl own m m' : pool m = pool m' -> taken own own m m'.
Proof. intros E. exists []. split; [done|]. intros p. set_solver. Qed.

Lemma taken_trans own1 own2 own3 m1 m2 m3 :
  taken own1 own2 m1 m2 -> taken own2 own3 m2 m3 -> taken own1 own3 m1 m3.
Proof.
  intros (k1 & E1 & H1) (k2 & E2 & H2). exists (k1 ++ k2). rewrite E1, E2, app_assoc. split; [done|].
  intros p. rewrite H2, H1, elem_of_app. tauto.
Qed.

(** [m'] is [m] with more tables: what is mapped is the same, present entries stay. *)
Record grown (own own' : gmap Z (nat * Z)) m m' (PML4 : Z) : Prop := {
  gr_own : own ⊆ own';
  gr_wf : wf own' m' PML4;
  gr_look : forall l t n, own !! t = Some (l, region l n) -> look l m' t n = look l m t n;
  gr_load : forall en v, load m en = Some v -> present v = true -> load m' en = Some v;
  gr_pool : taken own own' m m';
  gr_released : released m' = released m;
}.

Lemma grown_refl own m PML4 : wf own m PML4 -> grown own own m m PML4.
Proof. constructor; try done. by apply taken_refl. Qed.

Lemma grown_trans own1 own2 own3 m1 m2 m3 PML4 :
  grown own1 own2 m1 m2 PML4 -> grown own2 own3 m2 m3 PML4 -> grown own1 own3 m1 m3 PML4.
Proof.
  intros [A1 A2 A3 A4 A5 A6] [B1 B2 B3 B4 B5 B6]. constructor; try done.
  - by etrans.
  - intros l t n H. rewrite B3, A3; [done|done|by eapply lookup_weaken].
  - auto.
  - by eapply taken_trans.
  - by rewrite B6.
Qed.

Lemma grown_lookup own own' m m' PML4 v :
  grown own own' m m' PML4 -> wf own m PML4 -> lookup m' PML4 v = lookup m PML4 v.
Proof. intros G Hwf. apply (gr_look _ _ _ _ _ G). by rewrite region_3, (wf_root _ _ _ Hwf). Qed.

Lemma grown_locks own own' m m' PML4 k :
  grown own own' m m' PML4 -> grown own own' m (mk_mem (tables m') k (pool m') (released m')) PML4.
Proof.
  assert (Hload : forall en, load (mk_mem (tables m') k (pool m') (released m')) en = load m' en) by done.
  assert (Hlook : forall l t n, look l (mk_mem (tables m') k (pool m') (released m')) t n = look l m' t n).
  { induction l as [|l IH]; intros t n; [done|]. cbn [look]. rewrite Hload. destruct (load m' _); [by rewrite IH|done]. }
  intros [A1 [] A3 A4 A5 A6]. constructor; try done. intros. rewrite Hlook. auto.
Qed.

Lemma look_empty m t l n : tables m !! t = Some ∅ -> look l m t n = 0.
Proof.
  intros H. assert (Hl : forall i, 0 <= i < 512 -> load m (t, i) = Some 0).
  { intros i Hi. unfold load, PAGING_ENTRIES_PER_LEVEL. simpl.
    rewrite H, (proj2 (Z.leb_le 0 i)), (proj2 (Z.ltb_lt i 512)) by lia. simpl. by rewrite lookup_empty. }
  destruct l; cbn [look]; rewrite Hl by apply slot_range; done.
Qed.

Section create.
Context (PML4 : Z).

(** An address whose table is missing gets one. *)
Lemma new_table_spec own m t l n page rest m' :
  wf own m PML4 -> own !! t = Some (S l, region (S l) n) -> pool m = page :: rest ->
  (forall v, load m (t, slot (S l) n) = Some v -> present v = false) ->
  (l < 3)%nat ->
  store (clear_page (mk_mem (tables m) (locks m) rest (released m)) page) (t, slot (S l) n)
    (Z.lor page PAGING_FLAG_RW_CPL3) = Some m' ->
  grown own (<[page := (l, region l n)]> own) m m' PML4 /\
  load m' (t, slot (S l) n) = Some (Z.lor page PAGING_FLAG_RW_CPL3) /\ locks m' = locks m.
Proof.
  intros Hwf Ht Hpool Habs Hl3 Hst.
  destruct (wf_pool _ _ _ Hwf page) as (Hfree & Hal & Hrange); [rewrite Hpool; by left|].
  destruct (table_entry page Hal Hrange) as (Hpr & Had & _).
  assert (Hno : own !! page = None).
  { destruct (own !! page) eqn:E; [|done]. destruct (wf_table _ _ _ Hwf _ _ E). congruence. }
  assert (Htp : t <> page) by congruence.
  set (m0 := clear_page _ _) in Hst. assert (Hm0 : tables m0 = <[page := ∅]> (tables m)) by done.
  assert (Hl0 : forall en, en.1 <> page -> load m0 en = load m en).
  { intros en Hen. apply load_tables. by rewrite Hm0, lookup_insert_ne by done. }
  destruct (store_spec m0 (t, slot (S l) n) (Z.lor page PAGING_FLAG_RW_CPL3)) as
    (m1 & E1 & Hv & Hne & Hdom & Htab & Hlk & Hpo & Hre).
  { rewrite Hl0 by done. apply load_table; [by eapply wf_table|apply slot_range]. }
  rewrite Hst in E1. injection E1 as <-.
  assert (Hload : forall en, en.1 <> page -> en <> (t, slot (S l) n) -> load m' en = load m en).
  { intros en H1 H2. by rewrite Hne, Hl0. }
  assert (Hpage : tables m' !! page = Some ∅).
  { rewrite Htab by done. by rewrite Hm0, lookup_insert_eq. }
  assert (Hpage0 : forall i v, load m' (page, i) = Some v -> v = 0).
  { intros i v Hlv. destruct (load_Some _ _ _ _ Hlv) as (Hi & _). revert Hlv. unfold load. case_if; [|done].
    simpl. rewrite Hpage. simpl. rewrite lookup_empty. by intros [= <-]. }
  assert (Hkey : forall t', own !! t' = Some (l, region l n) -> False).
  { intros t' H'. destruct (wf_parent _ _ _ Hwf _ _ _ H') as [->|(t2 & v & H2 & Hlv & Hp & _)].
    - rewrite (wf_root _ _ _ Hwf) in H'. injection H' as <- _. lia.
    - rewrite region_step in H2, Hlv. pose proof (slot_range (S l) n).
      rewrite Z.div_add_l, Z.div_small, Z.add_0_r in H2 by lia.
      rewrite Z.add_comm, Z.mod_add, Z.mod_small in Hlv by lia.
      rewrite (wf_inj _ _ _ Hwf _ _ _ H2 Ht) in Hlv. rewrite (Habs _ Hlv) in Hp. done. }
  split; [|done]. constructor.
  - by apply insert_subseteq.
  - constructor.
    + rewrite lookup_insert_ne by (intros ->; rewrite (wf_root _ _ _ Hwf) in Hno; done). apply (wf_root _ _ _ Hwf).
    + intros t' x. destruct (decide (t' = page)) as [->|Hn]; [rewrite Hpage; by eexists|].
      rewrite lookup_insert_ne by done. intros Hx. apply Hdom. rewrite Hm0, lookup_insert_ne by done.
      by eapply wf_table.
    + intros t1 t2 x. destruct (decide (t1 = page)) as [->|H1], (decide (t2 = page)) as [->|H2];
        rewrite ?lookup_insert_eq, ?lookup_insert_ne by done; try done.
      * intros [= <-] H. by apply Hkey in H.
      * intros H [= <-]. by apply Hkey in H.
      * by apply (wf_inj _ _ _ Hwf).
    + intros t1 l1 p i v. destruct (decide (t1 = page)) as [->|H1].
      { intros _ Hlv Hp. rewrite (Hpage0 _ _ Hlv) in Hp. done. }
      rewrite lookup_insert_ne by done. intros H Hlv Hp.
      destruct (decide ((t1, i) = (t, slot (S l) n))) as [[= -> ->]|Hn].
      * rewrite Hv in Hlv. injection Hlv as <-. rewrite Had, lookup_insert_eq.
        rewrite Ht in H. injection H as <- <-. by rewrite region_step.
      * rewrite Hload in Hlv by done. rewrite lookup_insert_ne; [by eapply wf_child|].
        intros Hpg. pose proof (wf_child _ _ _ Hwf _ _ _ _ _ H Hlv Hp) as Hc. rewrite <- Hpg in Hc. congruence.
    + intros t1 l1 p. destruct (decide (t1 = page)) as [->|H1].
      { rewrite lookup_insert_eq. intros [= <- <-]. right. exists t, (Z.lor page PAGING_FLAG_RW_CPL3).
        rewrite lookup_insert_ne, region_step by done. pose proof (slot_range (S l) n).
        rewrite Z.div_add_l, Z.div_small, Z.add_0_r by lia.
        by rewrite Z.add_comm, Z.mod_add, Z.mod_small by lia. }
      rewrite lookup_insert_ne by done. intros H.
      destruct (wf_parent _ _ _ Hwf _ _ _ H) as [->|(t2 & v & H2 & Hlv & Hp & Hpt)]; [by left|].
      right. exists t2, v. assert (t2 <> page) by congruence. rewrite lookup_insert_ne by done.
      split; [done|]. rewrite Hload; [done|done|]. intros [= -> Hs]. rewrite Hs in Hlv.
      rewrite (Habs _ Hlv) in Hp. done.
    + rewrite Hpo. change (pool m0) with rest. pose proof (wf_pool_nodup _ _ _ Hwf) as Hnd. rewrite Hpool in Hnd. by apply NoDup_cons in Hnd as [_ ?].
    + rewrite Hpo. change (pool m0) with rest. intros p Hp. destruct (wf_pool _ _ _ Hwf p) as (Hf & ?); [rewrite Hpool; by right|].
      split; [|done]. assert (p <> page).
      { intros ->. pose proof (wf_pool_nodup _ _ _ Hwf) as Hnd. rewrite Hpool in Hnd. by apply NoDup_cons in Hnd as [? _]. }
      assert (p <> t). { intros ->. destruct (wf_table _ _ _ Hwf _ _ Ht). congruence. }
      rewrite Htab by done. by rewrite Hm0, lookup_insert_ne.
  - intros l1 t1. revert t1. induction l1 as [|l1 IH]; intros t1 n1 H1; cbn [look].
    + rewrite Hload; [done|simpl; congruence|]. intros [= -> _]. congruence.
    + assert (t1 <> page) by congruence.
      destruct (decide ((t1, slot (S l1) n1) = (t, slot (S l) n))) as [[= -> Hs]|Hn].
      * rewrite Ht in H1. injection H1 as -> Hr. rewrite Hs, Hv, Hpr, Had, look_empty by done.
        destruct (load m _) as [v|]; [|done]. by rewrite (Habs _ eq_refl).
      * rewrite Hload by done. destruct (load m (t1, slot (S l1) n1)) as [v|] eqn:E; [|done].
        destruct (present v) eqn:Ep; [|done]. apply IH. rewrite region_step. by eapply wf_child.
  - intros en v Hlv Hp. rewrite Hload; [done| |].
    + intros E. destruct en as [t1 i]. simpl in E. subst t1. apply load_Some in Hlv as (_ & ? & ?). congruence.
    + intros ->. rewrite (Habs _ Hlv) in Hp. done.
  - exists [page]. rewrite Hpo, Hpool. split; [done|]. intros p. rewrite list_elem_of_singleton.
    destruct (decide (p = page)) as [->|Hn]; [rewrite lookup_insert_eq; naive_solver|].
    rewrite lookup_insert_ne by done. naive_solver.
  - by rewrite Hre.
Qed.

Lemma create_table_spec own m t l n :
  wf own m PML4 -> own !! t = Some (S l, region (S l) n) -> (l < 3)%nat ->
  exists own' m' r, create_table m t (slot (S l) n) = Some (m', r) /\ grown own own' m m' PML4 /\
    locks m' = locks m /\
    match r with
    | None => pool m = []
    | Some next => own' !! next = Some (l, region l n) /\
        exists v, load m' (t, slot (S l) n) = Some v /\ present v = true /\ Z.land v PAGING_ENTRY_ADDRESS = next
    end.
Proof.
  intros Hwf Ht Hl. unfold create_table.
  destruct (load_table m t (slot (S l) n)) as (v & E); [by eapply wf_table|apply slot_range|].
  rewrite E. cbn [mbind option_bind]. destruct (present v) eqn:Ep.
  - unfold mmu_entry_val_get_page. rewrite Ep. exists own, m. eexists. split; [done|].
    split; [by apply grown_refl|]. split; [done|]. split; [|by exists v].
    rewrite region_step. by eapply wf_child.
  - unfold pmm_allocate_page. destruct (pool m) as [|page rest] eqn:Epool.
    { exists own, m, None. split; [done|]. split; [by apply grown_refl|]. by split. }
    destruct (wf_pool _ _ _ Hwf page) as (Hfree & Hal & Hrange); [rewrite Epool; by left|].
    destruct (table_entry page Hal Hrange) as (Hpr & Had & _).
    set (m0 := clear_page _ _).
    destruct (store_spec m0 (t, slot (S l) n) (Z.lor page PAGING_FLAG_RW_CPL3)) as (m1 & E1 & _).
    { apply load_table; [|apply slot_range]. simpl. destruct (wf_table _ _ _ Hwf _ _ Ht) as (tb & Htb).
      rewrite lookup_insert_ne by congruence. by rewrite Htb. }
    destruct (new_table_spec own m t l n page rest m1) as (G & Hv & Hlk); try done.
    { intros v' Hv'. rewrite E in Hv'. by injection Hv' as <-. }
    rewrite E1. cbn [mbind option_bind]. unfold mmu_entry_val_get_page. rewrite Hpr, Had.
    eexists _, _, _. split; [done|]. split; [exact G|]. split; [done|].
    rewrite lookup_insert_eq. split; [done|]. by exists (Z.lor page PAGING_FLAG_RW_CPL3).
Qed.

(** Locks are handed over from a table to the next one. *)
Lemma hand_over m t next :
  locks m = {[t]} -> next <> t ->
  exists m', (m ← pmm_acquire_page_lock m next; pmm_release_page_lock m t) = Some m' /\
    m' = mk_mem (tables m) {[next]} (pool m) (released m).
Proof.
  intros Hk Hne. unfold pmm_acquire_page_lock. rewrite decide_False by (rewrite Hk; set_solver).
  cbn [mbind option_bind]. unfold pmm_release_page_lock. cbn [locks tables pool released].
  rewrite decide_True by (rewrite Hk; set_solver). eexists. split; [done|]. f_equal. rewrite Hk. set_solver.
Qed.

Lemma create_entry_spec own m l t v :
  wf own m PML4 -> own !! t = Some (l, region l (vpn v)) -> (l <= 3)%nat -> locks m = {[t]} ->
  exists own' m' r, create_entry l m t v = Some (m', r) /\ grown own own' m m' PML4 /\
    match r with
    | None => locks m' = ∅
    | Some en => locks m' = {[en.1]} /\ get_entry l m' t v = Some (Some en)
    end.
Proof.
  revert own m t. induction l as [|l IH]; intros own m t Hwf Ht Hl Hk.
  - exists own, m. eexists. split; [done|]. split; [by apply grown_refl|]. by rewrite Hk.
  - cbn [create_entry]. rewrite index_slot by done.
    destruct (create_table_spec own m t l (vpn v) Hwf Ht) as (own1 & m1 & r & -> & G & Hk1 & Hr); [lia|].
    cbn [mbind option_bind]. destruct r as [next|].
    + destruct Hr as (Hn & x & Hx & Hp & Ha).
      destruct (hand_over m1 t next) as (m2 & E2 & ->); [by rewrite Hk1|..].
      { intros ->. rewrite (lookup_weaken _ _ _ _ Ht (gr_own _ _ _ _ _ G)) in Hn.
        injection Hn as H _. lia. }
      destruct (pmm_acquire_page_lock m1 next) as [m3|]; [|done]. cbn [mbind option_bind] in E2 |- *.
      rewrite E2. cbn [mbind option_bind]. apply (grown_locks _ _ _ _ _ {[next]}) in G.
      destruct (IH own1 (mk_mem (tables m1) {[next]} (pool m1) (released m1)) next) as (own2 & m4 & r & -> & G' & Hr');
        [apply (gr_wf _ _ _ _ _ G)|done|lia|done|].
      exists own2, m4, r. split; [done|]. split; [by eapply grown_trans|]. destruct r as [en|]; [|done].
      destruct Hr' as (? & Hg). split; [done|]. cbn [get_entry]. rewrite index_slot by done.
      rewrite (gr_load _ _ _ _ _ G' _ _ Hx Hp). cbn [mbind option_bind].
      unfold mmu_entry_val_get_page. by rewrite Hp, Ha.
    + unfold pmm_release_page_lock. rewrite decide_True by (rewrite Hk1, Hk; set_solver). cbn [mbind option_bind].
      eexists own1, _, None. split; [done|]. split; [by apply grown_locks|]. simpl. rewrite Hk1, Hk. set_solver.
Qed.

(** The entry of an address, with its lock, or the pool is exhausted and no lock is held. *)
Lemma mmu_create_entry_spec own m v :
  wf own m PML4 -> locks m = ∅ ->
  exists own' m' r, mmu_create_entry_and_acquire_lock m PML4 v = Some (m', r) /\ grown own own' m m' PML4 /\
    match r with
    | None => locks m' = ∅
    | Some en => locks m' = {[en.1]} /\ mmu_get_entry m' PML4 v = Some (Some en)
    end.
Proof.
  intros Hwf Hk. unfold mmu_create_entry_and_acquire_lock, pmm_acquire_page_lock.
  rewrite decide_False by (rewrite Hk; set_solver). cbn [mbind option_bind]. rewrite Hk, union_empty_r_L.
  set (m0 := mk_mem _ _ _ _). pose proof (grown_locks _ _ _ _ _ {[PML4]} (grown_refl _ _ _ Hwf)) as G0.
  destruct (create_entry_spec own m0 3 PML4 v) as (own' & m' & r & E & G & Hr);
    [apply (gr_wf _ _ _ _ _ G0)|by rewrite region_3, (wf_root _ _ _ Hwf)|done|done|].
  exists own', m', r. split; [done|]. split; [by eapply grown_trans|done].
Qed.

End create.

(** ** Searching *)

Lemma slot_add l' l i k : (l' <= l)%nat -> slot l' (i * span (S l) + k) = slot l' k.
Proof.
  intros Hl. unfold slot. pose proof (span_pos l').
  assert (E : span (S l) = span (l - l') * 512 * span l').
  { unfold span. change 512 with (2 ^ 9). rewrite <- !Z.pow_add_r by lia. f_equal. lia. }
  rewrite E, !Z.mul_assoc, Z.div_add_l by lia. by rewrite Z.add_comm, Z.mod_add by lia.
Qed.

Lemma slot_top l i k : 0 <= i < 512 -> 0 <= k < span l -> slot l (i * span l + k) = i.
Proof. intros. unfold slot. rewrite Z.div_add_l, Z.div_small, Z.add_0_r, Z.mod_small by lia. done. Qed.

(** A walk reads the slots of its level and below. *)
Lemma look_ext m l t n n' :
  (forall l', (l' <= l)%nat -> slot l' n = slot l' n') -> look l m t n = look l m t n'.
Proof.
  revert t. induction l as [|l IH]; intros t H; cbn [look]; rewrite (H _ (le_n _)); [done|].
  destruct (load m _) as [v|]; [|done]. destruct (present v); [|done]. apply IH. auto.
Qed.

Lemma get_entry_ext m l t v w :
  (l <= 3)%nat -> (forall l', (l' <= l)%nat -> slot l' (vpn v) = slot l' (vpn w)) ->
  get_entry l m t v = get_entry l m t w.
Proof.
  revert t. induction l as [|l IH]; intros t Hl H; cbn [get_entry]; rewrite !index_slot, (H _ (le_n _)) by lia; [done|].
  destruct (load m _) as [x|]; [|done]. cbn [mbind option_bind]. destruct (present x); [|done]. apply IH; [lia|auto].
Qed.

(** Where a search in a table starts. *)
Definition low (l : nat) (from : Z) : Z := vpn from mod span (S l).

Lemma low_range l from : 0 <= low l from < span (S l).
Proof. apply Z.mod_pos_bound, span_pos. Qed.

Lemma low_slot l from : slot l (vpn from) = low l from / span l.
Proof.
  unfold slot, low. pose proof (span_pos l). rewrite span_S, (Z.mul_comm 512), Z.rem_mul_r by lia.
  rewrite Z.add_comm, Z.mul_comm, Z.div_add_l by lia.
  rewrite (Z.div_small (_ mod _)), Z.add_0_r by (apply Z.mod_pos_bound; lia). done.
Qed.

Lemma low_S l from : low (S l) from = slot (S l) (vpn from) * span (S l) + low l from.
Proof.
  rewrite low_slot. unfold low at 3. unfold low.
  pose proof (Z.div_mod (vpn from mod span (S (S l))) (span (S l)) ltac:(pose proof (span_pos (S l)); lia)) as H.
  rewrite Z.mul_comm. rewrite H at 1. f_equal. rewrite (span_S (S l)).
  symmetry. apply Znumtheory.Zmod_div_mod; [apply span_pos|pose proof (span_pos (S l)); lia|]. by exists 512.
Qed.

Lemma span_le l : (l <= 3)%nat -> span (S l) <= 2 ^ 36.
Proof. intros. apply Z.pow_le_mono_r; lia. Qed.

(** The first present entry of a table at or behind [lo], counted in pages. *)
Definition found l m t (lo : Z) (r : option (option (entry * Z))) : Prop :=
  (r = Some None /\ forall k, lo <= k < span (S l) -> present (look l m t k) = false) \/
  exists k t0, lo <= k < span (S l) /\ r = Some (Some ((t0, slot 0 k), k * PAGE_SIZE)) /\
    present (look l m t k) = true /\ (forall k', lo <= k' < k -> present (look l m t k') = false) /\
    get_entry l m t (k * PAGE_SIZE) = Some (Some (t0, slot 0 k)).

Section search.
Context (own : gmap Z (nat * Z)) (PML4 : Z) (m : mem) (Hwf : wf own m PML4).
#[local] Set Default Proof Using "Type*".

(** The entries below a present entry of a table. *)
Lemma look_below l t i v k :
  0 <= i < 512 -> 0 <= k < span (S l) -> load m (t, i) = Some v -> present v = true ->
  look (S l) m t (i * span (S l) + k) = look l m (Z.land v PAGING_ENTRY_ADDRESS) k.
Proof.
  intros Hi Hk Hl Hp. cbn [look]. rewrite slot_top, Hl, Hp by done. apply look_ext. intros. by apply slot_add.
Qed.

Lemma look_absent l t i v k :
  0 <= i < 512 -> 0 <= k < span (S l) -> load m (t, i) = Some v -> present v = false ->
  look (S l) m t (i * span (S l) + k) = 0.
Proof. intros Hi Hk Hl Hp. cbn [look]. by rewrite slot_top, Hl, Hp by done. Qed.

Lemma next_loop_spec l t p lo sub c j :
  own !! t = Some (l, p) -> (l <= 3)%nat -> 0 <= lo -> j + Z.of_nat c = 512 -> lo / span l <= j ->
  (forall k, lo <= k < j * span l -> present (look l m t k) = false) ->
  (forall l' v i, l = S l' -> lo / span l <= i < 512 -> load m (t, i) = Some v -> present v = true ->
     found l' m (Z.land v PAGING_ENTRY_ADDRESS) (if i =? lo / span l then lo mod span l else 0)
       (sub (Z.land v PAGING_ENTRY_ADDRESS) i)) ->
  found l m t lo (next_loop l m t sub (seqZ j (Z.of_nat c))).
Proof.
  intros Ht Hl Hlo Hj Hst Habs Hsub. revert j Hj Hst Habs. induction c as [|c IH]; intros j Hj Hst Habs.
  - left. split; [done|]. intros k Hk. apply Habs. rewrite span_S in Hk. lia.
  - rewrite seqZ_cons by lia. cbn [next_loop]. replace (Z.pred (Z.of_nat (S c))) with (Z.of_nat c) by lia.
    assert (Hj0 : 0 <= lo / span l) by (apply Z.div_pos; [done|apply span_pos]).
    pose proof (span_pos l) as Hsp.
    pose proof (Z.div_mod lo (span l) ltac:(lia)) as Hdm. pose proof (Z.mod_pos_bound lo (span l) Hsp) as Hmb.
    destruct (load_table m t j) as (v & E); [by eapply wf_table|lia|]. rewrite E. cbn [mbind option_bind].
    (* every page of entry [j] is absent: go on *)
    assert (Hskip : (forall k, lo <= k -> j * span l <= k < (j + 1) * span l -> present (look l m t k) = false) ->
      found l m t lo (next_loop l m t sub (seqZ (Z.succ j) (Z.of_nat c)))).
    { intros H. apply IH; [lia|lia|]. intros k Hk.
      destruct (decide (k < j * span l)); [apply Habs; lia|apply H; lia]. }
    destruct (present v) eqn:Ep; simpl.
    2:{ apply Hskip. intros k Hk1 Hk2. destruct l as [|l].
        - cbn [look]. change (span 0) with 1 in Hk2. assert (k = j) as -> by lia.
          unfold slot. change (span 0) with 1. rewrite Z.div_1_r, Z.mod_small, E by lia. done.
        - replace k with (j * span (S l) + (k - j * span (S l))) by lia. by rewrite (look_absent _ _ _ v) by (done || lia). }
    destruct l as [|l].
    + change (span 0) with 1 in *. right. exists j, t. rewrite Z.div_1_r in Hst.
      assert (Hsl : slot 0 j = j).
      { unfold slot. change (span 0) with 1. rewrite Z.div_1_r, Z.mod_small; lia. }
      rewrite span_S. change (span 0) with 1. split; [lia|]. split.
      { rewrite Hsl, Z.shiftl_mul_pow2 by done. done. }
      cbn [look get_entry]. rewrite Hsl, E, index_slot, vpn_small, Hsl by lia. split; [done|]. split; [|done].
      intros k' Hk'. apply Habs. lia.
    + destruct (Hsub l v j eq_refl ltac:(lia) E Ep) as [(-> & Hno)|(k & t0 & Hk & -> & Hpk & Hno & Hge)]; cbn [mbind option_bind].
      * apply Hskip. intros k Hk1 Hk2. replace k with (j * span (S l) + (k - j * span (S l))) by lia.
        rewrite (look_below _ _ _ v) by (done || lia). apply Hno.
        destruct (j =? lo / span (S l)) eqn:Ej; zbool; [|lia]. rewrite <- Ej in Hdm. lia.
      * assert (Hk0 : 0 <= k < span (S l)) by (destruct (j =? lo / span (S l)); lia).
        assert (Hk36 : 0 <= j * span (S l) + k < 2 ^ 36).
        { pose proof (span_le (S l) Hl) as Hsl. rewrite span_S in Hsl. nia. }
        right. exists (j * span (S l) + k), t0. rewrite (look_below _ _ _ v) by (done || lia).
        assert (Hs0 : slot 0 (j * span (S l) + k) = slot 0 k) by (apply slot_add; lia). rewrite Hs0.
        split_and!; try done.
        -- destruct (j =? lo / span (S l)) eqn:Ej; zbool; [rewrite <- Ej in Hdm; lia|nia].
        -- rewrite (span_S (S l)). nia.
        -- do 3 f_equal. rewrite Z.shiftl_mul_pow2 by (unfold PAGING_LEVEL_SHIFT; lia).
           replace (2 ^ PAGING_LEVEL_SHIFT (S l)) with (PAGE_SIZE * span (S l)).
           2:{ unfold PAGING_LEVEL_SHIFT, span, PAGE_SIZE. rewrite Z.pow_add_r by lia. done. }
           unfold PAGE_SIZE. rewrite u64_small; [lia|]. unfold is_u64. nia.
        -- intros k' Hk'. destruct (decide (k' < j * span (S l))); [apply Habs; lia|].
           replace k' with (j * span (S l) + (k' - j * span (S l))) by lia.
           rewrite (look_below _ _ _ v) by (done || lia). apply Hno.
           destruct (j =? lo / span (S l)) eqn:Ej; zbool; [rewrite <- Ej in Hdm; lia|lia].
        -- cbn [get_entry]. rewrite index_slot, vpn_small, slot_top, E by lia. cbn [mbind option_bind].
           rewrite Ep. simpl. unfold mmu_entry_val_get_page. rewrite Ep, <- Hge. apply get_entry_ext; [lia|].
           intros l' Hl'. rewrite !vpn_small by (pose proof (span_le l ltac:(lia)); lia). by apply slot_add.
Qed.

Lemma next_helper_spec l t p from :
  own !! t = Some (l, p) -> (l <= 3)%nat -> found l m t (low l from) (mmu_get_next_entry_helper l m t from).
Proof.
  revert t p from. induction l as [|l IH]; intros t p from Ht Hl.
  - cbn [mmu_get_next_entry_helper]. rewrite index_slot by done. pose proof (slot_range 0 (vpn from)).
    pose proof (low_range 0 from). rewrite low_slot in *. change (span 0) with 1 in *. rewrite Z.div_1_r in *.
    unfold PAGING_ENTRIES_PER_LEVEL. replace (512 - low 0 from) with (Z.of_nat (Z.to_nat (512 - low 0 from))) by lia.
    eapply next_loop_spec; [done|done|lia|lia|..]; change (span 0) with 1; rewrite ?Z.div_1_r; [lia|lia|done].
  - cbn [mmu_get_next_entry_helper]. rewrite index_slot by done. pose proof (slot_range (S l) (vpn from)).
    pose proof (low_range (S l) from). pose proof (low_range l from).
    unfold PAGING_ENTRIES_PER_LEVEL. set (st := slot (S l) (vpn from)) in *.
    assert (Hst : low (S l) from / span (S l) = st) by (by rewrite <- low_slot).
    replace (512 - st) with (Z.of_nat (Z.to_nat (512 - st))) by lia.
    eapply next_loop_spec; [done|done|lia|lia|lia|rewrite low_S; fold st; lia|].
    intros l' v i [= <-] Hi Hlv Hp. rewrite Hst in *.
    specialize (IH (Z.land v PAGING_ENTRY_ADDRESS) (p * 512 + i) (if i =? st then from else 0)).
    assert (E : low l (if i =? st then from else 0) = if i =? st then low (S l) from mod span (S l) else 0).
    { destruct (i =? st); [|done]. rewrite low_S, Z.add_comm, Z.mod_add, Z.mod_small; [done|lia|].
      pose proof (span_pos (S l)). lia. }
    rewrite <- E. apply IH; [|lia]. by eapply wf_child.
Qed.

(** The next present entry of a space, in the order of its pages. *)
Lemma mmu_get_next_entry_spec from :
  found 3 m PML4 (vpn from) (mmu_get_next_entry m PML4 from).
Proof.
  pose proof (next_helper_spec 3 PML4 0 from (wf_root _ _ _ Hwf) ltac:(lia)) as H.
  unfold low in H. rewrite Z.mod_small in H by apply vpn_range. exact H.
Qed.

End search.

(** ** Unmapping *)

(** The body of the two loops that unmap. *)
Definition unmaps (rel : bool) (body : mem -> entry -> option mem) : Prop :=
  forall m en v, load m en = Some v -> present v = true ->
    exists m', store m en 0 = Some m' /\
      body m en = Some (if rel then pmm_release_page m' (Z.land v PAGING_ENTRY_ADDRESS) else m').

Lemma unmap_body : unmaps false (fun m en => '(m, _) ← mmu_entry_unmap m en; Some m).
Proof.
  intros m en v Hl Hp. destruct (store_spec m en 0) as (m' & E & _); [by rewrite Hl|].
  exists m'. split; [done|]. unfold mmu_entry_unmap. by rewrite Hl, E.
Qed.

Lemma address_range v : 0 <= Z.land v PAGING_ENTRY_ADDRESS < 2 ^ 52.
Proof. rewrite Z.land_comm. by apply land_range. Qed.

Lemma unmap_and_release_body :
  unmaps true (fun m en =>
    '(m, value) ← mmu_entry_unmap m en;
    let page := mmu_entry_val_get_page value in
    Some (if page =? PAGE_INVALID then m else pmm_release_page m page)).
Proof.
  intros m en v Hl Hp. destruct (store_spec m en 0) as (m' & E & _); [by rewrite Hl|].
  exists m'. split; [done|]. unfold mmu_entry_unmap. rewrite Hl, E. cbn [mbind option_bind].
  unfold mmu_entry_val_get_page. rewrite Hp. pose proof (address_range v) as Hr.
  rewrite (proj2 (Z.eqb_neq _ _)); [done|]. unfold PAGE_INVALID, PAGE_SIZE. lia.
Qed.

Lemma count_entries_insert tbs t tb tb' :
  tbs !! t = Some tb -> (count_entries (<[t := tb']> tbs) + size tb = count_entries tbs + size tb')%nat.
Proof.
  intros Ht. unfold count_entries.
  assert (Hc : forall tb0, map_fold (fun (_ : Z) (tb : gmap Z Z) n => (size tb + n)%nat) O (<[t := tb0]> (delete t tbs)) =
    (size tb0 + map_fold (fun (_ : Z) (tb : gmap Z Z) n => (size tb + n)%nat) O (delete t tbs))%nat).
  { intros tb0. rewrite map_fold_insert_L; [done|lia|apply lookup_delete_eq]. }
  rewrite <- (insert_id tbs t tb Ht) at 2. rewrite <- !(insert_delete_eq tbs). rewrite !Hc. lia.
Qed.

(** Each entry unmapped is one less. *)
Lemma unmap_decreases m en v m' :
  load m en = Some v -> present v = true -> store m en 0 = Some m' ->
  (count_entries (tables m') < count_entries (tables m))%nat.
Proof.
  destruct en as [t i]. unfold load, store. simpl. case_if; [|done].
  destruct (tables m !! t) as [tb|] eqn:Et; [|done]. simpl. intros [= <-] Hp [= <-]. simpl.
  pose proof (count_entries_insert _ _ _ (set_table tb i 0) Et) as Hc. unfold set_table in *. simpl in *.
  destruct (tb !! i) as [x|] eqn:Ei; [|done].
  rewrite (map_size_delete i tb), Ei in Hc. assert (size tb <> O).
  { intros Hs. apply map_size_empty_inv in Hs. subst tb. done. }
  lia.
Qed.

(** The pages mapped between two addresses, in order. *)
Definition mapped_page m (PML4 n : Z) : option Z :=
  let v := lookup m PML4 (n * PAGE_SIZE) in
  if present v then Some (Z.land v PAGING_ENTRY_ADDRESS) else None.
Definition mapped m (PML4 a b : Z) : list Z := omap (mapped_page m PML4) (seqZ a (b - a)).

Lemma omap_none {A B} (f : A -> option B) l : Forall (fun x => f x = None) l -> omap f l = [].
Proof. induction 1 as [|x l Hx _ IH]; [done|]. cbn. by rewrite Hx. Qed.

Lemma omap_ext_in {A B} (f g : A -> option B) l : Forall (fun x => f x = g x) l -> omap f l = omap g l.
Proof. induction 1 as [|x l Hx _ IH]; [done|]. cbn. by rewrite Hx, IH. Qed.

Lemma lookup_page m PML4 n : 0 <= n < 2 ^ 36 -> lookup m PML4 (n * PAGE_SIZE) = look 3 m PML4 n.
Proof. intros. unfold lookup. by rewrite vpn_small. Qed.

Lemma lookup_vpn m PML4 w : lookup m PML4 w = lookup m PML4 (vpn w * PAGE_SIZE).
Proof. rewrite lookup_page by apply vpn_range. done. Qed.

Lemma mapped_skip m PML4 a b k :
  a <= k <= b -> (forall n, a <= n < k -> present (lookup m PML4 (n * PAGE_SIZE)) = false) ->
  mapped m PML4 a b = mapped m PML4 k b.
Proof.
  intros Hk Hno. unfold mapped. replace (b - a) with ((k - a) + (b - k)) by lia.
  rewrite seqZ_app, omap_app by lia. replace (a + (k - a)) with k by lia.
  rewrite omap_none; [done|]. apply Forall_forall. intros n Hn%elem_of_seqZ.
  unfold mapped_page. by rewrite Hno by lia.
Qed.

Lemma mapped_ext m m' PML4 a b :
  (forall n, a <= n < b -> lookup m' PML4 (n * PAGE_SIZE) = lookup m PML4 (n * PAGE_SIZE)) ->
  mapped m' PML4 a b = mapped m PML4 a b.
Proof.
  intros H. apply omap_ext_in, Forall_forall. intros n Hn%elem_of_seqZ.
  unfold mapped_page. by rewrite H by lia.
Qed.

(** What an unmapping of the pages from [a] to [b] gives. *)
Record unmapped (own : gmap Z (nat * Z)) (rel : bool) (PML4 a b : Z) m m' : Prop := {
  un_wf : wf own m' PML4;
  un_look : forall w, lookup m' PML4 w =
    if decide (a <= vpn w < b /\ present (lookup m PML4 w) = true) then 0 else lookup m PML4 w;
  un_locks : locks m' = locks m;
  un_pool : pool m' = pool m;
  un_released : released m' = (if rel then rev (mapped m PML4 a b) else []) ++ released m;
}.

Lemma wf_tables own m PML4 k r : wf own m PML4 -> wf own (mk_mem (tables m) k (pool m) r) PML4.
Proof. by intros []. Qed.

Lemma lookup_tables m PML4 k p r w : lookup (mk_mem (tables m) k p r) PML4 w = lookup m PML4 w.
Proof.
  unfold lookup.
  assert (H : forall l t n, look l (mk_mem (tables m) k p r) t n = look l m t n); [|apply H].
  induction l as [|l IH]; intros t n; [done|]. cbn [look].
  change (load (mk_mem (tables m) k p r)) with (load m). destruct (load m _); [by rewrite IH|done].
Qed.

Section unmap.
Context (own : gmap Z (nat * Z)) (PML4 : Z) (rel : bool) (body : mem -> entry -> option mem).
Context (Hbody : unmaps rel body).
#[local] Set Default Proof Using "Type*".

(** One step of the loop: the entry of a page is gone. *)
Lemma unmap_step m k t0 :
  wf own m PML4 -> 0 <= k < 2 ^ 36 -> present (lookup m PML4 (k * PAGE_SIZE)) = true ->
  mmu_get_entry m PML4 (k * PAGE_SIZE) = Some (Some (t0, slot 0 k)) ->
  exists m', body m (t0, slot 0 k) = Some m' /\ wf own m' PML4 /\
    (forall w, lookup m' PML4 w = if decide (vpn w = k) then 0 else lookup m PML4 w) /\
    locks m' = locks m /\ pool m' = pool m /\
    released m' = (if rel then [Z.land (lookup m PML4 (k * PAGE_SIZE)) PAGING_ENTRY_ADDRESS] else []) ++ released m /\
    (count_entries (tables m') < count_entries (tables m))%nat.
Proof.
  intros Hwf Hk Hp Hge. pose proof (lookup_get_entry own PML4 m (k * PAGE_SIZE) Hwf) as Hlk. rewrite Hge in Hlk.
  destruct (load m (t0, slot 0 k)) as [v|] eqn:El; [|simpl in Hlk; rewrite Hlk in Hp; done]. simpl in Hlk.
  rewrite Hlk in *. destruct (Hbody m (t0, slot 0 k) v El Hp) as (m1 & Es & Eb).
  destruct (store_leaf own PML4 m (k * PAGE_SIZE) t0 (slot 0 k) 0 Hwf Hge) as (m2 & E2 & Hwf2 & _ & Hl2 & Hk2 & Hp2 & Hr2).
  rewrite Es in E2. injection E2 as <-. pose proof (unmap_decreases _ _ _ _ El Hp Es) as Hdec.
  rewrite vpn_small in Hl2 by done. eexists. split; [exact Eb|].
  destruct rel; [|by split_and!]. unfold pmm_release_page. split_and!; try done.
  - by apply wf_tables.
  - simpl. by rewrite Hr2.
Qed.

Lemma unmapped_none m a b :
  wf own m PML4 -> a <= b -> (forall n, a <= n < b -> present (lookup m PML4 (n * PAGE_SIZE)) = false) ->
  unmapped own rel PML4 a b m m.
Proof.
  intros Hwf Hab Habs. constructor; try done.
  - intros w. rewrite decide_False; [done|]. intros (Hw & Hpw). rewrite lookup_vpn, Habs in Hpw by done. done.
  - rewrite (mapped_skip m PML4 a b b) by (done || lia). unfold mapped. rewrite Z.sub_diag. by destruct rel.
Qed.

(** The loop ends whatever the addresses are: every step unmaps an entry. *)
Lemma foreach_unmap_total fuel m from end_ :
  wf own m PML4 -> (count_entries (tables m) < fuel)%nat ->
  exists m', foreach_entry_range fuel body m PML4 from end_ = Some m' /\ wf own m' PML4 /\
    locks m' = locks m /\ pool m' = pool m /\
    (forall w, lookup m' PML4 w = lookup m PML4 w \/ lookup m' PML4 w = 0).
Proof.
  revert m from. induction fuel as [|fuel IH]; intros m from Hwf Hf; [lia|]. cbn [foreach_entry_range].
  destruct (mmu_get_next_entry_spec own PML4 m Hwf from) as [(-> & _)|(k & t0 & Hk & -> & Hp & _ & Hge)];
    cbn [mbind option_bind]; [exists m; split_and!; auto|]. destruct (k * PAGE_SIZE <? end_); [|exists m; split_and!; auto].
  change (span 4) with (2 ^ 36) in *. pose proof (vpn_range from).
  rewrite <- lookup_page in Hp by lia.
  destruct (unmap_step m k t0 Hwf) as (m1 & -> & Hwf1 & Hl1 & Hk1 & Hp1 & _ & Hdec); [lia|done|done|].
  cbn [mbind option_bind]. destruct (IH m1 (k * PAGE_SIZE +! PAGE_SIZE) Hwf1) as (m2 & -> & Hwf2 & Hk2 & Hp2 & Hl2); [lia|].
  exists m2. split; [done|]. split; [done|]. rewrite Hk2, Hp2. split; [done|]. split; [done|]. intros w.
  specialize (Hl1 w). destruct (decide (vpn w = k)); destruct (Hl2 w) as [Hw|Hw]; rewrite Hw, ?Hl1; auto.
Qed.

Lemma foreach_unmap_spec fuel m a b :
  wf own m PML4 -> 0 <= a -> b < 2 ^ 36 -> (count_entries (tables m) < fuel)%nat ->
  exists m', foreach_entry_range fuel body m PML4 (a * PAGE_SIZE) (b * PAGE_SIZE) = Some m' /\
    (a <= b -> unmapped own rel PML4 a b m m').
Proof.
  revert m a. induction fuel as [|fuel IH]; intros m a Hwf Ha Hb Hf; [lia|]. cbn [foreach_entry_range].
  destruct (mmu_get_next_entry_spec own PML4 m Hwf (a * PAGE_SIZE)) as [(-> & Hno)|(k & t0 & Hk & -> & Hp & Hno & Hge)];
    cbn [mbind option_bind]; change (span 4) with (2 ^ 36) in *.
  - exists m. split; [done|]. intros Hab. rewrite vpn_small in Hno by lia.
    assert (Habs : forall n, a <= n < b -> present (lookup m PML4 (n * PAGE_SIZE)) = false).
    { intros n Hn. rewrite lookup_page by lia. apply Hno. lia. }
    by apply unmapped_none.
  - pose proof (vpn_range (a * PAGE_SIZE)). rewrite <- lookup_page in Hp by lia.
    destruct (k * PAGE_SIZE <? b * PAGE_SIZE) eqn:E; zbool; unfold PAGE_SIZE in E.
    + destruct (unmap_step m k t0 Hwf) as (m1 & -> & Hwf1 & Hl1 & Hk1 & Hp1 & Hr1 & Hdec); [lia|done|done|].
      cbn [mbind option_bind]. rewrite (u64_small (k * PAGE_SIZE + PAGE_SIZE)) by (unfold is_u64, PAGE_SIZE; lia).
      replace (k * PAGE_SIZE + PAGE_SIZE) with ((k + 1) * PAGE_SIZE) by lia.
      destruct (IH m1 (k + 1) Hwf1) as (m2 & -> & Hun); [lia|lia|lia|]. exists m2. split; [done|]. intros Hab.
      destruct (Hun ltac:(lia)) as [U1 U2 U3 U4 U5].
      destruct (decide (a < 2 ^ 36)) as [Ha36|]; [|lia]. rewrite vpn_small in Hk, Hno by lia.
      assert (Habs : forall n, a <= n < k -> present (lookup m PML4 (n * PAGE_SIZE)) = false).
      { intros n Hn. rewrite lookup_page by lia. apply Hno. lia. }
      constructor; try done; [|by rewrite U3|by rewrite U4|].
      * intros w. rewrite U2, Hl1. destruct (decide (vpn w = k)) as [Hw|Hw].
        -- rewrite decide_False by (intros (? & ?); lia). rewrite decide_True; [done|]. split; [lia|].
           by rewrite lookup_vpn, Hw.
        -- destruct (decide (a <= vpn w < b /\ _)) as [(Hr & Hpw)|Hn2].
           ++ rewrite decide_True; [done|]. split; [|done]. destruct (decide (vpn w < k)); [|lia].
              rewrite lookup_vpn, Habs in Hpw by lia. done.
           ++ rewrite decide_False; [done|]. intros (? & ?). apply Hn2. split; [lia|done].
      * rewrite U5, Hr1, (mapped_skip m PML4 a b k) by (done || lia).
        assert (Em : mapped m1 PML4 (k + 1) b = mapped m PML4 (k + 1) b).
        { apply mapped_ext. intros n Hn. rewrite Hl1, vpn_small, decide_False by lia. done. }
        destruct rel; [|done]. rewrite Em, app_assoc. f_equal.
        assert (Hmp : mapped_page m PML4 k = Some (Z.land (lookup m PML4 (k * PAGE_SIZE)) PAGING_ENTRY_ADDRESS)).
        { unfold mapped_page. by rewrite Hp. }
        unfold mapped at 2. rewrite seqZ_cons by lia. cbn. rewrite Hmp.
        replace (Z.succ k) with (k + 1) by lia. replace (Z.pred (b - k)) with (b - (k + 1)) by lia. done.
    + exists m. split; [done|]. intros Hab.
      destruct (decide (a < 2 ^ 36)) as [Ha36|]; [|lia]. rewrite vpn_small in Hk, Hno by lia.
      assert (Habs : forall n, a <= n < b -> present (lookup m PML4 (n * PAGE_SIZE)) = false).
      { intros n Hn. rewrite lookup_page by lia. apply Hno. lia. }
      by apply unmapped_none.
Qed.

End unmap.

Lemma aligned_page v : aligned v = true -> exists n, v = n * PAGE_SIZE /\ n = v / PAGE_SIZE.
Proof. unfold aligned. intros H%Z.eqb_eq. exists (v / PAGE_SIZE). unfold PAGE_SIZE in *. split; [|done]. pose proof (Z.div_mod v 4096). lia. Qed.

(** ** Mapping *)

Lemma vpn_next v : vpn v + 1 < 2 ^ 36 -> vpn (v + PAGE_SIZE) = vpn v + 1.
Proof.
  unfold vpn, PAGE_SIZE. intros H. replace (v + 4096) with (v + 1 * 4096) by lia.
  rewrite Z.div_add by lia. rewrite <- Zplus_mod_idemp_l. apply Z.mod_small.
  pose proof (Z.mod_pos_bound (v / 4096) (2 ^ 36) ltac:(lia)). lia.
Qed.

(** Consecutive pages with the same bit 21 are in one table. *)
Lemma same_table v :
  aligned v = true -> vpn v + 1 < 2 ^ 36 ->
  Z.land (v + PAGE_SIZE) (PAGING_ENTRIES_PER_LEVEL * PAGE_SIZE) = Z.land v (PAGING_ENTRIES_PER_LEVEL * PAGE_SIZE) ->
  region 0 (vpn (v + PAGE_SIZE)) = region 0 (vpn v) /\ slot 0 (vpn (v + PAGE_SIZE)) = slot 0 (vpn v) + 1.
Proof.
  intros Hal Hn Hbit. destruct (aligned_page v Hal) as (n & -> & _). rewrite vpn_next by done.
  apply (f_equal (fun z => Z.testbit z 21)) in Hbit. rewrite !Z.land_spec in Hbit.
  change (Z.testbit (PAGING_ENTRIES_PER_LEVEL * PAGE_SIZE) 21) with true in Hbit. rewrite !andb_true_r in Hbit.
  rewrite !Z.testbit_odd, !Z.shiftr_div_pow2 in Hbit by lia. unfold PAGE_SIZE in *.
  replace (n * 4096 + 4096) with ((n + 1) * 4096) in Hbit by lia. change (2 ^ 21) with (512 * 4096) in Hbit.
  rewrite !Z.div_mul_cancel_r in Hbit by lia.
  unfold vpn, region, slot, PAGE_SIZE in *. rewrite Z.div_mul in Hn |- * by lia. rewrite span_S. change (512 * span 0) with 512.
  change (span 0) with 1. rewrite !Z.div_1_r.
  assert (Hm : n mod 2 ^ 36 mod 512 = n mod 512).
  { symmetry. apply Znumtheory.Zmod_div_mod; [lia|lia|]. by exists (2 ^ 27). }
  set (q := n mod 2 ^ 36) in *.
  pose proof (Z.div_mod n 512 ltac:(lia)). pose proof (Z.mod_pos_bound n 512 ltac:(lia)).
  pose proof (Z.div_mod q 512 ltac:(lia)).
  destruct (decide (n mod 512 = 511)) as [E|E].
  - exfalso. replace ((n + 1) / 512) with (n / 512 + 1) in Hbit.
    + rewrite Z.odd_add in Hbit. simpl in Hbit. by destruct (Z.odd (n / 512)).
    + apply (Z.div_unique _ _ _ 0); lia.
  - split; [symmetry; apply (Z.div_unique _ _ _ (q mod 512 + 1)); lia|].
    symmetry. apply (Z.mod_unique _ _ (q / 512)); lia.
Qed.

(** What a value of [mmu_map_pages] is. *)
Definition map_value (paddr flags : Z) : Z :=
  Z.lor (Z.land paddr PAGING_ENTRY_ADDRESS) (mmu2paging_flags flags).

(** The entry of the page before the next one to map, whose table is locked. *)
Definition at_entry m (PML4 vaddr : Z) (old : option entry) : Prop :=
  match old with
  | None => locks m = ∅
  | Some en => locks m = {[en.1]} /\ mmu_get_entry m PML4 (vaddr - PAGE_SIZE) = Some (Some en) /\
      0 <= vaddr - PAGE_SIZE /\ vpn (vaddr - PAGE_SIZE) + 1 < 2 ^ 36
  end.

Section map.
Context (PML4 : Z).

Lemma create_next_spec own m vaddr old :
  wf own m PML4 -> at_entry m PML4 vaddr old -> aligned vaddr = true -> 0 <= vaddr < 2 ^ 64 ->
  exists own' m' r,
    mmu_create_next_entry_and_acquire_lock m PML4 vaddr old (vaddr -! PAGE_SIZE) = Some (m', r) /\
    grown own own' m m' PML4 /\
    match r with
    | None => locks m' = ∅
    | Some en => locks m' = {[en.1]} /\ mmu_get_entry m' PML4 vaddr = Some (Some en)
    end.
Proof.
  intros Hwf Hold Hal Hr. destruct old as [[t i]|]; cbn [at_entry] in Hold.
  2:{ by apply mmu_create_entry_spec. }
  destruct Hold as (Hk & Hge & Hv & Hn). cbn [mmu_create_next_entry_and_acquire_lock].
  rewrite u64_small by (unfold is_u64; unfold PAGE_SIZE in *; lia).
  set (w := vaddr - PAGE_SIZE) in *. assert (Ew : vaddr = w + PAGE_SIZE) by (unfold w; lia).
  assert (Hwal : aligned w = true).
  { unfold aligned, w in *. apply Z.eqb_eq. apply Z.eqb_eq in Hal. unfold PAGE_SIZE in *.
    rewrite Zminus_mod, Hal. done. }
  destruct (Z.land vaddr _ =? _) eqn:E; zbool.
  - rewrite Ew in E. destruct (same_table w Hwal Hn E) as (Hrg & Hsl).
    rewrite (proj2 (Z.gtb_lt _ _)) by (unfold PAGE_SIZE in *; lia).
    exists own, m. eexists. split; [done|]. split; [by apply grown_refl|]. split; [done|].
    apply (get_entry_region m 3 PML4 w vaddr) in Hge as Hge'; [|by rewrite Ew, Hrg|lia].
    unfold mmu_get_entry, PAGING_LEVEL_MAX. rewrite Hge'. simpl. rewrite Ew, Hsl.
    replace (w + PAGE_SIZE - w) with PAGE_SIZE by lia. change (PAGE_SIZE / PAGE_SIZE) with 1.
    destruct (get_entry_spec own PML4 m 3 PML4 w Hwf) as [(Eg & _)|(t1 & Eg & _)];
      [by rewrite region_3, (wf_root _ _ _ Hwf)|done|..];
      unfold mmu_get_entry, PAGING_LEVEL_MAX in Hge; rewrite Eg in Hge; [done|]. by injection Hge as -> <-.
  - unfold mmu_entry_release_lock, pmm_release_page_lock. cbn [fst]. rewrite decide_True by (rewrite Hk; set_solver).
    cbn [mbind option_bind]. set (m0 := mk_mem _ _ _ _).
    pose proof (grown_locks _ _ _ _ _ (locks m ∖ {[t]}) (grown_refl _ _ _ Hwf)) as G0.
    destruct (mmu_create_entry_spec PML4 own m0 vaddr) as (own' & m' & r & Ec & G & Hr');
      [apply (gr_wf _ _ _ _ _ G0)|simpl; rewrite Hk; set_solver|].
    exists own', m', r. split; [done|]. split; [by eapply grown_trans|done].
Qed.

(** What mapping the pages of a range gives. *)
Record map_result (own own' : gmap Z (nat * Z)) m m' (start vaddr paddr flags n : Z) (r : res unit) : Prop := {
  mr_own : own ⊆ own';
  mr_wf : wf own' m' PML4;
  mr_locks : locks m' = ∅;
  mr_taken : taken own own' m m';
  mr_ok : r = Ok tt -> released m' = released m /\ forall w, lookup m' PML4 w =
    if decide (vpn vaddr <= vpn w < vpn vaddr + n)
    then map_value (paddr + (vpn w - vpn vaddr) * PAGE_SIZE) flags else lookup m PML4 w;
  mr_err : r <> Ok tt -> r = Err ENOMEM;
  mr_low : r <> Ok tt -> vaddr + n * PAGE_SIZE < 2 ^ 48 -> released m' = released m /\ forall w,
    (vpn start <= vpn w < vpn vaddr -> present (lookup m' PML4 w) = false) /\
    (vpn vaddr <= vpn w < vpn vaddr + n -> present (lookup m' PML4 w) = false \/ lookup m' PML4 w = lookup m PML4 w) /\
    (~ vpn start <= vpn w < vpn vaddr + n -> lookup m' PML4 w = lookup m PML4 w);
}.

Lemma unmap_pages_total own m vaddr size :
  wf own m PML4 -> aligned vaddr = true -> aligned size = true ->
  exists m', mmu_unmap_pages m PML4 vaddr size = Some m' /\ wf own m' PML4 /\ locks m' = locks m /\ pool m' = pool m.
Proof.
  intros Hwf H1 H2. unfold mmu_unmap_pages. rewrite H1, H2. cbn [andb negb].
  destruct (foreach_unmap_total own PML4 false _ unmap_body (unmap_fuel m) m vaddr (vaddr +! size) Hwf) as (m' & -> & ? & ? & ? & _);
    [unfold unmap_fuel; lia|]. by exists m'.
Qed.

Lemma unmap_pages_low own m a b :
  wf own m PML4 -> 0 <= a <= b -> b < 2 ^ 36 ->
  exists m', mmu_unmap_pages m PML4 (a * PAGE_SIZE) ((b - a) * PAGE_SIZE) = Some m' /\
    unmapped own false PML4 a b m m'.
Proof.
  intros Hwf Ha Hb. unfold mmu_unmap_pages, aligned, PAGE_SIZE. rewrite !Z_mod_mult, Z.eqb_refl. cbn [andb negb].
  rewrite u64_small by (unfold is_u64; lia). replace (a * 4096 + (b - a) * 4096) with (b * 4096) by lia.
  destruct (foreach_unmap_spec own PML4 false _ unmap_body (unmap_fuel m) m a b Hwf) as (m' & E & Hun);
    [lia|lia|unfold unmap_fuel; lia|]. exists m'. split; [exact E|]. apply Hun. lia.
Qed.

Lemma aligned_sub a b : aligned a = true -> aligned b = true -> aligned (a - b) = true.
Proof. unfold aligned. rewrite !Z.eqb_eq. intros H1 H2. by rewrite Zminus_mod, H1, H2. Qed.

Lemma map_fails own own' m m' start vaddr paddr flags n :
  wf own m PML4 -> grown own own' m m' PML4 -> locks m' = ∅ -> aligned start = true -> aligned vaddr = true ->
  0 <= start <= vaddr -> vaddr < 2 ^ 64 -> 0 < n ->
  exists m2, mmu_unmap_pages m' PML4 start (vaddr -! start) = Some m2 /\
    map_result own own' m m2 start vaddr paddr flags n (Err ENOMEM).
Proof.
  intros Hwf G Hk Has Hav Hs Hv Hn. rewrite u64_small by (unfold is_u64; lia).
  pose proof (gr_wf _ _ _ _ _ G) as Hwf'.
  destruct (unmap_pages_total own' m' start (vaddr - start) Hwf') as (m2 & E & Hwf2 & Hk2 & Hp2);
    [done|by apply aligned_sub|]. exists m2. split; [done|].
  constructor; try done; [apply (gr_own _ _ _ _ _ G)|by rewrite Hk2| |].
  { eapply taken_trans; [apply (gr_pool _ _ _ _ _ G)|by apply taken_refl]. }
  intros _ Hlow. destruct (aligned_page start Has) as (a & -> & _). destruct (aligned_page vaddr Hav) as (b & -> & _).
  unfold PAGE_SIZE in Hs, Hlow. rewrite <- Z.mul_sub_distr_r in E.
  destruct (unmap_pages_low own' m' a b Hwf') as (m3 & E3 & [U1 U2 U3 U4 U5]); [lia|lia|].
  rewrite E3 in E. injection E as ->. split; [by rewrite U5, (gr_released _ _ _ _ _ G)|]. intros w.
  rewrite !vpn_small by lia. rewrite U2, !(grown_lookup _ _ _ _ _ _ G Hwf). split_and!.
  - intros Hw. destruct (decide (_ /\ _)) as [|Hn']; [done|]. apply not_true_is_false. intros Hp. by apply Hn'.
  - intros Hw. right. rewrite decide_False by lia. done.
  - intros Hw. rewrite decide_False by lia. done.
Qed.

Lemma map_pages_loop_spec n own m start vaddr paddr flags old :
  wf own m PML4 -> at_entry m PML4 vaddr old -> aligned start = true -> aligned vaddr = true ->
  0 <= start <= vaddr -> vpn vaddr + Z.of_nat n < 2 ^ 36 -> vaddr + Z.of_nat n * PAGE_SIZE < 2 ^ 64 ->
  0 <= paddr -> paddr + Z.of_nat n * PAGE_SIZE < 2 ^ 64 ->
  exists own' m' r, map_pages_loop n m PML4 start vaddr paddr flags old = Some (m', r) /\
    map_result own own' m m' start vaddr paddr flags (Z.of_nat n) r.
Proof.
  revert own m vaddr paddr old. induction n as [|n IH];
    intros own m vaddr paddr old Hwf Hold Has Hav Hs Hvn Hve Hp Hpe; cbn [map_pages_loop].
  - assert (Hr : forall m', tables m' = tables m -> locks m' = ∅ -> pool m' = pool m -> released m' = released m -> wf own m' PML4 ->
      map_result own own m m' start vaddr paddr flags 0 (Ok tt)).
    { intros m' Ht Hk Hpo Hre Hwf'. constructor; try done; [by apply taken_refl|]. intros _. split; [done|]. intros w.
      rewrite decide_False by lia. destruct m'. simpl in Ht. subst. apply lookup_tables. }
    destruct old as [en|].
    + destruct Hold as (Hk & _). unfold mmu_entry_release_lock, pmm_release_page_lock.
      rewrite decide_True by (rewrite Hk; set_solver). cbn [mbind option_bind].
      eexists own, _, _. split; [done|]. apply Hr; try done; [simpl; rewrite Hk; set_solver|by apply wf_tables].
    + eexists own, _, _. split; [done|]. by apply Hr.
  - unfold PAGE_SIZE in Hve, Hpe.
    destruct (create_next_spec own m vaddr old Hwf Hold Hav) as (own1 & m1 & r & -> & G & Hr); [lia|].
    cbn [mbind option_bind]. destruct r as [en|].
    2:{ destruct (map_fails own own1 m m1 start vaddr paddr flags (Z.of_nat (S n))) as (m2 & -> & HR); try done; [lia|].
        cbn [mbind option_bind]. by eexists own1, _, _. }
    destruct Hr as (Hk1 & Hge). pose proof (gr_wf _ _ _ _ _ G) as Hwf1. destruct en as [t0 i].
    destruct (store_leaf own1 PML4 m1 vaddr t0 i (map_value paddr flags) Hwf1 Hge)
      as (m2 & E2 & Hwf2 & Hge2 & Hl2 & Hk2 & Hp2 & Hr2).
    unfold mmu_entry_map. fold (map_value paddr flags). rewrite E2. cbn [mbind option_bind].
    rewrite !u64_small by (unfold is_u64, PAGE_SIZE; lia).
    pose proof (vpn_next vaddr ltac:(lia)) as Hnx.
    destruct (IH own1 m2 (vaddr + PAGE_SIZE) (paddr + PAGE_SIZE) (Some (t0, i))) as (own3 & m3 & r & EE & [A1 A2 A3 At A4 A5 A6]).
    { done. }
    { cbn [at_entry]. replace (vaddr + PAGE_SIZE - PAGE_SIZE) with vaddr by lia.
      rewrite Hk2, Hge2. split_and!; [done|done|lia|lia]. }
    { done. }
    { unfold aligned, PAGE_SIZE in *. rewrite Z.eqb_eq in *. rewrite <- Zplus_mod_idemp_l, Hav. done. }
    all: try (rewrite ?Hnx; unfold PAGE_SIZE; lia).
    exists own3, m3, r. split; [exact EE|]. rewrite Hnx in *.
    assert (Hl : forall w, lookup m2 PML4 w = if decide (vpn w = vpn vaddr) then map_value paddr flags else lookup m PML4 w).
    { intros w. rewrite Hl2. by rewrite (grown_lookup _ _ _ _ _ w G Hwf). }
    constructor; try done.
    + etrans; [apply (gr_own _ _ _ _ _ G)|done].
    + eapply taken_trans; [apply (gr_pool _ _ _ _ _ G)|]. eapply taken_trans; [by apply taken_refl|done].
    + intros Hok. destruct (A4 Hok) as (Hrel & Hlk). split; [by rewrite Hrel, Hr2, (gr_released _ _ _ _ _ G)|].
      intros w. rewrite Hlk, Hl. destruct (decide (vpn w = vpn vaddr)) as [E|E].
      * rewrite E, decide_False, decide_True by lia. f_equal. lia.
      * destruct (decide (vpn vaddr + 1 <= vpn w < _)); [rewrite decide_True by lia; f_equal; lia|].
        by rewrite decide_False by lia.
    + intros Hne Hlow. destruct (A6 Hne) as (Hrel & Hlk); [unfold PAGE_SIZE in *; lia|].
      split; [by rewrite Hrel, Hr2, (gr_released _ _ _ _ _ G)|]. intros w. destruct (Hlk w) as (L1 & L2 & L3).
      specialize (Hl w). assert (Hsv : vpn start <= vpn vaddr).
      { destruct (aligned_page start Has) as (a & -> & _). destruct (aligned_page vaddr Hav) as (b & -> & _).
        unfold PAGE_SIZE in *. change 4096 with PAGE_SIZE in *. rewrite !vpn_small; unfold PAGE_SIZE in *; lia. }
      split_and!.
      * intros Hw. apply L1. lia.
      * intros Hw. destruct (decide (vpn w = vpn vaddr)); [left; apply L1; lia|]. rewrite <- Hl. apply L2. lia.
      * intros Hw. rewrite L3 by lia. rewrite Hl, decide_False by lia. done.
Qed.

End map.

(** ** Destroying a space *)

(** The tables below (and including) the one of a level and a region. *)
Definition under (own : gmap Z (nat * Z)) (l : nat) (q t : Z) : Prop :=
  exists l' p, own !! t = Some (l', p) /\ (l' <= l)%nat /\ p / span (l - l') = q.

Section destroy.
Context (own : gmap Z (nat * Z)) (PML4 : Z) (m0 : mem) (Hwf : wf own m0 PML4).
#[local] Set Default Proof Using "Type*".

Lemma under_self l q t : own !! t = Some (l, q) -> under own l q t.
Proof. intros H. exists l, q. rewrite Nat.sub_diag. change (span 0) with 1. by rewrite Z.div_1_r. Qed.

Lemma under_S l q t : under own (S l) q t <-> own !! t = Some (S l, q) \/ exists r, under own l r t /\ r / 512 = q.
Proof.
  split.
  - intros (l' & p & Ho & Hle & Hq). destruct (decide (l' = S l)) as [->|Hne].
    + left. rewrite Nat.sub_diag in Hq. change (span 0) with 1 in Hq. rewrite Z.div_1_r in Hq. by subst.
    + right. exists (p / span (l - l')). split; [exists l', p; split_and!; [done|lia|done]|].
      rewrite Z.div_div by (pose proof (span_pos (l - l')); lia). rewrite Z.mul_comm, <- span_S.
      replace (S (l - l')) with (S l - l')%nat by lia. done.
  - intros [Ho|(r & (l' & p & Ho & Hle & Hr) & Hq)]; [by apply under_self|].
    exists l', p. split; [done|]. split; [lia|]. replace (S l - l')%nat with (S (l - l')) by lia.
    rewrite span_S, Z.mul_comm, <- Z.div_div by (pose proof (span_pos (l - l')); lia). by rewrite Hr.
Qed.

(** Every table hangs under a table of each level up to the root. *)
Lemma under_top l q t : (l <= 3)%nat -> under own l q t -> exists t1, own !! t1 = Some (l, q).
Proof.
  intros Hl. revert q t. induction l as [|l IH]; intros q t.
  - intros (l' & p & Ho & Hle & Hq). assert (l' = O) as -> by lia. change (span (0 - 0)) with 1 in Hq.
    rewrite Z.div_1_r in Hq. subst. by exists t.
  - intros [Ho|(r & Hu & <-)]%under_S; [by exists t|]. destruct (IH ltac:(lia) r t Hu) as (t1 & H1).
    destruct (wf_parent _ _ _ Hwf _ _ _ H1) as [->|(t2 & _ & H2 & _)]; [|by exists t2].
    rewrite (wf_root _ _ _ Hwf) in H1. injection H1 as E _. lia.
Qed.

Lemma under_disjoint l q q' t : under own l q t -> under own l q' t -> q = q'.
Proof. intros (l1 & p1 & H1 & _ & E1) (l2 & p2 & H2 & _ & E2). congruence. Qed.

(** What is below an entry of a table. *)
Lemma under_table_entry l p t i v :
  own !! t = Some (S l, p) -> load m0 (t, i) = Some v -> (l < 3)%nat ->
  (present v = true -> own !! (Z.land v PAGING_ENTRY_ADDRESS) = Some (l, p * 512 + i)) /\
  (present v = false -> forall t', ~ under own l (p * 512 + i) t').
Proof.
  intros Ht Hv Hl. split; [by eapply wf_child|]. intros Hp t' Hu.
  destruct (load_Some _ _ _ _ Hv) as (Hi & _).
  destruct (under_top l _ _ ltac:(lia) Hu) as (t1 & H1).
  destruct (wf_parent _ _ _ Hwf _ _ _ H1) as [->|(t2 & v2 & H2 & Hv2 & Hp2 & _)].
  - rewrite (wf_root _ _ _ Hwf) in H1. injection H1 as E _. lia.
  - rewrite Z.div_add_l, Z.div_small, Z.add_0_r in H2 by lia. rewrite Z.add_comm, Z.mod_add, Z.mod_small in Hv2 by lia.
    rewrite (wf_inj _ _ _ Hwf _ _ _ H2 Ht) in Hv2. congruence.
Qed.

(** [m'] is [m] after the release of exactly the tables that satisfy [P], each once. *)
Record freed (P : Z -> Prop) m m' : Prop := {
  fr_list : exists l, released m' = l ++ released m /\ NoDup l /\ forall t, t ∈ l <-> P t;
  fr_tables : forall t, ~ P t -> tables m' !! t = tables m !! t;
  fr_gone : forall t, P t -> tables m' !! t = None;
  fr_locks : locks m' = locks m;
  fr_pool : pool m' = pool m;
}.

Lemma freed_tables_trans P Q m1 m2 m3 :
  freed P m1 m2 -> freed Q m2 m3 -> (forall t, P t -> Q t -> False) -> freed (fun t => P t \/ Q t) m1 m3.
Proof.
  intros [(l1 & E1 & N1 & L1) T1 G1 K1 O1] [(l2 & E2 & N2 & L2) T2 G2 K2 O2] Hd. constructor.
  - exists (l2 ++ l1). rewrite E2, E1, app_assoc. split; [done|]. split.
    + apply NoDup_app. split_and!; try done. intros t H2 H1. apply L1 in H1. apply L2 in H2. by apply (Hd t).
    + intros t. rewrite elem_of_app, L1, L2. tauto.
  - intros t Hn. rewrite T2, T1; tauto.
  - intros t [H|H]; [|by apply G2]. rewrite T2; [by apply G1|]. intros Hq. by apply (Hd t).
  - by rewrite K2.
  - by rewrite O2.
Qed.

Lemma freed_ext P Q m m' : (forall t, P t <-> Q t) -> freed P m m' -> freed Q m m'.
Proof.
  intros H [(l & E & N & L) T G K O]. constructor; try done.
  - exists l. split_and!; try done. intros t. by rewrite L, H.
  - intros t Ht. apply T. by rewrite H.
  - intros t Ht. apply G. by rewrite H.
Qed.

Lemma freed_table t m : freed (fun x => x = t) m (release_table m t).
Proof.
  constructor; try done.
  - exists [t]. split; [done|]. split; [apply NoDup_singleton|]. intros x. apply list_elem_of_singleton.
  - intros x Hx. simpl. by rewrite lookup_delete_ne.
  - intros x ->. simpl. by rewrite lookup_delete_eq.
Qed.

(** The entries of a list of a table whose sub-tables are still as at the beginning. *)
Lemma destroy_loop_spec l t p sub li m :
  own !! t = Some (S l, p) -> (l < 3)%nat -> NoDup li -> Forall (fun i => 0 <= i < 512) li ->
  tables m !! t = tables m0 !! t ->
  (forall i t', i ∈ li -> under own l (p * 512 + i) t' -> tables m !! t' = tables m0 !! t') ->
  (forall m t' q, own !! t' = Some (l, q) -> (forall x, under own l q x -> tables m !! x = tables m0 !! x) ->
     exists m', sub m t' = Some m' /\ freed (under own l q) m m') ->
  exists m', destroy_loop sub m t li = Some m' /\
    freed (fun x => exists i, i ∈ li /\ under own l (p * 512 + i) x) m m'.
Proof.
  intros Ht Hl Hnd Hr Htab Hsame Hsub. revert m Htab Hsame. induction li as [|i li IH]; intros m Htab Hsame.
  - exists m. split; [done|]. constructor; try done; [|by intros ? (? & ?%not_elem_of_nil & _)].
    exists []. split_and!; [done|constructor|]. intros x. split; [by intros ?%not_elem_of_nil|by intros (? & ?%not_elem_of_nil & _)].
  - apply NoDup_cons in Hnd as (Hi & Hnd). apply Forall_cons in Hr as (Hir & Hr). cbn [destroy_loop].
    destruct (load_table m0 t i) as (v & Ev); [by eapply wf_table|done|].
    rewrite (load_tables m m0) by done. rewrite Ev. cbn [mbind option_bind].
    destruct (under_table_entry l p t i v Ht Ev Hl) as (Hyes & Hno). destruct (present v) eqn:Ep; simpl.
    + destruct (Hsub m (Z.land v PAGING_ENTRY_ADDRESS) (p * 512 + i) (Hyes eq_refl)) as (m1 & -> & F1).
      { intros x Hx. apply (Hsame i); [by left|done]. }
      cbn [mbind option_bind]. destruct (IH Hnd Hr m1) as (m2 & -> & F2).
      { rewrite (fr_tables _ _ _ F1); [done|]. intros (l' & q & Ho & Hle & _). rewrite Ht in Ho. injection Ho as <- _. lia. }
      { intros j x Hj Hx. rewrite (fr_tables _ _ _ F1); [apply (Hsame j); [by right|done]|].
        intros Hx'. pose proof (under_disjoint _ _ _ _ Hx Hx'). assert (i = j) as -> by lia. done. }
      exists m2. split; [done|]. eapply freed_ext; [|eapply freed_tables_trans; [exact F1|exact F2|]].
      * intros x. setoid_rewrite elem_of_cons. split; [intros [H|(j & Hj & H)]; eauto|].
        intros (j & [->|Hj] & H); eauto.
      * intros x Hx (j & Hj & Hx'). pose proof (under_disjoint _ _ _ _ Hx Hx'). assert (i = j) as -> by lia. done.
    + destruct (IH Hnd Hr m Htab) as (m2 & -> & F2). { intros j x Hj. apply Hsame. by right. }
      exists m2. split; [done|]. eapply freed_ext; [|exact F2]. intros x. setoid_rewrite elem_of_cons. split.
      * intros (j & Hj & H); eauto.
      * intros (j & [->|Hj] & H); [by apply Hno in H|eauto].
Qed.

Lemma destroy_table_spec l t q m :
  own !! t = Some (l, q) -> (l <= 3)%nat -> (forall x, under own l q x -> tables m !! x = tables m0 !! x) ->
  exists m', destroy_table l m t = Some m' /\ freed (under own l q) m m'.
Proof.
  revert t q m. induction l as [|l IH]; intros t q m Ht Hl Hsame; cbn [destroy_table].
  - eexists. split; [done|]. eapply freed_ext; [|apply freed_table]. intros x. split.
    + intros ->. by apply under_self.
    + intros (l' & p & Ho & Hle & Hq). assert (l' = O) as -> by lia. change (span (0 - 0)) with 1 in Hq.
      rewrite Z.div_1_r in Hq. subst. by eapply (wf_inj _ _ _ Hwf).
  - destruct (destroy_loop_spec l t q (destroy_table l) (seqZ 0 PAGING_ENTRIES_PER_LEVEL) m) as (m1 & -> & F1); try done.
    + apply NoDup_seqZ.
    + apply Forall_forall. intros i Hi%elem_of_seqZ. unfold PAGING_ENTRIES_PER_LEVEL in Hi. lia.
    + apply Hsame. by apply under_self.
    + intros i t' Hi%elem_of_seqZ Hu. apply Hsame, under_S. right. exists (q * 512 + i). split; [done|].
      unfold PAGING_ENTRIES_PER_LEVEL in Hi. rewrite Z.div_add_l, Z.div_small; lia.
    + intros m2 t' p Ho Hs. apply IH; [done|lia|done].
    + cbn [mbind option_bind]. eexists. split; [done|].
      eapply freed_ext; [|eapply freed_tables_trans; [exact F1|apply freed_table|]].
      * intros x. rewrite under_S. split.
        -- intros [(i & Hi%elem_of_seqZ & Hu)| ->]; [right|by left]. exists (q * 512 + i). split; [done|].
           unfold PAGING_ENTRIES_PER_LEVEL in Hi. rewrite Z.div_add_l, Z.div_small; lia.
        -- intros [Ho|(r & Hu & Hr)]; [right; by eapply (wf_inj _ _ _ Hwf)|left].
           exists (r mod 512). pose proof (Z.div_mod r 512 ltac:(lia)). pose proof (Z.mod_pos_bound r 512 ltac:(lia)).
           split; [apply elem_of_seqZ; unfold PAGING_ENTRIES_PER_LEVEL; lia|]. by replace (q * 512 + r mod 512) with r by lia.
      * intros x (i & _ & (l' & p & Ho & Hle & _)) ->. rewrite Ht in Ho. injection Ho as <- _. lia.
Qed.

End destroy.

(** ** Allocating the pages of a range *)

Lemma present_map_value p flags : has flags MMU_FLAG_PRESENT = true -> present (map_value p flags) = true.
Proof.
  intros H. unfold present, map_value. rewrite has_lor. apply orb_true_iff. right.
  unfold mmu2paging_flags, flag_if. rewrite H.
  repeat match goal with |- context [if ?b then _ else _] => destruct b end; done.
Qed.

Lemma flags_no_address flags : Z.land (mmu2paging_flags flags) PAGING_ENTRY_ADDRESS = 0.
Proof.
  unfold mmu2paging_flags, flag_if.
  repeat match goal with |- context [if ?b then _ else _] => destruct b end; done.
Qed.

Lemma address_idemp p : p mod 4096 = 0 -> 0 <= p < 2 ^ 52 -> Z.land p PAGING_ENTRY_ADDRESS = p.
Proof.
  intros Hp Hr. destruct (table_entry p Hp Hr) as (_ & H & _). rewrite Z.land_lor_distr_l in H.
  change (Z.land PAGING_FLAG_RW_CPL3 PAGING_ENTRY_ADDRESS) with 0 in H. by rewrite Z.lor_0_r in H.
Qed.

(** The page of an entry that was mapped. *)
Lemma map_value_page p flags :
  p mod 4096 = 0 -> 0 <= p < 2 ^ 52 -> Z.land (map_value p flags) PAGING_ENTRY_ADDRESS = p.
Proof.
  intros Hp Hr. unfold map_value. rewrite Z.land_lor_distr_l, flags_no_address, Z.lor_0_r.
  rewrite <- Z.land_assoc, Z.land_diag. by apply address_idemp.
Qed.

Lemma elem_of_rev {A} (x : A) l : x ∈ rev l <-> x ∈ l.
Proof. by rewrite !list_elem_of_In, <- in_rev. Qed.

Lemma mapped_snoc m PML4 a b :
  a <= b -> mapped m PML4 a (b + 1) = mapped m PML4 a b ++ (match mapped_page m PML4 b with Some p => [p] | None => [] end).
Proof.
  intros H. unfold mapped. replace (b + 1 - a) with ((b - a) + 1) by lia. rewrite seqZ_app, omap_app by lia.
  f_equal. replace (a + (b - a)) with b by lia. rewrite seqZ_cons by lia. cbn. by destruct (mapped_page m PML4 b).
Qed.

Section allocate.
Context (PML4 flags : Z) (Hpresent : has flags MMU_FLAG_PRESENT = true).
#[local] Set Default Proof Using "Type*".

(** [ps] are the pages mapped from page [b] on, [ts] the new tables, [k] both. *)
Record alloc_result (own own' : gmap Z (nat * Z)) m m' (a b n : Z) (r : res unit) : Prop := {
  ar_own : own ⊆ own';
  ar_wf : wf own' m' PML4;
  ar_locks : locks m' = ∅;
  ar_out : forall w, ~ a <= vpn w < b + n -> lookup m' PML4 w = lookup m PML4 w;
  ar_tables : forall p, is_Some (own' !! p) -> is_Some (own !! p) \/ p ∈ pool m;
  ar_ok : r = Ok tt -> released m' = released m /\
    (forall w, vpn w < b -> lookup m' PML4 w = lookup m PML4 w) /\
    exists ps ts k, lenZ ps = n /\ pool m = k ++ pool m' /\ k ≡ₚ ps ++ ts /\ NoDup k /\
      (forall p, p ∈ ts -> is_Some (own' !! p)) /\ (forall p, p ∈ ps -> own' !! p = None) /\
      forall i p, ps !! i = Some p -> lookup m' PML4 ((b + Z.of_nat i) * PAGE_SIZE) = map_value p flags;
  ar_err : r <> Ok tt -> r = Err ENOMEM /\
    (forall w, a <= vpn w < b + n -> present (lookup m' PML4 w) = false \/ lookup m' PML4 w = lookup m PML4 w /\ b <= vpn w) /\
    exists k, pool m = k ++ pool m' /\
      forall p, p ∈ mapped m PML4 a b \/ p ∈ k -> p ∈ released m' \/ is_Some (own' !! p);
}.

Lemma release_fails own own' m m1 a b n page k :
  wf own' m1 PML4 -> own ⊆ own' -> locks m1 = ∅ -> 0 <= a <= b -> b + n < 2 ^ 36 -> 0 < n ->
  (forall w, vpn w <> b -> lookup m1 PML4 w = lookup m PML4 w) ->
  (forall w, vpn w = b -> present (lookup m1 PML4 w) = false \/ lookup m1 PML4 w = lookup m PML4 w) ->
  released m1 = page ++ released m -> pool m = k ++ pool m1 ->
  (forall p, p ∈ k -> p ∈ page \/ is_Some (own' !! p)) ->
  (forall p, is_Some (own' !! p) -> is_Some (own !! p) \/ p ∈ pool m) ->
  exists m', mmu_unmap_and_release_pages m1 PML4 (a * PAGE_SIZE) (b * PAGE_SIZE -! a * PAGE_SIZE) = Some m' /\
    alloc_result own own' m m' a b n (Err ENOMEM).
Proof.
  intros Hwf Hs Hk Hab Hb Hn Hl1 Hlb Hrel Hpool Htaken Htabs.
  unfold mmu_unmap_and_release_pages, aligned, PAGE_SIZE. rewrite (u64_small (b * 4096 - a * 4096)) by (unfold is_u64; lia).
  rewrite <- Z.mul_sub_distr_r, !Z_mod_mult, Z.eqb_refl. cbn [andb negb].
  rewrite u64_small by (unfold is_u64; lia). replace (a * 4096 + (b - a) * 4096) with (b * 4096) by lia.
  destruct (foreach_unmap_spec own' PML4 true _ unmap_and_release_body (unmap_fuel m1) m1 a b Hwf) as (m' & E & Hun);
    [lia|lia|unfold unmap_fuel; lia|]. exists m'. split; [exact E|]. destruct (Hun ltac:(lia)) as [U1 U2 U3 U4 U5].
  assert (Em : mapped m1 PML4 a b = mapped m PML4 a b).
  { apply mapped_ext. intros x Hx. apply Hl1. rewrite vpn_small; lia. }
  constructor; try done.
  - by rewrite U3.
  - intros w Hw. rewrite U2, decide_False by lia. apply Hl1. lia.
  - intros _. split; [done|]. split.
    + intros w Hw. rewrite U2. destruct (decide (_ /\ _)) as [|Hno]; [by left|].
      destruct (decide (vpn w < b)).
      * left. apply not_true_is_false. intros Hp. apply Hno. split; [lia|done].
      * destruct (decide (vpn w = b)) as [Eb|]; [destruct (Hlb w Eb); [by left|right]; by split; [|lia]|].
        right. split; [apply Hl1; lia|lia].
    + exists k. rewrite U4. split; [done|]. rewrite U5, Em, Hrel. intros p. rewrite !elem_of_app, elem_of_rev.
      intros [Hp|Hp]; [by left; left|]. destruct (Htaken p Hp); [left; by right; left|by right].
Qed.

Lemma allocate_loop_spec n own m a b :
  wf own m PML4 -> locks m = ∅ -> 0 <= a <= b -> b + Z.of_nat n < 2 ^ 36 ->
  exists own' m' r, allocate_and_map_loop n m PML4 (a * PAGE_SIZE) (b * PAGE_SIZE) flags = Some (m', r) /\
    alloc_result own own' m m' a b (Z.of_nat n) r.
Proof.
  revert own m b. induction n as [|n IH]; intros own m b Hwf Hk Hab Hb; cbn [allocate_and_map_loop].
  - exists own, m, (Ok tt). split; [done|]. constructor; try done; [by left|]. intros _. split; [done|]. split; [done|].
    exists [], [], []. split_and!; try done; [constructor|by intros p ?%not_elem_of_nil..].
  - unfold pmm_allocate_page. destruct (pool m) as [|page rest] eqn:Epool.
    { destruct (release_fails own own m m a b (Z.of_nat (S n)) [] []) as (m' & -> & HR); try done; try lia.
      { by intros p ?%not_elem_of_nil. }
      { by left. }
      cbn [mbind option_bind]. by exists own, m', (Err ENOMEM). }
    pose proof (wf_pool_nodup _ _ _ Hwf) as Hnodup. rewrite Epool in Hnodup. apply NoDup_cons in Hnodup as (Hpg & Hrest).
    destruct (wf_pool _ _ _ Hwf page) as (Hfree & Hal & Hrange); [rewrite Epool; by left|].
    set (m0 := mk_mem (tables m) (locks m) rest (released m)).
    assert (Hwf0 : wf own m0 PML4).
    { destruct Hwf. constructor; try done; simpl; rewrite Epool in *.
      intros p Hp. apply wf_pool0. by right. }
    assert (Hl0 : forall w, lookup m0 PML4 w = lookup m PML4 w) by (intros; apply lookup_tables).
    unfold mmu_map_pages. change (PAGE_SIZE / PAGE_SIZE) with 1. change (Z.to_nat 1) with 1%nat.
    assert (Haln : aligned (b * PAGE_SIZE) = true) by (unfold aligned; by rewrite Z_mod_mult).
    rewrite Haln. change (aligned PAGE_SIZE) with true. cbn [andb negb].
    destruct (map_pages_loop_spec PML4 1 own m0 (b * PAGE_SIZE) (b * PAGE_SIZE) page flags None)
      as (own1 & m1 & r & -> & [M1 M2 M3 (k & Hpool & Htk) M4 M5 M6]); try done;
      rewrite ?vpn_small; try (unfold PAGE_SIZE; lia); try lia.
    rewrite vpn_small in * by lia. cbn [mbind option_bind]. destruct r as [[]|err].
    2:{ destruct (M6 ltac:(done)) as (Hr1 & Hl1); [unfold PAGE_SIZE; lia|]. rewrite (M5 ltac:(done)).
        destruct (release_fails own own1 m (pmm_release_page m1 page) a b (Z.of_nat (S n)) [page] (page :: k))
          as (m' & -> & HR); try done; try lia.
        - by apply wf_tables.
        - intros w Hw. unfold pmm_release_page. rewrite lookup_tables, <- Hl0. apply Hl1. lia.
        - intros w Hw. unfold pmm_release_page. rewrite lookup_tables, <- Hl0. apply Hl1. lia.
        - simpl. by rewrite Hr1.
        - simpl. rewrite Epool. f_equal. apply Hpool.
        - intros p [->|Hp]%elem_of_cons; [left; by apply list_elem_of_singleton|right; apply Htk; by right].
        - intros p [Hp|Hp]%Htk; [by left|]. right. rewrite Epool. right. change rest with (pool m0). rewrite Hpool.
          apply elem_of_app. by left.
        - cbn [mbind option_bind]. by exists own1, m', (Err ENOMEM). }
    destruct (M4 eq_refl) as (Hr1 & Hl1). change (Z.of_nat 1) with 1 in *.
    rewrite (u64_small (b * PAGE_SIZE + PAGE_SIZE)) by (unfold is_u64, PAGE_SIZE; lia).
    replace (b * PAGE_SIZE + PAGE_SIZE) with ((b + 1) * PAGE_SIZE) by lia.
    destruct (IH own1 m1 (b + 1) M2 M3) as (own2 & m2 & r & -> & [A1 A2 A3 A4 At A5 A6]); [lia|lia|].
    change (pool m0) with rest in Hpool. rewrite Hpool in Hpg, Hrest.
    assert (Hnew : forall p, is_Some (own2 !! p) -> is_Some (own !! p) \/ p ∈ rest).
    { intros p [[Hp|Hp]%Htk|Hp]%At; [by left|right; rewrite Hpool; apply elem_of_app; by left|].
      right. rewrite Hpool. apply elem_of_app. by right. }
    assert (Hmapped : own2 !! page = None).
    { apply eq_None_not_Some. intros [(x & Hx)|Hp]%Hnew; [|by rewrite Hpool in Hp].
      destruct (wf_table _ _ _ Hwf _ _ Hx). congruence. }
    exists own2, m2, r. split; [done|].
    assert (Hat : lookup m1 PML4 (b * PAGE_SIZE) = map_value page flags).
    { rewrite Hl1, vpn_small, decide_True, Z.sub_diag, Z.add_0_r by lia. done. }
    assert (Hout : forall w, vpn w <> b -> lookup m1 PML4 w = lookup m PML4 w).
    { intros w Hw. rewrite Hl1, decide_False by lia. apply Hl0. }
    constructor; try done.
    + by etrans.
    + intros w Hw. rewrite A4 by lia. apply Hout. lia.
    + intros p [?|?]%Hnew; [by left|right]. rewrite Epool. by right.
    + intros Hok. destruct (A5 Hok) as (Hr2 & Hlow & ps & ts & k2 & Hlen & Hp2 & Hperm & Hnd2 & Hts & Hps & Hlk2).
      split; [by rewrite Hr2, Hr1|]. split; [intros w Hw; rewrite Hlow, Hout by lia; done|].
      exists (page :: ps), (k ++ ts), (page :: k ++ k2). rewrite lenZ_cons, Hlen. split; [lia|]. split.
      { rewrite Epool. simpl. rewrite <- app_assoc, <- Hp2. f_equal. apply Hpool. }
      split; [rewrite Hperm; simpl; by rewrite (Permutation_app_swap_app ps)|]. split.
      { rewrite Hp2, app_assoc in Hpg, Hrest. apply NoDup_cons. apply NoDup_app in Hrest as (? & _).
        split; [|done]. intros Hin. apply Hpg. apply elem_of_app. by left. }
      split; [|split].
      * intros p [Hp|Hp]%elem_of_app; [|by apply Hts]. destruct (proj2 (Htk p) (or_intror Hp)) as (x & Hx).
        exists x. by eapply lookup_weaken.
      * intros p [->|Hp]%elem_of_cons; [done|by apply Hps].
      * intros [|i] p Hi; simpl in Hi.
        -- injection Hi as <-. rewrite Z.add_0_r, Hlow; [done|]. rewrite vpn_small; lia.
        -- rewrite <- (Hlk2 i p Hi). do 2 f_equal. lia.
    + intros Hne. destruct (A6 Hne) as (-> & Hl2 & k2 & Hp2 & Hleak). split; [done|]. split.
      * intros w Hw. destruct (Hl2 w ltac:(lia)) as [|(E & Hle)]; [by left|right].
        rewrite E, Hout by lia. split; [done|lia].
      * exists (page :: k ++ k2). split.
        { rewrite Epool. simpl. rewrite <- app_assoc, <- Hp2. f_equal. apply Hpool. }
        assert (Em : mapped m1 PML4 a (b + 1) = mapped m PML4 a b ++ [page]).
        { rewrite mapped_snoc by lia. f_equal.
          - apply mapped_ext. intros x Hx. apply Hout. rewrite vpn_small; lia.
          - unfold mapped_page. rewrite Hat, present_map_value, map_value_page by done. done. }
        rewrite Em in Hleak. intros p [Hp|[->|[Hp|Hp]%elem_of_app]%elem_of_cons]; try (apply Hleak; rewrite ?elem_of_app, ?list_elem_of_singleton; tauto).
        right. destruct (proj2 (Htk p) (or_intror Hp)) as (x & Hx). exists x. by eapply lookup_weaken.
Qed.

End allocate.

(** The walk that locks hand over hand finds the entry that the walk without locks finds,
    and returns with exactly the lock of its table, or none. *)
Lemma get_entry_locked_spec own PML4 m l t v :
  wf own m PML4 -> own !! t = Some (l, region l (vpn v)) -> (l <= 3)%nat -> locks m = {[t]} ->
  exists k r, get_entry_locked l m t v = Some (mk_mem (tables m) k (pool m) (released m), r) /\
    get_entry l m t v = Some r /\ k = match r with Some en => {[en.1]} | None => ∅ end.
Proof.
  revert m t. induction l as [|l IH]; intros m t Hwf Ht Hl Hk; cbn [get_entry_locked get_entry].
  - exists (locks m), (Some (t, PAGING_LEVEL_INDEX 0 v)). split; [by destruct m|]. split; [done|exact Hk].
  - rewrite index_slot by done. destruct (load_table m t (slot (S l) (vpn v))) as (x & E); [by eapply wf_table|apply slot_range|].
    rewrite E. cbn [mbind option_bind]. destruct (present x) eqn:Ep; cbn [negb].
    + assert (Hc : own !! mmu_entry_val_get_page x = Some (l, region l (vpn v))).
      { unfold mmu_entry_val_get_page. rewrite Ep, region_step. by eapply wf_child. }
      destruct (hand_over m t (mmu_entry_val_get_page x) Hk) as (m2 & E2 & ->).
      { intros Ec. rewrite Ec, Ht in Hc. injection Hc as Hc _. lia. }
      destruct (pmm_acquire_page_lock m (mmu_entry_val_get_page x)) as [m3|]; [|done].
      cbn [mbind option_bind] in E2 |- *. rewrite E2. cbn [mbind option_bind].
      destruct (IH (mk_mem (tables m) {[mmu_entry_val_get_page x]} (pool m) (released m)) (mmu_entry_val_get_page x))
        as (k & r & -> & Hg & Hkr); [by apply wf_tables|done|lia|done|].
      exists k, r. split; [done|]. split; [|done]. rewrite <- Hg. apply (get_entry_frame own PML4); [by apply wf_tables|done|lia|done].
    + unfold pmm_release_page_lock. rewrite decide_True by (rewrite Hk; set_solver). cbn [mbind option_bind].
      eexists _, None. split; [done|]. split; [done|]. rewrite Hk. set_solver.
Qed.

Theorem mmu_get_entry_and_acquire_lock_correct own PML4 m v :
  wf own m PML4 -> locks m = ∅ ->
  exists r, mmu_get_entry m PML4 v = Some r /\
    mmu_get_entry_and_acquire_lock m PML4 v =
      Some (mk_mem (tables m) (match r with Some en => {[en.1]} | None => ∅ end) (pool m) (released m), r).
Proof.
  intros Hwf Hk. unfold mmu_get_entry_and_acquire_lock, pmm_acquire_page_lock.
  rewrite decide_False by (rewrite Hk; set_solver). cbn [mbind option_bind]. rewrite Hk, union_empty_r_L.
  destruct (get_entry_locked_spec own PML4 (mk_mem (tables m) {[PML4]} (pool m) (released m)) 3 PML4 v) as (k & r & E & Hg & ->);
    [by apply wf_tables|by rewrite region_3, (wf_root _ _ _ Hwf)|lia|done|].
  exists r. split; [|exact E]. rewrite <- Hg. apply (get_entry_frame own PML4); [by apply wf_tables| |lia|done].
  by rewrite region_3, (wf_root _ _ _ Hwf).
Qed.


(** ** The theorems *)

(** C3: [mmu_map_pages] of an aligned range that does not wrap around, in a space whose
    tables are well formed, with no lock held: the call returns with no lock held and
    well-formed tables, and the pages it takes from the pool are exactly the new tables.
    When it succeeds, each page of the range has exactly the physical page of its place,
    with the flags asked for, every other page of the space is mapped as before and nothing
    is released; this holds for ranges of both halves.  When tables cannot be allocated it
    fails with [ENOMEM], and for a range below 2^48 no page outside the range changes and
    in the range nothing new is mapped.  That bound is needed: for a range of the upper half
    the failure path unmaps beyond the range ([mmu_unmap_kernel_overruns]). *)
Theorem mmu_map_pages_correct own m PML4 vaddr paddr size flags :
  wf own m PML4 -> locks m = ∅ -> aligned vaddr = true -> aligned size = true ->
  0 <= vaddr -> 0 <= size -> vaddr + size < 2 ^ 64 -> vpn vaddr + size / PAGE_SIZE < 2 ^ 36 ->
  0 <= paddr -> paddr + size < 2 ^ 64 ->
  exists own' m' r, mmu_map_pages m PML4 vaddr paddr size flags = Some (m', r) /\
    own ⊆ own' /\ wf own' m' PML4 /\ locks m' = ∅ /\ taken own own' m m' /\
    (r = Ok tt -> released m' = released m /\ forall w, lookup m' PML4 w =
       if decide (vpn vaddr <= vpn w < vpn vaddr + size / PAGE_SIZE)
       then map_value (paddr + (vpn w - vpn vaddr) * PAGE_SIZE) flags else lookup m PML4 w) /\
    (r <> Ok tt -> r = Err ENOMEM /\ (vaddr + size < 2 ^ 48 -> released m' = released m /\ forall w,
       (~ vpn vaddr <= vpn w < vpn vaddr + size / PAGE_SIZE -> lookup m' PML4 w = lookup m PML4 w) /\
       (vpn vaddr <= vpn w < vpn vaddr + size / PAGE_SIZE ->
          present (lookup m' PML4 w) = false \/ lookup m' PML4 w = lookup m PML4 w))).
Proof.
  intros Hwf Hk Hav Has Hv Hs Hend Hvpn Hp Hpe. unfold mmu_map_pages. rewrite Hav, Has. cbn [andb negb].
  destruct (aligned_page size Has) as (n & -> & _). unfold PAGE_SIZE in Hs, Hend, Hvpn, Hpe.
  rewrite Z.div_mul in * by done.
  destruct (map_pages_loop_spec PML4 (Z.to_nat n) own m vaddr vaddr paddr flags None)
    as (own' & m' & r & -> & [M1 M2 M3 Mt M4 M5 M6]); try done; try (unfold PAGE_SIZE; lia).
  rewrite Z2Nat.id in * by lia. exists own', m', r. split_and!; try done.
  intros Hr. split; [by apply M5|]. intros Hlow. destruct (M6 Hr Hlow) as (Hrel & Hl). split; [done|].
  intros w. destruct (Hl w) as (_ & L2 & L3). by split.
Qed.

(** Translation inverts mapping: after a range has been mapped to physical memory with the
    flag [MMU_FLAG_PRESENT], each address of the range translates to the address at the same
    distance from the start of the physical range. *)
Theorem mmu_map_translate own m m' PML4 vaddr paddr size flags a :
  wf own m PML4 -> locks m = ∅ -> aligned vaddr = true -> aligned size = true -> aligned paddr = true ->
  0 <= vaddr -> 0 <= size -> vaddr + size < 2 ^ 48 -> 0 <= paddr -> paddr + size < 2 ^ 52 ->
  has flags MMU_FLAG_PRESENT = true ->
  mmu_map_pages m PML4 vaddr paddr size flags = Some (m', Ok tt) -> vaddr <= a < vaddr + size ->
  mmu_space_virt2phys m' PML4 a = Some (paddr + (a - vaddr)).
Proof.
  intros Hwf Hk Hav Has Hap Hv Hs Hlow Hp Hpe Hf E Ha. revert E. unfold mmu_map_pages. rewrite Hav, Has. cbn [andb negb].
  destruct (aligned_page size Has) as (n & -> & _). destruct (aligned_page vaddr Hav) as (b & -> & _).
  destruct (aligned_page paddr Hap) as (c & -> & _). unfold PAGE_SIZE in Hv, Hs, Hlow, Hpe, Hp. rewrite Z.div_mul by done.
  destruct (map_pages_loop_spec PML4 (Z.to_nat n) own m (b * PAGE_SIZE) (b * PAGE_SIZE) (c * PAGE_SIZE) flags None)
    as (own' & m1 & r & -> & [M1 M2 M3 Mt M4 M5 M6]); try done; rewrite ?vpn_small; try (unfold PAGE_SIZE; lia).
  rewrite Z2Nat.id in * by lia. rewrite vpn_small in * by lia. intros [= -> ->]. destruct (M4 eq_refl) as (_ & Hl).
  unfold PAGE_SIZE in Ha. pose proof (Z.div_mod a 4096 ltac:(lia)). pose proof (Z.mod_pos_bound a 4096 ltac:(lia)).
  assert (Hvp : vpn a = a / 4096) by (apply Z.mod_small; unfold PAGE_SIZE; lia).
  pose proof (lookup_get_entry own' PML4 m' a M2) as Hg. rewrite Hl, decide_True in Hg by lia.
  unfold mmu_space_virt2phys.
  assert (Hpr : forall x, present (map_value x flags) = true) by (intros; by apply present_map_value).
  destruct (mmu_get_entry m' PML4 a) as [[en|]|]; cbn [mbind option_bind].
  - destruct (load m' en) as [v|]; cbn [mbind option_bind].
    + change (default 0 (Some v)) with v in Hg. rewrite <- Hg, Hpr, map_value_page, (land_ones_mod a 0xfff 12) by
        (try lia; unfold PAGE_SIZE; try lia; rewrite <- Z.mul_add_distr_r; apply Z_mod_mult).
      f_equal. unfold PAGE_SIZE. change (2 ^ 12) with 4096. lia.
    + change (default 0 None) with 0 in Hg. specialize (Hpr (c * PAGE_SIZE + (vpn a - b) * PAGE_SIZE)). rewrite Hg in Hpr. done.
  - specialize (Hpr (c * PAGE_SIZE + (vpn a - b) * PAGE_SIZE)). rewrite Hg in Hpr. done.
  - specialize (Hpr (c * PAGE_SIZE + (vpn a - b) * PAGE_SIZE)). rewrite Hg in Hpr. done.
Qed.

(** Unmapping a range of user addresses ends, removes exactly the present entries of the
    range and changes no other entry, no table, no lock and no page of the pool; the variant
    that releases gives back exactly the pages that were mapped there, in address order. *)
Theorem mmu_unmap_correct own m PML4 vaddr size :
  wf own m PML4 -> aligned vaddr = true -> aligned size = true ->
  0 <= vaddr -> 0 <= size -> vaddr + size < 2 ^ 48 ->
  (exists m', mmu_unmap_pages m PML4 vaddr size = Some m' /\
     unmapped own false PML4 (vaddr / PAGE_SIZE) ((vaddr + size) / PAGE_SIZE) m m') /\
  (exists m', mmu_unmap_and_release_pages m PML4 vaddr size = Some m' /\
     unmapped own true PML4 (vaddr / PAGE_SIZE) ((vaddr + size) / PAGE_SIZE) m m').
Proof.
  intros Hwf Hav Has Hv Hs Hlow. unfold mmu_unmap_pages, mmu_unmap_and_release_pages. rewrite Hav, Has. cbn [andb negb].
  destruct (aligned_page size Has) as (n & -> & _). destruct (aligned_page vaddr Hav) as (b & -> & _).
  unfold PAGE_SIZE in Hv, Hs, Hlow. rewrite u64_small by (unfold is_u64, PAGE_SIZE; lia).
  rewrite <- Z.mul_add_distr_r, !Z.div_mul by done.
  destruct (foreach_unmap_spec own PML4 false _ unmap_body (unmap_fuel m) m b (b + n) Hwf) as (m1 & E1 & U1);
    [lia|lia|unfold unmap_fuel; lia|].
  destruct (foreach_unmap_spec own PML4 true _ unmap_and_release_body (unmap_fuel m) m b (b + n) Hwf) as (m2 & E2 & U2);
    [lia|lia|unfold unmap_fuel; lia|].
  split; [exists m1; split; [exact E1|apply U1; lia]|exists m2; split; [exact E2|apply U2; lia]].
Qed.

(** C27: [mmu_allocate_and_map_pages] of an aligned range below 2^48 (user addresses) of a
    space whose tables are well formed, with no lock held and with [MMU_FLAG_PRESENT] among
    the flags.  It returns with well-formed tables and no lock held.  When it succeeds every
    page of the range is mapped, with the flags asked for, to a page of its own: the pages
    taken from the pool are all different, one for each page of the range and the others
    new tables, and none of those that are mapped is a table.  When it fails, with
    [ENOMEM], nothing new is mapped and no page is lost: each page taken from the pool has
    been given back or is a table of the space.  Pages outside the range never change. *)
Theorem mmu_allocate_and_map_correct own m PML4 vaddr size flags :
  wf own m PML4 -> locks m = ∅ -> aligned vaddr = true -> aligned size = true ->
  0 <= vaddr -> 0 <= size -> vaddr + size < 2 ^ 48 -> has flags MMU_FLAG_PRESENT = true ->
  exists own' m' r, mmu_allocate_and_map_pages m PML4 vaddr size flags = Some (m', r) /\
    alloc_result PML4 flags own own' m m' (vaddr / PAGE_SIZE) (vaddr / PAGE_SIZE) (size / PAGE_SIZE) r.
Proof.
  intros Hwf Hk Hav Has Hv Hs Hlow Hf. unfold mmu_allocate_and_map_pages. rewrite Hav, Has. cbn [andb negb].
  destruct (aligned_page size Has) as (n & -> & _). destruct (aligned_page vaddr Hav) as (b & -> & _).
  unfold PAGE_SIZE in Hv, Hs, Hlow. rewrite !Z.div_mul by done.
  destruct (allocate_loop_spec PML4 flags Hf (Z.to_nat n) own m b b Hwf Hk) as (own' & m' & r & -> & HR); [lia|lia|].
  rewrite Z2Nat.id in HR by lia. by exists own', m', r.
Qed.

(** Destroying a space releases exactly its root and the tables of its lower half, each
    once; the tables of the upper half, which all spaces share, stay as they are. *)
Theorem mmu_space_destroy_correct own m PML4 :
  wf own m PML4 ->
  exists m', mmu_space_destroy m PML4 = Some m' /\
    freed (fun t => t = PML4 \/ exists i, 0 <= i < 256 /\ under own 2 i t) m m'.
Proof.
  intros Hwf. unfold mmu_space_destroy.
  destruct (destroy_loop_spec own PML4 m Hwf 2 PML4 0 (destroy_table 2)
    (seqZ 0 (PAGING_ENTRIES_PER_LEVEL - SHARED_PML4_ENTRIES_COUNT)) m) as (m1 & -> & F); try done.
  - apply (wf_root _ _ _ Hwf).
  - lia.
  - apply NoDup_seqZ.
  - apply Forall_forall. intros i Hi%elem_of_seqZ. unfold PAGING_ENTRIES_PER_LEVEL, SHARED_PML4_ENTRIES_COUNT in Hi. lia.
  - intros m1 t q Ht Hs. by apply (destroy_table_spec own PML4 m Hwf); [|lia|].
  - cbn [mbind option_bind]. eexists. split; [done|].
    eapply freed_ext; [|eapply freed_tables_trans; [exact F|apply freed_table|]].
    + intros t. setoid_rewrite elem_of_seqZ. unfold PAGING_ENTRIES_PER_LEVEL, SHARED_PML4_ENTRIES_COUNT.
      split; [intros [(i & Hi & H)| ->]; [right; exists i; split; [lia|done]|by left]|].
      intros [->|(i & Hi & H)]; [by right|left]. exists i. split; [lia|done].
    + intros t (i & _ & (l & p & Ho & Hle & _)) ->. rewrite (wf_root _ _ _ Hwf) in Ho. injection Ho as <- _. lia.
Qed.

Lemma land_bit f i : 0 <= i -> Z.land f (2 ^ i) = if has f (2 ^ i) then 2 ^ i else 0.
Proof.
  intros Hi. rewrite <- (Z.shiftl_1_l i), has_bit by done. apply Z.bits_inj'. intros j Hj.
  rewrite Z.land_spec, testbit_bit by done. destruct (Z.testbit f i) eqn:E.
  - rewrite testbit_bit by done. destruct (j =? i) eqn:Ej; zbool; [subst; by rewrite E|by rewrite andb_false_r].
  - rewrite Z.bits_0. destruct (j =? i) eqn:Ej; zbool; [subst; by rewrite E|by rewrite andb_false_r].
Qed.

(** The flags read back from an entry are the flags it was mapped with, except that a
    present page is also readable and that [MMU_FLAG_GLOBAL] and flags the processor does
    not know are forgotten. *)
Theorem mmu_flags_roundtrip p flags :
  mmu_entry_val_get_flags (map_value p flags) =
  if has flags MMU_FLAG_PRESENT
  then Z.lor MMU_FLAG_READ (Z.land flags (MMU_FLAG_PRESENT + MMU_FLAG_WRITE + MMU_FLAG_EXEC + MMU_FLAG_USER
                                          + MMU_FLAG_WRITE_COMBINE + MMU_FLAG_UNCACHED))
  else 0.
Proof.
  assert (Hb : forall b, Z.land PAGING_ENTRY_ADDRESS b = 0 -> has (map_value p flags) b = has (mmu2paging_flags flags) b).
  { intros b H. unfold map_value. rewrite has_lor, has_land_disjoint by done. done. }
  unfold mmu_entry_val_get_flags, present, paging2mmu_flags. rewrite !Hb by done.
  change (MMU_FLAG_PRESENT + MMU_FLAG_WRITE + MMU_FLAG_EXEC + MMU_FLAG_USER + MMU_FLAG_WRITE_COMBINE + MMU_FLAG_UNCACHED)
    with (Z.lor (2 ^ 0) (Z.lor (2 ^ 2) (Z.lor (2 ^ 3) (Z.lor (2 ^ 4) (Z.lor (2 ^ 8) (2 ^ 9)))))).
  rewrite !Z.land_lor_distr_r, !land_bit by done.
  change (2 ^ 0) with MMU_FLAG_PRESENT. change (2 ^ 2) with MMU_FLAG_WRITE. change (2 ^ 3) with MMU_FLAG_EXEC.
  change (2 ^ 4) with MMU_FLAG_USER. change (2 ^ 8) with MMU_FLAG_WRITE_COMBINE. change (2 ^ 9) with MMU_FLAG_UNCACHED.
  unfold mmu2paging_flags, flag_if.
  generalize (has flags MMU_FLAG_PRESENT), (has flags MMU_FLAG_WRITE), (has flags MMU_FLAG_EXEC),
    (has flags MMU_FLAG_USER), (has flags MMU_FLAG_GLOBAL), (has flags MMU_FLAG_WRITE_COMBINE),
    (has flags MMU_FLAG_UNCACHED). clear Hb.
  intros [] [] [] [] [] [] []; vm_compute; reflexivity.
Qed.

(** ** A space for the examples: an empty root and six free pages. *)

Definition ex_mem : mem :=
  mk_mem {[ 4096 := ∅ ]} ∅ [8192; 12288; 16384; 20480; 24576; 28672] [].
Definition ex_own : gmap Z (nat * Z) := {[ 4096 := (3%nat, 0) ]}.

Lemma ex_space_wf : wf ex_own ex_mem 4096.
Proof.
  constructor.
  - done.
  - intros t x. unfold ex_own. rewrite lookup_singleton_Some. intros (<- & _). by eexists.
  - intros t t' x. unfold ex_own. rewrite !lookup_singleton_Some. naive_solver.
  - intros t l p i v. unfold ex_own. rewrite lookup_singleton_Some. intros (<- & _).
    unfold load. case_if; [|done]. simpl. intros [= <-]. done.
  - intros t l p. unfold ex_own. rewrite lookup_singleton_Some. intros (<- & _). by left.
  - refine (bool_decide_eq_true_1 (NoDup (pool ex_mem)) _). vm_compute. reflexivity.
  - intros p Hp. assert (H : Forall (fun p => tables ex_mem !! p = None /\ p mod 4096 = 0 /\ 0 <= p < 2 ^ 52) (pool ex_mem)).
    { repeat constructor; vm_compute; congruence. }
    rewrite Forall_forall in H. by apply H.
Qed.

Definition ex_map : option (mem * res unit) := mmu_map_pages ex_mem 4096 0x3fe000 0x100000 0x4000 5.

Lemma mmu_map_pages_correct_witness :
  exists own' m' r, ex_map = Some (m', r) /\ wf own' m' 4096 /\ locks m' = ∅ /\ r = Ok tt /\
    lookup m' 4096 0x400123 = map_value 0x102000 5.
Proof.
  destruct (mmu_map_pages_correct ex_own ex_mem 4096 0x3fe000 0x100000 0x4000 5 ex_space_wf eq_refl eq_refl eq_refl
    ltac:(lia) ltac:(lia) ltac:(lia) eq_refl ltac:(lia) ltac:(lia)) as (own' & m' & r & E & _ & Hwf & Hk & _ & Hok & _).
  exists own', m', r. split; [exact E|]. split; [done|]. split; [done|].
  assert (Hr : snd <$> ex_map = Some (Ok tt)) by (vm_compute; reflexivity).
  unfold ex_map in Hr. rewrite E in Hr. simpl in Hr. injection Hr as ->. split; [done|].
  destruct (Hok eq_refl) as (_ & Hl). rewrite Hl. by vm_compute.
Defined.

Lemma mmu_map_translate_witness :
  exists m', ex_map = Some (m', Ok tt) /\ mmu_space_virt2phys m' 4096 0x400123 = Some 0x102123.
Proof.
  destruct ex_map as [[m' r]|] eqn:E; [|vm_compute in E; congruence].
  assert (Hr : snd <$> ex_map = Some (Ok tt)) by (vm_compute; reflexivity).
  rewrite E in Hr. simpl in Hr. injection Hr as ->. exists m'. split; [done|].
  rewrite (mmu_map_translate ex_own ex_mem m' 4096 0x3fe000 0x100000 0x4000 5 0x400123 ex_space_wf eq_refl eq_refl
    eq_refl eq_refl ltac:(lia) ltac:(lia) ltac:(lia) ltac:(lia) ltac:(lia) eq_refl E ltac:(lia)). reflexivity.
Defined.

Lemma mmu_unmap_correct_witness :
  exists m', mmu_unmap_pages ex_mem 4096 0x3fe000 0x2000 = Some m' /\ locks m' = ∅.
Proof.
  destruct (mmu_unmap_correct ex_own ex_mem 4096 0x3fe000 0x2000 ex_space_wf eq_refl eq_refl ltac:(lia) ltac:(lia) ltac:(lia))
    as ((m' & E & U) & _).
  exists m'. split; [exact E|]. by rewrite (un_locks _ _ _ _ _ _ _ U).
Defined.

Lemma mmu_allocate_and_map_correct_witness :
  exists m' r, mmu_allocate_and_map_pages ex_mem 4096 0x3fe000 0x3000 5 = Some (m', r) /\ locks m' = ∅.
Proof.
  destruct (mmu_allocate_and_map_correct ex_own ex_mem 4096 0x3fe000 0x3000 5 ex_space_wf eq_refl eq_refl eq_refl
    ltac:(lia) ltac:(lia) ltac:(lia) eq_refl) as (own' & m' & r & E & R).
  exists m', r. split; [exact E|]. apply (ar_locks _ _ _ _ _ _ _ _ _ _ R).
Defined.

Lemma mmu_space_destroy_correct_witness :
  exists m', mmu_space_destroy ex_mem 4096 = Some m' /\ tables m' !! 4096 = None.
Proof.
  destruct (mmu_space_destroy_correct ex_own ex_mem 4096 ex_space_wf) as (m' & E & F).
  exists m'. split; [exact E|]. apply (fr_gone _ _ _ F). by left.
Defined.

(** ** Where the code differs from what it means to do *)

(** An address of the upper half comes back from the search without its upper bits, so it is
    below every end given with them: unmapping one page of the kernel unmaps all the mapped
    pages behind it. *)
Example mmu_unmap_kernel_overruns :
  let base := 0xfffffe8000000000 in
  ('(m1, _) ← mmu_map_pages ex_mem 4096 base 0x100000 0x3000 5;
   m2 ← mmu_unmap_pages m1 4096 base 0x1000;
   before ← mmu_space_virt2phys m1 4096 (base + 0x2000);
   after ← mmu_space_virt2phys m2 4096 (base + 0x2000);
   Some (before, after)) = Some (0x102000, PAGE_INVALID).
Proof. vm_compute. reflexivity. Qed.

(** Two addresses 4 MB apart have the same bit 21, so the entry of the second is looked for
    in the table of the first, outside it. *)
Example mmu_create_next_outside :
  ('(m1, en) ← mmu_create_entry_and_acquire_lock ex_mem 4096 0x400000;
   en ← en;
   '(m2, en') ← mmu_create_next_entry_and_acquire_lock m1 4096 0x800000 (Some en) 0x400000;
   en' ← en';
   Some (bool_decide (en'.1 = en.1), en'.2, match mmu_entry_map m2 en' 0x100000 5 with None => true | Some _ => false end))
  = Some (true, 1024, true).
Proof. vm_compute. reflexivity. Qed.

(** [mmu2paging_flags] turns the absence of [MMU_FLAG_EXEC] into a bit of its own, so clearing
    [MMU_FLAG_WRITE] also clears that bit: the page becomes executable. *)
Example mmu_clear_write_makes_executable :
  let en := (4096, 0) in
  (m1 ← mmu_entry_map ex_mem en 0x100000 (MMU_FLAG_PRESENT + MMU_FLAG_WRITE);
   '(m2, _) ← mmu_entry_clear_flags m1 en MMU_FLAG_WRITE;
   f1 ← mmu_entry_get_flags m1 en;
   f2 ← mmu_entry_get_flags m2 en;
   Some (f1, f2)) =
  Some (MMU_FLAG_PRESENT + MMU_FLAG_READ + MMU_FLAG_WRITE, MMU_FLAG_PRESENT + MMU_FLAG_READ + MMU_FLAG_EXEC).
Proof. vm_compute. reflexivity. Qed.

End Paging.
