(* ===== verification/Slab.v ===== *)
(** Caches of objects of one size (kernel/mem/slab.c, kernel/include/mem/slab.h).

    A cache keeps its slabs in lists; [slabs] gives each slab by its address.  A slab is a
    block of pages of the physical memory manager that starts with its header; the chain of
    its free objects, which runs through the objects, is a sequence.  [pool] are the blocks
    that [pmm_allocate_pages] gives next, [owner] the [private] pointers of the pages that
    [slab_free] reads.  [evict] is the callback of the cache that gives up an object when
    there is no memory; constructors and destructors work on the contents of an object and
    are left out.  [None] is an access to something that is not there, a division by zero,
    and a node that is removed from a list it is not in or added to two lists. *)

From S2P Require Import Prelude.

Module Slab.

Definition SIZEOF_SLAB : Z := 48.
Definition ORDERS_COUNT : Z := 7.
Definition ORDER_SIZE1 : Z := 0.
Definition ORDER_SIZE64 : Z := 6.
Definition SIZE_MAX : Z := 2 ^ 64 - 1.
Definition ORDER2COUNT (order : Z) : Z := 2 ^ order.

Inductive slab_state := SLAB_FREE | SLAB_PARTIAL | SLAB_FULL.

Record slab := mk_slab {
  slab_free_list : list Z;
  allocated_count : Z;
  state : slab_state;
}.

Record slab_cache := mk_cache {
  size : Z;
  order : Z;
  free : list Z;
  free_count : Z;
  partial : list Z;
  full : list Z;
  slabs : gmap Z slab;
  owner : gmap Z Z;
  pool : list Z;
}.

Implicit Types (c : slab_cache) (s : slab).

Definition set_lists c (fr : list Z) (fc : Z) (pa fu : list Z) : slab_cache :=
  mk_cache (size c) (order c) fr fc pa fu (slabs c) (owner c) (pool c).
Definition set_slab c (a : Z) s : slab_cache :=
  mk_cache (size c) (order c) (free c) (free_count c) (partial c) (full c) (<[a := s]> (slabs c)) (owner c) (pool c).
Definition set_state s (st : slab_state) : slab := mk_slab (slab_free_list s) (allocated_count s) st.

(** ** The size of a slab *)

(** The loop of [slab_calculate_order]: the waste and the order that are best so far. *)
Fixpoint order_loop (l : list Z) (sz best_waste best_order : Z) : Z :=
  match l with
  | [] => best_order
  | order :: l =>
      let usable_size := ORDER2COUNT order * PAGE_SIZE - SIZEOF_SLAB in
      let objects_per_slab := usable_size / sz in
      if objects_per_slab =? 0 then order_loop l sz best_waste best_order
      else
        let used_size := objects_per_slab * sz in
        let wasted_size := usable_size - used_size in
        let penalty := 256 * (ORDER2COUNT order - 1) in
        if wasted_size +! penalty <=? best_waste
        then order_loop l sz wasted_size order
        else order_loop l sz best_waste best_order
  end.

Definition slab_calculate_order (sz : Z) : Z :=
  if sz <? 1024 then ORDER_SIZE1
  else order_loop (seqZ 0 ORDERS_COUNT) sz SIZE_MAX ORDER_SIZE64.

(** [pool] and [owner] are those of the physical memory manager. *)
Definition slab_init (sz : Z) (owner : gmap Z Z) (pool : list Z) : res slab_cache :=
  if sz >? PAGE_SIZE - SIZEOF_SLAB then Err EINVAL
  else
    let sz := if negb (sz mod 16 =? 0) then sz + (16 - sz mod 16) else sz in
    Ok (mk_cache sz (slab_calculate_order sz) [] 0 [] [] ∅ owner pool).

(** ** Slabs *)

Definition objects_count (sz order : Z) : Z := (ORDER2COUNT order * PAGE_SIZE - SIZEOF_SLAB) / sz.

(** The chain of the free objects of a new slab. *)
Definition objects (sz order a : Z) : list Z :=
  (fun i => a + SIZEOF_SLAB + i * sz) <$> seqZ 0 (objects_count sz order).

(** [pmm_page_info(page + i * PAGE_SIZE)->private = slab]; a page is its number. *)
Fixpoint set_owner (ow : gmap Z Z) (a : Z) (l : list Z) : gmap Z Z :=
  match l with
  | [] => ow
  | p :: l => set_owner (<[p := a]> ow) a l
  end.

Definition new_slab c : option (slab_cache * option Z) :=
  match pool c with
  | [] => Some (c, None)
  | a :: rest =>
      if size c =? 0 then None
      else
        Some (mk_cache (size c) (order c) (free c) (free_count c) (partial c) (full c)
                (<[a := mk_slab (objects (size c) (order c) a) 0 SLAB_FREE]> (slabs c))
                (set_owner (owner c) a (seqZ (a / PAGE_SIZE) (ORDER2COUNT (order c)))) rest,
              Some a)
  end.

(** [list_remove] of a node of a list. *)
Definition list_remove (a : Z) (l : list Z) : option (list Z) :=
  if decide (a ∈ l) then Some (List.filter (fun x => negb (x =? a)) l) else None.

Section slab.
Context (evict : slab_cache -> option Z).

(** The object that the callback gives up.  The destructor runs on it here and the constructor in
    [slab_alloc]: both work on the contents of the object, which the model does not have. *)
Definition slab_evict c : option Z := evict c.

(** The slab to take an object from: it is moved to the list of the partial slabs.  The
    node of a new slab, whose links are null, is removed from the empty list of the free
    slabs: only the count of the list changes.  Nothing ever fills the list of the free slabs;
    the branch for a list that is not empty would leave its first slab, one node, on two lists,
    and is [None]. *)
Definition take_slab c : option (slab_cache * option Z) :=
  match partial c with
  | a :: _ => Some (c, Some a)
  | [] =>
      match free c with
      | _ :: _ => None
      | [] =>
          '(c, a) ← new_slab c;
          match a with
          | None => Some (c, None)
          | Some a =>
              s ← slabs c !! a;
              let c := set_slab c a (set_state s SLAB_PARTIAL) in
              Some (set_lists c [] (free_count c -! 1) (a :: partial c) (full c), Some a)
          end
      end
  end.

Definition slab_alloc c : option (slab_cache * option Z) :=
  '(c, a) ← take_slab c;
  match a with
  | None => Some (c, slab_evict c)
  | Some a =>
      s ← slabs c !! a;
      match slab_free_list s with
      | [] => None
      | node :: next =>
          let s := mk_slab next (allocated_count s +! 1) (state s) in
          match next with
          | [] =>
              let c := set_slab c a (set_state s SLAB_FULL) in
              pa ← list_remove a (partial c);
              Some (set_lists c (free c) (free_count c) pa (full c ++ [a]), Some node)
          | _ :: _ => Some (set_slab c a s, Some node)
          end
      end
  end.

(** The pages go back to the physical memory manager. *)
Definition free_slab c (a : Z) : slab_cache :=
  mk_cache (size c) (order c) (free c) (free_count c) (partial c) (full c) (delete a (slabs c)) (owner c) (a :: pool c).

Definition slab_free c (ptr : Z) : option slab_cache :=
  a ← owner c !! (ptr / PAGE_SIZE);
  s ← slabs c !! a;
  let s := mk_slab (ptr :: slab_free_list s) (allocated_count s -! 1) (state s) in
  if allocated_count s =? 0 then
    pa ← list_remove a (partial c);
    Some (free_slab (set_lists (set_slab c a (set_state s SLAB_FREE)) (free c) (free_count c) pa (full c)) a)
  else
    match state s with
    | SLAB_FULL =>
        fu ← list_remove a (full c);
        Some (set_lists (set_slab c a (set_state s SLAB_PARTIAL)) (free c) (free_count c) (a :: partial c) fu)
    | _ => Some (set_slab c a s)
    end.

End slab.

(** ** What a cache promises *)

(** An object is live when it is in a slab and not on its free chain. *)
Definition live c (p : Z) : Prop :=
  exists a s, slabs c !! a = Some s /\ p ∈ objects (size c) (order c) a /\ p ∉ slab_free_list s.

Definition block_size c : Z := ORDER2COUNT (order c) * PAGE_SIZE.

Record slab_ok c (a : Z) s : Prop := {
  sl_aligned : a mod block_size c = 0;
  sl_nodup : NoDup (slab_free_list s);
  sl_free : forall p, p ∈ slab_free_list s -> p ∈ objects (size c) (order c) a;
  sl_count : allocated_count s = objects_count (size c) (order c) - lenZ (slab_free_list s);
  sl_owner : forall i, 0 <= i < ORDER2COUNT (order c) -> owner c !! (a / PAGE_SIZE + i) = Some a;
}.

Record cache_inv c : Prop := {
  co_size : 16 <= size c <= PAGE_SIZE - SIZEOF_SLAB;
  co_aligned : size c mod 16 = 0;
  co_order : 0 <= order c < ORDERS_COUNT;
  co_free : free c = [];
  co_slab : forall a s, slabs c !! a = Some s -> slab_ok c a s;
  co_partial : forall a, a ∈ partial c <-> exists s, slabs c !! a = Some s /\ slab_free_list s <> [];
  co_full : forall a, a ∈ full c <-> exists s, slabs c !! a = Some s /\ slab_free_list s = [];
  co_state : forall a s, slabs c !! a = Some s ->
    state s = if decide (slab_free_list s = []) then SLAB_FULL else SLAB_PARTIAL;
  co_nodup : NoDup (partial c) /\ NoDup (full c);
  co_pool : NoDup (pool c) /\ Forall (fun a => a mod block_size c = 0 /\ slabs c !! a = None) (pool c);
}.

(** A slab without live objects is not kept. *)
Definition busy c (a : Z) : Prop := forall s, slabs c !! a = Some s -> 0 < allocated_count s.
Definition cache_ok c : Prop := cache_inv c /\ forall a, busy c a.

(** ** Objects *)

Lemma elem_of_objects sz o a p :
  p ∈ objects sz o a <-> exists i, 0 <= i < objects_count sz o /\ p = a + SIZEOF_SLAB + i * sz.
Proof.
  unfold objects. rewrite list_elem_of_fmap. setoid_rewrite elem_of_seqZ. split.
  - intros (i & -> & Hi). exists i. split; [lia|done].
  - intros (i & Hi & ->). exists i. split; [done|lia].
Qed.

Section objects.
Context (c : slab_cache) (Hsz : 16 <= size c <= PAGE_SIZE - SIZEOF_SLAB) (Ho : 0 <= order c < ORDERS_COUNT).
#[local] Set Default Proof Using "Type*".

Lemma pages_range : 1 <= ORDER2COUNT (order c) <= 64.
Proof.
  unfold ORDER2COUNT. unfold ORDERS_COUNT in Ho. split; [pose proof (Z.pow_pos_nonneg 2 (order c)); lia|].
  change 64 with (2 ^ 6). apply Z.pow_le_mono_r; lia.
Qed.

Lemma count_bounds :
  1 <= objects_count (size c) (order c) < 2 ^ 15 /\
  objects_count (size c) (order c) * size c <= block_size c - SIZEOF_SLAB.
Proof.
  pose proof pages_range as Hp. unfold objects_count, block_size, SIZEOF_SLAB, PAGE_SIZE in *.
  set (u := ORDER2COUNT (order c) * 4096 - 48) in *.
  pose proof (Z.mul_div_le u (size c)). split; [|lia]. split.
  - apply Z.div_le_lower_bound; lia.
  - apply Z.div_lt_upper_bound; lia.
Qed.

(** An object is inside its slab, behind the header. *)
Lemma object_range a p :
  p ∈ objects (size c) (order c) a -> a + SIZEOF_SLAB <= p /\ p + size c <= a + block_size c.
Proof.
  rewrite elem_of_objects. intros (i & Hi & ->). pose proof count_bounds. unfold SIZEOF_SLAB in *. nia.
Qed.

Lemma object_block a p :
  a mod block_size c = 0 -> p ∈ objects (size c) (order c) a -> p / block_size c * block_size c = a.
Proof.
  intros Ha Hp%object_range. pose proof pages_range. unfold SIZEOF_SLAB, block_size, PAGE_SIZE in *.
  set (b := ORDER2COUNT (order c) * 4096) in *. pose proof (Z.div_mod a b).
  replace (p / b) with (a / b); [lia|]. apply (Z.div_unique _ _ _ (p - a)); lia.
Qed.

(** Objects of two slabs are different. *)
Lemma object_slab a a' p :
  a mod block_size c = 0 -> a' mod block_size c = 0 ->
  p ∈ objects (size c) (order c) a -> p ∈ objects (size c) (order c) a' -> a = a'.
Proof. intros Ha Ha' H H'. by rewrite <- (object_block a p Ha H), <- (object_block a' p Ha' H'). Qed.

(** Two objects do not overlap. *)
Lemma object_disjoint a a' p p' :
  a mod block_size c = 0 -> a' mod block_size c = 0 ->
  p ∈ objects (size c) (order c) a -> p' ∈ objects (size c) (order c) a' -> p <> p' ->
  p + size c <= p' \/ p' + size c <= p.
Proof.
  intros Ha Ha' H H' Hne. pose proof (object_range _ _ H). pose proof (object_range _ _ H').
  destruct (decide (a = a')) as [->|Hna].
  - apply elem_of_objects in H as (i & Hi & ->). apply elem_of_objects in H' as (j & Hj & ->).
    assert (i <> j) by congruence. nia.
  - unfold SIZEOF_SLAB in *. pose proof pages_range.
    assert (Hb : a + block_size c <= a' \/ a' + block_size c <= a).
    { unfold block_size, PAGE_SIZE in *. set (b := ORDER2COUNT (order c) * 4096) in *.
      pose proof (Z.div_mod a b). pose proof (Z.div_mod a' b). assert (a / b <> a' / b) by (intros E; rewrite E in *; lia). nia. }
    lia.
Qed.

Lemma slab_page a p :
  a mod block_size c = 0 -> p ∈ objects (size c) (order c) a ->
  exists i, 0 <= i < ORDER2COUNT (order c) /\ p / PAGE_SIZE = a / PAGE_SIZE + i.
Proof.
  intros Ha Hp%object_range. pose proof pages_range. exists (p / PAGE_SIZE - a / PAGE_SIZE). split; [|lia].
  unfold SIZEOF_SLAB, block_size, PAGE_SIZE in *. set (n := ORDER2COUNT (order c)) in *.
  pose proof (Z.div_mod a (n * 4096)). assert (Ea : a = (a / (n * 4096) * n) * 4096) by lia.
  rewrite Ea. rewrite Z.div_mul by lia. set (q := a / (n * 4096) * n) in *. split.
  - assert (q <= p / 4096) by (apply Z.div_le_lower_bound; lia). lia.
  - assert (p / 4096 < q + n) by (apply Z.div_lt_upper_bound; lia). lia.
Qed.

Lemma objects_nodup a : NoDup (objects (size c) (order c) a).
Proof. apply NoDup_fmap_2_strong; [|apply NoDup_seqZ]. intros i j _ _ H. nia. Qed.

Lemma objects_length a : lenZ (objects (size c) (order c) a) = objects_count (size c) (order c).
Proof. pose proof count_bounds. unfold lenZ, objects. rewrite length_fmap, length_seqZ. lia. Qed.

End objects.

(** ** Lists of slabs *)

Lemma slab_list_remove_spec a l :
  a ∈ l -> exists l', list_remove a l = Some l' /\ (forall x, x ∈ l' <-> x ∈ l /\ x <> a) /\ (NoDup l -> NoDup l').
Proof.
  intros Ha. unfold list_remove. rewrite decide_True by done. eexists. split; [done|]. split.
  - intros x. rewrite !list_elem_of_In, filter_In, negb_true_iff, Z.eqb_neq. done.
  - rewrite !NoDup_ListNoDup. apply List.NoDup_filter.
Qed.

Lemma set_owner_spec ow a l p :
  set_owner ow a l !! p = if decide (p ∈ l) then Some a else ow !! p.
Proof.
  revert ow. induction l as [|x l IH]; intros ow; cbn [set_owner].
  - rewrite decide_False; [done|]. apply not_elem_of_nil.
  - rewrite IH. destruct (decide (p ∈ l)) as [Hp|Hp].
    + rewrite decide_True; [done|]. by right.
    + destruct (decide (p = x)) as [->|Hne].
      * rewrite lookup_insert_eq, decide_True; [done|]. by left.
      * rewrite lookup_insert_ne, decide_False; [done| |done]. rewrite elem_of_cons. tauto.
Qed.

(** ** Changing one slab *)

(** The lists after a slab got the chain [l]. *)
Definition placed c (a : Z) (l pa fu : list Z) : Prop :=
  (forall x, x ∈ pa <-> if decide (x = a) then l <> [] else x ∈ partial c) /\
  (forall x, x ∈ fu <-> if decide (x = a) then l = [] else x ∈ full c) /\ NoDup pa /\ NoDup fu.

Lemma inv_update c a s s' fc pa fu :
  cache_inv c -> slabs c !! a = Some s -> slab_ok c a s' -> placed c a (slab_free_list s') pa fu ->
  state s' = (if decide (slab_free_list s' = []) then SLAB_FULL else SLAB_PARTIAL) ->
  cache_inv (set_lists (set_slab c a s') [] fc pa fu).
Proof.
  intros [I1 I2 I3 I4 I5 I6 I7 I8 I9 I10] Ha Hs' (Hpa & Hfu & Hn1 & Hn2) Hst.
  constructor; try done; cbn [set_lists set_slab slabs partial full pool].
  - intros a' s2. destruct (decide (a' = a)) as [->|Hne].
    + rewrite lookup_insert_eq. intros [= <-]. by destruct Hs'.
    + rewrite lookup_insert_ne by done. intros H. by destruct (I5 _ _ H).
  - intros x. rewrite Hpa. destruct (decide (x = a)) as [->|Hne].
    + rewrite lookup_insert_eq. split; [eauto|]. by intros (? & [= <-] & ?).
    + rewrite lookup_insert_ne by done. apply I6.
  - intros x. rewrite Hfu. destruct (decide (x = a)) as [->|Hne].
    + rewrite lookup_insert_eq. split; [eauto|]. by intros (? & [= <-] & ?).
    + rewrite lookup_insert_ne by done. apply I7.
  - intros a' s2. destruct (decide (a' = a)) as [->|Hne].
    + rewrite lookup_insert_eq. by intros [= <-].
    + rewrite lookup_insert_ne by done. apply I8.
  - destruct I10 as (Hn & Hf). split; [done|]. eapply Forall_impl; [exact Hf|]. intros x (Hx & Hx'). split; [done|].
    rewrite lookup_insert_ne; [done|]. congruence.
Qed.

Lemma busy_update c a s' fc pa fu :
  (forall x, x <> a -> busy c x) -> 0 < allocated_count s' ->
  forall x, busy (set_lists (set_slab c a s') [] fc pa fu) x.
Proof.
  intros Hb Hs x s2. cbn [set_lists set_slab slabs]. destruct (decide (x = a)) as [->|Hne].
  - rewrite lookup_insert_eq. by intros [= <-].
  - rewrite lookup_insert_ne by done. by apply Hb.
Qed.

Lemma live_update c a s s' fc pa fu p :
  slabs c !! a = Some s ->
  live (set_lists (set_slab c a s') [] fc pa fu) p <->
  (exists a' s2, a' <> a /\ slabs c !! a' = Some s2 /\ p ∈ objects (size c) (order c) a' /\ p ∉ slab_free_list s2) \/
  (p ∈ objects (size c) (order c) a /\ p ∉ slab_free_list s').
Proof.
  intros Ha. unfold live. cbn [set_lists set_slab slabs size order]. split.
  - intros (a' & s2 & H & Hp & Hf). destruct (decide (a' = a)) as [->|Hne].
    + rewrite lookup_insert_eq in H. injection H as <-. by right.
    + rewrite lookup_insert_ne in H by done. left. by exists a', s2.
  - intros [(a' & s2 & Hne & H & Hp & Hf)|(Hp & Hf)].
    + exists a', s2. by rewrite lookup_insert_ne.
    + exists a, s'. by rewrite lookup_insert_eq.
Qed.

(** Giving out the first object of a slab. *)
Lemma alloc_from c a s node next :
  cache_inv c -> (forall x, x <> a -> busy c x) -> slabs c !! a = Some s -> slab_free_list s = node :: next ->
  0 <= allocated_count s ->
  exists fc pa fu c' st, c' = set_lists (set_slab c a (mk_slab next (allocated_count s +! 1) st)) [] fc pa fu /\
    (let s := mk_slab next (allocated_count s +! 1) (state s) in
     match next with
     | [] =>
         let c := set_slab c a (set_state s SLAB_FULL) in
         pa ← list_remove a (partial c);
         Some (set_lists c (free c) (free_count c) pa (full c ++ [a]), Some node)
     | _ :: _ => Some (set_slab c a s, Some node)
     end) = Some (c', Some node) /\
    cache_ok c' /\ ~ live c node /\ forall p, live c' p <-> live c p \/ p = node.
Proof.
  intros Hinv Hb Ha Hf Hc0. destruct (co_slab _ Hinv _ _ Ha) as [S1 S2 S3 S4 S5]. rewrite Hf in *.
  apply NoDup_cons in S2 as (Hnode & S2). pose proof (count_bounds c (co_size _ Hinv) (co_order _ Hinv)) as Hcb.
  rewrite lenZ_cons in S4. pose proof (lenZ_nonneg next).
  assert (Hu : allocated_count s +! 1 = allocated_count s + 1) by (apply u64_small; unfold is_u64; lia).
  assert (Hok : forall st, slab_ok c a (mk_slab next (allocated_count s +! 1) st)).
  { intros st. constructor; cbn; try done; [|lia]. intros p Hp. apply S3. by right. }
  assert (Hpart : a ∈ partial c). { apply (co_partial _ Hinv). exists s. by rewrite Hf. }
  assert (Hnf : a ∉ full c). { intros (s2 & H2 & E)%(co_full _ Hinv). congruence. }
  assert (Hlive : forall st fc pa fu p, live (set_lists (set_slab c a (mk_slab next (allocated_count s +! 1) st)) [] fc pa fu) p <->
    live c p \/ p = node).
  { intros st fc pa fu p. rewrite (live_update c a s) by done. cbn [slab_free_list]. split.
    - intros [(a' & s2 & Hne & H2)|(Hp & Hn)]; [left; by exists a', s2|].
      destruct (decide (p = node)) as [->|Hpn]; [by right|left]. exists a, s. rewrite Hf, elem_of_cons. tauto.
    - intros [(a' & s2 & H2 & Hp & Hn)| ->].
      + destruct (decide (a' = a)) as [->|Hne]; [right|left; by exists a', s2].
        split; [done|]. rewrite Ha in H2. injection H2 as <-. rewrite Hf, elem_of_cons in Hn. tauto.
      + right. split; [apply S3; by left|done]. }
  assert (Hdead : ~ live c node).
  { intros (a' & s2 & H2 & Hp & Hn). assert (a' = a) as ->.
    { eapply (object_slab c (co_size _ Hinv) (co_order _ Hinv)); [apply (co_slab _ Hinv _ _ H2)|done|done|apply S3; by left]. }
    rewrite Ha in H2. injection H2 as <-. apply Hn. rewrite Hf. by left. }
  destruct (co_nodup _ Hinv) as (Hn1 & Hn2). pose proof (co_state _ Hinv _ _ Ha) as Hst. rewrite Hf in Hst.
  destruct next as [|y next].
  - destruct (slab_list_remove_spec a (partial c) Hpart) as (pa & E & Hpa & Hnpa).
    eexists (free_count c), pa, (full c ++ [a]), _, SLAB_FULL. split; [reflexivity|].
    cbn [set_slab partial full free free_count set_state slab_free_list allocated_count]. rewrite E. cbn [mbind option_bind].
    split; [rewrite (co_free _ Hinv); reflexivity|]. split; [|split; [done|apply Hlive]].
    split; [|apply busy_update; [done|cbn; lia]]. eapply inv_update; try done.
    split_and!; cbn [slab_free_list].
    + intros x. rewrite Hpa. destruct (decide (x = a)) as [->|]; [split; [by intros (_ & ?)|done]|tauto].
    + intros x. rewrite elem_of_app, list_elem_of_singleton. destruct (decide (x = a)); tauto.
    + auto.
    + apply NoDup_app. split_and!; [done| |apply NoDup_singleton]. intros x Hx ->%list_elem_of_singleton. done.
  - eexists (free_count c), (partial c), (full c), _, (state s). split; [reflexivity|].
    split. { rewrite <- (co_free _ Hinv). by destruct c. }
    split; [|split; [done|apply Hlive]]. split; [|apply busy_update; [done|cbn; lia]].
    eapply inv_update; try done. split_and!; cbn [slab_free_list]; try done.
    + intros x. destruct (decide (x = a)) as [->|]; [by split|tauto].
    + intros x. destruct (decide (x = a)) as [->|]; [by split|tauto].
Qed.


(** ** A new slab *)

Lemma blocks_pages c a a' i :
  0 <= order c < ORDERS_COUNT -> a mod block_size c = 0 -> a' mod block_size c = 0 ->
  0 <= i < ORDER2COUNT (order c) ->
  a' / PAGE_SIZE + i ∈ seqZ (a / PAGE_SIZE) (ORDER2COUNT (order c)) -> a = a'.
Proof.
  intros Ho Ha Ha' Hi Hin%elem_of_seqZ. unfold block_size, PAGE_SIZE in *. set (n := ORDER2COUNT (order c)) in *.
  pose proof (Z.div_mod a (n * 4096)). pose proof (Z.div_mod a' (n * 4096)).
  set (k := a / (n * 4096)) in *. set (k' := a' / (n * 4096)) in *.
  assert (Ea : a = (k * n) * 4096) by lia. assert (Ea' : a' = (k' * n) * 4096) by lia.
  rewrite Ea, Ea', !Z.div_mul in Hin by lia. assert (k = k') by nia. congruence.
Qed.

Lemma new_slab_inv c a rest :
  cache_inv c -> partial c = [] -> pool c = a :: rest ->
  exists c1, take_slab c = Some (c1, Some a) /\ cache_inv c1 /\ size c1 = size c /\ order c1 = order c /\
    (forall x, slabs c1 !! x = if decide (x = a) then Some (mk_slab (objects (size c) (order c) a) 0 SLAB_PARTIAL)
                               else slabs c !! x).
Proof.
  intros [I1 I2 I3 I4 I5 I6 I7 I8 I9 I10] Hpa Hpool.
  pose proof (objects_length c I1 I3 a) as Hol. pose proof (count_bounds c I1 I3) as Hcb.
  assert (Hne : objects (size c) (order c) a <> []) by (intros E; rewrite E in Hol; change (lenZ (@nil Z)) with 0 in Hol; lia).
  destruct I10 as (Hnd & Hf). rewrite Hpool in Hnd, Hf. apply NoDup_cons in Hnd as (Hna & Hnd).
  apply Forall_cons in Hf as ((Ha & Hno) & Hf).
  unfold take_slab, new_slab. rewrite Hpa, I4, Hpool, (proj2 (Z.eqb_neq _ _)) by lia. cbn [mbind option_bind slabs].
  rewrite lookup_insert_eq. cbn [mbind option_bind]. unfold set_lists, set_slab, set_state.
  cbn [size order free free_count partial full slabs owner pool slab_free_list allocated_count]. rewrite insert_insert_eq.
  eexists. split; [reflexivity|]. cbn [size order slabs]. split_and!; try done.
  2:{ intros x. destruct (decide (x = a)) as [->|]; [by rewrite lookup_insert_eq|by rewrite lookup_insert_ne]. }
  constructor; cbn [size order free partial full slabs owner pool]; try done.
  - intros x s. destruct (decide (x = a)) as [->|Hxa].
    + rewrite lookup_insert_eq. intros [= <-]. constructor; cbn; try done.
      * by apply (objects_nodup c).
      * rewrite Hol. lia.
      * intros i Hi. rewrite set_owner_spec, decide_True; [done|]. apply elem_of_seqZ. lia.
    + rewrite lookup_insert_ne by done. intros Hs. destruct (I5 _ _ Hs) as [S1 S2 S3 S4 S5]. constructor; try done.
      intros i Hi. cbn [owner order] in *. rewrite set_owner_spec, decide_False; [by apply S5|].
      intros Hin. apply Hxa. symmetry. by eapply blocks_pages.
  - intros x. rewrite list_elem_of_singleton. destruct (decide (x = a)) as [->|Hxa].
    + rewrite lookup_insert_eq. split; [eauto|done].
    + rewrite lookup_insert_ne, <- I6, Hpa by done. split; [done|by intros ?%not_elem_of_nil].
  - intros x. destruct (decide (x = a)) as [->|Hxa].
    + rewrite lookup_insert_eq, I7, Hno. split; [by intros (? & ? & _)|by intros (? & [= <-] & ?)].
    + by rewrite lookup_insert_ne, I7.
  - intros x s. destruct (decide (x = a)) as [->|Hxa].
    + rewrite lookup_insert_eq. intros [= <-]. cbn. by rewrite decide_False.
    + rewrite lookup_insert_ne by done. apply I8.
  - split; [apply NoDup_singleton|apply I9].
  - split; [done|]. rewrite Forall_forall in Hf |- *. intros x Hx. destruct (Hf x Hx) as (? & ?). split; [done|].
    rewrite lookup_insert_ne; [done|]. by intros ->.
Qed.

(** The slab that an allocation takes its object from. *)
Lemma take_slab_spec c :
  cache_ok c -> ~ (partial c = [] /\ pool c = []) ->
  exists a c1 s node next, take_slab c = Some (c1, Some a) /\ cache_inv c1 /\ size c1 = size c /\ order c1 = order c /\
    (forall x, x <> a -> busy c1 x) /\ slabs c1 !! a = Some s /\ slab_free_list s = node :: next /\ 0 <= allocated_count s /\
    forall p, live c1 p <-> live c p.
Proof.
  intros (Hinv & Hb) Hsome. destruct (partial c) as [|a l] eqn:Epa.
  - destruct (pool c) as [|a rest] eqn:Epo; [tauto|].
    destruct (new_slab_inv c a rest Hinv Epa Epo) as (c1 & E & Hi1 & Esz & Eo & Hs1).
    pose proof (objects_length c (co_size _ Hinv) (co_order _ Hinv) a) as Hol.
    pose proof (count_bounds c (co_size _ Hinv) (co_order _ Hinv)) as Hcb.
    destruct (objects (size c) (order c) a) as [|node next] eqn:Eob; [change (lenZ (@nil Z)) with 0 in Hol; lia|].
    assert (Hno : slabs c !! a = None).
    { destruct (co_pool _ Hinv) as (_ & Hf). rewrite Epo in Hf. by apply Forall_cons in Hf as ((_ & ?) & _). }
    exists a, c1, (mk_slab (node :: next) 0 SLAB_PARTIAL), node, next. split_and!; try done.
    + intros x Hx s Hs. rewrite Hs1, decide_False in Hs by done. by apply (Hb x).
    + by rewrite Hs1, decide_True.
    + intros p. unfold live. rewrite Esz, Eo. split.
      * intros (a' & s & H & Hp & Hn). rewrite Hs1 in H. case_decide as Ea.
        -- injection H as <-. subst a'. rewrite Eob in Hp. done.
        -- by exists a', s.
      * intros (a' & s & H & Hp & Hn). exists a', s. rewrite Hs1, decide_False by congruence. done.
  - assert (Ha : a ∈ partial c) by (rewrite Epa; by left).
    apply (co_partial _ Hinv) in Ha as (s & Hs & Hne). destruct (slab_free_list s) as [|node next] eqn:Ef; [done|].
    exists a, c, s, node, next. unfold take_slab. rewrite Epa. split_and!; try done. pose proof (Hb a s Hs). lia.
Qed.

Section theorems.
Context (evict : slab_cache -> option Z).

(** What an allocation promises of the object it gives. *)
Record fresh_object c c' (p : Z) : Prop := {
  fo_new : ~ live c p;
  fo_live : forall q, live c' q <-> live c q \/ q = p;
  fo_aligned : p mod 16 = 0;
  fo_inside : exists a, is_Some (slabs c' !! a) /\ a + SIZEOF_SLAB <= p /\ p + size c <= a + block_size c;
  fo_disjoint : forall q, live c q -> p + size c <= q \/ q + size c <= p;
}.

Lemma live_object_disjoint c p q :
  cache_inv c -> live c p -> live c q -> p <> q -> p + size c <= q \/ q + size c <= p.
Proof.
  intros Hi (a & s & Hs & Hp & _) (a' & s' & Hs' & Hq & _) Hne.
  by apply (object_disjoint c (co_size _ Hi) (co_order _ Hi) a a');
    [apply (co_slab _ Hi _ _ Hs)|apply (co_slab _ Hi _ _ Hs')|..].
Qed.

Lemma live_object_aligned c p : cache_inv c -> live c p -> p mod 16 = 0.
Proof.
  intros Hi (a & s & Hs & Hp & _). apply elem_of_objects in Hp as (i & _ & ->).
  pose proof (sl_aligned _ _ _ (co_slab _ Hi _ _ Hs)) as Ha. pose proof (co_aligned _ Hi) as Hz.
  unfold block_size, PAGE_SIZE, SIZEOF_SLAB in *. pose proof (pages_range c (co_size _ Hi) (co_order _ Hi)).
  set (n := ORDER2COUNT (order c)) in *.
  pose proof (Z.div_mod a (n * 4096)). pose proof (Z.div_mod (size c) 16 ltac:(lia)).
  replace (a + 48 + i * size c) with ((256 * n * (a / (n * 4096)) + 3 + i * (size c / 16)) * 16) by nia.
  apply Z_mod_mult.
Qed.

Lemma slab_alloc_spec c :
  cache_ok c ->
  if decide (partial c = [] /\ pool c = []) then slab_alloc evict c = Some (c, evict c)
  else exists c' p, slab_alloc evict c = Some (c', Some p) /\ cache_ok c' /\ fresh_object c c' p.
Proof.
  intros (Hinv & Hb). destruct (decide (partial c = [] /\ pool c = [])) as [(Hp & Hpool)|Hsome].
  { unfold slab_alloc, take_slab, new_slab. by rewrite Hp, (co_free _ Hinv), Hpool. }
  destruct (take_slab_spec c (conj Hinv Hb) Hsome)
    as (a & c1 & s & node & next & E & Hi1 & Esz & Eo & Hb1 & Hs & Hf & Hc0 & Hl).
  destruct (alloc_from c1 a s node next Hi1 Hb1 Hs Hf Hc0) as (fc & pa & fu & c' & st & Ec' & E' & Hok & Hdead & Hlive).
  exists c', node. unfold slab_alloc. rewrite E. cbn [mbind option_bind]. rewrite Hs. cbn [mbind option_bind].
  rewrite Hf. split; [exact E'|]. split; [done|].
  assert (Hsz' : size c' = size c /\ order c' = order c) by (rewrite Ec'; by split).
  assert (Hlv : live c' node) by (apply Hlive; by right). destruct Hok as (Hi' & _).
  constructor.
  - by rewrite <- Hl.
  - intros q. by rewrite Hlive, Hl.
  - by eapply live_object_aligned.
  - destruct Hlv as (a' & s' & Hs' & Hp & _). exists a'. split; [by rewrite Hs'|].
    destruct Hsz' as (Es & Eo'). unfold block_size. rewrite <- Es, <- Eo'.
    apply (object_range c' (co_size _ Hi') (co_order _ Hi')). done.
  - intros q Hq. destruct Hsz' as (Es & _). rewrite <- Es. apply live_object_disjoint; [done|done|apply Hlive; left; by apply Hl|].
    intros ->. by apply Hdead, Hl.
Qed.

(** C20: Allocation.  Unless there is neither a slab with room nor memory for a new one, an
    allocation gives an object that was not live and makes it live, and nothing else changes
    among the live objects; the object is aligned to 16 bytes, lies in a slab behind its
    header and overlaps no other live object.  Otherwise the result is that of the eviction
    callback and the cache is unchanged. *)
Theorem slab_alloc_correct c :
  cache_ok c ->
  if decide (partial c = [] /\ pool c = []) then slab_alloc evict c = Some (c, evict c)
  else exists c' p, slab_alloc evict c = Some (c', Some p) /\ cache_ok c' /\ fresh_object c c' p.
Proof. apply slab_alloc_spec. Qed.

End theorems.

(** ** Freeing *)

(** The chain of a slab that has one live object, with that object, is all its objects. *)
Lemma last_object c a s p :
  cache_inv c -> slabs c !! a = Some s -> p ∈ objects (size c) (order c) a -> p ∉ slab_free_list s ->
  allocated_count s = 1 -> forall q, q ∈ objects (size c) (order c) a -> q ∉ slab_free_list s -> q = p.
Proof.
  intros Hi Hs Hp Hn Hc q Hq Hqn. destruct (co_slab _ Hi _ _ Hs) as [S1 S2 S3 S4 S5].
  destruct (decide (q = p)) as [|Hne]; [done|]. exfalso.
  assert (Hsub : q :: p :: slab_free_list s ⊆+ objects (size c) (order c) a).
  { apply NoDup_submseteq.
    - repeat (apply NoDup_cons; split); try done. rewrite elem_of_cons. tauto.
    - intros x. rewrite !elem_of_cons. intros [->|[->|Hx]]; [done|done|by apply S3]. }
  apply submseteq_length in Hsub. pose proof (objects_length c (co_size _ Hi) (co_order _ Hi) a) as Hl.
  unfold lenZ in *. simpl in Hsub. lia.
Qed.

Lemma inv_delete c a pa :
  cache_inv c -> is_Some (slabs c !! a) -> a mod block_size c = 0 ->
  (forall x, x ∈ pa <-> x ∈ partial c /\ x <> a) -> NoDup pa -> a ∉ full c ->
  forall s, cache_inv (free_slab (set_lists (set_slab c a s) (free c) (free_count c) pa (full c)) a).
Proof.
  intros [I1 I2 I3 I4 I5 I6 I7 I8 I9 I10] (s0 & Hs0) Ha Hpa Hnd Hnf s.
  unfold free_slab, set_lists, set_slab. cbn [size order free free_count partial full slabs owner pool].
  rewrite delete_insert_eq. constructor; cbn [size order free free_count partial full slabs owner pool]; try done.
  - intros x s'. rewrite lookup_delete_Some. intros (_ & H). by destruct (I5 _ _ H).
  - intros x. rewrite Hpa, I6. setoid_rewrite lookup_delete_Some. naive_solver.
  - intros x. rewrite I7. setoid_rewrite lookup_delete_Some. split; [|naive_solver].
    intros (s' & H & E). exists s'. split; [|done]. split; [|done]. intros <-. apply Hnf, (I7 a). eauto.
  - intros x s'. rewrite lookup_delete_Some. intros (_ & H). by apply (I8 x).
  - split; [done|apply I9].
  - destruct I10 as (Hn & Hf). rewrite Forall_forall in Hf. split.
    + apply NoDup_cons. split; [|done]. intros Hin. destruct (Hf a Hin). congruence.
    + apply Forall_cons. split; [split; [done|apply lookup_delete_eq]|]. apply Forall_forall. intros x Hx.
      destruct (Hf x Hx) as (? & Hx'). split; [done|]. apply lookup_delete_None. by right.
Qed.

Section freeing.
Context (c : slab_cache) (a : Z) (s : slab) (p : Z).
Context (Hok : cache_ok c) (Hs : slabs c !! a = Some s).
Context (Hp : p ∈ objects (size c) (order c) a) (Hn : p ∉ slab_free_list s).
#[local] Set Default Proof Using "Type*".

Lemma freed_slab_unique a' s' : slabs c !! a' = Some s' -> p ∈ objects (size c) (order c) a' -> a' = a.
Proof.
  destruct Hok as (Hi & _). intros Hs' Hq.
  eapply (object_slab c (co_size _ Hi) (co_order _ Hi)); [| |exact Hq|exact Hp];
    [apply (co_slab _ Hi _ _ Hs')|apply (co_slab _ Hi _ _ Hs)].
Qed.

(** A slab that keeps live objects. *)
Lemma free_object fc pa fu :
  1 < allocated_count s -> placed c a (p :: slab_free_list s) pa fu ->
  let c' := set_lists (set_slab c a (mk_slab (p :: slab_free_list s) (allocated_count s - 1) SLAB_PARTIAL)) [] fc pa fu in
  cache_ok c' /\ (forall q, live c' q <-> live c q /\ q <> p) /\ pool c' = pool c.
Proof.
  intros Hc Hpl. destruct Hok as (Hi & Hb). pose proof (co_slab _ Hi _ _ Hs) as [S1 S2 S3 S4 S5].
  split_and!; [split| |done].
  - eapply inv_update; try done. constructor; cbn [slab_free_list allocated_count]; try done;
      [by apply NoDup_cons| |rewrite lenZ_cons; lia]. intros q [->|Hq]%elem_of_cons; [done|by apply S3].
  - apply busy_update; [intros; apply Hb|cbn; lia].
  - intros q. rewrite (live_update c a s) by done. cbn [slab_free_list]. split.
    + intros [(a' & s2 & Hne & H2 & Hq & Hqn)|(Hq & Hqn)].
      * split; [by exists a', s2|]. intros ->. apply Hne. by eapply freed_slab_unique.
      * rewrite elem_of_cons in Hqn. split; [exists a, s; tauto|tauto].
    + intros ((a' & s2 & H2 & Hq & Hqn) & Hne). destruct (decide (a' = a)) as [->|Hna]; [right|left; by exists a', s2].
      rewrite Hs in H2. injection H2 as <-. rewrite elem_of_cons. tauto.
Qed.

(** A slab that loses its last live object. *)
Lemma free_last_object pa s1 :
  allocated_count s = 1 -> slab_free_list s <> [] -> (forall x, x ∈ pa <-> x ∈ partial c /\ x <> a) -> NoDup pa ->
  let c' := free_slab (set_lists (set_slab c a s1) (free c) (free_count c) pa (full c)) a in
  cache_ok c' /\ (forall q, live c' q <-> live c q /\ q <> p) /\ forall q, q ∈ objects (size c) (order c) a -> ~ live c' q.
Proof.
  intros Hc Hf Hpa Hnd. destruct Hok as (Hi & Hb). pose proof (sl_aligned _ _ _ (co_slab _ Hi _ _ Hs)) as S1.
  assert (Hnf : a ∉ full c) by (intros (s2 & H2 & E)%(co_full _ Hi); congruence).
  unfold live, busy, free_slab, set_lists, set_slab. cbn [slabs size order]. rewrite delete_insert_eq.
  setoid_rewrite lookup_delete_Some. split; [split|split].
  - pose proof (inv_delete c a pa Hi ltac:(by rewrite Hs) S1 Hpa Hnd Hnf s1) as H.
    unfold free_slab, set_lists, set_slab in H. cbn [slabs] in H. by rewrite delete_insert_eq in H.
  - intros x s'. unfold busy. cbn [slabs]. rewrite lookup_delete_Some. intros (_ & H'). by apply (Hb x).
  - intros q. split.
    + intros (a' & s' & (Hne & Hs') & Hq & Hqn). split; [by exists a', s'|]. intros ->. apply Hne. symmetry. by eapply freed_slab_unique.
    + intros ((a' & s' & Hs' & Hq & Hqn) & Hne). exists a', s'. split; [|done]. split; [|done]. intros <-.
      rewrite Hs in Hs'. injection Hs' as <-. apply Hne. by apply (last_object c a s).
  - intros q Hq (a' & s' & (Hne & Hs') & Hq' & _). apply Hne.
    eapply (object_slab c (co_size _ Hi) (co_order _ Hi)); [exact S1| |exact Hq|exact Hq']. apply (co_slab _ Hi _ _ Hs').
Qed.

End freeing.

(** Freeing.  When every slab has room for two objects or more, freeing a live object makes
    exactly that object not live; the pages of the slab go back to the physical memory
    manager exactly when no object of the slab is left. *)
Theorem slab_free_correct c p :
  cache_ok c -> 2 <= objects_count (size c) (order c) -> live c p ->
  exists c', slab_free c p = Some c' /\ cache_ok c' /\ (forall q, live c' q <-> live c q /\ q <> p) /\
    (pool c' = pool c \/ exists a, pool c' = a :: pool c /\ p ∈ objects (size c) (order c) a /\
       forall q, q ∈ objects (size c) (order c) a -> ~ live c' q).
Proof.
  intros (Hi & Hb) Hc2 (a & s & Hs & Hp & Hn). pose proof (co_slab _ Hi _ _ Hs) as [S1 S2 S3 S4 S5].
  pose proof (count_bounds c (co_size _ Hi) (co_order _ Hi)) as Hcb. pose proof (lenZ_nonneg (slab_free_list s)).
  pose proof (Hb a s Hs) as Hbs.
  destruct (slab_page c (co_size _ Hi) (co_order _ Hi) a p S1 Hp) as (i & Hir & Epg).
  unfold slab_free. rewrite Epg, (S5 i Hir). cbn [mbind option_bind]. rewrite Hs. cbn [mbind option_bind allocated_count state].
  assert (Hu : allocated_count s -! 1 = allocated_count s - 1) by (apply u64_small; unfold is_u64; lia).
  rewrite Hu. destruct (co_nodup _ Hi) as (Hn1 & Hn2).
  destruct (allocated_count s - 1 =? 0) eqn:E0; zbool.
  - assert (Hne : slab_free_list s <> []) by (intros E; rewrite E in S4; unfold lenZ in S4; simpl in S4; lia).
    assert (Hpart : a ∈ partial c) by (apply (co_partial _ Hi); by exists s).
    destruct (slab_list_remove_spec a (partial c) Hpart) as (pa & -> & Hpa & Hnpa). cbn [mbind option_bind].
    eexists. split; [reflexivity|].
    destruct (free_last_object c a s p (conj Hi Hb) Hs Hp Hn pa
      (set_state (mk_slab (p :: slab_free_list s) (allocated_count s - 1) (state s)) SLAB_FREE)) as (H1 & H2 & H3); auto; [lia|].
    split; [exact H1|]. split; [exact H2|]. right. by exists a.
  - pose proof (co_state _ Hi _ _ Hs) as Hst. destruct (decide (slab_free_list s = [])) as [Ef|Ef]; rewrite Hst.
    + assert (Hfull : a ∈ full c) by (apply (co_full _ Hi); eauto).
      assert (Hnp : a ∉ partial c) by (intros (s2 & H2 & E)%(co_partial _ Hi); congruence).
      destruct (slab_list_remove_spec a (full c) Hfull) as (fu & -> & Hfu & Hnfu). cbn [mbind option_bind].
      eexists. split; [rewrite (co_free _ Hi); reflexivity|].
      destruct (free_object c a s p (conj Hi Hb) Hs Hp Hn (free_count c) (a :: partial c) fu) as (H1 & H2 & H3);
        [lia| |split; [exact H1|split; [exact H2|left; exact H3]]]. split_and!.
      * intros x. rewrite elem_of_cons. destruct (decide (x = a)) as [->|]; [split; [done|by left]|tauto].
      * intros x. rewrite Hfu. destruct (decide (x = a)) as [->|]; [split; [by intros (_ & ?)|done]|tauto].
      * by apply NoDup_cons.
      * auto.
    + assert (Hpart : a ∈ partial c) by (apply (co_partial _ Hi); eauto).
      assert (Hnf : a ∉ full c) by (intros (s2 & H2 & E)%(co_full _ Hi); congruence).
      destruct (free_object c a s p (conj Hi Hb) Hs Hp Hn (free_count c) (partial c) (full c)) as (H1 & H2 & H3); [lia| |].
      { split_and!; try done; intros x; destruct (decide (x = a)) as [->|]; try tauto; by split. }
      eexists. split; [|split; [exact H1|split; [exact H2|left; exact H3]]].
      rewrite <- (co_free _ Hi). by destruct c.
Qed.

(** ** The size of a slab *)

Lemma order_loop_range l sz w b :
  Forall (fun o => 0 <= o < ORDERS_COUNT) (b :: l) -> 0 <= order_loop l sz w b < ORDERS_COUNT.
Proof.
  revert w b. induction l as [|o l IH]; intros w b (Hb & Hl)%Forall_cons; cbn [order_loop]; [done|].
  apply Forall_cons in Hl as (Ho & Hl). repeat case_if; apply IH; by constructor.
Qed.

Lemma slab_order_range sz : 0 <= slab_calculate_order sz < ORDERS_COUNT.
Proof.
  unfold slab_calculate_order. case_if; [done|]. apply order_loop_range. by vm_compute; repeat constructor.
Qed.

Lemma slab_init_spec sz ow po :
  0 < sz < 2 ^ 64 -> NoDup po ->
  Forall (fun a => a mod (64 * PAGE_SIZE) = 0) po ->
  match slab_init sz ow po with
  | Err e => e = EINVAL /\ PAGE_SIZE - SIZEOF_SLAB < sz
  | Ok c => cache_ok c /\ (forall p, ~ live c p) /\ sz <= size c < sz + 16 /\
      1 <= objects_count (size c) (order c) /\
      objects_count (size c) (order c) * size c <= block_size c - SIZEOF_SLAB
  end.
Proof.
  intros Hsz Hnd Hal. unfold slab_init. rewrite Z.gtb_ltb. destruct (PAGE_SIZE - SIZEOF_SLAB <? sz) eqn:E; zbool; [done|].
  set (z := if negb (sz mod 16 =? 0) then _ else _).
  assert (Hz : sz <= z < sz + 16 /\ z mod 16 = 0).
  { pose proof (Z.mod_pos_bound sz 16 ltac:(lia)). unfold z. destruct (sz mod 16 =? 0) eqn:Em; zbool; cbn [negb]; [lia|].
    split; [lia|]. rewrite (Z.div_mod sz 16) at 1 by lia.
    replace (16 * (sz / 16) + sz mod 16 + (16 - sz mod 16)) with ((sz / 16 + 1) * 16) by lia. apply Z_mod_mult. }
  assert (Hz2 : 16 <= z <= PAGE_SIZE - SIZEOF_SLAB).
  { unfold PAGE_SIZE, SIZEOF_SLAB in *. destruct Hz as (Hz & Hm). pose proof (Z.div_mod z 16 ltac:(lia)). lia. }
  set (c := mk_cache _ _ _ _ _ _ _ _ _).
  assert (Hr := slab_order_range z).
  assert (Hcb := count_bounds c Hz2 Hr).
  split_and!; try apply Hcb; try (change (size c) with z; lia).
  2:{ intros p (a & s & H & _). cbn in H. by rewrite lookup_empty in H. }
  split; [|intros a s H; cbn in H; by rewrite lookup_empty in H].
  constructor; cbn [c size order free partial full slabs pool]; try done; try tauto.
  - intros a. rewrite lookup_empty. split; [by intros ?%not_elem_of_nil|by intros (? & ? & _)].
  - intros a. rewrite lookup_empty. split; [by intros ?%not_elem_of_nil|by intros (? & ? & _)].
  - split; constructor.
  - split; [done|]. eapply Forall_impl; [exact Hal|]. intros a Ha. split; [|apply lookup_empty].
    unfold block_size, ORDER2COUNT. cbn [c order]. unfold ORDERS_COUNT in Hr. set (o := slab_calculate_order z) in *.
    apply Z.mod_divide in Ha as (k & ->); [|done]. apply Z.mod_divide.
    { pose proof (Z.pow_pos_nonneg 2 o). unfold PAGE_SIZE. lia. }
    exists (k * 2 ^ (6 - o)). replace 64 with (2 ^ (6 - o) * 2 ^ o); [lia|]. rewrite <- Z.pow_add_r by lia.
    replace (6 - o + o) with 6 by lia. done.
Qed.

(** C29: A cache for objects of up to 4048 bytes starts empty and sound, with objects of at least
    the size asked for, rounded up to 16 bytes, and slabs that hold one of them or more; a
    larger size, or one whose rounding does not fit, is refused. *)
Theorem slab_init_correct sz ow po :
  0 < sz < 2 ^ 64 -> NoDup po ->
  Forall (fun a => a mod (64 * PAGE_SIZE) = 0) po ->
  match slab_init sz ow po with
  | Err e => e = EINVAL /\ PAGE_SIZE - SIZEOF_SLAB < sz
  | Ok c => cache_ok c /\ (forall p, ~ live c p) /\ sz <= size c < sz + 16 /\
      1 <= objects_count (size c) (order c) /\
      objects_count (size c) (order c) * size c <= block_size c - SIZEOF_SLAB
  end.
Proof. apply slab_init_spec. Qed.

(** The slabs of objects of up to 2032 bytes hold two objects or more. *)
Theorem slab_two_objects sz :
  16 <= sz <= 2032 -> sz mod 16 = 0 -> 2 <= objects_count sz (slab_calculate_order sz).
Proof.
  intros Hr Hm.
  assert (Hall : forallb (fun i => 2 <=? objects_count (16 * i) (slab_calculate_order (16 * i))) (seqZ 1 127) = true)
    by (vm_compute; reflexivity).
  rewrite forallb_forall in Hall. specialize (Hall (sz / 16)). pose proof (Z.div_mod sz 16 ltac:(lia)) as Hd.
  replace (16 * (sz / 16)) with sz in Hall by lia. apply Z.leb_le, Hall, list_elem_of_In, elem_of_seqZ. lia.
Qed.

(** ** Examples *)

Definition no_evict (c : slab_cache) : option Z := None.

(** A cache of objects of 1000 bytes with memory for two slabs, empty and with an object. *)
Definition ex_cache : slab_cache := mk_cache 1008 0 [] 0 [] [] ∅ ∅ [0x40000; 0x80000].
Definition ex_alloc : option (slab_cache * option Z) := slab_alloc no_evict ex_cache.

Lemma slab_init_correct_witness :
  slab_init 1000 ∅ [0x40000; 0x80000] = Ok ex_cache /\ cache_ok ex_cache.
Proof.
  assert (E : slab_init 1000 ∅ [0x40000; 0x80000] = Ok ex_cache) by reflexivity.
  split; [exact E|].
  pose proof (slab_init_correct 1000 ∅ [0x40000; 0x80000] ltac:(lia)
    (bool_decide_eq_true_1 (NoDup [0x40000; 0x80000]) eq_refl) ltac:(by repeat constructor)) as H.
  rewrite E in H. apply H.
Defined.

Lemma ex_cache_ok : cache_ok ex_cache.
Proof.
  pose proof (slab_init_spec 1000 ∅ [0x40000; 0x80000] ltac:(lia)
    (bool_decide_eq_true_1 (NoDup [0x40000; 0x80000]) eq_refl) ltac:(by repeat constructor)) as H.
  change (slab_init 1000 ∅ [0x40000; 0x80000]) with (@Ok slab_cache ex_cache) in H. apply H.
Qed.

Lemma slab_alloc_correct_witness :
  exists c p, ex_alloc = Some (c, Some p) /\ p = 0x40030 /\ cache_ok c /\ live c p.
Proof.
  pose proof (slab_alloc_correct no_evict ex_cache ex_cache_ok) as H. rewrite decide_False in H by (by intros (_ & ?)).
  destruct H as (c & p & E & Hok & F). exists c, p. split; [exact E|]. split.
  - assert (Hp : snd <$> ex_alloc = Some (Some 0x40030)) by (vm_compute; reflexivity).
    unfold ex_alloc in Hp. rewrite E in Hp. cbn in Hp. congruence.
  - split; [done|]. apply (fo_live _ _ _ F). by right.
Defined.

Lemma slab_free_correct_witness :
  exists c p c', ex_alloc = Some (c, Some p) /\ slab_free c p = Some c' /\ cache_ok c' /\ ~ live c' p.
Proof.
  pose proof (slab_alloc_spec no_evict ex_cache ex_cache_ok) as H. rewrite decide_False in H by (by intros (_ & ?)).
  destruct H as (c & p & E & Hok & F).
  assert (Hg : (fun r => objects_count (size r.1) (order r.1)) <$> ex_alloc = Some 4) by (vm_compute; reflexivity).
  unfold ex_alloc in Hg. rewrite E in Hg. cbn [fmap option_fmap option_map fst] in Hg. injection Hg as Hg.
  destruct (slab_free_correct c p Hok) as (c' & E' & Hok' & Hl & _).
  - rewrite Hg. lia.
  - apply (fo_live _ _ _ F). by right.
  - exists c, p, c'. split; [exact E|]. split; [exact E'|]. split; [done|]. intros Hp. by apply Hl in Hp as (_ & ?).
Defined.

Lemma slab_two_objects_witness : 2 <= objects_count 2032 (slab_calculate_order 2032).
Proof. apply (slab_two_objects 2032); [lia|reflexivity]. Defined.

(** With one object in a slab, the slab of a live object is full, and [slab_free] removes it
    from the list of the partial slabs, in which it is not. *)
Example slab_free_single_object :
  ('(c, p) ← slab_alloc no_evict (mk_cache 2048 (slab_calculate_order 2048) [] 0 [] [] ∅ ∅ [0x40000]);
   p ← p;
   Some (objects_count (size c) (order c), full c, partial c,
         match slab_free c p with None => true | Some _ => false end))
  = Some (1, [0x40000], [], true).
Proof. vm_compute. reflexivity. Qed.

(** Taking a new slab off the empty list of the free slabs leaves the count of that list at
    the largest integer. *)
Example slab_free_count_wraps : (fun r => free_count r.1) <$> ex_alloc = Some (2 ^ 64 - 1).
Proof. vm_compute. reflexivity. Qed.

End Slab.
