(* ===== verification/Fault.v ===== *)
(** The page-fault path of an address space (kernel/mem/vmm.c, from [vmm_map_page] to
    [vmm_fault_report]), on the page tables of [Paging].

    The memory is that of the tables with the reference counts and the contents of the pages;
    the pool of [Paging] gives the pages for tables and for data.  The callbacks of the driver of
    a segment are parameters: [get_page] is documented in include/mem/vmm.h to return a new
    reference to a page, which is the class [GetPageLaws].  The lock of the segment and the
    invalidation of translations are left out; a fault is handled as one step. *)

From S2P Require Import Prelude Paging Vmm.

Module Fault.
Import Paging.

Inductive fault := VMM_FAULT_NOT_HANDLED | VMM_FAULT_SUCCED | VMM_FAULT_FAILED.

Definition VMM_DEFAULT_FAULT_SIZE : Z := 2 * PAGE_SIZE.
Definition VMM_MAX_FAULT_SIZE : Z := 64 * PAGE_SIZE.

Record memory := mk_memory { mmu : mem; refs : gmap Z Z; data : gmap Z (list Z) }.
Implicit Types (m : memory) (seg : Vmm.vmm_seg).

Definition set_mmu m (x : mem) : memory := mk_memory x (refs m) (data m).

(** The physical memory manager: a page is allocated with one reference and freed with its last.
    As in [Paging], [pool] is what the manager will give; a page freed meanwhile has no count and is
    not given again during the fault. *)
Definition allocate_page m : memory * option Z :=
  match pmm_allocate_page (mmu m) with
  | (x, Some p) => (mk_memory x (<[p := 1]> (refs m)) (data m), Some p)
  | (x, None) => (set_mmu m x, None)
  end.

Definition release_page m (p : Z) : option memory :=
  n ← refs m !! p;
  Some (mk_memory (mmu m) (if n =? 1 then delete p (refs m) else <[p := n - 1]> (refs m)) (data m)).

Definition pmm_dup_page m (p : Z) : option (memory * option Z) :=
  match allocate_page m with
  | (m, None) => Some (m, None)
  | (m, Some new) => c ← data m !! p; Some (mk_memory (mmu m) (refs m) (<[new := c]> (data m)), Some new)
  end.

(** What a segment remembers of its last fault. *)
Record last_fault := mk_last { last_fault_page : Z; last_fault_size : Z; last_fault_counter : Z }.
Implicit Types (lf : last_fault).

Class SegOps := {
  get_page : option (Vmm.vmm_seg -> memory -> Z -> memory * option Z);
  fault_op : option (Vmm.vmm_seg -> memory -> Z -> Z -> memory * fault);
  preload : option (Vmm.vmm_seg -> memory -> Z -> Z -> memory);
}.

Section fault.
Context `{SegOps} (PML4 : Z).

(** The reference that a mapping would have had; pages of devices are not counted. *)
Definition drop_page seg m (page : Z) : option memory :=
  if has (Vmm.flags seg) Vmm.VMM_FLAG_IO then Some m else release_page m page.

(** The page that is mapped for a fault, and its protection: a private page is copied for a write
    and mapped read-only otherwise. *)
Definition private_page seg m (page prot : Z) : option (memory * option Z * Z) :=
  if negb (has (Vmm.flags seg) Vmm.VMM_FLAG_IO) && has (Vmm.flags seg) Vmm.VMM_FLAG_PRIVATE then
    if has prot MMU_FLAG_WRITE then
      '(m, new_page) ← pmm_dup_page m page;
      m ← release_page m page;
      Some (m, new_page, Vmm.prot seg)
    else Some (m, Some page, Z.land (Vmm.prot seg) (Z.lnot MMU_FLAG_WRITE))
  else Some (m, Some page, Vmm.prot seg).

Definition vmm_map_page seg m (vpage prot : Z) : option (memory * fault) :=
  match get_page with
  | None => Some (m, VMM_FAULT_NOT_HANDLED)
  | Some get_page =>
      phys ← mmu_space_virt2phys (mmu m) PML4 vpage;
      if negb (phys =? PAGE_INVALID) then Some (m, VMM_FAULT_NOT_HANDLED)
      else
        match get_page seg m vpage with
        | (m, None) => Some (m, VMM_FAULT_FAILED)
        | (m, Some page) =>
            '(m, page, mapping_prot) ← private_page seg m page prot;
            match page with
            | None => Some (m, VMM_FAULT_FAILED)
            | Some page =>
                '(x, entry) ← mmu_create_entry_and_acquire_lock (mmu m) PML4 vpage;
                let m := set_mmu m x in
                match entry with
                | None => m ← drop_page seg m page; Some (m, VMM_FAULT_FAILED)
                | Some entry =>
                    fl ← mmu_entry_get_flags (mmu m) entry;
                    if has fl MMU_FLAG_PRESENT then
                      x ← mmu_entry_release_lock (mmu m) entry;
                      m ← drop_page seg (set_mmu m x) page;
                      Some (m, VMM_FAULT_SUCCED)
                    else
                      x ← mmu_entry_map (mmu m) entry page mapping_prot;
                      x ← mmu_entry_release_lock x entry;
                      Some (set_mmu m x, VMM_FAULT_SUCCED)
                end
            end
        end
  end.

Definition vmm_cow seg m (vpage : Z) : option (memory * fault) :=
  '(x, entry) ← mmu_get_entry_and_acquire_lock (mmu m) PML4 vpage;
  let m := set_mmu m x in
  match entry with
  | None => Some (m, VMM_FAULT_NOT_HANDLED)
  | Some entry =>
      page ← mmu_entry_get_page (mmu m) entry;
      if page =? PAGE_INVALID then
        x ← mmu_entry_release_lock (mmu m) entry; Some (set_mmu m x, VMM_FAULT_NOT_HANDLED)
      else
        n ← refs m !! page;
        if n <=? 1 then
          '(x, _) ← mmu_entry_or_flags (mmu m) entry MMU_FLAG_WRITE;
          x ← mmu_entry_release_lock x entry;
          Some (set_mmu m x, VMM_FAULT_SUCCED)
        else
          '(m, new_page) ← pmm_dup_page m page;
          match new_page with
          | None => x ← mmu_entry_release_lock (mmu m) entry; Some (set_mmu m x, VMM_FAULT_FAILED)
          | Some new_page =>
              m ← drop_page seg m page;
              x ← mmu_entry_map_and_or_flags (mmu m) entry new_page MMU_FLAG_WRITE;
              x ← mmu_entry_release_lock x entry;
              Some (set_mmu m x, VMM_FAULT_SUCCED)
          end
  end.

(** How much to map: twice as much after a run of faults that follow one another. *)
Definition predict seg lf (vpage : Z) : last_fault * Z :=
  let '(fault_size, counter) :=
    if (last_fault_page lf <? vpage) && (vpage <=? last_fault_page lf +! last_fault_size lf)
    then (last_fault_size lf, last_fault_counter lf +! 1)
    else (VMM_DEFAULT_FAULT_SIZE, 0) in
  let '(fault_size, counter) :=
    if fault_size <=? counter *! PAGE_SIZE
    then (Z.min (fault_size *! 2) VMM_MAX_FAULT_SIZE, 0)
    else (fault_size, counter) in
  let fault_size := if Vmm.end_ seg <? vpage +! fault_size then Vmm.end_ seg -! vpage else fault_size in
  (mk_last vpage fault_size counter, fault_size).

(** One page of a fault. *)
Definition fault_page seg m (current prot : Z) : option (memory * fault) :=
  '(m, r) ← vmm_map_page seg m current prot;
  match r with
  | VMM_FAULT_NOT_HANDLED =>
      if has (Vmm.flags seg) Vmm.VMM_FLAG_PRIVATE && (prot =? MMU_FLAG_WRITE) then vmm_cow seg m current
      else Some (m, r)
  | _ => Some (m, r)
  end.

(** The pages from [current] on: the memory, whether SIGBUS was sent, and the result. *)
Fixpoint fault_loop (n : nat) seg m (vpage current prot : Z) : option (memory * bool * bool) :=
  match n with
  | O => Some (m, false, true)
  | S n =>
      '(m, r) ← fault_page seg m current prot;
      match r with
      | VMM_FAULT_NOT_HANDLED =>
          if current =? vpage then Some (m, false, false)
          else fault_loop n seg m vpage (current +! PAGE_SIZE) prot
      | VMM_FAULT_FAILED => Some (m, current =? vpage, true)
      | VMM_FAULT_SUCCED => fault_loop n seg m vpage (current +! PAGE_SIZE) prot
      end
  end.

(** The memory, what the segment remembers, whether SIGBUS was sent, and whether the fault was
    handled. *)
Definition vmm_handle_fault seg lf m (addr prot : Z) : option (memory * last_fault * bool * bool) :=
  let vpage := PAGE_ALIGN_DOWN addr in
  let '(m, r) := match fault_op with
                 | Some op => op seg m addr prot
                 | None => (m, VMM_FAULT_NOT_HANDLED)
                 end in
  match r with
  | VMM_FAULT_FAILED => Some (m, lf, true, true)
  | VMM_FAULT_SUCCED => Some (m, lf, false, true)
  | VMM_FAULT_NOT_HANDLED =>
      if negb (has (Vmm.prot seg) prot) then Some (m, lf, false, false)
      else
        let '(lf, fault_size) := predict seg lf vpage in
        let m := match preload with
                 | Some op => op seg m vpage ((fault_size *! 2) -! VMM_DEFAULT_FAULT_SIZE)
                 | None => m
                 end in
        '(m, sigbus, handled) ← fault_loop (Z.to_nat (fault_size / PAGE_SIZE)) seg m vpage vpage prot;
        Some (m, lf, sigbus, handled)
  end.

(** What the fault path uses of an address space: its segments, what each segment, by its start,
    remembers, and the number of faults. *)
Record space := mk_space { segs : list Vmm.vmm_seg; lasts : gmap Z last_fault; page_faults : Z }.

Definition vmm_fault_report (sp : space) m (addr prot : Z) : option (memory * space * bool * bool) :=
  let faults := page_faults sp +! 1 in
  match find (Vmm.covers addr) (segs sp) with
  | None => Some (m, mk_space (segs sp) (lasts sp) faults, false, false)
  | Some seg =>
      let lf := default (mk_last 0 0 0) (lasts sp !! Vmm.start seg) in
      '(m, lf, sigbus, handled) ← vmm_handle_fault seg lf m addr prot;
      Some (m, mk_space (segs sp) (<[Vmm.start seg := lf]> (lasts sp)) faults, sigbus, handled)
  end.

End fault.

(** What a segment remembers is a number of pages, and a small counter. *)
Definition last_ok lf : Prop :=
  0 <= last_fault_page lf < 2 ^ 47 /\ 0 <= last_fault_size lf <= VMM_MAX_FAULT_SIZE /\
  last_fault_size lf mod PAGE_SIZE = 0 /\ 0 <= last_fault_counter lf < 64.

Lemma predict_ok seg lf vpage :
  last_ok lf -> 0 <= vpage < Vmm.end_ seg -> Vmm.end_ seg <= 2 ^ 47 -> vpage mod PAGE_SIZE = 0 -> Vmm.end_ seg mod PAGE_SIZE = 0 ->
  let '(lf', size) := predict seg lf vpage in
  last_ok lf' /\ size mod PAGE_SIZE = 0 /\ PAGE_SIZE <= size <= VMM_MAX_FAULT_SIZE /\ vpage + size <= Vmm.end_ seg.
Proof.
  intros (Hp & Hsz & Hmod & Hcnt) Hv He Hvm Hem. unfold predict, VMM_DEFAULT_FAULT_SIZE, VMM_MAX_FAULT_SIZE, PAGE_SIZE in *.
  set (first := if _ && _ then _ else _).
  assert (Hf : exists s c, first = (s, c) /\ 4096 <= s <= 64 * 4096 /\ s mod 4096 = 0 /\ 0 <= c <= 64).
  { unfold first. destruct ((last_fault_page lf <? vpage) && _) eqn:E.
    - apply andb_true_iff in E as [E1 E2]. zbool. rewrite u64_small in E2 by (unfold is_u64; lia).
      eexists _, _. split; [done|]. rewrite (u64_small (_ + 1)) by (unfold is_u64; lia).
      split; [|split; [done|lia]]. destruct (decide (last_fault_size lf = 0)) as [E0|E0]; [lia|].
      Z.div_mod_to_equations. lia.
    - eexists _, _. split; [done|]. split; [lia|]. split; [done|lia]. }
  destruct Hf as (s & c & -> & Hs & Hsm & Hc).
  set (second := if _ <=? _ then _ else _).
  assert (Hf : exists s2 c2, second = (s2, c2) /\ 4096 <= s2 <= 64 * 4096 /\ s2 mod 4096 = 0 /\ 0 <= c2 < 64).
  { unfold second. rewrite (u64_small (c * 4096)) by (unfold is_u64; lia).
    destruct (s <=? c * 4096) eqn:E; zbool; eexists _, _; (split; [done|]).
    - rewrite u64_small by (unfold is_u64; lia). split; [lia|]. split; [|lia].
      destruct (Z.min_spec (s * 2) (64 * 4096)) as [[_ ->]|[_ ->]]; [|done]. by rewrite Z.mul_mod, Hsm by lia.
    - split; [lia|]. split; [done|]. lia. }
  destruct Hf as (s2 & c2 & -> & Hs2 & Hsm2 & Hc2). rewrite u64_small by (unfold is_u64; lia).
  destruct (Vmm.end_ seg <? vpage + s2) eqn:E; zbool.
  - rewrite u64_small by (unfold is_u64; lia). unfold last_ok, VMM_MAX_FAULT_SIZE, PAGE_SIZE. cbn.
    assert ((Vmm.end_ seg - vpage) mod 4096 = 0) by (by rewrite Zminus_mod, Hvm, Hem).
    assert (4096 <= Vmm.end_ seg - vpage) by (Z.div_mod_to_equations; lia). lia.
  - unfold last_ok, VMM_MAX_FAULT_SIZE, PAGE_SIZE. cbn. lia.
Qed.

Lemma align_down_spec addr : 0 <= addr -> PAGE_ALIGN_DOWN addr mod PAGE_SIZE = 0 /\ 0 <= PAGE_ALIGN_DOWN addr <= addr.
Proof. intros. unfold PAGE_ALIGN_DOWN, PAGE_SIZE. rewrite Z.mod_mul by lia. split; [done|]. Z.div_mod_to_equations. lia. Qed.


(** * Soundness of the memory *)

(** ** Counting mappings *)

(** How many pages of a space are mapped to a page. *)
Definition mappings (maps : gmap Z Z) (p : Z) : Z := Z.of_nat (size (filter (fun kv => kv.2 = p) maps)).

Definition one_if (b : bool) : Z := if b then 1 else 0.

Lemma mappings_insert maps n q p :
  maps !! n = None -> mappings (<[n := q]> maps) p = mappings maps p + one_if (bool_decide (p = q)).
Proof.
  intros Hn. unfold mappings. destruct (decide (q = p)) as [->|Hne].
  - rewrite map_filter_insert_True, map_size_insert_None by (done || by rewrite map_lookup_filter, Hn).
    rewrite bool_decide_true by done. simpl. lia.
  - rewrite map_filter_insert_False, delete_id by (done || by rewrite ?map_lookup_filter, ?Hn).
    rewrite bool_decide_false by congruence. simpl. lia.
Qed.

Lemma mappings_delete maps n q p :
  maps !! n = Some q -> mappings (delete n maps) p = mappings maps p - one_if (bool_decide (p = q)).
Proof.
  intros Hn. rewrite <- (insert_id maps n q Hn) at 2. rewrite <- insert_delete_eq.
  rewrite (mappings_insert (delete n maps)) by apply lookup_delete_eq. lia.
Qed.

Lemma mappings_replace maps n q q' p :
  maps !! n = Some q ->
  mappings (<[n := q']> maps) p = mappings maps p - one_if (bool_decide (p = q)) + one_if (bool_decide (p = q')).
Proof.
  intros Hn. rewrite <- insert_delete_eq, mappings_insert by apply lookup_delete_eq. by rewrite (mappings_delete _ _ _ _ Hn).
Qed.

Lemma mappings_nonneg maps p : 0 <= mappings maps p.
Proof. unfold mappings. lia. Qed.

(** A page mapped once is mapped at one place. *)
Lemma mappings_unique maps p n k :
  mappings maps p <= 1 -> maps !! n = Some p -> maps !! k = Some p -> k = n.
Proof.
  intros Hc Hn Hk. destruct (decide (k = n)) as [->|Hne]; [done|]. exfalso.
  pose proof (mappings_delete maps n p p Hn) as E1. rewrite bool_decide_true in E1 by done.
  pose proof (mappings_delete (delete n maps) k p p) as E2. rewrite bool_decide_true in E2 by done.
  rewrite lookup_delete_ne in E2 by done. specialize (E2 Hk). unfold one_if in *.
  pose proof (mappings_nonneg (delete k (delete n maps)) p). lia.
Qed.

Lemma mappings_pos maps p n : maps !! n = Some p -> 1 <= mappings maps p.
Proof.
  intros Hn. pose proof (mappings_delete maps n p p Hn) as E. rewrite bool_decide_true in E by done.
  pose proof (mappings_nonneg (delete n maps) p). unfold one_if in E. lia.
Qed.

(** ** The invariant *)

Section inv.
Context (PML4 : Z).

Definition entry_page (x : Z) : option Z := if present x then Some (Z.land x PAGING_ENTRY_ADDRESS) else None.

Definition good (p : Z) : Prop := p mod 4096 = 0 /\ 0 <= p < 2 ^ 52.

(** The tables map the pages of the lower half, which belongs to the user, as [maps] says. *)
Record mapped (own : gmap Z (nat * Z)) (x : mem) (maps : gmap Z Z) : Prop := {
  ma_wf : wf own x PML4;
  ma_locks : locks x = ∅;
  ma_view v : vpn v < 2 ^ 35 -> entry_page (lookup x PML4 v) = maps !! vpn v;
}.

(** Each page has a reference for each mapping, and [ext] more: those of other spaces and of
    caches.  A page without references is not allocated. *)
Record counted (free : list Z) (rs : gmap Z Z) (d : gmap Z (list Z)) (maps : gmap Z Z) (ext : Z -> Z) : Prop := {
  co_refs p k : rs !! p = Some k -> good p /\ 1 <= k /\ k = mappings maps p + ext p;
  co_none p : rs !! p = None -> ext p = 0;
  co_ext p : 0 <= ext p;
  co_maps n p : maps !! n = Some p -> is_Some (rs !! p) /\ is_Some (d !! p);
  co_free p : p ∈ free -> rs !! p = None;
}.

Record sound (own : gmap Z (nat * Z)) m (maps : gmap Z Z) (ext : Z -> Z) : Prop := {
  so_mapped : mapped own (mmu m) maps;
  so_counted : counted (pool (mmu m)) (refs m) (data m) maps ext;
}.

(** One more reference to a page. *)
Definition bump (p : Z) (ext : Z -> Z) : Z -> Z := fun q => ext q + one_if (bool_decide (q = p)).

Lemma bump_eq p ext : bump p ext p = ext p + 1.
Proof. unfold bump. by rewrite bool_decide_true. Qed.

Lemma bump_ne p ext q : q <> p -> bump p ext q = ext q.
Proof. intros. unfold bump, one_if. rewrite bool_decide_false by done. lia. Qed.

Lemma wf_pool_tail own x p l :
  wf own x PML4 -> pool x = p :: l ->
  wf own (mk_mem (tables x) (locks x) l (released x)) PML4.
Proof.
  intros [W1 W2 W3 W4 W5 W6 W7] E. rewrite E in W6, W7. apply NoDup_cons in W6 as [_ W6].
  constructor; try done. intros q Hq. apply W7. by right.
Qed.

Lemma lookup_same_tables x x' v : tables x = tables x' -> lookup x PML4 v = lookup x' PML4 v.
Proof.
  intros E. unfold lookup. generalize PAGING_LEVEL_MAX (vpn v) PML4. induction n as [|n IH]; intros k t; cbn [look].
  - by rewrite (load_tables x x') by (by rewrite E).
  - rewrite (load_tables x x') by (by rewrite E). destruct (load x' _); [|done]. by rewrite IH.
Qed.

(** ** Pages *)

Lemma allocate_sound own m maps ext m' r :
  sound own m maps ext -> allocate_page m = (m', r) ->
  tables (mmu m') = tables (mmu m) /\ data m' = data m /\
  match r with
  | None => m' = m
  | Some p => good p /\ refs m !! p = None /\ refs m' !! p = Some 1 /\
      (forall q, q <> p -> refs m' !! q = refs m !! q) /\ (forall n, maps !! n <> Some p) /\
      counted (pool (mmu m')) (refs m') (data m) maps (bump p ext) /\ mapped own (mmu m') maps
  end.
Proof.
  intros [[Hwf Hk Hv] [C1 C2 C3 C4 C5]]. unfold allocate_page, pmm_allocate_page.
  destruct (pool (mmu m)) as [|p l] eqn:Ep; intros [= <- <-].
  { split; [done|]. split; [done|]. by destruct m. }
  split; [done|]. split; [done|]. cbn [mmu refs data pool].
  destruct (wf_pool _ _ _ Hwf p) as (_ & Hp); [rewrite Ep; by left|].
  assert (Hnone : refs m !! p = None) by (apply C5; by left).
  assert (Hno : forall n, maps !! n <> Some p).
  { intros n Hn. destruct (C4 _ _ Hn) as [[? ?] _]. congruence. }
  assert (Hz : mappings maps p = 0).
  { unfold mappings. assert (E : filter (fun kv : Z * Z => kv.2 = p) maps = ∅).
    { apply map_empty. intros n. apply map_lookup_filter_None. right. intros q Hn. simpl. intros ->. by apply (Hno n). }
    by rewrite E, map_size_empty. }
  conjs; try done.
  - by rewrite lookup_insert_eq.
  - intros q Hq. by rewrite lookup_insert_ne.
  - constructor.
    + intros q k. destruct (decide (q = p)) as [->|Hq].
      * rewrite lookup_insert_eq, bump_eq, (C2 p Hnone). intros [= <-]. split; [done|]. lia.
      * rewrite lookup_insert_ne, bump_ne by done. apply C1.
    + intros q. destruct (decide (q = p)) as [->|Hq]; [by rewrite lookup_insert_eq|].
      rewrite lookup_insert_ne, bump_ne by done. apply C2.
    + intros q. unfold bump, one_if. pose proof (C3 q). case_bool_decide; lia.
    + intros n q Hn. rewrite lookup_insert_ne; [by eapply C4|]. intros ->. by apply (Hno n).
    + intros q Hq. pose proof (wf_pool_nodup _ _ _ Hwf) as Hnd. rewrite Ep in Hnd. apply NoDup_cons in Hnd as [Hnd _].
      rewrite lookup_insert_ne by (by intros ->). apply C5. by right.
  - constructor; [by eapply wf_pool_tail|done|]. intros v Hu. by apply Hv.
Qed.

Lemma release_sound own m maps ext p :
  sound own m maps (bump p ext) -> (forall q, 0 <= ext q) -> is_Some (refs m !! p) ->
  exists m', release_page m p = Some m' /\ sound own m' maps ext /\ mmu m' = mmu m /\ data m' = data m.
Proof.
  intros [Hm [C1 C2 C3 C4 C5]] Hext (k & Hk). unfold release_page. rewrite Hk. eexists. split; [done|].
  split; [|done]. destruct (C1 _ _ Hk) as (Hg & Hk1 & Ek). rewrite bump_eq in Ek.
  pose proof (mappings_nonneg maps p). pose proof (Hext p).
  split; [done|]. cbn [mmu refs data]. constructor; [| |done| |].
  - intros q j. destruct (decide (q = p)) as [->|Hq].
    + case_if; [by rewrite lookup_delete_eq|]. rewrite lookup_insert_eq. intros [= <-]. split; [done|]. lia.
    + assert (E : (if k =? 1 then delete p (refs m) else <[p := k - 1]> (refs m)) !! q = refs m !! q).
      { case_if; [by rewrite lookup_delete_ne|by rewrite lookup_insert_ne]. }
      rewrite E. intros Hj. destruct (C1 _ _ Hj). by rewrite bump_ne in *.
  - intros q. destruct (decide (q = p)) as [->|Hq].
    + case_if; [lia|]. by rewrite lookup_insert_eq.
    + case_if; [rewrite lookup_delete_ne by done|rewrite lookup_insert_ne by done]; intros Hq'; apply C2 in Hq'; by rewrite bump_ne in Hq'.
  - intros n q Hn. destruct (C4 _ _ Hn) as [Hr Hd]. split; [|done]. destruct (decide (q = p)) as [->|Hq].
    + pose proof (mappings_pos _ _ _ Hn). case_if; [lia|]. rewrite lookup_insert_eq. by eexists.
    + case_if; [by rewrite lookup_delete_ne|by rewrite lookup_insert_ne].
  - intros q Hq. apply C5 in Hq as Hq'. case_if; [by rewrite lookup_delete_None; right|].
    rewrite lookup_insert_ne; [done|]. congruence.
Qed.

Lemma sound_ext own m maps ext ext' : (forall q, ext q = ext' q) -> sound own m maps ext -> sound own m maps ext'.
Proof.
  intros E [Hm [C1 C2 C3 C4 C5]]. split; [done|]. constructor; intros; rewrite <- ?E; eauto.
Qed.

Lemma sound_mmu own m maps ext x :
  sound own m maps ext -> mapped own x maps -> pool x = pool (mmu m) -> sound own (set_mmu m x) maps ext.
Proof. intros [_ C] Hm E. split; [done|]. cbn. by rewrite E. Qed.

(** The copy of a page, and the reference to the original given back. *)
Lemma dup_sound own m maps ext p c :
  sound own m maps (bump p ext) -> (forall q, 0 <= ext q) -> data m !! p = Some c -> is_Some (refs m !! p) ->
  exists m1 r m2, pmm_dup_page m p = Some (m1, r) /\ release_page m1 p = Some m2 /\
    tables (mmu m2) = tables (mmu m) /\ (forall n q, maps !! n = Some q -> data m2 !! q = data m !! q) /\
    match r with
    | None => sound own m2 maps ext
    | Some new => sound own m2 maps (bump new ext) /\ refs m2 !! new = Some 1 /\ refs m !! new = None /\
        data m2 !! new = Some c /\ (forall k, maps !! k <> Some new)
    end.
Proof.
  intros Hs Hext Hd Hp. unfold pmm_dup_page. destruct (allocate_page m) as [m0 r] eqn:Ea.
  destruct (allocate_sound _ _ _ _ _ _ Hs Ea) as (Ht & Hdata & Hr). destruct r as [new|].
  - destruct Hr as (Hg & Hnone & Hone & Hother & Hno & Hc & Hm).
    assert (Hne : new <> p) by (intros ->; destruct Hp; congruence).
    rewrite Hdata, Hd. cbv beta iota delta [mbind option_bind].
    set (m1 := mk_memory (mmu m0) (refs m0) (<[new := c]> (data m))).
    assert (Hs1 : sound own m1 maps (bump p (bump new ext))).
    { apply (sound_ext _ _ _ (bump new (bump p ext))); [intros q; unfold bump; lia|]. split; [done|].
      destruct Hc as [C1 C2 C3 C4 C5]. constructor; try done. intros n q Hn. destruct (C4 _ _ Hn) as [? ?]. split; [done|].
      cbn. destruct (decide (q = new)) as [->|]; [rewrite lookup_insert_eq; by eexists|by rewrite lookup_insert_ne]. }
    destruct (release_sound _ _ _ _ _ Hs1) as (m2 & Hrel & Hs2 & Hmmu & Hdata2).
    { intros q. unfold bump, one_if. pose proof (Hext q). case_bool_decide; lia. }
    { cbn. by rewrite Hother. }
    exists m1, (Some new), m2. split; [done|]. split; [done|]. rewrite Hmmu, Hdata2. cbn. split; [done|]. split.
    { intros n q Hn. rewrite lookup_insert_ne; [done|]. intros ->. by apply (Hno n). }
    split; [done|]. split; [|split; [done|split; [by rewrite lookup_insert_eq|done]]].
    unfold release_page in Hrel. cbn in Hrel. rewrite Hother in Hrel by done. destruct Hp as (k & Hk). rewrite Hk in Hrel.
    cbv beta iota delta [mbind option_bind] in Hrel. injection Hrel as <-. cbn.
    case_if; [by rewrite lookup_delete_ne|by rewrite lookup_insert_ne].
  - subst m0. destruct (release_sound _ _ _ _ _ Hs Hext Hp) as (m2 & Hrel & Hs2 & Hmmu & Hdata2).
    exists m, None, m2. rewrite Hmmu, Hdata2. done.
Qed.

(** ** Entries *)

Lemma present_or x y : present x = true -> present (Z.lor x y) = true.
Proof. unfold present. rewrite has_lor. by intros ->. Qed.

Lemma write_flag : has (mmu2paging_flags MMU_FLAG_WRITE) PAGING_FLAG_WRITE = true.
Proof. done. Qed.

Lemma or_flags_entry x flags : entry_page x <> None -> entry_page (Z.lor x (mmu2paging_flags flags)) = entry_page x.
Proof.
  unfold entry_page. destruct (present x) eqn:Ep; [|done]. intros _. rewrite present_or by done. f_equal.
  by rewrite Z.land_lor_distr_l, flags_no_address, Z.lor_0_r.
Qed.

Lemma replaced_entry x p flags :
  present x = true -> good p ->
  entry_page (Z.lor (Z.lor (Z.land p PAGING_ENTRY_ADDRESS) (Z.land x PAGING_ENTRY_FLAGS)) (mmu2paging_flags flags)) = Some p.
Proof.
  intros Hp [Ha Hr]. rewrite (address_idemp p Ha Hr). unfold entry_page. rewrite present_or.
  - f_equal. rewrite !Z.land_lor_distr_l, flags_no_address, Z.lor_0_r, (address_idemp p Ha Hr).
    rewrite <- Z.land_assoc. change (Z.land PAGING_ENTRY_FLAGS PAGING_ENTRY_ADDRESS) with 0.
    by rewrite Z.land_0_r, Z.lor_0_r.
  - unfold present. rewrite has_lor. apply orb_true_iff. right. unfold has in *.
    rewrite <- Z.land_assoc. change (Z.land PAGING_ENTRY_FLAGS PAGING_FLAG_PRESENT) with PAGING_FLAG_PRESENT. exact Hp.
Qed.

(** Writing an entry whose table is locked, and the release of the lock. *)
Lemma write_entry own x v en y :
  wf own x PML4 -> locks x = {[en.1]} -> mmu_get_entry x PML4 v = Some (Some en) ->
  load x en = Some (lookup x PML4 v) /\
  exists x1 x', store x en y = Some x1 /\ mmu_entry_release_lock x1 en = Some x' /\ wf own x' PML4 /\ locks x' = ∅ /\
    pool x' = pool x /\ forall w, lookup x' PML4 w = if decide (vpn w = vpn v) then y else lookup x PML4 w.
Proof.
  intros Hwf Hk Hg. destruct en as [t i]. split.
  - rewrite (lookup_get_entry own) by done. rewrite Hg.
    destruct (get_entry_spec own PML4 x 3 PML4 v Hwf) as [(E & _)|(t0 & E & _ & El)];
      [by rewrite region_3, (wf_root _ _ _ Hwf)|done|..];
      unfold mmu_get_entry, PAGING_LEVEL_MAX in Hg; rewrite Hg in E; [done|]. injection E as -> ->. by rewrite El.
  - destruct (store_leaf own PML4 x v t i y Hwf Hg) as (x1 & Es & Hwf1 & _ & Hl & Hk1 & Hp1 & _).
    exists x1. rewrite Es. unfold mmu_entry_release_lock, pmm_release_page_lock. cbn [fst].
    rewrite decide_True by (rewrite Hk1, Hk; set_solver). eexists. split; [done|]. split; [done|].
    split; [by apply wf_tables|]. split; [cbn; rewrite Hk1, Hk; set_solver|]. split; [done|].
    intros w. rewrite lookup_tables. apply Hl.
Qed.

Lemma unlock_entry own x en maps :
  wf own x PML4 -> locks x = {[en.1]} -> (forall v, vpn v < 2 ^ 35 -> entry_page (lookup x PML4 v) = maps !! vpn v) ->
  exists x', mmu_entry_release_lock x en = Some x' /\ mapped own x' maps /\ tables x' = tables x /\ pool x' = pool x.
Proof.
  intros Hwf Hk Hv. unfold mmu_entry_release_lock, pmm_release_page_lock.
  rewrite decide_True by (rewrite Hk; set_solver). eexists. split; [done|]. split; [|done].
  split; [by apply wf_tables|cbn; rewrite Hk; set_solver|]. intros v Hu. rewrite lookup_tables. by apply Hv.
Qed.

Lemma virt2phys_spec own x v :
  wf own x PML4 ->
  mmu_space_virt2phys x PML4 v =
    Some (match entry_page (lookup x PML4 v) with None => PAGE_INVALID | Some p => p + Z.land v 0xfff end).
Proof.
  intros Hwf. unfold mmu_space_virt2phys. rewrite (lookup_get_entry own) by done.
  destruct (get_entry_spec own PML4 x 3 PML4 v Hwf) as [(E & _)|(t0 & E & _ & El)];
    [by rewrite region_3, (wf_root _ _ _ Hwf)|done|..];
    unfold mmu_get_entry, PAGING_LEVEL_MAX; rewrite E; cbv beta iota delta [mbind option_bind]; [done|].
  rewrite El. cbn [default from_option id]. unfold entry_page. by destruct (present _).
Qed.

Lemma mapped_valid v p : good p -> (p + Z.land v 0xfff =? PAGE_INVALID) = false.
Proof.
  intros [_ Hp]. apply Z.eqb_neq. rewrite (land_ones_mod v 0xfff 12) by (done || lia).
  pose proof (Z.mod_pos_bound v (2 ^ 12) ltac:(lia)). unfold PAGE_INVALID, PAGE_SIZE. lia.
Qed.

(** ** What a fault may change *)

(** The page at [n] belongs to this mapping alone. *)
Definition exclusive m (maps : gmap Z Z) (ext : Z -> Z) (n : Z) : Prop :=
  exists p, maps !! n = Some p /\ refs m !! p = Some 1 /\ ext p = 0 /\ forall k, maps !! k = Some p -> k = n.

Lemma exclusive_intro own m maps ext n p :
  sound own m maps ext -> maps !! n = Some p -> refs m !! p = Some 1 -> exclusive m maps ext n.
Proof.
  intros [_ [C1 _ C3 _ _]] Hn Hr. exists p. destruct (C1 _ _ Hr) as (_ & _ & Hk).
  pose proof (mappings_pos _ _ _ Hn). pose proof (C3 p). conjs; try done; [lia|].
  intros k Hk'. eapply mappings_unique; [|done|done]. lia.
Qed.

Lemma exclusive_keep own m maps ext own' m' maps' ext' k :
  sound own m maps ext -> sound own' m' maps' ext' -> exclusive m maps ext k -> maps' !! k = maps !! k ->
  (forall p, is_Some (refs m !! p) -> ext p = 0 -> maps !! k = Some p -> ext' p = 0 /\ mappings maps' p = mappings maps p) ->
  exclusive m' maps' ext' k.
Proof.
  intros [_ [C1 _ _ _ _]] Hs' (p & Hk & Hr & Hp & Hu) E Hall. destruct (Hall p) as [Hp' Hmap]; [by eexists|done|done|].
  rewrite <- E in Hk. apply (exclusive_intro own' m' maps' ext' k p Hs' Hk).
  destruct Hs' as [_ [C1' _ _ C4' _]]. destruct (C4' _ _ Hk) as [[j Hj] _]. destruct (C1' _ _ Hj) as (_ & _ & Ej).
  destruct (C1 _ _ Hr) as (_ & _ & E1). rewrite Hj. f_equal. lia.
Qed.

(** The pages of [P] may be mapped anew; what was mapped keeps its contents everywhere. *)
Record page_step (P : Z -> Prop) own m (maps : gmap Z Z) (ext : Z -> Z) own' m' (maps' : gmap Z Z) (ext' : Z -> Z) : Prop := {
  ps_sound : sound own' m' maps' ext';
  ps_own : own ⊆ own';
  ps_other v : ~ P (vpn v) -> lookup (mmu m') PML4 v = lookup (mmu m) PML4 v;
  ps_maps k : ~ P k -> maps' !! k = maps !! k;
  ps_data k p : maps !! k = Some p -> exists p', maps' !! k = Some p' /\ data m' !! p' = data m !! p;
  ps_excl k : ~ P k -> exclusive m maps ext k -> exclusive m' maps' ext' k;
}.

Lemma page_step_refl P own m maps ext : sound own m maps ext -> page_step P own m maps ext own m maps ext.
Proof. intros Hs. split; try done. intros k p Hk. by exists p. Qed.

Lemma page_step_trans P Q own m maps ext own1 m1 maps1 ext1 own2 m2 maps2 ext2 :
  page_step P own m maps ext own1 m1 maps1 ext1 -> page_step Q own1 m1 maps1 ext1 own2 m2 maps2 ext2 ->
  page_step (fun k => P k \/ Q k) own m maps ext own2 m2 maps2 ext2.
Proof.
  intros [A1 A2 A3 A4 A5 A6] [B1 B2 B3 B4 B5 B6]. split; try done.
  - by etrans.
  - intros v Hv. rewrite B3, A3 by tauto. done.
  - intros k Hk. rewrite B4, A4 by tauto. done.
  - intros k p Hk. destruct (A5 _ _ Hk) as (p1 & Hk1 & Hd1). destruct (B5 _ _ Hk1) as (p2 & Hk2 & Hd2).
    exists p2. split; [done|congruence].
  - intros k Hk He. apply B6; [tauto|]. apply A6; [tauto|done].
Qed.

Lemma page_step_weaken P Q own m maps ext own' m' maps' ext' :
  (forall k, P k -> Q k) -> page_step P own m maps ext own' m' maps' ext' -> page_step Q own m maps ext own' m' maps' ext'.
Proof. intros HPQ [A1 A2 A3 A4 A5 A6]. split; auto. Qed.

(** Steps that map nothing come before others. *)
Lemma page_step_then P own m maps ext own1 m1 maps1 ext1 own2 m2 maps2 ext2 :
  page_step (fun _ => False) own m maps ext own1 m1 maps1 ext1 -> page_step P own1 m1 maps1 ext1 own2 m2 maps2 ext2 ->
  page_step P own m maps ext own2 m2 maps2 ext2.
Proof. intros H1 H2. eapply page_step_weaken; [|by eapply page_step_trans]. by intros k [[]|?]. Qed.

(** Calls that leave the tables alone. *)
Lemma page_step_pages own m maps ext m' ext' :
  sound own m maps ext -> sound own m' maps ext' -> tables (mmu m') = tables (mmu m) ->
  (forall n q, maps !! n = Some q -> data m' !! q = data m !! q) ->
  (forall q, is_Some (refs m !! q) -> ext q = 0 -> ext' q = 0) ->
  page_step (fun _ => False) own m maps ext own m' maps ext'.
Proof.
  intros Hs Hs' Ht Hd He. split; try done.
  - intros v _. by apply lookup_same_tables.
  - intros k p Hk. exists p. split; [done|]. by eapply Hd.
  - intros k _ Hx. eapply (exclusive_keep own m maps ext own m' maps ext'); try done. intros p Hp Hp0 _. split; [by apply He|done].
Qed.

(** ** What the callbacks promise *)

Definition with_ref (r : option Z) (ext : Z -> Z) : Z -> Z :=
  match r with Some p => bump p ext | None => ext end.

(** A callback leaves the tables and the contents of the mapped pages alone, knows nothing of the
    pages of this space alone, and the result is a page with a new reference. *)
Definition callback own m (maps : gmap Z Z) (ext : Z -> Z) m' (r : option Z) : Prop :=
  tables (mmu m') = tables (mmu m) /\ (forall n q, maps !! n = Some q -> data m' !! q = data m !! q) /\
  exists ext', sound own m' maps (with_ref r ext') /\ (forall q, 0 <= ext' q) /\
    (forall q, is_Some (refs m !! q) -> ext q = 0 -> with_ref r ext' q = 0) /\
    match r with Some p => is_Some (refs m' !! p) /\ is_Some (data m' !! p) | None => True end.

Class GetPageLaws `{SegOps} := {
  get_page_law g seg own m maps ext v m' r :
    get_page = Some g -> has (Vmm.flags seg) Vmm.VMM_FLAG_IO = false -> sound own m maps ext ->
    g seg m v = (m', r) -> callback own m maps ext m' r;
  preload_law g seg own m maps ext v size :
    preload = Some g -> sound own m maps ext -> callback own m maps ext (g seg m v size) None;
}.

(** ** Mapping a page *)

Lemma sound_nonneg own m maps ext : sound own m maps ext -> forall q, 0 <= ext q.
Proof. intros Hs. apply Hs. Qed.

(** A page with a reference of its own gets the entry of an address that is not mapped, or the
    reference is given back. *)
Lemma map_new_page own m maps ext v p fl seg :
  sound own m maps (bump p ext) -> (forall q, 0 <= ext q) -> is_Some (refs m !! p) -> is_Some (data m !! p) ->
  maps !! vpn v = None -> vpn v < 2 ^ 35 -> has fl MMU_FLAG_PRESENT = true ->
  has (Vmm.flags seg) Vmm.VMM_FLAG_IO = false ->
  exists x en own', mmu_create_entry_and_acquire_lock (mmu m) PML4 v = Some (x, en) /\
    match en with
    | None => exists m', drop_page seg (set_mmu m x) p = Some m' /\
        page_step (fun _ => False) own m maps (bump p ext) own' m' maps ext
    | Some en => exists x1 x',
        mmu_entry_map x en p fl = Some x1 /\ mmu_entry_release_lock x1 en = Some x' /\
        (exists f, mmu_entry_get_flags x en = Some f /\ has f MMU_FLAG_PRESENT = false) /\
        page_step (eq (vpn v)) own m maps (bump p ext) own' (set_mmu m x') (<[vpn v := p]> maps) ext /\
        lookup x' PML4 v = map_value p fl
    end.
Proof.
  intros Hs Hext Hrp Hdp Hnone Hu Hfl Hio. pose proof Hs as [[Hwf Hk Hview] Hc].
  destruct (mmu_create_entry_spec PML4 own (mmu m) v Hwf Hk) as (own' & x & en & Ec & G & Hen).
  exists x, en, own'. split; [done|].
  assert (Hlook : forall w, lookup x PML4 w = lookup (mmu m) PML4 w) by (intros w; by eapply grown_lookup).
  destruct (gr_pool _ _ _ _ _ G) as (taken & Epool & _).
  assert (Hfree : forall rs d maps' ext', counted (pool (mmu m)) rs d maps' ext' -> counted (pool x) rs d maps' ext').
  { intros rs d maps' ext' [C1 C2 C3 C4 C5]. constructor; try done. intros q Hq. apply C5. rewrite Epool. set_solver. }
  destruct en as [en|].
  - destruct Hen as (Hkx & Hge).
    destruct (write_entry own' x v en (map_value p fl) (gr_wf _ _ _ _ _ G) Hkx Hge) as (Hload & x1 & x' & Es & Er & Hwf' & Hk' & Hp' & Hl').
    exists x1, x'. destruct Hrp as (kp & Hkp). pose proof (co_refs _ _ _ _ _ Hc _ _ Hkp) as (Hgood & _).
    assert (Hat : lookup x' PML4 v = map_value p fl) by (by rewrite Hl', decide_True).
    assert (Hs' : sound own' (set_mmu m x') (<[vpn v := p]> maps) ext).
    { split.
      - split; [done|done|]. intros w Hw. cbn [mmu set_mmu]. rewrite Hl'. case_decide as E.
        + rewrite E, lookup_insert_eq. unfold entry_page. rewrite present_map_value by done. f_equal.
          apply map_value_page; apply Hgood.
        + rewrite lookup_insert_ne by done. rewrite Hlook. by apply Hview.
      - cbn [mmu set_mmu refs data]. rewrite Hp'. apply Hfree. destruct Hc as [C1 C2 C3 C4 C5]. constructor; try done.
        + intros q k Hq. destruct (C1 _ _ Hq) as (? & ? & Ek). split; [done|]. split; [done|].
          rewrite mappings_insert by done. unfold bump in Ek. lia.
        + intros q Hq. apply C2 in Hq as Hq'. unfold bump, one_if in Hq'. pose proof (Hext q). case_bool_decide; lia.
        + intros n q. destruct (decide (n = vpn v)) as [->|Hn]; [rewrite lookup_insert_eq; by intros [= <-]; rewrite Hkp|].
          rewrite lookup_insert_ne by done. apply C4. }
    split; [by rewrite <- Es|]. split; [done|]. split.
    { unfold mmu_entry_get_flags. rewrite Hload. cbv beta iota delta [mbind option_bind]. eexists. split; [done|].
      rewrite Hlook. unfold mmu_entry_val_get_flags. pose proof (Hview v Hu) as Hv. rewrite Hnone in Hv.
      unfold entry_page in Hv. by destruct (present _). }
    split; [|done]. split; try done.
    + apply (gr_own _ _ _ _ _ G).
    + intros w Hw. cbn [mmu set_mmu]. rewrite Hl', decide_False by congruence. apply Hlook.
    + intros k Hk0. by rewrite lookup_insert_ne.
    + intros k q Hq. exists q. rewrite lookup_insert_ne by congruence. done.
    + intros k Hk0 Hx. eapply (exclusive_keep own m maps); try done; [by rewrite lookup_insert_ne|].
      intros q Hq Hq0 _. unfold bump in Hq0. pose proof (Hext q). rewrite mappings_insert by done.
      unfold one_if in *. case_bool_decide; lia.
  - assert (Hm : mapped own' x maps).
    { split; [apply G|done|]. intros w Hw. rewrite Hlook. by apply Hview. }
    assert (Hs' : sound own' (set_mmu m x) maps (bump p ext)) by (split; [done|by apply Hfree]).
    destruct (release_sound _ _ _ _ _ Hs' Hext Hrp) as (m' & Hrel & Hs2 & Em & Ed).
    exists m'. unfold drop_page. rewrite Hio. split; [done|]. split; try done.
    + apply (gr_own _ _ _ _ _ G).
    + intros w _. rewrite Em. apply Hlook.
    + intros k q Hq. exists q. by rewrite Ed.
    + intros k _ Hx. eapply (exclusive_keep own m maps (bump p ext)); try done.
      intros q _ Hq0 _. unfold bump, one_if in Hq0. pose proof (Hext q). case_bool_decide; (split; [lia|done]).
Qed.

(** ** The functions of the fault path *)

Section handlers.
Context `{GetPageLaws}.
Context (seg : Vmm.vmm_seg).
Hypothesis Hio : has (Vmm.flags seg) Vmm.VMM_FLAG_IO = false.
Hypothesis Hpriv : has (Vmm.flags seg) Vmm.VMM_FLAG_PRIVATE = true.
Hypothesis Hpres : has (Vmm.prot seg) MMU_FLAG_PRESENT = true.

(** The protection of a page that is not copied. *)
Definition read_only : Z := Z.land (Vmm.prot seg) (Z.lnot MMU_FLAG_WRITE).

Lemma read_only_present : has read_only MMU_FLAG_PRESENT = true.
Proof. unfold read_only, has in *. rewrite <- Z.land_assoc. exact Hpres. Qed.

(** What [vmm_map_page] hands to the tables. *)
Lemma private_page_ok own m maps ext p c prot :
  sound own m maps (bump p ext) -> (forall q, 0 <= ext q) -> data m !! p = Some c -> is_Some (refs m !! p) ->
  exists m1 r fl, private_page seg m p prot = Some (m1, r, fl) /\ has fl MMU_FLAG_PRESENT = true /\
    fl = (if has prot MMU_FLAG_WRITE then Vmm.prot seg else read_only) /\
    match r with
    | None => page_step (fun _ => False) own m maps (bump p ext) own m1 maps ext
    | Some q => page_step (fun _ => False) own m maps (bump p ext) own m1 maps (bump q ext) /\
        data m1 !! q = Some c /\ is_Some (refs m1 !! q) /\
        (has prot MMU_FLAG_WRITE = true -> refs m1 !! q = Some 1)
    end.
Proof.
  intros Hs Hext Hd Hr. unfold private_page. rewrite Hio, Hpriv. simpl negb. simpl andb. cbv iota.
  destruct (has prot MMU_FLAG_WRITE).
  - destruct (dup_sound _ _ _ _ _ _ Hs Hext Hd Hr) as (m1 & r & m2 & -> & Hrel & Ht & Hdata & Hres).
    cbv beta iota delta [mbind option_bind]. rewrite Hrel. exists m2, r, (Vmm.prot seg). conjs; try done.
    destruct r as [new|].
    + destruct Hres as (Hs2 & Hone & Hnone & Hdn & Hno). conjs; try done.
      apply page_step_pages; try done. intros q Hq Hq0. unfold bump in *. pose proof (Hext q).
      assert (q <> new) by (intros ->; destruct Hq; congruence). rewrite (bool_decide_false (q = new)) by done.
      unfold one_if in *. case_bool_decide; lia.
    + apply page_step_pages; try done. intros q _ Hq0. unfold bump, one_if in Hq0. pose proof (Hext q). case_bool_decide; lia.
  - exists m, (Some p), read_only. conjs; try done; [apply read_only_present|by apply page_step_refl].
Qed.

Lemma vmm_map_page_ok own m maps ext v prot :
  sound own m maps ext -> vpn v < 2 ^ 35 ->
  exists m' r, vmm_map_page PML4 seg m v prot = Some (m', r) /\
    match r with
    | VMM_FAULT_NOT_HANDLED => m' = m /\ (get_page = None \/ is_Some (maps !! vpn v))
    | VMM_FAULT_FAILED => maps !! vpn v = None /\
        exists own' ext', page_step (fun _ => False) own m maps ext own' m' maps ext'
    | VMM_FAULT_SUCCED => maps !! vpn v = None /\
        exists own' ext' p, page_step (eq (vpn v)) own m maps ext own' m' (<[vpn v := p]> maps) ext' /\
          (if has prot MMU_FLAG_WRITE
           then lookup (mmu m') PML4 v = map_value p (Vmm.prot seg) /\ exclusive m' (<[vpn v := p]> maps) ext' (vpn v)
           else lookup (mmu m') PML4 v = map_value p read_only)
    end.
Proof.
  intros Hs Hu. pose proof Hs as [[Hwf Hk Hview] Hc]. unfold vmm_map_page.
  destruct get_page as [g|] eqn:Hg; [|exists m, VMM_FAULT_NOT_HANDLED; split; [done|]; split; [done|by left]].
  rewrite (virt2phys_spec own) by done. cbv beta iota delta [mbind option_bind]. rewrite Hview by done.
  destruct (maps !! vpn v) as [p0|] eqn:Hv.
  { destruct (co_maps _ _ _ _ _ Hc _ _ Hv) as [[k Hk0] _]. destruct (co_refs _ _ _ _ _ Hc _ _ Hk0) as (Hgood & _).
    rewrite mapped_valid by done. exists m, VMM_FAULT_NOT_HANDLED. split; [done|]. split; [done|]. right. by eexists. }
  rewrite Z.eqb_refl. simpl negb. cbv iota. destruct (g seg m v) as [m1 r1] eqn:Hcall.
  destruct (get_page_law g seg own m maps ext v m1 r1 Hg Hio Hs Hcall) as (Ht & Hdata & ext1 & Hs1 & Hext1 & Hex & Hres).
  assert (Hstep1 : page_step (fun _ => False) own m maps ext own m1 maps (with_ref r1 ext1)) by (by apply page_step_pages).
  destruct r1 as [p|].
  2:{ exists m1, VMM_FAULT_FAILED. split; [done|]. split; [done|]. by exists own, ext1. }
  destruct Hres as [Hrp [c Hdp]].
  destruct (private_page_ok own m1 maps ext1 p c prot Hs1 Hext1 Hdp Hrp) as (m2 & r2 & fl & -> & Hfl & Efl & Hres2).
  cbv beta iota delta [mbind option_bind]. destruct r2 as [q|].
  2:{ exists m2, VMM_FAULT_FAILED. split; [done|]. split; [done|]. exists own, ext1.
      by eapply page_step_then. }
  destruct Hres2 as (Hstep2 & Hdq & Hrq & Hone).
  pose proof (page_step_then _ _ _ _ _ _ _ _ _ _ _ _ _ Hstep1 Hstep2) as Hstep12.
  destruct (map_new_page own m2 maps ext1 v q fl seg (ps_sound _ _ _ _ _ _ _ _ _ Hstep2) Hext1 Hrq ltac:(by rewrite Hdq) Hv Hu Hfl Hio)
    as (x & en & own' & -> & Hen).
  destruct en as [en|].
  - destruct Hen as (x1 & x' & Hmap & Hrel & (f & Hf & Hfp) & Hstep3 & Hlook).
    cbn [mmu set_mmu]. rewrite Hf, Hfp, Hmap, Hrel. eexists _, VMM_FAULT_SUCCED. split; [done|]. split; [done|].
    exists own', ext1, q. split; [by eapply page_step_then|]. cbn [mmu set_mmu]. rewrite Efl in Hlook.
    destruct (has prot MMU_FLAG_WRITE); [|done]. split; [done|].
    eapply exclusive_intro; [apply Hstep3|by rewrite lookup_insert_eq|]. cbn. by apply Hone.
  - destruct Hen as (m' & -> & Hstep3). exists m', VMM_FAULT_FAILED. split; [done|]. split; [done|].
    exists own', ext1. by eapply page_step_then.
Qed.

(** ** Copy on write *)

Definition relock (x : mem) (k : gset Z) : mem := mk_mem (tables x) k (pool x) (released x).

Lemma allocate_relock m k m' r :
  allocate_page m = (m', r) -> allocate_page (set_mmu m (relock (mmu m) k)) = (set_mmu m' (relock (mmu m') k), r).
Proof.
  unfold allocate_page, pmm_allocate_page. cbn. destruct (pool (mmu m)) eqn:E; intros [= <- <-]; cbn; by rewrite ?E.
Qed.

(** The counts after a mapping moved from a shared page to a new one. *)
Lemma counted_moved free rs d maps ext n p new k c :
  counted free rs d maps (bump new ext) -> maps !! n = Some p -> rs !! p = Some k -> 1 < k -> rs !! new = Some 1 ->
  new <> p -> (forall q, 0 <= ext q) ->
  counted free (<[p := k - 1]> rs) (<[new := c]> d) (<[n := new]> maps) ext.
Proof.
  intros [C1 C2 C3 C4 C5] Hn Hp Hk Hnew Hne Hext.
  assert (Hrs : forall q, q <> p -> <[p := k - 1]> rs !! q = rs !! q) by (intros; by rewrite lookup_insert_ne).
  assert (Hb : forall q, bump new ext q = ext q + one_if (bool_decide (q = new))) by done.
  constructor; try done.
  - intros q j. rewrite (mappings_replace _ _ _ _ _ Hn). destruct (decide (q = p)) as [->|Hq].
    + rewrite lookup_insert_eq. intros [= <-]. destruct (C1 _ _ Hp) as (? & ? & Ek). rewrite Hb in Ek.
      rewrite bool_decide_true, (bool_decide_false (p = new)) in * by congruence. split; [done|]. simpl in *. lia.
    + rewrite Hrs by done. intros Hj. destruct (C1 _ _ Hj) as (? & ? & Ek). rewrite Hb in Ek. split; [done|].
      rewrite (bool_decide_false (q = p)) by done. simpl in *. lia.
  - intros q. destruct (decide (q = p)) as [->|Hq]; [by rewrite lookup_insert_eq|]. rewrite Hrs by done. intros Hq0.
    apply C2 in Hq0 as E. rewrite Hb in E. pose proof (Hext q). unfold one_if in E. case_bool_decide; lia.
  - intros j q. destruct (decide (j = n)) as [->|Hj].
    + rewrite lookup_insert_eq. intros [= <-]. rewrite Hrs, Hnew by done. rewrite lookup_insert_eq. split; by eexists.
    + rewrite lookup_insert_ne by done. intros Hq. destruct (C4 _ _ Hq) as [? ?]. split.
      * destruct (decide (q = p)) as [->|]; [rewrite lookup_insert_eq; by eexists|by rewrite Hrs].
      * destruct (decide (q = new)) as [->|]; [rewrite lookup_insert_eq; by eexists|by rewrite lookup_insert_ne].
  - intros q Hq. rewrite lookup_insert_None. split; [by apply C5|]. intros ->. apply C5 in Hq. congruence.
Qed.

Lemma get_page_entry x en v p :
  load x en = Some (lookup x PML4 v) -> entry_page (lookup x PML4 v) = Some p -> mmu_entry_get_page x en = Some p.
Proof.
  intros Hl. unfold entry_page, mmu_entry_get_page, mmu_entry_val_get_page. rewrite Hl. simpl.
  destruct (present _); [|done]. congruence.
Qed.

(** The page is not shared: it becomes writable. *)
Lemma cow_sole own m maps ext v p en :
  sound own m maps ext -> vpn v < 2 ^ 35 -> maps !! vpn v = Some p -> refs m !! p = Some 1 ->
  mmu_get_entry (mmu m) PML4 v = Some (Some en) ->
  exists x1 y x', mmu_entry_or_flags (relock (mmu m) {[en.1]}) en MMU_FLAG_WRITE = Some (x1, y) /\
    mmu_entry_release_lock x1 en = Some x' /\
    page_step (eq (vpn v)) own m maps ext own (set_mmu m x') maps ext /\
    present (lookup x' PML4 v) = true /\ has (lookup x' PML4 v) PAGING_FLAG_WRITE = true.
Proof.
  intros Hs Hu Hv Hr Hge. pose proof Hs as [[Hwf Hk Hview] Hc]. set (x := relock (mmu m) {[en.1]}).
  assert (Hlk : forall w, lookup x PML4 w = lookup (mmu m) PML4 w) by (intros w; apply lookup_tables).
  assert (Hgx : mmu_get_entry x PML4 v = Some (Some en)).
  { rewrite <- Hge. apply (get_entry_frame own PML4); [done|by rewrite region_3, (wf_root _ _ _ Hwf)|done|done]. }
  set (y := lookup (mmu m) PML4 v).
  destruct (write_entry own x v en (Z.lor y (mmu2paging_flags MMU_FLAG_WRITE)) (wf_tables _ _ _ _ _ Hwf) eq_refl Hgx)
    as (Hload & x1 & x' & Es & Er & Hwf' & Hk' & Hp' & Hl').
  assert (Hy : entry_page y = Some p) by (unfold y; by rewrite Hview).
  exists x1, y, x'. unfold mmu_entry_or_flags. rewrite Hload, Hlk. fold y. cbv beta iota delta [mbind option_bind].
  rewrite Es. split; [done|]. split; [done|].
  assert (Hs' : sound own (set_mmu m x') maps ext).
  { apply sound_mmu; [done| |done]. split; [done|done|]. intros w Hw. rewrite Hl'. case_decide as E.
    - rewrite E, or_flags_entry by (by rewrite Hy). by rewrite Hy, Hv.
    - rewrite Hlk. by apply Hview. }
  split.
  - split; try done.
    + intros w Hw. cbn [mmu set_mmu]. rewrite Hl', decide_False by congruence. apply Hlk.
    + intros k q Hq. by exists q.
  - rewrite Hl', decide_True by done. unfold entry_page in Hy. destruct (present y) eqn:Ep; [|done].
    split; [by apply present_or|]. rewrite has_lor, write_flag. by rewrite orb_true_r.
Qed.

(** The page is shared: a copy takes its place. *)
Lemma cow_shared own m maps ext v p en k m1 new c :
  sound own m maps ext -> vpn v < 2 ^ 35 -> maps !! vpn v = Some p -> refs m !! p = Some k -> 1 < k ->
  mmu_get_entry (mmu m) PML4 v = Some (Some en) -> data m !! p = Some c -> allocate_page m = (m1, Some new) ->
  let rs := <[p := k - 1]> (refs m1) in
  exists x1 x', mmu_entry_map_and_or_flags (relock (mmu m1) {[en.1]}) en new MMU_FLAG_WRITE = Some x1 /\
    mmu_entry_release_lock x1 en = Some x' /\ refs m1 !! p = Some k /\
    let m' := mk_memory x' rs (<[new := c]> (data m1)) in
    page_step (eq (vpn v)) own m maps ext own m' (<[vpn v := new]> maps) ext /\
    present (lookup x' PML4 v) = true /\ has (lookup x' PML4 v) PAGING_FLAG_WRITE = true /\
    exclusive m' (<[vpn v := new]> maps) ext (vpn v).
Proof.
  intros Hs Hu Hv Hr Hk1 Hge Hd Ha rs. pose proof Hs as [[Hwf Hk Hview] Hc].
  destruct (allocate_sound _ _ _ _ _ _ Hs Ha) as (Ht & Hdata & Hgood & Hnone & Hone & Hother & Hno & Hc1 & Hm1).
  assert (Hne : new <> p) by congruence. set (x := relock (mmu m1) {[en.1]}).
  assert (Hlk : forall w, lookup x PML4 w = lookup (mmu m) PML4 w).
  { intros w. transitivity (lookup (mmu m1) PML4 w); [apply lookup_tables|by apply lookup_same_tables]. }
  assert (Hgx : mmu_get_entry x PML4 v = Some (Some en)).
  { rewrite <- Hge. apply (get_entry_frame own PML4); [done|by rewrite region_3, (wf_root _ _ _ Hwf)|done|].
    intros. apply load_tables. cbn. by rewrite Ht. }
  set (y := lookup (mmu m) PML4 v).
  set (y' := Z.lor (Z.lor (Z.land new PAGING_ENTRY_ADDRESS) (Z.land y PAGING_ENTRY_FLAGS)) (mmu2paging_flags MMU_FLAG_WRITE)).
  destruct (write_entry own x v en y' (wf_tables _ _ _ _ _ (ma_wf _ _ _ Hm1)) eq_refl Hgx)
    as (Hload & x1 & x' & Es & Er & Hwf' & Hk' & Hp' & Hl').
  assert (Hy : entry_page y = Some p) by (unfold y; by rewrite Hview).
  assert (Hpy : present y = true) by (unfold entry_page in Hy; by destruct (present y)).
  assert (Hy' : entry_page y' = Some new) by (by apply replaced_entry).
  exists x1, x'. unfold mmu_entry_map_and_or_flags. rewrite Hload, Hlk. fold y. cbv beta iota delta [mbind option_bind].
  fold y'. rewrite Es. split; [done|]. split; [done|]. split; [by rewrite Hother|]. cbv zeta. set (m' := mk_memory x' rs (<[new := c]> (data m1))).
  assert (Hs' : sound own m' (<[vpn v := new]> maps) ext).
  { split.
    - split; [done|done|]. intros w Hw. cbn [mmu m']. rewrite Hl'. case_decide as E.
      + by rewrite E, lookup_insert_eq.
      + rewrite lookup_insert_ne, Hlk by done. by apply Hview.
    - cbn [mmu refs data m']. rewrite Hp'. unfold x. cbn. rewrite Hdata.
      eapply counted_moved; try done; [by rewrite Hother|by eapply sound_nonneg]. }
  conjs.
  - split; try done.
    + intros w Hw. cbn [mmu m']. rewrite Hl', decide_False by congruence. apply Hlk.
    + intros j Hj. by rewrite lookup_insert_ne.
    + intros j q Hq. destruct (decide (j = vpn v)) as [->|Hj].
      * exists new. rewrite lookup_insert_eq. split; [done|]. cbn. rewrite lookup_insert_eq. congruence.
      * exists q. rewrite lookup_insert_ne by done. split; [done|]. cbn. rewrite Hdata, lookup_insert_ne; [done|].
        intros ->. by apply (Hno j).
    + intros j Hj Hx. eapply (exclusive_keep own m maps); try done; [by rewrite lookup_insert_ne|].
      intros q [? Hq] Hq0 Hjq. split; [done|]. rewrite (mappings_replace _ _ _ _ _ Hv).
      rewrite (bool_decide_false (q = new)) by congruence. destruct (decide (q = p)) as [->|].
      * exfalso. destruct Hx as (p1 & Hp1 & _ & _ & Hu1). rewrite Hjq in Hp1. injection Hp1 as <-. by apply Hj, Hu1.
      * rewrite bool_decide_false by done. simpl. lia.
  - rewrite Hl', decide_True by done. unfold entry_page in Hy'. by destruct (present y').
  - rewrite Hl', decide_True by done. unfold y'. rewrite has_lor, write_flag. by rewrite orb_true_r.
  - apply (exclusive_intro own m' _ _ _ new Hs'); [by rewrite lookup_insert_eq|]. cbn. unfold rs. by rewrite lookup_insert_ne.
Qed.

Definition writable m (v : Z) : Prop :=
  present (lookup (mmu m) PML4 v) = true /\ has (lookup (mmu m) PML4 v) PAGING_FLAG_WRITE = true.

Lemma vmm_cow_ok own m maps ext v :
  sound own m maps ext -> vpn v < 2 ^ 35 ->
  exists m' r, vmm_cow PML4 seg m v = Some (m', r) /\
    match r with
    | VMM_FAULT_SUCCED => exists maps', page_step (eq (vpn v)) own m maps ext own m' maps' ext /\
        writable m' v /\ exclusive m' maps' ext (vpn v)
    | _ => page_step (fun _ => False) own m maps ext own m' maps ext /\
        (r = VMM_FAULT_NOT_HANDLED -> maps !! vpn v = None)
    end.
Proof.
  intros Hs Hu. pose proof Hs as [[Hwf Hk Hview] Hc]. unfold vmm_cow.
  destruct (mmu_get_entry_and_acquire_lock_correct own PML4 (mmu m) v Hwf Hk) as (r & Hge & ->).
  cbv beta iota delta [mbind option_bind]. pose proof (lookup_get_entry own PML4 (mmu m) v Hwf) as Hlg. rewrite Hge in Hlg.
  assert (Hunlock : forall k, mapped own (relock (mmu m) k) maps -> page_step (fun _ => False) own m maps ext own (set_mmu m (relock (mmu m) k)) maps ext).
  { intros k Hm. by apply page_step_pages. }
  assert (Hmap : mapped own (relock (mmu m) ∅) maps).
  { split; [by apply wf_tables|done|]. intros w Hw. unfold relock. rewrite lookup_tables. by apply Hview. }
  destruct r as [en|].
  2:{ exists (set_mmu m (relock (mmu m) ∅)), VMM_FAULT_NOT_HANDLED. split; [done|]. split; [by apply Hunlock|].
      intros _. rewrite <- Hview, Hlg by done. done. }
  change (mk_mem (tables (mmu m)) {[en.1]} (pool (mmu m)) (released (mmu m))) with (relock (mmu m) {[en.1]}).
  assert (Hload : load (relock (mmu m) {[en.1]}) en = Some (lookup (mmu m) PML4 v)).
  { destruct (write_entry own (relock (mmu m) {[en.1]}) v en 0 (wf_tables _ _ _ _ _ Hwf) eq_refl) as (E & _);
      [|etrans; [exact E|]; unfold relock; by rewrite lookup_tables].
    etrans; [|exact Hge]. apply (get_entry_frame own PML4); [done|by rewrite region_3, (wf_root _ _ _ Hwf)|done|done]. }
  assert (Hrel : forall x, mmu_entry_release_lock (relock x {[en.1]}) en = Some (relock x ∅)).
  { intros x. unfold mmu_entry_release_lock, pmm_release_page_lock. rewrite decide_True by (cbn; set_solver).
    f_equal. unfold relock. cbn. f_equal. set_solver. }
  unfold mmu_entry_get_page, mmu_entry_val_get_page. cbn [mmu set_mmu]. rewrite Hload. cbv beta iota delta [mbind option_bind].
  pose proof (Hview v Hu) as Hv. unfold entry_page in Hv. destruct (present (lookup (mmu m) PML4 v)) eqn:Ep.
  2:{ rewrite Z.eqb_refl, Hrel. eexists _, VMM_FAULT_NOT_HANDLED. split; [done|]. split; [by apply Hunlock|]. done. }
  set (p := Z.land _ _) in *. symmetry in Hv. destruct (co_maps _ _ _ _ _ Hc _ _ Hv) as [[k Hrp] [c Hd]].
  destruct (co_refs _ _ _ _ _ Hc _ _ Hrp) as (Hgood & Hk1 & _).
  assert (Hinv : (p =? PAGE_INVALID) = false).
  { pose proof (mapped_valid 0 p Hgood) as E. by rewrite Z.add_0_r in E. }
  rewrite Hinv. cbn [refs set_mmu]. rewrite Hrp. destruct (k <=? 1) eqn:Hk2; zbool.
  - assert (k = 1) as -> by lia.
    destruct (cow_sole own m maps ext v p en Hs Hu Hv Hrp Hge) as (x1 & y & x' & -> & -> & Hstep & Hw).
    eexists _, VMM_FAULT_SUCCED. split; [done|]. exists maps. split; [done|]. split; [done|].
    eapply exclusive_intro; [apply Hstep|done|done].
  - unfold pmm_dup_page. destruct (allocate_page m) as [m1 rn] eqn:Ha. rewrite (allocate_relock _ _ _ _ Ha).
    destruct (allocate_sound _ _ _ _ _ _ Hs Ha) as (_ & Hdata & Hrn). destruct rn as [new|].
    + cbn [data set_mmu]. rewrite Hdata, Hd. cbv beta iota delta [mbind option_bind]. cbn [mmu refs set_mmu].
      destruct (cow_shared own m maps ext v p en k m1 new c Hs Hu Hv Hrp ltac:(lia) Hge Hd Ha)
        as (x1 & x' & Hmapped & Hrl & Hrp1 & Hstep & Hp & Hw & Hx).
      unfold drop_page. rewrite Hio. unfold release_page. cbn [refs mmu data set_mmu]. rewrite Hrp1.
      cbv beta iota delta [mbind option_bind]. cbn [mmu]. rewrite Hmapped, Hrl, (proj2 (Z.eqb_neq k 1)) by lia.
      eexists _, VMM_FAULT_SUCCED. split; [done|]. rewrite Hdata in *. exists (<[vpn v := new]> maps). done.
    + subst m1. cbn [mmu set_mmu]. rewrite Hrel. eexists _, VMM_FAULT_FAILED. split; [done|]. split; [by apply Hunlock|done].
Qed.

Lemma map_value_write p fl : has fl MMU_FLAG_WRITE = true -> has (map_value p fl) PAGING_FLAG_WRITE = true.
Proof.
  intros Hf. unfold map_value. rewrite has_lor. apply orb_true_iff. right. unfold mmu2paging_flags, flag_if. rewrite Hf.
  repeat match goal with |- context [if ?b then _ else _] => destruct b end; done.
Qed.

(** One page of a fault. *)
Lemma fault_page_ok own m maps ext v prot :
  sound own m maps ext -> vpn v < 2 ^ 35 -> has (Vmm.prot seg) prot = true ->
  exists m' r, fault_page PML4 seg m v prot = Some (m', r) /\
    match r with
    | VMM_FAULT_SUCCED => exists own' maps' ext', page_step (eq (vpn v)) own m maps ext own' m' maps' ext' /\
        present (lookup (mmu m') PML4 v) = true /\
        (prot = MMU_FLAG_WRITE -> writable m' v /\ exclusive m' maps' ext' (vpn v))
    | _ => exists own' ext', page_step (fun _ => False) own m maps ext own' m' maps ext' /\
        (r = VMM_FAULT_NOT_HANDLED -> get_page = None \/ (is_Some (maps !! vpn v) /\ prot <> MMU_FLAG_WRITE))
    end.
Proof.
  intros Hs Hu Hperm. unfold fault_page.
  destruct (vmm_map_page_ok own m maps ext v prot Hs Hu) as (m1 & r1 & -> & Hr1).
  cbv beta iota delta [mbind option_bind]. destruct r1.
  - destruct Hr1 as [-> Hwhy]. rewrite Hpriv. simpl andb. destruct (prot =? MMU_FLAG_WRITE) eqn:Hw; zbool.
    + destruct (vmm_cow_ok own m maps ext v Hs Hu) as (m2 & r2 & -> & Hr2). exists m2, r2. split; [done|].
      destruct r2.
      * destruct Hr2 as [Hstep Hn]. exists own, ext. split; [done|]. intros _. left.
        destruct Hwhy as [?|[? ?]]; [done|]. rewrite Hn in *; done.
      * destruct Hr2 as (maps' & Hstep & Hwr & Hx). exists own, maps', ext. conjs; try done. apply Hwr.
      * destruct Hr2 as [Hstep _]. by exists own, ext.
    + exists m, VMM_FAULT_NOT_HANDLED. split; [done|]. exists own, ext. split; [by apply page_step_refl|].
      intros _. destruct Hwhy as [?|?]; [by left|by right].
  - destruct Hr1 as (Hn & own' & ext' & p & Hstep & Hl). exists m1, VMM_FAULT_SUCCED. split; [done|].
    exists own', (<[vpn v := p]> maps), ext'. split; [done|]. destruct (has prot MMU_FLAG_WRITE) eqn:Hw.
    + destruct Hl as [Hl Hx]. rewrite Hl, present_map_value by done. split; [done|]. intros ->. split; [|done].
      unfold writable. rewrite Hl, present_map_value, map_value_write by done. done.
    + rewrite Hl, present_map_value by apply read_only_present. split; [done|]. by intros ->.
  - destruct Hr1 as (Hn & own' & ext' & Hstep). exists m1, VMM_FAULT_FAILED. split; [done|]. by exists own', ext'.
Qed.

(** ** A whole fault *)

Lemma fault_vpn_next v : 0 <= v -> v + PAGE_SIZE <= 2 ^ 47 -> vpn (v + PAGE_SIZE) = vpn v + 1 /\ vpn v < 2 ^ 35 /\ 0 <= vpn v.
Proof.
  intros H1 H2. unfold vpn, PAGE_SIZE in *. assert (0 <= v / 4096 < 2 ^ 35) by (Z.div_mod_to_equations; lia).
  rewrite (Z.mod_small (v / 4096)) by lia. replace (v + 4096) with (v + 1 * 4096) by lia. rewrite Z.div_add by lia.
  destruct (Z.eq_dec (v / 4096 + 1) (2 ^ 36)); [lia|]. rewrite Z.mod_small by lia. lia.
Qed.

(** The pages ahead: whatever happens there, the fault stays handled. *)
Lemma fault_loop_ahead n own m maps ext vpage current prot :
  sound own m maps ext -> has (Vmm.prot seg) prot = true -> 0 <= vpage < current ->
  current + Z.of_nat n * PAGE_SIZE <= 2 ^ 47 ->
  exists m' own' maps' ext', fault_loop PML4 n seg m vpage current prot = Some (m', false, true) /\
    page_step (fun k => vpn current <= k < vpn current + Z.of_nat n) own m maps ext own' m' maps' ext'.
Proof.
  revert own m maps ext current. induction n as [|n IH]; intros own m maps ext current Hs Hperm Hc Hend.
  { exists m, own, maps, ext. split; [done|by apply page_step_refl]. }
  cbn [fault_loop]. destruct (fault_vpn_next current) as (Hn & Hu & _); [lia|unfold PAGE_SIZE in *; lia|].
  destruct (fault_page_ok own m maps ext current prot Hs Hu Hperm) as (m1 & r & -> & Hr).
  cbv beta iota delta [mbind option_bind]. rewrite (proj2 (Z.eqb_neq current vpage)) by lia.
  assert (Hgo : forall P own1 maps1 ext1, (forall k, P k -> k = vpn current) ->
    page_step P own m maps ext own1 m1 maps1 ext1 ->
    exists m' own' maps' ext', fault_loop PML4 n seg m1 vpage (current +! PAGE_SIZE) prot = Some (m', false, true) /\
      page_step (fun k => vpn current <= k < vpn current + Z.of_nat (S n)) own m maps ext own' m' maps' ext').
  { intros P own1 maps1 ext1 HP Hstep. rewrite u64_small by (unfold is_u64, PAGE_SIZE in *; lia).
    destruct (IH own1 m1 maps1 ext1 (current + PAGE_SIZE)) as (m' & own' & maps' & ext' & -> & Hstep');
      [apply Hstep|done|unfold PAGE_SIZE; lia|unfold PAGE_SIZE in *; lia|].
    exists m', own', maps', ext'. split; [done|]. eapply page_step_weaken; [|by eapply page_step_trans].
    simpl. rewrite Hn. intros k [->%HP|?]; lia. }
  destruct r.
  - destruct Hr as (own1 & ext1 & Hstep & _). by eapply (Hgo (fun _ => False)).
  - destruct Hr as (own1 & maps1 & ext1 & Hstep & _). eapply (Hgo (eq (vpn current))); [|done]. by intros k <-.
  - destruct Hr as (own1 & ext1 & Hstep & _). exists m1, own1, maps, ext1. split; [done|].
    eapply page_step_weaken; [|exact Hstep]. done.
Qed.

Lemma vmm_handle_fault_spec own m maps ext lf addr prot :
  fault_op = None -> sound own m maps ext -> last_ok lf -> has (Vmm.prot seg) prot = true ->
  0 <= Vmm.start seg <= addr -> addr < Vmm.end_ seg -> Vmm.end_ seg <= 2 ^ 47 ->
  Vmm.start seg mod PAGE_SIZE = 0 -> Vmm.end_ seg mod PAGE_SIZE = 0 ->
  exists m' lf' sigbus handled own' maps' ext',
    vmm_handle_fault PML4 seg lf m addr prot = Some (m', lf', sigbus, handled) /\ last_ok lf' /\
    page_step (fun k => vpn addr <= k < Vmm.end_ seg / PAGE_SIZE) own m maps ext own' m' maps' ext' /\
    (handled = false -> sigbus = false /\ (get_page = None \/ (is_Some (maps !! vpn addr) /\ prot <> MMU_FLAG_WRITE))) /\
    (sigbus = true -> maps' = maps) /\
    (handled = true -> sigbus = false -> present (lookup (mmu m') PML4 addr) = true /\
       (prot = MMU_FLAG_WRITE -> writable m' addr /\ exclusive m' maps' ext' (vpn addr))).
Proof.
  intros Hop Hs Hlf Hperm Hst Hen He Hsm Hem. unfold vmm_handle_fault. rewrite Hop, Hperm. simpl negb. cbv iota.
  destruct (align_down_spec addr ltac:(lia)) as (Hvm & Hvl). set (vpage := PAGE_ALIGN_DOWN addr) in *.
  assert (Hva : vpn addr = vpn vpage).
  { unfold vpn, vpage, PAGE_ALIGN_DOWN, PAGE_SIZE. by rewrite Z.div_mul by lia. }
  pose proof (predict_ok seg lf vpage Hlf ltac:(lia) He Hvm Hem) as Hpr. destruct (predict seg lf vpage) as [lf' size].
  destruct Hpr as (Hlf' & Hsz & Hbnd & Hfit).
  set (m0 := match preload with Some op => _ | None => m end).
  assert (Hpre : exists ext0, page_step (fun _ => False) own m maps ext own m0 maps ext0).
  { unfold m0. destruct preload as [g|] eqn:Hg; [|exists ext; by apply page_step_refl].
    destruct (preload_law g seg own m maps ext vpage ((size *! 2) -! VMM_DEFAULT_FAULT_SIZE) Hg Hs) as (Ht & Hd & ext0 & Hs0 & _ & Hx & _).
    exists ext0. by apply page_step_pages. }
  destruct Hpre as (ext0 & Hpre). pose proof (ps_sound _ _ _ _ _ _ _ _ _ Hpre) as Hs0. clearbody m0.
  assert (Hn : exists n, Z.to_nat (size / PAGE_SIZE) = S n /\ size = (Z.of_nat n + 1) * PAGE_SIZE).
  { unfold PAGE_SIZE in *. exists (Z.to_nat (size / 4096 - 1)). split; [Z.div_mod_to_equations; lia|].
    rewrite Z2Nat.id by (Z.div_mod_to_equations; lia). Z.div_mod_to_equations. lia. }
  destruct Hn as (n & -> & Hsize). destruct (fault_vpn_next vpage) as (Hnext & Hu & Hn0); [lia|lia|].
  assert (Hlast : vpn vpage + (Z.of_nat n + 1) <= Vmm.end_ seg / PAGE_SIZE).
  { unfold vpn. assert (vpage / PAGE_SIZE < 2 ^ 36) by (unfold PAGE_SIZE in *; Z.div_mod_to_equations; lia).
    rewrite Z.mod_small by (split; [apply Z.div_pos; unfold PAGE_SIZE in *; lia|done]).
    unfold PAGE_SIZE in *. Z.div_mod_to_equations. lia. }
  cbn [fault_loop]. destruct (fault_page_ok own m0 maps ext0 vpage prot Hs0 Hu Hperm) as (m1 & r & -> & Hr).
  cbv beta iota delta [mbind option_bind]. rewrite Z.eqb_refl. rewrite !Hva. unfold writable.
  assert (Hlk : forall x, lookup x PML4 addr = lookup x PML4 vpage) by (intros x; unfold lookup; by rewrite Hva).
  destruct r.
  - destruct Hr as (own1 & ext1 & Hstep & Hwhy). exists m1, lf', false, false, own1, maps, ext1. conjs; try done.
    + eapply page_step_weaken; [|by eapply page_step_then]. done.
    + intros _. split; [done|by apply Hwhy].
  - destruct Hr as (own1 & maps1 & ext1 & Hstep & Hp & Hw).
    rewrite u64_small by (unfold is_u64, PAGE_SIZE in *; lia).
    destruct (fault_loop_ahead n own1 m1 maps1 ext1 vpage (vpage + PAGE_SIZE) prot) as (m' & own' & maps' & ext' & -> & Hstep');
      [apply Hstep|done|unfold PAGE_SIZE; lia|unfold PAGE_SIZE in *; lia|].
    exists m', lf', false, true, own', maps', ext'. conjs; try done.
    + eapply page_step_weaken; [|eapply page_step_trans; [by eapply page_step_then|exact Hstep']].
      simpl. rewrite Hnext. intros k [<-|?]; lia.
    + intros _ _. assert (Hnot : ~ vpn (vpage + PAGE_SIZE) <= vpn vpage < vpn (vpage + PAGE_SIZE) + Z.of_nat n) by lia.
      rewrite !Hlk, (ps_other _ _ _ _ _ _ _ _ _ Hstep' vpage Hnot). split; [done|]. intros E. destruct (Hw E) as [Hwr Hx].
      split; [done|]. by apply (ps_excl _ _ _ _ _ _ _ _ _ Hstep').
  - destruct Hr as (own1 & ext1 & Hstep & _). exists m1, lf', true, true, own1, maps, ext1. conjs; try done.
    eapply page_step_weaken; [|by eapply page_step_then]. done.
Qed.
End handlers.
End inv.

(** * The theorems *)

(** C6: A fault at a user address in a private segment of memory (not I/O) with aligned bounds whose
    driver has no fault handler of its own, whose protection has [MMU_FLAG_PRESENT] in it, and whose
    driver, if it gives pages, gives each with a new reference and leaves the tables and the mapped
    pages alone; no lock is held and every page's reference count is that of its mappings and of the
    references from elsewhere.  When the segment does not permit the access, it is refused and nothing
    changes.  Otherwise the handler returns, leaves no lock held, and keeps every page's reference
    count.  What was mapped keeps its contents, whatever page holds it now, and nothing in front of the
    fault or behind the segment changes.  When the fault is handled without SIGBUS the page is mapped;
    after a write it is writable and has one reference, that of this mapping, so a store through it
    reaches no other mapping, of this space or of another.  With SIGBUS the mappings are as before; the
    fault is refused only when the driver gives no pages at all, or when the page was mapped already
    and the access was no write. *)
Theorem vmm_handle_fault_correct `{SegOps} PML4 `{!GetPageLaws PML4} seg own m maps ext lf addr prot :
  has (Vmm.flags seg) Vmm.VMM_FLAG_IO = false -> has (Vmm.flags seg) Vmm.VMM_FLAG_PRIVATE = true ->
  has (Vmm.prot seg) MMU_FLAG_PRESENT = true ->
  fault_op = None -> sound PML4 own m maps ext -> last_ok lf ->
  0 <= Vmm.start seg <= addr -> addr < Vmm.end_ seg -> Vmm.end_ seg <= 2 ^ 47 ->
  Vmm.start seg mod PAGE_SIZE = 0 -> Vmm.end_ seg mod PAGE_SIZE = 0 ->
  if has (Vmm.prot seg) prot then
  exists m' lf' sigbus handled own' maps' ext',
    vmm_handle_fault PML4 seg lf m addr prot = Some (m', lf', sigbus, handled) /\ last_ok lf' /\
    page_step PML4 (fun k => vpn addr <= k < Vmm.end_ seg / PAGE_SIZE) own m maps ext own' m' maps' ext' /\
    (handled = false -> sigbus = false /\ (get_page = None \/ (is_Some (maps !! vpn addr) /\ prot <> MMU_FLAG_WRITE))) /\
    (sigbus = true -> maps' = maps) /\
    (handled = true -> sigbus = false -> present (lookup (mmu m') PML4 addr) = true /\
       (prot = MMU_FLAG_WRITE -> writable PML4 m' addr /\ exclusive m' maps' ext' (vpn addr)))
  else vmm_handle_fault PML4 seg lf m addr prot = Some (m, lf, false, false).
Proof.
  intros Hio Hpriv Hpres Hop Hs Hl H1 H2 H3 H4 H5. destruct (has (Vmm.prot seg) prot) eqn:E.
  - by apply vmm_handle_fault_spec.
  - unfold vmm_handle_fault. by rewrite Hop, E.
Qed.

(** How far a fault reads ahead: always one page or more, at most 64, whole pages, and never
    beyond the end of the segment; what the segment remembers stays in these bounds. *)
Theorem predict_correct seg lf vpage :
  last_ok lf -> 0 <= vpage < Vmm.end_ seg -> Vmm.end_ seg <= 2 ^ 47 -> vpage mod PAGE_SIZE = 0 -> Vmm.end_ seg mod PAGE_SIZE = 0 ->
  let '(lf', size) := predict seg lf vpage in
  last_ok lf' /\ size mod PAGE_SIZE = 0 /\ PAGE_SIZE <= size <= VMM_MAX_FAULT_SIZE /\ vpage + size <= Vmm.end_ seg.
Proof. apply predict_ok. Qed.

(** ** A driver that gives pages of zeroes *)

Definition zero_page : list Z := replicate (Z.to_nat PAGE_SIZE) 0.

#[local] Instance zero_ops : SegOps := {
  get_page := Some (fun seg m v =>
    match allocate_page m with
    | (m, Some p) => (mk_memory (mmu m) (refs m) (<[p := zero_page]> (data m)), Some p)
    | (m, None) => (m, None)
    end);
  fault_op := None;
  preload := None;
}.

#[local] Instance zero_laws PML4 : GetPageLaws PML4.
Proof.
  split; [|done]. intros g seg own m maps ext v m' r [= <-] _ Hs. destruct (allocate_page m) as [m1 r1] eqn:Ha.
  destruct (allocate_sound _ _ _ _ _ _ _ Hs Ha) as (Ht & Hd & Hr). pose proof (sound_nonneg _ _ _ _ _ Hs) as Hext.
  destruct r1 as [p|]; intros [= <- <-].
  - destruct Hr as (Hg & Hnone & Hone & Hother & Hno & Hc & Hm). split; [done|]. split.
    { intros n q Hn. cbn [data]. rewrite Hd, lookup_insert_ne; [done|]. intros ->. by apply (Hno n). }
    exists ext. cbn [with_ref]. conjs; try done.
    + split; [done|]. cbn [mmu refs data]. rewrite Hd. destruct Hc as [C1 C2 C3 C4 C5]. constructor; try done.
      intros n q Hn. destruct (C4 _ _ Hn) as [? ?]. split; [done|].
      destruct (decide (q = p)) as [->|]; [rewrite lookup_insert_eq; by eexists|by rewrite lookup_insert_ne].
    + intros q [? Hq] Hq0. rewrite bump_ne; [done|]. congruence.
    + cbn [data]. rewrite lookup_insert_eq. by eexists.
  - subst m1. split; [done|]. split; [done|]. by exists ext.
Qed.

Definition ex_seg : Vmm.vmm_seg := Vmm.mk_seg 0x400000 0x500000 (1 + 2 + 4 + 16) Vmm.VMM_FLAG_PRIVATE None 0 0 0.
Definition ex_memory : memory := mk_memory ex_mem ∅ ∅.

Lemma ex_sound : sound 4096 ex_own ex_memory ∅ (fun _ => 0).
Proof.
  split.
  - split; [exact ex_space_wf|reflexivity|]. intros v _. unfold lookup. rewrite look_empty by reflexivity.
    rewrite lookup_empty. reflexivity.
  - constructor; cbn [refs data ex_memory]; try (intros; rewrite lookup_empty in *; done).
    all: intros; simplify_map_eq; lia.
Qed.

Lemma vmm_handle_fault_correct_witness :
  exists m' lf' sigbus handled own' maps' ext',
    vmm_handle_fault 4096 ex_seg (mk_last 0 0 0) ex_memory 0x400123 MMU_FLAG_WRITE = Some (m', lf', sigbus, handled) /\
    sound 4096 own' m' maps' ext' /\
    (handled = true -> sigbus = false -> writable 4096 m' 0x400123 /\ exclusive m' maps' ext' (vpn 0x400123)).
Proof.
  destruct (@vmm_handle_fault_correct zero_ops 4096 (zero_laws 4096) ex_seg ex_own ex_memory ∅ (fun _ => 0) (mk_last 0 0 0) 0x400123 MMU_FLAG_WRITE
    eq_refl eq_refl eq_refl eq_refl ex_sound) as (m' & lf' & sb & h & own' & maps' & ext' & E & _ & Hs & _ & _ & Hw);
    try reflexivity; try (cbn; lia).
  - unfold last_ok, VMM_MAX_FAULT_SIZE, PAGE_SIZE. cbn [last_fault_page last_fault_size last_fault_counter]. conjs; try reflexivity; lia.
  - exists m', lf', sb, h, own', maps', ext'. split; [exact E|]. split; [apply Hs|].
    intros Hh Hsb. by apply Hw.
Defined.

Lemma predict_correct_witness :
  predict ex_seg (mk_last 0x400000 0x2000 1) 0x402000 = (mk_last 0x402000 0x4000 0, 0x4000) /\
  0x402000 + 0x4000 <= Vmm.end_ ex_seg.
Proof.
  pose proof (predict_correct ex_seg (mk_last 0x400000 0x2000 1) 0x402000) as Hp.
  assert (E : predict ex_seg (mk_last 0x400000 0x2000 1) 0x402000 = (mk_last 0x402000 0x4000 0, 0x4000)) by (vm_compute; reflexivity).
  rewrite E in Hp. split; [exact E|]. apply Hp; try reflexivity; unfold last_ok, VMM_MAX_FAULT_SIZE, PAGE_SIZE; cbn [last_fault_page last_fault_size last_fault_counter Vmm.end_ ex_seg]; conjs; try reflexivity; lia.
Defined.

(** ** Examples *)

(** A page shared with another space: after a write fault this space has a copy and the other one
    keeps the page, with one reference less. *)
Definition ex_shared : memory :=
  match mmu_map_pages ex_mem 4096 0x400000 0x900000 0x1000 (1 + 2 + 16) with
  | Some (x, Ok _) => mk_memory x {[ 0x900000 := 2 ]} {[ 0x900000 := [1; 2; 3] ]}
  | _ => ex_memory
  end.

Example cow_copies :
  (r ← vmm_handle_fault 4096 ex_seg (mk_last 0 0 0) ex_shared 0x400010 MMU_FLAG_WRITE;
   let '(m, _, sigbus, handled) := r in
   p ← entry_page (lookup (mmu m) 4096 0x400010);
   Some (sigbus, handled, bool_decide (p = 0x900000), refs m !! 0x900000, refs m !! p, data m !! p)) =
  Some (false, true, false, Some 1, Some 1, Some [1; 2; 3]).
Proof. vm_compute. reflexivity. Qed.

(** Two threads read the same page at the same time: the first fault maps it, the second one finds it
    mapped, is not handled, and the process gets a signal. *)
Example second_read_fault_refused :
  (r ← vmm_handle_fault 4096 ex_seg (mk_last 0 0 0) ex_memory 0x400123 MMU_FLAG_READ;
   let '(m, lf, _, handled) := r in
   r ← vmm_handle_fault 4096 ex_seg lf m 0x400123 MMU_FLAG_READ;
   Some (handled, snd r)) = Some (true, false).
Proof. vm_compute. reflexivity. Qed.

(** Making a page writable also takes away the permission to execute it. *)
Example cow_loses_exec :
  let x := map_value 0x900000 (1 + 2 + 4 + 8 + 16) in
  has (mmu_entry_val_get_flags x) MMU_FLAG_EXEC = true /\
  has (mmu_entry_val_get_flags (Z.lor x (mmu2paging_flags MMU_FLAG_WRITE))) MMU_FLAG_EXEC = false.
Proof. vm_compute. done. Qed.

End Fault.
