(* ===== verification/Wait.v ===== *)
(** Waiting for an event without losing it (the macros of kernel/include/task/sleep.h,
    kernel/task/oneshot.c, kernel/task/condvar.c, kernel/task/futex.c, and the blocking of tasks in kernel/task/scheduler.c and kernel/include/task/scheduler.h).

    A task that waits marks itself as blocked, enters a queue, tests its condition and gives
    up the processor; a task that signals makes the condition true and then unblocks the
    tasks of the queue.  The two run at the same time, so each access to the shared state is
    a step of its own here: a waiting function is a program of such steps ([instr]), and a
    machine interleaves the programs of any number of tasks with the signalling task, with
    signals and with the wake-ups of others that share the queue.  The queue has a lock,
    which the signalling task holds while it empties it.

    [check] and [check_rank] decide two properties of a program from which the theorems
    follow: no wake-up is lost, and once the event has been signalled each task returns
    after a bounded number of its own steps.  Memory is sequentially consistent, the condition
    stays true once it is, and the allocation of the nodes of a queue is taken to succeed. *)

From S2P Require Import Prelude Sync.

Module Wait.

(** ** Tasks *)

Inductive status := TASK_STATUS_RUNNING | TASK_STATUS_BLOCKED | TASK_STATUS_INTERRUPTIBLE.
Inductive wakeup := WAKEUP_OTHER | WAKEUP_SIGNAL.

#[global] Instance status_eq_dec : EqDecision status.
Proof. solve_decision. Defined.
#[global] Instance wakeup_eq_dec : EqDecision wakeup.
Proof. solve_decision. Defined.

(** [unhandled] is whether [signal_get_unhandled_mask] is not empty. *)
Record task := mk_task { pc : nat; st : status; wakeup_reason : wakeup; unhandled : bool }.

Definition set_pc (t : task) (p : nat) : task := mk_task p (st t) (wakeup_reason t) (unhandled t).
Definition set_task_status (t : task) (s : status) : task :=
  mk_task (pc t) s (wakeup_reason t) (unhandled t).

(** The task, and whether it was unblocked. *)
Definition unblock_task_reason (t : task) (reason : wakeup) : task * bool :=
  match st t, reason with
  | TASK_STATUS_RUNNING, _ => (t, false)
  | TASK_STATUS_BLOCKED, WAKEUP_SIGNAL => (t, false)
  | _, _ => (mk_task (pc t) TASK_STATUS_RUNNING reason (unhandled t), true)
  end.

Definition unblock_task (t : task) : task := (unblock_task_reason t WAKEUP_OTHER).1.

Definition block_prepare (t : task) : task := set_task_status t TASK_STATUS_BLOCKED.
Definition block_prepare_interruptible (t : task) : task :=
  let t := set_task_status t TASK_STATUS_INTERRUPTIBLE in
  if unhandled t then (unblock_task_reason t WAKEUP_SIGNAL).1 else t.
Definition block_cancel (t : task) : task := set_task_status t TASK_STATUS_RUNNING.

(** ** Programs *)

Inductive instr :=
  | If_cond (target : nat)
  | Prepare (interruptible : bool)
  | Add
  | Cancel
  | Remove
  | Block (eintr : nat)
  | Goto (target : nat)
  | Return (r : res unit).

(** [sleep_on_queue_lock] and [sleep_on_queue_lock_interruptible] without a lock. *)
Definition sleep_on_queue_condition (interruptible : bool) : list instr :=
  [ (* 0 *) If_cond 8;
    (* 1 *) Prepare interruptible;
    (* 2 *) Add;
    (* 3 *) If_cond 6;
    (* 4 *) Block 9;
    (* 5 *) Goto 0;
    (* 6 *) Cancel;
    (* 7 *) Remove;
    (* 8 *) Return (Ok tt);
    (* 9 *) Remove;
    (* 10 *) Return (Err EINTR) ].

Definition oneshot_wait : list instr := sleep_on_queue_condition false.
Definition oneshot_wait_interruptible : list instr := sleep_on_queue_condition false.
Definition cond_var_wait : list instr := sleep_on_queue_condition false.
Definition cond_var_wait_interruptible : list instr := sleep_on_queue_condition false.

(** The condition is that the word is not the value waited for any more. *)
Definition futex_wait : list instr :=
  [ (* 0 *) Prepare true;
    (* 1 *) If_cond 6;
    (* 2 *) Add;
    (* 3 *) If_cond 8;
    (* 4 *) Block 11;
    (* 5 *) Return (Ok tt);
    (* 6 *) Cancel;
    (* 7 *) Return (Err EAGAIN);
    (* 8 *) Remove;
    (* 9 *) Cancel;
    (* 10 *) Return (Err EAGAIN);
    (* 11 *) Remove;
    (* 12 *) Return (Err EINTR) ].

(** The task that frees the tasks that have ended: it blocks when their list is empty.  The
    condition is that the list is not. *)
Definition reaper : list instr :=
  [ (* 0 *) If_cond 4;
    (* 1 *) Prepare false;
    (* 2 *) Block 0;
    (* 3 *) Goto 0;
    (* 4 *) Return (Ok tt) ].

(** ** The machine *)

(** The task that signals: [oneshot_signal], [cond_var_wakeup] after a write, [futex_wake] of
    all after a write. *)
Inductive waker := Before | Stored | Waking | Finished.

Record machine := mk_machine {
  cond : bool;
  queue : list Z;
  tasks : gmap Z task;
  waker_pc : waker;
}.

Definition set_task (m : machine) (i : Z) (t : task) : machine :=
  mk_machine (cond m) (queue m) (<[i := t]> (tasks m)) (waker_pc m).
Definition set_queue (m : machine) (q : list Z) : machine :=
  mk_machine (cond m) q (tasks m) (waker_pc m).

(** The lock of the queue is free. *)
Definition unlocked (m : machine) : bool := match waker_pc m with Waking => false | _ => true end.

Section machine.
Context (prog : list instr).

(** The step of a task; [None] when it waits for the processor or the lock, or has returned. *)
Definition exec (m : machine) (i : Z) : option machine :=
  t ← tasks m !! i;
  ins ← prog !! pc t;
  let next := set_pc t (S (pc t)) in
  match ins with
  | If_cond target => Some (set_task m i (if cond m then set_pc t target else next))
  | Prepare b => Some (set_task m i ((if b then block_prepare_interruptible else block_prepare) next))
  | Add => if unlocked m then Some (set_task (set_queue m (Sync.sleep_add_to_queue (queue m) i)) i next) else None
  | Cancel => Some (set_task m i (block_cancel next))
  | Remove => if unlocked m then Some (set_task (set_queue m (Sync.sleep_remove_from_queue (queue m) i)) i next) else None
  | Block eintr =>
      match st t with
      | TASK_STATUS_RUNNING =>
          Some (set_task m i (if decide (wakeup_reason t = WAKEUP_SIGNAL) then set_pc t eintr else next))
      | _ => None
      end
  | Goto target => Some (set_task m i (set_pc t target))
  | Return _ => None
  end.

(** The first node of the queue is taken off and its task unblocked. *)
Definition wake_first (m : machine) : option machine :=
  match queue m with
  | [] => None
  | i :: q =>
      Some (mk_machine (cond m) q (alter unblock_task i (tasks m)) (waker_pc m))
  end.

Definition set_waker (m : machine) (w : waker) : machine := mk_machine (cond m) (queue m) (tasks m) w.

(** A step, and the task that takes it ([None] for the signalling task, for signals and for
    the wake-ups of others). *)
Inductive step : option Z -> machine -> machine -> Prop :=
  | step_task m i m' : exec m i = Some m' -> step (Some i) m m'
  | step_store m : waker_pc m = Before -> step None m (mk_machine true (queue m) (tasks m) Stored)
  | step_lock m : waker_pc m = Stored -> step None m (set_waker m Waking)
  | step_wake m m' : waker_pc m = Waking -> wake_first m = Some m' -> step None m m'
  | step_unlock m : waker_pc m = Waking -> queue m = [] -> step None m (set_waker m Finished)
  | step_other m m' : unlocked m = true -> wake_first m = Some m' -> step None m m'
  | step_signal m i t : tasks m !! i = Some t ->
      step None m (set_task m i (unblock_task_reason (mk_task (pc t) (st t) (wakeup_reason t) true) WAKEUP_SIGNAL).1).

(** Runs of the machine in which the task [i] takes [n] steps. *)
Inductive run (i : Z) : nat -> machine -> machine -> Prop :=
  | run_nil m : run i 0 m m
  | run_own n m m' m'' : step (Some i) m m' -> run i n m' m'' -> run i (S n) m m''
  | run_other a n m m' m'' : a <> Some i -> step a m m' -> run i n m' m'' -> run i n m m''.

Definition reachable (m0 m : machine) : Prop := rtc (fun m m' => exists a, step a m m') m0 m.

End machine.

(** All tasks at the start of the program, nothing signalled. *)
Definition initial (m : machine) : Prop :=
  cond m = false /\ queue m = [] /\ waker_pc m = Before /\
  forall i t, tasks m !! i = Some t -> pc t = O /\ st t = TASK_STATUS_RUNNING.

(** ** Checking programs *)

(** What is known of a task at a place of its program: it is running and not in the queue;
    it is running; it has prepared to block and is not in the queue; it is in the queue
    unless something has unblocked it; the same, and it has found the condition false since;
    it is not in the queue; nothing. *)
Inductive label := Idle | Running | Prepared | Queued | Tested | Outside | Unknown.

#[global] Instance label_eq_dec : EqDecision label.
Proof. solve_decision. Defined.

(** [a] says at least as much as [b]. *)
Definition label_le (a b : label) : bool :=
  match a, b with
  | _, Unknown => true
  | Idle, (Running | Outside) => true
  | Prepared, Outside => true
  | Tested, Queued => true
  | _, _ => bool_decide (a = b)
  end.

Definition label_at (ls : list label) (p : nat) (a : label) : bool :=
  match ls !! p with Some b => label_le a b | None => false end.

Definition check_instr (ls : list label) (p : nat) (l : label) (ins : instr) : bool :=
  match ins with
  | If_cond target => label_at ls target l && label_at ls (S p) (match l with Queued => Tested | _ => l end)
  | Prepare _ => label_le l Outside && label_at ls (S p) Prepared
  | Add => bool_decide (l = Prepared) && label_at ls (S p) Queued
  | Cancel => label_at ls (S p) (if label_le l Outside then Idle else Running)
  | Remove => label_at ls (S p) (if label_le l Running then Idle else Outside)
  | Block eintr => bool_decide (l = Tested) && label_at ls (S p) Idle && label_at ls eintr Running
  | Goto target => label_at ls target l
  | Return _ => bool_decide (l = Idle)
  end.

Fixpoint check_from (ls : list label) (p : nat) (prog : list instr) (rest : list label) : bool :=
  match prog, rest with
  | [], [] => true
  | ins :: prog, l :: rest => check_instr ls p l ins && check_from ls (S p) prog rest
  | _, _ => false
  end.

Definition check (prog : list instr) (ls : list label) : bool :=
  bool_decide (ls !! O = Some Idle) && check_from ls O prog ls.

(** Ranks that go down along every step that is possible once the condition holds. *)
Definition check_rank (prog : list instr) (rank : list nat) : bool :=
  forallb (fun p =>
    match prog !! p with
    | None => true
    | Some ins =>
        forallb (fun q => match rank !! p, rank !! q with Some a, Some b => Nat.ltb b a | _, _ => false end)
          (match ins with
           | If_cond target | Goto target => [target]
           | Block eintr => [S p; eintr]
           | Return _ => []
           | _ => [S p]
           end)
    end) (seq 0 (length prog)).

Definition sleep_labels : list label :=
  [Idle; Idle; Prepared; Queued; Tested; Idle; Queued; Running; Idle; Running; Idle].
Definition sleep_rank : list nat := [5; 10; 9; 8; 7; 6; 2; 1; 0; 1; 0]%nat.
Definition futex_labels : list label :=
  [Idle; Prepared; Prepared; Queued; Tested; Idle; Prepared; Idle; Queued; Outside; Idle; Running; Idle].
Definition futex_rank : list nat := [9; 8; 7; 6; 5; 0; 1; 0; 2; 1; 0; 1; 0]%nat.

(** ** The invariant *)

Implicit Types (m : machine) (t : task) (l : label).

Definition running t : Prop := st t = TASK_STATUS_RUNNING.
Definition in_queue (q : list Z) i t : Prop :=
  (~ running t -> i ∈ q) /\ (i ∈ q -> running t -> wakeup_reason t = WAKEUP_SIGNAL).

(** What a label says of the task [i]. *)
Definition holds (q : list Z) (w : waker) i t l : Prop :=
  match l with
  | Idle => running t /\ i ∉ q
  | Running => running t
  | Prepared => i ∉ q /\ (running t -> wakeup_reason t = WAKEUP_SIGNAL)
  | Queued => in_queue q i t
  | Tested => in_queue q i t /\ (~ running t -> w <> Finished)
  | Outside => i ∉ q
  | Unknown => True
  end.

Definition labelled (ls : list label) m i t : Prop :=
  exists l, ls !! pc t = Some l /\ holds (queue m) (waker_pc m) i t l.

Record inv (ls : list label) m : Prop := {
  inv_nodup : NoDup (queue m);
  inv_cond : cond m = false <-> waker_pc m = Before;
  inv_task i t : tasks m !! i = Some t -> labelled ls m i t;
}.

Lemma label_le_holds q w i t a b : label_le a b = true -> holds q w i t a -> holds q w i t b.
Proof. unfold label_le, in_queue. destruct a, b; simpl; try done; tauto. Qed.

(** What a label says does not depend on the places of the other tasks in the queue. *)
Lemma holds_queue q q' w i t l : (i ∈ q <-> i ∈ q') -> holds q w i t l -> holds q' w i t l.
Proof. unfold holds, in_queue. destruct l; naive_solver. Qed.

Lemma remove_from_queue_elem q i j :
  NoDup q -> j ∈ Sync.sleep_remove_from_queue q i <-> j ∈ q /\ j <> i.
Proof.
  induction q as [|x q IH]; simpl; intros Hq; [set_solver|].
  apply NoDup_cons in Hq as [Hx Hq]. case_if.
  - subst. rewrite elem_of_cons. set_solver.
  - rewrite !elem_of_cons, IH by done. naive_solver.
Qed.

Lemma remove_from_queue_nodup q i : NoDup q -> NoDup (Sync.sleep_remove_from_queue q i).
Proof.
  induction q as [|x q IH]; simpl; intros Hq; [constructor|].
  pose proof (remove_from_queue_elem q i) as Hel.
  apply NoDup_cons in Hq as [Hx Hq]. case_if; [done|]. constructor; [|auto].
  rewrite Hel by done. tauto.
Qed.

Lemma labelled_at ls m i t a p :
  label_at ls p a = true -> pc t = p -> holds (queue m) (waker_pc m) i t a -> labelled ls m i t.
Proof.
  unfold label_at, labelled. intros Hp <- Ha. destruct (ls !! pc t) as [b|]; [|done].
  exists b. split; [done|]. by eapply label_le_holds.
Qed.

(** A step of one task: it has a label again, the others keep theirs. *)
Lemma inv_one ls m i t' q' :
  inv ls m -> NoDup q' -> (forall j, j <> i -> j ∈ queue m <-> j ∈ q') ->
  labelled ls (set_queue m q') i t' -> inv ls (set_task (set_queue m q') i t').
Proof.
  intros [_ Hcond Htask] Hnd Hq Hi. split; simpl; [done|done|].
  intros j u. destruct (decide (j = i)) as [->|Hne].
  - rewrite lookup_insert_eq. intros [= <-]. exact Hi.
  - rewrite lookup_insert_ne by done. intros Hu. destruct (Htask _ _ Hu) as (l & Hl & Hh).
    exists l. split; [done|]. simpl. eapply holds_queue; [apply Hq|]; done.
Qed.

Lemma inv_same_queue ls m i t' :
  inv ls m -> labelled ls m i t' -> inv ls (set_task m i t').
Proof.
  intros Hinv Hl. destruct m as [c q ts w].
  apply (inv_one ls (mk_machine c q ts w) i t' q); simpl; try done. by apply inv_nodup in Hinv.
Qed.

Lemma check_from_lookup ls rest prog p k ins :
  check_from ls p prog rest = true -> prog !! k = Some ins ->
  exists l, rest !! k = Some l /\ check_instr ls (p + k) l ins = true.
Proof.
  revert rest p k. induction prog as [|x prog IH]; intros rest p k Hc Hk; [done|].
  destruct rest as [|l rest]; [done|]. simpl in Hc. apply andb_true_iff in Hc as [Hx Hc].
  destruct k as [|k]; simpl in *.
  - injection Hk as ->. exists l. by rewrite Nat.add_0_r.
  - destruct (IH _ _ _ Hc Hk) as (l' & Hl & Hi). exists l'. by rewrite Nat.add_succ_r.
Qed.

Lemma check_at prog ls p ins l :
  check prog ls = true -> prog !! p = Some ins -> ls !! p = Some l -> check_instr ls p l ins = true.
Proof.
  unfold check. intros [_ Hc]%andb_true_iff Hp Hl.
  destruct (check_from_lookup _ _ _ _ _ _ Hc Hp) as (l' & Hl' & Hi). simpl in *. by simplify_eq.
Qed.

Lemma check_entry prog ls : check prog ls = true -> ls !! O = Some Idle.
Proof. unfold check. intros [H _]%andb_true_iff. by apply bool_decide_eq_true in H. Qed.

(** What the operations of the scheduler do to what is known of a task. *)
Lemma prepare_reason (b : bool) t :
  let t' := (if b then block_prepare_interruptible else block_prepare) t in
  pc t' = pc t /\ (running t' -> wakeup_reason t' = WAKEUP_SIGNAL).
Proof.
  destruct b; unfold block_prepare_interruptible, block_prepare, running; simpl; [|done].
  destruct (unhandled t); simpl; done.
Qed.

Lemma unblock_task_running t : pc (unblock_task t) = pc t /\ running (unblock_task t) /\
  (running t -> unblock_task t = t).
Proof. unfold unblock_task, unblock_task_reason, running. destruct t as [p [] w u]; done. Qed.

Lemma signal_task t :
  let t' := (unblock_task_reason (mk_task (pc t) (st t) (wakeup_reason t) true) WAKEUP_SIGNAL).1 in
  pc t' = pc t /\
  (st t' = st t /\ wakeup_reason t' = wakeup_reason t \/ ~ running t /\ running t' /\ wakeup_reason t' = WAKEUP_SIGNAL).
Proof. unfold unblock_task_reason, running. destruct t as [p [] w u]; simpl; naive_solver. Qed.

Section steps.
Context (prog : list instr) (ls : list label) (Hcheck : check prog ls = true).

(** The label of the task after its step. *)
Lemma exec_plain_label m i t ins l t' :
  inv ls m -> prog !! pc t = Some ins -> ls !! pc t = Some l ->
  holds (queue m) (waker_pc m) i t l ->
  match ins with
  | If_cond target => t' = if cond m then set_pc t target else set_pc t (S (pc t))
  | Prepare b => t' = (if b then block_prepare_interruptible else block_prepare) (set_pc t (S (pc t)))
  | Cancel => t' = block_cancel (set_pc t (S (pc t)))
  | Block eintr => running t /\
      t' = if decide (wakeup_reason t = WAKEUP_SIGNAL) then set_pc t eintr else set_pc t (S (pc t))
  | Goto target => t' = set_pc t target
  | _ => False
  end ->
  labelled ls m i t'.
Proof using Hcheck.
  intros Hinv Hp Hl Hh Hins. pose proof (check_at _ _ _ _ _ Hcheck Hp Hl) as Hc.
  destruct ins as [target|b| | | |eintr|target|]; simpl in Hc; try done.
  - apply andb_true_iff in Hc as [Ht Hf]. subst t'. destruct (cond m) eqn:Hcond.
    + eapply labelled_at; [exact Ht|done|]. by destruct l.
    + eapply labelled_at; [exact Hf|done|]. apply Hinv in Hcond.
      destruct l; simpl in *; try done. split; [done|]. by rewrite Hcond.
  - apply andb_true_iff in Hc as [Ho Hn]. eapply label_le_holds in Hh; [|exact Ho].
    destruct (prepare_reason b (set_pc t (S (pc t)))) as [Hpc Hr]. subst t'.
    eapply labelled_at; [exact Hn|by rewrite Hpc|]. simpl. done.
  - subst t'. eapply labelled_at; [exact Hc|done|]. destruct (label_le l Outside) eqn:E; [|done].
    eapply label_le_holds in Hh; [|exact E]. done.
  - apply andb_true_iff in Hc as [[Ht Hn]%andb_true_iff He]. apply bool_decide_eq_true in Ht. subst l.
    destruct Hins as [Hrun ->]. destruct Hh as [[_ Hq] _]. case_decide as Hr.
    + eapply labelled_at; [exact He|done|]. done.
    + eapply labelled_at; [exact Hn|done|]. simpl. split; [done|]. intros Hin. auto.
  - subst t'. eapply labelled_at; [exact Hc|done|]. by destruct l.
Qed.

Lemma exec_inv m i m' : inv ls m -> exec prog m i = Some m' -> inv ls m'.
Proof using Hcheck.
  intros Hinv. unfold exec. destruct (tasks m !! i) as [t|] eqn:Ht; [|done]. simpl.
  destruct (prog !! pc t) as [ins|] eqn:Hp; [|done]. simpl.
  destruct (inv_task _ _ Hinv _ _ Ht) as (l & Hl & Hh).
  pose proof (fun t' => exec_plain_label m i t ins l t' Hinv Hp Hl Hh) as Hplain.
  pose proof (check_at _ _ _ _ _ Hcheck Hp Hl) as Hc. pose proof (inv_nodup _ _ Hinv) as Hnd.
  destruct ins as [target|b| | | |eintr|target|]; simpl in Hc; try done.
  1, 2, 4, 7: intros [= <-]; apply inv_same_queue; [done|by apply Hplain].
  - destruct (unlocked m); [|done]. intros [= <-].
    apply andb_true_iff in Hc as [Hpre Hn]. apply bool_decide_eq_true in Hpre. subst l.
    destruct Hh as [Hni Hr]. unfold Sync.sleep_add_to_queue. apply inv_one; [done| | |].
    + apply NoDup_app. split_and!; [done|set_solver|apply NoDup_singleton].
    + intros j Hj. set_solver.
    + eapply labelled_at; [exact Hn|done|]. simpl. split; [set_solver|]. intros _. exact Hr.
  - destruct (unlocked m); [|done]. intros [= <-]. apply inv_one; [done| | |].
    + by apply remove_from_queue_nodup.
    + intros j Hj. rewrite remove_from_queue_elem by done. tauto.
    + eapply labelled_at; [exact Hc|done|]. pose proof (remove_from_queue_elem (queue m) i i Hnd).
      destruct (label_le l Running) eqn:E; simpl; [|tauto].
      eapply label_le_holds in Hh; [|exact E]. simpl in Hh. split; [done|tauto].
  - destruct (st t) eqn:Hst; try done. intros [= <-]. apply inv_same_queue; [done|]. by apply Hplain.
Qed.

Lemma wake_first_inv m m' : inv ls m -> wake_first m = Some m' -> inv ls m'.
Proof.
  unfold wake_first. intros Hinv. pose proof (inv_nodup _ _ Hinv) as Hnd.
  destruct (queue m) as [|i q] eqn:Hq; [done|]. intros [= <-]. apply NoDup_cons in Hnd as [Hi Hnd].
  split; simpl; [done|apply Hinv|]. intros j u. rewrite lookup_alter_Some.
  destruct (decide (j = i)) as [->|Hne].
  - intros [(_ & t & Ht & ->)|[? _]]; [|done].
    destruct (inv_task _ _ Hinv _ _ Ht) as (l & Hl & Hh). rewrite Hq in Hh.
    destruct (unblock_task_running t) as (Hpc & Hrun & Hid). exists l. rewrite Hpc.
    split; [done|]. simpl. unfold holds, in_queue in *.
    assert (i ∈ i :: q) by set_solver. destruct l; tauto.
  - intros [(t & ? & _)|[_ Hu]]; [by subst|].
    destruct (inv_task _ _ Hinv _ _ Hu) as (l & Hl & Hh). rewrite Hq in Hh.
    exists l. split; [done|]. simpl. eapply holds_queue; [|exact Hh]. set_solver.
Qed.

Lemma signal_inv m i t :
  inv ls m -> tasks m !! i = Some t ->
  inv ls (set_task m i (unblock_task_reason (mk_task (pc t) (st t) (wakeup_reason t) true) WAKEUP_SIGNAL).1).
Proof.
  intros Hinv Ht. apply inv_same_queue; [done|].
  destruct (inv_task _ _ Hinv _ _ Ht) as (l & Hl & Hh).
  destruct (signal_task t) as (Hpc & Hs). exists l. rewrite Hpc. split; [done|].
  unfold holds, in_queue, running in *.
  destruct Hs as [[Hst Hw]|(Hn & Hr & Hw)]; [by rewrite Hst, Hw|]. destruct l; naive_solver.
Qed.

(** A step of the signalling task, which ends only with the queue empty. *)
Lemma waker_inv m c w :
  inv ls m -> (c = false <-> w = Before) -> (w = Finished -> queue m = []) ->
  inv ls (mk_machine c (queue m) (tasks m) w).
Proof.
  intros [Hnd Hc Htask] Hcw Hf. split; simpl; [done|done|].
  intros i t Ht. destruct (Htask _ _ Ht) as (l & Hl & Hh). exists l. split; [done|].
  destruct l; simpl in *; try done. destruct Hh as [[Hin Hr] _]. split; [done|].
  intros Hnr ->. rewrite Hf in Hin by done. set_solver.
Qed.

Lemma step_inv a m m' : step prog a m m' -> inv ls m -> inv ls m'.
Proof using Hcheck.
  intros Hs Hinv. pose proof (inv_cond _ _ Hinv) as Hc.
  destruct Hs as [m i m' Hx|m Hw|m Hw|m m' Hw Hx|m Hw Hq|m m' Hu Hx|m i t Ht].
  - by eapply exec_inv.
  - by apply waker_inv.
  - apply waker_inv; [done| |done]. by rewrite Hc, Hw.
  - by eapply wake_first_inv.
  - apply waker_inv; [done| |done]. by rewrite Hc, Hw.
  - by eapply wake_first_inv.
  - by eapply signal_inv.
Qed.

Lemma initial_inv m : initial m -> inv ls m.
Proof using Hcheck.
  intros (Hc & Hq & Hw & Ht). split; [rewrite Hq; constructor|by rewrite Hc, Hw|].
  intros i t Hi. destruct (Ht _ _ Hi) as [Hpc Hrun]. exists Idle. rewrite Hpc.
  split; [by eapply check_entry|]. rewrite Hq. simpl. split; [done|set_solver].
Qed.

Lemma waiters_inv m0 m : initial m0 -> reachable prog m0 m -> inv ls m.
Proof using Hcheck.
  intros H0 Hr. apply initial_inv in H0. induction Hr as [|x y z [a Hs] _ IH]; [done|].
  apply IH. by eapply step_inv.
Qed.

(** ** Once the event has been signalled *)

Lemma step_finished a m m' :
  step prog a m m' -> waker_pc m = Finished -> waker_pc m' = Finished.
Proof.
  intros Hs Hf. destruct Hs as [m i m' Hx|m Hw|m Hw|m m' Hw Hx|m Hw Hq|m m' Hu Hx|m i t Ht];
    try done; try congruence.
  - unfold exec in Hx. destruct (tasks m !! i) as [t|]; [|done]. simpl in Hx.
    destruct (prog !! pc t) as [[]|]; simpl in Hx; try done; repeat case_match; by simplify_eq.
  - unfold wake_first in Hx. destruct (queue m); [done|]. by injection Hx as <-.
Qed.

Lemma wake_first_pc m m' i t :
  wake_first m = Some m' -> tasks m !! i = Some t ->
  exists t', tasks m' !! i = Some t' /\ pc t' = pc t.
Proof.
  unfold wake_first. intros Hx Hi. destruct (queue m) as [|j q]; [done|]. injection Hx as <-. simpl.
  destruct (decide (i = j)) as [->|]; [|rewrite lookup_alter_ne by done; eauto].
  rewrite lookup_alter_eq, Hi. simpl. eexists. split; [done|]. apply unblock_task_running.
Qed.

(** Steps of others do not move a task. *)
Lemma step_other_pc a m m' i t :
  step prog a m m' -> a <> Some i -> tasks m !! i = Some t ->
  exists t', tasks m' !! i = Some t' /\ pc t' = pc t.
Proof.
  intros Hs Ha Hi. destruct Hs as [m j m' Hx|m Hw|m Hw|m m' Hw Hx|m Hw Hq|m m' Hu Hx|m j u Hj];
    try (by eauto).
  - assert (i <> j) by congruence.
    unfold exec in Hx. destruct (tasks m !! j) as [u|]; [|done]. simpl in Hx.
    destruct (prog !! pc u) as [[]|]; simpl in Hx; try done; repeat case_match; simplify_eq;
      simpl; rewrite lookup_insert_ne by done; eauto.
  - by eapply wake_first_pc.
  - by eapply wake_first_pc.
  - simpl. destruct (decide (i = j)) as [->|]; [|rewrite lookup_insert_ne by done; eauto].
    rewrite lookup_insert_eq. simplify_eq. eexists. split; [done|]. apply signal_task.
Qed.

End steps.

Section liveness.
Context (prog : list instr) (ls : list label) (rank : list nat).
Context (Hcheck : check prog ls = true) (Hrank : check_rank prog rank = true).

Definition rank_of (p : nat) : nat := default O (rank !! p).

Lemma rank_at p ins q :
  prog !! p = Some ins ->
  q ∈ (match ins with
       | If_cond target | Goto target => [target]
       | Block eintr => [S p; eintr]
       | Return _ => []
       | _ => [S p]
       end) ->
  (rank_of q < rank_of p)%nat.
Proof using Hrank.
  intros Hp Hq. unfold check_rank in Hrank. rewrite forallb_forall in Hrank.
  specialize (Hrank p). rewrite Hp in Hrank. rewrite forallb_forall in Hrank.
  apply lookup_lt_Some in Hp as Hlen. rewrite list_elem_of_In in Hq.
  specialize (Hrank ltac:(apply in_seq; lia) q Hq). unfold rank_of.
  destruct (rank !! p), (rank !! q); try done. by apply Nat.ltb_lt in Hrank.
Qed.

Lemma check_from_length ls0 p pr rest : check_from ls0 p pr rest = true -> length pr = length rest.
Proof.
  revert p rest. induction pr as [|x pr IH]; intros p [|l rest]; simpl; try done.
  intros [_ H]%andb_true_iff. f_equal. by eapply IH.
Qed.

(** A task is at an instruction of its program. *)
Lemma inv_instr m i t : inv ls m -> tasks m !! i = Some t -> is_Some (prog !! pc t).
Proof using Hcheck.
  intros Hinv Ht. destruct (inv_task _ _ Hinv _ _ Ht) as (l & Hl & _).
  apply lookup_lt_is_Some. unfold check in Hcheck. apply andb_true_iff in Hcheck as [_ Hc].
  rewrite (check_from_length _ _ _ _ Hc). by eapply lookup_lt_Some.
Qed.

Lemma block_running m i t e :
  inv ls m -> waker_pc m = Finished -> tasks m !! i = Some t -> prog !! pc t = Some (Block e) ->
  st t = TASK_STATUS_RUNNING.
Proof using Hcheck.
  intros Hinv Hf Ht Hp. destruct (inv_task _ _ Hinv _ _ Ht) as (l & Hl & Hh).
  pose proof (check_at _ _ _ _ _ Hcheck Hp Hl) as Hc. simpl in Hc.
  apply andb_true_iff in Hc as [[->%bool_decide_eq_true _]%andb_true_iff _].
  destruct Hh as [_ Hn]. destruct (decide (st t = TASK_STATUS_RUNNING)); [done|]. by destruct Hn.
Qed.

Lemma return_idle m i t r :
  inv ls m -> tasks m !! i = Some t -> prog !! pc t = Some (Return r) ->
  st t = TASK_STATUS_RUNNING /\ i ∉ queue m.
Proof using Hcheck.
  intros Hinv Ht Hp. destruct (inv_task _ _ Hinv _ _ Ht) as (l & Hl & Hh).
  pose proof (check_at _ _ _ _ _ Hcheck Hp Hl) as Hc. simpl in Hc.
  by apply bool_decide_eq_true in Hc as ->.
Qed.

(** After the signal a task that has not returned can take a step, which is nearer to the
    return. *)
Lemma exec_finished m i t ins :
  inv ls m -> waker_pc m = Finished -> tasks m !! i = Some t -> prog !! pc t = Some ins ->
  (exists r, ins = Return r) \/
  exists m' t', exec prog m i = Some m' /\ tasks m' !! i = Some t' /\ (rank_of (pc t') < rank_of (pc t))%nat.
Proof using Hcheck Hrank.
  intros Hinv Hf Ht Hp. pose proof (rank_at _ _ (S (pc t)) Hp) as Hnext.
  assert (Hcond : cond m = true).
  { destruct (cond m) eqn:E; [done|]. apply Hinv in E. congruence. }
  unfold exec, unlocked. rewrite Ht. simpl. rewrite Hp, Hf, Hcond. simpl.
  destruct ins as [target|b| | | |e|target|r]; [right|right|right|right|right|right|right|left; by eexists].
  1, 3, 4, 5, 7: eexists _, _; split; [done|]; split; [apply lookup_insert_eq|];
    simpl; first [apply Hnext; set_solver | eapply rank_at; [done|set_solver]].
  - eexists _, _. split; [done|]. split; [apply lookup_insert_eq|].
    destruct (prepare_reason b (set_pc t (S (pc t)))) as [-> _]. apply Hnext. set_solver.
  - rewrite (block_running _ _ _ _ Hinv Hf Ht Hp).
    eexists _, _. split; [done|]. split; [apply lookup_insert_eq|].
    case_decide; simpl; eapply rank_at; [done|set_solver|done|set_solver].
Qed.

Lemma run_finished i n m m' t :
  run prog i n m m' -> inv ls m -> waker_pc m = Finished -> tasks m !! i = Some t ->
  inv ls m' /\ waker_pc m' = Finished /\
  exists t', tasks m' !! i = Some t' /\ (rank_of (pc t') + n <= rank_of (pc t))%nat.
Proof using Hcheck Hrank.
  intros Hr. revert t. induction Hr as [m|n m m' m'' Hs Hr IH|a n m m' m'' Ha Hs Hr IH];
    intros t Hinv Hf Ht.
  - split_and!; try done. exists t. split; [done|lia].
  - pose proof (step_inv _ _ Hcheck _ _ _ Hs Hinv) as Hinv'.
    pose proof (step_finished _ _ _ _ Hs Hf) as Hf'. inversion Hs as [? ? ? Hx| | | | | |]; subst.
    destruct (inv_instr _ _ _ Hinv Ht) as [ins Hp].
    destruct (exec_finished _ _ _ _ Hinv Hf Ht Hp) as [[r ->]|(m1 & t1 & Hx1 & Ht1 & Hlt)].
    { unfold exec in Hx. rewrite Ht in Hx. simpl in Hx. by rewrite Hp in Hx. }
    simplify_eq. destruct (IH _ Hinv' Hf' Ht1) as (? & ? & t2 & Ht2 & Hle).
    split_and!; try done. exists t2. split; [done|lia].
  - pose proof (step_inv _ _ Hcheck _ _ _ Hs Hinv) as Hinv'.
    pose proof (step_finished _ _ _ _ Hs Hf) as Hf'.
    destruct (step_other_pc _ _ _ _ _ _ Hs Ha Ht) as (t1 & Ht1 & Hpc).
    destruct (IH _ Hinv' Hf' Ht1) as (? & ? & t2 & Ht2 & Hle).
    split_and!; try done. exists t2. by rewrite <- Hpc.
Qed.

End liveness.

(** ** The functions of the kernel *)

(** The functions that wait, with what is known at each place and the longest way to the
    return. *)
Definition waiters : list (list instr * (list label * list nat)) :=
  [ (oneshot_wait, (sleep_labels, sleep_rank));
    (oneshot_wait_interruptible, (sleep_labels, sleep_rank));
    (cond_var_wait, (sleep_labels, sleep_rank));
    (cond_var_wait_interruptible, (sleep_labels, sleep_rank));
    (sleep_on_queue_condition true, (sleep_labels, sleep_rank));
    (futex_wait, (futex_labels, futex_rank)) ].

Lemma waiters_check prog ls rank :
  (prog, (ls, rank)) ∈ waiters -> check prog ls = true /\ check_rank prog rank = true.
Proof.
  intros H. assert (Hall : Forall (fun x => check x.1 x.2.1 && check_rank x.1 x.2.2 = true) waiters)
    by (repeat constructor).
  rewrite Forall_forall in Hall. apply Hall, andb_true_iff in H. done.
Qed.

Definition returned (prog : list instr) t : Prop := exists r, prog !! pc t = Some (Return r).

(** C22: No wake-up is lost.  In every execution, by any number of tasks that wait and whatever
    signals and wake-ups of others come in between, once the signalling task has stored the
    condition and emptied the queue, no task is left blocked: a task that has reached the
    call that gives up the processor is runnable.  A task that has returned is running and has
    left no node in the queue. *)
Theorem wait_no_lost_wakeup prog ls rank m0 m i t :
  (prog, (ls, rank)) ∈ waiters -> initial m0 -> reachable prog m0 m -> tasks m !! i = Some t ->
  (waker_pc m = Finished -> forall e, prog !! pc t = Some (Block e) -> st t = TASK_STATUS_RUNNING) /\
  (returned prog t -> st t = TASK_STATUS_RUNNING /\ i ∉ queue m).
Proof.
  intros [Hc _]%waiters_check H0 Hr Ht. pose proof (waiters_inv _ _ Hc _ _ H0 Hr) as Hinv.
  split; [intros Hf e Hp; by eapply block_running|]. intros [r Hp]. by eapply return_idle.
Qed.

(** C23: Waiting ends.  From any state after the signal, a task takes at most ten steps of its
    own, in any execution; as long as it has not returned its next step is enabled,
    whatever the others do; and when it has taken as many steps as the rank of the place
    where it was, it has returned. *)
Theorem wait_returns prog ls rank m0 m n m' i t :
  (prog, (ls, rank)) ∈ waiters -> initial m0 -> reachable prog m0 m -> waker_pc m = Finished ->
  tasks m !! i = Some t -> run prog i n m m' ->
  (n <= 10)%nat /\
  exists t', tasks m' !! i = Some t' /\
    (returned prog t' \/ exists m'', step prog (Some i) m' m'') /\
    (n = rank_of rank (pc t) -> returned prog t').
Proof.
  intros Hw H0 Hr Hf Ht Hrun. pose proof (waiters_check _ _ _ Hw) as [Hc Hk].
  pose proof (waiters_inv _ _ Hc _ _ H0 Hr) as Hinv.
  destruct (run_finished _ _ _ Hc Hk _ _ _ _ _ Hrun Hinv Hf Ht) as (Hinv' & Hf' & t' & Ht' & Hle).
  assert (Hmax : (rank_of rank (pc t) <= 10)%nat).
  { assert (Hall : Forall (fun x => Forall (fun r => r <= 10)%nat x.2.2) waiters).
    { repeat constructor; unfold sleep_rank, futex_rank; simpl; lia. }
    rewrite Forall_forall in Hall. apply Hall in Hw. simpl in Hw. unfold rank_of.
    destruct (rank !! pc t) eqn:E; simpl; [|lia]. by eapply Forall_lookup_1 in Hw. }
  split; [lia|]. exists t'. split; [done|]. destruct (inv_instr _ _ Hc _ _ _ Hinv' Ht') as [ins Hp].
  destruct (exec_finished _ _ _ Hc Hk _ _ _ _ Hinv' Hf' Ht' Hp) as [[r ->]|(m1 & t1 & Hx & Ht1 & Hlt)].
  - split; [left; by exists r|]. by exists r.
  - split; [right; exists m1; by constructor|]. lia.
Qed.

(** ** Examples *)

(** The steps of the machine as a function, for concrete runs. *)
Inductive event := E_task (i : Z) | E_store | E_lock | E_wake | E_unlock | E_other | E_signal (i : Z).

Definition do_event (prog : list instr) m (e : event) : option machine :=
  match e, waker_pc m with
  | E_task i, _ => exec prog m i
  | E_store, Before => Some (mk_machine true (queue m) (tasks m) Stored)
  | E_lock, Stored => Some (set_waker m Waking)
  | E_wake, Waking => wake_first m
  | E_unlock, Waking => match queue m with [] => Some (set_waker m Finished) | _ => None end
  | E_other, _ => if unlocked m then wake_first m else None
  | E_signal i, _ =>
      t ← tasks m !! i;
      Some (set_task m i (unblock_task_reason (mk_task (pc t) (st t) (wakeup_reason t) true) WAKEUP_SIGNAL).1)
  | _, _ => None
  end.

Fixpoint do_events (prog : list instr) m (es : list event) : option machine :=
  match es with
  | [] => Some m
  | e :: es => m' ← do_event prog m e; do_events prog m' es
  end.

Lemma do_event_step prog m e m' : do_event prog m e = Some m' -> exists a, step prog a m m'.
Proof.
  destruct e; simpl; intros H.
  - exists (Some i). by constructor.
  - exists None. destruct (waker_pc m) eqn:E; try done. injection H as <-. by constructor.
  - exists None. destruct (waker_pc m) eqn:E; try done. injection H as <-. by constructor.
  - exists None. destruct (waker_pc m) eqn:E; try done. by apply step_wake.
  - exists None. destruct (waker_pc m) eqn:E; try done. destruct (queue m) eqn:Q; [|done].
    injection H as <-. by constructor.
  - exists None. destruct (unlocked m) eqn:E; [|done]. by apply step_other.
  - exists None. destruct (tasks m !! i) eqn:E; [|done]. injection H as <-. by constructor.
Qed.

Lemma do_events_reachable prog m es m' : do_events prog m es = Some m' -> reachable prog m m'.
Proof.
  revert m. induction es as [|e es IH]; simpl; intros m H.
  - injection H as <-. apply rtc_refl.
  - destruct (do_event prog m e) as [m1|] eqn:E; [|done]. simpl in H.
    apply rtc_l with m1; [by eapply do_event_step|by apply IH].
Qed.

Definition ex_task : task := mk_task 0 TASK_STATUS_RUNNING WAKEUP_OTHER false.
Definition ex_machine : machine := mk_machine false [] {[ 1 := ex_task; 2 := ex_task ]} Before.

Lemma ex_initial : initial ex_machine.
Proof.
  split_and!; try done. unfold ex_machine. simpl. intros i t Hi. apply lookup_insert_Some in Hi as [[_ <-]|[_ Hi]]; [done|].
  by apply lookup_singleton_Some in Hi as [_ <-].
Qed.

(** Task 1 blocks; task 2 finds the condition false, the event is signalled, and only then
    task 2 enters the queue, which is empty again, and finds the condition true. *)
Definition ex_events : list event :=
  map E_task [1; 1; 1; 1; 2] ++ [E_store; E_lock; E_wake; E_unlock] ++ map E_task [2; 2; 2; 2].

Definition ex_reached : machine :=
  mk_machine true [2]
    {[ 1 := mk_task 4 TASK_STATUS_RUNNING WAKEUP_OTHER false; 2 := mk_task 7 TASK_STATUS_RUNNING WAKEUP_OTHER false ]}
    Finished.

Lemma ex_reachable : reachable oneshot_wait ex_machine ex_reached.
Proof. apply do_events_reachable with ex_events. vm_compute. reflexivity. Qed.

Lemma wait_no_lost_wakeup_witness :
  (waker_pc ex_reached = Finished -> forall e, oneshot_wait !! 4%nat = Some (Block e) ->
   TASK_STATUS_RUNNING = TASK_STATUS_RUNNING) /\
  (returned oneshot_wait (mk_task 4 TASK_STATUS_RUNNING WAKEUP_OTHER false) ->
   TASK_STATUS_RUNNING = TASK_STATUS_RUNNING /\ 1 ∉ queue ex_reached).
Proof.
  apply (wait_no_lost_wakeup oneshot_wait sleep_labels sleep_rank ex_machine ex_reached 1
           (mk_task 4 TASK_STATUS_RUNNING WAKEUP_OTHER false)).
  - left.
  - exact ex_initial.
  - exact ex_reachable.
  - reflexivity.
Defined.

Definition ex_after : machine :=
  default ex_reached (do_events oneshot_wait ex_reached (map E_task [1; 1; 1])).

Lemma wait_returns_witness :
  (3 <= 10)%nat /\
  exists t', tasks ex_after !! 1 = Some t' /\
    (returned oneshot_wait t' \/ exists m'', step oneshot_wait (Some 1) ex_after m'') /\
    (3%nat = rank_of sleep_rank 4 -> returned oneshot_wait t').
Proof.
  apply (wait_returns oneshot_wait sleep_labels sleep_rank ex_machine ex_reached 3 ex_after 1
           (mk_task 4 TASK_STATUS_RUNNING WAKEUP_OTHER false)).
  - left.
  - exact ex_initial.
  - exact ex_reachable.
  - reflexivity.
  - reflexivity.
  - eapply run_own; [apply step_task; vm_compute; reflexivity|].
    eapply run_own; [apply step_task; vm_compute; reflexivity|].
    eapply run_own; [apply step_task; vm_compute; reflexivity|].
    replace ex_after with (mk_machine true [2]
      {[ 1 := mk_task 8 TASK_STATUS_RUNNING WAKEUP_OTHER false; 2 := mk_task 7 TASK_STATUS_RUNNING WAKEUP_OTHER false ]}
      Finished) by (vm_compute; reflexivity).
    apply run_nil.
Defined.

(** The task that frees dead tasks has no such order: it looks at their list, then prepares
    to block, and does not look again.  A task that dies in between unblocks it too early, and
    it stays blocked with a dead task in the list.  The queue stands for the variable that
    names the task to unblock. *)
Example reaper_lost_wakeup :
  (m ← do_events reaper (mk_machine false [1] {[ 1 := ex_task ]} Before)
         [E_task 1; E_store; E_lock; E_wake; E_unlock; E_task 1];
   t ← tasks m !! 1; Some (cond m, waker_pc m, pc t, st t, bool_decide (exec reaper m 1 = None)))
  = Some (true, Finished, 2%nat, TASK_STATUS_BLOCKED, true).
Proof. vm_compute. reflexivity. Qed.

End Wait.
