(* ===== verification/Workqueue.v ===== *)
(** Work queues (kernel/task/workqueue.c, kernel/include/task/workqueue.h).

    One worker takes works off a list and runs their callbacks; any task appends works.  The
    list is protected by a spinlock, so what happens under the lock is one step; the
    unblocking of the worker comes after the lock is released and is a step of its own, and so
    are the worker's blocking and its callback.  The machine keeps two histories, of the works
    appended and of those whose callback was called. *)

From S2P Require Import Prelude Wait.

Module Workqueue.
Import Wait.

(** A work is its address; [is_queued] holds the works with the flag set. *)
Inductive worker_pc := Get_work | Blocked_at | Callback (work : Z).

Record queue := mk_queue {
  works : list Z;
  is_queued : gset Z;
  worker : status;
  at_ : worker_pc;
  unblocking : nat;       (** tasks between the two halves of [work_queue] *)
  appended : list Z;
  called : list Z;
}.
Implicit Types (s : queue).

(** [work_raw_queue]: the works and the flags. *)
Definition work_raw_queue (l : list Z) (flags : gset Z) work : list Z * gset Z :=
  if decide (work ∈ flags) then (l, flags) else (l ++ [work], {[work]} ∪ flags).

(** [work_queue] up to the release of the lock. *)
Definition work_queue s work : queue :=
  let '(l, flags) := work_raw_queue (works s) (is_queued s) work in
  mk_queue l flags (worker s) (at_ s) (S (unblocking s))
    (appended s ++ (if decide (work ∈ is_queued s) then [] else [work])) (called s).

Definition set_worker s (st : status) (p : worker_pc) : queue :=
  mk_queue (works s) (is_queued s) st p (unblocking s) (appended s) (called s).

(** [work_queue] after it: [unblock_task (worker)]. *)
Definition work_queue_unblock s : option queue :=
  match unblocking s with
  | O => None
  | S n =>
      let t := unblock_task (mk_task 0 (worker s) WAKEUP_OTHER false) in
      Some (mk_queue (works s) (is_queued s) (st t) (at_ s) n (appended s) (called s))
  end.

(** [get_work] from an acquisition of the lock to its release: the worker prepares to
    block, and cancels that when there is a work. *)
Definition get_work s : queue :=
  match works s with
  | [] => set_worker s TASK_STATUS_BLOCKED Blocked_at
  | work :: l =>
      mk_queue l (is_queued s ∖ {[work]}) TASK_STATUS_RUNNING (Callback work) (unblocking s)
        (appended s) (called s)
  end.

(** The step of the worker; [None] when it is blocked. *)
Definition worker_thread s : option queue :=
  match at_ s with
  | Get_work => Some (get_work s)
  | Blocked_at =>
      match worker s with
      | TASK_STATUS_RUNNING => Some (set_worker s TASK_STATUS_RUNNING Get_work)
      | _ => None
      end
  | Callback work =>
      Some (mk_queue (works s) (is_queued s) (worker s) Get_work (unblocking s) (appended s)
              (called s ++ [work]))
  end.

Definition init_workqueue : queue :=
  mk_queue [] ∅ TASK_STATUS_RUNNING Get_work 0 [] [].

Inductive step : queue -> queue -> Prop :=
  | step_queue s work : step s (work_queue s work)
  | step_unblock s s' : work_queue_unblock s = Some s' -> step s s'
  | step_worker s s' : worker_thread s = Some s' -> step s s'.

(** ** The invariant *)

Definition running_work s : list Z := match at_ s with Callback work => [work] | _ => [] end.

Record inv s : Prop := {
  inv_nodup : NoDup (works s);
  inv_flags work : work ∈ is_queued s <-> work ∈ works s;
  inv_history : appended s = called s ++ running_work s ++ works s;
  inv_at : worker s <> TASK_STATUS_RUNNING -> at_ s = Blocked_at /\ (works s <> [] -> unblocking s <> O);
}.

Lemma init_inv : inv init_workqueue.
Proof. split; simpl; [constructor|set_solver|done|done]. Qed.

Lemma work_queue_inv s work : inv s -> inv (work_queue s work).
Proof.
  intros [Hnd Hf Hh Ha]. unfold work_queue, work_raw_queue. case_decide as Hin.
  - split; simpl; [done|done|by rewrite app_nil_r|]. intros Hw. by destruct (Ha Hw) as [-> _].
  - split; simpl.
    + apply NoDup_app. split_and!; [done|set_solver|apply NoDup_singleton].
    + intros w. specialize (Hf w). set_solver.
    + unfold running_work in *. simpl. by rewrite Hh, <- !app_assoc.
    + intros Hw. by destruct (Ha Hw) as [-> _].
Qed.

Lemma unblock_inv s s' : inv s -> work_queue_unblock s = Some s' -> inv s'.
Proof.
  intros [Hnd Hf Hh Ha]. unfold work_queue_unblock. destruct (unblocking s) as [|n]; [done|].
  intros [= <-]. split; simpl; [done|done|done|]. by destruct (worker s).
Qed.

Lemma worker_inv s s' : inv s -> worker_thread s = Some s' -> inv s'.
Proof.
  intros [Hnd Hf Hh Ha]. unfold worker_thread, running_work in *. destruct (at_ s) eqn:Hat.
  - intros [= <-]. unfold get_work. destruct (works s) as [|w l] eqn:Hw; simpl in *.
    + split; simpl; rewrite ?Hw; try done. 
    + apply NoDup_cons in Hnd as [Hw' Hnd]. split; simpl; [done| |done|done].
      intros x. specialize (Hf x). set_solver.
  - destruct (worker s); try done. intros [= <-]. by split.
  - intros [= <-]. split; simpl; [done|done| |].
    + by rewrite Hh, <- app_assoc.
    + intros Hr. by destruct (Ha Hr).
Qed.

Lemma workqueue_inv s : rtc step init_workqueue s -> inv s.
Proof.
  assert (Hgen : forall a b, rtc step a b -> inv a -> inv b).
  { induction 1 as [|x y z Hs _ IH]; [done|]. intros Hi. apply IH.
    destruct Hs; [by apply work_queue_inv|by eapply unblock_inv|by eapply worker_inv]. }
  intros Hr. eapply Hgen; [done|apply init_inv].
Qed.

(** ** The worker takes what is queued *)

(** The steps of the worker alone. *)
Fixpoint worker_steps (n : nat) s : option queue :=
  match n with O => Some s | S n => s' ← worker_thread s; worker_steps n s' end.

Lemma worker_steps_S n s s' :
  worker_thread s = Some s' -> worker_steps (S n) s = worker_steps n s'.
Proof. intros H. simpl. by rewrite H. Qed.

(** From the start of its loop the worker calls every work of the list, in order. *)
Lemma worker_drains s :
  at_ s = Get_work ->
  exists s', worker_steps (2 * length (works s)) s = Some s' /\ works s' = [] /\
    at_ s' = Get_work /\ called s' = called s ++ works s.
Proof.
  remember (works s) as l eqn:Hl. revert s Hl. induction l as [|w l IH]; intros s Hl Hat.
  - exists s. simpl. by rewrite app_nil_r.
  - destruct (IH (mk_queue l (is_queued s ∖ {[w]}) TASK_STATUS_RUNNING Get_work (unblocking s)
                    (appended s) (called s ++ [w]))) as (s' & Hs' & Hw & Ha & Hc); [done|done|].
    exists s'. split_and!; [|done|done|by rewrite Hc; simpl; rewrite <- app_assoc].
    replace (2 * length (w :: l))%nat with (S (S (2 * length l))) by (simpl; lia).
    rewrite (worker_steps_S _ _ (get_work s)) by (unfold worker_thread; by rewrite Hat).
    unfold get_work. rewrite <- Hl. by erewrite worker_steps_S by reflexivity.
Qed.

(** The works appended to the queue are called exactly once each and in order: at every
    moment the history of the appended works is that of the called ones followed by the one
    whose callback runs and by the list.  A work is in the list at most once, and is there
    exactly when its flag is set.  No wake-up is lost: the worker is blocked with works in
    the list only while a task is about to unblock it; when none is, the worker on its own
    goes on to call everything appended so far. *)
Theorem workqueue_correct s :
  rtc step init_workqueue s ->
  appended s = called s ++ running_work s ++ works s /\
  NoDup (works s) /\ (forall work, work ∈ is_queued s <-> work ∈ works s) /\
  (unblocking s = O -> works s <> [] ->
   exists n s', worker_steps n s = Some s' /\ works s' = [] /\ called s' = appended s).
Proof.
  intros Hr. pose proof (workqueue_inv s Hr) as [Hnd Hf Hh Ha]. split_and!; try done.
  intros Hu Hne. destruct (at_ s) as [| |w] eqn:Hat.
  - destruct (worker_drains s Hat) as (s' & Hs & Hw & _ & Hc). exists (2 * length (works s))%nat, s'.
    split_and!; [done|done|]. rewrite Hc, Hh. unfold running_work. by rewrite Hat.
  - assert (Hrun : worker s = TASK_STATUS_RUNNING).
    { destruct (decide (worker s = TASK_STATUS_RUNNING)) as [|Hn]; [done|].
      destruct (Ha Hn) as [_ Hx]. by destruct (Hx Hne). }
    destruct (worker_drains (set_worker s TASK_STATUS_RUNNING Get_work) eq_refl) as (s' & Hs & Hw & _ & Hc).
    exists (S (2 * length (works s))), s'. simpl in Hc. split_and!.
    + erewrite worker_steps_S; [exact Hs|]. unfold worker_thread. by rewrite Hat, Hrun.
    + done.
    + rewrite Hc, Hh. unfold running_work. by rewrite Hat.
  - destruct (worker_drains (mk_queue (works s) (is_queued s) (worker s) Get_work (unblocking s)
                (appended s) (called s ++ [w])) eq_refl) as (s' & Hs & Hw & _ & Hc).
    exists (S (2 * length (works s))), s'. simpl in Hc. split_and!.
    + erewrite worker_steps_S; [exact Hs|]. unfold worker_thread. by rewrite Hat.
    + done.
    + rewrite Hc, Hh. unfold running_work. rewrite Hat. by rewrite <- app_assoc.
Qed.

(** Two works, the first queued twice before the worker has taken it. *)
Definition ex_queue : queue :=
  default init_workqueue
    (s ← worker_thread init_workqueue;
     s ← work_queue_unblock (work_queue s 16);
     s ← work_queue_unblock (work_queue s 16);
     work_queue_unblock (work_queue s 32)).

Lemma ex_steps : rtc step init_workqueue ex_queue.
Proof.
  eapply rtc_l; [apply step_worker; reflexivity|].
  eapply rtc_l; [apply (step_queue _ 16)|]. eapply rtc_l; [apply step_unblock; reflexivity|].
  eapply rtc_l; [apply (step_queue _ 16)|]. eapply rtc_l; [apply step_unblock; reflexivity|].
  eapply rtc_l; [apply (step_queue _ 32)|]. eapply rtc_l; [apply step_unblock; reflexivity|].
  apply rtc_refl.
Qed.

Lemma workqueue_correct_witness :
  works ex_queue = [16; 32] /\
  exists n s', worker_steps n ex_queue = Some s' /\ works s' = [] /\ called s' = [16; 32].
Proof.
  split; [reflexivity|]. apply (workqueue_correct ex_queue ex_steps); [reflexivity|discriminate].
Defined.

End Workqueue.
