(* ===== verification/FatTable.v ===== *)
(** FAT volumes: the file allocation table, chains of clusters, the data of files
    (modules/fs/fat/fat.c up to [fat_write_pages], [fat_truncate], [fat_cleanup],
    [fat_mount]; modules/include/module/fat.h).

    The driver works on a device through [vfs_read] and [vfs_write]; what it relies on is the
    class [Device] with its laws, and a byte image is an instance.  A superblock carries
    the device and the search hint, so operations take a superblock and return one.  The lock
    of the superblock is held through each operation, which is one step here.  A read
    whose result the code does not check gives [None] when it fails: the buffer is then
    uninitialised. *)

From S2P Require Import Prelude Time.

Module Fat.

(** ** Devices *)

Class Device (D : Type) := {
  vfs_read : D -> Z -> Z -> res (list Z);
  vfs_write : D -> Z -> list Z -> D * res Z;
  contents : D -> list Z;
}.

(** A read or a write inside the device is carried out in full. *)
Class DeviceLaws (D : Type) `{Device D} := {
  vfs_read_ok d off n :
    0 <= off -> 0 <= n -> off + n <= lenZ (contents d) ->
    vfs_read d off n = Ok (sliceZ off n (contents d));
  vfs_write_ok d off bs :
    0 <= off -> off + lenZ bs <= lenZ (contents d) ->
    exists d', vfs_write d off bs = (d', Ok (lenZ bs)) /\ contents d' = blit off bs (contents d);
}.

(** A byte image: reads and writes stop at its end. *)
#[export] Instance image_device : Device (list Z) := {
  vfs_read d off n := Ok (sliceZ off n d);
  vfs_write d off bs :=
    let n := Z.max 0 (Z.min (lenZ bs) (lenZ d - off)) in (blit off (takeZ n bs) d, Ok n);
  contents d := d;
}.

#[export] Instance image_laws : DeviceLaws (list Z).
Proof.
  split; simpl; [done|]. intros d off bs Hoff Hlen. exists (blit off bs d). pose proof (lenZ_nonneg bs).
  rewrite Z.max_r, Z.min_l by lia. split; [|done]. do 2 f_equal. unfold takeZ, lenZ.
  by rewrite Nat2Z.id, firstn_all.
Qed.

(** ** Superblocks *)

Inductive fat_types := FAT12 | FAT16 | FAT32.

#[global] Instance fat_types_eq_dec : EqDecision fat_types.
Proof. solve_decision. Defined.

Definition FAT_FREE : Z := 0.

Section fat.
Context {D : Type} `{Device D}.

Record fat_superblock := mk_superblock {
  device : D;
  fat_type : fat_types;
  reserved_sectors : Z;
  sector_size : Z;
  sectors_per_fat : Z;
  cluster_size : Z;
  data_clusters : Z;
  cluster_search_hint : Z;
  fat_count : Z;
  data_start : Z;
}.
Implicit Types (sb : fat_superblock) (cluster next offset : Z).

Definition set_device sb (d : D) : fat_superblock :=
  mk_superblock d (fat_type sb) (reserved_sectors sb) (sector_size sb) (sectors_per_fat sb)
    (cluster_size sb) (data_clusters sb) (cluster_search_hint sb) (fat_count sb) (data_start sb).
Definition set_hint sb (hint : Z) : fat_superblock :=
  mk_superblock (device sb) (fat_type sb) (reserved_sectors sb) (sector_size sb) (sectors_per_fat sb)
    (cluster_size sb) (data_clusters sb) hint (fat_count sb) (data_start sb).

(** The product is one of 32-bit numbers. *)
Definition fat_cluster2offset sb cluster : option Z :=
  if 2 <=? cluster then Some (u32 ((cluster - 2) * cluster_size sb) + data_start sb) else None.

Definition fat_offset2cluster sb offset : option Z :=
  if data_start sb <=? offset then Some (u32 ((offset - data_start sb) / cluster_size sb + 2)) else None.

Definition fat_eof sb : Z :=
  match fat_type sb with FAT12 => 0xff8 | FAT16 => 0xfff8 | FAT32 => 0x0ffffff8 end.

(** A read into a buffer of [n] bytes whose result is not checked. *)
Definition read_buffer sb offset (n : Z) : option (list Z) :=
  match vfs_read (device sb) offset n with
  | Ok bs => if lenZ bs =? n then Some bs else None
  | Err _ => None
  end.

(** ** The table *)

Definition fat_get_next_cluster sb cluster : option Z :=
  match fat_type sb with
  | FAT12 =>
      ent12 ← read_buffer sb (u32 (reserved_sectors sb * sector_size sb + u32 (cluster * 3) / 2)) 3;
      let ent :=
        if negb (cluster mod 2 =? 0) then Z.lor (Z.shiftr (nthZ 0 ent12 1) 4) (Z.shiftl (nthZ 0 ent12 2) 4)
        else Z.lor (nthZ 0 ent12 0) (Z.shiftl (Z.land (nthZ 0 ent12 1) 0x0f) 8) in
      Some (if 0xff8 <=? ent then 0xff8 else ent)
  | FAT16 =>
      bs ← read_buffer sb (u32 (reserved_sectors sb * sector_size sb + u32 (cluster * 2))) 2;
      let ent16 := le_val bs in
      Some (if 0xfff8 <=? ent16 then 0xfff8 else ent16)
  | FAT32 =>
      bs ← read_buffer sb (u32 (reserved_sectors sb * sector_size sb + u32 (cluster * 4))) 4;
      let ent32 := le_val bs in
      Some (if 0x0ffffff8 <=? ent32 then 0x0ffffff8 else Z.land ent32 0x0fffffff)
  end.

(** A write whose result is checked. *)
Definition write_buffer sb offset (bs : list Z) : fat_superblock * res unit :=
  match vfs_write (device sb) offset bs with
  | (d, Ok n) => (set_device sb d, if n <? lenZ bs then Err EIO else Ok tt)
  | (d, Err e) => (set_device sb d, Err e)
  end.

Definition fat_raw_set_next_cluster sb offset cluster next : fat_superblock * res unit :=
  match fat_type sb with
  | FAT12 =>
      let offset12 := offset + u32 (cluster * 3) / 2 in
      match vfs_read (device sb) offset12 3 with
      | Err e => (sb, Err e)
      | Ok ent12 =>
          if lenZ ent12 <? 3 then (sb, Err EIO) else
          let ent12 :=
            if negb (cluster mod 2 =? 0) then
              [nthZ 0 ent12 0;
               Z.lor (Z.land (u32 (Z.shiftl next 4)) 0xf0) (Z.land (nthZ 0 ent12 1) 0x0f);
               u8 (Z.shiftr next 4)]
            else
              [u8 next;
               Z.lor (Z.land (nthZ 0 ent12 1) 0xf0) (Z.land (Z.shiftr next 8) 0x0f);
               nthZ 0 ent12 2] in
          write_buffer sb offset12 ent12
      end
  | FAT16 => write_buffer sb (offset + u32 (cluster * 2)) (le_bytes 2 (u16 next))
  | FAT32 => write_buffer sb (offset + u32 (cluster * 4)) (le_bytes 4 (Z.land next 0x0fffffff))
  end.

(** The loop over the copies of the table, with [n] left from copy [i]. *)
Fixpoint set_copies (n : nat) sb (i cluster next : Z) : fat_superblock * res unit :=
  match n with
  | O => (sb, Ok tt)
  | S n =>
      let sector := reserved_sectors sb + sectors_per_fat sb * i in
      match fat_raw_set_next_cluster sb (sector *! sector_size sb) cluster next with
      | (sb, Err e) => (sb, Err e)
      | (sb, Ok _) => set_copies n sb (i + 1) cluster next
      end
  end.

Definition fat_set_next_cluster sb cluster next : fat_superblock * res unit :=
  set_copies (Z.to_nat (fat_count sb)) sb 0 cluster next.

(** The search for a free cluster, with [n] clusters left. *)
Fixpoint search (n : nat) sb cluster : option (fat_superblock * Z) :=
  match n with
  | O => Some (set_hint sb (u32 (data_clusters sb + 2)), fat_eof sb)
  | S n =>
      v ← fat_get_next_cluster sb cluster;
      if v =? FAT_FREE then Some (set_hint sb (u32 (cluster + 1)), cluster)
      else search n sb (u32 (cluster + 1))
  end.

Definition fat_allocate_cluster sb : option (fat_superblock * Z) :=
  let cluster := cluster_search_hint sb in
  let cluster := if (u32 (data_clusters sb + 2) <? cluster) || (cluster <? 2) then 2 else cluster in
  search (Z.to_nat (u32 (data_clusters sb + 2) - cluster)) sb cluster.

Definition fat_free_cluster sb cluster : fat_superblock * res unit :=
  let sb := if cluster <? cluster_search_hint sb then set_hint sb cluster else sb in
  fat_set_next_cluster sb cluster FAT_FREE.

(** ** Chains *)

Definition ends sb cluster : bool := (cluster =? fat_eof sb) || (cluster =? FAT_FREE).

(** The cluster [number] places behind the first. *)
Fixpoint get_cluster sb (number : nat) cluster : option Z :=
  match number with
  | O => Some cluster
  | S number =>
      if ends sb cluster then Some cluster
      else v ← fat_get_next_cluster sb cluster; get_cluster sb number v
  end.

(** What the operations on clusters use of an inode: the first cluster, and whether it
    changed. *)
Record chain_head := mk_head { first_cluster : Z; data_dirty : bool }.
Implicit Types (inode : chain_head).

Definition fat_get_cluster sb inode (number : Z) : option Z :=
  get_cluster sb (Z.to_nat number) (first_cluster inode).

Definition fat_set_cluster sb inode (prev cluster : Z) : fat_superblock * chain_head * res unit :=
  if prev =? 0 then (sb, mk_head cluster true, Ok tt)
  else if ends sb prev then (sb, inode, Err EIO)
  else let '(sb, r) := fat_set_next_cluster sb prev cluster in (sb, inode, r).

(** Freeing the clusters of a chain, [n] at most: the superblock and the cluster reached. *)
Fixpoint free_chain (n : nat) sb cluster : option (fat_superblock * Z) :=
  match n with
  | O => Some (sb, cluster)
  | S n =>
      if ends sb cluster then Some (sb, cluster)
      else
        next ← fat_get_next_cluster sb cluster;
        free_chain n (fat_free_cluster sb cluster).1 next
  end.

Definition fat_shrink sb inode (current_clusters_count new_clusters_count : Z)
    : option (fat_superblock * chain_head * res unit) :=
  if new_clusters_count <? current_clusters_count then
    cluster ← fat_get_cluster sb inode new_clusters_count;
    '(sb, _) ← free_chain (Z.to_nat (current_clusters_count - new_clusters_count)) sb cluster;
    Some (fat_set_cluster sb inode (u32 new_clusters_count) (fat_eof sb))
  else None.

(** The allocation of [n] clusters, each in front of the last. *)
Fixpoint fat_grow_loop (n : nat) sb cluster : option (fat_superblock * res Z) :=
  match n with
  | O => Some (sb, Ok cluster)
  | S n =>
      '(sb, new_cluster) ← fat_allocate_cluster sb;
      if new_cluster =? fat_eof sb then Some (sb, Err ENOSPC)
      else fat_grow_loop n (fat_set_next_cluster sb new_cluster cluster).1 new_cluster
  end.

Definition fat_grow sb inode (prev count : Z) : option (fat_superblock * chain_head * res unit) :=
  if 0 <? count then
    '(sb, r) ← fat_grow_loop (Z.to_nat count) sb (fat_eof sb);
    match r with
    | Err e => Some (sb, inode, Err e)
    | Ok cluster => Some (fat_set_cluster sb inode prev cluster)
    end
  else None.

Definition fat_free_clusters sb inode : option fat_superblock :=
  '(sb, _) ← free_chain (Z.to_nat 10000) sb (first_cluster inode); Some sb.

(** [fat_truncate] without the cache: the last cluster of the file and the number found.  The
    number of the clusters of the old size is computed in 32 bits. *)
Fixpoint last_loop (n : nat) sb (i last_cluster cluster : Z) : option (Z * Z) :=
  match n with
  | O => Some (last_cluster, i)
  | S n =>
      if cluster =? fat_eof sb then Some (last_cluster, i)
      else v ← fat_get_next_cluster sb cluster; last_loop n sb (i + 1) cluster v
  end.

Definition clusters_of_file sb (file_size : Z) : Z :=
  u32 (u32 (file_size + cluster_size sb) - 1) / cluster_size sb.
Definition clusters_of_size sb (size : Z) : Z := ((size +! cluster_size sb) -! 1) / cluster_size sb.

(** The superblock, the inode and its new size; errors of the two halves are dropped. *)
Definition fat_truncate sb inode (file_size size : Z) : option (fat_superblock * chain_head * Z) :=
  let new_clusters_count := clusters_of_size sb size in
  '(last_cluster, current_clusters_count) ←
    last_loop (Z.to_nat (clusters_of_file sb file_size)) sb 0 0 (first_cluster inode);
  if new_clusters_count <? current_clusters_count then
    '(sb, inode, _) ← fat_shrink sb inode current_clusters_count new_clusters_count;
    Some (sb, inode, u32 size)
  else if current_clusters_count <? new_clusters_count then
    '(sb, inode, _) ← fat_grow sb inode last_cluster (new_clusters_count - current_clusters_count);
    Some (sb, inode, u32 size)
  else Some (sb, inode, u32 size).

(** ** The data of files *)

(** The page [page], of the bytes from [offset] on, is read from the clusters or written to
    them, in chunks that end with a cluster; [count] bytes are done.  A read that comes back
    with fewer bytes has filled the front of its chunk. *)
Fixpoint transfer_loop (fuel : nat) (write : bool) sb (offset file_size : Z) (page : list Z)
    (cluster cluster_offset count : Z) : option (fat_superblock * list Z * res unit) :=
  if count <? PAGE_SIZE then
    match fuel with
    | O => None
    | S fuel =>
        let chunk_size := Z.min (PAGE_SIZE - count) (cluster_size sb - cluster_offset) in
        if cluster =? fat_eof sb then
          if file_size <? offset + PAGE_SIZE then
            Some (sb, takeZ count page ++ replicate (Z.to_nat (PAGE_SIZE - count)) 0, Ok tt)
          else Some (sb, page, Err EIO)
        else
          start ← fat_cluster2offset sb cluster;
          let '(sb, page, ret) :=
            if write then
              let '(d, ret) := vfs_write (device sb) (start + cluster_offset) (sliceZ count chunk_size page) in
              (set_device sb d, page, ret)
            else
              match vfs_read (device sb) (start + cluster_offset) chunk_size with
              | Ok bs => (sb, blit count bs page, Ok (lenZ bs))
              | Err e => (sb, page, Err e)
              end in
          match ret with
          | Err e => Some (sb, page, Err e)
          | Ok n =>
              if negb (n =? chunk_size) then Some (sb, page, Err EIO)
              else
                let cluster_offset := cluster_offset + chunk_size in
                let count := count + chunk_size in
                if cluster_offset =? cluster_size sb then
                  next ← fat_get_next_cluster sb cluster;
                  transfer_loop fuel write sb offset file_size page next 0 count
                else transfer_loop fuel write sb offset file_size page cluster cluster_offset count
          end
    end
  else Some (sb, page, Ok tt).

(** One page of [fat_transfer_pages]. *)
Definition fat_transfer_page (write : bool) sb inode (offset file_size : Z) (page : list Z)
    : option (fat_superblock * list Z * res unit) :=
  cluster ← fat_get_cluster sb inode (u32 (offset / cluster_size sb));
  if cluster =? fat_eof sb then Some (sb, page, Err EIO)
  else
    transfer_loop (Z.to_nat PAGE_SIZE) write sb offset file_size page cluster
      (offset mod cluster_size sb) 0.

(** The pages of a batch, each with its offset; it stops at the first error. *)
Fixpoint fat_transfer_pages (write : bool) sb inode (file_size : Z) (batch : list (Z * list Z))
    : option (fat_superblock * list (Z * list Z) * res unit) :=
  match batch with
  | [] => Some (sb, [], Ok tt)
  | (offset, page) :: batch =>
      '(sb, page, ret) ← fat_transfer_page write sb inode offset file_size page;
      match ret with
      | Err e => Some (sb, (offset, page) :: batch, Err e)
      | Ok _ =>
          '(sb, batch, ret) ← fat_transfer_pages write sb inode file_size batch;
          Some (sb, (offset, page) :: batch, ret)
      end
  end.

(** ** Mounting *)

(** The boot sector: its fields at their offsets. *)
Definition field (bs : list Z) (off n : Z) : Z := le_val (sliceZ off n bs).

Definition byte_per_sector (bpb : list Z) : Z := field bpb 11 2.
Definition sector_per_cluster (bpb : list Z) : Z := field bpb 13 1.
Definition bpb_reserved_sectors (bpb : list Z) : Z := field bpb 14 2.
Definition bpb_fat_count (bpb : list Z) : Z := field bpb 16 1.
Definition root_entires_count (bpb : list Z) : Z := field bpb 17 2.
Definition sectors_count16 (bpb : list Z) : Z := field bpb 19 2.
Definition sectors_per_fat16 (bpb : list Z) : Z := field bpb 22 2.
Definition sectors_count32 (bpb : list Z) : Z := field bpb 32 4.
Definition sectors_per_fat32 (bpb : list Z) : Z := field bpb 36 4.
Definition version (bpb : list Z) : Z := field bpb 42 2.
Definition root_cluster (bpb : list Z) : Z := field bpb 44 4.
Definition fs_type16 (bpb : list Z) : list Z := sliceZ 54 8 bpb.
Definition fs_type32 (bpb : list Z) : list Z := sliceZ 82 8 bpb.
Definition signature (bpb : list Z) : Z := field bpb 510 2.

(** The names of the types in ASCII. *)
Definition MSWIN : list Z := [77; 83; 87; 73; 78; 32; 32; 32].
Definition FAT32_ : list Z := [70; 65; 84; 51; 50; 32; 32; 32].
Definition MSDOS : list Z := [77; 83; 68; 79; 83; 32; 32; 32].
Definition FAT16_ : list Z := [70; 65; 84; 49; 54; 32; 32; 32].
Definition FAT12_ : list Z := [70; 65; 84; 49; 50; 32; 32; 32].
Definition FAT_ : list Z := [70; 65; 84; 32; 32; 32; 32; 32].

Definition fat_probe (source : D) : bool :=
  match vfs_read source 0 512 with
  | Err _ => false
  | Ok bpb =>
      if lenZ bpb <? 512 then false
      else if negb (signature bpb =? 0xaa55) then false
      else bool_decide (fs_type32 bpb ∈ [MSWIN; FAT32_]) ||
        bool_decide (fs_type16 bpb ∈ [MSDOS; FAT16_; FAT12_; FAT_])
  end.

(** Numbers of sectors, in 32 bits. *)
Definition root_sectors (bpb : list Z) : Z :=
  u16 ((root_entires_count bpb * 32 + byte_per_sector bpb - 1) / byte_per_sector bpb).
Definition fat_sectors (bpb : list Z) : Z :=
  if negb (sectors_per_fat16 bpb =? 0) then sectors_per_fat16 bpb else sectors_per_fat32 bpb.
Definition sectors_count (bpb : list Z) : Z :=
  if negb (sectors_count16 bpb =? 0) then sectors_count16 bpb else sectors_count32 bpb.
Definition meta_sectors (bpb : list Z) : Z :=
  u32 (bpb_reserved_sectors bpb + bpb_fat_count bpb * fat_sectors bpb + root_sectors bpb).
Definition bpb_data_clusters (bpb : list Z) : Z :=
  u32 (sectors_count bpb - meta_sectors bpb) / sector_per_cluster bpb.

Definition type_of_clusters (n : Z) : fat_types :=
  if n <? 4085 then FAT12 else if n <? 65525 then FAT16 else FAT32.

(** The root directory: a chain on FAT32, a table of entries on the others. *)
Inductive fat_root := Root_chain (cluster : Z) | Root_table (start entries_count : Z).

Definition fat_mount (source : D) : res (fat_superblock * fat_root) :=
  match vfs_read source 0 512 with
  | Err _ => Err EFTYPE
  | Ok bpb =>
      if negb (lenZ bpb =? 512) then Err EFTYPE
      else if negb (signature bpb =? 0xaa55) then Err EFTYPE
      else if (byte_per_sector bpb <? 512) || (sector_per_cluster bpb =? 0) then Err EFTYPE
      else
        let ty := type_of_clusters (bpb_data_clusters bpb) in
        if bool_decide (ty = FAT32) && negb (version bpb =? 0) then Err EFTYPE
        else
          let sb := mk_superblock source ty (bpb_reserved_sectors bpb) (byte_per_sector bpb) 0
            (byte_per_sector bpb * sector_per_cluster bpb) (bpb_data_clusters bpb) 0 (bpb_fat_count bpb)
            (u32 (meta_sectors bpb * byte_per_sector bpb)) in
          Ok (sb, match ty with
                  | FAT32 => Root_chain (root_cluster bpb)
                  | _ => Root_table (u32 ((bpb_reserved_sectors bpb + bpb_fat_count bpb * fat_sectors bpb) * byte_per_sector bpb))
                           (root_entires_count bpb)
                  end)
  end.

End fat.
Arguments fat_superblock D : clear implicits.

(** * The table as a function *)

(** Writing the same bytes at several offsets. *)
Definition blits (bs : list Z) (offs : list Z) (l : list Z) : list Z :=
  foldl (fun l off => blit off bs l) l offs.

Definition apart (off n off' : Z) : Prop := off + n <= off' \/ off' + n <= off.

Lemma lenZ_blits bs offs l : lenZ (blits bs offs l) = lenZ l.
Proof. revert l. induction offs as [|o offs IH]; intros l; simpl; [done|]. by rewrite IH, lenZ_blit. Qed.

Lemma blits_byte bs offs l : Forall is_byte bs -> Forall is_byte l -> Forall is_byte (blits bs offs l).
Proof. revert l. induction offs as [|o offs IH]; intros l; simpl; [done|]. auto using Forall_blit. Qed.

Lemma blits_other bs offs l off n :
  0 <= off -> 0 <= n -> Forall (fun o => 0 <= o /\ (off + n <= o \/ o + lenZ bs <= off)) offs ->
  sliceZ off n (blits bs offs l) = sliceZ off n l.
Proof.
  intros Hoff Hn Hall. revert l. induction Hall as [|o offs [Ho Ha] _ IH]; intros l; simpl; [done|].
  rewrite IH. apply sliceZ_blit_other; lia.
Qed.

Lemma blits_same bs offs l off :
  off ∈ offs -> Forall (fun o => 0 <= o /\ o + lenZ bs <= lenZ l /\ (o = off \/ apart off (lenZ bs) o)) offs ->
  sliceZ off (lenZ bs) (blits bs offs l) = bs.
Proof.
  revert l. induction offs as [|o offs IH]; intros l Hin Hall; [by apply not_elem_of_nil in Hin|].
  apply Forall_cons in Hall as [(Ho & Hl & Hoo) Hall]. simpl.
  destruct (decide (off ∈ offs)) as [Hin'|Hni].
  - apply IH; [done|]. by rewrite lenZ_blit.
  - apply elem_of_cons in Hin as [->|]; [|done].
    rewrite blits_other; [by apply sliceZ_blit_same|done|apply lenZ_nonneg|].
    rewrite Forall_forall in Hall |- *. intros o' Ho'. destruct (Hall _ Ho') as (? & ? & [->|Ha]); [done|].
    unfold apart in Ha. lia.
Qed.

Section volume.
Context {D : Type} `{DeviceLaws D}.
Implicit Types (sb : fat_superblock D) (cluster : Z).

Definition width sb : Z := match fat_type sb with FAT12 => 3 | FAT16 => 2 | FAT32 => 4 end.
Definition table_start sb : Z := reserved_sectors sb * sector_size sb.
Definition fat_bytes sb : Z := sectors_per_fat sb * sector_size sb.
Definition table_size sb : Z := width sb * (data_clusters sb + 2).

(** A volume whose parts are where the superblock says, all below 4 GiB: the tables in
    front of the data, the data on the device.  [sectors_per_fat] is 0 after a mount. *)
Record wf sb : Prop := {
  wf_type : fat_type sb <> FAT12;
  wf_nonneg : 0 <= reserved_sectors sb /\ 0 <= sector_size sb /\ 0 <= sectors_per_fat sb /\
    0 <= data_clusters sb /\ 1 <= fat_count sb;
  wf_table : table_start sb + table_size sb <= data_start sb < 2 ^ 32;
  wf_copies : sectors_per_fat sb = 0 \/
    table_size sb <= fat_bytes sb /\ table_start sb + fat_count sb * fat_bytes sb <= data_start sb;
  wf_data : data_start sb + data_clusters sb * cluster_size sb <= lenZ (contents (device sb));
  wf_size : 0 < cluster_size sb < 2 ^ 32 /\ data_clusters sb * cluster_size sb < 2 ^ 32;
  wf_clusters : data_clusters sb + 2 <= fat_eof sb;
  wf_bytes : Forall is_byte (contents (device sb));
}.

Definition in_range sb cluster : Prop := 0 <= cluster < data_clusters sb + 2.

(** The offset of an entry in a copy of the table. *)
Definition entry_offset sb (copy cluster : Z) : Z :=
  table_start sb + copy * fat_bytes sb + width sb * cluster.

(** The table as a function. *)
Definition next_of sb cluster : Z :=
  let v := le_val (sliceZ (entry_offset sb 0 cluster) (width sb) (contents (device sb))) in
  if fat_eof sb <=? v then fat_eof sb else v.

Lemma entry_offset_bounds sb copy cluster :
  wf sb -> in_range sb cluster -> 0 <= copy < fat_count sb ->
  0 <= entry_offset sb copy cluster /\ entry_offset sb copy cluster + width sb <= data_start sb.
Proof.
  intros [Hty (Hr & Hs & Hp & Hc & Hf) Ht Hcp Hd Hsz Hcl Hb] Hin Hcopy.
  unfold in_range, entry_offset, table_size, fat_bytes in *.
  assert (0 <= table_start sb) by (unfold table_start; nia).
  assert (2 <= width sb) by (unfold width; destruct (fat_type sb); lia).
  destruct Hcp as [->|[? ?]]; nia.
Qed.

Lemma read_buffer_ok sb offset n :
  0 <= offset -> 0 <= n -> offset + n <= lenZ (contents (device sb)) ->
  read_buffer sb offset n = Some (sliceZ offset n (contents (device sb))).
Proof.
  intros. unfold read_buffer. rewrite vfs_read_ok by done. rewrite lenZ_sliceZ by done.
  by rewrite Z.eqb_refl.
Qed.

Lemma write_buffer_ok sb offset bs :
  0 <= offset -> offset + lenZ bs <= lenZ (contents (device sb)) ->
  exists d, write_buffer sb offset bs = (set_device sb d, Ok tt) /\
    contents d = blit offset bs (contents (device sb)).
Proof.
  intros Ho Hl. destruct (vfs_write_ok (device sb) offset bs Ho Hl) as (d & Hw & Hc).
  exists d. unfold write_buffer. rewrite Hw, Z.ltb_irrefl. done.
Qed.

Lemma u32_small z : 0 <= z < 2 ^ 32 -> u32 z = z.
Proof. apply Z.mod_small. Qed.

Lemma device_length sb : wf sb -> data_start sb <= lenZ (contents (device sb)).
Proof. intros [? ? ? ? ? [? ?] ? ?]. nia. Qed.

Lemma get_next sb cluster :
  wf sb -> in_range sb cluster -> fat_get_next_cluster sb cluster = Some (next_of sb cluster).
Proof.
  intros Hwf Hin. pose proof (entry_offset_bounds sb 0 cluster Hwf Hin) as Hoff.
  pose proof (device_length _ Hwf). destruct Hwf as [Hty (? & ? & ? & ? & Hf) Ht ? ? ? ? Hb].
  specialize (Hoff ltac:(lia)). unfold in_range in Hin.
  unfold fat_get_next_cluster, next_of, fat_eof, entry_offset, table_start, width in *.
  assert (0 <= reserved_sectors sb * sector_size sb) by nia.
  destruct (fat_type sb); [done| |].
  - rewrite !u32_small by (try rewrite u32_small; lia).
    replace (cluster * 2) with (0 * fat_bytes sb + 2 * cluster) by lia.
    rewrite Z.add_assoc, read_buffer_ok by lia. done.
  - rewrite !u32_small by (try rewrite u32_small; lia).
    replace (cluster * 4) with (0 * fat_bytes sb + 4 * cluster) by lia.
    rewrite Z.add_assoc, read_buffer_ok by lia. simpl.
    set (l := sliceZ _ _ _).
    assert (0 <= le_val l < 2 ^ 32).
    { change (2 ^ 32) with (256 ^ 4). replace 4 with (lenZ l); [|apply lenZ_sliceZ; lia].
      by apply le_val_bound, Forall_sliceZ. }
    f_equal. case_if; [done|]. rewrite (land_ones_mod _ _ 28) by done. apply Z.mod_small. lia.
Qed.

(** The bytes of an entry. *)
Definition entry_bytes sb (next : Z) : list Z := le_bytes (Z.to_nat (width sb)) next.

Lemma entry_bytes_len sb next : lenZ (entry_bytes sb next) = width sb.
Proof. unfold lenZ, entry_bytes. rewrite length_le_bytes. unfold width. destruct (fat_type sb); lia. Qed.

Lemma eof_pow sb : wf sb -> fat_eof sb < 256 ^ width sb.
Proof. intros Hwf. pose proof (wf_type _ Hwf). unfold fat_eof, width. by destruct (fat_type sb). Qed.

Lemma raw_set sb copy cluster next :
  wf sb -> in_range sb cluster -> 0 <= copy < fat_count sb -> 0 <= next <= fat_eof sb ->
  exists d, fat_raw_set_next_cluster sb ((reserved_sectors sb + sectors_per_fat sb * copy) *! sector_size sb) cluster next
      = (set_device sb d, Ok tt) /\
    contents d = blit (entry_offset sb copy cluster) (entry_bytes sb next) (contents (device sb)).
Proof.
  intros Hwf Hin Hcopy Hnext. pose proof (entry_offset_bounds sb copy cluster Hwf Hin Hcopy) as Hoff.
  pose proof (device_length _ Hwf). pose proof (entry_bytes_len sb next) as Hlen.
  destruct Hwf as [Hty (? & ? & ? & ? & Hf) Ht Hcp ? ? ? Hb]. unfold in_range in Hin.
  assert (Hbase : (reserved_sectors sb + sectors_per_fat sb * copy) *! sector_size sb =
    table_start sb + copy * fat_bytes sb).
  { unfold fat_bytes, table_start. rewrite u64_small; [lia|]. unfold is_u64.
    unfold entry_offset, fat_bytes, table_start, width in Hoff. split; [nia|].
    destruct (fat_type sb); nia. }
  rewrite Hbase. unfold fat_raw_set_next_cluster, entry_offset, width, entry_bytes, fat_eof, table_size in *.
  assert (0 <= table_start sb) by (unfold table_start; nia).
  destruct (fat_type sb) eqn:E; [done| |]; simpl Z.to_nat in *; unfold width in *; rewrite E in *;
    rewrite u32_small by lia; rewrite (Z.mul_comm cluster).
  - replace (u16 next) with next by (symmetry; apply Z.mod_small; lia).
    apply write_buffer_ok; lia.
  - rewrite (land_ones_mod _ _ 28), Z.mod_small by (done || lia).
    apply write_buffer_ok; lia.
Qed.

Lemma wf_set_device sb d :
  wf sb -> lenZ (contents d) = lenZ (contents (device sb)) -> Forall is_byte (contents d) ->
  wf (set_device sb d).
Proof. intros [] Hl Hb. split; try done. simpl. by rewrite Hl. Qed.

Lemma wf_set_hint sb h : wf sb -> wf (set_hint sb h).
Proof. intros []. by split. Qed.

Lemma set_copies_ok n sb i cluster next :
  wf sb -> in_range sb cluster -> 0 <= i -> i + Z.of_nat n <= fat_count sb -> 0 <= next <= fat_eof sb ->
  exists d, set_copies n sb i cluster next = (set_device sb d, Ok tt) /\
    contents d = blits (entry_bytes sb next)
      (map (fun copy => entry_offset sb copy cluster) (seqZ i (Z.of_nat n))) (contents (device sb)).
Proof.
  intros Hwf Hin Hi Hn Hnext. revert sb i Hwf Hin Hi Hn Hnext.
  induction n as [|n IH]; intros sb i Hwf Hin Hi Hn Hnext; simpl set_copies.
  - exists (device sb). by destruct sb.
  - destruct (raw_set sb i cluster next Hwf Hin ltac:(lia) Hnext) as (d & -> & Hd).
    destruct (IH (set_device sb d) (i + 1)) as (d' & Hs & Hd'); try done; try (simpl; lia).
    { apply wf_set_device; [done|by rewrite Hd, lenZ_blit|].
      rewrite Hd. apply Forall_blit; [apply le_bytes_byte|apply Hwf]. }
    exists d'. rewrite Hs. split; [done|]. rewrite Hd'. simpl device. rewrite Hd.
    rewrite (seqZ_cons i) by lia. replace (Z.pred (Z.of_nat (S n))) with (Z.of_nat n) by lia.
    by rewrite Z.add_1_r.
Qed.

(** Entries of different clusters, and the copies of one, do not overlap. *)
Lemma entry_apart sb copy cluster cluster' :
  wf sb -> in_range sb cluster -> in_range sb cluster' -> 0 <= copy < fat_count sb ->
  entry_offset sb copy cluster = entry_offset sb 0 cluster' /\ cluster = cluster' \/
  cluster = cluster' /\ apart (entry_offset sb 0 cluster') (width sb) (entry_offset sb copy cluster) \/
  cluster <> cluster' /\ apart (entry_offset sb 0 cluster') (width sb) (entry_offset sb copy cluster).
Proof.
  intros Hwf Hin Hin' Hcopy. destruct Hwf as [Hty (? & ? & ? & ? & Hf) Ht Hcp ? ? ? Hb].
  assert (2 <= width sb) by (unfold width; destruct (fat_type sb); lia).
  assert (Hcp' : fat_bytes sb = 0 \/ table_size sb <= fat_bytes sb).
  { destruct Hcp as [Hz|[Hsz _]]; [left; unfold fat_bytes; by rewrite Hz|by right]. }
  unfold in_range, apart, entry_offset, table_size in *.
  destruct (decide (cluster = cluster')) as [->|Hne].
  - destruct (decide (copy = 0)) as [->|]; [left; done|].
    destruct Hcp' as [->|Hsz]; [left; split; lia|]. right; left. split; [done|]. left. nia.
  - right; right. split; [done|]. destruct Hcp' as [->|Hsz].
    + destruct (decide (cluster < cluster')); nia.
    + destruct (decide (copy = 0)) as [->|]; [destruct (decide (cluster < cluster')); nia|].
      left. assert (width sb * (cluster' + 1) <= 1 * fat_bytes sb) by nia. nia.
Qed.

(** Nothing but the entries of [T] changed on the volume. *)
Record table_changes sb sb' (T : Z -> Prop) : Prop := {
  tc_same : sb' = set_hint (set_device sb (device sb')) (cluster_search_hint sb');
  tc_wf : wf sb';
  tc_next cluster : in_range sb cluster -> ~ T cluster -> next_of sb' cluster = next_of sb cluster;
  tc_data off n : data_start sb <= off -> 0 <= n ->
    sliceZ off n (contents (device sb')) = sliceZ off n (contents (device sb));
  tc_length : lenZ (contents (device sb')) = lenZ (contents (device sb));
}.

Lemma table_changes_refl sb T : wf sb -> table_changes sb sb T.
Proof. intros. split; try done. by destruct sb. Qed.

Lemma table_changes_trans sb sb1 sb2 (T T1 T2 : Z -> Prop) :
  table_changes sb sb1 T1 -> table_changes sb1 sb2 T2 -> (forall c, T1 c \/ T2 c -> T c) ->
  table_changes sb sb2 T.
Proof.
  intros [E1 W1 N1 D1 L1] [E2 W2 N2 D2 L2] HT. split.
  - rewrite E2, E1. done.
  - done.
  - intros c Hc Hn. rewrite N2, N1; auto. rewrite E1. done.
  - intros. rewrite D2, D1; auto. rewrite E1. done.
  - congruence.
Qed.

Lemma table_changes_hint sb h T : wf sb -> table_changes sb (set_hint sb h) T.
Proof. intros. split; try done. by apply wf_set_hint. Qed.

(** The geometry is that of the volume before. *)
Lemma tc_geometry sb sb' T :
  table_changes sb sb' T ->
  fat_eof sb' = fat_eof sb /\ data_clusters sb' = data_clusters sb /\ cluster_size sb' = cluster_size sb /\
  data_start sb' = data_start sb /\ fat_count sb' = fat_count sb /\ fat_type sb' = fat_type sb.
Proof. intros [-> _ _ _ _]. done. Qed.

(** Setting an entry changes that entry only, in the copy that is read. *)
Lemma set_next sb cluster next :
  wf sb -> in_range sb cluster -> 0 <= next <= fat_eof sb ->
  exists sb', fat_set_next_cluster sb cluster next = (sb', Ok tt) /\
    cluster_search_hint sb' = cluster_search_hint sb /\
    table_changes sb sb' (fun c => c = cluster) /\ next_of sb' cluster = next.
Proof.
  intros Hwf Hin Hnext.
  assert (Hfc : 1 <= fat_count sb) by (destruct Hwf; lia).
  destruct (set_copies_ok (Z.to_nat (fat_count sb)) sb 0 cluster next Hwf Hin) as (d & Hs & Hd);
    [lia|lia|done|]. rewrite Z2Nat.id in Hd by lia.
  exists (set_device sb d). split; [exact Hs|]. split; [done|].
  assert (Hcopies : Forall (fun o => exists copy, 0 <= copy < fat_count sb /\ o = entry_offset sb copy cluster)
    (map (fun copy => entry_offset sb copy cluster) (seqZ 0 (fat_count sb)))).
  { apply Forall_map, Forall_forall. intros x Hx%elem_of_seqZ. exists x. split; [lia|done]. }
  set (offs := map _ _) in *. rewrite Forall_forall in Hcopies.
  assert (Hlen : lenZ (contents d) = lenZ (contents (device sb))) by (by rewrite Hd, lenZ_blits).
  assert (Hother : forall off n, 0 <= off -> 0 <= n ->
    (forall copy, 0 <= copy < fat_count sb ->
      off + n <= entry_offset sb copy cluster \/ entry_offset sb copy cluster + width sb <= off) ->
    sliceZ off n (contents d) = sliceZ off n (contents (device sb))).
  { intros off n Ho Hn Hall. rewrite Hd. apply blits_other; [done|done|]. apply Forall_forall.
    intros o (copy & Hc & ->)%Hcopies. rewrite entry_bytes_len.
    destruct (entry_offset_bounds sb copy cluster Hwf Hin Hc). split; [done|auto]. }
  pose proof (device_length _ Hwf).
  assert (Hwf' : wf (set_device sb d)).
  { apply wf_set_device; [done|done|]. rewrite Hd. apply blits_byte; [apply le_bytes_byte|apply Hwf]. }
  split.
  - split; simpl; [by destruct sb|done| | |done].
    + intros c Hc Hne. unfold next_of. simpl.
      replace (sliceZ (entry_offset (set_device sb d) 0 c) (width (set_device sb d)) (contents d))
        with (sliceZ (entry_offset sb 0 c) (width sb) (contents (device sb))); [done|].
      symmetry. destruct (entry_offset_bounds sb 0 c Hwf Hc ltac:(lia)).
      apply Hother; [done|unfold width; destruct (fat_type sb); lia|].
      intros copy Hcopy. destruct (entry_apart sb copy cluster c) as [[? ->]|[[-> ?]|[? Ha]]]; try done.
    + intros off n Ho Hn. assert (0 <= data_start sb).
      { destruct (entry_offset_bounds sb 0 cluster Hwf Hin ltac:(lia)). unfold width in *. destruct (fat_type sb); lia. }
      apply Hother; [lia|done|]. intros copy Hcopy.
      destruct (entry_offset_bounds sb copy cluster Hwf Hin Hcopy). lia.
  - unfold next_of. simpl. change (entry_offset (set_device sb d) 0 cluster) with (entry_offset sb 0 cluster).
    change (width (set_device sb d)) with (width sb). change (fat_eof (set_device sb d)) with (fat_eof sb).
    rewrite Hd. rewrite <- (entry_bytes_len sb next). rewrite blits_same.
    + unfold entry_bytes. pose proof (eof_pow _ Hwf).
      rewrite le_val_bytes; [case_if; lia|]. rewrite Z2Nat.id; [lia|].
      unfold width. destruct (fat_type sb); lia.
    + unfold offs. apply (list_elem_of_fmap_2 (fun copy => entry_offset sb copy cluster)), elem_of_seqZ. lia.
    + apply Forall_forall. intros o (copy & Hc & ->)%Hcopies. rewrite entry_bytes_len.
      destruct (entry_offset_bounds sb copy cluster Hwf Hin Hc). split_and!; [lia|lia|].
      destruct (entry_apart sb copy cluster cluster) as [[? _]|[[_ ?]|[? _]]]; try done; auto.
Qed.

(** * Free clusters *)

Definition is_cluster sb cluster : Prop := 2 <= cluster < data_clusters sb + 2.
Definition is_free sb cluster : Prop := is_cluster sb cluster /\ next_of sb cluster = FAT_FREE.

(** No cluster below the hint is free. *)
Definition hint_ok sb : Prop :=
  0 <= cluster_search_hint sb <= data_clusters sb + 2 /\
  forall cluster, cluster < cluster_search_hint sb -> ~ is_free sb cluster.

Lemma cluster_in_range sb cluster : is_cluster sb cluster -> in_range sb cluster.
Proof. unfold is_cluster, in_range. lia. Qed.

Lemma cluster_bounds sb : wf sb -> 0 <= data_clusters sb /\ data_clusters sb + 2 <= fat_eof sb < 2 ^ 28.
Proof. intros [? (?&?&?&?&?) ? ? ? ? ? ?]. unfold fat_eof in *. destruct (fat_type sb); lia. Qed.

Lemma search_ok n sb cluster :
  wf sb -> 2 <= cluster -> cluster + Z.of_nat n = data_clusters sb + 2 ->
  exists h r, search n sb cluster = Some (set_hint sb h, r) /\
    (forall c, cluster <= c < h -> c <> r -> ~ is_free sb c) /\
    (r = fat_eof sb /\ h = data_clusters sb + 2 \/ is_free sb r /\ h = r + 1 /\ cluster <= r).
Proof.
  intros Hwf. pose proof (cluster_bounds _ Hwf). revert cluster.
  induction n as [|n IH]; intros cluster Hc Hn; simpl search.
  - rewrite u32_small by lia. exists (data_clusters sb + 2), (fat_eof sb). split_and!; [done|lia|by left].
  - rewrite get_next by (done || unfold in_range; lia). simpl. case_if.
    + rewrite u32_small by lia. exists (cluster + 1), cluster. split_and!; [done|lia|].
      right. unfold is_free, is_cluster. split_and!; (done || lia).
    + rewrite u32_small by lia. destruct (IH (cluster + 1)) as (h & r & -> & Hf & Hr); [lia|lia|].
      exists h, r. split_and!; [done| |destruct Hr as [?|(?&?&?)]; [by left|right; split_and!; (done || lia)]].
      intros c Hb Hne [? ?]. destruct (decide (c = cluster)) as [->|]; [done|].
      apply (Hf c); [lia|done|done].
Qed.

Lemma allocate_ok sb :
  wf sb -> hint_ok sb ->
  exists h r, fat_allocate_cluster sb = Some (set_hint sb h, r) /\
    0 <= h <= data_clusters sb + 2 /\
    (forall c, c < h -> c <> r -> ~ is_free sb c) /\
    (r = fat_eof sb /\ (forall c, ~ is_free sb c) \/ is_free sb r).
Proof.
  intros Hwf [Hh Hno]. pose proof (cluster_bounds _ Hwf). unfold fat_allocate_cluster.
  rewrite u32_small by lia.
  assert (Hstart : exists start, 2 <= start <= data_clusters sb + 2 /\
    (if (data_clusters sb + 2 <? cluster_search_hint sb) || (cluster_search_hint sb <? 2) then 2
     else cluster_search_hint sb) = start /\ forall c, c < start -> ~ is_free sb c).
  { case_if; eexists; (split; [|split; [done|]]).
    - lia.
    - intros c Hc [? _]. unfold is_cluster in *. lia.
    - lia.
    - done. }
  destruct Hstart as (start & Hs & -> & Hbelow).
  destruct (search_ok (Z.to_nat (data_clusters sb + 2 - start)) sb start Hwf) as (h & r & -> & Hf & Hr);
    [lia|lia|]. exists h, r. split; [done|].
  assert (Hall : forall c, c < h -> c <> r -> ~ is_free sb c).
  { intros c Hc Hne. destruct (decide (c < start)); [auto|apply Hf; [lia|done]]. }
  destruct Hr as [[-> ->]|(Hr & -> & Hle)].
  - split_and!; try done; [lia|]. left. split; [done|]. intros c Hc.
    pose proof (proj1 Hc) as Hb. unfold is_cluster in Hb. by apply (Hall c); [lia|lia|].
  - pose proof (proj1 Hr) as Hb. unfold is_cluster in Hb. split_and!; try done; [lia|lia|by right].
Qed.

(** * Chains *)

(** The clusters from [cluster] on, up to [stop]. *)
Fixpoint segment sb cluster (l : list Z) (stop : Z) : Prop :=
  match l with
  | [] => cluster = stop
  | c :: l => c = cluster /\ is_cluster sb cluster /\ segment sb (next_of sb cluster) l stop
  end.

Definition chain sb cluster (l : list Z) : Prop := segment sb cluster l (fat_eof sb).

Lemma segment_app sb c l1 l2 e :
  segment sb c (l1 ++ l2) e <-> exists m, segment sb c l1 m /\ segment sb m l2 e.
Proof.
  revert c. induction l1 as [|x l1 IH]; intros c; simpl; [naive_solver|]. rewrite IH. naive_solver.
Qed.

Lemma segment_cluster sb c l e x : segment sb c l e -> x ∈ l -> is_cluster sb x.
Proof.
  revert c. induction l as [|y l IH]; intros c; simpl; [by intros _ ?%not_elem_of_nil|].
  intros (-> & Hc & Hl) [->|Hin]%elem_of_cons; eauto.
Qed.

Lemma not_eof sb c : wf sb -> is_cluster sb c -> c <> fat_eof sb /\ c <> FAT_FREE.
Proof. intros Hwf Hc. pose proof (cluster_bounds _ Hwf). unfold is_cluster, FAT_FREE in *. lia. Qed.

Lemma chain_det sb c l l' : wf sb -> chain sb c l -> chain sb c l' -> l = l'.
Proof.
  unfold chain. intros Hwf. revert c l'.
  induction l as [|x l IH]; intros c [|y l'] Hl Hl'; simpl in *.
  - done.
  - subst. destruct Hl' as (_ & Hc & _). by apply not_eof in Hc as [? _].
  - subst. destruct Hl as (_ & Hc & _). by apply not_eof in Hc as [? _].
  - destruct Hl as (-> & _ & Hl), Hl' as (-> & _ & Hl'). f_equal. eauto.
Qed.

(** A chain that ends does not visit a cluster twice. *)
Lemma chain_nodup sb c l : wf sb -> chain sb c l -> NoDup l.
Proof.
  intros Hwf. revert c. induction l as [|x l IH]; intros c Hl; [constructor|].
  pose proof Hl as (-> & _ & Hl'). constructor; [|by eapply IH].
  intros (l1 & l2 & ->)%list_elem_of_split.
  pose proof Hl as (m & _ & Hm)%(segment_app sb c (c :: l1) (c :: l2)).
  pose proof Hm as (-> & _). pose proof (chain_det _ _ _ _ Hwf Hl Hm) as Heq.
  apply (f_equal length) in Heq. simpl in Heq. rewrite length_app in Heq. simpl in Heq. lia.
Qed.

Lemma chain_used sb c l x : wf sb -> chain sb c l -> x ∈ l -> ~ is_free sb x.
Proof.
  intros Hwf. pose proof (cluster_bounds _ Hwf). revert c.
  induction l as [|y l IH]; intros c Hl Hx; [by apply not_elem_of_nil in Hx|].
  destruct Hl as (-> & Hc & Hl). apply elem_of_cons in Hx as [->|Hx]; [|by eapply IH].
  intros [_ Hf]. rewrite Hf in Hl. unfold FAT_FREE in Hl. destruct l as [|z l]; simpl in Hl; [lia|].
  destruct Hl as (_ & Hz & _). unfold is_cluster in Hz. lia.
Qed.

(** A chain does not change with entries outside of it. *)
Lemma segment_change sb sb' T c l e :
  table_changes sb sb' T -> (forall x, x ∈ l -> ~ T x) -> segment sb c l e -> segment sb' c l e.
Proof.
  intros Htc. pose proof (tc_geometry _ _ _ Htc) as (_ & Hdc & _).
  revert c. induction l as [|x l IH]; intros c Hout; simpl; [done|]. intros (-> & Hc & Hl).
  split_and!; [done|unfold is_cluster in *; lia|]. rewrite (tc_next _ _ _ Htc).
  - apply IH; [|done]. intros y Hy. apply Hout. set_solver.
  - by apply cluster_in_range.
  - apply Hout. set_solver.
Qed.

Lemma chain_change sb sb' T c l :
  table_changes sb sb' T -> (forall x, x ∈ l -> ~ T x) -> chain sb c l -> chain sb' c l.
Proof.
  intros Htc. unfold chain. destruct (tc_geometry _ _ _ Htc) as [-> _]. by apply segment_change.
Qed.

Lemma is_free_change sb sb' T x :
  table_changes sb sb' T -> ~ T x -> is_free sb' x <-> is_free sb x.
Proof.
  intros Htc Hx. pose proof (tc_geometry _ _ _ Htc) as (_ & Hdc & _).
  unfold is_free, is_cluster. rewrite Hdc. split; intros [Hc Hn]; (split; [done|]).
  - rewrite <- (tc_next _ _ _ Htc); [done|by apply cluster_in_range|done].
  - rewrite (tc_next _ _ _ Htc); [done|by apply cluster_in_range|done].
Qed.

(** [fat_get_cluster] gives the cluster at an index of the chain, or the end. *)
Lemma get_cluster_chain sb c l n :
  wf sb -> chain sb c l -> get_cluster sb n c = Some (default (fat_eof sb) (l !! n)).
Proof.
  intros Hwf. revert c l. induction n as [|n IH]; intros c l Hl; simpl.
  - destruct l; simpl in *; [by rewrite Hl|]. destruct Hl as (-> & _). done.
  - unfold ends. destruct l as [|x l].
    + unfold chain in Hl. simpl in Hl. subst c. by rewrite Z.eqb_refl.
    + destruct Hl as (-> & Hc & Hl). pose proof (not_eof _ _ Hwf Hc) as [? ?].
      rewrite (proj2 (Z.eqb_neq _ _)), (proj2 (Z.eqb_neq _ _)) by done. simpl.
      rewrite get_next by (done || by apply cluster_in_range). simpl. by apply IH.
Qed.

(** * Freeing *)

(** Freeing lowers the hint when it has to. *)
Lemma free_cluster_ok sb c :
  wf sb -> hint_ok sb -> is_cluster sb c ->
  exists sb', fat_free_cluster sb c = (sb', Ok tt) /\ hint_ok sb' /\
    table_changes sb sb' (fun x => x = c) /\ next_of sb' c = FAT_FREE.
Proof.
  intros Hwf [Hh Hno] Hc. pose proof (cluster_bounds _ Hwf). unfold fat_free_cluster.
  set (sb1 := if c <? cluster_search_hint sb then set_hint sb c else sb).
  assert (Hsb1 : table_changes sb sb1 (fun _ => False) /\ wf sb1 /\
    0 <= cluster_search_hint sb1 <= c /\ cluster_search_hint sb1 <= cluster_search_hint sb).
  { unfold is_cluster in Hc. unfold sb1. case_if; simpl.
    - split_and!; [by apply table_changes_hint|by apply wf_set_hint|lia|lia|lia].
    - split_and!; [by apply table_changes_refl|done|lia|lia|lia]. }
  destruct Hsb1 as (Htc1 & Hwf1 & Hh1 & Hle).
  pose proof (tc_geometry _ _ _ Htc1) as (_ & Hdc & _).
  assert (Hc1 : is_cluster sb1 c) by (unfold is_cluster in *; lia).
  destruct (set_next sb1 c FAT_FREE Hwf1) as (sb' & Hs & Hhint & Htc & Hn);
    [by apply cluster_in_range|unfold FAT_FREE; pose proof (cluster_bounds _ Hwf1); lia|].
  exists sb'. split; [done|].
  assert (Htc' : table_changes sb sb' (fun x => x = c)) by (eapply table_changes_trans; [done|done|naive_solver]).
  pose proof (tc_geometry _ _ _ Htc') as (_ & Hdc' & _).
  split; [|done]. split.
  - rewrite Hhint, Hdc'. unfold is_cluster in Hc. lia.
  - intros x Hx. rewrite Hhint in Hx. rewrite (is_free_change _ _ _ _ Htc') by lia. apply Hno. lia.
Qed.

Lemma free_chain_ok n sb c l :
  wf sb -> hint_ok sb -> chain sb c l ->
  exists sb', free_chain n sb c = Some (sb', default (fat_eof sb) (l !! n)) /\ hint_ok sb' /\
    table_changes sb sb' (fun x => x ∈ take n l) /\
    Forall (fun x => next_of sb' x = FAT_FREE) (take n l).
Proof.
  revert sb c l. induction n as [|n IH]; intros sb c l Hwf Hh Hl; simpl free_chain.
  - exists sb. split_and!; [|done|by apply table_changes_refl|constructor].
    destruct l; simpl in *; [by rewrite Hl|]. destruct Hl as (-> & _). done.
  - unfold ends. destruct l as [|x l].
    { unfold chain in Hl. simpl in Hl. subst c. rewrite Z.eqb_refl. simpl.
      exists sb. split_and!; [done|done|by apply table_changes_refl|constructor]. }
    pose proof (chain_nodup _ _ _ Hwf Hl) as [Hx Hnd]%NoDup_cons.
    destruct Hl as (-> & Hc & Hl). pose proof (not_eof _ _ Hwf Hc) as [? ?].
    rewrite (proj2 (Z.eqb_neq _ _)), (proj2 (Z.eqb_neq _ _)) by done. simpl.
    rewrite get_next by (done || by apply cluster_in_range). simpl.
    destruct (free_cluster_ok sb c Hwf Hh Hc) as (sb1 & -> & Hh1 & Htc1 & Hn1). simpl.
    destruct (IH sb1 (next_of sb c) l) as (sb' & Hf & Hh' & Htc & Hn); [apply Htc1|done| |].
    { eapply chain_change; [done| |done]. intros y Hy ->. done. }
    pose proof (tc_geometry _ _ _ Htc1) as (He & Hdc & _). rewrite He in Hf.
    exists sb'. split_and!; [done|done| |].
    + eapply table_changes_trans; [done|done|]. intros y; simpl; set_solver.
    + constructor; [|done]. rewrite (tc_next _ _ _ Htc); [done| |].
      * apply cluster_in_range. unfold is_cluster in *. lia.
      * intros Hin. apply Hx. by eapply subseteq_take.
Qed.

(** * Growing *)

#[local] Instance is_free_dec sb cluster : Decision (is_free sb cluster).
Proof. unfold is_free, is_cluster. apply _. Defined.

(** The free clusters, in order. *)
Definition free_list sb : list Z := filter (is_free sb) (seqZ 2 (data_clusters sb)).

Lemma elem_of_free_list sb x : x ∈ free_list sb <-> is_free sb x.
Proof.
  unfold free_list. rewrite list_elem_of_filter, elem_of_seqZ. unfold is_free, is_cluster. 
  split; [tauto|]. intros [? ?]. split; [done|lia].
Qed.

Lemma free_list_nodup sb : NoDup (free_list sb).
Proof. apply NoDup_filter, NoDup_seqZ. Qed.

Lemma free_list_take sb sb' r :
  table_changes sb sb' (fun x => x = r) -> is_free sb r -> ~ is_free sb' r ->
  length (free_list sb) = S (length (free_list sb')).
Proof.
  intros Htc Hr Hr'. apply (Permutation_length (l := free_list sb) (l' := r :: free_list sb')).
  apply NoDup_Permutation; [apply free_list_nodup|constructor; [|apply free_list_nodup]|].
  - by rewrite elem_of_free_list.
  - intros x. rewrite elem_of_cons, !elem_of_free_list. destruct (decide (x = r)) as [->|Hne]; [tauto|].
    rewrite (is_free_change _ _ _ _ Htc Hne). tauto.
Qed.

(** One turn of the loop: a free cluster is put in front of the chain. *)
Lemma grow_turn sb c l :
  wf sb -> hint_ok sb -> chain sb c l ->
  (exists h, fat_allocate_cluster sb = Some (set_hint sb h, fat_eof sb) /\ hint_ok (set_hint sb h) /\
     free_list sb = []) \/
  exists h r sb', fat_allocate_cluster sb = Some (set_hint sb h, r) /\ is_free sb r /\
    (fat_set_next_cluster (set_hint sb h) r c).1 = sb' /\ hint_ok sb' /\ chain sb' r (r :: l) /\
    table_changes sb sb' (fun x => x = r) /\ length (free_list sb) = S (length (free_list sb')).
Proof.
  intros Hwf Hh Hl. pose proof (cluster_bounds _ Hwf).
  destruct (allocate_ok sb Hwf Hh) as (h & r & Ha & Hhb & Hno & [[-> Hnone]|Hr]).
  - left. exists h. split; [done|]. split.
    + split; [done|]. intros x _ Hx. by apply (Hnone x).
    + destruct (free_list sb) as [|x ?] eqn:E; [done|]. destruct (Hnone x).
      apply elem_of_free_list. rewrite E. set_solver.
  - right. exists h, r. pose proof (proj1 Hr) as Hrc.
    assert (Hcv : c = fat_eof sb \/ is_cluster sb c).
    { destruct l as [|x l]; [by left|]. destruct Hl as (_ & ? & _). by right. }
    assert (Hc0 : 0 < c <= fat_eof sb) by (unfold is_cluster in Hcv; lia).
    destruct (set_next (set_hint sb h) r c) as (sb' & -> & Hhint & Htc & Hn);
      [by apply wf_set_hint|by apply cluster_in_range|change (0 <= c <= fat_eof sb); lia|].
    exists sb'. assert (Htc' : table_changes sb sb' (fun x => x = r)).
    { eapply (table_changes_trans _ _ _ _ (fun _ => False)); [by apply table_changes_hint|done|naive_solver]. }
    pose proof (tc_geometry _ _ _ Htc') as (He & Hdc & _).
    assert (Hr' : ~ is_free sb' r) by (intros [_ Hf]; rewrite Hn in Hf; unfold FAT_FREE in Hf; lia).
    do 3 (split; [done|]). split; [|split; [|split; [done|by apply free_list_take with r]]].
    + split; [rewrite Hhint, Hdc; simpl; lia|].
      intros x Hx. rewrite Hhint in Hx. simpl in Hx. destruct (decide (x = r)) as [->|Hne]; [done|].
      rewrite (is_free_change _ _ _ _ Htc' Hne). by apply Hno.
    + split; [done|]. split; [unfold is_cluster in *; lia|]. rewrite Hn.
      eapply chain_change; [done| |done]. intros x Hx ->. by eapply chain_used in Hx.
Qed.

(** The loop allocates the clusters and links them in front of the chain, or stops when
    every cluster is in use. *)
Lemma grow_loop_ok n sb c l :
  wf sb -> hint_ok sb -> chain sb c l ->
  (exists sb' c' new, fat_grow_loop n sb c = Some (sb', Ok c') /\ length new = n /\
     Forall (is_free sb) new /\ hint_ok sb' /\ chain sb' c' (new ++ l) /\
     table_changes sb sb' (fun x => x ∈ new)) \/
  (exists sb' lost, fat_grow_loop n sb c = Some (sb', Err ENOSPC) /\ (length (free_list sb) < n)%nat /\
     Forall (is_free sb) lost /\ hint_ok sb' /\ table_changes sb sb' (fun x => x ∈ lost)).
Proof.
  revert sb c l. induction n as [|n IH]; intros sb c l Hwf Hh Hl; simpl fat_grow_loop.
  { left. exists sb, c, []. conjs; try done. by apply table_changes_refl. }
  destruct (grow_turn sb c l Hwf Hh Hl) as [(h & -> & Hh' & Hnone)|(h & r & sb1 & -> & Hr & Hs & Hh1 & Hl1 & Htc1 & Hlen)]; simpl.
  - right. change (fat_eof (set_hint sb h)) with (fat_eof sb). rewrite Z.eqb_refl.
    exists (set_hint sb h), []. rewrite Hnone. conjs; try done; [simpl; lia|].
    by apply table_changes_hint.
  - change (fat_eof (set_hint sb h)) with (fat_eof sb).
    pose proof (not_eof _ _ Hwf (proj1 Hr)) as [Hne _]. rewrite (proj2 (Z.eqb_neq _ _)) by done. rewrite Hs.
    assert (Hback : forall x, is_free sb1 x -> is_free sb x).
    { intros x Hx. destruct (decide (x = r)) as [->|Hxr]; [done|]. by apply (is_free_change _ _ _ _ Htc1). }
    destruct (IH sb1 r (r :: l)) as [(sb' & c' & new & -> & Hn & Hf & Hh' & Hc & Htc)|(sb' & lost & -> & Hn & Hf & Hh' & Htc)];
      [apply Htc1|done|done| |].
    + left. exists sb', c', (new ++ [r]). rewrite <- app_assoc. conjs; try done.
      * rewrite length_app. simpl. lia.
      * apply Forall_app. split; [by eapply Forall_impl|by apply Forall_singleton].
      * eapply table_changes_trans; [done|done|]. intros x; simpl; set_solver.
    + right. exists sb', (r :: lost). conjs; try done; [lia| |].
      * constructor; [done|by eapply Forall_impl].
      * eapply table_changes_trans; [done|done|]. intros x; simpl; set_solver.
Qed.

(** * Properties *)

(** The table is a map.  On a FAT16 or FAT32 volume, setting the entry of a cluster
    succeeds, reading the entry gives the value back, the entries of all other clusters keep
    theirs, and no byte of the data area changes. *)
Theorem fat_set_get_next_cluster sb cluster next :
  wf sb -> in_range sb cluster -> 0 <= next <= fat_eof sb ->
  exists sb', fat_set_next_cluster sb cluster next = (sb', Ok tt) /\ wf sb' /\
    fat_get_next_cluster sb' cluster = Some next /\
    (forall c, in_range sb c -> c <> cluster -> fat_get_next_cluster sb' c = fat_get_next_cluster sb c) /\
    (forall off n, data_start sb <= off -> 0 <= n ->
       sliceZ off n (contents (device sb')) = sliceZ off n (contents (device sb))).
Proof.
  intros Hwf Hin Hn. destruct (set_next sb cluster next Hwf Hin Hn) as (sb' & Hs & _ & Htc & Hv).
  exists sb'. pose proof (tc_geometry _ _ _ Htc) as (_ & Hdc & _).
  assert (Hr : forall c, in_range sb c -> in_range sb' c) by (unfold in_range; by rewrite Hdc).
  pose proof (tc_wf _ _ _ Htc). conjs; [done|done| | |apply Htc].
  - rewrite get_next by auto. by rewrite Hv.
  - intros c Hc Hne. rewrite !get_next by auto. f_equal. by apply (tc_next _ _ _ Htc).
Qed.

(** What the operations on the clusters of a file leave alone: the chains of other files and
    the data area. *)
Definition others_kept sb sb' (l : list Z) : Prop :=
  (forall c l', chain sb c l' -> (forall x, x ∈ l' -> x ∉ l) -> chain sb' c l') /\
  (forall off n, data_start sb <= off -> 0 <= n ->
     sliceZ off n (contents (device sb')) = sliceZ off n (contents (device sb))).

Lemma changes_kept sb sb' T l :
  table_changes sb sb' T -> wf sb -> (forall x, T x -> x ∈ l \/ is_free sb x) -> others_kept sb sb' l.
Proof.
  intros Htc Hwf HT. split; [|apply Htc]. intros c l' Hc Hd. eapply chain_change; [done| |done].
  intros x Hx [Hl|Hf]%HT; [by apply (Hd x)|]. by eapply chain_used in Hx.
Qed.

(** The cluster behind which a file grows. *)
Definition last_cluster_of (l : list Z) : Z := default 0 (last l).

(** Linking a chain behind the last cluster of another. *)
Lemma chain_link sb sb' c l x c' new :
  wf sb -> chain sb c (l ++ [x]) -> chain sb c' new -> x ∉ new ->
  table_changes sb sb' (fun y => y = x) -> next_of sb' x = c' -> chain sb' c ((l ++ [x]) ++ new).
Proof.
  intros Hwf Hl Hnew Hx Htc Hn. pose proof (chain_nodup _ _ _ Hwf Hl) as Hnd.
  apply NoDup_app in Hnd as (_ & Hxl & _). pose proof (tc_geometry _ _ _ Htc) as (He & Hdc & _).
  apply segment_app in Hl as (m & Hl & Hm). destruct Hm as (-> & Hm & _).
  rewrite <- app_assoc. apply segment_app. exists m. split.
  - eapply segment_change; [done| |done]. intros y Hy ->. apply (Hxl m); set_solver.
  - split; [done|]. split; [unfold is_cluster in *; lia|]. rewrite Hn.
    eapply (chain_change _ _ _ _ _ Htc); [|done]. intros y Hy ->. done.
Qed.

Lemma chain_free_disjoint sb c l new : wf sb -> chain sb c l -> Forall (is_free sb) new ->
  forall x, x ∈ l -> x ∉ new.
Proof.
  intros Hwf Hl Hf x Hx Hx'. rewrite Forall_forall in Hf. eapply chain_used in Hx; [|done|done]. by apply Hx, Hf.
Qed.

Lemma hint_ok_set sb sb' y :
  hint_ok sb -> table_changes sb sb' (fun x => x = y) ->
  cluster_search_hint sb' = cluster_search_hint sb -> next_of sb' y <> FAT_FREE -> hint_ok sb'.
Proof.
  intros [Hb Hno] Htc Hhint Hy. pose proof (tc_geometry _ _ _ Htc) as (_ & Hdc & _).
  split; [by rewrite Hhint, Hdc|]. rewrite Hhint. intros x Hx.
  destruct (decide (x = y)) as [->|Hxy]; [by intros [_ ?]|].
  rewrite (is_free_change _ _ _ _ Htc Hxy). by apply Hno.
Qed.

(** Linking new clusters to a file. *)
Lemma set_cluster_ok sb inode l c new :
  wf sb -> hint_ok sb -> chain sb (first_cluster inode) l -> chain sb c new -> new <> [] ->
  (forall x, x ∈ l -> x ∉ new) ->
  exists sb' inode', fat_set_cluster sb inode (last_cluster_of l) c = (sb', inode', Ok tt) /\
    chain sb' (first_cluster inode') (l ++ new) /\ hint_ok sb' /\ table_changes sb sb' (fun x => x ∈ l).
Proof.
  intros Hwf Hh Hl Hc Hne Hdis. unfold fat_set_cluster, last_cluster_of, ends.
  assert (Hcc : is_cluster sb c) by (destruct new; [done|]; by destruct Hc as (_ & ? & _)).
  pose proof (not_eof _ _ Hwf Hcc) as [_ Hc0]. pose proof (cluster_bounds _ Hwf).
  destruct l as [|y l _] using rev_ind; simpl.
  - exists sb, (mk_head c true). conjs; try done. by apply table_changes_refl.
  - rewrite last_snoc. simpl.
    assert (Hy : is_cluster sb y) by (eapply segment_cluster; [exact Hl|set_solver]).
    pose proof (not_eof _ _ Hwf Hy) as [Hy1 Hy2].
    rewrite !(proj2 (Z.eqb_neq _ _)) by (unfold FAT_FREE in *; done). simpl.
    destruct (set_next sb y c Hwf) as (sb' & -> & Hhint & Htc & Hn);
      [by apply cluster_in_range|unfold is_cluster in Hcc; lia|].
    exists sb', inode. conjs; try done.
    + eapply chain_link; try done. apply Hdis. set_solver.
    + eapply hint_ok_set; try done. by rewrite Hn.
    + eapply table_changes_trans; [by apply (table_changes_refl sb (fun _ => False))|done|]. set_solver.
Qed.

Lemma fat_grow_spec sb inode l count :
  wf sb -> hint_ok sb -> chain sb (first_cluster inode) l -> 0 < count ->
  (exists sb' inode' new, fat_grow sb inode (last_cluster_of l) count = Some (sb', inode', Ok tt) /\
     lenZ new = count /\ Forall (is_free sb) new /\ chain sb' (first_cluster inode') (l ++ new) /\
     wf sb' /\ hint_ok sb' /\ others_kept sb sb' l) \/
  (exists sb', fat_grow sb inode (last_cluster_of l) count = Some (sb', inode, Err ENOSPC) /\
     lenZ (free_list sb) < count /\ chain sb' (first_cluster inode) l /\
     wf sb' /\ hint_ok sb' /\ others_kept sb sb' l).
Proof.
  intros Hwf Hh Hl Hcount. unfold fat_grow. rewrite (proj2 (Z.ltb_lt _ _)) by done.
  destruct (grow_loop_ok (Z.to_nat count) sb (fat_eof sb) [] Hwf Hh eq_refl)
    as [(sb1 & c & new & -> & Hn & Hf & Hh1 & Hc & Htc)|(sb1 & lost & -> & Hn & Hf & Hh1 & Htc)]; simpl;
    pose proof (chain_free_disjoint _ _ _ _ Hwf Hl Hf) as Hdis;
    pose proof (chain_change _ _ _ _ _ Htc Hdis Hl) as Hl1; pose proof (tc_wf _ _ _ Htc) as Hwf1;
    rewrite Forall_forall in Hf.
  - left. rewrite app_nil_r in Hc.
    destruct (set_cluster_ok sb1 inode l c new) as (sb2 & inode2 & -> & Hc2 & Hh2 & Htc2); try done.
    { intros ->. simpl in Hn. lia. }
    exists sb2, inode2, new. rewrite Forall_forall. conjs; try done; [unfold lenZ; lia|apply Htc2|].
    eapply changes_kept; [eapply (table_changes_trans _ _ _ (fun x => x ∈ new \/ x ∈ l)); [done|done|done]|done|].
    intros x [Hx|Hx]; auto.
  - right. exists sb1. conjs; try done; [unfold lenZ; lia|]. eapply changes_kept; [done|done|auto].
Qed.

(** C21: Growing a file on a FAT16 or FAT32 volume (the entries of FAT12 overlap,
    [fat12_entries_overlap]) whose tables and data are where the superblock says, below
    4 GiB, on a device on which reads and writes inside it do not fail, with a search hint
    that no free cluster is below.  The file has a chain that ends with the end mark (an
    empty one is the end mark itself, not the cluster 0 of a new file on disk).  Behind the
    last cluster of the chain [fat_grow] links exactly the number of clusters asked for,
    all of which were free; the clusters of the file keep their order, the chains of other
    files and the data area are untouched, and the search hint stays below every free
    cluster.  It fails only when fewer clusters are free, with [-ENOSPC] and the chain of
    the file as it was; the clusters it had taken until then are lost. *)
Theorem fat_grow_correct sb inode l count :
  wf sb -> hint_ok sb -> chain sb (first_cluster inode) l -> 0 < count ->
  (exists sb' inode' new, fat_grow sb inode (last_cluster_of l) count = Some (sb', inode', Ok tt) /\
     lenZ new = count /\ Forall (is_free sb) new /\ chain sb' (first_cluster inode') (l ++ new) /\
     wf sb' /\ hint_ok sb' /\ others_kept sb sb' l) \/
  (exists sb', fat_grow sb inode (last_cluster_of l) count = Some (sb', inode, Err ENOSPC) /\
     lenZ (free_list sb) < count /\ chain sb' (first_cluster inode) l /\
     wf sb' /\ hint_ok sb' /\ others_kept sb sb' l).
Proof. apply fat_grow_spec. Qed.

(** Freeing a file that has been unlinked frees the clusters of its chain, up to the ten
    thousand the loop allows, and nothing else; the hint stays below every free cluster. *)
Theorem fat_free_clusters_correct sb inode l :
  wf sb -> hint_ok sb -> chain sb (first_cluster inode) l ->
  exists sb', fat_free_clusters sb inode = Some sb' /\ wf sb' /\ hint_ok sb' /\ others_kept sb sb' l /\
    Forall (is_free sb') (takeZ 10000 l) /\ (lenZ l <= 10000 -> Forall (is_free sb') l).
Proof.
  intros Hwf Hh Hl. unfold fat_free_clusters.
  destruct (free_chain_ok (Z.to_nat 10000) sb (first_cluster inode) l Hwf Hh Hl) as (sb' & -> & Hh' & Htc & Hf).
  exists sb'. pose proof (tc_geometry _ _ _ Htc) as (_ & Hdc & _).
  unfold takeZ. set (n := Z.to_nat 10000) in *.
  assert (Hfree : Forall (is_free sb') (take n l)).
  { rewrite Forall_forall in Hf |- *. intros x Hx. split; [|auto].
    eapply segment_cluster in Hl; [|by eapply subseteq_take]. unfold is_cluster in *. lia. }
  conjs; try done; [apply Htc| |].
  - eapply changes_kept; [done|done|]. intros x Hx. left. cbv beta in Hx. by eapply subseteq_take.
  - intros Hlen. rewrite take_ge in Hfree; [done|]. unfold lenZ, n in *. lia.
Qed.

(** ** Truncation *)

Lemma last_loop_ok sb c l prev i :
  wf sb -> chain sb c l ->
  last_loop (length l) sb i prev c = Some (default prev (last l), i + lenZ l).
Proof.
  intros Hwf. revert c prev i. induction l as [|x l IH]; intros c prev i Hl; simpl.
  - f_equal. f_equal. unfold lenZ. simpl. lia.
  - destruct Hl as (-> & Hc & Hl). pose proof (not_eof _ _ Hwf Hc) as [Hne _].
    rewrite (proj2 (Z.eqb_neq _ _)) by done.
    rewrite get_next by (done || by apply cluster_in_range). simpl. rewrite IH by done.
    rewrite lenZ_cons, Z.add_assoc. destruct l as [|y l]; [done|].
    change (last (c :: y :: l)) with (last (y :: l)).
    destruct (last (y :: l)) eqn:E; [done|by apply last_None in E].
Qed.

(** The number of clusters of so many bytes. *)
Definition clusters sb (size : Z) : Z := (size + cluster_size sb - 1) / cluster_size sb.

Lemma clusters_zero sb : wf sb -> clusters sb 0 = 0.
Proof. intros Hwf. pose proof (wf_size _ Hwf) as [? _]. apply Z.div_small. lia. Qed.

Lemma clusters_mono sb a b : wf sb -> a <= b -> clusters sb a <= clusters sb b.
Proof. intros Hwf ?. pose proof (wf_size _ Hwf) as [? _]. apply Z.div_le_mono; lia. Qed.

Lemma clusters_computed sb size :
  wf sb -> 0 <= size ->
  (size < 2 ^ 63 -> clusters_of_size sb size = clusters sb size) /\
  (size + cluster_size sb <= 2 ^ 32 -> clusters_of_file sb size = clusters sb size).
Proof.
  intros Hwf Hs. pose proof (wf_size _ Hwf) as [Hcs Hds].
  unfold clusters_of_size, clusters_of_file, clusters. split; intros Hb.
  - f_equal. by unwrap.
  - f_equal. unfold u32. destruct (decide (size + cluster_size sb = 2 ^ 32)) as [->|]; [done|].
    rewrite (Z.mod_small (size + cluster_size sb)) by lia. apply Z.mod_small. lia.
Qed.

(** Shrinking to nothing. *)
Lemma fat_shrink_zero sb inode l :
  wf sb -> hint_ok sb -> chain sb (first_cluster inode) l -> l <> [] ->
  exists sb', fat_shrink sb inode (lenZ l) 0 = Some (sb', mk_head (fat_eof sb) true, Ok tt) /\
    wf sb' /\ hint_ok sb' /\ others_kept sb sb' l /\ chain sb' (fat_eof sb) [] /\ Forall (is_free sb') l.
Proof.
  intros Hwf Hh Hl Hne. unfold fat_shrink.
  assert (0 < lenZ l) by (destruct l; [done|]; rewrite lenZ_cons; pose proof (lenZ_nonneg l); lia).
  rewrite (proj2 (Z.ltb_lt _ _)) by done. unfold fat_get_cluster. simpl.
  replace (Z.to_nat (lenZ l - 0)) with (length l) by (unfold lenZ; lia).
  destruct (free_chain_ok (length l) sb (first_cluster inode) l Hwf Hh Hl) as (sb' & -> & Hh' & Htc & Hf).
  rewrite firstn_all in *. simpl. exists sb'. pose proof (tc_geometry _ _ _ Htc) as (He & Hdc & _).
  unfold fat_set_cluster. simpl. rewrite He. conjs; [done|apply Htc|done| |done|].
  - eapply changes_kept; [done|done|]. auto.
  - rewrite Forall_forall in Hf |- *. intros x Hx. split; [|auto].
    eapply segment_cluster in Hl; [|done]. unfold is_cluster in *. lia.
Qed.

(** Truncating a file to a larger size, or to nothing.  Enlarging keeps the clusters of
    the file and adds free ones behind them until the size is covered exactly, or, when
    the volume has not that many free, leaves the chain alone; the size is set in
    either case.  Truncating to nothing frees the whole chain.  The size and the clusters must
    agree before, and the chains of other files are kept. *)
Theorem fat_truncate_correct sb inode l file_size size :
  wf sb -> hint_ok sb -> chain sb (first_cluster inode) l -> lenZ l = clusters sb file_size ->
  0 <= file_size -> file_size + cluster_size sb <= 2 ^ 32 -> file_size <= size < 2 ^ 32 \/ size = 0 ->
  exists sb' inode', fat_truncate sb inode file_size size = Some (sb', inode', size) /\
    wf sb' /\ hint_ok sb' /\ others_kept sb sb' l /\
    (size = 0 -> chain sb' (first_cluster inode') [] /\ Forall (is_free sb') l) /\
    (file_size <= size ->
       (exists new, chain sb' (first_cluster inode') (l ++ new) /\ lenZ (l ++ new) = clusters sb size) \/
       lenZ (free_list sb) < clusters sb size - clusters sb file_size /\ chain sb' (first_cluster inode') l).
Proof.
  intros Hwf Hh Hl Hlen Hfs Hfs32 Hsize. pose proof (lenZ_nonneg l).
  destruct (clusters_computed sb file_size Hwf Hfs) as [_ Hcf].
  destruct (clusters_computed sb size Hwf ltac:(lia)) as [Hcs _].
  unfold fat_truncate. rewrite Hcf, Hcs by lia.
  replace (Z.to_nat (clusters sb file_size)) with (length l) by (unfold lenZ in Hlen; lia).
  rewrite last_loop_ok by done. simpl. rewrite Z.add_0_l, Hlen.
  rewrite (u32_small size) by lia.
  destruct (decide (clusters sb size < clusters sb file_size)) as [Hlt|Hge].
  - assert (size = 0) as ->.
    { destruct Hsize as [Hsize|]; [|done]. pose proof (clusters_mono sb file_size size Hwf). lia. }
    rewrite (clusters_zero sb Hwf) in *.
    rewrite (proj2 (Z.ltb_lt _ _)) by lia. rewrite <- Hlen.
    destruct (fat_shrink_zero sb inode l Hwf Hh Hl) as (sb' & -> & Hwf' & Hh' & Ho & Hc & Hf).
    { intros ->. unfold lenZ in Hlen. simpl in Hlen. lia. }
    simpl. exists sb', (mk_head (fat_eof sb) true). conjs; try done.
    intros. pose proof (clusters_mono sb file_size 0 Hwf). rewrite (clusters_zero sb Hwf) in *. lia.
  - rewrite (proj2 (Z.ltb_ge _ _)) by lia.
    assert (Hzero : size = 0 -> l = []).
    { intros ->. rewrite (clusters_zero sb Hwf) in *. apply length_zero_iff_nil. unfold lenZ in Hlen. lia. }
    case_if.
    + assert (Hne : size <> 0).
      { intros Hz. specialize (Hzero Hz). subst.
        rewrite (clusters_zero sb Hwf) in *. unfold lenZ in Hlen. simpl in Hlen. lia. }
      destruct (fat_grow_spec sb inode l (clusters sb size - clusters sb file_size) Hwf Hh Hl ltac:(lia))
        as [(sb' & inode' & new & Hg & Hn & _ & Hc & Hwf' & Hh' & Ho)|(sb' & Hg & Hn & Hc & Hwf' & Hh' & Ho)];
        unfold last_cluster_of in Hg; rewrite Hg; simpl; eexists _, _; conjs; try done.
      * intros _. left. exists new. split; [done|]. rewrite lenZ_app. lia.
      * intros _. right. split; [lia|done].
    + exists sb, inode. conjs; try done.
      * intros Hz. specialize (Hzero Hz). subst. split; [done|constructor].
      * intros _. left. exists []. rewrite app_nil_r. split; [done|lia].
Qed.

(** * The data of files *)

Definition cluster_start sb c : Z := data_start sb + (c - 2) * cluster_size sb.
Definition cluster_bytes sb c : list Z := sliceZ (cluster_start sb c) (cluster_size sb) (contents (device sb)).

(** The bytes of the clusters of a chain. *)
Definition file_bytes sb (l : list Z) : list Z := concat (map (cluster_bytes sb) l).

Lemma cluster2offset_ok sb c :
  wf sb -> is_cluster sb c ->
  fat_cluster2offset sb c = Some (cluster_start sb c) /\ data_start sb <= cluster_start sb c /\
  cluster_start sb c + cluster_size sb <= lenZ (contents (device sb)).
Proof.
  intros Hwf Hc. unfold is_cluster in Hc. pose proof (wf_size _ Hwf) as [Hcs Hd]. pose proof (wf_data _ Hwf).
  unfold fat_cluster2offset, cluster_start. rewrite (proj2 (Z.leb_le _ _)) by lia.
  assert ((c - 2) * cluster_size sb + cluster_size sb <= data_clusters sb * cluster_size sb) by nia.
  rewrite u32_small by nia. conjs; [f_equal; lia|nia|nia].
Qed.

Lemma data_start_pos sb : wf sb -> 0 <= data_start sb.
Proof.
  intros [Hty (? & ? & ? & ? & ?) Ht Hcp ? ? ? ?]. unfold table_start, table_size, width in *.
  destruct (fat_type sb); nia.
Qed.

Lemma cluster_bytes_len sb c : wf sb -> is_cluster sb c -> lenZ (cluster_bytes sb c) = cluster_size sb.
Proof.
  intros Hwf Hc. destruct (cluster2offset_ok _ _ Hwf Hc) as (_ & ? & ?). pose proof (data_start_pos _ Hwf).
  pose proof (wf_size _ Hwf). apply lenZ_sliceZ; lia.
Qed.

(** A part of a cluster on the device. *)
Lemma cluster_part sb c off n :
  wf sb -> is_cluster sb c -> 0 <= off -> 0 <= n -> off + n <= cluster_size sb ->
  sliceZ (cluster_start sb c + off) n (contents (device sb)) = sliceZ off n (cluster_bytes sb c).
Proof.
  intros Hwf Hc Ho Hn Hle. destruct (cluster2offset_ok _ _ Hwf Hc) as (_ & ? & ?).
  pose proof (data_start_pos _ Hwf). unfold cluster_bytes. apply list_eq. intros i.
  rewrite !sliceZ_lookup. case_decide; [|done]. rewrite decide_True by lia. f_equal. lia.
Qed.

(** Taking a chunk from the rest of a file. *)
Lemma file_chunk (a b : list Z) co n :
  0 <= co -> 0 <= n -> co + n <= lenZ a -> takeZ n (dropZ co (a ++ b)) = sliceZ co n a.
Proof.
  intros. unfold sliceZ, takeZ, dropZ, lenZ in *. rewrite drop_app_le by lia.
  apply take_app_le. rewrite length_drop. lia.
Qed.

(** The page when the loop ends: what was done, the rest of the file, zeros behind it. *)
Definition page_rest (page : list Z) (count : Z) (rest : list Z) : list Z :=
  takeZ PAGE_SIZE (takeZ count page ++ rest ++ replicate (Z.to_nat PAGE_SIZE) 0).

Lemma page_rest_blit page count bs rest :
  lenZ page = PAGE_SIZE -> 0 <= count -> count + lenZ bs <= PAGE_SIZE ->
  page_rest (blit count bs page) (count + lenZ bs) rest = page_rest page count (bs ++ rest).
Proof.
  intros Hp Hc Hl. unfold page_rest. f_equal. rewrite <- (app_assoc bs), (app_assoc (takeZ count page)). f_equal.
  rewrite blit_eq by lia. unfold takeZ, dropZ, lenZ in *.
  rewrite app_assoc, take_app_length'; [done|]. rewrite length_app, length_take. lia.
Qed.

Lemma page_rest_full page rest : lenZ page = PAGE_SIZE -> page_rest page PAGE_SIZE rest = page.
Proof.
  intros Hp. unfold page_rest, takeZ, lenZ in *. rewrite (take_ge page) by lia.
  rewrite take_app_le by lia. apply take_ge. lia.
Qed.

Lemma page_rest_zero page count :
  lenZ page = PAGE_SIZE -> 0 <= count <= PAGE_SIZE ->
  takeZ count page ++ replicate (Z.to_nat (PAGE_SIZE - count)) 0 = page_rest page count [].
Proof.
  intros Hp Hc. unfold page_rest, takeZ, lenZ in *. rewrite app_nil_l.
  rewrite take_app_ge by (rewrite length_take; lia). f_equal.
  rewrite length_take, take_replicate. f_equal. lia.
Qed.

Lemma chain_cons sb c l x : chain sb c (x :: l) -> x = c /\ is_cluster sb c /\ chain sb (next_of sb c) l.
Proof. done. Qed.

Lemma read_loop_ok fuel sb offset file_size page c co count l :
  wf sb -> chain sb c l -> lenZ page = PAGE_SIZE -> 0 <= co < cluster_size sb -> (l = [] -> co = 0) ->
  0 <= count <= PAGE_SIZE -> PAGE_SIZE - count <= Z.of_nat fuel ->
  (PAGE_SIZE - count <= lenZ (dropZ co (file_bytes sb l)) \/ file_size < offset + PAGE_SIZE) ->
  transfer_loop fuel false sb offset file_size page c co count =
    Some (sb, page_rest page count (dropZ co (file_bytes sb l)), Ok tt).
Proof.
  revert page c co count l. induction fuel as [|fuel IH]; intros page c co count l Hwf Hl Hp Hco Hco0 Hc Hf Hend;
    simpl transfer_loop.
  { assert (count = PAGE_SIZE) as -> by (unfold PAGE_SIZE in *; lia). rewrite Z.ltb_irrefl.
    by rewrite page_rest_full. }
  destruct (decide (count = PAGE_SIZE)) as [->|]; [rewrite Z.ltb_irrefl; by rewrite page_rest_full|].
  rewrite (proj2 (Z.ltb_lt count _)) by lia. destruct l as [|x l].
  - unfold chain in Hl. simpl in Hl. subst c. rewrite Z.eqb_refl. specialize (Hco0 eq_refl). subst co.
    change (dropZ 0 (file_bytes sb [])) with (@nil Z) in *.
    destruct Hend as [Hend|Hend]; [unfold lenZ in Hend; simpl in Hend; lia|].
    rewrite (proj2 (Z.ltb_lt _ _)) by done. by rewrite page_rest_zero.
  - apply chain_cons in Hl as (-> & Hcl & Hl). pose proof (not_eof _ _ Hwf Hcl) as [Hne _].
    rewrite (proj2 (Z.eqb_neq _ _)) by done.
    destruct (cluster2offset_ok _ _ Hwf Hcl) as (-> & Hlo & Hhi). simpl. pose proof (data_start_pos _ Hwf).
    pose proof (cluster_bytes_len _ _ Hwf Hcl) as Hcb.
    set (chunk := Z.min (PAGE_SIZE - count) (cluster_size sb - co)). assert (0 < chunk) by lia.
    rewrite vfs_read_ok by lia. rewrite cluster_part by (done || lia).
    set (bs := sliceZ co chunk (cluster_bytes sb c)).
    assert (Hbs : lenZ bs = chunk) by (apply lenZ_sliceZ; lia). rewrite Hbs, Z.eqb_refl. simpl.
    set (rest := dropZ (co + chunk) (cluster_bytes sb c ++ file_bytes sb l)).
    assert (Hrest : dropZ co (file_bytes sb (c :: l)) = bs ++ rest).
    { unfold rest, bs, file_bytes. simpl. rewrite <- (file_chunk _ (concat (map (cluster_bytes sb) l))) by lia.
      unfold takeZ, dropZ. replace (Z.to_nat (co + chunk)) with (Z.to_nat co + Z.to_nat chunk)%nat by lia.
      rewrite <- drop_drop, take_drop. done. }
    rewrite Hrest in Hend |- *. rewrite lenZ_app, Hbs in Hend.
    rewrite <- page_rest_blit by lia. rewrite Hbs.
    case_if.
    + rewrite get_next by (done || by apply cluster_in_range). simpl.
      assert (Hr : rest = dropZ 0 (file_bytes sb l)).
      { unfold rest, dropZ, lenZ in *. rewrite drop_app_ge by lia.
        replace (Z.to_nat (co + chunk) - length (cluster_bytes sb c))%nat with O by lia. done. }
      rewrite Hr in *. apply IH; try done; try lia; [by rewrite lenZ_blit|..]. 
    + assert (Hr : rest = dropZ (co + chunk) (file_bytes sb (c :: l))) by done.
      rewrite Hr in *. apply IH; try done; try lia; by rewrite lenZ_blit.
Qed.

Lemma file_bytes_drop sb c l i :
  wf sb -> chain sb c l -> (i <= length l)%nat ->
  file_bytes sb (drop i l) = dropZ (Z.of_nat i * cluster_size sb) (file_bytes sb l).
Proof.
  intros Hwf. pose proof (wf_size _ Hwf) as [? _]. revert c l.
  induction i as [|i IH]; intros c l Hl Hi; [by destruct l|].
  destruct l as [|x l]; [simpl in Hi; lia|]. apply chain_cons in Hl as (-> & Hc & Hl). simpl drop.
  rewrite (IH _ _ Hl) by (simpl in Hi; lia). unfold file_bytes. simpl map. simpl concat.
  pose proof (cluster_bytes_len _ _ Hwf Hc). unfold dropZ, lenZ in *.
  rewrite drop_app_ge by nia. f_equal. nia.
Qed.

Lemma segment_clusters sb c l e : segment sb c l e -> Forall (is_cluster sb) l.
Proof. intros. apply Forall_forall. intros x Hx. by eapply segment_cluster. Qed.

Lemma file_bytes_len sb l : wf sb -> Forall (is_cluster sb) l -> lenZ (file_bytes sb l) = lenZ l * cluster_size sb.
Proof.
  intros Hwf. induction 1 as [|x l Hx _ IH]; [done|]. unfold file_bytes. simpl.
  rewrite lenZ_app, lenZ_cons, cluster_bytes_len by done. unfold file_bytes in IH. rewrite IH. lia.
Qed.

(** The cluster of an offset, and the chain from it. *)
Lemma chain_at sb c l i x : chain sb c l -> l !! i = Some x -> chain sb x (drop i l).
Proof.
  intros Hl Hi. rewrite <- (take_drop i l) in Hl. apply segment_app in Hl as (m & _ & Hm).
  rewrite (drop_S l x i Hi) in *. pose proof Hm as (<- & _). done.
Qed.

Lemma cluster_of_offset sb inode l offset :
  wf sb -> chain sb (first_cluster inode) l -> 0 <= offset < lenZ (file_bytes sb l) ->
  exists c, fat_get_cluster sb inode (u32 (offset / cluster_size sb)) = Some c /\ c <> fat_eof sb /\
    chain sb c (drop (Z.to_nat (offset / cluster_size sb)) l) /\
    dropZ (offset mod cluster_size sb) (file_bytes sb (drop (Z.to_nat (offset / cluster_size sb)) l)) =
      dropZ offset (file_bytes sb l) /\ drop (Z.to_nat (offset / cluster_size sb)) l <> [].
Proof.
  intros Hwf Hl Ho. pose proof (wf_size _ Hwf) as [Hcs Hd]. rewrite (file_bytes_len _ _ Hwf (segment_clusters _ _ _ _ Hl)) in Ho.
  pose proof (Z.div_mod offset (cluster_size sb) ltac:(lia)) as Hdm.
  pose proof (Z.mod_pos_bound offset (cluster_size sb) ltac:(lia)) as Hmb.
  set (i := offset / cluster_size sb) in *. assert (Hi : 0 <= i < lenZ l) by (split; [apply Z.div_pos; lia|nia]).
  destruct (lookup_lt_is_Some_2 l (Z.to_nat i)) as [c Hc]; [unfold lenZ in Hi; lia|].
  assert (Hcl : is_cluster sb c) by (eapply segment_cluster; [exact Hl|by eapply list_elem_of_lookup_2]).
  pose proof (cluster_bounds _ Hwf).
  assert (Hshort : lenZ l <= data_clusters sb).
  { pose proof (chain_nodup _ _ _ Hwf Hl) as Hnd. unfold lenZ.
    assert (Hsub : l ⊆ seqZ 2 (data_clusters sb)).
    { intros x Hx. eapply segment_cluster in Hl; [|done]. apply elem_of_seqZ. unfold is_cluster in Hl. lia. }
    pose proof (submseteq_length _ _ (NoDup_submseteq _ _ Hnd Hsub)) as Hle. rewrite length_seqZ in Hle. lia. }
  exists c. unfold fat_get_cluster. rewrite u32_small by lia.
  rewrite (get_cluster_chain _ _ _ _ Hwf Hl), Hc. simpl. conjs.
  - done.
  - by apply not_eof.
  - by apply chain_at with (first_cluster inode).
  - rewrite (file_bytes_drop _ _ _ _ Hwf Hl) by (unfold lenZ in Hi; lia).
    rewrite Z2Nat.id by lia. unfold dropZ. rewrite drop_drop. f_equal. nia.
  - by rewrite (drop_S l c).
Qed.

(** Reading a page of a file gives the bytes of its clusters from the offset of the page on,
    with zeros behind the end of the last cluster, and leaves the volume alone. *)
Theorem fat_read_page_correct sb inode l offset file_size page :
  wf sb -> chain sb (first_cluster inode) l -> lenZ page = PAGE_SIZE ->
  0 <= offset < lenZ (file_bytes sb l) ->
  offset + PAGE_SIZE <= lenZ (file_bytes sb l) \/ file_size < offset + PAGE_SIZE ->
  fat_transfer_page false sb inode offset file_size page =
    Some (sb, takeZ PAGE_SIZE (dropZ offset (file_bytes sb l) ++ replicate (Z.to_nat PAGE_SIZE) 0), Ok tt).
Proof.
  intros Hwf Hl Hp Ho Hend. pose proof (wf_size _ Hwf) as [Hcs _].
  destruct (cluster_of_offset sb inode l offset Hwf Hl Ho) as (c & Hg & Hne & Hc & Hdrop & Hnil).
  unfold fat_transfer_page. rewrite Hg. cbv beta iota delta [mbind option_bind].
  rewrite (proj2 (Z.eqb_neq _ _)) by exact Hne.
  pose proof (Z.mod_pos_bound offset (cluster_size sb) ltac:(lia)) as Hmod.
  rewrite (read_loop_ok _ _ _ _ _ _ _ _ _ Hwf Hc Hp Hmod); rewrite ?Hdrop, ?Z.sub_0_r.
  - unfold page_rest. by rewrite app_nil_l.
  - intros E. by destruct Hnil.
  - unfold PAGE_SIZE. lia.
  - rewrite Z2Nat.id; unfold PAGE_SIZE; lia.
  - rewrite lenZ_dropZ by lia. destruct Hend; [left|right]; lia.
Qed.

(** ** Writing *)

Lemma blit_app_l {A} off (bs a b : list A) :
  0 <= off -> off + lenZ bs <= lenZ a -> blit off bs (a ++ b) = blit off bs a ++ b.
Proof.
  intros. rewrite !blit_eq by (rewrite ?lenZ_app; pose proof (lenZ_nonneg b); lia).
  unfold takeZ, dropZ, lenZ in *. rewrite take_app_le, drop_app_le by lia. by rewrite <- !app_assoc.
Qed.

Lemma blit_app_cross {A} off (bs1 bs2 a b : list A) :
  0 <= off -> off + lenZ bs1 = lenZ a -> lenZ bs2 <= lenZ b ->
  blit off (bs1 ++ bs2) (a ++ b) = blit off bs1 a ++ blit 0 bs2 b.
Proof.
  intros. rewrite !blit_eq by (rewrite ?lenZ_app; pose proof (lenZ_nonneg bs2); lia).
  unfold takeZ, dropZ, lenZ in *. rewrite take_app_le by lia. rewrite length_app.
  rewrite drop_app_ge by lia. rewrite (drop_ge a) by lia. rewrite app_nil_r. simpl.
  rewrite <- !app_assoc. do 4 f_equal. lia.
Qed.

(** Only bytes of the clusters of [l] differ. *)
Definition bytes_kept sb sb' (l : list Z) : Prop :=
  forall off n, 0 <= off -> 0 <= n ->
    (forall c, c ∈ l -> off + n <= cluster_start sb c \/ cluster_start sb c + cluster_size sb <= off) ->
    sliceZ off n (contents (device sb')) = sliceZ off n (contents (device sb)).

(** A volume after writes to the data area. *)
Record data_changes sb sb' (l : list Z) : Prop := {
  dc_same : sb' = set_device sb (device sb');
  dc_wf : wf sb';
  dc_kept : bytes_kept sb sb' l;
  dc_len : lenZ (contents (device sb')) = lenZ (contents (device sb));
}.

Lemma data_changes_refl sb l : wf sb -> data_changes sb sb l.
Proof. intros. split; try done. by destruct sb. Qed.

Lemma data_changes_trans sb sb1 sb2 l l1 l2 :
  data_changes sb sb1 l1 -> data_changes sb1 sb2 l2 -> l1 ⊆ l -> l2 ⊆ l -> data_changes sb sb2 l.
Proof.
  intros [E1 W1 K1 L1] [E2 W2 K2 L2] H1 H2. split; [|done| |congruence].
  - rewrite E2, E1. done.
  - intros off n Ho Hn Hc. rewrite K2, K1; try done; [auto|].
    intros c Hin. rewrite E1. apply Hc. auto.
Qed.

Lemma data_changes_next sb sb' l c :
  data_changes sb sb' l -> wf sb -> Forall (is_cluster sb) l -> in_range sb c -> next_of sb' c = next_of sb c.
Proof.
  intros [E _ K _] Hwf Hl Hc. pose proof (entry_offset_bounds sb 0 c Hwf Hc) as Hb.
  pose proof (wf_nonneg _ Hwf) as (_ & _ & _ & _ & Hf). specialize (Hb ltac:(lia)).
  assert (Hs : sliceZ (entry_offset sb 0 c) (width sb) (contents (device sb')) =
    sliceZ (entry_offset sb 0 c) (width sb) (contents (device sb))).
  { apply K; [lia|unfold width; destruct (fat_type sb); lia|].
    intros x Hx. rewrite Forall_forall in Hl. apply Hl in Hx. left.
    destruct (cluster2offset_ok _ _ Hwf Hx) as (_ & ? & _). lia. }
  rewrite E. unfold next_of. rewrite <- Hs. reflexivity.
Qed.

Lemma data_changes_chain sb sb' l c l' :
  data_changes sb sb' l -> wf sb -> Forall (is_cluster sb) l -> chain sb c l' -> chain sb' c l'.
Proof.
  intros Hdc Hwf Hl. pose proof (dc_same _ _ _ Hdc) as E. revert c.
  induction l' as [|x l' IH]; intros c; unfold chain; simpl.
  - intros ->. by rewrite E.
  - intros (-> & Hc & Hl'). split; [done|]. split; [by rewrite E|].
    rewrite (data_changes_next _ _ _ _ Hdc) by (done || by apply cluster_in_range). by apply IH.
Qed.

Lemma cluster_start_apart sb c c' :
  wf sb -> c <> c' ->
  cluster_start sb c + cluster_size sb <= cluster_start sb c' \/ cluster_start sb c' + cluster_size sb <= cluster_start sb c.
Proof. intros Hwf Hne. pose proof (wf_size _ Hwf) as [? _]. unfold cluster_start. nia. Qed.

Lemma cluster_bytes_kept sb sb' l c :
  data_changes sb sb' l -> wf sb -> is_cluster sb c -> c ∉ l -> cluster_bytes sb' c = cluster_bytes sb c.
Proof.
  intros [E _ K _] Hwf Hc Hni. unfold cluster_bytes. rewrite E.
  change (cluster_start (set_device sb (device sb')) c) with (cluster_start sb c). simpl.
  destruct (cluster2offset_ok _ _ Hwf Hc) as (_ & ? & _). pose proof (data_start_pos _ Hwf).
  pose proof (wf_size _ Hwf). apply K; [lia|lia|]. intros x Hx.
  apply cluster_start_apart; [done|]. intros ->. done.
Qed.

Lemma file_bytes_kept sb sb' l c l' :
  data_changes sb sb' l -> wf sb -> chain sb c l' -> (forall x, x ∈ l' -> x ∉ l) ->
  file_bytes sb' l' = file_bytes sb l'.
Proof.
  intros Hdc Hwf Hl Hd. unfold file_bytes. f_equal. apply map_ext_in. intros x Hx%list_elem_of_In.
  eapply cluster_bytes_kept; [done|done|by eapply segment_cluster|auto].
Qed.

(** Writing a chunk of a cluster. *)
Lemma write_chunk sb c co bs :
  wf sb -> is_cluster sb c -> 0 <= co -> co + lenZ bs <= cluster_size sb -> Forall is_byte bs ->
  exists d, vfs_write (device sb) (cluster_start sb c + co) bs = (d, Ok (lenZ bs)) /\
    data_changes sb (set_device sb d) [c] /\
    cluster_bytes (set_device sb d) c = blit co bs (cluster_bytes sb c).
Proof.
  intros Hwf Hc Hco Hle Hb. destruct (cluster2offset_ok _ _ Hwf Hc) as (_ & Hlo & Hhi).
  pose proof (data_start_pos _ Hwf). pose proof (wf_size _ Hwf) as [Hcs _]. pose proof (lenZ_nonneg bs).
  destruct (vfs_write_ok (device sb) (cluster_start sb c + co) bs) as (d & Hw & Hd); [lia|lia|].
  exists d. split; [done|]. split; [split; simpl|].
  - done.
  - apply wf_set_device; [done|by rewrite Hd, lenZ_blit|]. rewrite Hd. apply Forall_blit; [done|apply Hwf].
  - intros off n Ho Hn Hout. simpl. rewrite Hd. specialize (Hout c ltac:(set_solver)).
    apply sliceZ_blit_other; lia.
  - by rewrite Hd, lenZ_blit.
  - unfold cluster_bytes. simpl. rewrite Hd. change (cluster_start (set_device sb d) c) with (cluster_start sb c).
    pose proof (cluster_bytes_len _ _ Hwf Hc) as Hcb. unfold cluster_bytes in Hcb.
    apply list_eq. intros i. rewrite sliceZ_lookup. case_decide as Hi.
    + destruct (decide (co <= Z.of_nat i < co + lenZ bs)) as [Hin|Hout].
      * rewrite !lookup_blit_in by lia. f_equal. lia.
      * rewrite !lookup_blit by lia. by rewrite sliceZ_lookup, decide_True by lia.
    + symmetry. apply lookup_ge_None_2. pose proof (lenZ_blit co bs (sliceZ (cluster_start sb c) (cluster_size sb) (contents (device sb)))).
      unfold lenZ in *. lia.
Qed.

(** What the loop writes to the rest of a file. *)
Definition written (page : list Z) (count : Z) (rest : list Z) (co : Z) : list Z :=
  blit co (takeZ (lenZ rest - co) (dropZ count page)) rest.

Lemma dropZ_split (page : list Z) count n :
  0 <= count -> 0 <= n -> dropZ count page = sliceZ count n page ++ dropZ (count + n) page.
Proof.
  intros. unfold sliceZ, takeZ, dropZ. replace (Z.to_nat (count + n)) with (Z.to_nat count + Z.to_nat n)%nat by lia.
  by rewrite <- drop_drop, take_drop.
Qed.

(** A chunk up to the end of a cluster, and the rest behind it. *)
Lemma written_cross page count chunk co (a b : list Z) :
  0 <= count -> 0 <= chunk -> 0 <= co -> co + chunk = lenZ a -> count + chunk <= lenZ page ->
  written page count (a ++ b) co = blit co (sliceZ count chunk page) a ++ written page (count + chunk) b 0.
Proof.
  intros Hc Hn Hco Ha Hp. unfold written. pose proof (lenZ_nonneg b).
  pose proof (lenZ_sliceZ count chunk page ltac:(lia) ltac:(lia) ltac:(lia)) as Hs.
  rewrite <- blit_app_cross; [|lia|lia|].
  - f_equal. rewrite (dropZ_split page count chunk) by lia. rewrite lenZ_app.
    unfold takeZ, lenZ in *. rewrite take_app_ge by lia. do 2 f_equal. lia.
  - unfold takeZ, lenZ in *. rewrite length_take. lia.
Qed.

(** A chunk up to the end of the page. *)
Lemma written_end page count co (a b : list Z) :
  0 <= count -> 0 <= co -> co + (PAGE_SIZE - count) <= lenZ a -> lenZ page = PAGE_SIZE -> count <= PAGE_SIZE ->
  written page count (a ++ b) co = blit co (sliceZ count (PAGE_SIZE - count) page) a ++ b.
Proof.
  intros Hc Hco Ha Hp Hle. unfold written.
  pose proof (lenZ_sliceZ count (PAGE_SIZE - count) page ltac:(lia) ltac:(lia) ltac:(lia)) as Hs.
  rewrite <- blit_app_l by lia. f_equal. unfold sliceZ, takeZ. pose proof (lenZ_dropZ count page ltac:(lia)) as Hd.
  rewrite lenZ_app. pose proof (lenZ_nonneg b). rewrite !take_ge; [done|unfold lenZ in *; lia..].
Qed.

Lemma written_none page rest co : 0 <= co -> lenZ page = PAGE_SIZE -> written page PAGE_SIZE rest co = rest.
Proof.
  intros Hco Hp. unfold written, dropZ. rewrite drop_ge by (unfold lenZ in Hp; lia).
  unfold takeZ. by rewrite take_nil.
Qed.

Lemma write_loop_ok fuel sb offset file_size page c co count l :
  wf sb -> chain sb c l -> lenZ page = PAGE_SIZE -> Forall is_byte page ->
  0 <= co < cluster_size sb -> (l = [] -> co = 0) ->
  0 <= count <= PAGE_SIZE -> PAGE_SIZE - count <= Z.of_nat fuel ->
  (PAGE_SIZE - count <= lenZ (file_bytes sb l) - co \/ file_size < offset + PAGE_SIZE) ->
  exists sb' page', transfer_loop fuel true sb offset file_size page c co count = Some (sb', page', Ok tt) /\
    data_changes sb sb' l /\ file_bytes sb' l = written page count (file_bytes sb l) co.
Proof.
  revert sb c co count l. induction fuel as [|fuel IH]; intros sb c co count l Hwf Hl Hp Hb Hco Hco0 Hc Hf Hend;
    simpl transfer_loop.
  { assert (count = PAGE_SIZE) as -> by (unfold PAGE_SIZE in *; lia). rewrite Z.ltb_irrefl.
    exists sb, page. rewrite written_none by lia. split; [done|]. split; [by apply data_changes_refl|done]. }
  destruct (decide (count = PAGE_SIZE)) as [->|].
  { rewrite Z.ltb_irrefl. exists sb, page. rewrite written_none by lia.
    split; [done|]. split; [by apply data_changes_refl|done]. }
  rewrite (proj2 (Z.ltb_lt count _)) by lia. destruct l as [|x l].
  - unfold chain in Hl. simpl in Hl. subst c. rewrite Z.eqb_refl. specialize (Hco0 eq_refl). subst co.
    destruct Hend as [Hend|Hend]; [unfold lenZ in Hend; simpl in Hend; lia|].
    rewrite (proj2 (Z.ltb_lt _ _)) by done. eexists sb, _. split; [done|].
    split; [by apply data_changes_refl|done].
  - pose proof (chain_nodup _ _ _ Hwf Hl) as [Hx _]%NoDup_cons. pose proof Hl as Hl0.
    apply chain_cons in Hl as (-> & Hcl & Hl). pose proof (not_eof _ _ Hwf Hcl) as [Hne _].
    rewrite (proj2 (Z.eqb_neq _ _)) by done. destruct (cluster2offset_ok _ _ Hwf Hcl) as (-> & _). simpl.
    pose proof (cluster_bytes_len _ _ Hwf Hcl) as Hcb.
    set (chunk := Z.min (PAGE_SIZE - count) (cluster_size sb - co)). assert (0 < chunk) by lia.
    assert (Hbs : lenZ (sliceZ count chunk page) = chunk) by (apply lenZ_sliceZ; lia).
    destruct (write_chunk sb c co (sliceZ count chunk page)) as (d & -> & Hdc & Hcbs);
      [done|done|lia|lia|by apply Forall_sliceZ|]. rewrite Hbs, Z.eqb_refl. simpl.
    set (sb1 := set_device sb d) in *. pose proof (dc_wf _ _ _ Hdc) as Hwf1.
    assert (Hone : Forall (is_cluster sb) [c]) by (by apply Forall_singleton).
    pose proof (data_changes_chain _ _ _ _ _ Hdc Hwf Hone Hl) as Hl1.
    assert (Hfb : file_bytes sb1 l = file_bytes sb l) by (eapply file_bytes_kept; [done|done|done|set_solver]).
    case_if.
    + rewrite get_next by (done || by apply cluster_in_range). simpl.
      rewrite (data_changes_next _ _ _ _ Hdc) by (done || by apply cluster_in_range).
      destruct (IH sb1 (next_of sb c) 0 (count + chunk) l) as (sb' & page' & Ht & Hdc' & Hw);
        [done|done|done|done|change (cluster_size sb1) with (cluster_size sb); lia|done|lia|lia|..].
      { destruct Hend as [Hend|Hend]; [left|by right]. rewrite Hfb. unfold file_bytes in *. simpl in Hend.
        rewrite lenZ_app in Hend. lia. }
      exists sb', page'. split; [done|]. split; [eapply data_changes_trans; [done|done|set_solver..]|].
      unfold file_bytes at 1 2. simpl. fold (file_bytes sb l). fold (file_bytes sb' l).
      rewrite (cluster_bytes_kept _ _ _ _ Hdc' Hwf1) by done. rewrite Hcbs, Hw, Hfb.
      rewrite (written_cross _ _ chunk) by lia. done.
    + assert (chunk = PAGE_SIZE - count) as Hchunk by lia.
      destruct (IH sb1 c (co + chunk) (count + chunk) (c :: l)) as (sb' & page' & Ht & Hdc' & Hw);
        [done|by eapply data_changes_chain|done|done|change (cluster_size sb1) with (cluster_size sb); lia|done|lia|lia| |].
      { left. unfold file_bytes. simpl. rewrite lenZ_app, Hcbs, lenZ_blit.
        pose proof (lenZ_nonneg (concat (map (cluster_bytes sb1) l))). lia. }
      exists sb', page'. split; [done|]. split; [eapply data_changes_trans; [done|done|set_solver..]|].
      rewrite Hw. rewrite Hchunk. replace (count + (PAGE_SIZE - count)) with PAGE_SIZE by lia.
      rewrite written_none by lia. unfold file_bytes. simpl. fold (file_bytes sb l). fold (file_bytes sb1 l).
      rewrite Hcbs, Hfb, Hchunk. symmetry. apply written_end; lia.
Qed.

Lemma blit_app_r {A} off (bs a b : list A) :
  lenZ a <= off -> off + lenZ bs <= lenZ (a ++ b) -> blit off bs (a ++ b) = a ++ blit (off - lenZ a) bs b.
Proof.
  intros Ha Hl. pose proof (lenZ_nonneg a). rewrite lenZ_app in Hl.
  rewrite !blit_eq by (rewrite ?lenZ_app; lia). unfold takeZ, dropZ, lenZ in *.
  rewrite take_app_ge, drop_app_ge by lia. rewrite <- app_assoc. do 2 f_equal; [f_equal; lia|]. do 2 f_equal. lia.
Qed.

Lemma file_bytes_app sb l1 l2 : file_bytes sb (l1 ++ l2) = file_bytes sb l1 ++ file_bytes sb l2.
Proof. unfold file_bytes. by rewrite map_app, concat_app. Qed.

(** Writing a page of a file replaces the bytes of its clusters from the offset of the page
    on, up to the end of the last cluster, and no other byte of the volume: not the table, and
    no cluster of another file. *)
Theorem fat_write_page_correct sb inode l offset file_size page :
  wf sb -> chain sb (first_cluster inode) l -> lenZ page = PAGE_SIZE -> Forall is_byte page ->
  0 <= offset < lenZ (file_bytes sb l) ->
  offset + PAGE_SIZE <= lenZ (file_bytes sb l) \/ file_size < offset + PAGE_SIZE ->
  exists sb' page', fat_transfer_page true sb inode offset file_size page = Some (sb', page', Ok tt) /\
    wf sb' /\ chain sb' (first_cluster inode) l /\
    file_bytes sb' l = blit offset (takeZ (lenZ (file_bytes sb l) - offset) page) (file_bytes sb l) /\
    (forall c l', chain sb c l' -> (forall x, x ∈ l' -> x ∉ l) ->
       chain sb' c l' /\ file_bytes sb' l' = file_bytes sb l').
Proof.
  intros Hwf Hl Hp Hb Ho Hend. pose proof (wf_size _ Hwf) as [Hcs _].
  destruct (cluster_of_offset sb inode l offset Hwf Hl Ho) as (c & Hg & Hne & Hc & Hdrop & Hnil).
  unfold fat_transfer_page. rewrite Hg. cbv beta iota delta [mbind option_bind].
  rewrite (proj2 (Z.eqb_neq _ _)) by exact Hne.
  pose proof (Z.mod_pos_bound offset (cluster_size sb) ltac:(lia)) as Hmod.
  set (i := Z.to_nat (offset / cluster_size sb)) in *.
  pose proof (segment_clusters _ _ _ _ Hl) as Hcl. pose proof (segment_clusters _ _ _ _ Hc) as Hcd.
  pose proof (f_equal lenZ Hdrop) as Hlen. rewrite (lenZ_dropZ offset) in Hlen by lia.
  assert (Hil : (i < length l)%nat).
  { destruct (decide (i < length l)%nat); [done|]. destruct Hnil. apply drop_ge. lia. }
  assert (Hmodlen : offset mod cluster_size sb <= lenZ (file_bytes sb (drop i l))).
  { rewrite (file_bytes_len _ _ Hwf Hcd). unfold lenZ. rewrite length_drop. nia. }
  rewrite lenZ_dropZ in Hlen by lia.
  destruct (write_loop_ok (Z.to_nat PAGE_SIZE) sb offset file_size page c (offset mod cluster_size sb) 0 (drop i l))
    as (sb' & page' & Ht & Hdc & Hw);
    [done|done|done|done|done|intros E; by destruct Hnil|unfold PAGE_SIZE; lia|rewrite Z2Nat.id; unfold PAGE_SIZE; lia|lia|].
  exists sb', page'. split; [exact Ht|]. pose proof (chain_nodup _ _ _ Hwf Hl) as Hnd.
  rewrite <- (take_drop i l) in Hnd. apply NoDup_app in Hnd as (_ & Hdis & _).
  split; [apply Hdc|]. split; [by eapply data_changes_chain|]. split.
  - assert (Hfront : file_bytes sb' (take i l) = file_bytes sb (take i l)).
    { unfold file_bytes. f_equal. apply map_ext_in. intros x Hx%list_elem_of_In.
      eapply cluster_bytes_kept; [done|done| |by apply Hdis]. rewrite Forall_forall in Hcl.
      apply Hcl. by eapply subseteq_take. }
    assert (Hfl : lenZ (file_bytes sb (take i l)) = Z.of_nat i * cluster_size sb).
    { rewrite (file_bytes_len _ _ Hwf) by (by apply Forall_take). unfold lenZ. rewrite length_take. lia. }
    assert (Hoff : offset - lenZ (file_bytes sb (take i l)) = offset mod cluster_size sb).
    { rewrite Hfl. unfold i. rewrite Z2Nat.id by (apply Z.div_pos; lia).
      pose proof (Z.div_mod offset (cluster_size sb)). lia. }
    rewrite <- (take_drop i l) at 1. rewrite file_bytes_app, Hfront, Hw. unfold written.
    assert (Hsplit : file_bytes sb l = file_bytes sb (take i l) ++ file_bytes sb (drop i l))
      by (by rewrite <- file_bytes_app, take_drop).
    rewrite Hsplit, blit_app_r; rewrite ?Hoff, ?lenZ_app.
    + do 3 f_equal. lia.
    + lia.
    + unfold takeZ, lenZ in *. rewrite length_take. lia.
  - intros c' l' Hc' Hd'. split; [by eapply data_changes_chain|].
    eapply file_bytes_kept; [done|done|done|]. intros x Hx Hx'. apply (Hd' x Hx). by eapply subseteq_drop.
Qed.

(** * Mounting *)

(** A boot sector that describes the device: the parts are in order and fit, the table has an
    entry for every cluster, and the volume is smaller than 4 GiB. *)
Record bpb_ok (bpb : list Z) (size : Z) : Prop := {
  bpb_signature : signature bpb = 0xaa55;
  bpb_sector : 512 <= byte_per_sector bpb;
  bpb_cluster : 0 < sector_per_cluster bpb;
  bpb_fats : 1 <= bpb_fat_count bpb;
  bpb_meta : bpb_reserved_sectors bpb + bpb_fat_count bpb * fat_sectors bpb + root_sectors bpb <= sectors_count bpb;
  bpb_size : sectors_count bpb * byte_per_sector bpb <= size;
  bpb_4g : sectors_count bpb * byte_per_sector bpb < 2 ^ 32;
  bpb_fat16 : 4085 <= bpb_data_clusters bpb;
  bpb_version : 65525 <= bpb_data_clusters bpb -> version bpb = 0;
  bpb_table : 4 * (bpb_data_clusters bpb + 2) <= fat_sectors bpb * byte_per_sector bpb \/
    bpb_data_clusters bpb < 65525 /\ 2 * (bpb_data_clusters bpb + 2) <= fat_sectors bpb * byte_per_sector bpb;
}.

Lemma field_bound bs off n :
  Forall is_byte bs -> 0 <= off -> 0 <= n -> off + n <= lenZ bs -> 0 <= field bs off n < 256 ^ n.
Proof.
  intros Hb Ho Hn Hl. unfold field.
  rewrite <- (lenZ_sliceZ off n bs Ho Hn Hl) at 3. by apply le_val_bound, Forall_sliceZ.
Qed.

(** The arithmetic of a mount: [fats] is the size of one table. *)
Lemma mount_wf (source : D) ty res bps spc fc fs root sectors dc :
  ty <> FAT12 -> 0 <= res -> 512 <= bps < 2 ^ 16 -> 0 < spc < 2 ^ 8 -> 1 <= fc -> 0 <= fs -> 0 <= root -> 0 <= dc ->
  dc * spc <= sectors - (res + fc * fs + root) -> sectors * bps <= lenZ (contents source) ->
  sectors * bps < 2 ^ 32 -> (match ty with FAT32 => 4 | _ => 2 end) * (dc + 2) <= fs * bps ->
  (ty = FAT16 -> dc < 65525) -> Forall is_byte (contents source) ->
  wf (mk_superblock source ty res bps 0 (bps * spc) dc 0 fc ((res + fc * fs + root) * bps)).
Proof.
  intros Hty Hres Hbps Hspc Hfc Hfs Hroot Hdc Hdata Hsz H4g Htab H16 Hb.
  assert (Hone : 1 * (fs * bps) <= fc * (fs * bps)) by (apply Z.mul_le_mono_nonneg_r; nia).
  assert (Hroot' : 0 <= root * bps) by nia. assert (Hres' : 0 <= res * bps) by nia.
  assert (Hmb : (res + fc * fs + root) * bps = res * bps + fc * (fs * bps) + root * bps) by ring.
  assert (Hd : dc * (bps * spc) <= (sectors - (res + fc * fs + root)) * bps).
  { replace (dc * (bps * spc)) with (dc * spc * bps) by ring. apply Z.mul_le_mono_nonneg_r; lia. }
  assert (Hcs : 512 <= bps * spc < 2 ^ 32) by nia.
  assert (Hdcs : dc * 512 <= dc * (bps * spc)) by (apply Z.mul_le_mono_nonneg_l; lia).
  assert (Hd0 : 0 <= dc * (bps * spc)) by (apply Z.mul_nonneg_nonneg; lia).
  rewrite Z.mul_sub_distr_r in Hd. assert (0 <= fs * bps) by nia.
  split; unfold table_start, table_size, fat_bytes, width, fat_eof; simpl;
    [done|lia| |by left|lia|lia| |done]; destruct ty; try done; try lia. specialize (H16 eq_refl). lia.
Qed.

Lemma mount_describes (source : D) bpb :
  vfs_read source 0 512 = Ok bpb -> lenZ bpb = 512 -> Forall is_byte bpb ->
  Forall is_byte (contents source) -> bpb_ok bpb (lenZ (contents source)) ->
  exists sb root, fat_mount source = Ok (sb, root) /\ wf sb /\ hint_ok sb.
Proof.
  intros Hr Hlen Hb Hbd [Hsig Hsec Hcl Hfc Hmeta Hsz H4g H16 Hver Htab].
  pose proof (field_bound bpb 11 2 Hb ltac:(lia) ltac:(lia) ltac:(lia)) as Hbps. fold (byte_per_sector bpb) in Hbps.
  pose proof (field_bound bpb 13 1 Hb ltac:(lia) ltac:(lia) ltac:(lia)) as Hspc. fold (sector_per_cluster bpb) in Hspc.
  pose proof (field_bound bpb 14 2 Hb ltac:(lia) ltac:(lia) ltac:(lia)) as Hres. fold (bpb_reserved_sectors bpb) in Hres.
  assert (0 <= fat_sectors bpb).
  { unfold fat_sectors. case_if; apply field_bound; (done || lia). }
  assert (0 <= root_sectors bpb) by (apply Z.mod_pos_bound; lia).
  assert (0 <= bpb_fat_count bpb * fat_sectors bpb) by nia.
  assert (Hsc : sectors_count bpb < 2 ^ 32) by nia.
  assert (Hm : meta_sectors bpb = bpb_reserved_sectors bpb + bpb_fat_count bpb * fat_sectors bpb + root_sectors bpb)
    by (unfold meta_sectors; apply u32_small; lia).
  assert (Hds : u32 (meta_sectors bpb * byte_per_sector bpb) = meta_sectors bpb * byte_per_sector bpb)
    by (apply u32_small; rewrite Hm; nia).
  set (data := sectors_count bpb - meta_sectors bpb).
  assert (Hdc : bpb_data_clusters bpb = data / sector_per_cluster bpb).
  { unfold bpb_data_clusters. rewrite u32_small; [done|]. rewrite Hm. lia. }
  assert (Hdle : bpb_data_clusters bpb * sector_per_cluster bpb <= data).
  { rewrite Hdc, Z.mul_comm. apply Z.mul_div_le. lia. }
  unfold fat_mount, type_of_clusters. rewrite Hr, Hlen, Hsig. simpl.
  rewrite (proj2 (Z.ltb_ge (byte_per_sector bpb) 512)), (proj2 (Z.eqb_neq (sector_per_cluster bpb) 0)) by lia.
  rewrite (proj2 (Z.ltb_ge (bpb_data_clusters bpb) 4085)) by lia. simpl. rewrite Hds.
  set (ty := if bpb_data_clusters bpb <? 65525 then FAT16 else FAT32).
  assert (Hty : bool_decide (ty = FAT32) && negb (version bpb =? 0) = false).
  { unfold ty. case_if; [done|]. rewrite Hver by lia. done. }
  rewrite Hty. eexists _, _. split; [reflexivity|]. split.
  - rewrite Hm. apply mount_wf with (sectors_count bpb); try done; try lia.
    + unfold ty. by case_if.
    + unfold ty. case_if; lia.
    + unfold ty. case_if; [lia|done].
  - split; simpl; [lia|]. intros c Hc [[? _] _]. lia.
Qed.

(** C37: Mounting, when the first 512 bytes of the device can be read.  A superblock is built
    exactly when they are 512, have the signature, sectors of at least 512 bytes and
    clusters of at least one sector, and are of version 0 on FAT32; otherwise the error is
    [-EFTYPE].  The type of the volume is decided by the number of its clusters alone: FAT12
    below 4085, FAT16 below 65525, FAT32 from there.  And for a boot sector that describes
    the device, with 4085 clusters or more (no FAT12), tables that have an entry for every
    cluster, all the parts in order on the device and less than 4 GiB, the superblock is one
    that the theorems on the table, the chains and the data of FAT16 and FAT32 start from
    ([wf] and [hint_ok]); its [sectors_per_fat] is 0, which they allow, although the copies
    of the table are then not kept ([fat_second_table_stale]). *)
Theorem fat_mount_correct (source : D) bpb :
  vfs_read source 0 512 = Ok bpb ->
  match fat_mount source with
  | Ok (sb, _) =>
      device sb = source /\ lenZ bpb = 512 /\ signature bpb = 0xaa55 /\ 512 <= byte_per_sector bpb /\
      sector_per_cluster bpb <> 0 /\ (65525 <= bpb_data_clusters bpb -> version bpb = 0) /\
      fat_type sb = (if bpb_data_clusters bpb <? 4085 then FAT12
                     else if bpb_data_clusters bpb <? 65525 then FAT16 else FAT32)
  | Err e =>
      e = EFTYPE /\ (lenZ bpb <> 512 \/ signature bpb <> 0xaa55 \/ byte_per_sector bpb < 512 \/
                     sector_per_cluster bpb = 0 \/ 65525 <= bpb_data_clusters bpb /\ version bpb <> 0)
  end /\
  (lenZ bpb = 512 -> Forall is_byte bpb -> Forall is_byte (contents source) ->
   bpb_ok bpb (lenZ (contents source)) ->
   exists sb root, fat_mount source = Ok (sb, root) /\ wf sb /\ hint_ok sb).
Proof.
  intros Hr. split; [|by apply mount_describes]. unfold fat_mount, type_of_clusters. rewrite Hr.
  destruct (lenZ bpb =? 512) eqn:E1; zbool; cbn [negb]; [|by split; [|left]].
  destruct (signature bpb =? 0xaa55) eqn:E2; zbool; cbn [negb]; [|by split; [|right; left]].
  destruct (byte_per_sector bpb <? 512) eqn:E3; zbool; cbn [orb]; [split; [done|right; right; left; lia]|].
  destruct (sector_per_cluster bpb =? 0) eqn:E4; zbool; [by split; [|right; right; right; left]|].
  destruct (bpb_data_clusters bpb <? 4085) eqn:E5; zbool; [split_and!; try done; lia|].
  destruct (bpb_data_clusters bpb <? 65525) eqn:E6; zbool; [split_and!; try done; lia|].
  rewrite bool_decide_eq_true_2 by done. cbn [andb].
  destruct (version bpb =? 0) eqn:E7; zbool; cbn [negb]; [by split_and!|].
  split; [done|]. right; right; right; right. split; [lia|done].
Qed.

End volume.


(** * A small volume *)

(** FAT16, nine clusters of 8 bytes; file A has clusters 5, 6, 7, 8 and file B has 3, 4. *)
Definition ex_image : list Z :=
  replicate 8 0 ++
  concat (map (le_bytes 2) [0xfff8; 0xffff; 0; 4; 0xfff8; 6; 7; 8; 0xfff8; 0; 0]) ++
  replicate 2 0 ++ map (fun i => Z.of_nat i) (seq 0 72).

Definition ex_fat : fat_superblock (list Z) := mk_superblock ex_image FAT16 1 8 0 8 9 0 2 32.

Lemma ex_fat_wf : wf ex_fat.
Proof.
  split; try done; try (unfold ex_fat, table_start, table_size, width, fat_eof; simpl; lia).
  - apply Forall_forall. intros x Hx.
    assert (Hall : forallb (fun b => (0 <=? b) && (b <? 256)) ex_image = true) by (vm_compute; reflexivity).
    rewrite forallb_forall in Hall. apply list_elem_of_In, Hall in Hx. zbool. unfold is_byte. lia.
Qed.

Lemma ex_hint : hint_ok ex_fat.
Proof. split; [simpl; lia|]. intros c Hc [[? _] _]. simpl in Hc. lia. Qed.

Ltac chain_compute :=
  repeat match goal with
  | |- chain _ _ _ => unfold chain
  | |- segment _ _ (_ :: _) _ => split; [vm_compute; reflexivity|]; split; [split; vm_compute; (reflexivity || discriminate)|]
  | |- segment _ _ [] _ => vm_compute; reflexivity
  end.

Lemma ex_chain_a : chain ex_fat 5 [5; 6; 7; 8].
Proof. chain_compute. Qed.

Lemma fat_set_get_next_cluster_witness :
  exists sb', fat_set_next_cluster ex_fat 9 4 = (sb', Ok tt) /\ wf sb' /\ fat_get_next_cluster sb' 9 = Some 4.
Proof.
  destruct (fat_set_get_next_cluster ex_fat 9 4 ex_fat_wf) as (sb' & H1 & H2 & H3 & _).
  - split; simpl; lia.
  - split; [lia|]. vm_compute. discriminate.
  - exists sb'. split; [exact H1|]. split; [exact H2|exact H3].
Defined.

Lemma fat_grow_correct_witness :
  (exists sb' inode' new, fat_grow ex_fat (mk_head 5 false) 8 2 = Some (sb', inode', Ok tt) /\
     lenZ new = 2 /\ Forall (is_free ex_fat) new /\ chain sb' (first_cluster inode') ([5; 6; 7; 8] ++ new) /\
     wf sb' /\ hint_ok sb' /\ others_kept ex_fat sb' [5; 6; 7; 8]) \/
  (exists sb', fat_grow ex_fat (mk_head 5 false) 8 2 = Some (sb', mk_head 5 false, Err ENOSPC) /\
     lenZ (free_list ex_fat) < 2 /\ chain sb' 5 [5; 6; 7; 8] /\
     wf sb' /\ hint_ok sb' /\ others_kept ex_fat sb' [5; 6; 7; 8]).
Proof.
  apply (fat_grow_correct ex_fat (mk_head 5 false) [5; 6; 7; 8] 2).
  - exact ex_fat_wf.
  - exact ex_hint.
  - exact ex_chain_a.
  - lia.
Defined.

Lemma fat_free_clusters_correct_witness :
  exists sb', fat_free_clusters ex_fat (mk_head 5 false) = Some sb' /\ wf sb' /\ hint_ok sb' /\
    others_kept ex_fat sb' [5; 6; 7; 8] /\ Forall (is_free sb') (takeZ 10000 [5; 6; 7; 8]) /\
    (lenZ [5; 6; 7; 8] <= 10000 -> Forall (is_free sb') [5; 6; 7; 8]).
Proof.
  apply (fat_free_clusters_correct ex_fat (mk_head 5 false) [5; 6; 7; 8]).
  - exact ex_fat_wf.
  - exact ex_hint.
  - exact ex_chain_a.
Defined.

Lemma fat_truncate_correct_witness :
  exists sb' inode', fat_truncate ex_fat (mk_head 5 false) 30 45 = Some (sb', inode', 45) /\
    ((exists new, chain sb' (first_cluster inode') ([5; 6; 7; 8] ++ new) /\ lenZ ([5; 6; 7; 8] ++ new) = clusters ex_fat 45) \/
     lenZ (free_list ex_fat) < clusters ex_fat 45 - clusters ex_fat 30 /\ chain sb' (first_cluster inode') [5; 6; 7; 8]).
Proof.
  destruct (fat_truncate_correct ex_fat (mk_head 5 false) [5; 6; 7; 8] 30 45)
    as (sb' & inode' & H1 & _ & _ & _ & _ & H2).
  - exact ex_fat_wf.
  - exact ex_hint.
  - exact ex_chain_a.
  - reflexivity.
  - lia.
  - simpl. lia.
  - left. lia.
  - exists sb', inode'. split; [exact H1|]. apply H2. lia.
Defined.

Definition ex_page : list Z := replicate (Z.to_nat PAGE_SIZE) 7.

Lemma ex_page_len : lenZ ex_page = PAGE_SIZE.
Proof. unfold lenZ, ex_page. rewrite length_replicate. rewrite Z2Nat.id; [done|]. unfold PAGE_SIZE. lia. Qed.

Lemma fat_read_page_correct_witness :
  fat_transfer_page false ex_fat (mk_head 5 false) 0 30 ex_page =
    Some (ex_fat, takeZ PAGE_SIZE (dropZ 0 (file_bytes ex_fat [5; 6; 7; 8]) ++ replicate (Z.to_nat PAGE_SIZE) 0), Ok tt).
Proof.
  apply (fat_read_page_correct ex_fat (mk_head 5 false) [5; 6; 7; 8] 0 30 ex_page).
  - exact ex_fat_wf.
  - exact ex_chain_a.
  - exact ex_page_len.
  - split; [lia|reflexivity].
  - right. reflexivity.
Defined.

Lemma fat_write_page_correct_witness :
  exists sb' page', fat_transfer_page true ex_fat (mk_head 5 false) 0 30 ex_page = Some (sb', page', Ok tt) /\
    file_bytes sb' [5; 6; 7; 8] = blit 0 (takeZ (32 - 0) ex_page) (file_bytes ex_fat [5; 6; 7; 8]).
Proof.
  destruct (fat_write_page_correct ex_fat (mk_head 5 false) [5; 6; 7; 8] 0 30 ex_page)
    as (sb' & page' & H1 & _ & _ & H2 & _).
  - exact ex_fat_wf.
  - exact ex_chain_a.
  - exact ex_page_len.
  - apply Forall_replicate. unfold is_byte. lia.
  - split; [lia|reflexivity].
  - right. reflexivity.
  - exists sb', page'. split; [exact H1|exact H2].
Defined.

(** A boot sector: 512 bytes a sector, one a cluster, 1 reserved sector, 2 tables of 20 sectors,
    16 entries in the root directory, 5000 sectors. *)
Definition ex_bpb : list Z :=
  replicate 11 0 ++ [0; 2; 1; 1; 0; 2; 16; 0; 0x88; 0x13; 0xf8; 20; 0] ++ replicate 486 0 ++ [0x55; 0xaa].
Definition ex_source : list Z := ex_bpb ++ replicate (Z.to_nat (5000 * 512 - 512)) 0.

Lemma ex_bpb_ok : bpb_ok ex_bpb (5000 * 512).
Proof.
  split.
  - vm_compute. reflexivity.
  - vm_compute. discriminate.
  - vm_compute. reflexivity.
  - vm_compute. discriminate.
  - vm_compute. discriminate.
  - vm_compute. discriminate.
  - vm_compute. reflexivity.
  - vm_compute. discriminate.
  - vm_compute. reflexivity.
  - right. vm_compute. split; [reflexivity|discriminate].
Qed.

Lemma fat_mount_correct_witness :
  exists sb root, fat_mount ex_source = Ok (sb, root) /\ wf sb /\ hint_ok sb.
Proof.
  assert (Hlen : lenZ ex_source = 5000 * 512).
  { unfold ex_source. rewrite lenZ_app. unfold lenZ at 2. rewrite length_replicate, Z2Nat.id by lia. reflexivity. }
  assert (Hb : Forall is_byte ex_bpb).
  { apply Forall_app. split; [|apply Forall_app; split; [|apply Forall_app; split]];
      repeat constructor; try (apply Forall_replicate); unfold is_byte; lia. }
  assert (Hread : forall tail : list Z, vfs_read (ex_bpb ++ tail) 0 512 = Ok ex_bpb) by (intros tail; reflexivity).
  apply (fat_mount_correct ex_source ex_bpb (Hread _)).
  - reflexivity.
  - exact Hb.
  - apply Forall_app. split; [exact Hb|]. apply Forall_replicate. unfold is_byte. lia.
  - change (contents ex_source) with ex_source. rewrite Hlen. exact ex_bpb_ok.
Defined.


(** * Where the code differs *)

(** On FAT12 the entry of an odd cluster is read and written one byte too far, where the entry of
    the next cluster begins: linking cluster 3 to cluster 5 changes the entry of cluster 4. *)
Definition ex_fat12 : fat_superblock (list Z) := mk_superblock (replicate 64 0) FAT12 1 8 0 8 4 0 1 32.

Example fat12_entries_overlap :
  (fat_get_next_cluster ex_fat12 4, fat_get_next_cluster (fat_set_next_cluster ex_fat12 3 0x105).1 4) =
    (Some 0, Some 0x10).
Proof. vm_compute. reflexivity. Qed.

(** A mounted volume has 0 in [sectors_per_fat], so every copy of the table that is written is
    the first: with two tables of two sectors the second keeps the old entry. *)
Example fat_second_table_stale :
  let image := replicate 72 0 in
  let second sb := sliceZ (8 + 16 + 2 * 5) 2 (contents (device sb)) in
  (second (fat_set_next_cluster (mk_superblock image FAT16 1 8 0 8 4 0 2 40) 5 3).1,
   second (fat_set_next_cluster (mk_superblock image FAT16 1 8 2 8 4 0 2 40) 5 3).1) = ([0; 0], [3; 0]).
Proof. vm_compute. reflexivity. Qed.

(** [fat_shrink] ends the chain at the cluster whose number is the number of clusters left.
    Shrinking file A from four clusters to three ends file B at its first cluster, frees cluster
    8 and leaves it in the chain of A. *)
Example fat_shrink_wrong_cluster :
  ('(sb, inode, r) ← fat_shrink ex_fat (mk_head 5 false) 4 3;
   Some (r, map (fat_get_next_cluster sb) [3; 5; 6; 7; 8])) =
    Some (Ok tt, [Some 0xfff8; Some 6; Some 7; Some 8; Some 0]).
Proof. vm_compute. reflexivity. Qed.

(** When the volume is full [fat_grow] keeps the clusters it has taken: clusters 2, 9 and 10 are
    linked to one another and to no file.  [fat_truncate] drops the error and sets the size. *)
Example fat_grow_leaks :
  ('(sb, inode, r) ← fat_grow ex_fat (mk_head 5 false) 8 4;
   Some (r, first_cluster inode, map (fat_get_next_cluster sb) [8; 2; 9; 10])) =
    Some (Err ENOSPC, 5, [Some 0xfff8; Some 0xfff8; Some 2; Some 9]) /\
  ('(sb, inode, size) ← fat_truncate ex_fat (mk_head 5 false) 32 64;
   Some (size, fat_get_next_cluster sb 8)) = Some (64, Some 0xfff8).
Proof. vm_compute. done. Qed.

(** The offset of a cluster is computed in 32 bits: with clusters of 32 KiB, cluster 131074 and
    cluster 2 are the same bytes of the device. *)
Example fat_offset_wraps :
  let sb := mk_superblock (D := list Z) [] FAT32 32 512 0 32768 200000 0 2 65536 in
  fat_cluster2offset sb 131074 = fat_cluster2offset sb 2.
Proof. vm_compute. reflexivity. Qed.

End Fat.
