(* ===== verification/FatName.v ===== *)
(** Names and dates of FAT directories (modules/fs/fat/fat.c: dates, short names, the packing of
    long names; modules/include/module/fat.h).

    A directory entry is its 32 bytes, a name the bytes of a string without the final zero.  The
    character classes of the C library are those of ASCII. *)

From S2P Require Import Prelude Time.

Module FatName.

Implicit Types (entry : list Z) (name : list Z).

(** ** Dates *)

Definition fat_date2time (date time : Z) : Z :=
  let year := Z.land (Z.shiftr date 9) 0x7f + 1980 in
  let month := Z.land (Z.shiftr date 5) 0xf in
  let day := Z.land date 0x1f in
  let hour := Z.land (Z.shiftr time 11) 0x1f in
  let minute := Z.land (Z.shiftr time 5) 0x3f in
  let second := Z.land time 0x1f * 2 in
  Time.date2time year month day hour minute second.

Definition fat_time2date (time : Z) : option Z :=
  d ← Time.time2date time;
  Some (u16 (Z.lor (Z.lor (Z.land (Time.d_day d) 0x1f) (Z.shiftl (Z.land (Time.d_month d) 0xf) 5))
          (Z.shiftl (Z.land (Time.d_year d - 1980) 0x7f) 9))).

(** ** Entries *)

Definition ATTR_READ_ONLY : Z := 0x01.
Definition ATTR_HIDDEN : Z := 0x02.
Definition ATTR_SYSTEM : Z := 0x04.
Definition ATTR_VOLUME_ID : Z := 0x08.
Definition ATTR_DIRECTORY : Z := 0x10.
Definition ATTR_LONG_NAME : Z := 0x0f.
Definition LAST_LONG_ENTRY : Z := 0x40.
Definition FAT_NT_CASE_LOWER_BASE : Z := 0x08.
Definition FAT_NT_CASE_LOWER_EXT : Z := 0x10.
Definition FAT_LFN_NAME_LENGTH : Z := 13.

Definition byte_at entry (i : Z) : Z := nthZ 0 entry i.
Definition base entry : list Z := sliceZ 0 8 entry.
Definition ext entry : list Z := sliceZ 8 3 entry.
Definition attribute entry : Z := byte_at entry 11.
Definition nt_reserved entry : Z := byte_at entry 12.
Definition cluster_higher entry : Z := le_val (sliceZ 20 2 entry).
Definition cluster_lower entry : Z := le_val (sliceZ 26 2 entry).
Definition entry_size entry : Z := le_val (sliceZ 28 4 entry).

(** The first cluster, as [fat_entry2inode] computes it. *)
Definition entry_cluster entry : Z := Z.lor (Z.shiftl (cluster_higher entry) 16) (cluster_lower entry).

Definition is_lfn entry : bool := Z.land (attribute entry) ATTR_LONG_NAME =? ATTR_LONG_NAME.

(** ** Characters *)

Definition SPACE : Z := 32.
Definition DOT : Z := 46.

Definition islower (c : Z) : bool := (97 <=? c) && (c <=? 122).
Definition isupper (c : Z) : bool := (65 <=? c) && (c <=? 90).
Definition isalpha (c : Z) : bool := islower c || isupper c.
Definition toupper (c : Z) : Z := if islower c then c - 32 else c.
Definition tolower (c : Z) : Z := if isupper c then c + 32 else c.

(** A [char] is signed. *)
Definition schar (c : Z) : Z := if 128 <=? c then c - 256 else c.

(** ** Short names *)

Definition fat_right_rotation (data : Z) : Z :=
  Z.lor (if has data 1 then 0x80 else 0) (Z.shiftr data 1).

Definition fat_sfn_checksum entry : Z :=
  foldl (fun checksum c => u8 (fat_right_rotation checksum + c)) 0 (base entry ++ ext entry).

Fixpoint until_space (l : list Z) : list Z :=
  match l with
  | [] => []
  | c :: l => if c =? SPACE then [] else c :: until_space l
  end.

(** Both parts follow the flag of the base. *)
Definition fat_parse_sfn entry : list Z :=
  let conv := if has (nt_reserved entry) FAT_NT_CASE_LOWER_BASE then tolower else toupper in
  map conv (until_space (base entry)) ++
  (if nthZ 0 (ext entry) 0 =? SPACE then [] else [DOT]) ++
  map conv (until_space (ext entry)).

(** One part of the entry against the name; what is left of the name. *)
Fixpoint match_part (part name : list Z) : option (list Z) :=
  match part with
  | [] => Some name
  | b :: part =>
      if b =? SPACE then Some name
      else if schar b <? 0x20 then None
      else
        match name with
        | [] => None
        | c :: name => if toupper c =? b then match_part part name else None
        end
  end.

Definition fat_sfn_match entry name : bool :=
  match match_part (base entry) name with
  | None => false
  | Some rest =>
      let rest := match rest with c :: r => if c =? DOT then r else rest | [] => [] end in
      match match_part (ext entry) rest with
      | Some [] => true
      | _ => false
      end
  end.

Definition fat_is_char_sfn_compatible (c : Z) : bool :=
  negb (bool_decide (c ∈ [32; 43; 44; 59; 61; 91; 93]) || (0x80 <=? c)).

Definition fat_char_to_sfn_compatible (c : Z) : Z :=
  if fat_is_char_sfn_compatible c then toupper c else 95.

(** The loop of [fat_is_long_name]; [current_case] is 0 or a letter. *)
Fixpoint long_name_loop name (chars_in_name chars_in_extention current_case : Z) (in_extention : bool) : bool :=
  match name with
  | [] => (8 <? chars_in_name) || (3 <? chars_in_extention)
  | c :: name =>
      if c =? DOT then
        if in_extention then true
        else long_name_loop name chars_in_name chars_in_extention 0 true
      else
        let chars_in_extention := if in_extention then chars_in_extention + 1 else chars_in_extention in
        let chars_in_name := if in_extention then chars_in_name else chars_in_name + 1 in
        if negb (fat_is_char_sfn_compatible c) then true
        else if isalpha c then
          if isupper c then
            if current_case =? 97 then true
            else long_name_loop name chars_in_name chars_in_extention (if current_case =? 0 then 65 else current_case) in_extention
          else
            if current_case =? 65 then true
            else long_name_loop name chars_in_name chars_in_extention (if current_case =? 0 then 97 else current_case) in_extention
        else long_name_loop name chars_in_name chars_in_extention current_case in_extention
  end.

Definition fat_is_long_name name : bool := long_name_loop name 0 0 0 false.

(** What follows the last dot ([strrchr]). *)
Fixpoint after_last_dot name : option (list Z) :=
  match name with
  | [] => None
  | c :: name =>
      match after_last_dot name with
      | Some r => Some r
      | None => if c =? DOT then Some name else None
      end
  end.

Fixpoint before_dot name : list Z :=
  match name with
  | [] => []
  | c :: name => if c =? DOT then [] else c :: before_dot name
  end.

Definition pad (n : Z) (l : list Z) : list Z := l ++ replicate (Z.to_nat n - length l) SPACE.

(** The base of the entry and its case; [None] is the failed assertion on the length of a short
    name. *)
Definition sfn_base name : option (list Z * Z) :=
  if fat_is_long_name name then
    Some (pad 8 (map fat_char_to_sfn_compatible (takeZ 6 (before_dot name)) ++ [126; 49]), 0)
  else if lenZ name <=? 12 then
    let b := takeZ 8 (before_dot name) in
    Some (pad 8 (map toupper b), if existsb islower b then FAT_NT_CASE_LOWER_BASE else 0)
  else None.

Definition fat_sfn_generate (eof : Z) name (attributes : Z) : option (list Z) :=
  let extention := takeZ 3 (default [] (after_last_dot name)) in
  let nt_ext := if existsb islower extention then FAT_NT_CASE_LOWER_EXT else 0 in
  let ext := pad 3 (map fat_char_to_sfn_compatible extention) in
  '(base, nt) ← sfn_base name;
  Some (base ++ ext ++ [attributes; Z.lor nt nt_ext; 0] ++ replicate 6 0 ++
        le_bytes 2 (u16 (Z.shiftr eof 16)) ++ replicate 4 0 ++ le_bytes 2 (u16 eof) ++ replicate 4 0).

(** ** Long names *)

(** A long entry: its number, flags and thirteen units in three places. *)
Definition lfn_ord entry : Z := byte_at entry 0.

Fixpoint units_of_bytes (bs : list Z) : list Z :=
  match bs with
  | a :: b :: bs => a + 256 * b :: units_of_bytes bs
  | _ => []
  end.

Definition lfn_units entry : list Z :=
  units_of_bytes (sliceZ 1 10 entry) ++ units_of_bytes (sliceZ 14 12 entry) ++ units_of_bytes (sliceZ 28 4 entry).

(** [fat_copy_lfn_chunck]: [size] units of the name from [index] on, with a zero and a filling
    behind its end. *)
Definition fat_copy_lfn_chunck (size : nat) (src : list Z) (index : Z) : list Z :=
  map (fun i => let index := index + Z.of_nat i in
         if index <? lenZ src then nthZ 0 src index else if index =? lenZ src then 0 else 0xffff)
    (seq 0 size).

(** The long entry number [ord] of [entries_count]. *)
Definition make_lfn (checksum : Z) (utf16_name : list Z) (entries_count ord : Z) : list Z :=
  let i := (ord - 1) * FAT_LFN_NAME_LENGTH in
  let bytes l := concat (map (le_bytes 2) l) in
  [if ord =? entries_count then Z.lor (u8 ord) LAST_LONG_ENTRY else u8 ord] ++
  bytes (fat_copy_lfn_chunck 5 utf16_name i) ++
  [ATTR_LONG_NAME; 0; checksum] ++
  bytes (fat_copy_lfn_chunck 6 utf16_name (i + 5)) ++
  [0; 0] ++
  bytes (fat_copy_lfn_chunck 2 utf16_name (i + 11)).

Definition lfn_count (utf16_len : Z) : Z := (utf16_len + FAT_LFN_NAME_LENGTH - 1) / FAT_LFN_NAME_LENGTH.

(** * Dates *)

Lemma shiftr_div a n : 0 <= n -> Z.shiftr a n = a / 2 ^ n.
Proof. intros. by apply Z.shiftr_div_pow2. Qed.

(** The three fields of a date, packed and unpacked. *)
Lemma date_fields day month year :
  0 <= day < 32 -> 0 <= month < 16 -> 0 <= year < 128 ->
  let date := u16 (Z.lor (Z.lor (Z.land day 0x1f) (Z.shiftl (Z.land month 0xf) 5)) (Z.shiftl (Z.land year 0x7f) 9)) in
  Z.land date 0x1f = day /\ Z.land (Z.shiftr date 5) 0xf = month /\ Z.land (Z.shiftr date 9) 0x7f = year.
Proof.
  intros Hd Hm Hy.
  assert (Hval : u16 (Z.lor (Z.lor (Z.land day 0x1f) (Z.shiftl (Z.land month 0xf) 5)) (Z.shiftl (Z.land year 0x7f) 9)) =
    year * 512 + (month * 32 + day)).
  { rewrite (land_ones_mod day _ 5), (land_ones_mod month _ 4), (land_ones_mod year _ 7) by done.
    rewrite !Z.mod_small by lia. rewrite !Z.shiftl_mul_pow2 by lia.
    rewrite (Z.lor_comm day), (lor_add month day 5), Z.lor_comm, (lor_add year _ 9) by lia.
    unfold u16. apply Z.mod_small. lia. }
  simpl. rewrite Hval. clear Hval.
  rewrite (land_ones_mod _ 0x1f 5), (land_ones_mod _ 0xf 4), (land_ones_mod _ 0x7f 7) by done.
  rewrite !shiftr_div by lia. Z.div_mod_to_equations. lia.
Qed.

(** The dates written to the volume.  For a time of the years 1980 to 2107 the date that
    [fat_time2date] stores reads back as the midnight of the day before: the day of
    [time2date] counts from 0, the one of [fat_date2time] from 1. *)
Theorem fat_date_roundtrip time d :
  Time.time2date time = Some d -> 0 <= time -> 1980 <= Time.d_year d < 2108 ->
  exists date, fat_time2date time = Some date /\
    fat_date2time date 0 = time - 86400 - Time.d_second d - 60 * Time.d_minute d - 3600 * Time.d_hour d.
Proof.
  intros Hd Ht Hy. destruct (Time.time2date_spec time Ht) as (d' & Hd' & Hv & _ & Hback).
  rewrite Hd in Hd'. injection Hd' as <-. destruct Hv as (_ & Hm & Hday & _).
  unfold fat_time2date. rewrite Hd. simpl. eexists. split; [reflexivity|].
  pose proof (Time.nbofdayin_bounds (Time.d_year d) (Time.d_month d) Hm).
  destruct (date_fields (Time.d_day d) (Time.d_month d) (Time.d_year d - 1980)) as (E1 & E2 & E3); [lia..|].
  unfold fat_date2time. rewrite E1, E2, E3. rewrite Z.sub_add.
  change (Z.land (Z.shiftr 0 11) 0x1f) with 0. change (Z.land (Z.shiftr 0 5) 0x3f) with 0.
  change (Z.land 0 0x1f) with 0.
  unfold Time.date2time in *. lia.
Qed.

(** * Short names *)

(** A character of a short name that is not its dot. *)
Definition short_char (c : Z) : Prop := c <> DOT /\ fat_is_char_sfn_compatible c = true.

Lemma ext_shape name cn ce cc :
  long_name_loop name cn ce cc true = false -> Forall short_char name /\ cn <= 8 /\ ce + lenZ name <= 3.
Proof.
  revert ce cc. induction name as [|c name IH]; intros ce cc H; simpl in H.
  - zbool. split; [constructor|]. unfold lenZ. simpl. lia.
  - case_if_in H; [done|]. rewrite lenZ_cons.
    destruct (fat_is_char_sfn_compatible c) eqn:E; simpl in H; [|done].
    assert (Hc : short_char c) by done.
    destruct (isalpha c); [destruct (isupper c)|]; repeat case_if_in H; try done;
      apply IH in H as (? & ? & ?); (split; [by constructor|lia]).
Qed.

Lemma name_shape name cn ce cc :
  long_name_loop name cn ce cc false = false ->
  exists b, Forall short_char b /\ cn + lenZ b <= 8 /\
    (name = b \/ exists x, name = b ++ DOT :: x /\ Forall short_char x /\ ce + lenZ x <= 3).
Proof.
  revert cn ce cc. induction name as [|c name IH]; intros cn ce cc H; simpl in H.
  - zbool. exists []. split; [constructor|]. unfold lenZ. simpl. split; [lia|by left].
  - case_if_in H.
    + subst c. apply ext_shape in H as (Hx & Hn & He). exists []. split; [constructor|].
      split; [unfold lenZ; simpl; lia|]. right. by exists name.
    + destruct (fat_is_char_sfn_compatible c) eqn:E; simpl in H; [|done].
      assert (Hc : short_char c) by done.
      assert (Hrec : exists cn' ce' cc', long_name_loop name cn' ce' cc' false = false /\ cn' = cn + 1 /\ ce' = ce).
      { destruct (isalpha c); [destruct (isupper c)|]; repeat case_if_in H; try done; by eexists _, _, _. }
      destruct Hrec as (cn' & ce' & cc' & Hl & -> & ->). apply IH in Hl as (b & Hb & Hlen & Hcase).
      exists (c :: b). split; [by constructor|]. rewrite lenZ_cons. split; [lia|].
      destruct Hcase as [->|(x & -> & Hx)]; [by left|]. right. by exists x.
Qed.

Lemma before_dot_shape b rest :
  Forall short_char b -> before_dot (b ++ rest) = b ++ before_dot rest.
Proof.
  induction 1 as [|c b [Hc _] _ IH]; [done|]. simpl. rewrite (proj2 (Z.eqb_neq _ _)) by done. by rewrite IH.
Qed.

Lemma after_last_dot_none b : Forall short_char b -> after_last_dot b = None.
Proof.
  induction 1 as [|c b [Hc _] _ IH]; [done|]. simpl. rewrite IH. by rewrite (proj2 (Z.eqb_neq _ _)).
Qed.

Lemma after_last_dot_shape b x : Forall short_char x -> after_last_dot (b ++ DOT :: x) = Some x.
Proof.
  intros Hx. induction b as [|c b IH]; simpl; [by rewrite after_last_dot_none|]. by rewrite IH.
Qed.

Definition printable (c : Z) : Prop := 0x20 <= c.

Lemma compatible_range c :
  fat_is_char_sfn_compatible c = true -> printable c ->
  c <> SPACE /\ c < 0x80 /\ toupper c <> SPACE /\ 0x20 <= schar (toupper c).
Proof.
  unfold fat_is_char_sfn_compatible, printable, schar, toupper, islower. intros Hc Hp.
  apply negb_true_iff, orb_false_iff in Hc as [Hn Hr]. apply bool_decide_eq_false in Hn. zbool.
  assert (c <> SPACE) by (intros ->; apply Hn; set_solver). unfold SPACE in *.
  split_and!; [done|done|case_if; lia|].
  destruct ((97 <=? c) && (c <=? 122)) eqn:E; zbool; rewrite (proj2 (Z.leb_gt _ _)); lia.
Qed.

(** What [fat_sfn_match] accepts: the letters of the base and those of the extension, in any
    case, with a dot between them or without one; the entry must have no control character
    in front of its padding. *)
Definition sound_part (part : list Z) : Prop := Forall (fun b => 0x20 <= schar b) (until_space part).
Definition sfn_answers entry name : Prop :=
  exists b sep x, name = b ++ sep ++ x /\ (sep = [DOT] \/ sep = [] /\ head x <> Some DOT) /\
    map toupper b = until_space (base entry) /\ map toupper x = until_space (ext entry) /\
    sound_part (base entry) /\ sound_part (ext entry).

Lemma match_part_spec part name rest :
  match_part part name = Some rest <->
  exists b, name = b ++ rest /\ map toupper b = until_space part /\ sound_part part.
Proof.
  revert name. induction part as [|p part IH]; intros name; cbn [match_part until_space].
  { split; [intros [= ->]; exists []; by split_and!; [..|constructor]|].
    intros (b & -> & Hb & _). apply map_eq_nil in Hb as ->. done. }
  unfold sound_part in *. cbn [until_space]. destruct (p =? SPACE) eqn:Es.
  { split; [intros [= ->]; exists []; by split_and!; [..|constructor]|].
    intros (b & -> & Hb & _). apply map_eq_nil in Hb as ->. done. }
  destruct (schar p <? 0x20) eqn:Ec; zbool.
  { split; [done|]. intros (b & _ & _ & [? _]%Forall_cons). lia. }
  destruct name as [|c name].
  { split; [done|]. intros ([|? ?] & Hn & Hb & _); [done|]. done. }
  destruct (toupper c =? p) eqn:Et; zbool.
  - rewrite IH. split.
    + intros (b & -> & Hb & Hs). exists (c :: b). split; [done|]. split; [simpl; by rewrite Hb, Et|]. by constructor.
    + intros ([|c' b] & Hn & Hb & [_ Hs]%Forall_cons); [done|]. injection Hn as -> ->. injection Hb as _ Hb. by exists b.
  - split; [done|]. intros ([|c' b] & Hn & Hb & _); [done|]. injection Hn as -> ->. by injection Hb.
Qed.

Lemma fat_sfn_match_spec entry name : fat_sfn_match entry name = true <-> sfn_answers entry name.
Proof.
  unfold fat_sfn_match, sfn_answers. split.
  - destruct (match_part (base entry) name) as [rest|] eqn:Eb; [|done].
    apply match_part_spec in Eb as (b & -> & Hb & Hsb).
    set (r := match rest with [] => _ | _ :: _ => _ end).
    destruct (match_part (ext entry) r) as [[|]|] eqn:Ex; try done. intros _.
    apply match_part_spec in Ex as (x & Er & Hx & Hsx). rewrite app_nil_r in Er.
    destruct rest as [|c l]; [|destruct (c =? DOT) eqn:Ed; zbool]; unfold r in Er; cbn in Er.
    + exists b, [], []. subst x. split_and!; try done. by right.
    + subst c x. exists b, [DOT], l. split_and!; try done. by left.
    + subst x. exists b, [], (c :: l). split_and!; try done.
      right. split; [done|]. simpl. congruence.
  - intros (b & sep & x & -> & Hsep & Hb & Hx & Hsb & Hsx).
    rewrite (proj2 (match_part_spec (base entry) (b ++ sep ++ x) (sep ++ x))) by by exists b.
    assert (Hm : match_part (ext entry) x = Some []) by (apply match_part_spec; exists x; by rewrite app_nil_r).
    destruct Hsep as [->|[-> Hd]]; cbn [app].
    + rewrite Z.eqb_refl. by rewrite Hm.
    + destruct x as [|c x]; [by rewrite Hm|]. rewrite (proj2 (Z.eqb_neq c DOT)); [by rewrite Hm|].
      intros ->. by apply Hd.
Qed.

Lemma match_part_pad b k rest :
  Forall short_char b -> Forall printable b ->
  match_part (map toupper b ++ replicate k SPACE) (b ++ rest) = Some rest.
Proof.
  induction 1 as [|c b [_ Hc] _ IH]; intros Hp; simpl; [by destruct k|].
  apply Forall_cons in Hp as [Hpc Hp]. destruct (compatible_range c Hc Hpc) as (_ & _ & Hs & Hsc).
  rewrite (proj2 (Z.eqb_neq _ _)), (proj2 (Z.ltb_ge _ _)), Z.eqb_refl by done. by apply IH.
Qed.

Lemma until_space_pad b k :
  Forall short_char b -> Forall printable b ->
  until_space (map toupper b ++ replicate k SPACE) = map toupper b.
Proof.
  induction 1 as [|c b [_ Hc] _ IH]; intros Hp; simpl; [by destruct k|].
  apply Forall_cons in Hp as [Hpc Hp]. destruct (compatible_range c Hc Hpc) as (_ & _ & Hs & _).
  rewrite (proj2 (Z.eqb_neq _ _)) by done. by rewrite IH.
Qed.

Lemma compatible_map x : Forall short_char x -> map fat_char_to_sfn_compatible x = map toupper x.
Proof.
  induction 1 as [|c x [_ Hc] _ IH]; [done|]. simpl. unfold fat_char_to_sfn_compatible at 1.
  by rewrite Hc, IH.
Qed.

Lemma length_pad n l : lenZ l <= n -> lenZ (pad n l) = n.
Proof. intros. unfold pad, lenZ in *. rewrite length_app, length_replicate. lia. Qed.

(** The entry of a short name: the parts of the name in upper case. *)
Lemma short_entry eof name attributes :
  fat_is_long_name name = false ->
  exists b x e, Forall short_char b /\ Forall short_char x /\
    (name = b /\ x = [] \/ name = b ++ DOT :: x) /\
    fat_sfn_generate eof name attributes = Some e /\ lenZ e = 32 /\
    base e = pad 8 (map toupper b) /\ ext e = pad 3 (map toupper x) /\ attribute e = attributes.
Proof.
  intros Hl. destruct (name_shape _ _ _ _ Hl) as (b & Hb & Hlb & Hcase).
  assert (Hx : exists x, Forall short_char x /\ lenZ x <= 3 /\ default [] (after_last_dot name) = x /\
    before_dot name = b /\ lenZ name <= 12 /\ (name = b /\ x = [] \/ name = b ++ DOT :: x)).
  { destruct Hcase as [->|(x & -> & Hx & Hlx)].
    - exists []. rewrite after_last_dot_none by done.
      pose proof (before_dot_shape b [] Hb) as Hbd. simpl in Hbd. rewrite !app_nil_r in Hbd.
      split_and!; try done; [lia|]. by left.
    - exists x. rewrite after_last_dot_shape, before_dot_shape by done. simpl. rewrite app_nil_r.
      split_and!; try done; [rewrite lenZ_app, lenZ_cons; lia|]. by right. }
  destruct Hx as (x & Hx & Hlx & Hal & Hbd & Hn & Hname).
  unfold fat_sfn_generate, sfn_base. rewrite Hl, Hal, Hbd. rewrite (proj2 (Z.leb_le _ _)) by done.
  assert (takeZ 3 x = x) as -> by (unfold takeZ, lenZ in *; apply take_ge; lia).
  assert (takeZ 8 b = b) as -> by (unfold takeZ, lenZ in *; apply take_ge; lia).
  rewrite compatible_map by done. cbv beta iota delta [mbind option_bind].
  pose proof (length_pad 8 (map toupper b) ltac:(unfold lenZ in *; rewrite length_map; lia)) as Hl8.
  pose proof (length_pad 3 (map toupper x) ltac:(unfold lenZ in *; rewrite length_map; lia)) as Hl3.
  eexists b, x, _. split_and!; [done|done|done|reflexivity|..].
  - rewrite !lenZ_app, Hl8, Hl3. reflexivity.
  - unfold base, sliceZ, dropZ. simpl drop. unfold takeZ, lenZ in *. apply take_app_length'. lia.
  - unfold ext, sliceZ, dropZ, takeZ, lenZ in *. rewrite drop_app_length' by lia. apply take_app_length'. lia.
  - unfold attribute, byte_at, nthZ, lenZ in *. rewrite app_nth2, app_nth2 by lia.
    replace (Z.to_nat 11 - length (pad 8 (map toupper b)) - length (pad 3 (map toupper x)))%nat with O by lia. done.
Qed.

Lemma toupper_idemp c : toupper (toupper c) = toupper c.
Proof. unfold toupper, islower. repeat case_if; lia. Qed.

Lemma toupper_tolower c : toupper (tolower c) = toupper c.
Proof. unfold toupper, tolower, islower, isupper. repeat (case_if; simpl); lia. Qed.

Lemma short_name_spec eof name attributes :
  fat_is_long_name name = false -> Forall printable name ->
  exists e, fat_sfn_generate eof name attributes = Some e /\ lenZ e = 32 /\ attribute e = attributes /\
    fat_sfn_match e name = true /\
    (last name <> Some DOT -> map toupper (fat_parse_sfn e) = map toupper name).
Proof.
  intros Hl Hp. destruct (short_entry eof name attributes Hl)
    as (b & x & e & Hb & Hx & Hname & Hg & He & Hbase & Hext & Hat).
  assert (Hpb : Forall printable b /\ Forall printable x).
  { destruct Hname as [[-> ->]| ->]; [split; [done|constructor]|].
    apply Forall_app in Hp as [? [_ ?]%Forall_cons]. done. }
  destruct Hpb as [Hpb Hpx]. exists e. split_and!; try done.
  - unfold fat_sfn_match. rewrite Hbase, Hext. unfold pad. pose proof (match_part_pad x (Z.to_nat 3 - length (map toupper x)) [] Hx Hpx) as Hmx.
    rewrite app_nil_r in Hmx. destruct Hname as [[-> ->]| ->].
    + pose proof (match_part_pad b (Z.to_nat 8 - length (map toupper b)) [] Hb Hpb) as Hm.
      rewrite app_nil_r in Hm. rewrite Hm. done.
    + rewrite match_part_pad by done. rewrite Z.eqb_refl, Hmx. done.
  - intros Hlast. unfold fat_parse_sfn. rewrite Hbase, Hext.
    unfold pad. rewrite !until_space_pad by done.
    set (conv := if has _ _ then tolower else toupper).
    assert (Hconv : forall l, map toupper (map conv (map toupper l)) = map toupper l).
    { intros l. rewrite !map_map. apply map_ext. intros c. unfold conv.
      destruct (has _ _); rewrite ?toupper_tolower, ?toupper_idemp; done. }
    rewrite !map_app, !Hconv. destruct Hname as [[-> ->]| ->]; [simpl; by rewrite !app_nil_r|].
    rewrite map_app. f_equal. destruct x as [|c x]; [by rewrite last_snoc in Hlast|].
    apply Forall_cons in Hx as [[_ Hc] _]. apply Forall_cons in Hpx as [Hpc _].
    destruct (compatible_range c Hc Hpc) as (_ & _ & Hs & _).
    unfold nthZ. simpl. rewrite (proj2 (Z.eqb_neq _ _)) by done. done.
Qed.

Lemma short_matches eof name attributes e :
  fat_is_long_name name = false -> Forall printable name -> fat_sfn_generate eof name attributes = Some e ->
  fat_sfn_match e name = true.
Proof.
  intros Hl Hp Hg. destruct (short_name_spec eof name attributes Hl Hp) as (e' & He & _ & _ & Hm & _). congruence.
Qed.

(** Short names.  A name that [fat_is_long_name] accepts as short, of printable characters,
    gets an entry (the assertion on its length holds) of 32 bytes that [fat_sfn_match] finds
    under that name, and the name that [fat_parse_sfn] reads from the entry is the name up to
    the case of its letters. *)
Theorem fat_short_name_correct eof name attributes :
  fat_is_long_name name = false -> Forall printable name ->
  exists e, fat_sfn_generate eof name attributes = Some e /\ lenZ e = 32 /\ attribute e = attributes /\
    fat_sfn_match e name = true /\
    (last name <> Some DOT -> map toupper (fat_parse_sfn e) = map toupper name).
Proof. apply short_name_spec. Qed.

(** * Long names *)

(** The name with its end mark and filling. *)
Definition lfn_unit (src : list Z) (index : Z) : Z :=
  if index <? lenZ src then nthZ 0 src index else if index =? lenZ src then 0 else 0xffff.

Definition unit16 (u : Z) : Prop := 0 <= u < 0x10000.

Lemma lfn_unit_range src i : Forall unit16 src -> 0 <= i -> unit16 (lfn_unit src i).
Proof.
  intros Hs Hi. unfold lfn_unit. case_if; [|case_if; unfold unit16; lia].
  unfold nthZ. rewrite nth_lookup. unfold lenZ in *.
  destruct (src !! Z.to_nat i) as [u|] eqn:E; simpl; [by eapply Forall_lookup_1|].
  apply lookup_ge_None in E. lia.
Qed.

Lemma chunck_eq n src index : fat_copy_lfn_chunck n src index = map (lfn_unit src) (seqZ index (Z.of_nat n)).
Proof.
  unfold fat_copy_lfn_chunck, seqZ, lfn_unit. rewrite Nat2Z.id. rewrite map_map. apply map_ext. intros i.
  by rewrite (Z.add_comm index).
Qed.

Lemma units_bytes l : Forall unit16 l -> units_of_bytes (concat (map (le_bytes 2) l)) = l.
Proof.
  induction 1 as [|u l Hu _ IH]; [done|].
  change (concat (map (le_bytes 2) (u :: l))) with (u mod 256 :: u / 256 mod 256 :: concat (map (le_bytes 2) l)).
  cbn [units_of_bytes]. rewrite IH. f_equal. unfold unit16 in Hu.
  rewrite (Z.mod_small (u / 256)) by (Z.div_mod_to_equations; lia). Z.div_mod_to_equations. lia.
Qed.

Lemma bytes_len l : lenZ (concat (map (le_bytes 2) l)) = 2 * lenZ l.
Proof.
  induction l as [|u l IH]; [done|]. rewrite lenZ_cons.
  change (concat (map (le_bytes 2) (u :: l))) with (u mod 256 :: u / 256 mod 256 :: concat (map (le_bytes 2) l)).
  rewrite !lenZ_cons, IH. lia.
Qed.

Lemma lfn_units_range src i n : Forall unit16 src -> 0 <= i -> Forall unit16 (map (lfn_unit src) (seqZ i n)).
Proof.
  intros Hs Hi. apply Forall_map, Forall_forall. intros x Hx%elem_of_seqZ. apply lfn_unit_range; [done|lia].
Qed.

Lemma map_seqZ_len {A} (f : Z -> A) i n : 0 <= n -> lenZ (map f (seqZ i n)) = n.
Proof. intros. unfold lenZ. rewrite length_map, length_seqZ. lia. Qed.

(** A slice in the middle of a concatenation. *)
Lemma sliceZ_mid {A} (a b c : list A) off n :
  lenZ a = off -> lenZ b = n -> sliceZ off n (a ++ b ++ c) = b.
Proof.
  intros <- <-. unfold sliceZ, takeZ, dropZ, lenZ. rewrite !Nat2Z.id, drop_app_length. apply take_app_length.
Qed.

Lemma seqZ_split i n m : 0 <= n -> 0 <= m -> seqZ i (n + m) = seqZ i n ++ seqZ (i + n) m.
Proof. intros. by rewrite seqZ_app. Qed.

(** What the fields of a long entry hold. *)
Lemma make_lfn_fields checksum src count ord :
  Forall unit16 src -> 1 <= ord <= count -> count < 0x40 -> 
  let e := make_lfn checksum src count ord in
  lenZ e = 32 /\ is_lfn e = true /\ lfn_ord e = (if ord =? count then ord + LAST_LONG_ENTRY else ord) /\
  lfn_units e = map (lfn_unit src) (seqZ ((ord - 1) * 13) 13).
Proof.
  intros Hs Ho Hc e. unfold e, make_lfn. rewrite !chunck_eq. clear e.
  set (i := (ord - 1) * FAT_LFN_NAME_LENGTH). assert (Hi : 0 <= i) by (unfold i, FAT_LFN_NAME_LENGTH; lia).
  set (n1 := map (lfn_unit src) (seqZ i (Z.of_nat 5))). set (n2 := map (lfn_unit src) (seqZ (i + 5) (Z.of_nat 6))).
  set (n3 := map (lfn_unit src) (seqZ (i + 11) (Z.of_nat 2))).
  assert (L1 : lenZ n1 = 5) by (apply map_seqZ_len; lia). assert (L2 : lenZ n2 = 6) by (apply map_seqZ_len; lia).
  assert (L3 : lenZ n3 = 2) by (apply map_seqZ_len; lia).
  set (b1 := concat (map (le_bytes 2) n1)). set (b2 := concat (map (le_bytes 2) n2)).
  set (b3 := concat (map (le_bytes 2) n3)).
  assert (B1 : lenZ b1 = 10) by (unfold b1; rewrite bytes_len; lia).
  assert (B2 : lenZ b2 = 12) by (unfold b2; rewrite bytes_len; lia).
  assert (B3 : lenZ b3 = 4) by (unfold b3; rewrite bytes_len; lia).
  set (h := if ord =? count then _ else _).
  assert (Hh : h = if ord =? count then ord + LAST_LONG_ENTRY else ord).
  { unfold h, u8. rewrite Z.mod_small by lia. case_if; [|done].
    rewrite Z.lor_comm, (Z.add_comm ord). apply (lor_add 1 ord 6); lia. }
  split_and!.
  - rewrite !lenZ_app, B1, B2, B3. done.
  - unfold is_lfn, attribute, byte_at, nthZ. simpl app. simpl nth.
    destruct b1 as [|? b1]; [done|]. unfold lenZ in B1. simpl in B1.
    do 9 (destruct b1 as [|? b1]; [simpl in B1; lia|]). destruct b1; [|simpl in B1; lia]. done.
  - unfold lfn_ord, byte_at, nthZ. simpl. exact Hh.
  - unfold lfn_units.
    rewrite (sliceZ_mid [h] b1 _ 1 10) by done.
    assert (S2 : sliceZ 14 12 ([h] ++ b1 ++ [ATTR_LONG_NAME; 0; checksum] ++ b2 ++ [0; 0] ++ b3) = b2).
    { pose proof (sliceZ_mid ([h] ++ b1 ++ [ATTR_LONG_NAME; 0; checksum]) b2 ([0; 0] ++ b3) 14 12) as E.
      rewrite <- !app_assoc in E. apply E; [|done]. rewrite !lenZ_app, B1. done. }
    assert (S3 : sliceZ 28 4 ([h] ++ b1 ++ [ATTR_LONG_NAME; 0; checksum] ++ b2 ++ [0; 0] ++ b3) = b3).
    { pose proof (sliceZ_mid ([h] ++ b1 ++ [ATTR_LONG_NAME; 0; checksum] ++ b2 ++ [0; 0]) b3 [] 28 4) as E.
      rewrite <- !app_assoc, app_nil_r in E. apply E; [|done]. rewrite !lenZ_app, B1, B2. done. }
    rewrite S2, S3. unfold b1, b2, b3.
    rewrite !units_bytes by (apply lfn_units_range; [done|lia]). unfold n1, n2, n3.
    rewrite <- !map_app. f_equal. change ((ord - 1) * 13) with i. change 13 with (5 + (6 + 2)).
    rewrite (seqZ_split _ 5), (seqZ_split _ 6) by lia. replace (i + 5 + 6) with (i + 11) by lia. done.
Qed.

(** * Examples *)

(** README.txt, FOO.txt and footxt. *)
Definition ex_readme : list Z := [82; 69; 65; 68; 77; 69; 46; 84; 88; 84].
Definition ex_foo_txt : list Z := [70; 79; 79; 46; 116; 120; 116].
Definition ex_footxt : list Z := [102; 111; 111; 116; 120; 116].

Lemma fat_short_name_correct_witness :
  exists e, fat_sfn_generate 0xfff8 ex_readme 0 = Some e /\ lenZ e = 32 /\ attribute e = 0 /\
    fat_sfn_match e ex_readme = true /\
    (last ex_readme <> Some DOT -> map toupper (fat_parse_sfn e) = map toupper ex_readme).
Proof.
  apply (fat_short_name_correct 0xfff8 ex_readme 0).
  - reflexivity.
  - repeat constructor; unfold printable; lia.
Defined.

Lemma fat_date_roundtrip_witness :
  exists date, fat_time2date 1700000000 = Some date /\
    fat_date2time date 0 = 1700000000 - 86400 - 20 - 60 * 13 - 3600 * 22.
Proof.
  apply (fat_date_roundtrip 1700000000 (Time.mk_date 2023 11 13 22 13 20)).
  - vm_compute. reflexivity.
  - lia.
  - simpl. lia.
Defined.

(** The case of the extension is stored with its own flag but read with that of the base:
    the short name FOO.txt reads back as FOO.TXT. *)
Example fat_extension_case_lost :
  (fat_is_long_name ex_foo_txt, e ← fat_sfn_generate 0xfff8 ex_foo_txt 0; Some (fat_parse_sfn e)) =
    (false, Some [70; 79; 79; 46; 84; 88; 84]).
Proof. vm_compute. reflexivity. Qed.

(** The dot is optional for [fat_sfn_match]: footxt finds FOO.txt. *)
Example fat_match_without_dot :
  (e ← fat_sfn_generate 0xfff8 ex_foo_txt 0; Some (fat_sfn_match e ex_footxt)) = Some true.
Proof. vm_compute. reflexivity. Qed.

(** * The entries of a name are bytes of entries in use *)

Lemma toupper_byte c : is_byte c -> is_byte (toupper c).
Proof. unfold is_byte, toupper, islower. intros. case_if; lia. Qed.

Lemma compatible_byte c : is_byte c -> is_byte (fat_char_to_sfn_compatible c).
Proof. intros. unfold fat_char_to_sfn_compatible. case_if; [by apply toupper_byte|unfold is_byte; lia]. Qed.

Lemma pad_byte n l : Forall is_byte l -> Forall is_byte (pad n l).
Proof. intros. apply Forall_app. split; [done|]. apply Forall_replicate. unfold is_byte, SPACE. lia. Qed.

Lemma map_byte (f : Z -> Z) l : (forall c, is_byte c -> is_byte (f c)) -> Forall is_byte l -> Forall is_byte (map f l).
Proof. intros Hf Hl. apply Forall_map. eapply Forall_impl; [done|]. exact Hf. Qed.

Lemma before_dot_Forall (P : Z -> Prop) name : Forall P name -> Forall P (before_dot name).
Proof. induction 1; simpl; [constructor|]. case_if; by constructor. Qed.

Lemma after_last_dot_Forall (P : Z -> Prop) name x : Forall P name -> after_last_dot name = Some x -> Forall P x.
Proof.
  intros Hn. revert x. induction Hn as [|c name Hc Hn IH]; intros x; simpl; [done|].
  destruct (after_last_dot name) as [r|]; [intros [= <-]; by apply IH|]. case_if; [intros [= <-]|]; done.
Qed.

Lemma replicate_byte n : Forall is_byte (replicate n 0).
Proof. apply Forall_replicate. unfold is_byte. lia. Qed.

Definition name_char (c : Z) : Prop := c <> 0 /\ is_byte c.

Lemma sfn_base_parts name b nt :
  sfn_base name = Some (b, nt) ->
  lenZ b = 8 /\ (Forall is_byte name -> Forall is_byte b) /\ is_byte nt /\
  exists c b', b = c :: b' /\ (Forall name_char name -> c <> 0 /\ c <> 0xe5).
Proof.
  unfold sfn_base. destruct (fat_is_long_name name) eqn:Hlong.
  - intros [= <- <-]. split_and!.
    + apply length_pad. rewrite lenZ_app. unfold lenZ, takeZ. rewrite length_map, length_take.
      change (length [126; 49]) with 2%nat. lia.
    + intros Hn. apply pad_byte, Forall_app. split; [|repeat constructor; unfold is_byte; lia].
      apply map_byte; [apply compatible_byte|]. by apply Forall_take, before_dot_Forall.
    + unfold is_byte. lia.
    + unfold pad. destruct (before_dot name) as [|c r] eqn:Hbd; [by eexists _, _|]. eexists _, _. split; [done|].
      intros Hn%before_dot_Forall. rewrite Hbd in Hn. apply Forall_cons in Hn as [[Hc0 Hcb] _].
      unfold fat_char_to_sfn_compatible, fat_is_char_sfn_compatible, toupper, islower.
      unfold is_byte in Hcb. repeat case_if; zbool; lia.
  - destruct (lenZ name <=? 12); [|done]. intros [= <- <-]. split_and!.
    + apply length_pad. unfold lenZ, takeZ. rewrite length_map, length_take. lia.
    + intros Hn. apply pad_byte, map_byte; [apply toupper_byte|]. by apply Forall_take, before_dot_Forall.
    + case_if; unfold is_byte, FAT_NT_CASE_LOWER_BASE; lia.
    + unfold pad. destruct (name_shape _ _ _ _ Hlong) as (b & Hbs & _ & Hcase).
      assert (Hbb : before_dot name = b).
      { destruct Hcase as [->|(x & -> & _)];
          [pose proof (before_dot_shape b [] Hbs) as E|pose proof (before_dot_shape b (DOT :: x) Hbs) as E];
          simpl in E; rewrite ?app_nil_r in E; exact E. }
      rewrite Hbb. destruct b as [|c r]; [by eexists _, _|]. eexists _, _. split; [done|].
      intros Hn%before_dot_Forall. rewrite Hbb in Hn. apply Forall_cons in Hn as [[Hc0 Hcb] _].
      apply Forall_cons in Hbs as [[_ Hcomp] _]. unfold fat_is_char_sfn_compatible in Hcomp.
      apply negb_true_iff, orb_false_iff in Hcomp as [_ Hr].
      zbool. unfold toupper, islower, is_byte in *. case_if; lia.
Qed.

(** The parts of a generated entry. *)
Lemma generate_parts eof name attributes e :
  fat_sfn_generate eof name attributes = Some e ->
  exists b x rest, e = b ++ x ++ [attributes] ++ rest /\ lenZ b = 8 /\ lenZ x = 3 /\ lenZ rest = 20 /\
    (Forall is_byte name -> Forall is_byte b /\ Forall is_byte x /\ Forall is_byte rest) /\
    (exists c b', b = c :: b' /\ (Forall name_char name -> c <> 0 /\ c <> 0xe5)).
Proof.
  unfold fat_sfn_generate. set (extention := takeZ 3 (default [] (after_last_dot name))).
  assert (Hx : Forall is_byte name -> Forall is_byte extention).
  { intros Hn. apply Forall_take. destruct (after_last_dot name) eqn:E; [|constructor].
    by eapply after_last_dot_Forall. }
  assert (Hxl : lenZ extention <= 3) by (unfold extention, takeZ, lenZ; rewrite length_take; lia).
  destruct (sfn_base name) as [[b nt]|] eqn:Hbe; [|done].
  apply sfn_base_parts in Hbe as (Hbl & Hbb & Hnt & Hbc).
  cbv beta iota delta [mbind option_bind]. intros [= <-].
  exists b, (pad 3 (map fat_char_to_sfn_compatible extention)). eexists. split; [done|].
  split_and!; [done| | | |done].
  - apply length_pad. unfold lenZ in *. rewrite length_map. lia.
  - done.
  - intros Hn. split; [auto|]. split; [apply pad_byte, map_byte; [apply compatible_byte|auto]|].
    apply Forall_cons. split.
    { unfold is_byte in *. destruct (existsb islower extention); [|rewrite Z.lor_0_r; lia].
      apply (lor_range _ _ 8); unfold FAT_NT_CASE_LOWER_EXT; lia. }
    apply Forall_cons. split; [unfold is_byte; lia|].
    repeat first [apply (le_bytes_byte 2) | apply Forall_app; split
      | apply Forall_cons; split; [unfold is_byte, u16; Z.div_mod_to_equations; lia|] | apply Forall_nil_2].
Qed.

Lemma generate_some eof name attributes :
  exists e, fat_sfn_generate eof name attributes = Some e.
Proof.
  destruct (fat_is_long_name name) eqn:Hl.
  - unfold fat_sfn_generate, sfn_base. rewrite Hl. by eexists.
  - destruct (short_entry eof name attributes Hl) as (b & x & e & _ & _ & _ & He & _). by exists e.
Qed.

Lemma make_lfn_byte checksum src count ord :
  is_byte checksum -> 1 <= ord <= count -> count < 0x40 -> Forall is_byte (make_lfn checksum src count ord).
Proof.
  intros Hck Ho Hc. unfold make_lfn.
  assert (Hu : forall l, Forall is_byte (concat (map (le_bytes 2) l))).
  { induction l as [|u l IH]; [constructor|]. simpl map. simpl concat. apply (Forall_app_2 _ (le_bytes 2 u)); [apply le_bytes_byte|done]. }
  repeat first [apply Hu | apply Forall_app; split | apply Forall_cons; split | apply Forall_nil_2]; try done;
    try (unfold is_byte, ATTR_LONG_NAME; lia).
  unfold u8. rewrite Z.mod_small by lia. case_if; [|unfold is_byte; lia].
  apply (lor_range _ _ 8); unfold LAST_LONG_ENTRY; lia.
Qed.

Lemma checksum_byte e : is_byte (fat_sfn_checksum e).
Proof.
  unfold fat_sfn_checksum. generalize (base e ++ ext e). intros l.
  assert (Hgen : forall acc, is_byte acc -> is_byte (foldl (fun checksum c => u8 (fat_right_rotation checksum + c)) acc l)).
  { induction l as [|c l IH]; intros acc Ha; simpl; [done|]. apply IH. apply Z.mod_pos_bound. lia. }
  apply Hgen. unfold is_byte. lia.
Qed.

End FatName.
