(* ===== verification/FatDir.v ===== *)
(** FAT directories: walking their entries, long names, allocation, lookup, listing and creation
    (modules/fs/fat/fat.c from [fat_read_entry] to [fat_rmdir]).

    A directory is a chain of clusters, or the fixed table of the root of a FAT12 or FAT16
    volume.  The code walks it with a cursor, a cluster and an offset on the device.  The
    theorems look at a directory as the sequence of the offsets that the cursor visits
    ([visits]) and of the items stored there ([item]).  Loops over a directory have fuel; any
    number above the number of its entries is enough. *)

From S2P Require Import Prelude Time Unicode FatTable FatName.

Module FatDir.
Import Fat FatName.

Section dir.
Context {D : Type} `{Device D}.
Implicit Types (sb : fat_superblock D) (cluster offset : Z).

(** What the walks use of the inode of a directory. *)
Record directory := mk_directory {
  dir_cluster : Z;
  is_fat16_root : bool;
  start : Z;
  entries_count : Z;
}.
Implicit Types (inode : directory).

Record cursor := mk_cursor { at_cluster : Z; at_offset : Z }.
Implicit Types (cur : cursor) (entry : list Z).

Definition fat_read_entry sb offset : res (list Z) :=
  match vfs_read (device sb) offset 32 with
  | Err e => Err e
  | Ok bs => if lenZ bs <? 32 then Err EIO else Ok bs
  end.

Definition fat_write_entry sb offset entry : fat_superblock D * res unit := write_buffer sb offset entry.

Definition fat_next_entry sb inode cur : option cursor :=
  let offset := at_offset cur + 32 in
  if is_fat16_root inode then Some (mk_cursor (at_cluster cur) offset)
  else
    base ← fat_cluster2offset sb (at_cluster cur);
    if base + cluster_size sb <=? offset then
      cluster ← fat_get_next_cluster sb (at_cluster cur);
      if cluster =? fat_eof sb then Some (mk_cursor cluster offset)
      else offset ← fat_cluster2offset sb cluster; Some (mk_cursor cluster offset)
    else Some (mk_cursor (at_cluster cur) offset).

Definition fat_has_reached_last_entry sb inode cur : bool :=
  (at_cluster cur =? fat_eof sb) ||
  is_fat16_root inode && (entries_count inode <=? u64 (at_offset cur - start inode) / 32).

Definition fat_read_next_entry sb inode cur : option (res (cursor * list Z)) :=
  if fat_has_reached_last_entry sb inode cur then Some (Err ENOENT)
  else
    match fat_read_entry sb (at_offset cur) with
    | Err e => Some (Err e)
    | Ok entry => cur ← fat_next_entry sb inode cur; Some (Ok (cur, entry))
    end.

Definition fat_write_next_entry sb inode cur entry : option (fat_superblock D * res cursor) :=
  if fat_has_reached_last_entry sb inode cur then Some (sb, Err ENOENT)
  else
    match fat_write_entry sb (at_offset cur) entry with
    | (sb, Err e) => Some (sb, Err e)
    | (sb, Ok _) => cur ← fat_next_entry sb inode cur; Some (sb, Ok cur)
    end.

(** The first entry of a directory. *)
Definition first_entry sb inode : option cursor :=
  offset ← (if is_fat16_root inode then Some (start inode) else fat_cluster2offset sb (dir_cluster inode));
  Some (mk_cursor (dir_cluster inode) offset).

(** ** Allocation of entries *)

(** The search: the start of the run of free entries, its length, whether everything behind is
    free, the cluster after the last read, and the cursor. *)
Fixpoint search_loop (fuel : nat) sb inode (count : Z) (run : cursor) (free_count : Z)
    (everything_free : bool) (prev_cluster : Z) cur
    : option (res (cursor * Z * bool * Z * cursor)) :=
  if free_count <? count then
    match fuel with
    | O => None
    | S fuel =>
        r ← fat_read_next_entry sb inode cur;
        match r with
        | Err ENOENT => Some (Ok (run, free_count, everything_free, prev_cluster, cur))
        | Err e => Some (Err e)
        | Ok (cur, entry) =>
            let prev_cluster := at_cluster cur in
            if (byte_at entry 0 =? 0xe5) || everything_free then
              search_loop fuel sb inode count run (free_count + 1) everything_free prev_cluster cur
            else if byte_at entry 0 =? 0 then
              search_loop fuel sb inode count run (free_count + 1) true prev_cluster cur
            else search_loop fuel sb inode count cur 0 everything_free prev_cluster cur
        end
    end
  else Some (Ok (run, free_count, everything_free, prev_cluster, cur)).

(** Reading [n] entries on. *)
Fixpoint skip_entries (n : nat) sb inode cur : option (res cursor) :=
  match n with
  | O => Some (Ok cur)
  | S n =>
      r ← fat_read_next_entry sb inode cur;
      match r with
      | Err e => Some (Err e)
      | Ok (cur, _) => skip_entries n sb inode cur
      end
  end.

(** The mark that everything behind is free. *)
Definition write_end sb inode cur (run : cursor) : option (fat_superblock D * res cursor) :=
  '(sb, r) ← fat_write_next_entry sb inode cur (replicate 32 0);
  match r with
  | Err ENOENT | Ok _ => Some (sb, Ok run)
  | Err e => Some (sb, Err e)
  end.

Definition fat_allocate_entries (fuel : nat) sb inode (count : Z) : option (fat_superblock D * directory * res cursor) :=
  if 0 <? count then
    cur ← first_entry sb inode;
    r ← search_loop fuel sb inode count cur 0 false 0 cur;
    match (r : res (cursor * Z * bool * Z * cursor)) with
    | Err e => Some (sb, inode, Err e)
    | Ok (run, free_count, everything_free, prev_cluster, cur) =>
        if free_count <? count then
          if is_fat16_root inode then Some (sb, inode, Err ENOSPC)
          else
            let needed_entries := count - free_count in
            let needed_clusters := needed_entries * 32 / cluster_size sb in
            '(sb, head, r) ← fat_grow sb (mk_head (dir_cluster inode) false) prev_cluster needed_clusters;
            let inode := mk_directory (first_cluster head) (is_fat16_root inode) (start inode) (entries_count inode) in
            match r with
            | Err e => Some (sb, inode, Err e)
            | Ok _ =>
                r ← skip_entries (Z.to_nat count) sb inode run;
                match r with
                | Err e => Some (sb, inode, Err e)
                | Ok cur => '(sb, r) ← write_end sb inode cur run; Some (sb, inode, r)
                end
            end
        else if everything_free then '(sb, r) ← write_end sb inode cur run; Some (sb, inode, r)
        else Some (sb, inode, Ok run)
    end
  else None.

(** The entries of a file, from the first long one to the short one, marked as free. *)
Fixpoint free_loop (fuel : nat) sb inode (sfn_offset : Z) cur : option (fat_superblock D * res unit) :=
  if at_offset cur <=? sfn_offset then
    match fuel with
    | O => None
    | S fuel =>
        '(sb, r) ← fat_write_next_entry sb inode cur (0xe5 :: replicate 31 0);
        match r with
        | Err e => Some (sb, Err e)
        | Ok cur => free_loop fuel sb inode sfn_offset cur
        end
    end
  else Some (sb, Ok tt).

Definition fat_free_entries (fuel : nat) sb inode (sfn_offset lfn_offset : Z) : option (fat_superblock D * res unit) :=
  if sfn_offset =? 0 then Some (sb, Ok tt)
  else
    cluster ← (if is_fat16_root inode then Some 0 else fat_offset2cluster sb lfn_offset);
    free_loop fuel sb inode sfn_offset (mk_cursor cluster lfn_offset).

(** ** Long names *)

(** The string up to its end. *)
Fixpoint c_string (bs : list Z) : list Z :=
  match bs with
  | [] => []
  | b :: bs => if b =? 0 then [] else b :: c_string bs
  end.

(** The entries from number [ord] down to 1.  The name is an array of 256 units: a write
    outside of it is [None]. *)
Fixpoint lfn_loop (ord : nat) sb inode cur (sfn_offset : Z) (long_entry utf16_name : list Z)
    : option (res (cursor * Z * list Z * list Z)) :=
  match ord with
  | O => Some (Ok (cur, sfn_offset, long_entry, utf16_name))
  | S ord' =>
      if negb (Z.land (lfn_ord long_entry) (Z.lnot LAST_LONG_ENTRY) =? Z.of_nat ord) then Some (Err EIO)
      else if negb (is_lfn long_entry) then Some (Err EIO)
      else if 256 <? Z.of_nat ord * FAT_LFN_NAME_LENGTH then None
      else
        let utf16_name := lfn_units long_entry ++ utf16_name in
        let sfn_offset := at_offset cur in
        r ← fat_read_next_entry sb inode cur;
        match r with
        | Err e => Some (Err e)
        | Ok (cur, long_entry) => lfn_loop ord' sb inode cur sfn_offset long_entry utf16_name
        end
  end.

(** The cursor, the offset of the short entry, the short entry and the name; the name is an
    array of 512 bytes. *)
Definition fat_parse_next_lfn sb inode cur (sfn_offset : Z) entry : option (res (cursor * Z * list Z * list Z)) :=
  if negb (has (lfn_ord entry) LAST_LONG_ENTRY) then Some (Err EIO)
  else
    let ord_count := Z.land (lfn_ord entry) (Z.lnot LAST_LONG_ENTRY) in
    if 20 <? ord_count then Some (Err EIO)
    else
      r ← lfn_loop (Z.to_nat ord_count) sb inode cur sfn_offset entry [];
      match r with
      | Err e => Some (Err e)
      | Ok (cur, sfn_offset, long_entry, utf16_name) =>
          match Unicode.utf16_to_utf8 utf16_name with
          | Err e => Some (Err e)
          | Ok name =>
              if 512 <=? lenZ name then None
              else if is_lfn long_entry then Some (Err EIO)
              else Some (Ok (cur, sfn_offset, long_entry, c_string name))
          end
      end.

Fixpoint write_lfn_loop (ord : nat) sb inode cur (checksum : Z) (utf16_name : list Z) (count : Z)
    : option (fat_superblock D * res cursor) :=
  match ord with
  | O => Some (sb, Ok cur)
  | S ord' =>
      '(sb, r) ← fat_write_next_entry sb inode cur (make_lfn checksum utf16_name count (Z.of_nat ord));
      match r with
      | Err e => Some (sb, Err e)
      | Ok cur => write_lfn_loop ord' sb inode cur checksum utf16_name count
      end
  end.

Definition fat_write_next_lfn sb inode cur (sfn_entry utf16_name : list Z) : option (fat_superblock D * res cursor) :=
  let count := lfn_count (lenZ utf16_name) in
  write_lfn_loop (Z.to_nat count) sb inode cur (fat_sfn_checksum sfn_entry) utf16_name count.

(** ** Listing and lookup *)

(** The name, before it is cut to the size of [d_name] of the C library, and whether it is a
    directory. *)
Definition fat2dirent sb inode cur entry : option (res (list Z * bool)) :=
  if byte_at entry 0 =? 0 then Some (Err ENOENT)
  else
    r ← (if is_lfn entry then
           r ← fat_parse_next_lfn sb inode cur 0 entry;
           Some (match r with Err e => Err e | Ok (_, _, entry, name) => Ok (entry, name) end)
         else Some (Ok (entry, fat_parse_sfn entry)));
    Some (match r with
          | Err e => Err e
          | Ok (entry, name) => Ok (name, has (attribute entry) ATTR_DIRECTORY)
          end).

(** The entries of a long name are passed over. *)
Fixpoint skip_lfn (fuel : nat) sb inode cur entry : option (res cursor) :=
  if is_lfn entry then
    match fuel with
    | O => None
    | S fuel =>
        r ← fat_read_next_entry sb inode cur;
        match r with
        | Err e => Some (Err e)
        | Ok (cur, entry) => skip_lfn fuel sb inode cur entry
        end
    end
  else Some (Ok cur).

Fixpoint readdir_loop (fuel : nat) sb inode cur (index : Z) : option (res (list Z * bool)) :=
  match fuel with
  | O => None
  | S fuel =>
      r ← fat_read_next_entry sb inode cur;
      match r with
      | Err e => Some (Err e)
      | Ok (cur, entry) =>
          if byte_at entry 0 =? 0 then Some (Err ENOENT)
          else if byte_at entry 0 =? 0xe5 then readdir_loop fuel sb inode cur index
          else if has (attribute entry) ATTR_VOLUME_ID && negb (is_lfn entry) then
            readdir_loop fuel sb inode cur index
          else if index =? 0 then fat2dirent sb inode cur entry
          else
            r ← skip_lfn fuel sb inode cur entry;
            match r with
            | Err e => Some (Err e)
            | Ok cur => readdir_loop fuel sb inode cur (index - 1)
            end
      end
  end.

Definition fat_readdir (fuel : nat) sb inode (index : Z) : option (res (list Z * bool)) :=
  cur ← first_entry sb inode; readdir_loop fuel sb inode cur index.

(** What [fat_entry2inode] is given: the offsets of the short entry and of the first entry, and
    the short entry. *)
Record found := mk_found { sfn_at : Z; lfn_at : Z; found_entry : list Z }.

Fixpoint lookup_loop (fuel : nat) sb inode cur (name : list Z) : option (res found) :=
  match fuel with
  | O => None
  | S fuel =>
      let lfn_offset := at_offset cur in
      r ← fat_read_next_entry sb inode cur;
      match r with
      | Err e => Some (Err e)
      | Ok (cur, entry) =>
          if byte_at entry 0 =? 0 then Some (Err ENOENT)
          else if byte_at entry 0 =? 0xe5 then lookup_loop fuel sb inode cur name
          else if is_lfn entry then
            r ← fat_parse_next_lfn sb inode cur lfn_offset entry;
            match r with
            | Err e => Some (Err e)
            | Ok (cur, sfn_offset, entry, lname) =>
                if bool_decide (name = lname) || fat_sfn_match entry name then
                  Some (Ok (mk_found sfn_offset lfn_offset entry))
                else lookup_loop fuel sb inode cur name
            end
          else if has (attribute entry) ATTR_VOLUME_ID then lookup_loop fuel sb inode cur name
          else if fat_sfn_match entry name then Some (Ok (mk_found lfn_offset lfn_offset entry))
          else lookup_loop fuel sb inode cur name
      end
  end.

Definition fat_lookup (fuel : nat) sb inode (name : list Z) : option (res found) :=
  cur ← first_entry sb inode; lookup_loop fuel sb inode cur name.

(** ** Creation *)

(** The entry with its date of creation. *)
Definition set_creation_date entry (date : Z) : list Z := blit 16 (le_bytes 2 (u16 date)) entry.

(** [now] is the date of the new inode. *)
Definition fat_create_entry (fuel : nat) sb inode (name : list Z) (attributes now : Z)
    : option (fat_superblock D * directory * res found) :=
  let is_long_name := fat_is_long_name name in
  match (if is_long_name then Unicode.utf8_to_utf16 (name ++ [0]) else Ok []) with
  | Err e => Some (sb, inode, Err e)
  | Ok utf16_name =>
      let lfn_entries_count := if is_long_name then lfn_count (lenZ utf16_name) else 0 in
      '(sb, inode, r) ← fat_allocate_entries fuel sb inode (1 + lfn_entries_count);
      match r with
      | Err e => Some (sb, inode, Err e)
      | Ok run =>
          sfn_entry ← fat_sfn_generate (fat_eof sb) name attributes;
          '(sb, r) ← (if is_long_name then fat_write_next_lfn sb inode run sfn_entry utf16_name else Some (sb, Ok run));
          match r with
          | Err e => Some (sb, inode, Err e)
          | Ok cur =>
              let entry := set_creation_date sfn_entry now in
              '(sb, r) ← fat_write_next_entry sb inode cur entry;
              match r with
              | Err e => Some (sb, inode, Err e)
              | Ok _ => Some (sb, inode, Ok (mk_found (at_offset cur) (at_offset run) entry))
              end
          end
      end
  end.

Definition fat_create (fuel : nat) sb inode (name : list Z) (now : Z) := fat_create_entry fuel sb inode name 0 now.

(** An entry of a directory for itself or its parent. *)
Definition dot_entry (dots : list Z) (cluster : Z) : list Z :=
  pad 8 dots ++ replicate 3 SPACE ++ [ATTR_DIRECTORY] ++ replicate 8 0 ++
  le_bytes 2 (u16 (Z.shiftr cluster 16)) ++ replicate 4 0 ++ le_bytes 2 (u16 cluster) ++ replicate 4 0.

(** The result is the new directory; on an error its entries and clusters are freed. *)
Definition fat_mkdir (fuel : nat) sb inode (name : list Z) (now : Z)
    : option (fat_superblock D * directory * res (found * chain_head)) :=
  '(sb, inode, r) ← fat_create_entry fuel sb inode name ATTR_DIRECTORY now;
  match r with
  | Err e => Some (sb, inode, Err e)
  | Ok f =>
      let undo sb child e :=
        '(sb, _) ← fat_free_entries fuel sb inode (sfn_at f) (lfn_at f);
        sb ← fat_free_clusters sb child;
        Some (sb, inode, Err e) in
      '(sb, child, r) ← fat_grow sb (mk_head (entry_cluster (found_entry f)) false) 0 1;
      match r with
      | Err e => undo sb child e
      | Ok _ =>
          let child_dir := mk_directory (first_cluster child) false 0 0 in
          cur ← first_entry sb child_dir;
          '(sb, r) ← fat_write_next_entry sb child_dir cur (dot_entry [DOT] (first_cluster child));
          match r with
          | Err e => undo sb child e
          | Ok cur =>
              '(sb, r) ← fat_write_next_entry sb child_dir cur (dot_entry [DOT; DOT] (dir_cluster inode));
              match r with
              | Err e => undo sb child e
              | Ok _ => Some (sb, inode, Ok (f, child))
              end
          end
      end
  end.

(** The links of the inode are counted down by the caller of the model. *)
Definition fat_unlink (fuel : nat) sb inode (f : found) : option (fat_superblock D * res unit) :=
  fat_free_entries fuel sb inode (sfn_at f) (lfn_at f).

(** A directory with a third entry is not empty. *)
Definition fat_rmdir (fuel : nat) sb inode (child : directory) (f : found) : option (fat_superblock D * res unit) :=
  r ← fat_readdir fuel sb child 2;
  match r with
  | Ok _ => Some (sb, Err ENOTEMPTY)
  | Err ENOENT => fat_unlink fuel sb inode f
  | Err e => Some (sb, Err e)
  end.

(** The entry with the cluster, the dates and the size of the inode, written back. *)
Definition fat_flush_inode sb (sfn_offset : Z) entry (cluster access_date write_date : Z)
    : fat_superblock D * res unit :=
  if sfn_offset =? 0 then (sb, Ok tt)
  else
    let entry := blit 26 (le_bytes 2 (u16 cluster)) entry in
    let entry := blit 20 (le_bytes 2 (u16 (Z.shiftr cluster 16))) entry in
    let entry := blit 18 (le_bytes 2 (u16 access_date)) entry in
    let entry := blit 24 (le_bytes 2 (u16 write_date)) entry in
    write_buffer sb sfn_offset entry.

End dir.

(** * Directories as sequences of slots *)

Section slots.
Context {D : Type} `{DeviceLaws D}.
Implicit Types (sb : fat_superblock D) (inode : directory) (cur : cursor).

(** The offsets of the entries from a cursor on. *)
Inductive visits sb inode : cursor -> list Z -> Prop :=
  | visits_end cur : fat_has_reached_last_entry sb inode cur = true -> visits sb inode cur []
  | visits_step cur cur' os :
      fat_has_reached_last_entry sb inode cur = false ->
      is_fat16_root inode = true \/ is_cluster sb (at_cluster cur) ->
      fat_next_entry sb inode cur = Some cur' -> visits sb inode cur' os ->
      visits sb inode cur (at_offset cur :: os).

Definition entry_at sb (o : Z) : list Z := sliceZ o 32 (contents (device sb)).

(** The slots are on the device behind the table, and do not overlap. *)
Definition slots_ok sb (os : list Z) : Prop :=
  Forall (fun o => table_start sb + table_size sb <= o /\ o + 32 <= lenZ (contents (device sb))) os /\
  StronglySorted (fun o o' => apart o 32 o') os.

Lemma slots_ok_app sb os1 os2 : slots_ok sb (os1 ++ os2) -> slots_ok sb os1 /\ slots_ok sb os2 /\
  (forall o o', o ∈ os1 -> o' ∈ os2 -> apart o 32 o').
Proof.
  intros [[H1 H2]%Forall_app (Ha & S1 & S2)%StronglySorted_app]. split; [done|]. split; [done|]. exact Ha.
Qed.

Lemma table_pos sb : wf sb -> 0 <= table_start sb + table_size sb.
Proof.
  intros [? (? & ? & ? & ? & ?) ? ? ? ? ? ?]. unfold table_start, table_size, width.
  destruct (fat_type sb); nia.
Qed.

(** ** Reading *)

Lemma read_next_end sb inode cur : visits sb inode cur [] -> fat_read_next_entry sb inode cur = Some (Err ENOENT).
Proof. intros Hv. inversion Hv as [c Hr|]; subst. unfold fat_read_next_entry. by rewrite Hr. Qed.

Lemma read_next_slot sb inode cur o os :
  wf sb -> slots_ok sb (o :: os) -> visits sb inode cur (o :: os) ->
  exists cur', fat_read_next_entry sb inode cur = Some (Ok (cur', entry_at sb o)) /\
    visits sb inode cur' os /\ at_offset cur = o.
Proof.
  intros Hwf [Hok _] Hv. apply Forall_cons in Hok as [[Hlo Hhi] _]. pose proof (table_pos _ Hwf).
  inversion Hv as [|c cur' os' Hr Hc Hn Hv']; subst. exists cur'. split; [|done].
  unfold fat_read_next_entry, fat_read_entry. rewrite Hr, vfs_read_ok by lia.
  rewrite lenZ_sliceZ by lia. simpl. by rewrite Hn.
Qed.

(** ** Writing *)

(** The volume after a write to one slot. *)
Record slot_written sb sb' (o : Z) (e : list Z) : Prop := {
  sw_same : sb' = set_device sb (device sb');
  sw_wf : wf sb';
  sw_entry : entry_at sb' o = e;
  sw_other o' : 0 <= o' -> apart o 32 o' -> entry_at sb' o' = entry_at sb o';
  sw_next c : in_range sb c -> next_of sb' c = next_of sb c;
  sw_len : lenZ (contents (device sb')) = lenZ (contents (device sb));
}.

Lemma write_slot sb o e :
  wf sb -> slots_ok sb [o] -> lenZ e = 32 -> Forall is_byte e ->
  exists sb', fat_write_entry sb o e = (sb', Ok tt) /\ slot_written sb sb' o e.
Proof.
  intros Hwf [Hok _] Hl Hb. apply Forall_cons in Hok as [[Hlo Hhi] _]. pose proof (table_pos _ Hwf).
  destruct (write_buffer_ok sb o e) as (d & Hw & Hd); [lia|lia|].
  exists (set_device sb d). split; [done|].
  assert (Hlen : lenZ (contents d) = lenZ (contents (device sb))) by (by rewrite Hd, lenZ_blit).
  assert (Hwf' : wf (set_device sb d)).
  { apply wf_set_device; [done|done|]. rewrite Hd. apply Forall_blit; [done|apply Hwf]. }
  split; try done.
  - unfold entry_at. simpl. rewrite Hd, <- Hl. apply sliceZ_blit_same; lia.
  - intros o' Ho' Ha. unfold entry_at. simpl. rewrite Hd. unfold apart in Ha. apply sliceZ_blit_other; lia.
  - intros c Hc. assert (Hs : sliceZ (entry_offset sb 0 c) (width sb) (contents d) =
      sliceZ (entry_offset sb 0 c) (width sb) (contents (device sb))).
    { pose proof (wf_nonneg _ Hwf) as (_ & _ & _ & _ & Hf).
      pose proof (entry_offset_bounds sb 0 c Hwf Hc ltac:(lia)).
      assert (2 <= width sb) by (unfold width; destruct (fat_type sb); lia).
      rewrite Hd. apply sliceZ_blit_other; [lia|lia|lia|]. left.
      unfold entry_offset, table_size, in_range in *. nia. }
    unfold next_of. simpl. rewrite <- Hs. reflexivity.
Qed.

Lemma sw_next_entry sb sb' o e inode cur :
  wf sb -> slot_written sb sb' o e -> is_fat16_root inode = true \/ is_cluster sb (at_cluster cur) ->
  fat_next_entry sb' inode cur = fat_next_entry sb inode cur.
Proof.
  intros Hwf Hs Hc. pose proof (sw_same _ _ _ _ Hs) as E. unfold fat_next_entry.
  destruct (is_fat16_root inode); [done|]. destruct Hc as [?|Hc]; [done|].
  apply cluster_in_range in Hc.
  rewrite (get_next sb) by done. rewrite (get_next sb') by (apply Hs || (rewrite E; exact Hc)).
  rewrite (sw_next _ _ _ _ Hs _ Hc). rewrite E. reflexivity.
Qed.

Lemma sw_visits sb sb' o e inode cur os :
  wf sb -> slot_written sb sb' o e -> visits sb inode cur os -> visits sb' inode cur os.
Proof.
  intros Hwf Hs. pose proof (sw_same _ _ _ _ Hs) as E. induction 1 as [cur Hr|cur cur' os Hr Hc Hn Hv IH].
  - apply visits_end. rewrite E. exact Hr.
  - apply visits_step with cur'; [rewrite E; exact Hr|rewrite E; exact Hc| |done].
    by rewrite (sw_next_entry _ _ _ _ _ _ Hwf Hs Hc).
Qed.

Lemma sw_slots sb sb' o e os : slot_written sb sb' o e -> slots_ok sb os -> slots_ok sb' os.
Proof.
  intros Hs [Hok Hst]. split; [|done]. eapply Forall_impl; [done|]. intros x. simpl.
  rewrite (sw_len _ _ _ _ Hs), (sw_same _ _ _ _ Hs). done.
Qed.

Lemma write_next_slot sb inode cur o os e :
  wf sb -> slots_ok sb (o :: os) -> visits sb inode cur (o :: os) -> lenZ e = 32 -> Forall is_byte e ->
  exists sb' cur', fat_write_next_entry sb inode cur e = Some (sb', Ok cur') /\ slot_written sb sb' o e /\
    visits sb' inode cur' os.
Proof.
  intros Hwf Hok Hv Hl Hb. pose proof (slots_ok_app sb [o] os Hok) as (Hok1 & _).
  destruct (write_slot sb o e Hwf Hok1 Hl Hb) as (sb' & Hw & Hs).
  inversion Hv as [|c cur' os' Hr Hc Hn Hv']; subst. exists sb', cur'. unfold fat_write_next_entry.
  rewrite Hr, Hw. rewrite (sw_next_entry _ _ _ _ _ _ Hwf Hs Hc), Hn. split; [done|].
  split; [done|]. by eapply sw_visits.
Qed.

(** ** The slots of a directory *)

(** The slots of a cluster, and of a chain. *)
Definition cluster_slots sb c : list Z :=
  map (fun k => cluster_start sb c + 32 * k) (seqZ 0 (cluster_size sb / 32)).
Definition chain_slots sb (l : list Z) : list Z := concat (map (cluster_slots sb) l).
(** The slots of the root table of a FAT16 volume. *)
Definition root_slots inode : list Z := map (fun k => start inode + 32 * k) (seqZ 0 (entries_count inode)).

Lemma visits_cluster sb inode c k rest cur :
  wf sb -> is_fat16_root inode = false -> is_cluster sb c -> cluster_size sb mod 32 = 0 ->
  0 <= k < cluster_size sb / 32 ->
  fat_next_entry sb inode (mk_cursor c (cluster_start sb c + 32 * (cluster_size sb / 32 - 1))) = Some cur ->
  visits sb inode cur rest ->
  visits sb inode (mk_cursor c (cluster_start sb c + 32 * k))
    (map (fun k => cluster_start sb c + 32 * k) (seqZ k (cluster_size sb / 32 - k)) ++ rest).
Proof.
  intros Hwf Hroot Hc Hmod Hk Hlast Hrest. remember (Z.to_nat (cluster_size sb / 32 - k)) as n eqn:Hn.
  revert k Hk Hn. induction n as [|n IH]; intros k Hk Hn; [lia|].
  pose proof (not_eof _ _ Hwf Hc) as [Hne _].
  assert (Hreach : forall o, fat_has_reached_last_entry sb inode (mk_cursor c o) = false).
  { intros o. unfold fat_has_reached_last_entry. simpl. rewrite Hroot, (proj2 (Z.eqb_neq _ _)) by done. done. }
  rewrite seqZ_cons by lia. simpl map. simpl app.
  destruct (decide (k = cluster_size sb / 32 - 1)) as [->|Hkl].
  - replace (Z.pred (cluster_size sb / 32 - (cluster_size sb / 32 - 1))) with 0 by lia. simpl.
    apply (visits_step _ _ (mk_cursor c _) cur); [done|by right|done|done].
  - apply (visits_step _ _ (mk_cursor c _) (mk_cursor c (cluster_start sb c + 32 * Z.succ k))); [done|by right| |].
    + unfold fat_next_entry. rewrite Hroot. simpl. destruct (cluster2offset_ok _ _ Hwf Hc) as (-> & _). simpl.
      pose proof (Z.div_mod (cluster_size sb) 32 ltac:(lia)).
      rewrite (proj2 (Z.leb_gt _ _)) by lia. do 2 f_equal. lia.
    + replace (Z.pred (cluster_size sb / 32 - k)) with (cluster_size sb / 32 - Z.succ k) by lia. apply IH; lia.
Qed.

Lemma visits_chain sb inode c l :
  wf sb -> is_fat16_root inode = false -> cluster_size sb mod 32 = 0 -> chain sb c l -> l <> [] ->
  visits sb inode (mk_cursor c (cluster_start sb c)) (chain_slots sb l).
Proof.
  intros Hwf Hroot Hmod. pose proof (wf_size _ Hwf) as [Hcs _].
  pose proof (Z.div_mod (cluster_size sb) 32 ltac:(lia)) as Hdm.
  revert c. induction l as [|x l IH]; intros c Hl Hne; [done|].
  apply chain_cons in Hl as (-> & Hc & Hl). unfold chain_slots. simpl.
  assert (Hnext : exists cur, fat_next_entry sb inode (mk_cursor c (cluster_start sb c + 32 * (cluster_size sb / 32 - 1))) = Some cur /\
    visits sb inode cur (chain_slots sb l)).
  { unfold fat_next_entry. rewrite Hroot. simpl. destruct (cluster2offset_ok _ _ Hwf Hc) as (-> & _). simpl.
    rewrite (proj2 (Z.leb_le _ _)) by lia. rewrite get_next by (done || by apply cluster_in_range). simpl.
    destruct l as [|y l].
    - unfold chain in Hl. simpl in Hl. rewrite Hl, Z.eqb_refl. eexists. split; [done|].
      apply visits_end. unfold fat_has_reached_last_entry. simpl. by rewrite Z.eqb_refl.
    - pose proof (chain_cons _ _ _ _ Hl) as (_ & Hn & _). pose proof (not_eof _ _ Hwf Hn) as [? _].
      rewrite (proj2 (Z.eqb_neq _ _)) by done. destruct (cluster2offset_ok _ _ Hwf Hn) as (-> & _). simpl.
      eexists. split; [done|]. by apply IH. }
  destruct Hnext as (cur & Hcur & Hv).
  pose proof (visits_cluster sb inode c 0 _ cur Hwf Hroot Hc Hmod ltac:(lia) Hcur Hv) as Hfin.
  rewrite Z.mul_0_r, Z.add_0_r, Z.sub_0_r in Hfin. exact Hfin.
Qed.

Lemma cluster_slots_bounds sb c o : wf sb -> o ∈ cluster_slots sb c -> cluster_size sb mod 32 = 0 ->
  cluster_start sb c <= o /\ o + 32 <= cluster_start sb c + cluster_size sb.
Proof.
  intros Hwf Ho Hmod. apply list_elem_of_fmap in Ho as (k & -> & Hk%elem_of_seqZ).
  pose proof (Z.div_mod (cluster_size sb) 32 ltac:(lia)). lia.
Qed.

Lemma steps_sorted base n : StronglySorted (fun o o' => apart o 32 o') (map (fun k => base + 32 * k) (seqZ 0 n)).
Proof.
  generalize 0. intros i. remember (Z.to_nat n) as m eqn:Hm. revert i n Hm.
  induction m as [|m IH]; intros i n Hm.
  - rewrite seqZ_nil by lia. constructor.
  - rewrite seqZ_cons by lia. simpl. constructor; [apply IH; lia|].
    apply Forall_map, Forall_forall. intros k Hk%elem_of_seqZ. unfold apart. lia.
Qed.

Lemma chain_slots_ok sb c l :
  wf sb -> cluster_size sb mod 32 = 0 -> chain sb c l -> slots_ok sb (chain_slots sb l).
Proof.
  intros Hwf Hmod Hl. pose proof (chain_nodup _ _ _ Hwf Hl) as Hnd.
  pose proof (segment_clusters _ _ _ _ Hl) as Hcl. clear Hl.
  pose proof (wf_table _ Hwf). induction Hcl as [|x l Hx Hcl IH]; [split; constructor|].
  apply NoDup_cons in Hnd as [Hxl Hnd]. destruct (IH Hnd) as [Hb Hs].
  destruct (cluster2offset_ok _ _ Hwf Hx) as (_ & Hlo & Hhi). unfold chain_slots. simpl. split.
  - apply Forall_app. split; [|done]. apply Forall_forall. intros o Ho.
    pose proof (cluster_slots_bounds _ _ _ Hwf Ho Hmod). lia.
  - apply StronglySorted_app. split; [|split; [apply steps_sorted|done]].
    intros o o' Ho Ho'. pose proof (cluster_slots_bounds _ _ _ Hwf Ho Hmod).
    apply list_elem_of_In, in_concat in Ho' as (s & Hs' & Ho'). apply in_map_iff in Hs' as (y & <- & Hy).
    apply list_elem_of_In in Ho', Hy. pose proof (cluster_slots_bounds _ _ _ Hwf Ho' Hmod).
    destruct (cluster_start_apart sb x y Hwf) as [?|?]; [intros ->; done|..]; unfold apart; lia.
Qed.

Lemma visits_root sb inode k :
  is_fat16_root inode = true -> dir_cluster inode <> fat_eof sb -> 0 <= k <= entries_count inode ->
  entries_count inode < 2 ^ 16 -> 
  visits sb inode (mk_cursor (dir_cluster inode) (start inode + 32 * k))
    (map (fun k => start inode + 32 * k) (seqZ k (entries_count inode - k))).
Proof.
  intros Hroot Hne Hk Hmax. remember (Z.to_nat (entries_count inode - k)) as n eqn:Hn.
  revert k Hk Hn. induction n as [|n IH]; intros k Hk Hn.
  - rewrite seqZ_nil by lia. apply visits_end. unfold fat_has_reached_last_entry. simpl.
    rewrite Hroot. apply orb_true_iff. right. apply andb_true_iff. split; [done|]. apply Z.leb_le.
    rewrite u64_small by (unfold is_u64; lia). replace (start inode + 32 * k - start inode) with (k * 32) by lia.
    rewrite Z.div_mul by lia. lia.
  - rewrite seqZ_cons by lia. simpl.
    apply (visits_step _ _ (mk_cursor _ _) (mk_cursor (dir_cluster inode) (start inode + 32 * Z.succ k))).
    + unfold fat_has_reached_last_entry. simpl. rewrite (proj2 (Z.eqb_neq _ _)) by done.
      rewrite u64_small by (unfold is_u64; lia). replace (start inode + 32 * k - start inode) with (k * 32) by lia.
      rewrite Z.div_mul by lia. rewrite (proj2 (Z.leb_gt _ _)) by lia. by rewrite andb_false_r.
    + by left.
    + unfold fat_next_entry. rewrite Hroot. simpl. do 2 f_equal. lia.
    + replace (Z.pred (entries_count inode - k)) with (entries_count inode - Z.succ k) by lia. apply IH; lia.
Qed.

(** * Items *)

(** What a directory holds: free entries, the label of the volume, files with a short name only,
    and files with a long name. *)
Inductive item :=
  | I_free (e : list Z)
  | I_volume (e : list Z)
  | I_short (e : list Z)
  | I_long (les : list (list Z)) (e : list Z) (lname : list Z).

Definition item_entries (it : item) : list (list Z) :=
  match it with
  | I_free e | I_volume e | I_short e => [e]
  | I_long les e _ => les ++ [e]
  end.

Definition entries_of (its : list item) : list (list Z) := concat (map item_entries its).

(** An entry that is in use. *)
Definition used_entry (e : list Z) : Prop := byte_at e 0 <> 0 /\ byte_at e 0 <> 0xe5.

(** The long entries are numbered downwards and the first has the flag. *)
Definition lfn_numbered (les : list (list Z)) : Prop :=
  forall i e, les !! i = Some e ->
    is_lfn e = true /\ Z.land (lfn_ord e) (Z.lnot LAST_LONG_ENTRY) = Z.of_nat (length les - i).

Definition lfn_text (les : list (list Z)) : list Z := concat (rev (map lfn_units les)).

Definition item_ok (it : item) : Prop :=
  match it with
  | I_free e => byte_at e 0 = 0xe5
  | I_volume e => used_entry e /\ is_lfn e = false /\ has (attribute e) ATTR_VOLUME_ID = true
  | I_short e => used_entry e /\ is_lfn e = false /\ has (attribute e) ATTR_VOLUME_ID = false
  | I_long les e lname =>
      Forall used_entry les /\ used_entry e /\ is_lfn e = false /\ (1 <= length les <= 19)%nat /\
      lfn_numbered les /\ (exists first, head les = Some first /\ has (lfn_ord first) LAST_LONG_ENTRY = true) /\
      exists name, Unicode.utf16_to_utf8 (lfn_text les) = Ok name /\ lenZ name < 512 /\ lname = c_string name
  end.

(** The sequence level: the name that an item answers to, and the first item that does. *)
Definition item_matches (it : item) (name : list Z) : bool :=
  match it with
  | I_free _ | I_volume _ => false
  | I_short e => fat_sfn_match e name
  | I_long _ e lname => bool_decide (name = lname) || fat_sfn_match e name
  end.

Definition sfn_of (it : item) : list Z := match it with I_free e | I_volume e | I_short e | I_long _ e _ => e end.

Fixpoint find_item (name : list Z) (its : list item) (os : list Z) : option found :=
  match its with
  | [] => None
  | it :: its =>
      let n := length (item_entries it) in
      if item_matches it name then Some (mk_found (List.last (take n os) 0) (List.hd 0 os) (sfn_of it))
      else find_item name its (drop n os)
  end.

(** The directory holds these items in its slots, up to the end of the slots or the end mark. *)
Record dir_view sb inode (os : list Z) (its : list item) (tail : list Z) : Prop := {
  dv_wf : wf sb;
  dv_first : exists cur, first_entry sb inode = Some cur /\ visits sb inode cur (os ++ tail);
  dv_slots : slots_ok sb (os ++ tail);
  dv_entries : map (entry_at sb) os = entries_of its;
  dv_items : Forall item_ok its;
  dv_end : match tail with [] => True | o :: _ => byte_at (entry_at sb o) 0 = 0 end;
}.

(** ** Reading a long name *)

Lemma map_eq_cons_split {A B} (f : A -> B) l y ys :
  map f l = y :: ys -> exists x l', l = x :: l' /\ f x = y /\ map f l' = ys.
Proof. destruct l as [|x l']; [done|]. intros [= <- <-]. by exists x, l'. Qed.

Lemma map_eq_app_split {A B} (f : A -> B) l ys zs :
  map f l = ys ++ zs -> exists l1 l2, l = l1 ++ l2 /\ map f l1 = ys /\ map f l2 = zs.
Proof.
  revert l. induction ys as [|y ys IH]; intros l Hl; [by exists [], l|].
  apply map_eq_cons_split in Hl as (x & l' & -> & <- & Hl). destruct (IH _ Hl) as (l1 & l2 & -> & <- & <-).
  by exists (x :: l1), l2.
Qed.

Lemma slots_ok_tail sb o os : slots_ok sb (o :: os) -> slots_ok sb os.
Proof. intros H1. by apply (slots_ok_app sb [o] os) in H1 as (_ & ? & _). Qed.

(** The loop from the entry [e0 :: les], the rest of which is in the slots with the short entry
    behind. *)
Lemma lfn_loop_ok sb inode cur sfn0 e0 les e os tail acc :
  wf sb -> slots_ok sb (os ++ tail) -> visits sb inode cur (os ++ tail) ->
  map (entry_at sb) os = les ++ [e] -> lfn_numbered (e0 :: les) -> (length les < 19)%nat ->
  exists cur', lfn_loop (S (length les)) sb inode cur sfn0 e0 acc =
      Some (Ok (cur', List.last os 0, e, concat (rev (map lfn_units (e0 :: les))) ++ acc)) /\
    visits sb inode cur' tail.
Proof.
  revert cur sfn0 e0 os acc. induction les as [|e1 les IH]; intros cur sfn0 e0 os acc Hwf Hok Hv Hes Hnum Hlen;
    apply map_eq_cons_split in Hes as (o & os' & -> & Ho & Hes);
    destruct (read_next_slot sb inode cur o (os' ++ tail) Hwf Hok Hv) as (cur1 & Hr & Hv1 & Hoff);
    destruct (Hnum O e0 eq_refl) as [Hlfn Hord]; cbn [lfn_loop];
    rewrite Hord, Hlfn; simpl length; rewrite Nat.sub_0_r, Z.eqb_refl; cbn [negb];
    rewrite (proj2 (Z.ltb_ge 256 _)) by (unfold FAT_LFN_NAME_LENGTH; simpl length in Hlen; lia);
    rewrite Hr; cbv beta iota delta [mbind option_bind]; rewrite Ho.
  - apply map_eq_nil in Hes as ->. exists cur1. rewrite Hoff. simpl. rewrite app_nil_r. done.
  - assert (Hnum' : lfn_numbered (e1 :: les)).
    { intros i x Hx. destruct (Hnum (S i) x Hx) as [? ?]. split; [done|]. by simpl in *. }
    destruct (IH cur1 (at_offset cur) e1 os' (lfn_units e0 ++ acc)) as (cur' & Hl & Hv');
      [done|by eapply slots_ok_tail|done|done|done|simpl in Hlen; lia|].
    exists cur'. simpl length in Hl. rewrite Hl. split; [|done]. do 3 f_equal.
    + destruct os' as [|o' os']; [by destruct les|]. done.
    + simpl. rewrite !concat_app. simpl. rewrite !app_nil_r, <- !app_assoc. done.
Qed.

Lemma parse_lfn_ok sb inode cur off first les e lname os tail :
  wf sb -> slots_ok sb (os ++ tail) -> visits sb inode cur (os ++ tail) ->
  map (entry_at sb) os = les ++ [e] -> item_ok (I_long (first :: les) e lname) ->
  exists cur', fat_parse_next_lfn sb inode cur off first = Some (Ok (cur', List.last os 0, e, lname)) /\
    visits sb inode cur' tail.
Proof.
  intros Hwf Hok Hv Hes (_ & _ & Hne & Hlen & Hnum & (f & [= <-] & Hlast) & name & Hutf & Hnl & ->).
  simpl length in Hlen. destruct (Hnum O first eq_refl) as [_ Hord]. simpl length in Hord. rewrite Nat.sub_0_r in Hord.
  destruct (lfn_loop_ok sb inode cur off first les e os tail []) as (cur' & Hl & Hv'); try done; [lia|].
  exists cur'. split; [|done]. unfold fat_parse_next_lfn. rewrite Hlast, Hord. cbn [negb].
  rewrite (proj2 (Z.ltb_ge 20 _)) by lia. rewrite Nat2Z.id, Hl. cbv beta iota delta [mbind option_bind].
  unfold lfn_text in Hutf. rewrite app_nil_r, Hutf. rewrite (proj2 (Z.leb_gt _ _)) by done. by rewrite Hne.
Qed.

(** * Lookup and listing *)

Lemma used_eqb e : used_entry e -> (byte_at e 0 =? 0) = false /\ (byte_at e 0 =? 0xe5) = false.
Proof. intros [? ?]. by rewrite !(proj2 (Z.eqb_neq _ _)). Qed.

Lemma item_cons it : exists e es, item_entries it = e :: es.
Proof. destruct it as [e|e|e|[] e lname]; by eexists _, _. Qed.

(** One item of the walk of [fat_lookup]. *)
Lemma lookup_item fuel sb inode cur name it os tail :
  wf sb -> slots_ok sb (os ++ tail) -> visits sb inode cur (os ++ tail) ->
  map (entry_at sb) os = item_entries it -> item_ok it ->
  exists cur', visits sb inode cur' tail /\
    lookup_loop (S fuel) sb inode cur name =
      if item_matches it name then Some (Ok (mk_found (List.last os 0) (List.hd 0 os) (sfn_of it)))
      else lookup_loop fuel sb inode cur' name.
Proof.
  intros Hwf Hok Hv Hes Hit.
  destruct (item_cons it) as (e & es & He). rewrite He in Hes.
  apply map_eq_cons_split in Hes as (o & os' & -> & Ho & Hes).
  destruct (read_next_slot sb inode cur o (os' ++ tail) Hwf Hok Hv) as (cur1 & Hr & Hv1 & Hoff).
  cbn [lookup_loop]. rewrite Hr. cbv beta iota delta [mbind option_bind]. rewrite Ho, Hoff.
  destruct it as [e'|e'|e'|les e' lname]; simpl in He; try injection He as <- <-.
  1, 2, 3: apply map_eq_nil in Hes as ->; exists cur1; split; [done|].
  - simpl in Hit. by rewrite Hit.
  - destruct Hit as (Hu & Hl & Hvol). destruct (used_eqb _ Hu) as [-> ->]. by rewrite Hl, Hvol.
  - destruct Hit as (Hu & Hl & Hvol). destruct (used_eqb _ Hu) as [-> ->]. rewrite Hl, Hvol. done.
  - destruct les as [|first les]; [destruct Hit as (_ & _ & _ & ? & _); simpl in *; lia|].
    injection He as <- <-. pose proof Hit as (Hused & _). apply Forall_cons in Hused as [Hu _].
    pose proof Hit as (_ & _ & _ & _ & Hnum & _). destruct (Hnum O first eq_refl) as [Hl _].
    destruct (used_eqb _ Hu) as [-> ->]. rewrite Hl.
    destruct (parse_lfn_ok sb inode cur1 o first les e' lname os' tail) as (cur2 & Hp & Hv2); try done.
    { by eapply slots_ok_tail. }
    exists cur2. split; [done|]. rewrite Hp. cbv beta iota delta [mbind option_bind]. simpl item_matches.
    destruct (bool_decide (name = lname) || fat_sfn_match e' name); [|done].
    simpl. destruct os' as [|o' os']; [by destruct les|]. done.
Qed.

Lemma lookup_items fuel sb inode cur name its os tail :
  wf sb -> slots_ok sb (os ++ tail) -> visits sb inode cur (os ++ tail) ->
  map (entry_at sb) os = entries_of its -> Forall item_ok its ->
  match tail with [] => True | o :: _ => byte_at (entry_at sb o) 0 = 0 end ->
  (length its < fuel)%nat ->
  lookup_loop fuel sb inode cur name = Some (match find_item name its os with Some f => Ok f | None => Err ENOENT end).
Proof.
  intros Hwf Hok Hv Hes Hits Hend. revert cur os Hok Hv Hes fuel.
  induction Hits as [|it its Hit _ IH]; intros cur os Hok Hv Hes fuel Hfuel; (destruct fuel as [|fuel]; [simpl in Hfuel; lia|]).
  - apply map_eq_nil in Hes as ->. simpl app in *. cbn [lookup_loop]. destruct tail as [|o tail].
    + rewrite read_next_end by done. done.
    + destruct (read_next_slot sb inode cur o tail Hwf Hok Hv) as (cur1 & Hr & _). rewrite Hr.
      cbv beta iota delta [mbind option_bind]. by rewrite Hend.
  - unfold entries_of in Hes. simpl in Hes. apply map_eq_app_split in Hes as (os1 & os2 & -> & Hes1 & Hes2).
    rewrite <- app_assoc in Hok, Hv.
    destruct (lookup_item fuel sb inode cur name it os1 (os2 ++ tail) Hwf Hok Hv Hes1 Hit) as (cur' & Hv' & ->).
    assert (Hlen : length os1 = length (item_entries it)) by (by rewrite <- Hes1, length_map).
    cbn [find_item]. rewrite <- Hlen, take_app_length, drop_app_length.
    destruct (item_matches it name).
    + destruct os1 as [|o os1]; [|done]. destruct it as [| | |[] ? ?]; done.
    + apply IH; [by apply slots_ok_app in Hok as (_ & ? & _)|done|done|simpl in Hfuel; lia].
Qed.

Lemma fat_lookup_spec fuel sb inode os its tail name :
  dir_view sb inode os its tail -> (length its < fuel)%nat ->
  fat_lookup fuel sb inode name = Some (match find_item name its os with Some f => Ok f | None => Err ENOENT end).
Proof.
  intros [Hwf (cur & Hcur & Hv) Hok Hes Hits Hend] Hfuel. unfold fat_lookup. rewrite Hcur.
  cbv beta iota delta [mbind option_bind]. by eapply lookup_items.
Qed.

(** The items that answer to a name: files whose long name it is, or whose short name it is in
    the sense of [sfn_answers]. *)
Definition answers (it : item) (name : list Z) : Prop :=
  match it with
  | I_free _ | I_volume _ => False
  | I_short e => sfn_answers e name
  | I_long _ e lname => name = lname \/ sfn_answers e name
  end.

Lemma item_matches_spec it name : item_matches it name = true <-> answers it name.
Proof.
  destruct it; cbn; [done..|apply fat_sfn_match_spec|].
  rewrite orb_true_iff, bool_decide_eq_true, fat_sfn_match_spec. done.
Qed.

Lemma item_matches_none it name : item_matches it name = false <-> ~ answers it name.
Proof. rewrite <- item_matches_spec. by rewrite not_true_iff_false. Qed.

(** What [find_item] finds. *)
Lemma find_item_spec name its os :
  match find_item name its os with
  | Some f => exists its1 it its2, its = its1 ++ it :: its2 /\ answers it name /\
      Forall (fun i => ~ answers i name) its1 /\
      let slots := take (length (item_entries it)) (drop (length (entries_of its1)) os) in
      f = mk_found (List.last slots 0) (List.hd 0 (drop (length (entries_of its1)) os)) (sfn_of it)
  | None => Forall (fun i => ~ answers i name) its
  end.
Proof.
  revert os. induction its as [|it its IH]; intros os; cbn [find_item]; [constructor|].
  destruct (item_matches it name) eqn:E.
  - exists [], it, its. split; [done|]. split; [by apply item_matches_spec|]. by split; [constructor|].
  - apply item_matches_none in E. specialize (IH (drop (length (item_entries it)) os)).
    destruct (find_item _ _ _) as [f|]; [|by constructor].
    destruct IH as (its1 & i & its2 & -> & Ha & Hn & ->). exists (it :: its1), i, its2.
    split; [done|]. split; [done|]. split; [by constructor|].
    unfold entries_of. cbn [map concat]. rewrite length_app, <- !drop_drop. done.
Qed.


(** ** Listing *)

Definition visible (it : item) : bool := match it with I_free _ | I_volume _ => false | _ => true end.
Definition item_dirent (it : item) : list Z * bool :=
  (match it with I_long _ _ lname => lname | _ => fat_parse_sfn (sfn_of it) end,
   has (attribute (sfn_of it)) ATTR_DIRECTORY).

Lemma skip_lfn_ok fuel sb inode cur e0 les e os tail :
  wf sb -> slots_ok sb (os ++ tail) -> visits sb inode cur (os ++ tail) ->
  map (entry_at sb) os = les ++ [e] -> is_lfn e0 = true -> Forall (fun e => is_lfn e = true) les -> is_lfn e = false ->
  (length les < fuel)%nat ->
  exists cur', skip_lfn fuel sb inode cur e0 = Some (Ok cur') /\ visits sb inode cur' tail.
Proof.
  revert fuel cur e0 os. induction les as [|e1 les IH]; intros fuel cur e0 os Hwf Hok Hv Hes Hl0 Hall He Hf;
    (destruct fuel as [|fuel]; [simpl in Hf; lia|]);
    apply map_eq_cons_split in Hes as (o & os' & -> & Ho & Hes);
    destruct (read_next_slot sb inode cur o (os' ++ tail) Hwf Hok Hv) as (cur1 & Hr & Hv1 & _);
    cbn [skip_lfn]; rewrite Hl0, Hr; cbv beta iota delta [mbind option_bind]; rewrite Ho.
  - apply map_eq_nil in Hes as ->. exists cur1. split; [|done]. destruct fuel; simpl; by rewrite He.
  - apply Forall_cons in Hall as [Hl1 Hall]. apply (IH fuel cur1 e1 os'); try done; [by eapply slots_ok_tail|simpl in Hf; lia].
Qed.

(** The items that [fat_readdir] counts. *)
Definition listed (its : list item) : list item := filter visible its.

Lemma listed_cons it its :
  (forall index, visible it = true -> 0 <= index -> index <> 0 ->
     listed (it :: its) !! Z.to_nat index = listed its !! Z.to_nat (index - 1)) /\
  (visible it = true -> listed (it :: its) !! Z.to_nat 0 = Some it) /\
  (visible it = false -> listed (it :: its) = listed its).
Proof.
  unfold listed. destruct (visible it) eqn:Hvis; split_and!; try done; intros;
    rewrite ?filter_cons_True by (by rewrite Hvis).
  - replace (Z.to_nat index) with (S (Z.to_nat (index - 1))) by lia. done.
  - done.
  - rewrite filter_cons_False; [done|]. rewrite Hvis. by intros [].
Qed.

Lemma readdir_items fuel sb inode cur index its os tail :
  wf sb -> slots_ok sb (os ++ tail) -> visits sb inode cur (os ++ tail) ->
  map (entry_at sb) os = entries_of its -> Forall item_ok its ->
  match tail with [] => True | o :: _ => byte_at (entry_at sb o) 0 = 0 end ->
  0 <= index -> (length os < fuel)%nat ->
  readdir_loop fuel sb inode cur index =
    Some (match listed its !! Z.to_nat index with Some it => Ok (item_dirent it) | None => Err ENOENT end).
Proof.
  intros Hwf Hok Hv Hes Hits Hend. revert cur os index Hok Hv Hes fuel.
  induction Hits as [|it its Hit _ IH]; intros cur os index Hok Hv Hes fuel Hi Hfuel; (destruct fuel as [|fuel]; [lia|]).
  - apply map_eq_nil in Hes as ->. simpl app in *. cbn [readdir_loop]. destruct tail as [|o tail].
    + rewrite read_next_end by done. done.
    + destruct (read_next_slot sb inode cur o tail Hwf Hok Hv) as (cur1 & Hr & _). rewrite Hr.
      cbv beta iota delta [mbind option_bind]. by rewrite Hend.
  - unfold entries_of in Hes. simpl in Hes. apply map_eq_app_split in Hes as (os1 & os2 & -> & Hes1 & Hes2).
    rewrite <- app_assoc in Hok, Hv. rewrite length_app in Hfuel.
    pose proof (slots_ok_app _ _ _ Hok) as (_ & Hok2 & _).
    destruct (item_cons it) as (e & es & He). rewrite He in Hes1.
    apply map_eq_cons_split in Hes1 as (o & os' & -> & Ho & Hes1).
    destruct (read_next_slot sb inode cur o (os' ++ os2 ++ tail) Hwf Hok Hv) as (cur1 & Hr & Hv1 & _).
    cbn [readdir_loop]. rewrite Hr. cbv beta iota delta [mbind option_bind]. rewrite Ho. simpl in Hfuel.
    destruct (listed_cons it its) as (Hnext & Hzero & Hhid).
    destruct it as [e'|e'|e'|les e' lname]; simpl in He; try injection He as <- <-.
    1, 2, 3: apply map_eq_nil in Hes1 as ->; simpl app in *.
    + simpl in Hit. rewrite Hit. rewrite Hhid by done. apply (IH cur1 os2); try done. lia.
    + destruct Hit as (Hu & Hl & Hvol). destruct (used_eqb _ Hu) as [-> ->]. rewrite Hl, Hvol. simpl.
      rewrite Hhid by done. apply (IH cur1 os2); try done. lia.
    + destruct Hit as (Hu & Hl & Hvol). destruct (used_eqb _ Hu) as [E0 ->]. rewrite E0, Hl, Hvol. simpl. case_if.
      * subst index. rewrite Hzero by done. unfold fat2dirent. rewrite (proj1 (used_eqb _ Hu)), Hl. done.
      * assert (Hskip : skip_lfn fuel sb inode cur1 e' = Some (Ok cur1)) by (destruct fuel; simpl; by rewrite Hl).
        rewrite Hskip. cbv beta iota delta [mbind option_bind]. rewrite Hnext by done. apply (IH cur1 os2); try done; lia.
    + destruct les as [|first les]; [destruct Hit as (_ & _ & _ & ? & _); simpl in *; lia|].
      injection He as <- <-. pose proof Hit as (Hused & _ & Hne & _ & Hnum & _).
      apply Forall_cons in Hused as [Hu _]. destruct (Hnum O first eq_refl) as [Hl _].
      destruct (used_eqb _ Hu) as [E0 ->]. rewrite E0, Hl. simpl negb. rewrite andb_false_r.
      apply slots_ok_tail in Hok. case_if.
      * subst index. rewrite Hzero by done. unfold fat2dirent. rewrite (proj1 (used_eqb _ Hu)), Hl.
        destruct (parse_lfn_ok sb inode cur1 0 first les e' lname os' (os2 ++ tail)) as (cur2 & Hp & _); try done.
        rewrite Hp. done.
      * destruct (skip_lfn_ok fuel sb inode cur1 first les e' os' (os2 ++ tail)) as (cur2 & -> & Hv2); try done.
        { apply Forall_forall. intros x (i & Hx)%list_elem_of_lookup. by destruct (Hnum (S i) x Hx). }
        { apply (f_equal length) in Hes1. rewrite length_map, length_app in Hes1. simpl in Hes1. lia. }
        cbv beta iota delta [mbind option_bind]. rewrite Hnext by done. apply (IH cur2 os2); try done; lia.
Qed.

(** Listing a directory.  [fat_readdir] gives for every index the name and the kind of the item
    at that place among the files of the directory, and [-ENOENT] behind the last. *)
Theorem fat_readdir_correct fuel sb inode os its tail index :
  dir_view sb inode os its tail -> 0 <= index -> (length os < fuel)%nat ->
  fat_readdir fuel sb inode index =
    Some (match listed its !! Z.to_nat index with Some it => Ok (item_dirent it) | None => Err ENOENT end).
Proof.
  intros [Hwf (cur & Hcur & Hv) Hok Hes Hits Hend] Hi Hfuel. unfold fat_readdir. rewrite Hcur.
  cbv beta iota delta [mbind option_bind]. by eapply readdir_items.
Qed.

(** * Allocation of entries *)

Definition is_free_item (it : item) : Prop := exists e, it = I_free e /\ byte_at e 0 = 0xe5.

Lemma free_items_entries fs : Forall is_free_item fs -> length (entries_of fs) = length fs.
Proof. induction 1 as [|it fs (e & -> & _) _ IH]; [done|]. unfold entries_of in *. simpl. by rewrite IH. Qed.

Lemma item_cases it : item_ok it -> is_free_item it \/ Forall used_entry (item_entries it).
Proof.
  destruct it as [e|e|e|les e lname]; simpl; intros Hok.
  - left. by exists e.
  - right. apply Forall_singleton. tauto.
  - right. apply Forall_singleton. tauto.
  - right. destruct Hok as (Hl & He & _). apply Forall_app. split; [done|by apply Forall_singleton].
Qed.

(** The slots hold the entries of the items. *)
Definition layout sb (its : list item) (os : list Z) : Prop := map (entry_at sb) os = entries_of its.

Lemma layout_app sb its1 its2 os1 os2 :
  layout sb its1 os1 -> layout sb its2 os2 -> layout sb (its1 ++ its2) (os1 ++ os2).
Proof. unfold layout, entries_of. intros. rewrite !map_app, concat_app. congruence. Qed.

(** Passing an item that is in use: the run of free entries starts again behind it. *)
Lemma search_used fuel sb inode count run fc prev cur it os tail :
  wf sb -> slots_ok sb (os ++ tail) -> visits sb inode cur (os ++ tail) ->
  map (entry_at sb) os = item_entries it -> Forall used_entry (item_entries it) ->
  0 <= fc < count -> (length os <= fuel)%nat ->
  exists cur' prev', visits sb inode cur' tail /\
    search_loop fuel sb inode count run fc false prev cur =
      search_loop (fuel - length os) sb inode count cur' 0 false prev' cur'.
Proof.
  intros Hwf Hok Hv Hes Hu Hfc Hf. destruct (item_cons it) as (e & es & He). rewrite He in *. clear He it.
  revert e es os run fc prev cur fuel Hok Hv Hes Hu Hfc Hf.
  intros e es. revert e. induction es as [|e' es IH]; intros e os run fc prev cur fuel Hok Hv Hes Hu Hfc Hf;
    apply map_eq_cons_split in Hes as (o & os' & -> & Ho & Hes);
    (destruct fuel as [|fuel]; [simpl in Hf; lia|]);
    destruct (read_next_slot sb inode cur o (os' ++ tail) Hwf Hok Hv) as (cur1 & Hr & Hv1 & _);
    apply Forall_cons in Hu as [Hue Hu]; destruct (used_eqb _ Hue) as [E0 E5];
    cbn [search_loop]; rewrite (proj2 (Z.ltb_lt fc count)) by lia;
    rewrite Hr; cbv beta iota delta [mbind option_bind]; rewrite Ho, E5, E0; simpl orb; cbv iota.
  - apply map_eq_nil in Hes as ->. exists cur1, (at_cluster cur1). split; [done|]. simpl. by rewrite Nat.sub_0_r.
  - destruct (IH e' os' cur1 0 (at_cluster cur1) cur1 fuel) as (cur' & prev' & Hv' & Heq);
      [by eapply slots_ok_tail|done|done|done|lia|simpl in Hf; lia|]. exists cur', prev'. split; [done|].
    rewrite Heq. done.
Qed.

(** The search over the items: a run of enough free ones, or the free ones at the end. *)
Lemma search_items fuel sb inode (count : nat) run prev cur F its oF os tail :
  wf sb -> slots_ok sb (oF ++ os ++ tail) -> visits sb inode run (oF ++ os ++ tail) ->
  visits sb inode cur (os ++ tail) -> layout sb F oF -> layout sb its os ->
  Forall is_free_item F -> Forall item_ok its -> (length F < count)%nat -> (length os <= fuel)%nat ->
  (exists a fs c oa of_ oc run' prev' cur', F ++ its = a ++ fs ++ c /\ oF ++ os = oa ++ of_ ++ oc /\
     layout sb a oa /\ layout sb fs of_ /\ layout sb c oc /\
     Forall is_free_item fs /\ length fs = count /\ visits sb inode run' (of_ ++ oc ++ tail) /\
     search_loop fuel sb inode (Z.of_nat count) run (Z.of_nat (length F)) false prev cur =
       Some (Ok (run', Z.of_nat count, false, prev', cur'))) \/
  (exists a fs oa of_ run' prev' cur', F ++ its = a ++ fs /\ oF ++ os = oa ++ of_ /\
     layout sb a oa /\ layout sb fs of_ /\ Forall is_free_item fs /\ (length fs < count)%nat /\
     visits sb inode run' (of_ ++ tail) /\ visits sb inode cur' tail /\
     search_loop fuel sb inode (Z.of_nat count) run (Z.of_nat (length F)) false prev cur =
       search_loop (fuel - length os) sb inode (Z.of_nat count) run' (Z.of_nat (length fs)) false prev' cur').
Proof.
  intros Hwf. revert fuel run prev cur F oF os.
  induction its as [|it its IH]; intros fuel run prev cur F oF os Hok Hvr Hv HeF Hes HF Hits HlF Hf.
  { apply map_eq_nil in Hes as ->. rewrite !app_nil_r in *. right. exists [], F, [], oF, run, prev, cur.
    simpl. rewrite Nat.sub_0_r. done. }
  apply Forall_cons in Hits as [Hit Hits]. unfold layout, entries_of in Hes. simpl in Hes.
  apply map_eq_app_split in Hes as (os1 & os2 & -> & Hes1 & Hes2). rewrite <- app_assoc in Hok, Hv, Hvr.
  pose proof (slots_ok_app _ _ _ Hok) as (_ & Hok1 & _). rewrite length_app in Hf.
  pose proof (slots_ok_app _ _ _ Hok1) as (_ & Hok2 & _).
  destruct (item_cases it Hit) as [(e & -> & Hfree)|Hused].
  - simpl in Hes1. apply map_eq_cons_split in Hes1 as (o & os' & -> & Ho & ->%map_eq_nil). simpl app in *.
    destruct fuel as [|fuel]; [simpl in Hf; lia|].
    destruct (read_next_slot sb inode cur o (os2 ++ tail) Hwf Hok1 Hv) as (cur1 & Hr & Hv1 & _).
    assert (Hstep : search_loop (S fuel) sb inode (Z.of_nat count) run (Z.of_nat (length F)) false prev cur =
      search_loop fuel sb inode (Z.of_nat count) run (Z.of_nat (length (F ++ [I_free e]))) false (at_cluster cur1) cur1).
    { cbn [search_loop]. rewrite (proj2 (Z.ltb_lt _ _)) by lia. rewrite Hr. cbv beta iota delta [mbind option_bind].
      rewrite Ho, Hfree. simpl orb. cbv iota. f_equal. rewrite length_app. simpl. lia. }
    assert (HF' : Forall is_free_item (F ++ [I_free e])).
    { apply Forall_app. split; [done|]. apply Forall_singleton. by exists e. }
    assert (HeF' : layout sb (F ++ [I_free e]) (oF ++ [o])) by (apply layout_app; [done|]; by unfold layout; simpl; rewrite Ho).
    rewrite Hstep. destruct (decide (S (length F) = count)) as [Hc|Hc].
    + left. exists [], (F ++ [I_free e]), its, [], (oF ++ [o]), os2, run, (at_cluster cur1), cur1.
      rewrite <- !app_assoc. simpl. conjs; try done; [rewrite length_app; simpl; lia|].
      replace (Z.of_nat (length (F ++ [I_free e]))) with (Z.of_nat count) by (rewrite length_app; simpl; lia).
      destruct fuel; simpl; by rewrite Z.ltb_irrefl.
    + specialize (IH fuel run (at_cluster cur1) cur1 (F ++ [I_free e]) (oF ++ [o]) os2).
      rewrite <- !app_assoc in IH. simpl app in IH. simpl in Hf.
      apply IH; try done; [rewrite length_app; simpl; lia|lia].
  - destruct (search_used fuel sb inode (Z.of_nat count) run (Z.of_nat (length F)) prev cur it os1 (os2 ++ tail))
      as (cur1 & prev1 & Hv1 & ->); [done|done|done|done|done|lia|lia|].
    destruct (IH (fuel - length os1)%nat cur1 prev1 cur1 [] [] os2)
      as [(a & fs & c & oa & of_ & oc & run' & prev' & cur' & E1 & E2 & L1 & L2 & L3 & Hfs & Hn & Hvr' & Hs)
         |(a & fs & oa & of_ & run' & prev' & cur' & E1 & E2 & L1 & L2 & Hfs & Hn & Hvr' & Hv' & Hs)];
      simpl app in *; try done; try (simpl; lia).
    + left. exists (F ++ it :: a), fs, c, (oF ++ os1 ++ oa), of_, oc, run', prev', cur'.
      rewrite <- !app_assoc, E2, E1. simpl. conjs; try done.
      apply layout_app; [done|]. unfold layout, entries_of. simpl. rewrite map_app, Hes1, L1. done.
    + right. exists (F ++ it :: a), fs, (oF ++ os1 ++ oa), of_, run', prev', cur'.
      rewrite <- !app_assoc, E2, E1. simpl. conjs; try done.
      * apply layout_app; [done|]. unfold layout, entries_of. simpl. rewrite map_app, Hes1, L1. done.
      * rewrite <- E2. replace (fuel - length (os1 ++ os2))%nat with (fuel - length os1 - length os2)%nat by (rewrite length_app; lia). exact Hs.
Qed.

(** Behind the end mark every entry is free. *)
Lemma search_free k fuel sb inode count run fc prev cur tl :
  wf sb -> slots_ok sb tl -> visits sb inode cur tl -> fc + Z.of_nat k = count -> (k <= length tl)%nat -> (k <= fuel)%nat ->
  exists prev' cur', search_loop fuel sb inode count run fc true prev cur = Some (Ok (run, count, true, prev', cur')) /\
    visits sb inode cur' (drop k tl).
Proof.
  intros Hwf. revert fuel fc prev cur tl. induction k as [|k IH]; intros fuel fc prev cur tl Hok Hv Hfc Hk Hf.
  - replace fc with count by lia. exists prev, cur. split; [|done]. destruct fuel; simpl; by rewrite Z.ltb_irrefl.
  - destruct tl as [|o tl]; [simpl in Hk; lia|]. destruct fuel as [|fuel]; [lia|].
    destruct (read_next_slot sb inode cur o tl Hwf Hok Hv) as (cur1 & Hr & Hv1 & _).
    destruct (IH fuel (fc + 1) (at_cluster cur1) cur1 tl) as (prev' & cur' & Hs & Hv');
      [by eapply slots_ok_tail|done|lia|simpl in Hk; lia|lia|].
    exists prev', cur'. split; [|done]. cbn [search_loop]. rewrite (proj2 (Z.ltb_lt _ _)) by lia.
    rewrite Hr. cbv beta iota delta [mbind option_bind]. by rewrite orb_true_r.
Qed.

(** The volume after writes to slots: only the entries of these slots differ. *)
Record slots_written sb sb' (os : list Z) : Prop := {
  ss_wf : wf sb';
  ss_visits inode cur os' : visits sb inode cur os' -> visits sb' inode cur os';
  ss_slots os' : slots_ok sb os' -> slots_ok sb' os';
  ss_first inode : first_entry sb' inode = first_entry sb inode;
  ss_other o' : 0 <= o' -> (forall o, o ∈ os -> apart o 32 o') -> entry_at sb' o' = entry_at sb o';
  ss_eof : fat_eof sb' = fat_eof sb;
}.

Lemma slots_written_refl sb os : wf sb -> slots_written sb sb os.
Proof. intros. by split. Qed.

Lemma slots_written_one sb sb' o e : wf sb -> slot_written sb sb' o e -> slots_written sb sb' [o].
Proof.
  intros Hwf Hs. pose proof (sw_same _ _ _ _ Hs) as E. split.
  - apply Hs.
  - intros inode cur os. by eapply sw_visits.
  - intros os. by eapply sw_slots.
  - intros inode. rewrite E. reflexivity.
  - intros o' Ho' Ha. apply (sw_other _ _ _ _ Hs); [done|]. apply Ha. set_solver.
  - rewrite E. reflexivity.
Qed.

Lemma slots_written_trans sb sb1 sb2 os1 os2 :
  slots_written sb sb1 os1 -> slots_written sb1 sb2 os2 -> slots_written sb sb2 (os1 ++ os2).
Proof.
  intros [W1 V1 S1 F1 O1 E1] [W2 V2 S2 F2 O2 E2]. split; auto.
  - intros inode. by rewrite F2.
  - intros o Ho Ha. rewrite O2, O1; try done; intros o' Ho'; apply Ha; set_solver.
  - congruence.
Qed.

(** Slots apart from the written ones keep their items. *)
Lemma layout_kept sb sb' os its os' :
  wf sb -> slots_written sb sb' os -> slots_ok sb os' -> (forall o o', o ∈ os -> o' ∈ os' -> apart o 32 o') ->
  layout sb its os' -> layout sb' its os'.
Proof.
  intros Hwf Hs [Hok _] Ha Hl. unfold layout. rewrite <- Hl. apply map_ext_in. intros o Ho%list_elem_of_In.
  apply (ss_other _ _ _ Hs); [|auto]. rewrite Forall_forall in Hok. apply Hok in Ho.
  pose proof (table_pos _ Hwf). lia.
Qed.

Definition end_marked sb (tail : list Z) : Prop :=
  match tail with [] => True | o :: _ => byte_at (entry_at sb o) 0 = 0 end.

Lemma zero_entry : lenZ (replicate 32 0 : list Z) = 32 /\ Forall is_byte (replicate 32 0).
Proof. split; [done|]. apply Forall_replicate. unfold is_byte. lia. Qed.

(** The end mark behind the new entries. *)
Lemma write_end_ok sb inode cur run tl :
  wf sb -> slots_ok sb tl -> visits sb inode cur tl ->
  exists sb', write_end sb inode cur run = Some (sb', Ok run) /\ slots_written sb sb' (take 1 tl) /\ end_marked sb' tl.
Proof.
  intros Hwf Hok Hv. unfold write_end. destruct zero_entry as [Hl Hb]. destruct tl as [|o tl].
  - exists sb. inversion Hv as [c Hr|]; subst. unfold fat_write_next_entry. rewrite Hr.
    split; [done|]. split; [by apply slots_written_refl|done].
  - destruct (write_next_slot sb inode cur o tl (replicate 32 0) Hwf Hok Hv Hl Hb) as (sb' & cur' & -> & Hs & _).
    exists sb'. split; [done|]. split; [by eapply slots_written_one|].
    simpl. by rewrite (sw_entry _ _ _ _ Hs).
Qed.

Lemma sorted_apart sb os1 os2 : slots_ok sb (os1 ++ os2) -> forall o o', o ∈ os1 -> o' ∈ os2 -> apart o 32 o'.
Proof. intros Hok. by apply slots_ok_app in Hok as (_ & _ & ?). Qed.

Lemma apart_sym o o' : apart o 32 o' -> apart o' 32 o.
Proof. unfold apart. lia. Qed.

(** The end mark found: the rest of the run is behind it. *)
Lemma search_end fuel sb inode (count : nat) run (m : nat) prev cur o tl :
  wf sb -> slots_ok sb (o :: tl) -> visits sb inode cur (o :: tl) -> byte_at (entry_at sb o) 0 = 0 ->
  (m < count)%nat -> (count - m <= length (o :: tl))%nat -> (count - m <= fuel)%nat ->
  exists prev' cur', search_loop fuel sb inode (Z.of_nat count) run (Z.of_nat m) false prev cur =
      Some (Ok (run, Z.of_nat count, true, prev', cur')) /\ visits sb inode cur' (drop (count - m) (o :: tl)).
Proof.
  intros Hwf Hok Hv Hz Hm Hlen Hf. destruct fuel as [|fuel]; [lia|].
  destruct (read_next_slot sb inode cur o tl Hwf Hok Hv) as (cur1 & Hr & Hv1 & _).
  destruct (search_free (count - m - 1) fuel sb inode (Z.of_nat count) run (Z.of_nat m + 1) (at_cluster cur1) cur1 tl)
    as (prev' & cur' & Hs & Hv'); [done|by eapply slots_ok_tail|done|lia|simpl in Hlen; lia|lia|].
  exists prev', cur'. split.
  - cbn [search_loop]. rewrite (proj2 (Z.ltb_lt _ _)) by lia. rewrite Hr. cbv beta iota delta [mbind option_bind].
    rewrite Hz. simpl orb. cbv iota. simpl Z.eqb. cbv iota. exact Hs.
  - replace (count - m)%nat with (S (count - m - 1)) by lia. exact Hv'.
Qed.

(** When enough slots are left behind the last item, a run of free entries is found: free items
    [fs], and behind the last item also slots of the tail. *)
Record allocated sb sb' inode (count : nat) (os : list Z) (its : list item) (tail : list Z)
    (a fs c : list item) (oa ofs orest oc tail' : list Z) (run : cursor) : Prop := {
  al_items : its = a ++ fs ++ c;
  al_slots : os = oa ++ ofs ++ oc;
  al_tail : oc ++ tail = orest ++ oc ++ tail';
  al_free : Forall is_free_item fs;
  al_count : length (ofs ++ orest) = count;
  al_before : layout sb a oa /\ layout sb fs ofs /\ layout sb c oc;
  al_written : slots_written sb sb' (take 1 tail');
  al_run : visits sb' inode run ((ofs ++ orest) ++ oc ++ tail');
  al_end : end_marked sb' tail';
}.

Lemma allocate_entries_ok fuel sb inode (count : nat) os its tail :
  dir_view sb inode os its tail -> (0 < count <= length tail)%nat -> (length os + count <= fuel)%nat ->
  exists sb' a fs c oa ofs orest oc tail' run,
    fat_allocate_entries fuel sb inode (Z.of_nat count) = Some (sb', inode, Ok run) /\
    allocated sb sb' inode count os its tail a fs c oa ofs orest oc tail' run.
Proof.
  intros [Hwf (cur & Hcur & Hv) Hok Hes Hits Hend] Hcount Hfuel.
  unfold fat_allocate_entries. rewrite (proj2 (Z.ltb_lt 0 _)) by lia. rewrite Hcur.
  cbv beta iota delta [mbind option_bind].
  destruct (search_items fuel sb inode count cur 0 cur [] its [] os tail)
    as [(a & fs & c & oa & of_ & oc & run & prev & cur' & E1 & E2 & L1 & L2 & L3 & Hfs & Hn & Hvr & Hs)
       |(a & fs & oa & of_ & run & prev & cur' & E1 & E2 & L1 & L2 & Hfs & Hn & Hvr & Hv' & Hs)];
    try done; try (simpl; lia); simpl app in *; simpl length in Hs; change (Z.of_nat 0) with 0 in Hs; rewrite Hs.
  - rewrite Z.ltb_irrefl. exists sb, a, fs, c, oa, of_, [], oc, tail, run. split; [done|]. split; try done.
    + by rewrite app_nil_r, <- Hn, <- (free_items_entries _ Hfs), <- L2, length_map.
    + by rewrite app_nil_r.
  - assert (Hlen : length of_ = length fs) by (by rewrite <- (free_items_entries _ Hfs), <- L2, length_map).
    destruct tail as [|o tl]; [simpl in Hcount; lia|].
    pose proof (slots_ok_app _ _ _ Hok) as (_ & Hok' & _).
    destruct (search_end (fuel - length os) sb inode count run (length fs) prev cur' o tl)
      as (prev' & cur2 & -> & Hv2); [done|done|done|done|done|lia|lia|]. rewrite Z.ltb_irrefl.
    set (k := (count - length fs)%nat) in *. pose proof Hok' as Hok2. rewrite <- (take_drop k (o :: tl)) in Hok2.
    apply slots_ok_app in Hok2 as (_ & Hok2 & _).
    destruct (write_end_ok sb inode cur2 run (drop k (o :: tl)) Hwf Hok2 Hv2) as (sb' & -> & Hw & Hmark).
    exists sb', a, fs, [], oa, of_, (take k (o :: tl)), [], (drop k (o :: tl)), run. split; [done|].
    split; rewrite ?app_nil_r; simpl app; try done.
    + by rewrite take_drop.
    + rewrite length_app, length_take. unfold k in *. lia.
    + rewrite <- app_assoc, take_drop. by apply (ss_visits _ _ _ Hw).
Qed.

(** * Writing a new item *)

(** The long entries, in the order in which they are stored. *)
Fixpoint lfn_entries (ord : nat) (checksum : Z) (units : list Z) (count : Z) : list (list Z) :=
  match ord with
  | O => []
  | S ord' => make_lfn checksum units count (Z.of_nat ord) :: lfn_entries ord' checksum units count
  end.

Lemma length_lfn_entries n ck units count : length (lfn_entries n ck units count) = n.
Proof. induction n; simpl; auto. Qed.

(** Entries written one after the other are all there in the end. *)
Lemma write_more sb sb1 sb2 o e os es :
  wf sb -> slots_ok sb (o :: os) -> slot_written sb sb1 o e -> slots_written sb1 sb2 os ->
  map (entry_at sb2) os = es -> slots_written sb sb2 (o :: os) /\ map (entry_at sb2) (o :: os) = e :: es.
Proof.
  intros Hwf Hok Hs1 Hs2 Hes. split.
  - apply (slots_written_trans _ sb1 _ [o] os); [by eapply slots_written_one|done].
  - simpl. f_equal; [|done]. rewrite (ss_other _ _ _ Hs2).
    + apply Hs1.
    + destruct Hok as [Hok _]. apply Forall_cons in Hok as [[? _] _]. pose proof (table_pos _ Hwf). lia.
    + intros o' Ho'. apply apart_sym. apply (sorted_apart sb [o] os Hok); set_solver.
Qed.

Lemma write_lfn_ok n sb inode cur checksum units count os rest :
  wf sb -> slots_ok sb (os ++ rest) -> visits sb inode cur (os ++ rest) -> length os = n ->
  Forall unit16 units -> is_byte checksum -> Z.of_nat n <= count < 0x40 ->
  exists sb' cur', write_lfn_loop n sb inode cur checksum units count = Some (sb', Ok cur') /\
    slots_written sb sb' os /\ visits sb' inode cur' rest /\
    map (entry_at sb') os = lfn_entries n checksum units count.
Proof.
  intros Hwf Hok Hv Hn Hu Hck Hc. revert sb cur os Hwf Hok Hv Hn Hc.
  induction n as [|n IH]; intros sb cur os Hwf Hok Hv Hn Hc.
  - destruct os; [|done]. exists sb, cur. split; [done|]. split; [by apply slots_written_refl|done].
  - destruct os as [|o os]; [done|]. simpl in Hn.
    destruct (make_lfn_fields checksum units count (Z.of_nat (S n)) Hu ltac:(lia) ltac:(lia)) as (Hl & _).
    destruct (write_next_slot sb inode cur o (os ++ rest) (make_lfn checksum units count (Z.of_nat (S n))))
      as (sb1 & cur1 & Hw & Hs1 & Hv1); [done|done|done|exact Hl|apply make_lfn_byte; [done|lia|lia]|].
    pose proof (slots_written_one _ _ _ _ Hwf Hs1) as Hs1'.
    destruct (IH sb1 cur1 os) as (sb2 & cur2 & Hw2 & Hs2 & Hv2 & He2);
      [apply Hs1|apply (ss_slots _ _ _ Hs1'); by eapply slots_ok_tail|done|lia|lia|].
    exists sb2, cur2. cbn [write_lfn_loop]. rewrite Hw. split; [exact Hw2|].
    destruct (write_more sb sb1 sb2 o (make_lfn checksum units count (Z.of_nat (S n))) os (lfn_entries n checksum units count))
      as [Hs Hm]; [done| |done|done|done|].
    { by apply (slots_ok_app sb (o :: os) rest) in Hok as (? & _). }
    done.
Qed.

(** ** The new item *)

(** Names that the file system stores as they are: short names of printable characters, and long
    names of code points of the basic plane that fit in nineteen entries. *)
Definition storable (name : list Z) : Prop :=
  Forall name_char name /\
  (if fat_is_long_name name then
     exists cps, Forall Unicode.bmp cps /\ Unicode.utf8_encode_buf cps = Ok name /\ lenZ cps < 247 /\ lenZ name < 511
   else Forall printable name).

(** The units of a name with its end mark. *)
Definition name_units (name : list Z) : list Z :=
  if fat_is_long_name name then match Unicode.utf8_to_utf16 (name ++ [0]) with Ok u => u | Err _ => [] end else [].

Definition new_item (name e e' : list Z) : item :=
  if fat_is_long_name name then
    let count := lfn_count (lenZ (name_units name)) in
    I_long (lfn_entries (Z.to_nat count) (fat_sfn_checksum e) (name_units name) count) e' name
  else I_short e'.

Lemma lfn_ord_mask ord : 1 <= ord < 20 ->
  Z.land ord (Z.lnot LAST_LONG_ENTRY) = ord /\ Z.land (ord + LAST_LONG_ENTRY) (Z.lnot LAST_LONG_ENTRY) = ord /\
  has (ord + LAST_LONG_ENTRY) LAST_LONG_ENTRY = true.
Proof.
  intros Ho. assert (Hall : forallb (fun ord => (Z.land ord (Z.lnot LAST_LONG_ENTRY) =? ord) &&
    (Z.land (ord + LAST_LONG_ENTRY) (Z.lnot LAST_LONG_ENTRY) =? ord) && has (ord + LAST_LONG_ENTRY) LAST_LONG_ENTRY)
    (seqZ 1 19) = true) by (vm_compute; reflexivity).
  rewrite forallb_forall in Hall. specialize (Hall ord). rewrite <- list_elem_of_In, elem_of_seqZ in Hall.
  specialize (Hall ltac:(lia)). apply andb_true_iff in Hall as [[?%Z.eqb_eq ?%Z.eqb_eq]%andb_true_iff ?]. done.
Qed.

Lemma lfn_entries_lookup n ck units count i e :
  lfn_entries n ck units count !! i = Some e -> (i < n)%nat /\ e = make_lfn ck units count (Z.of_nat (n - i)).
Proof.
  revert i. induction n as [|n IH]; intros i; [done|]. destruct i as [|i]; simpl.
  - intros [= <-]. split; [lia|done].
  - intros Hi. apply IH in Hi as [? ->]. split; [lia|done].
Qed.

Lemma lfn_entries_text n ck units count :
  Forall unit16 units -> Z.of_nat n <= count < 0x40 ->
  lfn_text (lfn_entries n ck units count) = map (lfn_unit units) (seqZ 0 (13 * Z.of_nat n)).
Proof.
  intros Hu. induction n as [|n IH]; intros Hc; [done|]. unfold lfn_text in *. cbn [lfn_entries map rev].
  rewrite concat_app, IH by lia. cbn [concat]. rewrite app_nil_r.
  destruct (make_lfn_fields ck units count (Z.of_nat (S n)) Hu ltac:(lia) ltac:(lia)) as (_ & _ & _ & Hlu).
  rewrite Hlu, <- map_app. f_equal.
  replace (13 * Z.of_nat (S n)) with (13 * Z.of_nat n + 13) by lia. rewrite seqZ_split by lia.
  do 2 f_equal. lia.
Qed.

(** The name is followed by the end mark and the filling. *)
Lemma lfn_unit_text units n :
  lenZ units <= n -> exists pad, map (lfn_unit units) (seqZ 0 n) = units ++ pad.
Proof.
  intros Hn. pose proof (lenZ_nonneg units). exists (map (lfn_unit units) (seqZ (lenZ units) (n - lenZ units))).
  replace n with (lenZ units + (n - lenZ units)) at 1 by lia. rewrite seqZ_split, map_app, Z.add_0_l by lia. f_equal.
  apply list_eq. intros i. rewrite list_lookup_fmap. destruct (decide (i < length units)%nat) as [Hi|Hi].
  - rewrite lookup_seqZ_lt by (unfold lenZ; lia). simpl. rewrite Z.add_0_l. unfold lfn_unit.
    rewrite (proj2 (Z.ltb_lt _ _)) by (unfold lenZ; lia). unfold nthZ. rewrite Nat2Z.id.
    destruct (lookup_lt_is_Some_2 units i Hi) as [u Hu]. rewrite Hu. f_equal. by apply nth_lookup_Some.
  - rewrite lookup_seqZ_ge by (unfold lenZ; lia). symmetry. apply lookup_ge_None. lia.
Qed.

(** The date of creation is behind the name and the attribute. *)
Lemma set_creation_date_fields e now :
  lenZ e = 32 ->
  lenZ (set_creation_date e now) = 32 /\ base (set_creation_date e now) = base e /\
  ext (set_creation_date e now) = ext e /\ attribute (set_creation_date e now) = attribute e /\
  byte_at (set_creation_date e now) 0 = byte_at e 0 /\
  (Forall is_byte e -> Forall is_byte (set_creation_date e now)).
Proof.
  intros Hl. unfold set_creation_date. assert (Hb : lenZ (le_bytes 2 (u16 now)) = 2) by done.
  assert (Hbyte : forall i, 0 <= i < 16 -> byte_at (blit 16 (le_bytes 2 (u16 now)) e) i = byte_at e i).
  { intros i Hi. unfold byte_at, nthZ. rewrite !nth_lookup. f_equal. apply lookup_blit; lia. }
  split_and!.
  - by rewrite lenZ_blit.
  - apply sliceZ_blit_other; lia.
  - apply sliceZ_blit_other; lia.
  - by apply Hbyte.
  - by apply Hbyte.
  - intros. apply Forall_blit; [apply le_bytes_byte|done].
Qed.

Lemma c_string_app name : Forall name_char name -> c_string (name ++ [0]) = name.
Proof.
  induction 1 as [|c name [Hc _] _ IH]; [done|]. simpl. rewrite (proj2 (Z.eqb_neq _ _)) by done. by rewrite IH.
Qed.

Lemma bmp_units cps : Forall Unicode.bmp cps -> Forall unit16 (cps ++ [0]).
Proof.
  intros Hb. apply Forall_app. split; [|apply Forall_singleton; unfold unit16; lia].
  eapply Forall_impl; [done|]. intros c [_ ?]. unfold unit16. lia.
Qed.

Lemma lfn_count_bounds n : 1 <= n <= 247 -> 1 <= lfn_count n <= 19 /\ n <= 13 * lfn_count n.
Proof. intros. unfold lfn_count, FAT_LFN_NAME_LENGTH. Z.div_mod_to_equations. lia. Qed.

Definition plain_attributes (attributes : Z) : Prop := attributes = 0 \/ attributes = ATTR_DIRECTORY.

(** The generated entry with a date is one of a file. *)
Lemma new_entry_ok eof name attributes now e :
  Forall name_char name -> plain_attributes attributes -> fat_sfn_generate eof name attributes = Some e ->
  lenZ e = 32 /\ lenZ (set_creation_date e now) = 32 /\ Forall is_byte (set_creation_date e now) /\
  used_entry (set_creation_date e now) /\ is_lfn (set_creation_date e now) = false /\
  has (attribute (set_creation_date e now)) ATTR_VOLUME_ID = false /\
  attribute (set_creation_date e now) = attributes.
Proof.
  intros Hn Ha Hg. destruct (generate_parts _ _ _ _ Hg) as (b & x & rest & -> & Hb & Hx & Hr & Hbytes & (c & b' & -> & Hc)).
  assert (Hl : lenZ ((c :: b') ++ x ++ [attributes] ++ rest) = 32) by (rewrite !lenZ_app, Hb, Hx, Hr; done).
  destruct (set_creation_date_fields _ now Hl) as (Hl' & _ & _ & Hat & H00 & Hby).
  assert (Hattr : attribute ((c :: b') ++ x ++ [attributes] ++ rest) = attributes).
  { unfold attribute, byte_at, nthZ, lenZ in *. rewrite app_nth2, app_nth2 by lia.
    replace (Z.to_nat 11 - length (c :: b') - length x)%nat with O by lia. done. }
  assert (Hnb : Forall is_byte name) by (eapply Forall_impl; [exact Hn|by intros ? [_ ?]]).
  destruct (Hbytes Hnb) as (B1 & B2 & B3).
  split; [done|]. split; [done|]. split.
  { apply Hby. repeat (apply Forall_app; split); try done. apply Forall_singleton.
    destruct Ha as [->| ->]; unfold is_byte, ATTR_DIRECTORY; lia. }
  split; [unfold used_entry; rewrite H00; by apply Hc|].
  unfold is_lfn. rewrite Hat, Hattr. by destruct Ha as [->| ->].
Qed.

Lemma new_item_ok eof name attributes now e :
  storable name -> plain_attributes attributes -> fat_sfn_generate eof name attributes = Some e ->
  let it := new_item name e (set_creation_date e now) in
  item_ok it /\ item_matches it name = true /\ sfn_of it = set_creation_date e now.
Proof.
  intros [Hn Hst] Ha Hg. destruct (new_entry_ok eof name attributes now e Hn Ha Hg) as (He & He' & _ & Hu & Hl & Hv & _).
  unfold new_item. destruct (fat_is_long_name name) eqn:Hlong.
  - destruct Hst as (cps & Hb & Hutf & Hlen & Hnl).
    assert (Hunits : name_units name = cps ++ [0]).
    { unfold name_units. by rewrite Hlong, (Unicode.utf8_to_utf16_bmp cps name Hb Hutf). }
    rewrite Hunits. set (units := cps ++ [0]). set (ck := fat_sfn_checksum e).
    assert (Hul : lenZ units = lenZ cps + 1) by (unfold units; rewrite lenZ_app; done).
    pose proof (lenZ_nonneg cps).
    destruct (lfn_count_bounds (lenZ units) ltac:(lia)) as [Hcnt Hcov]. set (count := lfn_count (lenZ units)) in *.
    pose proof (bmp_units cps Hb) as Hu16. fold units in Hu16.
    assert (Hfield : forall i x, lfn_entries (Z.to_nat count) ck units count !! i = Some x ->
      is_lfn x = true /\ lfn_ord x = (if (Z.to_nat count - i =? Z.to_nat count)%nat then count + LAST_LONG_ENTRY else Z.of_nat (Z.to_nat count - i)) /\
      (i < Z.to_nat count)%nat).
    { intros i x Hx. apply lfn_entries_lookup in Hx as [Hi ->].
      destruct (make_lfn_fields ck units count (Z.of_nat (Z.to_nat count - i)) Hu16 ltac:(lia) ltac:(lia)) as (_ & F1 & F2 & _).
      split; [done|]. split; [|done]. rewrite F2. destruct (Nat.eqb_spec (Z.to_nat count - i) (Z.to_nat count)) as [E|E].
      - rewrite E, Z2Nat.id by lia. by rewrite Z.eqb_refl.
      - rewrite (proj2 (Z.eqb_neq _ _)) by lia. done. }
    split; [|split; [simpl; by rewrite bool_decide_eq_true_2|done]].
    simpl. rewrite length_lfn_entries. split_and!; try done.
    + apply Forall_forall. intros x (i & Hx)%list_elem_of_lookup. apply Hfield in Hx as (_ & Ho & Hi).
      unfold used_entry. unfold lfn_ord in Ho. rewrite Ho. unfold LAST_LONG_ENTRY.
      destruct (Nat.eqb _ _); lia.
    + lia.
    + lia.
    + intros i x Hx. apply Hfield in Hx as (Hlf & Ho & Hi). rewrite length_lfn_entries. split; [done|]. rewrite Ho.
      destruct (Nat.eqb_spec (Z.to_nat count - i) (Z.to_nat count)) as [E|E].
      * rewrite E, Z2Nat.id by lia. apply lfn_ord_mask. lia.
      * apply lfn_ord_mask. lia.
    + destruct (Z.to_nat count) as [|n] eqn:En; [lia|]. eexists. split; [reflexivity|].
      destruct (Hfield O _ eq_refl) as (_ & Ho & _). rewrite Ho, Nat.sub_0_r, Nat.eqb_refl.
      apply lfn_ord_mask. lia.
    + exists (name ++ [0]). rewrite lfn_entries_text by (done || lia). rewrite Z2Nat.id by lia.
      destruct (lfn_unit_text units (13 * count) Hcov) as (pad & ->). unfold units. rewrite <- app_assoc. simpl app.
      rewrite (Unicode.utf16_to_utf8_bmp cps name) by done. split_and!; [done|rewrite lenZ_app; unfold lenZ at 2; simpl; lia|].
      by rewrite c_string_app.
  - split; [done|]. split; [|done]. simpl.
    destruct (set_creation_date_fields e now He) as (_ & Hb & Hx & _).
    unfold fat_sfn_match. rewrite Hb, Hx.
    exact (short_matches eof name attributes e Hlong Hst Hg).
Qed.

(** * Creating a file *)

Lemma find_item_app name a b oa ob :
  length oa = length (entries_of a) ->
  find_item name (a ++ b) (oa ++ ob) =
    match find_item name a oa with Some f => Some f | None => find_item name b ob end.
Proof.
  revert oa. induction a as [|it a IH]; intros oa Hl; [by destruct oa|].
  unfold entries_of in Hl. simpl in Hl. rewrite length_app in Hl. simpl.
  rewrite take_app_le, drop_app_le by lia. destruct (item_matches it name).
  - destruct (item_cons it) as (e & es & He). rewrite He in Hl. destruct oa; [done|]. done.
  - apply IH. rewrite length_drop. unfold entries_of. lia.
Qed.

Lemma find_item_free name fs os : Forall is_free_item fs -> find_item name fs os = None.
Proof. intros Hfs. revert os. induction Hfs as [|it fs (e & -> & _) _ IH]; intros os; [done|]. simpl. apply IH. Qed.

Lemma layout_length sb its os : layout sb its os -> length os = length (entries_of its).
Proof. intros <-. by rewrite length_map. Qed.

(** The number of entries that a name takes. *)
Definition new_entries (name : list Z) : nat :=
  if fat_is_long_name name then S (Z.to_nat (lfn_count (lenZ (name_units name)))) else 1.

Lemma new_item_entries name e e' : length (item_entries (new_item name e e')) = new_entries name.
Proof.
  unfold new_item, new_entries. destruct (fat_is_long_name name); [|done]. simpl.
  rewrite length_app, length_lfn_entries. simpl. lia.
Qed.

(** The short entry, behind the long ones. *)
Lemma write_short_ok sb0 sb inode cur o rest les os e :
  wf sb0 -> slots_ok sb0 ((os ++ [o]) ++ rest) -> slots_written sb0 sb os -> visits sb inode cur (o :: rest) ->
  map (entry_at sb) os = les -> lenZ e = 32 -> Forall is_byte e ->
  exists sb' cur', fat_write_next_entry sb inode cur e = Some (sb', Ok cur') /\ slots_written sb0 sb' (os ++ [o]) /\
    map (entry_at sb') (os ++ [o]) = les ++ [e] /\ at_offset cur = o.
Proof.
  intros Hwf Hok Hs Hv Hes Hl Hb. pose proof (ss_wf _ _ _ Hs) as Hwf1.
  pose proof (slots_ok_app _ _ _ Hok) as (Hok1 & _). rewrite <- app_assoc in Hok.
  apply slots_ok_app in Hok as (_ & Hok & _). simpl app in Hok. apply (ss_slots _ _ _ Hs) in Hok.
  destruct (write_next_slot sb inode cur o rest e Hwf1 Hok Hv Hl Hb) as (sb' & cur' & Hw & Hs' & _).
  exists sb', cur'. split; [done|].
  split; [apply (slots_written_trans _ sb); [done|by eapply slots_written_one]|].
  split; [|by inversion Hv]. rewrite map_app. simpl. rewrite (sw_entry _ _ _ _ Hs'). f_equal.
  rewrite <- Hes. apply map_ext_in. intros o' Ho'%list_elem_of_In. apply (sw_other _ _ _ _ Hs').
  - destruct Hok1 as [Hok1 _]. rewrite Forall_forall in Hok1.
    destruct (Hok1 o') as [? _]; [set_solver|]. pose proof (table_pos _ Hwf). lia.
  - apply apart_sym. apply (sorted_apart sb0 os [o] Hok1); set_solver.
Qed.

(** What [fat_create_entry] writes once it has the run of entries. *)
Definition write_new sb inode (run : cursor) (name e e' : list Z) : option (fat_superblock D * res cursor) :=
  '(sb, r) ← (if fat_is_long_name name then fat_write_next_lfn sb inode run e (name_units name) else Some (sb, Ok run));
  match r with
  | Err e => Some (sb, Err e)
  | Ok cur => '(sb, r) ← fat_write_next_entry sb inode cur e'; Some (sb, match r with Err e => Err e | Ok _ => Ok cur end)
  end.

Lemma name_units_ok name : storable name -> fat_is_long_name name = true ->
  Unicode.utf8_to_utf16 (name ++ [0]) = Ok (name_units name) /\ Forall unit16 (name_units name) /\
  1 <= lfn_count (lenZ (name_units name)) <= 19.
Proof.
  intros [_ Hst] Hl. unfold name_units. rewrite Hl in *. destruct Hst as (cps & Hb & Hutf & Hlen & _).
  rewrite (Unicode.utf8_to_utf16_bmp cps name Hb Hutf). split; [done|]. split; [by apply bmp_units|].
  pose proof (lenZ_nonneg cps). apply lfn_count_bounds. rewrite lenZ_app. unfold lenZ at 2 4. simpl. lia.
Qed.

Lemma write_new_ok sb inode run name e e' nos rest :
  wf sb -> slots_ok sb (nos ++ rest) -> visits sb inode run (nos ++ rest) -> storable name ->
  length nos = new_entries name -> is_byte (fat_sfn_checksum e) -> lenZ e' = 32 -> Forall is_byte e' ->
  exists sb' cur, write_new sb inode run name e e' = Some (sb', Ok cur) /\ slots_written sb sb' nos /\
    layout sb' [new_item name e e'] nos /\ at_offset cur = List.last nos 0 /\ at_offset run = List.hd 0 nos.
Proof.
  intros Hwf Hok Hv Hst Hn Hck Hl Hb. unfold write_new, layout, entries_of, new_item, new_entries in *.
  assert (Hhd : forall l r, l <> [] -> visits sb inode run (l ++ r) -> at_offset run = List.hd 0 l).
  { intros l r Hne Hvr. destruct l; [done|]. by inversion Hvr. }
  destruct (fat_is_long_name name) eqn:Hlong.
  - destruct (name_units_ok name Hst Hlong) as (_ & Hu & Hc). set (count := lfn_count _) in *.
    destruct (exists_last (l := nos)) as (los & o & ->); [by intros ->|].
    rewrite length_app in Hn. simpl in Hn. pose proof Hok as Hok'. pose proof Hv as Hv'. rewrite <- app_assoc in Hok', Hv'.
    destruct (write_lfn_ok (Z.to_nat count) sb inode run (fat_sfn_checksum e) (name_units name) count los ([o] ++ rest))
      as (sb1 & cur & Hw & Hs1 & Hv1 & He1); try done; try lia.
    destruct (write_short_ok sb sb1 inode cur o rest _ los e' Hwf Hok Hs1 Hv1 He1 Hl Hb) as (sb2 & cur2 & Hw2 & Hs2 & He2 & Ho).
    exists sb2, cur. unfold fat_write_next_lfn. fold count. rewrite Hw. cbv beta iota delta [mbind option_bind].
    rewrite Hw2. split; [done|]. split; [done|]. split; [simpl; by rewrite app_nil_r|].
    split; [by rewrite List.last_last|]. apply (Hhd _ rest); [by destruct los|done].
  - destruct nos as [|o [|]]; try done. simpl app in *. cbv beta iota delta [mbind option_bind].
    destruct (write_short_ok sb sb inode run o rest [] [] e' Hwf Hok (slots_written_refl _ _ Hwf) Hv eq_refl Hl Hb)
      as (sb2 & cur2 & -> & Hs2 & He2 & Ho).
    exists sb2, run. done.
Qed.

(** The code writes exactly this. *)
Lemma create_entry_unfold fuel sb inode name attributes now sb1 run e :
  storable name -> fat_sfn_generate (fat_eof sb1) name attributes = Some e ->
  fat_allocate_entries fuel sb inode (Z.of_nat (new_entries name)) = Some (sb1, inode, Ok run) ->
  fat_create_entry fuel sb inode name attributes now =
    ('(sb2, r) ← write_new sb1 inode run name e (set_creation_date e now);
     Some (sb2, inode, match r with
                       | Err e => Err e
                       | Ok cur => Ok (mk_found (at_offset cur) (at_offset run) (set_creation_date e now))
                       end)).
Proof.
  intros Hst Hg Ha. unfold fat_create_entry, write_new, new_entries in *.
  destruct (fat_is_long_name name) eqn:Hlong.
  - destruct (name_units_ok name Hst Hlong) as (-> & _ & Hc).
    replace (1 + lfn_count (lenZ (name_units name))) with (Z.of_nat (S (Z.to_nat (lfn_count (lenZ (name_units name)))))) by lia.
    rewrite Ha. cbv beta iota delta [mbind option_bind]. rewrite Hg.
    destruct (fat_write_next_lfn sb1 inode run e (name_units name)) as [[sb2 [cur|er]]|]; [|done|done].
    by destruct (fat_write_next_entry sb2 inode cur _) as [[sb3 [cur'|er]]|].
  - change (1 + 0) with (Z.of_nat 1). rewrite Ha. cbv beta iota delta [mbind option_bind]. rewrite Hg.
    by destruct (fat_write_next_entry sb1 inode run _) as [[sb3 [cur'|er]]|].
Qed.

(** The directory after the new item is written to a run of free entries. *)
Lemma view_with_item sb sb1 sb2 inode count os its tail a fs c oa ofs orest oc tail' run it :
  dir_view sb inode os its tail ->
  allocated sb sb1 inode count os its tail a fs c oa ofs orest oc tail' run ->
  slots_written sb1 sb2 (ofs ++ orest) -> layout sb2 [it] (ofs ++ orest) -> item_ok it ->
  dir_view sb2 inode (oa ++ (ofs ++ orest) ++ oc) (a ++ [it] ++ c) tail'.
Proof.
  intros [Hwf (cur & Hcur & Hv) Hok Hes Hits Hend] [E1 E2 E3 Hfs Hn (La & Lf & Lc) Hw Hrun Hmark] Hs Hlit Hit.
  assert (Eall : os ++ tail = (oa ++ (ofs ++ orest) ++ oc) ++ tail') by (by rewrite E2, <- !app_assoc, E3).
  rewrite Eall in Hv, Hok. pose proof (slots_written_trans _ _ _ _ _ Hw Hs) as Hall.
  pose proof (slots_ok_app _ _ _ Hok) as (Hok1 & Hokt & Hap).
  pose proof (slots_ok_app _ _ _ Hok1) as (Hoka & Hokr & Hap1).
  pose proof (slots_ok_app _ _ _ Hokr) as (Hokf & Hokc & Hap2).
  assert (Htk : forall o, o ∈ take 1 tail' -> o ∈ tail').
  { intros o Ho. by eapply elem_of_list_take_1 || (destruct tail'; set_solver). }
  assert (Ka : layout sb2 a oa).
  { apply (layout_kept sb _ _ _ _ Hwf Hall Hoka); [|done]. intros o o' [Ho|Ho]%elem_of_app Ho'; apply apart_sym.
    - apply Hap; [set_solver|auto].
    - apply Hap1; set_solver. }
  assert (Kc : layout sb2 c oc).
  { apply (layout_kept sb _ _ _ _ Hwf Hall Hokc); [|done]. intros o o' [Ho|Ho]%elem_of_app Ho'.
    - apply apart_sym, Hap; [set_solver|auto].
    - apply Hap2; set_solver. }
  split.
  - apply Hs.
  - exists cur. rewrite (ss_first _ _ _ Hall). split; [done|]. by apply (ss_visits _ _ _ Hall).
  - by apply (ss_slots _ _ _ Hall).
  - apply layout_app; [done|]. by apply layout_app.
  - rewrite E1 in Hits. apply Forall_app in Hits as [? [_ ?]%Forall_app].
    apply Forall_app. split; [done|]. apply Forall_app. split; [by apply Forall_singleton|done].
  - destruct tail' as [|o tl]; [done|]. simpl in Hmark. rewrite (ss_other _ _ _ Hs); [done| |].
    + destruct Hokt as [Hokt _]. apply Forall_cons in Hokt as [[? _] _]. pose proof (table_pos _ Hwf). lia.
    + intros o' Ho'. apply Hap; set_solver.
Qed.

(** The items of the directory with the new one in place of free entries. *)
Lemma find_with_item sb sb1 inode count os its tail a fs c oa ofs orest oc tail' run it n :
  allocated sb sb1 inode count os its tail a fs c oa ofs orest oc tail' run ->
  length (item_entries it) = count ->
  find_item n (a ++ [it] ++ c) (oa ++ (ofs ++ orest) ++ oc) =
    match find_item n a oa with
    | Some f => Some f
    | None => if item_matches it n then Some (mk_found (List.last (ofs ++ orest) 0) (List.hd 0 (ofs ++ orest)) (sfn_of it))
              else find_item n c oc
    end /\
  find_item n its os = match find_item n a oa with Some f => Some f | None => find_item n c oc end.
Proof.
  intros [E1 E2 _ Hfs Hn (La & Lf & Lc) _ _ _] Hit. apply layout_length in La, Lf, Lc. split.
  - rewrite find_item_app by done. destruct (find_item n a oa); [done|].
    rewrite find_item_app by (unfold entries_of; simpl; by rewrite app_nil_r, Hit).
    simpl. rewrite Hit, <- Hn, firstn_all. by destruct (item_matches it n).
  - rewrite E1, E2, !find_item_app by done. destruct (find_item n a oa); [done|]. by rewrite find_item_free.
Qed.

Lemma items_slots sb its os : layout sb its os -> (length its <= length os)%nat.
Proof.
  intros ->%layout_length. unfold entries_of. induction its as [|it its IH]; simpl; [lia|].
  destruct (item_cons it) as (e & es & ->). rewrite length_app. simpl. lia.
Qed.

Lemma fat_create_spec fuel sb inode os its tail name attributes now :
  dir_view sb inode os its tail -> storable name -> plain_attributes attributes -> find_item name its os = None ->
  (new_entries name <= length tail)%nat -> (length os + new_entries name < fuel)%nat ->
  exists sb' a fs c it os' tail' f,
    fat_create_entry fuel sb inode name attributes now = Some (sb', inode, Ok f) /\
    its = a ++ fs ++ c /\ Forall is_free_item fs /\ visible it = true /\ attribute (sfn_of it) = attributes /\
    dir_view sb' inode os' (a ++ [it] ++ c) tail' /\
    find_item name (a ++ [it] ++ c) os' = Some f /\
    (forall n, item_matches it n = false -> find_item n (a ++ [it] ++ c) os' = find_item n its os).
Proof.
  intros Hdv Hst Hat Hnone Hroom Hfuel.
  assert (Hpos : (0 < new_entries name)%nat) by (unfold new_entries; destruct (fat_is_long_name name); lia).
  destruct (allocate_entries_ok fuel sb inode (new_entries name) os its tail Hdv) as
    (sb1 & a & fs & c & oa & ofs & orest & oc & tail' & run & Ha & Hall); [lia|lia|].
  pose proof Hall as [E1 E2 E3 Hfs Hn (La & Lf & Lc) Hw Hrun Hmark].
  destruct (generate_some (fat_eof sb1) name attributes) as (e & Hg).
  destruct (new_entry_ok _ _ _ now e (proj1 Hst) Hat Hg) as (_ & Hl' & Hb' & _ & _ & _ & Hattr).
  destruct (new_item_ok _ _ _ now e Hst Hat Hg) as (Hok & Hm & Hsfn). simpl in Hok, Hm, Hsfn.
  pose proof (create_entry_unfold fuel sb inode name attributes now sb1 run e Hst Hg Ha) as Hcreate.
  set (e' := set_creation_date e now) in *. set (it := new_item name e e') in *.
  assert (Hslots : slots_ok sb1 ((ofs ++ orest) ++ oc ++ tail')).
  { apply (ss_slots _ _ _ Hw). pose proof (dv_slots _ _ _ _ _ Hdv) as Hs. rewrite E2, <- !app_assoc, E3 in Hs.
    apply slots_ok_app in Hs as (_ & Hs & _). by rewrite <- app_assoc. }
  destruct (write_new_ok sb1 inode run name e e' (ofs ++ orest) (oc ++ tail') (ss_wf _ _ _ Hw) Hslots Hrun Hst)
    as (sb2 & cur & Hwn & Hs2 & Hlay & Hlast & Hhd); [done|apply checksum_byte|done|done|].
  rewrite Hwn in Hcreate.
  exists sb2, a, fs, c, it, (oa ++ (ofs ++ orest) ++ oc), tail', (mk_found (at_offset cur) (at_offset run) e').
  assert (Hfind := fun n => find_with_item _ _ _ _ _ _ _ _ _ _ _ _ _ _ _ _ it n Hall (new_item_entries _ _ _)).
  conjs; [exact Hcreate|done|done|by unfold it, new_item; destruct (fat_is_long_name name)|by rewrite Hsfn|by eapply view_with_item| |].
  - destruct (Hfind name) as [-> Hf]. rewrite Hnone in Hf. destruct (find_item name a oa); [done|].
    by rewrite Hm, Hlast, Hhd, Hsfn.
  - intros n Hno. destruct (Hfind n) as [-> ->]. by rewrite Hno.
Qed.

(** C39: Creating a file in a directory as [fat_lookup] reads it (FAT16 or FAT32, below 4 GiB, no
    I/O errors, well-formed items) that has the room for its entries behind its items and no
    file that answers to the name.  The name is one the file system stores as it is: a short one
    of printable characters, or a long one of fewer than 247 code points of the basic plane (the
    surrogates of the others are stored in the wrong order).  The new item takes the place of
    free entries, the other items stay where they are; looking up the name then gives the result
    of the creation, with its attribute, and every name that the new item does not answer to is
    looked up with the same result as before. *)
Theorem fat_create_correct fuel sb inode os its tail name attributes now :
  dir_view sb inode os its tail -> storable name -> plain_attributes attributes ->
  Forall (fun it => ~ answers it name) its ->
  (new_entries name <= length tail)%nat -> (length os + new_entries name < fuel)%nat ->
  exists sb' a fs c it os' tail' f,
    fat_create_entry fuel sb inode name attributes now = Some (sb', inode, Ok f) /\
    its = a ++ fs ++ c /\ Forall is_free_item fs /\
    dir_view sb' inode os' (a ++ [it] ++ c) tail' /\
    fat_lookup fuel sb' inode name = Some (Ok f) /\
    visible it = true /\ attribute (sfn_of it) = attributes /\
    (forall n, ~ answers it n -> fat_lookup fuel sb' inode n = fat_lookup fuel sb inode n).
Proof.
  intros Hdv Hst Hat Hnone Hroom Hfuel.
  destruct (fat_create_spec fuel sb inode os its tail name attributes now) as
    (sb' & a & fs & c & it & os' & tail' & f & Hc & E & Hfs & Hvis & Hattr & Hdv' & Hf & Ho); try done.
  { pose proof (find_item_spec name its os) as Hfind. destruct (find_item name its os) as [f|]; [|done].
    destruct Hfind as (its1 & it & its2 & -> & Ha & _). apply Forall_app in Hnone as (_ & [Hn _]%Forall_cons). done. }
  exists sb', a, fs, c, it, os', tail', f.
  pose proof (items_slots _ _ _ (dv_entries _ _ _ _ _ Hdv)) as Hlen.
  assert (Hlen' : (length (a ++ [it] ++ c) < fuel)%nat).
  { rewrite E, !length_app in Hlen. rewrite !length_app. simpl.
    assert (0 < new_entries name)%nat by (unfold new_entries; destruct (fat_is_long_name name); lia). lia. }
  conjs; try done.
  - by rewrite (fat_lookup_spec _ _ _ _ _ _ _ Hdv' Hlen'), Hf.
  - intros n Hno%item_matches_none. rewrite (fat_lookup_spec _ _ _ _ _ _ _ Hdv' Hlen'), (fat_lookup_spec _ _ _ _ _ _ _ Hdv) by lia.
    by rewrite Ho.
Qed.

End slots.

(** * Removing a file *)

Section unlink.
Context {D : Type} `{DeviceLaws D}.
Implicit Types (sb : fat_superblock D) (inode : directory) (cur : cursor).

(** The cursor is inside of its cluster; in the root table it keeps the cluster of the inode. *)
Definition in_place sb inode cur : Prop :=
  if is_fat16_root inode then at_cluster cur = dir_cluster inode
  else cluster_start sb (at_cluster cur) <= at_offset cur < cluster_start sb (at_cluster cur) + cluster_size sb.

(** One step of the walk: the next cursor is inside of its cluster again, or the walk is over and
    the cursor is behind the last entry. *)
Lemma next_in_place sb inode cur cur' os :
  wf sb -> visits sb inode cur (at_offset cur :: os) -> visits sb inode cur' os ->
  in_place sb inode cur -> fat_next_entry sb inode cur = Some cur' ->
  match os with
  | [] => at_offset cur' = at_offset cur + 32
  | o :: _ => in_place sb inode cur' /\ at_offset cur' = o
  end.
Proof.
  intros Hwf Hv Hv' Hin Hn. inversion Hv as [|c cur1 os1 Hr Hc Hn1 Hv1]; subst.
  rewrite Hn in Hn1. injection Hn1 as <-. unfold fat_next_entry in Hn. unfold in_place in *.
  destruct (is_fat16_root inode) eqn:Hroot.
  { injection Hn as <-. destruct os as [|o os]; [done|]. split; [done|]. by inversion Hv'. }
  destruct Hc as [?|Hc]; [done|].
  pose proof (wf_size _ Hwf) as [Hcs _].
  destruct (cluster2offset_ok _ _ Hwf Hc) as (Ho & _). rewrite Ho in Hn. simpl in Hn.
  destruct (cluster_start sb (at_cluster cur) + cluster_size sb <=? at_offset cur + 32) eqn:Hend.
  - rewrite get_next in Hn by (done || by apply cluster_in_range). simpl in Hn.
    destruct (next_of sb (at_cluster cur) =? fat_eof sb) eqn:He.
    + injection Hn as <-. destruct os as [|o os]; [done|]. exfalso.
      inversion Hv' as [|c' cur'' os' Hr' _ _ _]; subst. unfold fat_has_reached_last_entry in Hr'. simpl in Hr'. by rewrite He in Hr'.
    + destruct os as [|o os].
      * exfalso. inversion Hv' as [c' Hr'|]; subst. unfold fat_has_reached_last_entry in Hr'.
        destruct (fat_cluster2offset sb _) in Hn; [|done]. injection Hn as <-. simpl in Hr'. by rewrite He, Hroot in Hr'.
      * inversion Hv' as [|c' cur'' os' Hr' Hc' _ _]; subst. split; [|done].
        destruct (fat_cluster2offset sb _) eqn:Ho' in Hn; [|done]. injection Hn as <-. simpl in *.
        destruct Hc' as [?|Hc']; [congruence|]. destruct (cluster2offset_ok _ _ Hwf Hc') as (Ho2 & _).
        assert (z = cluster_start sb (next_of sb (at_cluster cur))) as -> by congruence. lia.
  - zbool. injection Hn as <-. pose proof (not_eof _ _ Hwf Hc) as [Hne _]. destruct os as [|o os].
    + exfalso. inversion Hv' as [c' Hr'|]; subst. unfold fat_has_reached_last_entry in Hr'. simpl in Hr'.
      rewrite Hroot, (proj2 (Z.eqb_neq _ _)) in Hr' by done. done.
    + split; [simpl; lia|]. by inversion Hv'.
Qed.

Lemma visits_head sb inode cur o os : visits sb inode cur (o :: os) -> at_offset cur = o.
Proof. intros Hv. by inversion Hv. Qed.

(** The walk passes a cursor inside of its cluster at every slot. *)
Lemma visits_middle sb inode cur oa o os :
  wf sb -> visits sb inode cur (oa ++ o :: os) -> in_place sb inode cur ->
  exists cur', visits sb inode cur' (o :: os) /\ in_place sb inode cur'.
Proof.
  intros Hwf. revert cur. induction oa as [|o1 oa IH]; intros cur Hv Hin; [by exists cur|].
  simpl in Hv. pose proof (visits_head _ _ _ _ _ Hv) as Ho. inversion Hv as [|c cur' os' Hr Hc Hn Hv']; subst.
  pose proof (next_in_place sb inode cur cur' _ Hwf Hv Hv' Hin Hn) as Hnext.
  apply (IH cur'); [done|]. by destruct oa; destruct Hnext.
Qed.

Lemma first_in_place sb inode cur o os :
  wf sb -> first_entry sb inode = Some cur -> visits sb inode cur (o :: os) -> in_place sb inode cur.
Proof.
  intros Hwf Hf Hv. inversion Hv as [|c cur' os' Hr Hc Hn Hv']; subst. unfold first_entry in Hf.
  unfold in_place. destruct (is_fat16_root inode) eqn:Hroot; [by injection Hf as <-|].
  destruct Hc as [?|Hc]; [done|].
  destruct (fat_cluster2offset sb (dir_cluster inode)) eqn:Ho in Hf; [|done]. injection Hf as <-. simpl in *.
  destruct (cluster2offset_ok _ _ Hwf Hc) as (Ho2 & _). pose proof (wf_size _ Hwf) as [Hcs _].
  assert (z = cluster_start sb (dir_cluster inode)) as -> by congruence. lia.
Qed.

(** The cluster of an offset. *)
Lemma offset2cluster_ok sb c o :
  wf sb -> is_cluster sb c -> cluster_start sb c <= o < cluster_start sb c + cluster_size sb ->
  fat_offset2cluster sb o = Some c.
Proof.
  intros Hwf Hc Ho. destruct (cluster2offset_ok _ _ Hwf Hc) as (_ & Hlo & _). unfold fat_offset2cluster.
  rewrite (proj2 (Z.leb_le _ _)) by lia. pose proof (wf_size _ Hwf) as [Hcs Hd]. f_equal.
  unfold cluster_start in *. replace ((o - data_start sb) / cluster_size sb) with (c - 2).
  - rewrite u32_small; [lia|]. unfold is_cluster in Hc.
    pose proof (wf_clusters _ Hwf). unfold fat_eof in *. destruct (fat_type sb); lia.
  - apply (Z.div_unique_pos _ _ _ (o - data_start sb - cluster_size sb * (c - 2))); lia.
Qed.

(** Where [fat_free_entries] starts. *)
Lemma free_start sb inode cur o os :
  wf sb -> visits sb inode cur (o :: os) -> in_place sb inode cur -> (is_fat16_root inode = true -> dir_cluster inode = 0) ->
  (if is_fat16_root inode then Some 0 else fat_offset2cluster sb o) = Some (at_cluster cur) /\ cur = mk_cursor (at_cluster cur) o.
Proof.
  intros Hwf Hv Hin H0'. inversion Hv as [|c cur' os' Hr Hc Hn Hv']; subst. split; [|by destruct cur].
  unfold in_place in Hin. destruct (is_fat16_root inode); [rewrite Hin; by rewrite H0'|].
  destruct Hc as [?|Hc]; [done|]. by apply offset2cluster_ok.
Qed.

Definition free_entry : list Z := 0xe5 :: replicate 31 0.

Lemma free_entry_ok : lenZ free_entry = 32 /\ Forall is_byte free_entry /\ is_free_item (I_free free_entry).
Proof.
  split; [done|]. split; [|by exists free_entry].
  constructor; [unfold is_byte; lia|]. apply Forall_replicate. unfold is_byte. lia.
Qed.

(** The loop stops behind the short entry when the offsets go up. *)
Lemma free_loop_ok fuel sb inode cur os rest :
  wf sb -> slots_ok sb (os ++ rest) -> visits sb inode cur (os ++ rest) -> in_place sb inode cur -> os <> [] ->
  StronglySorted Z.lt (os ++ take 1 rest) -> (length os <= fuel)%nat ->
  exists sb', free_loop fuel sb inode (List.last os 0) cur = Some (sb', Ok tt) /\ slots_written sb sb' os /\
    map (entry_at sb') os = replicate (length os) free_entry.
Proof.
  revert fuel sb cur. induction os as [|o os IH]; intros fuel sb cur Hwf Hok Hv Hin Hne Hsort Hf; [done|].
  destruct fuel as [|fuel]; [simpl in Hf; lia|]. destruct free_entry_ok as (Hfl & Hfb & _).
  simpl app in *. pose proof (visits_head _ _ _ _ _ Hv) as Ho.
  destruct (write_next_slot sb inode cur o (os ++ rest) free_entry Hwf Hok Hv Hfl Hfb) as (sb1 & cur1 & Hw & Hs1 & Hv1).
  pose proof (slots_written_one _ _ _ _ Hwf Hs1) as Hs1'. pose proof (ss_wf _ _ _ Hs1') as Hwf1.
  assert (Hnext : match os ++ rest with [] => at_offset cur1 = at_offset cur + 32
                  | o' :: _ => in_place sb1 inode cur1 /\ at_offset cur1 = o' end).
  { apply (next_in_place sb1 inode cur cur1); [done|rewrite Ho; by apply (ss_visits _ _ _ Hs1')|done| |].
    - unfold in_place in *. rewrite (sw_same _ _ _ _ Hs1). exact Hin.
    - unfold fat_write_next_entry in Hw. destruct (fat_has_reached_last_entry sb inode cur); [done|].
      destruct (fat_write_entry sb (at_offset cur) free_entry) as [sb2 [[]|]] eqn:Hwe; [|done].
      destruct (fat_next_entry sb2 inode cur) eqn:Hn; [|done]. simpl in Hw. congruence. }
  apply StronglySorted_inv in Hsort as [Hsort Hall].
  assert (Hle : o <= List.last (o :: os) 0).
  { destruct os as [|o' os]; [simpl; lia|]. rewrite Forall_forall in Hall.
    assert (o < List.last (o :: o' :: os) 0); [|lia]. apply Hall. apply elem_of_app. left.
    change (List.last (o :: o' :: os) 0) with (List.last (o' :: os) 0).
    destruct (exists_last (l := o' :: os) ltac:(done)) as (l & x & ->). rewrite List.last_last. set_solver. }
  cbn [free_loop]. rewrite Ho, (proj2 (Z.leb_le _ _)) by done. fold free_entry. rewrite Hw.
  cbv beta iota delta [mbind option_bind]. destruct os as [|o' os].
  - exists sb1. split; [|split; [done|]].
    + assert (o < at_offset cur1).
      { simpl in Hnext, Hall. destruct rest as [|o' rest]; [lia|]. destruct Hnext as [_ ->].
        apply Forall_cons in Hall. tauto. }
      destruct fuel; simpl; by rewrite (proj2 (Z.leb_gt _ _)).
    + simpl. by rewrite (sw_entry _ _ _ _ Hs1).
  - destruct (IH fuel sb1 cur1) as (sb2 & Hf2 & Hs2 & He2); try done;
      [apply (ss_slots _ _ _ Hs1'); by eapply slots_ok_tail|by destruct Hnext|simpl in Hf; simpl; lia|].
    exists sb2. split; [exact Hf2|].
    apply (write_more sb sb1 sb2 o free_entry (o' :: os)); try done.
    by apply (slots_ok_app sb (o :: o' :: os) rest) in Hok as (? & _).
Qed.

Definition freed (n : nat) : list item := replicate n (I_free free_entry).

Lemma freed_ok n : Forall is_free_item (freed n) /\ Forall item_ok (freed n) /\ entries_of (freed n) = replicate n free_entry.
Proof.
  split; [by apply Forall_replicate, free_entry_ok|]. split; [by apply Forall_replicate|].
  unfold freed, entries_of. induction n as [|n IH]; [done|]. simpl. by rewrite IH.
Qed.

(** The slots of an item inside of a directory. *)
Record item_in sb inode (a : list item) (it : item) (c : list item) (oa oi oc tail : list Z) : Prop := {
  ii_view : dir_view sb inode (oa ++ oi ++ oc) (a ++ [it] ++ c) tail;
  ii_before : length oa = length (entries_of a);
  ii_here : length oi = length (item_entries it);
}.

Lemma item_in_layout sb inode a it c oa oi oc tail :
  item_in sb inode a it c oa oi oc tail -> layout sb a oa /\ layout sb [it] oi /\ layout sb c oc.
Proof.
  intros [[_ _ _ Hes _ _] Ha Hi]. unfold layout, entries_of in *. rewrite !map_app, !concat_app in Hes. simpl in *.
  rewrite app_nil_r in *. apply app_inj_1 in Hes as [? Hes]; [|by rewrite length_map].
  by apply app_inj_1 in Hes as [? ?]; [|by rewrite length_map].
Qed.

Lemma free_entries_ok fuel sb inode a it c oa oi oc tail :
  item_in sb inode a it c oa oi oc tail -> (is_fat16_root inode = true -> dir_cluster inode = 0) ->
  StronglySorted Z.lt (oi ++ take 1 (oc ++ tail)) -> (length oi <= fuel)%nat ->
  exists sb', fat_free_entries fuel sb inode (List.last oi 0) (List.hd 0 oi) = Some (sb', Ok tt) /\
    dir_view sb' inode (oa ++ oi ++ oc) (a ++ freed (length oi) ++ c) tail.
Proof.
  intros Hin Hroot Hsort Hf. destruct (item_in_layout _ _ _ _ _ _ _ _ _ Hin) as (La & Li & Lc).
  destruct Hin as [[Hwf (cur & Hcur & Hv) Hok Hes Hits Hend] _ Hi].
  assert (Hne : oi <> []) by (intros ->; destruct (item_cons it) as (e & es & He); by rewrite He in Hi).
  destruct oi as [|o os]; [done|]. clear Hne. set (oi := o :: os) in *.
  rewrite <- !app_assoc in Hv, Hok. pose proof (slots_ok_app _ _ _ Hok) as (Hoka & Hok1 & Hap).
  pose proof (slots_ok_app _ _ _ Hok1) as (Hoki & Hokr & Hap1).
  assert (Hcur_in : in_place sb inode cur).
  { destruct oa as [|o1 oa]; (eapply first_in_place; [done|done|exact Hv]). }
  destruct (visits_middle sb inode cur oa o (os ++ oc ++ tail) Hwf Hv Hcur_in) as (cur1 & Hv1 & Hin1).
  destruct (free_start sb inode cur1 o _ Hwf Hv1 Hin1 Hroot) as [Hst Ecur].
  destruct (free_loop_ok fuel sb inode cur1 oi (oc ++ tail) Hwf Hok1 Hv1 Hin1) as (sb' & Hfl & Hs & Hes'); try done.
  exists sb'. split.
  - unfold fat_free_entries. assert (Hpos : 0 < List.last oi 0).
    { destruct (exists_last (l := oi) ltac:(done)) as (l & x & E). rewrite E, List.last_last.
      destruct Hoki as [Hoki _]. rewrite Forall_forall in Hoki. destruct (Hoki x) as [Hx _]; [rewrite E; set_solver|].
      pose proof (wf_nonneg _ Hwf) as (? & ? & _ & ? & _). unfold table_start, table_size in Hx.
      assert (2 <= width sb) by (unfold width; destruct (fat_type sb); lia). nia. }
    rewrite (proj2 (Z.eqb_neq _ _)) by lia. simpl List.hd. rewrite Hst. cbv beta iota delta [mbind option_bind].
    by rewrite <- Ecur.
  - assert (Hkept : forall its' os', slots_ok sb os' -> (forall o o', o ∈ oi -> o' ∈ os' -> apart o 32 o') ->
      layout sb its' os' -> layout sb' its' os') by (intros; by apply (layout_kept sb _ oi)).
    split.
    + apply Hs.
    + exists cur. rewrite (ss_first _ _ _ Hs). split; [done|]. apply (ss_visits _ _ _ Hs). by rewrite <- !app_assoc.
    + apply (ss_slots _ _ _ Hs). by rewrite <- !app_assoc.
    + apply layout_app; [|apply layout_app].
      * apply Hkept; [done| |done]. intros x y Hx Hy. apply apart_sym, Hap; set_solver.
      * unfold layout. by rewrite Hes', (proj2 (proj2 (freed_ok _))).
      * apply Hkept; [by apply slots_ok_app in Hokr as (? & _)| |done]. intros x y Hx Hy. apply Hap1; set_solver.
    + apply Forall_app in Hits as [? [_ ?]%Forall_app]. apply Forall_app. split; [done|]. apply Forall_app. split; [apply freed_ok|done].
    + destruct tail as [|ot tail]; [done|]. rewrite (ss_other _ _ _ Hs); [done| |].
      * apply slots_ok_app in Hokr as (_ & [Hokt _] & _). apply Forall_cons in Hokt as [[? _] _]. pose proof (table_pos _ Hwf). lia.
      * intros x Hx. apply Hap1; set_solver.
Qed.

(** Removing a file of a directory.  When the offsets of its entries and of the entry behind them
    go up, [fat_unlink] marks exactly these entries as free: every lookup then finds what the items
    in front of the file and behind it answer, and nothing else of the directory changes. *)
Theorem fat_unlink_correct fuel sb inode a it c oa oi oc tail e :
  item_in sb inode a it c oa oi oc tail -> (is_fat16_root inode = true -> dir_cluster inode = 0) ->
  StronglySorted Z.lt (oi ++ take 1 (oc ++ tail)) -> (length (oa ++ oi ++ oc) < fuel)%nat ->
  exists sb', fat_unlink fuel sb inode (mk_found (List.last oi 0) (List.hd 0 oi) e) = Some (sb', Ok tt) /\
    dir_view sb' inode (oa ++ oi ++ oc) (a ++ freed (length oi) ++ c) tail /\
    (forall n, fat_lookup fuel sb' inode n =
       Some (match find_item n a oa, find_item n c oc with
             | Some f, _ | None, Some f => Ok f
             | None, None => Err ENOENT
             end)) /\
    (forall n, item_matches it n = false -> fat_lookup fuel sb' inode n = fat_lookup fuel sb inode n).
Proof.
  intros Hin Hroot Hsort Hf. rewrite !length_app in Hf.
  destruct (free_entries_ok fuel sb inode a it c oa oi oc tail Hin Hroot Hsort ltac:(lia)) as (sb' & Hun & Hdv).
  exists sb'. split; [done|]. split; [done|].
  assert (Hlook : forall n, fat_lookup fuel sb' inode n =
    Some (match find_item n a oa, find_item n c oc with Some f, _ | None, Some f => Ok f | None, None => Err ENOENT end)).
  { intros n. pose proof (items_slots _ _ _ (dv_entries _ _ _ _ _ Hdv)) as Hlen. rewrite !length_app in Hlen.
    rewrite (fat_lookup_spec _ _ _ _ _ _ _ Hdv) by (rewrite !length_app; lia).
    rewrite find_item_app by apply Hin. destruct (find_item n a oa); [done|].
    rewrite find_item_app, find_item_free by (apply freed_ok || by rewrite (proj2 (proj2 (freed_ok _))), length_replicate).
    done. }
  split; [done|]. intros n Hn. rewrite Hlook. destruct Hin as [Hdv0 Hla Hli].
  pose proof (items_slots _ _ _ (dv_entries _ _ _ _ _ Hdv0)) as Hlen. rewrite !length_app in Hlen.
  rewrite (fat_lookup_spec _ _ _ _ _ _ _ Hdv0) by (rewrite !length_app; lia).
  rewrite find_item_app by done. destruct (find_item n a oa); [done|].
  rewrite (find_item_app n [it] c oi oc) by (unfold entries_of; simpl; by rewrite app_nil_r).
  simpl. by rewrite Hn.
Qed.

(** Only a directory with no third file is removed. *)
Lemma fat_rmdir_spec fuel sb inode child os its tail f :
  dir_view sb child os its tail -> (length os < fuel)%nat ->
  fat_rmdir fuel sb inode child f =
    if decide (length (listed its) <= 2)%nat then fat_unlink fuel sb inode f else Some (sb, Err ENOTEMPTY).
Proof.
  intros [Hwf (cur & Hcur & Hv) Hok Hes Hits Hend] Hf. unfold fat_rmdir, fat_readdir. rewrite Hcur.
  cbv beta iota delta [mbind option_bind]. erewrite (readdir_items fuel sb child cur 2) by (done || lia).
  change (Z.to_nat 2) with 2%nat. destruct (listed its !! 2%nat) eqn:Hl.
  - apply lookup_lt_Some in Hl. by rewrite decide_False by lia.
  - apply lookup_ge_None in Hl. by rewrite decide_True.
Qed.
End unlink.

(** * A small directory *)

Lemma chain_view {D} `{DeviceLaws D} (sb : fat_superblock D) c l os its tail :
  wf sb -> cluster_size sb mod 32 = 0 -> chain sb c l -> l <> [] -> chain_slots sb l = os ++ tail ->
  map (entry_at sb) os = entries_of its -> Forall item_ok its ->
  match tail with [] => True | o :: _ => byte_at (entry_at sb o) 0 = 0 end ->
  dir_view sb (mk_directory c false 0 0) os its tail.
Proof.
  intros Hwf Hmod Hl Hne Hos Hes Hits Hend. split; try done.
  - exists (mk_cursor c (cluster_start sb c)). rewrite <- Hos. split; [|by apply visits_chain].
    unfold first_entry. simpl. destruct l as [|x l]; [done|]. apply chain_cons in Hl as (-> & Hc & _).
    destruct (cluster2offset_ok _ _ Hwf Hc) as (-> & _). done.
  - rewrite <- Hos. by eapply chain_slots_ok.
Qed.

(** FAT16, four clusters of 128 bytes.  The directory has the clusters 2 and 3 and holds [HELLO.TXT],
    a free entry and nothing else. *)
Definition hello : list Z := [0x48; 0x45; 0x4c; 0x4c; 0x4f; 32; 32; 32; 0x54; 0x58; 0x54] ++ replicate 21 0.

Definition dir_image (table : list Z) (entries : list (list Z)) : list Z :=
  replicate 8 0 ++ concat (map (le_bytes 2) table) ++ replicate 12 0 ++
  concat entries ++ replicate (512 - 32 * length entries) 0.

Definition dir_volume (table : list Z) (entries : list (list Z)) : fat_superblock (list Z) :=
  mk_superblock (dir_image table entries) FAT16 1 8 0 128 4 0 2 32.

Definition ex_dir_fat := dir_volume [0xfff8; 0xffff; 3; 0xfff8; 0; 0] [hello; free_entry].
Definition ex_dir : directory := mk_directory 2 false 0 0.

Lemma bytes_compute l : forallb (fun b => (0 <=? b) && (b <? 256)) l = true -> Forall is_byte l.
Proof.
  intros Hall. apply Forall_forall. intros x Hx. rewrite forallb_forall in Hall.
  apply list_elem_of_In, Hall in Hx. zbool. unfold is_byte. lia.
Qed.

Lemma ex_dir_wf : wf ex_dir_fat.
Proof.
  split; try done; try (unfold ex_dir_fat, dir_volume, table_start, table_size, width, fat_eof; simpl; lia).
  - apply bytes_compute. vm_compute. reflexivity.
Qed.

Lemma ex_dir_view : dir_view ex_dir_fat ex_dir [32; 64] [I_short hello; I_free free_entry] [96; 128; 160; 192; 224; 256].
Proof.
  apply (chain_view _ _ [2; 3]);
    [apply ex_dir_wf|reflexivity|chain_compute|done|vm_compute; reflexivity|vm_compute; reflexivity| |vm_compute; reflexivity].
  repeat constructor; vm_compute; discriminate.
Qed.


Lemma fat_readdir_correct_witness :
  fat_readdir 10 ex_dir_fat ex_dir 0 = Some (Ok ([0x48; 0x45; 0x4c; 0x4c; 0x4f; 0x2e; 0x54; 0x58; 0x54], false)) /\
  fat_readdir 10 ex_dir_fat ex_dir 1 = Some (Err ENOENT).
Proof.
  split; (rewrite (fat_readdir_correct 10 _ _ _ _ _ _ ex_dir_view); [vm_compute; reflexivity|lia|simpl; lia]).
Defined.

(** "notes for today", a long name of two entries. *)
Definition ex_name : list Z := [110; 111; 116; 101; 115; 32; 102; 111; 114; 32; 116; 111; 100; 97; 121].

Lemma ex_storable : storable ex_name.
Proof.
  split; [repeat constructor; unfold is_byte; simpl; lia|].
  change (fat_is_long_name ex_name) with true. exists ex_name.
  split; [repeat constructor; unfold Unicode.bmp; simpl; lia|]. split; [vm_compute; reflexivity|]. split; vm_compute; reflexivity.
Qed.

Lemma fat_create_correct_witness :
  exists sb' f, fat_create_entry 20 ex_dir_fat ex_dir ex_name 0 0 = Some (sb', ex_dir, Ok f) /\
    fat_lookup 20 sb' ex_dir ex_name = Some (Ok f).
Proof.
  destruct (fat_create_correct 20 _ _ _ _ _ ex_name 0 0 ex_dir_view ex_storable) as
    (sb' & a & fs & c & it & os' & tail' & f & Hc & _ & _ & _ & Hl & _).
  - by left.
  - repeat constructor; rewrite <- item_matches_none; vm_compute; reflexivity.
  - change (new_entries ex_name) with 3%nat. simpl. lia.
  - change (new_entries ex_name) with 3%nat. simpl. lia.
  - exists sb', f. split; [exact Hc|exact Hl].
Defined.

Lemma fat_unlink_correct_witness :
  exists sb', fat_unlink 10 ex_dir_fat ex_dir (mk_found 32 32 hello) = Some (sb', Ok tt) /\
    fat_lookup 10 sb' ex_dir [0x68; 0x65; 0x6c; 0x6c; 0x6f; 0x2e; 0x74; 0x78; 0x74] = Some (Err ENOENT).
Proof.
  destruct (fat_unlink_correct 10 ex_dir_fat ex_dir [] (I_short hello) [I_free free_entry] [] [32] [64] [96; 128; 160; 192; 224; 256] hello)
    as (sb' & Hu & _ & Hl & _).
  - split; [exact ex_dir_view|done|done].
  - done.
  - simpl. repeat constructor.
  - simpl. lia.
  - exists sb'. split; [exact Hu|]. rewrite Hl. reflexivity.
Defined.

(** * Where the code does not do what it means to *)

(** The directory has its clusters in falling order, 3 and then 2.  The file in the last entry of
    the first cluster is removed, and the loop, which compares offsets, goes on in the second
    cluster and frees every entry up to that offset: the other files are lost. *)
Example fat_unlink_overruns :
  let sb := dir_volume [0xfff8; 0xffff; 0xfff8; 2; 0; 0]
    ([hello; replicate 32 0; replicate 32 0; replicate 32 0] ++ replicate 3 free_entry ++
     [[0x41; 32; 32; 32; 32; 32; 32; 32; 32; 32; 32] ++ replicate 21 0]) in
  let inode := mk_directory 3 false 0 0 in
  fat_lookup 10 sb inode [0x41] = Some (Ok (mk_found 256 256 ([0x41; 32; 32; 32; 32; 32; 32; 32; 32; 32; 32] ++ replicate 21 0))) /\
  fat_lookup 10 sb inode [0x68; 0x65; 0x6c; 0x6c; 0x6f; 0x2e; 0x74; 0x78; 0x74] = Some (Ok (mk_found 32 32 hello)) /\
  (sb' ← (r ← fat_unlink 10 sb inode (mk_found 256 256 []); Some (fst r));
   fat_lookup 20 sb' inode [0x68; 0x65; 0x6c; 0x6c; 0x6f; 0x2e; 0x74; 0x78; 0x74]) = Some (Err ENOENT).
Proof. vm_compute. done. Qed.

(** A directory without free entries grows by the bytes of the missing entries divided by the size of a
    cluster, rounded down: no cluster, and the assertion of [fat_grow] fails. *)
Example fat_allocate_entries_rounds_down :
  let sb := dir_volume [0xfff8; 0xffff; 0xfff8; 0; 0; 0] (replicate 4 hello) in
  fat_allocate_entries 10 sb (mk_directory 2 false 0 0) 1 = None.
Proof. vm_compute. done. Qed.

(** A new directory has no end mark: what the cluster held before is listed behind [..]. *)
Example fat_mkdir_lists_garbage :
  let sb := dir_volume [0xfff8; 0xffff; 0xfff8; 0; 0; 0] (replicate 4 (replicate 32 0) ++ replicate 4 hello) in
  (r ← fat_mkdir 20 sb (mk_directory 2 false 0 0) [0x41] 0;
   match r with
   | (sb, _, Ok (_, child)) => fat_readdir 20 sb (mk_directory (first_cluster child) false 0 0) 2
   | _ => None
   end) = Some (Ok ([0x48; 0x45; 0x4c; 0x4c; 0x4f; 0x2e; 0x54; 0x58; 0x54], false)).
Proof. vm_compute. done. Qed.

(** A name of twenty long entries passes the check on the number of entries, and its last units are
    written behind the array. *)
Example fat_parse_next_lfn_overflows :
  let e := make_lfn 0 [] 20 20 in
  fat_parse_next_lfn (dir_volume [0xfff8; 0xffff; 0xfff8; 0; 0; 0] [e; e]) (mk_directory 2 false 0 0) (mk_cursor 2 64) 32 e = None.
Proof. vm_compute. done. Qed.

End FatDir.
