(* ===== verification/Cache.v ===== *)
(** The page cache (kernel/fs/cache.c, kernel/include/fs/cache.h, kernel/include/mem/pagesbatch.h).

    The state holds what the cache keeps of the pages of memory (the fields of [page_t] and the
    contents), the caches, the lists of the generations, linked through the pages as in the code, and
    what the device of each cache stores.  The drivers behind the caches are parameters (the class
    [CacheOps]); a driver transfers the pages of a batch and then calls [cache_read_terminate] or
    [cache_write_terminate] (the class [CacheLaws]).  [None] is a panic, from a failed [kassert] or the
    use of a page without a [page_t], or a wait that nothing ends: a request is complete when the
    driver returns, so that no wait is needed, and signals do not interrupt.

    The array of the pages of a cache is a finite map; [xarray_index] shows that the arrays of
    [XArray] implement one.  RCU sections are left out. *)

From S2P Require Import Prelude UserMem XArray.

Module Cache.

Definition PAGE_FLAG_DIRTY : Z := 0x01.
Definition PAGE_FLAG_USABLE : Z := 0x04.
Definition PAGE_FLAG_RESERVED : Z := 0x08.
Definition PAGE_FLAG_READING : Z := 0x10.
Definition PAGE_FLAG_WRITING : Z := 0x20.
Definition PAGE_FLAG_EVICTING : Z := 0x40.
Definition PAGE_FLAG_ACTIVE : Z := 0x100.
Definition PAGE_FLAG_LOCKED : Z := 0x200.
Definition PAGE_FLAG_GEN : Z := 0xf000.
Definition PAGE_FLAG_GEN_SHIFT : Z := 12.
Definition PAGE_FLAG_ERROR : Z := 0xffff0000.
Definition PAGE_FLAG_ERROR_SHIFT : Z := 16.

Definition PAGES_PER_BATCH : Z := 31.
Definition GENERATIONS_COUNT : Z := 4.

(** The numbers of the errors are those of the C library. *)
Class ErrnoCodes := { code : errno -> Z; code_range e : 0 < code e < 2 ^ 12 }.

(** ** The state *)

(** [private] is the cache of the page; [offset], [prev] and [next] are page frame numbers. *)
Record page := mk_page {
  ref_count : Z;
  flags : Z;
  private : option Z;
  offset : Z;
  prev : Z;
  next : Z;
  bytes : list Z;
}.
Implicit Types (pi : page).

Definition set_ref (r : Z) pi := mk_page r (flags pi) (private pi) (offset pi) (prev pi) (next pi) (bytes pi).
Definition set_flags (f : Z -> Z) pi := mk_page (ref_count pi) (f (flags pi)) (private pi) (offset pi) (prev pi) (next pi) (bytes pi).
Definition set_private (c : option Z) pi := mk_page (ref_count pi) (flags pi) c (offset pi) (prev pi) (next pi) (bytes pi).
Definition set_offset (o : Z) pi := mk_page (ref_count pi) (flags pi) (private pi) o (prev pi) (next pi) (bytes pi).
Definition set_prev (p : Z) pi := mk_page (ref_count pi) (flags pi) (private pi) (offset pi) p (next pi) (bytes pi).
Definition set_next (p : Z) pi := mk_page (ref_count pi) (flags pi) (private pi) (offset pi) (prev pi) p (bytes pi).
Definition set_bytes (b : list Z) pi := mk_page (ref_count pi) (flags pi) (private pi) (offset pi) (prev pi) (next pi) b.

(** The lock is the number of readers and whether there is a writer. *)
Record cache := mk_cache {
  dirty_count : Z;
  pages : gmap Z Z;
  readers : Z;
  writer : bool;
  size : Z;
}.

(** A list of pages: the first and the last. *)
Record page_list := mk_plist { first : Z; last : Z }.

Definition no_pages : page_list := mk_plist PAGE_INVALID PAGE_INVALID.

(** [pool] are the pages that [pmm_allocate_page] gives next; [disk] is what the device of a cache
    stores, by page frame number; a page it does not mention is zero. *)
Record state := mk_state {
  infos : gmap Z page;
  pool : list Z;
  cache_list : list Z;
  caches : gmap Z cache;
  dirty_pages : Z;
  dirty_caches : list Z;
  base_generation : Z;
  current_generation : Z;
  generations : list page_list;
  disk : gmap (Z * Z) (list Z);
}.
Implicit Types (st : state).

Definition set_infos x st := mk_state x (pool st) (cache_list st) (caches st) (dirty_pages st) (dirty_caches st) (base_generation st) (current_generation st) (generations st) (disk st).
Definition set_pool x st := mk_state (infos st) x (cache_list st) (caches st) (dirty_pages st) (dirty_caches st) (base_generation st) (current_generation st) (generations st) (disk st).
Definition set_cache_list x st := mk_state (infos st) (pool st) x (caches st) (dirty_pages st) (dirty_caches st) (base_generation st) (current_generation st) (generations st) (disk st).
Definition set_caches x st := mk_state (infos st) (pool st) (cache_list st) x (dirty_pages st) (dirty_caches st) (base_generation st) (current_generation st) (generations st) (disk st).
Definition set_dirty n l st := mk_state (infos st) (pool st) (cache_list st) (caches st) n l (base_generation st) (current_generation st) (generations st) (disk st).
Definition set_generations b c l st := mk_state (infos st) (pool st) (cache_list st) (caches st) (dirty_pages st) (dirty_caches st) b c l (disk st).
Definition set_disk x st := mk_state (infos st) (pool st) (cache_list st) (caches st) (dirty_pages st) (dirty_caches st) (base_generation st) (current_generation st) (generations st) x.

Definition set_dirty_count n ch := mk_cache n (pages ch) (readers ch) (writer ch) (size ch).
Definition set_pages x ch := mk_cache (dirty_count ch) x (readers ch) (writer ch) (size ch).
Definition set_lock r w ch := mk_cache (dirty_count ch) (pages ch) r w (size ch).
Definition set_size n ch := mk_cache (dirty_count ch) (pages ch) (readers ch) (writer ch) n.

(** [pmm_page_info(page)]: an access to the [page_t] of a page. *)
Definition upd (f : page -> page) (p : Z) st : option state :=
  pi ← infos st !! p; Some (set_infos (<[p := f pi]> (infos st)) st).

Definition upd_cache (f : cache -> cache) (c : Z) st : option state :=
  ch ← caches st !! c; Some (set_caches (<[c := f ch]> (caches st)) st).

Definition PAGE2PFN (p : Z) : Z := p / PAGE_SIZE.
Definition PFN2PAGE (n : Z) : Z := n *! PAGE_SIZE.

(** ** What the cache uses of the physical memory manager

    A count of references is taken not to overflow; one that is released at zero wraps around. *)

Definition pmm_allocate_page st : option (state * option Z) :=
  match pool st with
  | [] => Some (st, None)
  | p :: rest =>
      st ← upd (set_flags (fun f => Z.land f (Z.lor PAGE_FLAG_USABLE PAGE_FLAG_RESERVED)) ∘ set_ref 1) p st;
      Some (set_pool rest st, Some p)
  end.

Definition pmm_retain (p : Z) st : option state :=
  upd (fun pi => if ref_count pi =? 0 then pi else set_ref (ref_count pi + 1) pi) p st.

Definition pmm_release_page (p : Z) st : option state :=
  pi ← infos st !! p;
  if ref_count pi =? 1 then st ← upd (set_ref 0) p st; Some (set_pool (p :: pool st) st)
  else upd (set_ref (if ref_count pi =? 0 then 2 ^ 32 - 1 else ref_count pi - 1)) p st.

Definition pmm_acquire_page_lock (p : Z) st : option state :=
  pi ← infos st !! p;
  if has (flags pi) PAGE_FLAG_LOCKED then None
  else upd (set_flags (fun f => Z.lor f PAGE_FLAG_LOCKED)) p st.

Definition pmm_release_page_lock (p : Z) st : option state :=
  pi ← infos st !! p;
  _ ← kassert (has (flags pi) PAGE_FLAG_LOCKED);
  upd (set_flags (fun f => Z.ldiff f PAGE_FLAG_LOCKED)) p st.

(** The flags of a page once those of [mask] are [value]. *)
Definition pmm_wait_get (p mask value : Z) st : option Z :=
  pi ← infos st !! p;
  if Z.land (flags pi) mask =? value then Some (flags pi) else None.

(** ** The lock of a cache *)

Definition rwsem_acquire_read (c : Z) st : option state :=
  ch ← caches st !! c;
  if writer ch then None else upd_cache (set_lock (readers ch + 1) false) c st.

Definition rwsem_release_read (c : Z) st : option state :=
  ch ← caches st !! c; upd_cache (set_lock (readers ch - 1) (writer ch)) c st.

Definition rwsem_acquire_write (c : Z) st : option state :=
  ch ← caches st !! c;
  if writer ch || (0 <? readers ch) then None else upd_cache (set_lock 0 true) c st.

Definition rwsem_release_write (c : Z) st : option state := upd_cache (set_lock 0 false) c st.

(** ** Batches of pages *)

Definition pages_batch_is_full (batch : list Z) : bool := PAGES_PER_BATCH <=? lenZ batch.

Definition pages_batch_add (batch : list Z) (p : Z) : list Z :=
  if pages_batch_is_full batch then batch else batch ++ [p].

Fixpoint pages_batch_foreach (body : Z -> state -> option state) (batch : list Z) st : option state :=
  match batch with
  | [] => Some st
  | p :: batch => st ← body p st; pages_batch_foreach body batch st
  end.

(** ** Lists of pages *)

Definition cached_page_get_gen pi : Z := Z.shiftr (Z.land (flags pi) PAGE_FLAG_GEN) PAGE_FLAG_GEN_SHIFT.

Definition cached_page_set_gen (gen : Z) pi : page :=
  set_flags (fun f => Z.lor (Z.ldiff f PAGE_FLAG_GEN) (Z.land (Z.shiftl gen PAGE_FLAG_GEN_SHIFT) PAGE_FLAG_GEN)) pi.

Definition cached_page_get_prev pi : Z := PFN2PAGE (prev pi).
Definition cached_page_get_next pi : Z := PFN2PAGE (next pi).
Definition cached_page_set_prev (p : Z) pi : page := set_prev (PAGE2PFN p) pi.
Definition cached_page_set_next (p : Z) pi : page := set_next (PAGE2PFN p) pi.
Definition cached_page_get_offset pi : Z := PFN2PAGE (offset pi).
Definition cached_page_is_dirty pi : bool := has (flags pi) PAGE_FLAG_DIRTY.
Definition cached_page_is_evicted pi : bool := match private pi with None => true | Some _ => false end.

Definition cached_page_add_to_list (l : page_list) (p : Z) st : option (page_list * state) :=
  st ← upd (cached_page_set_next (first l) ∘ cached_page_set_prev PAGE_INVALID) p st;
  if negb (first l =? PAGE_INVALID)
  then st ← upd (cached_page_set_prev p) (first l) st; Some (mk_plist p (last l), st)
  else Some (mk_plist p p, st).

Definition cached_page_remove_from_list (l : page_list) (p : Z) st : option (page_list * state) :=
  pi ← infos st !! p;
  let prev := cached_page_get_prev pi in
  let next := cached_page_get_next pi in
  '(l, st) ← (if negb (prev =? PAGE_INVALID)
              then st ← upd (cached_page_set_next next) prev st; Some (l, st)
              else Some (mk_plist next (last l), st));
  if negb (next =? PAGE_INVALID)
  then st ← upd (cached_page_set_prev prev) next st; Some (l, st)
  else Some (mk_plist (first l) prev, st).

Definition set_gen_list (gen : Z) (l : page_list) st : state :=
  set_generations (base_generation st) (current_generation st) (<[Z.to_nat gen := l]> (generations st)) st.

Definition cached_page_add_to_gen (p gen : Z) st : option state :=
  l ← generations st !! Z.to_nat gen;
  st ← upd (cached_page_set_gen gen) p st;
  '(l, st) ← cached_page_add_to_list l p st;
  Some (set_gen_list gen l st).

Definition cached_page_remove_from_gen (p : Z) st : option state :=
  pi ← infos st !! p;
  let gen := cached_page_get_gen pi in
  l ← generations st !! Z.to_nat gen;
  '(l, st) ← cached_page_remove_from_list l p st;
  Some (set_gen_list gen l st).

Definition cached_page_move_to_gen (p gen : Z) st : option state :=
  st ← cached_page_remove_from_gen p st; cached_page_add_to_gen p gen st.

(** ** Dirty pages *)

Definition list_append (c : Z) (l : list Z) : list Z := l ++ [c].

(** The removal of a node that is not in the list is undefined. *)
Fixpoint list_remove (c : Z) (l : list Z) : option (list Z) :=
  match l with
  | [] => None
  | x :: l => if x =? c then Some l else l ← list_remove c l; Some (x :: l)
  end.

Definition cache_mark_page_dirty (c p : Z) st : option state :=
  pi ← infos st !! p;
  st ← upd (set_flags (fun f => Z.lor f PAGE_FLAG_DIRTY)) p st;
  if negb (has (flags pi) PAGE_FLAG_DIRTY) then
    let st := set_dirty (dirty_pages st + 1) (dirty_caches st) st in
    ch ← caches st !! c;
    st ← upd_cache (set_dirty_count (dirty_count ch +! 1)) c st;
    Some (if dirty_count ch =? 0 then set_dirty (dirty_pages st) (list_append c (dirty_caches st)) st else st)
  else Some st.

Definition cache_mark_page_active (p : Z) st : option state :=
  upd (set_flags (fun f => Z.lor f PAGE_FLAG_ACTIVE)) p st.

Definition cache_clear_page_dirty (c p : Z) st : option (state * bool) :=
  pi ← infos st !! p;
  st ← upd (set_flags (fun f => Z.ldiff f PAGE_FLAG_DIRTY)) p st;
  if has (flags pi) PAGE_FLAG_DIRTY then
    let st := set_dirty (dirty_pages st - 1) (dirty_caches st) st in
    ch ← caches st !! c;
    st ← upd_cache (set_dirty_count (dirty_count ch -! 1)) c st;
    if dirty_count ch =? 1 then
      l ← list_remove c (dirty_caches st);
      Some (set_dirty (dirty_pages st) l st, true)
    else Some (st, true)
  else Some (st, false).

(** ** The pages of a cache *)

Definition cache_get_range (ch : cache) (offset sz : Z) : Z * Z :=
  let sz := if (offset <=? size ch) && (size ch -! offset <? sz) then size ch -! offset else sz in
  let start := PAGE_ALIGN_DOWN offset in
  let end_ := PAGE_ALIGN_UP (offset +! sz) in
  let cache_end := PAGE_ALIGN_UP (size ch) in
  (start, if cache_end <? end_ then cache_end else end_).

Definition page_error (f : Z) : Z := - Z.shiftr (Z.land f PAGE_FLAG_ERROR) PAGE_FLAG_ERROR_SHIFT.

Definition cache_wait_page_ready (p : Z) st : option Z := f ← pmm_wait_get p PAGE_FLAG_READING 0 st; Some (page_error f).
Definition cache_wait_page_written (p : Z) st : option Z := f ← pmm_wait_get p PAGE_FLAG_WRITING 0 st; Some (page_error f).

Definition PAGE_FLAGS_IO : Z := Z.lor (Z.lor PAGE_FLAG_WRITING PAGE_FLAG_READING) PAGE_FLAG_EVICTING.

Definition cached_page_is_doing_io pi : bool := has (flags pi) PAGE_FLAGS_IO.
Definition cache_wait_page_no_io (p : Z) st : option Z := f ← pmm_wait_get p PAGE_FLAGS_IO 0 st; Some (page_error f).

Definition cache_lookup_page (c offset : Z) st : option (option Z) :=
  ch ← caches st !! c; Some (pages ch !! PAGE2PFN offset).

Definition cache_lookup_and_ref_page (c offset : Z) st : option (state * option Z) :=
  r ← cache_lookup_page c offset st;
  match r with
  | None => Some (st, None)
  | Some p => st ← pmm_retain p st; Some (st, Some p)
  end.

Definition cache_lookup_and_clear_page (c offset : Z) st : option state :=
  upd_cache (fun ch => set_pages (delete (PAGE2PFN offset) (pages ch)) ch) c st.

(** With [PAGE_INVALID] expected, the only use: the page is stored where there is none. *)
Definition cache_compare_and_set_page (c offset p : Z) st : option (state * option Z) :=
  r ← cache_lookup_page c offset st;
  match r with
  | None => st ← upd_cache (fun ch => set_pages (<[PAGE2PFN offset := p]> (pages ch)) ch) c st; Some (st, None)
  | Some old => Some (st, Some old)
  end.

Definition cached_page_set_error (ret : Z) pi : page :=
  set_flags (fun f => Z.lor (Z.ldiff f PAGE_FLAG_ERROR) (Z.shiftl (u16 (- ret)) PAGE_FLAG_ERROR_SHIFT)) pi.

Definition cached_page_remove (p : Z) st : option (state * bool) :=
  pi ← infos st !! p;
  _ ← kassert (has (flags pi) PAGE_FLAG_LOCKED);
  match private pi with
  | None => Some (st, false)
  | Some c =>
      st ← upd (set_private None) p st;
      st ← cache_lookup_and_clear_page c (cached_page_get_offset pi) st;
      '(st, _) ← cache_clear_page_dirty c p st;
      st ← pmm_release_page p st;
      Some (st, true)
  end.

Definition cache_read_terminate (c : Z) (batch : list Z) (ret : Z) st : option state :=
  pages_batch_foreach (fun p st =>
    st ← upd (cached_page_set_error ret) p st;
    st ← (if ret <? 0 then '(st, _) ← cached_page_remove p st; Some st else Some st);
    st ← upd (set_flags (fun f => Z.ldiff f PAGE_FLAG_READING)) p st;
    pmm_release_page p st) batch st.

Definition cache_write_terminate (c : Z) (batch : list Z) (ret : Z) st : option state :=
  pages_batch_foreach (fun p st =>
    st ← upd (cached_page_set_error ret) p st;
    st ← (if ret <? 0 then cache_mark_page_dirty c p st else Some st);
    st ← upd (set_flags (fun f => Z.ldiff f PAGE_FLAG_WRITING)) p st;
    pmm_release_page p st) batch st.

Definition new_page_flags (f : Z) : Z :=
  Z.lor (Z.ldiff f (Z.lor (Z.lor (Z.lor (Z.lor PAGE_FLAG_DIRTY PAGE_FLAG_ACTIVE) PAGE_FLAG_WRITING) PAGE_FLAG_EVICTING)
                      PAGE_FLAG_LOCKED)) PAGE_FLAG_READING.

(** The page, if memory is left, and whether it was already present. *)
Definition cache_setup_page (c offset : Z) st : option (state * option (Z * bool)) :=
  '(st, r) ← pmm_allocate_page st;
  match r with
  | None => Some (st, None)
  | Some p =>
      st ← upd (set_offset (PAGE2PFN offset) ∘ set_private (Some c) ∘ set_flags new_page_flags) p st;
      st ← pmm_acquire_page_lock p st;
      '(st, old) ← cache_compare_and_set_page c offset p st;
      match old with
      | None =>
          st ← pmm_retain p st;
          st ← cached_page_add_to_gen p (current_generation st) st;
          st ← pmm_release_page_lock p st;
          Some (st, Some (p, false))
      | Some new_page =>
          st ← pmm_retain new_page st;
          st ← pmm_release_page_lock p st;
          st ← pmm_release_page p st;
          Some (st, Some (new_page, true))
      end
  end.

(** ** Drivers *)

(** The operations of the driver of a cache, by cache. *)
Class CacheOps := {
  op_read : Z -> option (list Z -> state -> option (state * Z));
  op_write : Z -> option (list Z -> state -> option (state * Z));
}.

Section ops.
Context `{ErrnoCodes} `{CacheOps}.

Definition cache_read_pages (c : Z) (batch : list Z) st : option (state * Z) :=
  match op_read c with
  | None => Some (st, - code EOPNOTSUPP)
  | Some read =>
      '(st, ret) ← read batch st;
      if ret <? 0 then st ← cache_read_terminate c batch ret st; Some (st, ret) else Some (st, ret)
  end.

Definition cache_write_pages (c : Z) (batch : list Z) st : option (state * Z) :=
  match op_write c with
  | None => Some (st, - code EOPNOTSUPP)
  | Some write =>
      '(st, ret) ← write batch st;
      if ret <? 0 then st ← cache_write_terminate c batch ret st; Some (st, ret) else Some (st, ret)
  end.

(** The page at an offset, with a new reference. *)
Definition cache_raw_get_page (c offset : Z) st : option (state * (Z + Z)) :=
  ch ← caches st !! c;
  if PAGE_ALIGN_UP (size ch) <=? offset then Some (st, inr (- code EINVAL))
  else
    '(st, r) ← cache_lookup_and_ref_page c offset st;
    '(st, r) ← (match r with
                | Some p => Some (st, Some (p, true))
                | None => cache_setup_page c offset st
                end);
    match r with
    | None => Some (st, inr (- code ENOMEM))
    | Some (p, present) =>
        '(st, ret) ← (if negb present then
                        st ← pmm_retain p st;
                        cache_read_pages c [p] st
                      else st ← cache_mark_page_active p st; Some (st, 0));
        ret ← (if 0 <=? ret then cache_wait_page_ready p st else Some ret);
        if ret <? 0 then st ← pmm_release_page p st; Some (st, inr ret)
        else Some (st, inl p)
    end.

Definition cache_get_page (c offset : Z) st : option (state * (Z + Z)) :=
  st ← rwsem_acquire_read c st;
  '(st, r) ← cache_raw_get_page c offset st;
  st ← rwsem_release_read c st;
  Some (st, r).

(** The pages from [addr] on that are not cached, gathered in [batch]; the second result is the
    error that ends the loop, the third the pages still to be read. *)
Fixpoint preload_loop (n : nat) (c addr : Z) (batch : list Z) st : option (state * Z * list Z) :=
  match n with
  | O => Some (st, 0, batch)
  | S n =>
      r ← cache_lookup_page c addr st;
      match r with
      | Some _ => preload_loop n c (addr +! PAGE_SIZE) batch st
      | None =>
          '(st, r) ← cache_setup_page c addr st;
          match r with
          | None =>
              '(st, ret) ← (match batch with [] => Some (st, 0) | _ => cache_read_pages c batch st end);
              if ret <? 0 then Some (st, ret, []) else Some (st, - code ENOMEM, [])
          | Some (p, true) => st ← pmm_release_page p st; preload_loop n c (addr +! PAGE_SIZE) batch st
          | Some (p, false) =>
              if pages_batch_is_full batch then
                '(st, ret) ← cache_read_pages c batch st;
                if ret <? 0 then st ← pmm_release_page p st; Some (st, ret, [])
                else preload_loop n c (addr +! PAGE_SIZE) (pages_batch_add [] p) st
              else preload_loop n c (addr +! PAGE_SIZE) (pages_batch_add batch p) st
          end
      end
  end.

Definition pages_between (start end_ : Z) : nat := Z.to_nat ((end_ - start) / PAGE_SIZE).

Definition cache_raw_preload (c offset sz : Z) st : option (state * Z) :=
  match op_read c with
  | None => Some (st, - code EINVAL)
  | Some _ =>
      ch ← caches st !! c;
      let '(start, end_) := cache_get_range ch offset sz in
      '(st, ret, batch) ← preload_loop (pages_between start end_) c start [] st;
      if ret <? 0 then Some (st, ret)
      else match batch with [] => Some (st, 0) | _ => cache_read_pages c batch st end
  end.

Definition cache_preload (c offset sz : Z) st : option (state * Z) :=
  st ← rwsem_acquire_read c st;
  '(st, r) ← cache_raw_preload c offset sz st;
  st ← rwsem_release_read c st;
  Some (st, r).

(** The part of a page that a transfer touches. *)
Definition page_start (start offset addr : Z) : Z := if addr =? start then offset mod PAGE_SIZE else 0.
Definition page_end (end_ offset sz addr : Z) : Z :=
  if addr =? end_ -! PAGE_SIZE then
    let e := (offset +! sz) mod PAGE_SIZE in
    if e =? 0 then PAGE_SIZE else e
  else PAGE_SIZE.

(** [um] is the memory of the caller; the last two results are the bytes copied and the error. *)
Fixpoint read_loop (n : nat) (c start end_ offset sz addr : Z) (um : gmap Z Z) (buf total : Z) st
  : option (state * gmap Z Z * Z * Z) :=
  match n with
  | O => Some (st, um, total, 0)
  | S n =>
      '(st, r) ← cache_raw_get_page c addr st;
      match r with
      | inr ret => Some (st, um, total, ret)
      | inl p =>
          let ps := page_start start offset addr in
          let pe := page_end end_ offset sz addr in
          let len := pe -! ps in
          pi ← infos st !! p;
          match UserMem.safe_copy_to um buf (sliceZ ps len (bytes pi)) with
          | None => Some (st, um, total, - code EFAULT)
          | Some um =>
              st ← pmm_release_page p st;
              read_loop n c start end_ offset sz (addr +! PAGE_SIZE) um (buf + len) (total + len) st
          end
      end
  end.

Definition cache_raw_read (c : Z) (um : gmap Z Z) (buf offset sz : Z) st : option (state * gmap Z Z * Z) :=
  ch ← caches st !! c;
  if size ch <=? offset then Some (st, um, 0)
  else
    let sz := if size ch -! offset <? sz then size ch -! offset else sz in
    '(st, ret) ← cache_raw_preload c offset sz st;
    if ret <? 0 then Some (st, um, ret)
    else
      let '(start, end_) := cache_get_range ch offset sz in
      '(st, um, total, ret) ← read_loop (pages_between start end_) c start end_ offset sz start um buf 0 st;
      Some (st, um, if (total =? 0) && (ret <? 0) then ret else total).

Definition cache_read (c : Z) (um : gmap Z Z) (buf offset sz : Z) st : option (state * gmap Z Z * Z) :=
  st ← rwsem_acquire_read c st;
  '(st, um, r) ← cache_raw_read c um buf offset sz st;
  st ← rwsem_release_read c st;
  Some (st, um, r).

Fixpoint write_loop (n : nat) (c start end_ offset sz addr : Z) (um : gmap Z Z) (buf total : Z) st
  : option (state * Z * Z) :=
  match n with
  | O => Some (st, total, 0)
  | S n =>
      '(st, r) ← cache_raw_get_page c addr st;
      match r with
      | inr ret => Some (st, total, ret)
      | inl p =>
          let ps := page_start start offset addr in
          let pe := page_end end_ offset sz addr in
          let len := pe -! ps in
          match UserMem.safe_copy_from um buf len with
          | None => Some (st, total, - code EFAULT)
          | Some bs =>
              st ← upd (fun pi => set_bytes (blit ps bs (bytes pi)) pi) p st;
              st ← cache_mark_page_dirty c p st;
              st ← pmm_release_page p st;
              write_loop n c start end_ offset sz (addr +! PAGE_SIZE) um (buf + len) (total + len) st
          end
      end
  end.

Definition cache_raw_write (c : Z) (um : gmap Z Z) (buf offset sz : Z) st : option (state * Z) :=
  ch ← caches st !! c;
  if size ch <=? offset then Some (st, 0)
  else
    let sz := if size ch <? offset +! sz then size ch -! offset else sz in
    '(st, ret) ← cache_raw_preload c offset sz st;
    if ret <? 0 then Some (st, ret)
    else
      let '(start, end_) := cache_get_range ch offset sz in
      '(st, total, ret) ← write_loop (pages_between start end_) c start end_ offset sz start um buf 0 st;
      Some (st, if (total =? 0) && (ret <? 0) then ret else total).

Definition cache_write (c : Z) (um : gmap Z Z) (buf offset sz : Z) st : option (state * Z) :=
  st ← rwsem_acquire_read c st;
  '(st, r) ← cache_raw_write c um buf offset sz st;
  st ← rwsem_release_read c st;
  Some (st, r).

(** ** Loops over the cached pages of a range *)

(** The first page at an index from [from] on. *)
Definition xarray_first_from (m : gmap Z Z) (from : Z) : option (Z * Z) :=
  map_fold (fun i p best =>
    if i <? from then best
    else match best with
         | Some (j, _) => if i <? j then Some (i, p) else best
         | None => Some (i, p)
         end) None m.

(** [cache_foreach_range]: the loop starts from the index [start], although the callers pass an
    offset in bytes.  The body gives an error to leave the loop with; each turn takes one more page
    of the map, whose size is enough fuel. *)
Fixpoint foreach_loop (fuel : nat) (body : Z -> state -> option (state * Z)) (c index end_ : Z) st : option (state * Z) :=
  match fuel with
  | O => None
  | S fuel =>
      ch ← caches st !! c;
      match xarray_first_from (pages ch) index with
      | Some (i, p) =>
          if PFN2PAGE i <? end_ then
            '(st, ret) ← body p st;
            if ret <? 0 then Some (st, ret) else foreach_loop fuel body c (i +! 1) end_ st
          else Some (st, 0)
      | None => Some (st, 0)
      end
  end.

Definition cache_foreach_range (body : Z -> state -> option (state * Z)) (c start end_ : Z) st : option (state * Z) :=
  ch ← caches st !! c;
  foreach_loop (S (base.size (pages ch))) body c start end_ st.

(** ** Removing pages *)

Definition free_page (p : Z) st : option (state * Z) :=
  st ← pmm_retain p st;
  st ← pmm_acquire_page_lock p st;
  pi ← infos st !! p;
  '(st, ret) ← (if cached_page_is_doing_io pi then
                  st ← pmm_release_page_lock p st;
                  ret ← cache_wait_page_no_io p st;
                  if ret <? 0 then st ← pmm_release_page p st; Some (st, ret)
                  else st ← pmm_acquire_page_lock p st; Some (st, 0)
                else Some (st, 0));
  if ret <? 0 then Some (st, ret)
  else
    pi ← infos st !! p;
    if cached_page_is_evicted pi then
      st ← pmm_release_page_lock p st;
      st ← pmm_release_page p st;
      Some (st, 0)
    else
      '(st, removed_it) ← cached_page_remove p st;
      _ ← kassert removed_it;
      st ← cached_page_remove_from_gen p st;
      st ← pmm_release_page p st;
      st ← pmm_release_page p st;
      Some (st, 0).

Definition cache_free_pages (c offset sz : Z) st : option (state * Z) :=
  cache_foreach_range free_page c offset (offset +! sz) st.

Definition cache_truncate (c sz : Z) st : option state :=
  st ← rwsem_acquire_write c st;
  ch ← caches st !! c;
  st ← (if sz <? size ch then
          let start := PAGE_ALIGN_UP sz in
          let end_ := PAGE_ALIGN_UP (size ch) in
          '(st, _) ← cache_free_pages c start (end_ -! start) st;
          Some st
        else if (size ch <? sz) && negb (size ch mod PAGE_SIZE =? 0) then
          r ← cache_lookup_page c (PAGE_ALIGN_DOWN (size ch)) st;
          match r with
          | None => Some st
          | Some p =>
              let partial_size := size ch mod PAGE_SIZE in
              st ← upd (fun pi => set_bytes (blit partial_size (replicate (Z.to_nat (PAGE_SIZE - partial_size)) 0) (bytes pi)) pi) p st;
              cache_mark_page_dirty c p st
          end
        else Some st);
  st ← upd_cache (set_size sz) c st;
  rwsem_release_write c st.

(** ** Writing back *)

(** The loop of [cache_raw_flush_async]: the batch travels with the state. *)
Fixpoint flush_loop (fuel : nat) (c index end_ : Z) (batch : list Z) st : option (state * Z * list Z) :=
  match fuel with
  | O => None
  | S fuel =>
      ch ← caches st !! c;
      match xarray_first_from (pages ch) index with
      | Some (i, p) =>
          if PFN2PAGE i <? end_ then
            '(st, was_dirty) ← cache_clear_page_dirty c p st;
            if negb was_dirty then flush_loop fuel c (i +! 1) end_ batch st
            else
              st ← pmm_retain p st;
              _ ← cache_wait_page_no_io p st;
              st ← upd (set_flags (fun f => Z.lor f PAGE_FLAG_WRITING)) p st;
              st ← pmm_acquire_page_lock p st;
              pi ← infos st !! p;
              if cached_page_is_evicted pi then
                st ← upd (set_flags (fun f => Z.ldiff f PAGE_FLAG_WRITING)) p st;
                st ← pmm_release_page_lock p st;
                st ← pmm_release_page p st;
                flush_loop fuel c (i +! 1) end_ batch st
              else
                st ← pmm_release_page_lock p st;
                if pages_batch_is_full batch then
                  '(st, ret) ← cache_write_pages c batch st;
                  if ret <? 0 then st ← pmm_release_page p st; Some (st, ret, [])
                  else flush_loop fuel c (i +! 1) end_ (pages_batch_add [] p) st
                else flush_loop fuel c (i +! 1) end_ (pages_batch_add batch p) st
          else Some (st, 0, batch)
      | None => Some (st, 0, batch)
      end
  end.

Definition cache_raw_flush_async (c offset sz : Z) st : option (state * Z) :=
  match op_write c with
  | None => Some (st, - code EINVAL)
  | Some _ =>
      ch ← caches st !! c;
      let '(start, end_) := cache_get_range ch offset sz in
      '(st, ret, batch) ← flush_loop (S (base.size (pages ch))) c start end_ [] st;
      if ret <? 0 then Some (st, ret)
      else match batch with [] => Some (st, 0) | _ => cache_write_pages c batch st end
  end.

Definition cache_flush_async (c offset sz : Z) st : option (state * Z) :=
  st ← rwsem_acquire_read c st;
  '(st, ret) ← cache_raw_flush_async c offset sz st;
  st ← rwsem_release_read c st;
  Some (st, ret).

Definition cache_flush (c offset sz : Z) st : option (state * Z) :=
  st ← rwsem_acquire_read c st;
  '(st, ret) ← cache_raw_flush_async c offset sz st;
  if ret <? 0 then st ← rwsem_acquire_read c st; Some (st, ret)
  else
    ch ← caches st !! c;
    let '(start, end_) := cache_get_range ch offset sz in
    '(st, ret) ← cache_foreach_range (fun p st => ret ← cache_wait_page_written p st; Some (st, ret)) c start end_ st;
    if ret <? 0 then st ← rwsem_acquire_read c st; Some (st, ret)
    else st ← rwsem_release_read c st; Some (st, 0).

Definition cache_flush_whole_async (c : Z) st : option (state * Z) :=
  st ← rwsem_acquire_read c st;
  ch ← caches st !! c;
  '(st, ret) ← cache_flush_async c 0 (size ch) st;
  st ← rwsem_release_read c st;
  Some (st, ret).

Definition cache_flush_whole (c : Z) st : option (state * Z) :=
  st ← rwsem_acquire_read c st;
  ch ← caches st !! c;
  '(st, ret) ← cache_flush c 0 (size ch) st;
  st ← rwsem_release_read c st;
  Some (st, ret).

Fixpoint cache_flush_all (fuel : nat) st : option state :=
  match fuel with
  | O => None
  | S fuel =>
      match dirty_caches st with
      | [] => Some st
      | c :: rest =>
          '(st, _) ← cache_flush_whole_async c (set_dirty (dirty_pages st) rest st);
          cache_flush_all fuel st
      end
  end.

Definition init_cache (c : Z) st : state :=
  set_cache_list (list_append c (cache_list st)) (set_caches (<[c := mk_cache 0 ∅ 0 false 0]> (caches st)) st).

Definition free_cache (c : Z) st : option state :=
  l ← list_remove c (cache_list st);
  '(st, _) ← cache_flush_whole_async c (set_cache_list l st);
  ch ← caches st !! c;
  '(st, _) ← cache_free_pages c 0 (PAGE_ALIGN_UP (size ch)) st;
  Some (set_caches (delete c (caches st)) st).

(** ** Eviction *)

(** The pages of the oldest generation from [p] on: active ones move to the current generation, the
    others go to the list [l].  The results are the list, the pages still wanted and the page where
    the loop ends. *)
Fixpoint collect_loop (fuel : nat) (p : Z) (l : page_list) (to_evict : Z) st : option (state * page_list * Z * Z) :=
  match fuel with
  | O => None
  | S fuel =>
      if (p =? PAGE_INVALID) || (to_evict <=? 0) then Some (st, l, to_evict, p)
      else
        pi ← infos st !! p;
        let next := cached_page_get_next pi in
        st ← upd (set_flags (fun f => Z.ldiff f PAGE_FLAG_ACTIVE)) p st;
        if has (flags pi) PAGE_FLAG_ACTIVE then
          st ← cached_page_move_to_gen p (current_generation st) st;
          collect_loop fuel next l to_evict st
        else
          st ← upd (set_flags (fun f => Z.lor f PAGE_FLAG_EVICTING)) p st;
          if has (flags pi) PAGE_FLAG_EVICTING then collect_loop fuel next l to_evict st
          else
            st ← pmm_retain p st;
            st ← cached_page_remove_from_gen p st;
            '(l, st) ← cached_page_add_to_list l p st;
            collect_loop fuel next l (to_evict - 1) st
  end.

Fixpoint generations_loop (n : nat) (l : page_list) (to_evict : Z) st : option (state * page_list) :=
  match n with
  | O => Some (st, l)
  | S n =>
      if to_evict <=? 0 then Some (st, l)
      else
        g ← generations st !! Z.to_nat (base_generation st);
        '(st, l, to_evict, next) ← collect_loop (S (base.size (infos st))) (first g) l to_evict st;
        let st := if next =? PAGE_INVALID
                  then set_generations ((base_generation st + 1) mod GENERATIONS_COUNT)
                         ((current_generation st + 1) mod GENERATIONS_COUNT) (generations st) st
                  else st in
        generations_loop n l to_evict st
  end.

(** One page of the list: whether it was evicted. *)
Definition evict_page (l : page_list) (p : Z) st : option (state * page_list * bool) :=
  st ← pmm_acquire_page_lock p st;
  pi ← infos st !! p;
  match private pi with
  | None =>
      '(l, st) ← cached_page_remove_from_list l p st;
      st ← upd (set_flags (fun f => Z.ldiff f PAGE_FLAG_EVICTING)) p st;
      st ← pmm_release_page_lock p st;
      st ← pmm_release_page p st;
      Some (st, l, false)
  | Some c =>
      '(st, ret) ← (if cached_page_is_dirty pi then
                      st ← pmm_release_page_lock p st;
                      _ ← cache_wait_page_written p st;
                      st ← upd (set_flags (fun f => Z.lor f PAGE_FLAG_WRITING)) p st;
                      '(st, ret) ← cache_write_pages c [p] st;
                      ret ← (if ret <? 0 then Some ret else cache_wait_page_written p st);
                      if ret <? 0 then Some (st, ret)
                      else st ← pmm_acquire_page_lock p st; Some (st, 0)
                    else Some (st, 0));
      if ret <? 0 then Some (st, l, false)
      else
        '(l, st) ← cached_page_remove_from_list l p st;
        '(st, removed_it) ← cached_page_remove p st;
        _ ← kassert removed_it;
        st ← upd (set_flags (fun f => Z.ldiff f PAGE_FLAG_EVICTING)) p st;
        st ← pmm_release_page_lock p st;
        st ← pmm_release_page p st;
        Some (st, l, true)
  end.

Fixpoint evict_loop (fuel : nat) (p : Z) (l : page_list) (evicted : Z) st : option (state * page_list * Z) :=
  match fuel with
  | O => None
  | S fuel =>
      if p =? PAGE_INVALID then Some (st, l, evicted)
      else
        pi ← infos st !! p;
        let next := cached_page_get_next pi in
        '(st, l, done_) ← evict_page l p st;
        evict_loop fuel next l (match done_ with true => evicted + 1 | false => evicted end) st
  end.

Fixpoint put_back_loop (fuel : nat) (p : Z) st : option state :=
  match fuel with
  | O => None
  | S fuel =>
      if p =? PAGE_INVALID then Some st
      else
        pi ← infos st !! p;
        let next := cached_page_get_next pi in
        st ← cached_page_add_to_gen p (base_generation st) st;
        st ← upd (set_flags (fun f => Z.ldiff f PAGE_FLAG_EVICTING)) p st;
        st ← pmm_release_page p st;
        put_back_loop fuel next st
  end.

Definition cache_evict (to_evict : Z) st : option (state * Z) :=
  '(st, l) ← generations_loop (Z.to_nat GENERATIONS_COUNT) no_pages to_evict st;
  '(st, l, evicted) ← evict_loop (S (base.size (infos st))) (first l) l 0 st;
  st ← put_back_loop (S (base.size (infos st))) (first l) st;
  Some (st, evicted).

Definition cache_get_dirty_pages st : Z := if dirty_pages st <? 0 then 0 else dirty_pages st.

End ops.
End Cache.
