(* ===== verification/CacheInv.v ===== *)
(** The state of the page cache: the flags of a page, the lists of pages and their links, the
    invariant of the caches, and the steps that keep it and the contents of the files: references,
    new pages, and reads that a driver has completed. *)

From S2P Require Import Prelude Cache.

Module CacheInv.
Import Cache.
Implicit Types (st : state) (pi : page).

(** * The flags of a page *)

Lemma land_lor_other f m k : Z.land m k = 0 -> Z.land (Z.lor f m) k = Z.land f k.
Proof. intros E. by rewrite Z.land_lor_distr_l, E, Z.lor_0_r. Qed.

Lemma land_lor_base f m k : Z.land f k = 0 -> Z.land (Z.lor f m) k = Z.land m k.
Proof. intros E. by rewrite Z.land_lor_distr_l, E, Z.lor_0_l. Qed.

Lemma land_ldiff_other f m k : Z.land m k = 0 -> Z.land (Z.ldiff f m) k = Z.land f k.
Proof.
  intros E. apply Z.bits_inj'. intros n Hn. rewrite !Z.land_spec, Z.ldiff_spec.
  assert (Hb : Z.testbit (Z.land m k) n = false) by (rewrite E; apply Z.bits_0).
  rewrite Z.land_spec in Hb. destruct (Z.testbit f n), (Z.testbit m n), (Z.testbit k n); done.
Qed.

Lemma land_ldiff_same f m k : Z.land k m = k -> Z.land (Z.ldiff f m) k = 0.
Proof.
  intros E. apply Z.bits_inj'. intros n Hn. rewrite Z.land_spec, Z.ldiff_spec, Z.bits_0. rewrite <- E, Z.land_spec.
  destruct (Z.testbit f n), (Z.testbit m n), (Z.testbit k n); done.
Qed.

Lemma has_lor_other f m k : Z.land m k = 0 -> has (Z.lor f m) k = has f k.
Proof. intros E. unfold has. by rewrite land_lor_other. Qed.

Lemma has_lor_same f m k : 0 <= k -> Z.land m k = k -> k <> 0 -> has (Z.lor f m) k = true.
Proof.
  intros Hk E Hn. unfold has. rewrite Z.land_lor_distr_l, E. apply negb_true_iff, Z.eqb_neq. intros E0.
  apply Z.lor_eq_0_iff in E0 as [_ ?]. done.
Qed.

Lemma has_ldiff_other f m k : Z.land m k = 0 -> has (Z.ldiff f m) k = has f k.
Proof. intros E. unfold has. by rewrite land_ldiff_other. Qed.

Lemma has_ldiff_same f m k : Z.land k m = k -> has (Z.ldiff f m) k = false.
Proof. intros E. unfold has. by rewrite land_ldiff_same. Qed.

Lemma has_false f k : has f k = false <-> Z.land f k = 0.
Proof. unfold has. rewrite negb_false_iff, Z.eqb_eq. done. Qed.

(** One flag of a page after a change of flags. *)
Ltac flag :=
  repeat first
    [ rewrite has_lor_other by reflexivity | rewrite has_ldiff_other by reflexivity
    | rewrite has_lor_same by (done || lia) | rewrite has_ldiff_same by reflexivity
    | rewrite land_lor_other by reflexivity | rewrite land_ldiff_other by reflexivity
    | rewrite land_ldiff_same by reflexivity ].

Definition gen_of (f : Z) : Z := Z.shiftr (Z.land f PAGE_FLAG_GEN) PAGE_FLAG_GEN_SHIFT.

Lemma gen_bits g : 0 <= g < 16 -> Z.land (Z.shiftl g PAGE_FLAG_GEN_SHIFT) PAGE_FLAG_GEN = Z.shiftl g 12.
Proof.
  intros Hg. unfold PAGE_FLAG_GEN, PAGE_FLAG_GEN_SHIFT. change 0xf000 with (Z.shiftl 15 12).
  rewrite <- Z.shiftl_land. f_equal. rewrite (land_ones_mod g 15 4) by done. by rewrite Z.mod_small.
Qed.

Definition with_gen (g f : Z) : Z := Z.lor (Z.ldiff f PAGE_FLAG_GEN) (Z.land (Z.shiftl g PAGE_FLAG_GEN_SHIFT) PAGE_FLAG_GEN).

Lemma with_gen_eq g f : 0 <= g < 16 -> gen_of (with_gen g f) = g.
Proof.
  intros Hg. unfold gen_of, with_gen. rewrite Z.land_lor_distr_l, land_ldiff_same by done.
  rewrite Z.lor_0_l, <- Z.land_assoc, Z.land_diag, gen_bits by done. unfold PAGE_FLAG_GEN_SHIFT.
  rewrite Z.shiftr_shiftl_l by lia. by rewrite Z.shiftl_0_r.
Qed.

Lemma with_gen_other g f k : Z.land PAGE_FLAG_GEN k = 0 -> Z.land (with_gen g f) k = Z.land f k.
Proof.
  intros E. unfold with_gen. rewrite land_lor_other, land_ldiff_other; [done..|].
  by rewrite <- Z.land_assoc, E, Z.land_0_r.
Qed.

Definition with_error (ret f : Z) : Z := Z.lor (Z.ldiff f PAGE_FLAG_ERROR) (Z.shiftl (u16 (- ret)) PAGE_FLAG_ERROR_SHIFT).

Lemma with_error_0 f : with_error 0 f = Z.ldiff f PAGE_FLAG_ERROR.
Proof. apply Z.lor_0_r. Qed.

(** * Lists of pages *)

Definition good (p : Z) : Prop := 0 < p < 2 ^ 52 /\ p mod PAGE_SIZE = 0.

Lemma pfn_page p : 0 <= p < 2 ^ 64 -> p mod PAGE_SIZE = 0 -> PFN2PAGE (PAGE2PFN p) = p.
Proof.
  unfold PFN2PAGE, PAGE2PFN, PAGE_SIZE. intros Hp Hm. rewrite u64_small; unfold is_u64; Z.div_mod_to_equations; lia.
Qed.

Lemma pfn_good p : good p -> PFN2PAGE (PAGE2PFN p) = p.
Proof. intros [? ?]. apply pfn_page; [lia|done]. Qed.

Lemma good_valid p : good p -> p <> PAGE_INVALID.
Proof. intros [? _]. unfold PAGE_INVALID, PAGE_SIZE. lia. Qed.

Lemma pfn_invalid : PFN2PAGE (PAGE2PFN PAGE_INVALID) = PAGE_INVALID.
Proof. reflexivity. Qed.

Definition links pi : Z * Z := (prev pi, next pi).
Definition core pi : page := mk_page (ref_count pi) (flags pi) (private pi) (offset pi) 0 0 (bytes pi).

Definition front (d : Z) (l : list Z) : Z := default d (head l).
Definition back (d : Z) (l : list Z) : Z := default d (list.last l).

(** The pages [l] in the order of their links, between the pages [pv] and [nx]. *)
Fixpoint seg (ls : gmap Z (Z * Z)) (pv : Z) (l : list Z) (nx : Z) : Prop :=
  match l with
  | [] => True
  | p :: l => ls !! p = Some (PAGE2PFN pv, PAGE2PFN (front nx l)) /\ seg ls p l nx
  end.

Definition plist (ls : gmap Z (Z * Z)) (pl : page_list) (l : list Z) : Prop :=
  first pl = front PAGE_INVALID l /\ last pl = back PAGE_INVALID l /\ seg ls PAGE_INVALID l PAGE_INVALID.

Lemma front_app d l1 l2 : front d (l1 ++ l2) = front (front d l2) l1.
Proof. by destruct l1. Qed.

Lemma back_app d l1 l2 : back d (l1 ++ l2) = back (back d l1) l2.
Proof. unfold back. rewrite last_app. by destruct (list.last l2). Qed.

Lemma back_cons d p l : back d (p :: l) = back p l.
Proof. apply (back_app d [p] l). Qed.

Lemma front_in d l : front d l = d \/ front d l ∈ l.
Proof. destruct l; [by left|right; by left]. Qed.

Lemma back_in d l : back d l = d \/ back d l ∈ l.
Proof. unfold back. destruct (list.last l) eqn:E; [|by left]. right. by apply list.last_Some_elem_of in E. Qed.

Lemma seg_app ls pv l1 l2 nx :
  seg ls pv (l1 ++ l2) nx <-> seg ls pv l1 (front nx l2) /\ seg ls (back pv l1) l2 nx.
Proof.
  revert pv. induction l1 as [|p l1 IH]; intros pv; cbn [app seg]; [tauto|].
  rewrite IH, front_app, back_cons. tauto.
Qed.

Lemma seg_frame ls ls' pv l nx : (forall p, p ∈ l -> ls' !! p = ls !! p) -> seg ls pv l nx -> seg ls' pv l nx.
Proof.
  revert pv. induction l as [|p l IH]; intros pv Hf; cbn; [done|]. intros [Hp Hc].
  rewrite Hf by left. split; [done|]. apply IH; [|done]. intros q Hq. apply Hf. by right.
Qed.

Lemma plist_frame ls ls' pl l : (forall p, p ∈ l -> ls' !! p = ls !! p) -> plist ls pl l -> plist ls' pl l.
Proof. intros Hf (? & ? & ?). split; [done|]. split; [done|by eapply seg_frame]. Qed.

(** A link of the last page of a segment. *)
Lemma seg_set_next ls pv l nx nx' : NoDup l -> seg ls pv l nx ->
  exists k, seg (match list.last l with Some p => <[p := (k, PAGE2PFN nx')]> ls | None => ls end) pv l nx' /\
    (forall p, list.last l = Some p -> exists n, ls !! p = Some (k, n)).
Proof.
  revert pv. induction l as [|p l IH]; intros pv Hnd; cbn [seg]; [intros _; exists 0; done|].
  apply NoDup_cons in Hnd as [Hp Hnd]. intros [Hl Hs]. destruct l as [|q l].
  - exists (PAGE2PFN pv). cbn. split; [by rewrite lookup_insert_eq|]. intros ? [= <-]. eauto.
  - destruct (IH p Hnd Hs) as (k & Hk & Hex). exists k. rewrite list.last_cons_cons.
    split; [|done]. split; [|done]. destruct (list.last (q :: l)) as [z|] eqn:El; [|done].
    rewrite lookup_insert_ne; [done|]. intros ->. apply Hp. by apply list.last_Some_elem_of.
Qed.

Lemma upd_spec f p st pi : infos st !! p = Some pi -> upd f p st = Some (set_infos (<[p := f pi]> (infos st)) st).
Proof. intros E. unfold upd. by rewrite E. Qed.

Lemma upd_inv f p st st' : upd f p st = Some st' -> exists pi, infos st !! p = Some pi /\ st' = set_infos (<[p := f pi]> (infos st)) st.
Proof. unfold upd. destruct (infos st !! p) as [pi|] eqn:E; cbn; [|done]. intros [= <-]. eauto. Qed.

Lemma core_insert (m : gmap Z page) p pi pi' : m !! p = Some pi -> core pi' = core pi -> core <$> <[p := pi']> m = core <$> m.
Proof. intros E Hc. rewrite fmap_insert, Hc. apply insert_id. by rewrite lookup_fmap, E. Qed.

Lemma links_insert (m : gmap Z page) p pi pi' : m !! p = Some pi -> links pi' = links pi -> links <$> <[p := pi']> m = links <$> m.
Proof. intros E Hc. rewrite fmap_insert, Hc. apply insert_id. by rewrite lookup_fmap, E. Qed.

Lemma lookup_links (m : gmap Z page) p a b : (links <$> m) !! p = Some (a, b) -> exists pi, m !! p = Some pi /\ prev pi = a /\ next pi = b.
Proof. rewrite lookup_fmap, fmap_Some. intros (pi & E & [= -> ->]). eauto. Qed.

(** What a change of links leaves: the pages outside [l], and all but the links. *)
Definition relinked (l : list Z) (m m' : gmap Z page) : Prop :=
  core <$> m' = core <$> m /\ forall q, q ∉ l -> m' !! q = m !! q.

Lemma relinked_trans l m1 m2 m3 : relinked l m1 m2 -> relinked l m2 m3 -> relinked l m1 m3.
Proof. intros [H1 H2] [H3 H4]. split; [congruence|]. intros q Hq. rewrite H4, H2; done. Qed.

Lemma relinked_insert l m p pi pi' : m !! p = Some pi -> core pi' = core pi -> p ∈ l -> relinked l m (<[p := pi']> m).
Proof.
  intros E Hc Hp. split; [by eapply core_insert|]. intros q Hq. rewrite lookup_insert_ne; [done|]. by intros ->.
Qed.

Lemma good_links d l : Forall good l -> (d = PAGE_INVALID \/ good d) ->
  PFN2PAGE (PAGE2PFN (front d l)) = front d l /\ PFN2PAGE (PAGE2PFN (back d l)) = back d l.
Proof.
  intros Hg Hd.
  assert (Hx : forall x, x = PAGE_INVALID \/ good x -> PFN2PAGE (PAGE2PFN x) = x).
  { intros x [->|?]; [apply pfn_invalid|by apply pfn_good]. }
  split; apply Hx.
  - destruct (front_in d l) as [->|Hin]; [done|]. right. by eapply (proj1 (Forall_forall _ _)).
  - destruct (back_in d l) as [->|Hin]; [done|]. right. by eapply (proj1 (Forall_forall _ _)).
Qed.

Lemma front_invalid l : Forall good l -> (front PAGE_INVALID l =? PAGE_INVALID) = match l with [] => true | _ => false end.
Proof. destruct l as [|p l]; [done|]. intros [? _]%Forall_cons. apply Z.eqb_neq. by apply good_valid. Qed.

Lemma back_snoc d l p : back d (l ++ [p]) = p.
Proof. by rewrite back_app. Qed.

Lemma back_invalid l : Forall good l -> (back PAGE_INVALID l =? PAGE_INVALID) = match l with [] => true | _ => false end.
Proof.
  induction l as [|p l _] using rev_ind; [done|]. rewrite Forall_app, Forall_singleton. intros [_ ?].
  rewrite back_snoc. rewrite (proj2 (Z.eqb_neq _ _)) by (by apply good_valid). by destruct l.
Qed.

Lemma add_to_list_spec st l pl p :
  plist (links <$> infos st) pl l -> NoDup (p :: l) -> Forall good (p :: l) -> is_Some (infos st !! p) ->
  exists pl' m, cached_page_add_to_list pl p st = Some (pl', set_infos m st) /\
    plist (links <$> m) pl' (p :: l) /\ relinked (p :: l) (infos st) m.
Proof.
  intros (Hf & Hl & Hs) [Hp Hnd]%NoDup_cons [Hgp Hg]%Forall_cons [pi Hpi]. unfold cached_page_add_to_list.
  rewrite (upd_spec _ _ _ _ Hpi). cbn [mbind option_bind]. rewrite Hf, front_invalid by done.
  set (pi1 := (cached_page_set_next _ ∘ cached_page_set_prev _) pi).
  assert (H1 : relinked (p :: l) (infos st) (<[p := pi1]> (infos st))) by (eapply relinked_insert; [done|done|by left]).
  destruct l as [|q l].
  - eexists _, _. split; [done|]. split; [|done]. split; [done|]. split; [done|].
    cbn. rewrite lookup_fmap, lookup_insert_eq. done.
  - cbn [negb front head default]. cbn [seg] in Hs. destruct Hs as [Hq Hs].
    destruct (lookup_links _ _ _ _ Hq) as (qi & Eq & Hqp & Hqn).
    assert (Hne : q <> p) by (intros ->; apply Hp; by left).
    erewrite upd_spec by (cbn; by rewrite lookup_insert_ne by done). cbn [mbind option_bind].
    eexists _, _. split; [done|]. split.
    + split; [done|]. split; [cbn [last]; by rewrite Hl, !back_cons|]. cbn [seg]. cbn [infos set_infos]. rewrite !fmap_insert.
      rewrite lookup_insert_ne, lookup_insert_eq by done. split; [done|]. rewrite lookup_insert_eq.
      split; [by rewrite <- Hqn|].
      eapply seg_frame; [|done]. intros r Hr. apply NoDup_cons in Hnd as [Hnq _].
      rewrite !lookup_insert_ne by (intros E; subst r; set_solver). done.
    + eapply relinked_trans; [done|]. cbn. eapply relinked_insert; [by rewrite lookup_insert_ne|done|right; by left].
Qed.

(** The page in front of [l2] is given a new previous page. *)
Lemma set_front_prev (m : gmap Z page) pv pv' l2 nx : NoDup l2 -> seg (links <$> m) pv l2 nx ->
  exists m', match l2 with [] => m' = m | q :: _ => exists qi, m !! q = Some qi /\ m' = <[q := set_prev (PAGE2PFN pv') qi]> m end /\
    seg (links <$> m') pv' l2 nx /\ relinked l2 m m'.
Proof.
  intros Hnd Hs. destruct l2 as [|q l2]; [by exists m|]. destruct Hs as [Hq Hs].
  destruct (lookup_links _ _ _ _ Hq) as (qi & Eq & Hqp & Hqn). eexists. split; [by exists qi|]. split.
  - cbn [seg]. rewrite fmap_insert, lookup_insert_eq. split; [by rewrite <- Hqn|]. eapply seg_frame; [|done].
    intros r Hr. rewrite lookup_insert_ne; [done|]. intros ->. by apply NoDup_cons in Hnd as [? _].
  - eapply relinked_insert; [done|done|by left].
Qed.

(** The page at the end of [l1] is given a new next page. *)
Lemma set_back_next (m : gmap Z page) pv l1 nx nx' : NoDup l1 -> seg (links <$> m) pv l1 nx ->
  exists m', match list.last l1 with None => m' = m | Some q => exists qi, m !! q = Some qi /\ m' = <[q := set_next (PAGE2PFN nx') qi]> m end /\
    seg (links <$> m') pv l1 nx' /\ relinked l1 m m'.
Proof.
  intros Hnd Hs. destruct (seg_set_next _ _ _ _ nx' Hnd Hs) as (k & Hs' & Hk).
  destruct (list.last l1) as [q|] eqn:El.
  - destruct (Hk q eq_refl) as (n & Hq). destruct (lookup_links _ _ _ _ Hq) as (qi & Eq & <- & _).
    eexists. split; [by exists qi|]. split; [by rewrite fmap_insert|].
    eapply relinked_insert; [done|done|]. by apply list.last_Some_elem_of.
  - exists m. split; [done|]. split; [|done]. apply list.last_None in El as ->. done.
Qed.

Lemma relinked_sub l l' m m' : l ⊆ l' -> relinked l m m' -> relinked l' m m'.
Proof. intros Hl [? H]. split; [done|]. intros q Hq. apply H. set_solver. Qed.

Lemma relinked_links l m m' q : relinked l m m' -> q ∉ l -> (links <$> m') !! q = (links <$> m) !! q.
Proof. intros [_ H] Hq. by rewrite !lookup_fmap, H. Qed.

Lemma last_back d l : list.last l = match l with [] => None | _ => Some (back d l) end.
Proof. unfold back. destruct l as [|p l]; [done|]. destruct (list.last (p :: l)) eqn:E; [done|]. by apply list.last_None in E. Qed.

Lemma remove_from_list_spec st l1 p l2 pl :
  plist (links <$> infos st) pl (l1 ++ p :: l2) -> NoDup (l1 ++ p :: l2) -> Forall good (l1 ++ p :: l2) ->
  exists pl' m, cached_page_remove_from_list pl p st = Some (pl', set_infos m st) /\
    plist (links <$> m) pl' (l1 ++ l2) /\ relinked (l1 ++ p :: l2) (infos st) m.
Proof.
  intros (Hf & Hl & Hs) Hnd Hg. apply seg_app in Hs as [Hs1 [Hp Hs2]].
  destruct (lookup_links _ _ _ _ Hp) as (pi & Ep & Hprev & Hnext).
  apply Forall_app in Hg as [Hg1 [Hgp Hg2]%Forall_cons]. apply NoDup_app in Hnd as (Hnd1 & Hdis & [Hp2 Hnd2]%NoDup_cons).
  assert (Hp1 : p ∉ l1) by (intros Hin; apply (Hdis _ Hin); by left).
  unfold cached_page_remove_from_list. rewrite Ep. cbn [mbind option_bind].
  unfold cached_page_get_prev, cached_page_get_next. rewrite Hprev, Hnext.
  rewrite (proj2 (good_links PAGE_INVALID l1 Hg1 (or_introl eq_refl))), (proj1 (good_links PAGE_INVALID l2 Hg2 (or_introl eq_refl))).
  rewrite back_invalid, front_invalid by done.
  destruct (set_back_next (infos st) _ l1 _ (front PAGE_INVALID l2) Hnd1 Hs1) as (m1 & Hm1 & Hs1' & Hr1).
  assert (Hs2' : seg (links <$> m1) p l2 PAGE_INVALID).
  { eapply seg_frame; [|exact Hs2]. intros q Hq. eapply relinked_links; [done|]. intros Hin. apply (Hdis _ Hin). by right. }
  destruct (set_front_prev m1 _ (back PAGE_INVALID l1) l2 _ Hnd2 Hs2') as (m2 & Hm2 & Hs2'' & Hr2).
  assert (Hseg : seg (links <$> m2) PAGE_INVALID (l1 ++ l2) PAGE_INVALID).
  { apply seg_app. split; [|done]. eapply seg_frame; [|exact Hs1']. intros q Hq. eapply relinked_links; [done|].
    intros Hin. apply (Hdis _ Hq). by right. }
  assert (Hrel : relinked (l1 ++ p :: l2) (infos st) m2).
  { eapply relinked_trans; (eapply relinked_sub; [|done]); set_solver. }
  rewrite (last_back PAGE_INVALID) in Hm1. rewrite back_app, back_cons in Hl. rewrite front_app in Hf.
  set (r1 := if negb _ then _ else _).
  assert (E1 : r1 = Some (mk_plist (front (front PAGE_INVALID l2) l1) (last pl), set_infos m1 st)).
  { unfold r1. destruct l1 as [|q l1]; cbn [negb].
    - subst m1. cbn. by destruct st.
    - destruct Hm1 as (qi & Eq & ->). rewrite (upd_spec _ _ _ _ Eq). cbn [mbind option_bind]. destruct pl as [fp lp]. cbn in Hf. by subst fp. }
  rewrite E1. cbv beta iota delta [mbind option_bind]. destruct l2 as [|q l2].
  - subst m2. cbn [negb]. eexists _, _. split; [done|]. split; [|done]. rewrite app_nil_r in *.
    split; [done|]. split; [done|exact Hseg].
  - destruct Hm2 as (qi & Eq & ->). cbn [negb front head default]. erewrite upd_spec by exact Eq.
    eexists _, _. split; [done|]. split; [|done]. split; [by rewrite front_app|]. split; [|done]. cbn [last]. rewrite Hl, back_app.
    by rewrite !back_cons.
Qed.

(** * The state of the caches *)

(** What the proofs know of a state: the pages of each generation, those taken for eviction, those
    that are being read and written, and the references that the caches do not hold. *)
Record ghost := mk_ghost { gens : list (list Z); loc : list Z; rd : list Z; wr : list Z; ext : Z -> Z }.
Implicit Types (g : ghost).

Definition zero_page : list Z := replicate (Z.to_nat PAGE_SIZE) 0.
Definition disk_page st (c i : Z) : list Z := default zero_page (disk st !! (c, i)).

(** The pages in the caches, and where they are. *)
Definition all_pages g : list Z := concat (gens g) ++ loc g.
Definition pgs st : gmap Z (gmap Z Z) := pages <$> caches st.
Definition at_index st (c i : Z) : option Z := m ← pgs st !! c; m !! i.

Definition is_dirty pi : bool := has (flags pi) PAGE_FLAG_DIRTY.

(** A page of a cache: its flags say what happens to it, and when it is clean and idle the device
    has its contents. *)
Record page_ok st g (p : Z) pi (c : Z) : Prop := {
  po_private : private pi = Some c;
  po_index : at_index st c (offset pi) = Some p;
  po_offset : 0 <= offset pi < 2 ^ 42;
  po_ref : ref_count pi = 1 + ext g p;
  po_len : lenZ (bytes pi) = PAGE_SIZE;
  po_locked : has (flags pi) PAGE_FLAG_LOCKED = false;
  po_evicting : has (flags pi) PAGE_FLAG_EVICTING = bool_decide (p ∈ loc g);
  po_reading : has (flags pi) PAGE_FLAG_READING = bool_decide (p ∈ rd g);
  po_writing : has (flags pi) PAGE_FLAG_WRITING = bool_decide (p ∈ wr g);
  po_error : Z.land (flags pi) PAGE_FLAG_ERROR = 0;
  po_clean : is_dirty pi = false -> p ∉ rd g -> p ∉ wr g -> bytes pi = disk_page st c (offset pi);
}.

Definition member st g (p : Z) : Prop := exists pi c, infos st !! p = Some pi /\ page_ok st g p pi c.

Record inv st g : Prop := {
  inv_small : Z.of_nat (base.size (infos st)) < 2 ^ 52;
  inv_pool_nodup : NoDup (pool st);
  inv_pool : forall p, p ∈ pool st -> good p /\ p ∉ all_pages g /\ ext g p = 0 /\
               exists pi, infos st !! p = Some pi /\ lenZ (bytes pi) = PAGE_SIZE;
  inv_nodup : NoDup (all_pages g);
  inv_good : Forall good (all_pages g);
  inv_gens : length (gens g) = 4%nat;
  inv_generations : length (generations st) = 4%nat;
  inv_lists : forall n l pl, gens g !! n = Some l -> generations st !! n = Some pl -> plist (links <$> infos st) pl l;
  inv_gen : forall n l p, gens g !! n = Some l -> p ∈ l -> exists pi, infos st !! p = Some pi /\ gen_of (flags pi) = Z.of_nat n;
  inv_member : forall p, p ∈ all_pages g -> member st g p;
  inv_cached : forall c i p, at_index st c i = Some p ->
                 p ∈ all_pages g /\ exists pi, infos st !! p = Some pi /\ private pi = Some c /\ offset pi = i;
  inv_ext : forall p, 0 <= ext g p;
  inv_base : 0 <= base_generation st < 4;
  inv_current : 0 <= current_generation st < 4;
  inv_disk : forall c i, lenZ (disk_page st c i) = PAGE_SIZE;
}.

(** The dirty pages of a cache, and the caches with dirty pages. *)
Definition dirty_of (m : gmap Z page) (c p : Z) : bool :=
  match m !! p with Some pi => bool_decide (private pi = Some c) && is_dirty pi | None => false end.
Definition count_dirty (m : gmap Z page) (l : list Z) (c : Z) : Z := lenZ (filter (fun p => Is_true (dirty_of m c p)) l).

Record dirty_inv st g : Prop := {
  di_count : forall c ch, caches st !! c = Some ch -> dirty_count ch = count_dirty (infos st) (all_pages g) c;
  di_list : forall c ch, caches st !! c = Some ch -> c ∈ dirty_caches st <-> 0 < dirty_count ch;
  di_nodup : NoDup (dirty_caches st);
}.

(** The contents of a page of a cache: those of the page, or those on the device. *)
Definition page_content st (c i : Z) pi : list Z := if has (flags pi) PAGE_FLAG_READING then disk_page st c i else bytes pi.

Definition content st (c i : Z) : list Z :=
  match (p ← at_index st c i; infos st !! p) with
  | Some pi => page_content st c i pi
  | None => disk_page st c i
  end.

(** ** One page changes *)

(** The ghost state of the pages other than [p] is the same. *)
Definition same_but (p : Z) g g' : Prop :=
  gens g' = gens g /\ loc g' = loc g /\
  forall q, q <> p -> ext g' q = ext g q /\ (q ∈ rd g' <-> q ∈ rd g) /\ (q ∈ wr g' <-> q ∈ wr g).

Lemma page_ok_frame st st' g g' p pi c :
  at_index st' = at_index st -> disk st' = disk st -> ext g' p = ext g p -> (p ∈ loc g' <-> p ∈ loc g) ->
  (p ∈ rd g' <-> p ∈ rd g) -> (p ∈ wr g' <-> p ∈ wr g) -> page_ok st g p pi c -> page_ok st' g' p pi c.
Proof.
  intros Ha Hd He Hl Hr Hw []. constructor; try done.
  - by rewrite Ha.
  - by rewrite He.
  - rewrite po_evicting0. by apply bool_decide_ext.
  - rewrite po_reading0. by apply bool_decide_ext.
  - rewrite po_writing0. by apply bool_decide_ext.
  - intros ? Hr' Hw'. unfold disk_page. rewrite Hd. apply po_clean0; tauto.
Qed.

Lemma inv_page st g g' p pi pi' :
  inv st g -> infos st !! p = Some pi -> p ∈ all_pages g -> same_but p g g' ->
  links pi' = links pi -> gen_of (flags pi') = gen_of (flags pi) -> private pi' = private pi -> offset pi' = offset pi ->
  0 <= ext g' p -> (forall c, private pi = Some c -> page_ok st g p pi c -> page_ok st g' p pi' c) ->
  inv (set_infos (<[p := pi']> (infos st)) st) g'.
Proof.
  intros I Hp Hin (Hg & Hl & Hq) Hli Hge Hpr Hof Hx Hok. destruct I as [].
  assert (Ha : all_pages g' = all_pages g) by (unfold all_pages; by rewrite Hg, Hl).
  constructor; cbn [infos pool caches generations base_generation current_generation set_infos]; rewrite ?Ha, ?Hg; try done.
  - by rewrite map_size_insert_Some.
  - intros q Hqp. destruct (inv_pool0 q Hqp) as (? & Hn & ? & qi & ? & ?). assert (q <> p) by (by intros ->).
    conjs; [done|done|by rewrite (proj1 (Hq q ltac:(done)))|]. exists qi. by rewrite lookup_insert_ne.
  - intros n l pl Hn Hpl. rewrite (links_insert _ _ pi); [by eapply inv_lists0|done|done].
  - intros n l q Hn Hql. destruct (inv_gen0 _ _ _ Hn Hql) as (qi & Eq & Hqg). destruct (decide (q = p)) as [->|Hne].
    + exists pi'. rewrite lookup_insert_eq. split; [done|]. congruence.
    + exists qi. by rewrite lookup_insert_ne.
  - intros q Hqa. destruct (inv_member0 q Hqa) as (qi & c & Eq & Ho). destruct (decide (q = p)) as [->|Hne].
    + simplify_eq. exists pi', c. cbn [infos set_infos]. rewrite lookup_insert_eq. split; [done|].
      eapply page_ok_frame; [..|apply Hok; [apply Ho|exact Ho]]; done.
    + exists qi, c. cbn [infos set_infos]. rewrite lookup_insert_ne by done. split; [done|]. destruct (Hq q Hne) as (? & ? & ?).
      eapply page_ok_frame; [..|exact Ho]; try done. by rewrite Hl.
  - intros c i q Hc. destruct (inv_cached0 c i q Hc) as (? & qi & Eq & ? & ?). split; [done|].
    destruct (decide (q = p)) as [->|Hne]; [|exists qi; by rewrite lookup_insert_ne].
    exists pi'. rewrite lookup_insert_eq. simplify_eq. split; [done|]. split; congruence.
  - intros q. destruct (decide (q = p)) as [->|Hne]; [done|]. by rewrite (proj1 (Hq q Hne)).
Qed.

Lemma content_page st p pi pi' :
  infos st !! p = Some pi ->
  (forall c i, at_index st c i = Some p -> page_content st c i pi' = page_content st c i pi) ->
  forall c i, content (set_infos (<[p := pi']> (infos st)) st) c i = content st c i.
Proof.
  intros Hp Hc c i. unfold content. change (at_index (set_infos _ st)) with (at_index st).
  destruct (at_index st c i) as [q|] eqn:E; cbn; [|done]. destruct (decide (q = p)) as [->|Hne].
  - rewrite lookup_insert_eq, Hp. by apply Hc.
  - by rewrite lookup_insert_ne.
Qed.

(** ** Steps that change no contents *)

Definition meta ch : Z * Z * bool * Z := (dirty_count ch, readers ch, writer ch, size ch).

Record quiet st g st' g' : Prop := {
  qu_inv : inv st' g';
  qu_content : forall c i, content st' c i = content st c i;
  qu_disk : disk st' = disk st;
  qu_meta : meta <$> caches st' = meta <$> caches st;
  qu_keep : forall c i p, at_index st c i = Some p -> at_index st' c i = Some p;
  qu_dirty : dirty_inv st g -> dirty_inv st' g';
  qu_current : current_generation st' = current_generation st;
}.

Lemma quiet_refl st g : inv st g -> quiet st g st g.
Proof. done. Qed.

Lemma quiet_trans st1 g1 st2 g2 st3 g3 : quiet st1 g1 st2 g2 -> quiet st2 g2 st3 g3 -> quiet st1 g1 st3 g3.
Proof.
  intros [] []. constructor; try done; try congruence; eauto.
Qed.

Lemma count_dirty_insert m l p pi pi' c :
  m !! p = Some pi -> private pi' = private pi -> is_dirty pi' = is_dirty pi ->
  count_dirty (<[p := pi']> m) l c = count_dirty m l c.
Proof.
  intros Hp Hpr Hd. unfold count_dirty. f_equal. apply list_filter_iff. intros q. unfold dirty_of.
  destruct (decide (q = p)) as [->|Hne]; [by rewrite lookup_insert_eq, Hp, Hpr, Hd|by rewrite lookup_insert_ne].
Qed.

Lemma quiet_page st g g' p pi pi' :
  inv st g -> infos st !! p = Some pi -> p ∈ all_pages g -> same_but p g g' ->
  links pi' = links pi -> gen_of (flags pi') = gen_of (flags pi) -> private pi' = private pi -> offset pi' = offset pi ->
  is_dirty pi' = is_dirty pi -> 0 <= ext g' p ->
  (forall c, private pi = Some c -> page_ok st g p pi c -> page_ok st g' p pi' c /\ page_content st c (offset pi) pi' = page_content st c (offset pi) pi) ->
  quiet st g (set_infos (<[p := pi']> (infos st)) st) g'.
Proof.
  intros I Hp Hin Hb Hli Hge Hpr Hof Hd Hx Hok. pose proof (inv_member _ _ I p Hin) as (pi0 & c0 & Hp0 & Ho).
  rewrite Hp in Hp0. injection Hp0 as <-. constructor; try done.
  - eapply inv_page; try done. intros c Hc Ho'. by apply Hok.
  - apply (content_page _ _ pi); [done|]. intros c i Hc. destruct (inv_cached _ _ I c i p Hc) as (_ & pi1 & E & Hpc & <-).
    simplify_eq. rewrite (po_private _ _ _ _ _ Ho) in Hpc. simplify_eq. apply Hok; [apply Ho|exact Ho].
  - intros []. assert (Ha : all_pages g' = all_pages g) by (unfold all_pages; destruct Hb as (-> & -> & _); done).
    constructor; try done. intros c ch Hc. cbn [infos set_infos]. rewrite Ha, (count_dirty_insert _ _ _ pi) by done. by apply di_count0.
Qed.

(** References *)

Definition with_ext (p k : Z) g : ghost :=
  mk_ghost (gens g) (loc g) (rd g) (wr g) (fun q => ext g q + if decide (q = p) then k else 0).

Lemma with_ext_eq p k g : ext (with_ext p k g) p = ext g p + k.
Proof. cbn. by rewrite decide_True. Qed.

Lemma with_ext_same p k g : same_but p g (with_ext p k g).
Proof. split; [done|]. split; [done|]. intros q Hq. cbn. rewrite decide_False by done. split; [lia|done]. Qed.

Lemma with_ext_page st g p k pi c : page_ok st g p pi c -> page_ok st (with_ext p k g) p (set_ref (ref_count pi + k) pi) c.
Proof. intros []. constructor; try done. rewrite with_ext_eq. cbn. lia. Qed.

Lemma retain_spec st g p : inv st g -> p ∈ all_pages g ->
  exists st', pmm_retain p st = Some st' /\ quiet st g st' (with_ext p 1 g) /\
    exists pi, infos st !! p = Some pi /\ infos st' = <[p := set_ref (ref_count pi + 1) pi]> (infos st) /\ pool st' = pool st.
Proof.
  intros I Hin. destruct (inv_member _ _ I p Hin) as (pi & c & Hp & Ho). pose proof (inv_ext _ _ I p).
  unfold pmm_retain. rewrite (upd_spec _ _ _ _ Hp). rewrite (proj2 (Z.eqb_neq _ _)) by (rewrite (po_ref _ _ _ _ _ Ho); lia).
  eexists. split; [done|]. split; [|by exists pi]. eapply quiet_page; try done; [apply with_ext_same|rewrite with_ext_eq; lia|].
  intros c' _ Ho'. split; [by apply with_ext_page|done].
Qed.

Lemma release_spec st g p : inv st g -> p ∈ all_pages g -> 1 <= ext g p ->
  exists st', pmm_release_page p st = Some st' /\ quiet st g st' (with_ext p (-1) g) /\
    exists pi, infos st !! p = Some pi /\ infos st' = <[p := set_ref (ref_count pi + -1) pi]> (infos st) /\ pool st' = pool st.
Proof.
  intros I Hin Hx. destruct (inv_member _ _ I p Hin) as (pi & c & Hp & Ho). pose proof (po_ref _ _ _ _ _ Ho).
  unfold pmm_release_page. rewrite Hp. cbn [mbind option_bind]. rewrite (proj2 (Z.eqb_neq _ 1)) by lia.
  rewrite (upd_spec _ _ _ _ Hp), (proj2 (Z.eqb_neq _ 0)) by lia. change (ref_count pi - 1) with (ref_count pi + -1).
  eexists. split; [done|]. split; [|by exists pi]. eapply quiet_page; try done; [apply with_ext_same|rewrite with_ext_eq; lia|].
  intros c' _ Ho'. split; [by apply with_ext_page|done].
Qed.

Lemma active_spec st g p : inv st g -> p ∈ all_pages g ->
  exists st', cache_mark_page_active p st = Some st' /\ quiet st g st' g /\
    exists pi, infos st !! p = Some pi /\ infos st' = <[p := set_flags (fun f => Z.lor f PAGE_FLAG_ACTIVE) pi]> (infos st).
Proof.
  intros I Hin. destruct (inv_member _ _ I p Hin) as (pi & c & Hp & Ho). pose proof (inv_ext _ _ I p).
  unfold cache_mark_page_active. rewrite (upd_spec _ _ _ _ Hp).
  eexists. split; [done|]. split; [|by exists pi]. eapply quiet_page; try done.
  - unfold gen_of. cbn. by flag.
  - unfold is_dirty. cbn. by flag.
  - intros c' _ []. unfold page_content. split; [constructor; cbn; flag; try done; unfold is_dirty; cbn; by flag|cbn; by flag].
Qed.

Lemma quiet_all_page st g g' : gens g' = gens g -> loc g' = loc g -> all_pages g' = all_pages g.
Proof. intros E1 E2. unfold all_pages. by rewrite E1, E2. Qed.

(** ** A new page *)

Definition new_flags (cur f : Z) : Z :=
  Z.ldiff (with_gen cur (Z.lor (new_page_flags (Z.land f (Z.lor PAGE_FLAG_USABLE PAGE_FLAG_RESERVED))) PAGE_FLAG_LOCKED)) PAGE_FLAG_LOCKED.

Lemma has_with_gen n f k : Z.land PAGE_FLAG_GEN k = 0 -> has (with_gen n f) k = has f k.
Proof. intros. unfold has. by rewrite with_gen_other. Qed.

Lemma new_flags_spec cur f : 0 <= cur < 16 ->
  gen_of (new_flags cur f) = cur /\ has (new_flags cur f) PAGE_FLAG_LOCKED = false /\
  has (new_flags cur f) PAGE_FLAG_EVICTING = false /\ has (new_flags cur f) PAGE_FLAG_READING = true /\
  has (new_flags cur f) PAGE_FLAG_WRITING = false /\ Z.land (new_flags cur f) PAGE_FLAG_ERROR = 0 /\
  has (new_flags cur f) PAGE_FLAG_DIRTY = false.
Proof.
  intros Hc. unfold new_flags. split.
  { etrans; [|apply with_gen_eq; exact Hc]. unfold gen_of. rewrite land_ldiff_other by reflexivity. done. }
  assert (Hz : forall k, Z.land (Z.lor PAGE_FLAG_USABLE PAGE_FLAG_RESERVED) k = 0 ->
    Z.land (Z.land f (Z.lor PAGE_FLAG_USABLE PAGE_FLAG_RESERVED)) k = 0).
  { intros k E. by rewrite <- Z.land_assoc, E, Z.land_0_r. }
  unfold new_page_flags. conjs; rewrite ?has_ldiff_same by reflexivity; try done;
    rewrite ?has_ldiff_other, ?land_ldiff_other by reflexivity; rewrite ?has_with_gen, ?with_gen_other by reflexivity; flag; try done.
  by apply Hz.
Qed.

Lemma page_ok_core st g p pi pi' c : core pi' = core pi -> page_ok st g p pi c -> page_ok st g p pi' c.
Proof. intros [= E1 E2 E3 E4 E5] []. constructor; unfold is_dirty in *; rewrite ?E1, ?E2, ?E3, ?E4, ?E5; done. Qed.

Definition add_gen (n : nat) (p : Z) (l : list (list Z)) : list (list Z) := alter (cons p) n l.

Lemma concat_add_gen n p l k : l !! n = Some k -> concat (add_gen n p l) ≡ₚ p :: concat l.
Proof.
  revert n. induction l as [|x l IH]; intros [|n] Hn; cbn in *; try done. rewrite (IH n Hn). by rewrite Permutation_middle.
Qed.

Definition with_new (n : nat) (p : Z) g : ghost :=
  mk_ghost (add_gen n p (gens g)) (loc g) (p :: rd g) (wr g) (fun q => ext g q + if decide (q = p) then 1 else 0).

Lemma all_pages_new n p g : (n < length (gens g))%nat -> all_pages (with_new n p g) ≡ₚ p :: all_pages g.
Proof.
  intros Hn. unfold all_pages. cbn. destruct (lookup_lt_is_Some_2 _ _ Hn) as [k Hk]. by rewrite (concat_add_gen _ _ _ _ Hk).
Qed.

Lemma count_dirty_perm m l l' c : l ≡ₚ l' -> count_dirty m l c = count_dirty m l' c.
Proof. intros E. unfold count_dirty, lenZ. by rewrite E. Qed.

Lemma lookup_core (m m' : gmap Z page) q qi : core <$> m' = core <$> m -> m !! q = Some qi -> exists qi', m' !! q = Some qi' /\ core qi' = core qi.
Proof.
  intros E Hq. assert (H : (core <$> m') !! q = Some (core qi)) by (by rewrite E, lookup_fmap, Hq).
  rewrite lookup_fmap in H. apply fmap_Some in H as (qi' & ? & ?). eauto.
Qed.

Lemma filter_ext_in (f h : Z -> bool) (l : list Z) : (forall p, p ∈ l -> f p = h p) ->
  filter (fun p => Is_true (f p)) l = filter (fun p => Is_true (h p)) l.
Proof.
  intros E. induction l as [|x l IH]; [done|]. rewrite !filter_cons. rewrite IH by (intros; apply E; by right).
  rewrite (E x) by left. done.
Qed.

Lemma core_dirty m m' l c : (forall p, p ∈ l -> core <$> m' !! p = core <$> m !! p) -> count_dirty m' l c = count_dirty m l c.
Proof.
  intros E. unfold count_dirty. f_equal. apply filter_ext_in. intros q Hq. specialize (E q Hq).
  unfold dirty_of. destruct (m' !! q) as [a|], (m !! q) as [b|]; cbn in E; try done.
  injection E as E1 E2 E3 E4 E5. unfold is_dirty. by rewrite E2, E3.
Qed.

(** What a state becomes when [p], until now unused, is the new page of the cache [c] at [i]. *)
Record added st g (c i p : Z) (n : nat) st' : Prop := {
  ad_core : forall q, q <> p -> core <$> infos st' !! q = core <$> infos st !! q;
  ad_page : exists pf, infos st' !! p = Some pf /\ ref_count pf = 2 /\ private pf = Some c /\ offset pf = i /\
              lenZ (bytes pf) = PAGE_SIZE /\ gen_of (flags pf) = Z.of_nat n /\ has (flags pf) PAGE_FLAG_LOCKED = false /\
              has (flags pf) PAGE_FLAG_EVICTING = false /\ has (flags pf) PAGE_FLAG_READING = true /\
              has (flags pf) PAGE_FLAG_WRITING = false /\ Z.land (flags pf) PAGE_FLAG_ERROR = 0 /\ is_dirty pf = false;
  ad_list : exists l pl, gens g !! n = Some l /\ generations st' = <[n := pl]> (generations st) /\
              plist (links <$> infos st') pl (p :: l) /\ forall q, q ∉ p :: l -> infos st' !! q = infos st !! q;
  ad_size : base.size (infos st') = base.size (infos st);
  ad_pool : p :: pool st' = pool st;
  ad_index : forall c' j, at_index st' c' j = if decide (c' = c /\ j = i) then Some p else at_index st c' j;
  ad_meta : meta <$> caches st' = meta <$> caches st;
  ad_same : disk st' = disk st /\ dirty_caches st' = dirty_caches st /\ base_generation st' = base_generation st /\ current_generation st' = current_generation st;
}.

Lemma concat_sub (k : list (list Z)) n l q : k !! n = Some l -> q ∈ l -> q ∈ concat k.
Proof. intros Hl Hq. apply list_elem_of_In, in_concat. exists l. split; apply list_elem_of_In; [|done]. by eapply list_elem_of_lookup_2. Qed.

Lemma concat_disjoint (l : list (list Z)) i j a b q :
  NoDup (concat l) -> i <> j -> l !! i = Some a -> l !! j = Some b -> q ∈ a -> q ∈ b -> False.
Proof.
  revert i j. induction l as [|x l IH]; intros i j Hnd Hij Hi Hj Ha Hb; [done|]. cbn in Hnd.
  apply NoDup_app in Hnd as (_ & Hdis & Hnd).
  assert (Hc : forall k y, l !! k = Some y -> q ∈ y -> q ∈ concat l).
  { intros k y Hk Hy. by eapply concat_sub. }
  destruct i as [|i], j as [|j]; cbn in *; simplify_eq.
  - eapply Hdis; [exact Ha|]. by eapply Hc.
  - eapply Hdis; [exact Hb|]. by eapply Hc.
  - eapply (IH i j); try done. lia.
Qed.

Lemma concat_nodup (k : list (list Z)) n l : NoDup (concat k) -> k !! n = Some l -> NoDup l.
Proof.
  revert n. induction k as [|x k IH]; intros n Hnd Hl; [done|]. cbn in Hnd.
  apply NoDup_app in Hnd as (Hx & _ & Hk). destruct n; cbn in Hl; [congruence|by eapply IH].
Qed.

Lemma gen_sub g n l q : gens g !! n = Some l -> q ∈ l -> q ∈ all_pages g.
Proof. intros Hl Hq. apply elem_of_app. left. by eapply concat_sub. Qed.

Lemma gen_nodup st g n l : inv st g -> gens g !! n = Some l -> NoDup l /\ Forall good l.
Proof.
  intros I Hl. pose proof (inv_nodup _ _ I) as Hnd. apply NoDup_app in Hnd as [Hnd _]. split; [by eapply concat_nodup|].
  apply Forall_forall. intros q Hq. eapply (proj1 (Forall_forall _ _)); [apply (inv_good _ _ I)|by eapply gen_sub].
Qed.

Lemma added_page st g c i p n st' q qi : added st g c i p n st' -> q <> p -> infos st !! q = Some qi ->
  exists qi', infos st' !! q = Some qi' /\ core qi' = core qi.
Proof.
  intros A Hne Hq. pose proof (ad_core _ _ _ _ _ _ _ A q Hne) as E. rewrite Hq in E.
  apply fmap_Some in E as (qi' & ? & ?). eauto.
Qed.

Lemma added_member st g c i p n st' : inv st g -> added st g c i p n st' -> p ∉ all_pages g -> at_index st c i = None ->
  0 <= i < 2 ^ 42 -> forall q, q ∈ all_pages g -> member st' (with_new n p g) q.
Proof.
  intros I A Hp Hi Hr q Hq. assert (Hne : q <> p) by congruence.
  destruct (inv_member _ _ I q Hq) as (qi & cq & Eq & Ho). destruct (added_page _ _ _ _ _ _ _ _ _ A Hne Eq) as (qi' & Eq' & Hcore).
  exists qi', cq. split; [done|]. eapply page_ok_core; [done|]. destruct Ho. constructor; try done.
  - rewrite (ad_index _ _ _ _ _ _ _ A). rewrite decide_False; [done|]. intros [-> Hx]. congruence.
  - cbn. rewrite decide_False by done. lia.
  - rewrite po_reading0. apply bool_decide_ext. cbn. set_solver.
  - intros Hd Hrd Hw. unfold disk_page. rewrite (proj1 (ad_same _ _ _ _ _ _ _ A)). apply po_clean0; [done|set_solver|done].
Qed.

Lemma added_inv st g c i p n st' : inv st g -> added st g c i p n st' -> p ∉ all_pages g -> at_index st c i = None ->
  0 <= i < 2 ^ 42 -> good p -> (n < 4)%nat -> ext g p = 0 -> p ∉ wr g -> p ∉ pool st' -> inv st' (with_new n p g).
Proof.
  intros I A Hp Hi Hr Hg Hn Hx Hw Hpool. destruct (ad_page _ _ _ _ _ _ _ A) as (pf & Ep & Hrf & Hpr & Hof & Hlen & Hgen & Hlk & Hev & Hrd & Hwr & Herr & Hd).
  destruct (ad_list _ _ _ _ _ _ _ A) as (l & pl & Hl & Hgens & Hpl & Hother).
  destruct (ad_same _ _ _ _ _ _ _ A) as (Hdisk & Hdc & Hb & Hc).
  pose proof (all_pages_new n p g ltac:(rewrite (inv_gens _ _ I); done)) as Hall.
  assert (Hmem : forall q, q ∈ all_pages (with_new n p g) <-> q = p \/ q ∈ all_pages g).
  { intros q. rewrite Hall. set_solver. }
  assert (Hin : forall q, q ∈ pool st' -> q ∈ pool st) by (intros q; rewrite <- (ad_pool _ _ _ _ _ _ _ A); set_solver).
  assert (Hgl : forall m k q, gens g !! m = Some k -> q ∈ k -> q ∈ all_pages g).
  { intros m k q. apply gen_sub. }
  constructor.
  - rewrite (ad_size _ _ _ _ _ _ _ A). apply I.
  - pose proof (inv_pool_nodup _ _ I) as Hnd. rewrite <- (ad_pool _ _ _ _ _ _ _ A) in Hnd. by apply NoDup_cons in Hnd as [_ ?].
  - intros q Hq. destruct (inv_pool _ _ I q (Hin _ Hq)) as (? & ? & ? & qi & Eq & ?). assert (Hne : q <> p) by (by intros ->).
    destruct (added_page _ _ _ _ _ _ _ _ _ A Hne Eq) as (qi' & Eq' & [= Ec1 Ec2 Ec3 Ec4 Ec5]).
    conjs; [done|rewrite Hmem; naive_solver| |exists qi'; by rewrite Ec5]. cbn. rewrite decide_False by done. lia.
  - rewrite Hall. apply NoDup_cons. split; [done|apply I].
  - rewrite Hall. apply Forall_cons. split; [done|apply I].
  - cbn. unfold add_gen. rewrite length_alter. apply I.
  - rewrite Hgens, length_insert. apply I.
  - cbn. unfold add_gen. intros m k pk Hm Hk. rewrite Hgens in Hk. destruct (decide (m = n)) as [->|Hne].
    + rewrite list_lookup_alter_eq, Hl in Hm. injection Hm as <-.
      rewrite list_lookup_insert_eq in Hk by (rewrite (inv_generations _ _ I); done). by injection Hk as <-.
    + rewrite list_lookup_alter_ne in Hm by done. rewrite list_lookup_insert_ne in Hk by done.
      eapply plist_frame; [|by eapply (inv_lists _ _ I)]. intros q Hq. rewrite !lookup_fmap, Hother; [done|].
      rewrite not_elem_of_cons. split; [intros ->; apply Hp; by eapply Hgl|].
      intros Hql. pose proof (inv_nodup _ _ I) as Hnd. unfold all_pages in Hnd. apply NoDup_app in Hnd as [Hnd _].
      by eapply (concat_disjoint (gens g) m n).
  - cbn. unfold add_gen. intros m k q Hm Hq. destruct (decide (q = p)) as [->|Hqp].
    { exists pf. split; [done|]. destruct (decide (m = n)) as [->|Hne]; [done|].
      rewrite list_lookup_alter_ne in Hm by done. exfalso. by eapply Hp, Hgl. }
    assert (Hold : exists k', gens g !! m = Some k' /\ q ∈ k').
    { destruct (decide (m = n)) as [->|Hne].
      - rewrite list_lookup_alter_eq, Hl in Hm. injection Hm as <-. exists l. set_solver.
      - rewrite list_lookup_alter_ne in Hm by done. eauto. }
    destruct Hold as (k' & Hm' & Hq'). destruct (inv_gen _ _ I _ _ _ Hm' Hq') as (qi & Eq & Hqg).
    destruct (added_page _ _ _ _ _ _ _ _ _ A Hqp Eq) as (qi' & Eq' & [= Ec1 Ec2 Ec3 Ec4 Ec5]). exists qi'. split; [done|]. by rewrite Ec2.
  - intros q [->|Hq]%Hmem; [|by eapply added_member].
    exists pf, c. split; [done|]. constructor; try done.
    + rewrite Hof, (ad_index _ _ _ _ _ _ _ A). by rewrite decide_True.
    + by rewrite Hof.
    + cbn. rewrite decide_True by done. lia.
    + rewrite Hev. symmetry. apply bool_decide_eq_false. cbn. intros Hin'. apply Hp. unfold all_pages. set_solver.
    + rewrite Hrd. symmetry. apply bool_decide_eq_true. cbn. by left.
    + rewrite Hwr. symmetry. by apply bool_decide_eq_false.
    + intros _ Hx'. exfalso. apply Hx'. cbn. by left.
  - intros c' j q. rewrite (ad_index _ _ _ _ _ _ _ A). case_decide as Hcj.
    + intros [= <-]. destruct Hcj as [-> ->]. split; [rewrite Hmem; by left|]. by exists pf.
    + intros Hq. destruct (inv_cached _ _ I _ _ _ Hq) as (Hqa & qi & Eq & Hqp & Hqo). split; [rewrite Hmem; by right|].
      assert (Hne : q <> p) by congruence.
      destruct (added_page _ _ _ _ _ _ _ _ _ A Hne Eq) as (qi' & Eq' & [= Ec1 Ec2 Ec3 Ec4 Ec5]). exists qi'. by rewrite Ec3, Ec4.
  - intros q. cbn. pose proof (inv_ext _ _ I q). destruct (decide _); lia.
  - rewrite Hb. apply I.
  - rewrite Hc. apply I.
  - intros c' j. unfold disk_page. rewrite Hdisk. apply I.
Qed.

Lemma added_quiet st g c i p n st' : inv st g -> added st g c i p n st' -> p ∉ all_pages g -> at_index st c i = None ->
  0 <= i < 2 ^ 42 -> good p -> (n < 4)%nat -> ext g p = 0 -> p ∉ wr g -> p ∉ pool st' -> quiet st g st' (with_new n p g).
Proof.
  intros I A Hp Hi Hr Hg Hn Hx Hw Hpool. pose proof (added_inv _ _ _ _ _ _ _ I A Hp Hi Hr Hg Hn Hx Hw Hpool) as I'.
  destruct (ad_page _ _ _ _ _ _ _ A) as (pf & Ep & Hrf & Hpr & Hof & Hlen & Hgen & Hlk & Hev & Hrd & Hwr & Herr & Hd).
  destruct (ad_same _ _ _ _ _ _ _ A) as (Hdisk & Hdc & Hb & Hc). constructor; try done.
  - intros c' j. unfold content. rewrite (ad_index _ _ _ _ _ _ _ A). case_decide as Hcj.
    + destruct Hcj as [-> ->]. cbn. rewrite Ep, Hi. cbn. unfold page_content. rewrite Hrd. unfold disk_page. by rewrite Hdisk.
    + destruct (at_index st c' j) as [q|] eqn:E; cbn; [|unfold disk_page; by rewrite Hdisk].
      destruct (inv_cached _ _ I _ _ _ E) as (Hqa & qi & Eq & Hqp & Hqo). assert (Hne : q <> p) by congruence.
      destruct (added_page _ _ _ _ _ _ _ _ _ A Hne Eq) as (qi' & Eq' & [= Ec1 Ec2 Ec3 Ec4 Ec5]). rewrite Eq, Eq'.
      unfold page_content, disk_page. by rewrite Ec2, Ec5, Hdisk.
  - apply A.
  - intros c' j q Hq. rewrite (ad_index _ _ _ _ _ _ _ A). rewrite decide_False; [done|]. intros [-> ->]. congruence.
  - intros [D1 D2 D3]. pose proof (ad_meta _ _ _ _ _ _ _ A) as Hm.
    assert (Hch : forall c' ch', caches st' !! c' = Some ch' -> exists ch, caches st !! c' = Some ch /\ dirty_count ch' = dirty_count ch).
    { intros c' ch' E. assert (E' : (meta <$> caches st) !! c' = Some (meta ch')) by (by rewrite <- Hm, lookup_fmap, E).
      rewrite lookup_fmap in E'. apply fmap_Some in E' as (ch & ? & [= ? ? ? ?]). eauto. }
    constructor; rewrite ?Hdc; try done; intros c' ch' E; destruct (Hch _ _ E) as (ch & E1 & Ed); rewrite Ed.
    + rewrite (D1 _ _ E1). pose proof (all_pages_new n p g ltac:(rewrite (inv_gens _ _ I); done)) as Hall.
      rewrite (count_dirty_perm _ _ _ c' Hall). unfold count_dirty at 2. rewrite filter_cons, decide_False.
      2:{ unfold dirty_of. rewrite Ep, Hd, andb_false_r. intros []. }
      symmetry. apply core_dirty. intros q Hq. apply (ad_core _ _ _ _ _ _ _ A). congruence.
    + by apply D2.
Qed.

Lemma upd_cache_spec f c st ch : caches st !! c = Some ch -> upd_cache f c st = Some (set_caches (<[c := f ch]> (caches st)) st).
Proof. intros E. unfold upd_cache. by rewrite E. Qed.

Lemma at_index_spec st c i ch : caches st !! c = Some ch -> at_index st c i = pages ch !! i.
Proof. intros E. unfold at_index, pgs. by rewrite lookup_fmap, E. Qed.

Lemma meta_insert (m : gmap Z cache) c ch ch' : m !! c = Some ch -> meta ch' = meta ch -> meta <$> <[c := ch']> m = meta <$> m.
Proof. intros E Hc. rewrite fmap_insert, Hc. apply insert_id. by rewrite lookup_fmap, E. Qed.

Lemma setup_added st g c addr p rest ch :
  inv st g -> pool st = p :: rest -> caches st !! c = Some ch -> pages ch !! PAGE2PFN addr = None ->
  exists st', cache_setup_page c addr st = Some (st', Some (p, false)) /\
    added st g c (PAGE2PFN addr) p (Z.to_nat (current_generation st)) st'.
Proof.
  intros I Hpool Hch Hnone. pose proof (inv_current _ _ I) as Hcur.
  destruct (inv_pool _ _ I p ltac:(rewrite Hpool; left)) as (Hg & Hp & _ & pi0 & Ep & Hlen).
  set (n := Z.to_nat (current_generation st)).
  destruct (lookup_lt_is_Some_2 (gens g) n) as [l Hl]; [rewrite (inv_gens _ _ I); lia|].
  destruct (lookup_lt_is_Some_2 (generations st) n) as [pl Hpl]; [rewrite (inv_generations _ _ I); lia|].
  pose proof (inv_lists _ _ I _ _ _ Hl Hpl) as Hlist.
  assert (Hpl' : p ∉ l) by (intros Hq; by eapply Hp, gen_sub).
  destruct (gen_nodup _ _ _ _ I Hl) as [Hndl Hgl].
  unfold cache_setup_page, pmm_allocate_page. rewrite Hpool, (upd_spec _ _ _ _ Ep). cbv beta iota delta [mbind option_bind].
  erewrite upd_spec by (cbn; apply lookup_insert_eq). cbn [infos set_infos set_pool]. rewrite insert_insert_eq.
  set (pi2 := (set_offset _ ∘ _ ∘ _) _).
  unfold pmm_acquire_page_lock. cbn [infos set_infos set_pool]. rewrite lookup_insert_eq. cbv beta iota delta [mbind option_bind].
  assert (Hlk : has (flags pi2) PAGE_FLAG_LOCKED = false).
  { unfold pi2, new_page_flags. cbn. by flag. }
  rewrite Hlk. erewrite upd_spec by (cbn; apply lookup_insert_eq). cbn [infos set_infos set_pool]. rewrite insert_insert_eq.
  set (pi3 := set_flags _ pi2). unfold cache_compare_and_set_page, cache_lookup_page. cbn [caches set_infos set_pool]. rewrite Hch.
  cbv beta iota delta [mbind option_bind]. rewrite Hnone. erewrite upd_cache_spec by exact Hch. cbv beta iota.
  unfold pmm_retain. erewrite upd_spec by (cbn; apply lookup_insert_eq). cbn [infos set_infos set_pool set_caches]. rewrite insert_insert_eq.
  change (ref_count pi3 =? 0) with false. cbv iota. set (pi4 := set_ref _ pi3). cbv beta iota.
  unfold cached_page_add_to_gen. cbn [generations current_generation set_infos set_pool set_caches].
  fold n. rewrite Hpl. cbv beta iota delta [mbind option_bind].
  erewrite upd_spec by (cbn; apply lookup_insert_eq). cbn [infos set_infos set_pool set_caches]. rewrite insert_insert_eq.
  set (pi5 := cached_page_set_gen _ pi4). set (m0 := <[p := pi5]> (infos st)).
  set (st5 := set_infos m0 _).
  assert (Hlist5 : plist (links <$> infos st5) pl l).
  { eapply plist_frame; [|exact Hlist]. intros q Hq. cbn. unfold m0. rewrite fmap_insert, lookup_insert_ne; [done|]. by intros ->. }
  destruct (add_to_list_spec st5 l pl p Hlist5) as (pl' & m & -> & Hadd & Hcore & Hout);
    [by apply NoDup_cons|by apply Forall_cons|cbn; unfold m0; rewrite lookup_insert_eq; by eexists|].
  cbv beta iota delta [mbind option_bind]. unfold pmm_release_page_lock. cbn [infos set_gen_list set_generations set_infos st5].
  destruct (lookup_core _ _ p pi5 Hcore) as (pi6 & Ep6 & Hc6); [cbn; unfold m0; apply lookup_insert_eq|].
  rewrite Ep6. cbv beta iota delta [mbind option_bind].
  assert (Hf6 : flags pi6 = flags pi5) by (by injection Hc6).
  assert (Hf5 : flags pi5 = with_gen (current_generation st) (flags pi3)) by done.
  assert (Hlk6 : has (flags pi6) PAGE_FLAG_LOCKED = true).
  { rewrite Hf6, Hf5, has_with_gen by reflexivity. unfold pi3. cbn. apply has_lor_same; done. }
  rewrite Hlk6. cbn [kassert]. cbv beta iota delta [mbind option_bind].
  erewrite upd_spec by (cbn; exact Ep6). eexists. split; [done|].
  set (pf := set_flags _ pi6).
  constructor; cbn [infos pool caches generations disk dirty_caches base_generation current_generation set_infos set_gen_list set_generations set_pool set_caches st5].
  - intros q Hq. rewrite lookup_insert_ne by done. rewrite <- !lookup_fmap, Hcore. cbn. unfold m0.
    by rewrite fmap_insert, lookup_insert_ne, lookup_fmap by done.
  - exists pf. rewrite lookup_insert_eq. split; [done|]. injection Hc6 as E1 E2 E3 E4 E5.
    assert (Hfl : flags pf = new_flags (current_generation st) (flags pi0)) by (unfold pf; cbn; rewrite Hf6, Hf5; done).
    destruct (new_flags_spec (current_generation st) (flags pi0) ltac:(lia)) as (F1 & F2 & F3 & F4 & F5 & F6 & F7).
    unfold is_dirty. rewrite Hfl. conjs; try done; try (cbn; congruence).
    rewrite F1. unfold n. lia.
  - exists l, pl'. split; [done|]. split; [done|]. split.
    + rewrite (links_insert _ _ pi6) by done. exact Hadd.
    + intros q Hq. rewrite lookup_insert_ne by (intros E; subst q; apply Hq; left). rewrite Hout by done. cbn. unfold m0.
      by rewrite lookup_insert_ne by (intros E; subst q; apply Hq; left).
  - rewrite map_size_insert_Some by done. rewrite <- (map_size_fmap core m), Hcore, map_size_fmap. cbn. unfold m0.
    by rewrite map_size_insert_Some.
  - done.
  - intros c' j. unfold at_index, pgs. cbn. rewrite fmap_insert. destruct (decide (c' = c)) as [->|Hne].
    + rewrite lookup_insert_eq. cbn. destruct (decide (j = PAGE2PFN addr)) as [->|Hj].
      * rewrite lookup_insert_eq. by rewrite decide_True.
      * rewrite lookup_insert_ne by done. rewrite decide_False by naive_solver. by rewrite lookup_fmap, Hch.
    + rewrite lookup_insert_ne by done. rewrite decide_False by naive_solver. done.
  - by apply (meta_insert _ _ ch).
  - done.
Qed.

(** ** Drivers that do what they are asked *)

Definition load_page (st : state) (c : Z) (m : gmap Z page) (p : Z) : gmap Z page :=
  alter (fun pi => set_bytes (disk_page st c (offset pi)) pi) p m.
Definition load_pages (c : Z) (batch : list Z) st : state := set_infos (foldl (load_page st c) (infos st) batch) st.

Definition store_page (m : gmap Z page) (c : Z) (d : gmap (Z * Z) (list Z)) (p : Z) : gmap (Z * Z) (list Z) :=
  match m !! p with Some pi => <[(c, offset pi) := bytes pi]> d | None => d end.
Definition store_pages (c : Z) (batch : list Z) st : state := set_disk (foldl (store_page (infos st) c) (disk st) batch) st.

(** A driver fills the pages of a batch from the device, or stores them, and then tells the cache. *)
Class CacheLaws `{CacheOps} := {
  read_law c f batch st : op_read c = Some f ->
    f batch st = (st ← cache_read_terminate c batch 0 (load_pages c batch st); Some (st, 0));
  write_law c f batch st : op_write c = Some f ->
    f batch st = (st ← cache_write_terminate c batch 0 (store_pages c batch st); Some (st, 0));
}.

Definition minus (p : Z) (l : list Z) : list Z := filter (fun q => q <> p) l.

Lemma elem_of_minus p l q : q ∈ minus p l <-> q ∈ l /\ q <> p.
Proof. unfold minus. rewrite list_elem_of_filter. tauto. Qed.

Definition loaded st (p : Z) : Prop :=
  exists pi c, infos st !! p = Some pi /\ private pi = Some c /\ bytes pi = disk_page st c (offset pi).

Lemma load_one st g c p : inv st g -> p ∈ all_pages g -> p ∈ rd g -> (exists pi, infos st !! p = Some pi /\ private pi = Some c) ->
  let st' := set_infos (load_page st c (infos st) p) st in
  quiet st g st' g /\ loaded st' p /\ (forall q, q <> p -> infos st' !! q = infos st !! q) /\
  (forall q, private <$> infos st' !! q = private <$> infos st !! q).
Proof.
  intros I Hin Hrd (pi & Ep & Hpr) st'. pose proof (inv_ext _ _ I p).
  assert (E : st' = set_infos (<[p := set_bytes (disk_page st c (offset pi)) pi]> (infos st)) st).
  { unfold st', load_page. f_equal. by apply alter_insert_eq in Ep || (apply map_eq; intros q;
      destruct (decide (q = p)) as [->|]; [rewrite lookup_alter_eq, lookup_insert_eq, Ep; done|rewrite lookup_alter_ne, lookup_insert_ne; done]). }
  rewrite E. conjs.
  - eapply quiet_page; try done. intros c' Hc' Ho. rewrite Hpr in Hc'. injection Hc' as <-. split.
    + destruct Ho. constructor; try done. apply (inv_disk _ _ I).
    + unfold page_content. cbn. rewrite (po_reading _ _ _ _ _ Ho). by rewrite bool_decide_true.
  - exists (set_bytes (disk_page st c (offset pi)) pi), c. cbn. rewrite lookup_insert_eq. done.
  - intros q Hq. cbn. by rewrite lookup_insert_ne.
  - intros q. cbn. destruct (decide (q = p)) as [->|Hne]; [rewrite lookup_insert_eq, Ep; done|by rewrite lookup_insert_ne].
Qed.

Lemma load_pages_spec st g c batch : inv st g -> NoDup batch ->
  (forall p, p ∈ batch -> p ∈ all_pages g /\ p ∈ rd g /\ exists pi, infos st !! p = Some pi /\ private pi = Some c) ->
  quiet st g (load_pages c batch st) g /\ (forall p, p ∈ batch -> loaded (load_pages c batch st) p) /\
  (forall q, q ∉ batch -> infos (load_pages c batch st) !! q = infos st !! q).
Proof.
  assert (Hgen : forall st0, disk st = disk st0 -> inv st g -> NoDup batch ->
    (forall p, p ∈ batch -> p ∈ all_pages g /\ p ∈ rd g /\ exists pi, infos st !! p = Some pi /\ private pi = Some c) ->
    let st' := set_infos (foldl (load_page st0 c) (infos st) batch) st in
    quiet st g st' g /\ (forall p, p ∈ batch -> loaded st' p) /\ (forall q, q ∉ batch -> infos st' !! q = infos st !! q)).
  { revert st. induction batch as [|p batch IH]; intros st st0 Hd I Hnd Hb.
    - cbn. split; [destruct st; by apply quiet_refl|]. split; [intros p Hp; by apply elem_of_nil in Hp|done].
    - apply NoDup_cons in Hnd as [Hp Hnd]. destruct (Hb p ltac:(left)) as (Hin & Hrd & Hpi).
      destruct (load_one st g c p I Hin Hrd Hpi) as (Q & Hl & Ho & Hpr). cbn [foldl].
      replace (load_page st0 c (infos st) p) with (load_page st c (infos st) p) by (unfold load_page, disk_page; by rewrite Hd).
      set (st1 := set_infos (load_page st c (infos st) p) st) in *.
      destruct (IH st1 st0 Hd (qu_inv _ _ _ _ Q) Hnd) as (Q' & Hl' & Ho').
      { intros q Hq. destruct (Hb q ltac:(by right)) as (? & ? & qi & ? & ?). conjs; [done..|].
        exists qi. rewrite Ho by (intros ->; done). done. }
      conjs.
      + eapply quiet_trans; [exact Q|exact Q'].
      + intros q [->|Hq]%elem_of_cons; [|by apply Hl']. destruct Hl as (pi & c' & E1 & E2 & E3).
        exists pi, c'. rewrite Ho' by done. done.
      + intros q Hq. rewrite Ho' by set_solver. apply Ho. set_solver. }
  intros I Hnd Hb. exact (Hgen st eq_refl I Hnd Hb).
Qed.

Definition read_done (p : Z) g : ghost :=
  mk_ghost (gens g) (loc g) (minus p (rd g)) (wr g) (fun q => ext g q + if decide (q = p) then -1 else 0).

Lemma read_one st g p : inv st g -> p ∈ all_pages g -> p ∈ rd g -> 1 <= ext g p -> loaded st p ->
  exists st', (st ← upd (cached_page_set_error 0) p st;
               st ← upd (set_flags (fun f => Z.ldiff f PAGE_FLAG_READING)) p st;
               pmm_release_page p st) = Some st' /\
    quiet st g st' (read_done p g) /\ pool st' = pool st /\ (forall q, q <> p -> infos st' !! q = infos st !! q).
Proof.
  intros I Hin Hrd Hx (pi & c & Ep & Hpr & Hby).
  rewrite (upd_spec _ _ _ _ Ep). cbv beta iota delta [mbind option_bind].
  erewrite upd_spec by (cbn; apply lookup_insert_eq). cbn [infos set_infos]. rewrite insert_insert_eq.
  set (pi2 := set_flags _ _). set (st2 := set_infos _ _).
  set (g1 := mk_ghost (gens g) (loc g) (minus p (rd g)) (wr g) (ext g)).
  assert (Hfl : flags pi2 = Z.ldiff (Z.ldiff (flags pi) PAGE_FLAG_ERROR) PAGE_FLAG_READING).
  { unfold pi2. cbn. by rewrite Z.lor_0_r. }
  assert (Q : quiet st g st2 g1).
  { change st2 with (set_infos (<[p := pi2]> (infos st)) st). eapply quiet_page; try done.
    - split; [done|]. split; [done|]. intros q Hq. split; [done|]. split; [|done]. cbn. rewrite elem_of_minus. tauto.
    - unfold gen_of. rewrite Hfl. by flag.
    - unfold is_dirty. rewrite Hfl. by flag.
    - apply (inv_ext _ _ I).
    - intros c' Hc' Ho. rewrite Hpr in Hc'. injection Hc' as <-. split.
      + destruct Ho. constructor; try rewrite Hfl; flag; try done.
        * symmetry. apply bool_decide_eq_false. cbn. rewrite elem_of_minus. tauto.
      + unfold page_content. rewrite Hfl. flag. rewrite (po_reading _ _ _ _ _ Ho), bool_decide_true by done. exact Hby. }
  destruct (release_spec st2 g1 p (qu_inv _ _ _ _ Q)) as (st' & E & Q' & pi3 & Ep3 & Hi & Hpo); [done|done|].
  exists st'. split; [done|]. split; [by eapply quiet_trans|]. split; [done|].
  intros q Hq. rewrite Hi. cbn. by rewrite !lookup_insert_ne.
Qed.

Lemma terminate_spec c batch st g : inv st g -> NoDup batch ->
  (forall p, p ∈ batch -> p ∈ all_pages g /\ p ∈ rd g /\ 1 <= ext g p /\ loaded st p) ->
  exists st', cache_read_terminate c batch 0 st = Some st' /\ quiet st g st' (foldl (fun g p => read_done p g) g batch) /\ pool st' = pool st /\
    (forall q, q ∉ batch -> infos st' !! q = infos st !! q).
Proof.
  unfold cache_read_terminate. revert st g. induction batch as [|p batch IH]; intros st g I Hnd Hb.
  { exists st. split; [done|]. split; [by apply quiet_refl|done]. }
  apply NoDup_cons in Hnd as [Hp Hnd]. destruct (Hb p ltac:(left)) as (Hin & Hrd & Hx & Hl).
  destruct (read_one st g p I Hin Hrd Hx Hl) as (st1 & E & Q & Hpo & Ho). cbn [pages_batch_foreach foldl].
  change (0 <? 0) with false. cbv beta iota delta [mbind option_bind] in E |- *.
  destruct (upd (cached_page_set_error 0) p st) as [s|]; [|done].
  destruct (upd _ p s) as [s0|]; [|done]. rewrite E.
  destruct (IH st1 (read_done p g) (qu_inv _ _ _ _ Q) Hnd) as (st' & E' & Q' & Hpo' & Ho').
  { intros q Hq. destruct (Hb q ltac:(by right)) as (? & ? & ? & qi & cq & ? & ? & Hq'). assert (q <> p) by (by intros ->).
    conjs; [done|cbn; by rewrite elem_of_minus|cbn; rewrite decide_False by done; lia|].
    exists qi, cq. rewrite Ho by done. conjs; [done..|]. rewrite Hq'. unfold disk_page. by rewrite (qu_disk _ _ _ _ Q). }
  exists st'. conjs.
  - exact E'.
  - by eapply quiet_trans.
  - congruence.
  - intros q Hq. rewrite Ho' by set_solver. apply Ho. set_solver.
Qed.

End CacheInv.
