(* ===== verification/CacheFile.v ===== *)
(** Files through the page cache: reading, writing, writing back and changing the size, over drivers
    that do what they are asked.  A cache is then a file: its contents are those of the cached pages
    and, where there are none, those of the device. *)

From S2P Require Import Prelude UserMem Cache CacheInv.

Module CacheFile.
Import Cache CacheInv.
Implicit Types (st : state) (pi : page) (g : ghost).

Section files.
Context `{EC : ErrnoCodes} `{CO : CacheOps} `{CL : !CacheLaws}.

(** * Pages that are being read *)

Lemma fold_read_done batch g : NoDup batch -> let g' := foldl (fun g p => read_done p g) g batch in
  gens g' = gens g /\ loc g' = loc g /\ wr g' = wr g /\ (forall q, q ∈ rd g' <-> q ∈ rd g /\ q ∉ batch) /\
  (forall q, ext g' q = ext g q - if decide (q ∈ batch) then 1 else 0).
Proof.
  revert g. induction batch as [|p batch IH]; intros g Hnd; cbn [foldl].
  { conjs; try done; intros q; [set_solver|]. rewrite decide_False by set_solver. lia. }
  apply NoDup_cons in Hnd as [Hp Hnd]. destruct (IH (read_done p g) Hnd) as (E1 & E2 & E3 & E4 & E5). conjs; try done.
  - intros q. rewrite E4. cbn. rewrite elem_of_minus. set_solver.
  - intros q. rewrite E5. cbn. destruct (decide (q = p)) as [->|Hne].
    + rewrite decide_False by done. rewrite decide_True by left. lia.
    + destruct (decide (q ∈ batch)) as [Hq|Hq]; [rewrite decide_True by (by right); lia|].
      rewrite decide_False; [lia|]. set_solver.
Qed.

(** The pages of [batch], of the cache [c], are being read, with one reference each. *)
Record in_flight st g (c : Z) (ext0 : Z -> Z) (batch : list Z) : Prop := {
  fl_inv : inv st g;
  fl_nodup : NoDup batch;
  fl_rd : forall q, q ∈ rd g <-> q ∈ batch;
  fl_index : forall q, q ∈ batch -> exists i, at_index st c i = Some q;
  fl_ext : forall q, ext g q = ext0 q + if decide (q ∈ batch) then 1 else 0;
}.

Lemma read_pages_spec c f st g batch : op_read c = Some f -> inv st g -> NoDup batch ->
  (forall q, q ∈ batch -> (exists i, at_index st c i = Some q) /\ q ∈ rd g /\ 1 <= ext g q) ->
  exists st', cache_read_pages c batch st = Some (st', 0) /\ quiet st g st' (foldl (fun g p => read_done p g) g batch) /\ pool st' = pool st.
Proof.
  intros Hf I Hnd Hb. unfold cache_read_pages. rewrite Hf, (read_law c f batch st Hf).
  destruct (load_pages_spec st g c batch I Hnd) as (Q & Hl & Ho).
  { intros p Hp. destruct (Hb p Hp) as ((i & Hi) & ? & ?). destruct (inv_cached _ _ I _ _ _ Hi) as (? & pi & ? & ? & ?). eauto. }
  destruct (terminate_spec c batch (load_pages c batch st) g (qu_inv _ _ _ _ Q) Hnd) as (st' & E & Q' & Hpo & _).
  { intros p Hp. destruct (Hb p Hp) as ((i & Hi) & ? & ?). destruct (inv_cached _ _ I _ _ _ Hi) as (? & ?). conjs; auto. }
  rewrite E. exists st'. split; [done|]. split; [by eapply quiet_trans|done].
Qed.

Lemma flight_read c f st g ext0 batch rest : op_read c = Some f -> (forall q, 0 <= ext0 q) -> in_flight st g c ext0 (batch ++ rest) ->
  exists st' g', cache_read_pages c batch st = Some (st', 0) /\ quiet st g st' g' /\ in_flight st' g' c ext0 rest /\ pool st' = pool st /\
    loc g' = loc g /\ wr g' = wr g.
Proof.
  intros Hf H0 [I Hnd Hrd Hix Hext]. apply NoDup_app in Hnd as (Hnd1 & Hdis & Hnd2).
  destruct (read_pages_spec c f st g batch Hf I Hnd1) as (st' & E & Q & Hpo).
  { intros q Hq. conjs; [apply Hix; set_solver|apply Hrd; set_solver|]. rewrite Hext, decide_True by set_solver. pose proof (H0 q). lia. }
  destruct (fold_read_done batch g Hnd1) as (E1 & E2 & E3 & E4 & E5).
  eexists st', _. split; [done|]. split; [exact Q|]. split; [|by conjs]. constructor; try done.
  - apply Q.
  - intros q. rewrite E4, Hrd, elem_of_app. split; [tauto|]. intros Hq. split; [by right|]. intros Hq'. by apply (Hdis q).
  - intros q Hq. destruct (Hix q ltac:(set_solver)) as [i Hi]. exists i. by apply (qu_keep _ _ _ _ Q).
  - intros q. rewrite E5, Hext. destruct (decide (q ∈ batch)) as [Hq|Hq].
    + rewrite decide_True by set_solver. rewrite decide_False; [lia|]. by apply Hdis.
    + destruct (decide (q ∈ rest)); [rewrite decide_True by set_solver|rewrite decide_False by set_solver]; lia.
Qed.

Lemma flight_setup c st g ext0 batch addr : in_flight st g c ext0 batch -> is_Some (caches st !! c) -> wr g = [] ->
  at_index st c (PAGE2PFN addr) = None -> 0 <= PAGE2PFN addr < 2 ^ 42 ->
  (pool st = [] /\ cache_setup_page c addr st = Some (st, None)) \/
  exists p st' g', cache_setup_page c addr st = Some (st', Some (p, false)) /\ quiet st g st' g' /\
    in_flight st' g' c ext0 (batch ++ [p]) /\ at_index st' c (PAGE2PFN addr) = Some p /\ loc g' = loc g /\ wr g' = wr g /\
    pool st = p :: pool st'.
Proof.
  intros [I Hnd Hrd Hix Hext] [ch Hch] Hwr Hat Hr. destruct (pool st) as [|p rest] eqn:Hpool.
  { left. split; [done|]. unfold cache_setup_page, pmm_allocate_page. by rewrite Hpool. }
  right. rewrite (at_index_spec _ _ _ ch) in Hat by done.
  destruct (setup_added st g c addr p rest ch I Hpool Hch Hat) as (st' & E & A).
  destruct (inv_pool _ _ I p ltac:(rewrite Hpool; left)) as (Hg & Hp & Hx & _).
  pose proof (inv_current _ _ I). set (n := Z.to_nat (current_generation st)) in *.
  assert (Hpool' : p ∉ pool st').
  { pose proof (inv_pool_nodup _ _ I) as Hn. rewrite <- (ad_pool _ _ _ _ _ _ _ A) in Hn. by apply NoDup_cons in Hn as [? _]. }
  assert (Q : quiet st g st' (with_new n p g)).
  { eapply added_quiet; try done; [by rewrite (at_index_spec _ _ _ ch)|unfold n; lia|rewrite Hwr; apply not_elem_of_nil]. }
  assert (Hpb : p ∉ batch).
  { intros Hin. destruct (Hix p Hin) as [i Hi]. by destruct (inv_cached _ _ I _ _ _ Hi). }
  exists p, st', (with_new n p g). split; [done|]. split; [done|].
  split; [|split; [|conjs; try done; by rewrite (ad_pool _ _ _ _ _ _ _ A)]].
  - constructor.
    + apply Q.
    + apply NoDup_app. split; [done|]. split; [|apply NoDup_singleton]. intros q Hq ->%list_elem_of_singleton. done.
    + intros q. cbn. rewrite elem_of_cons, Hrd. set_solver.
    + intros q [Hq| ->%list_elem_of_singleton]%elem_of_app.
      * destruct (Hix q Hq) as [i Hi]. exists i. by apply (qu_keep _ _ _ _ Q).
      * exists (PAGE2PFN addr). rewrite (ad_index _ _ _ _ _ _ _ A). by rewrite decide_True.
    + intros q. cbn. rewrite Hext. destruct (decide (q = p)) as [->|Hne].
      * rewrite decide_False by done. rewrite decide_True by set_solver. lia.
      * destruct (decide (q ∈ batch)); [rewrite decide_True by set_solver|rewrite decide_False by set_solver]; lia.
  - rewrite (ad_index _ _ _ _ _ _ _ A). by rewrite decide_True.
Qed.

Lemma flight_nil st g c : inv st g -> rd g = [] -> in_flight st g c (ext g) [].
Proof.
  intros I Hrd. constructor; try done; [apply NoDup_nil_2|by rewrite Hrd|set_solver|].
  intros q. rewrite decide_False by set_solver. lia.
Qed.

Lemma flight_idle st g c ext0 : in_flight st g c ext0 [] -> rd g = [] /\ forall q, ext g q = ext0 q.
Proof.
  intros []. split.
  - destruct (rd g) as [|x l]; [done|]. exfalso. specialize (proj1 (fl_rd0 x) ltac:(left)). set_solver.
  - intros q. rewrite fl_ext0, decide_False by set_solver. lia.
Qed.

(** * Getting a page *)

Lemma wait_ready st g c i p : inv st g -> at_index st c i = Some p -> p ∉ rd g -> cache_wait_page_ready p st = Some 0.
Proof.
  intros I Hi Hr. destruct (inv_cached _ _ I _ _ _ Hi) as (Hin & _). destruct (inv_member _ _ I p Hin) as (pi & c' & Ep & Ho).
  unfold cache_wait_page_ready, pmm_wait_get. rewrite Ep. cbv beta iota delta [mbind option_bind].
  pose proof (po_reading _ _ _ _ _ Ho) as Hf. rewrite bool_decide_false in Hf by done. apply has_false in Hf. rewrite Hf. cbn [Z.eqb].
  unfold page_error. by rewrite (po_error _ _ _ _ _ Ho).
Qed.

Lemma get_page_spec c f ch st g addr : op_read c = Some f -> inv st g -> rd g = [] -> wr g = [] -> caches st !! c = Some ch ->
  0 <= addr < PAGE_ALIGN_UP (size ch) -> addr < 2 ^ 54 ->
  exists st' r, cache_raw_get_page c addr st = Some (st', r) /\
    match r with
    | inr e => e = - code ENOMEM /\ st' = st /\ pool st = [] /\ at_index st c (PAGE2PFN addr) = None
    | inl p => exists g', quiet st g st' g' /\ at_index st' c (PAGE2PFN addr) = Some p /\ rd g' = [] /\ wr g' = [] /\ loc g' = loc g /\
        (forall q, ext g' q = ext g q + if decide (q = p) then 1 else 0)
    end.
Proof.
  intros Hf I Hrd Hwr Hch Ha Hlim. unfold cache_raw_get_page. rewrite Hch. cbv beta iota delta [mbind option_bind].
  rewrite (proj2 (Z.leb_gt _ _)) by lia.
  assert (Hr : 0 <= PAGE2PFN addr < 2 ^ 42) by (unfold PAGE2PFN, PAGE_SIZE; Z.div_mod_to_equations; lia).
  unfold cache_lookup_and_ref_page, cache_lookup_page. rewrite Hch. cbv beta iota delta [mbind option_bind].
  destruct (pages ch !! PAGE2PFN addr) as [p|] eqn:E.
  - assert (Hat : at_index st c (PAGE2PFN addr) = Some p) by (by rewrite (at_index_spec _ _ _ ch)).
    destruct (inv_cached _ _ I _ _ _ Hat) as (Hin & _).
    destruct (retain_spec st g p I Hin) as (st1 & -> & Q1 & _).
    destruct (active_spec st1 _ p (qu_inv _ _ _ _ Q1) Hin) as (st2 & E2 & Q2 & _). cbn [negb]. rewrite E2. cbn [Z.leb Z.compare].
    pose proof (quiet_trans _ _ _ _ _ _ Q1 Q2) as Q. pose proof (qu_keep _ _ _ _ Q _ _ _ Hat) as Hat'.
    rewrite (wait_ready st2 _ c _ p (qu_inv _ _ _ _ Q) Hat') by (cbn; rewrite Hrd; apply not_elem_of_nil).
    eexists _, _. split; [done|]. cbn. exists (with_ext p 1 g). conjs; try done.
  - assert (Hat : at_index st c (PAGE2PFN addr) = None) by (by rewrite (at_index_spec _ _ _ ch)).
    destruct (flight_setup c st g (ext g) [] addr (flight_nil _ _ c I Hrd)) as [[Hpool ->]|(p & st1 & g1 & -> & Q1 & F1 & Hat1 & Hl1 & Hw1 & _)];
      [by eexists|done|done|done| |].
    { eexists st, _. split; [done|]. done. }
    cbn [negb app] in *. destruct (inv_cached _ _ (qu_inv _ _ _ _ Q1) _ _ _ Hat1) as (Hin & _).
    destruct (retain_spec st1 g1 p (qu_inv _ _ _ _ Q1) Hin) as (st2 & -> & Q2 & _).
    set (g2 := with_ext p 1 g1) in *.
    assert (F2 : in_flight st2 g2 c (fun q => ext g q + if decide (q = p) then 1 else 0) ([p] ++ [])).
    { destruct F1 as [_ F2 F3 F4 F5]. constructor; try done.
      - apply Q2.
      - intros q Hq. destruct (F4 q Hq) as [i Hi]. exists i. by apply (qu_keep _ _ _ _ Q2).
      - intros q. cbn. rewrite F5. lia. }
    assert (H0 : forall q, 0 <= ext g q + if decide (q = p) then 1 else 0).
    { intros q. pose proof (inv_ext _ _ I q). destruct (decide _); lia. }
    destruct (flight_read c f st2 g2 _ [p] [] Hf H0 F2) as (st3 & g3 & -> & Q3 & F3 & _ & Hl3 & Hw3).
    cbn [Z.leb Z.compare]. destruct (flight_idle _ _ _ _ F3) as [Hrd3 Hext3].
    assert (Q : quiet st g st3 g3) by (eapply quiet_trans; [exact Q1|]; by eapply quiet_trans).
    assert (Hat3 : at_index st3 c (PAGE2PFN addr) = Some p) by (apply (qu_keep _ _ _ _ Q3), (qu_keep _ _ _ _ Q2), Hat1).
    rewrite (wait_ready st3 g3 c _ p (qu_inv _ _ _ _ Q) Hat3) by (rewrite Hrd3; apply not_elem_of_nil).
    eexists _, _. split; [done|]. cbn. exists g3. conjs; try done; [by rewrite Hw3, <- Hwr|]. by rewrite Hl3.
Qed.

(** * Reading ahead *)

Lemma quiet_cache st g st' g' c ch : quiet st g st' g' -> caches st !! c = Some ch ->
  exists ch', caches st' !! c = Some ch' /\ size ch' = size ch /\ readers ch' = readers ch /\ writer ch' = writer ch.
Proof.
  intros Q Hc. pose proof (qu_meta _ _ _ _ Q) as Hm.
  assert (E : (meta <$> caches st') !! c = Some (meta ch)) by (by rewrite Hm, lookup_fmap, Hc).
  rewrite lookup_fmap in E. apply fmap_Some in E as (ch' & ? & [= ? ? ? ?]). eauto.
Qed.

Lemma batch_add batch p : pages_batch_is_full batch = false -> pages_batch_add batch p = batch ++ [p].
Proof. intros E. unfold pages_batch_add. by rewrite E. Qed.

(** The pages among [n] from the index [i] on that are not cached. *)
Definition missing st (c i : Z) (n : nat) : Z := lenZ (filter (fun j => at_index st c j = None) (seqZ i (Z.of_nat n))).

Lemma missing_S st c i n : missing st c i (S n) = (match at_index st c i with Some _ => 0 | None => 1 end) + missing st c (i + 1) n.
Proof.
  unfold missing. rewrite Nat2Z.inj_succ, seqZ_cons, Z.pred_succ by lia. rewrite filter_cons.
  destruct (at_index st c i); [rewrite decide_False by done; by rewrite Z.add_1_r|]. rewrite decide_True, lenZ_cons, Z.add_1_r by done. lia.
Qed.

Lemma missing_quiet st g st' g' c : quiet st g st' g' -> forall n i, missing st' c i n <= missing st c i n.
Proof.
  intros Q n. induction n as [|n IH]; intros i; [done|]. rewrite !missing_S. specialize (IH (i + 1)).
  destruct (at_index st c i) as [p|] eqn:E; [rewrite (qu_keep _ _ _ _ Q _ _ _ E); lia|]. destruct (at_index st' c i); lia.
Qed.

Lemma missing_nonneg st c i n : 0 <= missing st c i n.
Proof. apply lenZ_nonneg. Qed.

Lemma pfn_next addr : PAGE2PFN (addr + PAGE_SIZE) = PAGE2PFN addr + 1.
Proof. unfold PAGE2PFN. rewrite <- (Z.mul_1_l PAGE_SIZE) at 1. by rewrite Z.div_add. Qed.

(** All of [n] pages from an index on are cached. *)
Definition all_cached st (c i : Z) (n : nat) : Prop := forall j, 0 <= j < Z.of_nat n -> is_Some (at_index st c (i + j)).

Lemma all_cached_S st c i n : all_cached st c i (S n) <-> is_Some (at_index st c i) /\ all_cached st c (i + 1) n.
Proof.
  split.
  - intros H. split; [specialize (H 0 ltac:(lia)); by rewrite Z.add_0_r in H|]. intros j Hj. specialize (H (j + 1) ltac:(lia)).
    by replace (i + 1 + j) with (i + (j + 1)) by lia.
  - intros [H0 H] j Hj. destruct (decide (j = 0)) as [->|]; [by rewrite Z.add_0_r|]. specialize (H (j - 1) ltac:(lia)).
    by replace (i + 1 + (j - 1)) with (i + j) in H by lia.
Qed.

Lemma all_cached_keep st st' c i n : (forall p j, at_index st c j = Some p -> at_index st' c j = Some p) -> all_cached st c i n -> all_cached st' c i n.
Proof. intros K H j Hj. destruct (H j Hj) as [p Hp]. exists p. by apply K. Qed.

Lemma preload_loop_spec n c f st g ext0 batch addr : op_read c = Some f -> (forall q, 0 <= ext0 q) ->
  in_flight st g c ext0 batch -> is_Some (caches st !! c) -> wr g = [] ->
  0 <= addr -> addr + Z.of_nat n * PAGE_SIZE <= 2 ^ 54 ->
  exists st' ret batch' g', preload_loop n c addr batch st = Some (st', ret, batch') /\ quiet st g st' g' /\
    in_flight st' g' c ext0 batch' /\ loc g' = loc g /\ wr g' = wr g /\
    (ret = 0 /\ all_cached st' c (PAGE2PFN addr) n \/
     ret = - code ENOMEM /\ batch' = [] /\ lenZ (pool st) < missing st c (PAGE2PFN addr) n).
Proof.
  intros Hf H0. revert st g batch addr. induction n as [|n IH]; intros st g batch addr F [ch Hch] Hwr Ha Hend; cbn [preload_loop].
  { exists st, 0, batch, g. split; [done|]. split; [apply quiet_refl, F|]. conjs; try done. left. split; [done|]. intros j Hj. lia. }
  pose proof (missing_S st c (PAGE2PFN addr) n) as Hmiss. pose proof (missing_nonneg st c (PAGE2PFN addr + 1) n) as Hpos.
  assert (Hnext : addr +! PAGE_SIZE = addr + PAGE_SIZE) by (apply u64_small; unfold is_u64, PAGE_SIZE in *; lia).
  assert (Hr : 0 <= PAGE2PFN addr < 2 ^ 42) by (unfold PAGE2PFN, PAGE_SIZE in *; Z.div_mod_to_equations; lia).
  unfold cache_lookup_page. rewrite Hch. cbv beta iota delta [mbind option_bind].
  destruct (pages ch !! PAGE2PFN addr) as [p|] eqn:E.
  { assert (Hat : at_index st c (PAGE2PFN addr) = Some p) by (by rewrite (at_index_spec _ _ _ ch)). rewrite Hat in Hmiss. rewrite Hnext.
    destruct (IH st g batch (addr + PAGE_SIZE) F) as (st' & ret & batch' & g' & E' & Q' & F' & Hl' & Hw' & Hret);
      [by eexists|done|unfold PAGE_SIZE; lia|unfold PAGE_SIZE in *; lia|].
    exists st', ret, batch', g'. conjs; try done. rewrite pfn_next in Hret. destruct Hret as [(-> & Hall)|(-> & -> & Hm)]; [left|right; conjs; try done; lia].
    split; [done|]. apply all_cached_S. split; [exists p; by apply (qu_keep _ _ _ _ Q')|done]. }
  assert (Hat : at_index st c (PAGE2PFN addr) = None) by (by rewrite (at_index_spec _ _ _ ch)). rewrite Hat in Hmiss.
  destruct (flight_setup c st g ext0 batch addr F) as [[Hpool ->]|(p & st1 & g1 & -> & Q1 & F1 & Hat1 & Hl1 & Hw1 & Hpl1)];
    [by eexists|done|by rewrite (at_index_spec _ _ _ ch)|done| |].
  - pose proof (code_range ENOMEM) as Hcode. assert (Hneg : forall st, (if - code ENOMEM <? 0 then Some (st, - code ENOMEM, @nil Z) else Some (st, - code ENOMEM, [])) = Some (st, - code ENOMEM, [])) by (intros; by destruct (_ <? _)).
    destruct batch as [|q batch].
    + cbn [Z.ltb Z.compare]. exists st, (- code ENOMEM), [], g. split; [done|]. split; [apply quiet_refl, F|]. conjs; try done. right. conjs; try done. rewrite Hpool. change (lenZ (@nil Z)) with 0. lia.
    + destruct (flight_read c f st g ext0 (q :: batch) [] Hf H0) as (st' & g' & -> & Q & F' & _ & Hl & Hw); [by rewrite app_nil_r|].
      cbn [Z.ltb Z.compare]. exists st', (- code ENOMEM), [], g'. conjs; try done. right. conjs; try done. rewrite Hpool. change (lenZ (@nil Z)) with 0. lia.
  - rewrite Hpl1, lenZ_cons. destruct (quiet_cache _ _ _ _ _ _ Q1 Hch) as (ch1 & Hch1 & _).
    destruct (pages_batch_is_full batch) eqn:Hfull.
    + destruct (flight_read c f st1 g1 ext0 batch [p] Hf H0 F1) as (st2 & g2 & -> & Q2 & F2 & Hpl2 & Hl2 & Hw2).
      cbn [Z.ltb Z.compare]. rewrite Hnext. destruct (quiet_cache _ _ _ _ _ _ Q2 Hch1) as (ch2 & Hch2 & _).
      destruct (IH st2 g2 [p] (addr + PAGE_SIZE) F2) as (st' & ret & batch' & g' & E' & Q' & F' & Hl' & Hw' & Hret);
        [by eexists|congruence|unfold PAGE_SIZE; lia|unfold PAGE_SIZE in *; lia|].
      exists st', ret, batch', g'. conjs; try done; try congruence.
      * eapply quiet_trans; [exact Q1|]. by eapply quiet_trans.
      * rewrite pfn_next, Hpl2 in Hret. pose proof (missing_quiet _ _ _ _ c (quiet_trans _ _ _ _ _ _ Q1 Q2) n (PAGE2PFN addr + 1)).
        destruct Hret as [(-> & Hall)|(-> & -> & Hm)]; [left|right; conjs; try done; lia]. split; [done|].
        apply all_cached_S. split; [exists p; by apply (qu_keep _ _ _ _ Q'), (qu_keep _ _ _ _ Q2)|done].
    + rewrite Hnext, batch_add by done.
      destruct (IH st1 g1 (batch ++ [p]) (addr + PAGE_SIZE) F1) as (st' & ret & batch' & g' & E' & Q' & F' & Hl' & Hw' & Hret);
        [by eexists|congruence|unfold PAGE_SIZE; lia|unfold PAGE_SIZE in *; lia|].
      exists st', ret, batch', g'. conjs; try done; try congruence; [by eapply quiet_trans|].
      rewrite pfn_next in Hret. pose proof (missing_quiet _ _ _ _ c Q1 n (PAGE2PFN addr + 1)).
      destruct Hret as [(-> & Hall)|(-> & -> & Hm)]; [left|right; conjs; try done; lia]. split; [done|].
      apply all_cached_S. split; [exists p; by apply (qu_keep _ _ _ _ Q')|done].
Qed.

(** * The pages of a range *)

Lemma page_align_up_spec a : 0 <= a <= 2 ^ 54 -> a <= PAGE_ALIGN_UP a < a + PAGE_SIZE /\ PAGE_ALIGN_UP a mod PAGE_SIZE = 0 /\ PAGE_ALIGN_UP a <= 2 ^ 54.
Proof.
  intros Ha. destruct (PAGE_ALIGN_UP_spec a) as [H1 H2]; [lia|unfold PAGE_SIZE; lia|]. conjs; [lia|lia|done|].
  unfold PAGE_SIZE in *. Z.div_mod_to_equations. lia.
Qed.

Lemma align_up_mono a b : 0 <= a <= b -> b <= 2 ^ 54 -> PAGE_ALIGN_UP a <= PAGE_ALIGN_UP b.
Proof.
  intros H1 H2. destruct (page_align_up_spec a ltac:(lia)) as (A1 & A2 & _). destruct (page_align_up_spec b ltac:(lia)) as (B1 & B2 & _).
  unfold PAGE_SIZE in *. Z.div_mod_to_equations. lia.
Qed.

(** The range of a transfer inside the file. *)
Lemma range_spec ch offset sz : 0 <= offset -> 0 <= sz -> offset + sz <= size ch -> size ch <= 2 ^ 54 ->
  cache_get_range ch offset sz = (PAGE_ALIGN_DOWN offset, PAGE_ALIGN_UP (offset + sz)).
Proof.
  intros H1 H2 H3 H4. unfold cache_get_range. rewrite (u64_small (size ch - offset)) by (unfold is_u64; lia).
  rewrite (proj2 (Z.leb_le _ _)), (proj2 (Z.ltb_ge (size ch - offset) sz)) by lia. cbn [andb].
  rewrite (u64_small (offset + sz)) by (unfold is_u64; lia).
  pose proof (align_up_mono (offset + sz) (size ch) ltac:(lia) ltac:(lia)). rewrite (proj2 (Z.ltb_ge _ _)) by lia. done.
Qed.

(** The position of the first byte of the page at [addr] that the transfer touches, and the one behind
    the last. *)
Definition pos (offset addr : Z) : Z := if addr =? PAGE_ALIGN_DOWN offset then offset else addr.
Definition upto (offset sz addr : Z) : Z := Z.min (addr + PAGE_SIZE) (offset + sz).

Lemma pages_between_spec offset sz : 0 <= offset -> 0 <= sz -> offset + sz <= 2 ^ 54 ->
  let start := PAGE_ALIGN_DOWN offset in let end_ := PAGE_ALIGN_UP (offset + sz) in
  start mod PAGE_SIZE = 0 /\ 0 <= start <= offset /\ offset < start + PAGE_SIZE /\
  end_ = start + Z.of_nat (pages_between start end_) * PAGE_SIZE /\ end_ <= 2 ^ 54.
Proof.
  intros H1 H2 H3 start end_. destruct (page_align_up_spec (offset + sz) ltac:(lia)) as (A1 & A2 & A3).
  unfold pages_between, start, end_, PAGE_ALIGN_DOWN in *. unfold PAGE_SIZE in *. rewrite Z.mod_mul by lia.
  conjs; try done; try (Z.div_mod_to_equations; lia).
Qed.

Lemma page_part offset sz addr : 0 <= offset -> 0 <= sz -> offset + sz <= 2 ^ 54 -> addr mod PAGE_SIZE = 0 ->
  PAGE_ALIGN_DOWN offset <= addr < PAGE_ALIGN_UP (offset + sz) ->
  let ps := page_start (PAGE_ALIGN_DOWN offset) offset addr in
  let pe := page_end (PAGE_ALIGN_UP (offset + sz)) offset sz addr in
  ps = pos offset addr - addr /\ pe = upto offset sz addr - addr /\ 0 <= ps <= pe /\ pe <= PAGE_SIZE /\
  addr <= offset + sz /\
  (upto offset sz addr = offset + sz \/ (upto offset sz addr = addr + PAGE_SIZE /\ pos offset (addr + PAGE_SIZE) = addr + PAGE_SIZE)) /\
  (addr + PAGE_SIZE = PAGE_ALIGN_UP (offset + sz) -> upto offset sz addr = offset + sz) /\
  (addr + PAGE_SIZE < PAGE_ALIGN_UP (offset + sz) -> upto offset sz addr = addr + PAGE_SIZE /\ pos offset (addr + PAGE_SIZE) = addr + PAGE_SIZE).
Proof.
  intros H1 H2 H3 Hm Ha ps pe. destruct (page_align_up_spec (offset + sz) ltac:(lia)) as (A1 & A2 & A3).
  assert (Hd : 0 <= PAGE_ALIGN_DOWN offset <= offset /\ offset < PAGE_ALIGN_DOWN offset + PAGE_SIZE /\ PAGE_ALIGN_DOWN offset mod PAGE_SIZE = 0).
  { unfold PAGE_ALIGN_DOWN, PAGE_SIZE. rewrite Z.mod_mul by lia. split; [Z.div_mod_to_equations; lia|]. split; [Z.div_mod_to_equations; lia|done]. }
  assert (Hps : ps = pos offset addr - addr).
  { unfold ps, page_start, pos. destruct (addr =? PAGE_ALIGN_DOWN offset) eqn:E; zbool; [|lia].
    unfold PAGE_SIZE in *. Z.div_mod_to_equations. lia. }
  assert (Hn : pos offset (addr + PAGE_SIZE) = addr + PAGE_SIZE).
  { unfold pos. rewrite (proj2 (Z.eqb_neq _ _)); [done|]. unfold PAGE_SIZE in *. lia. }
  assert (Hlast : addr + PAGE_SIZE = PAGE_ALIGN_UP (offset + sz) \/ addr + PAGE_SIZE + PAGE_SIZE <= PAGE_ALIGN_UP (offset + sz)).
  { unfold PAGE_SIZE in *. Z.div_mod_to_equations. lia. }
  assert (Hpe : pe = upto offset sz addr - addr).
  { unfold pe, page_end, upto. rewrite u64_small by (unfold is_u64, PAGE_SIZE in *; lia).
    rewrite (u64_small (offset + sz)) by (unfold is_u64; lia). destruct (addr =? _) eqn:E; zbool.
    - destruct ((offset + sz) mod PAGE_SIZE =? 0) eqn:E0; zbool; unfold PAGE_SIZE in *; Z.div_mod_to_equations; lia.
    - destruct Hlast; [lia|]. lia. }
  assert (Hup : upto offset sz addr = addr + PAGE_SIZE \/ upto offset sz addr = offset + sz) by (unfold upto; lia).
  assert (Hpos : addr <= pos offset addr <= offset + sz).
  { unfold pos. destruct (addr =? _) eqn:E; zbool; lia. }
  conjs; try done; try lia; try (unfold pos, upto in *; destruct (addr =? _) eqn:E; zbool; lia).
Qed.

(** * Bytes of a file *)

Definition byte st (c k : Z) : Z := nthZ 0 (content st c (k / PAGE_SIZE)) (k mod PAGE_SIZE).
Definition file_bytes st (c off n : Z) : list Z := byte st c <$> seqZ off n.

Lemma lenZ_file_bytes st c off n : 0 <= n -> lenZ (file_bytes st c off n) = n.
Proof. intros. unfold file_bytes, lenZ. rewrite length_fmap, length_seqZ. lia. Qed.

Lemma cached_bytes_app st c off a b : 0 <= a -> 0 <= b -> file_bytes st c off (a + b) = file_bytes st c off a ++ file_bytes st c (off + a) b.
Proof. intros. unfold file_bytes. rewrite seqZ_app by lia. by rewrite fmap_app. Qed.

Lemma content_slice st g c addr ps pe : inv st g -> addr mod PAGE_SIZE = 0 -> 0 <= ps <= pe -> pe <= PAGE_SIZE ->
  lenZ (content st c (PAGE2PFN addr)) = PAGE_SIZE ->
  sliceZ ps (pe - ps) (content st c (PAGE2PFN addr)) = file_bytes st c (addr + ps) (pe - ps).
Proof.
  intros I Hm Hps Hpe Hlen. apply list_eq. intros i. rewrite sliceZ_lookup. unfold file_bytes. rewrite list_lookup_fmap.
  case_decide as Hi.
  - rewrite lookup_seqZ_lt by lia. cbn. unfold byte, PAGE2PFN in *.
    assert (E1 : (addr + ps + Z.of_nat i) / PAGE_SIZE = addr / PAGE_SIZE) by (unfold PAGE_SIZE in *; Z.div_mod_to_equations; lia).
    assert (E2 : (addr + ps + Z.of_nat i) mod PAGE_SIZE = ps + Z.of_nat i) by (unfold PAGE_SIZE in *; Z.div_mod_to_equations; lia).
    rewrite E1, E2. unfold nthZ, lenZ in *.
    replace (Z.to_nat (ps + Z.of_nat i)) with (Z.to_nat ps + i)%nat by lia. rewrite nth_lookup.
    destruct (lookup_lt_is_Some_2 (content st c (addr / PAGE_SIZE)) (Z.to_nat ps + i)%nat) as [x ->]; [unfold PAGE_SIZE in *; lia|done].
  - rewrite lookup_seqZ_ge by lia. done.
Qed.

Lemma content_length st g c i : inv st g -> lenZ (content st c i) = PAGE_SIZE.
Proof.
  intros I. unfold content. destruct (at_index st c i) as [p|] eqn:E; cbn; [|apply (inv_disk _ _ I)].
  destruct (inv_cached _ _ I _ _ _ E) as (Hin & pi & Ep & _). destruct (inv_member _ _ I p Hin) as (pi' & c' & Ep' & Ho).
  simplify_eq. rewrite Ep. unfold page_content. destruct (has _ _); [apply (inv_disk _ _ I)|apply Ho].
Qed.

Lemma content_cached st g c i p : inv st g -> rd g = [] -> at_index st c i = Some p ->
  exists pi, infos st !! p = Some pi /\ content st c i = bytes pi.
Proof.
  intros I Hrd Hi. destruct (inv_cached _ _ I _ _ _ Hi) as (Hin & _). destruct (inv_member _ _ I p Hin) as (pi & c' & Ep & Ho).
  exists pi. split; [done|]. unfold content. rewrite Hi. cbn. rewrite Ep. unfold page_content.
  rewrite (po_reading _ _ _ _ _ Ho), Hrd. by rewrite bool_decide_false by apply not_elem_of_nil.
Qed.

Lemma quiet_bytes st g st' g' c off n : quiet st g st' g' -> file_bytes st' c off n = file_bytes st c off n.
Proof. intros Q. unfold file_bytes. apply list_fmap_ext. intros i x _. unfold byte. by rewrite (qu_content _ _ _ _ Q). Qed.

(** * Reading *)

(** What is left to transfer when [n] pages from [addr] on are left. *)
Definition remaining (n : nat) (offset sz addr : Z) : Z := match n with O => 0 | S _ => offset + sz - pos offset addr end.

Lemma copy_to_split um buf bs um' : UserMem.safe_copy_to um buf bs = Some um' -> um' = UserMem.poke um buf bs /\ is_Some (UserMem.load_bytes um buf (lenZ bs)).
Proof. unfold UserMem.safe_copy_to. destruct (UserMem.load_bytes um buf (lenZ bs)); [|done]. intros [= <-]. eauto. Qed.

Lemma load_bytes_app um buf a b : 0 <= a -> 0 <= b -> is_Some (UserMem.load_bytes um buf (a + b)) <->
  is_Some (UserMem.load_bytes um buf a) /\ is_Some (UserMem.load_bytes um (buf + a) b).
Proof.
  intros Ha Hb. rewrite UserMem.load_bytes_add by done. destruct (UserMem.load_bytes um buf a); cbn; [|split; [by intros []|by intros [[] _]]].
  destruct (UserMem.load_bytes um (buf + a) b); cbn; split; try (by intros []); try (by intros [_ []]); eauto.
Qed.

Lemma load_bytes_poke_iff um addr bs a n : is_Some (UserMem.load_bytes um addr (lenZ bs)) ->
  is_Some (UserMem.load_bytes (UserMem.poke um addr bs) a n) <-> is_Some (UserMem.load_bytes um a n).
Proof.
  intros Hl. split; [|by apply UserMem.load_bytes_poke_is_Some]. unfold UserMem.load_bytes in *. rewrite !mapM_is_Some in *.
  intros H. apply Forall_forall. intros x Hx. pose proof (proj1 (Forall_forall _ _) H x Hx) as Hp. cbn in Hp.
  destruct (decide (addr <= x < addr + lenZ bs)) as [Hin|Hout].
  - apply (proj1 (Forall_forall _ _) Hl x). apply elem_of_seqZ. lia.
  - by rewrite UserMem.poke_out in Hp by lia.
Qed.

(** After a page of a transfer, with the reference to it given back. *)
Lemma get_and_release st g st1 g1 p c i : inv st g -> quiet st g st1 g1 -> at_index st1 c i = Some p ->
  rd g1 = [] -> wr g1 = [] -> loc g1 = loc g -> (forall q, ext g1 q = ext g q + if decide (q = p) then 1 else 0) ->
  exists st2 g2, pmm_release_page p st1 = Some st2 /\ quiet st g st2 g2 /\ rd g2 = [] /\ wr g2 = [] /\ loc g2 = loc g /\ (forall q, ext g2 q = ext g q).
Proof.
  intros I Q Hi Hrd Hwr Hl He. destruct (inv_cached _ _ (qu_inv _ _ _ _ Q) _ _ _ Hi) as (Hin & _).
  destruct (release_spec st1 g1 p (qu_inv _ _ _ _ Q) Hin) as (st2 & E & Q2 & _).
  { rewrite He, decide_True by done. pose proof (inv_ext _ _ I p). lia. }
  exists st2, (with_ext p (-1) g1). conjs; try done; [by eapply quiet_trans|].
  intros q. cbn. rewrite He. destruct (decide _); lia.
Qed.

(** A transfer from the position [p] of the file to [e] that stops after [k] bytes: it does so in front of the first page
    whose part of the buffer cannot be used. *)
Definition stops (um : gmap Z Z) (buf p e k : Z) : Prop :=
  0 <= k < e - p /\ (k = 0 \/ (p + k) mod PAGE_SIZE = 0) /\
  UserMem.load_bytes um buf (Z.min (e - p) (PAGE_ALIGN_DOWN (p + k) + PAGE_SIZE - p)) = None.

Lemma stops_here um buf offset sz addr : addr mod PAGE_SIZE = 0 -> PAGE_ALIGN_DOWN offset <= addr -> 0 <= offset ->
  UserMem.load_bytes um buf (upto offset sz addr - pos offset addr) = None -> stops um buf (pos offset addr) (offset + sz) 0.
Proof.
  intros Hm Hlo H1 Hload. assert (Hpos : addr <= pos offset addr < addr + PAGE_SIZE).
  { unfold pos. destruct (addr =? _) eqn:E; zbool; unfold PAGE_ALIGN_DOWN, PAGE_SIZE in *; Z.div_mod_to_equations; lia. }
  assert (Hd : PAGE_ALIGN_DOWN (pos offset addr + 0) = addr) by (unfold PAGE_ALIGN_DOWN, PAGE_SIZE in *; Z.div_mod_to_equations; lia).
  assert (Hlt : 0 < upto offset sz addr - pos offset addr).
  { destruct (Z_lt_le_dec 0 (upto offset sz addr - pos offset addr)); [done|]. by rewrite UserMem.load_bytes_nil in Hload by lia. }
  unfold stops. rewrite Hd. unfold upto in *. split; [lia|]. split; [by left|]. by replace (Z.min _ _) with (Z.min (addr + PAGE_SIZE) (offset + sz) - pos offset addr) by lia.
Qed.

Lemma stops_next um um1 buf p p1 e k : p <= p1 -> p1 mod PAGE_SIZE = 0 -> is_Some (UserMem.load_bytes um buf (p1 - p)) ->
  (forall n, is_Some (UserMem.load_bytes um1 (buf + (p1 - p)) n) <-> is_Some (UserMem.load_bytes um (buf + (p1 - p)) n)) ->
  stops um1 (buf + (p1 - p)) p1 e k -> stops um buf p e (p1 - p + k).
Proof.
  intros Hp Hm Hs Hiff (Hk & Hmod & Hno). split; [lia|]. replace (p + (p1 - p + k)) with (p1 + k) by lia. split.
  - right. destruct Hmod as [->|]; [by rewrite Z.add_0_r|done].
  - set (x := Z.min (e - p1) (PAGE_ALIGN_DOWN (p1 + k) + PAGE_SIZE - p1)) in *.
    assert (Hx : 0 <= x) by (unfold x, PAGE_ALIGN_DOWN, PAGE_SIZE; Z.div_mod_to_equations; lia).
    replace (Z.min (e - p) _) with (p1 - p + x) by (unfold x; lia).
    apply eq_None_not_Some. intros Hsome. apply load_bytes_app in Hsome as [_ Hsome]; [|lia..]. apply Hiff in Hsome. rewrite Hno in Hsome. by destruct Hsome.
Qed.

Lemma read_loop_spec n c f ch offset sz st g addr um buf total :
  op_read c = Some f -> inv st g -> rd g = [] -> wr g = [] -> caches st !! c = Some ch ->
  0 <= offset -> 0 <= sz -> offset + sz <= size ch -> size ch <= 2 ^ 54 ->
  addr mod PAGE_SIZE = 0 -> PAGE_ALIGN_DOWN offset <= addr -> addr + Z.of_nat n * PAGE_SIZE = PAGE_ALIGN_UP (offset + sz) -> all_cached st c (PAGE2PFN addr) n ->
  exists st' g' k ret, let bs := file_bytes st c (pos offset addr) k in
    read_loop n c (PAGE_ALIGN_DOWN offset) (PAGE_ALIGN_UP (offset + sz)) offset sz addr um buf total st =
      Some (st', UserMem.poke um buf bs, total + k, ret) /\
    quiet st g st' g' /\ rd g' = [] /\ wr g' = [] /\ loc g' = loc g /\ 0 <= k /\ is_Some (UserMem.load_bytes um buf k) /\
    ((ret = 0 /\ k = remaining n offset sz addr /\ forall q, ext g' q = ext g q) \/
     (ret = - code EFAULT /\ k < remaining n offset sz addr /\ stops um buf (pos offset addr) (offset + sz) k)).
Proof.
  intros Hf. revert st g ch addr um buf total.
  induction n as [|n IH]; intros st g ch addr um buf total I Hrd Hwr Hch H1 H2 H3 H4 Hm Hlo Hhi Hall; cbn [read_loop].
  { exists st, g, 0, 0. cbn. rewrite Z.add_0_r, UserMem.load_bytes_nil by lia. conjs; try done; try lia; try (by eexists).
    left. by conjs. }
  destruct (page_part offset sz addr H1 H2 ltac:(lia) Hm ltac:(unfold PAGE_SIZE in *; lia)) as (Eps & Epe & Hps & Hpe & Htop & Hcase & Hc1 & Hc2).
  destruct (page_align_up_spec (offset + sz) ltac:(lia)) as (_ & _ & Hmax).
  assert (Hd : 0 <= PAGE_ALIGN_DOWN offset) by (unfold PAGE_ALIGN_DOWN, PAGE_SIZE; Z.div_mod_to_equations; lia).
  destruct (get_page_spec c f ch st g addr Hf I Hrd Hwr Hch) as (st1 & r & -> & Hr).
  { pose proof (align_up_mono (offset + sz) (size ch) ltac:(lia) ltac:(lia)). unfold PAGE_SIZE in *; lia. }
  { unfold PAGE_SIZE in *; lia. }
  cbv beta iota delta [mbind option_bind]. set (ps := page_start _ _ _) in *. set (pe := page_end _ _ _ _) in *.
  rewrite (u64_small (pe - ps)) by (unfold is_u64, PAGE_SIZE in *; lia).
  assert (Hrem : remaining (S n) offset sz addr = (pe - ps) + remaining n offset sz (addr + PAGE_SIZE)).
  { unfold remaining. destruct n as [|n']; [rewrite Hc1 in Epe by (unfold PAGE_SIZE in *; lia); lia|].
    destruct Hc2 as [Hu Hp]; [unfold PAGE_SIZE in *; lia|]. rewrite Hp. rewrite Hu in Epe. lia. }
  assert (Hrem0 : 0 <= remaining n offset sz (addr + PAGE_SIZE)).
  { unfold remaining. destruct n as [|n']; [lia|]. destruct Hc2 as [Hu ->]; [unfold PAGE_SIZE in *; lia|]. unfold upto in Hu. lia. }
  destruct r as [p|e].
  2:{ destruct Hr as (_ & _ & _ & Hno). apply all_cached_S in Hall as [[p Hp] _]. congruence. }
  destruct Hr as (g1 & Q1 & Hat & Hrd1 & Hwr1 & Hl1 & He1).
  destruct (content_cached st1 g1 c _ p (qu_inv _ _ _ _ Q1) Hrd1 Hat) as (pi & Ep & Hct). rewrite Ep.
  rewrite <- Hct, (content_slice st1 g1) by (try done; try apply Q1; by eapply content_length, Q1).
  rewrite (quiet_bytes _ _ _ _ _ _ _ Q1). replace (addr + ps) with (pos offset addr) by lia.
  destruct (UserMem.safe_copy_to _ _ _) as [um1|] eqn:Ecopy.
  - apply copy_to_split in Ecopy as [-> Hload]. rewrite lenZ_file_bytes in Hload by lia.
    destruct (get_and_release _ _ _ _ _ _ _ I Q1 Hat Hrd1 Hwr1 Hl1 He1) as (st2 & g2 & -> & Q2 & Hrd2 & Hwr2 & Hl2 & He2).
    rewrite u64_small by (unfold is_u64, PAGE_SIZE in *; lia).
    destruct (quiet_cache _ _ _ _ _ _ Q2 Hch) as (ch2 & Hch2 & Hs2 & _).
    destruct (IH st2 g2 ch2 (addr + PAGE_SIZE) (UserMem.poke um buf (file_bytes st c (pos offset addr) (pe - ps))) (buf + (pe - ps)) (total + (pe - ps)))
      as (st' & g' & k & ret & E & Q' & Hrd' & Hwr' & Hl' & Hk & Hlk & Hcs); try done.
    { apply Q2. } { congruence. } { congruence. }
    { unfold PAGE_SIZE in *. Z.div_mod_to_equations. lia. } { unfold PAGE_SIZE; lia. } { unfold PAGE_SIZE in *; lia. }
    { rewrite pfn_next. eapply all_cached_keep; [|apply all_cached_S in Hall as [_ Hall]; exact Hall]. intros q j0. apply (qu_keep _ _ _ _ Q2). }
    assert (Hlk' : forall n, is_Some (UserMem.load_bytes (UserMem.poke um buf (file_bytes st c (pos offset addr) (pe - ps))) (buf + (pe - ps)) n) <->
      is_Some (UserMem.load_bytes um (buf + (pe - ps)) n)).
    { intros n0. apply load_bytes_poke_iff. by rewrite lenZ_file_bytes by lia. }
    exists st', g', ((pe - ps) + k), ret.
    assert (Hbs : file_bytes st c (pos offset addr) (pe - ps + k) = file_bytes st c (pos offset addr) (pe - ps) ++ file_bytes st c (pos offset (addr + PAGE_SIZE)) k).
    { destruct (decide (n = 0%nat)) as [->|Hn].
      - assert (k = 0) as -> by (cbn in Hcs; lia). rewrite Z.add_0_r. replace (file_bytes _ _ _ 0) with (@nil Z) by done. by rewrite app_nil_r.
      - rewrite cached_bytes_app by lia. destruct Hc2 as [Hu Hn']; [unfold PAGE_SIZE in *; lia|].
        rewrite Hn'. rewrite Hu in Epe. replace (pos offset addr + (pe - ps)) with (addr + PAGE_SIZE) by lia. done. }
    cbv zeta. conjs.
    + rewrite Hbs, UserMem.poke_app, lenZ_file_bytes by lia. rewrite E. rewrite (quiet_bytes _ _ _ _ _ _ _ Q2).
      replace (total + (pe - ps + k)) with (total + (pe - ps) + k) by lia. done.
    + by eapply quiet_trans.
    + done.
    + done.
    + congruence.
    + lia.
    + apply load_bytes_app; [lia..|]. split; [done|]. by apply Hlk'.
    + rewrite Hrem. destruct Hcs as [(-> & -> & He)|(-> & Hle & Hno)].
      * left. conjs; try done. intros q. by rewrite He.
      * right. conjs; try done; [lia|]. destruct (decide (n = 0%nat)) as [->|Hn]; [cbn in Hle; lia|].
        destruct Hc2 as [Hu Hn']; [unfold PAGE_SIZE in *; lia|]. rewrite Hn' in Hno. rewrite Hu in Epe.
        replace (pe - ps) with (addr + PAGE_SIZE - pos offset addr) in * by lia. eapply stops_next; [lia| |exact Hload|exact Hlk'|exact Hno].
        unfold PAGE_SIZE in *. Z.div_mod_to_equations. lia.
  - exists st1, g1, 0, (- code EFAULT). replace (file_bytes st c (pos offset addr) 0) with (@nil Z) by done.
    cbn [UserMem.poke]. rewrite Z.add_0_r. rewrite UserMem.load_bytes_nil by lia. cbv zeta.
    assert (Hst : stops um buf (pos offset addr) (offset + sz) 0).
    { apply stops_here; try done. unfold UserMem.safe_copy_to in Ecopy. rewrite lenZ_file_bytes in Ecopy by lia.
      replace (upto offset sz addr - pos offset addr) with (pe - ps) by lia. by destruct (UserMem.load_bytes um buf (pe - ps)). }
    conjs; try done; try lia; try (by eexists). right. conjs; try done. unfold remaining. destruct Hst as (? & _). lia.
Qed.

(** ** The whole read, and the lock *)

(** The pages of a range of a file. *)
Definition range_pages (offset sz : Z) : nat := pages_between (PAGE_ALIGN_DOWN offset) (PAGE_ALIGN_UP (offset + sz)).

Lemma pfn_down offset : PAGE2PFN (PAGE_ALIGN_DOWN offset) = PAGE2PFN offset.
Proof. unfold PAGE2PFN, PAGE_ALIGN_DOWN. by rewrite Z.div_mul. Qed.

Lemma preload_spec c f ch st g offset sz : op_read c = Some f -> inv st g -> rd g = [] -> wr g = [] -> caches st !! c = Some ch ->
  0 <= offset -> 0 <= sz -> offset + sz <= size ch -> size ch <= 2 ^ 54 ->
  exists st' ret g', cache_raw_preload c offset sz st = Some (st', ret) /\ quiet st g st' g' /\ rd g' = [] /\ wr g' = [] /\ loc g' = loc g /\
    (forall q, ext g' q = ext g q) /\
    (ret = 0 /\ all_cached st' c (PAGE2PFN offset) (range_pages offset sz) \/
     ret = - code ENOMEM /\ lenZ (pool st) < missing st c (PAGE2PFN offset) (range_pages offset sz)).
Proof.
  intros Hf I Hrd Hwr Hch H1 H2 H3 H4. unfold cache_raw_preload. rewrite Hf, Hch. cbv beta iota delta [mbind option_bind].
  rewrite range_spec by done. destruct (pages_between_spec offset sz H1 H2 ltac:(lia)) as (P1 & P2 & P3 & P4 & P5).
  fold (range_pages offset sz) in *. set (n := range_pages offset sz) in *.
  destruct (preload_loop_spec n c f st g (ext g) [] (PAGE_ALIGN_DOWN offset) Hf (inv_ext _ _ I) (flight_nil _ _ c I Hrd))
    as (st1 & ret & batch & g1 & -> & Q1 & F1 & Hl1 & Hw1 & Hret); [by eexists|done|lia|lia|].
  pose proof (code_range ENOMEM) as Hcode. rewrite pfn_down in Hret. destruct Hret as [(-> & Hall)|(-> & -> & Hm)].
  - cbn [Z.ltb Z.compare]. destruct batch as [|q batch].
    + destruct (flight_idle _ _ _ _ F1) as [? ?]. exists st1, 0, g1. conjs; try done; [congruence|by left].
    + destruct (flight_read c f st1 g1 (ext g) (q :: batch) [] Hf (inv_ext _ _ I)) as (st2 & g2 & -> & Q2 & F2 & _ & Hl2 & Hw2); [by rewrite app_nil_r|].
      destruct (flight_idle _ _ _ _ F2) as [? ?]. exists st2, 0, g2. conjs; try done; [by eapply quiet_trans|congruence|congruence|left; split; [done|]].
      eapply all_cached_keep; [|exact Hall]. intros p j. apply (qu_keep _ _ _ _ Q2).
  - rewrite (proj2 (Z.ltb_lt _ _)) by lia. destruct (flight_idle _ _ _ _ F1) as [? ?].
    exists st1, (- code ENOMEM), g1. conjs; try done; [congruence|by right].
Qed.

(** The bytes of a request that are in the file. *)
Definition available ch (offset sz : Z) : Z := Z.max 0 (Z.min sz (size ch - offset)).

Lemma clip_spec ch offset sz : 0 <= offset < size ch -> 0 <= sz -> size ch <= 2 ^ 54 ->
  (if size ch -! offset <? sz then size ch -! offset else sz) = available ch offset sz.
Proof.
  intros H1 H2 H3. unfold available. rewrite u64_small by (unfold is_u64; lia). destruct (_ <? _) eqn:E; zbool; lia.
Qed.

(** How a transfer of [n] bytes from [offset] on ends, with [k] bytes copied.  It is complete; or the pages of the range
    that are not cached are more than the free ones, and nothing is copied; or it stops in front of the first page whose
    part of the buffer cannot be used (and the reference to that page is lost). *)
Definition ends st g g' (c : Z) (um : gmap Z Z) (buf offset n k ret : Z) : Prop :=
  (ret = n /\ k = n /\ forall q, ext g' q = ext g q) \/
  (ret = - code ENOMEM /\ k = 0 /\ lenZ (pool st) < missing st c (PAGE2PFN offset) (range_pages offset n) /\ forall q, ext g' q = ext g q) \/
  (ret = (if k =? 0 then - code EFAULT else k) /\ stops um buf offset (offset + n) k).

Lemma whole_transfer offset sz : 0 <= offset -> 0 <= sz -> offset + sz <= 2 ^ 54 ->
  pos offset (PAGE_ALIGN_DOWN offset) = offset /\
  remaining (pages_between (PAGE_ALIGN_DOWN offset) (PAGE_ALIGN_UP (offset + sz))) offset sz (PAGE_ALIGN_DOWN offset) = sz.
Proof.
  intros H1 H2 H3. assert (Hp : pos offset (PAGE_ALIGN_DOWN offset) = offset) by (unfold pos; by rewrite Z.eqb_refl).
  split; [done|]. destruct (pages_between_spec offset sz H1 H2 H3) as (P1 & P2 & P3 & P4 & P5).
  destruct (page_align_up_spec (offset + sz) ltac:(lia)) as (A1 & _).
  destruct (pages_between _ _) as [|n] eqn:E; cbn; [lia|]. rewrite Hp. lia.
Qed.

Lemma raw_read_spec c f ch st g um buf offset sz : op_read c = Some f -> inv st g -> rd g = [] -> wr g = [] -> caches st !! c = Some ch ->
  0 <= offset -> 0 <= sz -> size ch <= 2 ^ 54 ->
  exists st' g' k ret, cache_raw_read c um buf offset sz st = Some (st', UserMem.poke um buf (file_bytes st c offset k), ret) /\
    quiet st g st' g' /\ rd g' = [] /\ wr g' = [] /\ loc g' = loc g /\ is_Some (UserMem.load_bytes um buf k) /\
    ends st g g' c um buf offset (available ch offset sz) k ret.
Proof.
  intros Hf I Hrd Hwr Hch H1 H2 H3. unfold cache_raw_read. rewrite Hch. cbv beta iota delta [mbind option_bind].
  assert (Hnil : file_bytes st c offset 0 = []) by done.
  destruct (size ch <=? offset) eqn:E; zbool.
  { exists st, g, 0, 0. rewrite Hnil, UserMem.load_bytes_nil by lia. assert (available ch offset sz = 0) by (unfold available; lia).
    conjs; try done; try (by eexists). left. conjs; done. }
  rewrite clip_spec by lia. set (n := available ch offset sz) in *. assert (Hn : 0 <= n /\ offset + n <= size ch) by (unfold n, available; lia).
  destruct (preload_spec c f ch st g offset n Hf I Hrd Hwr Hch) as (st1 & ret & g1 & -> & Q1 & Hrd1 & Hwr1 & Hl1 & He1 & Hret); [lia..|].
  pose proof (code_range ENOMEM) as Hcode. pose proof (code_range EFAULT) as Hcode'. destruct Hret as [(-> & Hall)|(-> & Hmiss)].
  2:{ rewrite (proj2 (Z.ltb_lt _ _)) by lia. exists st1, g1, 0, (- code ENOMEM). rewrite Hnil, UserMem.load_bytes_nil by lia.
      conjs; try done; try (by eexists). right. left. by conjs. }
  cbn [Z.ltb Z.compare]. rewrite range_spec by lia. destruct (quiet_cache _ _ _ _ _ _ Q1 Hch) as (ch1 & Hch1 & Hs1 & _).
  destruct (pages_between_spec offset n ltac:(lia) ltac:(lia) ltac:(lia)) as (P1 & P2 & P3 & P4 & P5).
  destruct (whole_transfer offset n ltac:(lia) ltac:(lia) ltac:(lia)) as (W1 & W2).
  destruct (read_loop_spec (pages_between (PAGE_ALIGN_DOWN offset) (PAGE_ALIGN_UP (offset + n))) c f ch1 offset n st1 g1 (PAGE_ALIGN_DOWN offset) um buf 0 Hf)
    as (st2 & g2 & k & ret & E2 & Q2 & Hrd2 & Hwr2 & Hl2 & Hk & Hload & Hcs); try done; try lia; try apply Q1; [by rewrite pfn_down|].
  rewrite W1, W2 in *. rewrite E2. rewrite (quiet_bytes _ _ _ _ _ _ _ Q1). exists st2, g2, k. eexists. split; [done|].
  assert (Hz : forall e, (e = ENOMEM \/ e = EFAULT) -> (if (0 + k =? 0) && (- code e <? 0) then - code e else 0 + k) = if k =? 0 then - code e else k).
  { intros e He. pose proof (code_range e). rewrite Z.add_0_l, (proj2 (Z.ltb_lt (- code e) 0)) by lia. by rewrite andb_true_r. }
  conjs; try done; [by eapply quiet_trans|congruence|].
  destruct Hcs as [(-> & -> & He)|(-> & Hle & Hno)]; [left|right;right].
  - rewrite andb_false_r, Z.add_0_l. conjs; try done. intros q. by rewrite He, He1.
  - conjs; [apply Hz; by right|done].
Qed.

End files.

(** * Writing *)

Definition fixed ch : Z * bool * Z := (readers ch, writer ch, size ch).

(** A step after which the contents are [F]. *)
Record changes st g st' g' (F : Z -> Z -> list Z) : Prop := {
  cg_inv : inv st' g';
  cg_content : forall c i, content st' c i = F c i;
  cg_disk : disk st' = disk st;
  cg_fixed : fixed <$> caches st' = fixed <$> caches st;
  cg_keep : forall c i p, at_index st c i = Some p -> at_index st' c i = Some p;
  cg_dirty : dirty_inv st g -> dirty_inv st' g';
}.

Lemma meta_fixed (m m' : gmap Z cache) : meta <$> m' = meta <$> m -> fixed <$> m' = fixed <$> m.
Proof.
  intros E. apply map_eq. intros c. rewrite !lookup_fmap. assert (E' : (meta <$> m') !! c = (meta <$> m) !! c) by (by rewrite E).
  rewrite !lookup_fmap in E'. destruct (m' !! c) as [a|], (m !! c) as [b|]; cbn in *; try done.
  injection E' as E1 E2 E3 E4. unfold fixed. congruence.
Qed.

Lemma quiet_changes st g st' g' : quiet st g st' g' -> changes st g st' g' (content st).
Proof. intros []. constructor; try done. by apply meta_fixed. Qed.

Lemma changes_trans st1 g1 st2 g2 st3 g3 F F' : changes st1 g1 st2 g2 F -> changes st2 g2 st3 g3 F' -> changes st1 g1 st3 g3 F'.
Proof. intros [] []. constructor; try done; try congruence; eauto. Qed.

Lemma changes_quiet st1 g1 st2 g2 st3 g3 F : changes st1 g1 st2 g2 F -> quiet st2 g2 st3 g3 -> changes st1 g1 st3 g3 F.
Proof.
  intros C Q. pose proof (changes_trans _ _ _ _ _ _ _ _ C (quiet_changes _ _ _ _ Q)) as []. constructor; try done.
  intros c i. rewrite cg_content0. apply C.
Qed.

Lemma changes_cache st g st' g' F c ch : changes st g st' g' F -> caches st !! c = Some ch ->
  exists ch', caches st' !! c = Some ch' /\ size ch' = size ch /\ readers ch' = readers ch /\ writer ch' = writer ch.
Proof.
  intros C Hc. assert (E : (fixed <$> caches st') !! c = Some (fixed ch)) by (by rewrite (cg_fixed _ _ _ _ _ C), lookup_fmap, Hc).
  rewrite lookup_fmap in E. apply fmap_Some in E as (ch' & ? & [= ? ? ?]). eauto.
Qed.

(** The parts of a state that the invariant is about. *)
Lemma inv_same st st' g : infos st' = infos st -> pool st' = pool st -> pgs st' = pgs st -> generations st' = generations st ->
  base_generation st' = base_generation st -> current_generation st' = current_generation st -> disk st' = disk st -> inv st g -> inv st' g.
Proof.
  intros E1 E2 E3 E4 E5 E6 E7 []. assert (Ea : at_index st' = at_index st) by (unfold at_index; by rewrite E3).
  constructor; rewrite ?E1, ?E2, ?E4, ?E5, ?E6, ?Ea; try done.
  - intros p Hp. destruct (inv_member0 p Hp) as (pi & c & Ep & Ho). exists pi, c. rewrite E1. split; [done|].
    by eapply page_ok_frame.
  - intros c i. unfold disk_page. rewrite E7. apply inv_disk0.
Qed.

Lemma content_same st st' : infos st' = infos st -> pgs st' = pgs st -> disk st' = disk st -> forall c i, content st' c i = content st c i.
Proof. intros E1 E2 E3 c i. unfold content, page_content, disk_page, at_index. by rewrite E1, E2, E3. Qed.

Lemma pgs_insert (m : gmap Z cache) c ch ch' : m !! c = Some ch -> pages ch' = pages ch -> pages <$> <[c := ch']> m = pages <$> m.
Proof. intros E Hp. rewrite fmap_insert, Hp. apply insert_id. by rewrite lookup_fmap, E. Qed.

(** Marking a page dirty. *)
Definition marked (c p : Z) pi ch st : state :=
  let st := set_infos (<[p := set_flags (fun f => Z.lor f PAGE_FLAG_DIRTY) pi]> (infos st)) st in
  if is_dirty pi then st
  else
    let st := set_caches (<[c := set_dirty_count (dirty_count ch + 1) ch]> (caches st)) st in
    set_dirty (dirty_pages st + 1) (if dirty_count ch =? 0 then list_append c (dirty_caches st) else dirty_caches st) st.

Lemma mark_eval c p pi ch st : infos st !! p = Some pi -> caches st !! c = Some ch -> 0 <= dirty_count ch < 2 ^ 52 ->
  cache_mark_page_dirty c p st = Some (marked c p pi ch st).
Proof.
  intros Hp Hc Hb. unfold cache_mark_page_dirty, marked, is_dirty. rewrite Hp. cbv beta iota delta [mbind option_bind].
  rewrite (upd_spec _ _ _ _ Hp). destruct (has (flags pi) PAGE_FLAG_DIRTY); cbn [negb]; [done|].
  cbn [caches set_dirty set_infos]. rewrite Hc. erewrite upd_cache_spec by exact Hc. rewrite u64_small by (unfold is_u64; lia).
  by destruct (dirty_count ch =? 0).
Qed.

Lemma count_dirty_mark m l p pi pi' c c0 : NoDup l -> p ∈ l -> m !! p = Some pi -> private pi = Some c0 -> private pi' = Some c0 ->
  count_dirty (<[p := pi']> m) l c + (if decide (c = c0) then if is_dirty pi then 1 else 0 else 0) =
  count_dirty m l c + (if decide (c = c0) then if is_dirty pi' then 1 else 0 else 0).
Proof.
  intros Hnd Hp Hm H1 H2. apply elem_of_Permutation in Hp as [k Hk]. rewrite !(count_dirty_perm _ _ _ c Hk).
  rewrite Hk in Hnd. apply NoDup_cons in Hnd as [Hpk _].
  assert (Hrest : count_dirty (<[p := pi']> m) k c = count_dirty m k c).
  { unfold count_dirty. f_equal. apply filter_ext_in. intros q Hq. unfold dirty_of. rewrite lookup_insert_ne; [done|]. by intros ->. }
  assert (Hone : forall m' x, m' !! p = Some x -> private x = Some c0 ->
    count_dirty m' (p :: k) c = count_dirty m' k c + (if decide (c = c0) then if is_dirty x then 1 else 0 else 0)).
  { intros m' x Hx Hpx.
    assert (Hd : dirty_of m' c p = bool_decide (c = c0) && is_dirty x).
    { unfold dirty_of. rewrite Hx, Hpx. f_equal. apply bool_decide_ext. split; congruence. }
    unfold count_dirty. rewrite filter_cons. destruct (decide (Is_true (dirty_of m' c p))) as [Ht|Hf]; rewrite Hd in *;
      destruct (decide (c = c0)) as [->|Hne]; rewrite ?bool_decide_true, ?(bool_decide_false (c = c0)) in * by done; cbn in *;
      destruct (is_dirty x); cbn in *; rewrite ?lenZ_cons; try done; try lia. }
  rewrite (Hone (<[p := pi']> m) pi'), (Hone m pi), Hrest by (rewrite ?lookup_insert_eq; done). lia.
Qed.

Lemma count_dirty_bound st g c : inv st g -> 0 <= count_dirty (infos st) (all_pages g) c < 2 ^ 52.
Proof.
  intros I. split; [apply lenZ_nonneg|]. pose proof (inv_small _ _ I). unfold count_dirty, lenZ.
  pose proof (length_filter (fun p => Is_true (dirty_of (infos st) c p)) (all_pages g)).
  assert (length (all_pages g) <= base.size (infos st))%nat; [|lia].
  rewrite <- (size_dom (infos st)), <- (size_list_to_set (C := gset Z) (all_pages g)) by apply I.
  apply subseteq_size. intros p Hp. apply elem_of_list_to_set in Hp. destruct (inv_member _ _ I p Hp) as (pi & ? & E & _).
  by apply elem_of_dom_2 in E.
Qed.

Lemma marked_dirty_inv st g c p pi pi1 ch : inv st g -> dirty_inv st g -> infos st !! p = Some pi -> p ∈ all_pages g ->
  private pi = Some c -> private pi1 = Some c -> is_dirty pi1 = is_dirty pi -> caches st !! c = Some ch ->
  dirty_inv (marked c p pi1 ch (set_infos (<[p := pi1]> (infos st)) st)) g.
Proof.
  intros I [D1 D2 D3] Hp Hin Hpr Hpr1 Hd Hc. set (pi2 := set_flags (fun f => Z.lor f PAGE_FLAG_DIRTY) pi1).
  assert (Hd2 : is_dirty pi2 = true) by (unfold is_dirty, pi2; cbn; apply has_lor_same; done).
  assert (Hcnt : forall c', count_dirty (<[p := pi2]> (infos st)) (all_pages g) c' =
    count_dirty (infos st) (all_pages g) c' + (if decide (c' = c) then if is_dirty pi then 0 else 1 else 0)).
  { intros c'. pose proof (count_dirty_mark (infos st) _ p pi pi2 c' c (inv_nodup _ _ I) Hin Hp Hpr Hpr1) as E.
    rewrite Hd2 in E. destruct (decide (c' = c)), (is_dirty pi); lia. }
  unfold marked. rewrite Hd. fold pi2. cbn [infos set_infos]. rewrite insert_insert_eq. destruct (is_dirty pi) eqn:Ed.
  - constructor; cbn; try done. intros c' ch' Hc'. rewrite Hcnt, (D1 _ _ Hc'). destruct (decide _); lia.
  - constructor; cbn [infos caches dirty_caches set_infos set_caches set_dirty dirty_pages].
    + intros c' ch' Hc'. rewrite Hcnt. destruct (decide (c' = c)) as [->|Hne].
      * rewrite lookup_insert_eq in Hc'. injection Hc' as <-. cbn. rewrite (D1 _ _ Hc). lia.
      * rewrite lookup_insert_ne in Hc' by done. rewrite (D1 _ _ Hc'). lia.
    + intros c' ch' Hc'. pose proof (count_dirty_bound st g c I) as Hb. rewrite <- (D1 _ _ Hc) in Hb.
      destruct (decide (c' = c)) as [->|Hne].
      * rewrite lookup_insert_eq in Hc'. injection Hc' as <-. cbn. split; [lia|]. intros _.
        destruct (dirty_count ch =? 0) eqn:E0; zbool; [unfold list_append; set_solver|]. apply (D2 _ _ Hc). lia.
      * rewrite lookup_insert_ne in Hc' by done. rewrite <- (D2 _ _ Hc'). destruct (_ =? 0); [|done]. unfold list_append. set_solver.
    + destruct (dirty_count ch =? 0) eqn:E0; zbool; [|done]. unfold list_append. apply NoDup_app. split; [done|].
      split; [|apply NoDup_singleton]. intros x Hx ->%list_elem_of_singleton. apply (D2 _ _ Hc) in Hx. lia.
Qed.

Lemma write_page_spec st g c i p ps bs : inv st g -> dirty_inv st g -> rd g = [] -> at_index st c i = Some p -> 0 <= ps -> ps + lenZ bs <= PAGE_SIZE ->
  exists st', (st ← upd (fun pi => set_bytes (blit ps bs (bytes pi)) pi) p st; cache_mark_page_dirty c p st) = Some st' /\
    changes st g st' g (fun c' i' => if decide (c' = c /\ i' = i) then blit ps bs (content st c i) else content st c' i') /\ pool st' = pool st.
Proof.
  intros I D Hrd Hi Hps Hlen. destruct (inv_cached _ _ I _ _ _ Hi) as (Hin & pi & Ep & Hpr & Ho).
  destruct (content_cached _ _ _ _ _ I Hrd Hi) as (pi' & Ep' & Hct). assert (pi' = pi) as -> by congruence.
  assert (Hch : exists ch, caches st !! c = Some ch).
  { unfold at_index, pgs in Hi. rewrite lookup_fmap in Hi. destruct (caches st !! c); [eauto|done]. }
  destruct Hch as [ch Hch]. rewrite (upd_spec _ _ _ _ Ep). cbv beta iota delta [mbind option_bind].
  set (pi1 := set_bytes _ pi). set (st1 := set_infos _ st).
  pose proof (count_dirty_bound st g c I) as Hb. rewrite <- (di_count _ _ D _ _ Hch) in Hb.
  erewrite (mark_eval c p pi1 ch st1) by (try done; cbn; apply lookup_insert_eq).
  eexists. split; [done|]. set (st' := marked _ _ _ _ _). set (pi2 := set_flags (fun f => Z.lor f PAGE_FLAG_DIRTY) pi1).
  assert (Hinf : infos st' = <[p := pi2]> (infos st)).
  { unfold st', marked. cbn [infos set_infos st1]. fold pi2. destruct (is_dirty pi1); cbn; apply insert_insert_eq. }
  assert (Hpgs : pgs st' = pgs st).
  { unfold st', marked, pgs. destruct (is_dirty pi1); cbn; [done|]. by eapply pgs_insert. }
  assert (Hfix : fixed <$> caches st' = fixed <$> caches st).
  { unfold st', marked. destruct (is_dirty pi1); cbn; [done|]. rewrite fmap_insert. apply insert_id. by rewrite lookup_fmap, Hch. }
  assert (Hrest : pool st' = pool st /\ generations st' = generations st /\ base_generation st' = base_generation st /\
    current_generation st' = current_generation st /\ disk st' = disk st).
  { unfold st', marked. destruct (is_dirty pi1); done. }
  destruct Hrest as (R1 & R2 & R3 & R4 & R5). split; [|done].
  assert (I1 : inv (set_infos (<[p := pi2]> (infos st)) st) g).
  { eapply inv_page; try done.
    - unfold gen_of, pi2. cbn. by flag.
    - apply (inv_ext _ _ I).
    - intros c' _ []. assert (Hd : is_dirty pi2 = true) by (unfold is_dirty, pi2; cbn; by apply has_lor_same).
      constructor; try done; try (unfold pi2; cbn; by flag).
      + unfold pi2, pi1. cbn [bytes set_flags set_bytes]. by rewrite lenZ_blit.
      + rewrite Hd. done. }
  constructor.
  - by eapply inv_same; [..|exact I1].
  - intros c' i'. rewrite (content_same (set_infos (<[p := pi2]> (infos st)) st) st') by done. case_decide as Hci.
    + destruct Hci as [-> ->]. unfold content at 1. change (at_index (set_infos _ st)) with (at_index st). rewrite Hi. cbn [mbind option_bind infos set_infos].
      rewrite lookup_insert_eq. unfold page_content, pi2. cbn. flag.
      pose proof (inv_member _ _ I p Hin) as (pi3 & c3 & Ep3 & Ho3). assert (pi3 = pi) as -> by congruence.
      rewrite (po_reading _ _ _ _ _ Ho3), Hrd, bool_decide_false by apply not_elem_of_nil. by rewrite Hct.
    + unfold content. change (at_index (set_infos _ st)) with (at_index st). destruct (at_index st c' i') as [q|] eqn:E; [|done].
      cbn [mbind option_bind infos set_infos]. rewrite lookup_insert_ne; [done|]. intros ->. apply Hci.
      destruct (inv_cached _ _ I _ _ _ E) as (_ & pi4 & Ep4 & Hpr4 & Ho4). split; congruence.
  - done.
  - done.
  - intros c' i' q. unfold at_index. by rewrite Hpgs.
  - intros _. by eapply marked_dirty_inv.
Qed.

(** One page of a file with [bs] at [ps]. *)
Lemma byte_blit st st' g c addr ps bs : inv st g -> addr mod PAGE_SIZE = 0 -> 0 <= ps -> ps + lenZ bs <= PAGE_SIZE ->
  (forall c' i', content st' c' i' = if decide (c' = c /\ i' = PAGE2PFN addr) then blit ps bs (content st c (PAGE2PFN addr)) else content st c' i') ->
  forall c' x, byte st' c' x = if decide (c' = c /\ addr + ps <= x < addr + ps + lenZ bs) then nthZ 0 bs (x - (addr + ps)) else byte st c' x.
Proof.
  intros I Hm Hps Hlen Hc c' x. unfold byte. rewrite Hc. pose proof (content_length st g c (PAGE2PFN addr) I) as Hl.
  unfold PAGE2PFN in *. pose proof (lenZ_nonneg bs). pose proof (Z.mod_pos_bound x PAGE_SIZE ltac:(done)).
  destruct (decide (c' = c)) as [->|Hne]; [|rewrite !decide_False by tauto; done].
  destruct (decide (x / PAGE_SIZE = addr / PAGE_SIZE)) as [E|E].
  - rewrite decide_True by done. rewrite <- E in *.
    assert (Hx : x mod PAGE_SIZE = x - addr) by (unfold PAGE_SIZE in *; Z.div_mod_to_equations; lia).
    rewrite Hx in *. unfold nthZ. rewrite !nth_lookup. case_decide as Hin.
    + rewrite lookup_blit_in by lia. f_equal. f_equal. lia.
    + rewrite lookup_blit; [done|lia|]. destruct (Z_lt_le_dec x (addr + ps)); [lia|]. left. apply not_and_l in Hin. lia || (destruct (decide (addr + ps + lenZ bs <= x)); [lia|]; exfalso; naive_solver lia).
  - rewrite decide_False by tauto. rewrite decide_False; [done|]. intros [_ Hx]. apply E. unfold PAGE_SIZE in *. Z.div_mod_to_equations. lia.
Qed.

(** The bytes of the file [c] from [off] on are [bs], the others as before. *)
Definition written st st' (c off : Z) (bs : list Z) : Prop :=
  forall c' x, byte st' c' x = if decide (c' = c /\ off <= x < off + lenZ bs) then nthZ 0 bs (x - off) else byte st c' x.

Lemma written_nil st st' c off : (forall c' i, content st' c' i = content st c' i) -> written st st' c off [].
Proof. intros Hc c' x. unfold byte. rewrite Hc. rewrite decide_False; [done|]. change (lenZ (@nil Z)) with 0. lia. Qed.

Lemma written_app st1 st2 st3 c off bs bs' : written st1 st2 c off bs -> written st2 st3 c (off + lenZ bs) bs' -> written st1 st3 c off (bs ++ bs').
Proof.
  intros H1 H2 c' x. rewrite H2, H1, lenZ_app. pose proof (lenZ_nonneg bs). pose proof (lenZ_nonneg bs').
  destruct (decide (c' = c)) as [->|Hne]; [|rewrite !decide_False by tauto; done].
  unfold nthZ. rewrite !nth_lookup. unfold lenZ in *. destruct (decide (x < off)); [rewrite !decide_False by lia; done|].
  destruct (decide (x < off + Z.of_nat (length bs))).
  - rewrite decide_False by lia. rewrite !decide_True by lia. rewrite lookup_app_l by lia. done.
  - destruct (decide (x < off + Z.of_nat (length bs) + Z.of_nat (length bs'))).
    + rewrite !decide_True by lia. rewrite lookup_app_r by lia. f_equal. f_equal. lia.
    + rewrite !decide_False by lia. done.
Qed.

Lemma written_quiet st g st1 g1 st2 c off bs : quiet st g st1 g1 -> written st1 st2 c off bs -> written st st2 c off bs.
Proof. intros Q Hw c' x. rewrite Hw. case_decide; [done|]. unfold byte. by rewrite (qu_content _ _ _ _ Q). Qed.

Lemma written_same st1 st2 st3 c off bs : written st1 st2 c off bs -> (forall c' i, content st3 c' i = content st2 c' i) -> written st1 st3 c off bs.
Proof. intros Hw Hc c' x. rewrite <- Hw. unfold byte. by rewrite Hc. Qed.

(** A page of a write: the page is fetched, changed, marked and released. *)
Lemma put_page_spec st g st1 g1 c addr p ps bs : inv st g -> dirty_inv st g -> quiet st g st1 g1 ->
  at_index st1 c (PAGE2PFN addr) = Some p -> rd g1 = [] -> wr g1 = [] -> loc g1 = loc g ->
  (forall q, ext g1 q = ext g q + if decide (q = p) then 1 else 0) ->
  addr mod PAGE_SIZE = 0 -> 0 <= ps -> ps + lenZ bs <= PAGE_SIZE ->
  exists st2 st3 g3, (st ← upd (fun pi => set_bytes (blit ps bs (bytes pi)) pi) p st1; cache_mark_page_dirty c p st) = Some st2 /\
    pmm_release_page p st2 = Some st3 /\
    changes st g st3 g3 (content st3) /\ dirty_inv st3 g3 /\ rd g3 = [] /\ wr g3 = [] /\ loc g3 = loc g /\ (forall q, ext g3 q = ext g q) /\
    written st st3 c (addr + ps) bs.
Proof.
  intros I D Q Hat Hrd Hwr Hl He Hm Hps Hlen.
  destruct (write_page_spec st1 g1 c _ p ps bs (qu_inv _ _ _ _ Q) (qu_dirty _ _ _ _ Q D) Hrd Hat Hps Hlen) as (st2 & E2 & C & _).
  destruct (inv_cached _ _ (cg_inv _ _ _ _ _ C) c _ p (cg_keep _ _ _ _ _ C _ _ _ Hat)) as (Hin & _).
  destruct (release_spec st2 g1 p (cg_inv _ _ _ _ _ C) Hin) as (st3 & E3 & Q3 & _).
  { rewrite He, decide_True by done. pose proof (inv_ext _ _ I p). lia. }
  pose proof (changes_trans _ _ _ _ _ _ _ _ (changes_quiet _ _ _ _ _ _ _ (quiet_changes _ _ _ _ Q) (quiet_refl _ _ (qu_inv _ _ _ _ Q))) (changes_quiet _ _ _ _ _ _ _ C Q3)) as CC.
  exists st2, st3, (with_ext p (-1) g1). conjs; try done.
  - destruct CC. by constructor.
  - apply (cg_dirty _ _ _ _ _ CC D).
  - intros q. cbn. rewrite He. destruct (decide _); lia.
  - eapply written_quiet; [exact Q|]. eapply written_same; [|apply (qu_content _ _ _ _ Q3)].
    intros c0 x. apply (byte_blit st1 st2 g1 c addr ps bs); try done; [apply Q|]. intros c' i'. by rewrite (cg_content _ _ _ _ _ C).
Qed.

Lemma changes_self st g st' g' F : changes st g st' g' F -> changes st g st' g' (content st').
Proof. intros []. by constructor. Qed.

Section writes.
Context `{EC : ErrnoCodes} `{CO : CacheOps} `{CL : !CacheLaws}.

Lemma write_loop_spec n c f ch offset sz st g addr um buf total :
  op_read c = Some f -> inv st g -> dirty_inv st g -> rd g = [] -> wr g = [] -> caches st !! c = Some ch ->
  0 <= offset -> 0 <= sz -> offset + sz <= size ch -> size ch <= 2 ^ 54 ->
  addr mod PAGE_SIZE = 0 -> PAGE_ALIGN_DOWN offset <= addr -> addr + Z.of_nat n * PAGE_SIZE = PAGE_ALIGN_UP (offset + sz) -> all_cached st c (PAGE2PFN addr) n ->
  exists st' g' k ret bs,
    write_loop n c (PAGE_ALIGN_DOWN offset) (PAGE_ALIGN_UP (offset + sz)) offset sz addr um buf total st = Some (st', total + k, ret) /\
    changes st g st' g' (content st') /\ dirty_inv st' g' /\ rd g' = [] /\ wr g' = [] /\ loc g' = loc g /\ 0 <= k /\
    UserMem.load_bytes um buf k = Some bs /\ written st st' c (pos offset addr) bs /\
    ((ret = 0 /\ k = remaining n offset sz addr /\ forall q, ext g' q = ext g q) \/
     (ret = - code EFAULT /\ k < remaining n offset sz addr /\ stops um buf (pos offset addr) (offset + sz) k)).
Proof.
  intros Hf. revert st g ch addr buf total.
  induction n as [|n IH]; intros st g ch addr buf total I D Hrd Hwr Hch H1 H2 H3 H4 Hm Hlo Hhi Hall; cbn [write_loop].
  { exists st, g, 0, 0, []. rewrite Z.add_0_r, UserMem.load_bytes_nil by lia.
    conjs; try done; [by apply written_nil|left; by conjs]. }
  destruct (page_part offset sz addr H1 H2 ltac:(lia) Hm ltac:(unfold PAGE_SIZE in *; lia)) as (Eps & Epe & Hps & Hpe & Htop & Hcase & Hc1 & Hc2).
  destruct (page_align_up_spec (offset + sz) ltac:(lia)) as (_ & _ & Hmax).
  assert (Hd : 0 <= PAGE_ALIGN_DOWN offset) by (unfold PAGE_ALIGN_DOWN, PAGE_SIZE; Z.div_mod_to_equations; lia).
  destruct (get_page_spec c f ch st g addr Hf I Hrd Hwr Hch) as (st1 & r & -> & Hr).
  { pose proof (align_up_mono (offset + sz) (size ch) ltac:(lia) ltac:(lia)). unfold PAGE_SIZE in *; lia. }
  { unfold PAGE_SIZE in *; lia. }
  cbv beta iota delta [mbind option_bind]. set (ps := page_start _ _ _) in *. set (pe := page_end _ _ _ _) in *.
  rewrite (u64_small (pe - ps)) by (unfold is_u64, PAGE_SIZE in *; lia).
  assert (Hrem : remaining (S n) offset sz addr = (pe - ps) + remaining n offset sz (addr + PAGE_SIZE)).
  { unfold remaining. destruct n as [|n']; [rewrite Hc1 in Epe by (unfold PAGE_SIZE in *; lia); lia|].
    destruct Hc2 as [Hu Hp]; [unfold PAGE_SIZE in *; lia|]. rewrite Hp. rewrite Hu in Epe. lia. }
  assert (Hrem0 : 0 <= remaining n offset sz (addr + PAGE_SIZE)).
  { unfold remaining. destruct n as [|n']; [lia|]. destruct Hc2 as [Hu ->]; [unfold PAGE_SIZE in *; lia|]. unfold upto in Hu. lia. }
  destruct r as [p|e].
  2:{ destruct Hr as (_ & _ & _ & Hno). apply all_cached_S in Hall as [[p Hp] _]. congruence. }
  destruct Hr as (g1 & Q1 & Hat & Hrd1 & Hwr1 & Hl1 & He1). unfold UserMem.safe_copy_from.
  destruct (UserMem.load_bytes um buf (pe - ps)) as [bs|] eqn:Ecopy.
  - assert (Hn0 : 0 <= pe - ps) by lia. pose proof (UserMem.load_bytes_length _ _ _ _ Hn0 Ecopy) as Hbs.
    destruct (put_page_spec st g st1 g1 c addr p ps bs I D Q1 Hat Hrd1 Hwr1 Hl1 He1 Hm) as (st2 & st3 & g3 & E2 & E3 & C & D3 & Hrd3 & Hwr3 & Hl3 & He3 & Hw); [lia|lia|].
    cbv beta iota delta [mbind option_bind] in E2. destruct (upd _ p st1) as [s|]; [|done]. rewrite E2, E3.
    rewrite u64_small by (unfold is_u64, PAGE_SIZE in *; lia).
    destruct (changes_cache _ _ _ _ _ _ _ C Hch) as (ch3 & Hch3 & Hs3 & _).
    destruct (IH st3 g3 ch3 (addr + PAGE_SIZE) (buf + (pe - ps)) (total + (pe - ps)))
      as (st' & g' & k & ret & bs' & E & C' & D' & Hrd' & Hwr' & Hl' & Hk & Hlk & Hw' & Hcs); try done.
    { apply C. } { lia. } { lia. }
    { unfold PAGE_SIZE in *. Z.div_mod_to_equations. lia. } { unfold PAGE_SIZE; lia. } { unfold PAGE_SIZE in *; lia. }
    { rewrite pfn_next. eapply all_cached_keep; [|apply all_cached_S in Hall as [_ Hall]; exact Hall]. intros q j0. apply (cg_keep _ _ _ _ _ C). }
    exists st', g', ((pe - ps) + k), ret, (bs ++ bs'). rewrite E. conjs; try done.
    + by rewrite Z.add_assoc.
    + by eapply changes_trans.
    + congruence.
    + lia.
    + rewrite UserMem.load_bytes_add by lia. by rewrite Ecopy, Hlk.
    + replace (pos offset addr) with (addr + ps) by lia. destruct (decide (n = 0%nat)) as [->|Hn].
      * assert (k = 0) as -> by (cbn in Hcs; lia). rewrite UserMem.load_bytes_nil in Hlk by lia. injection Hlk as <-. rewrite app_nil_r.
        cbn in E. injection E as <- _ _. done.
      * eapply written_app; [exact Hw|]. destruct Hc2 as [Hu Hn']; [unfold PAGE_SIZE in *; lia|]. rewrite Hn' in Hw'.
        rewrite Hu in Epe. replace (addr + ps + lenZ bs) with (addr + PAGE_SIZE) by lia. done.
    + rewrite Hrem. destruct Hcs as [(-> & -> & He)|(-> & Hle & Hno)].
      * left. conjs; try done. intros q. by rewrite He.
      * right. conjs; try done; [lia|]. destruct (decide (n = 0%nat)) as [->|Hn]; [cbn in Hle; lia|].
        destruct Hc2 as [Hu Hn']; [unfold PAGE_SIZE in *; lia|]. rewrite Hn' in Hno. rewrite Hu in Epe.
        replace (pe - ps) with (addr + PAGE_SIZE - pos offset addr) in * by lia.
        eapply (stops_next um um); [lia| |by eexists|done|exact Hno]. unfold PAGE_SIZE in *. Z.div_mod_to_equations. lia.
  - exists st1, g1, 0, (- code EFAULT), []. rewrite Z.add_0_r, UserMem.load_bytes_nil by lia.
    assert (Hst : stops um buf (pos offset addr) (offset + sz) 0).
    { apply stops_here; try done. by replace (upto offset sz addr - pos offset addr) with (pe - ps) by lia. }
    conjs; try done; [by apply (changes_self _ _ _ _ (content st)), quiet_changes|by apply (qu_dirty _ _ _ _ Q1)|apply written_nil, (qu_content _ _ _ _ Q1)|].
    right. conjs; try done. unfold remaining. destruct Hst as (? & _). lia.
Qed.

Lemma raw_write_spec c f ch st g um buf offset sz : op_read c = Some f -> inv st g -> dirty_inv st g -> rd g = [] -> wr g = [] ->
  caches st !! c = Some ch -> 0 <= offset -> 0 <= sz -> offset + sz < 2 ^ 64 -> size ch <= 2 ^ 54 ->
  exists st' g' k ret bs, cache_raw_write c um buf offset sz st = Some (st', ret) /\
    changes st g st' g' (content st') /\ dirty_inv st' g' /\ rd g' = [] /\ wr g' = [] /\ loc g' = loc g /\
    UserMem.load_bytes um buf k = Some bs /\ written st st' c offset bs /\
    ends st g g' c um buf offset (available ch offset sz) k ret.
Proof.
  intros Hf I D Hrd Hwr Hch H1 H2 Hov H3. unfold cache_raw_write. rewrite Hch. cbv beta iota delta [mbind option_bind].
  destruct (size ch <=? offset) eqn:E; zbool.
  { exists st, g, 0, 0, []. rewrite UserMem.load_bytes_nil by lia. assert (available ch offset sz = 0) by (unfold available; lia).
    conjs; try done; [by apply written_nil|]. left. by conjs. }
  assert (Hclip : (if size ch <? offset +! sz then size ch -! offset else sz) = available ch offset sz).
  { unfold available. rewrite !u64_small by (unfold is_u64; lia). destruct (_ <? _) eqn:E'; zbool; lia. }
  rewrite Hclip. set (n := available ch offset sz) in *. assert (Hn : 0 <= n /\ offset + n <= size ch) by (unfold n, available; lia).
  destruct (preload_spec c f ch st g offset n Hf I Hrd Hwr Hch) as (st1 & ret & g1 & -> & Q1 & Hrd1 & Hwr1 & Hl1 & He1 & Hret); [lia..|].
  pose proof (code_range ENOMEM) as Hcode. pose proof (code_range EFAULT) as Hcode'. destruct Hret as [(-> & Hall)|(-> & Hmiss)].
  2:{ rewrite (proj2 (Z.ltb_lt _ _)) by lia. exists st1, g1, 0, (- code ENOMEM), []. rewrite UserMem.load_bytes_nil by lia.
      conjs; try done; [by apply (changes_self _ _ _ _ (content st)), quiet_changes|by apply (qu_dirty _ _ _ _ Q1)|apply written_nil, (qu_content _ _ _ _ Q1)|].
      right. left. by conjs. }
  cbn [Z.ltb Z.compare]. rewrite range_spec by lia. destruct (quiet_cache _ _ _ _ _ _ Q1 Hch) as (ch1 & Hch1 & Hs1 & _).
  destruct (pages_between_spec offset n ltac:(lia) ltac:(lia) ltac:(lia)) as (P1 & P2 & P3 & P4 & P5).
  destruct (whole_transfer offset n ltac:(lia) ltac:(lia) ltac:(lia)) as (W1 & W2).
  destruct (write_loop_spec (pages_between (PAGE_ALIGN_DOWN offset) (PAGE_ALIGN_UP (offset + n))) c f ch1 offset n st1 g1 (PAGE_ALIGN_DOWN offset) um buf 0 Hf)
    as (st2 & g2 & k & ret & bs & E2 & C2 & D2 & Hrd2 & Hwr2 & Hl2 & Hk & Hload & Hw & Hcs); try done; try lia; try apply (qu_inv _ _ _ _ Q1); try (by apply (qu_dirty _ _ _ _ Q1)); [by rewrite pfn_down|].
  rewrite W1, W2 in *. rewrite E2. exists st2, g2, k. eexists _, bs. split; [done|].
  assert (Hz : forall e, (if (0 + k =? 0) && (- code e <? 0) then - code e else 0 + k) = if k =? 0 then - code e else k).
  { intros e. pose proof (code_range e). rewrite Z.add_0_l, (proj2 (Z.ltb_lt (- code e) 0)) by lia. by rewrite andb_true_r. }
  conjs; try done; [eapply changes_trans; [by apply quiet_changes|exact C2]|congruence|by eapply written_quiet|].
  destruct Hcs as [(-> & -> & He)|(-> & Hle & Hno)]; [left|right;right].
  - rewrite andb_false_r, Z.add_0_l. conjs; try done. intros q. by rewrite He, He1.
  - conjs; [apply Hz|done].
Qed.

(** ** The lock of a cache *)

Lemma set_lock_spec st g c ch r w : inv st g -> caches st !! c = Some ch ->
  let st' := set_caches (<[c := set_lock r w ch]> (caches st)) st in
  inv st' g /\ (forall c i, content st' c i = content st c i) /\ (dirty_inv st g -> dirty_inv st' g) /\ at_index st' = at_index st.
Proof.
  intros I Hc st'. assert (Hp : pgs st' = pgs st) by (by eapply pgs_insert). conjs.
  - by eapply inv_same; [..|exact I].
  - by apply content_same.
  - intros []. constructor; try done.
    + intros c' ch'. cbn. destruct (decide (c' = c)) as [->|Hne].
      * rewrite lookup_insert_eq. intros [= <-]. exact (di_count0 c ch Hc).
      * rewrite lookup_insert_ne by done. apply di_count0.
    + intros c' ch'. cbn. destruct (decide (c' = c)) as [->|Hne].
      * rewrite lookup_insert_eq. intros [= <-]. exact (di_list0 c ch Hc).
      * rewrite lookup_insert_ne by done. apply di_list0.
  - unfold at_index. by rewrite Hp.
Qed.

Lemma acquire_read_spec st g c ch : inv st g -> caches st !! c = Some ch -> writer ch = false ->
  exists st', rwsem_acquire_read c st = Some st' /\ caches st' = <[c := set_lock (readers ch + 1) false ch]> (caches st) /\ inv st' g /\
    (forall c i, content st' c i = content st c i) /\ (dirty_inv st g -> dirty_inv st' g) /\ at_index st' = at_index st /\ disk st' = disk st /\ pool st' = pool st.
Proof.
  intros I Hc Hw. unfold rwsem_acquire_read. rewrite Hc. cbv beta iota delta [mbind option_bind]. rewrite Hw.
  rewrite (upd_cache_spec _ _ _ _ Hc). eexists. split; [done|]. split; [done|].
  destruct (set_lock_spec st g c ch (readers ch + 1) false I Hc) as (? & ? & ? & ?). by conjs.
Qed.

Lemma ends_same st st1 g g' c um buf offset n k ret : at_index st1 = at_index st -> pool st1 = pool st ->
  ends st1 g g' c um buf offset n k ret -> ends st g g' c um buf offset n k ret.
Proof. intros Ha Hp. unfold ends, missing. by rewrite Ha, Hp. Qed.

Lemma release_read_spec st g c ch : inv st g -> caches st !! c = Some ch ->
  exists st', rwsem_release_read c st = Some st' /\ caches st' = <[c := set_lock (readers ch - 1) (writer ch) ch]> (caches st) /\ inv st' g /\
    (forall c i, content st' c i = content st c i) /\ (dirty_inv st g -> dirty_inv st' g) /\ at_index st' = at_index st /\ disk st' = disk st.
Proof.
  intros I Hc. unfold rwsem_release_read. rewrite Hc. cbv beta iota delta [mbind option_bind].
  rewrite (upd_cache_spec _ _ _ _ Hc). eexists. split; [done|]. split; [done|].
  destruct (set_lock_spec st g c ch (readers ch - 1) (writer ch) I Hc) as (? & ? & ? & ?). by conjs.
Qed.

(** Around an operation, taking and giving back the lock leaves the caches as the operation does. *)
Lemma lock_bracket (m m1 m2 : gmap Z cache) c ch ch2 : m !! c = Some ch -> writer ch = false -> m1 = <[c := set_lock (readers ch + 1) false ch]> m ->
  fixed <$> m2 = fixed <$> m1 -> m2 !! c = Some ch2 ->
  fixed <$> <[c := set_lock (readers ch2 - 1) (writer ch2) ch2]> m2 = fixed <$> m.
Proof.
  intros Hc Hw -> Hm Hc2. assert (E : (fixed <$> m2) !! c = (fixed <$> <[c := set_lock (readers ch + 1) false ch]> m) !! c) by (by rewrite Hm).
  rewrite !lookup_fmap, lookup_insert_eq, Hc2 in E. injection E as E1 E2 E3.
  rewrite fmap_insert, Hm, fmap_insert, insert_insert_eq. apply insert_id. rewrite lookup_fmap, Hc. cbn. unfold fixed. cbn.
  rewrite E1, E2, E3, Hw. do 3 f_equal. lia.
Qed.
End writes.

(** * The theorems *)

(** The state between two operations: nothing is in flight and no page is taken for eviction. *)
Record sound st g : Prop := {
  so_inv : inv st g;
  so_dirty : dirty_inv st g;
  so_rd : rd g = [];
  so_wr : wr g = [];
  so_loc : loc g = [];
}.

Section theorems.
Context `{EC : ErrnoCodes} `{CO : CacheOps} `{CL : !CacheLaws}.

Lemma read_spec c f ch st g um buf offset sz :
  op_read c = Some f -> sound st g -> caches st !! c = Some ch -> writer ch = false -> 0 <= offset -> 0 <= sz -> size ch <= 2 ^ 54 ->
  exists st' g' k ret, cache_read c um buf offset sz st = Some (st', UserMem.poke um buf (file_bytes st c offset k), ret) /\
    sound st' g' /\ (forall c i, content st' c i = content st c i) /\ disk st' = disk st /\ fixed <$> caches st' = fixed <$> caches st /\
    is_Some (UserMem.load_bytes um buf k) /\ ends st g g' c um buf offset (available ch offset sz) k ret.
Proof.
  intros Hf [I D Hrd Hwr Hloc] Hch Hw H1 H2 H3. unfold cache_read.
  destruct (acquire_read_spec st g c ch I Hch Hw) as (st1 & -> & Hc1 & I1 & Hct1 & D1 & Ha1 & Hd1 & Hp1). cbv beta iota delta [mbind option_bind].
  assert (Hch1 : caches st1 !! c = Some (set_lock (readers ch + 1) false ch)) by (rewrite Hc1; apply lookup_insert_eq).
  destruct (raw_read_spec c f _ st1 g um buf offset sz Hf I1 Hrd Hwr Hch1 H1 H2 H3) as (st2 & g2 & k & ret & -> & Q & Hrd2 & Hwr2 & Hl2 & Hload & He).
  destruct (quiet_cache _ _ _ _ _ _ Q Hch1) as (ch2 & Hch2 & _).
  destruct (release_read_spec st2 g2 c ch2 (qu_inv _ _ _ _ Q) Hch2) as (st3 & -> & Hc3 & I3 & Hct3 & D3 & Ha3 & Hd3).
  assert (Hfb : file_bytes st1 c offset k = file_bytes st c offset k).
  { unfold file_bytes. apply list_fmap_ext. intros i x _. unfold byte. by rewrite Hct1. }
  rewrite Hfb. exists st3, g2, k, ret. split; [done|]. split; [|conjs; try done].
  - constructor; try done; [|congruence]. apply D3. by apply (qu_dirty _ _ _ _ Q), D1.
  - intros c' i. by rewrite Hct3, (qu_content _ _ _ _ Q), Hct1.
  - by rewrite Hd3, (qu_disk _ _ _ _ Q), Hd1.
  - rewrite Hc3. eapply lock_bracket; try done. by apply meta_fixed, (qu_meta _ _ _ _ Q).
  - by apply (ends_same st st1).
Qed.

Lemma write_spec c f ch st g um buf offset sz :
  op_read c = Some f -> sound st g -> caches st !! c = Some ch -> writer ch = false -> 0 <= offset -> 0 <= sz -> offset + sz < 2 ^ 64 -> size ch <= 2 ^ 54 ->
  exists st' g' k ret bs, cache_write c um buf offset sz st = Some (st', ret) /\
    sound st' g' /\ UserMem.load_bytes um buf k = Some bs /\ written st st' c offset bs /\ disk st' = disk st /\ fixed <$> caches st' = fixed <$> caches st /\
    ends st g g' c um buf offset (available ch offset sz) k ret.
Proof.
  intros Hf [I D Hrd Hwr Hloc] Hch Hw H1 H2 Hov H3. unfold cache_write.
  destruct (acquire_read_spec st g c ch I Hch Hw) as (st1 & -> & Hc1 & I1 & Hct1 & D1 & Ha1 & Hd1 & Hp1). cbv beta iota delta [mbind option_bind].
  assert (Hch1 : caches st1 !! c = Some (set_lock (readers ch + 1) false ch)) by (rewrite Hc1; apply lookup_insert_eq).
  destruct (raw_write_spec c f _ st1 g um buf offset sz Hf I1 (D1 D) Hrd Hwr Hch1 H1 H2 Hov H3) as (st2 & g2 & k & ret & bs & -> & C & D2 & Hrd2 & Hwr2 & Hl2 & Hload & Hwri & He).
  destruct (changes_cache _ _ _ _ _ _ _ C Hch1) as (ch2 & Hch2 & _).
  destruct (release_read_spec st2 g2 c ch2 (cg_inv _ _ _ _ _ C) Hch2) as (st3 & -> & Hc3 & I3 & Hct3 & D3 & Ha3 & Hd3).
  exists st3, g2, k, ret, bs. split; [done|]. split; [|conjs; try done].
  - constructor; try done; [|congruence]. by apply D3.
  - intros c' x. transitivity (byte st2 c' x); [unfold byte; by rewrite Hct3|]. rewrite Hwri. case_decide; [done|]. unfold byte. by rewrite Hct1.
  - by rewrite Hd3, (cg_disk _ _ _ _ _ C), Hd1.
  - rewrite Hc3. eapply lock_bracket; try done. apply C.
  - by apply (ends_same st st1).
Qed.

(** C9: a read through the cache.  Hypotheses: the state is sound (pages, generations, counts and the dirty pages are
    consistent, nothing is in flight), nobody holds the lock of the cache for writing, the file is at most 2^54 bytes
    long, and the driver of the cache reads what the device holds and never fails ([CacheLaws]; when it does fail,
    the kernel panics).  Then the read returns.  Its length is that of the request cut at the end of the file, and
    the caller's buffer receives the bytes of the file from the offset on, whatever part of them is cached.
    Less comes back in two cases only: -ENOMEM and nothing copied when more pages of the range are not cached than
    are free; and, when the buffer is not mapped, the bytes in front of the first page whose part of the buffer is
    not -- that count, or -EFAULT if there are none.  No file, device or size changes, the lock is given back, and
    the state is sound again. *)
Theorem cache_read_correct c f ch st g um buf offset sz :
  op_read c = Some f -> sound st g -> caches st !! c = Some ch -> writer ch = false -> 0 <= offset -> 0 <= sz -> size ch <= 2 ^ 54 ->
  exists st' g' k ret, cache_read c um buf offset sz st = Some (st', UserMem.poke um buf (file_bytes st c offset k), ret) /\
    sound st' g' /\ (forall c i, content st' c i = content st c i) /\ disk st' = disk st /\ fixed <$> caches st' = fixed <$> caches st /\
    is_Some (UserMem.load_bytes um buf k) /\ ends st g g' c um buf offset (available ch offset sz) k ret.
Proof. apply read_spec. Qed.

End theorems.

(** ** A device, and a cache without pages *)

Definition ex_code (e : errno) : Z := match e with EINVAL => 22 | ENOMEM => 12 | EFAULT => 14 | _ => 95 end.

Lemma ex_code_range e : 0 < ex_code e < 2 ^ 12.
Proof. destruct e; cbn; lia. Qed.

#[local] Instance ex_codes : ErrnoCodes := {| code := ex_code; code_range := ex_code_range |}.

#[local] Instance ram_ops : CacheOps := {
  op_read c := Some (fun batch st => st ← cache_read_terminate c batch 0 (load_pages c batch st); Some (st, 0));
  op_write c := Some (fun batch st => st ← cache_write_terminate c batch 0 (store_pages c batch st); Some (st, 0));
}.

#[local] Instance ram_laws : CacheLaws.
Proof. split; intros c f batch st [= <-]; done. Defined.

Definition free_page_info : page := mk_page 0 PAGE_FLAG_USABLE None 0 0 0 zero_page.

(** A cache of 10000 bytes over a device that holds 7 everywhere in its second page. *)
Definition ex_state : state :=
  mk_state {[ 0x1000 := free_page_info; 0x2000 := free_page_info; 0x3000 := free_page_info; 0x4000 := free_page_info ]}
    [0x1000; 0x2000; 0x3000; 0x4000] [1] {[ 1 := mk_cache 0 ∅ 0 false 10000 ]} 0 [] 0 3 (replicate 4 no_pages)
    {[ (1, 1) := replicate (Z.to_nat PAGE_SIZE) 7 ]}.

Definition ex_ghost : ghost := mk_ghost (replicate 4 []) [] [] [] (fun _ => 0).

Lemma ex_cache_sound : sound ex_state ex_ghost.
Proof.
  assert (Ha : forall c i, at_index ex_state c i = None).
  { intros c i. unfold at_index, pgs. rewrite lookup_fmap. cbn [caches ex_state]. destruct (decide (c = 1)) as [->|Hne].
    - rewrite lookup_singleton_eq. cbn. apply lookup_empty.
    - rewrite lookup_singleton_ne by congruence. done. }
  assert (Hg : forall n l, replicate 4 (@nil Z) !! n = Some l -> l = []).
  { intros n l Hn. by apply lookup_replicate in Hn as [-> _]. }
  constructor; try done.
  - constructor; try done.
    + vm_compute. repeat constructor; rewrite ?list_elem_of_In; cbn; lia.
    + intros p Hp. assert (Hin : p = 0x1000 \/ p = 0x2000 \/ p = 0x3000 \/ p = 0x4000) by (cbn in Hp; set_solver).
      split; [destruct Hin as [->|[->|[->| ->]]]; split; [lia|done|lia|done|lia|done|lia|done]|].
      split; [set_solver|]. split; [done|]. exists free_page_info. split; [|reflexivity].
      destruct Hin as [->|[->|[->| ->]]]; reflexivity.
    + constructor.
    + intros n l pl Hn Hpl. apply Hg in Hn as ->. change (generations ex_state) with (replicate 4 no_pages) in Hpl. apply lookup_replicate in Hpl as [-> _]. done.
    + intros n l p Hn Hp. apply Hg in Hn as ->. by apply elem_of_nil in Hp.
    + intros p Hp. cbn in Hp. by apply elem_of_nil in Hp.
    + intros c i p Hp. by rewrite Ha in Hp.
    + intros c i. unfold disk_page. cbn [disk ex_state]. destruct (decide ((c, i) = (1, 1))) as [->|Hne].
      * rewrite lookup_singleton_eq. reflexivity.
      * rewrite lookup_singleton_ne by congruence. reflexivity.
  - constructor; cbn [caches dirty_caches ex_state]; try constructor.
    + intros c ch Hc. apply lookup_singleton_Some in Hc as [<- <-]. done.
    + intros Hin. by apply elem_of_nil in Hin.
    + apply lookup_singleton_Some in H as [<- <-]. cbn. lia.
Qed.

Definition ex_um : gmap Z Z := list_to_map ((fun i => (0x500 + i, 65 + i)) <$> seqZ 0 8).

Lemma cache_read_correct_witness :
  exists st' g' k ret, cache_read 1 ex_um 0x500 4093 6 ex_state = Some (st', UserMem.poke ex_um 0x500 (file_bytes ex_state 1 4093 k), ret) /\ sound st' g'.
Proof.
  destruct (@cache_read_correct ex_codes ram_ops ram_laws 1 _ (mk_cache 0 ∅ 0 false 10000) ex_state ex_ghost ex_um 0x500 4093 6 eq_refl ex_cache_sound)
    as (st' & g' & k & ret & E & Hs & _); try reflexivity; try lia; try (cbn; lia).
  exists st', g', k, ret. split; [exact E|exact Hs].
Defined.


(** A write over the border of two pages and the read of it. *)
Example write_then_read :
  (r ← cache_write 1 ex_um 0x500 4093 6 ex_state;
   r' ← cache_read 1 ∅ 0x500 4093 0 r.1;
   r'' ← cache_read 1 (list_to_map ((fun i => (0x900 + i, 0)) <$> seqZ 0 8)) 0x900 4092 8 r.1;
   bs ← UserMem.load_bytes r''.1.2 0x900 8;
   Some (r.2, r'.2, r''.2, bs, dirty_pages r.1, dirty_caches r.1)) =
  Some (6, 0, 8, [0; 65; 66; 67; 68; 69; 70; 7], 2, [1]).
Proof. vm_compute. reflexivity. Qed.

End CacheFile.
