(* ===== verification/CacheBack.v ===== *)
(** Writing the page cache back to the device, and changing the size of a file.  The loops over the
    cached pages of a range, batches of pages that are being written, and what [cache_flush] leaves on
    the device. *)

From S2P Require Import Prelude XArray Cache CacheInv CacheFile.

Module CacheBack.
Import Cache CacheInv CacheFile.
Implicit Types (st : state) (pi : page) (g : ghost).

(** * The pages of an array in order *)

Lemma first_from_spec (m : gmap Z Z) from :
  match xarray_first_from m from with
  | Some (i, p) => m !! i = Some p /\ from <= i /\ forall j, from <= j < i -> m !! j = None
  | None => forall j, from <= j -> m !! j = None
  end.
Proof.
  unfold xarray_first_from.
  apply (map_fold_weak_ind (fun best m => match best with
    | Some (i, p) => m !! i = Some p /\ from <= i /\ forall j, from <= j < i -> m !! j = None
    | None => forall j, from <= j -> m !! j = None
    end)).
  - intros j _. apply lookup_empty.
  - intros i p m' best Hi IH. destruct (i <? from) eqn:E; zbool.
    + destruct best as [[j q]|].
      * destruct IH as (? & ? & Hlt). rewrite lookup_insert_ne by lia. conjs; try done. intros k Hk. rewrite lookup_insert_ne by lia. by apply Hlt.
      * intros j Hj. rewrite lookup_insert_ne by lia. by apply IH.
    + destruct best as [[j q]|].
      * destruct IH as (Hj & ? & Hlt). assert (i <> j) by congruence. destruct (i <? j) eqn:E'; zbool.
        -- rewrite lookup_insert_eq. conjs; try done. intros k Hk. rewrite lookup_insert_ne by lia. apply Hlt. lia.
        -- rewrite lookup_insert_ne by done. conjs; try done. intros k Hk. rewrite lookup_insert_ne by lia. by apply Hlt.
      * rewrite lookup_insert_eq. conjs; try done. intros k Hk. rewrite lookup_insert_ne by lia. apply IH. lia.
Qed.

(** The number of indices from [from] on. *)
Definition left_from (m : gmap Z Z) (from : Z) : nat := base.size (filter (fun kv => from <= kv.1) m).

Lemma left_from_step (m : gmap Z Z) from i p : m !! i = Some p -> from <= i -> (left_from m (i + 1) < left_from m from)%nat.
Proof.
  intros Hi Hf. unfold left_from.
  assert (E : filter (fun kv : Z * Z => i + 1 <= kv.1) m ⊆ delete i (filter (fun kv => from <= kv.1) m)).
  { apply map_subseteq_spec. intros j q Hj. apply map_lookup_filter_Some in Hj as [Hj Hlt]. cbn in Hlt.
    rewrite lookup_delete_ne by lia. apply map_lookup_filter_Some. cbn. split; [done|lia]. }
  apply map_subseteq_size in E.
  assert (H : is_Some (filter (fun kv : Z * Z => from <= kv.1) m !! i)).
  { exists p. apply map_lookup_filter_Some. by split. }
  rewrite (map_size_delete_Some _ _ H) in E. pose proof (map_size_ne_0_lookup_2 _ _ H). lia.
Qed.

Lemma left_from_size (m : gmap Z Z) from : (left_from m from <= base.size m)%nat.
Proof. apply map_subseteq_size, map_filter_subseteq. Qed.

(** * Pages that become clean *)

Lemma unlink_spec c l : NoDup l -> c ∈ l -> exists l', list_remove c l = Some l' /\ NoDup l' /\ forall x, x ∈ l' <-> x ∈ l /\ x <> c.
Proof.
  induction l as [|y l IH]; intros Hnd Hin; [by apply elem_of_nil in Hin|]. apply NoDup_cons in Hnd as [Hy Hnd]. cbn.
  destruct (y =? c) eqn:E; zbool.
  - subst y. exists l. split; [done|]. split; [done|]. intros x. rewrite elem_of_cons. split; [intros Hx; split; [by right|]|tauto].
    by intros ->.
  - destruct IH as (l' & -> & Hnd' & Hl'); [done|set_solver|]. cbn. exists (y :: l'). split; [done|].
    split; [apply NoDup_cons; split; [rewrite Hl'; tauto|done]|]. intros x. rewrite !elem_of_cons, Hl'. naive_solver.
Qed.

Lemma ldiff_none f m : Z.land f m = 0 -> Z.ldiff f m = f.
Proof.
  intros E. apply Z.bits_inj'. intros n Hn. rewrite Z.ldiff_spec.
  assert (Hb : Z.testbit (Z.land f m) n = false) by (rewrite E; apply Z.bits_0). rewrite Z.land_spec in Hb.
  destruct (Z.testbit f n), (Z.testbit m n); done.
Qed.

Lemma clear_clean c p pi st : infos st !! p = Some pi -> is_dirty pi = false -> cache_clear_page_dirty c p st = Some (st, false).
Proof.
  intros Hp Hd. unfold cache_clear_page_dirty. rewrite Hp. cbv beta iota delta [mbind option_bind]. rewrite (upd_spec _ _ _ _ Hp).
  unfold is_dirty in Hd. rewrite Hd.
  assert (E : set_flags (fun f => Z.ldiff f PAGE_FLAG_DIRTY) pi = pi).
  { destruct pi. unfold set_flags. cbn in *. rewrite ldiff_none by (by apply has_false). done. }
  rewrite E, insert_id by done. by destruct st.
Qed.

Lemma clear_dirty c p pi ch st : infos st !! p = Some pi -> is_dirty pi = true -> caches st !! c = Some ch -> 0 < dirty_count ch < 2 ^ 52 ->
  c ∈ dirty_caches st -> NoDup (dirty_caches st) ->
  exists l, cache_clear_page_dirty c p st =
    Some (set_dirty (dirty_pages st - 1) l (set_caches (<[c := set_dirty_count (dirty_count ch - 1) ch]> (caches st))
            (set_infos (<[p := set_flags (fun f => Z.ldiff f PAGE_FLAG_DIRTY) pi]> (infos st)) st)), true) /\
    NoDup l /\ forall x, x ∈ l <-> x ∈ dirty_caches st /\ (x = c -> dirty_count ch <> 1).
Proof.
  intros Hp Hd Hc Hb Hin Hnd. unfold cache_clear_page_dirty. rewrite Hp. cbv beta iota delta [mbind option_bind]. rewrite (upd_spec _ _ _ _ Hp).
  unfold is_dirty in Hd. rewrite Hd. cbn [caches set_dirty set_infos]. rewrite Hc. erewrite upd_cache_spec by exact Hc.
  rewrite u64_small by (unfold is_u64; lia). cbn [dirty_caches set_dirty set_caches set_infos].
  destruct (dirty_count ch =? 1) eqn:E; zbool.
  - destruct (unlink_spec c _ Hnd Hin) as (l & -> & Hl & Hx). exists l. split; [done|]. split; [done|].
    intros x. rewrite Hx. naive_solver.
  - exists (dirty_caches st). split; [done|]. split; [done|]. intros x. split; [intros ?; split; [done|]; intros _; lia|tauto].
Qed.

(** The counts after a page of the cache [c] has become clean. *)
Lemma cleared_dirty_inv st st' g c p pi pi' ch l : inv st g -> dirty_inv st g -> infos st !! p = Some pi -> p ∈ all_pages g ->
  private pi = Some c -> private pi' = Some c -> is_dirty pi = true -> is_dirty pi' = false -> caches st !! c = Some ch ->
  infos st' = <[p := pi']> (infos st) -> caches st' = <[c := set_dirty_count (dirty_count ch - 1) ch]> (caches st) ->
  dirty_caches st' = l -> NoDup l -> (forall x, x ∈ l <-> x ∈ dirty_caches st /\ (x = c -> dirty_count ch <> 1)) -> dirty_inv st' g.
Proof.
  intros I [D1 D2 D3] Hp Hin Hpr Hpr' Hd Hd' Hc Ei Ec El Hnd Hl.
  assert (Hcnt : forall c', count_dirty (infos st') (all_pages g) c' =
    count_dirty (infos st) (all_pages g) c' - (if decide (c' = c) then 1 else 0)).
  { intros c'. rewrite Ei. pose proof (count_dirty_mark (infos st) _ p pi pi' c' c (inv_nodup _ _ I) Hin Hp Hpr Hpr') as E.
    rewrite Hd, Hd' in E. destruct (decide (c' = c)); lia. }
  constructor; rewrite ?El; try done.
  - intros c' ch' Hc'. rewrite Hcnt. rewrite Ec in Hc'. destruct (decide (c' = c)) as [->|Hne].
    + rewrite lookup_insert_eq in Hc'. injection Hc' as <-. cbn. by rewrite (D1 _ _ Hc).
    + rewrite lookup_insert_ne in Hc' by done. rewrite (D1 _ _ Hc'). lia.
  - intros c' ch' Hc'. rewrite Hl. rewrite Ec in Hc'. destruct (decide (c' = c)) as [->|Hne].
    + rewrite lookup_insert_eq in Hc'. injection Hc' as <-. cbn. rewrite (D2 _ _ Hc). split; [intros [? Hx]; specialize (Hx eq_refl); lia|lia].
    + rewrite lookup_insert_ne in Hc' by done. rewrite <- (D2 _ _ Hc'). tauto.
Qed.

Lemma dirty_counted st g c p pi ch : inv st g -> dirty_inv st g -> infos st !! p = Some pi -> p ∈ all_pages g -> private pi = Some c ->
  is_dirty pi = true -> caches st !! c = Some ch -> 0 < dirty_count ch < 2 ^ 52 /\ c ∈ dirty_caches st.
Proof.
  intros I D Hp Hin Hpr Hd Hc. pose proof (count_dirty_bound st g c I) as Hb. rewrite <- (di_count _ _ D _ _ Hc) in Hb.
  assert (Hpos : 0 < dirty_count ch).
  { rewrite (di_count _ _ D _ _ Hc). unfold count_dirty, lenZ. destruct (filter _ (all_pages g)) as [|x k] eqn:E; [|cbn; lia].
    exfalso. assert (Hx : p ∈ filter (fun q => Is_true (dirty_of (infos st) c q)) (all_pages g)).
    { apply list_elem_of_filter. split; [|done]. unfold dirty_of. rewrite Hp, Hpr, Hd, bool_decide_true by done. done. }
    rewrite E in Hx. by apply elem_of_nil in Hx. }
  split; [lia|]. by apply (di_list _ _ D _ _ Hc).
Qed.

(** * Pages that are being written *)

(** A step that writes pages of the cache [c] back, or prepares to: no contents change, and no page
    becomes dirty. *)
Record flushes (c : Z) st g st' g' : Prop := {
  fs_inv : inv st' g';
  fs_content : forall c' i, content st' c' i = content st c' i;
  fs_fixed : fixed <$> caches st' = fixed <$> caches st;
  fs_index : at_index st' = at_index st;
  fs_dirty : dirty_inv st g -> dirty_inv st' g';
  fs_clean : forall p pi', infos st' !! p = Some pi' -> is_dirty pi' = true -> exists pi, infos st !! p = Some pi /\ is_dirty pi = true;
  fs_other : forall c' i, c' <> c -> disk_page st' c' i = disk_page st c' i;
}.

Lemma flushes_refl c st g : inv st g -> flushes c st g st g.
Proof. intros I. constructor; try done. eauto. Qed.

Lemma flushes_trans c st1 g1 st2 g2 st3 g3 : flushes c st1 g1 st2 g2 -> flushes c st2 g2 st3 g3 -> flushes c st1 g1 st3 g3.
Proof.
  intros [] []. constructor; try done; try congruence; eauto.
  - intros p pi' Hp Hd. destruct (fs_clean1 _ _ Hp Hd) as (pi & ? & ?). eauto.
  - intros c' i Hc. by rewrite fs_other1, fs_other0.
Qed.

Definition writing_flags (f : Z) : Z :=
  Z.ldiff (Z.lor (Z.lor (Z.ldiff f PAGE_FLAG_DIRTY) PAGE_FLAG_WRITING) PAGE_FLAG_LOCKED) PAGE_FLAG_LOCKED.

Definition with_write (p : Z) g : ghost :=
  mk_ghost (gens g) (loc g) (rd g) (p :: wr g) (fun q => ext g q + if decide (q = p) then 1 else 0).

Lemma no_io_flags st g p pi c : page_ok st g p pi c -> p ∉ loc g -> p ∉ rd g -> p ∉ wr g -> Z.land (flags pi) PAGE_FLAGS_IO = 0.
Proof.
  intros Ho H1 H2 H3. unfold PAGE_FLAGS_IO. rewrite !Z.land_lor_distr_r.
  pose proof (po_evicting _ _ _ _ _ Ho) as E1. pose proof (po_reading _ _ _ _ _ Ho) as E2. pose proof (po_writing _ _ _ _ _ Ho) as E3.
  rewrite bool_decide_false in E1, E2, E3 by done. apply has_false in E1, E2, E3. by rewrite E1, E2, E3.
Qed.

Lemma start_write st g c i p pi : inv st g -> dirty_inv st g -> at_index st c i = Some p -> p ∉ loc g -> p ∉ rd g -> p ∉ wr g ->
  infos st !! p = Some pi -> is_dirty pi = true ->
  exists s1 s2 e s3 s4 pi4 s5, cache_clear_page_dirty c p st = Some (s1, true) /\ pmm_retain p s1 = Some s2 /\
    cache_wait_page_no_io p s2 = Some e /\ upd (set_flags (fun f => Z.lor f PAGE_FLAG_WRITING)) p s2 = Some s3 /\
    pmm_acquire_page_lock p s3 = Some s4 /\ infos s4 !! p = Some pi4 /\ cached_page_is_evicted pi4 = false /\
    pmm_release_page_lock p s4 = Some s5 /\ flushes c st g s5 (with_write p g) /\
    exists pi5, infos s5 !! p = Some pi5 /\ is_dirty pi5 = false.
Proof.
  intros I D Hi Hl Hr Hw Hp Hd. destruct (inv_cached _ _ I _ _ _ Hi) as (Hin & pi0 & Hp0 & Hpr & Ho). assert (pi0 = pi) as -> by congruence.
  destruct (inv_member _ _ I p Hin) as (pi1 & c1 & Hp1 & Hok). assert (pi1 = pi) as -> by congruence.
  assert (c1 = c) as -> by (pose proof (po_private _ _ _ _ _ Hok); congruence).
  assert (Hch : exists ch, caches st !! c = Some ch).
  { unfold at_index, pgs in Hi. rewrite lookup_fmap in Hi. destruct (caches st !! c); [eauto|done]. }
  destruct Hch as [ch Hch]. destruct (dirty_counted _ _ _ _ _ _ I D Hp Hin Hpr Hd Hch) as [Hb Hdc].
  destruct (clear_dirty c p pi ch st Hp Hd Hch Hb Hdc (di_nodup _ _ D)) as (l & E1 & Hnd & Hmem).
  set (s1 := set_dirty _ _ _) in E1. set (pa := set_flags (fun f => Z.ldiff f PAGE_FLAG_DIRTY) pi) in *.
  assert (Hs1 : infos s1 !! p = Some pa) by apply lookup_insert_eq.
  pose proof (po_ref _ _ _ _ _ Hok) as Href. pose proof (inv_ext _ _ I p) as Hx.
  set (pb := set_ref (ref_count pi + 1) pa). set (s2 := set_infos (<[p := pb]> (infos st)) s1).
  assert (E2 : pmm_retain p s1 = Some s2).
  { unfold pmm_retain. rewrite (upd_spec _ _ _ _ Hs1). change (ref_count pa) with (ref_count pi). rewrite (proj2 (Z.eqb_neq _ _)) by lia.
    unfold s2. cbn [infos s1 set_dirty set_caches set_infos]. by rewrite insert_insert_eq. }
  assert (Hs2 : infos s2 !! p = Some pb) by apply lookup_insert_eq.
  assert (Hio : Z.land (flags pb) PAGE_FLAGS_IO = 0).
  { unfold pb, pa. cbn [flags set_ref set_flags]. rewrite land_ldiff_other by reflexivity. by eapply no_io_flags. }
  assert (E3 : cache_wait_page_no_io p s2 = Some (page_error (flags pb))).
  { unfold cache_wait_page_no_io, pmm_wait_get. rewrite Hs2. cbv beta iota delta [mbind option_bind]. by rewrite Hio. }
  set (pc := set_flags (fun f => Z.lor f PAGE_FLAG_WRITING) pb). set (s3 := set_infos (<[p := pc]> (infos st)) s1).
  assert (E4 : upd (set_flags (fun f => Z.lor f PAGE_FLAG_WRITING)) p s2 = Some s3).
  { rewrite (upd_spec _ _ _ _ Hs2). unfold s3, s2. cbn [infos set_infos]. by rewrite insert_insert_eq. }
  assert (Hs3 : infos s3 !! p = Some pc) by apply lookup_insert_eq.
  pose proof (po_locked _ _ _ _ _ Hok) as Hlk.
  set (pd := set_flags (fun f => Z.lor f PAGE_FLAG_LOCKED) pc). set (s4 := set_infos (<[p := pd]> (infos st)) s1).
  assert (E5 : pmm_acquire_page_lock p s3 = Some s4).
  { unfold pmm_acquire_page_lock. rewrite Hs3. cbv beta iota delta [mbind option_bind].
    assert (has (flags pc) PAGE_FLAG_LOCKED = false) as -> by (unfold pc, pb, pa; cbn [flags set_ref set_flags]; by flag).
    rewrite (upd_spec _ _ _ _ Hs3). unfold s4, s3. cbn [infos set_infos]. by rewrite insert_insert_eq. }
  assert (Hs4 : infos s4 !! p = Some pd) by apply lookup_insert_eq.
  set (pe := set_flags (fun f => Z.ldiff f PAGE_FLAG_LOCKED) pd). set (s5 := set_infos (<[p := pe]> (infos st)) s1).
  assert (E6 : pmm_release_page_lock p s4 = Some s5).
  { unfold pmm_release_page_lock. rewrite Hs4. cbv beta iota delta [mbind option_bind].
    assert (has (flags pd) PAGE_FLAG_LOCKED = true) as -> by (unfold pd; cbn [flags set_flags]; by apply has_lor_same).
    cbn [kassert]. rewrite (upd_spec _ _ _ _ Hs4). unfold s5, s4. cbn [infos set_infos]. by rewrite insert_insert_eq. }
  assert (Hfe : flags pe = writing_flags (flags pi)) by done.
  assert (Hde : is_dirty pe = false) by (unfold is_dirty; rewrite Hfe; unfold writing_flags; by flag).
  exists s1, s2, (page_error (flags pb)), s3, s4, pd, s5. conjs; try done.
  { unfold cached_page_is_evicted. change (private pd) with (private pi). by rewrite Hpr. }
  2:{ exists pe. split; [apply lookup_insert_eq|done]. }
  assert (Hpg : pgs s5 = pgs st) by (by eapply pgs_insert).
  assert (I5 : inv (set_infos (<[p := pe]> (infos st)) st) (with_write p g)).
  { eapply inv_page; try done.
    - split; [done|]. split; [done|]. intros q Hq. cbn. rewrite decide_False by done. split; [lia|]. split; [done|]. set_solver.
    - unfold gen_of. rewrite Hfe. unfold writing_flags. by flag.
    - cbn. rewrite decide_True by done. lia.
    - intros c' _ []. constructor; try done; rewrite ?Hfe; unfold writing_flags; flag; try done.
      + cbn. rewrite decide_True by done. rewrite Href. lia.
      + symmetry. apply bool_decide_eq_true. cbn. by left.
      + intros _ _ Hw'. exfalso. apply Hw'. cbn. by left. }
  constructor.
  - by eapply inv_same; [..|exact I5].
  - intros c' j. rewrite (content_same (set_infos (<[p := pe]> (infos st)) st) s5) by done.
    apply (content_page _ _ pi); [done|]. intros c2 j2 _. unfold page_content. rewrite Hfe. unfold writing_flags. by flag.
  - unfold s5. cbn [caches set_infos s1 set_dirty set_caches]. rewrite fmap_insert. apply insert_id. by rewrite lookup_fmap, Hch.
  - unfold at_index. by rewrite Hpg.
  - intros _. eapply (cleared_dirty_inv st s5 g c p pi pe ch l) in D; try done. destruct D as [D1 D2 D3]. by constructor.
  - intros q qi. unfold s5. cbn [infos set_infos]. destruct (decide (q = p)) as [->|Hne]; [rewrite lookup_insert_eq|rewrite lookup_insert_ne by done; eauto].
    intros [= <-]. by rewrite Hde.
  - done.
Qed.

Definition write_done (p : Z) g : ghost :=
  mk_ghost (gens g) (loc g) (rd g) (minus p (wr g)) (fun q => ext g q + if decide (q = p) then -1 else 0).

Lemma fold_write_done batch g : NoDup batch -> let g' := foldl (fun g p => write_done p g) g batch in
  gens g' = gens g /\ loc g' = loc g /\ rd g' = rd g /\ (forall q, q ∈ wr g' <-> q ∈ wr g /\ q ∉ batch) /\
  (forall q, ext g' q = ext g q - if decide (q ∈ batch) then 1 else 0).
Proof.
  revert g. induction batch as [|p batch IH]; intros g Hnd; cbn [foldl].
  { conjs; try done; intros q; [set_solver|]. rewrite decide_False by set_solver. lia. }
  apply NoDup_cons in Hnd as [Hp Hnd]. destruct (IH (write_done p g) Hnd) as (E1 & E2 & E3 & E4 & E5). conjs; try done.
  - intros q. rewrite E4. cbn. rewrite elem_of_minus. set_solver.
  - intros q. rewrite E5. cbn. destruct (decide (q = p)) as [->|Hne].
    + rewrite decide_False by done. rewrite decide_True by left. lia.
    + destruct (decide (q ∈ batch)) as [Hq|Hq]; [rewrite decide_True by (by right); lia|].
      rewrite decide_False; [lia|]. set_solver.
Qed.

(** The device receives a page that is being written. *)
Lemma store_one st g c i p pi : inv st g -> at_index st c i = Some p -> p ∈ wr g -> p ∉ rd g -> infos st !! p = Some pi ->
  let st' := set_disk (<[(c, offset pi) := bytes pi]> (disk st)) st in
  flushes c st g st' g /\ loaded st' p /\ (forall q, q <> p -> q ∈ all_pages g -> loaded st q -> loaded st' q).
Proof.
  intros I Hi Hw Hr Hp st'. destruct (inv_cached _ _ I _ _ _ Hi) as (Hin & pi0 & Hp0 & Hpr & Ho). assert (pi0 = pi) as -> by congruence.
  destruct (inv_member _ _ I p Hin) as (pi1 & c1 & Hp1 & Hok). assert (pi1 = pi) as -> by congruence.
  assert (Hdp : forall c' j, disk_page st' c' j = if decide (c' = c /\ j = i) then bytes pi else disk_page st c' j).
  { intros c' j. unfold disk_page, st'. cbn. rewrite Ho. case_decide as E.
    - destruct E as [-> ->]. by rewrite lookup_insert_eq.
    - rewrite lookup_insert_ne; [done|]. intros [= -> ->]. by apply E. }
  assert (Hne : forall c' j q, at_index st c' j = Some q -> q <> p -> disk_page st' c' j = disk_page st c' j).
  { intros c' j q Hq Hqp. rewrite Hdp, decide_False; [done|]. intros [-> ->]. congruence. }
  conjs.
  - constructor; try done; eauto.
    + destruct I as []. constructor; try done.
      * intros q Hq. destruct (inv_member0 q Hq) as (qi & cq & Eq & Hoq). exists qi, cq. split; [done|]. destruct Hoq. constructor; try done.
        intros Hd Hrd Hwr. destruct (decide (q = p)) as [->|Hqp]; [done|]. rewrite (Hne cq (offset qi) q) by done. by apply po_clean0.
      * intros c' j. rewrite Hdp. case_decide; [apply Hok|done].
    + intros c' j. unfold content. change (at_index st') with (at_index st). change (infos st') with (infos st).
      destruct (at_index st c' j) as [q|] eqn:E; cbn [mbind option_bind].
      * destruct (decide (q = p)) as [->|Hqp].
        -- rewrite Hp. unfold page_content. rewrite (po_reading _ _ _ _ _ Hok), bool_decide_false by done. done.
        -- unfold page_content. by rewrite (Hne _ _ _ E Hqp).
      * rewrite Hdp, decide_False; [done|]. intros [-> ->]. congruence.
    + intros []. by constructor.
    + intros c' j Hc. rewrite Hdp, decide_False; [done|]. tauto.
  - exists pi, c. conjs; try done. rewrite Hdp, Ho. by rewrite decide_True.
  - intros q Hq Hqa (qi & cq & Eq & Hpq & Hbq). exists qi, cq. conjs; try done. rewrite Hdp. case_decide as E; [|done].
    exfalso. apply Hq. destruct E as [-> E].
    destruct (inv_member _ _ I q Hqa) as (qi' & cq' & Eq' & Hoq). assert (qi' = qi) as -> by congruence.
    pose proof (po_index _ _ _ _ _ Hoq) as H1. pose proof (po_private _ _ _ _ _ Hoq). congruence.
Qed.

Lemma store_pages_spec c batch st g : inv st g -> NoDup batch ->
  (forall p, p ∈ batch -> (exists i, at_index st c i = Some p) /\ p ∈ wr g /\ p ∉ rd g) ->
  let st' := store_pages c batch st in
  flushes c st g st' g /\ (forall p, p ∈ batch -> loaded st' p) /\ (forall q, q ∉ batch -> q ∈ all_pages g -> loaded st q -> loaded st' q).
Proof.
  revert st. induction batch as [|p batch IH]; intros st I Hnd Hb.
  { unfold store_pages. cbn. destruct st. split; [by apply flushes_refl|]. split; [|done]. intros p Hp. by apply elem_of_nil in Hp. }
  apply NoDup_cons in Hnd as [Hp Hnd]. destruct (Hb p ltac:(left)) as ((i & Hi) & Hw & Hr).
  destruct (inv_cached _ _ I _ _ _ Hi) as (Hin & pi & Ep & _).
  destruct (store_one st g c i p pi I Hi Hw Hr Ep) as (F & Hl & Hother).
  unfold store_pages. cbn [foldl]. unfold store_page at 2 4 6. rewrite Ep. cbv zeta.
  set (st1 := set_disk (<[(c, offset pi) := bytes pi]> (disk st)) st) in *.
  destruct (IH st1 (fs_inv _ _ _ _ _ F) Hnd) as (F' & Hl' & Ho'); [intros q Hq; apply Hb; by right|]. split; [|split].
  - eapply flushes_trans; [exact F|exact F'].
  - intros q [->|Hq]%elem_of_cons; [|by apply Hl']. by apply Ho'.
  - intros q Hq Hqa Hlq. apply not_elem_of_cons in Hq as [Hqp Hqb]. apply Ho'; try done. by apply Hother.
Qed.

Lemma write_one st g p : inv st g -> p ∈ all_pages g -> p ∈ wr g -> p ∉ rd g -> 1 <= ext g p -> loaded st p ->
  exists st', (st ← upd (cached_page_set_error 0) p st;
               st ← upd (set_flags (fun f => Z.ldiff f PAGE_FLAG_WRITING)) p st;
               pmm_release_page p st) = Some st' /\
    quiet st g st' (write_done p g) /\ (forall q, q <> p -> infos st' !! q = infos st !! q) /\
    (forall q qi', infos st' !! q = Some qi' -> is_dirty qi' = true -> exists qi, infos st !! q = Some qi /\ is_dirty qi = true) /\ at_index st' = at_index st.
Proof.
  intros I Hin Hwr Hrd Hx (pi & c & Ep & Hpr & Hby).
  rewrite (upd_spec _ _ _ _ Ep). cbv beta iota delta [mbind option_bind].
  erewrite upd_spec by (cbn; apply lookup_insert_eq). cbn [infos set_infos]. rewrite insert_insert_eq.
  set (pi2 := set_flags _ _). set (st2 := set_infos _ _).
  set (g1 := mk_ghost (gens g) (loc g) (rd g) (minus p (wr g)) (ext g)).
  assert (Hfl : flags pi2 = Z.ldiff (Z.ldiff (flags pi) PAGE_FLAG_ERROR) PAGE_FLAG_WRITING).
  { unfold pi2. cbn. by rewrite Z.lor_0_r. }
  assert (Hdi : is_dirty pi2 = is_dirty pi) by (unfold is_dirty; rewrite Hfl; by flag).
  assert (Q : quiet st g st2 g1).
  { change st2 with (set_infos (<[p := pi2]> (infos st)) st). eapply quiet_page; try done.
    - split; [done|]. split; [done|]. intros q Hq. split; [done|]. split; [done|]. cbn. rewrite elem_of_minus. tauto.
    - unfold gen_of. rewrite Hfl. by flag.
    - apply (inv_ext _ _ I).
    - intros c' Hc' Ho. rewrite Hpr in Hc'. injection Hc' as <-. split.
      + destruct Ho. constructor; try rewrite Hfl; flag; try done.
        symmetry. apply bool_decide_eq_false. cbn. rewrite elem_of_minus. tauto.
      + unfold page_content. rewrite Hfl. by flag. }
  destruct (release_spec st2 g1 p (qu_inv _ _ _ _ Q)) as (st' & E & Q' & pi3 & Ep3 & Hi & Hpo); [done|done|].
  assert (pi3 = pi2) as -> by (cbn in Ep3; rewrite lookup_insert_eq in Ep3; congruence).
  exists st'. split; [done|]. split; [by eapply quiet_trans|]. split; [|split].
  - intros q Hq. rewrite Hi. cbn. by rewrite !lookup_insert_ne.
  - intros q qi' Hq Hd. rewrite Hi in Hq. cbn in Hq. rewrite insert_insert_eq in Hq. destruct (decide (q = p)) as [->|Hne].
    + rewrite lookup_insert_eq in Hq. injection Hq as <-. exists pi. split; [done|]. by rewrite <- Hdi.
    + rewrite lookup_insert_ne in Hq by done. eauto.
  - unfold pmm_release_page, upd in E. cbn in E. rewrite lookup_insert_eq in E. cbn in E. destruct (_ =? 1); cbn in E; [injection E as <-; done|].
    destruct (ref_count pi =? 0); injection E as <-; done.
Qed.

Lemma write_terminate_spec c batch st g : inv st g -> NoDup batch ->
  (forall p, p ∈ batch -> p ∈ all_pages g /\ p ∈ wr g /\ p ∉ rd g /\ 1 <= ext g p /\ loaded st p) ->
  exists st', cache_write_terminate c batch 0 st = Some st' /\ flushes c st g st' (foldl (fun g p => write_done p g) g batch).
Proof.
  unfold cache_write_terminate. revert st g. induction batch as [|p batch IH]; intros st g I Hnd Hb.
  { exists st. split; [done|]. by apply flushes_refl. }
  apply NoDup_cons in Hnd as [Hp Hnd]. destruct (Hb p ltac:(left)) as (Hin & Hwr & Hrd & Hx & Hl).
  destruct (write_one st g p I Hin Hwr Hrd Hx Hl) as (st1 & E & Q & Ho & Hcl & Hat). cbn [pages_batch_foreach foldl].
  change (0 <? 0) with false. cbv beta iota delta [mbind option_bind] in E |- *.
  destruct (upd (cached_page_set_error 0) p st) as [s|]; [|done]. destruct (upd _ p s) as [s0|]; [|done]. rewrite E.
  destruct (IH st1 (write_done p g) (qu_inv _ _ _ _ Q) Hnd) as (st' & E' & F').
  { intros q Hq. destruct (Hb q ltac:(by right)) as (? & ? & ? & ? & qi & cq & ? & ? & Hq'). assert (q <> p) by (by intros ->).
    conjs; [done|cbn; by rewrite elem_of_minus|done|cbn; rewrite decide_False by done; lia|].
    exists qi, cq. rewrite Ho by done. conjs; [done..|]. rewrite Hq'. unfold disk_page. by rewrite (qu_disk _ _ _ _ Q). }
  exists st'. split; [exact E'|]. eapply flushes_trans; [|exact F'].
  constructor; try done; try apply Q; [by apply meta_fixed, Q|]. intros c' i _. unfold disk_page. by rewrite (qu_disk _ _ _ _ Q).
Qed.

Section back.
Context `{EC : ErrnoCodes} `{CO : CacheOps} `{CL : !CacheLaws}.

(** The pages of [batch], of the cache [c], are being written, with one reference each. *)
Record out_flight st g (c : Z) (ext0 : Z -> Z) (batch : list Z) : Prop := {
  of_inv : inv st g;
  of_nodup : NoDup batch;
  of_wr : forall q, q ∈ wr g <-> q ∈ batch;
  of_rd : rd g = [];
  of_loc : loc g = [];
  of_index : forall q, q ∈ batch -> exists i, at_index st c i = Some q;
  of_ext : forall q, ext g q = ext0 q + if decide (q ∈ batch) then 1 else 0;
}.

Lemma out_nil st g c : sound st g -> out_flight st g c (ext g) [].
Proof.
  intros [I D Hr Hw Hl]. constructor; try done; [apply NoDup_nil_2|by rewrite Hw|set_solver|].
  intros q. rewrite decide_False by set_solver. lia.
Qed.

Lemma out_idle st g c ext0 : out_flight st g c ext0 [] -> dirty_inv st g -> sound st g /\ forall q, ext g q = ext0 q.
Proof.
  intros [] D. split.
  - constructor; try done. destruct (wr g) as [|x l]; [done|]. exfalso. specialize (proj1 (of_wr0 x) ltac:(left)). set_solver.
  - intros q. rewrite of_ext0, decide_False by set_solver. lia.
Qed.

Lemma write_pages_spec c f st g ext0 batch rest : op_write c = Some f -> (forall q, 0 <= ext0 q) -> out_flight st g c ext0 (batch ++ rest) ->
  exists st' g', cache_write_pages c batch st = Some (st', 0) /\ flushes c st g st' g' /\ out_flight st' g' c ext0 rest.
Proof.
  intros Hf H0 [I Hnd Hwr Hrd Hloc Hix Hext]. apply NoDup_app in Hnd as (Hnd1 & Hdis & Hnd2).
  assert (Hb : forall p, p ∈ batch -> (exists i, at_index st c i = Some p) /\ p ∈ wr g /\ p ∉ rd g).
  { intros p Hp. conjs; [apply Hix; set_solver|apply Hwr; set_solver|rewrite Hrd; apply not_elem_of_nil]. }
  destruct (store_pages_spec c batch st g I Hnd1 Hb) as (F1 & Hl & _).
  destruct (write_terminate_spec c batch (store_pages c batch st) g (fs_inv _ _ _ _ _ F1) Hnd1) as (st' & E & F2).
  { intros p Hp. destruct (Hb p Hp) as ((i & Hi) & ? & ?). destruct (inv_cached _ _ I _ _ _ Hi) as (? & _). conjs; try done; [|by apply Hl].
    rewrite Hext, decide_True by set_solver. pose proof (H0 p). lia. }
  unfold cache_write_pages. rewrite Hf, (write_law c f batch st Hf), E.
  destruct (fold_write_done batch g Hnd1) as (E1 & E2 & E3 & E4 & E5).
  eexists st', _. split; [done|]. split; [eapply flushes_trans; [exact F1|exact F2]|]. constructor; try done.
  - apply F2.
  - intros q. rewrite E4, Hwr, elem_of_app. split; [tauto|]. intros Hq. split; [by right|]. intros Hq'. by apply (Hdis q).
  - congruence.
  - congruence.
  - intros q Hq. destruct (Hix q ltac:(set_solver)) as [i Hi]. exists i. by rewrite (fs_index _ _ _ _ _ F2), (fs_index _ _ _ _ _ F1).
  - intros q. rewrite E5, Hext. destruct (decide (q ∈ batch)) as [Hq|Hq].
    + rewrite decide_True by set_solver. rewrite decide_False; [lia|]. by apply Hdis.
    + destruct (decide (q ∈ rest)); [rewrite decide_True by set_solver|rewrite decide_False by set_solver]; lia.
Qed.

(** One page is added to those that are being written. *)
Lemma out_add st g s c ext0 batch p i : out_flight st g c ext0 batch -> flushes c st g s (with_write p g) -> p ∉ batch -> at_index st c i = Some p ->
  out_flight s (with_write p g) c ext0 (batch ++ [p]).
Proof.
  intros [I Hnd Hwr Hrd Hloc Hix Hext] F Hp Hi. constructor; try done.
  - apply F.
  - apply NoDup_app. split; [done|]. split; [|apply NoDup_singleton]. intros q Hq ->%list_elem_of_singleton. done.
  - intros q. cbn. rewrite elem_of_cons, Hwr. set_solver.
  - intros q [Hq| ->%list_elem_of_singleton]%elem_of_app; rewrite (fs_index _ _ _ _ _ F); eauto.
  - intros q. cbn. rewrite Hext. destruct (decide (q = p)) as [->|Hne].
    + rewrite decide_False by done. rewrite decide_True by set_solver. lia.
    + destruct (decide (q ∈ batch)); [rewrite decide_True by set_solver|rewrite decide_False by set_solver]; lia.
Qed.

(** The pages of [c] with an index below [i] are clean. *)
Definition clean_below st (c i : Z) : Prop :=
  forall j p pi, 0 <= j < i -> at_index st c j = Some p -> infos st !! p = Some pi -> is_dirty pi = false.

Lemma flushes_clean c st g st' g' i : inv st g -> flushes c st g st' g' -> clean_below st c i -> clean_below st' c i.
Proof.
  intros I F Hc j p pi Hj Hat Hp. rewrite (fs_index _ _ _ _ _ F) in Hat. destruct (is_dirty pi) eqn:E; [|done].
  destruct (fs_clean _ _ _ _ _ F _ _ Hp E) as (pi0 & Hp0 & E0). rewrite (Hc j p pi0 Hj Hat Hp0) in E0. done.
Qed.

Lemma flushes_cache c st g st' g' ch : flushes c st g st' g' -> caches st !! c = Some ch ->
  exists ch', caches st' !! c = Some ch' /\ pages ch' = pages ch /\ size ch' = size ch /\ readers ch' = readers ch /\ writer ch' = writer ch.
Proof.
  intros F Hc. assert (E : (fixed <$> caches st') !! c = Some (fixed ch)) by (by rewrite (fs_fixed _ _ _ _ _ F), lookup_fmap, Hc).
  rewrite lookup_fmap in E. apply fmap_Some in E as (ch' & Hc' & [= ? ? ?]). exists ch'. conjs; try done. apply map_eq. intros i.
  by rewrite <- (at_index_spec _ _ i _ Hc'), <- (at_index_spec _ _ i _ Hc), (fs_index _ _ _ _ _ F).
Qed.

Lemma clean_extend st c ch index i p pi : caches st !! c = Some ch -> clean_below st c index ->
  (forall j, index <= j < i -> pages ch !! j = None) -> at_index st c i = Some p -> infos st !! p = Some pi -> is_dirty pi = false -> clean_below st c (i + 1).
Proof.
  intros Hc Hcl Hno Hi Hp Hd j q qi Hj Hq Hqi. destruct (decide (j = i)) as [->|Hne]; [congruence|].
  destruct (Z_lt_le_dec j index); [eapply (Hcl j q); [lia|done..]|]. rewrite (at_index_spec _ _ _ _ Hc), Hno in Hq by lia. done.
Qed.

(** The pages of a batch come before [index]. *)
Definition before st (c index : Z) (batch : list Z) : Prop := forall q, q ∈ batch -> exists j, j < index /\ at_index st c j = Some q.

Lemma flush_loop_spec fuel c f st g ext0 batch ch index end_ : op_write c = Some f -> (forall q, 0 <= ext0 q) ->
  out_flight st g c ext0 batch -> dirty_inv st g -> before st c index batch -> caches st !! c = Some ch ->
  (left_from (pages ch) index < fuel)%nat -> 0 <= index -> clean_below st c index ->
  exists st' batch' g', flush_loop fuel c index end_ batch st = Some (st', 0, batch') /\ flushes c st g st' g' /\
    out_flight st' g' c ext0 batch' /\ forall j, j * PAGE_SIZE < end_ -> clean_below st' c (j + 1).
Proof.
  intros Hf H0. revert st g batch ch index. induction fuel as [|fuel IH]; intros st g batch ch index O D Hbe Hc Hfuel Hix Hcl; [lia|].
  cbn [flush_loop]. rewrite Hc. cbv beta iota delta [mbind option_bind]. pose proof (of_inv _ _ _ _ _ O) as I.
  pose proof (first_from_spec (pages ch) index) as Hff. destruct (xarray_first_from (pages ch) index) as [[i p]|].
  2:{ exists st, batch, g. conjs; try done; try (by apply flushes_refl). intros j _ k q qi Hk Hq Hqi.
      destruct (Z_lt_le_dec k index); [eapply (Hcl k q); [lia|done..]|]. rewrite (at_index_spec _ _ _ _ Hc), Hff in Hq by lia. done. }
  destruct Hff as (Hi & Hle & Hno). assert (Hat : at_index st c i = Some p) by (by rewrite (at_index_spec _ _ _ _ Hc)).
  destruct (inv_cached _ _ I _ _ _ Hat) as (Hin & pi & Hp & Hpr & Ho).
  destruct (inv_member _ _ I p Hin) as (pi0 & c0 & Hp0 & Hok). assert (pi0 = pi) as -> by congruence.
  pose proof (po_offset _ _ _ _ _ Hok) as Hoff. rewrite Ho in Hoff.
  unfold PFN2PAGE. rewrite u64_small by (unfold is_u64, PAGE_SIZE; lia). destruct (i * PAGE_SIZE <? end_) eqn:Eend; zbool.
  2:{ exists st, batch, g. conjs; try done; try (by apply flushes_refl). intros j Hj k q qi Hk Hq Hqi.
      destruct (Z_lt_le_dec k index); [eapply (Hcl k q); [lia|done..]|]. rewrite (at_index_spec _ _ _ _ Hc), Hno in Hq by (unfold PAGE_SIZE in *; lia). done. }
  rewrite u64_small by (unfold is_u64; lia). pose proof (left_from_step _ _ _ _ Hi Hle) as Hstep.
  destruct (is_dirty pi) eqn:Hd.
  2:{ rewrite (clear_clean c p pi st Hp Hd). cbn [negb]. apply (IH st g batch ch); try done; [|lia|lia|by eapply clean_extend].
      intros q Hq. destruct (Hbe q Hq) as (j & ? & ?). exists j. split; [lia|done]. }
  assert (Hpb : p ∉ batch).
  { intros Hb. destruct (Hbe p Hb) as (j & Hj & Hjp). destruct (inv_cached _ _ I _ _ _ Hjp) as (_ & pj & Hpj & _ & Hoj).
    assert (pj = pi) by congruence. subst pj. lia. }
  destruct (start_write st g c i p pi I D Hat) as (s1 & s2 & e & s3 & s4 & pi4 & s5 & E1 & E2 & E3 & E4 & E5 & E6 & E7 & E8 & F & pi5 & Hp5 & Hd5);
    [rewrite (of_loc _ _ _ _ _ O); apply not_elem_of_nil|rewrite (of_rd _ _ _ _ _ O); apply not_elem_of_nil|rewrite (of_wr _ _ _ _ _ O); done|done|done|].
  rewrite E1. cbn [negb]. rewrite E2. rewrite E3. rewrite E4. rewrite E5. rewrite E6. rewrite E7. rewrite E8.
  pose proof (out_add _ _ _ _ _ _ _ _ O F Hpb Hat) as O5. pose proof (fs_dirty _ _ _ _ _ F D) as D5.
  destruct (flushes_cache _ _ _ _ _ _ F Hc) as (ch5 & Hc5 & Hpg5 & _).
  assert (Hat5 : at_index s5 c i = Some p) by (by rewrite (fs_index _ _ _ _ _ F)).
  assert (Hcl5 : clean_below s5 c (i + 1)).
  { eapply (clean_extend s5 c ch5 index); try done; [by eapply flushes_clean|by rewrite Hpg5]. }
  assert (Hbe5 : before s5 c (i + 1) (batch ++ [p])).
  { intros q [Hq| ->%list_elem_of_singleton]%elem_of_app; rewrite (fs_index _ _ _ _ _ F).
    - destruct (Hbe q Hq) as (j & ? & ?). exists j. split; [lia|done].
    - exists i. split; [lia|done]. }
  destruct (pages_batch_is_full batch) eqn:Hfull.
  - destruct (write_pages_spec c f s5 _ ext0 batch [p] Hf H0 O5) as (s6 & g6 & -> & F6 & O6). cbn [Z.ltb Z.compare].
    destruct (flushes_cache _ _ _ _ _ _ F6 Hc5) as (ch6 & Hc6 & Hpg6 & _).
    destruct (IH s6 g6 [p] ch6 (i + 1) O6) as (st' & batch' & g' & E & F' & O' & Hcl'); try done.
    { apply (fs_dirty _ _ _ _ _ F6 D5). } { intros q Hq. rewrite (fs_index _ _ _ _ _ F6). apply Hbe5. set_solver. }
    { rewrite Hpg6, Hpg5. lia. } { lia. } { eapply flushes_clean; [apply F|done|done]. }
    exists st', batch', g'. conjs; try done. eapply flushes_trans; [exact F|]. by eapply flushes_trans.
  - rewrite batch_add by done.
    destruct (IH s5 _ (batch ++ [p]) ch5 (i + 1) O5 D5 Hbe5 Hc5) as (st' & batch' & g' & E & F' & O' & Hcl'); try done.
    { rewrite Hpg5. lia. } { lia. }
    exists st', batch', g'. conjs; try done. by eapply flushes_trans.
Qed.

Lemma raw_flush_spec c f st g ch offset sz start end_ : op_write c = Some f -> sound st g -> caches st !! c = Some ch ->
  cache_get_range ch offset sz = (start, end_) -> start = 0 ->
  exists st' g', cache_raw_flush_async c offset sz st = Some (st', 0) /\ flushes c st g st' g' /\ sound st' g' /\ (forall q, ext g' q = ext g q) /\
    forall j, j * PAGE_SIZE < end_ -> clean_below st' c (j + 1).
Proof.
  intros Hf Hso Hc Hr ->. unfold cache_raw_flush_async. rewrite Hf, Hc. cbv beta iota delta [mbind option_bind]. rewrite Hr.
  pose proof Hso as [I D Hrd Hwr Hloc].
  destruct (flush_loop_spec (S (base.size (pages ch))) c f st g (ext g) [] ch 0 end_ Hf (inv_ext _ _ I)) as (st1 & batch & g1 & -> & F1 & O1 & Hcl); try done.
  { by apply out_nil. } { intros q Hq. by apply elem_of_nil in Hq. } { pose proof (left_from_size (pages ch) 0). lia. }
  { intros j p pi Hj. lia. }
  change (0 <? 0) with false. cbv iota. destruct batch as [|q batch].
  - destruct (out_idle _ _ _ _ O1 (fs_dirty _ _ _ _ _ F1 D)) as [S1 He]. exists st1, g1. by conjs.
  - destruct (write_pages_spec c f st1 g1 (ext g) (q :: batch) [] Hf (inv_ext _ _ I)) as (st2 & g2 & -> & F2 & O2); [by rewrite app_nil_r|].
    pose proof (flushes_trans _ _ _ _ _ _ _ F1 F2) as F.
    destruct (out_idle _ _ _ _ O2 (fs_dirty _ _ _ _ _ F D)) as [S2 He]. exists st2, g2. conjs; try done.
    intros j Hj. eapply flushes_clean; [apply F1|done|by apply Hcl].
Qed.

(** * The whole write-back *)

Lemma foreach_wait fuel c st g ch index end_ : sound st g -> caches st !! c = Some ch -> 0 <= index -> (left_from (pages ch) index < fuel)%nat ->
  foreach_loop fuel (fun p st => ret ← cache_wait_page_written p st; Some (st, ret)) c index end_ st = Some (st, 0).
Proof.
  intros Hso Hc. pose proof Hso as [I _ _ Hwr _]. revert index. induction fuel as [|fuel IH]; intros index Hix Hfuel; [lia|].
  cbn [foreach_loop]. rewrite Hc. cbv beta iota delta [mbind option_bind].
  pose proof (first_from_spec (pages ch) index) as Hff. destruct (xarray_first_from (pages ch) index) as [[i p]|]; [|done].
  destruct Hff as (Hi & Hle & _). destruct (PFN2PAGE i <? end_); [|done].
  assert (Hat : at_index st c i = Some p) by (by rewrite (at_index_spec _ _ _ _ Hc)).
  destruct (inv_cached _ _ I _ _ _ Hat) as (Hin & pi' & Hp' & _ & Ho). destruct (inv_member _ _ I p Hin) as (pi & c0 & Hp & Hok).
  assert (pi' = pi) as -> by congruence. unfold cache_wait_page_written, pmm_wait_get. rewrite Hp. cbv beta iota delta [mbind option_bind].
  pose proof (po_writing _ _ _ _ _ Hok) as Hw. rewrite Hwr, bool_decide_false in Hw by apply not_elem_of_nil. apply has_false in Hw. rewrite Hw.
  change (0 =? 0) with true. cbv iota. unfold page_error. rewrite (po_error _ _ _ _ _ Hok). change (_ <? 0) with false. cbv iota.
  pose proof (po_offset _ _ _ _ _ Hok). rewrite Ho in *. rewrite u64_small by (unfold is_u64; lia).
  apply IH; [lia|]. pose proof (left_from_step _ _ _ _ Hi Hle). lia.
Qed.

Lemma whole_range ch sz : 0 <= size ch <= 2 ^ 54 -> 0 <= sz < 2 ^ 64 -> cache_get_range ch 0 sz = (0, PAGE_ALIGN_UP (Z.min sz (size ch))).
Proof.
  intros H1 H2. unfold cache_get_range. rewrite Z.sub_0_r. rewrite (u64_small (size ch)) by (unfold is_u64; lia).
  rewrite (proj2 (Z.leb_le _ _)) by lia. cbn [andb]. rewrite Z.add_0_l.
  assert (E : (if size ch <? sz then size ch else sz) = Z.min sz (size ch)) by (destruct (_ <? _) eqn:E; zbool; lia). rewrite E.
  rewrite u64_small by (unfold is_u64; lia). pose proof (align_up_mono (Z.min sz (size ch)) (size ch) ltac:(lia) ltac:(lia)).
  rewrite (proj2 (Z.ltb_ge _ _)) by lia. done.
Qed.

Lemma clean_disk st g c i : sound st g -> clean_below st c (i + 1) -> 0 <= i -> disk_page st c i = content st c i.
Proof.
  intros [I D Hrd Hwr Hloc] Hcl Hi. unfold content. destruct (at_index st c i) as [p|] eqn:E; [|done]. cbn [mbind option_bind].
  destruct (inv_cached _ _ I _ _ _ E) as (Hin & pi' & Hp' & Hpr & Ho). destruct (inv_member _ _ I p Hin) as (pi & c0 & Hp & Hok).
  assert (pi' = pi) as -> by congruence. rewrite Hp. unfold page_content. rewrite (po_reading _ _ _ _ _ Hok), Hrd, bool_decide_false by apply not_elem_of_nil.
  assert (c0 = c) as -> by (pose proof (po_private _ _ _ _ _ Hok); congruence). rewrite <- Ho. symmetry. apply (po_clean _ _ _ _ _ Hok).
  - apply (Hcl i p pi); [lia|done|done].
  - rewrite Hrd. apply not_elem_of_nil.
  - rewrite Hwr. apply not_elem_of_nil.
Qed.

Lemma flush_spec c f st g ch sz : op_write c = Some f -> sound st g -> caches st !! c = Some ch -> writer ch = false ->
  0 <= size ch <= 2 ^ 54 -> 0 <= sz < 2 ^ 64 ->
  exists st' g', cache_flush c 0 sz st = Some (st', 0) /\ sound st' g' /\ (forall q, ext g' q = ext g q) /\
    (forall c' i, content st' c' i = content st c' i) /\ fixed <$> caches st' = fixed <$> caches st /\ at_index st' = at_index st /\
    (forall c' i, c' <> c -> disk_page st' c' i = disk_page st c' i) /\
    (forall i, 0 <= i -> i * PAGE_SIZE < PAGE_ALIGN_UP (Z.min sz (size ch)) -> disk_page st' c i = content st c i).
Proof.
  intros Hf Hso Hc Hw Hs Hz. pose proof Hso as [I D Hrd Hwr Hloc]. unfold cache_flush.
  destruct (acquire_read_spec st g c ch I Hc Hw) as (st1 & -> & Hc1 & I1 & Hct1 & D1 & Ha1 & Hd1 & _). cbv beta iota delta [mbind option_bind].
  assert (Hch1 : caches st1 !! c = Some (set_lock (readers ch + 1) false ch)) by (rewrite Hc1; apply lookup_insert_eq).
  assert (S1 : sound st1 g) by (constructor; try done; by apply D1).
  destruct (raw_flush_spec c f st1 g _ 0 sz 0 _ Hf S1 Hch1 (whole_range _ sz Hs Hz) eq_refl) as (st2 & g2 & -> & F & S2 & He2 & Hcl).
  change (0 <? 0) with false. cbv iota. destruct (flushes_cache _ _ _ _ _ _ F Hch1) as (ch2 & Hch2 & Hpg2 & Hs2 & _). rewrite Hch2.
  rewrite (whole_range ch2 sz) by (rewrite ?Hs2; done).
  unfold cache_foreach_range. rewrite Hch2. cbv beta iota delta [mbind option_bind].
  rewrite (foreach_wait _ c st2 g2 ch2) by (try done; pose proof (left_from_size (pages ch2) 0); lia).
  change (0 <? 0) with false. cbv iota.
  destruct (release_read_spec st2 g2 c ch2 (so_inv _ _ S2) Hch2) as (st3 & -> & Hc3 & I3 & Hct3 & D3 & Ha3 & Hd3).
  exists st3, g2. conjs; try done.
  - destruct S2. constructor; try done. by apply D3.
  - intros c' i. by rewrite Hct3, (fs_content _ _ _ _ _ F), Hct1.
  - rewrite Hc3. eapply lock_bracket; try done. apply F.
  - by rewrite Ha3, (fs_index _ _ _ _ _ F), Ha1.
  - intros c' i Hne. unfold disk_page at 1. rewrite Hd3. rewrite <- Hd1 || idtac. fold (disk_page st2 c' i).
    rewrite (fs_other _ _ _ _ _ F) by done. unfold disk_page. by rewrite Hd1.
  - intros i Hi Hlt. unfold disk_page at 1. rewrite Hd3. fold (disk_page st2 c i). rewrite (clean_disk st2 g2 c i S2) by (try done; by apply Hcl).
    by rewrite (fs_content _ _ _ _ _ F), Hct1.
Qed.
End back.

(** * A file that grows *)

Section grow.

Lemma set_size_spec st g c ch n : sound st g -> caches st !! c = Some ch ->
  let st' := set_caches (<[c := set_size n ch]> (caches st)) st in
  sound st' g /\ (forall c i, content st' c i = content st c i) /\ caches st' !! c = Some (set_size n ch).
Proof.
  intros [I D Hrd Hwr Hloc] Hc st'. assert (Hp : pgs st' = pgs st) by (by eapply pgs_insert). conjs.
  - constructor; try done; [by eapply inv_same; [..|exact I]|]. destruct D as [D1 D2 D3]. constructor; try done.
    + intros c' ch'. cbn. destruct (decide (c' = c)) as [->|Hne].
      * rewrite lookup_insert_eq. intros [= <-]. exact (D1 c ch Hc).
      * rewrite lookup_insert_ne by done. apply D1.
    + intros c' ch'. cbn. destruct (decide (c' = c)) as [->|Hne].
      * rewrite lookup_insert_eq. intros [= <-]. exact (D2 c ch Hc).
      * rewrite lookup_insert_ne by done. apply D2.
  - by apply content_same.
  - apply lookup_insert_eq.
Qed.

Lemma set_lock_sound st g c ch r w : sound st g -> caches st !! c = Some ch ->
  let st' := set_caches (<[c := set_lock r w ch]> (caches st)) st in
  sound st' g /\ (forall c i, content st' c i = content st c i) /\ at_index st' = at_index st /\ caches st' !! c = Some (set_lock r w ch).
Proof.
  intros [I D Hrd Hwr Hloc] Hc st'. destruct (set_lock_spec st g c ch r w I Hc) as (I' & Hct & D' & Ha).
  conjs; try done; [constructor; try done; by apply D'|apply lookup_insert_eq].
Qed.

(** The bytes of the cached page at the end of the file, behind its end. *)
Definition tail (n : Z) : list Z := replicate (Z.to_nat (PAGE_SIZE - n mod PAGE_SIZE)) 0.

Lemma truncate_grow_spec st g c ch sz : sound st g -> caches st !! c = Some ch -> writer ch = false -> readers ch <= 0 ->
  0 <= size ch < sz -> sz <= 2 ^ 54 ->
  exists st' ch', cache_truncate c sz st = Some st' /\ sound st' g /\ caches st' !! c = Some ch' /\ size ch' = sz /\ writer ch' = false /\ readers ch' = 0 /\
    match at_index st c (PAGE2PFN (PAGE_ALIGN_DOWN (size ch))) with
    | Some _ => written st st' c (size ch) (if size ch mod PAGE_SIZE =? 0 then [] else tail (size ch))
    | None => forall c' i, content st' c' i = content st c' i
    end.
Proof.
  intros Hso Hc Hw Hr Hs Hz. unfold cache_truncate, rwsem_acquire_write. rewrite Hc. cbv beta iota delta [mbind option_bind].
  rewrite Hw, (proj2 (Z.ltb_ge _ _)) by lia. cbn [orb]. rewrite (upd_cache_spec _ _ _ _ Hc).
  set (ch1 := set_lock 0 true ch). set (st1 := set_caches _ st).
  assert (HS : sound st1 g /\ (forall c i, content st1 c i = content st c i) /\ at_index st1 = at_index st /\ caches st1 !! c = Some ch1)
    by exact (set_lock_sound st g c ch 0 true Hso Hc).
  destruct HS as (S1 & Hct1 & Ha1 & Hc1). rewrite Hc1.
  change (size ch1) with (size ch). rewrite (proj2 (Z.ltb_ge _ _)) by lia. rewrite (proj2 (Z.ltb_lt _ _)) by lia. cbn [andb].
  assert (Hfin : forall s chs, sound s g -> caches s !! c = Some chs -> 
    exists st' ch', (st ← upd_cache (set_size sz) c s; rwsem_release_write c st) = Some st' /\ sound st' g /\ caches st' !! c = Some ch' /\
      size ch' = sz /\ writer ch' = false /\ readers ch' = 0 /\ forall c' i, content st' c' i = content s c' i).
  { intros s chs Hss Hcs. rewrite (upd_cache_spec _ _ _ _ Hcs). cbv beta iota delta [mbind option_bind].
    destruct (set_size_spec s g c chs sz Hss Hcs) as (S2 & Hct2 & Hc2). set (s2 := set_caches _ s) in *.
    unfold rwsem_release_write. rewrite (upd_cache_spec _ _ _ _ Hc2). destruct (set_lock_sound s2 g c _ 0 false S2 Hc2) as (S3 & Hct3 & _ & Hc3).
    eexists _, _. split; [done|]. conjs; [exact S3|exact Hc3|done|done|done|]. intros c' i. by rewrite Hct3, Hct2. }
  assert (Hplain : forall s chs, sound s g -> caches s !! c = Some chs -> (forall c' i, content s c' i = content st c' i) ->
    exists st' ch', (st ← upd_cache (set_size sz) c s; rwsem_release_write c st) = Some st' /\ sound st' g /\ caches st' !! c = Some ch' /\
      size ch' = sz /\ writer ch' = false /\ readers ch' = 0 /\ (forall c' i, content st' c' i = content st c' i)).
  { intros s chs Hss Hcs Hct. destruct (Hfin s chs Hss Hcs) as (st' & ch' & E & ? & ? & ? & ? & ? & Hct'). exists st', ch'. conjs; try done.
    intros c' i. by rewrite Hct', Hct. }
  destruct (size ch mod PAGE_SIZE =? 0) eqn:Em; zbool; cbn [negb].
  { destruct (Hplain st1 ch1 S1 Hc1 Hct1) as (st' & ch' & E & ? & ? & ? & ? & ? & Hct'). exists st', ch'. conjs; try done.
    destruct (at_index st c _); [by apply written_nil|done]. }
  unfold cache_lookup_page. rewrite Hc1. cbv beta iota delta [mbind option_bind]. change (pages ch1) with (pages ch).
  rewrite (at_index_spec _ _ _ _ Hc). destruct (pages ch !! _) as [p|] eqn:Ep.
  2:{ destruct (Hplain st1 ch1 S1 Hc1 Hct1) as (st' & ch' & E & ? & ? & ? & ? & ? & Hct'). exists st', ch'. by conjs. }
  set (n := size ch mod PAGE_SIZE) in *. set (bs := replicate (Z.to_nat (PAGE_SIZE - n)) 0).
  assert (Hn : 0 < n < PAGE_SIZE) by (unfold n; pose proof (Z.mod_pos_bound (size ch) PAGE_SIZE ltac:(done)); lia).
  assert (Hlen : lenZ bs = PAGE_SIZE - n) by (unfold bs, lenZ; rewrite length_replicate; lia).
  assert (Hat : at_index st1 c (PAGE2PFN (PAGE_ALIGN_DOWN (size ch))) = Some p) by (by rewrite (at_index_spec _ _ _ _ Hc1)).
  destruct (write_page_spec st1 g c _ p n bs (so_inv _ _ S1) (so_dirty _ _ S1) (so_rd _ _ S1) Hat) as (st2 & E2 & C & _); [lia|lia|].
  cbv beta iota delta [mbind option_bind] in E2. destruct (upd _ p st1) as [s|]; [|done]. rewrite E2.
  destruct (changes_cache _ _ _ _ _ _ _ C Hc1) as (ch2 & Hc2 & _).
  assert (S2 : sound st2 g).
  { destruct S1. constructor; try done; [apply C|]. by apply (cg_dirty _ _ _ _ _ C). }
  destruct (Hfin st2 ch2 S2 Hc2) as (st' & ch' & E & ? & ? & ? & ? & ? & Hct'). exists st', ch'. conjs; try done.
  eapply written_same; [|exact Hct']. intros c0 x. 
  rewrite (byte_blit st1 st2 g c (PAGE_ALIGN_DOWN (size ch)) n bs (so_inv _ _ S1)).
  - assert (Hsz : PAGE_ALIGN_DOWN (size ch) + n = size ch) by (unfold n, PAGE_ALIGN_DOWN, PAGE_SIZE; Z.div_mod_to_equations; lia).
    rewrite Hsz. unfold tail. fold n bs. case_decide; [done|]. unfold byte. by rewrite Hct1.
  - unfold PAGE_ALIGN_DOWN, PAGE_SIZE. by rewrite Z.mod_mul by lia.
  - lia.
  - lia.
  - intros c' i'. by rewrite (cg_content _ _ _ _ _ C).
Qed.
End grow.

(** * The theorems *)

Section theorems.
Context `{EC : ErrnoCodes} `{CO : CacheOps} `{CL : !CacheLaws}.

(** C25: writing a file back.  Hypotheses: the state is sound, nobody holds the lock of the cache for writing, the file is
    at most 2^54 bytes long, and the driver writes what it is given and never fails ([CacheLaws]; a flush whose write
    fails returns with the lock still held).  [cache_flush] from the start of the file, the only start from which
    its loop visits the whole range, then returns success; the device holds, page by page, the contents
    of the file up to the end of the range cut at the size of the file, no contents change, no page leaves the cache,
    other devices are not touched, and every reference and lock taken on the way is given back. *)
Theorem cache_flush_correct c f st g ch sz : op_write c = Some f -> sound st g -> caches st !! c = Some ch -> writer ch = false ->
  0 <= size ch <= 2 ^ 54 -> 0 <= sz < 2 ^ 64 ->
  exists st' g', cache_flush c 0 sz st = Some (st', 0) /\ sound st' g' /\ (forall q, ext g' q = ext g q) /\
    (forall c' i, content st' c' i = content st c' i) /\ fixed <$> caches st' = fixed <$> caches st /\ at_index st' = at_index st /\
    (forall c' i, c' <> c -> disk_page st' c' i = disk_page st c' i) /\
    (forall i, 0 <= i -> i * PAGE_SIZE < PAGE_ALIGN_UP (Z.min sz (size ch)) -> disk_page st' c i = content st c i).
Proof. apply flush_spec. Qed.
End theorems.

(** Growing a file.  The size becomes the new one and the bytes of the file up to the old end stay;
    those behind it on its last page become zero when the page is cached, and nothing else changes. *)
Theorem cache_truncate_grows st g c ch sz : sound st g -> caches st !! c = Some ch -> writer ch = false -> readers ch <= 0 ->
  0 <= size ch < sz -> sz <= 2 ^ 54 ->
  exists st' ch', cache_truncate c sz st = Some st' /\ sound st' g /\ caches st' !! c = Some ch' /\ size ch' = sz /\ writer ch' = false /\ readers ch' = 0 /\
    match at_index st c (PAGE2PFN (PAGE_ALIGN_DOWN (size ch))) with
    | Some _ => written st st' c (size ch) (if size ch mod PAGE_SIZE =? 0 then [] else tail (size ch))
    | None => forall c' i, content st' c' i = content st c' i
    end.
Proof. apply truncate_grow_spec. Qed.

(** ** The arrays of pages

    What the cache uses of its array of pages, on [XArray]: a map from indices below 2^60 to pages,
    that are even and not zero. *)

Definition represents (x : XArray.xarray) (m : gmap Z Z) : Prop :=
  (exists h, XArray.ok h x) /\ (forall i p, m !! i = Some p -> 0 <= i < 2 ^ 60 /\ p <> 0) /\
  forall i, 0 <= i -> XArray.xarray_raw_get x i = Some (default 0 (m !! i)).

Lemma xarray_get_at x h i : XArray.ok h x -> 0 <= i -> XArray.xarray_raw_get x i = Some (XArray.contents h x i).
Proof. apply XArray.raw_get_spec. Qed.

Lemma xarray_set_at x h i v : XArray.ok h x -> 0 <= i < 2 ^ 60 -> Z.land v 1 = 0 ->
  exists x' h', XArray.xarray_raw_set x i v = Some (x', XArray.contents h x i) /\ XArray.ok h' x' /\
    forall j, 0 <= j -> XArray.xarray_raw_get x' j = Some (if j =? i then v else XArray.contents h x j).
Proof.
  intros Hok Hi Hv. destruct (XArray.raw_set_spec h x i v Hok Hi Hv) as (x' & h' & E & Hok' & Hc). exists x', h'.
  conjs; try done. intros j Hj. rewrite (XArray.raw_get_spec h') by done. rewrite Hc by lia. done.
Qed.

(** The array of the pages of a cache behaves as the map of the model: reading it, storing a page
    where there is none ([xarray_cmpxchg]) and clearing an index do to the array what lookup, insertion
    and deletion do to the map. *)
Theorem xarray_index x m i p : represents x m -> 0 <= i < 2 ^ 60 -> Z.land p 1 = 0 -> p <> 0 ->
  XArray.xarray_raw_get x i = Some (default 0 (m !! i)) /\
  (exists x', XArray.xarray_raw_cmpxchg x i 0 p = Some (x', default 0 (m !! i)) /\ represents x' (if m !! i then m else <[i := p]> m)) /\
  (exists x', XArray.xarray_raw_clear x i = Some (x', default 0 (m !! i)) /\ represents x' (delete i m)).
Proof.
  intros ([h Hok] & Hm & Hget) Hi Hp Hp0. pose proof (Hget i ltac:(lia)) as Hgi. split; [done|].
  assert (Hcont : forall j, 0 <= j -> XArray.contents h x j = default 0 (m !! j)).
  { intros j Hj. specialize (Hget j Hj). rewrite (xarray_get_at x h j Hok Hj) in Hget. congruence. }
  split.
  - unfold XArray.xarray_raw_cmpxchg. rewrite Hp. change (negb (0 =? 0)) with false. cbv iota. rewrite Hgi. cbn [mbind option_bind]. destruct (m !! i) as [q|] eqn:E; cbn [default].
    + destruct (Hm i q E) as [_ Hq]. rewrite (proj2 (Z.eqb_neq _ _)) by done. cbn [negb]. exists x. split; [done|]. split; [by exists h|]. by split.
    + change (negb (0 =? 0)) with false. cbv iota. destruct (xarray_set_at x h i p Hok Hi Hp) as (x' & h' & -> & Hok' & Hg').
      exists x'. rewrite Hcont, E by lia. split; [done|]. split; [by exists h'|]. split.
      * intros j q. destruct (decide (j = i)) as [->|Hne]; [rewrite lookup_insert_eq; intros [= <-]; done|rewrite lookup_insert_ne by done; apply Hm].
      * intros j Hj. rewrite Hg' by done. destruct (j =? i) eqn:Ej; zbool; [subst j; by rewrite lookup_insert_eq|].
        rewrite lookup_insert_ne by done. by rewrite Hcont.
  - unfold XArray.xarray_raw_clear. destruct (xarray_set_at x h i 0 Hok Hi eq_refl) as (x' & h' & -> & Hok' & Hg').
    exists x'. rewrite Hcont by lia. split; [done|]. split; [by exists h'|]. split.
    + intros j q Hj. apply lookup_delete_Some in Hj as [_ Hj]. by apply Hm.
    + intros j Hj. rewrite Hg' by done. destruct (j =? i) eqn:Ej; zbool; [subst j; by rewrite lookup_delete_eq|].
      rewrite lookup_delete_ne by done. by rewrite Hcont.
Qed.

(** ** Examples *)

#[local] Existing Instance ex_codes.
#[local] Existing Instance ram_ops.
#[local] Existing Instance ram_laws.

Lemma cache_flush_correct_witness :
  exists st' g', cache_flush 1 0 10000 ex_state = Some (st', 0) /\ sound st' g' /\ disk_page st' 1 1 = content ex_state 1 1.
Proof.
  destruct (@cache_flush_correct ex_codes ram_ops ram_laws 1 _ ex_state ex_ghost (mk_cache 0 ∅ 0 false 10000) 10000 eq_refl ex_cache_sound)
    as (st' & g' & E & Hs & _ & _ & _ & _ & _ & Hd); try reflexivity; try lia; try (cbn; lia).
  exists st', g'. split; [exact E|]. split; [exact Hs|]. apply Hd; [lia|reflexivity].
Defined.

Lemma cache_truncate_grows_witness :
  exists st' ch', cache_truncate 1 20000 ex_state = Some st' /\ sound st' ex_ghost /\ caches st' !! 1 = Some ch' /\ size ch' = 20000.
Proof.
  destruct (cache_truncate_grows ex_state ex_ghost 1 (mk_cache 0 ∅ 0 false 10000) 20000 ex_cache_sound)
    as (st' & ch' & E & Hs & Hc & Hz & _); try reflexivity; try lia; try (cbn; lia).
  exists st', ch'. conjs; done.
Defined.

Lemma xarray_index_witness :
  exists x', XArray.xarray_raw_cmpxchg XArray.xarray_init 5 0 0x1000 = Some (x', 0) /\ represents x' (<[5 := 0x1000]> ∅).
Proof.
  destruct (xarray_index XArray.xarray_init ∅ 5 0x1000) as (_ & (x' & E & Hr) & _); try lia; try reflexivity.
  - assert (Hok : XArray.ok O XArray.xarray_init) by (vm_compute; repeat split; lia).
    split; [by exists O|]. split; [intros i p Hi; by rewrite lookup_empty in Hi|].
    intros i Hi. rewrite (XArray.raw_get_spec O) by done. rewrite lookup_empty. unfold XArray.contents. by destruct (_ <? _).
  - exists x'. split; [exact E|exact Hr].
Defined.

Definition zeros (n : Z) : gmap Z Z := list_to_map ((fun i => (i, 0)) <$> seqZ 0x900 n).
Definition read_byte (c off : Z) st : option Z :=
  '(_, um, _) ← cache_read c (zeros 1) 0x900 off 1 st; um !! 0x900.

(** The bytes of a page that was written, and are then on the device. *)
Example flush_stores :
  ('(st, _) ← cache_write 1 ex_um 0x500 4093 6 ex_state;
   '(st, ret) ← cache_flush 1 0 10000 st;
   Some (ret, dirty_pages st, dirty_caches st, sliceZ 4092 4 (disk_page st 1 0), sliceZ 0 4 (disk_page st 1 1))) =
  Some (0, 0, [], [0; 65; 66; 67], [68; 69; 70; 7]).
Proof. vm_compute. reflexivity. Qed.

(** [cache_foreach_range] takes the byte where the range starts for an index of the array, and skips the
    pages before it: a range that does not start in the first page is not written back ... *)
Example flush_range_skips :
  ('(st, _) ← cache_write 1 ex_um 0x500 4096 6 ex_state;
   '(st, ret) ← cache_flush 1 4096 4096 st;
   Some (ret, dirty_pages st, sliceZ 0 2 (disk_page st 1 1))) = Some (0, 1, [7; 7]).
Proof. vm_compute. reflexivity. Qed.

(** ... and when a file shrinks its pages stay: they show the old bytes when it grows again. *)
Example truncate_keeps_bytes :
  ('(st, _) ← cache_write 1 ex_um 0x500 8192 6 ex_state;
   st ← cache_truncate 1 4096 st;
   st ← cache_truncate 1 10000 st;
   read_byte 1 8192 st) = Some 65.
Proof. vm_compute. reflexivity. Qed.

(** Removing a page gives back one reference too many: a page that is mapped elsewhere is free
    although the mapping uses it, and its lock stays taken. *)
Example free_pages_frees_mapped :
  ('(st, r) ← cache_get_page 1 0 ex_state;
   match r with
   | inl p => st ← cache_truncate 1 0 st;
              pi ← infos st !! p;
              Some (bool_decide (p ∈ pool st), ref_count pi, has (flags pi) PAGE_FLAG_LOCKED)
   | inr _ => None
   end) = Some (true, 0, true).
Proof. vm_compute. reflexivity. Qed.

(** So does the eviction of a dirty page: writing it consumes the reference that [cache_evict] holds. *)
Example evict_frees_mapped :
  ('(st, _) ← cache_write 1 ex_um 0x500 0 6 ex_state;
   '(st, r) ← cache_get_page 1 0 st;
   match r with
   | inl p => pi ← infos st !! p;
              '(st, n) ← cache_evict 1 (set_infos (<[p := set_flags (fun f => Z.ldiff f PAGE_FLAG_ACTIVE) pi]> (infos st)) st);
              Some (n, bool_decide (p ∈ pool st))
   | inr _ => None
   end) = Some (1, true).
Proof. vm_compute. reflexivity. Qed.

(** A page that was used stays the first time; then it is written back and evicted, and read from the
    device again. *)
Example evict_then_read :
  ('(st, _) ← cache_write 1 ex_um 0x500 0 6 ex_state;
   '(st, n) ← cache_evict 8 st;
   '(st, n') ← cache_evict 8 st;
   b ← read_byte 1 3 st;
   Some (n, n', base.size (pages (default (mk_cache 0 ∅ 0 false 0) (caches st !! 1))), b)) = Some (0, 1, O, 68).
Proof. vm_compute. reflexivity. Qed.

(** [cache_flush_all] takes the cache off the list of dirty caches; the last page that becomes clean
    takes it off a second time. *)
Example flush_all_removes_twice :
  ('(st, _) ← cache_write 1 ex_um 0x500 0 6 ex_state; cache_flush_all 3 st) = None.
Proof. vm_compute. reflexivity. Qed.

(** A device whose transfers fail: the read ends in a failed assertion, since the page that is removed
    is not locked; a failed [cache_flush] acquires the lock again instead of releasing it. *)
#[local] Instance broken_ops : CacheOps := {
  op_read c := if c =? 2 then Some (fun batch st => Some (st, -5)) else op_read (CacheOps := ram_ops) c;
  op_write c := Some (fun batch st => Some (st, -5));
}.

Example failed_read_panics :
  @cache_read ex_codes broken_ops 2 (zeros 1) 0x900 0 1 (set_caches {[ 2 := mk_cache 0 ∅ 0 false 10000 ]} ex_state) = None.
Proof. vm_compute. reflexivity. Qed.

Example failed_flush_keeps_lock :
  ('(st, _) ← @cache_write ex_codes broken_ops 1 ex_um 0x500 0 6 ex_state;
   '(st, ret) ← @cache_flush ex_codes broken_ops 1 0 10000 st;
   Some (ret, readers <$> caches st !! 1)) = Some (-5, Some 2).
Proof. vm_compute. reflexivity. Qed.

(** A read into a buffer that is not mapped keeps its reference to the page. *)
Example read_fault_leaks :
  ('(st, _, ret) ← cache_read 1 ∅ 0x500 0 6 ex_state; pi ← infos st !! 0x1000; Some (ret, ref_count pi)) = Some (-14, 2).
Proof. vm_compute. reflexivity. Qed.

End CacheBack.
