(* ===== verification/Vfs.v ===== *)
(** The virtual file system: directory entries, inodes, name lookup, mount points and the operations
    on names (kernel/fs/vfs/vdentry.c, vnode.c, vfs.c, kernel/include/fs/vfs.h, klib/rculist.c).

    The state holds the directory entries and inodes by address, with the pointers of the code, the
    list of the entries that can be evicted, the superblocks and the mount points.  One task runs at
    a time: the read-write semaphores of the inodes are kept, with what that task holds of them, and
    an acquisition that would sleep is [None], as nothing would end it; RCU sections and the locks
    that are only held for a few stores are left out.  [None] is also a failed [kassert], an access
    to an object that was freed, a copy past the end of a buffer and the use of a variable that was
    not set.

    A file system is a table of operations on inodes, with a state of its own ([private]).  The
    tables come in two classes, because the operations of a file system themselves call the first
    part of this file: [NodeTables] has what the life of an inode needs, [DirTables] the operations
    on directories and links.

    A count of references is taken not to overflow; one that is decremented at zero wraps around. *)

From S2P Require Import Prelude.

Module Vfs.

(** ** Modes, attributes and flags *)

(** The type of a file and its permission bits; [S_NONE] is the type of an inode that was not set. *)
Inductive file_type := S_NONE | S_IFREG | S_IFDIR | S_IFLNK | S_IFCHR | S_IFBLK | S_IFSOCK | S_IFIFO.

#[global] Instance file_type_eq_dec : EqDecision file_type.
Proof. solve_decision. Defined.

Record mode_t := mk_mode { ifmt : file_type; perms : Z }.

#[global] Instance mode_t_eq_dec : EqDecision mode_t.
Proof. solve_decision. Defined.

Definition is_type (t : file_type) (m : mode_t) : bool := bool_decide (ifmt m = t).
Notation S_ISDIR := (is_type S_IFDIR).
Notation S_ISLNK := (is_type S_IFLNK).

(** The bits 04000, 02000 and 01000. *)
Definition S_ISUID : Z := 0x800.
Definition S_ISGID : Z := 0x400.
Definition S_ISVTX : Z := 0x200.

Record stat := mk_stat {
  st_ino : Z; st_mode : mode_t; st_uid : Z; st_gid : Z; st_atime : Z; st_mtime : Z; st_ctime : Z;
  st_nlink : Z; st_size : Z; st_rdev : Z; st_blksize : Z; st_blocks : Z;
}.

Definition VNODE_ATTR_MODE : Z := 0x01.
Definition VNODE_ATTR_UID : Z := 0x02.
Definition VNODE_ATTR_GID : Z := 0x04.
Definition VNODE_ATTR_ATIME : Z := 0x08.
Definition VNODE_ATTR_MTIME : Z := 0x10.
Definition VNODE_ATTR_CTIME : Z := 0x20.

Definition PERM_READ : Z := 4.
Definition PERM_WRITE : Z := 2.
Definition PERM_EXECUTE : Z := 1.

Definition VNODE_FLAG_DIRTY : Z := 0x01.
Definition VNODE_FLAG_DATA_DIRTY : Z := 0x02.
Definition VNODE_FLAG_NEW : Z := 0x04.
Definition VNODE_FLAG_ERROR : Z := 0x08.

Definition VFS_DENTRY_FLAG_MOUNT_POINT : Z := 0x01.
Definition VFS_DENTRY_FLAG_UNLINKED : Z := 0x02.
Definition VFS_DENTRY_FLAG_NEW : Z := 0x04.
Definition VFS_DENTRY_FLAG_ERROR : Z := 0x08.

Definition VFS_SUPERBLOCK_NO_DCACHE : Z := 0x01.

(** The flags of an open that the name lookup looks at. *)
Record open_flags := mk_open_flags {
  O_CREAT : bool; O_EXCL : bool; O_NOFOLLOW : bool; O_WRONLY : bool; O_RDWR : bool; O_APPEND : bool;
}.
Definition no_flags : open_flags := mk_open_flags false false false false false false.

(** ** The state *)

(** An inode.  [readers], [writer] and [lock_depth] are its read-write semaphore. *)
Record node := mk_node {
  n_superblock : option Z; n_ops : Z; number : Z; n_ref : Z;
  uid : Z; gid : Z; mode : mode_t; atime : Z; mtime : Z; ctime : Z; nlink : Z;
  n_flags : Z; n_error : option errno;
  readers : Z; writer : bool; lock_depth : Z;
}.
Implicit Types (x y : node).

Record dentry := mk_dentry {
  name : list Z; inode : option Z; inode_number : Z; flags : Z; error : option errno;
  parent : option Z; mount_point : option Z; shadow_mount_point : option Z;
  children : list Z; ref_count : Z;
}.
Implicit Types (e : dentry).

Record superblock := mk_superblock { sb_ref : Z; inodes : gmap Z Z; sb_root : Z; sb_ops : option Z; sb_flags : Z }.

Record mount := mk_mount { m_root : Z; m_shadow : Z; m_flags : Z }.

(** The root and the working directory of the running process. *)
Record context := mk_context { c_root : Z; c_cwd : Z }.

(** [dentry_pool] and [mount_pool] are the objects that the slab caches give next, [mount_lock]
    whether the lock of the mount points is held. *)
Record state (F : Type) := mk_state {
  dentries : gmap Z dentry;
  lru : list Z;
  nodes : gmap Z node;
  superblocks : gmap Z superblock;
  mounts : gmap Z mount;
  dentry_pool : list Z;
  mount_pool : list Z;
  mount_lock : bool;
  root : Z;
  proc_context : option context;
  private : F;
}.
Arguments mk_state {F}. Arguments dentries {F}. Arguments lru {F}. Arguments nodes {F}. Arguments superblocks {F}.
Arguments mounts {F}. Arguments dentry_pool {F}. Arguments mount_pool {F}. Arguments mount_lock {F}. Arguments root {F}.
Arguments proc_context {F}. Arguments private {F}.

Definition set_n_ref r x := mk_node (n_superblock x) (n_ops x) (number x) r (uid x) (gid x) (mode x) (atime x) (mtime x) (ctime x) (nlink x) (n_flags x) (n_error x) (readers x) (writer x) (lock_depth x).
Definition set_n_flags fl er x := mk_node (n_superblock x) (n_ops x) (number x) (n_ref x) (uid x) (gid x) (mode x) (atime x) (mtime x) (ctime x) (nlink x) fl er (readers x) (writer x) (lock_depth x).
Definition set_lock r w n x := mk_node (n_superblock x) (n_ops x) (number x) (n_ref x) (uid x) (gid x) (mode x) (atime x) (mtime x) (ctime x) (nlink x) (n_flags x) (n_error x) r w n.
Definition set_attr u g m a mt c x := mk_node (n_superblock x) (n_ops x) (number x) (n_ref x) u g m a mt c (nlink x) (n_flags x) (n_error x) (readers x) (writer x) (lock_depth x).
Definition set_nlink n x := mk_node (n_superblock x) (n_ops x) (number x) (n_ref x) (uid x) (gid x) (mode x) (atime x) (mtime x) (ctime x) n (n_flags x) (n_error x) (readers x) (writer x) (lock_depth x).
Definition set_superblock s x := mk_node s (n_ops x) (number x) (n_ref x) (uid x) (gid x) (mode x) (atime x) (mtime x) (ctime x) (nlink x) (n_flags x) (n_error x) (readers x) (writer x) (lock_depth x).
Definition set_number n x := mk_node (n_superblock x) (n_ops x) n (n_ref x) (uid x) (gid x) (mode x) (atime x) (mtime x) (ctime x) (nlink x) (n_flags x) (n_error x) (readers x) (writer x) (lock_depth x).

Definition set_name s mp e := mk_dentry s (inode e) (inode_number e) (flags e) (error e) (parent e) mp (shadow_mount_point e) (children e) (ref_count e).
Definition set_inode i n e := mk_dentry (name e) i n (flags e) (error e) (parent e) (mount_point e) (shadow_mount_point e) (children e) (ref_count e).
Definition set_flags fl er e := mk_dentry (name e) (inode e) (inode_number e) fl er (parent e) (mount_point e) (shadow_mount_point e) (children e) (ref_count e).
Definition set_parent p e := mk_dentry (name e) (inode e) (inode_number e) (flags e) (error e) p (mount_point e) (shadow_mount_point e) (children e) (ref_count e).
Definition set_shadow m e := mk_dentry (name e) (inode e) (inode_number e) (flags e) (error e) (parent e) (mount_point e) m (children e) (ref_count e).
Definition set_children l e := mk_dentry (name e) (inode e) (inode_number e) (flags e) (error e) (parent e) (mount_point e) (shadow_mount_point e) l (ref_count e).
Definition set_ref r e := mk_dentry (name e) (inode e) (inode_number e) (flags e) (error e) (parent e) (mount_point e) (shadow_mount_point e) (children e) r.

Definition or_flag (fl : Z) e := set_flags (Z.lor (flags e) fl) (error e) e.
Definition clear_flag (fl : Z) e := set_flags (Z.ldiff (flags e) fl) (error e) e.

Section state_setters.
Context {F : Type}.
Implicit Types (st : state F).

Definition set_dentries m st := mk_state m (lru st) (nodes st) (superblocks st) (mounts st) (dentry_pool st) (mount_pool st) (mount_lock st) (root st) (proc_context st) (private st).
Definition set_lru l st := mk_state (dentries st) l (nodes st) (superblocks st) (mounts st) (dentry_pool st) (mount_pool st) (mount_lock st) (root st) (proc_context st) (private st).
Definition set_nodes m st := mk_state (dentries st) (lru st) m (superblocks st) (mounts st) (dentry_pool st) (mount_pool st) (mount_lock st) (root st) (proc_context st) (private st).
Definition set_superblocks m st := mk_state (dentries st) (lru st) (nodes st) m (mounts st) (dentry_pool st) (mount_pool st) (mount_lock st) (root st) (proc_context st) (private st).
Definition set_mounts m st := mk_state (dentries st) (lru st) (nodes st) (superblocks st) m (dentry_pool st) (mount_pool st) (mount_lock st) (root st) (proc_context st) (private st).
Definition set_dentry_pool l st := mk_state (dentries st) (lru st) (nodes st) (superblocks st) (mounts st) l (mount_pool st) (mount_lock st) (root st) (proc_context st) (private st).
Definition set_mount_pool l st := mk_state (dentries st) (lru st) (nodes st) (superblocks st) (mounts st) (dentry_pool st) l (mount_lock st) (root st) (proc_context st) (private st).
Definition set_mount_lock b st := mk_state (dentries st) (lru st) (nodes st) (superblocks st) (mounts st) (dentry_pool st) (mount_pool st) b (root st) (proc_context st) (private st).
Definition set_root r st := mk_state (dentries st) (lru st) (nodes st) (superblocks st) (mounts st) (dentry_pool st) (mount_pool st) (mount_lock st) r (proc_context st) (private st).
Definition set_proc_context c st := mk_state (dentries st) (lru st) (nodes st) (superblocks st) (mounts st) (dentry_pool st) (mount_pool st) (mount_lock st) (root st) c (private st).
Definition set_private (p : F) st := mk_state (dentries st) (lru st) (nodes st) (superblocks st) (mounts st) (dentry_pool st) (mount_pool st) (mount_lock st) (root st) (proc_context st) p.

(** Accesses to an entry, an inode, a superblock. *)
Definition upd_dentry (f : dentry -> dentry) (d : Z) st : option (state F) :=
  e ← dentries st !! d; Some (set_dentries (<[d := f e]> (dentries st)) st).
Definition upd_node (f : node -> node) (n : Z) st : option (state F) :=
  x ← nodes st !! n; Some (set_nodes (<[n := f x]> (nodes st)) st).
Definition upd_superblock (f : superblock -> superblock) (s : Z) st : option (state F) :=
  sb ← superblocks st !! s; Some (set_superblocks (<[s := f sb]> (superblocks st)) st).
End state_setters.

(** ** Tables of operations *)

Record superblock_ops (S : Type) := mk_superblock_ops {
  sb_destroy : option (Z -> S -> option S);
  flush_inode : option (Z -> Z -> S -> option (S * res unit));
}.
Arguments sb_destroy {S}. Arguments flush_inode {S}. Arguments mk_superblock_ops {S}.

(** Who runs and when, and what the life of an inode needs of its table. *)
Class Env := { current_euid : Z; current_egid : Z; gettime_sec : Z }.

Class NodeTables (F : Type) := {
  op_cleanup : Z -> option (Z -> state F -> option (state F));
  op_getattr : Z -> option (Z -> stat -> state F -> stat * res unit);
  op_setattr : Z -> option (Z -> stat -> Z -> state F -> option (state F * res unit));
  superblock_table : Z -> superblock_ops (state F);
}.

Record inode_ops (S : Type) := mk_inode_ops {
  op_lookup : option (Z -> Z -> S -> option (S * res unit));
  op_create : option (Z -> Z -> Z -> S -> option (S * res unit));
  op_mkdir : option (Z -> Z -> Z -> S -> option (S * res unit));
  op_mknod : option (Z -> Z -> mode_t -> Z -> S -> option (S * res unit));
  op_unlink : option (Z -> Z -> S -> option (S * res unit));
  op_rmdir : option (Z -> Z -> S -> option (S * res unit));
  op_rename : option (Z -> Z -> Z -> Z -> Z -> S -> option (S * res unit));
  op_link : option (Z -> Z -> Z -> S -> option (S * res unit));
  op_symlink : option (Z -> Z -> list Z -> S -> option (S * res unit));
  op_readlink : option (Z -> Z -> S -> option (S * res (list Z)));
  op_truncate : option (Z -> Z -> S -> option (S * res unit));
}.
Arguments op_lookup {S}. Arguments op_create {S}. Arguments op_mkdir {S}. Arguments op_mknod {S}. Arguments op_unlink {S}.
Arguments op_rmdir {S}. Arguments op_rename {S}. Arguments op_link {S}. Arguments op_symlink {S}. Arguments op_readlink {S}.
Arguments op_truncate {S}. Arguments mk_inode_ops {S}.

Class DirTables (F : Type) := ops_table : Z -> inode_ops (state F).

(** The limits that the C library's headers set. *)
Class Limits := { NAME_MAX : Z; PATH_MAX : Z; SYMLOOP_MAX : Z }.

(** ** Inodes *)

Section nodes.
Context {F : Type} `{Env, NodeTables F}.
Implicit Types (st : state F).

(** [vfs_node_acquire_read] and the others do nothing on a null inode. *)
Definition node_acquire_read (n : Z) st : option (state F) :=
  x ← nodes st !! n;
  if writer x then upd_node (set_lock (readers x) true (lock_depth x + 1)) n st
  else upd_node (set_lock (readers x + 1) false (lock_depth x)) n st.

Definition node_release_read (n : Z) st : option (state F) :=
  x ← nodes st !! n;
  if writer x then kassert (0 <? lock_depth x);; upd_node (set_lock (readers x) true (lock_depth x - 1)) n st
  else kassert (0 <? readers x);; upd_node (set_lock (readers x - 1) false (lock_depth x)) n st.

Definition node_acquire_write (n : Z) st : option (state F) :=
  x ← nodes st !! n;
  if writer x then upd_node (set_lock (readers x) true (lock_depth x + 1)) n st
  else kassert (readers x =? 0);; upd_node (set_lock (readers x) true 1) n st.

Definition node_release_write (n : Z) st : option (state F) :=
  x ← nodes st !! n;
  kassert (writer x);; kassert (0 <? lock_depth x);;
  upd_node (set_lock (readers x) (negb (lock_depth x =? 1)) (lock_depth x - 1)) n st.

Definition on_node (f : Z -> state F -> option (state F)) (n : option Z) st : option (state F) :=
  match n with Some n => f n st | None => Some st end.

Notation vfs_node_acquire_read := (on_node node_acquire_read).
Notation vfs_node_release_read := (on_node node_release_read).
Notation vfs_node_acquire_write := (on_node node_acquire_write).
Notation vfs_node_release_write := (on_node node_release_write).

Definition vfs_node_ref (n : option Z) st : option (state F) :=
  on_node (fun n st => x ← nodes st !! n; upd_node (set_n_ref (n_ref x + 1)) n st) n st.

Definition node_superblock (n : Z) st : option (Z * superblock) :=
  x ← nodes st !! n; s ← n_superblock x; sb ← superblocks st !! s; Some (s, sb).

Definition vfs_node_flush (n : Z) st : option (state F * res unit) :=
  x ← nodes st !! n;
  let dirty := Z.lor VNODE_FLAG_DIRTY VNODE_FLAG_DATA_DIRTY in
  if negb (has (n_flags x) dirty) then Some (st, Ok tt)
  else
    st ← upd_node (set_n_flags (Z.ldiff (n_flags x) dirty) (n_error x)) n st;
    '(s, sb) ← node_superblock n st;
    match (t ← sb_ops sb; flush_inode (superblock_table t)) with
    | None => Some (st, Ok tt)
    | Some flush =>
        st ← node_acquire_read n st;
        '(st, ret) ← flush s n st;
        st ← node_release_read n st;
        Some (st, ret)
    end.

Definition node_release (n : Z) st : option (state F) :=
  x ← nodes st !! n;
  if negb (n_ref x =? 1) then upd_node (set_n_ref (ref_dec (n_ref x))) n st
  else
    '(st, _) ← vfs_node_flush n st;
    '(s, sb) ← node_superblock n st;
    x ← nodes st !! n;
    st ← upd_node (set_n_ref (ref_dec (n_ref x))) n st;
    if 1 <? n_ref x then Some st
    else
      st ← upd_superblock (fun sb => mk_superblock (sb_ref sb) (delete (number x) (inodes sb)) (sb_root sb) (sb_ops sb) (sb_flags sb)) s st;
      match op_cleanup (n_ops x) with
      | Some cleanup => cleanup n st
      | None => Some (set_nodes (delete n (nodes st)) st)
      end.

Definition vfs_node_release (n : option Z) st : option (state F) := on_node node_release n st.

Definition vfs_node_mark_dirty (n : Z) st : option (state F) :=
  upd_node (fun x => set_n_flags (Z.lor (n_flags x) VNODE_FLAG_DIRTY) (n_error x) x) n st.

Definition vfs_node_mark_data_dirty (n : Z) st : option (state F) :=
  upd_node (fun x => set_n_flags (Z.lor (n_flags x) VNODE_FLAG_DATA_DIRTY) (n_error x) x) n st.

Definition vfs_init_created_node x : node :=
  set_nlink 1 (set_attr current_euid current_egid (mode x) gettime_sec gettime_sec gettime_sec x).

Definition vfs_node_inc_nlink (n : Z) st : option (state F) := upd_node (fun x => set_nlink (nlink x + 1) x) n st.
Definition vfs_node_dec_nlink (n : Z) st : option (state F) := upd_node (fun x => set_nlink (nlink x - 1) x) n st.

(** *** Attributes *)

Definition stat_of x : stat :=
  mk_stat (number x) (mode x) (uid x) (gid x) (atime x) (mtime x) (ctime x) (nlink x) 0 0 0 0.

(** The attributes are filled in also when the file system returns an error. *)
Definition vfs_getattr (n : Z) st : option (stat * res unit) :=
  x ← nodes st !! n;
  match op_getattr (n_ops x) with
  | Some getattr => Some (getattr n (stat_of x) st)
  | None => Some (stat_of x, Ok tt)
  end.

Definition vfs_raw_setattr (n : Z) (a : stat) (mask : Z) st : option (state F * res unit) :=
  x ← nodes st !! n;
  match op_setattr (n_ops x) with
  | None => Some (st, Err EOPNOTSUPP)
  | Some setattr =>
      '(st, ret) ← setattr n a mask st;
      match ret with
      | Err err => Some (st, Err err)
      | Ok _ =>
          x ← nodes st !! n;
          st ← upd_node (set_attr
            (if has mask VNODE_ATTR_UID then st_uid a else uid x)
            (if has mask VNODE_ATTR_GID then st_gid a else gid x)
            (if has mask VNODE_ATTR_MODE then mk_mode (ifmt (mode x)) (perms (st_mode a)) else mode x)
            (if has mask VNODE_ATTR_ATIME then st_atime a else atime x)
            (if has mask VNODE_ATTR_MTIME then st_mtime a else mtime x)
            (if has mask VNODE_ATTR_CTIME then st_ctime a else ctime x)) n st;
          st ← vfs_node_mark_dirty n st;
          Some (st, Ok tt)
      end
  end.

Definition vfs_setattr (n : option Z) (a : stat) (mask : Z) st : option (state F * res unit) :=
  match n with Some n => vfs_raw_setattr n a mask st | None => Some (st, Err EBADF) end.

(** Attributes with the fields that the mask names; the others are not set. *)
Definition attrs (m : mode_t) (u g a mt c : Z) : stat := mk_stat 0 m u g a mt c 0 0 0 0 0.
Definition no_mode : mode_t := mk_mode S_NONE 0.

Definition vfs_update_time (n : option Z) (mask : Z) st : option (state F) :=
  '(st, _) ← vfs_setattr n (attrs no_mode 0 0 gettime_sec gettime_sec gettime_sec) mask st; Some st.

(** The changes that the owner of the file or the super-user makes. *)
Definition owner_setattr (n : Z) (a : node -> stat) (mask : Z) st : option (state F * res unit) :=
  st ← node_acquire_write n st;
  x ← nodes st !! n;
  '(st, ret) ← (if (current_euid =? uid x) || (current_euid =? 0) then vfs_setattr (Some n) (a x) mask st
                else Some (st, Err EPERM));
  st ← node_release_write n st;
  Some (st, ret).

Definition vfs_chmod (n : Z) (perm : Z) st : option (state F * res unit) :=
  owner_setattr n (fun _ => attrs (mk_mode S_NONE perm) 0 0 0 0 0) VNODE_ATTR_MODE st.

Definition vfs_chown (n : Z) (owner group_owner : Z) st : option (state F * res unit) :=
  owner_setattr n
    (fun x => attrs (mk_mode (ifmt (mode x)) (Z.ldiff (perms (mode x)) (Z.lor S_ISUID S_ISGID))) owner group_owner 0 0 0)
    (Z.lor VNODE_ATTR_UID VNODE_ATTR_GID) st.

Definition vfs_utimes (n : Z) (a m : Z) st : option (state F * res unit) :=
  owner_setattr n (fun _ => attrs no_mode 0 0 a m 0) (Z.lor VNODE_ATTR_ATIME VNODE_ATTR_MTIME) st.

(** *** Permissions *)

Definition vfs_user_perm (n : Z) (u g : Z) st : option Z :=
  '(a, _) ← vfs_getattr n st;
  let m := perms (st_mode a) in
  let perm := if u =? 0 then Z.lor 6 (if S_ISDIR (st_mode a) then 1 else 0) else 0 in
  let perm := if u =? st_uid a then Z.lor perm (Z.land (Z.shiftr m 6) 7) else perm in
  let perm := if g =? st_gid a then Z.lor perm (Z.land (Z.shiftr m 3) 7) else perm in
  Some (if (u =? st_uid a) || (g =? st_gid a) then perm else Z.lor perm (Z.land m 7)).

Definition vfs_perm (n : Z) st : option Z := vfs_user_perm n current_euid current_egid st.

(** ** The life of a directory entry *)

Definition empty_dentry : dentry := mk_dentry [] None 0 0 None None None None [] 0.

(** [strcpy] into a name of 256 bytes. *)
Definition copy_name (s : list Z) : option (list Z) := if lenZ s <? 256 then Some s else None.

Definition vfs_dentry_is_populated e : bool := match inode e with Some _ => true | None => false end.

Definition dentry_ref (d : Z) st : option (state F) :=
  e ← dentries st !! d; upd_dentry (set_ref (ref_count e + 1)) d st.

Definition vfs_dentry_ref (d : option Z) st : option (state F) :=
  match d with Some d => dentry_ref d st | None => Some st end.

(** [rculist_raw_remove]: the links of an entry that is in no list are null, and removing it from a
    list that does not hold it empties that list. *)
Definition remove_child (d : Z) (l : list Z) : list Z :=
  if bool_decide (d ∈ l) then filter (fun c => c <> d) l else [].

(** [list_remove] on the list of the entries that can be evicted, which must hold the entry. *)
Definition vfs_dentry_remove_lru (d : Z) st : option (state F) :=
  kassert (bool_decide (d ∈ lru st));; Some (set_lru (filter (fun c => c <> d) (lru st)) st).

Definition vfs_dentry_add_lru (d : Z) st : state F := set_lru (lru st ++ [d]) st.

(** Whether an entry without references is thrown away instead of being kept. *)
Definition cannot_cache e st : option bool :=
  match inode e with
  | None => Some true
  | Some n =>
      if has (flags e) VFS_DENTRY_FLAG_UNLINKED then Some true
      else '(_, sb) ← node_superblock n st; Some (has (sb_flags sb) VFS_SUPERBLOCK_NO_DCACHE)
  end.

(** [slab_free] of an entry whose parent is null: the destructor releases the inode. *)
Definition free_dentry (d : Z) st : option (state F) :=
  e ← dentries st !! d;
  st ← vfs_node_release (inode e) st;
  Some (set_dentry_pool (d :: dentry_pool st) (set_dentries (delete d (dentries st)) st)).

Fixpoint dentry_release_loop (fuel : nat) (d : Z) st : option (state F) :=
  match fuel with
  | O => None
  | S fuel =>
      e ← dentries st !! d;
      if negb (ref_count e =? 1) then upd_dentry (set_ref (ref_dec (ref_count e))) d st
      else
        kassert (negb (bool_decide (parent e = Some d)));;
        no_cache ← cannot_cache e st;
        st ← upd_dentry (set_ref (ref_dec (ref_count e))) d st;
        if (no_cache : bool) then
          st ← match parent e with
               | Some p => upd_dentry (fun q => set_children (remove_child d (children q)) q) p st
               | None => Some st
               end;
          st ← upd_dentry (set_parent None) d st;
          st ← free_dentry d st;
          match parent e with
          | Some p => dentry_release_loop fuel p st
          | None => Some st
          end
        else Some (vfs_dentry_add_lru d st)
  end.

Definition vfs_dentry_release (d : Z) st : option (state F) := dentry_release_loop (S (size (dentries st))) d st.

(** A null pointer is not released. *)
Definition release_opt (d : option Z) st : option (state F) :=
  match d with Some d => vfs_dentry_release d st | None => Some st end.

Definition vfs_dentry_add (p d : Z) st : option (state F) :=
  st ← dentry_ref p st;
  st ← upd_dentry (set_parent (Some p)) d st;
  upd_dentry (fun q => set_children (children q ++ [d]) q) p st.

Definition vfs_dentry_remove (d : Z) st : option (state F) :=
  e ← dentries st !! d;
  match parent e with
  | None => Some st
  | Some p =>
      st ← upd_dentry (fun q => set_children (remove_child d (children q)) q) p st;
      st ← vfs_dentry_release p st;
      upd_dentry (set_parent None) d st
  end.

(** [slab_alloc], with the callback that evicts the entry that has not been used for the longest. *)
Definition vfs_dentry_allocate st : option (state F * option Z) :=
  match dentry_pool st with
  | d :: rest => Some (set_dentries (<[d := empty_dentry]> (dentries st)) (set_dentry_pool rest st), Some d)
  | [] =>
      match lru st with
      | [] => Some (st, None)
      | d :: rest =>
          let st := set_lru rest st in
          e ← dentries st !! d;
          st ← vfs_node_release (inode e) st;
          st ← vfs_dentry_remove d st;
          Some (set_dentries (<[d := empty_dentry]> (dentries st)) st, Some d)
      end
  end.

(** ** Mount points *)

Fixpoint follow_loop (fuel : nat) (d : Z) st : option Z :=
  match fuel with
  | O => None
  | S fuel =>
      e ← dentries st !! d;
      match shadow_mount_point e with
      | None => Some d
      | Some m => mp ← mounts st !! m; follow_loop fuel (m_root mp) st
      end
  end.

Definition vfs_dentry_follow_mount_points (d : Z) st : option Z := follow_loop (S (size (mounts st))) d st.

End nodes.

(** ** Name lookup *)

Notation vfs_node_acquire_read := (on_node node_acquire_read).
Notation vfs_node_release_read := (on_node node_release_read).
Notation vfs_node_acquire_write := (on_node node_acquire_write).
Notation vfs_node_release_write := (on_node node_release_write).

Definition SLASH : Z := 47.
Definition DOT : Z := 46.

Section lookup.
Context {F : Type} `{Env, NodeTables F, DirTables F, Limits}.
Implicit Types (st : state F).

(** A new entry is ready when the lookup that made it returns: nothing waits here. *)
Definition vfs_dentry_wait_ready_helper (d : Z) st : option (state F * res Z) :=
  e ← dentries st !! d;
  kassert (negb (has (flags e) VFS_DENTRY_FLAG_NEW));;
  if has (flags e) VFS_DENTRY_FLAG_ERROR then
    err ← error e; st ← vfs_dentry_release d st; Some (st, Err err)
  else Some (st, Ok d).

Fixpoint find_child (l : list Z) (s : list Z) st : option (option Z) :=
  match l with
  | [] => Some None
  | c :: l =>
      e ← dentries st !! c;
      if bool_decide (name e = s) then Some (Some c) else find_child l s st
  end.

Definition vfs_internal_lookup (d : Z) (s : list Z) st : option (option Z) :=
  e ← dentries st !! d; find_child (children e) s st.

(** A reference to an entry that was found: one without references is on the list of those that can
    be evicted. *)
Definition ref_cached (d : Z) st : option (state F) :=
  e ← dentries st !! d;
  st ← (if ref_count e =? 0 then vfs_dentry_remove_lru d st else Some st);
  dentry_ref d st.

(** The reading of a directory: entry, name, and the state with the lock of the inode held. *)
Definition vfs_lookup (d : Z) (s : list Z) st : option (state F * res Z) :=
  e ← dentries st !! d;
  match inode e with
  | None => Some (st, Err EINVAL)
  | Some n =>
      x ← nodes st !! n;
      if negb (S_ISDIR (mode x)) then Some (st, Err ENOTDIR)
      else
        st ← node_acquire_read n st;
        perm ← vfs_perm n st;
        if negb (has perm PERM_EXECUTE) then st ← node_release_read n st; Some (st, Err EACCES)
        else if bool_decide (s = [DOT; DOT]) then
          st ← node_release_read n st;
          let p := default d (parent e) in
          st ← dentry_ref p st; Some (st, Ok p)
        else if bool_decide (s = [DOT]) then
          st ← node_release_read n st;
          st ← dentry_ref d st; Some (st, Ok d)
        else
          child ← vfs_internal_lookup d s st;
          match child with
          | Some c =>
              c ← vfs_dentry_follow_mount_points c st;
              st ← ref_cached c st;
              st ← node_release_read n st;
              vfs_dentry_wait_ready_helper c st
          | None =>
              match op_lookup (ops_table (n_ops x)) with
              | None => st ← node_release_read n st; Some (st, Err EOPNOTSUPP)
              | Some lookup =>
                  '(st, child) ← vfs_dentry_allocate st;
                  match child with
                  | None => st ← node_release_read n st; Some (st, Err ENOMEM)
                  | Some c =>
                      s ← copy_name s;
                      st ← upd_dentry (or_flag VFS_DENTRY_FLAG_NEW ∘ set_ref 1 ∘ set_name s (mount_point e)) c st;
                      old ← vfs_internal_lookup d s st;
                      match old with
                      | Some o =>
                          o ← vfs_dentry_follow_mount_points o st;
                          st ← ref_cached o st;
                          st ← node_release_read n st;
                          st ← vfs_dentry_release c st;
                          vfs_dentry_wait_ready_helper o st
                      | None =>
                          st ← vfs_dentry_add d c st;
                          '(st, ret) ← lookup n c st;
                          match ret with
                          | Err err =>
                              st ← vfs_dentry_remove c st;
                              st ← upd_dentry (fun q => set_flags (Z.ldiff (Z.lor (flags q) VFS_DENTRY_FLAG_ERROR) VFS_DENTRY_FLAG_NEW) (Some err) q) c st;
                              st ← vfs_dentry_release c st;
                              st ← node_release_read n st;
                              Some (st, Err err)
                          | Ok _ =>
                              q ← dentries st !! c;
                              kassert (vfs_dentry_is_populated q);;
                              st ← upd_dentry (clear_flag VFS_DENTRY_FLAG_NEW) c st;
                              st ← node_release_read n st;
                              Some (st, Ok c)
                          end
                      end
                  end
              end
          end
  end.

(** *** Links *)

Definition vfs_readlink (n : Z) (bufsiz : Z) st : option (state F * res (list Z)) :=
  x ← nodes st !! n;
  if negb (S_ISLNK (mode x)) then Some (st, Err ENOLINK)
  else
    match op_readlink (ops_table (n_ops x)) with
    | None => Some (st, Err EOPNOTSUPP)
    | Some readlink => st ← vfs_update_time (Some n) VNODE_ATTR_ATIME st; readlink n bufsiz st
    end.

(** *** Paths *)

(** The indices at which the components of a path start. *)
Fixpoint path_starts (i : nat) (path : list Z) (last_is_sep : bool) : list nat :=
  match path with
  | [] => []
  | c :: path =>
      if c =? SLASH then path_starts (S i) path true
      else if last_is_sep then i :: path_starts (S i) path false
      else path_starts (S i) path false
  end.

(** The string that starts there, when the separators are replaced by the end of a string. *)
Fixpoint upto_sep (l : list Z) : list Z :=
  match l with
  | [] => []
  | c :: l => if c =? SLASH then [] else c :: upto_sep l
  end.

Definition path_array (path : list Z) : list (list Z) :=
  map (fun i => upto_sep (drop i path)) (path_starts 0 path true).

(** The array of the components.  It has 128 places and nothing checks that they are enough: a path with
    more components is written past its end, from where the model does not go on. *)
Definition parse_path (path : list Z) : option (list (list Z)) :=
  let comps := path_array path in
  kassert (lenZ comps <=? 128);; Some comps.

(** What the walk along a path returns: an entry, or null when the parent of the root is asked for;
    with the name of the last component, cut to the buffer. *)
Definition get_fn : Type := option Z -> list Z -> bool -> open_flags -> Z -> Z -> state F -> option (state F * Z * res (option Z * list Z)).

(** The creation of a missing last component, or the entry that was found. *)
Definition walk_create (create : Z -> list Z -> Z -> state F -> option (state F * res unit)) (cur : Z) (s : list Z)
    (is_last : bool) (fl : open_flags) (m : Z) st : option (state F * bool * res Z) :=
  '(st, next) ← vfs_lookup cur s st;
  match next with
  | Ok next => Some (st, false, Ok next)
  | Err err =>
      if negb (bool_decide (err = ENOENT)) || negb is_last || negb (O_CREAT fl) then Some (st, false, Err err)
      else
        e ← dentries st !! cur; n ← inode e; x ← nodes st !! n;
        match op_create (ops_table (n_ops x)) with
        | None => Some (st, false, Err EINVAL)
        | Some _ =>
            st ← node_acquire_write n st;
            '(st, ret) ← create cur s m st;
            match ret with
            | Err err =>
                if bool_decide (err = EEXIST) then
                  '(st, next) ← vfs_lookup cur s st;
                  st ← node_release_write n st;
                  Some (st, false, next)
                else st ← node_release_write n st; Some (st, true, Err err)
            | Ok _ =>
                '(st, next) ← vfs_lookup cur s st;
                st ← node_release_write n st;
                Some (st, true, next)
            end
        end
  end.

(** Following the link an entry stands for, as long as it stands for one; [recur] walks along the
    target.  When the budget is used up, or the target cannot be read, the code returns a variable
    that was not set. *)
Fixpoint follow_links (recur : get_fn) (fuel : nat) (cur : Z) (fl : open_flags) (loop_max : Z) (m : Z) st
    : option (state F * Z * res Z) :=
  match fuel with
  | O => None
  | S fuel =>
      e ← dentries st !! cur; n ← inode e; x ← nodes st !! n;
      if negb (S_ISLNK (mode x)) then Some (st, loop_max, Ok cur)
      else
        kassert (0 <? loop_max);;
        '(st, r) ← vfs_readlink n PATH_MAX st;
        match r with
        | Err _ => None
        | Ok target =>
            kassert (lenZ target <? PATH_MAX);;
            '(st, at_) ← (match target with
                          | c :: _ => if c =? SLASH then Some (st, None) else p ← parent e; st ← dentry_ref p st; Some (st, Some p)
                          | [] => p ← parent e; st ← dentry_ref p st; Some (st, Some p)
                          end);
            '(st, loop_max, next) ← recur at_ target false fl (loop_max - 1) m st;
            match next with
            | Err err => st ← vfs_dentry_release cur st; Some (st, loop_max, Err err)
            | Ok (None, _) => None
            | Ok (Some next, _) =>
                st ← vfs_dentry_release cur st;
                follow_links recur fuel next fl loop_max m st
            end
        end
  end.

(** The components one after the other.  [created] is whether the last one was. *)
Fixpoint walk (recur : get_fn) (create : Z -> list Z -> Z -> state F -> option (state F * res unit))
    (comps : list (list Z)) (created : bool) (cur : Z) (fl : open_flags) (loop_max : Z) (m : Z) st
    : option (state F * Z * bool * res Z) :=
  match comps with
  | [] => Some (st, loop_max, created, Ok cur)
  | s :: comps =>
      let is_last := match comps with [] => true | _ => false end in
      '(st, made, next) ← walk_create create cur s is_last fl m st;
      let created := created || made in
      match next with
      | Err err => st ← vfs_dentry_release cur st; Some (st, loop_max, created, Err err)
      | Ok next =>
          st ← vfs_dentry_release cur st;
          if O_NOFOLLOW fl && is_last then walk recur create comps created next fl loop_max m st
          else
            '(st, loop_max, next) ← follow_links recur (S (Z.to_nat loop_max)) next fl loop_max m st;
            match next with
            | Err err => Some (st, loop_max, created, Err err)
            | Ok next => walk recur create comps created next fl loop_max m st
            end
      end
  end.

(** The body of the walk, from the splitting of the path on. *)
Definition get_dentry_step (recur : get_fn) (create : Z -> list Z -> Z -> state F -> option (state F * res unit)) : get_fn :=
  fun at_ path want_last fl loop_max m st =>
  comps ← parse_path path;
  let last := if want_last then takeZ (NAME_MAX - 1) (List.last comps []) else [] in
  match want_last, comps with
  | true, [] => Some (st, loop_max, Ok (None, last))
  | _, _ =>
      let comps := if want_last then removelast comps else comps in
      cur ← at_;
      '(st, loop_max, created, r) ← walk recur create comps false cur fl loop_max m st;
      match r with
      | Err err => Some (st, loop_max, Err err)
      | Ok cur =>
          if negb created && O_EXCL fl then st ← vfs_dentry_release cur st; Some (st, loop_max, Err EEXIST)
          else Some (st, loop_max, Ok (Some cur, last))
      end
  end.

(** A path starts at the given entry, at the root or at the working directory of the process. *)
Definition get_start (at_ : option Z) (path : list Z) st : option (state F * Z) :=
  let d := match at_ with
           | Some d => d
           | None =>
               match proc_context st with
               | Some c =>
                   match path with
                   | ch :: _ => if ch =? SLASH then c_root c else c_cwd c
                   | [] => c_root c
                   end
               | None => root st
               end
           end in
  st ← dentry_ref d st; Some (st, d).

Definition get_parent_with (recur : get_fn) (at_ : option Z) (path : list Z) (want_last : bool) (fl : open_flags) (m : Z) st
    : option (state F * res (option Z * list Z)) :=
  '(st, d) ← get_start at_ path st;
  '(st, _, r) ← recur (Some d) path want_last fl SYMLOOP_MAX m st;
  Some (st, r).

(** ** Operations on names *)

Definition vfs_create_child_dentry (p : Z) (s : list Z) st : option (state F * res Z) :=
  '(st, d) ← vfs_dentry_allocate st;
  match d with
  | None => Some (st, Err ENOMEM)
  | Some d =>
      '(st, found) ← vfs_lookup p s st;
      match found with
      | Ok c => st ← vfs_dentry_release c st; st ← vfs_dentry_release d st; Some (st, Err EEXIST)
      | Err err =>
          if negb (bool_decide (err = ENOENT)) then st ← vfs_dentry_release d st; Some (st, Err err)
          else
            e ← dentries st !! p; n ← inode e;
            perm ← vfs_perm n st;
            if negb (has perm PERM_WRITE) then st ← vfs_dentry_release d st; Some (st, Err EACCES)
            else
              s ← copy_name s;
              st ← upd_dentry (set_ref 1 ∘ set_name s (mount_point e)) d st;
              Some (st, Ok d)
      end
  end.

(** The parent and the new entry, with the inode of the parent locked. *)
Definition create_dentry_with (recur : get_fn) (at_ : option Z) (path : list Z) st : option (state F * res (Z * Z)) :=
  '(st, r) ← get_parent_with recur at_ path true no_flags 511 st;
  match r with
  | Err err => Some (st, Err err)
  | Ok (None, _) => Some (st, Err EEXIST)
  | Ok (Some p, last) =>
      e ← dentries st !! p; n ← inode e; x ← nodes st !! n;
      if negb (S_ISDIR (mode x)) then st ← vfs_dentry_release p st; Some (st, Err ENOTDIR)
      else
        st ← node_acquire_write n st;
        '(st, d) ← vfs_create_child_dentry p last st;
        match d with
        | Err err => st ← node_release_write n st; st ← vfs_dentry_release p st; Some (st, Err err)
        | Ok d => Some (st, Ok (p, d))
        end
  end.

(** The common part of the operations that make a file: [op] of the inode of the parent, and the
    entry joins the tree if the file system filled it in ([link] is false for symbolic links). *)
Definition make_with (recur : get_fn) (op : inode_ops (state F) -> option (Z -> Z -> state F -> option (state F * res unit)))
    (link : bool) (at_ : option Z) (path : list Z) st : option (state F * res unit) :=
  '(st, r) ← create_dentry_with recur at_ path st;
  match r with
  | Err err => Some (st, Err err)
  | Ok (p, d) =>
      e ← dentries st !! p; n ← inode e; x ← nodes st !! n;
      '(st, ret) ← match op (ops_table (n_ops x)) with
                   | None => Some (st, Err EOPNOTSUPP)
                   | Some f =>
                       '(st, ret) ← f n d st;
                       match ret with
                       | Err err => Some (st, Err err)
                       | Ok _ =>
                           q ← dentries st !! d;
                           st ← (if link && vfs_dentry_is_populated q then vfs_dentry_add p d st else Some st);
                           Some (st, Ok tt)
                       end
                   end;
      st ← node_release_write n st;
      st ← vfs_dentry_release p st;
      st ← vfs_dentry_release d st;
      Some (st, ret)
  end.

Definition create_with (recur : get_fn) (at_ : option Z) (path : list Z) (m : Z) st : option (state F * res unit) :=
  make_with recur (fun t => create ← op_create t; Some (fun n d => create n d m)) true at_ path st.

(** The walk calls itself on the targets of links, and for the creation of the last component. *)
Fixpoint vfs_get_dentry_at_recur (fuel : nat) : get_fn :=
  match fuel with
  | O => fun _ _ _ _ _ _ _ => None
  | S fuel =>
      let recur := vfs_get_dentry_at_recur fuel in
      get_dentry_step recur (fun d => create_with recur (Some d))
  end.

Definition get_fuel : nat := 2 + Z.to_nat SYMLOOP_MAX.

Definition vfs_get_dentry_parent_at (at_ : option Z) (path : list Z) (want_last : bool) (fl : open_flags) (m : Z) st
    : option (state F * res (option Z * list Z)) :=
  get_parent_with (vfs_get_dentry_at_recur get_fuel) at_ path want_last fl m st.

Definition vfs_get_dentry_at (at_ : option Z) (path : list Z) (fl : open_flags) (m : Z) st : option (state F * res Z) :=
  '(st, r) ← vfs_get_dentry_parent_at at_ path false fl m st;
  match r with
  | Err err => Some (st, Err err)
  | Ok (d, _) => d ← d; Some (st, Ok d)
  end.

End lookup.

Section names.
Context {F : Type} `{Env, NodeTables F, DirTables F, Limits}.
Implicit Types (st : state F).

Definition vfs_create_dentry (at_ : option Z) (path : list Z) st : option (state F * res (Z * Z)) :=
  create_dentry_with (vfs_get_dentry_at_recur get_fuel) at_ path st.

Definition vfs_create_at (at_ : option Z) (path : list Z) (m : Z) st : option (state F * res unit) :=
  create_with (vfs_get_dentry_at_recur get_fuel) at_ path m st.

Definition vfs_mkdir_at (at_ : option Z) (path : list Z) (m : Z) st : option (state F * res unit) :=
  make_with (vfs_get_dentry_at_recur get_fuel)
    (fun t => mkdir ← op_mkdir t; Some (fun n d => mkdir n d m)) true at_ path st.

Definition vfs_mknod_at (at_ : option Z) (path : list Z) (m : mode_t) (dev : Z) st : option (state F * res unit) :=
  make_with (vfs_get_dentry_at_recur get_fuel)
    (fun t => mknod ← op_mknod t; Some (fun n d => mknod n d m dev)) true at_ path st.

Definition vfs_symlink_at (target : list Z) (at_ : option Z) (path : list Z) st : option (state F * res unit) :=
  make_with (vfs_get_dentry_at_recur get_fuel)
    (fun t => symlink ← op_symlink t; Some (fun n d => symlink n d target)) false at_ path st.

(** The inode of an entry, with its contents. *)
Definition entry_node (d : Z) st : option (dentry * Z * node) :=
  e ← dentries st !! d; n ← inode e; x ← nodes st !! n; Some (e, n, x).

(** The parents that two paths lead to. *)
Definition get_parents (at1 : option Z) (path1 : list Z) (at2 : option Z) (path2 : list Z) st
    : option (state F * res (option Z * list Z * (option Z * list Z))) :=
  '(st, r1) ← vfs_get_dentry_parent_at at1 path1 true no_flags 511 st;
  match r1 with
  | Err err => Some (st, Err err)
  | Ok p1 =>
      '(st, r2) ← vfs_get_dentry_parent_at at2 path2 true no_flags 511 st;
      match r2 with
      | Err err => st ← release_opt p1.1 st; Some (st, Err err)
      | Ok p2 => Some (st, Ok (p1, p2))
      end
  end.

Definition release_all (l : list (option Z)) st : option (state F) :=
  foldl (fun (o : option (state F)) d => st ← o; release_opt d st) (Some st) l.

(** [old_parent] is dereferenced without a test. *)
Definition vfs_link_at (old_at : option Z) (old_path : list Z) (new_at : option Z) (new_path : list Z) st
    : option (state F * res unit) :=
  '(st, r) ← get_parents old_at old_path new_at new_path st;
  match r with
  | Err err => Some (st, Err err)
  | Ok ((old_parent, old_name), (new_parent, new_name)) =>
      match new_parent with
      | None => st ← release_opt old_parent st; Some (st, Err EISDIR)
      | Some np =>
          op ← old_parent;
          '(_, on, ox) ← entry_node op st;
          '(_, nn, nx) ← entry_node np st;
          if negb (bool_decide (n_superblock ox = n_superblock nx)) then
            st ← release_all [Some op; Some np] st; Some (st, Err EXDEV)
          else
            st ← (if on <? nn then st ← node_acquire_read on st; node_acquire_write nn st
                  else st ← node_acquire_write nn st; node_acquire_read on st);
            let finish old_dentry new_dentry ret st :=
              st ← node_release_read on st;
              st ← node_release_write nn st;
              st ← release_all [Some op; Some np; old_dentry; new_dentry] st;
              Some (st, ret) in
            '(st, od) ← vfs_lookup op old_name st;
            match od with
            | Err err => finish None None (Err err) st
            | Ok od =>
                '(st, nd) ← vfs_create_child_dentry np new_name st;
                match nd with
                | Err err => finish (Some od) None (Err err) st
                | Ok nd =>
                    match op_link (ops_table (n_ops nx)) with
                    | None => finish (Some od) (Some nd) (Err EOPNOTSUPP) st
                    | Some link =>
                        '(st, ret) ← link od nn nd st;
                        match ret with
                        | Err err => finish (Some od) (Some nd) (Err err) st
                        | Ok _ =>
                            q ← dentries st !! nd;
                            st ← (if vfs_dentry_is_populated q then vfs_dentry_add np nd st else Some st);
                            finish (Some od) (Some nd) (Ok tt) st
                        end
                    end
                end
            end
      end
  end.

(** *** Removal and renaming *)

Definition vfs_unlink_dentry (d : Z) st : option (state F) :=
  st ← upd_dentry (or_flag VFS_DENTRY_FLAG_UNLINKED) d st; vfs_dentry_remove d st.

Definition vfs_can_delete (d : Z) st : option bool :=
  e ← dentries st !! d; p ← parent e; '(_, pn, _) ← entry_node p st; n ← inode e;
  '(parent_st, _) ← vfs_getattr pn st;
  '(child_st, _) ← vfs_getattr n st;
  if has (perms (st_mode parent_st)) S_ISVTX then
    Some (negb (negb (st_uid parent_st =? current_euid) && negb (st_uid child_st =? current_euid)))
  else perm ← vfs_perm pn st; Some (has perm PERM_WRITE).

Definition vfs_node_acquire_both_write (n1 n2 : Z) st : option (state F) :=
  if n1 <? n2 then st ← node_acquire_write n1 st; node_acquire_write n2 st
  else st ← node_acquire_write n2 st; node_acquire_write n1 st.

(** The entry that a rename will replace, or a new one. *)
Definition rename_target (np : Z) (new_name : list Z) st : option (state F * res Z) :=
  '(st, nd) ← vfs_lookup np new_name st;
  match nd with
  | Ok nd => Some (st, Ok nd)
  | Err err =>
      if negb (bool_decide (err = ENOENT)) then Some (st, Err err)
      else
        '(st, nd) ← vfs_dentry_allocate st;
        match nd with
        | None => Some (st, Err ENOMEM)
        | Some nd =>
            e ← dentries st !! np;
            s ← copy_name new_name;
            st ← upd_dentry (set_ref 1 ∘ set_name s (mount_point e)) nd st;
            Some (st, Ok nd)
        end
  end.

Definition vfs_rename_at (old_at : option Z) (old_path : list Z) (new_at : option Z) (new_path : list Z) (fl : Z) st
    : option (state F * res unit) :=
  '(st, r) ← get_parents old_at old_path new_at new_path st;
  match r with
  | Err err => Some (st, Err err)
  | Ok ((Some op, old_name), (Some np, new_name)) =>
      '(_, on, ox) ← entry_node op st;
      '(_, nn, nx) ← entry_node np st;
      if negb (bool_decide (n_superblock ox = n_superblock nx)) then
        st ← release_all [Some op; Some np] st; Some (st, Err EXDEV)
      else
        st ← vfs_node_acquire_both_write on nn st;
        let finish old_dentry new_dentry ret st :=
          st ← node_release_write on st;
          st ← node_release_write nn st;
          st ← release_all [Some op; Some np; old_dentry; new_dentry] st;
          Some (st, ret) in
        '(st, od) ← vfs_lookup op old_name st;
        match od with
        | Err err => finish None None (Err err) st
        | Ok od =>
            '(st, nd) ← rename_target np new_name st;
            match nd with
            | Err err => finish (Some od) None (Err err) st
            | Ok nd =>
                can ← vfs_can_delete od st;
                if negb can then finish (Some od) (Some nd) (Err EACCES) st
                else
                  perm ← vfs_perm nn st;
                  if negb (has perm PERM_WRITE) then finish (Some od) (Some nd) (Err EACCES) st
                  else
                  match op_rename (ops_table (n_ops nx)) with
                  | None => finish (Some od) (Some nd) (Err EOPNOTSUPP) st
                  | Some rename =>
                      '(st, ret) ← rename on od nn nd fl st;
                      match ret with
                      | Err err => finish (Some od) (Some nd) (Err err) st
                      | Ok _ =>
                          q ← dentries st !! nd;
                          st ← (if vfs_dentry_is_populated q then vfs_unlink_dentry nd st else Some st);
                          st ← vfs_dentry_remove od st;
                          st ← vfs_dentry_add np od st;
                          finish (Some od) (Some nd) (Ok tt) st
                      end
                  end
            end
        end
  | Ok ((op, _), (np, _)) => st ← release_all [op; np] st; Some (st, Err EINVAL)
  end.

(** An entry on which something is mounted, or that is the root of a mount. *)
Definition is_mount_entry e : bool :=
  has (flags e) VFS_DENTRY_FLAG_MOUNT_POINT || match shadow_mount_point e with Some _ => true | None => false end.

(** The entry on which the lookup fails is not released: a pointer that is an error. *)
Definition vfs_unlink_at (at_ : option Z) (path : list Z) st : option (state F * res unit) :=
  '(st, r) ← vfs_get_dentry_parent_at at_ path true no_flags 511 st;
  match r with
  | Err err => Some (st, Err err)
  | Ok (None, _) => Some (st, Err EINVAL)
  | Ok (Some p, last) =>
      '(_, pn, px) ← entry_node p st;
      st ← node_acquire_write pn st;
      let finish d ret st :=
        st ← node_release_write pn st;
        st ← release_all [d; Some p] st;
        Some (st, ret) in
      '(st, d) ← vfs_lookup p last st;
      match d with
      | Err err => finish None (Err err) st
      | Ok d =>
          '(e, _, x) ← entry_node d st;
          if S_ISDIR (mode x) then finish (Some d) (Err EISDIR) st
          else if is_mount_entry e then finish (Some d) (Err EBUSY) st
          else
            can ← vfs_can_delete d st;
            if negb can then finish (Some d) (Err EACCES) st
            else
              match op_unlink (ops_table (n_ops px)) with
              | None => finish (Some d) (Err EOPNOTSUPP) st
              | Some unlink =>
                  '(st, ret) ← unlink pn d st;
                  match ret with
                  | Err err => finish (Some d) (Err err) st
                  | Ok _ => st ← vfs_unlink_dentry d st; finish (Some d) (Ok tt) st
                  end
              end
      end
  end.

Definition vfs_rmdir_at (at_ : option Z) (path : list Z) st : option (state F * res unit) :=
  '(st, r) ← vfs_get_dentry_parent_at at_ path true no_flags 511 st;
  match r with
  | Err err => Some (st, Err err)
  | Ok (None, _) => Some (st, Err EINVAL)
  | Ok (Some p, last) =>
      '(st, d) ← vfs_lookup p last st;
      match d with
      | Err err => st ← vfs_dentry_release p st; Some (st, Err err)
      | Ok d =>
          '(_, pn, px) ← entry_node p st;
          '(_, n, _) ← entry_node d st;
          st ← vfs_node_acquire_both_write pn n st;
          let finish ret st :=
            st ← node_release_write pn st;
            st ← node_release_write n st;
            st ← release_all [Some d; Some p] st;
            Some (st, ret) in
          '(st, check) ← vfs_lookup p last st;
          match check with
          | Err err => finish (Err err) st
          | Ok c =>
              kassert (c =? d);;
              st ← vfs_dentry_release c st;
              '(e, _, x) ← entry_node d st;
              if negb (S_ISDIR (mode x)) then finish (Err ENOTDIR) st
              else if is_mount_entry e then finish (Err EBUSY) st
              else
                can ← vfs_can_delete d st;
                if negb can then finish (Err EACCES) st
                else
                  match op_rmdir (ops_table (n_ops px)) with
                  | None => finish (Err EOPNOTSUPP) st
                  | Some rmdir =>
                      '(st, ret) ← rmdir pn d st;
                      match ret with
                      | Err err => finish (Err err) st
                      | Ok _ => st ← vfs_unlink_dentry d st; finish (Ok tt) st
                      end
                  end
          end
      end
  end.

(** *** Inodes by name *)

Definition vfs_get_node_at (at_ : option Z) (path : list Z) (fl : open_flags) (m : Z) st : option (state F * res Z) :=
  '(st, r) ← vfs_get_dentry_at at_ path fl m st;
  match r with
  | Err err => Some (st, Err err)
  | Ok d =>
      e ← dentries st !! d; n ← inode e;
      st ← vfs_node_ref (Some n) st;
      st ← vfs_dentry_release d st;
      Some (st, Ok n)
  end.

Definition vfs_truncate (n : Z) (size : Z) st : option (state F * res unit) :=
  x ← nodes st !! n;
  match op_truncate (ops_table (n_ops x)) with
  | None => Some (st, Err EOPNOTSUPP)
  | Some truncate =>
      match ifmt (mode x) with
      | S_IFREG =>
          st ← node_acquire_write n st;
          '(st, ret) ← truncate n size st;
          st ← match ret with Ok _ => vfs_node_mark_data_dirty n st | Err _ => Some st end;
          st ← node_release_write n st;
          Some (st, ret)
      | S_IFDIR => Some (st, Err EISDIR)
      | _ => Some (st, Err EINVAL)
      end
  end.

(** *** The path of an entry *)

(** The names from the entry up to [top], each after a separator; [PATH_MAX] bytes of buffer with the
    end of the string. *)
Fixpoint path_loop (fuel : nat) (d : option Z) (top : Z) (i : Z) (acc : list Z) st : option (option Z * list Z) :=
  match d with
  | None => Some (None, acc)
  | Some d =>
      if d =? top then Some (Some d, acc)
      else
        match fuel with
        | O => None
        | S fuel =>
            e ← dentries st !! d;
            let i := i - lenZ (name e) - 1 in
            kassert (0 <=? i);;
            path_loop fuel (parent e) top i (SLASH :: name e ++ acc) st
        end
  end.

(** "(deleted)" and "(unreachable)". *)
Definition deleted_path : list Z := [40; 100; 101; 108; 101; 116; 101; 100; 41].
Definition unreachable_path : list Z := [40; 117; 110; 114; 101; 97; 99; 104; 97; 98; 108; 101; 41].

Definition vfs_dentry_path (d : Z) st : option (list Z) :=
  e ← dentries st !! d;
  if has (flags e) VFS_DENTRY_FLAG_UNLINKED then Some deleted_path
  else
    let top := match proc_context st with Some c => c_root c | None => root st end in
    '(stop, acc) ← path_loop (S (size (dentries st))) (Some d) top (PATH_MAX - 1) [] st;
    Some (if bool_decide (stop = Some top) then match acc with [] => [SLASH] | _ => acc end else unreachable_path).

(** *** The context of a process *)

Definition vfs_context_set_cwd (d : Z) st : option (state F) :=
  c ← proc_context st;
  st ← dentry_ref d st;
  vfs_dentry_release (c_cwd c) (set_proc_context (Some (mk_context (c_root c) d)) st).

Definition vfs_context_set_root (d : Z) st : option (state F) :=
  c ← proc_context st;
  st ← dentry_ref d st;
  vfs_dentry_release (c_root c) (set_proc_context (Some (mk_context d (c_cwd c))) st).

(** [sys_chdir] and the body of [sys_getcwd]. *)
Definition sys_chdir (path : list Z) st : option (state F * res unit) :=
  '(st, r) ← vfs_get_dentry_at None path no_flags 511 st;
  match r with
  | Err err => Some (st, Err err)
  | Ok d =>
      '(_, _, x) ← entry_node d st;
      if negb (S_ISDIR (mode x)) then st ← vfs_dentry_release d st; Some (st, Err ENOTDIR)
      else st ← vfs_context_set_cwd d st; Some (st, Ok tt)
  end.

Definition sys_getcwd (size : Z) st : option (state F * res (list Z)) :=
  c ← proc_context st;
  st ← dentry_ref (c_cwd c) st;
  path ← vfs_dentry_path (c_cwd c) st;
  st ← vfs_dentry_release (c_cwd c) st;
  Some (st, if size <? lenZ path + 1 then Err ERANGE else Ok path).

End names.

(** ** Superblocks and mounts *)

Section mounting.
Context {F : Type} `{Env, NodeTables F, DirTables F, Limits}.
Implicit Types (st : state F).

Definition by_number (a b : Z * Z) : Prop := a.1 <= b.1.
#[local] Instance by_number_dec : RelDecision by_number.
Proof. intros a b. unfold by_number. apply _. Defined.

(** The state of a superblock is written back inode by inode, in the order of their numbers. *)
Fixpoint flush_nodes (l : list (Z * Z)) st : option (state F) :=
  match l with
  | [] => Some st
  | (_, n) :: l =>
      st ← vfs_node_ref (Some n) st;
      '(st, _) ← vfs_node_flush n st;
      st ← node_release n st;
      flush_nodes l st
  end.

Definition vfs_superblock_flush (s : Z) st : option (state F) :=
  sb ← superblocks st !! s;
  flush_nodes (merge_sort by_number (map_to_list (inodes sb))) st.

(** The device behind the superblock is closed by the destructor of the file system or is null. *)
Definition vfs_superblock_release (s : Z) st : option (state F) :=
  st ← vfs_superblock_flush s st;
  sb ← superblocks st !! s;
  st ← upd_superblock (fun sb => mk_superblock (ref_dec (sb_ref sb)) (inodes sb) (sb_root sb) (sb_ops sb) (sb_flags sb)) s st;
  if 1 <? sb_ref sb then Some st
  else
    match (t ← sb_ops sb; sb_destroy (superblock_table t)) with
    | Some destroy => destroy s st
    | None => st ← node_release (sb_root sb) st; Some (set_superblocks (delete s (superblocks st)) st)
    end.

Definition parent_node (d : Z) st : option (option Z) :=
  e ← dentries st !! d;
  match parent e with
  | None => Some None
  | Some p => q ← dentries st !! p; Some (inode q)
  end.

Definition vfs_dentry_acquire_write_lock_on_parent (d : Z) st : option (state F) :=
  n ← parent_node d st; vfs_node_acquire_write n st.

Definition vfs_dentry_release_write_lock_on_parent (d : Z) st : option (state F) :=
  n ← parent_node d st; vfs_node_release_write n st.

Definition vfs_dentry_acquire_mount_lock (d : Z) st : option (state F) :=
  kassert (negb (mount_lock st));;
  vfs_dentry_acquire_write_lock_on_parent d (set_mount_lock true st).

Definition vfs_dentry_release_mount_lock (d : Z) st : option (state F) :=
  st ← vfs_dentry_release_write_lock_on_parent d st; Some (set_mount_lock false st).

(** The result of the allocation of the entry is not tested. *)
Definition vfs_mount_on (d : Z) (fl : Z) (s : Z) st : option (state F * res unit) :=
  d ← vfs_dentry_follow_mount_points d st;
  match mount_pool st with
  | [] => Some (st, Err ENOMEM)
  | m :: rest =>
      let st := set_mount_pool rest st in
      e ← dentries st !! d;
      kassert (match shadow_mount_point e with None => true | Some _ => false end);;
      '(st, r) ← vfs_dentry_allocate st;
      r ← r;
      e ← dentries st !! d;
      st ← vfs_dentry_ref (parent e) st;
      sb ← superblocks st !! s;
      st ← vfs_node_ref (Some (sb_root sb)) st;
      st ← upd_dentry (fun q => mk_dentry (name e) (Some (sb_root sb)) (inode_number q) VFS_DENTRY_FLAG_MOUNT_POINT (error q)
                                  (parent e) (Some m) (shadow_mount_point q) (children q) 0) r st;
      st ← dentry_ref d st;
      st ← dentry_ref r st;
      let st := set_mounts (<[m := mk_mount r d fl]> (mounts st)) st in
      st ← upd_dentry (set_shadow (Some m)) d st;
      Some (st, Ok tt)
  end.

Definition nofollow : open_flags := mk_open_flags false false true false false false.

Definition vfs_mount_at (at_ : option Z) (path : list Z) (fl : Z) (s : Z) st : option (state F * res unit) :=
  '(st, r) ← vfs_get_dentry_at at_ path nofollow 511 st;
  match r with
  | Err err => Some (st, Err err)
  | Ok d =>
      st ← vfs_dentry_acquire_mount_lock d st;
      '(st, ret) ← vfs_mount_on d fl s st;
      st ← vfs_dentry_release_mount_lock d st;
      st ← vfs_dentry_release d st;
      Some (st, ret)
  end.

Definition vfs_unmount_at (at_ : option Z) (path : list Z) st : option (state F * res unit) :=
  '(st, r) ← vfs_get_dentry_at at_ path nofollow 511 st;
  match r with
  | Err err => Some (st, Err err)
  | Ok d =>
      st ← vfs_dentry_acquire_mount_lock d st;
      let fail err st :=
        st ← vfs_dentry_release_mount_lock d st;
        st ← vfs_dentry_release d st;
        Some (st, Err err) in
      e ← dentries st !! d;
      if negb (has (flags e) VFS_DENTRY_FLAG_MOUNT_POINT) then fail EINVAL st
      else
        m ← mount_point e;
        mp ← mounts st !! m;
        kassert (m_root mp =? d);;
        if 2 <? ref_count e then fail EBUSY st
        else
          st ← upd_dentry (set_shadow None) (m_shadow mp) st;
          st ← vfs_dentry_release_mount_lock d st;
          n ← inode e; '(s, _) ← node_superblock n st;
          st ← vfs_dentry_release d st;
          st ← vfs_dentry_release (m_root mp) st;
          st ← vfs_dentry_release (m_shadow mp) st;
          let st := set_mount_pool (m :: mount_pool st) (set_mounts (delete m (mounts st)) st) in
          st ← vfs_superblock_release s st;
          Some (st, Ok tt)
  end.

(** The parent of the source is dereferenced without a test. *)
Definition vfs_move_mount_at (source_at : option Z) (source : list Z) (dest_at : option Z) (dest : list Z) st
    : option (state F * res unit) :=
  '(st, r) ← vfs_get_dentry_at source_at source nofollow 511 st;
  match r with
  | Err err => Some (st, Err err)
  | Ok d =>
      '(st, r) ← vfs_get_dentry_parent_at dest_at dest true no_flags 511 st;
      match r with
      | Err err => st ← vfs_dentry_release d st; Some (st, Err err)
      | Ok (dest_parent, last) =>
          kassert (negb (mount_lock st));;
          let st := set_mount_lock true st in
          e ← dentries st !! d; rp ← parent e; '(_, rn, _) ← entry_node rp st;
          dn ← match dest_parent with
               | Some p => '(_, n, _) ← entry_node p st; Some (Some n)
               | None => Some None
               end;
          st ← (if rn <? default 0 dn then st ← node_acquire_write rn st; vfs_node_acquire_write dn st
                else st ← vfs_node_acquire_write dn st; node_acquire_write rn st);
          let finish dd ret st :=
            st ← vfs_node_release_write dn st;
            st ← node_release_write rn st;
            let st := set_mount_lock false st in
            st ← release_all [Some d; dd; dest_parent] st;
            Some (st, ret) in
          '(st, dd) ← match dest_parent with
                      | Some p => vfs_lookup p last st
                      | None => t ← vfs_dentry_follow_mount_points (root st) st; st ← dentry_ref t st; Some (st, Ok t)
                      end;
          match dd with
          | Err err => finish None (Err err) st
          | Ok dd =>
              e ← dentries st !! d;
              if negb (has (flags e) VFS_DENTRY_FLAG_MOUNT_POINT) then finish (Some dd) (Err EINVAL) st
              else
                m ← mount_point e;
                mp ← mounts st !! m;
                kassert (m_root mp =? d);;
                st ← upd_dentry (set_shadow None) (m_shadow mp) st;
                q ← dentries st !! dd;
                kassert (match shadow_mount_point q with None => true | Some _ => false end);;
                st ← dentry_ref dd st;
                let st := set_mounts (<[m := mk_mount (m_root mp) dd (m_flags mp)]> (mounts st)) st in
                st ← upd_dentry (set_shadow (Some m)) dd st;
                st ← vfs_dentry_release (m_shadow mp) st;
                finish (Some dd) (Ok tt) st
          end
      end
  end.

(** ** The inode cache of a superblock *)

(** A zeroed inode; [allocate] is the callback of the file system. *)
Definition new_node : node :=
  mk_node None 0 0 1 0 0 no_mode 0 0 0 0 VNODE_FLAG_NEW None 0 false 0.

(** An inode that is being set up is ready when its lookup returns: nothing waits here. *)
Definition vfs_node_wait_ready_helper (n : Z) st : option (state F * res Z) :=
  x ← nodes st !! n;
  kassert (negb (has (n_flags x) VNODE_FLAG_NEW));;
  if has (n_flags x) VNODE_FLAG_ERROR then
    err ← n_error x; st ← node_release n st; Some (st, Err err)
  else Some (st, Ok n).

Definition vfs_node_ref_if_not_zero (n : Z) st : option (state F * bool) :=
  x ← nodes st !! n;
  if n_ref x =? 0 then Some (st, false) else st ← vfs_node_ref (Some n) st; Some (st, true).

(** [a] is the address that the file system gives, if any, for the new inode. *)
Definition vfs_node_get (s num : Z) (a : option Z) st : option (state F * res Z) :=
  sb ← superblocks st !! s;
  '(st, cached) ← match inodes sb !! num with
                  | Some n => vfs_node_ref_if_not_zero n st
                  | None => Some (st, false)
                  end;
  if (cached : bool) then n ← inodes sb !! num; vfs_node_wait_ready_helper n st
  else
    match a with
    | None => Some (st, Err ENOMEM)
    | Some n =>
        let st := set_nodes (<[n := set_number num new_node]> (nodes st)) st in
        '(st, raced) ← match inodes sb !! num with
                       | Some o => '(st, b) ← vfs_node_ref_if_not_zero o st; Some (st, if (b : bool) then Some o else None)
                       | None =>
                           st ← upd_superblock (fun sb => mk_superblock (sb_ref sb) (<[num := n]> (inodes sb)) (sb_root sb) (sb_ops sb) (sb_flags sb)) s st;
                           Some (st, None)
                       end;
        match raced with
        | Some o => st ← node_release n st; vfs_node_wait_ready_helper o st
        | None => st ← node_acquire_write n st; Some (st, Ok n)
        end
    end.

Definition vfs_node_mark_ready (n : Z) st : option (state F) :=
  upd_node (fun x => set_n_flags (Z.ldiff (n_flags x) VNODE_FLAG_NEW) (n_error x) x) n st.

Definition vfs_node_mark_error (n : Z) (err : errno) st : option (state F) :=
  upd_node (fun x => set_n_flags (Z.ldiff (Z.lor (n_flags x) VNODE_FLAG_ERROR) VNODE_FLAG_NEW) (Some err) x) n st.

End mounting.

End Vfs.
