(* ===== verification/Tmpfs.v ===== *)
(** The memory file system (kernel/fs/tmpfs.c, kernel/include/fs/tmpfs.h).

    The inodes of tmpfs are those of the virtual file system with a part of their own: the parent and,
    by type, the pages of a file, the target of a link, the entries of a directory or the number of a
    device.  Entries are objects that the directories point to.  The allocations are not tested by the
    code: when one fails, [None].  The operations are the instance of the tables of [Vfs]. *)

From S2P Require Import Prelude UserMem Cache Vfs.

Module Tmpfs.
Import Vfs.

(** The union: the cache of a file is named by the address of its inode, a directory is the
    sequence of the addresses of its entries. *)
Inductive contents :=
  | File
  | Link (buffer : Z) (target : list Z)
  | Directory (entries : list Z)
  | Dev (dev : Z).

Record tmpfs_inode := mk_inode { t_parent : option Z; data : contents }.

Record tmpfs_dirent := mk_dirent { d_name : list Z; d_inode : Z }.

Record tmpfs := mk_tmpfs {
  t_inodes : gmap Z tmpfs_inode;
  t_entries : gmap Z tmpfs_dirent;
  inode_pool : list Z;
  entry_pool : list Z;
  page_cache : Cache.state;
}.

Definition set_t_inodes m (t : tmpfs) := mk_tmpfs m (t_entries t) (inode_pool t) (entry_pool t) (page_cache t).
Definition set_t_entries m (t : tmpfs) := mk_tmpfs (t_inodes t) m (inode_pool t) (entry_pool t) (page_cache t).
Definition set_inode_pool l (t : tmpfs) := mk_tmpfs (t_inodes t) (t_entries t) l (entry_pool t) (page_cache t).
Definition set_entry_pool l (t : tmpfs) := mk_tmpfs (t_inodes t) (t_entries t) (inode_pool t) l (page_cache t).
Definition set_page_cache c (t : tmpfs) := mk_tmpfs (t_inodes t) (t_entries t) (inode_pool t) (entry_pool t) c.

Notation state := (Vfs.state tmpfs).
Implicit Types (st : state) (n d : Z).

Definition upd_tmpfs (f : tmpfs -> tmpfs) st : state := set_private (f (private st)) st.

(** The address of the direct map, and the table of the operations of tmpfs. *)
Class TmpfsEnv := { direct_map : Z; tmpfs_inode_ops : Z }.

Section base.
Context `{TmpfsEnv, Cache.ErrnoCodes}.

Definition INODE_NUMBER (n : Z) : Z := n -! direct_map.

(** ** The life of an inode *)

(** The pages of a file are zero at first and nowhere else than in the cache. *)
Definition tmpfs_cache_read (c : Z) (batch : list Z) (pc : Cache.state) : option (Cache.state * Z) :=
  pc ← Cache.pages_batch_foreach (Cache.upd (Cache.set_bytes (replicate (Z.to_nat PAGE_SIZE) 0))) batch pc;
  pc ← Cache.cache_read_terminate c batch 0 pc;
  Some (pc, 0).

#[export] Instance tmpfs_cache_ops : Cache.CacheOps := {
  Cache.op_read c := Some (tmpfs_cache_read c);
  Cache.op_write c := None;
}.

Definition tmpfs_cleanup n st : option state :=
  x ← nodes st !! n;
  _ ← t_inodes (private st) !! n;
  pc ← match ifmt (mode x) with
       | S_IFREG => Cache.free_cache n (page_cache (private st))
       | _ => Some (page_cache (private st))
       end;
  Some (set_nodes (delete n (nodes st))
          (upd_tmpfs (fun t => set_inode_pool (n :: inode_pool t) (set_t_inodes (delete n (t_inodes t)) (set_page_cache pc t))) st)).

(** The word behind [n] in a list, or zero. *)
Fixpoint next_in (n : Z) (l : list Z) : Z :=
  match l with
  | [] => 0
  | c :: l => if c =? n then hd 0 l else next_in n l
  end.

(** The first word of the union, which is read as the number of a device: that, or a pointer (to the
    first entry of a directory, to the cache behind this one in their list, to the target of a link). *)
Definition first_word n (t : tmpfs) : Z :=
  match data <$> t_inodes t !! n with
  | Some (Dev dev) => dev
  | Some (Directory entries) => hd 0 entries
  | Some File => next_in n (Cache.cache_list (page_cache t))
  | Some (Link buffer _) => buffer
  | None => 0
  end.

Definition file_size n (t : tmpfs) : Z :=
  match data <$> t_inodes t !! n with
  | Some File => default 0 (Cache.size <$> Cache.caches (page_cache t) !! n)
  | _ => 0
  end.

Definition tmpfs_getattr n (a : stat) st : stat * res unit :=
  let sz := file_size n (private st) in
  (mk_stat (st_ino a) (st_mode a) (st_uid a) (st_gid a) (st_atime a) (st_mtime a) (st_ctime a) (st_nlink a)
     sz (first_word n (private st)) PAGE_SIZE (((sz +! PAGE_SIZE) -! 1) / PAGE_SIZE), Ok tt).

Definition tmpfs_setattr n (a : stat) (mask : Z) st : option (state * res unit) := Some (st, Ok tt).

(** The table of tmpfs; a superblock of tmpfs has no operations. *)
#[export] Instance tmpfs_node_tables : NodeTables tmpfs := {
  op_cleanup t := if t =? tmpfs_inode_ops then Some tmpfs_cleanup else None;
  op_getattr t := if t =? tmpfs_inode_ops then Some tmpfs_getattr else None;
  op_setattr t := if t =? tmpfs_inode_ops then Some tmpfs_setattr else None;
  superblock_table _ := mk_superblock_ops None None;
}.

Context `{Env}.

(** ** Directories *)

Definition new_inode (s : option Z) (m : mode_t) st : option (state * Z) :=
  match inode_pool (private st) with
  | [] => None
  | n :: rest =>
      let x := vfs_init_created_node (mk_node s tmpfs_inode_ops (INODE_NUMBER n) 0 0 0 m 0 0 0 0 0 None 0 false 0) in
      let '(c, pc) := match ifmt m with
                      | S_IFREG => (File, Cache.init_cache n (page_cache (private st)))
                      | S_IFDIR => (Directory [], page_cache (private st))
                      | _ => (Dev 0, page_cache (private st))
                      end in
      let st := set_nodes (<[n := x]> (nodes st)) st in
      Some (upd_tmpfs (fun t => set_inode_pool rest (set_t_inodes (<[n := mk_inode None c]> (t_inodes t)) (set_page_cache pc t))) st, n)
  end.

Definition upd_inode (f : tmpfs_inode -> tmpfs_inode) n st : option state :=
  i ← t_inodes (private st) !! n;
  Some (upd_tmpfs (fun t => set_t_inodes (<[n := f i]> (t_inodes t)) t) st).

(** The entries of a directory: another member of the union is not a list. *)
Definition directory n st : option (list Z) :=
  i ← t_inodes (private st) !! n;
  match data i with Directory entries => Some entries | _ => None end.

Definition set_directory n (l : list Z) st : option state :=
  upd_inode (fun i => mk_inode (t_parent i) (Directory l)) n st.

Definition is_dir n st : option unit := x ← nodes st !! n; kassert (S_ISDIR (mode x)).

Definition tmpfs_add_entry (dir child d : Z) st : option state :=
  st ← vfs_node_inc_nlink child st;
  st ← vfs_node_ref (Some child) st;
  e ← dentries st !! d;
  match entry_pool (private st) with
  | [] => None
  | en :: rest =>
      let st := upd_tmpfs (fun t => set_entry_pool rest (set_t_entries (<[en := mk_dirent (name e) child]> (t_entries t)) t)) st in
      l ← directory dir st;
      set_directory dir (l ++ [en]) st
  end.

Fixpoint find_entry (l : list Z) (s : list Z) st : option (option (Z * tmpfs_dirent)) :=
  match l with
  | [] => Some None
  | en :: l =>
      de ← t_entries (private st) !! en;
      if bool_decide (d_name de = s) then Some (Some (en, de)) else find_entry l s st
  end.

Definition tmpfs_get_entry (dir d : Z) st : option (option (Z * tmpfs_dirent)) :=
  e ← dentries st !! d; l ← directory dir st; find_entry l (name e) st.

Definition tmpfs_remove_entry (dir en : Z) st : option state :=
  l ← directory dir st;
  kassert (bool_decide (en ∈ l));;
  st ← set_directory dir (filter (fun c => c <> en) l) st;
  de ← t_entries (private st) !! en;
  st ← vfs_node_dec_nlink (d_inode de) st;
  st ← node_release (d_inode de) st;
  Some (upd_tmpfs (fun t => set_entry_pool (en :: entry_pool t) (set_t_entries (delete en (t_entries t)) t)) st).

(** A reference to an inode, stored in the entry that is being looked up. *)
Definition fill_dentry (d n : Z) st : option (state * res unit) :=
  st ← vfs_node_ref (Some n) st;
  st ← upd_dentry (set_inode (Some n) (INODE_NUMBER n)) d st;
  Some (st, Ok tt).

Definition tmpfs_lookup n d st : option (state * res unit) :=
  is_dir n st;;
  e ← dentries st !! d;
  if bool_decide (name e = [DOT]) then fill_dentry d n st
  else if bool_decide (name e = [DOT; DOT]) then
    i ← t_inodes (private st) !! n; fill_dentry d (default n (t_parent i)) st
  else
    r ← tmpfs_get_entry n d st;
    match r with
    | None => Some (st, Err ENOENT)
    | Some (_, de) => fill_dentry d (d_inode de) st
    end.

Definition tmpfs_exist n d st : option bool :=
  r ← tmpfs_get_entry n d st; Some (match r with Some _ => true | None => false end).

(** The number of the device is stored over the first word of the union: the list of a new directory
    and the links of a new cache are zero there. *)
Definition tmpfs_mknod n d (m : mode_t) (dev : Z) st : option (state * res unit) :=
  is_dir n st;;
  ex ← tmpfs_exist n d st;
  kassert (negb ex);;
  x ← nodes st !! n;
  '(st, c) ← new_inode (n_superblock x) m st;
  kassert ((dev =? 0) || negb (is_type S_IFREG m || S_ISDIR m));;
  st ← upd_inode (fun i => mk_inode (Some n) (match data i with Dev _ => Dev dev | u => u end)) c st;
  st ← tmpfs_add_entry n c d st;
  Some (st, Ok tt).

Definition tmpfs_create n d (m : Z) st : option (state * res unit) := tmpfs_mknod n d (mk_mode S_IFREG m) 0 st.

Definition tmpfs_mkdir n d (m : Z) st : option (state * res unit) := tmpfs_mknod n d (mk_mode S_IFDIR m) 0 st.

Definition tmpfs_link (old_d new_dir new_d : Z) st : option (state * res unit) :=
  is_dir new_dir st;;
  e ← dentries st !! old_d;
  old ← inode e;
  ex ← tmpfs_exist new_dir new_d st;
  if (ex : bool) then Some (st, Err EEXIST)
  else st ← tmpfs_add_entry new_dir old new_d st; Some (st, Ok tt).

(** [buffer] is where the copy of the target is. *)
Definition tmpfs_symlink n d (target : list Z) st : option (state * res unit) :=
  is_dir n st;;
  ex ← tmpfs_exist n d st;
  kassert (negb ex);;
  x ← nodes st !! n;
  '(st, c) ← new_inode (n_superblock x) (mk_mode S_IFLNK 511) st;
  st ← upd_inode (fun i => mk_inode (t_parent i) (Link c target)) c st;
  st ← tmpfs_add_entry n c d st;
  Some (st, Ok tt).

Definition tmpfs_readlink n (bufsize : Z) st : option (state * res (list Z)) :=
  i ← t_inodes (private st) !! n;
  match data i with
  | Link _ target => Some (st, Ok (takeZ (Z.min bufsize (lenZ target)) target))
  | _ => None
  end.

(** An entry that replaces itself is freed before it is read again. *)
Definition tmpfs_rename (old_dir old_d new_dir new_d : Z) (fl : Z) st : option (state * res unit) :=
  is_dir old_dir st;;
  is_dir new_dir st;;
  o ← tmpfs_get_entry old_dir old_d st;
  '(oen, _) ← o;
  already ← tmpfs_get_entry new_dir new_d st;
  st ← match already with
       | Some (aen, _) => tmpfs_remove_entry new_dir aen st
       | None => Some st
       end;
  ode ← t_entries (private st) !! oen;
  st ← tmpfs_add_entry new_dir (d_inode ode) new_d st;
  st ← tmpfs_remove_entry old_dir oen st;
  Some (st, Ok tt).

Definition tmpfs_unlink n d st : option (state * res unit) :=
  is_dir n st;;
  r ← tmpfs_get_entry n d st;
  '(en, de) ← r;
  x ← nodes st !! d_inode de;
  kassert (negb (S_ISDIR (mode x)));;
  st ← tmpfs_remove_entry n en st;
  Some (st, Ok tt).

Definition tmpfs_rmdir n d st : option (state * res unit) :=
  is_dir n st;;
  r ← tmpfs_get_entry n d st;
  '(en, de) ← r;
  is_dir (d_inode de) st;;
  l ← directory (d_inode de) st;
  match l with
  | [] => st ← tmpfs_remove_entry n en st; Some (st, Ok tt)
  | _ => Some (st, Err ENOTEMPTY)
  end.

(** ** Listing *)

Inductive dirent_type := DT_UNKNOWN | DT_REG | DT_DIR | DT_LNK | DT_SOCK | DT_CHR | DT_BLK.

Definition dirent_type_of (m : mode_t) : dirent_type :=
  match ifmt m with
  | S_IFREG => DT_REG | S_IFDIR => DT_DIR | S_IFLNK => DT_LNK | S_IFSOCK => DT_SOCK
  | S_IFCHR => DT_CHR | S_IFBLK => DT_BLK | _ => DT_UNKNOWN
  end.

Definition tmpfs_readdir n (index : Z) st : option (res (list Z * Z * dirent_type)) :=
  is_dir n st;;
  i ← t_inodes (private st) !! n;
  if index =? 0 then Some (Ok ([DOT], INODE_NUMBER n, DT_DIR))
  else if index =? 1 then Some (Ok ([DOT; DOT], INODE_NUMBER (default 0 (t_parent i)), DT_DIR))
  else
    l ← directory n st;
    match l !! Z.to_nat (index - 2) with
    | None => Some (Err ENOENT)
    | Some en =>
        de ← t_entries (private st) !! en;
        x ← nodes st !! d_inode de;
        Some (Ok (d_name de, INODE_NUMBER (d_inode de), dirent_type_of (mode x)))
    end.

(** ** Files *)

Definition is_reg n st : option unit := x ← nodes st !! n; kassert (is_type S_IFREG (mode x)).

Definition tmpfs_truncate n (sz : Z) st : option (state * res unit) :=
  is_reg n st;;
  pc ← Cache.cache_truncate n sz (page_cache (private st));
  Some (upd_tmpfs (set_page_cache pc) st, Ok tt).

Definition tmpfs_read n (um : gmap Z Z) (buf offset count : Z) st : option (state * gmap Z Z * Z) :=
  is_reg n st;;
  '(pc, um, ret) ← Cache.cache_read n um buf offset count (page_cache (private st));
  Some (upd_tmpfs (set_page_cache pc) st, um, ret).

Definition tmpfs_write n (um : gmap Z Z) (buf offset count : Z) st : option (state * Z) :=
  is_reg n st;;
  ch ← Cache.caches (page_cache (private st)) !! n;
  st ← (if Cache.size ch <? offset +! count then '(st, _) ← tmpfs_truncate n (offset +! count) st; Some st else Some st);
  '(pc, ret) ← Cache.cache_write n um buf offset count (page_cache (private st));
  Some (upd_tmpfs (set_page_cache pc) st, ret).

#[export] Instance tmpfs_dir_tables : DirTables tmpfs :=
  fun t =>
    if t =? tmpfs_inode_ops then
      mk_inode_ops (Some tmpfs_lookup) (Some tmpfs_create) (Some tmpfs_mkdir) (Some tmpfs_mknod) (Some tmpfs_unlink)
        (Some tmpfs_rmdir) (Some tmpfs_rename) (Some tmpfs_link) (Some tmpfs_symlink) (Some tmpfs_readlink) (Some tmpfs_truncate)
    else mk_inode_ops None None None None None None None None None None None.

(** [s] is where the superblock is allocated. *)
Definition new_tmpfs (s : Z) st : option state :=
  let st := set_superblocks (<[s := mk_superblock 1 ∅ 0 None 0]> (superblocks st)) st in
  '(st, n) ← new_inode (Some s) (mk_mode S_IFDIR 365) st;
  st ← upd_superblock (fun sb => mk_superblock 1 (inodes sb) n (sb_ops sb) (sb_flags sb)) s st;
  upd_node (set_n_ref 1) n st.

End base.
End Tmpfs.
