(* ===== verification/VfsInv.v ===== *)
(** The invariant of the directory entries and what the virtual file system asks of a file system.

    [wf] relates a state to a ghost state: the entries that are in use ([live]), how many references
    the callers hold to an entry and to an inode ([own], [own_node]).  It says that the count of an
    entry is exactly the number of those references, of its children and of the mounts that use it,
    that the list of the entries to evict holds exactly those without references, that the children
    of an entry are listed once under different names, and that what is cached agrees with the
    directories of the file system.  A file system promises [FsLaws]. *)

From S2P Require Import Prelude Vfs.

Module VfsInv.
Import Vfs.

(** ** Counting the entries of a set that satisfy a predicate *)

Section count.
Implicit Types (m : gmap Z dentry) (L : gset Z) (P Q : dentry -> bool).

Definition holds P m (d : Z) : bool := match m !! d with Some e => P e | None => false end.

Definition cnt P m L : Z := Z.of_nat (size (filter (fun d => Is_true (holds P m d)) L)).

Lemma cnt_nonneg P m L : 0 <= cnt P m L.
Proof. unfold cnt. lia. Qed.

Lemma cnt_ext P Q m m' L : (forall d, d ∈ L -> holds P m d = holds Q m' d) -> cnt P m L = cnt Q m' L.
Proof.
  intros E. unfold cnt. do 2 f_equal. apply leibniz_equiv. intros d. rewrite !elem_of_filter.
  split; intros [H1 H2]; split; try done; [rewrite <- (E d H2)|rewrite (E d H2)]; done.
Qed.

Lemma cnt_add P m L d : d ∉ L -> cnt P m ({[d]} ∪ L) = b2Z (holds P m d) + cnt P m L.
Proof.
  intros Hd. unfold cnt. rewrite filter_union_L by apply _. rewrite filter_singleton_L by apply _. destruct (decide (holds P m d)) as [E|E].
  - rewrite (Is_true_eq_true _ E). rewrite size_union; [rewrite size_singleton; cbn; lia|].
    intros y Hy. rewrite elem_of_singleton, elem_of_filter in *. intros [_ ?]. subst. done.
  - rewrite (left_id_L ∅ (∪)). destruct (holds P m d); [by destruct E|]. cbn. lia.
Qed.

Lemma cnt_remove P m L d : d ∈ L -> cnt P m L = b2Z (holds P m d) + cnt P m (L ∖ {[d]}).
Proof. intros Hd. rewrite <- cnt_add by set_solver. f_equal. apply union_difference_singleton_L. done. Qed.

Lemma cnt_zero P m L d : d ∈ L -> cnt P m L = 0 -> holds P m d = false.
Proof. intros Hd E. rewrite (cnt_remove P m L d Hd) in E. pose proof (cnt_nonneg P m (L ∖ {[d]})). destruct (holds P m d); cbn in E; [lia|done]. Qed.

Lemma cnt_none P m L : (forall d, d ∈ L -> holds P m d = false) -> cnt P m L = 0.
Proof.
  intros Hn. unfold cnt. replace (filter _ L) with (∅ : gset Z); [by rewrite size_empty|]. symmetry. apply set_eq. intros d.
  rewrite elem_of_filter. split; [|set_solver]. intros [H1 H2]. by rewrite (Hn d H2) in H1.
Qed.

Lemma holds_insert P m d e c : holds P (<[d := e]> m) c = if decide (c = d) then P e else holds P m c.
Proof. unfold holds. case_decide; subst; [by rewrite lookup_insert_eq|by rewrite lookup_insert_ne]. Qed.

Lemma holds_delete P m d c : c <> d -> holds P (delete d m) c = holds P m c.
Proof. intros. unfold holds. by rewrite lookup_delete_ne. Qed.
End count.

(** ** The invariant *)

(** The fields of an inode that the life of the entries does not change. *)
Record attr := mk_attr { a_mode : mode_t; a_uid : Z; a_gid : Z; a_ops : Z; a_superblock : option Z }.
Definition attr_of (x : node) : attr := mk_attr (mode x) (uid x) (gid x) (n_ops x) (n_superblock x).

(** An inode without its count of references and what reading a link changes: the time of the access
    and the mark that it is to be written. *)
Definition steady (x : node) : node :=
  mk_node (n_superblock x) (n_ops x) (number x) 0 (uid x) (gid x) (mode x) 0 (mtime x) (ctime x) (nlink x) 0 (n_error x) (readers x) (writer x) (lock_depth x).

(** The fields of an entry that its life in the tree does not change. *)
Definition fixed (e : dentry) := (name e, inode e, flags e, parent e, mount_point e, shadow_mount_point e).

Record ghost := mk_ghost { live : gset Z; own : Z -> Z; own_node : Z -> Z }.

Definition add_own (d k : Z) (g : ghost) : ghost := mk_ghost (live g) (fun c => own g c + if decide (c = d) then k else 0) (own_node g).

Section inv.
Context {F : Type}.
Implicit Types (st : state F) (g : ghost) (e : dentry) (x : node).

Definition attrs_of st : gmap Z attr := attr_of <$> nodes st.

Definition is_parent (d : Z) e : bool := bool_decide (parent e = Some d).
Definition is_inode (n : Z) e : bool := bool_decide (inode e = Some n).

Definition kids st g (d : Z) : Z := cnt (is_parent d) (dentries st) (live g).
Definition users st g (n : Z) : Z := cnt (is_inode n) (dentries st) (live g).

(** The references of the mounts. *)
Definition mount_refs (m : gmap Z mount) (d : Z) : Z :=
  sumZ (map (fun p : Z * mount => b2Z (m_root p.2 =? d) + b2Z (m_shadow p.2 =? d)) (map_to_list m)).

(** The names, inodes and mounts from an entry up to the root of the tree. *)
Inductive chain_of st : Z -> list (list Z * Z * option Z) -> Prop :=
  | chain_root d e n : dentries st !! d = Some e -> parent e = None -> inode e = Some n -> chain_of st d [(name e, n, mount_point e)]
  | chain_step d e n p ch : dentries st !! d = Some e -> parent e = Some p -> inode e = Some n -> chain_of st p ch ->
      chain_of st d ((name e, n, mount_point e) :: ch).

(** What a file system promises.  [fs_ok] is its invariant, [fs_entry] what the directory [n] holds
    under a name, [fs_refs] how many references to an inode it keeps itself, [fs_target] the target of
    a link. *)
Class FsLaws `{Env} `{!NodeTables F} `{!DirTables F} := {
  fs_ok : F -> gmap Z attr -> Prop;
  fs_entry : F -> Z -> list Z -> option Z;
  fs_refs : F -> Z -> Z;
  fs_target : F -> Z -> option (list Z);
  fs_refs_nonneg p m n : fs_ok p m -> 0 <= fs_refs p n;
  fs_entry_ok p m n s i : fs_ok p m -> fs_entry p n s = Some i ->
    1 <= fs_refs p i /\ exists a sb, m !! i = Some a /\ a_superblock a = Some sb;
  getattr_law t f n a st : op_getattr t = Some f ->
    st_mode (f n a st).1 = st_mode a /\ st_uid (f n a st).1 = st_uid a /\ st_gid (f n a st).1 = st_gid a;
  setattr_law n a st b mask : fs_ok (private st) (attrs_of st) -> attrs_of st !! n = Some a ->
    exists f, op_setattr (a_ops a) = Some f /\ f n b mask st = Some (st, Ok tt);
  lookup_law p m n a : fs_ok p m -> m !! n = Some a -> ifmt (a_mode a) = S_IFDIR ->
    exists f, op_lookup (ops_table (a_ops a)) = Some f /\
      forall st c e, fs_ok (private st) (attrs_of st) -> attrs_of st !! n = Some a -> dentries st !! c = Some e ->
        name e <> [DOT] -> name e <> [DOT; DOT] ->
        match fs_entry (private st) n (name e) with
        | None => f n c st = Some (st, Err ENOENT)
        | Some i => exists x num, nodes st !! i = Some x /\
            f n c st = Some (set_dentries (<[c := set_inode (Some i) num e]> (dentries st))
                              (set_nodes (<[i := set_n_ref (n_ref x + 1) x]> (nodes st)) st), Ok tt)
        end;
  readlink_law p m n a : fs_ok p m -> m !! n = Some a -> ifmt (a_mode a) = S_IFLNK ->
    exists f, op_readlink (ops_table (a_ops a)) = Some f /\
      forall st size, fs_ok (private st) (attrs_of st) -> attrs_of st !! n = Some a ->
        exists t, fs_target (private st) n = Some t /\ f n size st = Some (st, Ok (takeZ size t));
}.

Context `{E : Env} `{NT : !NodeTables F} `{DT : !DirTables F} `{FL : !FsLaws}.

Record wf st g : Prop := {
  wf_live d : d ∈ live g -> exists e n, dentries st !! d = Some e /\ inode e = Some n;
  wf_own d : 0 <= own g d /\ (1 <= own g d -> d ∈ live g);
  wf_node n : 0 <= own_node g n;
  wf_inode d e n : d ∈ live g -> dentries st !! d = Some e -> inode e = Some n ->
    (exists a s, attrs_of st !! n = Some a /\ a_superblock a = Some s) /\
    1 <= own_node g n + fs_refs (private st) n;
  wf_superblock n a s : attrs_of st !! n = Some a -> a_superblock a = Some s -> is_Some (superblocks st !! s);
  wf_flags d e : d ∈ live g -> dentries st !! d = Some e ->
    flags e = 0 \/ flags e = VFS_DENTRY_FLAG_MOUNT_POINT /\ exists m mp, mounts st !! m = Some mp /\ m_root mp = d;
  wf_parent d e p : d ∈ live g -> dentries st !! d = Some e -> parent e = Some p -> p ∈ live g;
  wf_parent_dir d e p q n a : d ∈ live g -> dentries st !! d = Some e -> parent e = Some p -> dentries st !! p = Some q ->
    inode q = Some n -> attrs_of st !! n = Some a -> ifmt (a_mode a) = S_IFDIR;
  wf_top d e : d ∈ live g -> dentries st !! d = Some e -> parent e = None ->
    flags e = VFS_DENTRY_FLAG_MOUNT_POINT /\ forall n a, inode e = Some n -> attrs_of st !! n = Some a -> ifmt (a_mode a) = S_IFDIR;
  wf_same_mount d e p q : d ∈ live g -> dentries st !! d = Some e -> parent e = Some p -> flags e = 0 -> dentries st !! p = Some q ->
    mount_point e = mount_point q;
  wf_mount_root m mp er : mounts st !! m = Some mp -> dentries st !! m_root mp = Some er ->
    mount_point er = Some m /\ forall q eq, parent er = Some q -> dentries st !! q = Some eq -> mount_point eq <> Some m;
  wf_chain d : d ∈ live g -> exists ch, chain_of st d ch;
  wf_nodup d e : d ∈ live g -> dentries st !! d = Some e -> NoDup (children e);
  wf_children d e c : d ∈ live g -> dentries st !! d = Some e ->
    (c ∈ children e <-> c ∈ live g /\ exists ec, dentries st !! c = Some ec /\ parent ec = Some d /\ flags ec = 0);
  wf_names d e c1 c2 e1 e2 : d ∈ live g -> dentries st !! d = Some e -> c1 ∈ children e -> c2 ∈ children e ->
    dentries st !! c1 = Some e1 -> dentries st !! c2 = Some e2 -> name e1 = name e2 -> c1 = c2;
  wf_entry d e n c ec : d ∈ live g -> dentries st !! d = Some e -> inode e = Some n -> c ∈ children e ->
    dentries st !! c = Some ec -> inode ec = fs_entry (private st) n (name ec);
  wf_ref d e : d ∈ live g -> dentries st !! d = Some e -> ref_count e = own g d + kids st g d + mount_refs (mounts st) d;
  wf_lru_nodup : NoDup (lru st);
  wf_lru d : d ∈ lru st <-> d ∈ live g /\ exists e, dentries st !! d = Some e /\ ref_count e = 0;
  wf_pool_nodup : NoDup (dentry_pool st);
  wf_pool d : d ∈ dentry_pool st -> dentries st !! d = None;
  wf_n_ref n x : nodes st !! n = Some x -> n_ref x = own_node g n + fs_refs (private st) n + users st g n;
  wf_lock n x : nodes st !! n = Some x -> 0 <= readers x /\ 0 <= lock_depth x;
  wf_mount m mp : mounts st !! m = Some mp -> m_root mp ∈ live g /\ is_Some (dentries st !! m_shadow mp);
  wf_shadow d e m : d ∈ live g -> dentries st !! d = Some e -> shadow_mount_point e = Some m ->
    exists mp, mounts st !! m = Some mp /\ m_shadow mp = d;
  wf_follow d : d ∈ live g -> is_Some (vfs_dentry_follow_mount_points d st);
  wf_fs : fs_ok (private st) (attrs_of st);
}.

(** Entries that stay: those to which the caller keeps references ([base]), those that mounts use, and
    the entries above them. *)
Inductive pinned (base : Z -> Z) st g : Z -> Prop :=
  | pin_base d : 1 <= base d -> pinned base st g d
  | pin_root m mp : mounts st !! m = Some mp -> pinned base st g (m_root mp)
  | pin_shadow m mp : mounts st !! m = Some mp -> m_shadow mp ∈ live g -> pinned base st g (m_shadow mp)
  | pin_parent d e p : pinned base st g d -> dentries st !! d = Some e -> parent e = Some p -> pinned base st g p.

(** What the life of the entries leaves alone: everything but which entries are cached and the counts. *)
Record kept (base : Z -> Z) st g st' g' : Prop := {
  k_private : private st' = private st;
  k_nodes : steady <$> nodes st' = steady <$> nodes st;
  k_superblocks : superblocks st' = superblocks st;
  k_mounts : mounts st' = mounts st;
  k_mount_pool : mount_pool st' = mount_pool st;
  k_mount_lock : mount_lock st' = mount_lock st;
  k_root : root st' = root st;
  k_context : proc_context st' = proc_context st;
  k_own_node : own_node g' = own_node g;
  k_pinned d : pinned base st g d -> d ∈ live g' /\ fixed <$> dentries st' !! d = fixed <$> dentries st !! d;
  k_shadow m mp : mounts st !! m = Some mp -> m_shadow mp ∈ live g' -> m_shadow mp ∈ live g;
}.

End inv.
Section steps.
Context {F : Type} `{E : Env} `{NT : !NodeTables F} `{DT : !DirTables F} `{FL : !FsLaws}.
Implicit Types (st : state F) (g : ghost) (e : dentry) (x : node).

Lemma fixed_look (m m' : gmap Z dentry) d e' : fixed <$> m' !! d = fixed <$> m !! d -> m' !! d = Some e' -> exists e, m !! d = Some e /\ fixed e' = fixed e.
Proof. intros H1 H2. rewrite H2 in H1. destruct (m !! d) as [e|]; [|done]. exists e. split; [done|]. cbn in H1. congruence. Qed.

Lemma chain_transfer st st' (L : gset Z) :
  (forall d e p, d ∈ L -> dentries st !! d = Some e -> parent e = Some p -> p ∈ L) ->
  (forall d, d ∈ L -> fixed <$> dentries st' !! d = fixed <$> dentries st !! d) ->
  forall d ch, chain_of st d ch -> d ∈ L -> chain_of st' d ch.
Proof.
  intros Hp Hf d ch Hc. induction Hc as [d e n Hd Hpar Hi|d e n p ch Hd Hpar Hi Hc IH]; intros HL.
  - destruct (fixed_look _ _ d e (eq_sym (Hf d HL)) Hd) as (e' & He' & Hx). unfold fixed in Hx. injection Hx as -> Hx1 _ Hx2 -> _.
    apply (chain_root st' d e' n); congruence.
  - destruct (fixed_look _ _ d e (eq_sym (Hf d HL)) Hd) as (e' & He' & Hx). unfold fixed in Hx. injection Hx as -> Hx1 _ Hx2 -> _.
    apply (chain_step st' d e' n p ch); try congruence. apply IH. eauto.
Qed.

Lemma follow_transfer st st' (L : gset Z) :
  mounts st' = mounts st ->
  (forall m mp, mounts st !! m = Some mp -> m_root mp ∈ L) ->
  (forall d, d ∈ L -> fixed <$> dentries st' !! d = fixed <$> dentries st !! d) ->
  forall fuel d, d ∈ L -> follow_loop fuel d st' = follow_loop fuel d st.
Proof.
  intros Hm Hr Hf fuel. induction fuel as [|fuel IH]; intros d HL; [done|]. cbn [follow_loop]. rewrite Hm.
  pose proof (Hf d HL) as Hx. destruct (dentries st' !! d) as [e'|], (dentries st !! d) as [e|]; cbn in Hx; try done.
  unfold fixed in Hx. injection Hx as _ _ _ _ _ Hs. cbn [mbind option_bind]. rewrite Hs. destruct (shadow_mount_point e) as [m|]; [|done].
  destruct (mounts st !! m) as [mp|] eqn:Em; cbn [mbind option_bind]; [|done]. apply IH. eauto.
Qed.

Lemma holds_fixed (P : dentry -> bool) (m m' : gmap Z dentry) d :
  (forall e e', fixed e = fixed e' -> P e = P e') -> fixed <$> m' !! d = fixed <$> m !! d -> holds P m' d = holds P m d.
Proof.
  intros HP Hf. unfold holds. destruct (m' !! d) as [e'|], (m !! d) as [e|]; cbn in Hf; try done. apply HP. congruence.
Qed.

Lemma is_parent_fixed d e e' : fixed e = fixed e' -> is_parent d e = is_parent d e'.
Proof. unfold fixed, is_parent. by intros [= _ _ _ -> _ _]. Qed.
Lemma is_inode_fixed n e e' : fixed e = fixed e' -> is_inode n e = is_inode n e'.
Proof. unfold fixed, is_inode. by intros [= _ -> _ _ _ _]. Qed.

Lemma kids_transfer st st' g g' d : live g' = live g ->
  (forall c, c ∈ live g -> fixed <$> dentries st' !! c = fixed <$> dentries st !! c) -> kids st' g' d = kids st g d.
Proof. intros EL Hf. unfold kids. rewrite EL. apply cnt_ext. intros c Hc. apply holds_fixed; [apply is_parent_fixed|auto]. Qed.

Lemma users_transfer st st' g g' n : live g' = live g ->
  (forall c, c ∈ live g -> fixed <$> dentries st' !! c = fixed <$> dentries st !! c) -> users st' g' n = users st g n.
Proof. intros EL Hf. unfold users. rewrite EL. apply cnt_ext. intros c Hc. apply holds_fixed; [apply is_inode_fixed|auto]. Qed.

Definition frame (e : dentry) := (fixed e, children e).

Lemma frame_look (m m' : gmap Z dentry) d e' : frame <$> m' !! d = frame <$> m !! d -> m' !! d = Some e' ->
  exists e, m !! d = Some e /\ name e' = name e /\ inode e' = inode e /\ flags e' = flags e /\ parent e' = parent e /\
    shadow_mount_point e' = shadow_mount_point e /\ children e' = children e /\ mount_point e' = mount_point e.
Proof.
  intros H1 H2. rewrite H2 in H1. destruct (m !! d) as [e|]; [|done]. exists e. split; [done|]. cbn in H1.
  injection H1 as ? ? ? ? ? ? ?. done.
Qed.

Lemma frame_fixed (m m' : gmap Z dentry) d : frame <$> m' !! d = frame <$> m !! d -> fixed <$> m' !! d = fixed <$> m !! d.
Proof. intros Hx. destruct (m' !! d), (m !! d); cbn in *; try done. unfold frame in Hx. congruence. Qed.

(** A step that changes no entry in use but for its count. *)
Lemma wf_reframe_nodes st g st' g' :
  wf st g -> live g' = live g -> private st' = private st -> superblocks st' = superblocks st ->
  mounts st' = mounts st -> attrs_of st' = attrs_of st ->
  (forall n, 0 <= own_node g' n) ->
  (forall d e n, d ∈ live g -> dentries st !! d = Some e -> inode e = Some n -> 1 <= own_node g' n + fs_refs (private st) n) ->
  (forall n x', nodes st' !! n = Some x' -> n_ref x' = own_node g' n + fs_refs (private st) n + users st g n /\ 0 <= readers x' /\ 0 <= lock_depth x') ->
  (forall d, d ∈ live g -> frame <$> dentries st' !! d = frame <$> dentries st !! d) ->
  (forall m mp, mounts st !! m = Some mp -> is_Some (dentries st' !! m_shadow mp)) ->
  NoDup (dentry_pool st') -> (forall d, d ∈ dentry_pool st' -> dentries st' !! d = None) ->
  (forall d, 0 <= own g' d /\ (1 <= own g' d -> d ∈ live g)) ->
  (forall d e', d ∈ live g -> dentries st' !! d = Some e' -> ref_count e' = own g' d + kids st g d + mount_refs (mounts st) d) ->
  NoDup (lru st') -> (forall d, d ∈ lru st' <-> d ∈ live g /\ exists e, dentries st' !! d = Some e /\ ref_count e = 0) ->
  wf st' g'.
Proof.
  intros W EL EP ES EM EA HN0 HN1 HN HF HD HP1 HP2 HO HR HL1 HL2.
  assert (HF' : forall d, d ∈ live g -> fixed <$> dentries st' !! d = fixed <$> dentries st !! d) by (intros; by apply frame_fixed, HF).
  assert (K : forall d, kids st' g' d = kids st g d) by (intros; by apply kids_transfer).
  assert (U : forall n, users st' g' n = users st g n) by (intros; by apply users_transfer).
  assert (LK : forall d e', d ∈ live g -> dentries st' !! d = Some e' -> exists e, dentries st !! d = Some e /\ name e' = name e /\ inode e' = inode e /\ flags e' = flags e /\ parent e' = parent e /\
    shadow_mount_point e' = shadow_mount_point e /\ children e' = children e /\ mount_point e' = mount_point e) by (intros d e' Hd; apply frame_look; auto).
  constructor; rewrite ?EL, ?EP, ?ES, ?EM, ?EA.
  - intros d Hd. destruct (wf_live _ _ W d Hd) as (e & n & He & Hn).
    pose proof (HF d Hd) as Hx. rewrite He in Hx. destruct (dentries st' !! d) as [e'|] eqn:He'; [|done].
    destruct (LK d e' Hd He') as (e0 & He0 & _ & Hi & _). exists e', n. split; [done|]. congruence.
  - apply HO.
  - apply HN0.
  - intros d e' n Hd He' Hi. destruct (LK d e' Hd He') as (e & He & _ & Hi' & _). split; [apply (wf_inode _ _ W d e); congruence|]. apply (HN1 d e); congruence.
  - apply (wf_superblock _ _ W).
  - intros d e' Hd He'. destruct (LK d e' Hd He') as (e & He & _ & _ & -> & _). apply (wf_flags _ _ W d e Hd He).
  - intros d e' p Hd He' Hp. destruct (LK d e' Hd He') as (e & He & _ & _ & _ & Hp' & _). apply (wf_parent _ _ W d e); congruence.
  - intros d e' p q' n a Hd He' Hp Hq'. destruct (LK d e' Hd He') as (e & He & _ & _ & _ & Hp' & _). rewrite Hp' in Hp.
    destruct (LK p q' (wf_parent _ _ W d e p Hd He Hp) Hq') as (q & Hq & _ & -> & _). apply (wf_parent_dir _ _ W d e p q); done.
  - intros d e' Hd He' Hp. destruct (LK d e' Hd He') as (e & He & _ & -> & -> & Hp' & _). rewrite Hp' in Hp. apply (wf_top _ _ W d e Hd He Hp).
  - intros d e' p q' Hd He' Hp Hfl Hq'. destruct (LK d e' Hd He') as (e & He & _ & _ & Hfl' & Hp' & _ & _ & ->). rewrite Hp' in Hp. rewrite Hfl' in Hfl.
    destruct (LK p q' (wf_parent _ _ W d e p Hd He Hp) Hq') as (q & Hq & _ & _ & _ & _ & _ & _ & ->). apply (wf_same_mount _ _ W d e p q); done.
  - intros m mp er' Hm Her'. destruct (wf_mount _ _ W m mp Hm) as (Hrl & _). destruct (LK _ er' Hrl Her') as (er & Her & _ & _ & _ & Hp' & _ & _ & ->).
    destruct (wf_mount_root _ _ W m mp er Hm Her) as (H1 & H2). split; [done|]. intros q eq' Hq Heq'. rewrite Hp' in Hq.
    destruct (LK q eq' (wf_parent _ _ W _ er q Hrl Her Hq) Heq') as (eq & Heq & _ & _ & _ & _ & _ & _ & ->). eauto.
  - intros d Hd. destruct (wf_chain _ _ W d Hd) as (ch & Hch). exists ch. eapply chain_transfer; eauto. apply (wf_parent _ _ W).
  - intros d e' Hd He'. destruct (LK d e' Hd He') as (e & He & _ & _ & _ & _ & _ & -> & _). apply (wf_nodup _ _ W d e Hd He).
  - intros d e' c Hd He'. destruct (LK d e' Hd He') as (e & He & _ & _ & _ & _ & _ & -> & _). rewrite (wf_children _ _ W d e c Hd He).
    split; intros (Hc & ec & Hec & H1 & H2); split; try done.
    + pose proof (HF c Hc) as Hx. rewrite Hec in Hx. destruct (dentries st' !! c) as [ec'|] eqn:Hec'; [|done].
      destruct (LK c ec' Hc Hec') as (e0 & He0 & _ & _ & ? & ? & _). exists ec'. split; [done|]. split; congruence.
    + destruct (LK c ec Hc Hec) as (e0 & He0 & _ & _ & ? & ? & _). exists e0. split; [done|]. split; congruence.
  - intros d e' c1 c2 e1 e2 Hd He' H1 H2 Hc1 Hc2 Hn. destruct (LK d e' Hd He') as (e & He & _ & _ & _ & _ & _ & Hch & _). rewrite Hch in H1, H2.
    assert (c1 ∈ live g) by (apply (wf_children _ _ W d e c1 Hd He); done). assert (c2 ∈ live g) by (apply (wf_children _ _ W d e c2 Hd He); done).
    destruct (LK c1 e1) as (f1 & Hf1 & ? & _); auto. destruct (LK c2 e2) as (f2 & Hf2 & ? & _); auto.
    apply (wf_names _ _ W d e c1 c2 f1 f2); congruence.
  - intros d e' n c ec' Hd He' Hi Hc Hec'. destruct (LK d e' Hd He') as (e & He & _ & Hi' & _ & _ & _ & Hch & _). rewrite Hch in Hc.
    assert (c ∈ live g) by (apply (wf_children _ _ W d e c Hd He); done).
    destruct (LK c ec') as (ec & Hec & -> & -> & _); auto. apply (wf_entry _ _ W d e n c ec); congruence.
  - intros d e' Hd He'. rewrite K. auto.
  - done.
  - done.
  - done.
  - done.
  - intros n x' Hx'. destruct (HN n x' Hx') as (-> & _). by rewrite U.
  - intros n x' Hx'. by destruct (HN n x' Hx') as (_ & ?).
  - intros m mp Hm. destruct (wf_mount _ _ W m mp Hm). eauto.
  - intros d e' m Hd He' Hs. destruct (LK d e' Hd He') as (e & He & _ & _ & _ & _ & Hs' & _). apply (wf_shadow _ _ W d e); congruence.
  - intros d Hd. unfold vfs_dentry_follow_mount_points. rewrite EM.
    rewrite (follow_transfer st st' (live g)); auto; [apply (wf_follow _ _ W d Hd)|]. intros m mp Hm. apply (wf_mount _ _ W m mp Hm).
  - apply (wf_fs _ _ W).
Qed.


Lemma wf_reframe st g st' g' :
  wf st g -> live g' = live g -> own_node g' = own_node g -> private st' = private st -> superblocks st' = superblocks st ->
  mounts st' = mounts st -> attrs_of st' = attrs_of st ->
  (forall n x', nodes st' !! n = Some x' -> exists x, nodes st !! n = Some x /\ n_ref x' = n_ref x /\ 0 <= readers x' /\ 0 <= lock_depth x') ->
  (forall d, d ∈ live g -> frame <$> dentries st' !! d = frame <$> dentries st !! d) ->
  (forall m mp, mounts st !! m = Some mp -> is_Some (dentries st' !! m_shadow mp)) ->
  NoDup (dentry_pool st') -> (forall d, d ∈ dentry_pool st' -> dentries st' !! d = None) ->
  (forall d, 0 <= own g' d /\ (1 <= own g' d -> d ∈ live g)) ->
  (forall d e', d ∈ live g -> dentries st' !! d = Some e' -> ref_count e' = own g' d + kids st g d + mount_refs (mounts st) d) ->
  NoDup (lru st') -> (forall d, d ∈ lru st' <-> d ∈ live g /\ exists e, dentries st' !! d = Some e /\ ref_count e = 0) ->
  wf st' g'.
Proof.
  intros W EL EN EP ES EM EA HN. apply wf_reframe_nodes; try done; rewrite ?EN.
  - apply (wf_node _ _ W).
  - intros d e n Hd He Hn. apply (wf_inode _ _ W d e n Hd He Hn).
  - intros n x' Hx'. destruct (HN n x' Hx') as (x & Hx & -> & ?). split; [apply (wf_n_ref _ _ W n x Hx)|done].
Qed.

(** *** What stays *)

Implicit Types (base : Z -> Z).

Lemma kept_refl base st g : wf st g -> (forall c, base c <= own g c) -> kept base st g st g.
Proof.
  intros W Hb. split; try done. intros d Hd. split; [|done].
  induction Hd as [d Hd|m mp Hm|m mp Hm Hl|d e p Hd IH He Hp].
  - apply (wf_own _ _ W). specialize (Hb d). lia.
  - apply (wf_mount _ _ W m mp Hm).
  - done.
  - by apply (wf_parent _ _ W d e).
Qed.

Lemma kept_pinned base st g st' g' d : kept base st g st' g' -> pinned base st g d -> pinned base st' g' d.
Proof.
  intros K Hd. induction Hd as [d Hd|m mp Hm|m mp Hm Hl|d e p Hd IH He Hp].
  - by constructor.
  - apply (pin_root base st' g' m). by rewrite (k_mounts _ _ _ _ _ K).
  - apply (pin_shadow base st' g' m); [by rewrite (k_mounts _ _ _ _ _ K)|]. apply (k_pinned _ _ _ _ _ K). by apply (pin_shadow base st g m).
  - destruct (k_pinned _ _ _ _ _ K d Hd) as (_ & Hf). rewrite He in Hf.
    destruct (dentries st' !! d) as [e'|] eqn:He'; [|done]. apply (pin_parent base st' g' d e'); try done. cbn in Hf. unfold fixed in Hf. injection Hf as _ _ _ Hp' _ _. by rewrite Hp'.
Qed.

Lemma kept_trans base st g st1 g1 st2 g2 : kept base st g st1 g1 -> kept base st1 g1 st2 g2 -> kept base st g st2 g2.
Proof.
  intros K1 K2. destruct K1 as [A1 A2 A3 A4 A5 A6 A7 A8 A9 A10 A11]. destruct K2 as [B1 B2 B3 B4 B5 B6 B7 B8 B9 B10 B11].
  split; [by rewrite B1|by rewrite B2|by rewrite B3|by rewrite B4|by rewrite B5|by rewrite B6|by rewrite B7|by rewrite B8|by rewrite B9| |].
  2:{ intros m mp Hm Hl. apply (A11 m mp Hm), (B11 m mp); [by rewrite A4|done]. }
  intros d Hd. destruct (A10 d Hd) as (H1 & H2).
  destruct (B10 d) as (H3 & H4). { eapply kept_pinned; [|exact Hd]. split; done. } split; [done|]. by rewrite H4.
Qed.

Lemma kept_attrs base st g st' g' : kept base st g st' g' -> attrs_of st' = attrs_of st.
Proof.
  intros K. pose proof (k_nodes _ _ _ _ _ K) as Hn. unfold attrs_of. apply map_eq. intros n. rewrite !lookup_fmap.
  assert (Hx : (steady <$> nodes st') !! n = (steady <$> nodes st) !! n) by (by rewrite Hn). rewrite !lookup_fmap in Hx.
  destruct (nodes st' !! n) as [x'|], (nodes st !! n) as [x|]; cbn in *; try done. f_equal. unfold steady in Hx. unfold attr_of. injection Hx; intros. congruence.
Qed.

Lemma kept_weaken base base' st g st' g' : (forall c, base' c <= base c) -> kept base st g st' g' -> kept base' st g st' g'.
Proof.
  intros Hb K. destruct K as [A1 A2 A3 A4 A5 A6 A7 A8 A9 A10 A11]. split; try done. intros d Hd. apply A10.
  induction Hd as [d Hd|m mp Hm|m mp Hm Hl|d e p Hd IH He Hp].
  - constructor. specialize (Hb d). lia.
  - by apply (pin_root base st g m).
  - by apply (pin_shadow base st g m).
  - by apply (pin_parent base st g d e).
Qed.

Lemma kept_chain base st g st' g' d ch : kept base st g st' g' -> pinned base st g d -> chain_of st d ch -> chain_of st' d ch.
Proof.
  intros K Hd Hc. induction Hc as [d e n He Hp Hi|d e n p ch He Hp Hi Hc IH];
    destruct (k_pinned _ _ _ _ _ K d Hd) as (_ & Hf); rewrite He in Hf; destruct (dentries st' !! d) as [e'|] eqn:He'; try done;
    cbn in Hf; unfold fixed in Hf; injection Hf as Hn Hi' _ Hp' Hm _; rewrite <- Hn, <- Hm.
  - apply (chain_root st' d e' n); congruence.
  - apply (chain_step st' d e' n p ch); try congruence. apply IH. by apply (pin_parent base st g d e).
Qed.

(** Steps that change entries in use only in their counts, and inodes only in theirs. *)
Lemma kept_step base st g st' g' :
  wf st' g' -> (forall c, base c <= own g' c) -> private st' = private st -> steady <$> nodes st' = steady <$> nodes st ->
  superblocks st' = superblocks st -> mounts st' = mounts st -> mount_pool st' = mount_pool st -> mount_lock st' = mount_lock st ->
  root st' = root st -> proc_context st' = proc_context st -> own_node g' = own_node g ->
  (forall d, d ∈ live g -> d ∈ live g' -> fixed <$> dentries st' !! d = fixed <$> dentries st !! d) ->
  (forall m mp, mounts st !! m = Some mp -> m_shadow mp ∈ live g <-> m_shadow mp ∈ live g') ->
  wf st g -> (forall c, base c <= own g c) ->
  kept base st g st' g'.
Proof.
  intros W' Hb' H1 H2 H3 H4 H5 H6 H7 H8 H9 Hf Hs W Hb. split; try done; [|intros m mp Hm; apply (Hs m mp Hm)].
  assert (HL : forall d, pinned base st g d -> d ∈ live g) by (intros; by apply (kept_refl base st g W Hb)).
  intros d Hd. cut (d ∈ live g'); [intros; split; auto|].
  induction Hd as [d Hd|m mp Hm|m mp Hm Hl|d e p Hd IH He Hp].
  - apply (wf_own _ _ W'). specialize (Hb' d). lia.
  - rewrite <- H4 in Hm. apply (wf_mount _ _ W' m mp Hm).
  - by apply (Hs m mp Hm).
  - pose proof (Hf d (HL d Hd) IH) as Hx. rewrite He in Hx. destruct (dentries st' !! d) as [e'|] eqn:He'; [|done].
    apply (wf_parent _ _ W' d e'); try done. cbn in Hx. unfold fixed in Hx. injection Hx as _ _ _ Hp' _ _. by rewrite Hp'.
Qed.

(** *** References *)

Lemma frame_set_ref (m : gmap Z dentry) d e r c : m !! d = Some e -> frame <$> <[d := set_ref r e]> m !! c = frame <$> m !! c.
Proof. intros He. destruct (decide (c = d)) as [->|]; [rewrite lookup_insert_eq, He; done|by rewrite lookup_insert_ne]. Qed.

Lemma is_Some_insert {A} (m : gmap Z A) d a c : is_Some (m !! c) -> is_Some (<[d := a]> m !! c).
Proof. intros [b Hb]. destruct (decide (c = d)) as [->|]; [rewrite lookup_insert_eq; eauto|rewrite lookup_insert_ne; eauto]. Qed.

Lemma wf_set_ref base st g d e k l :
  wf st g -> (forall c, base c <= own g c) -> d ∈ live g -> dentries st !! d = Some e -> base d <= own g d + k -> 0 <= own g d + k ->
  NoDup l -> (forall c, c ∈ l <-> if decide (c = d) then ref_count e + k = 0 else c ∈ lru st) ->
  let st' := set_lru l (set_dentries (<[d := set_ref (ref_count e + k) e]> (dentries st)) st) in
  wf st' (add_own d k g) /\ kept base st g st' (add_own d k g).
Proof.
  intros W Hb Hd He Hk1 Hk2 Hl1 Hl2 st'.
  assert (W' : wf st' (add_own d k g)).
  { apply (wf_reframe st g); try done.
    - intros n x Hx. exists x. split; [done|]. split; [done|]. apply (wf_lock _ _ W n x Hx).
    - intros c Hc. by apply frame_set_ref.
    - intros m mp Hmp. apply is_Some_insert. apply (wf_mount _ _ W m mp Hmp).
    - apply (wf_pool_nodup _ _ W).
    - intros c Hc. cbn. rewrite lookup_insert_ne; [apply (wf_pool _ _ W c Hc)|]. intros ->. rewrite (wf_pool _ _ W c Hc) in He. done.
    - intros c. cbn. pose proof (wf_own _ _ W c) as (H1 & H2). case_decide; subst; split; try lia; intros; auto. apply H2. lia.
    - intros c e' Hc. cbn. destruct (decide (c = d)) as [->|].
      + rewrite lookup_insert_eq. intros [= <-]. cbn. rewrite (wf_ref _ _ W d e Hd He). lia.
      + rewrite lookup_insert_ne by done. intros He'. rewrite (wf_ref _ _ W c e' Hc He'). lia.
    - intros c. cbn. rewrite Hl2. case_decide as Ec; subst.
      + split; [intros Hr|intros (_ & e' & He' & Hr)].
        * split; [done|]. eexists. split; [by rewrite lookup_insert_eq|]. done.
        * rewrite lookup_insert_eq in He'. injection He' as <-. done.
      + rewrite (wf_lru _ _ W c). rewrite lookup_insert_ne by done. done. }
  split; [done|]. apply kept_step; try done; cbn.
  - intros c. specialize (Hb c). case_decide; subst; lia.
  - intros c Hc _. apply frame_fixed. by apply frame_set_ref.
Qed.

Lemma mount_refs_nonneg m d : 0 <= mount_refs m d.
Proof.
  unfold mount_refs. induction (map_to_list m) as [|p l IH]; cbn; [lia|]. destruct (m_root p.2 =? d), (m_shadow p.2 =? d); cbn; lia.
Qed.

Lemma ref_nonneg st g d e : wf st g -> d ∈ live g -> dentries st !! d = Some e -> own g d + kids st g d <= ref_count e /\ 0 <= ref_count e.
Proof.
  intros W Hd He. rewrite (wf_ref _ _ W d e Hd He). pose proof (mount_refs_nonneg (mounts st) d). pose proof (wf_own _ _ W d).
  pose proof (cnt_nonneg (is_parent d) (dentries st) (live g)). unfold kids. lia.
Qed.

Lemma set_lru_same st : set_lru (lru st) st = st.
Proof. by destruct st. Qed.

(** How many entries can still be allocated: those of the pool, and those that can be evicted. *)
Definition avail st : Z := lenZ (dentry_pool st) + lenZ (lru st).

Lemma filter_notin (d : Z) (l : list Z) : d ∉ l -> filter (fun c => c <> d) l = l.
Proof.
  induction l as [|c l IH]; intros Hd; [done|]. apply not_elem_of_cons in Hd as (H1 & H2). rewrite filter_cons_True by done. by rewrite IH.
Qed.

Lemma avail_lru_remove (l : list Z) d : NoDup l -> lenZ l <= lenZ (filter (fun c => c <> d) l) + 1.
Proof.
  unfold lenZ. induction l as [|c l IH]; intros Hn; [done|]. apply NoDup_cons in Hn as (Hc & Hn). rewrite filter_cons. case_decide as Hd; cbn [length].
  - specialize (IH Hn). lia.
  - subst c. rewrite filter_notin by done. lia.
Qed.

(** A reference to an entry that has one. *)
Lemma dentry_ref_spec base st g d e :
  wf st g -> (forall c, base c <= own g c) -> d ∈ live g -> dentries st !! d = Some e -> 1 <= ref_count e ->
  exists st', dentry_ref d st = Some st' /\ wf st' (add_own d 1 g) /\ kept base st g st' (add_own d 1 g) /\ size (dentries st') = size (dentries st) /\
    avail st' = avail st.
Proof.
  intros W Hb Hd He Hr. unfold dentry_ref, upd_dentry. rewrite He. cbn [mbind option_bind]. eexists. split; [reflexivity|].
  destruct (wf_set_ref base st g d e 1 (lru st)) as (H1 & H2); try done.
  - specialize (Hb d). lia.
  - pose proof (wf_own _ _ W d). lia.
  - apply (wf_lru_nodup _ _ W).
  - intros c. case_decide; subst; [|done]. rewrite (wf_lru _ _ W d). split; [intros (_ & e' & He' & ?)|intros; lia]. rewrite He in He'. injection He' as <-. lia.
  - split; [exact H1|]. split; [exact H2|]. split; [|done]. cbn. rewrite map_size_insert, He. done.
Qed.

(** A reference to an entry that was found in the tree. *)
Lemma ref_cached_spec base st g d :
  wf st g -> (forall c, base c <= own g c) -> d ∈ live g ->
  exists st', ref_cached d st = Some st' /\ wf st' (add_own d 1 g) /\ kept base st g st' (add_own d 1 g) /\ avail st <= avail st' + 1.
Proof.
  intros W Hb Hd. destruct (wf_live _ _ W d Hd) as (e & n & He & Hn). unfold ref_cached. rewrite He. cbn [mbind option_bind].
  destruct (ref_count e =? 0) eqn:Er; zbool.
  - unfold vfs_dentry_remove_lru. assert (Hl : d ∈ lru st) by (apply (wf_lru _ _ W); eauto).
    rewrite bool_decide_eq_true_2 by done. cbn [kassert mbind option_bind]. unfold dentry_ref, upd_dentry. cbn [set_lru dentries]. rewrite He.
    cbn [mbind option_bind]. eexists. split; [reflexivity|]. apply Logic.and_assoc.
    split; [|pose proof (avail_lru_remove (lru st) d (wf_lru_nodup _ _ W)); unfold avail; cbn; lia].
    apply (wf_set_ref base st g d e 1 (filter (fun c => c <> d) (lru st))); try done.
    + specialize (Hb d). lia.
    + pose proof (wf_own _ _ W d). lia.
    + apply NoDup_filter, (wf_lru_nodup _ _ W).
    + intros c. rewrite list_elem_of_filter. case_decide; subst; split; intros; try done; try lia; by destruct_and?.
  - cbn [mbind option_bind]. destruct (dentry_ref_spec base st g d e) as (st' & H1 & H2 & H3 & _ & H4); try done.
    { destruct (ref_nonneg st g d e W Hd He). lia. }
    exists st'. conjs; try done. lia.
Qed.

(** *** An entry leaves *)

Lemma mount_refs_uses m k mp : m !! k = Some mp -> 1 <= mount_refs m (m_root mp) /\ 1 <= mount_refs m (m_shadow mp).
Proof.
  intros Hk. apply elem_of_map_to_list in Hk. unfold mount_refs. induction (map_to_list m) as [|p l IH]; [by apply not_elem_of_nil in Hk|].
  cbn [map sumZ]. assert (Hnn : forall d l, 0 <= sumZ (map (fun p : Z * mount => b2Z (m_root p.2 =? d) + b2Z (m_shadow p.2 =? d)) l)).
  { clear. intros d l. induction l as [|p l IH]; cbn; [lia|]. destruct (m_root p.2 =? d), (m_shadow p.2 =? d); cbn; lia. }
  apply elem_of_cons in Hk as [<-|Hk].
  - cbn. rewrite !Z.eqb_refl. pose proof (Hnn (m_root mp) l). pose proof (Hnn (m_shadow mp) l). cbn. split; destruct (_ =? _); cbn; lia.
  - destruct (IH Hk) as (H1 & H2). split; [destruct (m_root p.2 =? m_root mp), (m_shadow p.2 =? m_root mp)|destruct (m_root p.2 =? m_shadow mp), (m_shadow p.2 =? m_shadow mp)]; cbn [b2Z]; lia.
Qed.

Lemma kids_none st g d c e : kids st g d = 0 -> c ∈ live g -> dentries st !! c = Some e -> parent e <> Some d.
Proof.
  intros Hk Hc He Hp. pose proof (cnt_zero _ _ _ c Hc Hk) as Hx. unfold holds, is_parent in Hx. rewrite He in Hx.
  rewrite bool_decide_eq_false in Hx. done.
Qed.

Lemma fixed_children e l : fixed (set_children l e) = fixed e.
Proof. done. Qed.

(** The state after an entry [e] at [d], of the inode [x] at [n], has been taken out of the tree; what is
    now at [d] does not matter. *)
Record drops st (d : Z) e (n : Z) x st' : Prop := {
  dr_private : private st' = private st;
  dr_superblocks : superblocks st' = superblocks st;
  dr_mounts : mounts st' = mounts st;
  dr_mount_pool : mount_pool st' = mount_pool st;
  dr_mount_lock : mount_lock st' = mount_lock st;
  dr_root : root st' = root st;
  dr_context : proc_context st' = proc_context st;
  dr_nodes : nodes st' = <[n := set_n_ref (n_ref x - 1) x]> (nodes st);
  dr_entries c : c <> d -> dentries st' !! c =
    if bool_decide (parent e = Some c) then (fun q => set_children (remove_child d (children q)) q) <$> dentries st !! c else dentries st !! c;
  dr_lru_nodup : NoDup (lru st');
  dr_lru c : c ∈ lru st' <-> c ∈ lru st /\ c <> d;
  dr_pool_nodup : NoDup (dentry_pool st');
  dr_pool c : c ∈ dentry_pool st' -> dentries st' !! c = None;
}.

Section drop.
Context (base : Z -> Z) (st : state F) (g : ghost) (d : Z) (e : dentry) (n : Z) (x : node) (st' : state F).
Hypotheses (W : wf st g) (Hd : d ∈ live g) (He : dentries st !! d = Some e) (Hi : inode e = Some n) (Hx : nodes st !! n = Some x)
  (Hk : kids st g d = 0) (Hm : mount_refs (mounts st) d = 0) (D : drops st d e n x st').

Let EP := dr_private _ _ _ _ _ _ D.
Let ES := dr_superblocks _ _ _ _ _ _ D.
Let EM := dr_mounts _ _ _ _ _ _ D.
Let EN := dr_nodes _ _ _ _ _ _ D.
Let ED := dr_entries _ _ _ _ _ _ D.

Definition dropped : ghost :=
  mk_ghost (live g ∖ {[d]}) (fun c => if decide (c = d) then 0 else own g c + b2Z (bool_decide (parent e = Some c))) (own_node g).

Lemma drop_flags : flags e = 0.
Proof.
  destruct (wf_flags _ _ W d e Hd He) as [|(_ & k & mp & Hmp & Hr)]; [done|].
  destruct (mount_refs_uses _ _ _ Hmp) as (H1 & _). rewrite Hr in H1. lia.
Qed.

Lemma drop_fixed c : c <> d -> fixed <$> dentries st' !! c = fixed <$> dentries st !! c.
Proof. intros Hc. rewrite (ED c Hc). case_bool_decide; [|done]. by destruct (dentries st !! c). Qed.

Lemma drop_look c e' : c <> d -> dentries st' !! c = Some e' -> exists e0, dentries st !! c = Some e0 /\ name e' = name e0 /\ inode e' = inode e0 /\
  flags e' = flags e0 /\ parent e' = parent e0 /\ shadow_mount_point e' = shadow_mount_point e0 /\ ref_count e' = ref_count e0 /\
  mount_point e' = mount_point e0 /\ (c ∈ live g -> children e' = filter (fun c => c <> d) (children e0)).
Proof.
  intros Hc. rewrite (ED c Hc). case_bool_decide as Ep.
  - destruct (dentries st !! c) as [q|] eqn:Hq; [|done]. cbn. intros [= <-]. exists q. cbn. conjs; try done. intros Hcl.
    unfold remove_child. rewrite bool_decide_eq_true_2; [done|]. apply (wf_children _ _ W c q d Hcl Hq). split; [done|].
    exists e. conjs; try done. apply drop_flags.
  - intros He'. exists e'. conjs; try done. intros Hcl. symmetry. apply filter_notin. intros Hdc. apply (wf_children _ _ W c e' d Hcl He') in Hdc as (_ & e1 & He1 & Hp1 & _).
    rewrite He in He1. injection He1 as <-. done.
Qed.

Lemma drop_kids c : c <> d -> kids st' dropped c = kids st g c - b2Z (bool_decide (parent e = Some c)).
Proof.
  intros Hc. unfold kids, dropped. cbn [live]. rewrite (cnt_remove _ (dentries st) (live g) d Hd).
  replace (holds (is_parent c) (dentries st) d) with (bool_decide (parent e = Some c)) by (unfold holds, is_parent; by rewrite He).
  rewrite (cnt_ext _ (is_parent c) (dentries st') (dentries st)); [lia|]. intros q Hq. apply holds_fixed; [apply is_parent_fixed|]. apply drop_fixed. set_solver.
Qed.

Lemma drop_users k : users st' dropped k = users st g k - b2Z (bool_decide (k = n)).
Proof.
  unfold users, dropped. cbn [live]. rewrite (cnt_remove _ (dentries st) (live g) d Hd).
  replace (holds (is_inode k) (dentries st) d) with (bool_decide (Some n = Some k)) by (unfold holds, is_inode; by rewrite He, Hi).
  rewrite (cnt_ext _ (is_inode k) (dentries st') (dentries st)).
  - destruct (decide (k = n)) as [->|Hne]; [rewrite !bool_decide_eq_true_2 by done; lia|]. rewrite !bool_decide_eq_false_2 by congruence. lia.
  - intros q Hq. apply holds_fixed; [apply is_inode_fixed|]. apply drop_fixed. set_solver.
Qed.

Lemma drop_attrs : attrs_of st' = attrs_of st.
Proof.
  unfold attrs_of. rewrite EN, fmap_insert. apply insert_id. rewrite lookup_fmap, Hx. done.
Qed.

Lemma drop_closed c e0 p : c ∈ live dropped -> dentries st !! c = Some e0 -> parent e0 = Some p -> p ∈ live dropped.
Proof.
  cbn. intros Hc He0 Hp. apply elem_of_difference. split; [apply (wf_parent _ _ W c e0); set_solver|].
  rewrite elem_of_singleton. intros ->. apply (kids_none st g d c e0 Hk); set_solver.
Qed.

Lemma drop_roots k mp : mounts st !! k = Some mp -> m_root mp ∈ live dropped.
Proof.
  intros Hmp. cbn. apply elem_of_difference. split; [apply (wf_mount _ _ W k mp Hmp)|]. rewrite elem_of_singleton. intros Er.
  destruct (mount_refs_uses _ _ _ Hmp) as (H1 & _). rewrite Er in H1. lia.
Qed.

Lemma wf_drop : wf st' dropped.
Proof.
  pose proof drop_flags as Hfl.
  assert (NE : forall c, c ∈ live dropped -> c ∈ live g /\ c <> d) by (cbn; intros c; rewrite elem_of_difference, elem_of_singleton; done).
  constructor; rewrite ?EP, ?ES, ?EM, ?drop_attrs.
  - intros c Hc. destruct (NE c Hc) as (Hcl & Hne). destruct (wf_live _ _ W c Hcl) as (e0 & k & He0 & Hk0).
    rewrite (ED c Hne), He0. case_bool_decide; [|eauto]. cbn. eauto.
  - intros c. cbn. pose proof (wf_own _ _ W c) as (H1 & H2). case_decide; subst; [lia|]. rewrite elem_of_difference, elem_of_singleton.
    case_bool_decide as Ep; cbn [b2Z]; split; try lia; intros; split; try done; [|apply H2; lia]. by apply (wf_parent _ _ W d e).
  - apply (wf_node _ _ W).
  - intros c e' k Hc He' Hk'. destruct (NE c Hc) as (Hcl & Hne). destruct (drop_look c e' Hne He') as (e0 & He0 & _ & Hi0 & _).
    apply (wf_inode _ _ W c e0); congruence.
  - apply (wf_superblock _ _ W).
  - intros c e' Hc He'. destruct (NE c Hc) as (Hcl & Hne). destruct (drop_look c e' Hne He') as (e0 & He0 & _ & _ & -> & _). apply (wf_flags _ _ W c e0 Hcl He0).
  - intros c e' p Hc He' Hp. destruct (NE c Hc) as (Hcl & Hne). destruct (drop_look c e' Hne He') as (e0 & He0 & _ & _ & _ & Hp0 & _).
    apply (drop_closed c e0); congruence.
  - intros c e' p q' m a Hc He' Hp Hq'. destruct (NE c Hc) as (Hcl & Hne). destruct (drop_look c e' Hne He') as (e0 & He0 & _ & _ & _ & Hp0 & _). rewrite Hp0 in Hp.
    destruct (NE p (drop_closed c e0 p Hc He0 Hp)) as (Hpl & Hpne). destruct (drop_look p q' Hpne Hq') as (q & Hq & _ & -> & _). apply (wf_parent_dir _ _ W c e0 p q); done.
  - intros c e' Hc He' Hp. destruct (NE c Hc) as (Hcl & Hne). destruct (drop_look c e' Hne He') as (e0 & He0 & _ & -> & -> & Hp0 & _). rewrite Hp0 in Hp. apply (wf_top _ _ W c e0 Hcl He0 Hp).
  - intros c e' p q' Hc He' Hp Hf' Hq'. destruct (NE c Hc) as (Hcl & Hne). destruct (drop_look c e' Hne He') as (e0 & He0 & _ & _ & Hf0 & Hp0 & _ & _ & -> & _). rewrite Hp0 in Hp. rewrite Hf0 in Hf'.
    destruct (NE p (drop_closed c e0 p Hc He0 Hp)) as (Hpl & Hpne). destruct (drop_look p q' Hpne Hq') as (q & Hq & _ & _ & _ & _ & _ & _ & -> & _). apply (wf_same_mount _ _ W c e0 p q); done.
  - intros k mp er' Hk' Her'. destruct (NE _ (drop_roots k mp Hk')) as (Hrl & Hrne). destruct (drop_look _ er' Hrne Her') as (er & Her & _ & _ & _ & Hp0 & _ & _ & -> & _).
    destruct (wf_mount_root _ _ W k mp er Hk' Her) as (H1 & H2). split; [done|]. intros q eq' Hq Heq'. rewrite Hp0 in Hq.
    destruct (NE q (drop_closed _ er q (drop_roots k mp Hk') Her Hq)) as (Hql & Hqne). destruct (drop_look q eq' Hqne Heq') as (eq & Heq & _ & _ & _ & _ & _ & _ & -> & _). eauto.
  - intros c Hc. destruct (NE c Hc) as (Hcl & Hne). destruct (wf_chain _ _ W c Hcl) as (ch & Hch). exists ch.
    apply (chain_transfer st st' (live dropped)); try done; [apply drop_closed|]. intros q Hq. apply drop_fixed. by apply NE.
  - intros c e' Hc He'. destruct (NE c Hc) as (Hcl & Hne). destruct (drop_look c e' Hne He') as (e0 & He0 & _ & _ & _ & _ & _ & _ & _ & Hch); rewrite (Hch Hcl).
    apply NoDup_filter, (wf_nodup _ _ W c e0 Hcl He0).
  - intros c e' q Hc He'. destruct (NE c Hc) as (Hcl & Hne). destruct (drop_look c e' Hne He') as (e0 & He0 & _ & _ & _ & _ & _ & _ & _ & Hch); rewrite (Hch Hcl).
    rewrite list_elem_of_filter, (wf_children _ _ W c e0 q Hcl He0). cbn [live dropped]. rewrite elem_of_difference, elem_of_singleton. split.
    + intros (Hqd & Hq & eq & Heq & H1 & H2). split; [done|]. pose proof (drop_fixed q Hqd) as Hf. rewrite Heq in Hf.
      destruct (dentries st' !! q) as [eq'|] eqn:Heq'; [|done]. destruct (drop_look q eq' Hqd Heq') as (e1 & He1 & _ & _ & H3 & H4 & _).
      exists eq'. split; [done|]. split; congruence.
    + intros ((Hq & Hqd) & eq & Heq & H1 & H2). split; [done|]. split; [done|]. destruct (drop_look q eq Hqd Heq) as (e1 & He1 & _ & _ & H3 & H4 & _).
      exists e1. split; [done|]. split; congruence.
  - intros c e' c1 c2 e1 e2 Hc He' H1 H2 He1 He2 Hn. destruct (NE c Hc) as (Hcl & Hne). destruct (drop_look c e' Hne He') as (e0 & He0 & _ & _ & _ & _ & _ & _ & _ & Hch).
    rewrite (Hch Hcl) in H1, H2. apply list_elem_of_filter in H1 as (H1d & H1), H2 as (H2d & H2).
    destruct (drop_look c1 e1 H1d He1) as (f1 & Hf1 & ? & _). destruct (drop_look c2 e2 H2d He2) as (f2 & Hf2 & ? & _).
    apply (wf_names _ _ W c e0 c1 c2 f1 f2); congruence.
  - intros c e' k q eq' Hc He' Hk' Hq Heq'. destruct (NE c Hc) as (Hcl & Hne). destruct (drop_look c e' Hne He') as (e0 & He0 & _ & Hi0 & _ & _ & _ & _ & _ & Hch).
    rewrite (Hch Hcl) in Hq. apply list_elem_of_filter in Hq as (Hqd & Hq). destruct (drop_look q eq' Hqd Heq') as (eq & Heq & -> & -> & _).
    apply (wf_entry _ _ W c e0 k q eq); congruence.
  - intros c e' Hc He'. destruct (NE c Hc) as (Hcl & Hne). destruct (drop_look c e' Hne He') as (e0 & He0 & _ & _ & _ & _ & _ & Hr & _).
    rewrite Hr, (wf_ref _ _ W c e0 Hcl He0), (drop_kids c Hne). cbn [dropped own]. rewrite decide_False by done. lia.
  - apply (dr_lru_nodup _ _ _ _ _ _ D).
  - intros c. rewrite (dr_lru _ _ _ _ _ _ D), (wf_lru _ _ W c). cbn [live dropped]. rewrite elem_of_difference, elem_of_singleton. split.
    + intros ((Hc & e0 & He0 & Hr) & Hne). split; [done|]. pose proof (drop_fixed c Hne) as Hf. rewrite He0 in Hf.
      destruct (dentries st' !! c) as [e'|] eqn:He'; [|done]. destruct (drop_look c e' Hne He') as (e1 & He1 & _ & _ & _ & _ & _ & Hr1 & _).
      exists e'. split; [done|]. congruence.
    + intros ((Hc & Hne) & e' & He' & Hr). destruct (drop_look c e' Hne He') as (e1 & He1 & _ & _ & _ & _ & _ & Hr1 & _). split; [|done]. split; [done|]. exists e1. split; [done|]. congruence.
  - apply (dr_pool_nodup _ _ _ _ _ _ D).
  - apply (dr_pool _ _ _ _ _ _ D).
  - intros k y. rewrite EN, drop_users. cbn [dropped own_node]. destruct (decide (k = n)) as [->|Hne].
    + rewrite lookup_insert_eq, bool_decide_eq_true_2 by done. intros [= <-]. cbn. rewrite (wf_n_ref _ _ W n x Hx). lia.
    + rewrite lookup_insert_ne, bool_decide_eq_false_2 by done. intros Hy. rewrite (wf_n_ref _ _ W k y Hy). cbn. lia.
  - intros k y. rewrite EN. destruct (decide (k = n)) as [->|Hne].
    + rewrite lookup_insert_eq. intros [= <-]. apply (wf_lock _ _ W n x Hx).
    + rewrite lookup_insert_ne by done. apply (wf_lock _ _ W).
  - intros k mp Hmp. split; [by apply (drop_roots k)|]. destruct (wf_mount _ _ W k mp Hmp) as (_ & [q Hq]).
    destruct (decide (m_shadow mp = d)) as [Es|Es]; [destruct (mount_refs_uses _ _ _ Hmp) as (_ & H1); rewrite Es in H1; lia|].
    rewrite (ED _ Es), Hq. case_bool_decide; cbn; eauto.
  - intros c e' k Hc He' Hs. destruct (NE c Hc) as (Hcl & Hne). destruct (drop_look c e' Hne He') as (e0 & He0 & _ & _ & _ & _ & Hs0 & _).
    apply (wf_shadow _ _ W c e0); congruence.
  - intros c Hc. destruct (NE c Hc) as (Hcl & Hne). unfold vfs_dentry_follow_mount_points. rewrite EM.
    rewrite (follow_transfer st st' (live dropped)); try done; [apply (wf_follow _ _ W c Hcl)|apply drop_roots|]. intros q Hq. apply drop_fixed. by apply NE.
  - apply (wf_fs _ _ W).
Qed.

Hypotheses (Hb : forall c, base c <= own g c) (Hbd : base d <= 0).

Lemma drop_kept : kept base st g st' dropped.
Proof.
  apply kept_step; try apply D; try done.
  - apply wf_drop.
  - intros c. cbn. specialize (Hb c). case_decide; subst; [done|]. case_bool_decide; cbn [b2Z]; lia.
  - rewrite EN, fmap_insert. apply insert_id. rewrite lookup_fmap, Hx. done.
  - intros c Hc Hc'. apply drop_fixed. cbn in Hc'. set_solver.
  - intros k mp Hmp. cbn. rewrite elem_of_difference, elem_of_singleton. split; [|tauto]. intros Hs. split; [done|]. intros Es.
    destruct (mount_refs_uses _ _ _ Hmp) as (_ & H1). rewrite Es in H1. lia.
Qed.
End drop.

(** *** Releasing a reference *)

Lemma upd_dentry_eq f d e st : dentries st !! d = Some e -> upd_dentry f d st = Some (set_dentries (<[d := f e]> (dentries st)) st).
Proof. intros He. unfold upd_dentry. by rewrite He. Qed.

Lemma chain_nonempty st d ch : chain_of st d ch -> ch <> [].
Proof. by intros []. Qed.

Lemma chain_fun st d ch1 : chain_of st d ch1 -> forall ch2, chain_of st d ch2 -> ch1 = ch2.
Proof.
  induction 1 as [d e n He Hp Hi|d e n p ch He Hp Hi Hc IH]; intros ch2 H2; inversion H2; subst; try congruence.
  assert (e0 = e) as -> by congruence. assert (n0 = n) as -> by congruence. assert (p0 = p) as -> by congruence. f_equal. auto.
Qed.

Lemma parent_ne st g d e : wf st g -> d ∈ live g -> dentries st !! d = Some e -> parent e <> Some d.
Proof.
  intros W Hd He Hp. destruct (wf_chain _ _ W d Hd) as (ch & Hch). inversion Hch as [|? e0 n p ch0 He0 Hp0 Hi0 Hc0]; subst; [congruence|].
  assert (p = d) as -> by congruence. pose proof (chain_fun _ _ _ Hch _ Hc0) as Hx. apply (f_equal length) in Hx. cbn in Hx. lia.
Qed.

Lemma users_pos st g d e n : d ∈ live g -> dentries st !! d = Some e -> inode e = Some n -> 1 <= users st g n.
Proof.
  intros Hd He Hi. unfold users. rewrite (cnt_remove _ _ _ d Hd). unfold holds at 1. rewrite He. unfold is_inode at 1. rewrite Hi.
  rewrite bool_decide_eq_true_2 by done. pose proof (cnt_nonneg (is_inode n) (dentries st) (live g ∖ {[d]})). cbn [b2Z]. lia.
Qed.

(** The inode of an entry in use: it is held by more than its entries. *)
Lemma entry_inode st g d e n : wf st g -> d ∈ live g -> dentries st !! d = Some e -> inode e = Some n ->
  exists x s sb, nodes st !! n = Some x /\ n_superblock x = Some s /\ superblocks st !! s = Some sb /\ 2 <= n_ref x.
Proof.
  intros W Hd He Hi. destruct (wf_inode _ _ W d e n Hd He Hi) as ((a & s & Ha & Hs) & Hr).
  destruct (wf_superblock _ _ W n a s Ha Hs) as [sb Hsb]. unfold attrs_of in Ha. rewrite lookup_fmap in Ha.
  destruct (nodes st !! n) as [x|] eqn:Hx; [|done]. injection Ha as <-. exists x, s, sb. conjs; try done.
  rewrite (wf_n_ref _ _ W n x Hx). pose proof (users_pos st g d e n Hd He Hi). lia.
Qed.

Lemma cannot_cache_spec st g d e : wf st g -> d ∈ live g -> dentries st !! d = Some e -> is_Some (cannot_cache e st).
Proof.
  intros W Hd He. destruct (wf_live _ _ W d Hd) as (e' & n & He' & Hi). assert (e' = e) as -> by congruence.
  destruct (entry_inode st g d e n W Hd He Hi) as (x & s & sb & Hx & Hs & Hsb & _).
  unfold cannot_cache. rewrite Hi. destruct (has (flags e) VFS_DENTRY_FLAG_UNLINKED); [eauto|].
  unfold node_superblock. rewrite Hx. cbn [mbind option_bind]. rewrite Hs. cbn [mbind option_bind]. rewrite Hsb. cbn. eauto.
Qed.

Lemma node_release_spec n x st : nodes st !! n = Some x -> 2 <= n_ref x ->
  node_release n st = Some (set_nodes (<[n := set_n_ref (n_ref x - 1) x]> (nodes st)) st).
Proof.
  intros Hx Hr. unfold node_release. rewrite Hx. cbn [mbind option_bind]. rewrite (proj2 (Z.eqb_neq _ _)) by lia. cbn [negb].
  unfold upd_node. rewrite Hx. cbn [mbind option_bind]. unfold ref_dec. rewrite (proj2 (Z.eqb_neq _ _)) by lia. done.
Qed.

(** What a release leaves: one reference of the caller less, and maybe fewer entries. *)
Record released base st g d st' g' : Prop := {
  rl_wf : wf st' g';
  rl_kept : kept base st g st' g';
  rl_own c : own g' c = own g c - if decide (c = d) then 1 else 0;
  rl_live : live g' ⊆ live g;
  rl_other c : c ∉ live g -> dentries st' !! c = dentries st !! c;
  rl_avail : avail st <= avail st';
}.

Lemma release_cached base st g d e l : wf st g -> (forall c, base c <= own g c) -> 0 <= base d -> base d + 1 <= own g d -> d ∈ live g ->
  dentries st !! d = Some e -> 1 <= ref_count e ->
  NoDup l -> (forall c, c ∈ l <-> if decide (c = d) then ref_count e - 1 = 0 else c ∈ lru st) -> lenZ (lru st) <= lenZ l ->
  released base st g d (set_lru l (set_dentries (<[d := set_ref (ref_dec (ref_count e)) e]> (dentries st)) st)) (add_own d (-1) g).
Proof.
  intros W Hb Hb0 Hbd Hd He Hr Hl1 Hl2 Hl3. unfold ref_dec. rewrite (proj2 (Z.eqb_neq _ _)) by lia.
  destruct (wf_set_ref base st g d e (-1) l) as (H1 & H2); try done; try lia.
  split; [exact H1|exact H2|..].
  - intros c. cbn. case_decide; lia.
  - done.
  - intros c Hc. cbn. rewrite lookup_insert_ne; [done|]. intros ->. done.
  - unfold avail. cbn. lia.
Qed.

Lemma size_pos (m : gmap Z dentry) d e : m !! d = Some e -> (0 < size m)%nat.
Proof. intros Hd. apply Nat.neq_0_lt_0. intros E0. apply map_size_empty_inv in E0. subst. done. Qed.

(** The last reference goes and the entry is not kept: it is freed, and the reference to its parent is
    left to release. *)
Definition free_entry e (d : Z) st : option (state F) :=
  st ← upd_dentry (set_ref (ref_dec (ref_count e))) d st;
  st ← match parent e with
       | Some p => upd_dentry (fun q => set_children (remove_child d (children q)) q) p st
       | None => Some st
       end;
  st ← upd_dentry (set_parent None) d st;
  free_dentry d st.

(** The parent of an entry without the entry. *)
Lemma unlink_child st g d e r : wf st g -> d ∈ live g -> dentries st !! d = Some e ->
  let st1 := set_dentries (<[d := set_ref r e]> (dentries st)) st in
  exists m, match parent e with Some p => upd_dentry (fun q => set_children (remove_child d (children q)) q) p st1 | None => Some st1 end = Some (set_dentries m st) /\
    m !! d = Some (set_ref r e) /\
    forall c, c <> d -> m !! c = if bool_decide (parent e = Some c) then (fun q => set_children (remove_child d (children q)) q) <$> dentries st !! c else dentries st !! c.
Proof.
  intros W Hd He st1. destruct (parent e) as [p|] eqn:Ep.
  - assert (Hpd : p <> d). { intros ->. by apply (parent_ne st g d e W Hd He). }
    destruct (wf_live _ _ W p (wf_parent _ _ W d e p Hd He Ep)) as (q & k & Hq & _).
    rewrite (upd_dentry_eq _ p q) by (cbn; by rewrite lookup_insert_ne). eexists. split; [reflexivity|]. cbn. split.
    + rewrite lookup_insert_ne by done. by rewrite lookup_insert_eq.
    + intros c Hcd. case_bool_decide as Ec.
      * injection Ec as <-. rewrite lookup_insert_eq, Hq. done.
      * rewrite !lookup_insert_ne by congruence. done.
  - eexists. split; [reflexivity|]. split; [by rewrite lookup_insert_eq|]. intros c Hcd. by rewrite lookup_insert_ne, bool_decide_eq_false_2.
Qed.

Lemma free_entry_spec st g d e n x : wf st g -> d ∈ live g -> dentries st !! d = Some e -> inode e = Some n -> nodes st !! n = Some x -> 2 <= n_ref x ->
  d ∉ lru st -> exists st', free_entry e d st = Some st' /\ drops st d e n x st' /\ dentries st' !! d = None /\ avail st' = avail st + 1.
Proof.
  intros W Hd He Hi Hx Hxr Hnl. unfold free_entry. rewrite (upd_dentry_eq _ d e st He). cbn [mbind option_bind].
  destruct (unlink_child st g d e (ref_dec (ref_count e)) W Hd He) as (m & E2 & A1 & A2). cbn zeta in E2. rewrite E2. cbn [mbind option_bind].
  rewrite (upd_dentry_eq _ d _ (set_dentries m st) A1). cbn [mbind option_bind]. unfold free_dentry. cbn [dentries set_dentries]. rewrite lookup_insert_eq.
  cbn [mbind option_bind set_parent set_ref inode]. rewrite Hi. unfold vfs_node_release, on_node. rewrite (node_release_spec n x) by done. cbn [mbind option_bind].
  eexists. split; [reflexivity|].
  assert (D3 : forall c, c <> d -> delete d (<[d := set_parent None (set_ref (ref_dec (ref_count e)) e)]> m) !! c =
    if bool_decide (parent e = Some c) then (fun q => set_children (remove_child d (children q)) q) <$> dentries st !! c else dentries st !! c).
  { intros c Hcd. rewrite lookup_delete_ne, lookup_insert_ne by done. auto. }
  split; [|split; [cbn; by rewrite lookup_delete_eq|unfold avail; cbn; rewrite lenZ_cons; lia]]. split; try done.
  - apply (wf_lru_nodup _ _ W).
  - intros c. cbn. split; [|tauto]. intros Hcl. split; [done|]. intros ->. done.
  - cbn. apply NoDup_cons. split; [|apply (wf_pool_nodup _ _ W)]. intros Hcl. rewrite (wf_pool _ _ W d Hcl) in He. done.
  - intros c. cbn. rewrite elem_of_cons. destruct (decide (c = d)) as [->|Hcd]; [by rewrite lookup_delete_eq|]. intros [?|Hcl]; [done|].
    rewrite (D3 c Hcd), (wf_pool _ _ W c Hcl). by case_bool_decide.
Qed.

(** Freeing an entry whose only reference the caller holds. *)
Lemma drops_release base st g d e n x st' : wf st g -> (forall c, base c <= own g c) -> (forall c, 0 <= base c) -> base d + 1 <= own g d ->
  d ∈ live g -> dentries st !! d = Some e -> inode e = Some n -> nodes st !! n = Some x -> ref_count e = 1 ->
  drops st d e n x st' -> dentries st' !! d = None ->
  wf st' (dropped g d e) /\ kept base st g st' (dropped g d e) /\ (size (dentries st') < size (dentries st))%nat /\
  (forall c, base c + (if decide (parent e = Some c) then 1 else 0) <= own (dropped g d e) c) /\
  (forall c, own (dropped g d e) c = own g c - (if decide (c = d) then 1 else 0) + (if decide (parent e = Some c) then 1 else 0)).
Proof.
  intros W Hb Hb0 Hbd Hd He Hi Hx Hr D Hnone. pose proof (wf_ref _ _ W d e Hd He) as Href.
  pose proof (mount_refs_nonneg (mounts st) d). pose proof (cnt_nonneg (is_parent d) (dentries st) (live g)) as Hk. fold (kids st g d) in Hk.
  specialize (Hb0 d) as Hb0d. pose proof (parent_ne st g d e W Hd He) as Hpn.
  assert (Hown : forall c, own (dropped g d e) c = own g c - (if decide (c = d) then 1 else 0) + (if decide (parent e = Some c) then 1 else 0)).
  { intros c. cbn. destruct (decide (c = d)) as [->|]; [rewrite decide_False by done; lia|]. case_bool_decide; case_decide; try done; cbn; lia. }
  conjs; [| | | |exact Hown].
  - apply (wf_drop st g d e n x); try done; lia.
  - apply (drop_kept base st g d e n x); try done; lia.
  - assert (Hdom : dom (dentries st') = dom (dentries st) ∖ {[d]}).
    { apply set_eq. intros c. rewrite elem_of_difference, elem_of_singleton, !elem_of_dom. destruct (decide (c = d)) as [->|Hcd].
      - rewrite Hnone. split; [by intros []|tauto].
      - rewrite (dr_entries _ _ _ _ _ _ D c Hcd). case_bool_decide; [|tauto]. rewrite fmap_is_Some. tauto. }
    rewrite <- !size_dom, Hdom. rewrite size_difference by (apply singleton_subseteq_l, elem_of_dom; eauto). rewrite size_singleton, size_dom.
    pose proof (size_pos _ _ _ He). lia.
  - intros c. rewrite Hown. specialize (Hb c). destruct (decide (parent e = Some c)), (decide (c = d)); subst; try done; lia.
Qed.

Lemma not_lru st g d e : wf st g -> dentries st !! d = Some e -> ref_count e <> 0 -> d ∉ lru st.
Proof. intros W He Hr Hl. apply (wf_lru _ _ W) in Hl as (_ & e' & He' & Hr'). assert (e' = e) as -> by congruence. done. Qed.

Lemma dentry_release_loop_spec base : (forall c, 0 <= base c) -> forall fuel st g d, wf st g -> (forall c, base c <= own g c) -> base d + 1 <= own g d ->
  (size (dentries st) < fuel)%nat ->
  exists st' g', dentry_release_loop fuel d st = Some st' /\ released base st g d st' g'.
Proof.
  intros Hb0 fuel. induction fuel as [|fuel IH]; intros st g d W Hb Hbd Hf; [lia|].
  assert (Hd : d ∈ live g). { apply (wf_own _ _ W). specialize (Hb0 d). lia. }
  destruct (wf_live _ _ W d Hd) as (e & n & He & Hi). destruct (ref_nonneg st g d e W Hd He) as (Hr & _).
  pose proof (cnt_nonneg (is_parent d) (dentries st) (live g)) as Hk. fold (kids st g d) in Hk. specialize (Hb0 d) as Hb0d.
  pose proof (not_lru st g d e W He) as Hnl.
  cbn [dentry_release_loop]. rewrite He. cbn [mbind option_bind].
  destruct (ref_count e =? 1) eqn:Er; zbool; cbn [negb].
  - rewrite bool_decide_eq_false_2 by (apply (parent_ne st g d e W Hd He)). cbn [negb kassert mbind option_bind].
    destruct (cannot_cache_spec st g d e W Hd He) as [b Hc]. rewrite Hc. cbn [mbind option_bind]. destruct b.
    + destruct (entry_inode st g d e n W Hd He Hi) as (x & s & sb & Hx & Hs & Hsb & Hxr).
      destruct (free_entry_spec st g d e n x) as (st3 & E3 & D & Hnone & Ha3); try done; [apply Hnl; lia|].
      destruct (drops_release base st g d e n x st3) as (W3 & K3 & S3 & Hb3 & Ho3); try done.
      unfold free_entry in E3. destruct (upd_dentry (set_ref _) d st) as [sa|]; [|done]. cbn [mbind option_bind] in E3 |- *.
      destruct (match parent e with Some p => _ | None => _ end) as [sb'|]; [|done]. cbn [mbind option_bind] in E3 |- *.
      destruct (upd_dentry (set_parent None) d sb') as [sc|]; [|done]. cbn [mbind option_bind] in E3 |- *. rewrite E3. cbn [mbind option_bind].
      destruct (parent e) as [p|] eqn:Ep.
      * destruct (IH st3 (dropped g d e) p W3) as (st' & g' & R1 & [R2 R3 R4 R5 R6 R7]).
        { intros c. specialize (Hb3 c). case_decide; lia. }
        { specialize (Hb3 p). rewrite decide_True in Hb3 by done. lia. }
        { lia. }
        exists st', g'. split; [exact R1|]. split; [done|by eapply kept_trans|..].
        { intros c. rewrite R4, Ho3. destruct (decide (c = p)) as [->|]; [rewrite (decide_True (P := Some p = Some p)) by done; lia|].
          rewrite (decide_False (P := Some p = Some c)) by congruence. lia. }
        { etrans; [exact R5|]. cbn. set_solver. }
        { intros c Hcl. assert (c <> d) by (intros ->; done). rewrite R6 by (cbn; set_solver). rewrite (dr_entries _ _ _ _ _ _ D c) by done.
          rewrite bool_decide_eq_false_2; [done|]. rewrite Ep. intros [= ->]. apply Hcl. by apply (wf_parent _ _ W d e). }
        { lia. }
      * exists st3, (dropped g d e). split; [done|]. split; try done.
        { intros c. rewrite Ho3. rewrite (decide_False (P := None = Some c)) by done. lia. }
        { cbn. set_solver. }
        { intros c Hcl. assert (c <> d) by (intros ->; done). rewrite (dr_entries _ _ _ _ _ _ D c) by done. rewrite Ep. by rewrite bool_decide_eq_false_2. }
        { lia. }
    + rewrite (upd_dentry_eq _ d e st He). eexists _, _. split; [reflexivity|].
      apply (release_cached base st g d e (lru st ++ [d])); try done; try lia.
      * apply NoDup_app. split; [apply (wf_lru_nodup _ _ W)|]. split; [|apply NoDup_singleton]. intros c Hcl ->%list_elem_of_singleton. apply Hnl; [lia|done].
      * intros c. rewrite elem_of_app, list_elem_of_singleton. case_decide; subst; split; intros; tauto || lia.
      * unfold lenZ. rewrite length_app. lia.
  - rewrite (upd_dentry_eq _ d e st He). eexists _, _. split; [reflexivity|].
    rewrite <- (set_lru_same (set_dentries _ st)). apply (release_cached base st g d e (lru st)); try done; try lia.
    + apply (wf_lru_nodup _ _ W).
    + intros c. case_decide; subst; [|done]. split; [intros Hcl; exfalso; revert Hcl; apply Hnl; lia|lia].
Qed.

Lemma dentry_release_spec base st g d : (forall c, 0 <= base c) -> wf st g -> (forall c, base c <= own g c) -> base d + 1 <= own g d ->
  exists st' g', vfs_dentry_release d st = Some st' /\ released base st g d st' g'.
Proof. intros. apply dentry_release_loop_spec; auto. Qed.

(** *** Locks *)

Definition lock_up x : node :=
  if writer x then set_lock (readers x) true (lock_depth x + 1) x else set_lock (readers x + 1) false (lock_depth x) x.

Definition read_locked (n : Z) x st : state F := set_nodes (<[n := lock_up x]> (nodes st)) st.

Lemma attr_lock_up x : attr_of (lock_up x) = attr_of x.
Proof. unfold lock_up. by destruct (writer x). Qed.

Lemma attrs_insert (m : gmap Z node) n x y : m !! n = Some x -> attr_of y = attr_of x -> attr_of <$> <[n := y]> m = attr_of <$> m.
Proof. intros Hx Hy. rewrite fmap_insert. apply insert_id. by rewrite lookup_fmap, Hx, Hy. Qed.

Lemma node_acquire_read_spec st g n x : wf st g -> nodes st !! n = Some x ->
  node_acquire_read n st = Some (read_locked n x st) /\ wf (read_locked n x st) g.
Proof.
  intros W Hx. split.
  - unfold node_acquire_read, read_locked, lock_up, upd_node. rewrite Hx. cbn [mbind option_bind]. by destruct (writer x).
  - apply (wf_reframe st g); try done; try apply W.
    + by apply (attrs_insert _ n x), attr_lock_up.
    + intros k y. cbn. destruct (decide (k = n)) as [->|].
      * rewrite lookup_insert_eq. intros [= <-]. exists x. pose proof (wf_lock _ _ W n x Hx). unfold lock_up. destruct (writer x); cbn; conjs; try done; lia.
      * rewrite lookup_insert_ne by done. intros Hy. exists y. conjs; try done; apply (wf_lock _ _ W k y Hy).
Qed.

(** The inode that was locked, after entries came and went. *)
Lemma kept_node base st g st' g' n x : kept base st g st' g' -> nodes st !! n = Some x -> exists y, nodes st' !! n = Some y /\ steady y = steady x.
Proof.
  intros K Hx. pose proof (k_nodes _ _ _ _ _ K) as Hn.
  assert (Hy : (steady <$> nodes st') !! n = (steady <$> nodes st) !! n) by (by rewrite Hn). rewrite !lookup_fmap, Hx in Hy.
  destruct (nodes st' !! n) as [y|]; [|done]. exists y. split; [done|]. cbn in Hy. congruence.
Qed.

Definition unlock (x y : node) : node := set_lock (readers x) (writer x) (lock_depth x) y.

Lemma node_release_read_spec st n x y : nodes st !! n = Some y -> steady y = steady (lock_up x) -> 0 <= readers x -> 0 <= lock_depth x ->
  node_release_read n st = Some (set_nodes (<[n := unlock x y]> (nodes st)) st) /\ steady (unlock x y) = steady x /\ attr_of (unlock x y) = attr_of y.
Proof.
  intros Hy Hs H1 H2. unfold node_release_read, lock_up, steady in *. rewrite Hy. cbn [mbind option_bind].
  destruct x as [? ? ? ? ? ? ? ? ? ? ? ? ? rd w ld], y as [? ? ? ? ? ? ? ? ? ? ? ? ? rd' w' ld']. cbn in *.
  destruct w; cbn in Hs; injection Hs; intros; subst; cbn; rewrite (proj2 (Z.ltb_lt _ _)) by lia; cbn; unfold upd_node; rewrite Hy; cbn [mbind option_bind];
    unfold unlock, set_lock; cbn; (split; [|done]); do 4 f_equal; lia.
Qed.

Lemma read_section base st g n x st2 g2 : wf st g -> nodes st !! n = Some x ->
  kept base (read_locked n x st) g st2 g2 -> wf st2 g2 ->
  exists m, node_release_read n st2 = Some (set_nodes m st2) /\ wf (set_nodes m st2) g2 /\ kept base st g (set_nodes m st2) g2.
Proof.
  intros W Hx K W2. destruct (kept_node _ _ _ _ _ n (lock_up x) K) as (y & Hy & Hs); [cbn; by rewrite lookup_insert_eq|].
  pose proof (wf_lock _ _ W n x Hx) as (Hl1 & Hl2). destruct (node_release_read_spec st2 n x y Hy Hs Hl1 Hl2) as (Er & Hst & Hat).
  exists (<[n := unlock x y]> (nodes st2)). split; [exact Er|].
  assert (W3 : wf (set_nodes (<[n := unlock x y]> (nodes st2)) st2) g2).
  { apply (wf_reframe st2 g2); try done; try apply W2.
    - by apply (attrs_insert _ n _ _ Hy).
    - intros k z. cbn. destruct (decide (k = n)) as [->|].
      + rewrite lookup_insert_eq. intros [= <-]. exists y. done.
      + rewrite lookup_insert_ne by done. intros Hz. exists z. conjs; try done; apply (wf_lock _ _ W2 k z Hz). }
  split; [exact W3|]. destruct K as [A1 A2 A3 A4 A5 A6 A7 A8 A9 A10 A11]. split; try done.
  - cbn in *. rewrite fmap_insert, A2, fmap_insert, insert_insert_eq, Hst. apply insert_id. by rewrite lookup_fmap, Hx.
  - intros c Hc. apply (A10 c). induction Hc as [c Hc|m mp Hm|m mp Hm Hl|c e p Hc IH He Hp].
    + by constructor.
    + by apply (pin_root base _ g m).
    + by apply (pin_shadow base _ g m).
    + by apply (pin_parent base _ g c e).
Qed.

(** *** Permissions *)

(** The permissions that a user and a group have on a file. *)
Definition perm_of (a : attr) (u gr : Z) : Z :=
  let m := perms (a_mode a) in
  let perm := if u =? 0 then Z.lor 6 (if S_ISDIR (a_mode a) then 1 else 0) else 0 in
  let perm := if u =? a_uid a then Z.lor perm (Z.land (Z.shiftr m 6) 7) else perm in
  let perm := if gr =? a_gid a then Z.lor perm (Z.land (Z.shiftr m 3) 7) else perm in
  if (u =? a_uid a) || (gr =? a_gid a) then perm else Z.lor perm (Z.land m 7).

Lemma vfs_perm_spec st n x : nodes st !! n = Some x -> vfs_perm n st = Some (perm_of (attr_of x) current_euid current_egid).
Proof.
  intros Hx. unfold vfs_perm, vfs_user_perm, vfs_getattr. rewrite Hx. cbn [mbind option_bind].
  destruct (op_getattr (n_ops x)) as [f|] eqn:Ef; cbn [mbind option_bind]; [|done].
  destruct (f n (stat_of x) st) as [a r] eqn:Ea. destruct (getattr_law _ f n (stat_of x) st Ef) as (H1 & H2 & H3). rewrite Ea in H1, H2, H3. cbn in H1, H2, H3 |- *.
  unfold perm_of. cbn. rewrite H1, H2, H3. done.
Qed.

(** *** A new entry *)

(** An entry that was allocated: nothing uses it yet. *)
Record fresh_entry st g (c : Z) : Prop := {
  fe_live : c ∉ live g;
  fe_entry : dentries st !! c = Some empty_dentry;
  fe_pool : c ∉ dentry_pool st;
  fe_shadow m mp : mounts st !! m = Some mp -> m_shadow mp <> c;
}.

(** Changes to entries that are not in use. *)
Lemma wf_scratch base st g (m : gmap Z dentry) l : wf st g -> (forall c, base c <= own g c) ->
  (forall d, d ∈ live g -> m !! d = dentries st !! d) -> (forall k mp, mounts st !! k = Some mp -> is_Some (m !! m_shadow mp)) ->
  NoDup l -> (forall d, d ∈ l -> m !! d = None) ->
  wf (set_dentry_pool l (set_dentries m st)) g /\ kept base st g (set_dentry_pool l (set_dentries m st)) g.
Proof.
  intros W Hb Hm Hs Hl1 Hl2.
  assert (W' : wf (set_dentry_pool l (set_dentries m st)) g).
  { apply (wf_reframe st g); try done; try apply W.
    - intros n x Hx. exists x. conjs; try done; apply (wf_lock _ _ W n x Hx).
    - intros d Hd. cbn. by rewrite Hm.
    - intros d e Hd. cbn. rewrite Hm by done. apply (wf_ref _ _ W d e Hd).
    - intros d. cbn. rewrite (wf_lru _ _ W d). split; intros (Hd & e & He & Hr); split; try done; exists e; [rewrite Hm by done|rewrite Hm in He by done]; done. }
  split; [done|]. apply kept_step; try done. intros d Hd _. cbn. by rewrite Hm.
Qed.

Lemma live_scratch st g d c e (m : gmap Z dentry) : wf st g -> d ∈ live g -> c ∉ live g -> <[c := e]> m !! d = m !! d.
Proof. intros W Hd Hc. rewrite lookup_insert_ne; [done|]. intros ->. done. Qed.

Lemma allocate_pool base st g c rest : wf st g -> (forall c, base c <= own g c) -> dentry_pool st = c :: rest ->
  let st' := set_dentries (<[c := empty_dentry]> (dentries st)) (set_dentry_pool rest st) in
  wf st' g /\ kept base st g st' g /\ fresh_entry st' g c.
Proof.
  intros W Hb Ep st'. pose proof (wf_pool_nodup _ _ W) as Hnd. rewrite Ep in Hnd. apply NoDup_cons in Hnd as (Hc & Hnd).
  assert (Hnone : dentries st !! c = None) by (apply (wf_pool _ _ W); rewrite Ep; left).
  assert (Hcl : c ∉ live g). { intros Hl. destruct (wf_live _ _ W c Hl) as (e & n & He & _). congruence. }
  destruct (wf_scratch base st g (<[c := empty_dentry]> (dentries st)) rest) as (W' & K'); try done.
  - intros d Hd. by apply (live_scratch st g).
  - intros k mp Hk. apply is_Some_insert, (wf_mount _ _ W k mp Hk).
  - intros d Hd. rewrite lookup_insert_ne by (intros ->; done). apply (wf_pool _ _ W). rewrite Ep. by right.
  - split; [exact W'|]. split; [exact K'|]. split; try done.
    + cbn. by rewrite lookup_insert_eq.
    + intros k mp Hk Es. destruct (wf_mount _ _ W k mp Hk) as (_ & [e He]). congruence.
Qed.

(** Entries to evict have no references. *)
Lemma lru_unused st g d : wf st g -> d ∈ lru st ->
  exists e, d ∈ live g /\ dentries st !! d = Some e /\ own g d = 0 /\ kids st g d = 0 /\ mount_refs (mounts st) d = 0.
Proof.
  intros W Hl. apply (wf_lru _ _ W) in Hl as (Hd & e & He & Hr). exists e. pose proof (wf_ref _ _ W d e Hd He). pose proof (wf_own _ _ W d).
  pose proof (mount_refs_nonneg (mounts st) d). pose proof (cnt_nonneg (is_parent d) (dentries st) (live g)) as Hk. fold (kids st g d) in Hk.
  conjs; try done; lia.
Qed.

Lemma allocate_evict base st g c rest : wf st g -> (forall c, 0 <= base c) -> (forall c, base c <= own g c) -> dentry_pool st = [] -> lru st = c :: rest ->
  exists st' g', vfs_dentry_allocate st = Some (st', Some c) /\ wf st' g' /\ kept base st g st' g' /\ fresh_entry st' g' c /\
    (forall q, own g' q = own g q) /\ live g' ⊆ live g /\ avail st <= avail st' + 1.
Proof.
  intros W Hb0 Hb Ep El. unfold vfs_dentry_allocate. rewrite Ep, El.
  pose proof (wf_lru_nodup _ _ W) as Hnd. rewrite El in Hnd. apply NoDup_cons in Hnd as (Hcr & Hnd).
  destruct (lru_unused st g c W) as (e & Hc & He & Ho & Hk & Hm); [rewrite El; left|]. cbn [dentries set_lru]. rewrite He. cbn [mbind option_bind].
  destruct (wf_live _ _ W c Hc) as (e' & n & He' & Hi). assert (e' = e) as -> by congruence.
  destruct (entry_inode st g c e n W Hc He Hi) as (x & s & sb & Hx & _ & _ & Hxr). rewrite Hi. unfold vfs_node_release, on_node.
  rewrite (node_release_spec n x) by done. cbn [mbind option_bind nodes set_lru]. unfold vfs_dentry_remove. cbn [dentries set_nodes set_lru]. rewrite He. cbn [mbind option_bind].
  assert (Hbc : base c <= 0) by (specialize (Hb c); lia). pose proof (parent_ne st g c e W Hc He) as Hpn.
  destruct (unlink_child st g c e (ref_count e) W Hc He) as (m & E2 & A1 & A2). cbn zeta in E2.
  assert (D : drops st c e n x (set_dentries m (set_nodes (<[n := set_n_ref (n_ref x - 1) x]> (nodes st)) (set_lru rest st)))).
  { split; try done.
    - intros q. cbn. rewrite El, elem_of_cons. split; [intros Hq; split; [by right|by intros ->]|]. intros ([->|Hq] & Hne); done.
    - apply (wf_pool_nodup _ _ W).
    - cbn. rewrite Ep. intros q Hq. by apply not_elem_of_nil in Hq. }
  set (st2 := set_dentries m _) in D. assert (W2 : wf st2 (dropped g c e)) by (by apply (wf_drop st g c e n x)).
  assert (K2 : kept base st g st2 (dropped g c e)) by (by apply (drop_kept base st g c e n x)).
  assert (Ho2 : forall q, own (dropped g c e) q = own g q + if decide (parent e = Some q) then 1 else 0).
  { intros q. cbn. destruct (decide (q = c)) as [->|]; [rewrite decide_False by done; lia|]. case_bool_decide; case_decide; try done; cbn; lia. }
  assert (Hsh : forall k mp, mounts st !! k = Some mp -> m_shadow mp <> c).
  { intros k mp Hk' Es. destruct (mount_refs_uses _ _ _ Hk') as (_ & H1). rewrite Es in H1. lia. }
  assert (Hfin : forall st3 g3, wf st3 g3 -> kept base st2 (dropped g c e) st3 g3 -> (forall q, own g3 q = own g q) -> live g3 ⊆ live (dropped g c e) ->
    is_Some (dentries st3 !! c) -> avail st2 <= avail st3 ->
    let st' := set_dentries (<[c := empty_dentry]> (dentries st3)) st3 in
    wf st' g3 /\ kept base st g st' g3 /\ fresh_entry st' g3 c /\ (forall q, own g3 q = own g q) /\ live g3 ⊆ live g /\ avail st <= avail st' + 1).
  { intros st3 g3 W3 K3 Ho3 Hl3 [z Hz] Ha3. assert (Hc3 : c ∉ live g3) by (cbn in Hl3; set_solver).
    destruct (wf_scratch base st3 g3 (<[c := empty_dentry]> (dentries st3)) (dentry_pool st3)) as (W' & K'); try done.
    - intros q. rewrite Ho3. done.
    - intros d Hd. by apply (live_scratch st3 g3).
    - intros k mp Hk'. apply is_Some_insert, (wf_mount _ _ W3 k mp Hk').
    - apply (wf_pool_nodup _ _ W3).
    - intros d Hd. rewrite lookup_insert_ne; [apply (wf_pool _ _ W3 d Hd)|]. intros ->. rewrite (wf_pool _ _ W3 d Hd) in Hz. done.
    - assert (Est : set_dentry_pool (dentry_pool st3) (set_dentries (<[c := empty_dentry]> (dentries st3)) st3) = set_dentries (<[c := empty_dentry]> (dentries st3)) st3) by (by destruct st3).
      rewrite Est in W', K'. cbv zeta. conjs; try done.
      + eapply kept_trans; [exact K2|]. eapply kept_trans; [exact K3|exact K'].
      + split; try done; cbn.
        * by rewrite lookup_insert_eq.
        * intros Hp. rewrite (wf_pool _ _ W3 c Hp) in Hz. done.
        * intros k mp. rewrite (k_mounts _ _ _ _ _ K3). apply Hsh.
      + etrans; [exact Hl3|]. cbn. set_solver.
      + assert (avail st = avail st2 + 1) by (subst st2; unfold avail; cbn; rewrite El, lenZ_cons; lia). change (avail (set_dentries _ st3)) with (avail st3). lia. }
  destruct (parent e) as [p|] eqn:Epar.
  - assert (Ed : set_dentries (<[c := set_ref (ref_count e) e]> (dentries st)) st = st).
    { rewrite insert_id; [by destruct st|]. rewrite He. by destruct e. }
    rewrite Ed in E2.
    destruct (dentries st !! p) as [q|] eqn:Eq; [|unfold upd_dentry in E2; by rewrite Eq in E2].
    rewrite (upd_dentry_eq _ p q) in E2 by done. injection E2 as E2. rewrite (upd_dentry_eq _ p q) by done. cbn [mbind option_bind].
    assert (Est : set_dentries (<[p := set_children (remove_child c (children q)) q]> (dentries (set_nodes (<[n := set_n_ref (n_ref x - 1) x]> (nodes st)) (set_lru rest st)))) (set_nodes (<[n := set_n_ref (n_ref x - 1) x]> (nodes st)) (set_lru rest st)) = st2).
    { subst st2. rewrite <- E2. done. }
    rewrite Est. clear Est.
    destruct (dentry_release_spec base st2 (dropped g c e) p) as (st3 & g3 & R1 & [R2 R3 R4 R5 R6 R7]); try done.
    { intros z. rewrite Ho2. specialize (Hb z). case_decide; lia. }
    { rewrite Ho2, decide_True by done. specialize (Hb p). lia. }
    rewrite R1. cbn [mbind option_bind].
    assert (Hz : dentries st3 !! c = Some (set_ref (ref_count e) e)) by (rewrite R6; [exact A1|cbn; set_solver]).
    rewrite (upd_dentry_eq _ c _ st3 Hz). cbn [mbind option_bind dentries set_dentries]. rewrite insert_insert_eq.
    exists (set_dentries (<[c := empty_dentry]> (dentries st3)) st3), g3.
    destruct (Hfin st3 g3) as (F1 & F2 & F3 & F4 & F5 & F6); try done; eauto.
    intros z. rewrite R4, Ho2. destruct (decide (z = p)) as [->|]; [rewrite (decide_True (P := Some p = Some p)) by done; lia|]. rewrite (decide_False (P := Some p = Some z)) by congruence. lia.
  - injection E2 as E2. cbn [mbind option_bind].
    assert (Em : m = dentries st). { rewrite <- E2. apply insert_id. rewrite He. by destruct e. }
    assert (Est : set_nodes (<[n := set_n_ref (n_ref x - 1) x]> (nodes st)) (set_lru rest st) = st2) by (subst st2; by rewrite Em).
    cbn [dentries set_dentries set_nodes set_lru]. exists (set_dentries (<[c := empty_dentry]> (dentries st2)) st2), (dropped g c e).
    destruct (Hfin st2 (dropped g c e)) as (F1 & F2 & F3 & F4 & F5 & F6); try done.
    + apply kept_refl; [done|]. intros z. rewrite Ho2. specialize (Hb z). case_decide; lia.
    + intros z. rewrite Ho2. rewrite (decide_False (P := None = Some z)) by done. lia.
    + split; [by rewrite <- Est|]. conjs; done.
Qed.

Lemma dentry_allocate_spec base st g : wf st g -> (forall c, 0 <= base c) -> (forall c, base c <= own g c) ->
  (vfs_dentry_allocate st = Some (st, None) /\ dentry_pool st = [] /\ lru st = []) \/
  exists st' g' c, vfs_dentry_allocate st = Some (st', Some c) /\ wf st' g' /\ kept base st g st' g' /\ fresh_entry st' g' c /\
    (forall q, own g' q = own g q) /\ live g' ⊆ live g /\ avail st <= avail st' + 1.
Proof.
  intros W Hb0 Hb. destruct (dentry_pool st) as [|c rest] eqn:Ep.
  - destruct (lru st) as [|c rest] eqn:El.
    + left. unfold vfs_dentry_allocate. by rewrite Ep, El.
    + right. destruct (allocate_evict base st g c rest) as (st' & g' & H1 & H2); try done. by exists st', g', c.
  - right. destruct (allocate_pool base st g c rest) as (H1 & H2 & H3); try done.
    eexists _, g, c. unfold vfs_dentry_allocate. rewrite Ep. split; [reflexivity|]. conjs; try done.
    unfold avail. cbn. rewrite Ep, lenZ_cons. lia.
Qed.

End steps.

End VfsInv.
