(* ===== verification/TmpfsLaws.v ===== *)
(** The memory file system keeps the promises of [FsLaws].

    What a directory holds under a name is the inode of the first entry with that name; the file
    system holds one reference to an inode for every entry that names it. *)

From S2P Require Import Prelude UserMem Cache Vfs Tmpfs VfsInv.

Module TmpfsLaws.
Import Vfs Tmpfs VfsInv.

Section laws.
Context `{TE : TmpfsEnv} `{EC : Cache.ErrnoCodes} `{E : Env}.
Implicit Types (p : tmpfs) (m : gmap Z attr) (st : state).

Fixpoint first_named (l : list Z) (s : list Z) (entries : gmap Z tmpfs_dirent) : option Z :=
  match l with
  | [] => None
  | en :: l =>
      match entries !! en with
      | Some de => if bool_decide (d_name de = s) then Some (d_inode de) else first_named l s entries
      | None => None
      end
  end.

Definition tmpfs_entry p (n : Z) (s : list Z) : option Z :=
  match data <$> t_inodes p !! n with
  | Some (Directory l) => first_named l s (t_entries p)
  | _ => None
  end.

Definition tmpfs_refs p (n : Z) : Z := Z.of_nat (size (filter (fun q : Z * tmpfs_dirent => d_inode q.2 = n) (t_entries p))).

Definition tmpfs_target p (n : Z) : option (list Z) :=
  match data <$> t_inodes p !! n with
  | Some (Link _ t) => Some t
  | _ => None
  end.

Record tmpfs_ok p m : Prop := {
  ok_ops n a : m !! n = Some a -> a_ops a = tmpfs_inode_ops;
  ok_dir n a : m !! n = Some a -> ifmt (a_mode a) = S_IFDIR -> exists l, data <$> t_inodes p !! n = Some (Directory l);
  ok_link n a : m !! n = Some a -> ifmt (a_mode a) = S_IFLNK -> exists b t, data <$> t_inodes p !! n = Some (Link b t);
  ok_entries n l en : data <$> t_inodes p !! n = Some (Directory l) -> en ∈ l -> is_Some (t_entries p !! en);
  ok_inode en de : t_entries p !! en = Some de -> exists a sb, m !! d_inode de = Some a /\ a_superblock a = Some sb;
}.

Lemma first_named_entry l s (entries : gmap Z tmpfs_dirent) i : first_named l s entries = Some i -> exists en de, entries !! en = Some de /\ d_inode de = i.
Proof.
  induction l as [|en l IH]; cbn; [done|]. destruct (entries !! en) as [de|] eqn:Ed; [|done]. case_bool_decide; [|exact IH]. intros [= <-]. eauto.
Qed.

Lemma tmpfs_refs_pos p en de : t_entries p !! en = Some de -> 1 <= tmpfs_refs p (d_inode de).
Proof.
  intros Hde. unfold tmpfs_refs. assert (Hf : filter (fun q : Z * tmpfs_dirent => d_inode q.2 = d_inode de) (t_entries p) !! en = Some de) by (by apply map_lookup_filter_Some).
  rewrite <- (insert_id _ en de Hf), <- insert_delete_eq, map_size_insert_None by apply lookup_delete_eq. lia.
Qed.

Lemma find_entry_spec st l s : (forall en, en ∈ l -> is_Some (t_entries (private st) !! en)) ->
  match first_named l s (t_entries (private st)) with
  | Some i => exists en de, find_entry l s st = Some (Some (en, de)) /\ d_inode de = i /\ d_name de = s /\ t_entries (private st) !! en = Some de /\ en ∈ l
  | None => find_entry l s st = Some None
  end.
Proof.
  induction l as [|en l IH]; intros Hl; cbn; [done|]. destruct (Hl en) as [de Hde]; [left|]. rewrite Hde. cbn [mbind option_bind].
  case_bool_decide; [exists en, de; conjs; try done; left|]. specialize (IH ltac:(intros; apply Hl; by right)). destruct (first_named l s _); [|done].
  destruct IH as (en' & de' & ? & ? & ? & ? & ?). exists en', de'. conjs; try done. by right.
Qed.

#[export, refine] Instance tmpfs_laws : FsLaws (F := tmpfs) := {|
  fs_ok := tmpfs_ok;
  fs_entry := tmpfs_entry;
  fs_refs := tmpfs_refs;
  fs_target := tmpfs_target;
|}.
Proof.
  - intros p m n _. unfold tmpfs_refs. lia.
  - intros p m n s i Hok Hi. unfold tmpfs_entry in Hi. destruct (data <$> t_inodes p !! n) as [[| |l|]|]; try done.
    destruct (first_named_entry l s _ i Hi) as (en & de & Hde & <-). split; [by apply (tmpfs_refs_pos p en)|]. by apply (ok_inode p m Hok en).
  - intros t f n a st Hf. cbn in Hf. destruct (t =? tmpfs_inode_ops); [|done]. by injection Hf as <-.
  - intros n a st b mask Hok Ha. exists tmpfs_setattr. cbn. rewrite (ok_ops _ _ Hok n a Ha), Z.eqb_refl. done.
  - intros p m n a Hok Ha Hdir. exists tmpfs_lookup. unfold ops_table, tmpfs_dir_tables. rewrite (ok_ops _ _ Hok n a Ha), Z.eqb_refl. split; [done|]. clear p m Hok Ha.
    intros st c e Hok Ha He Hn1 Hn2. unfold tmpfs_lookup, is_dir. unfold attrs_of in Ha. rewrite lookup_fmap in Ha. destruct (nodes st !! n) as [x|] eqn:Hx; [|done]. injection Ha as <-.
    cbn [mbind option_bind]. unfold is_type. cbn in Hdir. rewrite bool_decide_eq_true_2 by done. cbn [kassert mbind option_bind]. rewrite He. cbn [mbind option_bind]. rewrite !bool_decide_eq_false_2 by done.
    unfold tmpfs_get_entry. rewrite He. cbn [mbind option_bind]. unfold directory.
    assert (Hax : attrs_of st !! n = Some (attr_of x)) by (unfold attrs_of; by rewrite lookup_fmap, Hx).
    destruct (ok_dir _ _ Hok n _ Hax Hdir) as (l & Hl). pose proof (find_entry_spec st l (name e) (fun en => ok_entries _ _ Hok n l en Hl)) as Hfind.
    unfold tmpfs_entry. rewrite Hl. destruct (t_inodes (private st) !! n) as [i|]; [|done]. cbn [mbind option_bind]. injection Hl as Hl. rewrite Hl. cbn [mbind option_bind].
    destruct (first_named l (name e) (t_entries (private st))) as [k|].
    + destruct Hfind as (en & de & Ef & <- & _ & Hde & _). rewrite Ef. cbn [mbind option_bind]. destruct (ok_inode _ _ Hok en de Hde) as (b & sb & Hb & _).
      unfold attrs_of in Hb. rewrite lookup_fmap in Hb. destruct (nodes st !! d_inode de) as [y|] eqn:Hy; [|done]. exists y, (INODE_NUMBER (d_inode de)). split; [done|].
      unfold fill_dentry, vfs_node_ref, on_node, upd_node. rewrite Hy. cbn [mbind option_bind]. rewrite (upd_dentry_eq _ c e) by done. done.
    + by rewrite Hfind.
  - intros p m n a Hok Ha Hlnk. exists tmpfs_readlink. unfold ops_table, tmpfs_dir_tables. rewrite (ok_ops _ _ Hok n a Ha), Z.eqb_refl. split; [done|]. clear p m Hok Ha.
    intros st size Hok Ha. destruct (ok_link _ _ Hok n a Ha Hlnk) as (b & t & Ht). exists t. unfold tmpfs_target, tmpfs_readlink. rewrite Ht.
    destruct (t_inodes (private st) !! n) as [i|]; [|done]. injection Ht as Ht. cbn [mbind option_bind]. rewrite Ht. split; [done|]. do 3 f_equal.
    unfold takeZ, lenZ. apply list_eq. intros k. destruct (decide (k < length t)%nat) as [Hk|Hk].
    + destruct (decide (k < Z.to_nat size)%nat); [rewrite !lookup_take_lt by lia; done|rewrite !lookup_take_ge by lia; done].
    + rewrite !(proj2 (lookup_ge_None _ _)) by (rewrite length_take; lia). done.
Defined.

End laws.

(** ** A state that the operations reach *)

Module Example.

#[export] Instance ex_env : Env := {| current_euid := 0; current_egid := 0; gettime_sec := 7 |}.
#[export] Instance ex_limits : Limits := {| NAME_MAX := 256; PATH_MAX := 4096; SYMLOOP_MAX := 8 |}.
#[export] Instance ex_tmpfs : TmpfsEnv := {| direct_map := 0; tmpfs_inode_ops := 77 |}.
#[export, refine] Instance ex_codes : Cache.ErrnoCodes := {| Cache.code e := match e with ENOMEM => 12 | _ => 5 end |}.
Proof. by intros []. Defined.

Definition no_pages : Cache.state := Cache.mk_state ∅ [] [] ∅ 0 [] 0 0 [] ∅.

(** The entry that is there before a file system is mounted. *)
Definition init : state :=
  mk_state {[1 := mk_dentry [91; 114; 111; 111; 116; 93] None 0 0 None None None None [] 1]} [] ∅ ∅ ∅ [2; 3; 4; 5; 6; 7] [1; 2] false 1 None
    (mk_tmpfs ∅ ∅ [101; 102; 103; 104; 105] [201; 202; 203; 204] no_pages).

(** A tmpfs is mounted, a process starts at its root; /a, /a/f and a link /l to a/f. *)
Definition boot : option state :=
  st ← new_tmpfs 50 init;
  '(st, _) ← vfs_mount_at None [SLASH] 0 50 st;
  t ← vfs_dentry_follow_mount_points (root st) st;
  st ← dentry_ref t st; st ← dentry_ref t st;
  Some (set_proc_context (Some (mk_context t t)) (set_root t st)).

Definition make : option (state * list (res unit) * res Z) :=
  st ← boot;
  '(st, r1) ← vfs_mkdir_at None [SLASH; 97] 511 st;
  '(st, r2) ← vfs_create_at None [97; SLASH; 102] 420 st;
  '(st, r3) ← vfs_symlink_at [97; SLASH; 102] None [SLASH; 108] st;
  '(st, r4) ← vfs_get_dentry_at None [108] no_flags 511 st;
  Some (st, [r1; r2; r3], r4).

Definition ex_node (number nrefs links : Z) (t : file_type) (p : Z) (fl : Z) : node :=
  mk_node (Some 50) 77 number nrefs 0 0 (mk_mode t p) 7 7 7 links fl None 0 false 0.

Definition ex_private : tmpfs :=
  mk_tmpfs {[101 := mk_inode None (Directory [201; 203]); 102 := mk_inode (Some 101) (Directory [202]); 103 := mk_inode (Some 102) File; 104 := mk_inode None (Link 104 [97; 47; 102])]}
    {[201 := mk_dirent [97] 102; 202 := mk_dirent [102] 103; 203 := mk_dirent [108] 104]} [105] [204]
    (Cache.init_cache 103 no_pages).

Definition ex_state : state :=
  mk_state
    {[1 := mk_dentry [91; 114; 111; 111; 116; 93] None 0 0 None None None (Some 1) [] 2;
      2 := mk_dentry [91; 114; 111; 111; 116; 93] (Some 101) 0 VFS_DENTRY_FLAG_MOUNT_POINT None None (Some 1) None [3; 4] 5;
      3 := mk_dentry [97] (Some 102) 102 0 None (Some 2) (Some 1) None [5] 1;
      4 := mk_dentry [108] (Some 104) 104 0 None (Some 2) (Some 1) None [] 0;
      5 := mk_dentry [102] (Some 103) 103 0 None (Some 3) (Some 1) None [] 1]}
    [4]
    {[101 := ex_node 101 2 1 S_IFDIR 365 0; 102 := ex_node 102 2 2 S_IFDIR 511 0; 103 := ex_node 103 2 2 S_IFREG 420 0; 104 := ex_node 104 2 2 S_IFLNK 511 VNODE_FLAG_DIRTY]}
    {[50 := mk_superblock 1 ∅ 101 None 0]} {[1 := mk_mount 2 1 0]} [6; 7] [2] false 2 (Some (mk_context 2 2)) ex_private.

Example make_state : make = Some (ex_state, [Ok tt; Ok tt; Ok tt], Ok 5).
Proof. vm_compute. reflexivity. Qed.

Definition ex_ghost : ghost := mk_ghost {[2; 3; 4; 5]} (fun d => if d =? 2 then 2 else if d =? 5 then 1 else 0) (fun n => if n =? 101 then 1 else 0).


Ltac cases_of H :=
  first [apply lookup_insert_Some in H as [(<- & <-)|(? & H)]; [|cases_of H]
        |apply lookup_singleton_Some in H as (<- & <-)|by rewrite lookup_empty in H].
Ltac live_cases H :=
  cbn [live ex_ghost] in H; repeat (apply elem_of_union in H as [H|H]); apply elem_of_singleton in H; subst.
Ltac ex_look := repeat match goal with H : dentries ex_state !! _ = Some _ |- _ => vm_compute in H; injection H as <- | H : nodes ex_state !! _ = Some _ |- _ => vm_compute in H; injection H as <- end.

Lemma ex_inode d e n : d ∈ live ex_ghost -> dentries ex_state !! d = Some e -> inode e = Some n -> n = 101 \/ n = 102 \/ n = 103 \/ n = 104.
Proof. intros Hd He Hn. live_cases Hd; ex_look; cbn in Hn; injection Hn as <-; lia. Qed.

Lemma ex_attrs n a : attrs_of ex_state !! n = Some a -> a_superblock a = Some 50 /\ a_ops a = 77 /\ (n = 101 \/ n = 102 \/ n = 103 \/ n = 104).
Proof.
  unfold attrs_of. rewrite lookup_fmap. destruct (nodes ex_state !! n) as [x|] eqn:Hx; [|done]. intros [= <-].
  cbn in Hx. cases_of Hx; (split; [done|split; [done|lia]]).
Qed.

Lemma ex_chain d : d ∈ live ex_ghost -> exists ch, chain_of ex_state d ch.
Proof.
  assert (H2 : exists ch, chain_of ex_state 2 ch) by (eexists; by eapply chain_root).
  assert (H3 : exists ch, chain_of ex_state 3 ch) by (destruct H2; eexists; by eapply chain_step).
  intros Hd. live_cases Hd; try done; [destruct H2|destruct H3]; eexists; by eapply chain_step.
Qed.

Lemma ex_tmpfs_ok : tmpfs_ok ex_private (attrs_of ex_state).
Proof.
  split.
  - intros n a Ha. by apply (ex_attrs n a).
  - intros n a Ha. destruct (ex_attrs n a Ha) as (_ & _ & [-> |[-> |[-> | ->]]]); vm_compute in Ha; injection Ha as <-; try done; eauto.
  - intros n a Ha. destruct (ex_attrs n a Ha) as (_ & _ & [-> |[-> |[-> | ->]]]); vm_compute in Ha; injection Ha as <-; try done; eauto.
  - intros n l en Hn Hen. destruct (t_inodes ex_private !! n) as [i|] eqn:Hi; [|done]. cbn in Hi. cases_of Hi; cbn in Hn; try done; injection Hn as <-;
      repeat (apply elem_of_cons in Hen as [->|Hen]); try (by apply not_elem_of_nil in Hen); eauto.
  - intros en de Hde. cbn in Hde. cases_of Hde; eauto.
Qed.

Lemma ex_wf : wf ex_state ex_ghost.
Proof.
  split.
  - intros d Hd. live_cases Hd; eauto.
  - intros d. cbn. repeat case_match; repeat match goal with H : (_ =? _) = true |- _ => apply Z.eqb_eq in H as -> end; split; try lia; set_solver.
  - intros n. cbn. case_match; lia.
  - intros d e n Hd He Hn. live_cases Hd; ex_look; cbn in Hn; injection Hn as <-; (split; [eauto|]); apply Z.leb_le; vm_compute; done.
  - intros n a s Ha Hs. destruct (ex_attrs n a Ha) as (Hs' & _). assert (s = 50) as -> by congruence. eauto.
  - intros d e Hd He. live_cases Hd; ex_look; cbn; eauto. right. split; [done|]. by exists 1, (mk_mount 2 1 0).
  - intros d e p Hd He Hp. live_cases Hd; ex_look; cbn in Hp; try done; injection Hp as <-; cbn; set_solver.
  - intros d e p q n a Hd He Hp Hq Hn Ha. live_cases Hd; ex_look; cbn in Hp; try done; injection Hp as <-; ex_look; cbn in Hn; injection Hn as <-; vm_compute in Ha; by injection Ha as <-.
  - intros d e Hd He Hp. live_cases Hd; ex_look; cbn in Hp; try done. split; [done|]. intros n a Hn Ha. cbn in Hn. injection Hn as <-. vm_compute in Ha. by injection Ha as <-.
  - intros d e p q Hd He Hp Hf Hq. live_cases Hd; ex_look; cbn in Hp; try done; injection Hp as <-; by ex_look.
  - intros m mp er Hm Her. cbn in Hm. cases_of Hm. change (dentries ex_state !! 2 = Some er) in Her. ex_look. split; [done|]. intros q eq Hq. cbn in Hq. done.
  - apply ex_chain.
  - intros d e Hd He. live_cases Hd; ex_look; cbn; apply (bool_decide_unpack _); vm_compute; done.
  - intros d e c Hd He. split.
    + intros Hc. live_cases Hd; ex_look; cbn in Hc; repeat (apply elem_of_cons in Hc as [->|Hc]); try (by apply not_elem_of_nil in Hc); (split; [cbn; set_solver|eauto]).
    + intros (Hc & ec & Hec & Hp & Hf). live_cases Hc; ex_look; cbn in Hp, Hf; try done; injection Hp as <-; ex_look; cbn; set_solver.
  - intros d e c1 c2 e1 e2 Hd He H1 H2 He1 He2 Hn. live_cases Hd; ex_look; cbn in H1, H2; repeat (apply elem_of_cons in H1 as [->|H1]); try (by apply not_elem_of_nil in H1);
      repeat (apply elem_of_cons in H2 as [->|H2]); try (by apply not_elem_of_nil in H2); ex_look; done.
  - intros d e n c ec Hd He Hn Hc Hec. live_cases Hd; ex_look; cbn in Hc, Hn; injection Hn as <-; repeat (apply elem_of_cons in Hc as [->|Hc]); try (by apply not_elem_of_nil in Hc); ex_look; done.
  - intros d e Hd He. live_cases Hd; ex_look; vm_compute; done.
  - apply (bool_decide_unpack _); vm_compute; done.
  - intros d. cbn [lru ex_state]. split.
    + intros ->%list_elem_of_singleton. split; [cbn; set_solver|]. eauto.
    + intros (Hd & e & He & Hr). live_cases Hd; ex_look; cbn in Hr; try done. left.
  - apply (bool_decide_unpack _); vm_compute; done.
  - intros d Hd. cbn [dentry_pool ex_state] in Hd. repeat (apply elem_of_cons in Hd as [->|Hd]); try (by apply not_elem_of_nil in Hd); done.
  - intros n x Hx. cbn in Hx. cases_of Hx; vm_compute; done.
  - intros n x Hx. cbn in Hx. cases_of Hx; cbn; lia.
  - intros m mp Hm. cbn in Hm. cases_of Hm. split; [cbn; set_solver|eauto].
  - intros d e m Hd He Hm. live_cases Hd; ex_look; done.
  - intros d Hd. live_cases Hd; vm_compute; eauto.
  - apply ex_tmpfs_ok.
Qed.

Lemma ex_links : VfsInv.fs_target (private ex_state) 104 = Some [97; 47; 102].
Proof. reflexivity. Qed.

End Example.

End TmpfsLaws.
