(* ===== verification/VfsLookup.v ===== *)
(** Name lookup in the virtual file system (kernel/fs/vfs/vdentry.c).

    [vfs_lookup] agrees with the directories of the file system whatever is cached, and keeps the
    invariant of the directory entries: the entry it returns is the only one with one more reference. *)

From S2P Require Import Prelude Vfs Tmpfs VfsInv TmpfsLaws.

Module VfsLookup.
Import Vfs VfsInv.

Section lookup.
Context {F : Type} `{E : Env} `{NT : !NodeTables F} `{DT : !DirTables F} `{FL : !FsLaws}.
Implicit Types (st : state F) (g : ghost) (e : dentry) (x : node) (base : Z -> Z).

(** ** An entry joins the tree *)

Section add.
Context (st : state F) (g : ghost) (d c : Z) (e ec : dentry) (n i : Z) (x : node).
Hypotheses (W : wf st g) (Hd : d ∈ live g) (He : dentries st !! d = Some e) (Hn : inode e = Some n) (Hc : fresh_entry st g c)
  (Hi : fs_entry (private st) n (name ec) = Some i) (Hx : nodes st !! i = Some x)
  (Hpar : parent ec = Some d) (Hfl : flags ec = 0) (Hino : inode ec = Some i) (Hch : children ec = []) (Hsh : shadow_mount_point ec = None)
  (Href : ref_count ec = 1) (Hrd : 1 <= ref_count e) (Hmp : mount_point ec = mount_point e)
  (Hdir : forall a, attrs_of st !! n = Some a -> ifmt (a_mode a) = S_IFDIR)
  (Hnew : forall k ek, k ∈ children e -> dentries st !! k = Some ek -> name ek <> name ec).

Definition grown : state F :=
  set_nodes (<[i := set_n_ref (n_ref x + 1) x]> (nodes st))
    (set_dentries (<[d := set_children (children e ++ [c]) (set_ref (ref_count e + 1) e)]> (<[c := ec]> (dentries st))) st).

Definition grown_ghost : ghost := mk_ghost ({[c]} ∪ live g) (fun k => own g k + if decide (k = c) then 1 else 0) (own_node g).

Lemma add_ne : c <> d.
Proof. intros Ecd. apply (fe_live _ _ _ Hc). by rewrite Ecd. Qed.

Lemma add_own0 : own g c = 0.
Proof. pose proof (wf_own _ _ W c) as (H1 & H2). destruct (decide (1 <= own g c)); [|lia]. destruct (fe_live _ _ _ Hc). auto. Qed.

Lemma add_entry k : k <> c -> k <> d -> dentries grown !! k = dentries st !! k.
Proof. intros H1 H2. cbn. by rewrite !lookup_insert_ne by done. Qed.
Lemma add_entry_d : dentries grown !! d = Some (set_children (children e ++ [c]) (set_ref (ref_count e + 1) e)).
Proof. cbn. by rewrite lookup_insert_eq. Qed.
Lemma add_entry_c : dentries grown !! c = Some ec.
Proof. cbn. rewrite lookup_insert_ne by (apply not_eq_sym, add_ne). by rewrite lookup_insert_eq. Qed.

Lemma add_fixed k : k <> c -> fixed <$> dentries grown !! k = fixed <$> dentries st !! k.
Proof. intros Hk. destruct (decide (k = d)) as [->|]; [rewrite add_entry_d, He; done|by rewrite add_entry]. Qed.

Lemma live_ne k : k ∈ live g -> k <> c.
Proof. intros Hk Ek. apply (fe_live _ _ _ Hc). by rewrite <- Ek. Qed.

(** An entry of the old tree in the new one. *)
Lemma add_look k e' : k ∈ live g -> dentries grown !! k = Some e' -> exists e0, dentries st !! k = Some e0 /\ name e' = name e0 /\ inode e' = inode e0 /\
  flags e' = flags e0 /\ parent e' = parent e0 /\ shadow_mount_point e' = shadow_mount_point e0 /\
  ref_count e' = ref_count e0 + (if decide (k = d) then 1 else 0) /\ children e' = children e0 ++ (if decide (k = d) then [c] else []) /\
  mount_point e' = mount_point e0.
Proof.
  intros Hk He'. destruct (decide (k = d)) as [->|Hkd].
  - rewrite add_entry_d in He'. injection He' as <-. exists e. done.
  - rewrite add_entry in He' by (done || by apply live_ne). exists e'. rewrite app_nil_r. conjs; try done. lia.
Qed.

Lemma add_kids k : kids grown grown_ghost k = kids st g k + if decide (k = d) then 1 else 0.
Proof.
  unfold kids, grown_ghost. cbn [live]. rewrite cnt_add by apply (fe_live _ _ _ Hc).
  replace (holds (is_parent k) (dentries grown) c) with (bool_decide (Some d = Some k)) by (unfold holds, is_parent; by rewrite add_entry_c, Hpar).
  rewrite (cnt_ext _ (is_parent k) (dentries grown) (dentries st)).
  - destruct (decide (k = d)) as [->|]; [rewrite bool_decide_eq_true_2 by done; cbn; lia|]. rewrite bool_decide_eq_false_2 by congruence. cbn. lia.
  - intros q Hq. apply holds_fixed; [apply is_parent_fixed|]. apply add_fixed, live_ne, Hq.
Qed.

Lemma add_users k : users grown grown_ghost k = users st g k + if decide (k = i) then 1 else 0.
Proof.
  unfold users, grown_ghost. cbn [live]. rewrite cnt_add by apply (fe_live _ _ _ Hc).
  replace (holds (is_inode k) (dentries grown) c) with (bool_decide (Some i = Some k)) by (unfold holds, is_inode; by rewrite add_entry_c, Hino).
  rewrite (cnt_ext _ (is_inode k) (dentries grown) (dentries st)).
  - destruct (decide (k = i)) as [->|]; [rewrite bool_decide_eq_true_2 by done; cbn; lia|]. rewrite bool_decide_eq_false_2 by congruence. cbn. lia.
  - intros q Hq. apply holds_fixed; [apply is_inode_fixed|]. apply add_fixed, live_ne, Hq.
Qed.

Lemma add_attrs : attrs_of grown = attrs_of st.
Proof. unfold attrs_of, grown. cbn. by apply (attrs_insert _ i x). Qed.

Lemma add_mount_refs : mount_refs (mounts st) c = 0.
Proof.
  assert (Hm : forall k mp, mounts st !! k = Some mp -> m_root mp <> c /\ m_shadow mp <> c).
  { intros k mp Hk. split; [intros Er|apply (fe_shadow _ _ _ Hc k mp Hk)]. apply (fe_live _ _ _ Hc). rewrite <- Er. apply (wf_mount _ _ W k mp Hk). }
  unfold mount_refs. assert (Hl : forall p, p ∈ map_to_list (mounts st) -> m_root p.2 <> c /\ m_shadow p.2 <> c).
  { intros [k mp] Hp. apply elem_of_map_to_list in Hp. eauto. }
  induction (map_to_list (mounts st)) as [|p l IH]; [done|]. cbn [map sumZ]. destruct (Hl p) as (H1 & H2); [left|].
  rewrite (proj2 (Z.eqb_neq _ _) H1), (proj2 (Z.eqb_neq _ _) H2). cbn. apply IH. intros q Hq. apply Hl. by right.
Qed.

Lemma add_children k e0 q : k ∈ live g -> dentries st !! k = Some e0 -> q ∈ children e0 -> q ∈ live g.
Proof. intros Hk He0 Hq. by apply (wf_children _ _ W k e0 q Hk He0). Qed.

Lemma wf_entry_add : wf grown grown_ghost.
Proof.
  pose proof add_ne as Hcd. pose proof (wf_chain _ _ W d Hd) as (chd & Hchd).
  assert (CT : forall k ch, k ∈ live g -> chain_of st k ch -> chain_of grown k ch).
  { intros k ch Hk Hch'. apply (chain_transfer st grown (live g)); try done; [apply (wf_parent _ _ W)|]. intros q Hq. apply add_fixed, live_ne, Hq. }
  constructor; rewrite ?add_attrs.
  - intros k. cbn [live grown_ghost]. rewrite elem_of_union, elem_of_singleton. intros [->|Hk]; [rewrite add_entry_c; eauto|].
    destruct (wf_live _ _ W k Hk) as (e0 & m & He0 & Hm). pose proof (add_fixed k (live_ne k Hk)) as Hf. rewrite He0 in Hf.
    destruct (dentries grown !! k) as [e'|] eqn:He'; [|done]. destruct (add_look k e' Hk He') as (e1 & He1 & _ & Hi1 & _). exists e', m. split; [done|]. congruence.
  - intros k. cbn. pose proof (wf_own _ _ W k) as (H1 & H2). rewrite elem_of_union, elem_of_singleton. destruct (decide (k = c)).
    + split; [lia|]. intros _. by left.
    + split; [lia|]. intros Ho. right. apply H2. lia.
  - apply (wf_node _ _ W).
  - intros k e' m. cbn [live grown_ghost own_node]. rewrite elem_of_union, elem_of_singleton. intros [->|Hk] He' Hm.
    + rewrite add_entry_c in He'. injection He' as <-. rewrite Hino in Hm. injection Hm as <-.
      destruct (fs_entry_ok _ _ _ _ _ (wf_fs _ _ W) Hi) as (Hr & a & s & Ha & Hs). split; [eauto|]. pose proof (wf_node _ _ W i). cbn. lia.
    + destruct (add_look k e' Hk He') as (e0 & He0 & _ & Hi0 & _). apply (wf_inode _ _ W k e0); congruence.
  - apply (wf_superblock _ _ W).
  - intros k e'. cbn [live grown_ghost]. rewrite elem_of_union, elem_of_singleton. intros [->|Hk] He'.
    + rewrite add_entry_c in He'. injection He' as <-. by left.
    + destruct (add_look k e' Hk He') as (e0 & He0 & _ & _ & -> & _). apply (wf_flags _ _ W k e0 Hk He0).
  - intros k e' p. cbn [live grown_ghost]. rewrite !elem_of_union, !elem_of_singleton. intros [->|Hk] He' Hp.
    + rewrite add_entry_c in He'. injection He' as <-. right. congruence.
    + right. destruct (add_look k e' Hk He') as (e0 & He0 & _ & _ & _ & Hp0 & _). apply (wf_parent _ _ W k e0); congruence.
  - intros k e' p q' m a. cbn [live grown_ghost]. rewrite elem_of_union, elem_of_singleton. intros [->|Hk] He' Hp Hq'.
    + rewrite add_entry_c in He'. injection He' as <-. assert (p = d) as -> by congruence. rewrite add_entry_d in Hq'. injection Hq' as <-. cbn.
      intros Hm. assert (m = n) as -> by congruence. apply Hdir.
    + destruct (add_look k e' Hk He') as (e0 & He0 & _ & _ & _ & Hp0 & _). rewrite Hp0 in Hp.
      destruct (add_look p q' (wf_parent _ _ W k e0 p Hk He0 Hp) Hq') as (q & Hq & _ & -> & _). apply (wf_parent_dir _ _ W k e0 p q); done.
  - intros k e'. cbn [live grown_ghost]. rewrite elem_of_union, elem_of_singleton. intros [->|Hk] He' Hp.
    + rewrite add_entry_c in He'. injection He' as <-. congruence.
    + destruct (add_look k e' Hk He') as (e0 & He0 & _ & -> & -> & Hp0 & _). rewrite Hp0 in Hp. apply (wf_top _ _ W k e0 Hk He0 Hp).
  - intros k e' p q'. cbn [live grown_ghost]. rewrite elem_of_union, elem_of_singleton. intros [->|Hk] He' Hp Hf' Hq'.
    + rewrite add_entry_c in He'. injection He' as <-. assert (p = d) as -> by congruence. rewrite add_entry_d in Hq'. injection Hq' as <-. done.
    + destruct (add_look k e' Hk He') as (e0 & He0 & _ & _ & Hf0 & Hp0 & _ & _ & _ & ->). rewrite Hp0 in Hp. rewrite Hf0 in Hf'.
      destruct (add_look p q' (wf_parent _ _ W k e0 p Hk He0 Hp) Hq') as (q & Hq & _ & _ & _ & _ & _ & _ & _ & ->). apply (wf_same_mount _ _ W k e0 p q); done.
  - intros m mp er' Hm Her'. change (mounts grown) with (mounts st) in Hm. destruct (wf_mount _ _ W m mp Hm) as (Hrl & _).
    destruct (add_look _ er' Hrl Her') as (er & Her & _ & _ & _ & Hp0 & _ & _ & _ & ->).
    destruct (wf_mount_root _ _ W m mp er Hm Her) as (H1 & H2). split; [done|]. intros q eq' Hq Heq'. rewrite Hp0 in Hq.
    destruct (add_look q eq' (wf_parent _ _ W _ er q Hrl Her Hq) Heq') as (eq & Heq & _ & _ & _ & _ & _ & _ & _ & ->). eauto.
  - intros k. cbn [live grown_ghost]. rewrite elem_of_union, elem_of_singleton. intros [->|Hk].
    + eexists. apply (chain_step grown c ec i d chd); try done; [apply add_entry_c|]. by apply CT.
    + destruct (wf_chain _ _ W k Hk) as (ch & Hch'). eauto.
  - intros k e'. cbn [live grown_ghost]. rewrite elem_of_union, elem_of_singleton. intros [->|Hk] He'.
    + rewrite add_entry_c in He'. injection He' as <-. rewrite Hch. apply NoDup_nil_2.
    + destruct (add_look k e' Hk He') as (e0 & He0 & _ & _ & _ & _ & _ & _ & -> & _). apply NoDup_app. split; [apply (wf_nodup _ _ W k e0 Hk He0)|].
      case_decide; (split; [|auto using NoDup_nil_2, NoDup_singleton]); intros q Hq Hq'; [|by apply not_elem_of_nil in Hq'].
      apply list_elem_of_singleton in Hq' as ->. apply (fe_live _ _ _ Hc). by apply (add_children k e0).
  - intros k e' q. cbn [live grown_ghost]. rewrite !elem_of_union, !elem_of_singleton. intros [->|Hk] He'.
    + rewrite add_entry_c in He'. injection He' as <-. rewrite Hch. split; [intros Hq; by apply not_elem_of_nil in Hq|].
      intros ([->|Hq] & eq & Heq & Hp & _).
      * rewrite add_entry_c in Heq. injection Heq as <-. congruence.
      * exfalso. destruct (add_look q eq Hq Heq) as (e0 & He0 & _ & _ & _ & Hp0 & _). apply (fe_live _ _ _ Hc). apply (wf_parent _ _ W q e0); congruence.
    + destruct (add_look k e' Hk He') as (e0 & He0 & _ & _ & _ & _ & _ & _ & -> & _). rewrite elem_of_app, (wf_children _ _ W k e0 q Hk He0). split.
      * intros [(Hq & eq & Heq & H1 & H2)|Hq].
        -- split; [by right|]. pose proof (add_fixed q (live_ne q Hq)) as Hf. rewrite Heq in Hf. destruct (dentries grown !! q) as [eq'|] eqn:Heq'; [|done].
           destruct (add_look q eq' Hq Heq') as (e1 & He1 & _ & _ & H3 & H4 & _). exists eq'. split; [done|]. split; congruence.
        -- destruct (decide (k = d)) as [->|]; [|by apply not_elem_of_nil in Hq]. apply list_elem_of_singleton in Hq as ->. split; [by left|]. exists ec. rewrite add_entry_c. done.
      * intros ([->|Hq] & eq & Heq & H1 & H2).
        -- rewrite add_entry_c in Heq. injection Heq as <-. right. rewrite decide_True by congruence. by left.
        -- left. split; [done|]. destruct (add_look q eq Hq Heq) as (e1 & He1 & _ & _ & H3 & H4 & _). exists e1. split; [done|]. split; congruence.
  - intros k e' c1 c2 e1 e2. cbn [live grown_ghost]. rewrite elem_of_union, elem_of_singleton. intros [->|Hk] He' H1 H2 He1 He2 Hnm.
    { rewrite add_entry_c in He'. injection He' as <-. rewrite Hch in H1. by apply not_elem_of_nil in H1. }
    destruct (add_look k e' Hk He') as (e0 & He0 & _ & _ & _ & _ & _ & _ & Hce & _). rewrite Hce in H1, H2.
    assert (Hold : forall q eq, q ∈ children e0 -> dentries grown !! q = Some eq -> exists eq0, dentries st !! q = Some eq0 /\ name eq = name eq0).
    { intros q eq Hq Heq. destruct (add_look q eq (add_children k e0 q Hk He0 Hq) Heq) as (e3 & He3 & ? & _). eauto. }
    apply elem_of_app in H1, H2. destruct (decide (k = d)) as [->|].
    + assert (e0 = e) as -> by congruence. destruct H1 as [H1| ->%list_elem_of_singleton], H2 as [H2| ->%list_elem_of_singleton]; try done.
      * destruct (Hold c1 e1 H1 He1) as (f1 & Hf1 & ?), (Hold c2 e2 H2 He2) as (f2 & Hf2 & ?). apply (wf_names _ _ W d e c1 c2 f1 f2); congruence.
      * destruct (Hold c1 e1 H1 He1) as (f1 & Hf1 & ?). rewrite add_entry_c in He2. injection He2 as <-. exfalso. apply (Hnew c1 f1 H1 Hf1). congruence.
      * destruct (Hold c2 e2 H2 He2) as (f2 & Hf2 & ?). rewrite add_entry_c in He1. injection He1 as <-. exfalso. apply (Hnew c2 f2 H2 Hf2). congruence.
    + destruct H1 as [H1|H1], H2 as [H2|H2]; try (by apply not_elem_of_nil in H1); try (by apply not_elem_of_nil in H2).
      destruct (Hold c1 e1 H1 He1) as (f1 & Hf1 & ?), (Hold c2 e2 H2 He2) as (f2 & Hf2 & ?). apply (wf_names _ _ W k e0 c1 c2 f1 f2); congruence.
  - intros k e' m q eq'. cbn [live grown_ghost private grown]. rewrite elem_of_union, elem_of_singleton. intros [->|Hk] He' Hm Hq Heq'.
    { rewrite add_entry_c in He'. injection He' as <-. rewrite Hch in Hq. by apply not_elem_of_nil in Hq. }
    destruct (add_look k e' Hk He') as (e0 & He0 & _ & Hi0 & _ & _ & _ & _ & Hce & _). rewrite Hce in Hq. apply elem_of_app in Hq as [Hq|Hq].
    + destruct (add_look q eq' (add_children k e0 q Hk He0 Hq) Heq') as (eq & Heq & Hnq & Hiq & _). cbn. rewrite Hnq, Hiq. apply (wf_entry _ _ W k e0 m q eq); congruence.
    + destruct (decide (k = d)) as [->|]; [|by apply not_elem_of_nil in Hq]. apply list_elem_of_singleton in Hq as ->. rewrite add_entry_c in Heq'. injection Heq' as <-.
      cbn. assert (m = n) as -> by congruence. congruence.
  - intros k e'. cbn [live grown_ghost]. rewrite elem_of_union, elem_of_singleton. intros [->|Hk] He'; rewrite add_kids; cbn [own grown_ghost].
    + rewrite add_entry_c in He'. injection He' as <-. rewrite Href, add_own0. rewrite decide_True by done. rewrite decide_False by done.
      replace (kids st g c) with 0; [cbn; rewrite add_mount_refs; lia|]. symmetry. unfold kids. apply cnt_none.
      intros q Hq. unfold holds. destruct (dentries st !! q) as [eq|] eqn:Heq; [|done]. unfold is_parent. apply bool_decide_eq_false. intros Hp.
      apply (fe_live _ _ _ Hc). by apply (wf_parent _ _ W q eq).
    + destruct (add_look k e' Hk He') as (e0 & He0 & _ & _ & _ & _ & _ & -> & _). rewrite (wf_ref _ _ W k e0 Hk He0). rewrite (decide_False (P := k = c)) by (by apply live_ne). cbn. lia.
  - apply (wf_lru_nodup _ _ W).
  - intros k. cbn [lru grown live grown_ghost]. rewrite elem_of_union, elem_of_singleton. change (lru _) with (lru st). rewrite (wf_lru _ _ W k). split.
    + intros (Hk & e0 & He0 & Hr). split; [by right|]. assert (k <> d) by (intros ->; assert (e0 = e) as -> by congruence; lia).
      exists e0. rewrite add_entry by (done || by apply live_ne). done.
    + intros ([->|Hk] & e' & He' & Hr); [rewrite add_entry_c in He'; injection He' as <-; lia|].
      destruct (add_look k e' Hk He') as (e0 & He0 & _ & _ & _ & _ & _ & Hr0 & _). split; [done|]. exists e0. split; [done|].
      case_decide as Ekd; [|lia]. rewrite Ekd in He0. assert (e0 = e) as -> by congruence. lia.
  - apply (wf_pool_nodup _ _ W).
  - intros k Hk. change (k ∈ dentry_pool st) in Hk. pose proof (wf_pool _ _ W k Hk) as Hnone. rewrite add_entry; [done| |].
    + intros Ekc. apply (fe_pool _ _ _ Hc). by rewrite <- Ekc.
    + intros Ekd. rewrite Ekd, He in Hnone. done.
  - intros k y. cbn [nodes grown set_nodes own_node grown_ghost]. rewrite add_users. destruct (decide (k = i)) as [->|Hne].
    + rewrite lookup_insert_eq. intros [= <-]. cbn. rewrite (wf_n_ref _ _ W i x Hx). lia.
    + rewrite lookup_insert_ne by done. intros Hy. cbn. rewrite (wf_n_ref _ _ W k y Hy). lia.
  - intros k y. cbn [nodes grown set_nodes]. destruct (decide (k = i)) as [->|Hne].
    + rewrite lookup_insert_eq. intros [= <-]. apply (wf_lock _ _ W i x Hx).
    + rewrite lookup_insert_ne by done. apply (wf_lock _ _ W).
  - intros k mp Hmpt. destruct (wf_mount _ _ W k mp Hmpt) as (H1 & H2). split; [cbn; set_solver|]. cbn. by apply is_Some_insert, is_Some_insert.
  - intros k e' m. cbn [live grown_ghost]. rewrite elem_of_union, elem_of_singleton. intros [->|Hk] He' Hs.
    + rewrite add_entry_c in He'. injection He' as <-. congruence.
    + destruct (add_look k e' Hk He') as (e0 & He0 & _ & _ & _ & _ & Hs0 & _). apply (wf_shadow _ _ W k e0); congruence.
  - intros k. cbn [live grown_ghost]. rewrite elem_of_union, elem_of_singleton. unfold vfs_dentry_follow_mount_points. cbn [mounts grown]. intros [->|Hk].
    + cbn [follow_loop]. rewrite add_entry_c. cbn [mbind option_bind]. rewrite Hsh. eauto.
    + change (mounts grown) with (mounts st). rewrite (follow_transfer st grown (live g)); try done; [apply (wf_follow _ _ W k Hk)| |].
      * intros m mp Hmpt. apply (wf_mount _ _ W m mp Hmpt).
      * intros q Hq. apply add_fixed, live_ne, Hq.
  - apply (wf_fs _ _ W).
Qed.

Lemma add_kept base : (forall k, base k <= own g k) -> kept base st g grown grown_ghost.
Proof.
  intros Hb. apply kept_step; try done.
  - apply wf_entry_add.
  - intros k. cbn. specialize (Hb k). case_decide; lia.
  - cbn. rewrite fmap_insert. apply insert_id. by rewrite lookup_fmap, Hx.
  - intros k Hk _. apply add_fixed, live_ne, Hk.
  - intros m mp Hm. cbn. rewrite elem_of_union, elem_of_singleton. split; [by right|]. intros [Es|Hl]; [|done]. by apply (fe_shadow _ _ _ Hc m mp Hm) in Es.
Qed.
End add.

(** ** Lookup of a name *)

Lemma kids_pos st g p d e : d ∈ live g -> dentries st !! d = Some e -> parent e = Some p -> 1 <= kids st g p.
Proof.
  intros Hd He Hp. unfold kids. rewrite (cnt_remove _ _ _ d Hd). unfold holds at 1. rewrite He. unfold is_parent at 1. rewrite Hp.
  rewrite bool_decide_eq_true_2 by done. pose proof (cnt_nonneg (is_parent p) (dentries st) (live g ∖ {[d]})). cbn [b2Z]. lia.
Qed.

Lemma find_child_spec st s l : (forall k, k ∈ l -> is_Some (dentries st !! k)) ->
  (exists k ek, find_child l s st = Some (Some k) /\ k ∈ l /\ dentries st !! k = Some ek /\ name ek = s) \/
  (find_child l s st = Some None /\ forall k ek, k ∈ l -> dentries st !! k = Some ek -> name ek <> s).
Proof.
  induction l as [|c l IH]; intros Hl; [right; split; [done|]; intros k ek Hk; by apply not_elem_of_nil in Hk|].
  cbn [find_child]. destruct (Hl c) as [ec Hec]; [left|]. rewrite Hec. cbn [mbind option_bind]. case_bool_decide as En.
  - left. exists c, ec. conjs; try done. left.
  - destruct IH as [(k & ek & H1 & H2 & H3)|(H1 & H2)]; [intros k Hk; apply Hl; by right|left; exists k, ek; conjs; try done; [by right|apply H3..]|].
    right. split; [done|]. intros k ek [->|Hk]%elem_of_cons Hek; [congruence|eauto].
Qed.

Lemma internal_lookup_spec st g d e s : wf st g -> d ∈ live g -> dentries st !! d = Some e ->
  (exists k ek, vfs_internal_lookup d s st = Some (Some k) /\ k ∈ children e /\ k ∈ live g /\ dentries st !! k = Some ek /\ name ek = s) \/
  (vfs_internal_lookup d s st = Some None /\ forall k ek, k ∈ children e -> dentries st !! k = Some ek -> name ek <> s).
Proof.
  intros W Hd He. unfold vfs_internal_lookup. rewrite He. cbn [mbind option_bind].
  assert (Hl : forall k, k ∈ children e -> k ∈ live g) by (intros k Hk; by apply (wf_children _ _ W d e k Hd He)).
  destruct (find_child_spec st s (children e)) as [(k & ek & H1 & H2 & H3 & H4)|?]; [|left; exists k, ek; conjs; auto|by right].
  intros k Hk. destruct (wf_live _ _ W k (Hl k Hk)) as (ek & ? & ? & _). eauto.
Qed.

Lemma follow_loop_live st g : wf st g -> forall fuel d t, d ∈ live g -> follow_loop fuel d st = Some t -> t ∈ live g.
Proof.
  intros W fuel. induction fuel as [|fuel IH]; intros d t Hd; cbn [follow_loop]; [done|].
  destruct (wf_live _ _ W d Hd) as (e & n & He & _). rewrite He. cbn [mbind option_bind]. destruct (shadow_mount_point e) as [m|]; [|congruence].
  destruct (mounts st !! m) as [mp|] eqn:Em; cbn [mbind option_bind]; [|done]. apply IH. apply (wf_mount _ _ W m mp Em).
Qed.

Lemma follow_spec st g d : wf st g -> d ∈ live g -> exists t, vfs_dentry_follow_mount_points d st = Some t /\ t ∈ live g.
Proof. intros W Hd. destruct (wf_follow _ _ W d Hd) as [t Ht]. exists t. split; [done|]. unfold vfs_dentry_follow_mount_points in Ht. eapply (follow_loop_live st g W); eauto. Qed.

Lemma ready_spec st g d : wf st g -> d ∈ live g -> vfs_dentry_wait_ready_helper d st = Some (st, Ok d).
Proof.
  intros W Hd. destruct (wf_live _ _ W d Hd) as (e & n & He & _). unfold vfs_dentry_wait_ready_helper. rewrite He. cbn [mbind option_bind].
  destruct (wf_flags _ _ W d e Hd He) as [->|(-> & _)]; done.
Qed.

(** An entry that nothing points to is given back. *)
Lemma release_scratch base st g c ec : wf st g -> (forall k, base k <= own g k) -> c ∉ live g -> dentries st !! c = Some ec -> ref_count ec = 1 ->
  parent ec = None -> inode ec = None -> c ∉ dentry_pool st -> (forall m mp, mounts st !! m = Some mp -> m_shadow mp <> c) ->
  exists st', vfs_dentry_release c st = Some st' /\ wf st' g /\ kept base st g st' g /\
    (forall k, k <> c -> dentries st' !! k = dentries st !! k) /\ lru st' = lru st /\ nodes st' = nodes st /\ avail st' = avail st + 1.
Proof.
  intros W Hb Hc Hec Hr Hp Hi Hpool Hsh. unfold vfs_dentry_release. cbn [dentry_release_loop]. rewrite Hec. cbn [mbind option_bind]. rewrite Hr. cbn [Z.eqb Pos.eqb negb].
  rewrite Hp, bool_decide_eq_false_2 by done. cbn [negb kassert mbind option_bind]. unfold cannot_cache. rewrite Hi. cbn [mbind option_bind].
  rewrite (upd_dentry_eq _ c ec st Hec). cbn [mbind option_bind]. rewrite (upd_dentry_eq _ c (set_ref (ref_dec 1) ec)) by (cbn; by rewrite lookup_insert_eq).
  cbn [mbind option_bind]. unfold free_dentry. cbn [dentries set_dentries]. rewrite lookup_insert_eq. cbn [mbind option_bind set_parent set_ref inode]. rewrite Hi.
  cbn [vfs_node_release on_node mbind option_bind]. eexists. split; [reflexivity|].
  match goal with |- context [set_dentry_pool ?l (set_dentries ?m ?s)] => set (mm := m) end.
  assert (Hm : forall k, k <> c -> mm !! k = dentries st !! k) by (intros k Hk; subst mm; cbn; by rewrite lookup_delete_ne, !lookup_insert_ne by done).
  destruct (wf_scratch base st g mm (c :: dentry_pool st)) as (W' & K'); try done.
  - intros d Hd. apply Hm. intros ->. done.
  - intros k mp Hk. rewrite Hm by eauto. apply (wf_mount _ _ W k mp Hk).
  - apply NoDup_cons. split; [done|apply (wf_pool_nodup _ _ W)].
  - intros d [->|Hd]%elem_of_cons; [subst mm; by rewrite lookup_delete_eq|]. rewrite Hm by (intros ->; done). apply (wf_pool _ _ W d Hd).
  - conjs; try done. unfold avail. cbn. rewrite lenZ_cons. lia.
Qed.

(** Setting up a new entry before it joins the tree. *)
Lemma wf_scratch_entry base st g c ec : wf st g -> (forall k, base k <= own g k) -> fresh_entry st g c ->
  let st' := set_dentries (<[c := ec]> (dentries st)) st in wf st' g /\ kept base st g st' g.
Proof.
  intros W Hb Hc st'. destruct (wf_scratch base st g (<[c := ec]> (dentries st)) (dentry_pool st)) as (W' & K'); try done.
  - intros d Hd. apply (live_scratch st g); try done. apply Hc.
  - intros k mp Hk. apply is_Some_insert, (wf_mount _ _ W k mp Hk).
  - apply (wf_pool_nodup _ _ W).
  - intros d Hd. rewrite lookup_insert_ne; [apply (wf_pool _ _ W d Hd)|]. intros ->. by apply (fe_pool _ _ _ Hc).
Qed.

(** The entry [c], linked below [d] while the file system looks its name up. *)
Definition linked_entry (d : Z) (c1 : dentry) : dentry := set_parent (Some d) c1.
Definition linked st (d c : Z) e c1 : state F :=
  set_dentries (<[d := set_children (children e ++ [c]) (set_ref (ref_count e + 1) e)]> (<[c := linked_entry d c1]> (dentries st))) st.

Lemma dentry_add_spec st g d c e c1 : d ∈ live g -> c ∉ live g -> dentries st !! d = Some e -> children c1 = [] ->
  vfs_dentry_add d c (set_dentries (<[c := c1]> (dentries st)) st) = Some (linked st d c e c1).
Proof.
  intros Hd Hc He Hch. assert (Hcd : c <> d) by (intros ->; done). unfold vfs_dentry_add, dentry_ref. cbn [dentries set_dentries].
  rewrite lookup_insert_ne, He by done. cbn [mbind option_bind]. rewrite (upd_dentry_eq _ d e) by (cbn; by rewrite lookup_insert_ne). cbn [mbind option_bind].
  rewrite (upd_dentry_eq _ c c1) by (cbn; rewrite lookup_insert_ne by done; by rewrite lookup_insert_eq). cbn [mbind option_bind].
  rewrite (upd_dentry_eq _ d (set_ref (ref_count e + 1) e)) by (cbn; rewrite lookup_insert_ne by done; by rewrite lookup_insert_eq). f_equal.
  unfold linked. cbn. unfold set_dentries. cbn. f_equal. apply map_eq. intros k.
  destruct (decide (k = d)) as [->|]; [by rewrite !lookup_insert_eq|]. destruct (decide (k = c)) as [->|].
  - rewrite !(lookup_insert_ne _ d) by done. by rewrite !lookup_insert_eq.
  - by rewrite !lookup_insert_ne by done.
Qed.

Lemma release_shared st d e : dentries st !! d = Some e -> ref_count e <> 1 ->
  vfs_dentry_release d st = Some (set_dentries (<[d := set_ref (ref_dec (ref_count e)) e]> (dentries st)) st).
Proof.
  intros He Hr. unfold vfs_dentry_release. cbn [dentry_release_loop]. rewrite He. cbn [mbind option_bind]. rewrite (proj2 (Z.eqb_neq _ _)) by done. cbn [negb].
  by apply upd_dentry_eq.
Qed.

(** The file system does not have the name: the entry goes again. *)
Lemma unlink_failed base st g d c e c1 err : wf st g -> (forall k, base k <= own g k) -> fresh_entry st g c -> d ∈ live g -> dentries st !! d = Some e ->
  1 <= ref_count e -> ref_count c1 = 1 -> parent c1 = None -> inode c1 = None ->
  exists st', (st ← vfs_dentry_remove c (linked st d c e c1);
               st ← upd_dentry (fun q => set_flags (Z.ldiff (Z.lor (flags q) VFS_DENTRY_FLAG_ERROR) VFS_DENTRY_FLAG_NEW) (Some err) q) c st;
               vfs_dentry_release c st) = Some st' /\ wf st' g /\ kept base st g st' g /\ avail st' = avail st + 1.
Proof.
  intros W Hb Hc Hd He Hr Hr1 Hp1 Hi1. assert (Hcd : c <> d) by (intros ->; by apply (fe_live _ _ _ Hc)).
  unfold vfs_dentry_remove. cbn [linked dentries set_dentries]. rewrite lookup_insert_ne, lookup_insert_eq by done. cbn [mbind option_bind linked_entry set_parent parent].
  rewrite (upd_dentry_eq _ d _ (linked st d c e c1)) by (cbn; by rewrite lookup_insert_eq). cbn [mbind option_bind children set_children set_ref].
  assert (Hcc : c ∉ children e). { intros Hk. apply (fe_live _ _ _ Hc). by apply (wf_children _ _ W d e c Hd He). }
  assert (Erm : remove_child c (children e ++ [c]) = children e).
  { unfold remove_child. rewrite bool_decide_eq_true_2 by (apply elem_of_app; right; by left). rewrite filter_app, filter_notin by done. cbn. rewrite decide_False by tauto. by rewrite app_nil_r. }
  rewrite Erm. rewrite (release_shared _ d (set_children (children e) (set_ref (ref_count e + 1) e))) by (cbn; rewrite ?lookup_insert_eq; done || lia).
  cbn [mbind option_bind ref_count set_children set_ref].
  rewrite (upd_dentry_eq _ c (linked_entry d c1)) by (cbn; rewrite !lookup_insert_ne by done; by rewrite lookup_insert_eq). cbn [mbind option_bind].
  rewrite (upd_dentry_eq _ c (set_parent None (linked_entry d c1))) by (cbn; by rewrite lookup_insert_eq). cbn [mbind option_bind].
  match goal with |- context [vfs_dentry_release c (set_dentries ?m _)] => set (mm := m) end.
  set (c2 := set_flags _ _ _) in mm.
  assert (Hm : forall k, k <> c -> mm !! k = dentries st !! k).
  { intros k Hk. subst mm. cbn. rewrite !(lookup_insert_ne _ c) by done. destruct (decide (k = d)) as [->|].
    - rewrite !lookup_insert_eq, He. f_equal. unfold ref_dec. rewrite (proj2 (Z.eqb_neq _ _)) by lia. destruct e. cbn. unfold set_ref, set_children. cbn. f_equal. lia.
    - rewrite !(lookup_insert_ne _ d) by done. by rewrite lookup_insert_ne by done. }
  assert (Hmc : mm !! c = Some c2) by (subst mm; by rewrite lookup_insert_eq).
  set (st0 := linked st d c e c1).
  destruct (wf_scratch base st g mm (dentry_pool st)) as (W1 & K1); try done.
  { intros k Hk. apply Hm. intros ->. by apply (fe_live _ _ _ Hc). }
  { intros k mp Hk. rewrite Hm by (apply (fe_shadow _ _ _ Hc k mp Hk)). apply (wf_mount _ _ W k mp Hk). }
  { apply (wf_pool_nodup _ _ W). }
  { intros k Hk. rewrite Hm; [apply (wf_pool _ _ W k Hk)|]. intros ->. by apply (fe_pool _ _ _ Hc). }
  assert (Est : set_dentry_pool (dentry_pool st) (set_dentries mm st) = set_dentries mm st) by (by destruct st). rewrite Est in W1, K1.
  destruct (release_scratch base (set_dentries mm st) g c c2) as (st' & E1 & W2 & K2 & _ & _ & _ & Ha); try done; try apply Hc.
  exists st'. split; [exact E1|]. split; [done|]. split; [by eapply kept_trans|exact Ha].
Qed.

(** What the allocation of an entry leaves of the entry of the directory. *)
Lemma kept_entry base st g st' g' d e : kept base st g st' g' -> 1 <= base d -> dentries st !! d = Some e ->
  d ∈ live g' /\ exists e', dentries st' !! d = Some e' /\ fixed e' = fixed e.
Proof.
  intros K Hb He. destruct (k_pinned _ _ _ _ _ K d) as (Hd & Hf); [by constructor|]. split; [done|]. rewrite He in Hf.
  destruct (dentries st' !! d) as [e'|]; [|done]. exists e'. split; [done|]. cbn in Hf. congruence.
Qed.

Definition can_search (a : attr) : bool := has (perm_of a current_euid current_egid) PERM_EXECUTE.

(** The entry [c] is what covers the child of [d] named [s], and that child has the inode that the
    directory [n] holds under the name. *)
Definition found_entry st g (d n : Z) (s : list Z) (c : Z) : Prop :=
  exists k ek, k ∈ live g /\ dentries st !! k = Some ek /\ parent ek = Some d /\ flags ek = 0 /\ name ek = s /\
    inode ek = fs_entry (private st) n s /\ vfs_dentry_follow_mount_points k st = Some c.

Definition lookup_result st st' g' (d : Z) e (n : Z) (a : attr) (s : list Z) (r : res Z) : Prop :=
  match r with
  | Ok c => ifmt (a_mode a) = S_IFDIR /\ can_search a = true /\
      if decide (s = [DOT; DOT]) then c = default d (parent e)
      else if decide (s = [DOT]) then c = d
      else found_entry st' g' d n s c
  | Err ENOTDIR => ifmt (a_mode a) <> S_IFDIR
  | Err EACCES => ifmt (a_mode a) = S_IFDIR /\ can_search a = false
  | Err ENOENT => ifmt (a_mode a) = S_IFDIR /\ can_search a = true /\ s <> [DOT; DOT] /\ s <> [DOT] /\ fs_entry (private st) n s = None
  | Err ENOMEM => ifmt (a_mode a) = S_IFDIR /\ can_search a = true /\ s <> [DOT; DOT] /\ s <> [DOT] /\ dentry_pool st = [] /\ lru st = []
  | Err _ => False
  end.

(** What a lookup leaves: a reference to the result, and nothing else but a change of what is cached. *)
Definition lookup_post base st g (d : Z) e (n : Z) (a : attr) (s : list Z) (r : res Z) st' : Prop :=
  exists g', wf st' g' /\ kept base st g st' g' /\ (forall k, own g' k = own g k + if decide (r = Ok k) then 1 else 0) /\
    lookup_result st st' g' d e n a s r /\ avail st <= avail st' + 1.

Lemma ref_cached_effect st c st' : ref_cached c st = Some st' ->
  exists ec, dentries st !! c = Some ec /\ dentries st' = <[c := set_ref (ref_count ec + 1) ec]> (dentries st) /\ dentry_pool st' = dentry_pool st.
Proof.
  unfold ref_cached, vfs_dentry_remove_lru, dentry_ref, upd_dentry. destruct (dentries st !! c) as [ec|] eqn:Hec; [|done]. cbn [mbind option_bind]. intros E3. exists ec.
  destruct (ref_count ec =? 0); [destruct (bool_decide (c ∈ lru st)); [|done]|]; cbn in E3; rewrite Hec in E3; cbn in E3; injection E3 as <-; done.
Qed.

(** The state between the locking of the directory and the release of the lock. *)
Section locked.
Context (base : Z -> Z) (st : state F) (g : ghost) (d : Z) (e : dentry) (n : Z) (x : node) (s : list Z).
Hypotheses (W : wf st g) (Hb0 : forall c, 0 <= base c) (Hb : forall c, base c <= own g c) (Hbd : 1 <= base d)
  (He : dentries st !! d = Some e) (Hn : inode e = Some n) (Hx : nodes st !! n = Some x).

Let Hd : d ∈ live g.
Proof. apply (wf_own _ _ W). specialize (Hb d). lia. Qed.

Let W1 : wf (read_locked n x st) g.
Proof. by apply node_acquire_read_spec. Qed.

(** A reference to an entry of the tree, and the end of the section. *)
Lemma locked_ref st2 g2 c : kept base (read_locked n x st) g st2 g2 -> wf st2 g2 -> c ∈ live g2 -> (forall k, own g2 k = own g k) ->
  exists st3 m, ref_cached c st2 = Some st3 /\ node_release_read n st3 = Some (set_nodes m st3) /\
    wf (set_nodes m st3) (add_own c 1 g2) /\ kept base st g (set_nodes m st3) (add_own c 1 g2) /\
    (forall k, fixed <$> dentries st3 !! k = fixed <$> dentries st2 !! k) /\ private st3 = private st2 /\ mounts st3 = mounts st2 /\
    dentry_pool st3 = dentry_pool st2 /\ avail st2 <= avail st3 + 1.
Proof.
  intros K2 W2 Hc Ho. destruct (ref_cached_spec base st2 g2 c) as (st3 & E3 & W3 & K3 & Ha); try done; [intros k; rewrite Ho; done|].
  destruct (read_section base st g n x st3 (add_own c 1 g2)) as (m & E4 & W4 & K4); try done; [by eapply kept_trans|].
  exists st3, m. conjs; try done; try apply K3.
  - destruct (ref_cached_effect st2 c st3 E3) as (ec & Hec & Hst & _). intros k. rewrite Hst.
    destruct (decide (k = c)) as [->|]; [rewrite lookup_insert_eq, Hec; done|by rewrite lookup_insert_ne].
  - by destruct (ref_cached_effect st2 c st3 E3) as (ec & _ & _ & ?).
Qed.

(** The child was found in the cache. *)
Lemma found_transfer st2 g2 st3 g3 k ek t m : wf st2 g2 -> k ∈ live g2 -> k ∈ live g3 -> dentries st2 !! k = Some ek -> parent ek = Some d -> flags ek = 0 -> name ek = s ->
  inode ek = fs_entry (private st2) n s -> vfs_dentry_follow_mount_points k st2 = Some t ->
  (forall q, q ∈ live g2 -> fixed <$> dentries st3 !! q = fixed <$> dentries st2 !! q) -> private st3 = private st2 -> mounts st3 = mounts st2 ->
  found_entry (set_nodes m st3) g3 d n s t.
Proof.
  intros W2 Hk2 Hk3 Hek Hp Hfl Hnm Hi Ht Hf Hpr Hm. pose proof (Hf k Hk2) as Hx'. rewrite Hek in Hx'. destruct (dentries st3 !! k) as [ek'|] eqn:Hek'; [|done].
  cbn in Hx'. unfold fixed in Hx'. injection Hx' as H1 H2 H3 H4 _ _. exists k, ek'. cbn [dentries set_nodes private]. rewrite Hpr. conjs; try congruence; try done.
  rewrite <- Ht. unfold vfs_dentry_follow_mount_points. cbn [mounts set_nodes]. rewrite Hm. apply (follow_transfer st2 _ (live g2)); try done.
  intros q mp Hq. apply (wf_mount _ _ W2 q mp Hq).
Qed.

Lemma lookup_cached st2 g2 k ek : kept base (read_locked n x st) g st2 g2 -> wf st2 g2 -> (forall q, own g2 q = own g q) ->
  k ∈ live g2 -> dentries st2 !! k = Some ek -> parent ek = Some d -> flags ek = 0 -> name ek = s -> inode ek = fs_entry (private st2) n s ->
  exists t st3 m, vfs_dentry_follow_mount_points k st2 = Some t /\ ref_cached t st2 = Some st3 /\ node_release_read n st3 = Some (set_nodes m st3) /\
    t ∈ live g2 /\ wf (set_nodes m st3) (add_own t 1 g2) /\ kept base st g (set_nodes m st3) (add_own t 1 g2) /\ found_entry (set_nodes m st3) (add_own t 1 g2) d n s t /\
    dentry_pool st3 = dentry_pool st2 /\ mounts st3 = mounts st2 /\ (forall c, c ∉ live g2 -> dentries st3 !! c = dentries st2 !! c) /\
    avail st2 <= avail st3 + 1.
Proof.
  intros K2 W2 Ho Hk Hek Hp Hfl Hnm Hi. destruct (follow_spec st2 g2 k W2 Hk) as (t & Ht & Htl).
  destruct (locked_ref st2 g2 t K2 W2 Htl Ho) as (st3 & m & E3 & E4 & W4 & K4 & Hf & Hpr & Hm & Hpool & Ha).
  exists t, st3, m. conjs; try done.
  - apply (found_transfer st2 g2 st3 _ k ek); try done.
  - intros c Hc. destruct (ref_cached_effect st2 t st3 E3) as (ec & Hec & Hst & _). rewrite Hst, lookup_insert_ne; [done|]. intros ->. done.
Qed.

(** The same name turned up while memory was looked for. *)
Lemma asks_found st2 g2 c e2 k ek :
  let c1 := (or_flag VFS_DENTRY_FLAG_NEW ∘ set_ref 1 ∘ set_name s (mount_point e)) empty_dentry in
  let st3 := set_dentries (<[c := c1]> (dentries st2)) st2 in
  ifmt (mode x) = S_IFDIR -> can_search (attr_of x) = true -> s <> [DOT; DOT] -> s <> [DOT] ->
  kept base (read_locked n x st) g st2 g2 -> wf st2 g2 -> fresh_entry st2 g2 c -> (forall q, own g2 q = own g q) -> avail st <= avail st2 + 1 -> wf st3 g2 -> kept base st2 g2 st3 g2 ->
  d ∈ live g2 -> dentries st3 !! d = Some e2 -> inode e2 = inode e -> k ∈ children e2 -> k ∈ live g2 -> dentries st3 !! k = Some ek -> name ek = s ->
  exists st' r,
    (o ← vfs_dentry_follow_mount_points k st3;
     st ← ref_cached o st3;
     st ← node_release_read n st;
     st ← vfs_dentry_release c st;
     vfs_dentry_wait_ready_helper o st) = Some (st', r) /\ lookup_post base st g d e n (attr_of x) s r st'.
Proof.
  intros c1 st3 Hdir Hperm Hs1 Hs2 K2 W2 Hc Ho2 Ha2 W3 K3 Hd2 He3 Hin2 Hkc Hkl Hek Hnm.
  destruct (proj1 (wf_children _ _ W3 d e2 k Hd2 He3) Hkc) as (_ & ek' & Hek' & Hpk & Hfk). assert (ek' = ek) as -> by congruence.
  destruct (lookup_cached st3 g2 k ek) as (t & st4 & m & Et & E4 & E5 & Htl & W5 & K5 & Hfe & Hpool & Hmo & Hrest & Ha5); try done.
  { by eapply kept_trans. }
  { rewrite <- Hnm. apply (wf_entry _ _ W3 d e2 n k ek); congruence. }
  rewrite Et. cbn [mbind option_bind]. rewrite E4. cbn [mbind option_bind]. rewrite E5. cbn [mbind option_bind].
  destruct (release_scratch base (set_nodes m st4) (add_own t 1 g2) c c1) as (st5 & E6 & W6 & K6 & Hd6 & _ & _ & Ha6); try done.
  { intros q. cbn. rewrite Ho2. specialize (Hb q). case_decide; lia. }
  { apply Hc. }
  { cbn. rewrite Hrest by apply Hc. subst st3. cbn. by rewrite lookup_insert_eq. }
  { cbn. rewrite Hpool. apply Hc. }
  { cbn. rewrite Hmo. apply Hc. }
  rewrite E6. cbn [mbind option_bind]. rewrite (ready_spec st5 (add_own t 1 g2) t) by done. eexists _, _. split; [reflexivity|]. exists (add_own t 1 g2). conjs; try done.
  - by eapply kept_trans.
  - intros q. cbn. rewrite Ho2. destruct (decide (q = t)) as [->|]; [by rewrite decide_True|]. by rewrite decide_False by congruence.
  - unfold lookup_result. rewrite !decide_False by done. split; [done|]. split; [done|]. destruct Hfe as (k2 & ek2 & Hk2l & Hek2 & F1 & F2 & F3 & F4 & F5).
    replace st5 with (set_nodes (nodes st5) st5) by (by destruct st5).
    apply (found_transfer (set_nodes m st4) (add_own t 1 g2) st5 (add_own t 1 g2) k2 ek2); try done; try apply K6.
    intros q Hq. rewrite Hd6; [done|]. intros ->. by apply (fe_live _ _ _ Hc).
  - rewrite Ha6. change (avail (set_nodes m st4)) with (avail st4). change (avail st3) with (avail st2) in Ha5. lia.
Qed.

(** The file system has the name. *)
Lemma asks_new st2 g2 c e2 i xi num :
  let c1 := (or_flag VFS_DENTRY_FLAG_NEW ∘ set_ref 1 ∘ set_name s (mount_point e)) empty_dentry in
  let st3 := linked st2 d c e2 c1 in
  let ec := set_inode (Some i) num (linked_entry d c1) in
  ifmt (mode x) = S_IFDIR -> can_search (attr_of x) = true -> s <> [DOT; DOT] -> s <> [DOT] ->
  kept base (read_locked n x st) g st2 g2 -> wf st2 g2 -> fresh_entry st2 g2 c -> (forall q, own g2 q = own g q) -> avail st <= avail st2 + 1 ->
  d ∈ live g2 -> dentries st2 !! d = Some e2 -> inode e2 = Some n -> mount_point e2 = mount_point e -> 1 <= ref_count e2 ->
  (forall k ek, k ∈ children e2 -> dentries (set_dentries (<[c := c1]> (dentries st2)) st2) !! k = Some ek -> name ek <> s) ->
  fs_entry (private st2) n s = Some i -> nodes st3 !! i = Some xi ->
  exists st' r,
    (kassert (vfs_dentry_is_populated ec);;
     st ← upd_dentry (clear_flag VFS_DENTRY_FLAG_NEW) c
            (set_dentries (<[c := ec]> (dentries st3)) (set_nodes (<[i := set_n_ref (n_ref xi + 1) xi]> (nodes st3)) st3));
     st ← node_release_read n st;
     Some (st, Ok c)) = Some (st', r) /\ lookup_post base st g d e n (attr_of x) s r st'.
Proof.
  intros c1 st3 ec Hdir Hperm Hs1 Hs2 K2 W2 Hc Ho2 Ha2 Hd2 He2 Hin2 Hm2 Hr2 Hno Ei Hxi. cbn [vfs_dentry_is_populated ec set_inode inode kassert mbind option_bind].
  rewrite (upd_dentry_eq _ c ec) by (cbn; by rewrite lookup_insert_eq). cbn [mbind option_bind].
  assert (Hcd : c <> d) by (intros ->; by apply (fe_live _ _ _ Hc)).
  set (st4 := set_dentries _ _).
  assert (E4 : st4 = grown st2 d c e2 (clear_flag VFS_DENTRY_FLAG_NEW ec) i xi).
  { subst st4 st3. unfold grown, linked, set_dentries, set_nodes. cbn. f_equal. apply map_eq. intros q.
    destruct (decide (q = c)) as [->|]; [rewrite lookup_insert_eq, lookup_insert_ne, lookup_insert_eq by done; done|].
    rewrite !(lookup_insert_ne _ c) by done. destruct (decide (q = d)) as [->|]; [by rewrite !lookup_insert_eq|]. by rewrite !lookup_insert_ne by done. }
  assert (Hnew : forall q eq, q ∈ children e2 -> dentries st2 !! q = Some eq -> name eq <> name (clear_flag VFS_DENTRY_FLAG_NEW ec)).
  { intros q eq Hq Heq. apply (Hno q eq Hq). cbn. rewrite lookup_insert_ne; [done|]. intros ->. apply (fe_live _ _ _ Hc). by apply (wf_children _ _ W2 d e2 q Hd2 He2). }
  assert (Hda : forall a, attrs_of st2 !! n = Some a -> ifmt (a_mode a) = S_IFDIR).
  { intros a. rewrite (kept_attrs _ _ _ _ _ K2). unfold attrs_of. rewrite lookup_fmap. cbn. rewrite lookup_insert_eq. cbn. rewrite attr_lock_up. by intros [= <-]. }
  assert (W4 : wf st4 (grown_ghost g2 c)) by (rewrite E4; by apply (wf_entry_add st2 g2 d c e2 _ n i xi)).
  assert (K4 : kept base st2 g2 st4 (grown_ghost g2 c)). { rewrite E4. apply (add_kept st2 g2 d c e2 _ n i xi); try done. intros q. by rewrite Ho2. }
  destruct (read_section base st g n x st4 (grown_ghost g2 c)) as (m & E5 & W5 & K5); try done; [by eapply kept_trans|].
  rewrite E5. cbn [mbind option_bind]. eexists _, _. split; [reflexivity|]. exists (grown_ghost g2 c). conjs; try done.
  - intros q. cbn. rewrite Ho2. destruct (decide (q = c)) as [->|]; [by rewrite decide_True|]. by rewrite decide_False by congruence.
  - unfold lookup_result. rewrite !decide_False by done. split; [done|]. split; [done|]. exists c, (clear_flag VFS_DENTRY_FLAG_NEW ec).
    assert (Hec : dentries (set_nodes m st4) !! c = Some (clear_flag VFS_DENTRY_FLAG_NEW ec)) by (rewrite E4; cbn; rewrite lookup_insert_ne by done; by rewrite lookup_insert_eq).
    assert (Hpr : private (set_nodes m st4) = private st2) by (rewrite E4; done). rewrite Hpr. conjs; try done.
    + cbn. set_solver.
    + unfold vfs_dentry_follow_mount_points. cbn [follow_loop]. rewrite Hec. done.
Qed.

(** The file system is asked. *)
Lemma lookup_asks : ifmt (mode x) = S_IFDIR -> can_search (attr_of x) = true -> s <> [DOT; DOT] -> s <> [DOT] -> lenZ s < 256 ->
  (forall k ek, k ∈ children e -> dentries (read_locked n x st) !! k = Some ek -> name ek <> s) ->
  exists f, op_lookup (ops_table (n_ops x)) = Some f /\
  exists st' r,
    ('(st, child) ← vfs_dentry_allocate (read_locked n x st);
     match child with
     | None => st ← node_release_read n st; Some (st, Err ENOMEM)
     | Some c =>
         s ← copy_name s;
         st ← upd_dentry (or_flag VFS_DENTRY_FLAG_NEW ∘ set_ref 1 ∘ set_name s (mount_point e)) c st;
         old ← vfs_internal_lookup d s st;
         match old with
         | Some o =>
             o ← vfs_dentry_follow_mount_points o st;
             st ← ref_cached o st;
             st ← node_release_read n st;
             st ← vfs_dentry_release c st;
             vfs_dentry_wait_ready_helper o st
         | None =>
             st ← vfs_dentry_add d c st;
             '(st, ret) ← f n c st;
             match ret with
             | Err err =>
                 st ← vfs_dentry_remove c st;
                 st ← upd_dentry (fun q => set_flags (Z.ldiff (Z.lor (flags q) VFS_DENTRY_FLAG_ERROR) VFS_DENTRY_FLAG_NEW) (Some err) q) c st;
                 st ← vfs_dentry_release c st;
                 st ← node_release_read n st;
                 Some (st, Err err)
             | Ok _ =>
                 q ← dentries st !! c;
                 kassert (vfs_dentry_is_populated q);;
                 st ← upd_dentry (clear_flag VFS_DENTRY_FLAG_NEW) c st;
                 st ← node_release_read n st;
                 Some (st, Ok c)
             end
         end
     end) = Some (st', r) /\ lookup_post base st g d e n (attr_of x) s r st'.
Proof.
  intros Hdir Hperm Hs1 Hs2 Hlen Hnone. assert (Ha : attrs_of st !! n = Some (attr_of x)) by (unfold attrs_of; by rewrite lookup_fmap, Hx).
  destruct (lookup_law _ _ n (attr_of x) (wf_fs _ _ W) Ha Hdir) as (f & Hf & Hlaw). exists f. split; [exact Hf|].
  assert (Hx1 : nodes (read_locked n x st) !! n = Some (lock_up x)) by (cbn; by rewrite lookup_insert_eq).
  destruct (dentry_allocate_spec base (read_locked n x st) g W1 Hb0 Hb) as [(Ea & Ep & El)|(st2 & g2 & c & Ea & W2 & K2 & Hc & Ho2 & Hl2 & Ha2)].
  { rewrite Ea. cbn [mbind option_bind]. destruct (read_section base st g n x (read_locked n x st) g) as (m & E4 & W4 & K4); try done; [by apply kept_refl|].
    rewrite E4. cbn [mbind option_bind]. eexists _, _. split; [reflexivity|]. exists g. conjs; try done; [intros k; rewrite decide_False by done; lia|]. unfold avail. cbn. lia. }
  rewrite Ea. cbn [mbind option_bind]. unfold copy_name. rewrite (proj2 (Z.ltb_lt _ _)) by done. cbn [mbind option_bind].
  rewrite (upd_dentry_eq _ c empty_dentry st2) by apply Hc. cbn [mbind option_bind].
  set (c1 := (or_flag VFS_DENTRY_FLAG_NEW ∘ set_ref 1 ∘ set_name s (mount_point e)) empty_dentry).
  assert (Hb2 : forall k, base k <= own g2 k) by (intros k; by rewrite Ho2).
  destruct (wf_scratch_entry base st2 g2 c c1 W2 Hb2 Hc) as (W3 & K3). cbn zeta in W3, K3.
  set (st3 := set_dentries (<[c := c1]> (dentries st2)) st2) in *.
  destruct (kept_entry base _ g st2 g2 d e K2 Hbd He) as (Hd2 & e2 & He2 & Hfix). unfold fixed in Hfix. injection Hfix as _ Hin2 _ Hp2 Hm2 _.
  assert (Hcd : c <> d) by (intros ->; by apply (fe_live _ _ _ Hc)).
  assert (He3 : dentries st3 !! d = Some e2) by (subst st3; cbn; by rewrite lookup_insert_ne).
  destruct (internal_lookup_spec st3 g2 d e2 s W3 Hd2 He3) as [(k & ek & Ek & Hkc & Hkl & Hek & Hnm)|(Ek & Hno)]; rewrite Ek; cbn [mbind option_bind].
  - by apply (asks_found st2 g2 c e2 k ek).
  - assert (Eadd : vfs_dentry_add d c st3 = Some (linked st2 d c e2 c1)) by (apply (dentry_add_spec st2 g2); done || apply Hc).
    rewrite Eadd. cbn [mbind option_bind].
    assert (Hattr : attrs_of (linked st2 d c e2 c1) !! n = Some (attr_of x)).
    { change (attrs_of (linked st2 d c e2 c1)) with (attrs_of st2). rewrite (kept_attrs _ _ _ _ _ K2). unfold attrs_of. rewrite lookup_fmap, Hx1. cbn. by rewrite attr_lock_up. }
    assert (Hr2 : 1 <= ref_count e2). { destruct (ref_nonneg st2 g2 d e2 W2 Hd2 He2) as (Hr & _). pose proof (cnt_nonneg (is_parent d) (dentries st2) (live g2)). specialize (Hb2 d). unfold kids in Hr. lia. }
    specialize (Hlaw (linked st2 d c e2 c1) c (linked_entry d c1) (wf_fs _ _ W2) Hattr). cbn [name linked_entry set_parent] in Hlaw. change (name c1) with s in Hlaw.
    assert (Hlk : dentries (linked st2 d c e2 c1) !! c = Some (linked_entry d c1)) by (cbn; rewrite lookup_insert_ne by done; by rewrite lookup_insert_eq).
    specialize (Hlaw Hlk Hs2 Hs1). change (private (linked st2 d c e2 c1)) with (private st2) in Hlaw.
    destruct (fs_entry (private st2) n s) as [i|] eqn:Ei.
    + destruct Hlaw as (xi & num & Hxi & Ef). rewrite Ef. cbn [mbind option_bind]. cbn [dentries set_dentries]. rewrite lookup_insert_eq. cbn [mbind option_bind].
      apply (asks_new st2 g2 c e2 i xi num); try done; congruence.
    + rewrite Hlaw. cbn [mbind option_bind].
      destruct (unlink_failed base st2 g2 d c e2 c1 ENOENT) as (st' & E5 & W5 & K5 & Ha5); try done.
      destruct (vfs_dentry_remove c (linked st2 d c e2 c1)) as [sa|]; [|done]. cbn [mbind option_bind] in E5 |- *.
      destruct (upd_dentry (fun q => set_flags _ _ q) c sa) as [sb|]; [|done]. cbn [mbind option_bind] in E5 |- *. rewrite E5. cbn [mbind option_bind].
      destruct (read_section base st g n x st' g2) as (m & E6 & W6 & K6); try done; [by eapply kept_trans|]. rewrite E6. cbn [mbind option_bind].
      eexists _, _. split; [reflexivity|]. exists g2. conjs; try done.
      * intros q. rewrite decide_False by done. rewrite Ho2. lia.
      * rewrite (k_private _ _ _ _ _ K2) in Ei. done.
      * change (avail (set_nodes m st')) with (avail st'). rewrite Ha5. change (avail (read_locked n x st)) with (avail st) in Ha2. lia.
Qed.
End locked.

Lemma vfs_lookup_spec base st g d e n x s : wf st g -> (forall c, 0 <= base c) -> (forall c, base c <= own g c) -> 1 <= base d ->
  dentries st !! d = Some e -> inode e = Some n -> nodes st !! n = Some x -> lenZ s < 256 ->
  exists st' r, vfs_lookup d s st = Some (st', r) /\ lookup_post base st g d e n (attr_of x) s r st'.
Proof.
  intros W Hb0 Hb Hbd He Hn Hx Hlen. assert (Hd : d ∈ live g). { apply (wf_own _ _ W). specialize (Hb d). lia. }
  unfold vfs_lookup. rewrite He. cbn [mbind option_bind]. rewrite Hn. rewrite Hx. cbn [mbind option_bind].
  destruct (is_type S_IFDIR (mode x)) eqn:Edir; unfold is_type in Edir; cbn [negb].
  2:{ apply bool_decide_eq_false in Edir. eexists _, _. split; [reflexivity|]. exists g. conjs; try done; [by apply kept_refl|intros k; rewrite decide_False by done; lia|lia]. }
  apply bool_decide_eq_true in Edir. destruct (node_acquire_read_spec st g n x W Hx) as (E1 & W1). rewrite E1. cbn [mbind option_bind].
  rewrite (vfs_perm_spec _ n (lock_up x)) by (cbn; by rewrite lookup_insert_eq). cbn [mbind option_bind]. rewrite attr_lock_up.
  assert (K1 : kept base (read_locked n x st) g (read_locked n x st) g) by (by apply kept_refl).
  destruct (read_section base st g n x (read_locked n x st) g W Hx K1 W1) as (m & E4 & W4 & K4).
  destruct (has (perm_of (attr_of x) current_euid current_egid) PERM_EXECUTE) eqn:Eperm; cbn [negb].
  2:{ rewrite E4. cbn [mbind option_bind]. eexists _, _. split; [reflexivity|]. exists g. conjs; try done; [intros k; rewrite decide_False by done; lia|unfold avail; cbn; lia]. }
  assert (Hrd : 1 <= ref_count e). { destruct (ref_nonneg st g d e W Hd He) as (Hr & _). pose proof (cnt_nonneg (is_parent d) (dentries st) (live g)). specialize (Hb d). unfold kids in Hr. lia. }
  assert (Href : forall p q, p ∈ live g -> dentries st !! p = Some q -> 1 <= ref_count q ->
    (if decide (s = [DOT; DOT]) then p = default d (parent e) else if decide (s = [DOT]) then p = d else False) ->
    exists st' r, (st ← Some (set_nodes m (read_locked n x st)); st ← dentry_ref p st; Some (st, Ok p)) = Some (st', r) /\ lookup_post base st g d e n (attr_of x) s r st').
  { intros p q Hp Hq Hrq Hs. cbn [mbind option_bind]. destruct (dentry_ref_spec base (set_nodes m (read_locked n x st)) g p q) as (st' & E5 & W5 & K5 & _ & Ha5); try done.
    rewrite E5. cbn [mbind option_bind]. eexists _, _. split; [reflexivity|]. exists (add_own p 1 g). conjs; try done; [by eapply kept_trans| | |].
    - intros k. cbn. destruct (decide (k = p)) as [->|]; [by rewrite decide_True|]. by rewrite decide_False by congruence.
    - unfold lookup_result. split; [done|]. split; [done|]. destruct (decide (s = [DOT; DOT])); [done|]. destruct (decide (s = [DOT])); done.
    - rewrite Ha5. unfold avail. cbn. lia. }
  case_bool_decide as Hdd.
  { rewrite E4. destruct (parent e) as [p|] eqn:Ep; cbn [default from_option].
    - assert (Hp : p ∈ live g) by (by apply (wf_parent _ _ W d e)). destruct (wf_live _ _ W p Hp) as (q & k & Hq & _).
      apply (Href p q Hp Hq); [|by rewrite decide_True]. destruct (ref_nonneg st g p q W Hp Hq) as (Hr & _). pose proof (kids_pos st g p d e Hd He Ep). pose proof (wf_own _ _ W p). lia.
    - apply (Href d e Hd He Hrd). by rewrite decide_True. }
  case_bool_decide as Hdot.
  { rewrite E4. apply (Href d e Hd He Hrd). by rewrite decide_False, decide_True. }
  clear Href E4 W4 K4 m.
  destruct (internal_lookup_spec (read_locked n x st) g d e s W1 Hd He) as [(k & ek & Ek & Hkc & Hkl & Hek & Hnm)|(Ek & Hno)]; rewrite Ek; cbn [mbind option_bind].
  - destruct (proj1 (wf_children _ _ W1 d e k Hd He) Hkc) as (_ & ek' & Hek' & Hpk & Hfk). assert (ek' = ek) as -> by congruence.
    destruct (lookup_cached base st g d n x s W Hb Hx (read_locked n x st) g k ek) as (t & st4 & m & Et & E4 & E5 & Htl & W5 & K5 & Hfe & _ & _ & _ & Ha5); try done.
    { rewrite <- Hnm. apply (wf_entry _ _ W1 d e n k ek); done. }
    rewrite Et. cbn [mbind option_bind]. rewrite E4. cbn [mbind option_bind]. rewrite E5. cbn [mbind option_bind]. rewrite (ready_spec _ (add_own t 1 g) t) by done.
    eexists _, _. split; [reflexivity|]. exists (add_own t 1 g). conjs; try done.
    + intros q. cbn. destruct (decide (q = t)) as [->|]; [by rewrite decide_True|]. by rewrite decide_False by congruence.
    + unfold lookup_result. rewrite !decide_False by done. done.
  - destruct (lookup_asks base st g d e n x s W Hb0 Hb Hbd He Hn Hx Edir Eperm Hdd Hdot Hlen Hno) as (f & Hf & st' & r & Er & Hpost).
    rewrite Hf. eexists _, _. split; [exact Er|exact Hpost].
Qed.

(** C12: looking up a name of fewer than 256 bytes in an entry that the caller holds, in a well-formed
    state ([wf]): every cached entry that is in use has an inode, and what it is cached with agrees with
    the directory that the file system holds -- a rename inside the file system breaks that --, parents,
    children, mounts and the counts of references are consistent, and the file system keeps its laws
    ([FsLaws]: its lookup finds exactly the names of a directory and has no other error than ENOENT).
    The lookup returns what the directory has under the name (or the parent for .., the entry itself for
    .), below the mounts that cover it; ENOTDIR, EACCES and ENOENT exactly for their reasons; ENOMEM only
    when no entry is free and none can be evicted.  Whichever part of the tree is cached: the state is well
    formed again, the caller gains one reference, to the result, the entries it holds, the mounts and the
    file system stay as they were, and at most one entry fewer can still be allocated.  A longer name
    overruns the array of the entry, which the model does not continue from. *)
Theorem vfs_lookup_correct base st g d e n x s : wf st g -> (forall c, 0 <= base c) -> (forall c, base c <= own g c) -> 1 <= base d ->
  dentries st !! d = Some e -> inode e = Some n -> nodes st !! n = Some x -> lenZ s < 256 ->
  exists st' r, vfs_lookup d s st = Some (st', r) /\ lookup_post base st g d e n (attr_of x) s r st'.
Proof. apply vfs_lookup_spec. Qed.

End lookup.

(** In the tree of the example the name l was not used since its entry was cached: it leaves the list of
    entries to evict. *)
Section witness.
Import Tmpfs.Tmpfs TmpfsLaws.TmpfsLaws TmpfsLaws.TmpfsLaws.Example.

Lemma vfs_lookup_correct_witness : exists st' r g', vfs_lookup 2 [108] ex_state = Some (st', r) /\ r = Ok 4 /\ wf st' g'.
Proof.
  destruct (vfs_lookup_correct (own ex_ghost) ex_state ex_ghost 2 _ _ _ [108] ex_wf (fun c => proj1 (wf_own _ _ ex_wf c)) (fun c => Z.le_refl _)
    ltac:(cbn; lia) eq_refl eq_refl eq_refl eq_refl) as (st' & r & E1 & g' & W' & _).
  exists st', r, g'. split; [exact E1|]. split; [|exact W']. vm_compute in E1. injection E1 as _ <-. reflexivity.
Defined.
End witness.

End VfsLookup.
