(* ===== verification/VfsPath.v ===== *)
(** Paths (kernel/fs/vfs/vdentry.c): the walk along the components of a path refines the resolution
    of names, and the path of an entry leads back to it.

    A position in the name space is the chain of the names, inodes and mounts from an entry up to the
    root ([chain_of]); it identifies the entry ([chain_inj]) and does not depend on what is cached.
    [resolves] says what a path means on positions, from the directories of the file system, the
    mounts, the permissions and the links. *)

From S2P Require Import Prelude Vfs Tmpfs VfsInv TmpfsLaws VfsLookup.

Module VfsPath.
Import Vfs VfsInv VfsLookup.

Notation chain := (list (list Z * Z * option Z)).

(** ** The components of a path *)

(** The pieces between the separators. *)
Fixpoint split (path : list Z) : list (list Z) :=
  match path with
  | [] => [[]]
  | c :: path =>
      match split path with
      | [] => [[]]
      | s :: rest => if c =? SLASH then [] :: s :: rest else (c :: s) :: rest
      end
  end.

Definition nonempty (s : list Z) : bool := negb (bool_decide (s = [])).

Lemma split_cons path : exists s rest, split path = s :: rest.
Proof. induction path as [|c path (s & rest & E)]; cbn; [eauto|]. rewrite E. case_match; eauto. Qed.

Lemma starts_shift i path b : path_starts (S i) path b = map S (path_starts i path b).
Proof. revert i b. induction path as [|c path IH]; intros i b; cbn; [done|]. rewrite !IH. destruct (c =? SLASH); [done|]. by destruct b. Qed.

Definition comps_from (path : list Z) (b : bool) : list (list Z) := map (fun i => upto_sep (drop i path)) (path_starts 0 path b).

Lemma comps_step c path b : comps_from (c :: path) b =
  if c =? SLASH then comps_from path true else if b then (c :: upto_sep path) :: comps_from path false else comps_from path false.
Proof.
  unfold comps_from. cbn [path_starts]. rewrite !starts_shift. destruct (c =? SLASH) eqn:Ec; [by rewrite map_map|].
  destruct b; cbn [map drop upto_sep]; [rewrite Ec|]; by rewrite map_map.
Qed.

Lemma comps_split path : forall s rest, split path = s :: rest ->
  upto_sep path = s /\ comps_from path true = filter (fun s => Is_true (nonempty s)) (s :: rest) /\ comps_from path false = filter (fun s => Is_true (nonempty s)) rest.
Proof.
  induction path as [|c path IH]; intros s rest E; [cbn in E; by injection E as <- <-|].
  destruct (split_cons path) as (s1 & rest1 & E1). destruct (IH s1 rest1 E1) as (H1 & H2 & H3). cbn in E. rewrite E1 in E. rewrite !comps_step. cbn [upto_sep].
  destruct (c =? SLASH); injection E as <- <-.
  - rewrite H2. done.
  - rewrite H1, H3. done.
Qed.

Lemma path_array_spec path : path_array path = filter (fun s => Is_true (nonempty s)) (split path).
Proof. destruct (split_cons path) as (s & rest & E). rewrite E. by apply comps_split. Qed.

(** A name that a path can have as a component. *)
Definition good_name (s : list Z) : Prop := s <> [] /\ SLASH ∉ s.

Lemma split_good path : Forall (fun s => SLASH ∉ s) (split path).
Proof.
  induction path as [|c path IH]; cbn; [by repeat constructor; apply not_elem_of_nil|]. destruct (split_cons path) as (s & rest & E). rewrite E in *.
  apply Forall_cons in IH as (H1 & H2). case_match eqn:Ec; constructor; try done; [apply not_elem_of_nil|by constructor|].
  apply not_elem_of_cons. split; [|done]. intros <-. by rewrite Z.eqb_refl in Ec.
Qed.

Lemma path_array_good path : Forall good_name (path_array path).
Proof.
  rewrite path_array_spec. apply Forall_forall. intros s Hs. apply list_elem_of_filter in Hs as (H1 & H2). split.
  - intros ->. done.
  - exact (proj1 (Forall_forall _ _) (split_good path) s H2).
Qed.

(** The path with these components. *)
Definition join (names : list (list Z)) : list Z := concat (map (cons SLASH) names).

Lemma comps_name s path : SLASH ∉ s -> comps_from (s ++ path) false = comps_from path false /\ upto_sep (s ++ SLASH :: path) = s /\ upto_sep s = s.
Proof.
  induction s as [|c s IH]; intros Hs; [done|]. apply not_elem_of_cons in Hs as (Hc & Hs). destruct (IH Hs) as (H1 & H2 & H3).
  assert (Ec : (c =? SLASH) = false) by (apply Z.eqb_neq; congruence). cbn [upto_sep app]. rewrite comps_step, Ec, H1, H2, H3. done.
Qed.

Lemma join_true names : comps_from (join names) true = comps_from (join names) false /\ (forall s, SLASH ∉ s -> upto_sep (s ++ join names) = s).
Proof.
  destruct names as [|s1 names].
  - split; [done|]. intros s Hs. cbn. rewrite app_nil_r. by apply (comps_name s []).
  - split; [change (join (s1 :: names)) with (SLASH :: s1 ++ join names); by rewrite !comps_step|]. intros s Hs. change (join (s1 :: names)) with (SLASH :: s1 ++ join names). by apply comps_name.
Qed.

Lemma path_array_join names : Forall good_name names -> path_array (join names) = names.
Proof.
  induction names as [|s names IH]; intros Hn; [done|]. apply Forall_cons in Hn as ((Hne & Hs) & Hn). destruct (join_true names) as (H1 & H2). specialize (IH Hn).
  change (path_array (join names)) with (comps_from (join names) true) in IH. change (path_array (join (s :: names))) with (comps_from (SLASH :: s ++ join names) true). rewrite comps_step.
  rewrite Z.eqb_refl. destruct s as [|c s]; [done|]. cbn [app]. rewrite comps_step. apply not_elem_of_cons in Hs as (Hc & Hs).
  assert (Ec : (c =? SLASH) = false) by (apply Z.eqb_neq; congruence). rewrite Ec, H2 by done. destruct (comps_name s (join names) Hs) as (-> & _). rewrite <- H1, IH. done.
Qed.

(** C40: the pass over a path that replaces the separators and notes where components start, into an array of
    128 places: the array holds the pieces between the separators, without the empty ones, in their order;
    with more than 128 such pieces the code writes past its end, and the model stops.  Conversely, up to 128
    names that are not empty and have no separator in them come back from the path that puts a separator
    in front of each. *)
Theorem path_array_split path names :
  parse_path path = (let comps := filter (fun s => Is_true (nonempty s)) (split path) in
                     if lenZ comps <=? 128 then Some comps else None) /\
  (Forall good_name names -> lenZ names <= 128 -> parse_path (join names) = Some names).
Proof.
  unfold parse_path. cbv zeta. split.
  - rewrite path_array_spec. by destruct (_ <=? 128).
  - intros Hn H128. rewrite path_array_join by done. by rewrite (proj2 (Z.leb_le _ _)) by done.
Qed.

Lemma path_array_split_witness : parse_path (join [[97]; [98; 99]]) = Some [[97]; [98; 99]].
Proof.
  apply (path_array_split [] [[97]; [98; 99]]); [|done].
  repeat constructor; try done; by rewrite ?not_elem_of_cons; set_solver.
Defined.

Section positions.
Context {F : Type} `{E : Env} `{NT : !NodeTables F} `{DT : !DirTables F} `{FL : !FsLaws}.
Implicit Types (st : state F) (g : ghost) (e : dentry) (x : node) (base : Z -> Z) (ch : chain) (s : list Z).

(** ** Positions *)

Lemma root_mount st g d e : wf st g -> d ∈ live g -> dentries st !! d = Some e -> flags e <> 0 ->
  exists m mp, mount_point e = Some m /\ mounts st !! m = Some mp /\ m_root mp = d.
Proof.
  intros W Hd He Hf. destruct (wf_flags _ _ W d e Hd He) as [|(_ & m & mp & Hm & Hr)]; [done|]. subst d.
  destruct (wf_mount_root _ _ W m mp e Hm He) as (H1 & _). eauto.
Qed.

(** A child below [q] and the root of a mount below [q] are on different mounts. *)
Lemma mount_differs st g q d1 d2 e1 e2 : wf st g -> d1 ∈ live g -> d2 ∈ live g -> dentries st !! d1 = Some e1 -> dentries st !! d2 = Some e2 ->
  parent e1 = Some q -> parent e2 = Some q -> flags e1 = 0 -> flags e2 <> 0 -> mount_point e1 <> mount_point e2.
Proof.
  intros W H1 H2 He1 He2 Hp1 Hp2 Hf1 Hf2 Em. destruct (root_mount st g d2 e2 W H2 He2 Hf2) as (m & mp & Hmp & Hm & Hr). subst d2.
  destruct (wf_live _ _ W q (wf_parent _ _ W d1 e1 q H1 He1 Hp1)) as (eq & n & Heq & _).
  pose proof (wf_same_mount _ _ W d1 e1 q eq H1 He1 Hp1 Hf1 Heq) as Hs. destruct (wf_mount_root _ _ W m mp e2 Hm He2) as (_ & Hx). apply (Hx q eq Hp2 Heq). congruence.
Qed.

Lemma chain_inj st g : wf st g -> forall ch d1 d2, d1 ∈ live g -> d2 ∈ live g -> chain_of st d1 ch -> chain_of st d2 ch -> d1 = d2.
Proof.
  intros W. induction ch as [|y ch IH]; intros d1 d2 H1 H2 C1 C2; [by inversion C1|].
  assert (Hroots : forall e1 e2, dentries st !! d1 = Some e1 -> dentries st !! d2 = Some e2 -> flags e1 <> 0 -> flags e2 <> 0 -> mount_point e1 = mount_point e2 -> d1 = d2).
  { intros e1 e2 He1 He2 Hf1 Hf2 Em. destruct (root_mount st g d1 e1 W H1 He1 Hf1) as (m1 & mp1 & ? & ? & <-), (root_mount st g d2 e2 W H2 He2 Hf2) as (m2 & mp2 & ? & ? & <-).
    assert (m1 = m2) as -> by congruence. congruence. }
  inversion C1 as [? e1 n1 He1 Hp1 Hi1|? e1 n1 p1 ch1 He1 Hp1 Hi1 Hc1]; subst; inversion C2 as [? e2 n2 He2 Hp2 Hi2 Heq2|? e2 n2 p2 ch2 He2 Hp2 Hi2 Hc2 Heq2]; subst.
  - destruct (wf_top _ _ W d1 e1 H1 He1 Hp1) as (Hf1 & _), (wf_top _ _ W d2 e2 H2 He2 Hp2) as (Hf2 & _).
    apply (Hroots e1 e2); try done; [by rewrite Hf1|by rewrite Hf2].
  - inversion Hc2.
  - inversion Hc1.
  - assert (p2 = p1) as -> by (apply IH; try done; [apply (wf_parent _ _ W d2 e2)|apply (wf_parent _ _ W d1 e1)]; done).
    destruct (decide (flags e1 = 0)) as [Hf1|Hf1], (decide (flags e2 = 0)) as [Hf2|Hf2].
    + pose proof (wf_parent _ _ W d1 e1 p1 H1 He1 Hp1) as Hpl. destruct (wf_live _ _ W p1 Hpl) as (eq & k & Heq & _).
      apply (wf_names _ _ W p1 eq d1 d2 e1 e2); try done; try congruence; apply (wf_children _ _ W p1 eq _ Hpl Heq); split; try done; eauto.
    + exfalso. apply (mount_differs st g p1 d1 d2 e1 e2); try done; congruence.
    + exfalso. apply (mount_differs st g p1 d2 d1 e2 e1); try done; congruence.
    + apply (Hroots e1 e2); try done; congruence.
Qed.

Lemma follow_pinned base st g st' g' : kept base st g st' g' -> forall fuel d, pinned base st g d -> follow_loop fuel d st' = follow_loop fuel d st.
Proof.
  intros K fuel. induction fuel as [|fuel IH]; intros d Hd; [done|]. cbn [follow_loop]. rewrite (k_mounts _ _ _ _ _ K).
  destruct (k_pinned _ _ _ _ _ K d Hd) as (_ & Hx). destruct (dentries st' !! d) as [e'|], (dentries st !! d) as [e|]; cbn in Hx; try done.
  unfold fixed in Hx. injection Hx as _ _ _ _ _ Hs. cbn [mbind option_bind]. rewrite Hs. destruct (shadow_mount_point e) as [m|]; [|done].
  destruct (mounts st !! m) as [mp|] eqn:Em; cbn [mbind option_bind]; [|done]. apply IH. by apply (pin_root base st g m).
Qed.

(** The position that a mount puts in the place of the child [s] of a position. *)
Definition covered st g ch s ch' : Prop :=
  exists m mp k q t, mounts st !! m = Some mp /\ m_shadow mp ∈ live g /\ dentries st !! m_shadow mp = Some k /\ shadow_mount_point k = Some m /\ flags k = 0 /\
    name k = s /\ parent k = Some q /\ chain_of st q ch /\ vfs_dentry_follow_mount_points (m_shadow mp) st = Some t /\ chain_of st t ch'.

Definition attr_at st ch (a : attr) : Prop := exists s n m, head ch = Some (s, n, m) /\ attrs_of st !! n = Some a.
Definition inode_at ch : option Z := n ← head ch; Some n.1.2.
Definition mount_at ch : option Z := n ← head ch; n.2.

(** One component of a path. *)
Inductive steps st g ch s : res chain -> Prop :=
  | st_notdir a : attr_at st ch a -> ifmt (a_mode a) <> S_IFDIR -> steps st g ch s (Err ENOTDIR)
  | st_access a : attr_at st ch a -> ifmt (a_mode a) = S_IFDIR -> can_search a = false -> steps st g ch s (Err EACCES)
  | st_dotdot a : attr_at st ch a -> ifmt (a_mode a) = S_IFDIR -> can_search a = true -> s = [DOT; DOT] ->
      steps st g ch s (Ok (match tail ch with [] => ch | up => up end))
  | st_dot a : attr_at st ch a -> ifmt (a_mode a) = S_IFDIR -> can_search a = true -> s = [DOT] -> steps st g ch s (Ok ch)
  | st_noent a n : attr_at st ch a -> ifmt (a_mode a) = S_IFDIR -> can_search a = true -> s <> [DOT; DOT] -> s <> [DOT] ->
      inode_at ch = Some n -> fs_entry (private st) n s = None -> steps st g ch s (Err ENOENT)
  | st_child a n i : attr_at st ch a -> ifmt (a_mode a) = S_IFDIR -> can_search a = true -> s <> [DOT; DOT] -> s <> [DOT] ->
      inode_at ch = Some n -> fs_entry (private st) n s = Some i -> (forall ch', ~ covered st g ch s ch') ->
      steps st g ch s (Ok ((s, i, mount_at ch) :: ch))
  | st_covered a n i ch' : attr_at st ch a -> ifmt (a_mode a) = S_IFDIR -> can_search a = true -> s <> [DOT; DOT] -> s <> [DOT] ->
      inode_at ch = Some n -> fs_entry (private st) n s = Some i -> covered st g ch s ch' ->
      steps st g ch s (Ok ch').

(** ** A step of the walk *)

(** Where a walk is: the state is well formed and keeps what the caller has ([base]) of the state where
    the walk began; besides [held], the walk holds one reference, to [d], which is at the position [ch]. *)
Record walking base st0 g0 (held : Z -> Z) st g (d : Z) ch : Prop := {
  wk_wf : wf st g;
  wk_kept : kept base st0 g0 st g;
  wk_own k : own g k = own g0 k + held k + one d k;
  wk_chain : chain_of st d ch;
}.

(** Where it stops without an entry. *)
Record stopped base st0 g0 (held : Z -> Z) st g : Prop := {
  sp_wf : wf st g;
  sp_kept : kept base st0 g0 st g;
  sp_own k : own g k = own g0 k + held k;
}.

Section step.
Context (base : Z -> Z) (st0 : state F) (g0 : ghost) (W0 : wf st0 g0) (Hb0 : forall c, 0 <= base c) (Hb : forall c, base c <= own g0 c).

Lemma one_result c k : (if decide (@Ok Z c = Ok k) then 1 else 0) = one c k.
Proof. unfold one. destruct (decide (k = c)) as [->|]; [by rewrite decide_True|]. by rewrite decide_False by congruence. Qed.

Lemma walking_live held st g d ch : (forall k, 0 <= held k) -> walking base st0 g0 held st g d ch -> d ∈ live g.
Proof. intros Hh [W K Ho Hc]. apply (wf_own _ _ W). rewrite Ho, one_self. specialize (Hb0 d). specialize (Hb d). specialize (Hh d). lia. Qed.

Lemma pinned_live st g d : wf st g -> (forall c, base c <= own g c) -> pinned base st g d -> d ∈ live g.
Proof. intros W Hbb Hd. by apply (kept_refl base st g). Qed.

(** A position of an entry that stays is the same at the beginning. *)
Lemma chain_before st g d ch : kept base st0 g0 st g -> pinned base st0 g0 d -> chain_of st d ch -> chain_of st0 d ch.
Proof.
  intros K Hd Hc. destruct (wf_chain _ _ W0 d (pinned_live st0 g0 d W0 Hb Hd)) as (ch0 & Hc0).
  pose proof (kept_chain _ _ _ _ _ d ch0 K Hd Hc0) as Hc1. by rewrite (chain_fun _ _ _ Hc _ Hc1).
Qed.

Lemma pinned_entry st g d e : kept base st0 g0 st g -> pinned base st0 g0 d -> dentries st !! d = Some e ->
  exists e0, dentries st0 !! d = Some e0 /\ name e0 = name e /\ flags e0 = flags e /\ parent e0 = parent e /\ shadow_mount_point e0 = shadow_mount_point e.
Proof.
  intros K Hd He. destruct (k_pinned _ _ _ _ _ K d Hd) as (_ & Hf). rewrite He in Hf. destruct (dentries st0 !! d) as [e0|]; [|done].
  exists e0. cbn in Hf. unfold fixed in Hf. injection Hf as ? _ ? ? _ ?. done.
Qed.

Lemma chain_head st d e n ch : chain_of st d ch -> dentries st !! d = Some e -> inode e = Some n ->
  head ch = Some (name e, n, mount_point e) /\ match parent e with Some p => chain_of st p (tail ch) | None => tail ch = [] end.
Proof.
  intros Hc He Hn. inversion Hc as [? e1 n1 He1 Hp1 Hi1|? e1 n1 p ch1 He1 Hp1 Hi1 Hc1]; subst; assert (e1 = e) as -> by congruence; assert (n1 = n) as -> by congruence; rewrite Hp1; done.
Qed.

(** The child that was found, without a mount on it or with one. *)
Lemma found_steps st g d ch n s c a : wf st g -> kept base st0 g0 st g -> chain_of st d ch -> d ∈ live g -> attr_at st0 ch a -> ifmt (a_mode a) = S_IFDIR ->
  can_search a = true -> s <> [DOT; DOT] -> s <> [DOT] -> inode_at ch = Some n -> found_entry st g d n s c ->
  exists ch', chain_of st c ch' /\ steps st0 g0 ch s (Ok ch').
Proof.
  intros W K Hc Hd Ha Hdir Hperm Hs1 Hs2 Hn (k & ek & Hk & Hek & Hp & Hf & Hnm & Hi & Hfo).
  destruct (wf_live _ _ W k Hk) as (ek' & i & Hek' & Hik). assert (ek' = ek) as -> by congruence. rewrite Hik in Hi. symmetry in Hi. rewrite (k_private _ _ _ _ _ K) in Hi.
  destruct (wf_live _ _ W d Hd) as (e & n' & He & Hn'). destruct (chain_head st d e n' ch Hc He Hn') as (Hh & _).
  destruct (shadow_mount_point ek) as [m|] eqn:Es.
  - destruct (wf_shadow _ _ W k ek m Hk Hek Es) as (mp & Hm & Hsh). rewrite (k_mounts _ _ _ _ _ K) in Hm. subst k.
    pose proof (k_shadow _ _ _ _ _ K m mp Hm Hk) as Hk0. assert (Hpin : pinned base st0 g0 (m_shadow mp)) by (by apply (pin_shadow base st0 g0 m)).
    destruct (pinned_entry st g _ ek K Hpin Hek) as (e0 & He0 & Hn0 & Hf0 & Hp0 & Hs0).
    assert (Hpd : pinned base st0 g0 d) by (apply (pin_parent base st0 g0 (m_shadow mp) e0); congruence).
    assert (Hpc : pinned base st0 g0 c).
    { unfold vfs_dentry_follow_mount_points in Hfo. rewrite (k_mounts _ _ _ _ _ K) in Hfo. revert Hfo. cbn [follow_loop]. rewrite Hek. cbn [mbind option_bind]. rewrite Es.
      rewrite (k_mounts _ _ _ _ _ K), Hm. cbn [mbind option_bind]. generalize (pin_root base st0 g0 m mp Hm). generalize (m_root mp) (size (mounts st0)).
      intros d1 fuel. revert d1. induction fuel as [|fuel IH]; intros d1 H1; cbn [follow_loop]; [done|]. destruct (dentries st !! d1) as [e1|]; [|done]. cbn [mbind option_bind].
      destruct (shadow_mount_point e1) as [m1|]; [|congruence]. rewrite (k_mounts _ _ _ _ _ K). destruct (mounts st0 !! m1) as [mp1|] eqn:Em1; [|done]. cbn [mbind option_bind]. apply IH. by apply (pin_root base st0 g0 m1). }
    destruct (wf_chain _ _ W0 c (pinned_live st0 g0 c W0 Hb Hpc)) as (cht & Hcht). exists cht. split; [by apply (kept_chain base st0 g0 st g)|].
    apply (st_covered st0 g0 ch s a n i cht); try done. exists m, mp, e0, d, c. conjs; try done; try congruence.
    + by apply (chain_before st g).
    + rewrite <- Hfo. unfold vfs_dentry_follow_mount_points. rewrite (k_mounts _ _ _ _ _ K). symmetry. by apply (follow_pinned base st0 g0 st g).
  - assert (c = k) as ->. { unfold vfs_dentry_follow_mount_points in Hfo. cbn [follow_loop] in Hfo. rewrite Hek in Hfo. cbn [mbind option_bind] in Hfo. rewrite Es in Hfo. congruence. }
    pose proof (wf_same_mount _ _ W k ek d e Hk Hek Hp Hf He) as Hmo.
    exists ((s, i, mount_at ch) :: ch). unfold mount_at. rewrite Hh. cbn [mbind option_bind snd]. split.
    + rewrite <- Hnm, <- Hmo. by apply (chain_step st k ek i d).
    + assert (Hst : steps st0 g0 ch s (Ok ((s, i, mount_at ch) :: ch))); [|unfold mount_at in Hst; rewrite Hh in Hst; exact Hst].
      apply (st_child st0 g0 ch s a n i); try done. intros ch' (m & mp & e0 & q & t & Hm & Hl & He0 & Hs0 & Hf0 & Hn0 & Hp0 & Hcq & _).
      assert (Hpin : pinned base st0 g0 (m_shadow mp)) by (by apply (pin_shadow base st0 g0 m)).
      assert (Hpq : pinned base st0 g0 q) by (by apply (pin_parent base st0 g0 (m_shadow mp) e0)). destruct (k_pinned _ _ _ _ _ K q Hpq) as (Hql & _).
      assert (q = d) as ->. { apply (chain_inj st g W ch); try done. by apply (kept_chain base st0 g0 st g). }
      destruct (k_pinned _ _ _ _ _ K _ Hpin) as (Hzl & Hzf). rewrite He0 in Hzf. destruct (dentries st !! m_shadow mp) as [ez|] eqn:Hez; [|done].
      cbn in Hzf. unfold fixed in Hzf. injection Hzf as Z1 _ Z2 Z3 _ Z4.
      assert (m_shadow mp = k) as Ezk; [|rewrite Ezk in Hez; congruence].
      apply (wf_names _ _ W d e _ _ ez ek Hd He); try done; try congruence; apply (wf_children _ _ W d e _ Hd He); split; try done; [exists ez|exists ek]; conjs; congruence.
Qed.

(** A reference held besides is given back. *)
Lemma release_held held cur st g d ch : (forall k, 0 <= held k) -> walking base st0 g0 (fun k => held k + one cur k) st g d ch ->
  exists st' g', vfs_dentry_release cur st = Some st' /\ walking base st0 g0 held st' g' d ch /\ avail st <= avail st'.
Proof.
  intros Hh [W K Ho Hc]. destruct (dentry_release_spec (fun k => base k + one d k) st g cur) as (st' & g' & E1 & [W1 K1 Ho1 _ _ Ha1]); try done.
  { intros k. specialize (Hb0 k). pose proof (one_nonneg d k). lia. }
  { intros k. rewrite Ho. specialize (Hb k). specialize (Hh k). pose proof (one_nonneg cur k). lia. }
  { rewrite Ho, one_self. specialize (Hb cur). specialize (Hh cur). lia. }
  exists st', g'. split; [done|]. split; [|done]. split; try done.
  - eapply kept_trans; [exact K|]. eapply kept_weaken; [|exact K1]. intros k. cbn. pose proof (one_nonneg d k). lia.
  - intros k. rewrite Ho1, Ho. unfold one. lia.
  - apply (kept_chain _ _ _ _ _ d ch K1); [|done]. constructor. rewrite one_self. specialize (Hb0 d). lia.
Qed.

Lemma release_stopped held cur st g : (forall k, 0 <= held k) -> stopped base st0 g0 (fun k => held k + one cur k) st g ->
  exists st' g', vfs_dentry_release cur st = Some st' /\ stopped base st0 g0 held st' g'.
Proof.
  intros Hh [W K Ho]. destruct (dentry_release_spec base st g cur) as (st' & g' & E1 & [W1 K1 Ho1 _ _]); try done.
  { intros k. rewrite Ho. specialize (Hb k). specialize (Hh k). pose proof (one_nonneg cur k). lia. }
  { rewrite Ho, one_self. specialize (Hb cur). specialize (Hh cur). lia. }
  exists st', g'. split; [done|]. split; try done.
  - by eapply kept_trans.
  - intros k. rewrite Ho1, Ho. unfold one. lia.
Qed.

Lemma lookup_walk held st g d ch s : (forall k, 0 <= held k) -> walking base st0 g0 held st g d ch -> lenZ s < 256 ->
  exists st1 r st2 g2, vfs_lookup d s st = Some (st1, r) /\ vfs_dentry_release d st1 = Some st2 /\
    match r with
    | Ok c => exists ch', walking base st0 g0 held st2 g2 c ch' /\ steps st0 g0 ch s (Ok ch') /\ avail st <= avail st2 + 1
    | Err err => stopped base st0 g0 held st2 g2 /\ (err = ENOMEM /\ avail st = 0 \/ steps st0 g0 ch s (Err err))
    end.
Proof.
  intros Hheld Hw Hlen. pose proof (walking_live held st g d ch Hheld Hw) as Hd. destruct Hw as [W K Ho Hc].
  destruct (wf_live _ _ W d Hd) as (e & n & He & Hn). destruct (entry_inode st g d e n W Hd He Hn) as (x & _ & _ & Hx & _).
  destruct (chain_head st d e n ch Hc He Hn) as (Hh & Ht).
  assert (B1 : forall k, 0 <= one d k) by (intros k; apply one_nonneg).
  destruct (vfs_lookup_spec (fun k => base k + one d k) st g d e n x s) as (st1 & r & E1 & g1 & W1 & K1 & Ho1 & Hr & Ha1); try done.
  { intros k. specialize (Hb0 k). specialize (B1 k). lia. }
  { intros k. rewrite Ho. specialize (Hb k). specialize (Hheld k). lia. }
  { rewrite one_self. specialize (Hb0 d). lia. }
  assert (K01 : kept base st0 g0 st1 g1).
  { eapply kept_trans; [exact K|]. eapply kept_weaken; [|exact K1]. intros k. cbn. specialize (B1 k). lia. }
  assert (Hpd : pinned (fun k => base k + one d k) st g d) by (constructor; rewrite one_self; specialize (Hb0 d); lia).
  pose proof (kept_chain _ _ _ _ _ d ch K1 Hpd Hc) as Hc1. destruct (k_pinned _ _ _ _ _ K1 d Hpd) as (Hd1 & _).
  assert (Ha : attr_at st0 ch (attr_of x)).
  { exists (name e), n, (mount_point e). split; [done|]. rewrite <- (kept_attrs _ _ _ _ _ K). unfold attrs_of. by rewrite lookup_fmap, Hx. }
  assert (Hin : inode_at ch = Some n) by (unfold inode_at; by rewrite Hh).
  set (gain := fun k => if decide (r = Ok k) then 1 else 0) in *. assert (B2 : forall k, 0 <= gain k) by (intros k; unfold gain; case_decide; lia).
  destruct (dentry_release_spec (fun k => base k + gain k) st1 g1 d) as (st2 & g2 & E2 & [W2 K2 Ho2 _ _ Ha2]); try done.
  { intros k. specialize (Hb0 k). specialize (B2 k). lia. }
  { intros k. rewrite Ho1, Ho. fold (gain k). specialize (Hb k). specialize (Hheld k). specialize (B1 k). lia. }
  { rewrite Ho1, Ho, one_self. fold (gain d). specialize (Hb d). specialize (Hheld d). lia. }
  assert (K02 : kept base st0 g0 st2 g2).
  { eapply kept_trans; [exact K01|]. eapply kept_weaken; [|exact K2]. intros k. cbn. specialize (B2 k). lia. }
  assert (Ho02 : forall k, own g2 k = own g0 k + held k + gain k).
  { intros k. rewrite Ho2, Ho1, Ho. fold (gain k). unfold one. lia. }
  exists st1, r, st2, g2. split; [exact E1|]. split; [exact E2|]. destruct r as [c|err].
  - cut (exists ch', chain_of st1 c ch' /\ steps st0 g0 ch s (Ok ch')).
    { intros (ch' & Hc' & Hs). exists ch'. split; [|split; [done|lia]]. split; try done.
      - intros k. rewrite Ho02. unfold gain. by rewrite one_result.
      - apply (kept_chain _ _ _ _ _ c ch' K2); [|done]. constructor. unfold gain. rewrite one_result, one_self. specialize (Hb0 c). lia. }
    destruct Hr as (Hdir & Hperm & Hr). destruct (decide (s = [DOT; DOT])) as [Hs|Hs1].
    + subst c. exists (match tail ch with [] => ch | up => up end). split; [|by apply (st_dotdot st0 g0 ch s (attr_of x))].
      destruct (parent e) as [p|] eqn:Ep; cbn [default from_option].
      * pose proof (chain_nonempty _ _ _ Ht) as Hne. destruct (tail ch) as [|y tl] eqn:Etl; [done|]. apply (kept_chain _ _ _ _ _ p _ K1); [|done].
        by apply (pin_parent _ st g d e).
      * by rewrite Ht.
    + destruct (decide (s = [DOT])) as [Hs|Hs2].
      * subst c. exists ch. split; [done|]. by apply (st_dot st0 g0 ch s (attr_of x)).
      * by apply (found_steps st1 g1 d ch n s c (attr_of x)).
  - split; [split; try done; intros k; rewrite Ho02; unfold gain; rewrite decide_False by done; lia|].
    destruct err; cbn in Hr; try done; try (left; split; [done|]; destruct Hr as (_ & _ & _ & _ & H1 & H2); unfold avail; by rewrite H1, H2); right.
    + by apply (st_access st0 g0 ch s (attr_of x)); destruct Hr.
    + destruct Hr as (H1 & H2 & H3 & H4 & H5). apply (st_noent st0 g0 ch s (attr_of x) n); try done. by rewrite <- (k_private _ _ _ _ _ K).
    + by apply (st_notdir st0 g0 ch s (attr_of x)).
Qed.
End step.

(** ** The meaning of a path *)

Inductive outcome :=
  | Reached (ch : chain)
  | Failed (err : errno)
  | Exhausted
  | Panics.

Definition relative (path : list Z) : Prop := match path with c :: _ => c <> SLASH | [] => True end.

#[local] Instance relative_dec path : Decision (relative path).
Proof. destruct path; apply _. Defined.

Definition link_at st ch : Prop := exists a, attr_at st ch a /\ ifmt (a_mode a) = S_IFLNK.

(** [resolves st g nf l comps ch l' o]: from the position [ch], with [l] links left to follow, the
    components lead to the outcome [o] and leave [l'].  With [nf] a link in the last place is not
    followed.  [follows] is the position that a link stands for; a link with an absolute target makes the
    walk panic, because it starts at a null entry. *)
Inductive resolves st g (nf : bool) : nat -> list (list Z) -> chain -> nat -> outcome -> Prop :=
  | rs_nil l ch : resolves st g nf l [] ch l (Reached ch)
  | rs_err l s comps ch err : steps st g ch s (Err err) -> resolves st g nf l (s :: comps) ch l (Failed err)
  | rs_last l s ch ch1 : steps st g ch s (Ok ch1) -> nf = true -> resolves st g nf l [s] ch l (Reached ch1)
  | rs_step l s comps ch ch1 l1 ch2 l' o : steps st g ch s (Ok ch1) -> (nf = true -> comps <> []) -> follows st g nf l ch1 l1 (Reached ch2) ->
      resolves st g nf l1 comps ch2 l' o -> resolves st g nf l (s :: comps) ch l' o
  | rs_link_err l s comps ch ch1 l1 o : steps st g ch s (Ok ch1) -> (nf = true -> comps <> []) -> follows st g nf l ch1 l1 o ->
      (forall ch2, o <> Reached ch2) -> resolves st g nf l (s :: comps) ch l1 o
with follows st g (nf : bool) : nat -> chain -> nat -> outcome -> Prop :=
  | fl_done l ch : ~ link_at st ch -> follows st g nf l ch l (Reached ch)
  | fl_exhausted ch : link_at st ch -> follows st g nf 0 ch 0 Exhausted
  | fl_absolute l ch n t : link_at st ch -> inode_at ch = Some n -> fs_target (private st) n = Some t -> ~ relative t ->
      follows st g nf (S l) ch l Panics
  | fl_follow l ch n t l1 ch1 l' o : link_at st ch -> inode_at ch = Some n -> fs_target (private st) n = Some t -> relative t ->
      resolves st g nf l (path_array t) (tail ch) l1 (Reached ch1) -> follows st g nf l1 ch1 l' o -> follows st g nf (S l) ch l' o
  | fl_err l ch n t l1 o : link_at st ch -> inode_at ch = Some n -> fs_target (private st) n = Some t -> relative t ->
      resolves st g nf l (path_array t) (tail ch) l1 o -> (forall ch1, o <> Reached ch1) -> follows st g nf (S l) ch l1 o.

(** Reading a link changes the time of the access. *)
Lemma readlink_spec base st g n x size : wf st g -> (forall k, base k <= own g k) -> nodes st !! n = Some x -> ifmt (mode x) = S_IFLNK ->
  exists m t, vfs_readlink n size st = Some (set_nodes m st, Ok (takeZ size t)) /\ fs_target (private st) n = Some t /\ wf (set_nodes m st) g /\ kept base st g (set_nodes m st) g.
Proof.
  intros W Hb Hx Hl. unfold vfs_readlink. rewrite Hx. cbn [mbind option_bind]. unfold is_type. rewrite bool_decide_eq_true_2 by done. cbn [negb].
  assert (Ha : attrs_of st !! n = Some (attr_of x)) by (unfold attrs_of; by rewrite lookup_fmap, Hx).
  destruct (readlink_law _ _ n (attr_of x) (wf_fs _ _ W) Ha Hl) as (f & Hf & Hlaw). cbn in Hf. rewrite Hf.
  unfold vfs_update_time, vfs_setattr, vfs_raw_setattr. rewrite Hx. cbn [mbind option_bind].
  set (ats := attrs _ _ _ _ _ _).
  destruct (setattr_law n (attr_of x) st ats VNODE_ATTR_ATIME (wf_fs _ _ W) Ha) as (h & Hh & Eh). cbn in Hh. rewrite Hh. rewrite Eh. cbn [mbind option_bind]. rewrite Hx. cbn [mbind option_bind].
  unfold upd_node at 1. rewrite Hx. cbn [mbind option_bind]. unfold vfs_node_mark_dirty, upd_node. cbn [nodes set_nodes]. rewrite lookup_insert_eq. cbn [mbind option_bind].
  rewrite insert_insert_eq.
  set (x' := set_n_flags _ _ _). set (m := <[n := x']> (nodes st)).
  assert (Hs : steady x' = steady x /\ attr_of x' = attr_of x /\ n_ref x' = n_ref x /\ readers x' = readers x /\ lock_depth x' = lock_depth x) by done.
  destruct Hs as (S1 & S2 & S3 & S4 & S5).
  assert (Hattrs : attrs_of (set_nodes m st) = attrs_of st) by (apply (attrs_insert _ n x); done).
  assert (W' : wf (set_nodes m st) g).
  { apply (wf_reframe st g); try done; try apply W. intros k y. cbn. subst m. destruct (decide (k = n)) as [->|].
    - rewrite lookup_insert_eq. intros [= <-]. exists x. pose proof (wf_lock _ _ W n x Hx). done.
    - rewrite lookup_insert_ne by done. intros Hy. exists y. conjs; try done; apply (wf_lock _ _ W k y Hy). }
  destruct (Hlaw (set_nodes m st) size) as (t & Ht & Et); [rewrite Hattrs; apply (wf_fs _ _ W)|by rewrite Hattrs|].
  exists m, t. split; [exact Et|]. split; [exact Ht|]. split; [exact W'|].
  apply kept_step; try done. cbn. subst m. rewrite fmap_insert, S1. apply insert_id. by rewrite lookup_fmap, Hx.
Qed.

(** ** The walk *)

Section walk.
Context `{LM : Limits} (base : Z -> Z) (st0 : state F) (g0 : ghost) (W0 : wf st0 g0) (Hb0 : forall c, 0 <= base c) (Hb : forall c, base c <= own g0 c).

(** Paths that fit the arrays of the walk. *)
Definition fits (path : list Z) : Prop := lenZ (path_array path) <= 128 /\ Forall (fun s => lenZ s < 256) (path_array path).

Hypothesis Hlinks : forall n t, fs_target (private st0) n = Some t -> fits t /\ lenZ t < PATH_MAX.

Context (fl : open_flags) (Hcreat : O_CREAT fl = false) (Hexcl : O_EXCL fl = false) (mo : Z).

(** The end of a walk, for a relation between what is left of the links and the outcome.  [a] entries
    could be allocated at its beginning; it looks up at most [b] names and 128 for each link. *)
Definition ends (held : Z -> Z) (l : nat) (b a : Z) (R : nat -> outcome -> Prop) (r : option (state F * Z * res Z)) : Prop :=
  match r with
  | None => exists l' o, R l' o /\ (o = Exhausted \/ o = Panics)
  | Some (st, k, Ok d) => exists g l' ch, k = Z.of_nat l' /\ (l' <= l)%nat /\ walking base st0 g0 held st g d ch /\ R l' (Reached ch) /\
      a <= avail st + b + 128 * (Z.of_nat l - Z.of_nat l')
  | Some (st, _, Err err) => exists g l', stopped base st0 g0 held st g /\
      (err = ENOMEM /\ a < b + 128 * Z.of_nat l \/ R l' (Failed err))
  end.

(** A function that walks along the target of a link. *)
Definition walks_target (recur : get_fn) (l : nat) : Prop :=
  forall held st g d ch path, (forall k, 0 <= held k) -> walking base st0 g0 held st g d ch -> fits path ->
    ends held l (lenZ (path_array path)) (avail st) (resolves st0 g0 (O_NOFOLLOW fl) l (path_array path) ch)
      ('(st, k, r) ← recur (Some d) path false fl (Z.of_nat l) mo st;
       match r with Err err => Some (st, k, Err err) | Ok (d, _) => d ← d; Some (st, k, Ok d) end).

(** Where a walk is, seen from the beginning. *)
Lemma walking_link held st g d ch e n x : (forall k, 0 <= held k) -> walking base st0 g0 held st g d ch -> dentries st !! d = Some e -> inode e = Some n -> nodes st !! n = Some x ->
  attr_at st0 ch (attr_of x) /\ inode_at ch = Some n /\ (link_at st0 ch <-> ifmt (mode x) = S_IFLNK) /\
  (ifmt (mode x) = S_IFLNK -> exists p, parent e = Some p /\ chain_of st p (tail ch) /\ p ∈ live g).
Proof.
  intros Hh Hw He Hn Hx. pose proof (walking_live base st0 g0 Hb0 Hb held st g d ch Hh Hw) as Hd. destruct Hw as [W K Ho Hc].
  destruct (chain_head st d e n ch Hc He Hn) as (Hhd & Ht).
  assert (Hax : attrs_of st0 !! n = Some (attr_of x)) by (rewrite <- (kept_attrs _ _ _ _ _ K); unfold attrs_of; by rewrite lookup_fmap, Hx).
  conjs.
  - exists (name e), n, (mount_point e). done.
  - unfold inode_at. by rewrite Hhd.
  - split.
    + intros (a & (s1 & n1 & m1 & Hh1 & Ha) & Hl). rewrite Hhd in Hh1. injection Hh1 as <- <- <-. rewrite Hax in Ha. injection Ha as <-. done.
    + intros Hl. exists (attr_of x). split; [exists (name e), n, (mount_point e); done|done].
  - intros Hl. destruct (parent e) as [p|] eqn:Ep; [exists p; conjs; try done; by apply (wf_parent _ _ W d e)|].
    destruct (wf_top _ _ W d e Hd He Ep) as (_ & Hx2). rewrite (kept_attrs _ _ _ _ _ K) in Hx2. specialize (Hx2 n (attr_of x) Hn Hax). cbn in Hx2. congruence.
Qed.

Lemma relative_start path p st st1 :
  relative path -> dentry_ref p st = Some st1 ->
  (match path with
   | c :: _ => if c =? SLASH then Some (st, None) else st ← dentry_ref p st; Some (st, Some p)
   | [] => st ← dentry_ref p st; Some (st, Some p)
   end) = Some (st1, Some p).
Proof. intros Hr E1. destruct path as [|c path]; [by rewrite E1|]. cbn in Hr. rewrite (proj2 (Z.eqb_neq _ _)) by done. by rewrite E1. Qed.

Lemma absolute_start path p st :
  ~ relative path ->
  (match path with
   | c :: _ => if c =? SLASH then Some (st, None) else st ← dentry_ref p st; Some (st, Some p)
   | [] => st ← dentry_ref p st; Some (st, Some p)
   end) = Some (st, None).
Proof. destruct path as [|c path]; cbn; [done|]. intros Hc. by rewrite (proj2 (Z.eqb_eq _ _)) by (by apply dec_stable). Qed.

(** A walk that starts at a null entry panics. *)
Definition null_panics (recur : get_fn) : Prop := forall path k st, recur None path false fl k mo st = None.

Lemma follow_links_spec recur : null_panics recur -> forall l fuel held st g d ch, (forall l', (l' < l)%nat -> walks_target recur l') -> (l < fuel)%nat -> (forall k, 0 <= held k) ->
  walking base st0 g0 held st g d ch ->
  ends held l 0 (avail st) (follows st0 g0 (O_NOFOLLOW fl) l ch) (follow_links recur fuel d fl (Z.of_nat l) mo st).
Proof.
  intros Hnull l. induction l as [l IHl] using lt_wf_ind. intros fuel held st g d ch Hrec Hfuel Hh Hw. destruct fuel as [|fuel]; [lia|].
  pose proof (walking_live base st0 g0 Hb0 Hb held st g d ch Hh Hw) as Hd. pose proof Hw as [W K Ho Hc].
  destruct (wf_live _ _ W d Hd) as (e & n & He & Hn). destruct (entry_inode st g d e n W Hd He Hn) as (x & _ & _ & Hx & _).
  destruct (walking_link held st g d ch e n x Hh Hw He Hn Hx) as (Hat & Hin & Hlk & Hpar).
  cbn [follow_links]. rewrite He. cbn [mbind option_bind]. rewrite Hn. cbn [mbind option_bind]. rewrite Hx. cbn [mbind option_bind]. unfold is_type.
  case_bool_decide as El; cbn [negb].
  2:{ cbn. exists g, l, ch. conjs; try done; [apply fl_done; tauto|lia]. }
  destruct l as [|l]; [cbn; exists 0%nat, Exhausted; split; [apply fl_exhausted; tauto|by left]|].
  rewrite (proj2 (Z.ltb_lt _ _)) by lia. cbn [kassert mbind option_bind].
  assert (Hbg : forall k, base k + one d k <= own g k) by (intros k; rewrite Ho; specialize (Hb k); specialize (Hh k); lia).
  destruct (readlink_spec (fun k => base k + one d k) st g n x PATH_MAX W Hbg Hx El) as (m & t & Er & Ht & W1 & K1). rewrite Er. cbn [mbind option_bind].
  assert (Ht0 : fs_target (private st0) n = Some t) by (by rewrite <- (k_private _ _ _ _ _ K)). destruct (Hlinks n t Ht0) as (Hfit & Hlen).
  assert (Etk : takeZ PATH_MAX t = t) by (unfold takeZ; apply take_ge; unfold lenZ in Hlen; lia). rewrite Etk, (proj2 (Z.ltb_lt _ _)) by done. cbn [kassert mbind option_bind].
  destruct (Hpar El) as (p & Ep & Hcp & Hpl). rewrite Ep. cbn [mbind option_bind].
  destruct (decide (relative t)) as [Hrel|Hrel].
  2:{ rewrite (absolute_start t p (set_nodes m st) Hrel). cbn [mbind option_bind]. rewrite Hnull. exists l, Panics. split; [|by right]. apply (fl_absolute _ _ _ l ch n t); try done. tauto. }
  assert (Hpd : pinned (fun k => base k + one d k) st g d) by (constructor; rewrite one_self; specialize (Hb0 d); lia).
  destruct (wf_live _ _ W p Hpl) as (ep & np & Hep & _).
  destruct (dentry_ref_spec base (set_nodes m st) g p ep) as (st2 & E2 & W2 & K2 & _ & Ha2); try done.
  { intros k. specialize (Hbg k). pose proof (one_nonneg d k). lia. }
  { destruct (ref_nonneg st g p ep W Hpl Hep) as (Hr & _). pose proof (kids_pos st g p d e Hd He Ep). pose proof (wf_own _ _ W p). lia. }
  rewrite (relative_start t p (set_nodes m st) st2 Hrel E2). cbn [mbind option_bind].
  replace (Z.of_nat (S l) - 1) with (Z.of_nat l) by lia.
  assert (Hh2 : forall k, 0 <= held k + one d k) by (intros k; specialize (Hh k); pose proof (one_nonneg d k); lia).
  assert (Hw2 : walking base st0 g0 (fun k => held k + one d k) st2 (add_own p 1 g) p (tail ch)).
  { split; try done.
    - eapply kept_trans; [exact K|]. eapply kept_trans; [eapply kept_weaken; [|exact K1]|exact K2]. intros k. cbn. pose proof (one_nonneg d k). lia.
    - intros k. cbn. rewrite Ho. unfold one. lia.
    - assert (Hcp1 : chain_of (set_nodes m st) p (tail ch)).
      { apply (kept_chain _ st g (set_nodes m st) g p _ K1); [|done]. by apply (pin_parent _ st g d e). }
      destruct (dentry_ref_spec (fun k => base k + one d k) (set_nodes m st) g p ep) as (st2' & E2' & _ & K2' & _); try done.
      { destruct (ref_nonneg st g p ep W Hpl Hep) as (Hr & _). pose proof (kids_pos st g p d e Hd He Ep). pose proof (wf_own _ _ W p). lia. }
      rewrite E2 in E2'. injection E2' as <-. apply (kept_chain _ _ _ _ _ p _ K2'); [|done].
      apply (pin_parent _ (set_nodes m st) g d e); try done. constructor. rewrite one_self. specialize (Hb0 d). lia. }
  pose proof (Hrec l ltac:(lia) _ st2 _ p (tail ch) t Hh2 Hw2 Hfit) as Hend. rewrite Ha2 in Hend. change (avail (set_nodes m st)) with (avail st) in Hend. destruct Hfit as (Hfit & _).
  destruct (recur (Some p) t false fl (Z.of_nat l) mo st2) as [[[st3 k3] r3]|]; cbn [mbind option_bind] in Hend |- *.
  2:{ destruct Hend as (l' & o & Hres & Ho'). exists l', o. split; [|done]. apply (fl_err _ _ _ l ch n t l'); try done; [tauto|]. by destruct Ho' as [->| ->]. }
  destruct r3 as [[[d3|] nm3]|err3]; cbn [mbind option_bind] in Hend |- *.
  - destruct Hend as (g3 & l3 & ch3 & -> & Hl3 & Hw3 & Hres3 & Ha3). destruct (release_held base st0 g0 Hb0 Hb held d st3 g3 d3 ch3 Hh Hw3) as (st4 & g4 & E4 & Hw4 & Ha4).
    rewrite E4. cbn [mbind option_bind]. pose proof (IHl l3 ltac:(lia) fuel held st4 g4 d3 ch3 ltac:(intros; apply Hrec; lia) ltac:(lia) Hh Hw4) as Hend.
    unfold ends in *. destruct (follow_links recur fuel d3 fl (Z.of_nat l3) mo st4) as [[[st5 k5] [d5|err5]]|].
    + destruct Hend as (g5 & l5 & ch5 & -> & ? & Hw5 & Hf5 & Ha5). exists g5, l5, ch5. conjs; try done; [lia| |lia]. apply (fl_follow _ _ _ l ch n t l3 ch3); try done. tauto.
    + destruct Hend as (g5 & l5 & Hs5 & Hf5). exists g5, l5. split; [done|]. destruct Hf5 as [(-> & Ha5)|Hf5]; [left; split; [done|lia]|]. right. apply (fl_follow _ _ _ l ch n t l3 ch3); try done. tauto.
    + destruct Hend as (l5 & o5 & Hf5 & Ho5). exists l5, o5. split; [|done]. apply (fl_follow _ _ _ l ch n t l3 ch3); try done. tauto.
  - destruct Hend as (l' & o & Hres & Ho'). exists l', o. split; [|done]. apply (fl_err _ _ _ l ch n t l'); try done; [tauto|]. by destruct Ho' as [->| ->].
  - destruct Hend as (g3 & l3 & Hs3 & Hres3). destruct (release_stopped base st0 g0 Hb0 Hb held d st3 g3 Hh Hs3) as (st4 & g4 & E4 & Hs4). rewrite E4. cbn [mbind option_bind].
    exists g4, l3. split; [done|]. destruct Hres3 as [(-> & Ha3)|Hres3]; [left; split; [done|lia]|]. right. apply (fl_err _ _ _ l ch n t l3); try done. tauto.
Qed.

(** What walking along the components gives. *)
Lemma ends_weaken held l l' b b' a a' (R R' : nat -> outcome -> Prop) r : ends held l b a R r -> (l <= l')%nat ->
  a' + b + 128 * Z.of_nat l <= a + b' + 128 * Z.of_nat l' -> (forall k o, R k o -> R' k o) -> ends held l' b' a' R' r.
Proof.
  intros He Hl Ha HR. destruct r as [[[st k] [d|err]]|]; cbn in *.
  - destruct He as (g & l1 & ch & ? & ? & ? & ? & ?). exists g, l1, ch. conjs; try done; [lia|auto|lia].
  - destruct He as (g & l1 & ? & [(-> & ?)|]); exists g, l1; split; try done; [left; split; [done|lia]|auto].
  - destruct He as (l1 & o & ? & ?). eauto.
Qed.

Definition forget (r : option (state F * Z * bool * res Z)) : option (state F * Z * res Z) := '(st, k, _, r) ← r; Some (st, k, r).

Lemma walk_spec recur create : null_panics recur -> forall comps l held created st g d ch, (forall l', (l' < l)%nat -> walks_target recur l') -> Forall (fun s => lenZ s < 256) comps ->
  (forall k, 0 <= held k) -> walking base st0 g0 held st g d ch ->
  ends held l (lenZ comps) (avail st) (resolves st0 g0 (O_NOFOLLOW fl) l comps ch) (forget (walk recur create comps created d fl (Z.of_nat l) mo st)).
Proof.
  intros Hnull comps. induction comps as [|s comps IH]; intros l held created st g d ch Hrec Hlen Hh Hw.
  { cbn. exists g, l, ch. conjs; try done; [apply rs_nil|unfold lenZ; cbn [length]; lia]. }
  rewrite lenZ_cons. pose proof (lenZ_nonneg comps) as Hcl. apply Forall_cons in Hlen as (Hs & Hlen). cbn [walk]. unfold walk_create.
  destruct (lookup_walk base st0 g0 W0 Hb0 Hb held st g d ch s Hh Hw Hs) as (st1 & r & st2 & g2 & E1 & E2 & Hr). rewrite E1. cbn [mbind option_bind].
  destruct r as [c|err].
  2:{ rewrite Hcreat, orb_true_r. cbn [mbind option_bind]. rewrite E2. cbn. destruct Hr as (Hst & Hr). exists g2, l. split; [done|].
      destruct Hr as [(-> & Ha)|Hr]; [left; split; [done|lia]|right]. by constructor. }
  cbn [mbind option_bind]. rewrite E2. cbn [mbind option_bind]. destruct Hr as (ch1 & Hw1 & Hst1 & Ha1).
  destruct (O_NOFOLLOW fl && match comps with [] => true | _ => false end) eqn:Enf.
  { apply andb_prop in Enf as (Enf & Ec). destruct comps; [|done]. cbn. exists g2, l, ch1. conjs; try done; [by constructor|cbn in Hcl; lia]. }
  assert (Hnl : O_NOFOLLOW fl = true -> comps <> []) by (intros Hn ->; by rewrite Hn in Enf).
  pose proof (follow_links_spec recur Hnull l (S (Z.to_nat (Z.of_nat l))) held st2 g2 c ch1 Hrec ltac:(lia) Hh Hw1) as Hend.
  destruct (follow_links recur (S (Z.to_nat (Z.of_nat l))) c fl (Z.of_nat l) mo st2) as [[[st3 k3] [d3|err3]]|]; cbn [mbind option_bind] in Hend |- *.
  - destruct Hend as (g3 & l3 & ch3 & -> & Hl3 & Hw3 & Hf3 & Ha3).
    apply (ends_weaken held l3 l (lenZ comps) _ (avail st3) _ (resolves st0 g0 (O_NOFOLLOW fl) l3 comps ch3)); [|done|lia|].
    + apply (IH l3 held _ st3 g3 d3 ch3); try done. intros l' Hl'. apply Hrec. lia.
    + intros k o Ho. by apply (rs_step _ _ _ l s comps ch ch1 l3 ch3).
  - cbn. destruct Hend as (g3 & l3 & Hs3 & Hf3). exists g3, l3. split; [done|]. destruct Hf3 as [(-> & Ha3)|Hf3]; [left; split; [done|lia]|right]. by apply (rs_link_err _ _ _ l s comps ch ch1).
  - cbn. destruct Hend as (l3 & o3 & Hf3 & Ho3). exists l3, o3. split; [|done]. apply (rs_link_err _ _ _ l s comps ch ch1); try done. by destruct Ho3 as [->| ->].
Qed.

Lemma recur_null fuel : null_panics (vfs_get_dentry_at_recur fuel).
Proof.
  intros path k st. destruct fuel as [|fuel]; [done|]. cbn [vfs_get_dentry_at_recur]. unfold get_dentry_step, parse_path. cbv zeta.
  destruct (lenZ (path_array path) <=? 128); [|done]. cbn [kassert mbind option_bind]. by destruct (path_array path).
Qed.

(** The recursion: the fuel is enough when it is more than the links that are left. *)
Lemma recur_spec : forall fuel l, (l < fuel)%nat -> walks_target (vfs_get_dentry_at_recur fuel) l.
Proof.
  intros fuel. induction fuel as [|fuel IH]; intros l Hl; [lia|]. intros held st g d ch path Hh Hw (Hfit & Hlen).
  cbn [vfs_get_dentry_at_recur]. unfold get_dentry_step, parse_path. cbv zeta. rewrite (proj2 (Z.leb_le _ _)) by done. cbn [kassert mbind option_bind].
  pose proof (walk_spec (vfs_get_dentry_at_recur fuel) (fun p s m => create_with (vfs_get_dentry_at_recur fuel) (Some p) s m) (recur_null fuel) (path_array path) l held false st g d ch) as Hend.
  specialize (Hend ltac:(intros; apply IH; lia) Hlen Hh Hw).
  destruct (walk _ _ (path_array path) false d fl (Z.of_nat l) mo st) as [[[[st1 k1] b1] [d1|err1]]|]; cbn [forget mbind option_bind] in Hend |- *; try done.
  rewrite Hexcl, andb_false_r. cbn [mbind option_bind]. done.
Qed.

End walk.

(** ** A path has one meaning *)

Lemma attr_at_fun st ch a b : attr_at st ch a -> attr_at st ch b -> a = b.
Proof. intros (s & n & m & H1 & H2) (s' & n' & m' & H3 & H4). rewrite H1 in H3. injection H3 as <- <- <-. congruence. Qed.

Lemma covered_fun st g ch s c1 c2 : wf st g -> covered st g ch s c1 -> covered st g ch s c2 -> c1 = c2.
Proof.
  intros W (m1 & mp1 & k1 & q1 & t1 & Hm1 & Hl1 & Hk1 & Hs1 & Hf1 & Hn1 & Hp1 & Hc1 & Ht1 & Hct1) (m2 & mp2 & k2 & q2 & t2 & Hm2 & Hl2 & Hk2 & Hs2 & Hf2 & Hn2 & Hp2 & Hc2 & Ht2 & Hct2).
  assert (q2 = q1) as -> by (apply (chain_inj st g W ch); try done; [by apply (wf_parent _ _ W _ k2 q2 Hl2)|by apply (wf_parent _ _ W _ k1 q1 Hl1)]).
  pose proof (wf_parent _ _ W _ k1 q1 Hl1 Hk1 Hp1) as Hq. destruct (wf_live _ _ W q1 Hq) as (eq & n & Heq & _).
  assert (Es : m_shadow mp2 = m_shadow mp1).
  { apply (wf_names _ _ W q1 eq _ _ k2 k1 Hq Heq); try done; try congruence; apply (wf_children _ _ W q1 eq _ Hq Heq); split; try done; eauto. }
  rewrite Es, Ht1 in Ht2. injection Ht2 as <-. by apply (chain_fun st t1).
Qed.

Lemma steps_fun st g ch s r1 r2 : wf st g -> steps st g ch s r1 -> steps st g ch s r2 -> r1 = r2.
Proof.
  intros W H1 H2. inversion H1; subst; inversion H2; subst; try done;
    repeat match goal with
    | A : attr_at st ch ?a, B : attr_at st ch ?b |- _ => assert_fails (constr_eq a b); assert (b = a) by (by apply (attr_at_fun st ch)); subst b
    end; try done; try congruence.
  - exfalso. naive_solver.
  - exfalso. naive_solver.
  - f_equal. by apply (covered_fun st g ch s).
Qed.

Scheme resolves_mind := Induction for resolves Sort Prop
  with follows_mind := Induction for follows Sort Prop.

Ltac same_step W :=
  repeat match goal with
  | A : steps ?st ?g ?ch ?s ?a, B : steps ?st ?g ?ch ?s ?b |- _ =>
      let E := fresh "E" in pose proof (steps_fun st g ch s a b W A B) as E; clear B; first [discriminate E|injection E as E; subst]
  end.

(** The cases in which an entry is a link with the same target. *)
Ltac by_link H2 :=
  inversion H2 as [? ? HlX|? HlX|? ? nX tX HlX HnX HtX HabsX|? ? nX tX lX chX lY oY HlX HnX HtX HrelX HrX HfX|? ? nX tX lX oX HlX HnX HtX HrelX HrX HoX]; subst; try done;
  repeat match goal with
  | A : inode_at ?ch = Some ?a, B : inode_at ?ch = Some ?b |- _ => assert_fails (constr_eq a b); assert (b = a) by congruence; subst b
  | A : fs_target ?p ?n = Some ?a, B : fs_target ?p ?n = Some ?b |- _ => assert_fails (constr_eq a b); assert (b = a) by congruence; subst b
  end; try done.

Lemma resolves_fun st g nf l comps ch l1 o1 : wf st g -> resolves st g nf l comps ch l1 o1 -> forall l2 o2, resolves st g nf l comps ch l2 o2 -> l1 = l2 /\ o1 = o2.
Proof.
  intros W H1.
  induction H1 as [l ch|l s comps ch err Hs|l s ch ch1 Hs Hnf|l s comps ch ch1 la ch2 l' o Hs Hnf _ IHf _ IHr|l s comps ch ch1 la o Hs Hnf _ IHf Ho|l ch Hl|ch Hl|l ch n t Hl Hn Ht Hrel|l ch n t la ch1 l' o Hl Hn Ht Hrel _ IHr _ IHf|l ch n t la o Hl Hn Ht Hrel _ IHr Ho]
    using resolves_mind with (P0 := fun l ch l1 o1 _ => forall l2 o2, follows st g nf l ch l2 o2 -> l1 = l2 /\ o1 = o2); intros l2 o2 H2.
  - by inversion H2.
  - inversion H2; subst; same_step W; done.
  - inversion H2; subst; same_step W; try done; match goal with A : true = true -> [] <> [] |- _ => by destruct (A eq_refl) end.
  - inversion H2 as [|? ? ? ? errX HsX|? ? ? chX HsX HnX|? ? ? ? chX lX chY lY oY HsX HnX HfX HrX|? ? ? ? chX lX oX HsX HnX HfX HoX]; subst; same_step W.
    + by destruct Hnf.
    + destruct (IHf _ _ HfX) as (<- & [= <-]). by apply IHr.
    + destruct (IHf _ _ HfX) as (<- & <-). by destruct (HoX ch2).
  - inversion H2 as [|? ? ? ? errX HsX|? ? ? chX HsX HnX|? ? ? ? chX lX chY lY oY HsX HnX HfX HrX|? ? ? ? chX lX oX HsX HnX HfX HoX]; subst; same_step W.
    + by destruct Hnf.
    + destruct (IHf _ _ HfX) as (<- & ->). by destruct (Ho chY).
    + by apply IHf.
  - inversion H2; subst; done.
  - inversion H2; subst; done.
  - by_link H2.
  - by_link H2.
    + destruct (IHr _ _ HrX) as (<- & [= <-]). by apply IHf.
    + destruct (IHr _ _ HrX) as (<- & <-). by destruct (HoX ch1).
  - by_link H2.
    + destruct (IHr _ _ HrX) as (<- & ->). by destruct (Ho chX).
    + by apply IHr.
Qed.

(** ** The walk along a path *)

(** The links of a file system whose targets fit the arrays of the walk. *)
Definition links_fit `{Limits} (p : F) : Prop := forall n t, fs_target p n = Some t -> fits t /\ lenZ t < PATH_MAX.

Lemma get_start_ref at_ path st st1 d : get_start at_ path st = Some (st1, d) -> dentry_ref d st = Some st1.
Proof.
  unfold get_start. cbv zeta. match goal with |- context [dentry_ref ?x st] => generalize x end. intros x.
  destruct (dentry_ref x st) as [s|] eqn:Es; [|done]. cbn. by intros [= <- <-].
Qed.

(** What a walk promises: the caller has one more reference, to the entry at the position the path
    means; nothing else changed but what is cached. *)
Definition walk_result st g (nf : bool) (l : nat) (comps : list (list Z)) ch (r : option (state F * res Z)) : Prop :=
  match r with
  | Some (st', Ok c) => exists g' l' ch', wf st' g' /\ kept (own g) st g st' g' /\ (forall k, own g' k = own g k + one c k) /\ chain_of st' c ch' /\
      resolves st g nf l comps ch l' (Reached ch')
  | Some (st', Err err) => exists g', wf st' g' /\ kept (own g) st g st' g' /\ (forall k, own g' k = own g k) /\
      (err = ENOMEM /\ avail st < lenZ comps + 128 * Z.of_nat l \/ exists l', resolves st g nf l comps ch l' (Failed err))
  | None => exists l' o, resolves st g nf l comps ch l' o /\ (o = Exhausted \/ o = Panics)
  end.

Lemma start_walking `{Limits} st g d ch st1 : wf st g -> dentry_ref d st = Some st1 -> 1 <= own g d -> chain_of st d ch ->
  exists g1, walking (own g) st g (fun _ => 0) st1 g1 d ch /\ avail st1 = avail st.
Proof.
  intros W E1 Ho Hc. assert (Hd : d ∈ live g) by (by apply (wf_own _ _ W)). destruct (wf_live _ _ W d Hd) as (e & n & He & _).
  destruct (dentry_ref_spec (own g) st g d e) as (st2 & E2 & W2 & K2 & _ & Ha2); try done.
  { destruct (ref_nonneg st g d e W Hd He) as (Hr & _). pose proof (cnt_nonneg (is_parent d) (dentries st) (live g)) as Hk. unfold kids in Hr. lia. }
  rewrite E1 in E2. injection E2 as <-. exists (add_own d 1 g). split; [|exact Ha2]. split; try done.
  - intros k. cbn. unfold one. lia.
  - apply (kept_chain _ _ _ _ _ d ch K2); [|done]. by constructor.
Qed.

Lemma get_dentry_spec `{LM : Limits} at_ path fl m st g st1 d ch : wf st g -> links_fit (private st) -> O_CREAT fl = false -> O_EXCL fl = false -> fits path ->
  get_start at_ path st = Some (st1, d) -> 1 <= own g d -> chain_of st d ch -> 0 <= SYMLOOP_MAX ->
  walk_result st g (O_NOFOLLOW fl) (Z.to_nat SYMLOOP_MAX) (path_array path) ch (vfs_get_dentry_at at_ path fl m st).
Proof.
  intros W Hl Hcr Hex Hfit Es Ho Hc Hmax. destruct (start_walking st g d ch st1 W (get_start_ref _ _ _ _ _ Es) Ho Hc) as (g1 & Hw & Ha).
  assert (Hb0 : forall c, 0 <= own g c) by (intros; apply (wf_own _ _ W)).
  pose proof (recur_spec (own g) st g W Hb0 ltac:(done) Hl fl Hcr Hex m get_fuel (Z.to_nat SYMLOOP_MAX) ltac:(unfold get_fuel; lia) (fun _ => 0) st1 g1 d ch path ltac:(done) Hw Hfit) as Hend.
  rewrite Z2Nat.id, Ha in Hend by done.
  unfold vfs_get_dentry_at, vfs_get_dentry_parent_at, get_parent_with. rewrite Es. cbn [mbind option_bind].
  destruct (vfs_get_dentry_at_recur get_fuel (Some d) path false fl SYMLOOP_MAX m st1) as [[[st2 k2] [[[c|] nm]|err]]|]; cbn [mbind option_bind] in Hend |- *; cbn in Hend |- *.
  - destruct Hend as (g2 & l2 & ch2 & _ & _ & [W2 K2 Ho2 Hc2] & Hr & _). exists g2, l2, ch2. conjs; try done. intros k. rewrite Ho2. lia.
  - done.
  - destruct Hend as (g2 & l2 & [W2 K2 Ho2] & Hr). exists g2. conjs; try done; [intros k; rewrite Ho2; lia|]. rewrite ?Z2Nat.id in * by done. naive_solver.
  - done.
Qed.

(** ** The path of an entry *)

Lemma chain_size st d ch : chain_of st d ch -> (length ch <= size (dentries st))%nat.
Proof.
  intros Hc. assert (Hx : exists L : gset Z, L ⊆ dom (dentries st) /\ size L = length ch /\ forall k, k ∈ L -> exists c, chain_of st k c /\ (length c <= length ch)%nat).
  { induction Hc as [d e n He Hp Hi|d e n p ch He Hp Hi Hc (L & H1 & H2 & H3)].
    - exists {[d]}. conjs; [apply singleton_subseteq_l, elem_of_dom; eauto|by rewrite size_singleton|].
      intros k ->%elem_of_singleton. eexists. split; [by apply (chain_root st d e n)|done].
    - assert (Hcd : chain_of st d ((name e, n, mount_point e) :: ch)) by (by apply (chain_step st d e n p)). exists ({[d]} ∪ L). conjs.
      + apply union_subseteq. split; [apply singleton_subseteq_l, elem_of_dom; eauto|done].
      + assert (d ∉ L). { intros Hd. destruct (H3 d Hd) as (c & Hcc & Hl). rewrite (chain_fun _ _ _ Hcc _ Hcd) in Hl. cbn in Hl. lia. }
        rewrite size_union by set_solver. rewrite size_singleton, H2. done.
      + intros k [->%elem_of_singleton|Hk]%elem_of_union; [eauto|]. destruct (H3 k Hk) as (c & Hcc & Hl). exists c. split; [done|]. cbn. lia. }
  destruct Hx as (L & H1 & H2 & _). rewrite <- H2. apply subseteq_size in H1. by rewrite size_dom in H1.
Qed.

(** An entry that nothing is mounted on, or the topmost mount on the place of a child of [p]. *)
Definition on_top st g (d : Z) e (p : Z) : Prop :=
  flags e = 0 /\ shadow_mount_point e = None \/
  exists m mp k, mounts st !! m = Some mp /\ m_shadow mp ∈ live g /\ dentries st !! m_shadow mp = Some k /\ shadow_mount_point k = Some m /\
    flags k = 0 /\ name k = name e /\ parent k = Some p /\ vfs_dentry_follow_mount_points (m_shadow mp) st = Some d.

Definition searchable st (p : Z) : Prop := exists q n a, dentries st !! p = Some q /\ inode q = Some n /\ attrs_of st !! n = Some a /\ can_search a = true.

(** [visible st g top d names]: the entry is reached from [top] by these names, with no mount in the
    way and with permission to search the directories. *)
Inductive visible st g (top : Z) : Z -> list (list Z) -> Prop :=
  | vis_top : visible st g top top []
  | vis_child d e p names : visible st g top p names -> d <> top -> d ∈ live g -> dentries st !! d = Some e -> parent e = Some p ->
      good_name (name e) -> name e <> [DOT] -> name e <> [DOT; DOT] -> on_top st g d e p -> searchable st p -> visible st g top d (names ++ [name e]).

Lemma visible_steps st g d e p ch chp : wf st g -> d ∈ live g -> dentries st !! d = Some e -> parent e = Some p -> name e <> [DOT] -> name e <> [DOT; DOT] ->
  on_top st g d e p -> searchable st p -> chain_of st d ch -> chain_of st p chp ->
  steps st g chp (name e) (Ok ch) /\ ~ link_at st chp.
Proof.
  intros W Hd He Hp Hn1 Hn2 Htop (q & n & a & Hq & Hn & Ha & Hs) Hc Hcp.
  pose proof (wf_parent _ _ W d e p Hd He Hp) as Hpl. pose proof (wf_parent_dir _ _ W d e p q n a Hd He Hp Hq Hn Ha) as Hdir.
  destruct (chain_head st p q n chp Hcp Hq Hn) as (Hh & _). assert (Hat : attr_at st chp a) by (exists (name q), n, (mount_point q); done).
  assert (Hin : inode_at chp = Some n) by (unfold inode_at; by rewrite Hh).
  split; [|intros (b & Hb & Hl); rewrite (attr_at_fun st chp b a Hb Hat), Hdir in Hl; done].
  destruct Htop as [(Hf & Hsh)|(m & mp & k & Hm & Hl & Hk & Hks & Hkf & Hkn & Hkp & Hfo)].
  - assert (Hch : d ∈ children q) by (apply (wf_children _ _ W p q d Hpl Hq); eauto 6).
    destruct (wf_live _ _ W d Hd) as (e' & i & He' & Hi). assert (e' = e) as -> by congruence.
    pose proof (wf_entry _ _ W p q n d e Hpl Hq Hn Hch He) as Hen. rewrite Hi in Hen.
    assert (Ech : ch = (name e, i, mount_at chp) :: chp).
    { inversion Hc as [? e1 n1 He1 Hp1 Hi1|? e1 n1 p1 ch1 He1 Hp1 Hi1 Hc1]; subst; [congruence|]. assert (e1 = e) as -> by congruence. assert (n1 = i) as -> by congruence. assert (p1 = p) as -> by congruence.
      rewrite (chain_fun _ _ _ Hc1 _ Hcp). unfold mount_at. rewrite Hh. cbn. by rewrite (wf_same_mount _ _ W d e p q Hd He Hp Hf Hq). }
    rewrite Ech. apply (st_child st g chp (name e) a n i); try done.
    intros ch' (m & mp & k & q' & t & Hm & Hl & Hk & Hks & Hkf & Hkn & Hkp & Hcq & _).
    assert (q' = p) as ->. { apply (chain_inj st g W chp); try done. by apply (wf_parent _ _ W _ k q' Hl). }
    assert (Esd : m_shadow mp = d) by (apply (wf_names _ _ W p q _ _ k e Hpl Hq); try done; apply (wf_children _ _ W p q _ Hpl Hq); eauto 6).
    rewrite Esd in Hk. congruence.
  - assert (Hch : m_shadow mp ∈ children q) by (apply (wf_children _ _ W p q _ Hpl Hq); eauto 6).
    destruct (wf_live _ _ W _ Hl) as (k' & i & Hk' & Hi). assert (k' = k) as -> by congruence.
    pose proof (wf_entry _ _ W p q n _ k Hpl Hq Hn Hch Hk) as Hen. rewrite Hi, Hkn in Hen.
    apply (st_covered st g chp (name e) a n i ch); try done. by exists m, mp, k, p, d.
Qed.

Lemma visible_live st g top d names : wf st g -> top ∈ live g -> visible st g top d names -> d ∈ live g.
Proof. intros W Ht Hv. by destruct Hv. Qed.

(** The names lead to the entry. *)
Lemma visible_walk st g nf top d names : wf st g -> top ∈ live g -> visible st g top d names -> forall ch ch0, chain_of st d ch -> chain_of st top ch0 -> ~ link_at st ch ->
  forall l rest l' o, resolves st g nf l rest ch l' o -> resolves st g nf l (names ++ rest) ch0 l' o.
Proof.
  intros W Ht Hv. induction Hv as [|d e p names Hv IH Hne Hd He Hp Hg Hn1 Hn2 Htop Hs]; intros ch ch0 Hc Hc0 Hnl l rest l' o Hr.
  - rewrite (chain_fun _ _ _ Hc0 _ Hc). done.
  - destruct (wf_chain _ _ W p (visible_live st g top p names W Ht Hv)) as (chp & Hcp).
    destruct (visible_steps st g d e p ch chp) as (Hst & Hpl); try done.
    rewrite <- app_assoc. apply (IH chp ch0 Hcp Hc0 Hpl). cbn.
    assert (Hdec : nf = true /\ rest = [] \/ (nf = true -> rest <> [])) by (destruct nf, rest; naive_solver).
    destruct Hdec as [(-> & ->)|Hdec].
    + inversion Hr; subst. by constructor.
    + apply (rs_step _ _ _ l (name e) rest chp ch l ch l' o); try done. by constructor.
Qed.

Lemma visible_resolves st g nf top d names l ch ch0 : wf st g -> top ∈ live g -> visible st g top d names -> chain_of st d ch -> chain_of st top ch0 ->
  nf = true \/ ~ link_at st ch -> resolves st g nf l names ch0 l (Reached ch).
Proof.
  intros W Ht Hv Hc Hc0 Hnl. destruct Hv as [|d e p names Hv Hne Hd He Hp Hg Hn1 Hn2 Htop Hs].
  - rewrite (chain_fun _ _ _ Hc0 _ Hc). constructor.
  - destruct (wf_chain _ _ W p (visible_live st g top p names W Ht Hv)) as (chp & Hcp).
    destruct (visible_steps st g d e p ch chp) as (Hst & Hpl); try done.
    apply (visible_walk st g nf top p names W Ht Hv chp ch0 Hcp Hc0 Hpl). destruct nf; [by constructor|].
    apply (rs_step _ _ _ l (name e) [] chp ch l ch l); try done; [|constructor]. constructor. by destruct Hnl.
Qed.

Lemma join_snoc names s : join (names ++ [s]) = join names ++ SLASH :: s.
Proof. unfold join. rewrite map_app, concat_app. cbn. by rewrite app_nil_r. Qed.

Lemma path_loop_spec st g top d names : wf st g -> visible st g top d names -> forall fuel i acc, lenZ (join names) <= i -> (length names <= fuel)%nat ->
  path_loop fuel (Some d) top i acc st = Some (Some top, join names ++ acc).
Proof.
  intros W Hv. induction Hv as [|d e p names Hv IH Hne Hd He Hp Hg Hn1 Hn2 Htop Hs]; intros fuel i acc Hi Hf.
  - destruct fuel; cbn; by rewrite Z.eqb_refl.
  - rewrite length_app in Hf. cbn in Hf. destruct fuel as [|fuel]; [lia|]. rewrite join_snoc in Hi |- *. unfold lenZ in Hi. rewrite length_app in Hi. cbn [length] in Hi.
    cbn [path_loop]. rewrite (proj2 (Z.eqb_neq _ _)) by done. rewrite He. cbn [mbind option_bind]. unfold lenZ. rewrite (proj2 (Z.leb_le _ _)) by lia. cbn [kassert mbind option_bind].
    rewrite Hp, IH by (unfold lenZ; lia). by rewrite <- app_assoc.
Qed.

Lemma visible_depth st g top d names : wf st g -> visible st g top d names -> forall ch, chain_of st d ch -> (length names < length ch)%nat.
Proof.
  intros W Hv. induction Hv as [|d e p names Hv IH Hne Hd He Hp Hg Hn1 Hn2 Htop Hs]; intros ch Hc.
  - pose proof (chain_nonempty _ _ _ Hc). destruct ch; [done|]. cbn. lia.
  - inversion Hc as [? e1 n1 He1 Hp1 Hi1|? e1 n1 p1 ch1 He1 Hp1 Hi1 Hc1]; subst; [congruence|]. assert (p1 = p) as -> by congruence.
    specialize (IH ch1 Hc1). rewrite length_app. cbn. lia.
Qed.

(** The root that the current process sees. *)
Definition top_of st : Z := match proc_context st with Some c => c_root c | None => root st end.

Definition printed (names : list (list Z)) : list Z := match names with [] => [SLASH] | _ => join names end.

Lemma printed_array names : Forall good_name names -> path_array (printed names) = names.
Proof. intros Hn. destruct names; [done|]. by apply path_array_join. Qed.

Lemma visible_good st g top d names : visible st g top d names -> Forall good_name names.
Proof. induction 1; [done|]. apply Forall_app. split; [done|]. by apply Forall_singleton. Qed.

Lemma dentry_path_spec `{LM : Limits} st g d names : wf st g -> d ∈ live g -> visible st g (top_of st) d names -> lenZ (join names) < PATH_MAX ->
  vfs_dentry_path d st = Some (printed names).
Proof.
  intros W Hd Hv Hlen. unfold vfs_dentry_path. destruct (wf_live _ _ W d Hd) as (e & n & He & _). rewrite He. cbn [mbind option_bind].
  destruct (wf_chain _ _ W d Hd) as (ch & Hc). pose proof (chain_size st d ch Hc). pose proof (visible_depth st g _ d names W Hv ch Hc).
  rewrite (path_loop_spec st g (top_of st) d names W Hv) by lia. cbn [mbind option_bind].
  assert (Hfl : has (flags e) VFS_DENTRY_FLAG_UNLINKED = false) by (destruct (wf_flags _ _ W d e Hd He) as [->|(-> & _)]; done). rewrite Hfl.
  fold (top_of st). rewrite bool_decide_eq_true_2 by done. rewrite app_nil_r. f_equal. destruct names as [|s names]; done.
Qed.

Lemma dentry_path_leads_back `{LM : Limits} fl m st g d names ch : wf st g -> links_fit (private st) -> O_CREAT fl = false -> O_EXCL fl = false -> 0 <= SYMLOOP_MAX ->
  1 <= own g (top_of st) -> 1 <= own g d -> visible st g (top_of st) d names -> chain_of st d ch -> O_NOFOLLOW fl = true \/ ~ link_at st ch ->
  lenZ names <= 128 -> Forall (fun s => lenZ s < 256) names ->
  exists st' r, vfs_get_dentry_at None (printed names) fl m st = Some (st', r) /\
    (r = Ok d /\ (exists g', wf st' g' /\ kept (own g) st g st' g' /\ forall k, own g' k = own g k + one d k) \/
     r = Err ENOMEM /\ avail st < lenZ names + 128 * SYMLOOP_MAX).
Proof.
  intros W Hl Hcr Hex Hmax Ht Ho Hv Hc Hnl H128 H256. assert (Htl : top_of st ∈ live g) by (by apply (wf_own _ _ W)). assert (Hdl : d ∈ live g) by (by apply (wf_own _ _ W)).
  pose proof (printed_array names (visible_good _ _ _ _ _ Hv)) as Epa. destruct (wf_chain _ _ W _ Htl) as (ch0 & Hc0). destruct (wf_live _ _ W _ Htl) as (e & n & He & _).
  destruct (dentry_ref_spec (own g) st g (top_of st) e) as (st1 & E1 & _); try done.
  { destruct (ref_nonneg st g _ e W Htl He) as (Hr & _). pose proof (cnt_nonneg (is_parent (top_of st)) (dentries st) (live g)) as Hk. unfold kids in Hr. lia. }
  assert (Es : get_start None (printed names) st = Some (st1, top_of st)).
  { unfold get_start. cbv zeta. assert (Hp : exists rest, printed names = SLASH :: rest) by (destruct names; cbn; eauto). destruct Hp as (rest & ->).
    rewrite Z.eqb_refl. fold (top_of st). by rewrite E1. }
  pose proof (get_dentry_spec None (printed names) fl m st g st1 (top_of st) ch0 W Hl Hcr Hex ltac:(unfold fits; by rewrite Epa) Es Ht Hc0 Hmax) as Hres.
  rewrite Epa in Hres. pose proof (visible_resolves st g (O_NOFOLLOW fl) (top_of st) d names (Z.to_nat SYMLOOP_MAX) ch ch0 W Htl Hv Hc Hc0 Hnl) as Hwant.
  destruct (vfs_get_dentry_at None (printed names) fl m st) as [[st' [c|err]]|]; cbn in Hres.
  - destruct Hres as (g' & l' & ch' & W' & K' & Ho' & Hc' & Hr). destruct (resolves_fun _ _ _ _ _ _ _ _ W Hr _ _ Hwant) as (_ & [= ->]).
    exists st', (Ok c). split; [done|]. left. assert (Hpd : pinned (own g) st g d) by (by constructor).
    assert (c = d) as ->; [|split; [done|by exists g']]. apply (chain_inj st' g' W' ch); try done.
    + apply (wf_own _ _ W'). rewrite Ho', one_self. pose proof (wf_own _ _ W c). lia.
    + by apply (k_pinned _ _ _ _ _ K').
    + by apply (kept_chain _ _ _ _ _ d ch K').
  - destruct Hres as (g' & W' & K' & Ho' & [(-> & Ha)|(l' & Hr)]); [rewrite Z2Nat.id in Ha by done; eauto 6|]. by destruct (resolves_fun _ _ _ _ _ _ _ _ W Hr _ _ Hwant).
  - destruct Hres as (l' & o & Hr & Ho'). destruct (resolves_fun _ _ _ _ _ _ _ _ W Hr _ _ Hwant) as (_ & ->). by destruct Ho'.
Qed.

(** C11: walking along a path refines the meaning of paths.  Hypotheses: the state is well formed ([wf]; the
    cache agrees with the file system, which keeps its laws [FsLaws] and so has no errors of its own); the
    flags ask neither for the creation of a file nor for its being new; the path, and every link of the file
    system, has at most 128 components of fewer than 256 bytes, and the targets of links are shorter than
    PATH_MAX (the code checks none of this); the caller holds the entry where the path starts.
    Then [vfs_get_dentry_at] returns the entry at the position where the components lead -- through the
    directories of the file system, the mounts, the parents and the links, with the permissions of each
    directory -- or the error of the first component that has none.  ENOMEM comes back only when fewer
    entries can still be allocated than the path has components plus 128 for each link of the limit.  The
    call fails to return only where the components lead to more links than the limit, or to a link with
    an absolute target, which makes the kernel panic.  A path has one meaning.  The caller gains
    exactly one reference, to the result, and every reference the walk took is given back; nothing else
    changed but what is cached. *)
Theorem vfs_get_dentry_at_correct `{LM : Limits} at_ path fl m st g st1 d ch : wf st g -> links_fit (private st) -> O_CREAT fl = false -> O_EXCL fl = false -> fits path ->
  get_start at_ path st = Some (st1, d) -> 1 <= own g d -> chain_of st d ch -> 0 <= SYMLOOP_MAX ->
  walk_result st g (O_NOFOLLOW fl) (Z.to_nat SYMLOOP_MAX) (path_array path) ch (vfs_get_dentry_at at_ path fl m st) /\
  forall l1 o1 l2 o2, resolves st g (O_NOFOLLOW fl) (Z.to_nat SYMLOOP_MAX) (path_array path) ch l1 o1 ->
    resolves st g (O_NOFOLLOW fl) (Z.to_nat SYMLOOP_MAX) (path_array path) ch l2 o2 -> o1 = o2.
Proof.
  intros W Hl Hcr Hex Hfit Es Ho Hc Hmax. split; [by apply (get_dentry_spec at_ path fl m st g st1 d ch)|].
  intros l1 o1 l2 o2 H1 H2. by destruct (resolves_fun _ _ _ _ _ _ _ _ W H1 _ _ H2).
Qed.

(** C24: the path of an entry leads back to it.  Hypotheses: the state is well formed ([wf], with the laws
    [FsLaws] of the file system); the caller holds the entry and the root of the process; from the root the
    names lead to the entry with no mount in the way and with permission to search each directory
    ([visible]); there are at most 128 names of fewer than 256 bytes, and together with the separators
    they are shorter than PATH_MAX, beyond which the code overruns its buffer; the links of the file system fit the
    arrays of the walk; and the entry is no link, or the lookup does not follow a last one.  Then
    [vfs_dentry_path] prints the names from the root to the entry, each behind a separator, or a single
    separator for the root; and looking up what it printed gives the same entry, to which the caller
    gains one reference, also through mounts.  The lookup fails only with ENOMEM, and only when fewer entries can
    still be allocated than there are names plus 128 for each link of the limit. *)
Theorem vfs_dentry_path_roundtrip `{LM : Limits} fl m st g d names ch : wf st g -> links_fit (private st) -> O_CREAT fl = false -> O_EXCL fl = false -> 0 <= SYMLOOP_MAX ->
  1 <= own g (top_of st) -> 1 <= own g d -> visible st g (top_of st) d names -> chain_of st d ch -> O_NOFOLLOW fl = true \/ ~ link_at st ch ->
  lenZ names <= 128 -> Forall (fun s => lenZ s < 256) names -> lenZ (join names) < PATH_MAX ->
  vfs_dentry_path d st = Some (match names with [] => [SLASH] | _ => join names end) /\
  exists st' r, vfs_get_dentry_at None (match names with [] => [SLASH] | _ => join names end) fl m st = Some (st', r) /\
    (r = Ok d /\ (exists g', wf st' g' /\ kept (own g) st g st' g' /\ forall k, own g' k = own g k + one d k) \/
     r = Err ENOMEM /\ avail st < lenZ names + 128 * SYMLOOP_MAX).
Proof.
  intros W Hl Hcr Hex Hmax Ht Ho Hv Hc Hnl H128 H256 Hlen.
  split; [|by apply (dentry_path_leads_back fl m st g d names ch)].
  apply (dentry_path_spec st g); try done. by apply (wf_own _ _ W).
Qed.

End positions.

Section witness.
Import Tmpfs.Tmpfs TmpfsLaws.TmpfsLaws TmpfsLaws.TmpfsLaws.Example.

Lemma ex_links_fit : links_fit (private ex_state).
Proof.
  intros n t Ht. change (tmpfs_target ex_private n = Some t) in Ht. unfold tmpfs_target in Ht.
  destruct (t_inodes ex_private !! n) as [i|] eqn:Hi; [|done]. cbn in Hi. cases_of Hi; cbn in Ht; try done. injection Ht as <-.
  split; [|done]. split; [done|]. by repeat constructor.
Qed.

(** The link /l of the example: the walk goes to a/f and returns the entry that is held already. *)
Lemma vfs_get_dentry_at_correct_witness : exists st1 ch l' ch', get_start None [108] ex_state = Some (st1, 2) /\
  resolves ex_state ex_ghost false 8 [[108]] ch l' (Reached ch') /\ head ch' = Some ([102], 103, Some 1).
Proof.
  destruct (get_start None [108] ex_state) as [[st1 d]|] eqn:Es; [|vm_compute in Es; discriminate Es].
  assert (d = 2) as -> by (vm_compute in Es; congruence). destruct (ex_chain 2 ltac:(cbn; set_solver)) as (ch & Hc).
  destruct (vfs_get_dentry_at_correct None [108] no_flags 511 ex_state ex_ghost st1 2 ch ex_wf ex_links_fit eq_refl eq_refl
    ltac:(split; [done|by repeat constructor]) Es ltac:(cbn; lia) Hc ltac:(cbn; lia)) as (Hres & _).
  destruct (vfs_get_dentry_at None [108] no_flags 511 ex_state) as [[st' [c|err]]|] eqn:E1; [|vm_compute in E1; discriminate E1|vm_compute in E1; discriminate E1].
  destruct Hres as (g' & l' & ch' & W' & K' & Ho & Hc' & Hr). exists st1, ch, l', ch'. split; [done|]. split; [exact Hr|].
  assert (c = 5) as -> by (vm_compute in E1; congruence).
  assert (He : exists e, dentries st' !! 5 = Some e /\ inode e = Some 103 /\ name e = [102] /\ mount_point e = Some 1).
  { vm_compute in E1. injection E1 as <-. eexists. split; [vm_compute; reflexivity|done]. }
  destruct He as (e & He & Hi & Hn & Hm). destruct (chain_head st' 5 e 103 ch' Hc' He Hi) as (Hh & _). by rewrite Hh, Hn, Hm.
Defined.

Lemma vfs_dentry_path_roundtrip_witness : vfs_dentry_path 5 ex_state = Some [47; 97; 47; 102] /\
  exists st' r, vfs_get_dentry_at None [47; 97; 47; 102] no_flags 511 ex_state = Some (st', r) /\ r = Ok 5.
Proof.
  destruct (ex_chain 5 ltac:(cbn; set_solver)) as (ch & Hc).
  assert (Hv : visible ex_state ex_ghost 2 5 ([[97]] ++ [[102]])).
  { assert (Hg : forall c, c <> SLASH -> good_name [c]) by (intros c Hc'; split; [done|]; rewrite list_elem_of_singleton; congruence).
    apply (vis_child _ _ _ 5 (mk_dentry [102] (Some 103) 103 0 None (Some 3) (Some 1) None [] 1) 3); try done; try (by apply Hg); try (by left); try (by do 3 eexists); try (cbn; set_solver).
    apply (vis_child _ _ _ 3 (mk_dentry [97] (Some 102) 102 0 None (Some 2) (Some 1) None [5] 1) 2 []); try done; try (by apply Hg); try (by left); try (by do 3 eexists); try (cbn; set_solver). }
  assert (Hnl : ~ link_at ex_state ch).
  { intros (a & (s & n & m & Hh & Ha) & Hl). destruct (chain_head ex_state 5 _ 103 ch Hc eq_refl eq_refl) as (Hh' & _). rewrite Hh' in Hh. injection Hh as _ <- _.
    vm_compute in Ha. injection Ha as <-. done. }
  destruct (vfs_dentry_path_roundtrip no_flags 511 ex_state ex_ghost 5 ([[97]] ++ [[102]]) ch ex_wf ex_links_fit eq_refl eq_refl ltac:(cbn; lia) ltac:(cbn; lia) ltac:(cbn; lia) Hv Hc (or_intror Hnl)
    ltac:(done) ltac:(by repeat constructor) eq_refl) as (E1 & st' & r & E2 & _).
  split; [exact E1|]. exists st', r. split; [exact E2|]. vm_compute in E2. injection E2 as _ <-. reflexivity.
Defined.
End witness.

End VfsPath.
