(* ===== verification/Vfd.v ===== *)
(** Open files and file descriptors (kernel/fs/vfs/vfd.c, the descriptors of kernel/include/fs/vfs.h, the
    tables of kernel/task/process.c and process.h, the lookup of devices of kernel/drivers/device.c) and the
    system calls on them (kernel/task/syscall.c).

    An open file is an object with a count of references; the table of the running process is an array
    of words ([XArray]), each the address of an open file with the bit that closes it in exec.  A path in
    user memory is [None] when its address is not one of user space.  [None] as a result is what it is in
    [Vfs]. *)

From S2P Require Import Prelude XArray Vfs.

Module Vfd.
Import Vfs.

(** ** The state *)

(** The flags that an open file keeps. *)
Record file_flags := mk_file_flags { lookup_flags : open_flags; O_NONBLOCK : bool }.

Record vfs_fd := mk_fd {
  f_inode : option Z; f_dentry : option Z; f_ops : option Z; f_private : Z;
  f_ref : Z; f_flags : file_flags; f_type : file_type; f_offset : Z;
}.

Definition set_f_ref r f := mk_fd (f_inode f) (f_dentry f) (f_ops f) (f_private f) r (f_flags f) (f_type f) (f_offset f).
Definition set_f_ops o p f := mk_fd (f_inode f) (f_dentry f) o p (f_ref f) (f_flags f) (f_type f) (f_offset f).
Definition set_f_flags fl f := mk_fd (f_inode f) (f_dentry f) (f_ops f) (f_private f) (f_ref f) fl (f_type f) (f_offset f).
Definition set_f_offset o f := mk_fd (f_inode f) (f_dentry f) (f_ops f) (f_private f) (f_ref f) (f_flags f) (f_type f) o.

Record device := mk_device { dev_ref : Z; dev_ops : option Z }.

(** [fd_table] and [umask] belong to the running process. *)
Record fstate (F : Type) := mk_fstate {
  vfs : state F;
  files : gmap Z vfs_fd;
  file_pool : list Z;
  fd_table : XArray.xarray;
  umask : Z;
  devices : XArray.xarray;
  device_objects : gmap Z device;
}.
Arguments mk_fstate {F}. Arguments vfs {F}. Arguments files {F}. Arguments file_pool {F}. Arguments fd_table {F}.
Arguments umask {F}. Arguments devices {F}. Arguments device_objects {F}.

Section setters.
Context {F : Type}.
Implicit Types (fs : fstate F).

Definition set_vfs (v : state F) fs := mk_fstate v (files fs) (file_pool fs) (fd_table fs) (umask fs) (devices fs) (device_objects fs).
Definition set_files m fs := mk_fstate (vfs fs) m (file_pool fs) (fd_table fs) (umask fs) (devices fs) (device_objects fs).
Definition set_file_pool l fs := mk_fstate (vfs fs) (files fs) l (fd_table fs) (umask fs) (devices fs) (device_objects fs).
Definition set_fd_table t fs := mk_fstate (vfs fs) (files fs) (file_pool fs) t (umask fs) (devices fs) (device_objects fs).
Definition set_umask u fs := mk_fstate (vfs fs) (files fs) (file_pool fs) (fd_table fs) u (devices fs) (device_objects fs).
Definition set_device_objects m fs := mk_fstate (vfs fs) (files fs) (file_pool fs) (fd_table fs) (umask fs) (devices fs) m.

Definition upd_file (f : vfs_fd -> vfs_fd) (a : Z) fs : option (fstate F) :=
  x ← files fs !! a; Some (set_files (<[a := f x]> (files fs)) fs).

(** An operation of the virtual file system. *)
Definition on_vfs {A} (f : state F -> option (state F * A)) fs : option (fstate F * A) :=
  '(v, r) ← f (vfs fs); Some (set_vfs v fs, r).
Definition on_vfs_ (f : state F -> option (state F)) fs : option (fstate F) :=
  v ← f (vfs fs); Some (set_vfs v fs).
End setters.

(** The operations of an open file, by the address of their table, and the [open] of the table of an inode. *)
Record fd_ops (S : Type) := mk_fd_ops {
  op_open : option (Z -> S -> option (S * res unit));
  op_read : option (Z -> Z -> Z -> Z -> S -> option (S * res Z));
  op_write : option (Z -> Z -> Z -> Z -> S -> option (S * res Z));
  op_ioctl : option (Z -> Z -> Z -> S -> option (S * res Z));
  op_close : option (Z -> S -> option S);
  op_seek : option (Z -> Z -> Z -> S -> option (S * res Z));
  op_flush : option (Z -> Z -> Z -> S -> option (S * res unit));
}.
Arguments op_open {S}. Arguments op_read {S}. Arguments op_write {S}. Arguments op_ioctl {S}. Arguments op_close {S}.
Arguments op_seek {S}. Arguments op_flush {S}. Arguments mk_fd_ops {S}.

Class FdTables (F : Type) := {
  fd_ops_table : Z -> fd_ops (fstate F);
  op_inode_open : Z -> option (Z -> fstate F -> option (fstate F));
  op_readdir : Z -> option (Z -> Z -> state F -> option (res (list Z * Z)));
  device_cleanup : Z -> fstate F -> option (fstate F);
}.

(** The bits of the headers of the C library, and the flag of a mount without devices. *)
Class FdBits := { FD_CLOEXEC : Z; SEEK_SET : Z; SEEK_CUR : Z; SEEK_END : Z; MS_NODEV : Z }.

Definition FDTABLE_CLOEXEC : Z := 2.

Section files.
Context {F : Type} `{Env, NodeTables F, DirTables F, Limits, FdTables F, FdBits}.
Implicit Types (fs : fstate F) (f : vfs_fd).

(** A field of an offset: the sum of two of them is taken not to overflow. *)
Definition off_add (a b : Z) : option Z :=
  kassert ((- 2 ^ 63 <=? a + b) && (a + b <? 2 ^ 63));; Some (a + b).

(** The table of the operations of a file; a null pointer has none to read. *)
Definition ops_of f : option (fd_ops (fstate F)) := o ← f_ops f; Some (fd_ops_table o).

(** ** The life of an open file *)

Definition vfs_fd_alloc fs : fstate F * option Z :=
  match file_pool fs with
  | [] => (fs, None)
  | a :: rest =>
      (set_file_pool rest (set_files (<[a := mk_fd None None None 0 1 (mk_file_flags no_flags false) S_NONE 0]> (files fs)) fs), Some a)
  end.

Definition free_file (a : Z) fs : fstate F := set_file_pool (a :: file_pool fs) (set_files (delete a (files fs)) fs).

Definition vfs_dup (a : Z) fs : option (fstate F) := upd_file (fun f => set_f_ref (f_ref f + 1) f) a fs.

Definition device_ref (d : Z) fs : option (fstate F) :=
  x ← device_objects fs !! d; Some (set_device_objects (<[d := mk_device (dev_ref x + 1) (dev_ops x)]> (device_objects fs)) fs).

Definition device_release (d : Z) fs : option (fstate F) :=
  x ← device_objects fs !! d;
  let fs := set_device_objects (<[d := mk_device (ref_dec (dev_ref x)) (dev_ops x)]> (device_objects fs)) fs in
  if 1 <? dev_ref x then Some fs else device_cleanup d fs.

Definition device_from_number (dev : Z) fs : option (fstate F * option Z) :=
  d ← XArray.xarray_raw_get (devices fs) dev;
  if d =? 0 then Some (fs, None) else fs ← device_ref d fs; Some (fs, Some d).

Definition vfs_close (a : Z) fs : option (fstate F) :=
  f ← files fs !! a;
  fs ← upd_file (set_f_ref (ref_dec (f_ref f))) a fs;
  if 1 <? f_ref f then Some fs
  else
    fs ← match (o ← ops_of f; op_close o) with Some close => close a fs | None => Some fs end;
    fs ← match f_type f with S_IFBLK | S_IFCHR => device_release (f_private f) fs | _ => Some fs end;
    fs ← on_vfs_ (vfs_node_release (f_inode f)) fs;
    fs ← on_vfs_ (release_opt (f_dentry f)) fs;
    Some (free_file a fs).

Definition required_perm (fl : file_flags) : Z :=
  if O_RDWR (lookup_flags fl) then Z.lor PERM_READ PERM_WRITE
  else if O_WRONLY (lookup_flags fl) then PERM_WRITE
  else PERM_READ.

(** The error paths give back the reference to the inode, not the one to the entry. *)
Definition open_failed (a : Z) (err : errno) fs : option (fstate F * res Z) :=
  f ← files fs !! a;
  fs ← on_vfs_ (vfs_node_release (f_inode f)) fs;
  Some (free_file a fs, Err err).

(** The [open] of the table that the file has by now, and the times. *)
Definition open_finish (a n : Z) (fl : file_flags) fs : option (fstate F * res Z) :=
  f ← files fs !! a;
  '(fs, ret) ← match (o ← ops_of f; op_open o) with Some open => open a fs | None => Some (fs, Ok tt) end;
  match ret with
  | Err err => open_failed a err fs
  | Ok _ =>
      let mask := if O_RDWR (lookup_flags fl) then Z.lor VNODE_ATTR_ATIME VNODE_ATTR_MTIME
                  else if O_WRONLY (lookup_flags fl) then VNODE_ATTR_MTIME
                  else VNODE_ATTR_ATIME in
      fs ← on_vfs_ (vfs_update_time (Some n) mask) fs;
      Some (fs, Ok a)
  end.

Definition vfs_open_node (n : Z) (d : option Z) (fl : file_flags) fs : option (fstate F * res Z) :=
  perm ← vfs_perm n (vfs fs);
  if negb (Z.land perm (required_perm fl) =? required_perm fl) then Some (fs, Err EACCES)
  else
    match vfs_fd_alloc fs with
    | (fs, None) => Some (fs, Err ENOMEM)
    | (fs, Some a) =>
        '(st, _) ← vfs_getattr n (vfs fs);
        fs ← on_vfs_ (vfs_node_ref (Some n)) fs;
        fs ← on_vfs_ (vfs_dentry_ref d) fs;
        x ← nodes (vfs fs) !! n;
        fs ← upd_file (fun f => mk_fd (Some n) d None n (f_ref f) fl (ifmt (mode x)) (f_offset f)) a fs;
        fs ← match op_inode_open (n_ops x) with Some open => open a fs | None => Some fs end;
        match ifmt (st_mode st) with
        | S_IFBLK | S_IFCHR =>
            d ← d; e ← dentries (vfs fs) !! d; m ← mount_point e; mp ← mounts (vfs fs) !! m;
            if has (m_flags mp) MS_NODEV then open_failed a EACCES fs
            else
              '(fs, dev) ← device_from_number (st_rdev st) fs;
              match dev with
              | None => open_failed a ENODEV fs
              | Some dev =>
                  o ← device_objects fs !! dev;
                  fs ← upd_file (set_f_ops (dev_ops o) dev) a fs;
                  open_finish a n fl fs
              end
        | _ => open_finish a n fl fs
        end
    end.

(** [m] is the mode of a new file. *)
Definition vfs_open_at (at_ : option Z) (path : list Z) (fl : file_flags) (m : Z) fs : option (fstate F * res Z) :=
  '(fs, r) ← on_vfs (vfs_get_dentry_at at_ path (lookup_flags fl) m) fs;
  match r with
  | Err err => Some (fs, Err err)
  | Ok d =>
      e ← dentries (vfs fs) !! d; n ← inode e;
      '(fs, r) ← vfs_open_node n (Some d) fl fs;
      fs ← on_vfs_ (vfs_dentry_release d) fs;
      Some (fs, r)
  end.

(** ** Reading, writing and seeking *)

(** The operations look at the table without a test: a null one is [None]. *)
Definition vfs_read (a buffer offset count : Z) fs : option (fstate F * res Z) :=
  f ← files fs !! a;
  if bool_decide (f_type f = S_IFDIR) then Some (fs, Err EISDIR)
  else if O_WRONLY (lookup_flags (f_flags f)) then Some (fs, Err EBADF)
  else
    o ← ops_of f;
    match op_read o with
    | None => Some (fs, Err EOPNOTSUPP)
    | Some read => fs ← on_vfs_ (vfs_update_time (f_inode f) VNODE_ATTR_ATIME) fs; read a buffer offset count fs
    end.

Definition vfs_write (a buffer offset count : Z) fs : option (fstate F * res Z) :=
  f ← files fs !! a;
  if bool_decide (f_type f = S_IFDIR) then Some (fs, Err EISDIR)
  else if negb (O_WRONLY (lookup_flags (f_flags f)) || O_RDWR (lookup_flags (f_flags f))) then Some (fs, Err EBADF)
  else
    o ← ops_of f;
    match op_write o with
    | None => Some (fs, Err EOPNOTSUPP)
    | Some write => fs ← on_vfs_ (vfs_update_time (f_inode f) VNODE_ATTR_MTIME) fs; write a buffer offset count fs
    end.

(** A file without an inode has no attributes: those of the end are not set. *)
Definition vfs_generic_seek (a offset whence : Z) fs : option (fstate F * res Z) :=
  f ← files fs !! a;
  target ← (if whence =? SEEK_SET then Some (Some offset)
            else if whence =? SEEK_CUR then o ← off_add (f_offset f) offset; Some (Some o)
            else if whence =? SEEK_END then n ← f_inode f; '(st, _) ← vfs_getattr n (vfs fs); o ← off_add (st_size st) offset; Some (Some o)
            else Some None);
  match target with
  | None => Some (fs, Err EINVAL)
  | Some new =>
      if new <? 0 then Some (fs, Err EINVAL)
      else fs ← upd_file (set_f_offset new) a fs; Some (fs, Ok new)
  end.

(** A type that is none of these falls off the end of the function. *)
Definition vfs_seek (a offset whence : Z) fs : option (fstate F * res Z) :=
  f ← files fs !! a;
  let own_seek := o ← ops_of f; op_seek o in
  match f_type f with
  | S_IFREG | S_IFBLK =>
      match own_seek with Some seek => seek a offset whence fs | None => vfs_generic_seek a offset whence fs end
  | S_IFCHR =>
      match own_seek with Some seek => seek a offset whence fs | None => Some (fs, Err ESPIPE) end
  | S_IFDIR => Some (fs, Err EISDIR)
  | S_IFLNK => Some (fs, Err EBADF)
  | S_IFSOCK | S_IFIFO => Some (fs, Err ESPIPE)
  | S_NONE => None
  end.

(** The position moves by what was transferred. *)
Definition advance (a : Z) (ret : res Z) fs : option (fstate F * res Z) :=
  match ret with
  | Ok n => if 0 <? n then f ← files fs !! a; o ← off_add (f_offset f) n; fs ← upd_file (set_f_offset o) a fs; Some (fs, ret) else Some (fs, ret)
  | Err _ => Some (fs, ret)
  end.

Definition vfs_user_read (a buffer size : Z) fs : option (fstate F * res Z) :=
  f ← files fs !! a; '(fs, ret) ← vfs_read a buffer (f_offset f) size fs; advance a ret fs.

Definition vfs_user_write (a buffer size : Z) fs : option (fstate F * res Z) :=
  f ← files fs !! a;
  fs ← (if O_APPEND (lookup_flags (f_flags f)) then '(fs, _) ← vfs_seek a 0 SEEK_END fs; Some fs else Some fs);
  f ← files fs !! a;
  '(fs, ret) ← vfs_write a buffer (f_offset f) size fs; advance a ret fs.

Definition vfs_ioctl (a request arg : Z) fs : option (fstate F * res Z) :=
  f ← files fs !! a; o ← ops_of f;
  match op_ioctl o with None => Some (fs, Err EOPNOTSUPP) | Some ioctl => ioctl a request arg fs end.

Definition vfs_node_data_flush (n : Z) (st : state F) : option (state F * res unit) :=
  x ← nodes st !! n;
  if has (n_flags x) VNODE_FLAG_DATA_DIRTY then vfs_node_flush n st else Some (st, Ok tt).

Definition vfs_flush_range (a offset count : Z) fs : option (fstate F * res unit) :=
  f ← files fs !! a;
  '(fs, ret) ← match f_inode f with Some n => on_vfs (vfs_node_data_flush n) fs | None => Some (fs, Ok tt) end;
  match ret with
  | Err err => Some (fs, Err err)
  | Ok _ =>
      o ← ops_of f;
      match op_flush o, f_type f with
      | Some flush, (S_IFREG | S_IFBLK) => flush a offset count fs
      | _, _ => Some (fs, Ok tt)
      end
  end.

Definition vfs_flush (a : Z) fs : option (fstate F * res unit) :=
  f ← files fs !! a;
  '(fs, ret) ← match f_inode f with Some n => on_vfs (vfs_node_flush n) fs | None => Some (fs, Ok tt) end;
  match ret with
  | Err err => Some (fs, Err err)
  | Ok _ => vfs_flush_range a 0 (2 ^ 64 - 1) fs
  end.

(** ** Descriptors *)

(** The word of the table. *)
Definition fd_value (a flags : Z) : Z := if has flags FD_CLOEXEC then Z.lor a FDTABLE_CLOEXEC else a.
Definition fd_value2fd (value : Z) : option Z := if value =? 0 then None else Some (Z.ldiff value 15).
Definition fd_value_flags (value : Z) : Z := Z.land value FDTABLE_CLOEXEC.

(** [junk] is the variable that [xarray_allocate] does not initialise. *)
Definition fd_add (junk : bool) (a flags : Z) fs : option (fstate F * Z) :=
  f ← files fs !! a;
  kassert (0 <? f_ref f);;
  '(t, fd) ← XArray.xarray_allocate junk (fd_table fs) (fd_value a flags);
  Some (set_fd_table t fs, fd).

Definition fd_set (index a flags : Z) fs : option (fstate F * option Z) :=
  f ← files fs !! a;
  kassert (0 <? f_ref f);;
  '(t, prev) ← XArray.xarray_raw_set (fd_table fs) index (fd_value a flags);
  Some (set_fd_table t fs, fd_value2fd prev).

(** An open file with a new reference, and the flags of its descriptor. *)
Definition fd_get_flags (fd : Z) fs : option (fstate F * option (Z * Z)) :=
  if fd <? 0 then Some (fs, None)
  else
    value ← XArray.xarray_raw_get (fd_table fs) fd;
    match fd_value2fd value with
    | None => Some (fs, None)
    | Some a =>
        f ← files fs !! a;
        kassert (0 <? f_ref f);;
        fs ← vfs_dup a fs;
        Some (fs, Some (a, fd_value_flags value))
    end.

Definition fd_get_and_remove (fd : Z) fs : option (fstate F * option Z) :=
  if fd <? 0 then Some (fs, None)
  else '(t, prev) ← XArray.xarray_raw_clear (fd_table fs) fd; Some (set_fd_table t fs, fd_value2fd prev).

End files.

(** ** System calls *)

Section calls.
Context {F : Type} `{Env, NodeTables F, DirTables F, Limits, FdTables F, FdBits}.
Implicit Types (fs : fstate F) (f : vfs_fd).

(** The flags of the call: those that an open file keeps, and those that only the call looks at. *)
Record call_flags := mk_call_flags { kept_flags : file_flags; O_DIRECTORY : bool; O_TRUNC : bool; O_CLOEXEC : bool }.

Definition sys_open (junk : bool) (path : option (list Z)) (fl : call_flags) (m : Z) fs : option (fstate F * res Z) :=
  match path with
  | None => Some (fs, Err EFAULT)
  | Some path =>
      let l := lookup_flags (kept_flags fl) in
      if O_WRONLY l && O_RDWR l then Some (fs, Err EINVAL)
      else
        '(fs, r) ← vfs_open_at None path (kept_flags fl) (Z.ldiff m (umask fs)) fs;
        match r with
        | Err err => Some (fs, Err err)
        | Ok a =>
            f ← files fs !! a; n ← f_inode f; x ← nodes (vfs fs) !! n;
            if O_DIRECTORY fl && negb (S_ISDIR (mode x)) then fs ← vfs_close a fs; Some (fs, Err ENOTDIR)
            else if (O_WRONLY l || O_RDWR l || O_TRUNC fl || O_CREAT l) && S_ISDIR (mode x) then fs ← vfs_close a fs; Some (fs, Err EISDIR)
            else
              fs ← (if O_TRUNC fl then '(fs, _) ← on_vfs (vfs_truncate n 0) fs; Some fs else Some fs);
              '(fs, fd) ← fd_add junk a (if O_CLOEXEC fl then FD_CLOEXEC else 0) fs;
              Some (fs, Ok fd)
        end
  end.

Definition sys_close (fd : Z) fs : option (fstate F * res unit) :=
  '(fs, a) ← fd_get_and_remove fd fs;
  match a with
  | None => Some (fs, Err EBADF)
  | Some a => fs ← vfs_close a fs; Some (fs, Ok tt)
  end.

(** The calls that take a descriptor hold a reference to its file while they run. *)
Definition with_fd {A} (fd : Z) (op : Z -> fstate F -> option (fstate F * res A)) fs : option (fstate F * res A) :=
  '(fs, r) ← fd_get_flags fd fs;
  match r with
  | None => Some (fs, Err EBADF)
  | Some (a, _) => '(fs, ret) ← op a fs; fs ← vfs_close a fs; Some (fs, ret)
  end.

(** A buffer that is not in user space is [bad]. *)
Definition sys_write (fd buffer count : Z) (bad : bool) fs : option (fstate F * res Z) :=
  if bad then Some (fs, Err EFAULT) else with_fd fd (fun a => vfs_user_write a buffer count) fs.

Definition sys_read (fd buffer count : Z) (bad : bool) fs : option (fstate F * res Z) :=
  if bad then Some (fs, Err EFAULT) else with_fd fd (fun a => vfs_user_read a buffer count) fs.

Definition sys_dup (junk : bool) (oldfd : Z) fs : option (fstate F * res Z) :=
  '(fs, r) ← fd_get_flags oldfd fs;
  match r with
  | None => Some (fs, Err EBADF)
  | Some (a, flags) => '(fs, fd) ← fd_add junk a flags fs; Some (fs, Ok fd)
  end.

Definition sys_dup2 (oldfd newfd : Z) fs : option (fstate F * res Z) :=
  if oldfd =? newfd then Some (fs, Ok newfd)
  else if newfd <? 0 then Some (fs, Err EBADF)
  else
    '(fs, r) ← fd_get_flags oldfd fs;
    match r with
    | None => Some (fs, Err EBADF)
    | Some (a, flags) =>
        '(fs, old) ← fd_set newfd a flags fs;
        fs ← match old with Some old => vfs_close old fs | None => Some fs end;
        Some (fs, Ok newfd)
    end.

Definition sys_seek (fd offset whence : Z) fs : option (fstate F * res Z) :=
  if SEEK_END <? whence then Some (fs, Err EINVAL) else with_fd fd (fun a => vfs_seek a offset whence) fs.

Definition sys_ioctl (fd request arg : Z) fs : option (fstate F * res Z) := with_fd fd (fun a => vfs_ioctl a request arg) fs.

(** What [fcntl] answers with. *)
Inductive fcntl_op := F_DUPFD | F_GETFD | F_SETFD (arg : Z) | F_GETFL | F_SETFL (append nonblock : bool) | F_OTHER.
Inductive fcntl_result := Descriptor (fd : Z) | Descriptor_flags (flags : Z) | Status_flags (fl : file_flags) | Done.

Definition with_append (b : bool) (l : open_flags) : open_flags :=
  mk_open_flags (O_CREAT l) (O_EXCL l) (O_NOFOLLOW l) (O_WRONLY l) (O_RDWR l) b.

Definition sys_fcntl (junk : bool) (fd : Z) (op : fcntl_op) fs : option (fstate F * res fcntl_result) :=
  '(fs, r) ← fd_get_flags fd fs;
  match r with
  | None => Some (fs, Err EBADF)
  | Some (a, flags) =>
      '(fs, ret) ←
        match op with
        | F_DUPFD => '(fs, r) ← sys_dup junk fd fs; Some (fs, match r with Ok fd => Ok (Descriptor fd) | Err err => Err err end)
        | F_GETFD => Some (fs, Ok (Descriptor_flags flags))
        | F_SETFD arg => '(fs, _) ← fd_set fd a arg fs; Some (fs, Ok Done)
        | F_GETFL => f ← files fs !! a; Some (fs, Ok (Status_flags (f_flags f)))
        | F_SETFL append nonblock =>
            fs ← upd_file (fun f => set_f_flags (mk_file_flags (with_append append (lookup_flags (f_flags f))) nonblock) f) a fs;
            Some (fs, Ok Done)
        | F_OTHER => Some (fs, Err EINVAL)
        end;
      fs ← vfs_close a fs;
      Some (fs, ret)
  end.

Definition vfs_readdir (n : option Z) (index : Z) (st : state F) : option (state F * res (list Z * Z)) :=
  match n with
  | None => Some (st, Err EBADF)
  | Some n =>
      x ← nodes st !! n;
      if negb (S_ISDIR (mode x)) then Some (st, Err ENOTDIR)
      else
        match op_readdir (n_ops x) with
        | None => Some (st, Err EOPNOTSUPP)
        | Some readdir => st ← vfs_update_time (Some n) VNODE_ATTR_ATIME st; r ← readdir n index st; Some (st, r)
        end
  end.

Definition sys_readdir (fd index : Z) (bad : bool) fs : option (fstate F * res (list Z * Z)) :=
  if bad then Some (fs, Err EFAULT)
  else with_fd fd (fun a fs => f ← files fs !! a; on_vfs (vfs_readdir (f_inode f) index) fs) fs.

(** The calls on the inode of a path; [fl] is whether a link in the last place is followed. *)
Definition with_node {A} (path : option (list Z)) (fl : open_flags) (op : Z -> state F -> option (state F * res A)) fs : option (fstate F * res A) :=
  match path with
  | None => Some (fs, Err EFAULT)
  | Some path =>
      '(fs, r) ← on_vfs (vfs_get_node_at None path fl 511) fs;
      match r with
      | Err err => Some (fs, Err err)
      | Ok n => '(fs, ret) ← on_vfs (op n) fs; fs ← on_vfs_ (vfs_node_release (Some n)) fs; Some (fs, ret)
      end
  end.

Definition getattr_of (n : Z) (st : state F) : option (state F * res stat) :=
  '(a, r) ← vfs_getattr n st; Some (st, match r with Ok _ => Ok a | Err err => Err err end).

(** The copy of the attributes to a buffer that cannot be written fails. *)
Definition copy_out {A} (bad : bool) (r : option (fstate F * res A)) : option (fstate F * res A) :=
  '(fs, r) ← r; Some (fs, match r with Ok _ => if bad then Err EFAULT else r | Err err => Err err end).

Definition writing : open_flags := mk_open_flags false false false true false false.
Definition writing_nofollow : open_flags := mk_open_flags false false true true false false.

Definition sys_stat (path : option (list Z)) (bad : bool) fs : option (fstate F * res stat) := copy_out bad (with_node path no_flags getattr_of fs).
Definition sys_lstat (path : option (list Z)) (bad : bool) fs : option (fstate F * res stat) := copy_out bad (with_node path nofollow getattr_of fs).

(** A file without an inode. *)
Definition fd_node {A} (fd : Z) (none : errno) (op : Z -> state F -> option (state F * res A)) fs : option (fstate F * res A) :=
  with_fd fd (fun a fs => f ← files fs !! a; match f_inode f with Some n => on_vfs (op n) fs | None => Some (fs, Err none) end) fs.

Definition sys_fstat (fd : Z) (bad : bool) fs : option (fstate F * res stat) := copy_out bad (fd_node fd EINVAL getattr_of fs).

Definition sys_chmod (path : option (list Z)) (m : Z) fs := with_node path writing (fun n => vfs_chmod n m) fs.
Definition sys_lchmod (path : option (list Z)) (m : Z) fs := with_node path writing_nofollow (fun n => vfs_chmod n m) fs.
Definition sys_fchmod (fd m : Z) fs := fd_node fd EINVAL (fun n => vfs_chmod n m) fs.
Definition sys_chown (path : option (list Z)) (owner group : Z) fs := with_node path writing (fun n => vfs_chown n owner group) fs.
Definition sys_lchown (path : option (list Z)) (owner group : Z) fs := with_node path writing_nofollow (fun n => vfs_chown n owner group) fs.
Definition sys_fchown (fd owner group : Z) fs := fd_node fd EINVAL (fun n => vfs_chown n owner group) fs.
Definition sys_truncate (path : option (list Z)) (length : Z) fs := with_node path writing (fun n => vfs_truncate n (u64 length)) fs.
Definition sys_ftruncate (fd length : Z) fs := fd_node fd EINVAL (fun n => vfs_truncate n (u64 length)) fs.
Definition sys_readlink (path : option (list Z)) (bufsize : Z) (bad : bool) fs : option (fstate F * res (list Z)) :=
  match path with
  | None => Some (fs, Err EFAULT)
  | Some _ => if bad then Some (fs, Err EFAULT) else with_node path nofollow (fun n => vfs_readlink n bufsize) fs
  end.

(** [uid] and [gid] are the real ones; the bit of F_OK answers that the file is there. *)
Definition sys_access (path : option (list Z)) (F_OK : bool) (m uid gid : Z) fs : option (fstate F * res unit) :=
  with_node path no_flags (fun n st =>
    if F_OK then Some (st, Ok tt)
    else perm ← vfs_user_perm n uid gid st; Some (st, if Z.land perm m =? m then Ok tt else Err EACCES)) fs.

(** The calls on paths. *)
Definition on_path {A} (path : option (list Z)) (op : list Z -> state F -> option (state F * res A)) fs : option (fstate F * res A) :=
  match path with None => Some (fs, Err EFAULT) | Some path => on_vfs (op path) fs end.

Definition sys_mkdir (path : option (list Z)) (m : Z) fs := on_path path (fun path => vfs_mkdir_at None path (Z.ldiff m (umask fs))) fs.
Definition sys_unlink (path : option (list Z)) fs := on_path path (vfs_unlink_at None) fs.
Definition sys_rmdir (path : option (list Z)) fs := on_path path (vfs_rmdir_at None) fs.
Definition sys_link (old new : option (list Z)) fs := on_path old (fun old st => match new with Some new => vfs_link_at None old None new st | None => Some (st, Err EFAULT) end) fs.
Definition sys_rename (old new : option (list Z)) fs := on_path old (fun old st => match new with Some new => vfs_rename_at None old None new 0 st | None => Some (st, Err EFAULT) end) fs.
Definition sys_symlink (target path : option (list Z)) fs := on_path target (fun target st => match path with Some path => vfs_symlink_at target None path st | None => Some (st, Err EFAULT) end) fs.

Definition sys_umount (path : option (list Z)) fs : option (fstate F * res unit) :=
  match path with
  | None => Some (fs, Err EFAULT)
  | Some path => if negb (current_euid =? 0) then Some (fs, Err EPERM) else on_vfs (vfs_unmount_at None path) fs
  end.

Definition sys_umask (mask : Z) fs : fstate F * Z := (set_umask mask fs, umask fs).

(** The working directory and the root of the process. *)
Definition on_directory (set : Z -> state F -> option (state F)) (fd : Z) fs : option (fstate F * res unit) :=
  with_fd fd (fun a fs =>
    f ← files fs !! a;
    match f_inode f, f_dentry f with
    | Some n, Some d =>
        x ← nodes (vfs fs) !! n;
        if negb (S_ISDIR (mode x)) then Some (fs, Err ENOTDIR)
        else fs ← on_vfs_ (set d) fs; Some (fs, Ok tt)
    | _, _ => Some (fs, Err EINVAL)
    end) fs.

Definition sys_fchdir (fd : Z) fs : option (fstate F * res unit) := on_directory vfs_context_set_cwd fd fs.
Definition sys_fchroot (fd : Z) fs : option (fstate F * res unit) := on_directory vfs_context_set_root fd fs.

Definition sys_chroot (path : option (list Z)) fs : option (fstate F * res unit) :=
  on_path path (fun path st =>
    '(st, r) ← vfs_get_dentry_at None path no_flags 511 st;
    match r with
    | Err err => Some (st, Err err)
    | Ok d =>
        '(_, _, x) ← entry_node d st;
        if negb (S_ISDIR (mode x)) then st ← vfs_dentry_release d st; Some (st, Err ENOTDIR)
        else st ← vfs_context_set_root d st; Some (st, Ok tt)
    end) fs.

Definition sys_fdatasync (fd : Z) fs : option (fstate F * res unit) := with_fd fd (fun a => vfs_flush_range a 0 (2 ^ 64 - 1)) fs.
Definition sys_fsync (fd : Z) fs : option (fstate F * res unit) := with_fd fd vfs_flush fs.
Definition sys_syncfs (fd : Z) fs : option (fstate F * res unit) :=
  fd_node fd EINVAL (fun n st => x ← nodes st !! n;
    match n_superblock x with None => Some (st, Err EINVAL) | Some s => st ← vfs_superblock_flush s st; Some (st, Ok tt) end) fs.

(** The path of an open file; a copy past the end of the buffer is refused. *)
Definition sys_fdname (fd size : Z) (bad : bool) fs : option (fstate F * res (list Z)) :=
  if bad then Some (fs, Err EFAULT)
  else
    with_fd fd (fun a fs =>
      f ← files fs !! a;
      path ← match f_dentry f with Some d => vfs_dentry_path d (vfs fs) | None => Some unreachable_path end;
      Some (fs, if size <? lenZ path + 1 then Err ERANGE else Ok path)) fs.

End calls.

End Vfd.
