(* ===== verification/VfdInv.v ===== *)
(** The invariant of the open files and of the descriptors of a process, and what the calls on them do.

    [T] is what the table of the process means: which open file a descriptor names and whether it is
    closed in exec.  The count of a file is the number of its descriptors and of the references held
    elsewhere ([held]: other processes, calls that run); a file holds a reference to its entry and to its
    inode, which the invariant of the virtual file system ([VfsInv.wf]) counts. *)

From S2P Require Import Prelude XArray Vfs Tmpfs VfsInv TmpfsLaws VfsLookup VfsPath Vfd.

Module VfdInv.
Import Vfs VfsInv VfsLookup VfsPath Vfd.

Notation table := (gmap Z (Z * bool)).

(** ** The table *)

Definition word (v : option (Z * bool)) : Z := match v with None => 0 | Some (a, c) => if c then Z.lor a FDTABLE_CLOEXEC else a end.
Definition flag_of (c : bool) : Z := if c then FDTABLE_CLOEXEC else 0.

(** Open files are aligned. *)
Definition good_addr (a : Z) : Prop := 0 < a < 2 ^ 64 /\ Z.land a 15 = 0.

Record table_is (x : XArray.xarray) (T : table) : Prop := {
  ti_ok : exists h, XArray.ok h x;
  ti_range fd v : T !! fd = Some v -> 0 <= fd < 2 ^ 60 /\ good_addr v.1;
  ti_get fd : 0 <= fd -> XArray.xarray_raw_get x fd = Some (word (T !! fd));
}.

Section table.
Context `{FB : FdBits}.

Lemma land_15_2 a : Z.land a 15 = 0 -> Z.land a 2 = 0.
Proof. intros Ha. change 2 with (Z.land 15 2). by rewrite Z.land_assoc, Ha. Qed.

Lemma word_value a c : good_addr a -> fd_value2fd (word (Some (a, c))) = Some a /\ fd_value_flags (word (Some (a, c))) = flag_of c /\ Z.land (word (Some (a, c))) 1 = 0 /\ word (Some (a, c)) <> 0.
Proof.
  intros (Hr & Ha). unfold fd_value2fd, fd_value_flags, flag_of. pose proof (land_15_2 a Ha) as H2.
  assert (Hd : Z.ldiff a 15 = a). { apply Z.bits_inj'. intros k Hk. rewrite Z.ldiff_spec. assert (Hb : Z.testbit (Z.land a 15) k = false) by (by rewrite Ha, Z.bits_0). rewrite Z.land_spec in Hb. destruct (Z.testbit a k), (Z.testbit 15 k); done. }
  assert (H1 : Z.land a 1 = 0) by (change 1 with (Z.land 15 1); by rewrite Z.land_assoc, Ha).
  unfold word, FDTABLE_CLOEXEC. destruct c.
  - assert (Hne : Z.lor a 2 <> 0) by (rewrite Z.lor_eq_0_iff; lia). rewrite (proj2 (Z.eqb_neq _ _)) by done.
    assert (Hl : Z.ldiff (Z.lor a 2) 15 = Z.lor (Z.ldiff a 15) (Z.ldiff 2 15)) by (apply Z.bits_inj'; intros k Hk; rewrite !Z.ldiff_spec, !Z.lor_spec, !Z.ldiff_spec; by destruct (Z.testbit a k), (Z.testbit 2 k), (Z.testbit 15 k)).
    rewrite Hl, Hd, Z.land_lor_distr_l, H2, Z.land_lor_distr_l, H1. change (Z.ldiff 2 15) with 0. by rewrite Z.lor_0_r.
  - rewrite (proj2 (Z.eqb_neq _ _)) by lia. rewrite Hd, H2, H1. conjs; done || lia.
Qed.

Lemma fd_value_word a fl : fd_value a fl = word (Some (a, has fl FD_CLOEXEC)).
Proof. unfold fd_value, word. by destruct (has fl FD_CLOEXEC). Qed.

Lemma table_get x T fd : table_is x T -> 0 <= fd -> XArray.xarray_raw_get x fd = Some (word (T !! fd)) /\
  match T !! fd with
  | Some (a, c) => fd_value2fd (word (T !! fd)) = Some a /\ fd_value_flags (word (T !! fd)) = flag_of c
  | None => fd_value2fd (word (T !! fd)) = None
  end.
Proof.
  intros Ht Hfd. split; [by apply (ti_get _ _ Ht)|]. destruct (T !! fd) as [[a c]|] eqn:E; [|done].
  destruct (ti_range _ _ Ht fd (a, c) E) as (_ & Ha). destruct (word_value a c Ha) as (H1 & H2 & _). done.
Qed.

Lemma table_write x T fd v : table_is x T -> 0 <= fd < 2 ^ 60 -> match v with Some (a, _) => good_addr a | None => True end ->
  exists x', XArray.xarray_raw_set x fd (word v) = Some (x', word (T !! fd)) /\ table_is x' (match v with Some v => <[fd := v]> T | None => delete fd T end).
Proof.
  intros [[h Hok] Hr Hg] Hfd Hv. assert (Heven : Z.land (word v) 1 = 0) by (destruct v as [[a c]|]; [by apply word_value|done]).
  destruct (XArray.raw_set_spec h x fd (word v) Hok Hfd Heven) as (x' & h' & E & Hok' & Hc). exists x'.
  assert (Hct : forall j, 0 <= j -> XArray.contents h x j = word (T !! j)).
  { intros j Hj. specialize (Hg j Hj). rewrite (XArray.raw_get_spec h x j Hok Hj) in Hg. congruence. }
  rewrite E, Hct by lia. split; [done|]. split.
  - eauto.
  - intros j w Hj. destruct v as [[a c]|].
    + destruct (decide (j = fd)) as [->|]; [rewrite lookup_insert_eq in Hj; injection Hj as <-; done|rewrite lookup_insert_ne in Hj by done; by apply Hr].
    + apply lookup_delete_Some in Hj as (_ & Hj). by apply Hr.
  - intros j Hj. rewrite (XArray.raw_get_spec h' x' j Hok' Hj), Hc by done. f_equal. destruct (j =? fd) eqn:Ej; zbool.
    + subst j. destruct v as [v|]; [by rewrite lookup_insert_eq|by rewrite lookup_delete_eq].
    + rewrite Hct by done. destruct v as [v|]; [by rewrite lookup_insert_ne|by rewrite lookup_delete_ne].
Qed.

(** The number of descriptors of a file. *)
Definition descriptors (T : table) (a : Z) : Z := Z.of_nat (size (filter (fun p : Z * (Z * bool) => p.2.1 = a) T)).

Lemma descriptors_nonneg T a : 0 <= descriptors T a.
Proof. unfold descriptors. lia. Qed.

Definition names (v : option (Z * bool)) (a : Z) : Z := match v with Some (b, _) => if decide (b = a) then 1 else 0 | None => 0 end.

Lemma descriptors_delete T fd a : descriptors T a = names (T !! fd) a + descriptors (delete fd T) a.
Proof.
  unfold descriptors, names. rewrite map_filter_delete. destruct (T !! fd) as [[b c]|] eqn:E.
  - case_decide as Hb.
    + assert (Hf : filter (fun p : Z * (Z * bool) => p.2.1 = a) T !! fd = Some (b, c)) by (by apply map_lookup_filter_Some).
      rewrite <- (insert_id _ _ _ Hf) at 1. rewrite <- insert_delete_eq, map_size_insert_None by apply lookup_delete_eq. lia.
    + rewrite delete_id; [lia|]. apply map_lookup_filter_None. right. intros v Hv. rewrite E in Hv. injection Hv as <-. done.
  - rewrite delete_id; [lia|]. apply map_lookup_filter_None. by left.
Qed.

Lemma descriptors_witness T a : 1 <= descriptors T a -> exists fd c, T !! fd = Some (a, c).
Proof.
  unfold descriptors. intros H. destruct (map_choose (filter (fun p : Z * (Z * bool) => p.2.1 = a) T)) as (fd & [b c] & Hfd).
  { intros E. rewrite E, map_size_empty in H. lia. }
  apply map_lookup_filter_Some in Hfd as (Hfd & Hb). cbn in Hb. subst b. by exists fd, c.
Qed.

Lemma descriptors_insert T fd v a : descriptors (<[fd := v]> T) a = names (Some v) a + descriptors (delete fd T) a.
Proof. rewrite (descriptors_delete _ fd), lookup_insert_eq, delete_insert_eq. done. Qed.
End table.

(** ** References to inodes *)

Section node_refs.
Context {F : Type} `{E : Env} `{NT : !NodeTables F} `{DT : !DirTables F} `{FL : !FsLaws}.
Implicit Types (st : state F) (g : ghost) (x : node).

Definition add_node (n k : Z) (g : ghost) : ghost := mk_ghost (live g) (own g) (fun c => own_node g c + if decide (c = n) then k else 0).

(** The ghost state with the references to inodes of another: [kept] compares them, and opening changes them. *)
Definition with_nodes (g0 g : ghost) : ghost := mk_ghost (live g) (own g) (own_node g0).

Definition counted (n k : Z) x st : state F := set_nodes (<[n := set_n_ref (n_ref x + k) x]> (nodes st)) st.

Lemma wf_count st g n k x : wf st g -> nodes st !! n = Some x -> 0 <= own_node g n + k ->
  (forall d e, d ∈ live g -> dentries st !! d = Some e -> inode e = Some n -> 1 <= own_node g n + k + fs_refs (private st) n) ->
  wf (counted n k x st) (add_node n k g).
Proof.
  intros W Hx Hk Hin. assert (HA : attrs_of (counted n k x st) = attrs_of st) by (by apply (attrs_insert _ n x)).
  apply (wf_reframe_nodes st g); try done; try apply W.
  - intros c. cbn. pose proof (wf_node _ _ W c). case_decide; subst; lia.
  - intros d e c Hd He Hc. destruct (wf_inode _ _ W d e c Hd He Hc) as (_ & H2). cbn. case_decide; subst; [|lia]. specialize (Hin d e Hd He Hc). lia.
  - intros c y. cbn. destruct (decide (c = n)) as [->|].
    + rewrite lookup_insert_eq. intros [= <-]. pose proof (wf_n_ref _ _ W n x Hx). split; [cbn; lia|apply (wf_lock _ _ W n x Hx)].
    + rewrite lookup_insert_ne by done. intros Hy. pose proof (wf_n_ref _ _ W c y Hy). split; [lia|apply (wf_lock _ _ W c y Hy)].
Qed.

Lemma count_kept base st g n k x : wf st g -> nodes st !! n = Some x -> (forall c, base c <= own g c) -> kept base st g (counted n k x st) g.
Proof.
  intros W Hx Hb. destruct (kept_refl base st g W Hb) as [A1 A2 A3 A4 A5 A6 A7 A8 A9 A10 A11]. split; try done.
  cbn. rewrite fmap_insert. apply insert_id. by rewrite lookup_fmap, Hx.
Qed.

(** The invariant does not depend on the times of an inode. *)
Lemma update_time_spec base st g n x mask : wf st g -> (forall k, base k <= own g k) -> nodes st !! n = Some x -> has mask (Z.lor VNODE_ATTR_UID (Z.lor VNODE_ATTR_GID VNODE_ATTR_MODE)) = false ->
  exists y, vfs_update_time (Some n) mask st = Some (set_nodes (<[n := y]> (nodes st)) st) /\ wf (set_nodes (<[n := y]> (nodes st)) st) g /\
    attr_of y = attr_of x /\ n_ref y = n_ref x /\ mode y = mode x.
Proof.
  intros W Hb Hx Hmask. unfold vfs_update_time, vfs_setattr, vfs_raw_setattr. rewrite Hx. cbn [mbind option_bind].
  assert (Ha : attrs_of st !! n = Some (attr_of x)) by (unfold attrs_of; by rewrite lookup_fmap, Hx). set (ats := attrs _ _ _ _ _ _).
  destruct (setattr_law n (attr_of x) st ats mask (wf_fs _ _ W) Ha) as (h & Hh & Eh). cbn in Hh. rewrite Hh, Eh. cbn [mbind option_bind]. rewrite Hx. cbn [mbind option_bind].
  assert (Hbits : has mask VNODE_ATTR_UID = false /\ has mask VNODE_ATTR_GID = false /\ has mask VNODE_ATTR_MODE = false).
  { unfold has in *. apply negb_false_iff, Z.eqb_eq in Hmask. rewrite !Z.land_lor_distr_r, !Z.lor_eq_0_iff in Hmask. destruct Hmask as (-> & -> & ->). done. }
  destruct Hbits as (B1 & B2 & B3). rewrite B1, B2, B3.
  unfold upd_node at 1. rewrite Hx. cbn [mbind option_bind]. unfold vfs_node_mark_dirty, upd_node. cbn [nodes set_nodes]. rewrite lookup_insert_eq. cbn [mbind option_bind]. rewrite insert_insert_eq.
  set (y := set_n_flags _ _ _). exists y. assert (Hy : attr_of y = attr_of x /\ n_ref y = n_ref x /\ mode y = mode x /\ readers y = readers x /\ lock_depth y = lock_depth x) by done.
  destruct Hy as (Y1 & Y2 & Y3 & Y4 & Y5). conjs; try done. apply (wf_reframe st g); try done; try apply W.
  - by apply (attrs_insert _ n x).
  - intros k z. cbn. destruct (decide (k = n)) as [->|].
    + rewrite lookup_insert_eq. intros [= <-]. exists x. pose proof (wf_lock _ _ W n x Hx). conjs; try done; lia.
    + rewrite lookup_insert_ne by done. intros Hz. exists z. conjs; try done; apply (wf_lock _ _ W k z Hz).
Qed.
End node_refs.

(** ** The invariant *)

Section files.
Context {F : Type} `{E : Env} `{NT : !NodeTables F} `{DT : !DirTables F} `{FL : !FsLaws} `{LM : Limits} `{FT : !FdTables F} `{FB : FdBits}.
Implicit Types (st : state F) (g : ghost) (fs : fstate F) (f : vfs_fd) (T : table) (held : Z -> Z).

Definition entry_users (m : gmap Z vfs_fd) (d : Z) : Z := count_if (fun f => bool_decide (f_dentry f = Some d)) m.
Definition inode_users (m : gmap Z vfs_fd) (n : Z) : Z := count_if (fun f => bool_decide (f_inode f = Some n)) m.

Definition is_some (o : option Z) (d : Z) : Z := b2Z (bool_decide (o = Some d)).

Lemma entry_users_delete m a f d : m !! a = Some f -> entry_users m d = is_some (f_dentry f) d + entry_users (delete a m) d.
Proof. intros Hf. unfold entry_users. by rewrite (count_if_delete _ m a f Hf). Qed.
Lemma inode_users_delete m a f n : m !! a = Some f -> inode_users m n = is_some (f_inode f) n + inode_users (delete a m) n.
Proof. intros Hf. unfold inode_users. by rewrite (count_if_delete _ m a f Hf). Qed.

Lemma entry_users_insert m a f d : entry_users (<[a := f]> m) d = is_some (f_dentry f) d + entry_users (delete a m) d.
Proof. rewrite (entry_users_delete _ a f) by apply lookup_insert_eq. by rewrite delete_insert_eq. Qed.
Lemma inode_users_insert m a f d : inode_users (<[a := f]> m) d = is_some (f_inode f) d + inode_users (delete a m) d.
Proof. rewrite (inode_users_delete _ a f) by apply lookup_insert_eq. by rewrite delete_insert_eq. Qed.

(** The fields of a file that counting does not change. *)
Definition place f := (f_dentry f, f_inode f).

Lemma users_same m a f f' : m !! a = Some f -> place f' = place f ->
  (forall d, entry_users (<[a := f']> m) d = entry_users m d) /\ (forall n, inode_users (<[a := f']> m) n = inode_users m n).
Proof.
  intros Hf Hp. unfold place in Hp. injection Hp as H1 H2.
  split; intros d; [rewrite entry_users_insert, (entry_users_delete m a f d Hf), H1|rewrite inode_users_insert, (inode_users_delete m a f d Hf), H2]; done.
Qed.

Record sound fs T held g : Prop := {
  so_wf : wf (vfs fs) g;
  so_table : table_is (fd_table fs) T;
  so_named fd a c : T !! fd = Some (a, c) -> is_Some (files fs !! a);
  so_held a : 0 <= held a /\ (1 <= held a -> is_Some (files fs !! a));
  so_ref a f : files fs !! a = Some f -> 1 <= f_ref f /\ f_ref f = held a + descriptors T a;
  so_addr a : is_Some (files fs !! a) \/ a ∈ file_pool fs -> good_addr a;
  so_pool : NoDup (file_pool fs) /\ forall a, a ∈ file_pool fs -> files fs !! a = None;
  so_dentry d : entry_users (files fs) d <= own g d;
  so_inode n : inode_users (files fs) n <= own_node g n;
  so_place a f d : files fs !! a = Some f -> f_dentry f = Some d -> exists e, dentries (vfs fs) !! d = Some e /\ inode e = f_inode f;
  so_loose a f n : files fs !! a = Some f -> f_inode f = Some n -> 1 <= own_node g n - inode_users (files fs) n + fs_refs (private (vfs fs)) n;
}.

(** A file that a close has nothing else to do for than to give back its entry and its inode. *)
Definition plain f : Prop :=
  (o ← ops_of f; op_close o) = None /\ f_type f <> S_IFBLK /\ f_type f <> S_IFCHR /\ is_Some (f_dentry f).

Lemma so_open_entry fs T held g a f d : sound fs T held g -> files fs !! a = Some f -> f_dentry f = Some d -> 1 <= own g d /\ d ∈ live g.
Proof.
  intros S Hf Hd. assert (Ho : 1 <= own g d).
  { pose proof (so_dentry _ _ _ _ S d) as Hs. rewrite (entry_users_delete _ a f d Hf) in Hs. unfold is_some in Hs. rewrite bool_decide_eq_true_2 in Hs by done. pose proof (count_if_nonneg (fun f => bool_decide (f_dentry f = Some d)) (delete a (files fs))) as Hnn. fold (entry_users (delete a (files fs)) d) in Hnn. cbn [b2Z] in Hs. lia. }
  split; [done|]. by apply (wf_own _ _ (so_wf _ _ _ _ S)).
Qed.

(** Only the references of a file that is open change. *)
Lemma sound_ref fs T T' held held' g a f t : sound fs T held g -> files fs !! a = Some f -> table_is t T' ->
  (forall fd b c, T' !! fd = Some (b, c) -> is_Some (files fs !! b)) -> (forall b, 0 <= held' b /\ (1 <= held' b -> is_Some (files fs !! b))) ->
  1 <= held' a + descriptors T' a -> (forall b, b <> a -> held' b + descriptors T' b = held b + descriptors T b) ->
  sound (set_fd_table t (set_files (<[a := set_f_ref (held' a + descriptors T' a) f]> (files fs)) fs)) T' held' g.
Proof.
  intros S Hf Ht Hn Hh Hr Ho. destruct (users_same (files fs) a f (set_f_ref (held' a + descriptors T' a) f) Hf eq_refl) as (U1 & U2).
  assert (Hsame : forall b, is_Some (<[a := set_f_ref (held' a + descriptors T' a) f]> (files fs) !! b) <-> is_Some (files fs !! b)).
  { intros b. destruct (decide (b = a)) as [->|]; [rewrite lookup_insert_eq, Hf; split; eauto|by rewrite lookup_insert_ne]. }
  destruct S as [S1 S2 S3 S4 S5 S6 S7 S8 S9 S10 S11]. split; cbn; try done.
  - intros fd b c Hb. apply Hsame, (Hn fd b c Hb).
  - intros b. rewrite Hsame. apply Hh.
  - intros b fb Hb. destruct (decide (b = a)) as [->|]; [rewrite lookup_insert_eq in Hb; injection Hb as <-; done|].
    rewrite lookup_insert_ne in Hb by done. rewrite Ho by done. by apply S5.
  - intros b. rewrite Hsame. apply S6.
  - split; [apply S7|]. intros b Hb. destruct S7 as (_ & S7). specialize (S7 b Hb). rewrite lookup_insert_ne by congruence. done.
  - intros d. by rewrite U1.
  - intros n. by rewrite U2.
  - intros b fb d Hb Hd. destruct (decide (b = a)) as [->|]; [rewrite lookup_insert_eq in Hb; injection Hb as <-; by apply (S10 a f)|].
    rewrite lookup_insert_ne in Hb by done. by apply (S10 b).
  - intros b fb n Hb Hin. rewrite U2. destruct (decide (b = a)) as [->|]; [rewrite lookup_insert_eq in Hb; injection Hb as <-; by apply (S11 a f)|].
    rewrite lookup_insert_ne in Hb by done. by apply (S11 b fb).
Qed.

(** What a close leaves. *)
Record closed fs g (a : Z) f fs' g' : Prop := {
  cl_files : files fs' = if f_ref f =? 1 then delete a (files fs) else <[a := set_f_ref (f_ref f - 1) f]> (files fs);
  cl_pool : file_pool fs' = if f_ref f =? 1 then a :: file_pool fs else file_pool fs;
  cl_umask : umask fs' = umask fs;
  cl_own d : own g' d = own g d - if f_ref f =? 1 then is_some (f_dentry f) d else 0;
  cl_node n : own_node g' n = own_node g n - if f_ref f =? 1 then is_some (f_inode f) n else 0;
  cl_kept : kept (own g') (vfs fs) g (vfs fs') (with_nodes g g');
}.

Lemma set_same fs m : set_fd_table (fd_table fs) (set_files m fs) = set_files m fs.
Proof. by destruct fs. Qed.

Lemma is_some_range o d : 0 <= is_some o d <= 1.
Proof. unfold is_some. case_bool_decide; cbn; lia. Qed.

(** The inode of an open file has another reference. *)
Lemma open_inode fs T held g a f d : sound fs T held g -> files fs !! a = Some f -> f_dentry f = Some d ->
  exists e n x, dentries (vfs fs) !! d = Some e /\ f_inode f = Some n /\ inode e = Some n /\ nodes (vfs fs) !! n = Some x /\ 3 <= n_ref x /\ 1 <= own_node g n.
Proof.
  intros S Hf Hd. destruct (so_open_entry fs T held g a f d S Hf Hd) as (Ho & Hl). destruct (so_place _ _ _ _ S a f d Hf Hd) as (e & He & Hi).
  destruct (wf_live _ _ (so_wf _ _ _ _ S) d Hl) as (e' & n & He' & Hn). assert (e' = e) as -> by congruence. rewrite Hn in Hi. symmetry in Hi.
  destruct (entry_inode (vfs fs) g d e n (so_wf _ _ _ _ S) Hl He Hn) as (x & s & sb & Hx & _). exists e, n, x.
  assert (Hu : 1 <= inode_users (files fs) n).
  { rewrite (inode_users_delete _ a f n Hf), Hi. unfold is_some. rewrite bool_decide_eq_true_2 by done. pose proof (count_if_nonneg (fun f => bool_decide (f_inode f = Some n)) (delete a (files fs))) as Hnn.
    unfold inode_users. cbn [b2Z]. lia. }
  conjs; try done.
  - rewrite (wf_n_ref _ _ (so_wf _ _ _ _ S) n x Hx). pose proof (so_loose _ _ _ _ S a f n Hf Hi). pose proof (users_pos (vfs fs) g d e n Hl He Hn). lia.
  - pose proof (so_inode _ _ _ _ S n). lia.
Qed.

(** What stays does not depend on the references to inodes. *)
Lemma kept_nodes base st g1 st' g2 h : kept base st g1 st' g2 -> kept base st (with_nodes h g1) st' (with_nodes h g2).
Proof.
  intros [A1 A2 A3 A4 A5 A6 A7 A8 A9 A10 A11]. split; try done. intros c Hc. apply A10.
  induction Hc as [c Hc|m mp Hm|m mp Hm Hlv|c ec p Hc IH Hec Hp]; [by constructor|by apply (pin_root _ _ _ m)|by apply (pin_shadow _ _ _ m)|by apply (pin_parent _ _ _ c ec)].
Qed.

Lemma with_nodes_self g : with_nodes g g = g.
Proof. by destruct g. Qed.

Lemma close_shared fs T held g a f : sound fs T held g -> files fs !! a = Some f -> 1 <= held a -> 1 < f_ref f ->
  exists fs', vfs_close a fs = Some fs' /\ sound fs' T (fun b => held b - one a b) g /\ closed fs g a f fs' g.
Proof.
  intros S Hf Hh Hr. unfold vfs_close. rewrite Hf. cbn [mbind option_bind]. unfold upd_file. rewrite Hf. cbn [mbind option_bind].
  rewrite (proj2 (Z.ltb_lt _ _)) by done. eexists. split; [reflexivity|].
  destruct (so_ref _ _ _ _ S a f Hf) as (_ & Ha).
  assert (Hdec : ref_dec (f_ref f) = (held a - one a a) + descriptors T a) by (unfold ref_dec; rewrite (proj2 (Z.eqb_neq _ _)) by lia; rewrite one_self; lia).
  rewrite Hdec. split.
  - rewrite <- set_same. apply (sound_ref fs T T held (fun b => held b - one a b)); try done.
    + apply (so_table _ _ _ _ S).
    + intros fd b c Hb. apply (so_named _ _ _ _ S fd b c Hb).
    + intros b. pose proof (so_held _ _ _ _ S b) as (H1 & H2). unfold one. case_decide; subst; split; try lia; intros; apply H2; lia.
    + rewrite one_self. lia.
    + intros b Hb. unfold one. rewrite decide_False by done. lia.
  - split; cbn; rewrite ?(proj2 (Z.eqb_neq (f_ref f) 1)) by lia; try done; try (intros; lia).
    + do 2 f_equal. rewrite one_self. lia.
    + rewrite with_nodes_self. apply (kept_refl _ _ _ (so_wf _ _ _ _ S)). done.
Qed.

Lemma close_last fs T held g a f : sound fs T held g -> files fs !! a = Some f -> 1 <= held a -> f_ref f = 1 -> plain f ->
  exists fs' g', vfs_close a fs = Some fs' /\ sound fs' T (fun b => held b - one a b) g' /\ closed fs g a f fs' g'.
Proof.
  intros S Hf Hh Hr (Hop & Hb1 & Hb2 & [d Hd]). destruct (open_inode fs T held g a f d S Hf Hd) as (e & n & x & He & Hi & Hin & Hx & Hx2 & Hon).
  destruct (so_open_entry fs T held g a f d S Hf Hd) as (Hod & Hld).
  unfold vfs_close. rewrite Hf. cbn [mbind option_bind]. unfold upd_file. rewrite Hf. cbn [mbind option_bind].
  rewrite (proj2 (Z.ltb_ge _ _)) by lia. rewrite Hop. cbn [mbind option_bind].
  set (fs1 := set_files _ fs). replace (match f_type f with S_IFCHR | S_IFBLK => device_release (f_private f) fs1 | _ => Some fs1 end) with (Some fs1) by (by destruct (f_type f)).
  cbn [mbind option_bind]. unfold on_vfs_. rewrite Hi, Hd. cbn [vfs_node_release on_node]. change (vfs fs1) with (vfs fs). rewrite (node_release_spec n x) by (done || lia). cbn [mbind option_bind vfs set_vfs].
  change (set_nodes (<[n := set_n_ref (n_ref x - 1) x]> (nodes (vfs fs))) (vfs fs)) with (counted n (-1) x (vfs fs)).
  pose proof (so_wf _ _ _ _ S) as W.
  assert (W1 : wf (counted n (-1) x (vfs fs)) (add_node n (-1) g)).
  { apply wf_count; try done; [lia|]. intros d' e' Hl' He' Hi'. pose proof (so_loose _ _ _ _ S a f n Hf Hi) as Hl.
    assert (Hu : 1 <= inode_users (files fs) n). { rewrite (inode_users_delete _ a f n Hf), Hi. unfold is_some. rewrite bool_decide_eq_true_2 by done.
      pose proof (count_if_nonneg (fun f => bool_decide (f_inode f = Some n)) (delete a (files fs))). unfold inode_users. cbn [b2Z]. lia. }
    lia. }
  destruct (dentry_release_spec (fun c => own g c - is_some (Some d) c) (counted n (-1) x (vfs fs)) (add_node n (-1) g) d) as (st2 & g2 & E2 & [W2 K2 Ho2 Hl2 _]); try done.
  { intros c. pose proof (wf_own _ _ W c). pose proof (is_some_range (Some d) c). unfold is_some in *. case_bool_decide; [|cbn in *; lia]. assert (c = d) as -> by congruence. cbn in *. lia. }
  { intros c. cbn. pose proof (is_some_range (Some d) c). lia. }
  { cbn. unfold is_some. rewrite bool_decide_eq_true_2 by done. cbn. lia. }
  cbn [release_opt]. rewrite E2. cbn [mbind option_bind]. eexists _, g2. split; [reflexivity|].
  assert (Hown : forall c, own g2 c = own g c - is_some (Some d) c).
  { intros c. rewrite Ho2. cbn. unfold is_some. destruct (decide (c = d)) as [->|]; [by rewrite bool_decide_eq_true_2|]. rewrite bool_decide_eq_false_2 by congruence. done. }
  assert (Hnode : forall c, own_node g2 c = own_node g c - is_some (Some n) c).
  { intros c. rewrite (k_own_node _ _ _ _ _ K2). cbn. unfold is_some. destruct (decide (c = n)) as [->|]; [by rewrite bool_decide_eq_true_2|]. rewrite bool_decide_eq_false_2 by congruence. cbn. lia. }
  assert (Kall : kept (own g2) (vfs fs) g st2 (with_nodes g g2)).
  { assert (Hbb : forall c, own g2 c <= own g c) by (intros c; rewrite Hown; pose proof (is_some_range (Some d) c); lia).
    eapply kept_trans; [apply (count_kept (own g2) (vfs fs) g n (-1) x W Hx Hbb)|].
    assert (K3 : kept (own g2) (counted n (-1) x (vfs fs)) (add_node n (-1) g) st2 g2) by (eapply kept_weaken; [|exact K2]; intros c; cbn; rewrite Hown; lia).
    apply (kept_nodes _ _ _ _ _ g) in K3. destruct g. exact K3. }
  destruct (so_ref _ _ _ _ S a f Hf) as (_ & Ha). pose proof (descriptors_nonneg T a) as Hdn.
  assert (Hnone : forall fd b c, T !! fd = Some (b, c) -> b <> a).
  { intros fd b c Hb ->. pose proof (descriptors_delete T fd a) as Hdd. rewrite Hb in Hdd. cbn in Hdd. rewrite decide_True in Hdd by done. pose proof (descriptors_nonneg (delete fd T) a). lia. }
  assert (Hfiles : files fs1 = <[a := set_f_ref (ref_dec (f_ref f)) f]> (files fs)) by done.
  split.
  2:{ split; cbn; rewrite ?Hr, ?Hd, ?Hi; try done. by rewrite delete_insert_eq. }
  unfold free_file. cbn. rewrite delete_insert_eq. destruct S as [S1 S2 S3 S4 S5 S6 S7 S8 S9 S10 S11]. split; cbn; try done.
  - intros fd b c Hb. rewrite lookup_delete_ne by (intros <-; by apply (Hnone fd a c)). by apply (S3 fd b c).
  - intros b. pose proof (S4 b) as (H1 & H2). unfold one. case_decide; subst.
    + split; [lia|]. intros Hx'. exfalso. lia.
    + rewrite lookup_delete_ne by done. split; [lia|]. intros; apply H2; lia.
  - intros b fb Hb. apply lookup_delete_Some in Hb as (Hne & Hb). unfold one. rewrite decide_False by done. destruct (S5 b fb Hb). split; lia.
  - intros b [[fb Hb]|Hb]; [apply lookup_delete_Some in Hb as (_ & Hb); apply S6; left; eauto|]. apply elem_of_cons in Hb as [->|Hb]; apply S6; [left; eauto|by right].
  - destruct S7 as (S7 & S7'). split.
    + constructor; [|done]. intros Hp. rewrite (S7' a Hp) in Hf. done.
    + intros b Hb. apply elem_of_cons in Hb as [->|Hb]; [by rewrite lookup_delete_eq|]. apply lookup_delete_None. right. by apply S7'.
  - intros c. rewrite Hown. pose proof (S8 c) as H8. rewrite (entry_users_delete _ a f c Hf), Hd in H8. lia.
  - intros c. rewrite Hnode. pose proof (S9 c) as H9. rewrite (inode_users_delete _ a f c Hf), Hi in H9. lia.
  - intros b fb d' Hb Hd'. apply lookup_delete_Some in Hb as (Hne & Hb). destruct (S10 b fb d' Hb Hd') as (e' & He' & Hi').
    assert (Hpin : pinned (own g2) (vfs fs) g d').
    { constructor. rewrite Hown. pose proof (S8 d') as H8. rewrite (entry_users_delete _ a f d' Hf), Hd in H8.
      rewrite (entry_users_delete _ b fb d') in H8 by (by rewrite lookup_delete_ne). unfold is_some at 2 in H8. rewrite (bool_decide_eq_true_2 (f_dentry fb = Some d')) in H8 by done.
      pose proof (count_if_nonneg (fun f => bool_decide (f_dentry f = Some d')) (delete b (delete a (files fs)))) as Hnn. fold (entry_users (delete b (delete a (files fs))) d') in Hnn. cbn [b2Z] in H8. lia. }
    destruct (k_pinned _ _ _ _ _ Kall d' Hpin) as (_ & Hfx). rewrite He' in Hfx. destruct (dentries st2 !! d') as [e2|]; [|done]. exists e2. split; [done|].
    cbn in Hfx. unfold fixed in Hfx. injection Hfx as _ Hfx _ _ _ _. congruence.
  - intros b fb m Hb Hm. apply lookup_delete_Some in Hb as (Hne & Hb). rewrite Hnode, (k_private _ _ _ _ _ K2). change (private (counted n (-1) x (vfs fs))) with (private (vfs fs)).
    pose proof (S11 b fb m Hb Hm) as H11. rewrite (inode_users_delete _ a f m Hf), Hi in H11. lia.
Qed.


(** What a call that only moves references leaves: the open files that are left differ in their counts only,
    and the references to entries and inodes that went are those of the files that went. *)
Record settled fs g fs' g' : Prop := {
  se_files x f' : files fs' !! x = Some f' -> exists f, files fs !! x = Some f /\ f' = set_f_ref (f_ref f') f;
  se_own d : own g d - entry_users (files fs) d = own g' d - entry_users (files fs') d;
  se_node n : own_node g n - inode_users (files fs) n = own_node g' n - inode_users (files fs') n;
  se_less d : own g' d <= own g d;
  se_kept : kept (own g') (vfs fs) g (vfs fs') (with_nodes g g');
  se_umask : umask fs' = umask fs;
}.

Lemma settled_trans fs g fs1 g1 fs2 g2 : settled fs g fs1 g1 -> settled fs1 g1 fs2 g2 -> settled fs g fs2 g2.
Proof.
  intros [A1 A2 A3 A4 A5 A6] [B1 B2 B3 B4 B5 B6]. split.
  - intros x f2 H2. destruct (B1 x f2 H2) as (f1 & H1 & E1). destruct (A1 x f1 H1) as (f & Hf & E0). exists f. split; [done|]. rewrite E1, E0. done.
  - intros d. rewrite A2. apply B2.
  - intros n. rewrite A3. apply B3.
  - intros d. specialize (A4 d). specialize (B4 d). lia.
  - eapply kept_trans; [eapply kept_weaken; [|exact A5]; apply B4|]. apply (kept_nodes _ _ _ _ _ g) in B5. exact B5.
  - by rewrite B6.
Qed.

(** Only counts and the table changed. *)
Lemma settled_counts fs g fs' : wf (vfs fs) g -> vfs fs' = vfs fs -> umask fs' = umask fs ->
  (forall x f', files fs' !! x = Some f' -> exists f, files fs !! x = Some f /\ f' = set_f_ref (f_ref f') f) ->
  (forall d, entry_users (files fs') d = entry_users (files fs) d) -> (forall n, inode_users (files fs') n = inode_users (files fs) n) -> settled fs g fs' g.
Proof.
  intros W Hv Hu Hf H1 H2. split; try done; try (intros; rewrite ?H1, ?H2; done).
  rewrite with_nodes_self, Hv. by apply kept_refl.
Qed.

Lemma closed_settled fs g a f fs' g' : wf (vfs fs) g -> files fs !! a = Some f -> closed fs g a f fs' g' -> settled fs g fs' g'.
Proof.
  intros W Hf [C1 C2 C3 C4 C5 C6]. assert (Hu : (forall d, entry_users (files fs') d = entry_users (files fs) d - if f_ref f =? 1 then is_some (f_dentry f) d else 0) /\
    (forall n, inode_users (files fs') n = inode_users (files fs) n - if f_ref f =? 1 then is_some (f_inode f) n else 0)).
  { rewrite C1. destruct (f_ref f =? 1).
    - split; intros k; [rewrite (entry_users_delete _ a f k Hf)|rewrite (inode_users_delete _ a f k Hf)]; lia.
    - destruct (users_same (files fs) a f (set_f_ref (f_ref f - 1) f) Hf eq_refl) as (U1 & U2). split; intros k; rewrite ?U1, ?U2; lia. }
  destruct Hu as (U1 & U2). split; try done.
  - intros x f' Hx. rewrite C1 in Hx. destruct (f_ref f =? 1).
    + apply lookup_delete_Some in Hx as (_ & Hx). exists f'. split; [done|by destruct f'].
    + destruct (decide (x = a)) as [->|]; [rewrite lookup_insert_eq in Hx; injection Hx as <-; by exists f|].
      rewrite lookup_insert_ne in Hx by done. exists f'. split; [done|by destruct f'].
  - intros d. rewrite U1, C4. lia.
  - intros n. rewrite U2, C5. lia.
  - intros d. rewrite C4. destruct (_ =? _); [|lia]. pose proof (is_some_range (f_dentry f) d). lia.
Qed.

Lemma close_spec fs T held g a f : sound fs T held g -> files fs !! a = Some f -> 1 <= held a -> (f_ref f = 1 -> plain f) ->
  exists fs' g', vfs_close a fs = Some fs' /\ sound fs' T (fun b => held b - one a b) g' /\ settled fs g fs' g'.
Proof.
  intros S Hf Hh Hp. pose proof (so_wf _ _ _ _ S) as W. destruct (decide (f_ref f = 1)) as [Hr|Hr].
  - destruct (close_last fs T held g a f S Hf Hh Hr (Hp Hr)) as (fs' & g' & E1 & S' & C'). exists fs', g'. split_and!; try done. by apply (closed_settled fs g a f).
  - destruct (so_ref _ _ _ _ S a f Hf) as (H1 & _).
    destruct (close_shared fs T held g a f S Hf Hh ltac:(lia)) as (fs' & E1 & S' & C'). exists fs', g. split_and!; try done. by apply (closed_settled fs g a f).
Qed.

Lemma sound_held fs T held held' g : (forall b, held' b = held b) -> sound fs T held g -> sound fs T held' g.
Proof. intros Hh [S1 S2 S3 S4 S5 S6 S7 S8 S9 S10 S11]. split; try done; intros; rewrite ?Hh; auto. Qed.

(** The table changes and the references to each file stay as many. *)
Lemma sound_move fs T T' held held' g t : sound fs T held g -> table_is t T' -> (forall fd b c, T' !! fd = Some (b, c) -> is_Some (files fs !! b)) ->
  (forall b, 0 <= held' b /\ held' b + descriptors T' b = held b + descriptors T b) -> sound (set_fd_table t fs) T' held' g.
Proof.
  intros [S1 S2 S3 S4 S5 S6 S7 S8 S9 S10 S11] Ht Hn Hs. split; cbn; try done.
  - intros b. destruct (Hs b) as (H1 & H2). split; [done|]. intros H3. destruct (S4 b) as (H4 & H5). pose proof (descriptors_nonneg T' b).
    destruct (decide (1 <= held b)) as [|H6]; [by apply H5|]. destruct (descriptors_witness T b) as (fd & c & Hfd); [lia|]. by apply (S3 fd b c).
  - intros b f Hb. destruct (S5 b f Hb). destruct (Hs b). split; lia.
Qed.


(** The open files are those that a reference is left to, with their counts. *)
Definition files_are (m : gmap Z vfs_fd) fs T held : Prop :=
  forall x, files fs !! x = f ← m !! x; if 0 <? held x + descriptors T x then Some (set_f_ref (held x + descriptors T x) f) else None.

Lemma settled_files fs T held g fs' T' held' g' : settled fs g fs' g' -> sound fs' T' held' g' ->
  (forall x f, files fs !! x = Some f -> 1 <= held' x + descriptors T' x -> is_Some (files fs' !! x)) -> files_are (files fs) fs' T' held'.
Proof.
  intros Hs S Hin x. destruct (files fs' !! x) as [f'|] eqn:Hx.
  - destruct (se_files _ _ _ _ Hs x f' Hx) as (f & Hf & E1). rewrite Hf. cbn. destruct (so_ref _ _ _ _ S x f' Hx) as (H1 & H2). rewrite (proj2 (Z.ltb_lt _ _)) by lia. by rewrite <- H2, <- E1.
  - destruct (files fs !! x) as [f|] eqn:Hf; [|done]. cbn. destruct (0 <? _) eqn:Hz; [|done]. zbool. destruct (Hin x f Hf ltac:(lia)) as [f' Hf']. congruence.
Qed.

(** A file with a reference is open. *)
Lemma sound_open fs T held g x : sound fs T held g -> 1 <= held x + descriptors T x -> is_Some (files fs !! x).
Proof.
  intros S H. destruct (so_held _ _ _ _ S x) as (H1 & H2). destruct (decide (1 <= held x)); [by apply H2|].
  destruct (descriptors_witness T x) as (fd & c & Hfd); [lia|]. by apply (so_named _ _ _ _ S fd x c).
Qed.

Lemma settled_after fs g fs' T' held' g' : settled fs g fs' g' -> sound fs' T' held' g' -> files_are (files fs) fs' T' held'.
Proof. intros Hs S. apply (settled_files fs T' held' g fs' T' held' g' Hs S). intros x f _ H. by apply (sound_open fs' T' held' g'). Qed.

(** One more reference to an open file. *)
Lemma dup_spec fs T held g a f : sound fs T held g -> files fs !! a = Some f ->
  exists fs', vfs_dup a fs = Some fs' /\ sound fs' T (fun b => held b + one a b) g /\ settled fs g fs' g /\ files fs' !! a = Some (set_f_ref (f_ref f + 1) f) /\ fd_table fs' = fd_table fs.
Proof.
  intros S Hf. unfold vfs_dup, upd_file. rewrite Hf. cbn [mbind option_bind]. eexists. split; [reflexivity|].
  destruct (so_ref _ _ _ _ S a f Hf) as (H1 & Ha). assert (Hn : f_ref f + 1 = held a + one a a + descriptors T a) by (rewrite one_self; lia).
  split_and!; try done.
  - rewrite Hn, <- set_same. apply (sound_ref fs T T held (fun b => held b + one a b)); try done.
    + apply (so_table _ _ _ _ S).
    + intros fd b c Hb. apply (so_named _ _ _ _ S fd b c Hb).
    + intros b. pose proof (so_held _ _ _ _ S b) as (H2 & H3). unfold one. case_decide; subst; split; try lia; [by rewrite Hf; eauto|intros; apply H3; lia].
    + lia.
    + intros b Hb. unfold one. rewrite decide_False by done. lia.
  - destruct (users_same (files fs) a f (set_f_ref (f_ref f + 1) f) Hf eq_refl) as (U1 & U2).
    apply settled_counts; try done; [apply (so_wf _ _ _ _ S)|]. cbn. intros x f' Hx. destruct (decide (x = a)) as [->|]; [rewrite lookup_insert_eq in Hx; injection Hx as <-; by exists f|].
    rewrite lookup_insert_ne in Hx by done. exists f'. split; [done|by destruct f'].
  - cbn. by rewrite lookup_insert_eq.
Qed.

Lemma table_negative x T fd : table_is x T -> fd < 0 -> T !! fd = None.
Proof. intros Ht Hfd. destruct (T !! fd) as [v|] eqn:Hv; [|done]. destruct (ti_range _ _ Ht fd v Hv). lia. Qed.

(** A descriptor of the table: the call has a reference to its file. *)
Lemma fd_get_spec fs T held g fd : sound fs T held g ->
  match T !! fd with
  | None => fd_get_flags fd fs = Some (fs, None)
  | Some (a, c) => exists fs' f, fd_get_flags fd fs = Some (fs', Some (a, flag_of c)) /\ files fs !! a = Some f /\
      sound fs' T (fun b => held b + one a b) g /\ settled fs g fs' g /\ files fs' !! a = Some (set_f_ref (f_ref f + 1) f) /\ fd_table fs' = fd_table fs
  end.
Proof.
  intros S. pose proof (so_table _ _ _ _ S) as Ht. unfold fd_get_flags. destruct (fd <? 0) eqn:Hneg; zbool.
  - by rewrite (table_negative _ _ _ Ht Hneg).
  - destruct (table_get _ _ fd Ht Hneg) as (-> & Hv). cbn [mbind option_bind]. destruct (T !! fd) as [[a c]|] eqn:Hfd; [|by rewrite Hv].
    destruct Hv as (-> & ->). destruct (so_named _ _ _ _ S fd a c Hfd) as [f Hf]. rewrite Hf. cbn [mbind option_bind].
    destruct (so_ref _ _ _ _ S a f Hf) as (Hr & _). rewrite (proj2 (Z.ltb_lt _ _)) by lia. cbn.
    destruct (dup_spec fs T held g a f S Hf) as (fs' & E1 & S' & Hs & Hf' & Ht'). rewrite E1. cbn. exists fs', f. done.
Qed.

Lemma settled_table fs g t : wf (vfs fs) g -> settled fs g (set_fd_table t fs) g.
Proof. intros W. apply settled_counts; try done. intros x f' Hx. exists f'. split; [done|by destruct f']. Qed.

Lemma names_one v a b : names (Some (a, v)) b = one a b.
Proof. unfold names, one. repeat case_decide; congruence. Qed.


(** The files that a call may close for good have nothing but an entry and an inode to give back. *)
Definition plain_at fs T (fd : Z) : Prop := forall a c f, T !! fd = Some (a, c) -> files fs !! a = Some f -> plain f.

Lemma plain_ref f r : plain f -> plain (set_f_ref r f).
Proof. done. Qed.

(** The same for the file of a descriptor that holds its last reference. *)
Definition plain_last fs T (fd : Z) : Prop :=
  forall a c f, T !! fd = Some (a, c) -> files fs !! a = Some f -> f_ref f = 1 -> plain f.

(** C14: [sys_close] on a process whose tables are consistent ([sound]: the tree of entries is well formed, the
    table names open files only, the count of a file is the number of its descriptors and other holders, and the
    inode of an open file is held by something besides the open files, so that a close never frees it).
    The descriptor is below 2^60; and if the call takes the last reference to a file, that file is a plain one:
    it has a directory entry, is no device, and has no close operation of its own (pipes, sockets and devices are
    covered only as long as another descriptor refers to the same file).
    The descriptor names nothing afterwards and the other descriptors what they named; the call answers EBADF for a
    descriptor that is free; the open files are those that some descriptor or some other holder still refers to,
    each with the count of these references; the references to directory entries and inodes that are given back
    are those of the files that went; the invariant holds again. *)
Theorem sys_close_correct fs T held g fd : sound fs T held g -> fd < 2 ^ 60 -> plain_last fs T fd ->
  exists fs' g', sys_close fd fs = Some (fs', match T !! fd with Some _ => Ok tt | None => Err EBADF end) /\
    sound fs' (delete fd T) held g' /\ settled fs g fs' g' /\ files_are (files fs) fs' (delete fd T) held.
Proof.
  intros S Hfd Hp. pose proof (so_table _ _ _ _ S) as Ht. pose proof (so_wf _ _ _ _ S) as W. unfold sys_close, fd_get_and_remove. destruct (fd <? 0) eqn:Hneg; zbool.
  { rewrite (table_negative _ _ _ Ht Hneg). cbn. exists fs, g. assert (Hd : delete fd T = T) by (apply delete_id; by apply (table_negative _ _ _ Ht)). rewrite Hd.
    assert (Hs : settled fs g fs g). { apply settled_counts; try done. intros x f' Hx. exists f'. split; [done|by destruct f']. }
    split_and!; try done. by apply (settled_after fs g fs T held g). }
  destruct (table_write _ _ fd None Ht ltac:(lia) I) as (t & E1 & Ht'). unfold XArray.xarray_raw_clear. change 0 with (word None). rewrite E1. cbn [mbind option_bind].
  pose proof (table_get _ _ fd Ht Hneg) as (_ & Hv). destruct (T !! fd) as [[a c]|] eqn:HT.
  - destruct Hv as (-> & _). destruct (so_named _ _ _ _ S fd a c HT) as [f Hf]. pose proof (fun b => descriptors_delete T fd b) as Hdel. rewrite HT in Hdel.
    assert (S1 : sound (set_fd_table t fs) (delete fd T) (fun b => held b + one a b) g).
    { apply (sound_move fs T _ held); try done.
      - intros fd' b c' Hb. apply lookup_delete_Some in Hb as (_ & Hb). by apply (so_named _ _ _ _ S fd' b c').
      - intros b. specialize (Hdel b). rewrite names_one in Hdel. pose proof (so_held _ _ _ _ S b). unfold one in *. case_decide; lia. }
    destruct (close_spec _ _ _ _ a f S1) as (fs' & g' & E2 & S2 & Hs); try done.
    { rewrite one_self. pose proof (so_held _ _ _ _ S a). lia. } { intros Hr. by apply (Hp a c). }
    rewrite E2. cbn. exists fs', g'. assert (S3 : sound fs' (delete fd T) held g') by (eapply sound_held; [|exact S2]; intros b; cbn; lia).
    assert (Hs3 : settled fs g fs' g') by (eapply settled_trans; [by apply (settled_table fs g t)|done]). split_and!; try done. by apply (settled_after fs g fs' _ held g').
  - rewrite Hv. cbn. assert (Hs : settled fs g (set_fd_table t fs) g) by (by apply settled_table). exists (set_fd_table t fs), g.
    assert (S1 : sound (set_fd_table t fs) (delete fd T) held g).
    { apply (sound_move fs T _ held); try done; rewrite delete_id by done.
      - intros fd' b c' Hb. by apply (so_named _ _ _ _ S fd' b c').
      - intros b. pose proof (so_held _ _ _ _ S b). lia. }
    split_and!; try done. by apply (settled_after fs g _ _ held g).
Qed.

Lemma fd_set_spec fs T held g fd a c fl : sound fs T held g -> 0 <= fd < 2 ^ 60 -> 1 <= held a -> c = has fl FD_CLOEXEC ->
  exists fs', fd_set fd a fl fs = Some (fs', fst <$> T !! fd) /\ files fs' = files fs /\ settled fs g fs' g /\
    sound fs' (<[fd := (a, c)]> T) (fun b => held b - one a b + names (T !! fd) b) g.
Proof.
  intros S Hfd Hh ->. pose proof (so_table _ _ _ _ S) as Ht. destruct (so_held _ _ _ _ S a) as (_ & Ho). destruct (Ho Hh) as [f Hf].
  assert (Hga : good_addr a) by (apply (so_addr _ _ _ _ S); left; eauto). destruct (so_ref _ _ _ _ S a f Hf) as (Hr & _).
  unfold fd_set. rewrite Hf. cbn [mbind option_bind]. rewrite (proj2 (Z.ltb_lt _ _)) by lia. cbn [negb].
  rewrite fd_value_word. destruct (table_write _ _ fd (Some (a, has fl FD_CLOEXEC)) Ht Hfd Hga) as (t & E1 & Ht'). cbn [mbind option_bind]. rewrite E1. cbn [mbind option_bind].
  pose proof (table_get _ _ fd Ht ltac:(lia)) as (_ & Hv).
  exists (set_fd_table t fs). split_and!; try done.
  - destruct (T !! fd) as [[b c]|]; [destruct Hv as (-> & _)|rewrite Hv]; done.
  - apply settled_table, (so_wf _ _ _ _ S).
  - apply (sound_move fs T _ held); try done.
    + intros fd' b c Hb. destruct (decide (fd' = fd)) as [->|]; [rewrite lookup_insert_eq in Hb; injection Hb as <- <-; eauto|]. rewrite lookup_insert_ne in Hb by done. by apply (so_named _ _ _ _ S fd' b c).
    + intros b. pose proof (so_held _ _ _ _ S b). rewrite descriptors_insert, names_one. pose proof (descriptors_delete T fd b).
      assert (0 <= names (T !! fd) b) by (unfold names; destruct (T !! fd) as [[? ?]|]; [case_decide|]; lia). unfold one. case_decide; subst; lia.
Qed.

(** [sys_dup2] from a descriptor that is open to another one: both name the same open file afterwards and
    every other descriptor what it named; the file that the second one named is closed, and freed with its
    references to its entry and its inode when nothing else refers to it; the invariant holds again. *)
Theorem sys_dup2_correct fs T held g oldfd newfd a c : sound fs T held g -> 0 <= newfd < 2 ^ 60 -> oldfd <> newfd -> T !! oldfd = Some (a, c) -> plain_at fs T newfd ->
  let T' := <[newfd := (a, has (flag_of c) FD_CLOEXEC)]> T in
  exists fs' g', sys_dup2 oldfd newfd fs = Some (fs', Ok newfd) /\ sound fs' T' held g' /\ settled fs g fs' g' /\ files_are (files fs) fs' T' held.
Proof.
  intros S Hn Hne HT Hp T'. unfold sys_dup2. rewrite (proj2 (Z.eqb_neq _ _)), (proj2 (Z.ltb_ge newfd 0)) by (done || lia).
  pose proof (fd_get_spec fs T held g oldfd S) as Hget. rewrite HT in Hget. destruct Hget as (fs1 & f & -> & Hf & S1 & Hs1 & Hf1 & _). cbn [mbind option_bind].
  destruct (fd_set_spec fs1 T _ g newfd a (has (flag_of c) FD_CLOEXEC) (flag_of c) S1 Hn) as (fs2 & E2 & F2 & Hs2 & S2); [rewrite one_self; pose proof (so_held _ _ _ _ S a); lia|done|]. rewrite E2. cbn [mbind option_bind].
  pose proof (settled_trans _ _ _ _ _ _ Hs1 Hs2) as Hs12. destruct (T !! newfd) as [[b cb]|] eqn:HTn; cbn [fmap option_fmap option_map fst].
  - assert (S2' : sound fs2 T' (fun k => held k + one b k) g) by (eapply sound_held; [|exact S2]; intros k; cbn -[names]; rewrite names_one; lia).
    destruct (sound_open _ _ _ _ b S2') as [f2 Hf2]. { rewrite one_self. pose proof (so_held _ _ _ _ S b). pose proof (descriptors_nonneg T' b). lia. }
    destruct (close_spec _ _ _ _ b f2 S2' Hf2) as (fs3 & g3 & E3 & S3 & Hs3).
    { rewrite one_self. pose proof (so_held _ _ _ _ S b). lia. }
    { intros _. destruct (se_files _ _ _ _ Hs12 b f2 Hf2) as (f0 & Hf0 & ->). apply plain_ref. by apply (Hp b cb). }
    rewrite E3. cbn. exists fs3, g3. assert (S3' : sound fs3 T' held g3) by (eapply sound_held; [|exact S3]; intros k; cbn; lia).
    pose proof (settled_trans _ _ _ _ _ _ Hs12 Hs3) as Hs. split_and!; try done. by apply (settled_after fs g fs3 T' held g3).
  - exists fs2, g. assert (S2' : sound fs2 T' held g) by (eapply sound_held; [|exact S2]; intros k; cbn; lia). split_and!; try done. by apply (settled_after fs g fs2 T' held g).
Qed.


(** The lowest descriptor that is free. *)
Definition lowest_free T (fd : Z) : Prop := 0 <= fd /\ T !! fd = None /\ forall j, 0 <= j < fd -> is_Some (T !! j).

Definition roomy (x : XArray.xarray) : Prop := exists h, XArray.ok h x /\ (h <= 9)%nat /\ XArray.masks_ok h (XArray.root x).

Lemma fd_add_spec junk fs T held g a fl : sound fs T held g -> 1 <= held a -> roomy (fd_table fs) ->
  exists fs' fd, fd_add junk a fl fs = Some (fs', fd) /\ lowest_free T fd /\ files fs' = files fs /\ vfs fs' = vfs fs /\ settled fs g fs' g /\
    sound fs' (<[fd := (a, has fl FD_CLOEXEC)]> T) (fun b => held b - one a b) g.
Proof.
  intros S Hh (h & Hok & Hh9 & Hm). pose proof (so_table _ _ _ _ S) as Ht. destruct (so_held _ _ _ _ S a) as (_ & Ho). destruct (Ho Hh) as [f Hf].
  assert (Hga : good_addr a) by (apply (so_addr _ _ _ _ S); left; eauto). destruct (so_ref _ _ _ _ S a f Hf) as (Hr & _).
  destruct (word_value a (has fl FD_CLOEXEC) Hga) as (_ & _ & Heven & Hnz).
  unfold fd_add. rewrite Hf. cbn [mbind option_bind]. rewrite (proj2 (Z.ltb_lt _ _)) by lia. cbn [negb]. rewrite fd_value_word.
  destruct (XArray.allocate_contents junk h (fd_table fs) _ Hok Hh9 Hm Hnz) as (t & h' & i & E1 & Hi & Hok' & Hm' & Hz & Hb & Hc).
  unfold XArray.xarray_allocate, XArray.xarray_allocate_from. rewrite Heven. cbn [mbind option_bind]. rewrite E1. cbn [mbind option_bind].
  assert (Hct : forall j, 0 <= j -> XArray.contents h (fd_table fs) j = word (T !! j)).
  { intros j Hj. pose proof (ti_get _ _ Ht j Hj) as Hg. rewrite (XArray.raw_get_spec h _ j Hok Hj) in Hg. congruence. }
  assert (Hw : forall j, 0 <= j -> word (T !! j) = 0 <-> T !! j = None).
  { intros j Hj. destruct (T !! j) as [[b c]|] eqn:HT; [|done]. destruct (ti_range _ _ Ht j (b, c) HT) as (_ & Hg). destruct (word_value b c Hg) as (_ & _ & _ & Hne). split; intros; [done|discriminate]. }
  assert (Hfree : T !! i = None) by (apply Hw; [done|]; by rewrite <- Hct).
  assert (Hi60 : i < 2 ^ 60).
  { specialize (Hc i Hi). rewrite Z.eqb_refl in Hc. unfold XArray.contents in Hc. destruct (i <? XArray.W h') eqn:Hlt; [|congruence]. zbool. destruct Hok' as (_ & H10 & _). pose proof (XArray.W_mono h' 10 H10). change (XArray.W 10) with (2 ^ 60) in *. lia. }
  assert (Hlow : lowest_free T i).
  { split_and!; try done. intros j Hj. specialize (Hb j ltac:(lia)). rewrite Hct in Hb by lia. destruct (T !! j) eqn:HT; [eauto|]. exfalso. by apply Hb. }
  exists (set_fd_table t fs), i. split_and!; try apply Hlow; try done.
  - apply settled_table, (so_wf _ _ _ _ S).
  - apply (sound_move fs T _ held); try done.
    + split.
      * eauto.
      * intros j v Hj. destruct (decide (j = i)) as [->|]; [rewrite lookup_insert_eq in Hj; injection Hj as <-; done|]. rewrite lookup_insert_ne in Hj by done. by apply (ti_range _ _ Ht).
      * intros j Hj. rewrite (XArray.raw_get_spec h' t j Hok' Hj), Hc by done. f_equal. destruct (j =? i) eqn:Ej; zbool; [subst j; by rewrite lookup_insert_eq|]. rewrite Hct by done. by rewrite lookup_insert_ne.
    + intros fd' b c Hb'. destruct (decide (fd' = i)) as [->|]; [rewrite lookup_insert_eq in Hb'; injection Hb' as <- <-; eauto|]. rewrite lookup_insert_ne in Hb' by done. by apply (so_named _ _ _ _ S fd' b c).
    + intros b. pose proof (so_held _ _ _ _ S b). rewrite descriptors_insert, names_one. pose proof (descriptors_delete T i b) as Hd. rewrite Hfree in Hd. cbn in Hd. unfold one. case_decide; subst; lia.
Qed.

(** [sys_dup] of an open descriptor gives the lowest descriptor that is free; it names the same open file,
    whose count is one more; nothing else changes and the invariant holds again. *)
Lemma sys_dup_spec junk fs T held g oldfd a c : sound fs T held g -> roomy (fd_table fs) -> T !! oldfd = Some (a, c) ->
  exists fs' fd, sys_dup junk oldfd fs = Some (fs', Ok fd) /\ lowest_free T fd /\
    let T' := <[fd := (a, has (flag_of c) FD_CLOEXEC)]> T in sound fs' T' held g /\ settled fs g fs' g /\ files_are (files fs) fs' T' held.
Proof.
  intros S Hroom HT. unfold sys_dup. pose proof (fd_get_spec fs T held g oldfd S) as Hget. rewrite HT in Hget. destruct Hget as (fs1 & f & -> & Hf & S1 & Hs1 & Hf1 & Ht1). cbn [mbind option_bind].
  destruct (fd_add_spec junk fs1 T _ g a (flag_of c) S1) as (fs2 & fd & -> & Hlow & _ & _ & Hs2 & S2); [cbn; rewrite one_self; pose proof (so_held _ _ _ _ S a); lia|by rewrite Ht1|]. cbn [mbind option_bind].
  exists fs2, fd. split; [done|]. split; [done|]. cbn zeta. pose proof (settled_trans _ _ _ _ _ _ Hs1 Hs2) as Hs.
  assert (S2' : sound fs2 (<[fd := (a, has (flag_of c) FD_CLOEXEC)]> T) held g) by (eapply sound_held; [|exact S2]; intros b; cbn; lia).
  split_and!; try done. by apply (settled_after fs g fs2 _ held g).
Qed.

End files.

End VfdInv.
