(* ===== verification/VfdOpen.v ===== *)
(** Opening files: what [vfs_open_node], [vfs_open_at] and [sys_open] do (kernel/fs/vfs/vfd.c,
    kernel/task/syscall.c), from the invariants of the virtual file system and of the descriptors, for files
    that are not devices.  The concrete process of the end is one on a tmpfs. *)

From S2P Require Import Prelude XArray Vfs Tmpfs VfsInv TmpfsLaws VfsLookup VfsPath Vfd VfdInv.

Module VfdOpen.
Import Vfs VfsInv VfsLookup VfsPath Vfd VfdInv.

(** What the table of an inode promises: its [open] gives the file a table of operations that has neither an
    [open] nor a [close] of its own. *)
Class OpenLaws {F : Type} `{FdTables F} := {
  inode_open_law o open : op_inode_open o = Some open -> forall a (fs : fstate F) f, files fs !! a = Some f -> is_Some (f_inode f) ->
    exists ops p, open a fs = Some (set_files (<[a := set_f_ops (Some ops) p f]> (files fs)) fs) /\
      op_open (fd_ops_table ops) = None /\ op_close (fd_ops_table ops) = None;
}.

Section opens.
Context {F : Type} `{E : Env} `{NT : !NodeTables F} `{DT : !DirTables F} `{FL : !FsLaws} `{LM : Limits} `{FT : !FdTables F} `{FB : FdBits} `{OL : !OpenLaws}.
Implicit Types (st : state F) (g : ghost) (fs : fstate F) (f : vfs_fd) (T : table) (held : Z -> Z).

(** ** The invariant *)

(** The virtual file system changed but for the entries of open files. *)
Lemma sound_vfs fs T held g st' g' : sound fs T held g -> wf st' g' -> own_node g' = own_node g -> private st' = private (vfs fs) ->
  (forall d, entry_users (files fs) d <= own g' d) ->
  (forall d, 1 <= entry_users (files fs) d -> fixed <$> dentries st' !! d = fixed <$> dentries (vfs fs) !! d) -> sound (set_vfs st' fs) T held g'.
Proof.
  intros [S1 S2 S3 S4 S5 S6 S7 S8 S9 S10 S11] W Hn Hp Hu Hfx. split; cbn; try done.
  - intros n. by rewrite Hn.
  - intros a f d Hf Hd. destruct (S10 a f d Hf Hd) as (e & He & Hi). assert (H1 : 1 <= entry_users (files fs) d).
    { rewrite (entry_users_delete _ a f d Hf). unfold is_some. rewrite bool_decide_eq_true_2 by done. pose proof (count_if_nonneg (fun f => bool_decide (f_dentry f = Some d)) (delete a (files fs))). unfold entry_users. cbn [b2Z]. lia. }
    specialize (Hfx d H1). rewrite He in Hfx. destruct (dentries st' !! d) as [e'|]; [|done]. exists e'. split; [done|]. cbn in Hfx. unfold fixed in Hfx. injection Hfx as _ Hfx _ _ _ _. congruence.
  - intros a f n Hf Hi. rewrite Hn, Hp. by apply (S11 a f).
Qed.

Lemma unnamed fs T held g a : sound fs T held g -> files fs !! a = None -> held a = 0 /\ descriptors T a = 0.
Proof.
  intros S Ha. destruct (so_held _ _ _ _ S a) as (H1 & H2). pose proof (descriptors_nonneg T a). split.
  - destruct (decide (1 <= held a)) as [Hh|]; [|lia]. destruct (H2 Hh). congruence.
  - destruct (decide (1 <= descriptors T a)) as [Hh|]; [|lia]. destruct (descriptors_witness T a Hh) as (fd & c & Hfd). destruct (so_named _ _ _ _ S fd a c Hfd). congruence.
Qed.

Lemma is_some_one d c : is_some (Some d) c = one d c.
Proof. unfold is_some, one. destruct (decide (c = d)) as [->|]; [by rewrite bool_decide_eq_true_2|]. by rewrite bool_decide_eq_false_2 by congruence. Qed.

(** A new open file of an entry. *)
Lemma sound_new fs T held g a rest f d e n st' g' :
  sound fs T held g -> file_pool fs = a :: rest -> f_ref f = 1 -> f_dentry f = Some d -> f_inode f = Some n ->
  dentries (vfs fs) !! d = Some e -> inode e = Some n -> d ∈ live g ->
  wf st' g' -> private st' = private (vfs fs) -> (forall c, own g' c = own g c + one d c) -> (forall c, own_node g' c = own_node g c + one n c) ->
  (forall c, fixed <$> dentries st' !! c = fixed <$> dentries (vfs fs) !! c) ->
  sound (set_vfs st' (set_file_pool rest (set_files (<[a := f]> (files fs)) fs))) T (fun b => held b + one a b) g'.
Proof.
  intros S Hpool Hr Hd Hi He Hin Hl W Hp Ho Hn Hfx. destruct (so_pool _ _ _ _ S) as (Hnd & Hfree). rewrite Hpool in Hnd, Hfree. apply NoDup_cons in Hnd as (Hnr & Hnd).
  assert (Ha : files fs !! a = None) by (apply Hfree; left). destruct (unnamed fs T held g a S Ha) as (Hh0 & Hd0).
  assert (HU : forall c, entry_users (<[a := f]> (files fs)) c = entry_users (files fs) c + one d c) by (intros c; rewrite entry_users_insert, delete_id, Hd, is_some_one by done; lia).
  assert (HV : forall c, inode_users (<[a := f]> (files fs)) c = inode_users (files fs) c + one n c) by (intros c; rewrite inode_users_insert, delete_id, Hi, is_some_one by done; lia).
  assert (Hmove : forall k ek, dentries (vfs fs) !! k = Some ek -> exists e', dentries st' !! k = Some e' /\ inode e' = inode ek).
  { intros k ek Hk. specialize (Hfx k). rewrite Hk in Hfx. destruct (dentries st' !! k) as [e'|]; [|done]. exists e'. split; [done|]. cbn in Hfx. unfold fixed in Hfx. by injection Hfx as _ Hfx _ _ _ _. }
  pose proof (so_wf _ _ _ _ S) as W0. pose proof (wf_inode _ _ W0 d e n Hl He Hin) as (_ & Hn0).
  assert (Hsome : forall b, is_Some (files fs !! b) -> is_Some (<[a := f]> (files fs) !! b)) by (intros b Hb; by apply is_Some_insert).
  destruct S as [S1 S2 S3 S4 S5 S6 S7 S8 S9 S10 S11]. split; cbn; try done.
  - intros fd b c Hb. by apply Hsome, (S3 fd b c).
  - intros b. destruct (S4 b) as (H1 & H2). unfold one. case_decide as Hb; [subst b; split; [lia|]; intros _; rewrite lookup_insert_eq; eauto|]. split; [lia|]. intros H3. apply Hsome, H2. lia.
  - intros b fb Hb. destruct (decide (b = a)) as [->|]; [rewrite lookup_insert_eq in Hb; injection Hb as <-; rewrite one_self; lia|].
    rewrite lookup_insert_ne in Hb by done. unfold one. rewrite decide_False by done. destruct (S5 b fb Hb). lia.
  - intros b [[fb Hb]|Hb]; [|apply S6; right; rewrite Hpool; by right]. destruct (decide (b = a)) as [->|]; [apply S6; right; rewrite Hpool; left|]. rewrite lookup_insert_ne in Hb by done. apply S6. left. eauto.
  - split; [done|]. intros b Hb. rewrite lookup_insert_ne by congruence. apply Hfree. by right.
  - intros c. rewrite HU, Ho. specialize (S8 c). lia.
  - intros c. rewrite HV, Hn. specialize (S9 c). lia.
  - intros b fb k Hb Hk. destruct (decide (b = a)) as [->|].
    + rewrite lookup_insert_eq in Hb. injection Hb as <-. assert (k = d) as -> by congruence. destruct (Hmove d e He) as (e' & He' & Hi'). exists e'. split; [done|]. congruence.
    + rewrite lookup_insert_ne in Hb by done. destruct (S10 b fb k Hb Hk) as (ek & Hek & Hik). destruct (Hmove k ek Hek) as (e' & He' & Hi'). exists e'. split; [done|]. congruence.
  - intros b fb k Hb Hk. rewrite HV, Hn, Hp. destruct (decide (b = a)) as [->|].
    + rewrite lookup_insert_eq in Hb. injection Hb as <-. assert (k = n) as -> by congruence.
      destruct (decide (1 <= inode_users (files fs) n)) as [Hu|Hu].
      * unfold inode_users, count_if in Hu. destruct (map_choose (filter (fun p : Z * vfs_fd => Is_true (bool_decide (f_inode p.2 = Some n))) (files fs))) as (b' & f' & Hb').
        { intros E0. rewrite E0, map_size_empty in Hu. lia. }
        apply map_lookup_filter_Some in Hb' as (Hb' & Hx). cbn in Hx. apply bool_decide_unpack in Hx. pose proof (S11 b' f' n Hb' Hx). lia.
      * pose proof (count_if_nonneg (fun f => bool_decide (f_inode f = Some n)) (files fs)) as Hnn. fold (inode_users (files fs) n) in Hnn. lia.
    + rewrite lookup_insert_ne in Hb by done. pose proof (S11 b fb k Hb Hk). lia.
Qed.

(** ** Opening an inode *)

(** The tree is the same: what changed are counts, times and which entries wait to be reused. *)
Record same_tree st st' : Prop := {
  sm_private : private st' = private st;
  sm_attrs : attrs_of st' = attrs_of st;
  sm_superblocks : superblocks st' = superblocks st;
  sm_mounts : mounts st' = mounts st;
  sm_root : root st' = root st;
  sm_context : proc_context st' = proc_context st;
  sm_fixed c : fixed <$> dentries st' !! c = fixed <$> dentries st !! c;
}.

Record opened f (n d : Z) (fl : file_flags) (ty : file_type) : Prop := {
  on_inode : f_inode f = Some n;
  on_dentry : f_dentry f = Some d;
  on_ref : f_ref f = 1;
  on_flags : f_flags f = fl;
  on_type : f_type f = ty;
  on_offset : f_offset f = 0;
  on_plain : plain f;
}.

Definition is_device (ty : file_type) : Prop := ty = S_IFBLK \/ ty = S_IFCHR.

Definition open_mask (fl : file_flags) : Z :=
  if O_RDWR (lookup_flags fl) then Z.lor VNODE_ATTR_ATIME VNODE_ATTR_MTIME else if O_WRONLY (lookup_flags fl) then VNODE_ATTR_MTIME else VNODE_ATTR_ATIME.

Lemma open_mask_times fl : has (open_mask fl) (Z.lor VNODE_ATTR_UID (Z.lor VNODE_ATTR_GID VNODE_ATTR_MODE)) = false.
Proof. unfold open_mask. by destruct (O_RDWR (lookup_flags fl)), (O_WRONLY (lookup_flags fl)). Qed.

(** The new file has its table of operations. *)
Lemma inode_open_spec o a fs f : files fs !! a = Some f -> f_ops f = None -> is_Some (f_inode f) ->
  exists f', match op_inode_open o with Some open => open a fs | None => Some fs end = Some (set_files (<[a := f']> (files fs)) fs) /\
    (o ← ops_of f'; op_open o) = None /\ (o ← ops_of f'; op_close o) = None /\
    f_inode f' = f_inode f /\ f_dentry f' = f_dentry f /\ f_ref f' = f_ref f /\ f_flags f' = f_flags f /\ f_type f' = f_type f /\ f_offset f' = f_offset f.
Proof.
  intros Hf Ho Hn. destruct (op_inode_open o) as [open|] eqn:Eo.
  - destruct (inode_open_law o open Eo a fs f Hf Hn) as (ops & p & E1 & H1 & H2). exists (set_f_ops (Some ops) p f). rewrite E1. done.
  - exists f. unfold ops_of. rewrite Ho, insert_id by done. split_and!; try done. f_equal. by destruct fs.
Qed.

Lemma open_node_spec fs T held g d e n x fl : sound fs T held g -> d ∈ live g -> 1 <= own g d -> dentries (vfs fs) !! d = Some e -> inode e = Some n ->
  nodes (vfs fs) !! n = Some x -> ~ is_device (ifmt (mode x)) ->
  if Z.land (perm_of (attr_of x) current_euid current_egid) (required_perm fl) =? required_perm fl then
    match file_pool fs with
    | [] => vfs_open_node n (Some d) fl fs = Some (fs, Err ENOMEM)
    | a :: rest => exists st' f g', vfs_open_node n (Some d) fl fs = Some (set_vfs st' (set_file_pool rest (set_files (<[a := f]> (files fs)) fs)), Ok a) /\
        opened f n d fl (ifmt (mode x)) /\ same_tree (vfs fs) st' /\ wf st' g' /\
        (forall c, own g' c = own g c + one d c) /\ (forall c, own_node g' c = own_node g c + one n c)
    end
  else vfs_open_node n (Some d) fl fs = Some (fs, Err EACCES).
Proof.
  intros S Hl Ho He Hi Hx Hdev. pose proof (so_wf _ _ _ _ S) as W. unfold vfs_open_node. rewrite (vfs_perm_spec _ n x Hx). cbn [mbind option_bind].
  destruct (_ =? required_perm fl); cbn [negb]; [|done]. unfold vfs_fd_alloc. destruct (file_pool fs) as [|a rest] eqn:Hpool; [done|].
  set (fs1 := set_file_pool rest _). change (vfs fs1) with (vfs fs).
  assert (Hga : exists s r, vfs_getattr n (vfs fs) = Some (s, r) /\ st_mode s = mode x).
  { unfold vfs_getattr. rewrite Hx. cbn [mbind option_bind]. destruct (op_getattr (n_ops x)) as [ga|] eqn:Eg; [|by exists (stat_of x), (Ok tt)].
    destruct (ga n (stat_of x) (vfs fs)) as [s r] eqn:Es. destruct (getattr_law _ ga n (stat_of x) (vfs fs) Eg) as (H1 & _). rewrite Es in H1. exists s, r. done. }
  destruct Hga as (s & r & -> & Hsm). cbn [mbind option_bind].
  assert (E1 : on_vfs_ (vfs_node_ref (Some n)) fs1 = Some (set_vfs (counted n 1 x (vfs fs)) fs1)).
  { unfold on_vfs_, vfs_node_ref, on_node, upd_node. change (vfs fs1) with (vfs fs). rewrite Hx. done. }
  rewrite E1. cbn [mbind option_bind].
  pose proof (wf_inode _ _ W d e n Hl He Hi) as (_ & Hn0).
  assert (W1 : wf (counted n 1 x (vfs fs)) (add_node n 1 g)).
  { apply wf_count; try done; [pose proof (wf_node _ _ W n); lia|]. intros; lia. }
  destruct (dentry_ref_spec (fun _ => 0) (counted n 1 x (vfs fs)) (add_node n 1 g) d e W1) as (st2 & E2 & W2 & K2 & _); try done.
  { intros c. apply (wf_own _ _ W). } { destruct (ref_nonneg _ _ d e W Hl He). pose proof (cnt_nonneg (is_parent d) (dentries (vfs fs)) (live g)) as Hk. fold (kids (vfs fs) g d) in Hk. lia. }
  assert (Hfx : forall c, fixed <$> dentries st2 !! c = fixed <$> dentries (vfs fs) !! c).
  { unfold dentry_ref, upd_dentry in E2. change (dentries (counted n 1 x (vfs fs))) with (dentries (vfs fs)) in E2. rewrite He in E2. cbn [mbind option_bind] in E2. injection E2 as <-. cbn.
    intros c. apply frame_fixed. by apply frame_set_ref. }
  unfold on_vfs_ at 1, vfs_dentry_ref. change (vfs (set_vfs (counted n 1 x (vfs fs)) fs1)) with (counted n 1 x (vfs fs)). rewrite E2. cbn [mbind option_bind].
  change (set_vfs st2 (set_vfs (counted n 1 x (vfs fs)) fs1)) with (set_vfs st2 fs1). cbn [vfs set_vfs].
  destruct (kept_node _ _ _ _ _ n (set_n_ref (n_ref x + 1) x) K2) as (y & Hy & Hyx); [cbn; by rewrite lookup_insert_eq|].
  assert (Hym : mode y = mode x /\ n_ops y = n_ops x) by (unfold steady in Hyx; cbn in Hyx; injection Hyx; done). destruct Hym as (Hym & Hyo).
  rewrite Hy. cbn [mbind option_bind]. set (f1 := mk_fd (Some n) (Some d) None n 1 fl (ifmt (mode y)) 0).
  assert (Eu : forall h, upd_file h a (set_vfs st2 fs1) = Some (set_files (<[a := h (mk_fd None None None 0 1 (mk_file_flags no_flags false) S_NONE 0)]> (files (set_vfs st2 fs1))) (set_vfs st2 fs1))).
  { intros h. unfold upd_file. cbn [files set_vfs]. change (files fs1) with (<[a := mk_fd None None None 0 1 (mk_file_flags no_flags false) S_NONE 0]> (files fs)). by rewrite lookup_insert_eq. }
  rewrite Eu. cbn [mbind option_bind f_ref f_offset]. fold f1.
  set (fs2 := set_files (<[a := f1]> _) _). assert (Hf1 : files fs2 !! a = Some f1) by (cbn; by rewrite lookup_insert_eq).
  destruct (inode_open_spec (n_ops y) a fs2 f1 Hf1 eq_refl (ex_intro _ n eq_refl)) as (f2 & -> & Hop & Hcl & G1 & G2 & G3 & G4 & G5 & G6). cbn [mbind option_bind].
  set (fs3 := set_files _ fs2). assert (Hf3 : files fs3 !! a = Some f2) by (cbn; by rewrite lookup_insert_eq).
  assert (Hnode : nodes st2 !! n = Some y) by done.
  destruct (update_time_spec (fun _ => 0) st2 _ n y (open_mask fl) W2 ltac:(intros c; apply (wf_own _ _ W2)) Hnode (open_mask_times fl)) as (z & E3 & W3 & Hz1 & Hz2 & Hz3).
  assert (Efin : open_finish a n fl fs3 = Some (set_vfs (set_nodes (<[n := z]> (nodes st2)) st2) fs3, Ok a)).
  { unfold open_finish. rewrite Hf3. cbn [mbind option_bind]. rewrite Hop. cbn [mbind option_bind]. fold (open_mask fl). unfold on_vfs_. change (vfs fs3) with st2. rewrite E3. done. }
  assert (Hres : forall X Y : option (fstate F * res Z), match ifmt (st_mode s) with S_IFBLK | S_IFCHR => X | _ => Y end = Y).
  { intros X Y. rewrite Hsm. unfold is_device in Hdev. destruct (ifmt (mode x)) eqn:Et; try done; exfalso; apply Hdev; auto. }
  rewrite Hres, Efin. set (st3 := set_nodes _ st2). exists st3, f2, (add_own d 1 (add_node n 1 g)).
  split; [|split; [|split; [|split; [done|split]]]].
  - do 2 f_equal. unfold fs3, fs2, fs1, st3. unfold set_vfs, set_files, set_file_pool. cbn. by rewrite !insert_insert_eq.
  - split; rewrite ?G1, ?G2, ?G3, ?G4, ?G5, ?G6; cbn; try done; [by rewrite Hym|]. split; [done|]. rewrite G5, G2. cbn. rewrite Hym. unfold is_device in Hdev. split_and!; eauto.
  - split; cbn; rewrite ?(k_private _ _ _ _ _ K2), ?(k_superblocks _ _ _ _ _ K2), ?(k_mounts _ _ _ _ _ K2), ?(k_root _ _ _ _ _ K2), ?(k_context _ _ _ _ _ K2); try done.
    unfold st3, attrs_of. cbn. rewrite (attrs_insert _ n y z Hnode Hz1). fold (attrs_of st2). rewrite (kept_attrs _ _ _ _ _ K2). by apply (attrs_insert _ n x).
  - intros c. cbn. done.
  - intros c. cbn. done.
Qed.


(** ** Opening along a path *)

(** The caller gives back a reference to an entry that is not one of an open file. *)
Lemma release_entry fs T held g c : sound fs T held g -> entry_users (files fs) c + 1 <= own g c ->
  exists st' g', on_vfs_ (vfs_dentry_release c) fs = Some (set_vfs st' fs) /\ sound (set_vfs st' fs) T held g' /\
    (forall k, own g' k = own g k - one c k) /\ own_node g' = own_node g /\ kept (fun k => own g k - one c k) (vfs fs) g st' g'.
Proof.
  intros S Hc. pose proof (so_wf _ _ _ _ S) as W. pose proof (count_if_nonneg (fun f => bool_decide (f_dentry f = Some c)) (files fs)) as Hnn. fold (entry_users (files fs) c) in Hnn.
  destruct (dentry_release_spec (fun k => own g k - one c k) (vfs fs) g c) as (st' & g' & E1 & [W1 K1 Ho Hl _]); try done.
  - intros k. pose proof (wf_own _ _ W k). unfold one. case_decide; subst; lia.
  - intros k. pose proof (one_nonneg c k). lia.
  - rewrite one_self. lia.
  - exists st', g'. assert (Ho' : forall k, own g' k = own g k - one c k) by (intros k; rewrite Ho; unfold one; done).
    split_and!; try done; [unfold on_vfs_; by rewrite E1| |apply (k_own_node _ _ _ _ _ K1)].
    apply (sound_vfs fs T held g); try done; [apply (k_own_node _ _ _ _ _ K1)|apply (k_private _ _ _ _ _ K1)| |].
    + intros d. rewrite Ho'. pose proof (so_dentry _ _ _ _ S d). unfold one. case_decide; subst; lia.
    + intros d Hd. apply (k_pinned _ _ _ _ _ K1). constructor. pose proof (so_dentry _ _ _ _ S d). unfold one. case_decide; subst; lia.
Qed.

Lemma own_entry fs T held g d : sound fs T held g -> 1 <= entry_users (files fs) d -> 1 <= own g d.
Proof. intros S Hd. pose proof (so_dentry _ _ _ _ S d). lia. Qed.

(** What the walk leaves. *)
Lemma sound_walked fs T held g st' g' k : sound fs T held g -> wf st' g' -> kept (own g) (vfs fs) g st' g' -> (forall c, own g' c = own g c + k c) -> (forall c, 0 <= k c) ->
  sound (set_vfs st' fs) T held g'.
Proof.
  intros S W K Ho Hk. apply (sound_vfs fs T held g); try done; [apply (k_own_node _ _ _ _ _ K)|apply (k_private _ _ _ _ _ K)| |].
  - intros d. rewrite Ho. pose proof (so_dentry _ _ _ _ S d). specialize (Hk d). lia.
  - intros d Hd. apply (k_pinned _ _ _ _ _ K). constructor. by apply (own_entry fs T held g).
Qed.

Definition granted (at_ : attr) (fl : file_flags) : bool := Z.land (perm_of at_ current_euid current_egid) (required_perm fl) =? required_perm fl.

Lemma same_chain st st' d ch : same_tree st st' -> chain_of st d ch -> chain_of st' d ch.
Proof.
  intros Hs Hc. induction Hc as [d e n He Hp Hi|d e n p ch He Hp Hi Hc IH].
  - pose proof (sm_fixed _ _ Hs d) as Hf. rewrite He in Hf. destruct (dentries st' !! d) as [e'|] eqn:He'; [|done]. cbn in Hf. unfold fixed in Hf. injection Hf as H1 H2 H3 H4 H5 H6.
    rewrite <- H1, <- H5. apply chain_root; congruence.
  - pose proof (sm_fixed _ _ Hs d) as Hf. rewrite He in Hf. destruct (dentries st' !! d) as [e'|] eqn:He'; [|done]. cbn in Hf. unfold fixed in Hf. injection Hf as H1 H2 H3 H4 H5 H6.
    rewrite <- H1, <- H5. apply (chain_step _ _ _ _ p); congruence.
Qed.


(** Why an open fails after the walk arrived. *)
Definition refused (at_ : attr) (fl : call_flags) (err : errno) : Prop :=
  granted at_ (kept_flags fl) = false /\ err = EACCES \/
  O_DIRECTORY fl = true /\ ifmt (a_mode at_) <> S_IFDIR /\ err = ENOTDIR \/
  (O_WRONLY (lookup_flags (kept_flags fl)) || O_RDWR (lookup_flags (kept_flags fl))) = true /\ ifmt (a_mode at_) = S_IFDIR /\ err = EISDIR.

(** The state after a call that failed. *)
Definition unchanged fs T held g fs' : Prop :=
  exists g', sound fs' T held g' /\ files fs' = files fs /\ Permutation (file_pool fs') (file_pool fs) /\ fd_table fs' = fd_table fs /\ private (vfs fs') = private (vfs fs) /\ attrs_of (vfs fs') = attrs_of (vfs fs) /\
    (forall d, own g' d = own g d) /\ (forall n, own_node g' n = own_node g n).

(** What the walk along a path needs at most: an entry for each of its components, and 128 for each link. *)
Definition walk_needs (path : list Z) : Z := lenZ (path_array path) + 128 * SYMLOOP_MAX.

(** No memory for the entries of a path, or for an open file. *)
Definition short_of fs (path : list Z) : Prop := avail (vfs fs) < walk_needs path \/ file_pool fs = [].

(** What opening along a path gives, before a descriptor is allocated. *)
Definition open_result fs T held g (path : list Z) (fl : file_flags) (R : outcome -> Prop) (r : option (fstate F * res Z)) : Prop :=
  match r with
  | None => R Exhausted \/ R Panics
  | Some (fs', Err err) => unchanged fs T held g fs' /\ (err = ENOMEM /\ short_of fs path \/ R (Failed err) \/ exists ch at_, R (Reached ch) /\ attr_at (vfs fs) ch at_ /\ granted at_ fl = false /\ err = EACCES)
  | Some (fs', Ok a) => exists g' f rest c n ch at_, file_pool fs = a :: rest /\ file_pool fs' = rest /\ files fs' = <[a := f]> (files fs) /\ fd_table fs' = fd_table fs /\
      R (Reached ch) /\ attr_at (vfs fs) ch at_ /\ granted at_ fl = true /\ chain_of (vfs fs') c ch /\ inode_at ch = Some n /\
      opened f n c fl (ifmt (a_mode at_)) /\ private (vfs fs') = private (vfs fs) /\ attrs_of (vfs fs') = attrs_of (vfs fs) /\
      sound fs' T (fun b => held b + one a b) g' /\ (forall d, own g' d = own g d + one c d) /\ (forall k, own_node g' k = own_node g k + one n k)
  end.

Lemma open_at_spec fs T held g at_ path fl m st1 d ch : sound fs T held g -> links_fit (private (vfs fs)) -> O_CREAT (lookup_flags fl) = false -> O_EXCL (lookup_flags fl) = false -> fits path ->
  get_start at_ path (vfs fs) = Some (st1, d) -> 1 <= own g d -> chain_of (vfs fs) d ch -> 0 <= SYMLOOP_MAX ->
  let R o := exists l, resolves (vfs fs) g (O_NOFOLLOW (lookup_flags fl)) (Z.to_nat SYMLOOP_MAX) (path_array path) ch l o in
  (forall ch' a, R (Reached ch') -> attr_at (vfs fs) ch' a -> ~ is_device (ifmt (a_mode a))) ->
  open_result fs T held g path fl R (vfs_open_at at_ path fl m fs).
Proof.
  intros S Hl Hcr Hex Hfit Es Ho Hc Hmax R Hdev. pose proof (so_wf _ _ _ _ S) as W.
  pose proof (get_dentry_spec at_ path (lookup_flags fl) m (vfs fs) g st1 d ch W Hl Hcr Hex Hfit Es Ho Hc Hmax) as Hw.
  unfold vfs_open_at, on_vfs. destruct (vfs_get_dentry_at at_ path (lookup_flags fl) m (vfs fs)) as [[st' [c|err]]|]; cbn [mbind option_bind]; [| |destruct Hw as (l' & o & Hr & [->| ->]); [left|right]; by exists l'].
  2:{ destruct Hw as (g' & W' & K' & Ho' & Hr). split; [|by destruct Hr as [(-> & Ha)|Hr]; [left; rewrite Z2Nat.id in Ha by done; split; [done|by left]|right; left]]. exists g'. cbn.
      assert (S' : sound (set_vfs st' fs) T held g') by (apply (sound_walked fs T held g st' g' (fun _ => 0)); try done; intros c; rewrite Ho'; lia).
      pose proof (k_own_node _ _ _ _ _ K') as Hn. rewrite (k_private _ _ _ _ _ K'), (kept_attrs _ _ _ _ _ K'). split_and!; try done. intros n. by rewrite Hn. }
  destruct Hw as (g1 & l' & ch' & W1 & K1 & Ho1 & Hc1 & Hr1).
  assert (S1 : sound (set_vfs st' fs) T held g1) by (apply (sound_walked fs T held g st' g1 (one c)); try done; intros k; apply one_nonneg).
  set (fs1 := set_vfs st' fs) in *. change (vfs fs1) with st'.
  pose proof (so_dentry _ _ _ _ S c) as Huc. pose proof (count_if_nonneg (fun f => bool_decide (f_dentry f = Some c)) (files fs)) as Hnn. fold (entry_users (files fs) c) in Hnn.
  assert (Hoc : 1 <= own g1 c) by (rewrite Ho1, one_self; lia). assert (Hlc : c ∈ live g1) by (by apply (wf_own _ _ W1)).
  destruct (wf_live _ _ W1 c Hlc) as (e & n & He & Hi). destruct (entry_inode st' g1 c e n W1 Hlc He Hi) as (x & _ & _ & Hx & _).
  destruct (chain_head st' c e n ch' Hc1 He Hi) as (Hh & _).
  assert (Hat : attr_at (vfs fs) ch' (attr_of x)). { exists (name e), n, (mount_point e). split; [done|]. rewrite <- (kept_attrs _ _ _ _ _ K1). unfold attrs_of. by rewrite lookup_fmap, Hx. }
  rewrite He. cbn [mbind option_bind]. rewrite Hi. cbn [mbind option_bind].
  pose proof (open_node_spec fs1 T held g1 c e n x fl S1 Hlc Hoc He Hi Hx (Hdev ch' (attr_of x) (ex_intro _ l' Hr1) Hat)) as Hon. fold (granted (attr_of x) fl) in Hon.
  assert (Hfail : forall err, err = ENOMEM /\ file_pool fs = [] \/ granted (attr_of x) fl = false /\ err = EACCES -> vfs_open_node n (Some c) fl fs1 = Some (fs1, Err err) ->
    open_result fs T held g path fl R ('(fs, r) ← vfs_open_node n (Some c) fl fs1; fs ← on_vfs_ (vfs_dentry_release c) fs; Some (fs, r))).
  { intros err Herr ->. cbn [mbind option_bind]. destruct (release_entry fs1 T held g1 c S1) as (st2 & g2 & E2 & S2 & Ho2 & Hn2 & K2); [cbn; rewrite Ho1, one_self; lia|].
    rewrite E2. cbn [mbind option_bind]. split.
    - exists g2. cbn. rewrite (k_private _ _ _ _ _ K2), (kept_attrs _ _ _ _ _ K2). change (vfs fs1) with st'. rewrite (k_private _ _ _ _ _ K1), (kept_attrs _ _ _ _ _ K1). split_and!; try done.
      + intros k. rewrite Ho2, Ho1. lia.
      + intros k. by rewrite Hn2, (k_own_node _ _ _ _ _ K1).
    - destruct Herr as [(-> & Hp)|(Hg & ->)]; [left; split; [done|by right]|]. right; right. exists ch', (attr_of x). split_and!; try done. by exists l'. }
  destruct (granted (attr_of x) fl) eqn:Hgr; [|by apply (Hfail EACCES); auto].
  destruct (file_pool fs1) as [|a rest] eqn:Hpool; [by apply (Hfail ENOMEM); auto|].
  destruct Hon as (st2 & f & g2 & E2 & Hop & Hsm & W2 & Ho2 & Hn2). rewrite E2. cbn [mbind option_bind].
  assert (S2 : sound (set_vfs st2 (set_file_pool rest (set_files (<[a := f]> (files fs1)) fs1))) T (fun b => held b + one a b) g2).
  { apply (sound_new fs1 T held g1 a rest f c e n st2 g2); try done; apply Hop || apply Hsm. }
  set (fs2 := set_vfs st2 _) in *. assert (Hfree : files fs !! a = None) by (apply (so_pool _ _ _ _ S1); rewrite Hpool; left).
  assert (HU : entry_users (files fs2) c = entry_users (files fs) c + 1) by (change (files fs2) with (<[a := f]> (files fs)); rewrite entry_users_insert, delete_id, (on_dentry _ _ _ _ _ Hop), is_some_one, one_self by done; lia).
  destruct (release_entry fs2 T _ g2 c S2) as (st3 & g3 & E3 & S3 & Ho3 & Hn3 & K3); [rewrite HU, Ho2, Ho1, one_self; lia|].
  rewrite E3. cbn [mbind option_bind]. exists g3, f, rest, c, n, ch', (attr_of x). cbn -[one]. change (files fs1) with (files fs) in *.
  rewrite (k_private _ _ _ _ _ K3), (kept_attrs _ _ _ _ _ K3). change (vfs fs2) with st2. rewrite (sm_private _ _ Hsm), (sm_attrs _ _ Hsm). change (vfs fs1) with st'. rewrite (k_private _ _ _ _ _ K1), (kept_attrs _ _ _ _ _ K1).
  split_and!; try done.
  - by exists l'.
  - apply (kept_chain _ (vfs fs2) g2 st3 g3 c ch' K3); [constructor; rewrite Ho2, Ho1, one_self; lia|]. by apply (same_chain st').
  - unfold inode_at. by rewrite Hh.
  - intros k. rewrite Ho3, Ho2, Ho1. lia.
  - intros k. by rewrite Hn3, Hn2, (k_own_node _ _ _ _ _ K1).
Qed.


Lemma unchanged_closed fs T held g a f rest fs' g' fs2 g2 c n : sound fs T held g -> file_pool fs = a :: rest -> file_pool fs' = rest -> files fs' = <[a := f]> (files fs) -> fd_table fs' = fd_table fs ->
  f_dentry f = Some c -> f_inode f = Some n -> f_ref f = 1 -> private (vfs fs') = private (vfs fs) -> attrs_of (vfs fs') = attrs_of (vfs fs) ->
  (forall d, own g' d = own g d + one c d) -> (forall k, own_node g' k = own_node g k + one n k) ->
  sound fs2 T held g2 -> closed fs' g' a f fs2 g2 -> fd_table fs2 = fd_table fs' -> unchanged fs T held g fs2.
Proof.
  intros S Hp Hp' Hf Ht Hd Hi Hr Hpr Hat Ho Hn S2 [C1 C2 C3 C4 C5 C6] Ht2. rewrite Hr in *. cbn [Z.eqb Pos.eqb] in *. change (1 =? 1) with true in *. cbn match in *.
  exists g2. rewrite C1, Hf, C2, Hp', Hp, Ht2, Ht, (k_private _ _ _ _ _ C6), (kept_attrs _ _ _ _ _ C6). split_and!; try done.
  - apply delete_insert_id. apply (so_pool _ _ _ _ S). rewrite Hp. left.
  - intros d. rewrite C4, Ho, Hd, is_some_one. lia.
  - intros k. rewrite C5, Hn, Hi, is_some_one. lia.
Qed.

Lemma close_new fs T held g a f : sound fs T (fun b => held b + one a b) g -> files fs !! a = Some f -> held a = 0 -> descriptors T a = 0 -> plain f ->
  exists fs' g', vfs_close a fs = Some fs' /\ sound fs' T held g' /\ closed fs g a f fs' g' /\ fd_table fs' = fd_table fs.
Proof.
  intros S Hf Hz Hz' Hp. destruct (so_ref _ _ _ _ S a f Hf) as (_ & Hr). cbn in Hr. rewrite one_self in Hr.
  destruct (close_last fs T _ g a f S Hf) as (fs' & g' & E1 & S1 & C1); try done; [cbn; rewrite one_self; lia|lia|]. exists fs', g'. split_and!; try done.
  - eapply sound_held; [|exact S1]. intros b. cbn. lia.
  - revert E1. unfold vfs_close. rewrite Hf. cbn [mbind option_bind]. unfold upd_file. rewrite Hf. cbn [mbind option_bind]. rewrite (proj2 (Z.ltb_ge _ _)) by lia. destruct Hp as (-> & Ht1 & Ht2 & _). cbn [mbind option_bind].
    assert (Hty : forall X Y : option (fstate F), match f_type f with S_IFBLK | S_IFCHR => X | _ => Y end = Y) by (by destruct (f_type f)). rewrite Hty. cbn [mbind option_bind]. unfold on_vfs_.
    destruct (vfs_node_release _ _) as [v1|]; [|done]. cbn [mbind option_bind vfs set_vfs]. destruct (release_opt _ _) as [v2|]; [|done]. cbn. intros [= <-]. done.
Qed.

(** What [sys_open] gives. *)
Definition call_result fs T held g (path : list Z) (fl : call_flags) (R : outcome -> Prop) (r : option (fstate F * res Z)) : Prop :=
  match r with
  | None => R Exhausted \/ R Panics
  | Some (fs', Err err) => unchanged fs T held g fs' /\ (err = ENOMEM /\ short_of fs path \/ R (Failed err) \/ exists ch at_, R (Reached ch) /\ attr_at (vfs fs) ch at_ /\ refused at_ fl err)
  | Some (fs', Ok fd) => exists g' a f c n ch at_, lowest_free T fd /\ files fs !! a = None /\ files fs' = <[a := f]> (files fs) /\
      R (Reached ch) /\ attr_at (vfs fs) ch at_ /\ ~ (exists err, refused at_ fl err) /\ chain_of (vfs fs') c ch /\ inode_at ch = Some n /\
      opened f n c (kept_flags fl) (ifmt (a_mode at_)) /\ private (vfs fs') = private (vfs fs) /\ attrs_of (vfs fs') = attrs_of (vfs fs) /\
      sound fs' (<[fd := (a, has (if O_CLOEXEC fl then FD_CLOEXEC else 0) FD_CLOEXEC)]> T) held g'
  end.

Lemma isdir_ifmt m : S_ISDIR m = bool_decide (ifmt m = S_IFDIR).
Proof. unfold S_ISDIR. by destruct (ifmt m). Qed.

Lemma sys_open_spec junk fs T held g path fl m st1 d ch : sound fs T held g -> roomy (fd_table fs) -> links_fit (private (vfs fs)) ->
  let l := lookup_flags (kept_flags fl) in O_CREAT l = false -> O_EXCL l = false -> O_TRUNC fl = false -> O_WRONLY l && O_RDWR l = false -> fits path ->
  get_start None path (vfs fs) = Some (st1, d) -> 1 <= own g d -> chain_of (vfs fs) d ch -> 0 <= SYMLOOP_MAX ->
  let R o := exists k, resolves (vfs fs) g (O_NOFOLLOW l) (Z.to_nat SYMLOOP_MAX) (path_array path) ch k o in
  (forall ch' a, R (Reached ch') -> attr_at (vfs fs) ch' a -> ~ is_device (ifmt (a_mode a))) ->
  call_result fs T held g path fl R (sys_open junk (Some path) fl m fs).
Proof.
  intros S Hroom Hl l Hcr Hex Htr Hboth Hfit Es Ho Hc Hmax R Hdev. unfold sys_open. fold l. rewrite Hboth.
  pose proof (open_at_spec fs T held g None path (kept_flags fl) (Z.ldiff m (umask fs)) st1 d ch S Hl Hcr Hex Hfit Es Ho Hc Hmax Hdev) as Hop. fold l in Hop. fold R in Hop.
  destruct (vfs_open_at _ _ _ _ _) as [[fs' [a|err]]|]; cbn [mbind option_bind]; [| |exact Hop].
  2:{ destruct Hop as (Hun & Hop). split; [done|]. destruct Hop as [|[|(ch' & at_ & H1 & H2 & H3 & ->)]]; [by left|by right; left|]. right; right. exists ch', at_. split_and!; try done. by left. }
  destruct Hop as (g' & f & rest & c & n & ch' & at_ & Hpool & Hpool' & Hfs & Htb & HR & Hat & Hgr & Hch & Hin & Hopen & Hpr & Hats & S' & Ho' & Hn').
  assert (Hfa : files fs' !! a = Some f) by (rewrite Hfs; apply lookup_insert_eq). assert (Hfree : files fs !! a = None) by (apply (so_pool _ _ _ _ S); rewrite Hpool; left).
  destruct (unnamed fs T held g a S Hfree) as (Hz1 & Hz2). destruct Hopen as [O1 O2 O3 O4 O5 O6 O7].
  rewrite Hfa. cbn [mbind option_bind]. rewrite O1. cbn [mbind option_bind].
  assert (Hx : exists x, nodes (vfs fs') !! n = Some x /\ attr_of x = at_).
  { destruct Hat as (s0 & n0 & m0 & Hh & Ha). unfold inode_at in Hin. rewrite Hh in Hin. cbn in Hin. injection Hin as ->. rewrite <- Hats in Ha. unfold attrs_of in Ha. rewrite lookup_fmap in Ha.
    destruct (nodes (vfs fs') !! n) as [x|]; [|done]. exists x. split; [done|]. cbn in Ha. congruence. }
  destruct Hx as (x & Hx & Hxa). rewrite Hx. cbn [mbind option_bind]. assert (Hm : mode x = a_mode at_) by (by rewrite <- Hxa). rewrite Hm, !isdir_ifmt, Htr, Hcr, !orb_false_r.
  assert (Hclose : forall err, refused at_ fl err -> call_result fs T held g path fl R (fs ← vfs_close a fs'; Some (fs, Err err))).
  { intros err Herr. destruct (close_new fs' T held g' a f S' Hfa Hz1 Hz2 O7) as (fs2 & g2 & E2 & S2 & C2 & T2). rewrite E2. cbn [mbind option_bind]. split.
    - by apply (unchanged_closed fs T held g a f rest fs' g' fs2 g2 c n).
    - right; right. by exists ch', at_. }
  destruct (O_DIRECTORY fl && negb (bool_decide (ifmt (a_mode at_) = S_IFDIR))) eqn:T1.
  { apply Hclose. right; left. apply andb_true_iff in T1 as (T1 & T2). apply negb_true_iff, bool_decide_eq_false in T2. done. }
  destruct ((O_WRONLY l || O_RDWR l) && bool_decide (ifmt (a_mode at_) = S_IFDIR)) eqn:T2.
  { apply Hclose. right; right. apply andb_true_iff in T2 as (T2 & T3). apply bool_decide_eq_true in T3. done. }
  cbn [mbind option_bind]. destruct (fd_add_spec junk fs' T _ g' a (if O_CLOEXEC fl then FD_CLOEXEC else 0) S') as (fs2 & fd & -> & Hlow & F2 & V2 & Hs2 & S2); [cbn; rewrite one_self; lia|by rewrite Htb|].
  cbn [mbind option_bind]. exists g', a, f, c, n, ch', at_. rewrite F2, V2. split; [done|]. split; [done|]. split; [done|]. split; [done|]. split; [done|].
  split. { intros (err & [(H1 & _)|[(H1 & H2 & _)|(H1 & H2 & _)]]); [congruence| |fold l in H1].
    - rewrite H1, bool_decide_eq_false_2 in T1 by done. done.
    - rewrite H1, bool_decide_eq_true_2 in T2 by done. done. }
  split_and!; try done. eapply sound_held; [|exact S2]. intros b. cbn. lia.
Qed.


End opens.


(** ** A process on a tmpfs *)

Section example.
Import Tmpfs.Tmpfs TmpfsLaws.TmpfsLaws TmpfsLaws.TmpfsLaws.Example.

(** The address of the table of the files of tmpfs. *)
Definition tmpfs_fd_ops : Z := 78.

Definition tmpfs_open (a : Z) (fs : fstate tmpfs) : option (fstate tmpfs) :=
  f ← files fs !! a; n ← f_inode f; upd_file (set_f_ops (Some tmpfs_fd_ops) n) a fs.

(** What reading, writing and mapping do is in [Tmpfs]; opening and closing do not use them. *)
#[local] Instance tmpfs_fd_tables : FdTables tmpfs := {
  fd_ops_table _ := mk_fd_ops None None None None None None None;
  op_inode_open t := if t =? tmpfs_inode_ops then Some tmpfs_open else None;
  op_readdir t := if t =? tmpfs_inode_ops then Some (fun n i st => r ← tmpfs_readdir n i st; Some (match r with Ok (s, k, _) => Ok (s, k) | Err err => Err err end)) else None;
  device_cleanup _ _ := None;
}.
#[local] Instance ex_bits : FdBits := {| FD_CLOEXEC := 1; SEEK_SET := 0; SEEK_CUR := 1; SEEK_END := 2; MS_NODEV := 4 |}.

#[local] Instance tmpfs_open_laws : OpenLaws.
Proof.
  constructor. intros o open Ho a fs f Hf [n Hn]. cbn in Ho. destruct (_ =? _); [|done]. injection Ho as <-. exists tmpfs_fd_ops, n.
  unfold tmpfs_open, upd_file. rewrite Hf. cbn [mbind option_bind]. rewrite Hn. done.
Defined.

(** No open files. *)
Definition ex_fs : fstate tmpfs := mk_fstate ex_state ∅ [160; 176] (XArray.mk_xarray XArray.Null) 18 (XArray.mk_xarray XArray.Null) ∅.

Lemma ex_table : table_is (XArray.mk_xarray XArray.Null) ∅.
Proof.
  split.
  - exists O. split_and!; try done; lia.
  - intros fd v Hv. by rewrite lookup_empty in Hv.
  - intros fd Hfd. rewrite lookup_empty. rewrite (XArray.raw_get_spec 0) by (done || (split_and!; done || lia)). unfold XArray.contents. by destruct (_ <? _).
Qed.

Lemma ex_process_sound : sound ex_fs ∅ (fun _ => 0) ex_ghost.
Proof.
  assert (Hd : forall a, descriptors ∅ a = 0) by done. assert (Hu : forall P, count_if P (∅ : gmap Z vfs_fd) = 0) by done.
  split; cbn -[count_if descriptors]; try done.
  - apply ex_wf.
  - apply ex_table.
  - intros a [[f Hf]|Ha]; [done|]. apply list_elem_of_In in Ha. cbn in Ha. destruct Ha as [<-|[<-|[]]]; done.
  - split; [|done]. repeat constructor; try (rewrite list_elem_of_In; cbn; lia).
  - intros d. unfold entry_users. rewrite Hu. apply (wf_own _ _ ex_wf).
  - intros n. unfold inode_users. rewrite Hu. apply (wf_node _ _ ex_wf).
Qed.

Lemma ex_no_device n a : attrs_of ex_state !! n = Some a -> ~ is_device (ifmt (a_mode a)).
Proof.
  unfold attrs_of. rewrite lookup_fmap. destruct (nodes ex_state !! n) as [x|] eqn:Hx; [|done]. intros [= <-]. cbn in Hx. cases_of Hx; (intros [Ht|Ht]; discriminate Ht).
Qed.

Definition ex_flags : call_flags := mk_call_flags (mk_file_flags no_flags false) false false false.
Definition ex_path : list Z := [47; 97; 47; 102].
Definition ex_call := sys_open false (Some ex_path) ex_flags 0 ex_fs.

Lemma ex_roomy_one : roomy (XArray.mk_xarray (XArray.Value 160)).
Proof. exists O. split; [split; [discriminate|split; [lia|discriminate]]|]. split; [lia|exact I]. Qed.

(** The file /a/f is opened. *)
Lemma ex_open_result ch : chain_of ex_state 2 ch -> call_result ex_fs ∅ (fun _ => 0) ex_ghost ex_path ex_flags
  (fun o => exists k, resolves ex_state ex_ghost false 8 (path_array ex_path) ch k o) ex_call ->
  exists fs1 g1 a f, ex_call = Some (fs1, Ok 0) /\ sound fs1 {[0 := (a, false)]} (fun _ => 0) g1 /\ files fs1 = {[a := f]} /\ f_inode f = Some 103 /\ plain f /\ roomy (fd_table fs1).
Proof.
  intros Hc Hres. destruct ex_call as [[fs1 [fd|err]]|] eqn:E1; [|vm_compute in E1; discriminate E1|vm_compute in E1; discriminate E1].
  assert (Hv : fd = 0 /\ fd_table fs1 = XArray.mk_xarray (XArray.Value 160) /\ (f_inode <$> files fs1 !! 160) = Some (Some 103)) by (vm_compute in E1; injection E1 as <- <-; done).
  destruct Hv as (-> & Ht & Hn). destruct Hres as (g1 & a & f & c & n & ch' & at_ & _ & _ & Hf & _ & _ & _ & _ & _ & Hop & _ & _ & S1). cbn in S1.
  exists fs1, g1, a, f. rewrite Hf in Hn. cbn [files ex_fs] in Hn, Hf. rewrite insert_empty in Hn, Hf. apply fmap_Some in Hn as (f' & Hf' & Hi). apply lookup_singleton_Some in Hf' as (-> & ->).
  split; [reflexivity|]. split; [exact S1|]. split; [exact Hf|]. split; [by symmetry|]. split; [apply Hop|]. rewrite Ht. exact ex_roomy_one.
Qed.

Lemma ex_chain_root : exists ch, chain_of ex_state 2 ch.
Proof. apply ex_chain. cbn. set_solver. Qed.

Lemma ex_fits : fits ex_path.
Proof. split; [done|by repeat constructor]. Qed.

Lemma ex_start : exists st1, get_start None ex_path ex_state = Some (st1, 2).
Proof. destruct (get_start None ex_path ex_state) as [[st1 d]|] eqn:Es; [|vm_compute in Es; discriminate Es]. assert (d = 2) as -> by (vm_compute in Es; congruence). eauto. Qed.

Lemma ex_roomy : roomy (fd_table ex_fs).
Proof. exists O. split; [split; [exact I|split; [lia|done]]|]. split; [lia|exact I]. Qed.


Lemma ex_opened : exists fs1 g1 a f, ex_call = Some (fs1, Ok 0) /\ sound fs1 {[0 := (a, false)]} (fun _ => 0) g1 /\ files fs1 = {[a := f]} /\ f_inode f = Some 103 /\ plain f /\ roomy (fd_table fs1).
Proof.
  destruct ex_chain_root as (ch & Hc). destruct ex_start as (st1 & Es). apply (ex_open_result ch Hc).
  apply (sys_open_spec false ex_fs ∅ (fun _ => 0) ex_ghost ex_path ex_flags 0 st1 2 ch ex_process_sound ex_roomy ex_links_fit eq_refl eq_refl eq_refl eq_refl ex_fits Es ltac:(cbn; lia) Hc ltac:(cbn; lia)).
  intros ch' a _ (s & n & m & _ & Ha). by apply (ex_no_device n).
Qed.

(** It is closed again: no open file is left. *)
Lemma sys_close_correct_witness : exists fs1 fs2 g2, ex_call = Some (fs1, Ok 0) /\ sys_close 0 fs1 = Some (fs2, Ok tt) /\ sound fs2 ∅ (fun _ => 0) g2 /\ forall a, files fs2 !! a = None.
Proof.
  destruct ex_opened as (fs1 & g1 & a & f & E1 & S1 & Hf & _ & Hp & _).
  destruct (sys_close_correct fs1 {[0 := (a, false)]} (fun _ => 0) g1 0 S1 ltac:(lia)) as (fs2 & g2 & E2 & S2 & _ & Hfs).
  { intros b c f' _ Hb _. rewrite Hf in Hb. apply lookup_singleton_Some in Hb as (_ & <-). done. }
  rewrite delete_singleton_eq in S2, Hfs. exists fs1, fs2, g2. split; [exact E1|]. split; [exact E2|]. split; [exact S2|]. intros b. rewrite (Hfs b). by destruct (files fs1 !! b).
Defined.

(** The descriptor 0 is copied to 1, which names the same file already: the file has two references. *)
Lemma sys_dup2_correct_witness : exists fs2 fs3 g3 a, sys_dup2 0 1 fs2 = Some (fs3, Ok 1) /\ sound fs3 {[0 := (a, false); 1 := (a, false)]} (fun _ => 0) g3 /\ f_ref <$> files fs3 !! a = Some 2.
Proof.
  destruct ex_opened as (fs1 & g1 & a & f & _ & S1 & Hf & _ & Hp & Hroom).
  destruct (sys_dup_spec false fs1 {[0 := (a, false)]} (fun _ => 0) g1 0 a false S1 Hroom eq_refl) as (fs2 & fd & E2 & Hlow & S2 & _ & Hfs).
  assert (fd = 1) as ->.
  { destruct Hlow as (H0 & H1 & H2). destruct (decide (fd = 0)) as [->|]; [done|]. destruct (decide (fd = 1)) as [|]; [done|]. destruct (H2 1 ltac:(lia)) as [v Hv]. done. }
  destruct (sys_dup2_correct fs2 _ (fun _ => 0) g1 0 1 a false S2) as (fs3 & g3 & E3 & S3 & _ & Hfs3); [lia|done|done| |].
  { intros b c f' Hb Hf'. rewrite (Hfs b), Hf in Hf'. destruct (decide (b = a)) as [->|]; [|rewrite lookup_singleton_ne in Hf' by done; done].
    rewrite lookup_singleton_eq in Hf'. cbn [mbind option_bind] in Hf'. destruct (0 <? _); [|done]. injection Hf' as <-. by apply plain_ref. }
  rewrite insert_insert_eq in S3, Hfs3. exists fs2, fs3, g3, a. split; [exact E3|]. cbn in S3, Hfs3.
  assert (Hm : <[1 := (a, false)]> {[0 := (a, false)]} = {[0 := (a, false); 1 := (a, false)]} :> gmap Z (Z * bool)) by reflexivity.
  split; [by rewrite <- Hm|]. rewrite (Hfs3 a), (Hfs a), Hf, lookup_singleton_eq. cbn [mbind option_bind].
  assert (Hn : descriptors (<[1 := (a, false)]> {[0 := (a, false)]}) a = 2).
  { rewrite descriptors_insert, names_one, one_self, delete_id by done. rewrite <- insert_empty, descriptors_insert, names_one, one_self, delete_empty. done. }
  change (has (flag_of false) FD_CLOEXEC) with false. change (has 0 1) with false. by rewrite !Hn.
Defined.
End example.

End VfdOpen.
