(* ===== verification/TmpfsDefects.v ===== *)
(** Runs of the virtual file system over tmpfs where the code does not do what it means to.

    Each theorem evaluates calls on the state [ex_state] (a tmpfs with the directory /a, the file /a/f
    and the link /l to a/f) or on the state after boot. *)

From S2P Require Import Prelude Cache Vfs Tmpfs VfsInv TmpfsLaws.

Module TmpfsDefects.
Import Vfs Tmpfs VfsInv TmpfsLaws Example.

(** The answer of a call, and what is seen in the state after it. *)
Definition after {A B} (r : option (state * A)) (f : state -> B) : option (A * B) := '(st, a) ← r; Some (a, f st).
Definition answer {A} (r : option (state * A)) : option A := '(_, a) ← r; Some a.

(** The entry of a path; the names used below are s (115) and g (103). *)
Definition find (path : list Z) (st : state) : option (res Z) := answer (vfs_get_dentry_at None path no_flags 511 st).

(** A link to an absolute path: the walk continues from a null entry, which it asserts it is not. *)
Theorem absolute_link_panics : after (vfs_symlink_at [SLASH; 97] None [SLASH; 115] ex_state) (find [115]) = Some (Ok tt, None).
Proof. vm_compute. reflexivity. Qed.

(** A link to itself: the walk returns a variable that was never set. *)
Theorem link_loop_unset : after (vfs_symlink_at [115] None [SLASH; 115] ex_state) (find [115]) = Some (Ok tt, None).
Proof. vm_compute. reflexivity. Qed.

(** Renaming /a/f to /a/g: the cached entry keeps its name, so the old name still leads to the file. *)
Theorem rename_keeps_old_name :
  after (vfs_rename_at None [97; SLASH; 102] None [97; SLASH; 103] 0 ex_state) (find [97; SLASH; 102]) = Some (Ok tt, Some (Ok 5)).
Proof. vm_compute. reflexivity. Qed.

(** Renaming a file to its own name frees its directory entry and then reads it. *)
Theorem rename_to_itself_uses_freed : vfs_rename_at None [97; SLASH; 102] None [97; SLASH; 102] 0 ex_state = None.
Proof. vm_compute. reflexivity. Qed.

(** Removing the directory "a/.": the file system asserts that it has an entry of that name. *)
Theorem rmdir_dot_panics : vfs_rmdir_at None [97; SLASH; DOT] ex_state = None.
Proof. vm_compute. reflexivity. Qed.

(** A new file has two links, one from the inode that was made and one from its entry. *)
Theorem new_file_has_two_links : nlink <$> nodes ex_state !! 103 = Some 2.
Proof. reflexivity. Qed.

(** Making a directory that is there: the entry that was prepared for it has no references when it is
    released, so its count wraps around and the object is lost. *)
Theorem mkdir_exists_leaks :
  dentry_pool ex_state = [6; 7] /\
  after (vfs_mkdir_at None [97] 511 ex_state) (fun st => (dentry_pool st, ref_count <$> dentries st !! 6)) = Some (Err EEXIST, ([7], Some (2 ^ 64 - 1))).
Proof. split; vm_compute; reflexivity. Qed.

(** Changing the owner means to clear the bits that change the user, and does not. *)
Theorem chown_keeps_setuid :
  after ('(st, _) ← vfs_chmod 103 (Z.lor 493 S_ISUID) ex_state; vfs_chown 103 7 7 st) (fun st => (fun x => (uid x, perms (mode x))) <$> nodes st !! 103)
  = Some (Ok tt, Some (7, Z.lor 493 S_ISUID)).
Proof. vm_compute. reflexivity. Qed.

(** A working directory is changed: one reference to it is never given back. *)
Theorem chdir_leaks :
  after (sys_chdir [SLASH; 97] ex_state) (fun st => (proc_context st, ref_count <$> dentries st !! 3)) = Some (Ok tt, (Some (mk_context 2 3), Some 3)).
Proof. vm_compute. reflexivity. Qed.

(** A link to a directory is made. *)
Theorem directory_links : answer (vfs_link_at None [97] None [103] ex_state) = Some (Ok tt).
Proof. vm_compute. reflexivity. Qed.

End TmpfsDefects.
