(* ===== verification/Process.v ===== *)
(** Processes, process groups, sessions and credentials (kernel/task/process.c, cred.c, process.h, cred.h) and
    the system calls on them (kernel/task/syscall.c).

    Objects live at addresses; those that are not in use are in the pools of their caches, and an empty pool is
    an allocation that fails.  What a new object of a cache holds before it is initialised is an argument
    ([junk]).  A list of the kernel is the list of the objects that are on it; taking an object off a list that
    it is not on is undefined.  What exiting does to other components is kept in logs: the signals for parents
    ([alerts]: the receiver and the pid of the child), the files that are closed, the threads that are woken.
    [None] is a state that the kernel does not survive: a failed assertion, a null or freed object that is used,
    a lock that is taken twice or released when it is not held. *)

From S2P Require Import Prelude.

Module Process.

(** ** The state *)

Record cred_groups := mk_cred_groups { cg_ref : Z; gids : list Z }.
Record cred := mk_cred { c_ref : Z; c_groups : option Z; uid : Z; euid : Z; suid : Z; gid : Z; egid : Z; sgid : Z }.
Definition set_c_ref r c := mk_cred r (c_groups c) (uid c) (euid c) (suid c) (gid c) (egid c) (sgid c).
Definition set_c_groups g c := mk_cred (c_ref c) g (uid c) (euid c) (suid c) (gid c) (egid c) (sgid c).

Record session := mk_session { s_ref : Z; leader : Z; sid : Z; s_groups : list Z }.
Record process_group := mk_group { g_ref : Z; g_session : option Z; pgid : Z; processes : list Z }.
Definition set_s_ref r s := mk_session r (leader s) (sid s) (s_groups s).
Definition set_s_groups l s := mk_session (s_ref s) (leader s) (sid s) l.
Definition set_g_ref r g := mk_group r (g_session g) (pgid g) (processes g).
Definition set_g_session s g := mk_group (g_ref g) s (pgid g) (processes g).
Definition set_processes l g := mk_group (g_ref g) (g_session g) (pgid g) l.

Inductive proc_state := PROC_STATE_NONE | PROC_STATE_RUNNING | PROC_STATE_ZOMBIE.

Record process := mk_process {
  p_ref : Z;
  p_parent : option Z;
  p_group : option Z;
  p_cred : option Z;
  pid : Z;
  p_child : list Z;
  p_state : proc_state;
  exit_status : Z;
  killed : bool;
  threads : list Z;
  p_umask : Z;
  cmdline : list Z;
  p_root : option Z;
  p_cwd : option Z;
  p_exe : option Z;
  fd_table : list Z;
  mapped : bool;
  proc_lock : bool;
  wait_queue : list Z;
}.

Definition set_p_ref v p := mk_process v (p_parent p) (p_group p) (p_cred p) (pid p) (p_child p) (p_state p) (exit_status p) (killed p) (threads p) (p_umask p) (cmdline p) (p_root p) (p_cwd p) (p_exe p) (fd_table p) (mapped p) (proc_lock p) (wait_queue p).
Definition set_p_parent v p := mk_process (p_ref p) v (p_group p) (p_cred p) (pid p) (p_child p) (p_state p) (exit_status p) (killed p) (threads p) (p_umask p) (cmdline p) (p_root p) (p_cwd p) (p_exe p) (fd_table p) (mapped p) (proc_lock p) (wait_queue p).
Definition set_p_group v p := mk_process (p_ref p) (p_parent p) v (p_cred p) (pid p) (p_child p) (p_state p) (exit_status p) (killed p) (threads p) (p_umask p) (cmdline p) (p_root p) (p_cwd p) (p_exe p) (fd_table p) (mapped p) (proc_lock p) (wait_queue p).
Definition set_p_cred v p := mk_process (p_ref p) (p_parent p) (p_group p) v (pid p) (p_child p) (p_state p) (exit_status p) (killed p) (threads p) (p_umask p) (cmdline p) (p_root p) (p_cwd p) (p_exe p) (fd_table p) (mapped p) (proc_lock p) (wait_queue p).
Definition set_p_pid v p := mk_process (p_ref p) (p_parent p) (p_group p) (p_cred p) v (p_child p) (p_state p) (exit_status p) (killed p) (threads p) (p_umask p) (cmdline p) (p_root p) (p_cwd p) (p_exe p) (fd_table p) (mapped p) (proc_lock p) (wait_queue p).
Definition set_p_child v p := mk_process (p_ref p) (p_parent p) (p_group p) (p_cred p) (pid p) v (p_state p) (exit_status p) (killed p) (threads p) (p_umask p) (cmdline p) (p_root p) (p_cwd p) (p_exe p) (fd_table p) (mapped p) (proc_lock p) (wait_queue p).
Definition set_p_state v p := mk_process (p_ref p) (p_parent p) (p_group p) (p_cred p) (pid p) (p_child p) v (exit_status p) (killed p) (threads p) (p_umask p) (cmdline p) (p_root p) (p_cwd p) (p_exe p) (fd_table p) (mapped p) (proc_lock p) (wait_queue p).
Definition set_p_exit_status v p := mk_process (p_ref p) (p_parent p) (p_group p) (p_cred p) (pid p) (p_child p) (p_state p) v (killed p) (threads p) (p_umask p) (cmdline p) (p_root p) (p_cwd p) (p_exe p) (fd_table p) (mapped p) (proc_lock p) (wait_queue p).
Definition set_p_killed v p := mk_process (p_ref p) (p_parent p) (p_group p) (p_cred p) (pid p) (p_child p) (p_state p) (exit_status p) v (threads p) (p_umask p) (cmdline p) (p_root p) (p_cwd p) (p_exe p) (fd_table p) (mapped p) (proc_lock p) (wait_queue p).
Definition set_p_threads v p := mk_process (p_ref p) (p_parent p) (p_group p) (p_cred p) (pid p) (p_child p) (p_state p) (exit_status p) (killed p) v (p_umask p) (cmdline p) (p_root p) (p_cwd p) (p_exe p) (fd_table p) (mapped p) (proc_lock p) (wait_queue p).
Definition set_p_umask v p := mk_process (p_ref p) (p_parent p) (p_group p) (p_cred p) (pid p) (p_child p) (p_state p) (exit_status p) (killed p) (threads p) v (cmdline p) (p_root p) (p_cwd p) (p_exe p) (fd_table p) (mapped p) (proc_lock p) (wait_queue p).
Definition set_p_cmdline v p := mk_process (p_ref p) (p_parent p) (p_group p) (p_cred p) (pid p) (p_child p) (p_state p) (exit_status p) (killed p) (threads p) (p_umask p) v (p_root p) (p_cwd p) (p_exe p) (fd_table p) (mapped p) (proc_lock p) (wait_queue p).
Definition set_p_root v p := mk_process (p_ref p) (p_parent p) (p_group p) (p_cred p) (pid p) (p_child p) (p_state p) (exit_status p) (killed p) (threads p) (p_umask p) (cmdline p) v (p_cwd p) (p_exe p) (fd_table p) (mapped p) (proc_lock p) (wait_queue p).
Definition set_p_cwd v p := mk_process (p_ref p) (p_parent p) (p_group p) (p_cred p) (pid p) (p_child p) (p_state p) (exit_status p) (killed p) (threads p) (p_umask p) (cmdline p) (p_root p) v (p_exe p) (fd_table p) (mapped p) (proc_lock p) (wait_queue p).
Definition set_p_exe v p := mk_process (p_ref p) (p_parent p) (p_group p) (p_cred p) (pid p) (p_child p) (p_state p) (exit_status p) (killed p) (threads p) (p_umask p) (cmdline p) (p_root p) (p_cwd p) v (fd_table p) (mapped p) (proc_lock p) (wait_queue p).
Definition set_p_fd_table v p := mk_process (p_ref p) (p_parent p) (p_group p) (p_cred p) (pid p) (p_child p) (p_state p) (exit_status p) (killed p) (threads p) (p_umask p) (cmdline p) (p_root p) (p_cwd p) (p_exe p) v (mapped p) (proc_lock p) (wait_queue p).
Definition set_p_mapped v p := mk_process (p_ref p) (p_parent p) (p_group p) (p_cred p) (pid p) (p_child p) (p_state p) (exit_status p) (killed p) (threads p) (p_umask p) (cmdline p) (p_root p) (p_cwd p) (p_exe p) (fd_table p) v (proc_lock p) (wait_queue p).
Definition set_p_proc_lock v p := mk_process (p_ref p) (p_parent p) (p_group p) (p_cred p) (pid p) (p_child p) (p_state p) (exit_status p) (killed p) (threads p) (p_umask p) (cmdline p) (p_root p) (p_cwd p) (p_exe p) (fd_table p) (mapped p) v (wait_queue p).
Definition set_p_wait_queue v p := mk_process (p_ref p) (p_parent p) (p_group p) (p_cred p) (pid p) (p_child p) (p_state p) (exit_status p) (killed p) (threads p) (p_umask p) (cmdline p) (p_root p) (p_cwd p) (p_exe p) (fd_table p) (mapped p) (proc_lock p) v.

Record state := mk_state {
  creds : gmap Z cred;
  cred_pool : list Z;
  cred_groups_of : gmap Z cred_groups;
  groups_pool : list Z;
  sessions : gmap Z session;
  session_pool : list Z;
  groups : gmap Z process_group;
  group_pool : list Z;
  group_table : gmap Z Z;
  procs : gmap Z process;
  proc_pool : list Z;
  proc_table : gmap Z Z;
  proctree_lock : bool;
  entry_refs : gmap Z Z;
  alerts : list (Z * Z);
  closes : list Z;
  wakeups : list Z;
}.

Definition set_creds v st := mk_state v (cred_pool st) (cred_groups_of st) (groups_pool st) (sessions st) (session_pool st) (groups st) (group_pool st) (group_table st) (procs st) (proc_pool st) (proc_table st) (proctree_lock st) (entry_refs st) (alerts st) (closes st) (wakeups st).
Definition set_cred_pool v st := mk_state (creds st) v (cred_groups_of st) (groups_pool st) (sessions st) (session_pool st) (groups st) (group_pool st) (group_table st) (procs st) (proc_pool st) (proc_table st) (proctree_lock st) (entry_refs st) (alerts st) (closes st) (wakeups st).
Definition set_cred_groups_of v st := mk_state (creds st) (cred_pool st) v (groups_pool st) (sessions st) (session_pool st) (groups st) (group_pool st) (group_table st) (procs st) (proc_pool st) (proc_table st) (proctree_lock st) (entry_refs st) (alerts st) (closes st) (wakeups st).
Definition set_groups_pool v st := mk_state (creds st) (cred_pool st) (cred_groups_of st) v (sessions st) (session_pool st) (groups st) (group_pool st) (group_table st) (procs st) (proc_pool st) (proc_table st) (proctree_lock st) (entry_refs st) (alerts st) (closes st) (wakeups st).
Definition set_sessions v st := mk_state (creds st) (cred_pool st) (cred_groups_of st) (groups_pool st) v (session_pool st) (groups st) (group_pool st) (group_table st) (procs st) (proc_pool st) (proc_table st) (proctree_lock st) (entry_refs st) (alerts st) (closes st) (wakeups st).
Definition set_session_pool v st := mk_state (creds st) (cred_pool st) (cred_groups_of st) (groups_pool st) (sessions st) v (groups st) (group_pool st) (group_table st) (procs st) (proc_pool st) (proc_table st) (proctree_lock st) (entry_refs st) (alerts st) (closes st) (wakeups st).
Definition set_groups v st := mk_state (creds st) (cred_pool st) (cred_groups_of st) (groups_pool st) (sessions st) (session_pool st) v (group_pool st) (group_table st) (procs st) (proc_pool st) (proc_table st) (proctree_lock st) (entry_refs st) (alerts st) (closes st) (wakeups st).
Definition set_group_pool v st := mk_state (creds st) (cred_pool st) (cred_groups_of st) (groups_pool st) (sessions st) (session_pool st) (groups st) v (group_table st) (procs st) (proc_pool st) (proc_table st) (proctree_lock st) (entry_refs st) (alerts st) (closes st) (wakeups st).
Definition set_group_table v st := mk_state (creds st) (cred_pool st) (cred_groups_of st) (groups_pool st) (sessions st) (session_pool st) (groups st) (group_pool st) v (procs st) (proc_pool st) (proc_table st) (proctree_lock st) (entry_refs st) (alerts st) (closes st) (wakeups st).
Definition set_procs v st := mk_state (creds st) (cred_pool st) (cred_groups_of st) (groups_pool st) (sessions st) (session_pool st) (groups st) (group_pool st) (group_table st) v (proc_pool st) (proc_table st) (proctree_lock st) (entry_refs st) (alerts st) (closes st) (wakeups st).
Definition set_proc_pool v st := mk_state (creds st) (cred_pool st) (cred_groups_of st) (groups_pool st) (sessions st) (session_pool st) (groups st) (group_pool st) (group_table st) (procs st) v (proc_table st) (proctree_lock st) (entry_refs st) (alerts st) (closes st) (wakeups st).
Definition set_proc_table v st := mk_state (creds st) (cred_pool st) (cred_groups_of st) (groups_pool st) (sessions st) (session_pool st) (groups st) (group_pool st) (group_table st) (procs st) (proc_pool st) v (proctree_lock st) (entry_refs st) (alerts st) (closes st) (wakeups st).
Definition set_proctree_lock v st := mk_state (creds st) (cred_pool st) (cred_groups_of st) (groups_pool st) (sessions st) (session_pool st) (groups st) (group_pool st) (group_table st) (procs st) (proc_pool st) (proc_table st) v (entry_refs st) (alerts st) (closes st) (wakeups st).
Definition set_entry_refs v st := mk_state (creds st) (cred_pool st) (cred_groups_of st) (groups_pool st) (sessions st) (session_pool st) (groups st) (group_pool st) (group_table st) (procs st) (proc_pool st) (proc_table st) (proctree_lock st) v (alerts st) (closes st) (wakeups st).
Definition set_alerts v st := mk_state (creds st) (cred_pool st) (cred_groups_of st) (groups_pool st) (sessions st) (session_pool st) (groups st) (group_pool st) (group_table st) (procs st) (proc_pool st) (proc_table st) (proctree_lock st) (entry_refs st) v (closes st) (wakeups st).
Definition set_closes v st := mk_state (creds st) (cred_pool st) (cred_groups_of st) (groups_pool st) (sessions st) (session_pool st) (groups st) (group_pool st) (group_table st) (procs st) (proc_pool st) (proc_table st) (proctree_lock st) (entry_refs st) (alerts st) v (wakeups st).
Definition set_wakeups v st := mk_state (creds st) (cred_pool st) (cred_groups_of st) (groups_pool st) (sessions st) (session_pool st) (groups st) (group_pool st) (group_table st) (procs st) (proc_pool st) (proc_table st) (proctree_lock st) (entry_refs st) (alerts st) (closes st) v.

Implicit Types (st : state) (a : Z).

Definition EUID_ROOT : Z := 0.

(** The static objects. *)
Definition default_cred : Z := 1.
Definition default_cred_groups : Z := 1.

Definition upd {A} (get : state -> gmap Z A) (set : gmap Z A -> state -> state) (f : A -> A) a st : option state :=
  x ← get st !! a; Some (set (<[a := f x]> (get st)) st).
Definition upd_cred := upd creds set_creds.
Definition upd_cred_groups := upd cred_groups_of set_cred_groups_of.
Definition upd_session := upd sessions set_sessions.
Definition upd_group := upd groups set_groups.
Definition upd_proc := upd procs set_procs.

(** An element off a list, which it is on. *)
Definition remove_from (x : Z) (l : list Z) : option (list Z) := kassert (bool_decide (x ∈ l));; Some (filter (fun y => y <> x) l).

(** ** Locks *)

Definition tree_acquire st : option state := kassert (negb (proctree_lock st));; Some (set_proctree_lock true st).
Definition tree_release st : option state := kassert (proctree_lock st);; Some (set_proctree_lock false st).
Definition proc_acquire a st : option state := p ← procs st !! a; kassert (negb (proc_lock p));; upd_proc (set_p_proc_lock true) a st.
Definition proc_unlock a st : option state := p ← procs st !! a; kassert (proc_lock p);; upd_proc (set_p_proc_lock false) a st.

(** ** Credentials *)

Definition cred_groups_ref (k : option Z) st : option state :=
  match k with Some k => upd_cred_groups (fun g => mk_cred_groups (cg_ref g + 1) (gids g)) k st | None => Some st end.

Definition cred_groups_release (k : option Z) st : option state :=
  match k with
  | None => Some st
  | Some k =>
      g ← cred_groups_of st !! k;
      st ← upd_cred_groups (fun g => mk_cred_groups (ref_dec (cg_ref g)) (gids g)) k st;
      if 1 <? cg_ref g then Some st
      else kassert (negb (k =? default_cred_groups));; Some (set_groups_pool (k :: groups_pool st) (set_cred_groups_of (delete k (cred_groups_of st)) st))
  end.

Definition cred_groups_new (junk : list Z) st : state * option Z :=
  match groups_pool st with
  | [] => (st, None)
  | k :: rest => (set_groups_pool rest (set_cred_groups_of (<[k := mk_cred_groups 1 junk]> (cred_groups_of st)) st), Some k)
  end.

Definition cred_ref (a : option Z) st : option state :=
  match a with Some a => upd_cred (fun c => set_c_ref (c_ref c + 1) c) a st | None => Some st end.

(** The slab cannot take an object back that it did not give. *)
Definition cred_release (a : option Z) st : option state :=
  match a with
  | None => Some st
  | Some a =>
      c ← creds st !! a;
      st ← upd_cred (set_c_ref (ref_dec (c_ref c))) a st;
      if 1 <? c_ref c then Some st
      else
        st ← cred_groups_release (c_groups c) st;
        kassert (negb (a =? default_cred));;
        Some (set_cred_pool (a :: cred_pool st) (set_creds (delete a (creds st)) st))
  end.

Definition cred_new (junk : cred) st : state * option Z :=
  match cred_pool st with
  | [] => (st, None)
  | a :: rest => (set_cred_pool rest (set_creds (<[a := junk]> (creds st)) st), Some a)
  end.

Definition cred_copy (dest src : Z) st : option state :=
  c ← creds st !! src;
  st ← cred_groups_ref (c_groups c) st;
  upd_cred (fun _ => mk_cred 1 (c_groups c) (uid c) (euid c) (suid c) (gid c) (egid c) (sgid c)) dest st.

Definition cred_dup (junk : cred) (a : Z) st : option (state * option Z) :=
  match cred_new junk st with
  | (st, None) => Some (st, None)
  | (st, Some new) => st ← cred_copy new a st; Some (st, Some new)
  end.

Definition proc_get_cred a st : option (option Z) := p ← procs st !! a; Some (p_cred p).

Definition proc_set_cred a (c : option Z) st : option state :=
  p ← procs st !! a;
  kassert (proc_lock p);;
  st ← cred_ref c st;
  st ← upd_proc (set_p_cred c) a st;
  cred_release (p_cred p) st.

(** The running process. *)
Class Current := { current : Z; init : Z }.

Section calls.
Context `{Current}.

Definition get_current_cred st : option Z := p ← procs st !! current; Some (default default_cred (p_cred p)).

Definition current_cred st : option cred := a ← get_current_cred st; creds st !! a.

(** What [sys_setuid] and the like share: the new credentials [f] of the old ones, where [allowed]. *)
Definition change_cred (junk : cred) (allowed : cred -> bool) (f : cred -> cred -> cred) st : option (state * res unit) :=
  match cred_new junk st with
  | (st, None) => Some (st, Err ENOMEM)
  | (st, Some new) =>
      st ← proc_acquire current st;
      c ← current_cred st;
      if negb (allowed c) then
        st ← cred_release (Some new) st;
        st ← proc_unlock current st;
        Some (st, Err EPERM)
      else
        a ← get_current_cred st;
        st ← cred_copy new a st;
        st ← upd_cred (f c) new st;
        st ← proc_set_cred current (Some new) st;
        st ← cred_release (Some new) st;
        st ← proc_unlock current st;
        Some (st, Ok tt)
  end.

Definition may_set_uid (u : Z) (c : cred) : bool := negb (negb (euid c =? EUID_ROOT) && negb (u =? uid c) && negb (u =? suid c)).
Definition may_set_gid (g : Z) (c : cred) : bool := negb (negb (euid c =? EUID_ROOT) && negb (g =? gid c) && negb (g =? sgid c)).

Definition set_euid (u : Z) c := mk_cred (c_ref c) (c_groups c) (uid c) u (suid c) (gid c) (egid c) (sgid c).
Definition set_uids (u : Z) c := mk_cred (c_ref c) (c_groups c) u u u (gid c) (egid c) (sgid c).
Definition set_egid (g : Z) c := mk_cred (c_ref c) (c_groups c) (uid c) (euid c) (suid c) (gid c) g (sgid c).
Definition set_gids (g : Z) c := mk_cred (c_ref c) (c_groups c) (uid c) (euid c) (suid c) g g g.

Definition sys_setuid (junk : cred) (u : Z) st : option (state * res unit) :=
  change_cred junk (may_set_uid u) (fun c new => if euid c =? EUID_ROOT then set_uids u new else set_euid u new) st.
Definition sys_seteuid (junk : cred) (u : Z) st : option (state * res unit) := change_cred junk (may_set_uid u) (fun _ => set_euid u) st.
Definition sys_setgid (junk : cred) (g : Z) st : option (state * res unit) :=
  change_cred junk (may_set_gid g) (fun c new => if euid c =? EUID_ROOT then set_gids g new else set_egid g new) st.
Definition sys_setegid (junk : cred) (g : Z) st : option (state * res unit) := change_cred junk (may_set_gid g) (fun _ => set_egid g) st.

Definition sys_getuid st : option Z := c ← current_cred st; Some (uid c).
Definition sys_geteuid st : option Z := c ← current_cred st; Some (euid c).
Definition sys_getgid st : option Z := c ← current_cred st; Some (gid c).
Definition sys_getegid st : option Z := c ← current_cred st; Some (egid c).

(** [list] is what the user memory holds, [None] where it cannot be read. *)
Definition sys_setgroups (junk : cred) (size : Z) (list : option (list Z)) st : option (state * res unit) :=
  match cred_groups_new [] st with
  | (st, None) => Some (st, Err ENOMEM)
  | (st, Some k) =>
      match list with
      | None => st ← cred_groups_release (Some k) st; Some (st, Err EFAULT)
      | Some l =>
          st ← upd_cred_groups (fun g => mk_cred_groups (cg_ref g) (take (Z.to_nat size) l)) k st;
          match cred_new junk st with
          | (st, None) => st ← cred_groups_release (Some k) st; Some (st, Err ENOMEM)
          | (st, Some new) =>
              st ← proc_acquire current st;
              c ← current_cred st;
              if negb (euid c =? EUID_ROOT) then
                st ← proc_unlock current st;
                st ← cred_groups_release (Some k) st;
                Some (st, Err EPERM)
              else
                a ← get_current_cred st;
                st ← cred_copy new a st;
                n ← creds st !! new;
                st ← cred_groups_release (c_groups n) st;
                st ← upd_cred (set_c_groups (Some k)) new st;
                st ← proc_set_cred current (Some new) st;
                st ← cred_release (Some new) st;
                st ← proc_unlock current st;
                Some (st, Ok tt)
          end
      end
  end.

(** [bad]: the buffer of the user cannot be written. *)
Definition sys_getgroups (size : Z) (bad : bool) st : option (state * res (Z * list Z)) :=
  a ← get_current_cred st;
  st ← cred_ref (Some a) st;
  c ← creds st !! a; k ← c_groups c; g ← cred_groups_of st !! k;
  let count := lenZ (gids g) in
  let ret := if size =? 0 then Ok (count, []) else if size <? count then Err EINVAL else if bad then Err EFAULT else Ok (count, gids g) in
  st ← cred_release (Some a) st;
  Some (st, ret).

(** ** Sessions and process groups *)

Definition session_ref (s : option Z) st : option state :=
  match s with Some s => upd_session (fun x => set_s_ref (s_ref x + 1) x) s st | None => Some st end.

Definition session_release (s : option Z) st : option state :=
  match s with
  | None => Some st
  | Some s =>
      x ← sessions st !! s;
      st ← upd_session (set_s_ref (ref_dec (s_ref x))) s st;
      if 1 <? s_ref x then Some st else Some (set_session_pool (s :: session_pool st) (set_sessions (delete s (sessions st)) st))
  end.

Definition process_group_ref (g : option Z) st : option state :=
  match g with Some g => upd_group (fun x => set_g_ref (g_ref x + 1) x) g st | None => Some st end.

Definition process_group_release (g : option Z) st : option state :=
  match g with
  | None => Some st
  | Some g =>
      x ← groups st !! g;
      st ← upd_group (set_g_ref (ref_dec (g_ref x))) g st;
      if 1 <? g_ref x then Some st
      else
        s ← g_session x;
        y ← sessions st !! s; l ← remove_from g (s_groups y);
        st ← upd_session (set_s_groups l) s st;
        st ← session_release (g_session x) st;
        let st := set_group_table (delete (pgid x) (group_table st)) st in
        Some (set_group_pool (g :: group_pool st) (set_groups (delete g (groups st)) st))
  end.

Definition process_group_from_pgid (n : Z) st : option (state * option Z) :=
  let g := group_table st !! n in
  st ← process_group_ref g st; Some (st, g).

Definition process_group_create (n : Z) st : state * option Z :=
  match group_pool st with
  | [] => (st, None)
  | g :: rest =>
      let st := set_group_pool rest (set_groups (<[g := mk_group 1 None n []]> (groups st)) st) in
      (set_group_table (<[n := g]> (group_table st)) st, Some g)
  end.

Definition process_group_set_session (g : Z) (s : option Z) st : option state :=
  x ← groups st !! g;
  kassert (bool_decide (g_session x = None));;
  st ← session_ref s st;
  st ← upd_group (set_g_session s) g st;
  s ← s; upd_session (fun y => set_s_groups (s_groups y ++ [g]) y) s st.

Definition is_leader (p : process) st : option bool :=
  match p_group p with Some g => x ← groups st !! g; Some (pgid x =? pid p) | None => Some false end.

(** The end of the membership of a process. *)
Definition leave_group a (g : Z) st : option state :=
  x ← groups st !! g;
  l ← remove_from a (processes x);
  st ← upd_group (set_processes l) g st;
  let st := if bool_decide (l = []) then set_group_table (delete (pgid x) (group_table st)) st else st in
  process_group_release (Some g) st.

Definition proc_set_group a (g : option Z) st : option (state * res unit) :=
  p ← procs st !! a;
  kassert (proctree_lock st && proc_lock p);;
  lead ← is_leader p st;
  if (lead : bool) then Some (st, Err EPERM)
  else if bool_decide (g = p_group p) then Some (st, Ok tt)
  else
    st ← match p_group p with Some old => leave_group a old st | None => Some st end;
    st ← process_group_ref g st;
    st ← upd_proc (set_p_group g) a st;
    st ← match g with Some g => upd_group (fun x => set_processes (processes x ++ [a]) x) g st | None => Some st end;
    Some (st, Ok tt).

Definition session_create a st : option (state * res unit) :=
  match session_pool st with
  | [] => Some (st, Err ENOMEM)
  | s :: rest =>
      p ← procs st !! a;
      let st := set_session_pool rest (set_sessions (<[s := mk_session 0 a (pid p) []]> (sessions st)) st) in
      match process_group_create (pid p) st with
      | (st, None) => Some (set_session_pool (s :: session_pool st) (set_sessions (delete s (sessions st)) st), Err ENOMEM)
      | (st, Some g) =>
          st ← process_group_set_session g (Some s) st;
          st ← tree_acquire st;
          st ← proc_acquire a st;
          '(st, ret) ← proc_set_group a (Some g) st;
          st ← proc_unlock a st;
          st ← tree_release st;
          st ← process_group_release (Some g) st;
          Some (st, ret)
      end
  end.

(** ** Processes *)

Definition proc_ref (a : option Z) st : option state :=
  match a with Some a => upd_proc (fun p => set_p_ref (p_ref p + 1) p) a st | None => Some st end.

(** The address space, the signals and the name go with the last reference. *)
Definition proc_release (a : option Z) st : option state :=
  match a with
  | None => Some st
  | Some a =>
      p ← procs st !! a;
      st ← upd_proc (set_p_ref (ref_dec (p_ref p))) a st;
      if 1 <? p_ref p then Some st else Some (set_proc_pool (a :: proc_pool st) (set_procs (delete a (procs st)) st))
  end.

Definition proc_from_pid (n : Z) st : option (state * option Z) :=
  let a := proc_table st !! n in
  st ← proc_ref a st; Some (st, a).

Definition proc_register a (n : Z) st : state := set_proc_table (<[n := a]> (proc_table st)) st.
Definition proc_unregister (n : Z) st : state := set_proc_table (delete n (proc_table st)) st.

Definition entry_ref (d : option Z) st : state :=
  match d with Some d => set_entry_refs (<[d := default 0 (entry_refs st !! d) + 1]> (entry_refs st)) st | None => st end.
Definition entry_release (d : option Z) st : state :=
  match d with Some d => set_entry_refs (<[d := default 0 (entry_refs st !! d) - 1]> (entry_refs st)) st | None => st end.

Definition proc_allocate st : state * option Z :=
  match proc_pool st with
  | [] => (st, None)
  | a :: rest => (set_proc_pool rest (set_procs (<[a := mk_process 0 None None None 0 [] PROC_STATE_NONE 0 false [] 0 [] None None None [] false false []]> (procs st)) st), Some a)
  end.

(** [tid] is the identifier of the new thread, if one was made; [running] is whether a process runs; [root] is
    what the path / names. *)
Definition proc_new (running : bool) (tid : option Z) (unknown : list Z) (root : Z) st : option (state * option Z) :=
  match proc_allocate st with
  | (st, None) => Some (st, None)
  | (st, Some a) =>
      match tid with
      | None => Some (set_proc_pool (a :: proc_pool st) (set_procs (delete a (procs st)) st), None)
      | Some t =>
          st ← upd_proc (fun p => set_p_mapped true (set_p_state PROC_STATE_RUNNING (set_p_pid t p))) a st;
          st ← (if running then Some st else '(st, _) ← session_create a st; Some st);
          st ← tree_acquire st;
          st ← proc_acquire a st;
          st ← (if running then
                  cur ← procs st !! current;
                  st ← upd_proc (set_p_parent (Some current)) a st;
                  '(st, _) ← proc_set_group a (p_group cur) st;
                  c ← get_current_cred st;
                  st ← proc_set_cred a (Some c) st;
                  st ← upd_proc (fun p => set_p_exe (p_exe cur) (set_p_cwd (p_cwd cur) (set_p_root (p_root cur) (set_p_cmdline (cmdline cur) (set_p_umask (p_umask cur) p))))) a st;
                  let st := entry_ref (p_exe cur) (entry_ref (p_cwd cur) (entry_ref (p_root cur) st)) in
                  st ← proc_ref (Some a) st;
                  upd_proc (fun p => set_p_child (p_child p ++ [a]) p) current st
                else
                  st ← proc_set_cred a (Some default_cred) st;
                  st ← upd_proc (fun p => set_p_cwd (Some root) (set_p_root (Some root) (set_p_cmdline unknown (set_p_umask 18 p)))) a st;
                  let st := entry_ref (Some root) (entry_ref (Some root) st) in
                  proc_ref (Some a) st);
          let st := proc_register a t st in
          st ← proc_unlock a st;
          st ← tree_release st;
          Some (st, Some a)
      end
  end.

(** The process is marked and its threads are woken; the running thread exits then. *)
Definition proc_exit (status : Z) st : option state :=
  st ← proc_acquire current st;
  st ← upd_proc (fun p => set_p_killed true (set_p_exit_status status p)) current st;
  p ← procs st !! current;
  let st := set_wakeups (wakeups st ++ threads p) st in
  proc_unlock current st.

Definition proc_sigexit (signum : Z) st : option state := proc_exit (Z.lor (2 ^ 17) signum) st.

Definition alert_parent a st : option state :=
  p ← procs st !! a;
  match p_parent p with None => Some st | Some q => _ ← procs st !! q; Some (set_alerts (alerts st ++ [(q, pid p)]) st) end.

Definition proc_set_state a (s : proc_state) st : option state :=
  p ← procs st !! a;
  kassert (proc_lock p);;
  st ← upd_proc (set_p_state s) a st;
  match p_parent p with
  | Some q => x ← procs st !! q; st ← upd_proc (set_p_wait_queue []) q st; Some (set_wakeups (wakeups st ++ wait_queue x) st)
  | None => Some st
  end.

(** The children of a process that exits become those of the first process. *)
Fixpoint reparent (l : list Z) st : option state :=
  match l with
  | [] => Some st
  | c :: l =>
      st ← upd_proc (set_p_parent (Some init)) c st;
      st ← upd_proc (fun p => set_p_child (p_child p ++ [c]) p) init st;
      x ← procs st !! c;
      st ← match p_state x with PROC_STATE_ZOMBIE => alert_parent c st | _ => Some st end;
      reparent l st
  end.

(** The list of the children stays as it is: [list_destroy] does nothing. *)
Definition do_proc_deletion st : option state :=
  st ← tree_acquire st;
  p ← procs st !! current;
  st ← reparent (p_child p) st;
  st ← proc_acquire current st;
  '(st, _) ← proc_set_group current None st;
  st ← cred_release (get_current_cred st) st;
  st ← proc_set_state current PROC_STATE_ZOMBIE st;
  st ← proc_unlock current st;
  st ← tree_release st;
  p ← procs st !! current;
  let st := set_closes (closes st ++ fd_table p) st in
  let st := entry_release (p_exe p) (entry_release (p_cwd p) (entry_release (p_root p) st)) in
  st ← upd_proc (fun p => set_p_mapped false (set_p_fd_table [] p)) current st;
  alert_parent current st.

Definition proc_zombie_cleanup a st : option state :=
  kassert (proctree_lock st);;
  p ← procs st !! a;
  let st := proc_unregister (pid p) st in
  st ← match p_parent p with
       | Some q => x ← procs st !! q; l ← remove_from a (p_child x); upd_proc (set_p_child l) q st
       | None => Some st
       end;
  proc_release (Some a) st.

(** ** Waiting for children *)

(** [pid_ == -1] matches every child; another number below 0 the group of its opposite. *)
Fixpoint search_children (n : Z) (found : bool) (l : list Z) st : option (res (option Z)) :=
  match l with
  | [] => Some (if found then Ok None else Err ECHILD)
  | c :: l =>
      p ← procs st !! c;
      matches ← (if n =? -1 then Some true else g ← p_group p; x ← groups st !! g; Some (pgid x =? - n));
      if (matches : bool) then
        match p_state p with PROC_STATE_ZOMBIE => Some (Ok (Some c)) | _ => search_children n true l st end
      else search_children n found l st
  end.

Definition search_wait_proc (n : Z) st : option (state * res (option Z)) :=
  cur ← procs st !! current;
  n ← (if n =? 0 then g ← p_group cur; x ← groups st !! g; Some (- pgid x) else Some n);
  if 0 <? n then
    '(st, a) ← proc_from_pid n st;
    st ← proc_release a st;
    match a with
    | None => Some (st, Err ECHILD)
    | Some a =>
        p ← procs st !! a;
        if bool_decide (p_parent p = Some current) then
          Some (st, Ok (match p_state p with PROC_STATE_ZOMBIE => Some a | _ => None end))
        else Some (st, Err ECHILD)
    end
  else r ← search_children n false (p_child cur) st; Some (st, r).

Inductive waited := Reaped (n status : Z) | Nothing | Failed (e : errno) | Blocked.

(** One round of the loop of [sys_waitpid]; [Blocked] is where the thread sleeps, and a later round follows. *)
Definition wait_round (thread n : Z) (nohang : bool) st : option (state * waited) :=
  st ← tree_acquire st;
  st ← proc_acquire current st;
  '(st, r) ← search_wait_proc n st;
  match r with
  | Err e => st ← proc_unlock current st; st ← tree_release st; Some (st, Failed e)
  | Ok (Some a) =>
      st ← proc_ref (Some a) st;
      st ← proc_zombie_cleanup a st;
      st ← proc_unlock current st;
      st ← tree_release st;
      p ← procs st !! a;
      st ← proc_release (Some a) st;
      Some (st, Reaped (pid p) (exit_status p))
  | Ok None =>
      if nohang then st ← proc_unlock current st; st ← tree_release st; Some (st, Nothing)
      else
        st ← upd_proc (fun p => set_p_wait_queue (wait_queue p ++ [thread]) p) current st;
        st ← proc_unlock current st; st ← tree_release st; Some (st, Blocked)
  end.

(** The call up to the end of a round.  [status] is the pointer to the status, if it is not null, and says whether the
    memory there belongs to the user; what is written there is the last part of the result. *)
Definition sys_waitpid (thread n : Z) (status : option bool) (nohang : bool) st : option (state * waited * option Z) :=
  if bool_decide (status = Some false) then Some (st, Failed EFAULT, None)
  else
    '(st, r) ← wait_round thread n nohang st;
    Some (st, r, match status, r with Some _, Reaped _ s => Some s | _, _ => None end).

(** ** Groups and sessions *)

Definition sys_setpgid (n m : Z) st : option (state * res unit) :=
  cur ← procs st !! current;
  let n := if n =? 0 then pid cur else n in
  let m := if m =? 0 then n else m in
  if m <? 0 then Some (st, Err EINVAL)
  else
    '(st, a) ← proc_from_pid n st;
    '(st, g) ← (if n =? m then Some (process_group_create m st) else process_group_from_pgid m st);
    match g with
    | None =>
        (* without memory the locks are released that were not acquired *)
        if n =? m then
          a ← a;
          st ← proc_unlock a st; st ← tree_release st; st ← proc_release (Some a) st; Some (st, Err ENOMEM)
        else Some (st, Err EPERM)
    | Some g =>
        st ← tree_acquire st;
        a ← a;
        st ← proc_acquire a st;
        p ← procs st !! a;
        x ← groups st !! g;
        st ← match g_session x with
             | None => h ← p_group p; y ← groups st !! h; process_group_set_session g (g_session y) st
             | Some _ => Some st
             end;
        x ← groups st !! g;
        '(st, ret) ←
          (if negb (bool_decide (p_parent p = Some current)) && negb (a =? current) then Some (st, Err ESRCH)
           else
             h ← p_group p; y ← groups st !! h;
             if negb (bool_decide (g_session x = g_session y)) then Some (st, Err EPERM) else proc_set_group a (Some g) st);
        st ← proc_unlock a st;
        st ← tree_release st;
        st ← proc_release (Some a) st;
        st ← process_group_release (Some g) st;
        Some (st, ret)
    end.

Definition sys_getpgid (n : Z) st : option (state * res Z) :=
  cur ← procs st !! current;
  '(st, a) ← proc_from_pid (if n =? 0 then pid cur else n) st;
  match a with
  | None => Some (st, Err ESRCH)
  | Some a =>
      st ← proc_acquire a st;
      p ← procs st !! a;
      ret ← (if negb (bool_decide (p_parent p = Some current)) && negb (a =? current) then Some (Err ESRCH)
             else g ← p_group p; x ← groups st !! g; Some (Ok (pgid x)));
      st ← proc_unlock a st;
      st ← proc_release (Some a) st;
      Some (st, ret)
  end.

Definition sys_setsid st : option (state * res Z) :=
  '(st, r) ← session_create current st;
  match r with
  | Err e => Some (st, Err e)
  | Ok _ => p ← procs st !! current; Some (st, Ok (pid p))
  end.

Definition sys_getsid st : option (state * Z) :=
  st ← proc_acquire current st;
  p ← procs st !! current;
  g ← p_group p; x ← groups st !! g; s ← g_session x; y ← sessions st !! s;
  st ← proc_unlock current st;
  Some (st, sid y).

End calls.
End Process.
