(* ===== verification/ProcessInv.v ===== *)
(** What the system calls on credentials, process groups and children do.

    Credentials: no sequence of the calls gives a process that is not privileged an identity that it did not
    have.  Process groups: the invariant that ties the lists and the counts of processes, groups and sessions
    together, and moving a process to another group.  Children: waiting for one. *)

From S2P Require Import Prelude Process.

Module ProcessInv.
Import Process.

Lemma upd_at {A} (get : state -> gmap Z A) set f a st x : get st !! a = Some x -> upd get set f a st = Some (set (<[a := f x]> (get st)) st).
Proof. intros Hx. unfold upd. by rewrite Hx. Qed.

Ltac simp := cbn [mbind option_bind negb kassert
  creds cred_pool cred_groups_of groups_pool sessions session_pool groups group_pool group_table procs proc_pool proc_table proctree_lock entry_refs alerts closes wakeups
  set_creds set_cred_pool set_cred_groups_of set_groups_pool set_sessions set_session_pool set_groups set_group_pool set_group_table set_procs set_proc_pool set_proc_table set_proctree_lock set_entry_refs set_alerts set_closes set_wakeups].

(** ** Credentials *)

(** What a call may change of an identity. *)
Definition ids_within (c c' : cred) : Prop :=
  uid c' = uid c /\ suid c' = suid c /\ (euid c' = euid c \/ euid c' = uid c \/ euid c' = suid c) /\
  gid c' = gid c /\ sgid c' = sgid c /\ (egid c' = egid c \/ egid c' = gid c \/ egid c' = sgid c).

Section creds.
Context `{C : Current}.
Implicit Types (st : state) (a : Z) (c : cred).

(** The running process has the credentials [c], which the cache does not give out. *)
Definition has_cred st a c : Prop :=
  (exists p, procs st !! current = Some p /\ p_cred p = Some a) /\ creds st !! a = Some c /\ a ∉ cred_pool st /\ NoDup (cred_pool st).

Lemma has_current st a c : has_cred st a c -> get_current_cred st = Some a.
Proof. intros ((p & Hp & Hpc) & _). unfold get_current_cred. rewrite Hp. cbn. by rewrite Hpc. Qed.
Lemma has_current_cred st a c : has_cred st a c -> current_cred st = Some c.
Proof. intros H0. unfold current_cred. rewrite (has_current st a c H0). apply H0. Qed.

Lemma groups_release_frame k st st' : cred_groups_release k st = Some st' -> creds st' = creds st /\ cred_pool st' = cred_pool st /\ procs st' = procs st.
Proof.
  unfold cred_groups_release, upd_cred_groups, upd. destruct k as [k|]; [|by intros [= <-]]. destruct (cred_groups_of st !! k) as [g|]; [|done]. cbn.
  destruct (1 <? cg_ref g); [by intros [= <-]|]. destruct (k =? default_cred_groups); [done|]. cbn. by intros [= <-].
Qed.

Lemma groups_ref_frame k st st' : cred_groups_ref k st = Some st' -> creds st' = creds st /\ cred_pool st' = cred_pool st /\ procs st' = procs st.
Proof. unfold cred_groups_ref, upd_cred_groups, upd. destruct k as [k|]; [|by intros [= <-]]. destruct (cred_groups_of st !! k); [|done]. by intros [= <-]. Qed.

(** Another object is released. *)
Lemma release_other a c b x st st' : has_cred st a c -> b <> a -> creds st !! b = Some x -> b ∉ cred_pool st -> cred_release (Some b) st = Some st' ->
  has_cred st' a c /\ procs st' = procs st.
Proof.
  intros (Hp & Hc & Hna & Hnd) Hb Hx Hnb. unfold cred_release, upd_cred, upd. rewrite Hx. simp. destruct (1 <? c_ref x).
  - intros [= <-]. split; [|done]. split; [done|]. cbn. rewrite lookup_insert_ne by done. done.
  - destruct (cred_groups_release _ _) as [st1|] eqn:E1; [|done]. cbn. destruct (groups_release_frame _ _ _ E1) as (F1 & F2 & F3). destruct (b =? default_cred); [done|]. cbn. intros [= <-].
    split; [|done]. unfold has_cred. cbn. rewrite F1, F2, F3. cbn. rewrite lookup_delete_ne, lookup_insert_ne by done. split_and!; try done.
    + rewrite elem_of_cons. naive_solver.
    + by constructor.
Qed.

(** A reference is given back that is not the last. *)
Lemma release_not_last b x st st' : creds st !! b = Some x -> 1 < c_ref x -> cred_release (Some b) st = Some st' -> st' = set_creds (<[b := set_c_ref (ref_dec (c_ref x)) x]> (creds st)) st.
Proof.
  intros Hx Hr. unfold cred_release. rewrite Hx. cbn [mbind option_bind]. unfold upd_cred. rewrite (upd_at _ _ _ _ _ x Hx). simp. rewrite (proj2 (Z.ltb_lt _ _)) by done. by intros [= <-].
Qed.

Lemma acquire_frame b st st' : proc_acquire b st = Some st' -> exists p, procs st !! b = Some p /\ proc_lock p = false /\ st' = set_procs (<[b := set_p_proc_lock true p]> (procs st)) st.
Proof. unfold proc_acquire, upd_proc, upd. destruct (procs st !! b) as [p|]; [|done]. cbn. destruct (proc_lock p) eqn:El; [done|]. cbn. intros [= <-]. eauto. Qed.

Lemma unlock_frame b st st' : proc_unlock b st = Some st' -> exists p, procs st !! b = Some p /\ st' = set_procs (<[b := set_p_proc_lock false p]> (procs st)) st.
Proof. unfold proc_unlock, upd_proc, upd. destruct (procs st !! b) as [p|]; [|done]. cbn. destruct (proc_lock p); [|done]. cbn. intros [= <-]. eauto. Qed.

Lemma has_cred_lock st a c p b : has_cred st a c -> procs st !! current = Some p -> has_cred (set_procs (<[current := set_p_proc_lock b p]> (procs st)) st) a c.
Proof. intros ((p' & Hp' & Hpc) & Hc & Hna & Hnd) Hp. assert (p' = p) as -> by congruence. split; [|done]. exists (set_p_proc_lock b p). cbn. by rewrite lookup_insert_eq. Qed.

Lemma new_cred junk st st' a c new : has_cred st a c -> cred_new junk st = (st', Some new) ->
  has_cred st' a c /\ procs st' = procs st /\ creds st' !! new = Some junk /\ new <> a /\ new ∉ cred_pool st'.
Proof.
  intros (Hp & Hc & Hna & Hnd). unfold cred_new. destruct (cred_pool st) as [|b rest] eqn:Epool; [done|]. intros [= <- <-].
  apply not_elem_of_cons in Hna as (Hne & Hna). apply NoDup_cons in Hnd as (Hnb & Hnd). unfold has_cred. cbn. rewrite lookup_insert_eq, lookup_insert_ne by done. split_and!; done.
Qed.

(** The new credentials take effect. *)
Lemma install_cred st st' a c b x p : has_cred st a c -> procs st !! current = Some p -> p_cred p = Some a -> b <> a -> creds st !! b = Some x -> c_ref x = 1 -> b ∉ cred_pool st ->
  (st ← proc_set_cred current (Some b) st; st ← cred_release (Some b) st; proc_unlock current st) = Some st' -> has_cred st' b x.
Proof.
  intros (_ & Hc & Hna & Hnd) Hp Hpc Hb Hx Hr Hnb. unfold proc_set_cred. rewrite Hp. cbn [mbind option_bind]. destruct (proc_lock p); [|done]. simp.
  unfold cred_ref, upd_cred. rewrite (upd_at _ _ _ _ _ x Hx). simp. unfold upd_proc. erewrite upd_at by exact Hp. simp. rewrite Hpc.
  set (st1 := set_procs _ _). destruct (cred_release (Some a) st1) as [st2|] eqn:E2; [|done]. simp.
  assert (H1 : has_cred st1 b (set_c_ref 2 x)).
  { split; [exists (set_p_cred (Some b) p); cbn; by rewrite lookup_insert_eq|]. cbn. rewrite lookup_insert_eq, Hr. done. }
  assert (Ha1 : creds st1 !! a = Some c) by (cbn; by rewrite lookup_insert_ne).
  destruct (release_other b _ a c st1 st2 H1 (not_eq_sym Hb) Ha1 Hna E2) as (H2 & P2).
  destruct (cred_release (Some b) st2) as [st3|] eqn:E3; [|done]. simp. destruct H2 as (Hp2 & Hc2 & Hn2 & Hd2).
  apply (release_not_last b _ st2 st3 Hc2) in E3; [|done]. intros E4. destruct (unlock_frame _ _ _ E4) as (p4 & Hp4 & ->). apply has_cred_lock; [|done]. subst st3.
  split; [done|]. cbn. rewrite lookup_insert_eq. split; [|done]. f_equal. unfold set_c_ref, ref_dec. cbn. by destruct x; cbn in Hr |- *; subst.
Qed.

(** What any call that changes credentials leaves, whatever a new object of the cache holds. *)
Lemma change_cred_ids junk allowed f st st' r a c : has_cred st a c -> change_cred junk allowed f st = Some (st', r) ->
  let c1 := mk_cred 1 (c_groups c) (uid c) (euid c) (suid c) (gid c) (egid c) (sgid c) in
  (allowed c = true -> ids_within c (f c c1) /\ c_ref (f c c1) = 1) -> exists a' c', has_cred st' a' c' /\ ids_within c c'.
Proof.
  intros H0 E c1 Hf. assert (Hrefl : ids_within c c) by (unfold ids_within; tauto). unfold change_cred in E. destruct (cred_new junk st) as [st1 [new|]] eqn:E1.
  2:{ injection E as <- <-. unfold cred_new in E1. destruct (cred_pool st); [|done]. injection E1 as <-. eauto. }
  destruct (new_cred _ _ _ _ _ _ H0 E1) as (H1 & P1 & J1 & N1 & Q1). destruct (proc_acquire current st1) as [st2|] eqn:E2; [|done]. cbn [mbind option_bind] in E.
  destruct (acquire_frame _ _ _ E2) as (p & Hp & _ & ->). pose proof (has_cred_lock st1 a c p true H1 Hp) as H2. set (st2 := set_procs _ st1) in *.
  rewrite (has_current_cred st2 a c H2) in E. cbn [mbind option_bind] in E. rewrite (has_current st2 a c H2) in E. cbn [mbind option_bind] in E.
  assert (H2' := H2). destruct H2' as ((p2 & Hp2 & Hpc) & Hc2 & Hn2 & Hd2).
  destruct (allowed c) eqn:Hall; cbn [negb] in E.
  - destruct (Hf eq_refl) as (Hids & Href). destruct (cred_copy new a st2) as [st3|] eqn:E3; [|done]. cbn [mbind option_bind] in E.
    unfold cred_copy in E3. rewrite Hc2 in E3. cbn [mbind option_bind] in E3. destruct (cred_groups_ref _ _) as [st3'|] eqn:E3'; [|done]. cbn [mbind option_bind] in E3. destruct (groups_ref_frame _ _ _ E3') as (F1 & F2 & F3).
    unfold upd_cred in E3. rewrite (upd_at _ _ _ _ _ junk) in E3 by (rewrite F1; exact J1). injection E3 as <-. fold c1 in E.
    unfold upd_cred in E at 1. rewrite (upd_at _ _ _ _ _ c1) in E by (cbn; apply lookup_insert_eq). cbn [mbind option_bind] in E.
    set (st4 := set_creds _ _) in E. assert (H4 : has_cred st4 a c).
    { split; [exists p2; by rewrite <- Hpc; cbn; rewrite F3|]. cbn. rewrite !lookup_insert_ne by done. rewrite F1, F2. done. }
    exists new, (f c c1). split; [|done]. apply (install_cred st4 st' a c new (f c c1) p2 H4); try done; [cbn; by rewrite F3|cbn; apply lookup_insert_eq|cbn; by rewrite F2|].
    destruct (proc_set_cred current (Some new) st4) as [st5|]; [|done]. cbn [mbind option_bind] in E |- *. destruct (cred_release (Some new) st5) as [st6|]; [|done]. cbn [mbind option_bind] in E |- *.
    destruct (proc_unlock current st6) as [st7|]; [|done]. cbn in E. congruence.
  - destruct (cred_release (Some new) st2) as [st3|] eqn:E3; [|done]. cbn [mbind option_bind] in E. destruct (proc_unlock current st3) as [st4|] eqn:E4; [|done]. cbn in E. injection E as <- <-.
    destruct (release_other a c new junk st2 st3 H2 N1 J1 Q1 E3) as (H3 & _). destruct (unlock_frame _ _ _ E4) as (p4 & Hp4 & ->). exists a, c. split; [by apply has_cred_lock|done].
Qed.

Lemma may_set_uid_spec u c : euid c <> EUID_ROOT -> may_set_uid u c = true -> u = uid c \/ u = suid c.
Proof. unfold may_set_uid. intros He. rewrite (proj2 (Z.eqb_neq _ _)) by done. destruct (u =? uid c) eqn:E1, (u =? suid c) eqn:E2; zbool; auto; done. Qed.
Lemma may_set_gid_spec g c : euid c <> EUID_ROOT -> may_set_gid g c = true -> g = gid c \/ g = sgid c.
Proof. unfold may_set_gid. intros He. rewrite (proj2 (Z.eqb_neq _ _)) by done. destruct (g =? gid c) eqn:E1, (g =? sgid c) eqn:E2; zbool; auto; done. Qed.

Lemma setgroups_ids junk size l st st' r a c : has_cred st a c -> euid c <> EUID_ROOT -> sys_setgroups junk size l st = Some (st', r) -> has_cred st' a c.
Proof.
  intros H0 He E. unfold sys_setgroups in E. destruct (cred_groups_new [] st) as [st1 [k|]] eqn:E1.
  2:{ injection E as <- <-. unfold cred_groups_new in E1. destruct (groups_pool st); [|done]. by injection E1 as <-. }
  assert (H1 : has_cred st1 a c) by (unfold cred_groups_new in E1; destruct (groups_pool st); [done|]; injection E1 as <- <-; exact H0).
  assert (Hframe : forall s s', has_cred s a c -> creds s' = creds s /\ cred_pool s' = cred_pool s /\ procs s' = procs s -> has_cred s' a c) by (intros s0 s1 Hs (F1 & F2 & F3); unfold has_cred; by rewrite F1, F2, F3).
  destruct l as [l|].
  2:{ destruct (cred_groups_release (Some k) st1) as [st2|] eqn:E2; [|done]. cbn in E. injection E as <- <-. apply (Hframe st1); [done|]. by apply (groups_release_frame (Some k)). }
  destruct (upd_cred_groups _ k st1) as [st2|] eqn:Eu; [|done]. cbn [mbind option_bind] in E.
  assert (H2 : has_cred st2 a c) by (apply (Hframe st1); [done|]; unfold upd_cred_groups, upd in Eu; destruct (cred_groups_of st1 !! k); [|done]; by injection Eu as <-). destruct (cred_new junk st2) as [st3 [new|]] eqn:E3.
  2:{ assert (st3 = st2) as -> by (unfold cred_new in E3; destruct (cred_pool st2); [by injection E3 as <-|done]).
      destruct (cred_groups_release (Some k) st2) as [st4|] eqn:E4; [|done]. cbn in E. injection E as <- <-. apply (Hframe st2); [done|]. by apply (groups_release_frame (Some k)). }
  destruct (new_cred _ _ _ _ _ _ H2 E3) as (H3 & _). destruct (proc_acquire current st3) as [st4|] eqn:E4; [|done]. cbn [mbind option_bind] in E.
  destruct (acquire_frame _ _ _ E4) as (p & Hp & _ & ->). pose proof (has_cred_lock st3 a c p true H3 Hp) as H4. set (st4 := set_procs _ st3) in *.
  rewrite (has_current_cred st4 a c H4) in E. cbn [mbind option_bind] in E.
  rewrite (proj2 (Z.eqb_neq _ _)) in E by done. cbn [negb] in E. destruct (proc_unlock current st4) as [st5|] eqn:E5; [|done]. cbn [mbind option_bind] in E.
  destruct (unlock_frame _ _ _ E5) as (p5 & Hp5 & ->). pose proof (has_cred_lock st4 a c p5 false H4 Hp5) as H5. set (st5 := set_procs _ st4) in *.
  destruct (cred_groups_release (Some k) st5) as [st6|] eqn:E6; [|done]. cbn in E. injection E as <- <-. apply (Hframe st5); [done|]. by apply (groups_release_frame (Some k)).
Qed.

(** The calls of a process on its identity. *)
Inductive id_call := Setuid (u : Z) | Seteuid (u : Z) | Setgid (g : Z) | Setegid (g : Z) | Setgroups (size : Z) (l : option (list Z)).

Definition id_step (junk : cred) (call : id_call) st : option (state * res unit) :=
  match call with
  | Setuid u => sys_setuid junk u st
  | Seteuid u => sys_seteuid junk u st
  | Setgid g => sys_setgid junk g st
  | Setegid g => sys_setegid junk g st
  | Setgroups size l => sys_setgroups junk size l st
  end.

Fixpoint id_run (calls : list (cred * id_call)) st : option state :=
  match calls with
  | [] => Some st
  | (junk, call) :: calls => '(st, _) ← id_step junk call st; id_run calls st
  end.

Lemma id_step_ids junk call st st' r a c : has_cred st a c -> euid c <> EUID_ROOT -> id_step junk call st = Some (st', r) -> exists a' c', has_cred st' a' c' /\ ids_within c c'.
Proof.
  intros H0 He. assert (Hn : (euid c =? EUID_ROOT) = false) by (by apply Z.eqb_neq).
  destruct call as [u|u|g|g|size l]; cbn [id_step]; intros E.
  - apply (change_cred_ids _ _ _ _ _ _ a c H0 E). intros Ha. rewrite Hn. destruct (may_set_uid_spec u c He Ha) as [->| ->]; unfold ids_within; cbn; tauto.
  - apply (change_cred_ids _ _ _ _ _ _ a c H0 E). intros Ha. destruct (may_set_uid_spec u c He Ha) as [->| ->]; unfold ids_within; cbn; tauto.
  - apply (change_cred_ids _ _ _ _ _ _ a c H0 E). intros Ha. rewrite Hn. destruct (may_set_gid_spec g c He Ha) as [->| ->]; unfold ids_within; cbn; tauto.
  - apply (change_cred_ids _ _ _ _ _ _ a c H0 E). intros Ha. destruct (may_set_gid_spec g c He Ha) as [->| ->]; unfold ids_within; cbn; tauto.
  - exists a, c. split; [by apply (setgroups_ids junk size l st st' r)|unfold ids_within; tauto].
Qed.

(** C15: no privilege is gained.  Whatever calls on its identity a process makes whose user ids are none of them
    the one of the super-user, and whatever its new credentials hold before they are initialised, as long as
    the kernel survives: its real and its saved ids are those it had, its effective ids are among the ids it
    had, and it is not privileged. *)
Theorem no_privilege_gained calls st st' a c : has_cred st a c -> euid c <> EUID_ROOT -> uid c <> EUID_ROOT -> suid c <> EUID_ROOT ->
  id_run calls st = Some st' -> exists a' c', has_cred st' a' c' /\ ids_within c c' /\ euid c' <> EUID_ROOT.
Proof.
  revert st a c. induction calls as [|[junk call] calls IH]; intros st a c H0 He Hu Hs E; cbn in E.
  - injection E as <-. exists a, c. split; [done|]. split; [unfold ids_within; tauto|done].
  - destruct (id_step junk call st) as [[st1 r]|] eqn:E1; [|done]. cbn in E. destruct (id_step_ids _ _ _ _ _ a c H0 He E1) as (a1 & c1 & H1 & I1).
    destruct I1 as (J1 & J2 & J3 & J4 & J5 & J6). destruct (IH st1 a1 c1 H1) as (a2 & c2 & H2 & I2 & Hr2); try congruence; [destruct J3 as [->|[->| ->]]; done|].
    exists a2, c2. split; [done|]. split; [|done]. destruct I2 as (K1 & K2 & K3 & K4 & K5 & K6). unfold ids_within. rewrite K1, K2, K4, K5, J1, J2, J4, J5. rewrite J1, J2, J4, J5 in *.
    split_and!; try done; [destruct K3 as [->|[->| ->]]; tauto|destruct K6 as [->|[->| ->]]; tauto].
Qed.
End creds.


(** *** Counts *)

Definition uses_cred (a : Z) (p : process) : bool := bool_decide (p_cred p = Some a).
Definition uses_groups (k : Z) (c : cred) : bool := bool_decide (c_groups c = Some k).

(** Each count is the number of the objects that refer to the counted one. *)
Record creds_ok (st : state) : Prop := {
  ck_cred b p a : procs st !! b = Some p -> p_cred p = Some a -> is_Some (creds st !! a);
  ck_ref a c : creds st !! a = Some c -> c_ref c = count_if (uses_cred a) (procs st);
  ck_groups a c : creds st !! a = Some c -> exists k, c_groups c = Some k /\ is_Some (cred_groups_of st !! k);
  ck_groups_ref k g : cred_groups_of st !! k = Some g -> cg_ref g = count_if (uses_groups k) (creds st);
  ck_pool : NoDup (cred_pool st) /\ forall a, a ∈ cred_pool st -> creds st !! a = None;
  ck_default : is_Some (creds st !! default_cred);
}.

Section counts.
Context `{C : Current}.
Implicit Types (st : state) (a : Z) (c : cred).

(** What a change leaves: the process has the new credentials [c'] and the old ones lose a reference. *)
Record changed st a c new (c' : cred) st' : Prop := {
  ch_procs p : procs st !! current = Some p -> procs st' = <[current := set_p_cred (Some new) p]> (procs st);
  ch_creds : creds st' = <[new := c']> (if c_ref c =? 1 then delete a (creds st) else <[a := set_c_ref (c_ref c - 1) c]> (creds st));
  ch_groups k g : c_groups c = Some k -> cred_groups_of st !! k = Some g ->
    cred_groups_of st' = <[k := mk_cred_groups (cg_ref g + if c_ref c =? 1 then 0 else 1) (gids g)]> (cred_groups_of st);
  ch_pool rest : cred_pool st = new :: rest -> cred_pool st' = if c_ref c =? 1 then a :: rest else rest;
}.

Definition keeps (f : cred -> cred -> cred) : Prop := forall c x, c_ref (f c x) = c_ref x /\ c_groups (f c x) = c_groups x.

Lemma acquire_spec b p st : procs st !! b = Some p -> proc_lock p = false -> proc_acquire b st = Some (set_procs (<[b := set_p_proc_lock true p]> (procs st)) st).
Proof. intros Hp Hl. unfold proc_acquire. rewrite Hp. simp. rewrite Hl. simp. by apply upd_at. Qed.
Lemma unlock_spec b p st : procs st !! b = Some p -> proc_lock p = true -> proc_unlock b st = Some (set_procs (<[b := set_p_proc_lock false p]> (procs st)) st).
Proof. intros Hp Hl. unfold proc_unlock. rewrite Hp. simp. rewrite Hl. simp. by apply upd_at. Qed.

Lemma copy_spec dest src st c x k g : creds st !! src = Some c -> creds st !! dest = Some x -> c_groups c = Some k -> cred_groups_of st !! k = Some g ->
  cred_copy dest src st = Some (set_creds (<[dest := set_c_ref 1 c]> (creds st)) (set_cred_groups_of (<[k := mk_cred_groups (cg_ref g + 1) (gids g)]> (cred_groups_of st)) st)).
Proof.
  intros Hc Hx Hk Hg. unfold cred_copy. rewrite Hc. cbn [mbind option_bind]. rewrite Hk. unfold cred_groups_ref, upd_cred_groups. rewrite (upd_at _ _ _ _ _ g Hg). cbn [mbind option_bind].
  unfold upd_cred. erewrite upd_at by exact Hx. by rewrite <- Hk.
Qed.

Lemma release_shared_spec a c st : creds st !! a = Some c -> 1 < c_ref c -> cred_release (Some a) st = Some (set_creds (<[a := set_c_ref (c_ref c - 1) c]> (creds st)) st).
Proof.
  intros Hc Hr. unfold cred_release. rewrite Hc. cbn [mbind option_bind]. unfold upd_cred. rewrite (upd_at _ _ _ _ _ c Hc). cbn [mbind option_bind]. rewrite (proj2 (Z.ltb_lt _ _)) by done.
  unfold ref_dec. by rewrite (proj2 (Z.eqb_neq _ _)) by lia.
Qed.

(** The last reference to credentials whose groups are shared. *)
Lemma release_last_spec a c st k g : creds st !! a = Some c -> c_ref c = 1 -> a <> default_cred -> c_groups c = Some k -> cred_groups_of st !! k = Some g -> 1 < cg_ref g ->
  cred_release (Some a) st = Some (set_cred_pool (a :: cred_pool st) (set_creds (delete a (creds st)) (set_cred_groups_of (<[k := mk_cred_groups (cg_ref g - 1) (gids g)]> (cred_groups_of st)) st))).
Proof.
  intros Hc Hr Ha Hk Hg Hgr. unfold cred_release. rewrite Hc. cbn [mbind option_bind]. unfold upd_cred. rewrite (upd_at _ _ _ _ _ c Hc). cbn [mbind option_bind]. rewrite (proj2 (Z.ltb_ge _ _)) by lia.
  rewrite Hk. unfold cred_groups_release, upd_cred_groups. cbn [cred_groups_of set_creds]. rewrite Hg. cbn [mbind option_bind]. erewrite upd_at by exact Hg. cbn [mbind option_bind]. rewrite (proj2 (Z.ltb_lt _ _)) by done.
  cbn [mbind option_bind]. rewrite (proj2 (Z.eqb_neq _ _)) by done. cbn [negb kassert mbind option_bind]. unfold ref_dec. rewrite (proj2 (Z.eqb_neq (cg_ref g) 0)) by lia.
  cbn. by rewrite delete_insert_eq.
Qed.

Lemma set_cred_spec b p a new x st : procs st !! b = Some p -> proc_lock p = true -> p_cred p = Some a -> creds st !! new = Some x ->
  proc_set_cred b (Some new) st = cred_release (Some a) (set_procs (<[b := set_p_cred (Some new) p]> (procs st)) (set_creds (<[new := set_c_ref (c_ref x + 1) x]> (creds st)) st)).
Proof.
  intros Hp Hl Hpc Hx. unfold proc_set_cred. rewrite Hp. cbn [mbind option_bind]. rewrite Hl. cbn [kassert mbind option_bind]. unfold cred_ref, upd_cred. rewrite (upd_at _ _ _ _ _ x Hx). cbn [mbind option_bind].
  unfold upd_proc. erewrite upd_at by exact Hp. cbn [mbind option_bind]. by rewrite Hpc.
Qed.

Lemma change_cred_steps junk allowed f st a c p new rest k g : keeps f ->
  procs st !! current = Some p -> proc_lock p = false -> p_cred p = Some a -> creds st !! a = Some c -> 1 <= c_ref c -> allowed c = true ->
  cred_pool st = new :: rest -> creds st !! new = None -> c_groups c = Some k -> cred_groups_of st !! k = Some g -> 1 <= cg_ref g -> a <> default_cred \/ 1 < c_ref c ->
  exists st', change_cred junk allowed f st = Some (st', Ok tt) /\ changed st a c new (f c (set_c_ref 1 c)) st'.
Proof.
  intros Hkeep Hp Hlock Hpc Hc Hr Hall Hpool Hnew Hk Hg Hgr Hdef. assert (Hna : new <> a) by congruence.
  unfold change_cred, cred_new. rewrite Hpool. rewrite (acquire_spec current p) by done. cbn [mbind option_bind].
  set (st1 := set_procs _ _). assert (Hp1 : procs st1 !! current = Some (set_p_proc_lock true p)) by apply lookup_insert_eq.
  assert (Hc1 : creds st1 !! a = Some c) by (cbn; by rewrite lookup_insert_ne).
  assert (Eg : get_current_cred st1 = Some a) by (unfold get_current_cred; rewrite Hp1; cbn; by rewrite Hpc). assert (Ec : current_cred st1 = Some c) by (unfold current_cred; by rewrite Eg).
  rewrite Ec. cbn [mbind option_bind]. rewrite Hall. cbn [negb]. rewrite Eg. cbn [mbind option_bind].
  rewrite (copy_spec new a st1 c junk k g) by (done || apply lookup_insert_eq). cbn [mbind option_bind]. unfold upd_cred. erewrite upd_at by (apply lookup_insert_eq). cbn [mbind option_bind].
  set (c2 := f c (set_c_ref 1 c)). destruct (Hkeep c (set_c_ref 1 c)) as (Kr & Kg). fold c2 in Kr, Kg. cbn in Kr, Kg.
  match goal with |- context [proc_set_cred current (Some new) ?s] => set (st3 := s) end.
  assert (Hp3 : procs st3 !! current = Some (set_p_proc_lock true p)) by done. assert (Hx3 : creds st3 !! new = Some c2) by apply lookup_insert_eq.
  rewrite (set_cred_spec current _ a new c2 st3 Hp3 eq_refl Hpc Hx3). rewrite Kr. match goal with |- context [cred_release (Some a) ?s] => set (st4 := s) end.
  assert (Hc4 : creds st4 !! a = Some c) by (cbn; by rewrite !lookup_insert_ne by done).
  assert (Hg4 : cred_groups_of st4 !! k = Some (mk_cred_groups (cg_ref g + 1) (gids g))) by apply lookup_insert_eq.
  assert (Hend : forall st5, creds st5 !! new = Some (set_c_ref 2 c2) -> procs st5 = procs st4 ->
    exists st', (st ← cred_release (Some new) st5; st ← proc_unlock current st; Some (st, Ok tt)) = Some (st', Ok tt) /\
      procs st' = <[current := set_p_cred (Some new) p]> (procs st) /\ creds st' = <[new := c2]> (creds st5) /\ cred_groups_of st' = cred_groups_of st5 /\ cred_pool st' = cred_pool st5).
  { intros st5 Hn5 Hp5. rewrite (release_shared_spec new (set_c_ref 2 c2) st5 Hn5) by (cbn; lia). cbn [mbind option_bind].
    rewrite (unlock_spec current (set_p_cred (Some new) (set_p_proc_lock true p))) by (done || (cbn; rewrite Hp5; apply lookup_insert_eq)). cbn [mbind option_bind]. eexists. split; [reflexivity|]. cbn. rewrite Hp5. cbn. rewrite !insert_insert_eq.
    split; [|split; [|done]]; f_equal; [destruct p; cbn in *; by subst|destruct c2; cbn in *; by subst]. }
  destruct (decide (c_ref c = 1)) as [Hr1|Hr1].
  - rewrite (release_last_spec a c st4 k _ Hc4 Hr1) by (done || (cbn; lia) || naive_solver lia). cbn [mbind option_bind].
    match goal with |- context [cred_release (Some new) ?s] => destruct (Hend s) as (st' & E1 & P1 & P2 & P3 & P4) end; [cbn; rewrite lookup_delete_ne by done; by rewrite lookup_insert_eq|done|].
    exists st'. split; [exact E1|]. split; rewrite ?Hr1; cbn [Z.eqb Pos.eqb].
    + intros p' Hp'. assert (p' = p) as -> by congruence. done.
    + rewrite P2. cbn. rewrite !insert_insert_eq, !delete_insert_ne, !insert_insert_eq by done. done.
    + intros k' g' Hk' Hg'. assert (k' = k) as -> by congruence. assert (g' = g) as -> by congruence. rewrite P3. cbn. rewrite insert_insert_eq. do 2 f_equal. lia.
    + intros rest' Hrest. assert (rest' = rest) as -> by congruence. by rewrite P4.
  - rewrite (release_shared_spec a c st4 Hc4) by lia. cbn [mbind option_bind].
    match goal with |- context [cred_release (Some new) ?s] => destruct (Hend s) as (st' & E1 & P1 & P2 & P3 & P4) end; [cbn; rewrite lookup_insert_ne by done; by rewrite lookup_insert_eq|done|].
    exists st'. split; [exact E1|]. split; rewrite ?(proj2 (Z.eqb_neq (c_ref c) 1)) by done.
    + intros p' Hp'. assert (p' = p) as -> by congruence. done.
    + rewrite P2. cbn. rewrite !insert_insert_eq. rewrite (insert_insert_ne _ a new) by done. by rewrite !insert_insert_eq.
    + intros k' g' Hk' Hg'. assert (k' = k) as -> by congruence. assert (g' = g) as -> by congruence. rewrite P3. done.
    + intros rest' Hrest. assert (rest' = rest) as -> by congruence. by rewrite P4.
Qed.

Lemma decide_Some (x y : Z) : bool_decide (Some x = Some y) = bool_decide (x = y).
Proof. apply bool_decide_ext. split; congruence. Qed.

Lemma changed_ok st a c new rest c2 st' p k g : creds_ok st -> procs st !! current = Some p -> p_cred p = Some a -> creds st !! a = Some c -> cred_pool st = new :: rest ->
  c_groups c = Some k -> cred_groups_of st !! k = Some g -> a <> default_cred \/ 1 < c_ref c -> c_ref c2 = 1 -> c_groups c2 = c_groups c -> changed st a c new c2 st' -> creds_ok st'.
Proof.
  intros K Hp Hpc Hc Hpool Hk Hg Hdef Hr2 Hg2 [P1 P2 P3 P4]. specialize (P1 p Hp). specialize (P3 k g Hk Hg). specialize (P4 rest Hpool). destruct K as [K1 K2 K3 K4 K5 K6].
  destruct K5 as (Hnd & Hfree). rewrite Hpool in Hnd, Hfree. apply NoDup_cons in Hnd as (Hnr & Hnd). assert (Hnew : creds st !! new = None) by (apply Hfree; left). assert (Hna : new <> a) by congruence.
  assert (Hcount : forall b, count_if (uses_cred b) (procs st') = count_if (uses_cred b) (procs st) - b2Z (bool_decide (a = b)) + b2Z (bool_decide (new = b))).
  { intros b. rewrite P1, (count_if_update _ _ _ p _ Hp). unfold uses_cred. cbn. rewrite Hpc, !decide_Some. done. }
  assert (Hn0 : count_if (uses_cred new) (procs st) = 0).
  { pose proof (count_if_nonneg (uses_cred new) (procs st)). destruct (decide (1 <= count_if (uses_cred new) (procs st))) as [Hx|]; [|lia].
    apply count_if_witness in Hx as (b & q & Hb & Hq). apply bool_decide_eq_true in Hq. destruct (K1 b q new Hb Hq). congruence. }
  assert (Hlook : forall b, creds st' !! b = if decide (b = new) then Some c2 else if decide (b = a) then (if c_ref c =? 1 then None else Some (set_c_ref (c_ref c - 1) c)) else creds st !! b).
  { intros b. rewrite P2. case_decide as Hb; [subst; apply lookup_insert_eq|]. rewrite lookup_insert_ne by done. destruct (c_ref c =? 1); case_decide as Hb'; subst; rewrite ?lookup_delete_eq, ?lookup_insert_eq, ?lookup_delete_ne, ?lookup_insert_ne by done; done. }
  pose proof (K2 a c Hc) as Hra. assert (Hpos : 1 <= c_ref c) by (rewrite Hra; apply (count_if_pos _ _ current p Hp); by apply bool_decide_eq_true).
  split.
  - intros b q x Hb Hq. rewrite P1 in Hb. destruct (decide (b = current)) as [->|].
    + rewrite lookup_insert_eq in Hb. injection Hb as <-. cbn in Hq. injection Hq as <-. rewrite Hlook, decide_True by done. eauto.
    + rewrite lookup_insert_ne in Hb by done. rewrite Hlook. case_decide; [eauto|]. case_decide as Hxa; [|by apply (K1 b q)]. subst x. destruct (c_ref c =? 1) eqn:E1; [|eauto]. zbool. exfalso.
      rewrite E1 in Hra. rewrite (count_if_delete _ _ current p Hp) in Hra. unfold uses_cred at 1 in Hra. rewrite bool_decide_eq_true_2 in Hra by done. cbn [b2Z] in Hra.
      assert (1 <= count_if (uses_cred a) (delete current (procs st))); [|lia]. apply (count_if_pos _ _ b q); [by rewrite lookup_delete_ne|by apply bool_decide_eq_true].
  - intros b x Hb. rewrite Hlook in Hb. rewrite Hcount. case_decide as E1; [injection Hb as <-; subst b; rewrite Hr2, Hn0, bool_decide_eq_false_2, bool_decide_eq_true_2 by done; done|].
    rewrite (bool_decide_eq_false_2 (new = b)) by congruence. case_decide as E2; [subst b; rewrite bool_decide_eq_true_2 by done|rewrite bool_decide_eq_false_2 by congruence; rewrite (K2 b x Hb); cbn; lia].
    destruct (c_ref c =? 1); [done|]. injection Hb as <-. cbn. lia.
  - assert (Hgs : forall k', is_Some (cred_groups_of st !! k') -> is_Some (cred_groups_of st' !! k')) by (intros k' Hk'; rewrite P3; destruct (decide (k' = k)) as [->|]; [rewrite lookup_insert_eq; eauto|by rewrite lookup_insert_ne]).
    intros b x Hb. rewrite Hlook in Hb. case_decide; [injection Hb as <-; exists k; split; [congruence|apply Hgs; eauto]|]. case_decide; [destruct (c_ref c =? 1); [done|]; injection Hb as <-; exists k; split; [done|apply Hgs; eauto]|].
    destruct (K3 b x Hb) as (k' & H1 & H2). exists k'. split; [done|by apply Hgs].
  - assert (Hgc : forall k', count_if (uses_groups k') (creds st') = count_if (uses_groups k') (creds st) + if c_ref c =? 1 then 0 else b2Z (bool_decide (k = k'))).
    { intros k'. rewrite P2. assert (Hu : uses_groups k' c = bool_decide (k = k')) by (unfold uses_groups; by rewrite Hk, decide_Some).
      assert (Hu2 : uses_groups k' c2 = bool_decide (k = k')) by (rewrite <- Hu; unfold uses_groups; by rewrite Hg2). destruct (c_ref c =? 1).
      - rewrite count_if_new by (rewrite lookup_delete_ne; done). rewrite (count_if_delete _ (creds st) a c Hc), Hu, Hu2. lia.
      - rewrite count_if_new by (rewrite lookup_insert_ne; done). rewrite (count_if_update _ _ a c _ Hc), Hu2. change (uses_groups k' (set_c_ref (c_ref c - 1) c)) with (uses_groups k' c). lia. }
    intros k' g' Hk'. rewrite P3 in Hk'. rewrite Hgc. destruct (decide (k' = k)) as [->|].
    + rewrite lookup_insert_eq in Hk'. injection Hk' as <-. cbn. rewrite (K4 k g Hg), bool_decide_eq_true_2 by done. done.
    + rewrite lookup_insert_ne in Hk' by done. rewrite (K4 k' g' Hk'), bool_decide_eq_false_2 by congruence. cbn. destruct (_ =? _); lia.
  - rewrite P4. split.
    + destruct (c_ref c =? 1); [|done]. constructor; [|done]. intros Hx. rewrite (Hfree a) in Hc by (by right). done.
    + intros b Hb. rewrite Hlook. assert (Hb' : b = a /\ c_ref c = 1 \/ b ∈ rest).
      { destruct (c_ref c =? 1) eqn:E1; [|by right]. zbool. apply elem_of_cons in Hb as [->|]; auto. }
      destruct Hb' as [(-> & ->)|Hb']; [rewrite decide_False, decide_True by done; done|]. rewrite decide_False by congruence. rewrite decide_False by (intros ->; rewrite (Hfree a) in Hc by (by right); done). apply Hfree. by right.
  - rewrite Hlook. case_decide; [eauto|]. case_decide as Hd; [|done]. rewrite (proj2 (Z.eqb_neq (c_ref c) 1)) by naive_solver lia. eauto.
Qed.

(** The identity that [sys_setuid] gives. *)
Definition with_uid (u : Z) (c : cred) : cred :=
  if euid c =? EUID_ROOT then mk_cred 1 (c_groups c) u u u (gid c) (egid c) (sgid c) else mk_cred 1 (c_groups c) (uid c) u (suid c) (gid c) (egid c) (sgid c).

Lemma change_cred_spec junk allowed f st a c p new rest : keeps f -> creds_ok st ->
  procs st !! current = Some p -> proc_lock p = false -> p_cred p = Some a -> creds st !! a = Some c -> allowed c = true -> cred_pool st = new :: rest -> a <> default_cred \/ 1 < c_ref c ->
  exists st', change_cred junk allowed f st = Some (st', Ok tt) /\ changed st a c new (f c (set_c_ref 1 c)) st' /\ creds_ok st'.
Proof.
  intros Hkeep K Hp Hl Hpc Hc Hall Hpool Hdef. destruct (ck_groups _ K a c Hc) as (k & Hk & [g Hg]).
  assert (Hr : 1 <= c_ref c) by (rewrite (ck_ref _ K a c Hc); apply (count_if_pos _ _ current p Hp); by apply bool_decide_eq_true).
  assert (Hgr : 1 <= cg_ref g) by (rewrite (ck_groups_ref _ K k g Hg); apply (count_if_pos _ _ a c Hc); by apply bool_decide_eq_true).
  assert (Hnew : creds st !! new = None) by (apply (ck_pool _ K); rewrite Hpool; left).
  destruct (change_cred_steps junk allowed f st a c p new rest k g) as (st' & E1 & Hch); try done. exists st'. split; [done|]. split; [done|].
  destruct (Hkeep c (set_c_ref 1 c)) as (H1 & H2). by apply (changed_ok st a c new rest (f c (set_c_ref 1 c)) st' p k g).
Qed.

(** [sys_setuid] where it is allowed: the effective id, and all three of the super-user, are the new one; the
    new credentials share the groups of the old ones, which are freed when no other process has them; all
    counts are exact again. *)
Theorem sys_setuid_correct junk u st a c p new rest : creds_ok st ->
  procs st !! current = Some p -> proc_lock p = false -> p_cred p = Some a -> creds st !! a = Some c -> may_set_uid u c = true -> cred_pool st = new :: rest -> a <> default_cred \/ 1 < c_ref c ->
  exists st', sys_setuid junk u st = Some (st', Ok tt) /\ changed st a c new (with_uid u c) st' /\ creds_ok st'.
Proof.
  intros. unfold sys_setuid. destruct (change_cred_spec junk (may_set_uid u) (fun c n => if euid c =? EUID_ROOT then set_uids u n else set_euid u n) st a c p new rest) as (st' & E1 & Hch & K'); try done.
  - intros c1 x. by destruct (_ =? _).
  - exists st'. split; [exact E1|]. split; [|exact K']. unfold with_uid. by destruct (euid c =? EUID_ROOT).
Qed.
End counts.


(** ** Process groups *)

Definition in_group (g h : Z) : bool := bool_decide (h = g).
Definition in_session (s : Z) (x : process_group) : bool := bool_decide (g_session x = Some s).

(** [Q] is the group of each process and [held] counts the references of calls that run. *)
Record groups_ok (st : state) (Q : gmap Z Z) (held : Z -> Z) : Prop := {
  go_group a g : Q !! a = Some g -> is_Some (groups st !! g);
  go_held g : 0 <= held g /\ (1 <= held g -> is_Some (groups st !! g));
  go_ref g x : groups st !! g = Some x -> 1 <= g_ref x /\ g_ref x = held g + count_if (in_group g) Q;
  go_list g x : groups st !! g = Some x -> NoDup (processes x) /\ forall a, a ∈ processes x <-> Q !! a = Some g;
  go_session g x : groups st !! g = Some x -> exists s, g_session x = Some s /\ is_Some (sessions st !! s);
  go_sessions s y : sessions st !! s = Some y -> 1 <= s_ref y /\ s_ref y = count_if (in_session s) (groups st) /\
    NoDup (s_groups y) /\ forall g, g ∈ s_groups y <-> exists x, groups st !! g = Some x /\ g_session x = Some s;
  go_table n g : group_table st !! n = Some g -> exists x, groups st !! g = Some x /\ pgid x = n;
  go_listed g x : groups st !! g = Some x -> processes x <> [] -> group_table st !! pgid x = Some g;
  go_unique g h x y : groups st !! g = Some x -> groups st !! h = Some y -> pgid x = pgid y -> g = h;
  go_pool : NoDup (group_pool st) /\ forall g, g ∈ group_pool st -> groups st !! g = None;
  go_spool : NoDup (session_pool st) /\ forall s, s ∈ session_pool st -> sessions st !! s = None;
}.

Section groups.
Context `{C : Current}.
Implicit Types (st : state) (Q : gmap Z Z) (held : Z -> Z) (x : process_group).

Lemma groups_frame st st' Q held : groups_ok st Q held -> groups st' = groups st -> sessions st' = sessions st -> group_table st' = group_table st ->
  group_pool st' = group_pool st -> session_pool st' = session_pool st -> groups_ok st' Q held.
Proof. intros [G1 G2 G3 G4 G5 G6 G7 G8 G9 G10 G11] E1 E2 E3 E4 E5. split; rewrite ?E1, ?E2, ?E3, ?E4, ?E5; done. Qed.

Lemma groups_held st Q held held' : (forall g, held' g = held g) -> groups_ok st Q held -> groups_ok st Q held'.
Proof. intros Hh [G1 G2 G3 G4 G5 G6 G7 G8 G9 G10 G11]. split; try done; intros; rewrite ?Hh; auto. Qed.

(** Only the count and the list of one group change. *)
Lemma groups_update st Q held Q' held' g x x' : groups_ok st Q held -> groups st !! g = Some x -> pgid x' = pgid x -> g_session x' = g_session x ->
  1 <= g_ref x' -> g_ref x' = held' g + count_if (in_group g) Q' -> NoDup (processes x') -> (forall a, a ∈ processes x' <-> Q' !! a = Some g) ->
  (processes x' <> [] -> group_table st !! pgid x = Some g) ->
  (forall h, 0 <= held' h /\ (1 <= held' h -> is_Some (groups st !! h))) -> (forall h, h <> g -> held' h + count_if (in_group h) Q' = held h + count_if (in_group h) Q) ->
  (forall a h, h <> g -> Q' !! a = Some h <-> Q !! a = Some h) -> groups_ok (set_groups (<[g := x']> (groups st)) st) Q' held'.
Proof.
  intros G Hx Hpg Hs Hr1 Hr2 Hnd Hl Ht Hh Hcount Hq. destruct G as [G1 G2 G3 G4 G5 G6 G7 G8 G9 G10 G11].
  assert (Hsome : forall h, is_Some (<[g := x']> (groups st) !! h) <-> is_Some (groups st !! h)) by (intros h; destruct (decide (h = g)) as [->|]; [rewrite lookup_insert_eq, Hx; split; eauto|by rewrite lookup_insert_ne]).
  assert (Hview : forall h y, <[g := x']> (groups st) !! h = Some y -> exists z, groups st !! h = Some z /\ pgid y = pgid z /\ g_session y = g_session z).
  { intros h y Hy. destruct (decide (h = g)) as [->|]; [rewrite lookup_insert_eq in Hy; injection Hy as <-; eauto|rewrite lookup_insert_ne in Hy by done; eauto]. }
  split; cbn; try done.
  - intros a h Ha. apply Hsome. destruct (decide (h = g)) as [->|]; [eauto|]. by apply (G1 a), Hq.
  - intros h. rewrite Hsome. apply Hh.
  - intros h y Hy. destruct (decide (h = g)) as [->|]; [rewrite lookup_insert_eq in Hy; by injection Hy as <-|]. rewrite lookup_insert_ne in Hy by done. rewrite Hcount by done. by apply G3.
  - intros h y Hy. destruct (decide (h = g)) as [->|]; [rewrite lookup_insert_eq in Hy; by injection Hy as <-|]. rewrite lookup_insert_ne in Hy by done. destruct (G4 h y Hy) as (H1 & H2). split; [done|]. intros a. rewrite H2. by rewrite Hq.
  - intros h y Hy. destruct (Hview h y Hy) as (z & Hz & _ & ->). by apply (G5 h).
  - intros s y Hy. destruct (G6 s y Hy) as (H1 & H2 & H3 & H4). split_and!; try done.
    + assert (Hi : in_session s x' = in_session s x) by (unfold in_session; by rewrite Hs). rewrite H2, (count_if_update _ _ g x x' Hx), Hi. lia.
    + intros h. rewrite H4. split; intros (z & Hz & Hzs).
      * destruct (decide (h = g)) as [->|]; [exists x'; rewrite lookup_insert_eq; split; [done|congruence]|exists z; by rewrite lookup_insert_ne].
      * destruct (Hview h z Hz) as (z' & Hz' & _ & E2). exists z'. split; [done|congruence].
  - intros n h Hn. destruct (G7 n h Hn) as (z & Hz & Hzn). destruct (decide (h = g)) as [->|]; [exists x'; rewrite lookup_insert_eq; split; [done|congruence]|exists z; by rewrite lookup_insert_ne].
  - intros h y Hy Hne. destruct (decide (h = g)) as [->|]; [rewrite lookup_insert_eq in Hy; injection Hy as <-; rewrite Hpg; by apply Ht|]. rewrite lookup_insert_ne in Hy by done. by apply G8.
  - intros h1 h2 y1 y2 Hy1 Hy2 He. destruct (Hview h1 y1 Hy1) as (z1 & Hz1 & E1 & _). destruct (Hview h2 y2 Hy2) as (z2 & Hz2 & E2 & _). apply (G9 h1 h2 z1 z2); congruence.
  - split; [apply G10|]. intros h Hh'. destruct G10 as (_ & G10). specialize (G10 h Hh'). rewrite lookup_insert_ne by congruence. done.
Qed.

(** What the calls on groups leave alone. *)
Definition same_procs st st' : Prop :=
  procs st' = procs st /\ proc_pool st' = proc_pool st /\ proc_table st' = proc_table st /\ proctree_lock st' = proctree_lock st /\ creds st' = creds st.

Lemma ref_group_spec st Q held g x : groups_ok st Q held -> groups st !! g = Some x ->
  exists st', process_group_ref (Some g) st = Some st' /\ groups_ok st' Q (fun h => held h + one g h) /\ groups st' = <[g := set_g_ref (g_ref x + 1) x]> (groups st) /\ same_procs st st'.
Proof.
  intros G Hx. unfold process_group_ref, upd_group. rewrite (upd_at _ _ _ _ _ x Hx). eexists. split; [reflexivity|]. split; [|done].
  destruct (go_ref _ _ _ G g x Hx) as (H1 & H2). destruct (go_list _ _ _ G g x Hx) as (H3 & H4). apply (groups_update st Q held Q _ g x); try done; cbn.
  - lia.
  - rewrite one_self. lia.
  - apply (go_listed _ _ _ G g x Hx).
  - intros h. destruct (go_held _ _ _ G h) as (H5 & H6). destruct (decide (h = g)) as [->|]; [rewrite one_self; split; [lia|eauto]|rewrite one_ne by done; split; [lia|intros; apply H6; lia]].
  - intros h Hh. rewrite one_ne by done. lia.
Qed.

Lemma session_release_spec s y st : sessions st !! s = Some y -> 1 <= s_ref y ->
  session_release (Some s) st = Some (if s_ref y =? 1 then set_session_pool (s :: session_pool st) (set_sessions (delete s (sessions st)) st) else set_sessions (<[s := set_s_ref (s_ref y - 1) y]> (sessions st)) st).
Proof.
  intros Hy Hr. unfold session_release. rewrite Hy. cbn [mbind option_bind]. unfold upd_session. rewrite (upd_at _ _ _ _ _ y Hy). cbn [mbind option_bind]. unfold ref_dec. rewrite (proj2 (Z.eqb_neq (s_ref y) 0)) by lia.
  destruct (s_ref y =? 1) eqn:E1; zbool.
  - rewrite (proj2 (Z.ltb_ge _ _)) by lia. cbn. by rewrite delete_insert_eq.
  - by rewrite (proj2 (Z.ltb_lt _ _)) by lia.
Qed.

Lemma no_members Q g : count_if (in_group g) Q = 0 -> forall a, Q !! a <> Some g.
Proof. intros Hz a Ha. pose proof (count_if_pos (in_group g) Q a g Ha ltac:(by apply bool_decide_eq_true)). lia. Qed.

(** A group that no process is in goes, with the session whose last group it was. *)
Definition without_group g x s (y : session) st : state :=
  set_group_pool (g :: group_pool st) (set_groups (delete g (groups st)) (set_group_table (delete (pgid x) (group_table st))
    (if s_ref y =? 1 then set_session_pool (s :: session_pool st) (set_sessions (delete s (sessions st)) st)
     else set_sessions (<[s := mk_session (s_ref y - 1) (leader y) (sid y) (filter (fun h => h <> g) (s_groups y))]> (sessions st)) st))).

Lemma without_group_ok st Q held g x s y : groups_ok st Q held -> groups st !! g = Some x -> g_session x = Some s -> sessions st !! s = Some y -> held g = 1 -> g_ref x = 1 ->
  groups_ok (without_group g x s y st) Q (fun h => held h - one g h).
Proof.
  intros G Hx Hs Hy Hh Hr. assert (G' := G). destruct G' as [G1 G2 G3 G4 G5 G6 G7 G8 G9 G10 G11]. destruct (G3 g x Hx) as (_ & Hc). assert (Hz : count_if (in_group g) Q = 0) by lia. pose proof (no_members Q g Hz) as Hno.
  destruct (G6 s y Hy) as (Y1 & Y2 & Y3 & Y4).
  assert (Hcs : forall t, count_if (in_session t) (delete g (groups st)) = count_if (in_session t) (groups st) - b2Z (bool_decide (s = t))).
  { intros t. assert (Hi : in_session t x = bool_decide (s = t)) by (unfold in_session; by rewrite Hs, decide_Some). rewrite (count_if_delete _ (groups st) g x Hx), Hi. lia. }
  assert (HS : forall t, sessions (without_group g x s y st) !! t = if decide (t = s) then (if s_ref y =? 1 then None else Some (mk_session (s_ref y - 1) (leader y) (sid y) (filter (fun h => h <> g) (s_groups y)))) else sessions st !! t).
  { intros t. unfold without_group. destruct (s_ref y =? 1); cbn; case_decide as Ht; subst; rewrite ?lookup_delete_eq, ?lookup_insert_eq, ?lookup_delete_ne, ?lookup_insert_ne by done; done. }
  assert (HG : groups (without_group g x s y st) = delete g (groups st)) by (unfold without_group; by destruct (s_ref y =? 1)).
  assert (HT : group_table (without_group g x s y st) = delete (pgid x) (group_table st)) by (unfold without_group; by destruct (s_ref y =? 1)).
  assert (HP : group_pool (without_group g x s y st) = g :: group_pool st) by (unfold without_group; by destruct (s_ref y =? 1)).
  assert (HSP : session_pool (without_group g x s y st) = if s_ref y =? 1 then s :: session_pool st else session_pool st) by (unfold without_group; by destruct (s_ref y =? 1)).
  split; rewrite ?HG, ?HT, ?HP, ?HSP.
  - intros a h Ha. rewrite lookup_delete_ne by (intros <-; by apply (Hno a)). by apply (G1 a).
  - intros h. destruct (G2 h) as (H1 & H2). destruct (decide (h = g)) as [->|]; [rewrite one_self; split; [lia|intros; lia]|]. rewrite one_ne, lookup_delete_ne by done. split; [lia|]. intros; apply H2; lia.
  - intros h z Hz'. apply lookup_delete_Some in Hz' as (Hne & Hz'). rewrite one_ne by done. destruct (G3 h z Hz'). lia.
  - intros h z Hz'. apply lookup_delete_Some in Hz' as (Hne & Hz'). by apply G4.
  - intros h z Hz'. apply lookup_delete_Some in Hz' as (Hne & Hz'). destruct (G5 h z Hz') as (t & Ht & Hts). exists t. split; [done|]. rewrite HS. case_decide as Hts'; [|done]. subst t. destruct (s_ref y =? 1) eqn:E1; [|eauto]. zbool. exfalso.
    pose proof (Hcs s) as Hd. rewrite bool_decide_eq_true_2 in Hd by done. cbn in Hd. assert (1 <= count_if (in_session s) (delete g (groups st))); [|lia].
    apply (count_if_pos _ _ h z); [by rewrite lookup_delete_ne|by apply bool_decide_eq_true].
  - intros t w Hw. rewrite HS in Hw. rewrite Hcs. case_decide as Ht.
    + subst t. destruct (s_ref y =? 1) eqn:E1; [done|]. zbool. injection Hw as <-. cbn. rewrite bool_decide_eq_true_2 by done. cbn. split_and!; try lia; [by apply NoDup_filter|].
      intros h. rewrite list_elem_of_filter, Y4. split.
      * intros (Hne & z & Hz1 & Hz2). exists z. by rewrite lookup_delete_ne.
      * intros (z & Hz1 & Hz2). apply lookup_delete_Some in Hz1 as (Hne & Hz1). eauto.
    + rewrite bool_decide_eq_false_2 by congruence. cbn. destruct (G6 t w Hw) as (W1 & W2 & W3 & W4). split_and!; try lia; try done. intros h. rewrite W4. split; intros (z & Hz1 & Hz2).
      * exists z. rewrite lookup_delete_ne by (intros <-; congruence). done.
      * apply lookup_delete_Some in Hz1 as (_ & Hz1). eauto.
  - intros n h Hn. apply lookup_delete_Some in Hn as (Hne & Hn). destruct (G7 n h Hn) as (z & Hz1 & Hz2). exists z. rewrite lookup_delete_ne by (intros <-; congruence). done.
  - intros h z Hz' Hne. apply lookup_delete_Some in Hz' as (Hhg & Hz'). rewrite lookup_delete_ne; [by apply G8|]. intros Hp. apply Hhg. by apply (G9 g h x z).
  - intros h1 h2 z1 z2 H1 H2. apply lookup_delete_Some in H1 as (_ & H1). apply lookup_delete_Some in H2 as (_ & H2). by apply G9.
  - destruct G10 as (N1 & N2). split; [constructor; [intros Hg; rewrite (N2 g Hg) in Hx; done|done]|]. intros h Hh'. apply elem_of_cons in Hh' as [->|Hh']; [apply lookup_delete_eq|]. apply lookup_delete_None. right. by apply N2.
  - destruct G11 as (N1 & N2). split.
    + destruct (s_ref y =? 1); [|done]. constructor; [intros Hg; rewrite (N2 s Hg) in Hy; done|done].
    + intros t Ht. rewrite HS. case_decide as Hts; [subst t|].
      * destruct (s_ref y =? 1); [done|]. rewrite (N2 s Ht) in Hy. done.
      * apply N2. destruct (s_ref y =? 1); [|done]. apply elem_of_cons in Ht as [->|]; done.
Qed.

Lemma release_group_spec st Q held g x : groups_ok st Q held -> groups st !! g = Some x -> 1 <= held g ->
  exists st', process_group_release (Some g) st = Some st' /\ groups_ok st' Q (fun h => held h - one g h) /\ same_procs st st' /\
    groups st' = (if g_ref x =? 1 then delete g (groups st) else <[g := set_g_ref (g_ref x - 1) x]> (groups st)) /\ group_table st' = if g_ref x =? 1 then delete (pgid x) (group_table st) else group_table st.
Proof.
  intros G Hx Hh. destruct (go_ref _ _ _ G g x Hx) as (H1 & H2). destruct (go_list _ _ _ G g x Hx) as (H3 & H4). destruct (go_session _ _ _ G g x Hx) as (s & Hs & [y Hy]). destruct (go_sessions _ _ _ G s y Hy) as (Y1 & Y2 & Y3 & Y4).
  pose proof (count_if_nonneg (in_group g) Q) as Hnn. unfold process_group_release. rewrite Hx. cbn [mbind option_bind]. unfold upd_group. rewrite (upd_at _ _ _ _ _ x Hx). cbn [mbind option_bind]. destruct (g_ref x =? 1) eqn:E1; zbool.
  - rewrite (proj2 (Z.ltb_ge _ _)) by lia. rewrite Hs. cbn [mbind option_bind sessions set_groups]. rewrite Hy. cbn [mbind option_bind]. unfold remove_from. rewrite bool_decide_eq_true_2 by (apply Y4; eauto). cbn [kassert mbind option_bind].
    unfold upd_session. erewrite upd_at by exact Hy. cbn [mbind option_bind]. erewrite session_release_spec; [|cbn; apply lookup_insert_eq|done]. cbn [mbind option_bind].
    eexists. split; [reflexivity|]. assert (G' : groups_ok (without_group g x s y st) Q (fun h => held h - one g h)) by (apply without_group_ok; done || lia).
    split; [|cbn; destruct (s_ref y =? 1); cbn; rewrite ?delete_insert_eq; done].
    eapply groups_frame; [exact G'|..]; unfold without_group; cbn; destruct (s_ref y =? 1); cbn; rewrite ?delete_insert_eq, ?insert_insert_eq; done.
  - rewrite (proj2 (Z.ltb_lt _ _)) by lia. eexists. split; [reflexivity|]. unfold ref_dec. rewrite (proj2 (Z.eqb_neq (g_ref x) 0)) by lia. split; [|done].
    apply (groups_update st Q held Q _ g x); try done; cbn.
    + lia.
    + rewrite one_self. lia.
    + apply (go_listed _ _ _ G g x Hx).
    + intros h. destruct (go_held _ _ _ G h) as (H5 & H6). destruct (decide (h = g)) as [->|]; [rewrite one_self; split; [lia|eauto]|rewrite one_ne by done; split; [lia|intros; apply H6; lia]].
    + intros h Hne. rewrite one_ne by done. lia.
Qed.


(** A group that no process is in leaves the table. *)
Lemma untable_ok st Q held g x : groups_ok st Q held -> groups st !! g = Some x -> processes x = [] -> groups_ok (set_group_table (delete (pgid x) (group_table st)) st) Q held.
Proof.
  intros [G1 G2 G3 G4 G5 G6 G7 G8 G9 G10 G11] Hx Hl. split; cbn; try done.
  - intros n h Hn. apply lookup_delete_Some in Hn as (_ & Hn). by apply G7.
  - intros h z Hz Hne. rewrite lookup_delete_ne; [by apply G8|]. intros Hp. assert (g = h) as -> by (by apply (G9 g h x z)). congruence.
Qed.

Lemma count_leave Q a g h : Q !! a = Some g -> count_if (in_group h) (delete a Q) = count_if (in_group h) Q - one h g.
Proof. intros Ha. rewrite (count_if_delete _ Q a g Ha). unfold in_group, one. destruct (decide (g = h)) as [->|]; [rewrite bool_decide_eq_true_2 by done|rewrite bool_decide_eq_false_2 by done]; cbn; lia. Qed.

Lemma leave_group_spec st Q held a g x : groups_ok st Q held -> Q !! a = Some g -> groups st !! g = Some x ->
  exists st', leave_group a g st = Some st' /\ groups_ok st' (delete a Q) held /\ same_procs st st' /\
    (forall h, h <> g -> groups st' !! h = groups st !! h) /\ (forall n, n <> pgid x -> group_table st' !! n = group_table st !! n).
Proof.
  intros G Ha Hx. destruct (go_ref _ _ _ G g x Hx) as (H1 & H2). destruct (go_list _ _ _ G g x Hx) as (H3 & H4). pose proof (count_if_pos (in_group g) Q a g Ha ltac:(by apply bool_decide_eq_true)) as Hpos.
  unfold leave_group. rewrite Hx. cbn [mbind option_bind]. unfold remove_from. rewrite bool_decide_eq_true_2 by (by apply H4). cbn [kassert mbind option_bind]. set (l := filter _ _).
  unfold upd_group. rewrite (upd_at _ _ _ _ _ x Hx). cbn [mbind option_bind]. set (x1 := set_processes l x). set (st1 := set_groups _ st).
  assert (Hl : forall b, b ∈ l <-> delete a Q !! b = Some g). { intros b. unfold l. rewrite list_elem_of_filter, H4, lookup_delete_Some. split; intros (? & ?); split; auto. }
  assert (Gs1 : groups_ok st1 (delete a Q) (fun h => held h + one g h)).
  { apply (groups_update st Q held _ _ g x); try done; cbn.
    - rewrite (count_leave Q a g g Ha), one_self. lia.
    - by apply NoDup_filter.
    - intros _. apply (go_listed _ _ _ G g x Hx). intros Hnil. assert (a ∈ processes x) by (by apply H4). rewrite Hnil in *. by apply not_elem_of_nil in H.
    - intros h. destruct (go_held _ _ _ G h) as (H5 & H6). destruct (decide (h = g)) as [->|]; [rewrite one_self; split; [lia|eauto]|rewrite one_ne by done; split; [lia|intros; apply H6; lia]].
    - intros h Hh. rewrite (count_leave Q a g h Ha), !one_ne by done. lia.
    - intros b h Hh. rewrite lookup_delete_Some. split; [tauto|]. intros Hb. split; [congruence|done]. }
  assert (Hx1 : groups st1 !! g = Some x1) by apply lookup_insert_eq.
  assert (Hrel : forall st2, groups_ok st2 (delete a Q) (fun h => held h + one g h) -> same_procs st st2 -> groups st2 = groups st1 -> (forall n, n <> pgid x -> group_table st2 !! n = group_table st !! n) ->
    exists st', process_group_release (Some g) st2 = Some st' /\ groups_ok st' (delete a Q) held /\ same_procs st st' /\
    (forall h, h <> g -> groups st' !! h = groups st !! h) /\ (forall n, n <> pgid x -> group_table st' !! n = group_table st !! n)).
  { intros st2 Gs2 (S1 & S2 & S3 & S4 & S5) Eg Et. destruct (release_group_spec st2 _ _ g x1 Gs2) as (st' & E1 & Gs' & (S1' & S2' & S3' & S4' & S5') & Eg' & Et').
    - by rewrite Eg. - rewrite one_self. pose proof (go_held _ _ _ G g). lia.
    - exists st'. split; [done|]. split; [eapply groups_held; [|exact Gs']; intros h; cbn; lia|]. split; [unfold same_procs; by rewrite S1', S2', S3', S4', S5'|]. split.
      + intros h Hh. rewrite Eg'. destruct (g_ref x1 =? 1); rewrite ?lookup_delete_ne, ?lookup_insert_ne, Eg by done; cbn; by rewrite lookup_insert_ne.
      + intros n Hn. rewrite Et'. destruct (g_ref x1 =? 1); [|by apply Et]. change (pgid x1) with (pgid x). rewrite lookup_delete_ne by done. by apply Et. }
  case_bool_decide as Hnil.
  - apply Hrel; try done; [apply (untable_ok st1 _ _ g x1); done|]. intros n Hn. cbn. by rewrite lookup_delete_ne.
  - by apply Hrel.
Qed.

(** A process that is in no group joins one; the call gives up its reference. *)
Lemma join_ok st Q held a g x : groups_ok st Q held -> Q !! a = None -> groups st !! g = Some x -> 1 <= held g -> group_table st !! pgid x = Some g ->
  groups_ok (set_groups (<[g := set_processes (processes x ++ [a]) x]> (groups st)) st) (<[a := g]> Q) (fun h => held h - one g h).
Proof.
  intros G Ha Hx Hh Ht. destruct (go_ref _ _ _ G g x Hx) as (H1 & H2). destruct (go_list _ _ _ G g x Hx) as (H3 & H4).
  assert (Hc : forall h, count_if (in_group h) (<[a := g]> Q) = count_if (in_group h) Q + one g h).
  { intros h. rewrite (count_if_new _ Q a g Ha). unfold in_group, one. destruct (decide (h = g)) as [->|]; [rewrite bool_decide_eq_true_2 by done|rewrite bool_decide_eq_false_2 by congruence]; cbn; lia. }
  apply (groups_update st Q held _ _ g x); try done; cbn.
  - rewrite Hc, one_self. lia.
  - apply NoDup_app. split_and!; [done| |apply NoDup_singleton]. intros b Hb. rewrite list_elem_of_singleton. intros ->. apply H4 in Hb. congruence.
  - intros b. rewrite elem_of_app, list_elem_of_singleton, H4. destruct (decide (b = a)) as [->|]; [rewrite lookup_insert_eq; naive_solver|]. rewrite lookup_insert_ne by done. naive_solver.
  - intros h. destruct (go_held _ _ _ G h) as (H5 & H6). destruct (decide (h = g)) as [->|]; [rewrite one_self; split; [lia|eauto]|rewrite one_ne by done; split; [lia|intros; apply H6; lia]].
  - intros h Hne. rewrite Hc, one_ne by done. lia.
  - intros b h Hne. destruct (decide (b = a)) as [->|]; [rewrite lookup_insert_eq; split; [intros [= <-]; done|congruence]|]. by rewrite lookup_insert_ne.
Qed.

(** A process moves to a group of which the caller has a reference. *)
Lemma set_group_spec st Q held a p h y g x : groups_ok st Q held -> procs st !! a = Some p -> proctree_lock st = true -> proc_lock p = true ->
  p_group p = Some h -> Q !! a = Some h -> groups st !! h = Some y -> pgid y <> pid p -> g <> h -> groups st !! g = Some x -> 1 <= held g -> group_table st !! pgid x = Some g ->
  exists st', proc_set_group a (Some g) st = Some (st', Ok tt) /\ groups_ok st' (<[a := g]> Q) held /\ procs st' = <[a := set_p_group (Some g) p]> (procs st) /\
    proc_pool st' = proc_pool st /\ proc_table st' = proc_table st /\ proctree_lock st' = true /\ creds st' = creds st /\
    exists x', groups st' !! g = Some x' /\ pgid x' = pgid x /\ g_session x' = g_session x.
Proof.
  intros G Hp Htl Hl Hpg HQ Hy Hnl Hgh Hx Hh Ht. unfold proc_set_group. rewrite Hp. cbn [mbind option_bind]. rewrite Htl, Hl. cbn [andb kassert mbind option_bind].
  unfold is_leader. rewrite Hpg, Hy. cbn [mbind option_bind]. rewrite (proj2 (Z.eqb_neq _ _)) by done. rewrite bool_decide_eq_false_2 by congruence.
  destruct (leave_group_spec st Q held a h y G HQ Hy) as (st1 & -> & Gs1 & (S1 & S2 & S3 & S4 & S5) & Eg1 & Et1). cbn [mbind option_bind].
  assert (Hx1 : groups st1 !! g = Some x) by (by rewrite Eg1). assert (Hpn : pgid x <> pgid y) by (intros He; apply Hgh; by apply (go_unique _ _ _ G g h x y)).
  destruct (ref_group_spec st1 _ _ g x Gs1 Hx1) as (st2 & E2 & Gs2 & Eg2 & (T1 & T2 & T3 & T4 & T5)). assert (Et2 : group_table st2 = group_table st1) by (unfold process_group_ref, upd_group, upd in E2; rewrite Hx1 in E2; by injection E2 as <-).
  rewrite E2. cbn [mbind option_bind]. unfold upd_proc. rewrite (upd_at _ _ _ _ _ p) by (by rewrite T1, S1). cbn [mbind option_bind].
  assert (Hx2 : groups st2 !! g = Some (set_g_ref (g_ref x + 1) x)) by (rewrite Eg2; apply lookup_insert_eq).
  unfold upd_group. erewrite upd_at by exact Hx2. cbn [mbind option_bind]. eexists. split; [reflexivity|]. cbn. rewrite T1, S1, T2, S2, T3, S3, T4, S4, T5, S5. split.
  - pose proof (join_ok st2 (delete a Q) _ a g _ Gs2 (lookup_delete_eq _ _) Hx2 ltac:(cbn; rewrite one_self; lia) ltac:(cbn; rewrite Et2, Et1; done)) as Gs3. rewrite insert_delete_eq in Gs3.
    eapply groups_held; [|eapply groups_frame; [exact Gs3|done..]]. intros k. cbn. lia.
  - split_and!; try done. eexists. rewrite lookup_insert_eq. split_and!; done.
Qed.


(** The group of each process. *)
Definition members st : gmap Z Z := omap p_group (procs st).

Lemma members_insert (m : gmap Z process) a p : omap p_group (<[a := p]> m) = match p_group p with Some g => <[a := g]> (omap p_group m) | None => delete a (omap p_group m) end.
Proof.
  apply map_eq. intros b. rewrite lookup_omap. destruct (decide (b = a)) as [->|].
  - rewrite lookup_insert_eq. cbn. destruct (p_group p); [by rewrite lookup_insert_eq|by rewrite lookup_delete_eq].
  - rewrite lookup_insert_ne by done. destruct (p_group p); [rewrite lookup_insert_ne by done|rewrite lookup_delete_ne by done]; by rewrite lookup_omap.
Qed.

Lemma members_keep (m : gmap Z process) a p p' : m !! a = Some p -> p_group p' = p_group p -> omap p_group (<[a := p']> m) = omap p_group m.
Proof.
  intros Ha Hg. rewrite members_insert, Hg. assert (Hl : omap p_group m !! a = p_group p) by (by rewrite lookup_omap, Ha). destruct (p_group p) as [g|]; [by apply insert_id|by apply delete_id].
Qed.

(** A new group in a session. *)
Definition with_group g rest m s (y : session) st : state :=
  set_sessions (<[s := mk_session (s_ref y + 1) (leader y) (sid y) (s_groups y ++ [g])]> (sessions st))
    (set_group_table (<[m := g]> (group_table st)) (set_groups (<[g := mk_group 1 (Some s) m []]> (groups st)) (set_group_pool rest st))).

Lemma unused_group st Q held g : groups_ok st Q held -> groups st !! g = None -> held g = 0 /\ count_if (in_group g) Q = 0.
Proof.
  intros G Hg. pose proof (count_if_nonneg (in_group g) Q). destruct (go_held _ _ _ G g) as (H1 & H2). split.
  - destruct (decide (1 <= held g)) as [Hh|]; [|lia]. destruct (H2 Hh). congruence.
  - destruct (decide (1 <= count_if (in_group g) Q)) as [Hh|]; [|lia]. apply count_if_witness in Hh as (a & h & Ha & Hh). apply bool_decide_eq_true in Hh. subst h. destruct (go_group _ _ _ G a g Ha). congruence.
Qed.

Lemma with_group_ok st Q held g rest m s y : groups_ok st Q held -> group_pool st = g :: rest -> (forall h z, groups st !! h = Some z -> pgid z <> m) -> sessions st !! s = Some y ->
  groups_ok (with_group g rest m s y st) Q (fun h => held h + one g h).
Proof.
  intros G Hpool Hm Hy. assert (G' := G). destruct G' as [G1 G2 G3 G4 G5 G6 G7 G8 G9 G10 G11]. destruct G10 as (N1 & N2). rewrite Hpool in N1, N2. apply NoDup_cons in N1 as (N0 & N1).
  assert (Hg : groups st !! g = None) by (apply N2; left). destruct (unused_group st Q held g G Hg) as (Z1 & Z2). destruct (G6 s y Hy) as (Y1 & Y2 & Y3 & Y4).
  assert (Hc : forall t, count_if (in_session t) (<[g := mk_group 1 (Some s) m []]> (groups st)) = count_if (in_session t) (groups st) + b2Z (bool_decide (s = t))).
  { intros t. rewrite (count_if_new _ _ g _ Hg). unfold in_session at 1. cbn [g_session]. rewrite decide_Some. lia. }
  assert (Hsome : forall h, is_Some (groups st !! h) -> is_Some (<[g := mk_group 1 (Some s) m []]> (groups st) !! h)) by (intros h Hh; destruct (decide (h = g)) as [->|]; [rewrite lookup_insert_eq; eauto|by rewrite lookup_insert_ne]).
  split; cbn.
  - intros a h Ha. by apply Hsome, (G1 a).
  - intros h. destruct (G2 h) as (H1 & H2). pose proof (one_range g h). split; [lia|]. destruct (decide (h = g)) as [->|]; [rewrite lookup_insert_eq; eauto|rewrite one_ne by done; intros; apply Hsome, H2; lia].
  - intros h z Hz. destruct (decide (h = g)) as [->|]; [rewrite lookup_insert_eq in Hz; injection Hz as <-; rewrite one_self; cbn; lia|]. rewrite lookup_insert_ne in Hz by done. rewrite one_ne by done. destruct (G3 h z Hz). lia.
  - intros h z Hz. destruct (decide (h = g)) as [->|]; [rewrite lookup_insert_eq in Hz; injection Hz as <-; cbn|rewrite lookup_insert_ne in Hz by done; by apply G4].
    split; [constructor|]. intros a. rewrite elem_of_nil. split; [done|]. intros Ha. by apply (no_members Q g Z2 a).
  - intros h z Hz. assert (Hs : forall t, is_Some (sessions st !! t) -> is_Some (<[s := mk_session (s_ref y + 1) (leader y) (sid y) (s_groups y ++ [g])]> (sessions st) !! t)) by (intros t Ht; destruct (decide (t = s)) as [->|]; [rewrite lookup_insert_eq; eauto|by rewrite lookup_insert_ne]).
    destruct (decide (h = g)) as [->|]; [rewrite lookup_insert_eq in Hz; injection Hz as <-; exists s; split; [done|apply Hs; eauto]|]. rewrite lookup_insert_ne in Hz by done. destruct (G5 h z Hz) as (t & Ht & Hts). exists t. split; [done|by apply Hs].
  - intros t w Hw. rewrite Hc. destruct (decide (t = s)) as [->|].
    + rewrite lookup_insert_eq in Hw. injection Hw as <-. cbn. rewrite bool_decide_eq_true_2 by done. cbn. split_and!; try lia.
      * apply NoDup_app. split_and!; [done| |apply NoDup_singleton]. intros h Hh. rewrite list_elem_of_singleton. intros ->. apply Y4 in Hh as (z & Hz & _). congruence.
      * intros h. rewrite elem_of_app, list_elem_of_singleton, Y4. destruct (decide (h = g)) as [->|]; [rewrite lookup_insert_eq; split; [intros _; eexists; split; done|auto]|]. rewrite lookup_insert_ne by done. naive_solver.
    + rewrite lookup_insert_ne in Hw by done. rewrite bool_decide_eq_false_2 by congruence. cbn. destruct (G6 t w Hw) as (W1 & W2 & W3 & W4). split_and!; try lia; try done. intros h. rewrite W4.
      destruct (decide (h = g)) as [->|]; [rewrite lookup_insert_eq, Hg; split; intros (z & Hz & Hzs); [done|injection Hz as <-; cbn in Hzs; congruence]|]. by rewrite lookup_insert_ne.
  - intros n h Hn. destruct (decide (n = m)) as [->|]; [rewrite lookup_insert_eq in Hn; injection Hn as <-; eexists; rewrite lookup_insert_eq; split; done|]. rewrite lookup_insert_ne in Hn by done.
    destruct (G7 n h Hn) as (z & Hz & Hzn). exists z. rewrite lookup_insert_ne by (intros <-; congruence). done.
  - intros h z Hz Hne. destruct (decide (h = g)) as [->|]; [rewrite lookup_insert_eq in Hz; injection Hz as <-; done|]. rewrite lookup_insert_ne in Hz by done. rewrite lookup_insert_ne by (intros Heq; by apply (Hm h z Hz)). by apply G8.
  - intros h1 h2 z1 z2 Hz1 Hz2 He. destruct (decide (h1 = g)) as [->|], (decide (h2 = g)) as [->|]; try done.
    + rewrite lookup_insert_eq in Hz1. injection Hz1 as <-. rewrite lookup_insert_ne in Hz2 by done. exfalso. by apply (Hm h2 z2 Hz2).
    + rewrite lookup_insert_eq in Hz2. injection Hz2 as <-. rewrite lookup_insert_ne in Hz1 by done. exfalso. by apply (Hm h1 z1 Hz1).
    + rewrite lookup_insert_ne in Hz1, Hz2 by done. by apply (G9 h1 h2 z1 z2).
  - split; [done|]. intros h Hh. rewrite lookup_insert_ne by (intros <-; done). apply N2. by right.
  - destruct G11 as (M1 & M2). split; [done|]. intros t Ht. specialize (M2 t Ht). rewrite lookup_insert_ne by congruence. done.
Qed.

Lemma tree_acquire_spec st : proctree_lock st = false -> tree_acquire st = Some (set_proctree_lock true st).
Proof. intros Hl. unfold tree_acquire. by rewrite Hl. Qed.
Lemma tree_release_spec st : proctree_lock st = true -> tree_release st = Some (set_proctree_lock false st).
Proof. intros Hl. unfold tree_release. by rewrite Hl. Qed.

(** The process is found and has one more reference. *)
Lemma from_pid_spec st n a p : proc_table st !! n = Some a -> procs st !! a = Some p -> proc_from_pid n st = Some (set_procs (<[a := set_p_ref (p_ref p + 1) p]> (procs st)) st, Some a).
Proof. intros Ht Hp. unfold proc_from_pid. rewrite Ht. cbn. unfold upd_proc. by rewrite (upd_at _ _ _ _ _ p Hp). Qed.

Lemma proc_release_spec st a p : procs st !! a = Some p -> 1 < p_ref p -> proc_release (Some a) st = Some (set_procs (<[a := set_p_ref (p_ref p - 1) p]> (procs st)) st).
Proof.
  intros Hp Hr. unfold proc_release. rewrite Hp. cbn [mbind option_bind]. unfold upd_proc. rewrite (upd_at _ _ _ _ _ p Hp). cbn [mbind option_bind]. rewrite (proj2 (Z.ltb_lt _ _)) by done.
  unfold ref_dec. by rewrite (proj2 (Z.eqb_neq _ _)) by lia.
Qed.

Lemma set_session_spec g x s w st : groups st !! g = Some x -> g_session x = None -> sessions st !! s = Some w ->
  process_group_set_session g (Some s) st = Some (set_sessions (<[s := mk_session (s_ref w + 1) (leader w) (sid w) (s_groups w ++ [g])]> (sessions st)) (set_groups (<[g := set_g_session (Some s) x]> (groups st)) st)).
Proof.
  intros Hx Hs Hw. unfold process_group_set_session. rewrite Hx. cbn [mbind option_bind]. rewrite bool_decide_eq_true_2 by done. cbn [kassert mbind option_bind]. unfold session_ref, upd_session. rewrite (upd_at _ _ _ _ st w Hw). cbn [mbind option_bind].
  unfold upd_group. erewrite upd_at by exact Hx. cbn [mbind option_bind]. erewrite upd_at by (cbn; apply lookup_insert_eq). cbn. by rewrite insert_insert_eq.
Qed.

Lemma moved_process p g : proc_lock p = false -> set_p_ref (p_ref p + 1 - 1) (set_p_proc_lock false (set_p_group g (set_p_proc_lock true (set_p_ref (p_ref p + 1) p)))) = set_p_group g p.
Proof. replace (p_ref p + 1 - 1) with (p_ref p) by lia. destruct p. cbn. intros ->. reflexivity. Qed.

(** The end of [sys_setpgid]: the process moves, and the locks and the references are given back. *)
Lemma move_spec st Q a p h y g x : groups_ok st Q (one g) -> Q = members st -> procs st !! a = Some (set_p_proc_lock true (set_p_ref (p_ref p + 1) p)) -> proctree_lock st = true -> proc_lock p = false -> 1 <= p_ref p ->
  p_group p = Some h -> groups st !! h = Some y -> pgid y <> pid p -> g <> h -> groups st !! g = Some x -> group_table st !! pgid x = Some g ->
  exists st', ('(st, ret) ← proc_set_group a (Some g) st; st ← proc_unlock a st; st ← tree_release st; st ← proc_release (Some a) st; st ← process_group_release (Some g) st; Some (st, ret)) = Some (st', Ok tt) /\
    procs st' = <[a := set_p_group (Some g) p]> (procs st) /\ groups_ok st' (members st') (fun _ => 0) /\ proctree_lock st' = false /\ exists x', groups st' !! g = Some x' /\ pgid x' = pgid x /\ g_session x' = g_session x.
Proof.
  intros G HQ Hp Htl Hl Hr Hpg Hy Hnl Hgh Hx Ht.
  assert (HQa : Q !! a = Some h) by (rewrite HQ; unfold members; by rewrite lookup_omap, Hp).
  destruct (set_group_spec st Q (one g) a _ h y g x G Hp Htl eq_refl Hpg HQa Hy Hnl Hgh Hx ltac:(rewrite one_self; lia) Ht) as (st1 & -> & Gs1 & P1 & _ & P3 & P4 & P5 & x1 & Hx1 & Hx1p & Hx1s). cbn [mbind option_bind].
  rewrite (unlock_spec a (set_p_group (Some g) (set_p_proc_lock true (set_p_ref (p_ref p + 1) p))) st1) by (done || (rewrite P1; apply lookup_insert_eq)). cbn [mbind option_bind].
  rewrite tree_release_spec by done. cbn [mbind option_bind]. erewrite proc_release_spec; [|cbn; apply lookup_insert_eq|cbn; lia]. cbn [mbind option_bind procs set_procs set_proctree_lock]. rewrite P1, !insert_insert_eq.
  match goal with |- context [process_group_release (Some g) ?s] => set (st2 := s) end. assert (Gs2 : groups_ok st2 (<[a := g]> Q) (one g)) by (eapply groups_frame; [exact Gs1|done..]).
  destruct (release_group_spec st2 _ _ g x1 Gs2 Hx1 ltac:(rewrite one_self; lia)) as (st3 & E3 & Gs3 & (S1 & _ & _ & S4 & _) & Eg & _). rewrite E3. cbn [mbind option_bind]. exists st3. split; [done|].
  assert (Hps : procs st3 = <[a := set_p_group (Some g) p]> (procs st)). { rewrite S1. cbn [procs set_procs set_proctree_lock st2]. f_equal. by apply moved_process. }
  split; [done|]. split.
  - assert (Hmem : members st3 = <[a := g]> Q) by (unfold members; rewrite Hps, members_insert; cbn; by rewrite HQ). rewrite Hmem. eapply groups_held; [|exact Gs3]. intros k. cbn. lia.
  - split; [by rewrite S4|]. destruct (go_ref _ _ _ Gs2 g x1 Hx1) as (_ & Hr2). rewrite one_self in Hr2. pose proof (count_if_pos (in_group g) (<[a := g]> Q) a g ltac:(apply lookup_insert_eq) ltac:(by apply bool_decide_eq_true)).
    rewrite Eg. rewrite (proj2 (Z.eqb_neq (g_ref x1) 1)) by lia. eexists. rewrite lookup_insert_eq. split; [reflexivity|]. done.
Qed.

(** The processes that a process may move: itself and its children. *)
Definition mine st a : Prop := a = current \/ exists p, procs st !! a = Some p /\ p_parent p = Some current.

(** C16: [sys_setpgid] of a process that is the caller or a child of it and leads no group, to another group of its
    session that there is, or to a new one with its own number, that no group has yet and for which there is memory
    (without, the call releases locks that it has not taken); the lists and counts of processes, groups and sessions
    agree, and the locks it takes are free.  The process is in the group afterwards and in no other; a group, and a
    session, that is left without members is freed and leaves the table; no lock is left held; all lists and
    counts of processes, groups and sessions agree again. *)
Theorem sys_setpgid_correct n m st a p cur h y : groups_ok st (members st) (fun _ => 0) -> proctree_lock st = false -> procs st !! current = Some cur ->
  let n' := if n =? 0 then pid cur else n in let m' := if m =? 0 then n' else m in
  0 <= m' -> proc_table st !! n' = Some a -> procs st !! a = Some p -> proc_lock p = false -> 1 <= p_ref p -> mine st a ->
  p_group p = Some h -> groups st !! h = Some y -> pgid y <> pid p ->
  (if n' =? m' then group_pool st <> [] /\ forall k z, groups st !! k = Some z -> pgid z <> m'
   else exists g x, group_table st !! m' = Some g /\ g <> h /\ groups st !! g = Some x /\ g_session x = g_session y) ->
  exists st' g x, sys_setpgid n m st = Some (st', Ok tt) /\ procs st' = <[a := set_p_group (Some g) p]> (procs st) /\
    groups_ok st' (members st') (fun _ => 0) /\ proctree_lock st' = false /\ groups st' !! g = Some x /\ pgid x = m' /\ g_session x = g_session y.
Proof.
  intros G Htl Hcur n' m' Hm Htab Hp Hl Hr Hmine Hpg Hy Hnl Hcase. unfold sys_setpgid. rewrite Hcur. cbn [mbind option_bind]. fold n' m'. rewrite (proj2 (Z.ltb_ge m' 0)) by done.
  rewrite (from_pid_spec st n' a p Htab Hp). cbn [mbind option_bind]. set (p1 := set_p_ref (p_ref p + 1) p). set (st1 := set_procs (<[a := p1]> (procs st)) st).
  assert (Hmine' : forall X Y : option (state * res unit), (if negb (bool_decide (p_parent p = Some current)) && negb (a =? current) then X else Y) = Y).
  { intros X Y. destruct Hmine as [->|(p0 & Hp0 & Hpar)]; [rewrite Z.eqb_refl, andb_false_r; done|]. assert (p0 = p) as -> by congruence. by rewrite bool_decide_eq_true_2. }
  assert (Hmem1 : members st1 = members st) by (unfold members; cbn; by apply (members_keep _ _ p)).
  assert (Hlk : forall s, procs s = procs st1 -> proctree_lock s = false -> tree_acquire s = Some (set_proctree_lock true s) /\ proc_acquire a (set_proctree_lock true s) = Some (set_procs (<[a := set_p_proc_lock true p1]> (procs st)) (set_proctree_lock true s))).
  { intros s Hs Hls. split; [by apply tree_acquire_spec|]. rewrite (acquire_spec a p1) by (done || (cbn; rewrite Hs; apply lookup_insert_eq)). cbn. rewrite Hs. cbn. by rewrite insert_insert_eq. }
  assert (Hfin : forall s g x, groups_ok s (members st) (one g) -> procs s = <[a := set_p_proc_lock true p1]> (procs st) -> proctree_lock s = true -> groups s !! h = Some y -> g <> h -> groups s !! g = Some x -> group_table s !! m' = Some g -> pgid x = m' -> g_session x = g_session y ->
    exists st' g' x', ('(st, ret) ← (y0 ← groups s !! h; if negb (bool_decide (g_session x = g_session y0)) then Some (s, Err EPERM) else proc_set_group a (Some g) s);
      st ← proc_unlock a st; st ← tree_release st; st ← proc_release (Some a) st; st ← process_group_release (Some g) st; Some (st, ret)) = Some (st', Ok tt) /\
      procs st' = <[a := set_p_group (Some g') p]> (procs st) /\ groups_ok st' (members st') (fun _ => 0) /\ proctree_lock st' = false /\ groups st' !! g' = Some x' /\ pgid x' = m' /\ g_session x' = g_session y).
  { intros s g x Gs Hps Hls Hy' Hgh Hx Ht Hxm Hxs. rewrite Hy'. cbn [mbind option_bind]. rewrite bool_decide_eq_true_2 by done. cbn [negb].
    assert (Hmem : members st = members s) by (unfold members; rewrite Hps; symmetry; by apply (members_keep _ _ p)).
    destruct (move_spec s (members st) a p h y g x Gs Hmem) as (st' & E1 & Q1 & Q2 & Q3 & x' & Q4 & Q5 & Q6); try done; [rewrite Hps; apply lookup_insert_eq|by rewrite Hxm|].
    exists st', g, x'. split; [exact E1|]. rewrite Q1, Hps, insert_insert_eq. split_and!; try done; congruence. }
  assert (Gs1 : groups_ok st1 (members st) (fun _ => 0)) by (eapply groups_frame; [exact G|done..]).
  assert (Hp2 : forall s, procs (set_procs (<[a := set_p_proc_lock true p1]> (procs st)) s) !! a = Some (set_p_proc_lock true p1)) by (intros; apply lookup_insert_eq).
  destruct (n' =? m') eqn:Enm.
  - destruct Hcase as (Hne & Hfree). destruct (group_pool st) as [|g rest] eqn:Epool; [done|]. unfold process_group_create. change (group_pool st1) with (group_pool st). rewrite Epool. cbn [mbind option_bind].
    match goal with |- context [tree_acquire ?s] => set (st2 := s) end. destruct (Hlk st2 eq_refl Htl) as (-> & E2). cbn [mbind option_bind]. rewrite E2. cbn [mbind option_bind]. rewrite Hp2. cbn [mbind option_bind].
    assert (Hg : groups st !! g = None) by (apply (go_pool _ _ _ G); rewrite Epool; left). assert (Hgh : g <> h) by congruence.
    set (st3 := set_procs _ (set_proctree_lock true st2)). assert (Hx3 : groups st3 !! g = Some (mk_group 1 None m' [])) by apply lookup_insert_eq. assert (Hy3 : groups st3 !! h = Some y) by (cbn; by rewrite lookup_insert_ne).
    rewrite Hx3. cbn [mbind option_bind g_session]. cbn [p_group set_p_proc_lock set_p_ref p1]. rewrite Hpg. cbn [mbind option_bind]. rewrite Hy3. cbn [mbind option_bind].
    destruct (go_session _ _ _ G h y Hy) as (s & Hs & [w Hw]).
    pose proof (set_session_spec g _ s w st3 Hx3 eq_refl Hw) as Eset. rewrite <- Hs in Eset at 1. rewrite Eset. cbn [mbind option_bind].
    match goal with |- context [set_sessions ?u ?v] => set (st4 := set_sessions u v) end. assert (Hx4 : groups st4 !! g = Some (mk_group 1 (Some s) m' [])) by apply lookup_insert_eq.
    rewrite Hx4. cbn [mbind option_bind]. change (p_parent (set_p_proc_lock true p1)) with (p_parent p). rewrite Hmine'.
    apply (Hfin st4 g (mk_group 1 (Some s) m' [])); try done; [|cbn; by rewrite lookup_insert_ne|cbn; apply lookup_insert_eq].
    pose proof (with_group_ok st (members st) _ g rest m' s w G Epool Hfree Hw) as Gw. eapply groups_held; [|eapply groups_frame; [exact Gw|..]]; try done; try (cbn; by rewrite !insert_insert_eq).
  - destruct Hcase as (g & x & Htm & Hgh & Hx & Hxs). unfold process_group_from_pgid. change (group_table st1) with (group_table st). rewrite Htm.
    destruct (ref_group_spec st1 _ _ g x Gs1 Hx) as (st2 & E2 & Gs2 & Eg2 & (S1 & _ & _ & S4 & _)). assert (Et2 : group_table st2 = group_table st1) by (unfold process_group_ref, upd_group, upd in E2; cbn in E2; rewrite Hx in E2; by injection E2 as <-).
    rewrite E2. cbn [mbind option_bind]. destruct (Hlk st2 S1) as (-> & E3); [by rewrite S4|]. cbn [mbind option_bind]. rewrite E3. cbn [mbind option_bind]. rewrite Hp2. cbn [mbind option_bind].
    set (st3 := set_procs _ (set_proctree_lock true st2)). assert (Hx3 : groups st3 !! g = Some (set_g_ref (g_ref x + 1) x)) by (cbn; rewrite Eg2; apply lookup_insert_eq).
    assert (Hy3 : groups st3 !! h = Some y) by (cbn; rewrite Eg2; by rewrite lookup_insert_ne). rewrite Hx3. cbn [mbind option_bind]. destruct (go_session _ _ _ G g x Hx) as (s & Hs & _).
    cbn [g_session set_g_ref]. rewrite Hs. cbn [mbind option_bind]. rewrite Hx3. cbn [mbind option_bind]. change (p_parent (set_p_proc_lock true p1)) with (p_parent p). rewrite Hmine'. cbn [p_group set_p_proc_lock set_p_ref p1]. rewrite Hpg. cbn [mbind option_bind].
    destruct (go_table _ _ _ G m' g Htm) as (x0 & Hx0 & Hpgx). assert (x0 = x) as -> by congruence.
    apply (Hfin st3 g (set_g_ref (g_ref x + 1) x)); try done; [|cbn; by rewrite Et2].
    eapply groups_held; [|eapply groups_frame; [exact Gs2|done..]]. intros k. cbn. lia.
Qed.

End groups.


(** ** Waiting for children *)

Section children.
Context `{C : Current}.
Implicit Types (st : state).

Definition is_zombie st (c : Z) : bool := match procs st !! c with Some p => match p_state p with PROC_STATE_ZOMBIE => true | _ => false end | None => false end.

(** The first child that is a zombie, in the order of the list. *)
Fixpoint first_zombie st (l : list Z) : option Z :=
  match l with [] => None | c :: l => if is_zombie st c then Some c else first_zombie st l end.

Lemma first_zombie_in st l c : first_zombie st l = Some c -> c ∈ l /\ exists p, procs st !! c = Some p /\ p_state p = PROC_STATE_ZOMBIE.
Proof.
  induction l as [|d l IH]; [done|]. cbn. destruct (is_zombie st d) eqn:Hd.
  - intros [= <-]. split; [left|]. unfold is_zombie in Hd. destruct (procs st !! d) as [p|]; [|done]. exists p. split; [done|]. by destruct (p_state p).
  - intros H. destruct (IH H) as (H1 & H2). split; [by right|done].
Qed.

Lemma search_any st found l : (forall c, c ∈ l -> is_Some (procs st !! c)) ->
  search_children (-1) found l st = Some (match first_zombie st l with Some c => Ok (Some c) | None => if found || negb (bool_decide (l = [])) then Ok None else Err ECHILD end).
Proof.
  revert found. induction l as [|c l IH]; intros found Hl; cbn [search_children first_zombie].
  - rewrite bool_decide_eq_true_2, orb_false_r by done. done.
  - destruct (Hl c ltac:(left)) as [p Hp]. unfold is_zombie. rewrite Hp. cbn [mbind option_bind]. change (-1 =? -1) with true. cbn match. rewrite IH by (intros d Hd; apply Hl; by right).
    rewrite (bool_decide_eq_false_2 (c :: l = [])) by done. cbn [negb orb]. rewrite orb_true_r. by destruct (p_state p).
Qed.

(** What reaping leaves. *)
Record reaped st (cur : process) (c : Z) (p : process) st' : Prop := {
  rp_procs : procs st' = (if p_ref p =? 1 then delete c else <[c := set_p_ref (p_ref p - 1) p]>) (<[current := set_p_child (filter (fun d => d <> c) (p_child cur)) cur]> (procs st));
  rp_table : proc_table st' = delete (pid p) (proc_table st);
  rp_pool : proc_pool st' = if p_ref p =? 1 then c :: proc_pool st else proc_pool st;
  rp_lock : proctree_lock st' = false;
}.

Lemma lock_twice p b : proc_lock p = b -> set_p_proc_lock b (set_p_proc_lock (negb b) p) = p.
Proof. destruct p. cbn. by intros ->. Qed.

Lemma ref_back p : set_p_ref (p_ref p + 1 - 1) (set_p_ref (p_ref p + 1) p) = p.
Proof. replace (p_ref p + 1 - 1) with (p_ref p) by lia. by destruct p. Qed.

Lemma child_unlock p l : proc_lock p = false -> set_p_proc_lock false (set_p_child l (set_p_proc_lock true p)) = set_p_child l p.
Proof. destruct p. cbn. by intros ->. Qed.

Lemma queue_unlock p l : proc_lock p = false -> set_p_proc_lock false (set_p_wait_queue l (set_p_proc_lock true p)) = set_p_wait_queue l p.
Proof. destruct p. cbn. by intros ->. Qed.

Lemma proc_release_last st a p : procs st !! a = Some p -> p_ref p = 1 -> proc_release (Some a) st = Some (set_proc_pool (a :: proc_pool st) (set_procs (delete a (procs st)) st)).
Proof.
  intros Hp Hr. unfold proc_release. rewrite Hp. cbn [mbind option_bind]. unfold upd_proc. rewrite (upd_at _ _ _ _ _ p Hp). cbn [mbind option_bind]. rewrite (proj2 (Z.ltb_ge _ _)) by lia. cbn. by rewrite delete_insert_eq.
Qed.

Lemma zombie_cleanup_spec st a p q x : proctree_lock st = true -> procs st !! a = Some p -> p_parent p = Some q -> procs st !! q = Some x -> a <> q -> a ∈ p_child x -> 1 < p_ref p ->
  proc_zombie_cleanup a st = Some (set_procs (<[a := set_p_ref (p_ref p - 1) p]> (<[q := set_p_child (filter (fun d => d <> a) (p_child x)) x]> (procs st))) (proc_unregister (pid p) st)).
Proof.
  intros Hl Hp Hpar Hx Hne Hin Hr. unfold proc_zombie_cleanup. rewrite Hl. cbn [kassert mbind option_bind]. rewrite Hp. cbn [mbind option_bind]. rewrite Hpar. cbn [procs proc_unregister set_proc_table]. rewrite Hx. cbn [mbind option_bind].
  unfold remove_from. rewrite bool_decide_eq_true_2 by done. cbn [kassert mbind option_bind]. unfold upd_proc. erewrite upd_at by exact Hx. cbn [mbind option_bind].
  erewrite proc_release_spec; [reflexivity|cbn; by rewrite lookup_insert_ne|done].
Qed.

Lemma wait_round_any thread nohang st cur : proctree_lock st = false -> procs st !! current = Some cur -> proc_lock cur = false ->
  (forall c, c ∈ p_child cur -> exists p, procs st !! c = Some p /\ p_parent p = Some current /\ 1 <= p_ref p /\ c <> current) ->
  match first_zombie st (p_child cur) with
  | Some c => exists st' p, procs st !! c = Some p /\ wait_round thread (-1) nohang st = Some (st', Reaped (pid p) (exit_status p)) /\ reaped st cur c p st'
  | None => exists st' r, wait_round thread (-1) nohang st = Some (st', r) /\ proc_table st' = proc_table st /\ proctree_lock st' = false /\
      (if bool_decide (p_child cur = []) then r = Failed ECHILD /\ procs st' = procs st
       else if nohang then r = Nothing /\ procs st' = procs st
       else r = Blocked /\ procs st' = <[current := set_p_wait_queue (wait_queue cur ++ [thread]) cur]> (procs st))
  end.
Proof.
  intros Htl Hcur Hl Hch. unfold wait_round. rewrite tree_acquire_spec by done. cbn [mbind option_bind]. rewrite (acquire_spec current cur) by done. cbn [mbind option_bind].
  set (st1 := set_procs _ _). assert (Hc1 : procs st1 !! current = Some (set_p_proc_lock true cur)) by apply lookup_insert_eq.
  assert (Hsame : forall c, c <> current -> procs st1 !! c = procs st !! c) by (intros c Hc; cbn; by rewrite lookup_insert_ne).
  assert (Hz : forall l, (forall c, c ∈ l -> c ∈ p_child cur) -> first_zombie st1 l = first_zombie st l).
  { induction l as [|c l IH]; intros Hsub; [done|]. cbn. destruct (Hch c (Hsub c ltac:(left))) as (q & _ & _ & _ & Hne). unfold is_zombie. rewrite Hsame by done. rewrite IH by (intros d Hd; apply Hsub; by right). done. }
  unfold search_wait_proc. rewrite Hc1. cbn [mbind option_bind]. change (-1 =? 0) with false. cbn match. cbn [mbind option_bind]. change (0 <? -1) with false. cbn match. change (p_child (set_p_proc_lock true cur)) with (p_child cur).
  rewrite search_any by (intros c Hc; destruct (Hch c Hc) as (q & Hq & _ & _ & Hne); rewrite Hsame by done; eauto). cbn [mbind option_bind]. rewrite (Hz (p_child cur)) by done.
  destruct (first_zombie st (p_child cur)) as [c|] eqn:Ez.
  - destruct (first_zombie_in st _ c Ez) as (Hin & _). destruct (Hch c Hin) as (p & Hp & Hpar & Hr & Hne). assert (Hp1 : procs st1 !! c = Some p) by (by rewrite Hsame).
    unfold proc_ref, upd_proc. rewrite (upd_at _ _ _ _ st1 p Hp1). cbn [mbind option_bind]. set (st2 := set_procs _ st1).
    erewrite (zombie_cleanup_spec st2 c _ current (set_p_proc_lock true cur)); [|done|cbn; apply lookup_insert_eq|done|cbn; rewrite lookup_insert_ne by done; apply lookup_insert_eq|done|done|cbn; lia]. cbn [mbind option_bind].
    set (p2 := set_p_ref _ _). set (cur2 := set_p_child _ _). set (st3 := set_procs _ _).
    assert (Hc3 : procs st3 !! current = Some cur2) by (cbn; rewrite lookup_insert_ne by done; apply lookup_insert_eq).
    rewrite (unlock_spec current cur2 st3 Hc3 eq_refl). cbn [mbind option_bind]. rewrite tree_release_spec by done. cbn [mbind option_bind].
    set (st4 := set_proctree_lock false _). assert (Hp4 : procs st4 !! c = Some p) by (cbn [procs st4 set_proctree_lock set_procs st3]; rewrite lookup_insert_ne, lookup_insert_eq by done; f_equal; apply ref_back).
    rewrite Hp4. cbn [mbind option_bind].
    assert (Hprocs : procs st4 = <[c := p]> (<[current := set_p_child (filter (fun d => d <> c) (p_child cur)) cur]> (procs st))).
    { apply map_eq. intros b. destruct (decide (b = c)) as [->|]; [by rewrite Hp4, lookup_insert_eq|]. rewrite (lookup_insert_ne _ c b) by done. destruct (decide (b = current)) as [->|].
      - cbn. rewrite !lookup_insert_eq. f_equal. unfold cur2. by apply child_unlock.
      - cbn. by rewrite !lookup_insert_ne. }
    destruct (decide (p_ref p = 1)) as [Hr1|Hr1].
    + rewrite (proc_release_last st4 c p Hp4 Hr1). cbn [mbind option_bind]. eexists _, p. split; [done|]. split; [reflexivity|]. split; cbn [procs proc_table proc_pool proctree_lock set_procs set_proc_pool]; rewrite ?Hr1; try done.
      rewrite Hprocs. cbn match. change (1 =? 1) with true. cbn match. rewrite delete_insert_eq. done.
    + rewrite (proc_release_spec st4 c p Hp4) by lia. cbn [mbind option_bind]. eexists _, p. split; [done|]. split; [reflexivity|]. split; cbn [procs proc_table proc_pool proctree_lock set_procs]; rewrite ?(proj2 (Z.eqb_neq (p_ref p) 1)) by done; try done.
      by rewrite Hprocs, insert_insert_eq.
  - assert (Hend : forall s q, procs s = <[current := set_p_proc_lock true q]> (procs st) -> proctree_lock s = true -> proc_table s = proc_table st -> proc_lock q = false -> forall r : waited, exists st',
      (st ← proc_unlock current s; st ← tree_release st; Some (st, r)) = Some (st', r) /\ proc_table st' = proc_table st /\ proctree_lock st' = false /\ procs st' = <[current := q]> (procs st)).
    { intros s q Hs Hls Hts Hq r. rewrite (unlock_spec current (set_p_proc_lock true q)) by (done || (rewrite Hs; apply lookup_insert_eq)). cbn [mbind option_bind]. rewrite tree_release_spec by done. cbn [mbind option_bind].
      eexists. split; [reflexivity|]. cbn. rewrite Hs, insert_insert_eq. split_and!; try done. f_equal. by apply (lock_twice q false). }
    assert (Hid : <[current := cur]> (procs st) = procs st) by (by apply insert_id). cbn [orb]. destruct (bool_decide (p_child cur = [])) eqn:Ech; cbn [negb].
    + destruct (Hend st1 cur eq_refl eq_refl eq_refl Hl (Failed ECHILD)) as (st' & E1 & H1 & H2 & H3). exists st', (Failed ECHILD). rewrite H3, Hid. split_and!; done.
    + destruct nohang.
      * destruct (Hend st1 cur eq_refl eq_refl eq_refl Hl Nothing) as (st' & E1 & H1 & H2 & H3). exists st', Nothing. rewrite H3, Hid. split_and!; done.
      * unfold upd_proc. rewrite (upd_at _ _ _ _ st1 _ Hc1). cbn [mbind option_bind]. match goal with |- context [proc_unlock current ?s] => set (st2 := s) end.
        destruct (Hend st2 (set_p_wait_queue (wait_queue cur ++ [thread]) cur)) with (r := Blocked) as (st' & E1 & H1 & H2 & H3); try done; [cbn; by rewrite insert_insert_eq|]. exists st', Blocked. split_and!; done.
Qed.

(** C17: [sys_waitpid] for any child.  With a status pointer that does not belong to the user it fails with EFAULT and
    does nothing.  Otherwise, with a child that has exited, the first one in the list is reaped: the
    call gives its pid and writes its status to the pointer, if there is one, and it leaves the list of the children and
    the table of the processes and is freed when nothing else refers to it.  Without one the call returns at once if it
    was told so, or else the thread waits in the queue that an exit wakes.  Without children it fails with ECHILD. *)
Theorem sys_waitpid_any_correct thread status nohang st cur : proctree_lock st = false -> procs st !! current = Some cur -> proc_lock cur = false ->
  (forall c, c ∈ p_child cur -> exists p, procs st !! c = Some p /\ p_parent p = Some current /\ 1 <= p_ref p /\ c <> current) ->
  if bool_decide (status = Some false) then sys_waitpid thread (-1) status nohang st = Some (st, Failed EFAULT, None) else
  match first_zombie st (p_child cur) with
  | Some c => exists st' p, procs st !! c = Some p /\
      sys_waitpid thread (-1) status nohang st = Some (st', Reaped (pid p) (exit_status p), match status with Some _ => Some (exit_status p) | None => None end) /\ reaped st cur c p st'
  | None => exists st' r, sys_waitpid thread (-1) status nohang st = Some (st', r, None) /\ proc_table st' = proc_table st /\ proctree_lock st' = false /\
      (if bool_decide (p_child cur = []) then r = Failed ECHILD /\ procs st' = procs st
       else if nohang then r = Nothing /\ procs st' = procs st
       else r = Blocked /\ procs st' = <[current := set_p_wait_queue (wait_queue cur ++ [thread]) cur]> (procs st))
  end.
Proof.
  intros Htl Hcur Hl Hch. pose proof (wait_round_any thread nohang st cur Htl Hcur Hl Hch) as Hw. unfold sys_waitpid. destruct (bool_decide (status = Some false)); [reflexivity|].
  destruct (first_zombie st (p_child cur)) as [c|].
  - destruct Hw as (st' & p & Hp & -> & Hr). exists st', p. split; [done|]. split; [|done]. cbn [mbind option_bind]. destruct status as [b|]; reflexivity.
  - destruct Hw as (st' & r & -> & Ht & Hk & Hr). exists st', r. split; [|done]. cbn [mbind option_bind].
    assert (Hn : forall a b, r <> Reaped a b) by (intros a b ->; destruct (bool_decide (p_child cur = [])), nohang; destruct Hr as [Hr _]; discriminate Hr).
    destruct status, r; try done; by destruct (Hn n status).
Qed.
End children.

End ProcessInv.
