(* ===== verification/ProcessDefects.v ===== *)
(** Concrete processes: the witnesses of the theorems on credentials, groups and children, and runs in which the
    code does not do what it means to. *)

From S2P Require Import Prelude Process ProcessInv.

Module ProcessDefects.
Import Process ProcessInv.

(** The first process and its child. *)
Definition first : Z := 51.
Definition second : Z := 52.
#[local] Instance as_first : Current | 10 := {| current := first; init := first |}.
Definition as_second : Current := {| current := second; init := first |}.

Definition blank : cred := mk_cred 0 None 0 0 0 0 0 0.

(** Before the first process; the counts of the static objects are those of the source. *)
Definition cold : state :=
  mk_state {[default_cred := mk_cred 0 (Some default_cred_groups) 0 0 0 0 0 0]} [11; 12; 13] {[default_cred_groups := mk_cred_groups 1 []]} [21; 22]
    ∅ [31; 32] ∅ [41; 42; 43] ∅ ∅ [51; 52; 53] ∅ false ∅ [] [] [].

(** The first process leads a session and a group; it has one child, in the same group. *)
Definition family : option state :=
  '(st, _) ← proc_new false (Some 1) [] 2 cold;
  '(st, _) ← proc_new true (Some 2) [] 2 st;
  Some st.

Definition proc_of (p_ref_ : Z) (parent : option Z) (group cred : option Z) (n : Z) (child : list Z) : process :=
  mk_process p_ref_ parent group cred n child PROC_STATE_RUNNING 0 false [] 18 [] (Some 2) (Some 2) None [] true false [].

Definition at_home : state :=
  mk_state {[default_cred := mk_cred 2 (Some default_cred_groups) 0 0 0 0 0 0]} [11; 12; 13] {[default_cred_groups := mk_cred_groups 1 []]} [21; 22]
    {[31 := mk_session 1 51 1 [41]]} [32] {[41 := mk_group 2 (Some 31) 1 [51; 52]]} [42; 43] {[1 := 41]}
    {[51 := proc_of 1 None (Some 41) (Some 1) 1 [52]; 52 := proc_of 1 (Some 51) (Some 41) (Some 1) 2 []]} [53] {[1 := 51; 2 := 52]} false {[2 := 4]} [] [] [].

Example family_state : family = Some at_home.
Proof. vm_compute. reflexivity. Qed.

(** ** Witnesses *)

Ltac cases_in H :=
  first [apply lookup_singleton_Some in H as (<- & ?); subst|apply lookup_insert_Some in H as [(<- & ?)|(? & H)]; [subst|cases_in H]].

(** The child, after it gave up its privileges. *)
Definition plain_child : state := match @sys_setuid as_second blank 1000 at_home with Some (st, _) => st | None => at_home end.

Lemma plain_child_cred : @has_cred as_second plain_child 11 (mk_cred 1 (Some default_cred_groups) 1000 1000 1000 0 0 0).
Proof.
  split; [eexists; split; vm_compute; reflexivity|]. split; [vm_compute; reflexivity|]. assert (Hp : cred_pool plain_child = [12; 13]) by (vm_compute; reflexivity). rewrite Hp. split.
  - rewrite list_elem_of_In. cbn. lia.
  - repeat constructor; rewrite list_elem_of_In; cbn; lia.
Qed.

Definition tries : list (cred * id_call) := [(blank, Setuid 0); (blank, Seteuid 1000); (blank, Setgroups 1 (Some [7])); (blank, Setegid 0)].

(** The child tries to become the super-user again. *)
Lemma no_privilege_gained_witness : exists st' a c, @id_run as_second tries plain_child = Some st' /\ @has_cred as_second st' a c /\ euid c <> EUID_ROOT.
Proof.
  destruct (@id_run as_second tries plain_child) as [st'|] eqn:E; [|vm_compute in E; discriminate E].
  destruct (@no_privilege_gained as_second tries plain_child st' 11 _ plain_child_cred ltac:(done) ltac:(done) ltac:(done) E) as (a & c & H & _ & He). exists st', a, c. split; [reflexivity|]. split; [exact H|exact He].
Defined.

Lemma at_home_groups : groups_ok at_home (members at_home) (fun _ => 0).
Proof.
  assert (Hm : members at_home = {[51 := 41; 52 := 41]}) by reflexivity. rewrite Hm. split; cbn.
  - intros a g H. cases_in H; (eexists; reflexivity).
  - intros g. split; [lia|lia].
  - intros g x H. cases_in H. split; vm_compute; done.
  - intros g x H. cases_in H. split; [repeat constructor; rewrite list_elem_of_In; cbn; lia|]. intros a. rewrite list_elem_of_In. cbn. split.
    + intros [<-|[<-|[]]]; reflexivity.
    + intros H. cases_in H; auto.
  - intros g x H. cases_in H. exists 31. split; [done|eexists; reflexivity].
  - intros s y H. cases_in H. split_and!; try (vm_compute; done); [repeat constructor; rewrite list_elem_of_In; cbn; lia|]. intros g. cbn. rewrite list_elem_of_singleton. split; [intros ->; eexists; split; reflexivity|]. intros (x & H & _). by cases_in H.
  - intros n g H. cases_in H. eexists. split; reflexivity.
  - intros g x H _. by cases_in H.
  - intros g h x y H1 H2 _. cases_in H1. by cases_in H2.
  - split; [repeat constructor; rewrite list_elem_of_In; cbn; lia|]. intros g. rewrite list_elem_of_In. cbn. intros [<-|[<-|[]]]; reflexivity.
  - split; [apply NoDup_singleton|]. intros s ->%list_elem_of_singleton. reflexivity.
Qed.

(** The child makes a group of its own. *)
Lemma sys_setpgid_correct_witness : exists st' g x, @sys_setpgid as_second 0 0 at_home = Some (st', Ok tt) /\ groups_ok st' (members st') (fun _ => 0) /\ groups st' !! g = Some x /\ pgid x = 2.
Proof.
  destruct (@sys_setpgid_correct as_second 0 0 at_home 52 (proc_of 1 (Some 51) (Some 41) (Some 1) 2 []) (proc_of 1 (Some 51) (Some 41) (Some 1) 2 []) 41 (mk_group 2 (Some 31) 1 [51; 52]) at_home_groups
    eq_refl eq_refl ltac:(done) eq_refl eq_refl eq_refl ltac:(done) (or_introl eq_refl) eq_refl eq_refl ltac:(done)) as (st' & g & x & E1 & _ & G & _ & Hx & Hp & _).
  { split; [done|]. intros k z H. cbn in H. cases_in H. vm_compute. discriminate. }
  exists st', g, x. split; [exact E1|]. split; [exact G|]. split; [exact Hx|exact Hp].
Defined.

Definition left_alone : state := match @do_proc_deletion as_second at_home with Some st => st | None => at_home end.

(** The child has exited and the first process waits for it. *)
Lemma sys_waitpid_any_correct_witness : exists st', sys_waitpid 7 (-1) (Some true) false left_alone = Some (st', Reaped 2 0, Some 0) /\ procs st' !! 52 = None /\ proc_table st' !! 2 = None.
Proof.
  set (cur := set_p_child [52] (proc_of 1 None (Some 41) (Some 1) 1 [52])).
  assert (H1 : procs left_alone !! current = Some cur) by (vm_compute; reflexivity). assert (H2 : exists p, procs left_alone !! 52 = Some p /\ p_parent p = Some current /\ p_ref p = 1 /\ pid p = 2 /\ exit_status p = 0) by (eexists; vm_compute; done).
  destruct H2 as (p & Hp & Hpar & Hr & Hpid & Hex).
  pose proof (sys_waitpid_any_correct 7 (Some true) false left_alone cur ltac:(vm_compute; reflexivity) H1 eq_refl) as Hw. assert (Hz : first_zombie left_alone (p_child cur) = Some 52) by (vm_compute; reflexivity). rewrite Hz in Hw.
  destruct Hw as (st' & p' & Hp' & E1 & [R1 R2 _ _]).
  { intros c Hc. apply list_elem_of_singleton in Hc as ->. exists p. split; [exact Hp|]. split; [exact Hpar|]. split; [lia|done]. }
  assert (p' = p) as -> by congruence. exists st'. rewrite Hpid, Hex in E1. split; [exact E1|]. rewrite R1, R2, Hr, Hpid. split; [cbn match; change (1 =? 1) with true; cbn match; apply lookup_delete_eq|apply lookup_delete_eq].
Defined.


(** ** Runs *)

(** The child makes a group of its own, as both sides of a shell do. *)
Definition own_group : state := match @sys_setpgid as_second 0 0 at_home with Some (st, _) => st | None => at_home end.

(** The second [setpgid] of the same process to its own group fails, as it should, but the group is taken out
    of the table: no signal can be sent to it any more, although the process is still in it. *)
Theorem setpgid_again_loses_group : group_table own_group !! 2 = Some 42 /\ exists st', sys_setpgid 2 2 own_group = Some (st', Err EPERM) /\
  group_table st' !! 2 = None /\ processes <$> groups st' !! 42 = Some [second].
Proof.
  split; [vm_compute; reflexivity|]. destruct (sys_setpgid 2 2 own_group) as [[st' r]|] eqn:E; [|vm_compute in E; discriminate E]. exists st'.
  assert (H : r = Err EPERM /\ group_table st' !! 2 = None /\ processes <$> groups st' !! 42 = Some [second]) by (vm_compute in E; injection E as <- <-; split_and!; vm_compute; reflexivity).
  destruct H as (-> & H1 & H2). split_and!; [reflexivity|exact H1|exact H2].
Qed.

(** So does [setsid] of a process that leads its group. *)
Theorem setsid_of_leader_loses_group : exists st', @sys_setsid as_second own_group = Some (st', Err EPERM) /\ group_table st' !! 2 = None /\ processes <$> groups st' !! 42 = Some [second].
Proof.
  destruct (@sys_setsid as_second own_group) as [[st' r]|] eqn:E; [|vm_compute in E; discriminate E]. exists st'.
  assert (H : r = Err EPERM /\ group_table st' !! 2 = None /\ processes <$> groups st' !! 42 = Some [second]) by (vm_compute in E; injection E as <- <-; split_and!; vm_compute; reflexivity).
  destruct H as (-> & H1 & H2). split_and!; [reflexivity|exact H1|exact H2].
Qed.

(** A leader that exits stays in the list of its group: [proc_set_group] refuses to move it, and the list names
    an object that is freed when the process is reaped. *)
Definition leader_gone : option (state * waited * option Z) := st ← @do_proc_deletion as_second own_group; sys_waitpid 7 2 None true st.

Theorem leader_stays_in_group : exists st', leader_gone = Some (st', Reaped 2 0, None) /\ procs st' !! second = None /\ processes <$> groups st' !! 42 = Some [second].
Proof.
  destruct leader_gone as [[[st' r] v]|] eqn:E; [|vm_compute in E; discriminate E]. exists st'.
  assert (H : (r = Reaped 2 0 /\ v = None) /\ procs st' !! second = None /\ processes <$> groups st' !! 42 = Some [second]) by (vm_compute in E; injection E as <- <- <-; split_and!; vm_compute; reflexivity).
  destruct H as ((-> & ->) & H1 & H2). split_and!; [reflexivity|exact H1|exact H2].
Qed.

(** A child that exits and is no leader has no group any more: waiting for the processes of any group but -1
    reads the number of its group. *)
Theorem waitpid_group_of_zombie : p_group <$> procs left_alone !! second = Some None /\ sys_waitpid 7 (-2) None true left_alone = None.
Proof. split; vm_compute; reflexivity. Qed.

(** [setpgid] of a pid that no process has: the lock of a null process is taken before the test. *)
Theorem setpgid_of_nobody : proc_table at_home !! 9 = None /\ sys_setpgid 9 1 at_home = None.
Proof. split; vm_compute; reflexivity. Qed.

(** Credentials that a process had before it exits are given back, and it still refers to them. *)
Theorem zombie_keeps_freed_cred : exists st', @do_proc_deletion as_second plain_child = Some st' /\ p_cred <$> procs st' !! second = Some (Some 11) /\ creds st' !! 11 = None.
Proof.
  destruct (@do_proc_deletion as_second plain_child) as [st'|] eqn:E; [|vm_compute in E; discriminate E]. exists st'.
  assert (H : p_cred <$> procs st' !! second = Some (Some 11) /\ creds st' !! 11 = None) by (vm_compute in E; injection E as <-; split; vm_compute; reflexivity). split; [reflexivity|exact H].
Qed.

(** The child has groups of its own. *)
Definition grouped : state :=
  match (st ← @sys_setgroups as_second blank 1 (Some [7]) at_home; @sys_setuid as_second blank 1000 st.1) with Some (st, _) => st | None => at_home end.

(** What a call that is denied releases was never initialised.  With what an earlier user of the memory left in
    it, the groups of the process are freed under it; with an address that is none, the kernel faults. *)
Theorem denied_setuid_releases_garbage : exists st' k,
  c_groups <$> @current_cred as_second grouped = Some (Some k) /\ is_Some (cred_groups_of grouped !! k) /\
  @sys_setuid as_second (mk_cred 0 (Some k) 0 0 0 0 0 0) 0 grouped = Some (st', Err EPERM) /\ c_groups <$> @current_cred as_second st' = Some (Some k) /\ cred_groups_of st' !! k = None /\
  @sys_setuid as_second (mk_cred 0 (Some 99) 0 0 0 0 0 0) 0 grouped = None.
Proof.
  destruct (@sys_setuid as_second (mk_cred 0 (Some 21) 0 0 0 0 0 0) 0 grouped) as [[st' r]|] eqn:E; [|vm_compute in E; discriminate E]. exists st', 21.
  assert (H : r = Err EPERM /\ c_groups <$> @current_cred as_second st' = Some (Some 21) /\ cred_groups_of st' !! 21 = None) by (vm_compute in E; injection E as <- <-; split_and!; vm_compute; reflexivity).
  destruct H as (-> & H1 & H2). split; [vm_compute; reflexivity|]. split; [eexists; vm_compute; reflexivity|]. split; [exact E|]. split; [exact H1|]. split; [exact H2|]. vm_compute. reflexivity.
Qed.

(** [setgroups] of a process that may not forgets the credentials that it allocated. *)
Theorem denied_setgroups_leaks : exists st', @sys_setgroups as_second blank 1 (Some [7]) plain_child = Some (st', Err EPERM) /\ cred_pool plain_child = [12; 13] /\ cred_pool st' = [13] /\ is_Some (creds st' !! 12).
Proof.
  destruct (@sys_setgroups as_second blank 1 (Some [7]) plain_child) as [[st' r]|] eqn:E; [|vm_compute in E; discriminate E]. exists st'.
  assert (H : r = Err EPERM /\ cred_pool st' = [13] /\ is_Some (creds st' !! 12)) by (vm_compute in E; injection E as <- <-; split_and!; [reflexivity|vm_compute; reflexivity|eexists; vm_compute; reflexivity]).
  destruct H as (-> & H1 & H2). split; [reflexivity|]. split; [vm_compute; reflexivity|]. split; [exact H1|exact H2].
Qed.

(** The static credentials start with no reference of their own: when the last process gives them up they are
    given to the slab that they do not come from. *)
Definition alone : option state := '(st, _) ← proc_new false (Some 1) [] 2 cold; Some st.

Theorem default_cred_is_freed : exists st, alone = Some st /\ c_ref <$> creds st !! default_cred = Some 1 /\ sys_setuid blank 0 st = None.
Proof.
  destruct alone as [st|] eqn:E; [|vm_compute in E; discriminate E]. exists st. assert (H : c_ref <$> creds st !! default_cred = Some 1 /\ sys_setuid blank 0 st = None) by (vm_compute in E; injection E as <-; split; vm_compute; reflexivity).
  split; [reflexivity|exact H].
Qed.

End ProcessDefects.
