(* ===== verification/Block.v ===== *)
(** Buffers of requests and block devices (kernel/klib/iobuf.c, kernel/drivers/block.c): how the pages of a batch
    of the page cache become requests to a driver, and partitions.

    A driver is a class: what a request does to the device ([Driver]) and what a working one promises
    ([DriverLaws]).  [credit] is how many more allocations succeed.  Offsets and sizes are those of a device:
    they are not negative and no sum of them overflows.  [None] is a write outside a buffer, a failed assertion
    or a null pointer that is used. *)

From S2P Require Import Prelude.

Module Block.

(** ** Buffers *)

Inductive iobuf :=
  | IOBUF_TYPE_EMPTY
  | IOBUF_TYPE_CONTINUOUS (buffer size : Z)
  | IOBUF_TYPE_PAGES (pages : list Z) (offset size : Z).

Definition iobuf_size (b : iobuf) : Z := match b with IOBUF_TYPE_EMPTY => 0 | IOBUF_TYPE_CONTINUOUS _ n => n | IOBUF_TYPE_PAGES _ _ n => n end.

Definition pages_for (bytes : Z) : Z := (bytes + PAGE_SIZE - 1) / PAGE_SIZE.

(** Without a list of pages, every page is a hole. *)
Definition iobuf_pages_list_create (pages : option (list Z)) (count : Z) : list Z :=
  match pages with Some l => takeZ count l | None => replicate (Z.to_nat count) PAGE_INVALID end.

Definition iobuf_init_pages (pages : option (list Z)) (offset size : Z) : iobuf :=
  IOBUF_TYPE_PAGES (iobuf_pages_list_create pages (pages_for (offset + size))) offset size.

Definition iobuf_init_continuous (buffer size : Z) : iobuf := IOBUF_TYPE_CONTINUOUS buffer size.

Definition iobuf_set_page (b : iobuf) (addr page : Z) : option iobuf :=
  match b with
  | IOBUF_TYPE_PAGES l offset size =>
      let addr := addr + offset in
      kassert (addr mod PAGE_SIZE =? 0);;
      kassert (addr / PAGE_SIZE <? lenZ l);;
      Some (IOBUF_TYPE_PAGES (<[Z.to_nat (addr / PAGE_SIZE) := page]> l) offset size)
  | _ => None
  end.

Definition iobuf_get_page_at (b : iobuf) (addr : Z) : option Z :=
  kassert (addr <? iobuf_size b);;
  match b with IOBUF_TYPE_PAGES l offset _ => l !! Z.to_nat ((addr + offset) / PAGE_SIZE) | _ => None end.

(** The buffer at an address and how long it goes on; the address is 0 in a hole. *)
Definition iobuf_get_at (phys2virt : Z -> Z) (b : iobuf) (addr : Z) : option (Z * option Z) :=
  kassert (addr <? iobuf_size b);;
  match b with
  | IOBUF_TYPE_CONTINUOUS buffer size => Some (buffer + addr, Some (size - addr))
  | IOBUF_TYPE_PAGES _ offset _ =>
      page ← iobuf_get_page_at b addr;
      if page =? PAGE_INVALID then Some (0, None)
      else let addr := addr + offset in Some (phys2virt page + addr mod PAGE_SIZE, Some (PAGE_SIZE - addr mod PAGE_SIZE))
  | IOBUF_TYPE_EMPTY => None
  end.

(** The copy keeps the offset that the destination had before. *)
Definition iobuf_dup (dest_offset : Z) (src : iobuf) : option iobuf :=
  match src with
  | IOBUF_TYPE_CONTINUOUS buffer size => Some (IOBUF_TYPE_CONTINUOUS buffer size)
  | IOBUF_TYPE_PAGES l _ size => Some (IOBUF_TYPE_PAGES l dest_offset size)
  | IOBUF_TYPE_EMPTY => None
  end.

Inductive direction := IOBUF_IN | IOBUF_OUT.

(** Memory as bytes at addresses. *)
Definition memcpy (dest src n : Z) (m : Z -> Z) : Z -> Z := fun x => if (dest <=? x) && (x <? dest + n) then m (src + (x - dest)) else m x.
Definition memset (dest v n : Z) (m : Z -> Z) : Z -> Z := fun x => if (dest <=? x) && (x <? dest + n) then v else m x.

Definition iobuf_transfer_helper (b buf n : Z) (dir : direction) (m : Z -> Z) : Z -> Z :=
  match dir with IOBUF_IN => memcpy b buf n m | IOBUF_OUT => memcpy buf b n m end.

(** The loop over the pages; each round moves a byte or more. *)
Fixpoint transfer_loop (fuel : nat) (phys2virt : Z -> Z) (b : iobuf) (offset ptr addr size : Z) (dir : direction) (m : Z -> Z) : option (Z -> Z) :=
  match fuel with
  | O => None
  | S fuel =>
      if size <=? 0 then Some m
      else
        let remaining := PAGE_SIZE - (addr + offset) mod PAGE_SIZE in
        let chunk_size := Z.min size remaining in
        page ← iobuf_get_page_at b addr;
        let m := if negb (page =? PAGE_INVALID) then iobuf_transfer_helper (phys2virt page) ptr chunk_size dir m
                 else match dir with IOBUF_IN => memset ptr 0 chunk_size m | IOBUF_OUT => m end in
        transfer_loop fuel phys2virt b offset (ptr + chunk_size) (addr + chunk_size) (size - chunk_size) dir m
  end.

Definition iobuf_transfer (phys2virt : Z -> Z) (b : iobuf) (buf addr size : Z) (dir : direction) (m : Z -> Z) : option (Z -> Z) :=
  kassert (addr <=? iobuf_size b);;
  kassert (addr + size <=? iobuf_size b);;
  match b with
  | IOBUF_TYPE_CONTINUOUS buffer _ => Some (iobuf_transfer_helper (buffer + addr) buf size dir m)
  | IOBUF_TYPE_PAGES _ offset _ => transfer_loop (S (Z.to_nat size)) phys2virt b offset buf addr size dir m
  | IOBUF_TYPE_EMPTY => None
  end.

(** ** Runs of pages *)

Section pages.
(** The offset in the device that the page cache keeps for a page. *)
Context (cache_get_page_offset : Z -> Z).

(** The loop that extends a run: how many pages it has, and how many it took from the batch. *)
Fixpoint run_loop (next_offset : Z) (l : list Z) : nat * nat :=
  match l with
  | [] => (O, O)
  | page :: l =>
      if cache_get_page_offset page =? next_offset then
        let '(count, taken) := run_loop (cache_get_page_offset page + PAGE_SIZE) l in (S count, S taken)
      else (O, 1%nat)
  end.

(** The next run of a batch from [index]: its offset, its pages and the new index. *)
Definition block_get_continuous_pages (batch : list Z) (index : nat) : option (Z * list Z * nat) :=
  page ← batch !! index;
  let '(count, taken) := run_loop (cache_get_page_offset page) (drop index batch) in
  Some (cache_get_page_offset page, take count (drop index batch), (index + taken)%nat).
End pages.

(** ** Requests *)

Record block_device := mk_block_device { sector_size : Z; sectors_count : Z; unplugged : bool }.

Class Driver (D : Type) := {
  submit_read : Z -> Z -> D -> D * res (list Z);
  submit_write : Z -> Z -> list Z -> D -> D * res unit;
  submit_flush : Z -> Z -> D -> D * res unit;
  image : D -> list Z;
}.

(** A request inside the device is carried out in full. *)
Class DriverLaws (D : Type) `{Driver D} (dev : block_device) := {
  image_size d : lenZ (image d) = sector_size dev * sectors_count dev;
  read_law d start count : 0 <= start -> 0 < count -> start + count <= sectors_count dev ->
    exists d', submit_read start count d = (d', Ok (sliceZ (start * sector_size dev) (count * sector_size dev) (image d))) /\ image d' = image d;
  write_law d start count bs : 0 <= start -> 0 < count -> start + count <= sectors_count dev -> lenZ bs = count * sector_size dev ->
    exists d', submit_write start count bs d = (d', Ok tt) /\ image d' = blit (start * sector_size dev) bs (image d);
  flush_law d start count : exists d', submit_flush start count d = (d', Ok tt) /\ image d' = image d;
}.

Record state (D : Type) := mk_state { disk : D; credit : nat }.
Arguments mk_state {D}. Arguments disk {D}. Arguments credit {D}.

Section requests.
Context {D : Type} `{Driver D} (dev : block_device).
(** The content of a page of memory, and what new memory holds. *)
Context (page_content : Z -> list Z) (junk : Z).
Implicit Types (st : state D).

Definition allocate st : option (state D) := match credit st with O => None | S n => Some (mk_state (disk st) n) end.

(** A request that waits for its end; the device may be gone. *)
Definition submit_sync {A} (op : D -> D * res A) st : state D * res A :=
  if unplugged dev then (st, Err ENXIO) else let '(d, r) := op (disk st) in (mk_state d (credit st), r).

Definition start_sector (offset : Z) : Z := offset / sector_size dev.
Definition end_of (offset count : Z) : Z * Z :=
  let end_ := offset + count * PAGE_SIZE in
  let end_sector := (end_ + sector_size dev - 1) / sector_size dev in
  if sectors_count dev <? end_sector then (sectors_count dev * sector_size dev, sectors_count dev) else (end_, end_sector).

(** A copy into the buffer of [kmalloc]. *)
Definition put (off : Z) (bs buf : list Z) : option (list Z) := kassert (off + lenZ bs <=? lenZ buf);; Some (blit off bs buf).

Fixpoint copy_pages (ptr : Z) (pages : list Z) (buf : list Z) : option (list Z) :=
  match pages with
  | [] => Some buf
  | page :: pages => kassert (negb (page =? PAGE_INVALID));; buf ← put ptr (page_content page) buf; copy_pages (ptr + PAGE_SIZE) pages buf
  end.

(** The sector that a partial write reads first, at [off] in the buffer. *)
Definition read_sector (needed : bool) (sector off : Z) (buf : list Z) st : option (state D * res (list Z)) :=
  if needed then
    match allocate st with
    | None => Some (st, Err ENOMEM)
    | Some st =>
        let '(st, r) := submit_sync (submit_read sector 1) st in
        match r with Err e => Some (st, Err e) | Ok bs => buf ← put off bs buf; Some (st, Ok buf) end
    end
  else Some (st, Ok buf).

Definition block_write_continuous_pages (offset : Z) (pages : list Z) st : option (state D * res unit) :=
  let ss := sector_size dev in
  let first := start_sector offset in
  let '(end_, last) := end_of offset (lenZ pages) in
  let count := last - first in
  match allocate st with
  | None => Some (st, Err ENOMEM)
  | Some st =>
      '(st, r) ← read_sector (negb (offset mod ss =? 0)) first 0 (replicate (Z.to_nat (count * ss)) junk) st;
      match r with
      | Err e => Some (st, Err e)
      | Ok buf =>
          '(st, r) ← read_sector (negb (end_ mod ss =? 0) && ((offset mod ss =? 0) || negb (first =? last))) (last - 1) ((count - 1) * ss) buf st;
          match r with
          | Err e => Some (st, Err e)
          | Ok buf =>
              buf ← copy_pages (offset mod ss) pages buf;
              match allocate st with
              | None => Some (st, Err ENOMEM)
              | Some st =>
                  let '(st, r) := submit_sync (submit_write first count buf) st in
                  match r with
                  | Err e => Some (st, Err e)
                  | Ok _ =>
                      match allocate st with
                      | None => Some (st, Err ENOMEM)
                      | Some st => let '(st, r) := submit_sync (submit_flush first count) st in Some (st, r)
                      end
                  end
              end
          end
      end
  end.

(** The loop over the runs; the batch gives one index at least to each round.  [true] as a result is that the
    cache was told that the batch is written. *)
Fixpoint write_runs (fuel : nat) (page_offset : Z -> Z) (batch : list Z) (index : nat) st : option (state D * res bool) :=
  match fuel with
  | O => None
  | S fuel =>
      match block_get_continuous_pages page_offset batch index with
      | None => Some (st, Ok true)
      | Some (offset, pages, index) =>
          '(st, r) ← block_write_continuous_pages offset pages st;
          match r with Err e => Some (st, Err e) | Ok _ => write_runs fuel page_offset batch index st end
      end
  end.

Definition block_write_pages (page_offset : Z -> Z) (batch : list Z) st : option (state D * res bool) :=
  write_runs (S (length batch)) page_offset batch O st.

(** ** Reading *)

Fixpoint fill_loop (index : Z) (pages : list Z) (b : iobuf) : option iobuf :=
  match pages with
  | [] => Some b
  | page :: pages => kassert (negb (page =? PAGE_INVALID));; b ← iobuf_set_page b index page; fill_loop (index + PAGE_SIZE) pages b
  end.

Definition block_fill_iobuf (start count offset : Z) (pages : list Z) st : option (state D * res iobuf) :=
  match allocate st with
  | None => Some (st, Err ENOMEM)
  | Some st =>
      b ← fill_loop (offset mod sector_size dev) pages (iobuf_init_pages None ((start * sector_size dev) mod PAGE_SIZE) (count * sector_size dev));
      Some (st, Ok b)
  end.

(** A request whose buffer has no list of pages is released with the null list that the type of the buffer says
    it has. *)
Definition block_make_read_request_from_pages (offset : Z) (pages : list Z) st : option (state D * option (Z * Z * iobuf)) :=
  let first := start_sector offset in
  let '(_, last) := end_of offset (lenZ pages) in
  match allocate st with
  | None => Some (st, None)
  | Some st =>
      '(st, r) ← block_fill_iobuf first (last - first) offset pages st;
      match r with Ok b => Some (st, Some (first, last - first, b)) | Err _ => None end
  end.
End requests.

(** ** Positions *)

Inductive whence := SEEK_SET | SEEK_CUR | SEEK_END | SEEK_OTHER.

(** A [size_t] that becomes an [off_t]. *)
Definition to_off_t (z : Z) : Z := if u64 z <? 2 ^ 63 then u64 z else u64 z - 2 ^ 64.

(** The new position, which is also the result.  The addition to the position has signed operands: it is undefined when
    it overflows; the size of the device is unsigned. *)
Definition block_seek (dev : block_device) (cur offset : Z) (w : whence) : option (res Z) :=
  if unplugged dev then Some (Err ENXIO)
  else
    new_offset ← match w with
                 | SEEK_SET => Some (Ok offset)
                 | SEEK_CUR => kassert ((- 2 ^ 63 <=? cur + offset) && (cur + offset <? 2 ^ 63));; Some (Ok (cur + offset))
                 | SEEK_END => Some (Ok (to_off_t (sectors_count dev * sector_size dev + offset)))
                 | SEEK_OTHER => Some (Err EINVAL)
                 end;
    match new_offset with
    | Err e => Some (Err e)
    | Ok new_offset => Some (if new_offset <? 0 then Err EINVAL else Ok new_offset)
    end.

(** ** Partitions *)

Record partition := mk_partition { p_offset : Z; p_size : Z; p_unplugged : bool }.

(** What [block_partition_read], [block_partition_write] and [block_partition_flush] share: the part of the range
    that is in the partition, as a range of the device. *)
Definition partition_range (p : partition) (offset count : Z) : res (option (Z * Z)) :=
  if p_unplugged p then Err ENXIO
  else if p_size p <? offset then Ok None
  else Ok (Some (offset + p_offset p, if u64 (p_size p - offset) <? count then u64 (p_size p - offset) else count)).


(** ** Writing *)

Section writing.
Context {D : Type} `{DR : Driver D} (dev : block_device) `{DL : !DriverLaws D dev}.
Context (page_content : Z -> list Z) (junk : Z).
Context (Hss : 0 < sector_size dev) (Hplug : unplugged dev = false) (Hpage : forall p, lenZ (page_content p) = PAGE_SIZE).
Implicit Types (st : state D).

Definition contents (pages : list Z) : list Z := concat (map page_content pages).

Lemma lenZ_page_contents pages : lenZ (contents pages) = lenZ pages * PAGE_SIZE.
Proof. unfold contents. induction pages as [|p l IH]; [done|]. cbn [map concat]. rewrite lenZ_app, IH, Hpage, lenZ_cons. lia. Qed.

Lemma copy_pages_spec pages : forall ptr buf, 0 <= ptr -> PAGE_INVALID ∉ pages -> ptr + lenZ pages * PAGE_SIZE <= lenZ buf ->
  copy_pages page_content ptr pages buf = Some (blit ptr (contents pages) buf).
Proof.
  induction pages as [|p l IH]; intros ptr buf Hp Hin Hlen; [unfold contents, blit; cbn; done|]. apply not_elem_of_cons in Hin as (Hne & Hin). rewrite lenZ_cons in Hlen. pose proof (lenZ_nonneg l). unfold PAGE_SIZE in *.
  cbn [copy_pages]. rewrite (proj2 (Z.eqb_neq _ _)) by done. cbn [negb kassert mbind option_bind]. unfold put. rewrite Hpage. unfold PAGE_SIZE. rewrite (proj2 (Z.leb_le _ _)) by lia. cbn [kassert mbind option_bind].
  rewrite IH by (done || rewrite ?lenZ_blit; lia). f_equal. apply list_eq. intros i. change (contents (p :: l)) with (page_content p ++ contents l).
  assert (Hlb : lenZ (blit ptr (page_content p) buf) = lenZ buf) by apply lenZ_blit. pose proof (Hpage p) as Hpp. unfold PAGE_SIZE in Hpp.
  assert (Hl2 : lenZ (page_content p ++ contents l) = 4096 + lenZ l * 4096) by (rewrite lenZ_app, lenZ_page_contents, Hpp; done). assert (Hcl : lenZ (contents l) = lenZ l * 4096) by (rewrite lenZ_page_contents; done).
  destruct (decide (Z.of_nat i < ptr)) as [H1|H1]; [rewrite !lookup_blit by lia; done|]. destruct (decide (Z.of_nat i < ptr + 4096)) as [H2|H2].
  - rewrite (lookup_blit (ptr + 4096)) by lia. rewrite !lookup_blit_in by lia. rewrite lookup_app_l; [done|]. unfold lenZ in *. lia.
  - destruct (decide (Z.of_nat i < ptr + 4096 + lenZ l * 4096)) as [H3|H3].
    + rewrite !lookup_blit_in by lia. rewrite lookup_app_r by (unfold lenZ in *; lia). f_equal. unfold lenZ in *. lia.
    + rewrite !lookup_blit by lia. done.
Qed.

Lemma read_sector_spec needed sector off buf st : 0 <= sector < sectors_count dev -> 0 <= off -> off + sector_size dev <= lenZ buf -> (0 < credit st)%nat ->
  exists st', read_sector dev needed sector off buf st = Some (st', Ok (if needed : bool then blit off (sliceZ (sector * sector_size dev) (sector_size dev) (image (disk st))) buf else buf)) /\
    image (disk st') = image (disk st) /\ (credit st <= S (credit st'))%nat.
Proof.
  intros Hs Ho Hl Hc. unfold read_sector. destruct needed; [|exists st; split_and!; done || lia]. unfold allocate. destruct (credit st) as [|n] eqn:Ec; [lia|]. unfold submit_sync. rewrite Hplug. cbn [disk].
  destruct (read_law (disk st) sector 1) as (d' & E1 & E2); [lia..|]. rewrite E1. pose proof (image_size (disk st)) as Hi. replace (1 * sector_size dev) with (sector_size dev) by lia.
  unfold put. rewrite lenZ_sliceZ by nia. rewrite (proj2 (Z.leb_le _ _)) by lia. cbn [kassert mbind option_bind]. eexists. split; [reflexivity|]. cbn. split; [done|lia].
Qed.

Lemma end_of_spec offset n : 0 <= offset -> 0 < n -> offset + n * PAGE_SIZE <= sector_size dev * sectors_count dev ->
  exists last, end_of dev offset n = (offset + n * PAGE_SIZE, last) /\ last <= sectors_count dev /\ start_sector dev offset < last /\
    (last - 1) * sector_size dev < offset + n * PAGE_SIZE <= last * sector_size dev.
Proof.
  intros Ho Hn Hfit. unfold end_of, start_sector. set (e := offset + n * PAGE_SIZE) in *. set (ss := sector_size dev) in *. set (last := (e + ss - 1) / ss).
  assert (He : offset < e) by (unfold e, PAGE_SIZE; lia). pose proof (Z.div_mod (e + ss - 1) ss ltac:(lia)) as Hd. pose proof (Z.mod_pos_bound (e + ss - 1) ss ltac:(lia)) as Hm. fold last in Hd.
  assert (Hlast : (last - 1) * ss < e <= last * ss) by lia. assert (Hle : last <= sectors_count dev) by nia. rewrite (proj2 (Z.ltb_ge _ _)) by done. exists last. split_and!; try done; try lia.
  pose proof (Z.div_mod offset ss ltac:(lia)). pose proof (Z.mod_pos_bound offset ss ltac:(lia)). nia.
Qed.

(** The buffer between the sectors that were read and the pages that are written. *)
Lemma block_write_run offset pages st : 0 <= offset -> pages <> [] -> PAGE_INVALID ∉ pages -> offset + lenZ pages * PAGE_SIZE <= sector_size dev * sectors_count dev -> (5 <= credit st)%nat ->
  exists st', block_write_continuous_pages dev page_content junk offset pages st = Some (st', Ok tt) /\ image (disk st') = blit offset (contents pages) (image (disk st)) /\ (credit st <= credit st' + 5)%nat.
Proof.
  intros Ho Hne Hin Hfit Hc. assert (Hn : 0 < lenZ pages) by (destruct pages; [done|]; rewrite lenZ_cons; pose proof (lenZ_nonneg pages); lia).
  destruct (end_of_spec offset (lenZ pages) Ho Hn Hfit) as (last & Ee & Hl1 & Hl2 & Hl3). unfold block_write_continuous_pages. rewrite Ee.
  set (ss := sector_size dev) in *. set (first := start_sector dev offset) in *. set (e := offset + lenZ pages * PAGE_SIZE) in *. set (count := last - first).
  assert (Hf : offset = first * ss + offset mod ss /\ 0 <= offset mod ss < ss /\ 0 <= first). { pose proof (Z.div_mod offset ss ltac:(lia)). pose proof (Z.mod_pos_bound offset ss ltac:(lia)). pose proof (Z.div_pos offset ss Ho Hss). unfold first, start_sector. fold ss. split_and!; lia. }
  destruct Hf as (Hf1 & Hf2 & Hf3). assert (Hcount : 0 < count) by (unfold count; lia).
  unfold allocate at 1. destruct (credit st) as [|n1] eqn:Ec; [lia|]. set (st1 := mk_state (disk st) n1). set (buf0 := replicate _ junk). assert (Hb0 : lenZ buf0 = count * ss) by (unfold buf0, lenZ; rewrite length_replicate; nia).
  destruct (read_sector_spec (negb (offset mod ss =? 0)) first 0 buf0 st1) as (st2 & E2 & I2 & C2); [lia|lia|fold ss; nia|cbn; lia|]. rewrite E2. cbn [mbind option_bind]. set (buf1 := if negb (offset mod ss =? 0) then _ else buf0).
  assert (Hb1 : lenZ buf1 = count * ss) by (unfold buf1; destruct (negb _); rewrite ?lenZ_blit; done).
  destruct (read_sector_spec (negb (e mod ss =? 0) && ((offset mod ss =? 0) || negb (first =? last))) (last - 1) ((count - 1) * ss) buf1 st2) as (st3 & E3 & I3 & C3); [lia|nia|fold ss; nia|cbn in C2; lia|]. rewrite E3. cbn [mbind option_bind].
  rewrite (proj2 (Z.eqb_neq first last)) in * by lia. cbn [negb] in *. rewrite orb_true_r, andb_true_r in *. set (buf2 := if negb (e mod ss =? 0) then _ else buf1).
  assert (Hb2 : lenZ buf2 = count * ss) by (subst buf2; destruct (e mod ss =? 0); cbn [negb]; [exact Hb1|etransitivity; [apply lenZ_blit|exact Hb1]]).
  assert (Hroom : offset mod ss + lenZ pages * PAGE_SIZE <= count * ss) by (unfold count; nia).
  rewrite copy_pages_spec by (done || lia). cbn [mbind option_bind]. set (buf3 := blit _ _ buf2). assert (Hb3 : lenZ buf3 = count * ss) by (unfold buf3; by rewrite lenZ_blit).
  unfold allocate at 1. cbn in C2. destruct (credit st3) as [|n3] eqn:E3c; [lia|]. unfold submit_sync at 1. rewrite Hplug. cbn [disk credit].
  destruct (write_law (disk st3) first count buf3) as (d4 & E4 & I4); [lia|lia|unfold count; lia|done|]. rewrite E4. cbn [disk credit]. unfold allocate. cbn [credit disk]. destruct n3 as [|n4]; [lia|]. unfold submit_sync. rewrite Hplug. cbn [disk credit].
  destruct (flush_law (dev := dev) d4 first count) as (d5 & E5 & I5). rewrite E5. eexists. split; [reflexivity|]. cbn. split; [|lia].
  rewrite I5, I4. fold ss. assert (Im : image (disk st3) = image (disk st)) by (by rewrite I3, I2). rewrite Im. pose proof (image_size (disk st)) as Hsz. fold ss in Hsz. set (img := image (disk st)) in *.
  pose proof (lenZ_page_contents pages) as Hlc. apply list_eq. intros i. set (z := Z.of_nat i).
  destruct (decide (z < first * ss \/ last * ss <= z)) as [Hout|Hin'].
  { rewrite !lookup_blit by (rewrite ?Hb3, ?Hlc; unfold count in *; fold z; nia). done. }
  rewrite (lookup_blit_in (first * ss)) by (rewrite ?Hb3; unfold count in *; fold z; nia).
  set (j := (i - Z.to_nat (first * ss))%nat). assert (Hj : Z.of_nat j = z - first * ss) by (unfold j, z; nia).
  destruct (decide (offset <= z < e)) as [Hmid|Hedge].
  { unfold buf3. rewrite !lookup_blit_in by (rewrite ?Hb2, ?Hlc; fold z; lia). f_equal. unfold j. lia. }
  rewrite (lookup_blit offset) by (rewrite ?Hlc; fold z; lia). unfold buf3. rewrite lookup_blit by (rewrite ?Hlc; lia).
  assert (Hslice : forall im sec off b, im = img -> 0 <= off -> 0 <= sec < sectors_count dev -> off + ss <= lenZ b -> off <= Z.of_nat j < off + ss -> sec * ss - off = first * ss -> blit off (sliceZ (sec * ss) ss im) b !! j = img !! i).
  { intros im sec off b -> Hof Hsec Hb Hjo Hrel. rewrite lookup_blit_in by (rewrite ?lenZ_sliceZ; nia). rewrite sliceZ_lookup, decide_True by lia. f_equal. unfold z in *. assert (0 <= first * ss) by nia. set (q1 := sec * ss) in *. set (q2 := first * ss) in *. lia. }
  destruct (decide (e <= z)) as [Hafter|Hbefore].
  - assert (Hem : e mod ss <> 0). { intros Hem. assert (e = last * ss); [|lia]. pose proof (Z.div_mod e ss ltac:(lia)) as Hde. assert (last - 1 < e / ss) by (apply (Z.mul_lt_mono_pos_r ss); lia). assert (e / ss <= last) by (apply (Z.mul_le_mono_pos_r _ _ ss); lia). assert (e / ss = last) as Hq by lia. rewrite Hq in Hde. lia. }
    unfold buf2. rewrite (proj2 (Z.eqb_neq (e mod ss) 0)) by done. cbn [negb]. apply Hslice; first [exact I2|unfold count in *; nia].
  - assert (Hom : offset mod ss <> 0) by lia. assert (Hfirst : Z.of_nat j < ss) by lia. unfold buf2.
    assert (H1 : buf1 !! j = img !! i) by (unfold buf1; rewrite (proj2 (Z.eqb_neq (offset mod ss) 0)) by done; cbn [negb]; apply Hslice; first [reflexivity|lia|nia]).
    destruct (negb (e mod ss =? 0)); [|done]. destruct (decide (last - 1 = first)) as [Heq|Hneq].
    + apply Hslice; first [exact I2|unfold count in *; nia].
    + rewrite lookup_blit; [done|nia|]. right. unfold count. nia.
Qed.
End writing.

(** ** A batch *)

Section batch.
Context {D : Type} `{DR : Driver D} (dev : block_device) `{DL : !DriverLaws D dev}.
Context (page_content : Z -> list Z) (junk : Z) (page_offset : Z -> Z).
Context (Hss : 0 < sector_size dev) (Hplug : unplugged dev = false) (Hpage : forall p, lenZ (page_content p) = PAGE_SIZE).
Implicit Types (st : state D).

(** Pages that follow each other in the device. *)
Definition consecutive (offset : Z) (pages : list Z) : Prop := forall i p, pages !! i = Some p -> page_offset p = offset + Z.of_nat i * PAGE_SIZE.

Lemma consecutive_cons offset p pages : consecutive offset (p :: pages) -> page_offset p = offset /\ consecutive (offset + PAGE_SIZE) pages.
Proof. intros Hc. split; [rewrite (Hc O p eq_refl); lia|]. intros i q Hq. rewrite (Hc (S i) q Hq). lia. Qed.

Lemma run_loop_consecutive pages : forall offset, consecutive offset pages -> run_loop page_offset offset pages = (length pages, length pages).
Proof. induction pages as [|p l IH]; intros offset Hc; [done|]. apply consecutive_cons in Hc as (Hp & Hc). cbn [run_loop]. rewrite Hp, Z.eqb_refl, (IH _ Hc). done. Qed.

(** C19: [block_write_pages] on a device that is plugged and whose driver carries out every request inside the device,
    with memory for the five allocations a run of pages needs, for a nonempty batch of pages with valid addresses that
    follow each other and end inside the device (a last page that reaches over its end overflows a buffer,
    [last_page_overflows_buffer]): the batch is written where the cache says, the device holds the content of the pages
    there and what it held elsewhere, also in the sectors that the pages cover in part, and the cache is told that the
    batch is written. *)
Theorem block_write_pages_correct offset batch st : 0 <= offset -> consecutive offset batch -> batch <> [] -> PAGE_INVALID ∉ batch ->
  offset + lenZ batch * PAGE_SIZE <= sector_size dev * sectors_count dev -> (5 <= credit st)%nat ->
  exists st', block_write_pages dev page_content junk page_offset batch st = Some (st', Ok true) /\ image (disk st') = blit offset (contents page_content batch) (image (disk st)).
Proof.
  intros Ho Hc Hne Hin Hfit Hcr. destruct (block_write_run dev page_content junk Hss Hplug Hpage offset batch st Ho Hne Hin Hfit Hcr) as (st' & E & I & _).
  exists st'. split; [|done]. unfold block_write_pages. destruct batch as [|p l]; [done|]. pose proof (consecutive_cons _ _ _ Hc) as (Hp & _).
  cbn [length]. unfold write_runs at 1. fold (write_runs dev page_content junk). unfold block_get_continuous_pages at 1. cbn [lookup list_lookup mbind option_bind]. rewrite drop_0, Hp, (run_loop_consecutive _ _ Hc), take_ge by done.
  rewrite E. cbn [mbind option_bind]. cbn [write_runs]. unfold block_get_continuous_pages. rewrite lookup_ge_None_2 by done. done.
Qed.
End batch.

(** ** Reading *)

Section reading.
Context {D : Type} (dev : block_device) (Hss : 0 < sector_size dev).
Implicit Types (st : state D).

Lemma fill_loop_spec pages : forall index k l size, index = Z.of_nat k * PAGE_SIZE -> PAGE_INVALID ∉ pages -> (k + length pages <= length l)%nat ->
  fill_loop index pages (IOBUF_TYPE_PAGES l 0 size) = Some (IOBUF_TYPE_PAGES (list_inserts k pages l) 0 size).
Proof.
  induction pages as [|p pages IH]; intros index k l size -> Hin Hl; [done|]. apply not_elem_of_cons in Hin as (Hne & Hin). cbn [length] in Hl.
  cbn [fill_loop]. rewrite (proj2 (Z.eqb_neq _ _)) by done. cbn [negb kassert mbind option_bind]. unfold iobuf_set_page. rewrite Z.add_0_r, Z.mod_mul, Z.div_mul by done. rewrite Z.eqb_refl. unfold lenZ. rewrite (proj2 (Z.ltb_lt _ _)) by lia. cbn [kassert mbind option_bind].
  rewrite Nat2Z.id, (IH _ (S k)); [|unfold PAGE_SIZE; lia|done|rewrite length_insert; lia]. cbn [list_inserts]. do 2 f_equal. symmetry. apply list_insert_inserts_lt. lia.
Qed.

(** Where a request for pages starts and ends; the end of the device may cut the last page. *)
Lemma read_bounds offset n : 0 <= offset -> 0 < n -> offset + (n - 1) * PAGE_SIZE < sector_size dev * sectors_count dev ->
  exists e last, end_of dev offset n = (e, last) /\ start_sector dev offset < last <= sectors_count dev /\
    Z.min (offset + n * PAGE_SIZE) (sector_size dev * sectors_count dev) <= last * sector_size dev /\ offset + (n - 1) * PAGE_SIZE < last * sector_size dev /\
    (last - 1) * sector_size dev < offset + n * PAGE_SIZE.
Proof.
  intros Ho Hn Hfit. unfold end_of, start_sector. set (e := offset + n * PAGE_SIZE) in *. set (ss := sector_size dev) in *. set (sc := sectors_count dev) in *. set (last := (e + ss - 1) / ss).
  assert (He : offset + (n - 1) * PAGE_SIZE < e) by (unfold e, PAGE_SIZE; lia). pose proof (Z.div_mod (e + ss - 1) ss ltac:(lia)) as Hd. pose proof (Z.mod_pos_bound (e + ss - 1) ss ltac:(lia)) as Hm. fold last in Hd.
  assert (Hlast : (last - 1) * ss < e <= last * ss) by lia. pose proof (Z.div_mod offset ss ltac:(lia)). pose proof (Z.mod_pos_bound offset ss ltac:(lia)). assert (0 <= (n - 1) * PAGE_SIZE) by (unfold PAGE_SIZE; lia).
  destruct (Z.ltb_spec sc last) as [Hlt|Hge]; eexists; eexists; (split; [reflexivity|]); split_and!; try lia; nia.
Qed.

(** A sector is a part of a page or some pages. *)
Definition sector_fits : Prop := (sector_size dev | PAGE_SIZE) \/ (PAGE_SIZE | sector_size dev).

Lemma sector_fits_spec offset : sector_fits -> (PAGE_SIZE | offset) -> (start_sector dev offset * sector_size dev) mod PAGE_SIZE = 0 /\ (PAGE_SIZE | offset mod sector_size dev).
Proof.
  intros Hf Ho. unfold start_sector. set (ss := sector_size dev) in *. pose proof (Z.div_mod offset ss ltac:(lia)) as Hd. destruct Hf as [Hf|Hf].
  - assert (Hm : offset mod ss = 0) by (apply Z.mod_divide; [lia|]; etransitivity; eassumption). rewrite Hm in *. split; [|apply Z.divide_0_r]. apply Z.mod_divide; [done|]. replace (offset / ss * ss) with offset by lia. done.
  - split; [apply Z.mod_divide; [done|]; by apply Z.divide_mul_r|]. replace (offset mod ss) with (offset - ss * (offset / ss)) by lia. apply Z.divide_sub_r; [done|]. by apply Z.divide_mul_l.
Qed.

(** What is at the byte [x] of the device in the pages of a request. *)
Definition page_of (offset : Z) (pages : list Z) (x : Z) : Z := if (offset <=? x) && (x <? offset + lenZ pages * PAGE_SIZE) then default PAGE_INVALID (pages !! Z.to_nat ((x - offset) / PAGE_SIZE)) else PAGE_INVALID.

(** A read request for pages that follow each other is inside the device, covers the pages as far as the device goes,
    and the buffer has for each byte that the device transfers the page that keeps it, and a hole for the bytes of the
    sectors that no page keeps. *)
Theorem block_read_request_correct offset pages st : sector_fits -> (PAGE_SIZE | offset) -> 0 <= offset -> pages <> [] -> PAGE_INVALID ∉ pages -> offset + (lenZ pages - 1) * PAGE_SIZE < sector_size dev * sectors_count dev -> (2 <= credit st)%nat ->
  exists st' first count b, block_make_read_request_from_pages dev offset pages st = Some (st', Some (first, count, b)) /\ disk st' = disk st /\ 0 <= first /\ 0 < count /\ first + count <= sectors_count dev /\ iobuf_size b = count * sector_size dev /\
    first * sector_size dev <= offset /\ Z.min (offset + lenZ pages * PAGE_SIZE) (sector_size dev * sectors_count dev) <= (first + count) * sector_size dev /\
    forall x, first * sector_size dev <= x < (first + count) * sector_size dev -> iobuf_get_page_at b (x - first * sector_size dev) = Some (page_of offset pages x).
Proof.
  intros Hf Hd Ho Hne Hin Hfit Hcr. assert (Hn : 0 < lenZ pages) by (destruct pages; [done|]; rewrite lenZ_cons; pose proof (lenZ_nonneg pages); lia).
  destruct (read_bounds offset (lenZ pages) Ho Hn Hfit) as (e & last & Ee & Hl1 & Hl2 & Hl3 & Hl4). destruct (sector_fits_spec offset Hf Hd) as (Hs1 & (q & Hs2)). unfold block_make_read_request_from_pages. rewrite Ee.
  set (first := start_sector dev offset) in *. set (ss := sector_size dev) in *. set (count := last - first).
  assert (Hfo : offset = first * ss + offset mod ss /\ 0 <= offset mod ss < ss /\ 0 <= first). { pose proof (Z.div_mod offset ss ltac:(lia)). pose proof (Z.mod_pos_bound offset ss ltac:(lia)). pose proof (Z.div_pos offset ss Ho Hss). unfold first, start_sector. fold ss. split_and!; lia. }
  destruct Hfo as (Hf1 & Hf2 & Hf3). assert (Hq : 0 <= q) by (unfold PAGE_SIZE in *; lia).
  unfold allocate at 1. destruct (credit st) as [|[|n]] eqn:Ec; [lia|lia|].
  unfold block_fill_iobuf, iobuf_init_pages, iobuf_pages_list_create, allocate. cbn [credit disk]. fold ss. rewrite Hs1, Z.add_0_l. set (N := pages_for (count * ss)). set (l0 := replicate (Z.to_nat N) PAGE_INVALID).
  assert (HN : count * ss <= N * PAGE_SIZE). { unfold N, pages_for. pose proof (Z.div_mod (count * ss + PAGE_SIZE - 1) PAGE_SIZE ltac:(done)). pose proof (Z.mod_pos_bound (count * ss + PAGE_SIZE - 1) PAGE_SIZE ltac:(done)). lia. }
  assert (Hcs : count * ss = last * ss - first * ss) by (unfold count; lia).
  assert (Hroom : q + lenZ pages <= N) by (unfold PAGE_SIZE in *; lia).
  rewrite (fill_loop_spec pages _ (Z.to_nat q)); [|fold ss; rewrite Hs2, Z2Nat.id by lia; done|done|unfold l0, lenZ in *; rewrite length_replicate; lia]. cbn [mbind option_bind].
  eexists _, first, count, _. split; [reflexivity|]. split_and!; [done|done|unfold count; lia|unfold count; lia|done|lia|unfold count; nia|]. intros x Hx. replace ((first + count) * ss) with (last * ss) in Hx by (unfold count; lia).
  unfold iobuf_get_page_at. cbn [iobuf_size]. rewrite (proj2 (Z.ltb_lt _ _)) by lia. cbn [kassert mbind option_bind]. rewrite Z.add_0_r. unfold page_of.
  set (y := x - first * ss). pose proof (Z.div_mod y PAGE_SIZE ltac:(done)) as Hy. pose proof (Z.mod_pos_bound y PAGE_SIZE ltac:(done)) as Hy2. assert (Hxo : x - offset = y - q * PAGE_SIZE) by (unfold y; lia).
  destruct ((offset <=? x) && (x <? offset + lenZ pages * PAGE_SIZE)) eqn:Eb.
  - apply andb_true_iff in Eb as (Eb1 & Eb2). apply Z.leb_le in Eb1. apply Z.ltb_lt in Eb2. rewrite Hxo. replace (y - q * PAGE_SIZE) with (y + - q * PAGE_SIZE) by lia. rewrite Z.div_add by done.
    assert (Hk : q <= y / PAGE_SIZE < q + lenZ pages) by (unfold PAGE_SIZE in *; lia). rewrite list_lookup_inserts by (unfold l0, lenZ in *; rewrite ?length_replicate; lia).
    replace (Z.to_nat (y / PAGE_SIZE) - Z.to_nat q)%nat with (Z.to_nat (y / PAGE_SIZE + - q)) by lia. destruct (lookup_lt_is_Some_2 pages (Z.to_nat (y / PAGE_SIZE + - q))) as (p & ->); [unfold lenZ in *; lia|done].
  - assert (Hk : y / PAGE_SIZE < q \/ q + lenZ pages <= y / PAGE_SIZE). { apply andb_false_iff in Eb as [Eb|Eb]; [apply Z.leb_gt in Eb|apply Z.ltb_ge in Eb]; unfold PAGE_SIZE in *; lia. }
    assert (0 <= y / PAGE_SIZE < N) by (unfold PAGE_SIZE in *; lia).
    destruct Hk; [rewrite list_lookup_inserts_lt by lia|rewrite list_lookup_inserts_ge by (unfold lenZ in *; lia)]; unfold l0; apply lookup_replicate_2; lia.
Qed.
End reading.

(** ** Partitions *)

(** Requests to a partition stay in it: an offset that is not negative gives a range of the partition, no longer than
    what was asked for. *)
Lemma partition_range_inside p offset count o n : 0 <= p_offset p -> 0 <= p_size p < 2 ^ 63 -> 0 <= offset -> 0 <= count ->
  partition_range p offset count = Ok (Some (o, n)) -> p_offset p <= o /\ 0 <= n <= count /\ o + n <= p_offset p + p_size p /\ o = p_offset p + offset.
Proof.
  intros Hp Hs Ho Hc. unfold partition_range. destruct (p_unplugged p); [done|]. destruct (Z.ltb_spec (p_size p) offset) as [|Hle]; [done|].
  unfold u64. rewrite !(Z.mod_small (p_size p - offset)) by lia. destruct (Z.ltb_spec (p_size p - offset) count); intros [= <- <-]; lia.
Qed.

(** A negative offset reaches what the device has in front of the partition. *)
Lemma partition_before : partition_range (mk_partition 8192 4096 false) (-4096) 512 = Ok (Some (4096, 512)).
Proof. reflexivity. Qed.

(** ** A disk that keeps its bytes *)

Module Disk.
Definition dev (n : Z) : block_device := mk_block_device 512 n false.
Definition bytes (n : Z) (d : list Z) : list Z := resize (Z.to_nat (512 * n)) 0 d.

#[export] Instance disk_driver (n : Z) : Driver (list Z) := {
  submit_read start count d := (d, Ok (sliceZ (start * 512) (count * 512) (bytes n d)));
  submit_write start count bs d := (blit (start * 512) bs (bytes n d), Ok tt);
  submit_flush _ _ d := (d, Ok tt);
  image d := bytes n d;
}.

#[export] Instance disk_laws (n : nat) : @DriverLaws (list Z) (disk_driver (Z.of_nat n)) (dev (Z.of_nat n)).
Proof.
  assert (Hlen : forall d, length (bytes (Z.of_nat n) d) = Z.to_nat (512 * Z.of_nat n)) by (intros d; apply length_resize).
  split; cbn [image disk_driver dev sector_size sectors_count]; intros.
  - unfold lenZ. rewrite Hlen. lia.
  - eexists. split; reflexivity.
  - eexists. split; [reflexivity|]. unfold bytes at 1. apply resize_all_alt. unfold blit. by rewrite length_inserts, Hlen.
  - eexists. split; reflexivity.
Qed.

(** The page at 4096 [k] is full of the byte [k] and is at 4096 [(k - 1)] in the device. *)
Definition page_content (p : Z) : list Z := replicate 4096 (p / 4096).
Definition page_offset (p : Z) : Z := p - 4096.
Definition blank (credit : nat) : state (list Z) := mk_state [] credit.

Lemma page_content_length p : lenZ (page_content p) = PAGE_SIZE.
Proof. unfold lenZ, page_content. by rewrite length_replicate. Qed.
End Disk.
Import Disk.

Lemma block_write_pages_correct_witness :
  exists st', @block_write_pages _ (disk_driver 24) (dev 24) page_content 255 page_offset [4096; 8192] (blank 5) = Some (st', Ok true) /\
    @image _ (disk_driver 24) (disk st') = blit 0 (contents page_content [4096; 8192]) (@image _ (disk_driver 24) []).
Proof.
  apply (@block_write_pages_correct _ (disk_driver 24) (dev 24) (disk_laws 24) page_content 255 page_offset); [done|done|exact page_content_length|done| |done| |by vm_compute|cbn; lia].
  - intros [|[|i]] p Hp; [injection Hp as <-; done..|done].
  - apply not_elem_of_cons. split; [done|]. apply not_elem_of_cons. split; [done|]. apply not_elem_of_nil.
Defined.

Lemma block_read_request_correct_witness :
  exists st' first count b, block_make_read_request_from_pages (dev 9) 4096 [8192] (blank 2) = Some (st', Some (first, count, b)) /\ disk st' = [] /\ 0 <= first /\ 0 < count /\ first + count <= 9 /\
    iobuf_size b = count * 512 /\ first * 512 <= 4096 /\ Z.min 8192 4608 <= (first + count) * 512 /\
    forall x, first * 512 <= x < (first + count) * 512 -> iobuf_get_page_at b (x - first * 512) = Some (page_of 4096 [8192] x).
Proof.
  apply (block_read_request_correct (dev 9) ltac:(done) 4096 [8192] (blank 2)); [left; exists 8; done|exists 1; done|done|done| |by vm_compute|cbn; lia].
  apply not_elem_of_cons. split; [done|]. apply not_elem_of_nil.
Defined.

(** ** Where the code does not do what it means to *)

(** The page that ends a run is taken from the batch and belongs to no run: the batch counts as written and the page is
    not. *)
Theorem run_break_loses_page {D} `{Driver D} dev content junk page_offset p q st : page_offset q <> page_offset p + PAGE_SIZE ->
  block_write_pages dev content junk page_offset [p; q] st = block_write_pages dev content junk page_offset [p] st.
Proof.
  intros Hne. unfold block_write_pages. cbn [length]. cbn [write_runs]. unfold block_get_continuous_pages. cbn [lookup list_lookup mbind option_bind drop run_loop]. rewrite Z.eqb_refl, (proj2 (Z.eqb_neq _ _)) by done. cbn [take Nat.add].
  destruct (block_write_continuous_pages _ _ _ _ [p] st) as [[st1 [[]|e]]|]; [|done..]. cbn [mbind option_bind lookup list_lookup]. done.
Qed.

(** The last page of a device whose size is no multiple of the size of a page is copied in full into a buffer that ends
    with the device. *)
Theorem last_page_overflows_buffer : @block_write_pages _ (disk_driver 9) (dev 9) page_content 255 page_offset [8192] (blank 5) = None.
Proof. vm_compute. reflexivity. Qed.

(** A read request whose list of pages was not allocated is released with a null list. *)
Theorem read_request_without_list : block_make_read_request_from_pages (dev 9) 4096 [8192] (blank 1) = None.
Proof. reflexivity. Qed.

(** A transfer in the middle of a page starts at the beginning of the page. *)
Theorem transfer_ignores_offset phys2virt page buf m : page <> PAGE_INVALID ->
  exists m', iobuf_transfer phys2virt (IOBUF_TYPE_PAGES [page] 0 PAGE_SIZE) buf 100 1 IOBUF_OUT m = Some m' /\ m' buf = m (phys2virt page).
Proof.
  intros Hne. apply Z.eqb_neq in Hne. eexists. split.
  { transitivity (Some (if negb (page =? PAGE_INVALID) then memcpy buf (phys2virt page) 1 m else m)); [reflexivity|]. by rewrite Hne. }
  cbn. unfold memcpy. rewrite (proj2 (Z.leb_le _ _)), (proj2 (Z.ltb_lt _ _)) by lia. cbn. f_equal. lia.
Qed.

(** A transfer into a hole sets the source to zero, and one out of a hole leaves the destination as it was. *)
Theorem transfer_of_hole phys2virt buf m :
  (exists m', iobuf_transfer phys2virt (IOBUF_TYPE_PAGES [PAGE_INVALID] 0 PAGE_SIZE) buf 0 1 IOBUF_IN m = Some m' /\ m' buf = 0) /\
  iobuf_transfer phys2virt (IOBUF_TYPE_PAGES [PAGE_INVALID] 0 PAGE_SIZE) buf 0 1 IOBUF_OUT m = Some m.
Proof. split; [|reflexivity]. exists (memset buf 0 1 m). split; [reflexivity|]. unfold memset. rewrite (proj2 (Z.leb_le _ _)), (proj2 (Z.ltb_lt _ _)) by lia. done. Qed.

(** A copy of a buffer of pages has another offset than the buffer. *)
Theorem dup_loses_offset : option_map (fun b => iobuf_get_page_at b 0) (iobuf_dup 0 (iobuf_init_pages (Some [4096; 8192]) 4096 4096)) = Some (Some 4096) /\
  iobuf_get_page_at (iobuf_init_pages (Some [4096; 8192]) 4096 4096) 0 = Some 8192.
Proof. split; reflexivity. Qed.

End Block.
