(* ===== verification/Sched.v ===== *)
(** The scheduler (kernel/task/scheduler.c, kernel/include/task/scheduler.h): the run queue, the switch of tasks,
    blocking, the life and the end of tasks.

    There is one processor and one run queue, as in the source.  A function that runs with interrupts disabled is one
    step: [yield] from where it takes the lock of the queue to [finish_yield], which the next task runs, and the
    unblocking of a task.  Steps of the running task, of interrupts that unblock tasks, and preemption interleave in any
    order.  [run_queue] is whether the pointer of a task is set; registers, stacks and address spaces are not part of the
    state, but whether a task has its stack is.  A process is the list of its threads and its count of references.
    [None] is a lock that is taken twice or an access to memory that was freed. *)

From S2P Require Import Prelude Time Sync.

Module Sched.
Import Time.

(** ** The state *)

Inductive status := TASK_STATUS_RUNNING | TASK_STATUS_DEAD | TASK_STATUS_BLOCKED | TASK_STATUS_INTERRUPTIBLE | TASK_STATUS_STOPPED.
Inductive wakeup := WAKEUP_TIMEOUT | WAKEUP_SIGNAL | WAKEUP_OTHER.

#[global] Instance status_eq_dec : EqDecision status.
Proof. solve_decision. Defined.
#[global] Instance wakeup_eq_dec : EqDecision wakeup.
Proof. solve_decision. Defined.

Record task := mk_task {
  st : status;
  wakeup_reason : wakeup;
  run_queue : bool;
  preempt_count : Z;
  flag_sleep : bool;
  wakeup_time : timespec;
  kernel_stack : bool;
  ref_count : Z;
  tid : Z;
  process : Z;
}.

Definition set_st v x := mk_task v (wakeup_reason x) (run_queue x) (preempt_count x) (flag_sleep x) (wakeup_time x) (kernel_stack x) (ref_count x) (tid x) (process x).
Definition set_wakeup_reason v x := mk_task (st x) v (run_queue x) (preempt_count x) (flag_sleep x) (wakeup_time x) (kernel_stack x) (ref_count x) (tid x) (process x).
Definition set_run_queue v x := mk_task (st x) (wakeup_reason x) v (preempt_count x) (flag_sleep x) (wakeup_time x) (kernel_stack x) (ref_count x) (tid x) (process x).
Definition set_preempt_count v x := mk_task (st x) (wakeup_reason x) (run_queue x) v (flag_sleep x) (wakeup_time x) (kernel_stack x) (ref_count x) (tid x) (process x).
Definition set_sleep f v x := mk_task (st x) (wakeup_reason x) (run_queue x) (preempt_count x) f v (kernel_stack x) (ref_count x) (tid x) (process x).
Definition set_kernel_stack v x := mk_task (st x) (wakeup_reason x) (run_queue x) (preempt_count x) (flag_sleep x) (wakeup_time x) v (ref_count x) (tid x) (process x).
Definition set_ref_count v x := mk_task (st x) (wakeup_reason x) (run_queue x) (preempt_count x) (flag_sleep x) (wakeup_time x) (kernel_stack x) v (tid x) (process x).

Record proc := mk_proc { threads : list Z; threads_count : Z; proc_refs : Z }.

(** [deleted] are the processes that [do_proc_deletion] was called for; [reaping] is the task that the reaper has taken
    from the list. *)
Record sched := mk_sched {
  tasks : gmap Z task;
  procs : gmap Z proc;
  queue : list Z;
  current : Z;
  prev : Z;
  prev_is_on_queue : bool;
  lock : bool;
  sleeping : list Z;
  dead_tasks : list Z;
  reaping : option Z;
  tasks_list : gmap Z Z;
  tid_count : Z;
  deleted : list Z;
}.
Implicit Types (s : sched).

Definition set_tasks v s := mk_sched v (procs s) (queue s) (current s) (prev s) (prev_is_on_queue s) (lock s) (sleeping s) (dead_tasks s) (reaping s) (tasks_list s) (tid_count s) (deleted s).
Definition set_procs v s := mk_sched (tasks s) v (queue s) (current s) (prev s) (prev_is_on_queue s) (lock s) (sleeping s) (dead_tasks s) (reaping s) (tasks_list s) (tid_count s) (deleted s).
Definition set_queue v s := mk_sched (tasks s) (procs s) v (current s) (prev s) (prev_is_on_queue s) (lock s) (sleeping s) (dead_tasks s) (reaping s) (tasks_list s) (tid_count s) (deleted s).
Definition set_current v s := mk_sched (tasks s) (procs s) (queue s) v (prev s) (prev_is_on_queue s) (lock s) (sleeping s) (dead_tasks s) (reaping s) (tasks_list s) (tid_count s) (deleted s).
Definition set_prev v on s := mk_sched (tasks s) (procs s) (queue s) (current s) v on (lock s) (sleeping s) (dead_tasks s) (reaping s) (tasks_list s) (tid_count s) (deleted s).
Definition set_lock v s := mk_sched (tasks s) (procs s) (queue s) (current s) (prev s) (prev_is_on_queue s) v (sleeping s) (dead_tasks s) (reaping s) (tasks_list s) (tid_count s) (deleted s).
Definition set_sleeping v s := mk_sched (tasks s) (procs s) (queue s) (current s) (prev s) (prev_is_on_queue s) (lock s) v (dead_tasks s) (reaping s) (tasks_list s) (tid_count s) (deleted s).
Definition set_dead d r s := mk_sched (tasks s) (procs s) (queue s) (current s) (prev s) (prev_is_on_queue s) (lock s) (sleeping s) d r (tasks_list s) (tid_count s) (deleted s).
Definition set_tasks_list v n s := mk_sched (tasks s) (procs s) (queue s) (current s) (prev s) (prev_is_on_queue s) (lock s) (sleeping s) (dead_tasks s) (reaping s) v n (deleted s).
Definition set_deleted v s := mk_sched (tasks s) (procs s) (queue s) (current s) (prev s) (prev_is_on_queue s) (lock s) (sleeping s) (dead_tasks s) (reaping s) (tasks_list s) (tid_count s) v.

Definition upd_task (f : task -> task) t s : option sched := x ← tasks s !! t; Some (set_tasks (<[t := f x]> (tasks s)) s).
Definition upd_proc (f : proc -> proc) p s : option sched := x ← procs s !! p; Some (set_procs (<[p := f x]> (procs s)) s).

(** The tasks that the kernel makes at its start. *)
Class Fixed := { idle : Z; reaper : Z }.

Section sched.
Context `{Fixed}.

(** ** The run queue *)

Definition run_queue_is_empty s : bool := match queue s with [] => true | _ => false end.

Definition run_queue_push_task t s : option sched := upd_task (set_run_queue true) t (set_queue (queue s ++ [t]) s).

Definition run_queue_pop_task s : sched * option Z :=
  match queue s with [] => (s, None) | t :: q => (set_queue q s, Some t) end.

(** Only a task that is on the queue has a lock to take. *)
Definition run_queue_acquire_lock t s : option sched :=
  x ← tasks s !! t; if run_queue x then kassert (negb (lock s));; Some (set_lock true s) else Some s.
Definition run_queue_release_lock t s : option sched :=
  x ← tasks s !! t; Some (if run_queue x then set_lock false s else s).

Definition schedule s : sched * Z :=
  let '(s, picked) := run_queue_pop_task s in (s, default idle picked).

Definition finish_yield s : option sched :=
  s ← if prev_is_on_queue s then Some s else upd_task (set_run_queue false) (prev s) s;
  Some (set_lock false s).

(** ** Blocking *)

Definition preempt_enable s : option sched := x ← tasks s !! current s; upd_task (set_preempt_count (preempt_count x -! 1)) (current s) s.
Definition preempt_disable s : option sched := x ← tasks s !! current s; upd_task (set_preempt_count (preempt_count x +! 1)) (current s) s.

Definition is_blocked (v : status) : bool := bool_decide (v = TASK_STATUS_BLOCKED) || bool_decide (v = TASK_STATUS_INTERRUPTIBLE).

Definition unblock_task_reason t (reason : wakeup) s : option (sched * bool) :=
  s ← run_queue_acquire_lock t s;
  x ← tasks s !! t;
  if negb (is_blocked (st x)) || (bool_decide (reason = WAKEUP_SIGNAL) && negb (bool_decide (st x = TASK_STATUS_INTERRUPTIBLE))) then
    s ← run_queue_release_lock t s; Some (s, false)
  else
    s ← upd_task (fun x => set_wakeup_reason reason (set_st TASK_STATUS_RUNNING x)) t s;
    s ← if run_queue x then Some s else run_queue_push_task t s;
    s ← run_queue_release_lock t s;
    Some (s, true).

Definition unblock_task t s : option (sched * bool) := unblock_task_reason t WAKEUP_OTHER s.

Definition set_task_status (v : status) s : option sched := upd_task (set_st v) (current s) s.
Definition block_cancel s : option sched := set_task_status TASK_STATUS_RUNNING s.
Definition block_prepare s : option sched := set_task_status TASK_STATUS_BLOCKED s.

(** [unhandled] is whether the task has signals to handle. *)
Definition block_prepare_interruptible (unhandled : bool) s : option sched :=
  s ← set_task_status TASK_STATUS_INTERRUPTIBLE s;
  if unhandled then '(s, _) ← unblock_task_reason (current s) WAKEUP_SIGNAL s; Some s else Some s.

(** ** Timeouts *)

(** The list is that of the sleeping tasks: those in front have been removed. *)
Fixpoint wake_loop (now : timespec) (l : list Z) s : option sched :=
  match l with
  | [] => Some s
  | t :: l =>
      x ← tasks s !! t;
      if timespec_cmp (wakeup_time x) now >? 0 then Some s
      else
        s ← upd_task (set_sleep false (wakeup_time x)) t s;
        '(s, _) ← unblock_task t (set_sleeping l s);
        wake_loop now l s
  end.

Definition wakeup_sleepers (now : timespec) s : option sched := wake_loop now (sleeping s) s.

(** Behind the tasks that do not wake later. *)
Fixpoint insert_sleeper (s : sched) (t : Z) (time : timespec) (l : list Z) : option (list Z) :=
  match l with
  | [] => Some [t]
  | u :: l' => x ← tasks s !! u; if timespec_cmp time (wakeup_time x) <? 0 then Some (t :: l) else l' ← insert_sleeper s t time l'; Some (u :: l')
  end.

Definition sleep_add_timeout (time : timespec) s : option sched :=
  s ← upd_task (set_sleep true time) (current s) s;
  l ← insert_sleeper s (current s) time (sleeping s);
  Some (set_sleeping l s).

Definition sleep_remove_timeout s : option sched :=
  x ← tasks s !! current s;
  s ← upd_task (set_sleep false (wakeup_time x)) (current s) s;
  Some (if flag_sleep x then set_sleeping (filter (fun t => t <> current s) (sleeping s)) s else s).

(** ** The switch *)

Definition yield (preempt : bool) (now : timespec) s : option sched :=
  x ← tasks s !! current s;
  if preempt && (0 <? preempt_count x) then Some s
  else
    s ← wakeup_sleepers now s;
    kassert (negb (lock s));;
    let s := set_lock true s in
    x ← tasks s !! current s;
    let stays := preempt || bool_decide (st x = TASK_STATUS_RUNNING) in
    s ← if stays then run_queue_push_task (current s) s else Some s;
    let old := current s in
    let '(s, new) := schedule s in
    finish_yield (set_current new (set_prev old stays s)).

(** What [block_task] and [block_task_timeout] return to a task that runs again. *)
Definition block_task_result s : option (res unit) :=
  x ← tasks s !! current s; Some (if bool_decide (wakeup_reason x = WAKEUP_SIGNAL) then Err EINTR else Ok tt).

Definition block_timeout_result s : option (sched * res unit) :=
  x ← tasks s !! current s;
  match wakeup_reason x with
  | WAKEUP_TIMEOUT => Some (s, Err ETIMEDOUT)
  | WAKEUP_SIGNAL => s ← sleep_remove_timeout s; Some (s, Err EINTR)
  | WAKEUP_OTHER => s ← sleep_remove_timeout s; Some (s, Ok tt)
  end.

(** ** The life of a task *)

Definition task_ref t s : option sched := x ← tasks s !! t; upd_task (set_ref_count (ref_count x + 1)) t s.

Definition task_release t s : option sched :=
  x ← tasks s !! t;
  s ← upd_task (set_ref_count (ref_count x - 1)) t s;
  Some (if 1 <? ref_count x then s else set_tasks (delete t (tasks s)) s).

Definition sched_proc_ref p s : option sched := upd_proc (fun x => mk_proc (threads x) (threads_count x) (proc_refs x + 1)) p s.
Definition sched_proc_release p s : option sched :=
  x ← procs s !! p;
  s ← upd_proc (fun x => mk_proc (threads x) (threads_count x) (proc_refs x - 1)) p s;
  Some (if 1 <? proc_refs x then s else set_procs (delete p (procs s)) s).

(** [t] is the address that the slab gives and [stack] whether the heap has a stack. *)
Definition task_new (t : option Z) (stack : bool) (p : Z) s : option (sched * option Z) :=
  match t with
  | None => Some (s, None)
  | Some t =>
      let n := tid_count s in
      let s := set_tasks_list (tasks_list s) (n + 1) s in
      if negb stack then Some (s, None)
      else
        let s := set_tasks (<[t := mk_task TASK_STATUS_BLOCKED WAKEUP_TIMEOUT false 0 false (mk_timespec 0 0) true 0 n p]> (tasks s)) s in
        s ← sched_proc_ref p s;
        s ← task_ref t s;
        s ← upd_proc (fun x => mk_proc (threads x ++ [t]) (threads_count x + 1) (proc_refs x)) p s;
        Some (set_tasks_list (<[n := t]> (tasks_list s)) (tid_count s) s, Some t)
  end.

Definition task_from_tid (n : Z) s : option (sched * option Z) :=
  x ← tasks s !! current s;
  if tid x =? n then s ← task_ref (current s) s; Some (s, Some (current s))
  else match tasks_list s !! n with None => Some (s, None) | Some t => s ← task_ref t s; Some (s, Some t) end.

Definition add_dead_task t s : option sched :=
  '(s, _) ← unblock_task reaper (set_dead (dead_tasks s ++ [t]) (reaping s) s); Some s.

(** The end of a task up to the deletion of its process, which may sleep, and from there up to the last [yield]. *)
Definition task_exit_begin s : option sched :=
  s ← preempt_disable s;
  x ← tasks s !! current s;
  s ← upd_proc (fun p => mk_proc (filter (fun t => t <> current s) (threads p)) (threads_count p - 1) (proc_refs p)) (process x) s;
  p ← procs s !! process x;
  Some (if threads_count p =? 0 then set_deleted (deleted s ++ [process x]) s else s).

Definition task_exit_end s : option sched :=
  x ← tasks s !! current s;
  let s := set_tasks_list (delete (tid x) (tasks_list s)) (tid_count s) s in
  s ← set_task_status TASK_STATUS_DEAD s;
  add_dead_task (current s) s.

Definition task_final_cleanup t s : option sched :=
  x ← tasks s !! t;
  s ← upd_task (set_kernel_stack false) t s;
  s ← sched_proc_release (process x) s;
  task_release t s.

(** A round of the loop of the reaper: it takes a task from the list, and frees it once the task is off the queue. *)
Definition reaper_take s : sched :=
  match dead_tasks s with [] => s | t :: l => set_dead l (Some t) s end.

Definition reaper_free s : option sched :=
  match reaping s with
  | None => Some s
  | Some t =>
      x ← tasks s !! t;
      if run_queue x then Some s else s ← task_final_cleanup t s; Some (set_dead (dead_tasks s) None s)
  end.
End sched.

(** ** Steps *)

(** What a task that runs, or an interrupt, does.  [held] are the references to tasks that the rest of the kernel has. *)
Inductive action :=
  | Yield (preempt : bool) (now : timespec)
  | Unblock (t : Z) (reason : wakeup)
  | Prepare
  | Prepare_interruptible (unhandled : bool)
  | Cancel
  | Preempt_disable
  | Preempt_enable
  | Add_timeout (time : timespec)
  | Remove_timeout
  | New (t : option Z) (stack : bool) (p : Z)
  | From_tid (n : Z)
  | Release (t : Z)
  | Exit_begin
  | Exit_end
  | Take
  | Free.

Record world := mk_world { sd : sched; held : list Z }.

(** One occurrence less. *)
Fixpoint remove_one (t : Z) (l : list Z) : list Z :=
  match l with [] => [] | u :: l => if u =? t then l else u :: remove_one t l end.

Section steps.
Context `{Fixed}.

Definition with_held (h : list Z) (s : option sched) : option world := s ← s; Some (mk_world s h).

Definition exec (a : action) (w : world) : option world :=
  let s := sd w in let h := held w in
  match a with
  | Yield preempt now => with_held h (yield preempt now s)
  | Unblock t reason => '(s, _) ← unblock_task_reason t reason s; Some (mk_world s h)
  | Prepare => with_held h (block_prepare s)
  | Prepare_interruptible unhandled => with_held h (block_prepare_interruptible unhandled s)
  | Cancel => with_held h (block_cancel s)
  | Preempt_disable => with_held h (preempt_disable s)
  | Preempt_enable => with_held h (preempt_enable s)
  | Add_timeout time => with_held h (sleep_add_timeout time s)
  | Remove_timeout => with_held h (sleep_remove_timeout s)
  | New t stack p => '(s, _) ← task_new t stack p s; Some (mk_world s h)
  | From_tid n => '(s, t) ← task_from_tid n s; Some (mk_world s (match t with Some t => t :: h | None => h end))
  | Release t => with_held (remove_one t h) (task_release t s)
  | Exit_begin => with_held h (task_exit_begin s)
  | Exit_end => with_held h (task_exit_end s)
  | Take => Some (mk_world (reaper_take s) h)
  | Free => with_held h (reaper_free s)
  end.

(** When the code can do so.  A dead task only gives up the processor; the idle task only blocks; the kernel disables
    preemption less often than a counter can count, and enables it as often as it disabled it; a task that exits has
    left the list of timeouts and keeps preemption disabled, which [task_exit] begins with. *)
Definition allowed (a : action) (w : world) : Prop :=
  let s := sd w in
  exists x, tasks s !! current s = Some x /\
  match a with
  | Yield _ _ => True
  | Unblock t _ => t <> idle /\ is_Some (tasks s !! t)
  | Prepare | Remove_timeout | From_tid _ => st x <> TASK_STATUS_DEAD
  | Prepare_interruptible _ | Cancel => st x <> TASK_STATUS_DEAD /\ current s <> idle
  | Preempt_disable => st x <> TASK_STATUS_DEAD /\ 0 <= preempt_count x < 2 ^ 64 - 1
  | Preempt_enable => st x <> TASK_STATUS_DEAD /\ 0 < preempt_count x < 2 ^ 64
  | Add_timeout _ => st x <> TASK_STATUS_DEAD /\ current s <> idle /\ flag_sleep x = false
  | New t _ p => st x <> TASK_STATUS_DEAD /\ is_Some (procs s !! p) /\ match t with Some t => tasks s !! t = None | None => True end
  | Release t => t ∈ held w
  | Exit_begin => st x <> TASK_STATUS_DEAD /\ current s <> idle /\ current s <> reaper /\ 0 <= preempt_count x < 2 ^ 64 - 1
  | Exit_end => st x <> TASK_STATUS_DEAD /\ current s <> idle /\ current s <> reaper /\ 0 < preempt_count x /\ flag_sleep x = false
  | Take => current s = reaper /\ reaping s = None
  | Free => current s = reaper
  end.

Inductive step : world -> world -> Prop := step_action a w w' : allowed a w -> exec a w = Some w' -> step w w'.

(** ** The invariant *)

Definition on s (t : Z) : Prop := t ∈ queue s \/ t = current s.
Definition pending s : list Z := option_list (reaping s) ++ dead_tasks s.
Definition refs_of (t : Z) (h : list Z) : Z := lenZ (filter (fun u => u = t) h).
Definition stacks (p : Z) (m : gmap Z task) : Z := count_if (fun x => kernel_stack x && (process x =? p)) m.

Record task_ok s (h : list Z) (t : Z) (x : task) : Prop := {
  ok_on : t <> idle -> run_queue x = true <-> on s t;
  ok_idle : t = idle -> st x = TASK_STATUS_BLOCKED /\ (t ∈ queue s -> run_queue x = true) /\ (run_queue x = true -> on s t);
  ok_running : st x = TASK_STATUS_RUNNING -> on s t;
  ok_dead : st x = TASK_STATUS_DEAD -> t ∉ queue s /\ (t = current s -> 0 < preempt_count x) /\ flag_sleep x = false /\ t <> reaper;
  ok_stack : kernel_stack x = false -> st x = TASK_STATUS_DEAD /\ t <> current s;
  ok_sleep : flag_sleep x = true <-> t ∈ sleeping s;
  ok_refs : ref_count x = b2Z (kernel_stack x) + refs_of t h /\ 1 <= ref_count x;
  ok_tid : tid x < tid_count s;
}.

Record inv (w : world) : Prop := {
  inv_lock : lock (sd w) = false;
  inv_nodup : NoDup (queue (sd w));
  inv_current : current (sd w) ∉ queue (sd w);
  inv_on : forall t, on (sd w) t -> is_Some (tasks (sd w) !! t);
  inv_fixed : idle <> reaper /\ is_Some (tasks (sd w) !! idle) /\ is_Some (tasks (sd w) !! reaper);
  inv_task : forall t x, tasks (sd w) !! t = Some x -> task_ok (sd w) (held w) t x;
  inv_pending : NoDup (pending (sd w)) /\ forall t, t ∈ pending (sd w) -> exists x, tasks (sd w) !! t = Some x /\ st x = TASK_STATUS_DEAD /\ kernel_stack x = true;
  inv_sleeping : NoDup (sleeping (sd w)) /\ forall t, t ∈ sleeping (sd w) -> is_Some (tasks (sd w) !! t) /\ t <> idle;
  inv_held : forall t, t ∈ held w -> is_Some (tasks (sd w) !! t);
  inv_tids : forall n t, tasks_list (sd w) !! n = Some t -> exists x, tasks (sd w) !! t = Some x /\ tid x = n /\ st x <> TASK_STATUS_DEAD;
  inv_procs : forall p, (0 < stacks p (tasks (sd w)) -> is_Some (procs (sd w) !! p)) /\ forall q, procs (sd w) !! p = Some q -> stacks p (tasks (sd w)) <= proc_refs q;
}.

(** A task changes in ways that its place on the queue and its counts do not depend on. *)
Record same_ids (x y : task) : Prop := {
  same_stack : kernel_stack y = kernel_stack x;
  same_refs : ref_count y = ref_count x;
  same_tid : tid y = tid x;
  same_process : process y = process x;
}.

Lemma stacks_same p m t x y : m !! t = Some x -> same_ids x y -> stacks p (<[t := y]> m) = stacks p m.
Proof. intros Hx []. unfold stacks. rewrite (count_if_update _ _ _ x y) by done. rewrite same_stack0, same_process0. lia. Qed.

(** The running task, or another one, is replaced by one with the same identity; the queue, the running task and the
    sleepers may change. *)
Lemma inv_replace s h s' t x y : inv (mk_world s h) -> tasks s !! t = Some x -> same_ids x y ->
  tasks s' = <[t := y]> (tasks s) -> procs s' = procs s -> tasks_list s' = tasks_list s -> tid_count s' = tid_count s -> dead_tasks s' = dead_tasks s -> reaping s' = reaping s ->
  lock s' = false -> NoDup (queue s') -> current s' ∉ queue s' -> (forall u, on s' u -> is_Some (tasks s !! u)) ->
  NoDup (sleeping s') -> (forall u, u ∈ sleeping s' -> u ∈ sleeping s \/ (u = t /\ t <> idle)) ->
  (st y = TASK_STATUS_DEAD <-> st x = TASK_STATUS_DEAD) ->
  (forall u z, tasks s' !! u = Some z -> (ref_count z = b2Z (kernel_stack z) + refs_of u h /\ 1 <= ref_count z) -> tid z < tid_count s -> task_ok s' h u z) ->
  inv (mk_world s' h).
Proof.
  intros I Hx Hsame Ht Hp Htl Htc Hd Hr Hl Hn Hc Hon Hns Hsl Hdead Hok. destruct I as [I1 I2 I3 I4 (I5 & I5a & I5b) I6 (I7 & I7a) (I8 & I8a) I9 I10 I11]. cbn in *.
  assert (Hsome : forall u, is_Some (tasks s !! u) -> is_Some (tasks s' !! u)). { intros u Hu. rewrite Ht. destruct (decide (u = t)) as [->|]; [rewrite lookup_insert_eq; by eexists|by rewrite lookup_insert_ne]. }
  assert (Hchar : forall u z, tasks s !! u = Some z -> exists z', tasks s' !! u = Some z' /\ same_ids z z' /\ (st z' = TASK_STATUS_DEAD <-> st z = TASK_STATUS_DEAD)).
  { intros u z Hz. rewrite Ht. destruct (decide (u = t)) as [->|]; [rewrite lookup_insert_eq|rewrite lookup_insert_ne by done]; [exists y|exists z; done]. rewrite Hx in Hz. by injection Hz as <-. }
  split; cbn; try done.
  - intros u Hu. by apply Hsome, Hon.
  - split_and!; [done|by apply Hsome..].
  - intros u z Hz. pose proof Hz as Hz0. rewrite Ht in Hz. destruct (decide (u = t)) as [->|Hne].
    + rewrite lookup_insert_eq in Hz. injection Hz as <-. pose proof (I6 _ _ Hx) as []. destruct Hsame. apply Hok; [done| |by rewrite same_tid0]. rewrite same_refs0, same_stack0. done.
    + rewrite lookup_insert_ne in Hz by done. pose proof (I6 _ _ Hz) as []. by apply Hok.
  - unfold pending in *. rewrite Hd, Hr. split; [done|]. intros u Hu. destruct (I7a u Hu) as (z & Hz & Hz1 & Hz2). destruct (Hchar _ _ Hz) as (z' & Hz' & [] & Hdd). exists z'. split; [done|]. split; [by apply Hdd|congruence].
  - split; [done|]. intros u Hu. destruct (Hsl u Hu) as [Hu'|(-> & Hu')]; [split; [by apply Hsome, I8a|by apply I8a]|split; [apply Hsome; by eexists|done]].
  - intros u Hu. by apply Hsome, I9.
  - intros n u Hu. rewrite Htl in Hu. destruct (I10 n u Hu) as (z & Hz & <- & Hz2). destruct (Hchar _ _ Hz) as (z' & Hz' & [] & Hdd). exists z'. split_and!; [done|done|tauto].
  - intros p. rewrite Ht, (stacks_same _ _ _ x), Hp by done. apply I11.
Qed.

Lemma ids_refl x : same_ids x x.
Proof. by constructor. Qed.

Lemma set_lock_id s : lock s = false -> set_lock false s = s.
Proof. destruct s. cbn. by intros ->. Qed.

(** *** Unblocking *)

Definition refuses (reason : wakeup) (v : status) : bool := negb (is_blocked v) || (bool_decide (reason = WAKEUP_SIGNAL) && negb (bool_decide (v = TASK_STATUS_INTERRUPTIBLE))).
Definition awake (reason : wakeup) (x : task) : task := set_run_queue true (set_wakeup_reason reason (set_st TASK_STATUS_RUNNING x)).
Definition woken (t : Z) (reason : wakeup) (x : task) s : sched := set_tasks (<[t := awake reason x]> (tasks s)) (set_queue (queue s ++ (if run_queue x then [] else [t])) s).

Lemma unblock_eq t reason x s : lock s = false -> tasks s !! t = Some x ->
  unblock_task_reason t reason s = Some (if refuses reason (st x) then (s, false) else (woken t reason x s, true)).
Proof.
  intros Hl Hx. unfold unblock_task_reason, run_queue_acquire_lock. rewrite Hx. cbn [mbind option_bind]. rewrite Hl. destruct s as [ts ps q c pr po lk sl dt rp tl tc dl]. cbn in Hl, Hx |- *. subst lk.
  unfold refuses, run_queue_release_lock, run_queue_push_task, upd_task. destruct (run_queue x) eqn:Er; cbn; rewrite Hx; cbn; (destruct (negb (is_blocked (st x)) || _); [cbn; rewrite ?Hx; cbn; rewrite ?Er; cbn; rewrite ?Hx; cbn; rewrite ?Er; done|]).
  - cbn. rewrite lookup_insert_eq. cbn. rewrite Er. cbn. unfold woken, set_lock, set_tasks, set_queue. cbn. rewrite Er, app_nil_r. replace (awake reason x) with (set_wakeup_reason reason (set_st TASK_STATUS_RUNNING x)); [rewrite lookup_insert_eq; cbn; by rewrite Er|]. destruct x; cbn in *; by subst.
  - cbn. repeat (rewrite lookup_insert_eq; cbn). unfold woken. rewrite Er. cbn. unfold set_lock, set_tasks, set_queue. cbn. rewrite insert_insert_eq. repeat (rewrite lookup_insert_eq; cbn). done.
Qed.

Lemma refuses_false reason v : refuses reason v = false -> v = TASK_STATUS_BLOCKED \/ v = TASK_STATUS_INTERRUPTIBLE.
Proof. unfold refuses, is_blocked. destruct v; cbn; auto; done. Qed.

(** A task that comes to the end of the queue. *)
Lemma inv_woken t reason x s h : inv (mk_world s h) -> tasks s !! t = Some x -> t <> idle -> refuses reason (st x) = false -> inv (mk_world (woken t reason x s) h).
Proof.
  intros I Hx Hi Hr. apply refuses_false in Hr. pose proof (inv_task _ I t x Hx) as Ok. cbn in Ok.
  assert (Hon : forall u, on (woken t reason x s) u <-> on s u \/ u = t).
  { intros u. unfold on, woken. cbn. destruct (run_queue x) eqn:Er; [rewrite app_nil_r|rewrite elem_of_app, list_elem_of_singleton; tauto].
    apply (ok_on _ _ _ _ Ok) in Er as Hon; [|done]. unfold on in Hon. split; [tauto|]. intros [Ho| ->]; done. }
  eapply (inv_replace s h _ t x (awake reason x)); try done; cbn.
  - apply (inv_lock _ I).
  - destruct (run_queue x) eqn:Er; [rewrite app_nil_r; apply (inv_nodup _ I)|]. apply NoDup_app. split_and!; [apply (inv_nodup _ I)| |apply NoDup_singleton].
    intros u Hu ->%list_elem_of_singleton. assert (run_queue x = true); [|congruence]. apply (ok_on _ _ _ _ Ok); [done|by left].
  - destruct (run_queue x) eqn:Er; [rewrite app_nil_r; apply (inv_current _ I)|]. rewrite elem_of_app, list_elem_of_singleton. intros [Hu|Hu]; [by apply (inv_current _ I)|].
    assert (run_queue x = true); [|congruence]. apply (ok_on _ _ _ _ Ok); [done|by right].
  - intros u Hu%Hon. destruct Hu as [Hu| ->]; [by apply (inv_on _ I)|by eexists].
  - apply (inv_sleeping _ I).
  - intros u Hu. by left.
  - destruct Hr as [-> | ->]; done.
  - intros u z Hz Href Htid. destruct (decide (u = t)) as [->|Hne].
    + rewrite lookup_insert_eq in Hz. injection Hz as <-. destruct Ok. constructor; cbn in *; try done.
      * intros _. split; [|done]. intros _. apply Hon. by right.
      * intros _. apply Hon. by right.
      * intros Hs. destruct (ok_stack0 Hs) as (E & _). destruct Hr as [Hr|Hr]; congruence.
    + rewrite lookup_insert_ne in Hz by done. pose proof (inv_task _ I u z Hz) as []. cbn in *. constructor; cbn; try done.
      * intros Hu. rewrite Hon, ok_on0 by done. tauto.
      * intros ->. destruct (ok_idle0 eq_refl) as (? & ? & Hq). split_and!; [done| |rewrite Hon; tauto]. intros Hu. apply elem_of_app in Hu as [Hu|Hu]; [by auto|]. destruct (run_queue x); [by apply not_elem_of_nil in Hu|]. by apply list_elem_of_singleton in Hu.
      * intros Hu. apply Hon. auto.
      * intros Hd. destruct (ok_dead0 Hd) as (Hq & ? & ? & ?). split_and!; try done. intros Hu. apply elem_of_app in Hu as [Hu|Hu]; [by auto|]. destruct (run_queue x); [by apply not_elem_of_nil in Hu|]. by apply list_elem_of_singleton in Hu.
Qed.

Lemma unblock_spec t reason s h : inv (mk_world s h) -> t <> idle -> is_Some (tasks s !! t) ->
  exists s' b, unblock_task_reason t reason s = Some (s', b) /\ inv (mk_world s' h) /\ current s' = current s /\ sleeping s' = sleeping s /\
    (exists l, queue s' = queue s ++ l) /\ (forall u, u <> t -> tasks s' !! u = tasks s !! u) /\ (forall x, tasks s !! t = Some x -> st x = TASK_STATUS_DEAD -> s' = s) /\
    (forall u z', tasks s' !! u = Some z' -> exists z, tasks s !! u = Some z /\ same_ids z z' /\ preempt_count z' = preempt_count z /\ wakeup_time z' = wakeup_time z /\ flag_sleep z' = flag_sleep z) /\
    (forall u, is_Some (tasks s !! u) -> is_Some (tasks s' !! u)).
Proof.
  intros I Hi (x & Hx). rewrite (unblock_eq t reason x s (inv_lock _ I) Hx). destruct (refuses reason (st x)) eqn:Er.
  { exists s, false. split_and!; try done; [exists []; by rewrite app_nil_r|]. intros u z' Hz. exists z'. split_and!; try done. }
  exists (woken t reason x s), true. split; [done|]. split; [by apply inv_woken|]. cbn. split_and!; try done; [by eexists| | | |].
  - intros u Hu. by rewrite lookup_insert_ne.
  - intros y Hy Hd. rewrite Hx in Hy. injection Hy as <-. rewrite Hd in Er. done.
  - intros u z' Hz. destruct (decide (u = t)) as [->|]; [rewrite lookup_insert_eq in Hz; injection Hz as <-; exists x|rewrite lookup_insert_ne in Hz by done; exists z']; by split_and!.
  - intros u Hu. destruct (decide (u = t)) as [->|]; [rewrite lookup_insert_eq; by eexists|by rewrite lookup_insert_ne].
Qed.

(** *** The running task changes itself *)

Lemma inv_current_update s h x y : inv (mk_world s h) -> tasks s !! current s = Some x -> same_ids x y -> run_queue y = run_queue x -> flag_sleep y = flag_sleep x ->
  st x <> TASK_STATUS_DEAD -> st y <> TASK_STATUS_DEAD -> (current s = idle -> st y = TASK_STATUS_BLOCKED) -> inv (mk_world (set_tasks (<[current s := y]> (tasks s)) s) h).
Proof.
  intros I Hx Hids Hrq Hfl Hd Hd' Hidle. set (t := current s) in *. pose proof (inv_task _ I t x Hx) as Ok. cbn in Ok.
  eapply (inv_replace s h _ t x y); try done; cbn.
  - apply (inv_lock _ I). - apply (inv_nodup _ I). - apply (inv_current _ I). - apply (inv_on _ I). - apply (inv_sleeping _ I). - by left.
  - intros u z Hz Href Htid. destruct (decide (u = t)) as [->|Hne].
    + rewrite lookup_insert_eq in Hz. injection Hz as <-. destruct Ok. destruct Hids. constructor; cbn in *; rewrite ?Hrq, ?Hfl; try done.
      * intros E. split; [by apply Hidle|]. by apply ok_idle0.
      * intros _. by right.
      * rewrite same_stack0. intros E. by destruct (ok_stack0 E).
    + rewrite lookup_insert_ne in Hz by done. pose proof (inv_task _ I u z Hz) as []. by constructor.
Qed.

Lemma set_status_spec v s h x : inv (mk_world s h) -> tasks s !! current s = Some x -> st x <> TASK_STATUS_DEAD -> v <> TASK_STATUS_DEAD -> (current s = idle -> v = TASK_STATUS_BLOCKED) ->
  exists s', set_task_status v s = Some s' /\ inv (mk_world s' h) /\ current s' = current s /\ queue s' = queue s /\ tasks s' = <[current s := set_st v x]> (tasks s).
Proof. intros I Hx Hd Hv Hi. unfold set_task_status, upd_task. rewrite Hx. eexists. split; [reflexivity|]. split; [by eapply inv_current_update|done]. Qed.

Lemma preempt_disable_spec s h x : inv (mk_world s h) -> tasks s !! current s = Some x -> st x <> TASK_STATUS_DEAD -> 0 <= preempt_count x < 2 ^ 64 - 1 ->
  preempt_disable s = Some (set_tasks (<[current s := set_preempt_count (preempt_count x + 1) x]> (tasks s)) s) /\ inv (mk_world (set_tasks (<[current s := set_preempt_count (preempt_count x + 1) x]> (tasks s)) s) h).
Proof.
  intros I Hx Hd Hp. unfold preempt_disable, upd_task. rewrite Hx. cbn [mbind option_bind]. rewrite u64_small by (unfold is_u64; lia). split; [done|]. eapply inv_current_update; try done. intros Hi. by apply (inv_task _ I _ _ Hx).
Qed.

Lemma preempt_enable_spec s h x : inv (mk_world s h) -> tasks s !! current s = Some x -> st x <> TASK_STATUS_DEAD ->
  exists s', preempt_enable s = Some s' /\ inv (mk_world s' h) /\ queue s' = queue s /\ current s' = current s.
Proof.
  intros I Hx Hd. unfold preempt_enable, upd_task. rewrite Hx. cbn [mbind option_bind]. eexists. split; [reflexivity|]. split; [|done]. eapply inv_current_update; try done. intros Hi. by apply (inv_task _ I _ _ Hx).
Qed.

(** *** Timeouts *)

(** The task leaves the list or enters it. *)
Lemma inv_timeout s h t x f time l : inv (mk_world s h) -> tasks s !! t = Some x -> t <> idle -> (f = true -> st x <> TASK_STATUS_DEAD) -> NoDup l -> (forall u, u <> t -> u ∈ l <-> u ∈ sleeping s) -> (f = true <-> t ∈ l) ->
  inv (mk_world (set_sleeping l (set_tasks (<[t := set_sleep f time x]> (tasks s)) s)) h).
Proof.
  intros I Hx Hi Hdead Hn Hl Hf. pose proof (inv_task _ I t x Hx) as Ok. cbn in Ok.
  eapply (inv_replace s h _ t x (set_sleep f time x)); try done; cbn.
  - apply (inv_lock _ I). - apply (inv_nodup _ I). - apply (inv_current _ I). - apply (inv_on _ I).
  - intros u Hu. destruct (decide (u = t)) as [->|]; [by right|left; by apply Hl].
  - intros u z Hz Href Htid. destruct (decide (u = t)) as [->|Hne].
    + rewrite lookup_insert_eq in Hz. injection Hz as <-. destruct Ok. constructor; cbn in *; try done.
      intros E. destruct (ok_dead0 E) as (? & ? & ? & ?). split_and!; try done. destruct f; [|done]. by destruct (Hdead eq_refl).
    + rewrite lookup_insert_ne in Hz by done. pose proof (inv_task _ I u z Hz) as []. constructor; cbn in *; try done. rewrite Hl by done. done.
Qed.

Lemma wake_loop_spec now h : forall l s, inv (mk_world s h) -> sleeping s = l ->
  exists s', wake_loop now l s = Some s' /\ inv (mk_world s' h) /\ current s' = current s /\ (exists l', queue s' = queue s ++ l') /\
    (forall u z', tasks s' !! u = Some z' -> exists z, tasks s !! u = Some z /\ preempt_count z' = preempt_count z /\ (st z = TASK_STATUS_DEAD -> st z' = TASK_STATUS_DEAD)) /\ (forall u, is_Some (tasks s !! u) -> is_Some (tasks s' !! u)).
Proof.
  induction l as [|t l IH]; intros s I Hs; cbn [wake_loop].
  { exists s. split_and!; try done; [exists []; by rewrite app_nil_r|]. intros u z Hz. by exists z. }
  destruct (proj2 (inv_sleeping _ I) t ltac:(cbn; rewrite Hs; left)) as ((x & Hx) & Hi). cbn in Hx. rewrite Hx. cbn [mbind option_bind].
  destruct (_ >? 0); [exists s; split_and!; try done; [exists []; by rewrite app_nil_r|]; intros u z Hz; by exists z|].
  unfold upd_task at 1. rewrite Hx. cbn [mbind option_bind]. set (s1 := set_sleeping l _).
  pose proof (proj1 (inv_sleeping _ I)) as Hn. cbn in Hn. rewrite Hs in Hn. apply NoDup_cons in Hn as (Hnt & Hn).
  assert (I1 : inv (mk_world s1 h)). { apply inv_timeout; try done. intros u Hu. rewrite Hs, elem_of_cons. split; [by right|]. by intros [|]. }
  assert (Hs1 : forall u, is_Some (tasks s !! u) -> is_Some (tasks s1 !! u)). { intros u Hu. cbn. destruct (decide (u = t)) as [->|]; [rewrite lookup_insert_eq; by eexists|by rewrite lookup_insert_ne]. }
  destruct (unblock_spec t WAKEUP_OTHER s1 h I1 Hi) as (s2 & b & E2 & I2 & C2 & L2 & (l2 & Q2) & T2 & D2 & X2 & Y2); [apply Hs1; by eexists|]. unfold unblock_task. rewrite E2. cbn [mbind option_bind].
  destruct (IH s2 I2) as (s3 & E3 & I3 & C3 & (l3 & Q3) & X3 & Y3); [by rewrite L2|]. exists s3. split_and!; try done.
  - by rewrite C3, C2.
  - exists (l2 ++ l3). by rewrite Q3, Q2, app_assoc.
  - intros u z' Hz. destruct (X3 u z' Hz) as (z2 & Hz2 & Hp2 & Hd2). destruct (X2 u z2 Hz2) as (z1 & Hz1 & _ & Hp1 & _).
    assert (Hz0 : exists z, tasks s !! u = Some z /\ preempt_count z1 = preempt_count z /\ st z1 = st z). { cbn in Hz1. destruct (decide (u = t)) as [->|]; [rewrite lookup_insert_eq in Hz1; injection Hz1 as <-; by exists x|rewrite lookup_insert_ne in Hz1 by done; by exists z1]. }
    destruct Hz0 as (z & Hz0 & Hp0 & Hd0). exists z. split; [done|]. split; [congruence|]. intros Hd. apply Hd2. destruct (decide (u = t)) as [->|Hne].
    + assert (s2 = s1) as ->; [apply (D2 z1 Hz1); congruence|]. congruence.
    + rewrite (T2 u Hne), Hz1 in Hz2. congruence.
  - intros u Hu. by apply Y3, Y2, Hs1.
Qed.

(** *** The switch *)

Definition stays (preempt : bool) s : bool := preempt || match tasks s !! current s with Some x => bool_decide (st x = TASK_STATUS_RUNNING) | None => false end.
Definition line (preempt : bool) s : list Z := queue s ++ (if stays preempt s then [current s] else []).
Definition switch (preempt : bool) (x : task) s : sched :=
  mk_sched (<[current s := set_run_queue (stays preempt s) x]> (tasks s)) (procs s) (tail (line preempt s)) (default idle (head (line preempt s))) (current s) (stays preempt s) false (sleeping s) (dead_tasks s) (reaping s) (tasks_list s) (tid_count s) (deleted s).

Lemma switch_eq preempt s x : lock s = false -> tasks s !! current s = Some x ->
  (kassert (negb (lock s));;
   let s := set_lock true s in
   x ← tasks s !! current s;
   let stays := preempt || bool_decide (st x = TASK_STATUS_RUNNING) in
   s ← if stays then run_queue_push_task (current s) s else Some s;
   let old := current s in
   let '(s, new) := schedule s in
   finish_yield (set_current new (set_prev old stays s))) = Some (switch preempt x s).
Proof.
  intros Hl Hx. rewrite Hl. destruct s as [ts ps q c pr po lk sl dt rp tl tc dl]. cbn in Hl, Hx. subst lk. cbn -[schedule finish_yield]. rewrite Hx. cbn -[schedule finish_yield].
  unfold switch, line, stays. cbn -[schedule finish_yield]. rewrite Hx. unfold run_queue_push_task, upd_task. destruct (preempt || bool_decide (st x = TASK_STATUS_RUNNING)) eqn:Es; cbn -[schedule finish_yield]; rewrite ?Hx; cbn -[schedule finish_yield].
  - unfold schedule, run_queue_pop_task. cbn -[finish_yield]. destruct (q ++ [c]) as [|t l] eqn:Eq; [by destruct q|]. cbn. done.
  - unfold schedule, run_queue_pop_task. cbn -[finish_yield]. rewrite app_nil_r. destruct q as [|t l]; cbn; unfold upd_task; cbn; rewrite Hx; done.
Qed.

Lemma inv_switch preempt s h x : inv (mk_world s h) -> tasks s !! current s = Some x -> (st x = TASK_STATUS_DEAD -> preempt = false) -> inv (mk_world (switch preempt x s) h).
Proof.
  intros I Hx Hdp. set (c := current s) in *. set (b := stays preempt s). set (L := line preempt s). set (new := default idle (head L)).
  assert (Hb : b = preempt || bool_decide (st x = TASK_STATUS_RUNNING)) by (unfold b, stays; fold c; by rewrite Hx).
  assert (HL : L = queue s ++ (if b then [c] else [])) by done. pose proof (inv_task _ I c x Hx) as Okc. cbn in Okc. pose proof (inv_nodup _ I) as Hq. pose proof (inv_current _ I) as Hcq. cbn in Hq, Hcq. fold c in Hcq.
  assert (HnL : NoDup L). { rewrite HL. destruct b; [|by rewrite app_nil_r]. apply NoDup_app. split_and!; [done| |apply NoDup_singleton]. intros u Hu ->%list_elem_of_singleton. done. }
  assert (HLin : forall u, u ∈ L <-> u ∈ queue s \/ (b = true /\ u = c)). { intros u. rewrite HL, elem_of_app. destruct b; [rewrite list_elem_of_singleton; naive_solver|split; [intros [?|?%not_elem_of_nil]; tauto|intros [?|[? ?]]; [tauto|done]]]. }
  (* who is on the queue or runs afterwards *)
  assert (Hon' : forall u, (u ∈ tail L \/ u = new) <-> u ∈ L \/ (L = [] /\ u = idle)). { intros u. unfold new. destruct L as [|t l]; cbn; [rewrite elem_of_nil; naive_solver|rewrite elem_of_cons; naive_solver]. }
  assert (Hnew : new ∉ tail L). { unfold new. destruct L as [|t l]; cbn; [apply not_elem_of_nil|]. by apply NoDup_cons in HnL as (? & _). }
  assert (Htl : forall u, u ∈ tail L -> u ∈ L) by (intros u; destruct L; [done|by right]).
  assert (HnT : NoDup (tail L)) by (destruct L; [apply NoDup_nil_2|]; by apply NoDup_cons in HnL as (_ & ?)).
  assert (HnotR : b = false -> st x <> TASK_STATUS_RUNNING). { intros E. rewrite Hb in E. apply orb_false_iff in E as (_ & E). by apply bool_decide_eq_false in E. }
  assert (Hdb : st x = TASK_STATUS_DEAD -> b = false). { intros E. rewrite Hb, (Hdp E), E. done. }
  eapply (inv_replace s h _ c x (set_run_queue b x)); try done; cbn.
  - intros u Hu. unfold on in Hu. cbn in Hu. fold L new in Hu. apply Hon' in Hu as [Hu|(_ & ->)]; [|by destruct (inv_fixed _ I) as (_ & ? & _)]. apply HLin in Hu as [Hu|(_ & ->)]; [apply (inv_on _ I); by left|by eexists].
  - apply (inv_sleeping _ I).
  - by left.
  - intros u z Hz Href Htid.
    assert (Honu : on (switch preempt x s) u <-> u ∈ L \/ (L = [] /\ u = idle)) by apply Hon'.
    destruct (decide (u = c)) as [->|Hne].
    + rewrite lookup_insert_eq in Hz. injection Hz as <-. destruct Okc. constructor; cbn in *; try done; fold b L new.
      * intros Hi. rewrite Honu, HLin. split; [intros ->; left; right; done|]. intros [[?|(? & _)]|(_ & ?)]; done.
      * intros Hi. destruct (ok_idle0 Hi) as (Hbl & _). split; [done|]. rewrite Honu, HLin. split; [|intros ->; left; right; done]. intros Hu%Htl. apply HLin in Hu as [Hu|(? & _)]; done.
      * intros Hr. rewrite Honu, HLin. left. right. split; [|done]. destruct b; [done|]. by destruct HnotR.
      * intros Hd. destruct (ok_dead0 Hd) as (_ & Hpc & Hfl & Hrp). split_and!; try done; [|intros _; by apply Hpc]. intros Hu%Htl. apply HLin in Hu as [Hu|(Hu & _)]; [done|]. rewrite (Hdb Hd) in Hu. done.
      * intros Hs. by destruct (ok_stack0 Hs).
    + rewrite lookup_insert_ne in Hz by done. pose proof (inv_task _ I u z Hz) as []. cbn in *. constructor; cbn; try done; fold b L new.
      * intros Hi. rewrite Honu, HLin, ok_on0 by done. unfold on. fold c. naive_solver.
      * intros Hi. destruct (ok_idle0 Hi) as (Hbl & Hq1 & Hq2). split; [done|]. rewrite Honu, HLin. split; [|intros Hr; destruct (Hq2 Hr); [by left; left|done]]. intros Hu%Htl. apply HLin in Hu as [Hu|(_ & ?)]; [by apply Hq1|done].
      * intros Hr. rewrite Honu, HLin. destruct (ok_running0 Hr); [by left; left|done].
      * intros Hd. destruct (ok_dead0 Hd) as (Hq1 & Hpc & Hfl & Hrp). split_and!; try done. { intros Hu%Htl. apply HLin in Hu as [Hu|(_ & ?)]; done. }
        intros ->. exfalso. assert (Hn : new ∈ L \/ (L = [] /\ new = idle)) by (apply Hon'; by right). destruct Hn as [Hn|(_ & Hn)]; [apply HLin in Hn as [?|(_ & ?)]; done|]. destruct (ok_idle0 Hn) as (E & _). congruence.
      * intros Hs. destruct (ok_stack0 Hs) as (Hd & _). split; [done|]. intros ->. assert (Hn : new ∈ L \/ (L = [] /\ new = idle)) by (apply Hon'; by right). destruct (ok_dead0 Hd) as (Hq1 & _). destruct Hn as [Hn|(_ & Hn)]; [apply HLin in Hn as [?|(_ & ?)]; done|]. destruct (ok_idle0 Hn) as (E & _). congruence.
Qed.

(** A call of [yield] that is not refused because preemption is disabled: who was woken comes to the end of the queue,
    and then the task that runs if it goes on; the first of the queue runs, or the idle task. *)
Lemma yield_spec preempt now s h x : inv (mk_world s h) -> tasks s !! current s = Some x -> preempt && (0 <? preempt_count x) = false ->
  exists s1 x1, yield preempt now s = Some (switch preempt x1 s1) /\ inv (mk_world (switch preempt x1 s1) h) /\ inv (mk_world s1 h) /\ current s1 = current s /\ tasks s1 !! current s1 = Some x1 /\ (exists l, queue s1 = queue s ++ l).
Proof.
  intros I Hx Hp. unfold yield. rewrite Hx. cbn [mbind option_bind]. rewrite Hp. unfold wakeup_sleepers.
  destruct (wake_loop_spec now h (sleeping s) s I eq_refl) as (s1 & E1 & I1 & C1 & Q1 & X1 & Y1). rewrite E1. cbn [mbind option_bind].
  destruct (Y1 (current s)) as (x1 & Hx1); [by eexists|]. destruct (X1 _ _ Hx1) as (x0 & Hx0 & Hpc & Hd). rewrite Hx in Hx0. injection Hx0 as <-. rewrite <- C1 in Hx1.
  exists s1, x1. split; [apply switch_eq; [apply (inv_lock _ I1)|done]|]. split_and!; try done. apply inv_switch; [done|done|]. intros Hdead. destruct preempt; [|done]. exfalso.
  pose proof (inv_task _ I1 _ _ Hx1) as Ok. apply ok_dead in Ok as (_ & Hpos & _); [|done]. specialize (Hpos eq_refl). cbn in Hp. apply Z.ltb_ge in Hp. lia.
Qed.

Lemma insert_sleeper_spec s t time l : (forall u, u ∈ l -> is_Some (tasks s !! u)) -> exists l', insert_sleeper s t time l = Some l' /\ l' ≡ₚ t :: l.
Proof.
  induction l as [|u l IH]; intros Hl; cbn [insert_sleeper]; [by eexists|]. destruct (Hl u) as (x & Hx); [left|]. rewrite Hx. cbn [mbind option_bind].
  destruct (_ <? 0); [by eexists|]. destruct IH as (l' & -> & Hp); [intros v Hv; apply Hl; by right|]. cbn [mbind option_bind]. eexists. split; [reflexivity|]. rewrite Hp. apply Permutation_swap.
Qed.

Lemma add_timeout_spec time s h x : inv (mk_world s h) -> tasks s !! current s = Some x -> st x <> TASK_STATUS_DEAD -> current s <> idle -> flag_sleep x = false ->
  exists s', sleep_add_timeout time s = Some s' /\ inv (mk_world s' h) /\ queue s' = queue s /\ current s' = current s.
Proof.
  intros I Hx Hd Hi Hf. unfold sleep_add_timeout, upd_task. rewrite Hx. cbn [mbind option_bind]. cbn [current sleeping set_tasks].
  assert (Hns : current s ∉ sleeping s). { intros Hin. apply (ok_sleep _ _ _ _ (inv_task _ I _ _ Hx)) in Hin. congruence. }
  destruct (insert_sleeper_spec (set_tasks (<[current s := set_sleep true time x]> (tasks s)) s) (current s) time (sleeping s)) as (l & -> & Hl).
  { intros u Hu. cbn. rewrite lookup_insert_ne by (intros <-; done). by apply (inv_sleeping _ I). }
  cbn [mbind option_bind]. eexists. split; [reflexivity|]. split; [|done]. apply inv_timeout; try done.
  - rewrite Hl. apply NoDup_cons. split; [done|apply (inv_sleeping _ I)].
  - intros u Hu. rewrite Hl, elem_of_cons. naive_solver.
  - rewrite Hl. split; [by left|done].
Qed.

Lemma remove_timeout_spec s h x : inv (mk_world s h) -> tasks s !! current s = Some x -> st x <> TASK_STATUS_DEAD ->
  exists s', sleep_remove_timeout s = Some s' /\ inv (mk_world s' h) /\ queue s' = queue s /\ current s' = current s.
Proof.
  intros I Hx Hd. unfold sleep_remove_timeout, upd_task. rewrite Hx. cbn [mbind option_bind]. destruct (flag_sleep x) eqn:Ef; eexists; (split; [reflexivity|]); (split; [|done]).
  - assert (Hin : current s ∈ sleeping s) by (by apply (ok_sleep _ _ _ _ (inv_task _ I _ _ Hx))). cbn. apply inv_timeout; try done.
    + by apply (inv_sleeping _ I).
    + apply NoDup_filter, (inv_sleeping _ I).
    + intros u Hu. rewrite list_elem_of_filter. naive_solver.
    + rewrite list_elem_of_filter. naive_solver.
  - assert (E : set_sleep false (wakeup_time x) x = x) by (destruct x; cbn in *; by subst). rewrite E. eapply inv_current_update; try done. intros Hi. by apply (inv_task _ I _ _ Hx).
Qed.

(** *** References *)

Lemma refs_of_cons t u h : refs_of t (u :: h) = refs_of t h + one t u.
Proof. unfold refs_of, one. rewrite filter_cons. destruct (decide (u = t)); [rewrite lenZ_cons|]; lia. Qed.

Lemma refs_of_pos t h : t ∈ h -> 1 <= refs_of t h.
Proof. induction h as [|u h IH]; intros Ht; [by apply not_elem_of_nil in Ht|]. rewrite refs_of_cons. pose proof (one_nonneg t u). apply elem_of_cons in Ht as [->|Ht]; [rewrite one_self|specialize (IH Ht); lia]. unfold refs_of. pose proof (lenZ_nonneg (filter (fun v => v = u) h)). lia. Qed.

Lemma refs_of_nonneg t h : 0 <= refs_of t h.
Proof. apply lenZ_nonneg. Qed.

Lemma refs_of_none t h : t ∉ h -> refs_of t h = 0.
Proof. induction h as [|u h IH]; intros Ht; [done|]. apply not_elem_of_cons in Ht as (Hne & Ht). rewrite refs_of_cons, IH, one_ne by done. done. Qed.

Lemma refs_of_remove t u h : t ∈ h -> refs_of u (remove_one t h) = refs_of u h - one u t.
Proof.
  induction h as [|v h IH]; intros Ht; [by apply not_elem_of_nil in Ht|]. cbn [remove_one]. rewrite refs_of_cons. destruct (Z.eqb_spec v t) as [->|Hne]; [lia|]. apply elem_of_cons in Ht as [->|Ht]; [done|]. rewrite refs_of_cons, IH by done. lia.
Qed.

Lemma remove_one_in t u h : u ∈ remove_one t h -> u ∈ h.
Proof. induction h as [|v h IH]; [done|]. cbn [remove_one]. destruct (v =? t); [by right|]. rewrite !elem_of_cons. naive_solver. Qed.

(** Whoever gives up the last reference frees a task that nothing refers to. *)
Lemma inv_free_task s h h' t x : inv (mk_world s h) -> tasks s !! t = Some x -> st x = TASK_STATUS_DEAD -> kernel_stack x = false -> (forall u, u ∈ h' -> u ∈ h /\ u <> t) -> (forall u, u <> t -> refs_of u h' = refs_of u h) ->
  inv (mk_world (set_tasks (delete t (tasks s)) s) h').
Proof.
  intros I Hx Hd Hk Hh Hr. pose proof (inv_task _ I t x Hx) as Ok. cbn in Ok. destruct (ok_dead _ _ _ _ Ok Hd) as (Hq & _ & Hf & Hrp). destruct (ok_stack _ _ _ _ Ok Hk) as (_ & Hc).
  assert (Hi : t <> idle). { intros Hi. destruct (ok_idle _ _ _ _ Ok Hi) as (E & _). congruence. }
  destruct I as [I1 I2 I3 I4 (I5 & I5a & I5b) I6 (I7 & I7a) (I8 & I8a) I9 I10 I11]. cbn in *. split; cbn; try done.
  - intros u Hu. rewrite lookup_delete_ne; [by apply I4|]. intros <-. by destruct Hu.
  - split_and!; [done|by rewrite lookup_delete_ne..].
  - intros u z Hz. apply lookup_delete_Some in Hz as (Hne & Hz). pose proof (I6 u z Hz) as []. constructor; cbn; try done. by rewrite Hr.
  - split; [done|]. intros u Hu. destruct (I7a u Hu) as (z & Hz & Hz1 & Hz2). exists z. rewrite lookup_delete_ne; [done|]. intros <-. congruence.
  - split; [done|]. intros u Hu. split; [|by apply I8a]. rewrite lookup_delete_ne; [by apply I8a|]. intros <-. apply (ok_sleep _ _ _ _ Ok) in Hu. congruence.
  - intros u Hu. destruct (Hh u Hu). rewrite lookup_delete_ne by done. by apply I9.
  - intros n u Hu. destruct (I10 n u Hu) as (z & Hz & Hz1 & Hz2). exists z. rewrite lookup_delete_ne; [done|]. intros <-. congruence.
  - intros p. specialize (I11 p). assert (E : stacks p (delete t (tasks s)) = stacks p (tasks s)); [|by rewrite E]. unfold stacks. rewrite (count_if_delete _ (tasks s) t x Hx), Hk. done.
Qed.

Lemma inv_refs s h h' t x r : inv (mk_world s h) -> tasks s !! t = Some x -> (forall u, u ∈ h' -> u ∈ h \/ u = t) -> (forall u, u <> t -> refs_of u h' = refs_of u h) -> r = b2Z (kernel_stack x) + refs_of t h' -> 1 <= r ->
  inv (mk_world (set_tasks (<[t := set_ref_count r x]> (tasks s)) s) h').
Proof.
  intros I Hx Hh Hr Hr1 Hr2. destruct I as [I1 I2 I3 I4 (I5 & I5a & I5b) I6 (I7 & I7a) (I8 & I8a) I9 I10 I11]. cbn in *.
  assert (Hsome : forall u, is_Some (tasks s !! u) -> is_Some (<[t := set_ref_count r x]> (tasks s) !! u)). { intros u Hu. destruct (decide (u = t)) as [->|]; [rewrite lookup_insert_eq; by eexists|by rewrite lookup_insert_ne]. }
  assert (Hchar : forall u z, tasks s !! u = Some z -> exists z', <[t := set_ref_count r x]> (tasks s) !! u = Some z' /\ st z' = st z /\ kernel_stack z' = kernel_stack z /\ tid z' = tid z).
  { intros u z Hz. destruct (decide (u = t)) as [->|]; [rewrite lookup_insert_eq|rewrite lookup_insert_ne by done; by eexists]. rewrite Hx in Hz. injection Hz as <-. by eexists. }
  split; cbn; try done.
  - intros u Hu. by apply Hsome, I4.
  - split_and!; [done|by apply Hsome..].
  - intros u z Hz. destruct (decide (u = t)) as [->|]; [rewrite lookup_insert_eq in Hz; injection Hz as <-; pose proof (I6 t x Hx) as []|rewrite lookup_insert_ne in Hz by done; pose proof (I6 u z Hz) as []]; constructor; cbn; try done. by rewrite Hr.
  - split; [done|]. intros u Hu. destruct (I7a u Hu) as (z & Hz & Hz1 & Hz2). destruct (Hchar u z Hz) as (z' & Hz' & E1 & E2 & _). exists z'. split_and!; congruence.
  - split; [done|]. intros u Hu. split; [by apply Hsome, I8a|by apply I8a].
  - intros u Hu. apply Hsome. destruct (Hh u Hu) as [| ->]; [by apply I9|by eexists].
  - intros n u Hu. destruct (I10 n u Hu) as (z & Hz & Hz1 & Hz2). destruct (Hchar u z Hz) as (z' & Hz' & E1 & E2 & E3). exists z'. split_and!; congruence.
  - intros p. specialize (I11 p). assert (E : stacks p (<[t := set_ref_count r x]> (tasks s)) = stacks p (tasks s)); [|by rewrite E]. unfold stacks. rewrite (count_if_update _ _ _ x) by done. cbn. lia.
Qed.

Lemma task_ref_spec s h t x : inv (mk_world s h) -> tasks s !! t = Some x ->
  exists s', task_ref t s = Some s' /\ inv (mk_world s' (t :: h)) /\ queue s' = queue s /\ current s' = current s.
Proof.
  intros I Hx. unfold task_ref, upd_task. rewrite Hx. cbn [mbind option_bind]. eexists. split; [reflexivity|]. split; [|done]. pose proof (ok_refs _ _ _ _ (inv_task _ I t x Hx)) as (E & ?). cbn in E. apply (inv_refs s h); try done.
  - intros u Hu. apply elem_of_cons in Hu. tauto.
  - intros u Hu. rewrite refs_of_cons, one_ne by done. lia.
  - rewrite refs_of_cons, one_self. lia.
  - lia.
Qed.

Lemma task_release_spec s h t : inv (mk_world s h) -> t ∈ h ->
  exists s', task_release t s = Some s' /\ inv (mk_world s' (remove_one t h)) /\ queue s' = queue s /\ current s' = current s.
Proof.
  intros I Ht. destruct (inv_held _ I t Ht) as (x & Hx). cbn in Hx. unfold task_release, upd_task. rewrite Hx. cbn [mbind option_bind]. pose proof (ok_refs _ _ _ _ (inv_task _ I t x Hx)) as (E & ?). cbn in E.
  pose proof (refs_of_pos t h Ht). eexists. split; [reflexivity|]. split; [|by destruct (1 <? _)].
  assert (Hself : refs_of t (remove_one t h) = refs_of t h - 1) by (by rewrite refs_of_remove, one_self).
  assert (Hoth : forall u, u <> t -> refs_of u (remove_one t h) = refs_of u h) by (intros u Hu; rewrite refs_of_remove, one_ne by done; lia).
  destruct (Z.ltb_spec 1 (ref_count x)) as [Hlt|Hge].
  - apply (inv_refs s h); try done; [intros u Hu; left; by eapply remove_one_in|lia..].
  - assert (Hk : kernel_stack x = false) by (destruct (kernel_stack x); [cbn in E; lia|done]). cbn [set_tasks tasks]. rewrite delete_insert_eq.
    apply (inv_free_task s h _ t x); try done; [by apply (ok_stack _ _ _ _ (inv_task _ I t x Hx))|]. intros u Hu. split; [by eapply remove_one_in|]. intros ->. pose proof (refs_of_pos t _ Hu). rewrite Hk in E. cbn in E. lia.
Qed.

(** *** Processes *)

Lemma stacks_pos s t x : tasks s !! t = Some x -> kernel_stack x = true -> 1 <= stacks (process x) (tasks s).
Proof. intros Hx Hk. unfold stacks. apply (count_if_pos _ _ t x Hx). rewrite Hk, Z.eqb_refl. done. Qed.

(** The process of a task that has its stack is there. *)
Lemma process_exists s h t x : inv (mk_world s h) -> tasks s !! t = Some x -> kernel_stack x = true -> exists q, procs s !! process x = Some q /\ stacks (process x) (tasks s) <= proc_refs q.
Proof. intros I Hx Hk. pose proof (stacks_pos s t x Hx Hk). destruct (inv_procs _ I (process x)) as (Hs & Hr). cbn in Hs, Hr. destruct Hs as (q & Hq); [lia|]. exists q. split; [done|by apply Hr]. Qed.

Lemma inv_procs_update s h s' : inv (mk_world s h) -> tasks s' = tasks s -> queue s' = queue s -> current s' = current s -> lock s' = lock s -> sleeping s' = sleeping s -> dead_tasks s' = dead_tasks s -> reaping s' = reaping s ->
  tasks_list s' = tasks_list s -> tid_count s <= tid_count s' -> (forall p, is_Some (procs s !! p) -> is_Some (procs s' !! p)) -> (forall p q', procs s' !! p = Some q' -> exists q, procs s !! p = Some q /\ proc_refs q <= proc_refs q') -> inv (mk_world s' h).
Proof.
  intros I Et Eq Ec El Es Ed Er Ex En Hp Hp'. destruct I as [I1 I2 I3 I4 I5 I6 I7 I8 I9 I10 I11]. unfold on, pending in *. cbn in *.
  assert (Hon : forall t, on s' t <-> on s t) by (intros t; unfold on; by rewrite Eq, Ec).
  split; cbn; unfold on, pending; rewrite ?Et, ?Eq, ?Ec, ?El, ?Es, ?Ed, ?Er, ?Ex; try done.
  - intros t x Hx. pose proof (I6 t x Hx) as []. constructor; rewrite ?Hon, ?Eq, ?Ec, ?Es; try done. lia.
  - intros p. destruct (I11 p) as (Ha & Hb). split; [by intros ?; apply Hp, Ha|]. intros q' Hq'. destruct (Hp' p q' Hq') as (q & Hq & Hle). specialize (Hb q Hq). lia.
Qed.

(** *** The life of a task *)

Definition fresh_task n p : task := mk_task TASK_STATUS_BLOCKED WAKEUP_TIMEOUT false 0 false (mk_timespec 0 0) true 1 n p.

Definition with_task t p q s : sched :=
  mk_sched (<[t := fresh_task (tid_count s) p]> (tasks s)) (<[p := mk_proc (threads q ++ [t]) (threads_count q + 1) (proc_refs q + 1)]> (procs s)) (queue s) (current s) (prev s) (prev_is_on_queue s) (lock s) (sleeping s) (dead_tasks s) (reaping s)
    (<[tid_count s := t]> (tasks_list s)) (tid_count s + 1) (deleted s).

Lemma task_new_eq t p q s : procs s !! p = Some q -> task_new (Some t) true p s = Some (with_task t p q s, Some t).
Proof.
  intros Hq. unfold task_new, sched_proc_ref, upd_proc, task_ref, upd_task. cbn [negb procs tasks set_tasks set_tasks_list]. rewrite Hq. cbn [mbind option_bind procs tasks set_tasks set_tasks_list set_procs]. rewrite lookup_insert_eq. cbn [mbind option_bind procs tasks set_tasks set_tasks_list set_procs]. rewrite lookup_insert_eq. cbn [mbind option_bind]. unfold with_task, set_tasks_list, set_procs, set_tasks. cbn [procs tasks queue current prev prev_is_on_queue lock sleeping dead_tasks reaping tasks_list tid_count deleted threads threads_count proc_refs]. rewrite !insert_insert_eq. reflexivity.
Qed.

Lemma inv_new s h t p q : inv (mk_world s h) -> tasks s !! t = None -> procs s !! p = Some q -> inv (mk_world (with_task t p q s) h).
Proof.
  intros I Ht Hp. destruct I as [I1 I2 I3 I4 (I5 & I5a & I5b) I6 (I7 & I7a) (I8 & I8a) I9 I10 I11]. cbn in *.
  assert (Hne : forall u, is_Some (tasks s !! u) -> u <> t) by (intros u Hu ->; rewrite Ht in Hu; by destruct Hu).
  assert (Hsome : forall u, is_Some (tasks s !! u) -> is_Some (<[t := fresh_task (tid_count s) p]> (tasks s) !! u)) by (intros u Hu; rewrite lookup_insert_ne; [done|]; intros <-; by apply (Hne t)).
  assert (Htn : ~ on s t) by (intros Hu; by apply (Hne t (I4 t Hu))). assert (Hth : t ∉ h) by (intros Hu; by apply (Hne t (I9 t Hu))). assert (Hts : t ∉ sleeping s) by (intros Hu; by apply (Hne t (proj1 (I8a t Hu)))).
  split; cbn; try done.
  - intros u Hu. by apply Hsome, I4.
  - split_and!; [done|by apply Hsome..].
  - intros u z Hz. destruct (decide (u = t)) as [->|Hut].
    + rewrite lookup_insert_eq in Hz. injection Hz as <-. constructor; cbn; try done.
      * intros ->. by destruct (Hne idle I5a).
      * rewrite (refs_of_none t h) by done. done.
      * lia.
    + rewrite lookup_insert_ne in Hz by done. pose proof (I6 u z Hz) as []. constructor; cbn; try done. lia.
  - split; [done|]. intros u Hu. destruct (I7a u Hu) as (z & Hz & ?). exists z. rewrite lookup_insert_ne; [done|]. intros <-. congruence.
  - split; [done|]. intros u Hu. split; [by apply Hsome, I8a|by apply I8a].
  - intros u Hu. by apply Hsome, I9.
  - intros n u Hu. destruct (decide (n = tid_count s)) as [->|Hn].
    + rewrite lookup_insert_eq in Hu. injection Hu as <-. rewrite lookup_insert_eq. eexists. split; [reflexivity|]. done.
    + rewrite lookup_insert_ne in Hu by done. destruct (I10 n u Hu) as (z & Hz & ?). exists z. rewrite lookup_insert_ne; [done|]. intros <-. congruence.
  - intros p'. unfold stacks. rewrite count_if_new by done. cbn [fresh_task kernel_stack process andb]. fold (stacks p' (tasks s)). destruct (decide (p' = p)) as [->|Hpp].
    + rewrite Z.eqb_refl, lookup_insert_eq. cbn [b2Z]. split; [by eexists|]. intros q' [= <-]. cbn. pose proof (proj2 (I11 p) q Hp). lia.
    + rewrite (proj2 (Z.eqb_neq p p')), lookup_insert_ne by done. apply I11.
Qed.

Lemma task_new_spec s h t stack p : inv (mk_world s h) -> is_Some (procs s !! p) -> match t with Some t => tasks s !! t = None | None => True end ->
  exists s' r, task_new t stack p s = Some (s', r) /\ inv (mk_world s' h) /\ queue s' = queue s /\ current s' = current s.
Proof.
  intros I (q & Hq) Ht. destruct t as [t|]; [|exists s, None; done]. destruct stack.
  - rewrite (task_new_eq t p q s Hq). eexists _, _. split; [reflexivity|]. split; [|done]. by apply inv_new.
  - unfold task_new. cbn [negb]. eexists _, None. split; [reflexivity|]. split; [|done]. eapply (inv_procs_update s); try done; cbn; [lia|]. intros p' q' Hq'. exists q'. split; [done|lia].
Qed.

Lemma from_tid_spec s h n x : inv (mk_world s h) -> tasks s !! current s = Some x ->
  exists s' r, task_from_tid n s = Some (s', r) /\ inv (mk_world s' (match r with Some t => t :: h | None => h end)) /\ queue s' = queue s /\ current s' = current s.
Proof.
  intros I Hx. unfold task_from_tid. rewrite Hx. cbn [mbind option_bind]. destruct (tid x =? n).
  - destruct (task_ref_spec s h _ x I Hx) as (s' & E & I' & Q & C). exists s', (Some (current s)). rewrite E. cbn [mbind option_bind]. rewrite C. done.
  - destruct (tasks_list s !! n) as [t|] eqn:El; [|by exists s, None]. destruct (inv_tids _ I n t El) as (y & Hy & _). destruct (task_ref_spec s h t y I Hy) as (s' & E & I' & Q & C). exists s', (Some t). rewrite E. split; [reflexivity|done].
Qed.

Lemma exit_begin_spec s h x : inv (mk_world s h) -> tasks s !! current s = Some x -> st x <> TASK_STATUS_DEAD -> 0 <= preempt_count x < 2 ^ 64 - 1 ->
  exists s', task_exit_begin s = Some s' /\ inv (mk_world s' h) /\ queue s' = queue s /\ current s' = current s.
Proof.
  intros I Hx Hd Hp. unfold task_exit_begin. destruct (preempt_disable_spec s h x I Hx Hd Hp) as (-> & I1). set (s1 := set_tasks _ s) in *. set (y := set_preempt_count (preempt_count x + 1) x) in *. cbn [mbind option_bind].
  assert (Hy : tasks s1 !! current s1 = Some y) by (cbn; by rewrite lookup_insert_eq). rewrite Hy. cbn [mbind option_bind].
  assert (Hk : kernel_stack y = true). { destruct (kernel_stack y) eqn:E; [done|]. by destruct (ok_stack _ _ _ _ (inv_task _ I1 _ _ Hy) E) as (? & []). }
  destruct (process_exists _ _ _ _ I1 Hy Hk) as (q & Hq & _). unfold upd_proc. rewrite Hq. cbn [mbind option_bind]. cbn [procs set_procs]. rewrite lookup_insert_eq. cbn [mbind option_bind]. eexists. split; [reflexivity|]. split; [|by destruct (_ =? 0)].
  destruct (_ =? 0); (eapply (inv_procs_update s1); try done; cbn; try lia).
  all: intros p; destruct (decide (p = process y)) as [->|Hne]; [rewrite lookup_insert_eq|rewrite lookup_insert_ne by done; try done].
  all: try (by intros; eexists). all: intros q' Hq'; try (injection Hq' as <-; exists q; split; [done|cbn; lia]). all: exists q'; split; [done|lia].
Qed.

(** The running task dies: it cannot be found by its number any more and waits for the reaper. *)
Lemma inv_die s h x : inv (mk_world s h) -> tasks s !! current s = Some x -> st x <> TASK_STATUS_DEAD -> current s <> idle -> current s <> reaper -> 0 < preempt_count x -> flag_sleep x = false ->
  inv (mk_world (mk_sched (<[current s := set_st TASK_STATUS_DEAD x]> (tasks s)) (procs s) (queue s) (current s) (prev s) (prev_is_on_queue s) (lock s) (sleeping s) (dead_tasks s ++ [current s]) (reaping s) (delete (tid x) (tasks_list s)) (tid_count s) (deleted s)) h).
Proof.
  intros I Hx Hd Hi Hr Hp Hf. set (t := current s) in *. pose proof (inv_task _ I t x Hx) as Ok. pose proof (inv_current _ I) as Hcq. cbn in Ok, Hcq. fold t in Hcq.
  assert (Hk : kernel_stack x = true). { destruct (kernel_stack x) eqn:E; [done|]. by destruct (ok_stack _ _ _ _ Ok E) as (? & []). }
  destruct I as [I1 I2 I3 I4 (I5 & I5a & I5b) I6 (I7 & I7a) (I8 & I8a) I9 I10 I11]. cbn in *.
  assert (Hsome : forall u, is_Some (tasks s !! u) -> is_Some (<[t := set_st TASK_STATUS_DEAD x]> (tasks s) !! u)). { intros u Hu. destruct (decide (u = t)) as [->|]; [rewrite lookup_insert_eq; by eexists|by rewrite lookup_insert_ne]. }
  assert (Hnp : t ∉ pending s). { intros Hu. destruct (I7a t Hu) as (z & Hz & Hz1 & _). congruence. }
  split; cbn; try done.
  - intros u Hu. by apply Hsome, I4.
  - split_and!; [done|by apply Hsome..].
  - intros u z Hz. destruct (decide (u = t)) as [->|Hne]; [rewrite lookup_insert_eq in Hz; injection Hz as <-|rewrite lookup_insert_ne in Hz by done; by pose proof (I6 u z Hz) as []; constructor].
    destruct Ok. constructor; cbn; try done; intros ?; try congruence; by split_and!.
  - unfold pending in *. cbn. rewrite app_assoc. split; [apply NoDup_app; split_and!; [done| |apply NoDup_singleton]; by intros u Hu ->%list_elem_of_singleton|].
    intros u Hu. apply elem_of_app in Hu as [Hu| ->%list_elem_of_singleton].
    + destruct (I7a u Hu) as (z & Hz & ?). exists z. rewrite lookup_insert_ne; [done|]. by intros <-.
    + rewrite lookup_insert_eq. by eexists.
  - split; [done|]. intros u Hu. split; [by apply Hsome, I8a|by apply I8a].
  - intros u Hu. by apply Hsome, I9.
  - intros n u Hu. apply lookup_delete_Some in Hu as (Hn & Hu). destruct (I10 n u Hu) as (z & Hz & Hz1 & Hz2). exists z. rewrite lookup_insert_ne; [done|]. intros <-. rewrite Hx in Hz. injection Hz as <-. done.
  - intros p. rewrite (stacks_same p (tasks s) t x) by done. apply I11.
Qed.

Lemma exit_end_spec s h x : inv (mk_world s h) -> tasks s !! current s = Some x -> st x <> TASK_STATUS_DEAD -> current s <> idle -> current s <> reaper -> 0 < preempt_count x -> flag_sleep x = false ->
  exists s', task_exit_end s = Some s' /\ inv (mk_world s' h) /\ (exists l, queue s' = queue s ++ l) /\ current s' = current s.
Proof.
  intros I Hx Hd Hi Hr Hp Hf. pose proof (inv_die s h x I Hx Hd Hi Hr Hp Hf) as I1. unfold task_exit_end. rewrite Hx. cbn [mbind option_bind]. unfold set_task_status, upd_task. cbn [tasks current set_tasks_list]. rewrite Hx. cbn [mbind option_bind].
  unfold add_dead_task, unblock_task. cbn. set (s1 := mk_sched _ _ _ _ _ _ _ _ _ _ _ _ _) in I1. match goal with |- context [unblock_task_reason reaper WAKEUP_OTHER ?a] => change a with s1 end.
  destruct (inv_fixed _ I1) as (Hne & _ & Hre). destruct (unblock_spec reaper WAKEUP_OTHER s1 h I1 (not_eq_sym Hne) Hre) as (s2 & b & E & I2 & C2 & _ & Q2 & _). rewrite E. cbn [mbind option_bind]. exists s2. by split_and!.
Qed.

Lemma take_spec s h : inv (mk_world s h) -> reaping s = None -> inv (mk_world (reaper_take s) h) /\ queue (reaper_take s) = queue s /\ current (reaper_take s) = current s.
Proof.
  intros I Hr. unfold reaper_take. destruct (dead_tasks s) as [|t l] eqn:Ed; [done|]. split; [|done]. destruct I as [I1 I2 I3 I4 I5 I6 I7 I8 I9 I10 I11]. split; cbn in *; try done.
  - intros u z Hz. pose proof (I6 u z Hz) as []. by constructor.
  - unfold pending in *. cbn. by rewrite Hr, Ed in I7.
Qed.

(** The reaper never waits for a task to leave the queue, and what it frees nothing uses. *)
Lemma free_spec s h : inv (mk_world s h) -> current s = reaper ->
  exists s', reaper_free s = Some s' /\ inv (mk_world s' h) /\ queue s' = queue s /\ current s' = current s /\ reaping s' = None.
Proof.
  intros I Hc. unfold reaper_free. destruct (reaping s) as [t|] eqn:Er; [|by exists s]. destruct (proj2 (inv_pending _ I) t) as (x & Hx & Hd & Hk); [cbn; unfold pending; rewrite Er; left|]. cbn in Hx. rewrite Hx. cbn [mbind option_bind].
  pose proof (inv_task _ I t x Hx) as Ok. cbn in Ok. destruct (ok_dead _ _ _ _ Ok Hd) as (Hq & _ & Hf & Hre).
  assert (Hi : t <> idle). { intros Hi. destruct (ok_idle _ _ _ _ Ok Hi) as (E & _). congruence. }
  assert (Hrq : run_queue x = false). { destruct (run_queue x) eqn:E; [|done]. apply (ok_on _ _ _ _ Ok) in E as [|]; [done|congruence|done]. }
  rewrite Hrq. destruct (process_exists _ _ _ _ I Hx Hk) as (q & Hpq & Hst). pose proof (stacks_pos s t x Hx Hk) as Hst1. pose proof (ok_refs _ _ _ _ Ok) as (Href & Href1). rewrite Hk in Href. cbn in Href.
  set (y := set_ref_count (ref_count x - 1) (set_kernel_stack false x)). set (ps := if 1 <? proc_refs q then <[process x := mk_proc (threads q) (threads_count q) (proc_refs q - 1)]> (procs s) else delete (process x) (procs s)).
  set (s1 := set_dead (dead_tasks s) None (set_procs ps (set_tasks (<[t := y]> (tasks s)) s))).
  assert (E : task_final_cleanup t s = Some (set_dead (dead_tasks s) (reaping s) (if 1 <? ref_count x then s1 else set_tasks (delete t (tasks s1)) s1))).
  { unfold task_final_cleanup, upd_task, sched_proc_release, upd_proc, task_release, s1, ps. rewrite Hx. cbn. rewrite Hpq. cbn. destruct (1 <? proc_refs q); cbn; unfold upd_task; cbn; repeat (rewrite lookup_insert_eq; cbn); rewrite insert_insert_eq, ?delete_insert_eq; destruct (1 <? ref_count x); done. }
  rewrite E. cbn [mbind option_bind]. eexists. split; [reflexivity|]. split; [|by destruct (1 <? ref_count x)].
  (* the task without its stack *)
  assert (Hstk : forall p, stacks p (<[t := y]> (tasks s)) = stacks p (tasks s) - (if process x =? p then 1 else 0)).
  { intros p. unfold stacks. rewrite (count_if_update _ _ _ x) by done. rewrite Hk. cbn. destruct (process x =? p); cbn; lia. }
  assert (Hprocs : forall p, (0 < stacks p (<[t := y]> (tasks s)) -> is_Some (ps !! p)) /\ forall q', ps !! p = Some q' -> stacks p (<[t := y]> (tasks s)) <= proc_refs q').
  { intros p. rewrite Hstk. pose proof (inv_procs _ I p) as (P1 & P2). cbn in P1, P2. unfold ps. destruct (Z.eqb_spec (process x) p) as [<-|Hne].
    - destruct (Z.ltb_spec 1 (proc_refs q)); [rewrite lookup_insert_eq; split; [by eexists|]; intros q' [= <-]; cbn; lia|rewrite lookup_delete_eq; split; [lia|done]].
    - rewrite Z.sub_0_r. destruct (1 <? proc_refs q); [rewrite lookup_insert_ne by done|rewrite lookup_delete_ne by done]; done. }
  assert (Hpend : NoDup (t :: dead_tasks s) /\ forall u, u ∈ dead_tasks s -> exists z, tasks s !! u = Some z /\ st z = TASK_STATUS_DEAD /\ kernel_stack z = true).
  { destruct (inv_pending _ I) as (P1 & P2). unfold pending in *. cbn in *. rewrite Er in *. split; [done|]. intros u Hu. apply P2. by right. }
  destruct Hpend as ((Hnt & Hnd)%NoDup_cons & Hpend).
  assert (Hbase : forall u z, <[t := y]> (tasks s) !! u = Some z -> (u = t -> 1 <= ref_count z) -> task_ok s1 h u z).
  { intros u z Hz Hone. destruct (decide (u = t)) as [->|Hne]; [rewrite lookup_insert_eq in Hz; injection Hz as <-|rewrite lookup_insert_ne in Hz by done; by pose proof (inv_task _ I u z Hz) as []; constructor].
    destruct Ok. constructor; cbn; try done; [intros _; split; [done|congruence]|]. split; [lia|by apply Hone]. }
  destruct I as [I1 I2 I3 I4 (I5 & I5a & I5b) I6 _ (I8 & I8a) I9 I10 _]. cbn in *.
  assert (Hsl : t ∉ sleeping s) by (intros Hu; apply (ok_sleep _ _ _ _ Ok) in Hu; congruence). assert (Hnc : t <> current s) by congruence.
  assert (Htl : forall n u, tasks_list s !! n = Some u -> u <> t) by (intros n u Hu ->; destruct (I10 n t Hu) as (z & Hz & _ & Hz2); congruence).
  destruct (Z.ltb_spec 1 (ref_count x)) as [Hlt|Hge].
  - assert (Hsome : forall u, is_Some (tasks s !! u) -> is_Some (<[t := y]> (tasks s) !! u)). { intros u Hu. destruct (decide (u = t)) as [->|]; [rewrite lookup_insert_eq; by eexists|by rewrite lookup_insert_ne]. }
    split; cbn; try done.
    + intros u Hu. by apply Hsome, I4.
    + split_and!; [done|by apply Hsome..].
    + intros u z Hz. apply (Hbase u z Hz). intros ->. rewrite lookup_insert_eq in Hz. injection Hz as <-. cbn. lia.
    + split; [done|]. intros u Hu. destruct (Hpend u Hu) as (z & Hz & ?). exists z. rewrite lookup_insert_ne; [done|]. by intros <-.
    + split; [done|]. intros u Hu. split; [by apply Hsome, I8a|by apply I8a].
    + intros u Hu. by apply Hsome, I9.
    + intros n u Hu. destruct (I10 n u Hu) as (z & Hz & ?). exists z. rewrite lookup_insert_ne; [done|]. intros <-. by apply (Htl n t Hu).
  - assert (Hth : t ∉ h) by (intros Hu; pose proof (refs_of_pos t h Hu); lia). rewrite delete_insert_eq.
    assert (Hother : forall u, is_Some (tasks s !! u) -> u <> t -> is_Some (delete t (tasks s) !! u)) by (intros u Hu Hne; by rewrite lookup_delete_ne).
    split; cbn; try done; try (rewrite delete_insert_eq).
    + intros u Hu. apply Hother; [by apply I4|]. intros ->. by destruct Hu.
    + split_and!; [done|by apply Hother..].
    + intros u z Hz. apply lookup_delete_Some in Hz as (Hne & Hz). assert (Hz' : <[t := y]> (tasks s) !! u = Some z) by (by rewrite lookup_insert_ne). pose proof (Hbase u z Hz' ltac:(congruence)) as []. by constructor.
    + split; [done|]. intros u Hu. destruct (Hpend u Hu) as (z & Hz & ?). exists z. rewrite lookup_delete_ne; [done|]. by intros <-.
    + split; [done|]. intros u Hu. split; [apply Hother; [by apply I8a|by intros ->]|by apply I8a].
    + intros u Hu. apply Hother; [by apply I9|by intros ->].
    + intros n u Hu. destruct (I10 n u Hu) as (z & Hz & ?). exists z. rewrite lookup_delete_ne; [done|]. intros <-. by apply (Htl n t Hu).
    + intros p. assert (Es : stacks p (delete t (tasks s)) = stacks p (<[t := y]> (tasks s))); [|rewrite Es; apply Hprocs]. unfold stacks. rewrite count_if_insert. done.
Qed.

(** *** Every step *)

(** A call of [yield] that is not refused. *)
Definition is_turn (a : action) (w : world) : bool :=
  match a, tasks (sd w) !! current (sd w) with Yield preempt _, Some x => negb (preempt && (0 <? preempt_count x)) | _, _ => false end.

Lemma prepare_interruptible_spec unhandled s h x : inv (mk_world s h) -> tasks s !! current s = Some x -> st x <> TASK_STATUS_DEAD -> current s <> idle ->
  exists s', block_prepare_interruptible unhandled s = Some s' /\ inv (mk_world s' h) /\ (exists l, queue s' = queue s ++ l) /\ current s' = current s.
Proof.
  intros I Hx Hd Hi. unfold block_prepare_interruptible. destruct (set_status_spec TASK_STATUS_INTERRUPTIBLE s h x I Hx Hd) as (s1 & E1 & I1 & C1 & Q1 & T1); [done|done|]. rewrite E1. cbn [mbind option_bind].
  destruct unhandled; [|exists s1; split_and!; try done; exists []; by rewrite app_nil_r]. destruct (unblock_spec (current s1) WAKEUP_SIGNAL s1 h I1) as (s2 & b & E2 & I2 & C2 & _ & (l & Q2) & _); [congruence|rewrite T1, C1, lookup_insert_eq; by eexists|].
  rewrite E2. cbn [mbind option_bind]. exists s2. split_and!; try done; [exists l; congruence|congruence].
Qed.

Lemma exec_spec a w : inv w -> allowed a w ->
  exists w', exec a w = Some w' /\ inv w' /\ exists l, if is_turn a w then queue (sd w') = tail (queue (sd w) ++ l) /\ current (sd w') = default idle (head (queue (sd w) ++ l)) else queue (sd w') = queue (sd w) ++ l /\ current (sd w') = current (sd w).
Proof.
  destruct w as [s h]. intros I (x & Hx & Ha). cbn in Hx. unfold is_turn. cbn [sd held] in *. rewrite Hx.
  assert (Hone : forall s', queue s' = queue s -> current s' = current s -> exists l, queue s' = queue s ++ l /\ current s' = current s) by (intros s' Hq Hc; exists []; by rewrite app_nil_r).
  destruct a; cbn [exec sd held] in *; unfold with_held.
  - destruct (preempt && (0 <? preempt_count x)) eqn:Ep; cbn [negb].
    + unfold yield. rewrite Hx. cbn [mbind option_bind]. rewrite Ep. cbn [mbind option_bind]. eexists. split; [reflexivity|]. split; [done|by apply Hone].
    + destruct (yield_spec preempt now s h x I Hx Ep) as (s1 & x1 & E & I1 & _ & C1 & _ & (l & Q1)). rewrite E. cbn [mbind option_bind]. eexists. split; [reflexivity|]. split; [done|].
      exists (l ++ (if stays preempt s1 then [current s1] else [])). cbn. unfold line. by rewrite Q1, app_assoc.
  - destruct Ha as (Hi & Ht). destruct (unblock_spec t reason s h I Hi Ht) as (s' & b & E & I' & C & _ & (l & Q) & _). rewrite E. cbn [mbind option_bind]. eexists. split; [reflexivity|]. split; [done|]. by exists l.
  - destruct (set_status_spec TASK_STATUS_BLOCKED s h x I Hx Ha) as (s' & E & I' & C & Q & _); [done|done|]. unfold block_prepare. rewrite E. cbn [mbind option_bind]. eexists. split; [reflexivity|]. split; [done|by apply Hone].
  - destruct Ha as (Hd & Hi). destruct (prepare_interruptible_spec unhandled s h x I Hx Hd Hi) as (s' & E & I' & (l & Q) & C). rewrite E. cbn [mbind option_bind]. eexists. split; [reflexivity|]. split; [done|]. by exists l.
  - destruct Ha as (Hd & Hi). destruct (set_status_spec TASK_STATUS_RUNNING s h x I Hx Hd) as (s' & E & I' & C & Q & _); [done|done|]. unfold block_cancel. rewrite E. cbn [mbind option_bind]. eexists. split; [reflexivity|]. split; [done|by apply Hone].
  - destruct Ha as (Hd & Hp). destruct (preempt_disable_spec s h x I Hx Hd Hp) as (E & I'). rewrite E. cbn [mbind option_bind]. eexists. split; [reflexivity|]. split; [done|by apply Hone].
  - destruct Ha as (Hd & Hp). destruct (preempt_enable_spec s h x I Hx Hd) as (s' & E & I' & Q & C). rewrite E. cbn [mbind option_bind]. eexists. split; [reflexivity|]. split; [done|by apply Hone].
  - destruct Ha as (Hd & Hi & Hf). destruct (add_timeout_spec time s h x I Hx Hd Hi Hf) as (s' & E & I' & Q & C). rewrite E. cbn [mbind option_bind]. eexists. split; [reflexivity|]. split; [done|by apply Hone].
  - destruct (remove_timeout_spec s h x I Hx Ha) as (s' & E & I' & Q & C). rewrite E. cbn [mbind option_bind]. eexists. split; [reflexivity|]. split; [done|by apply Hone].
  - destruct Ha as (_ & Hp & Ht). destruct (task_new_spec s h t stack p I Hp Ht) as (s' & r & E & I' & Q & C). rewrite E. cbn [mbind option_bind]. eexists. split; [reflexivity|]. split; [done|by apply Hone].
  - destruct (from_tid_spec s h n x I Hx) as (s' & r & E & I' & Q & C). rewrite E. cbn [mbind option_bind]. eexists. split; [reflexivity|]. split; [done|by apply Hone].
  - destruct (task_release_spec s h t I Ha) as (s' & E & I' & Q & C). rewrite E. cbn [mbind option_bind]. eexists. split; [reflexivity|]. split; [done|by apply Hone].
  - destruct Ha as (Hd & _ & _ & Hp). destruct (exit_begin_spec s h x I Hx Hd Hp) as (s' & E & I' & Q & C). rewrite E. cbn [mbind option_bind]. eexists. split; [reflexivity|]. split; [done|by apply Hone].
  - destruct Ha as (Hd & Hi & Hr & Hp & Hf). destruct (exit_end_spec s h x I Hx Hd Hi Hr Hp Hf) as (s' & E & I' & (l & Q) & C). rewrite E. cbn [mbind option_bind]. eexists. split; [reflexivity|]. split; [done|]. by exists l.
  - destruct Ha as (_ & Hr). destruct (take_spec s h I Hr) as (I' & Q & C). eexists. split; [reflexivity|]. split; [done|by apply Hone].
  - destruct (free_spec s h I Ha) as (s' & E & I' & Q & C & _). rewrite E. cbn [mbind option_bind]. eexists. split; [reflexivity|]. split; [done|by apply Hone].
Qed.

Lemma sched_step_inv w w' : inv w -> step w w' -> inv w'.
Proof. intros I Hs. revert I. destruct Hs as [a w0 w1 Ha E]. intros I. destruct (exec_spec a w0 I Ha) as (w2 & E2 & I2 & _). rewrite E in E2. by injection E2 as <-. Qed.

Lemma steps_inv w w' : rtc step w w' -> inv w -> inv w'.
Proof. induction 1 as [|w1 w2 w3 Hs _ IH]; [done|]. intros I. apply IH. by eapply sched_step_inv. Qed.

(** ** The start *)

(** The tasks that are there after the start: the idle task, the one that the kernel started as, and the reaper. *)
Definition init_task (boot kernel_proc boot_proc : Z) : option sched :=
  let s := mk_sched ∅ (<[kernel_proc := mk_proc [] 0 1]> {[boot_proc := mk_proc [] 0 1]}) [] boot 0 false false [] [] None ∅ 0 [] in
  '(s, _) ← task_new (Some idle) true kernel_proc s;
  '(s, _) ← task_new (Some boot) true boot_proc s;
  s ← upd_task (fun x => set_run_queue true (set_st TASK_STATUS_RUNNING x)) boot s;
  '(s, _) ← task_new (Some reaper) true kernel_proc s;
  '(s, _) ← unblock_task reaper s;
  Some s.

Lemma inv_start s boot kp bp fi fb fr : idle <> reaper -> boot <> idle -> boot <> reaper -> kp <> bp ->
  fi = fresh_task 0 kp -> fb = set_run_queue true (set_st TASK_STATUS_RUNNING (fresh_task 1 bp)) -> fr = fresh_task 2 kp ->
  tasks s = <[reaper := fr]> (<[boot := fb]> (<[idle := fi]> ∅)) -> tasks_list s = <[2 := reaper]> (<[1 := boot]> (<[0 := idle]> ∅)) -> tid_count s = 3 ->
  (exists q, procs s !! kp = Some q /\ proc_refs q = 3) -> (exists q, procs s !! bp = Some q /\ proc_refs q = 2) -> (forall p, p <> kp -> p <> bp -> procs s !! p = None) ->
  queue s = [] -> current s = boot -> lock s = false -> sleeping s = [] -> dead_tasks s = [] -> reaping s = None -> inv (mk_world s []).
Proof.
  intros Hir Hbi Hbr Hp -> -> -> Ht Htl Htc (qk & Hk & Hk2) (qb & Hb & Hb2) Hno Hq Hc Hl Hs Hd Hr.
  assert (Hcase : forall u z, tasks s !! u = Some z -> (u = reaper /\ z = fresh_task 2 kp) \/ (u = boot /\ z = set_run_queue true (set_st TASK_STATUS_RUNNING (fresh_task 1 bp))) \/ (u = idle /\ z = fresh_task 0 kp)).
  { intros u z. rewrite Ht, !lookup_insert_Some, lookup_empty. intros [(<- & <-)|(_ & [(<- & <-)|(_ & [(<- & <-)|(_ & ?)])])]; [tauto..|done]. }
  assert (Hreaper : tasks s !! reaper = Some (fresh_task 2 kp)) by (by rewrite Ht, lookup_insert_eq). assert (Hboot : tasks s !! boot = Some (set_run_queue true (set_st TASK_STATUS_RUNNING (fresh_task 1 bp)))) by (by rewrite Ht, lookup_insert_ne, lookup_insert_eq).
  assert (Hidle : tasks s !! idle = Some (fresh_task 0 kp)) by (rewrite Ht, lookup_insert_ne, lookup_insert_ne, lookup_insert_eq; done).
  assert (Hcount : forall p, stacks p (tasks s) = (if kp =? p then 2 else 0) + (if bp =? p then 1 else 0)).
  { intros p. unfold stacks. rewrite Ht, count_if_new by (by rewrite !lookup_insert_ne). rewrite count_if_new by (by rewrite lookup_insert_ne). rewrite count_if_new by done. cbn. destruct (kp =? p), (bp =? p); reflexivity. }
  split; unfold on, pending; cbn; rewrite ?Hq, ?Hc, ?Hs, ?Hd, ?Hr; cbn.
  - done.
  - apply NoDup_nil_2.
  - apply not_elem_of_nil.
  - intros u [?%not_elem_of_nil| ->]; [done|by eexists].
  - split_and!; [done|by eexists..].
  - intros u z Hz. pose proof (Hcase u z Hz) as Hcz. constructor; unfold on; rewrite ?Hq, ?Hc, ?Hs, ?Htc; destruct Hcz as [(-> & ->)|[(-> & ->)|(-> & ->)]]; cbn; try done; try lia; try (rewrite elem_of_nil; naive_solver).
  - split; [apply NoDup_nil_2|]. by intros u ?%not_elem_of_nil.
  - split; [apply NoDup_nil_2|]. by intros u ?%not_elem_of_nil.
  - by intros u ?%not_elem_of_nil.
  - intros n u. rewrite Htl, !lookup_insert_Some, lookup_empty. intros [(<- & <-)|(_ & [(<- & <-)|(_ & [(<- & <-)|(_ & ?)])])]; [by eexists..|done].
  - intros p. rewrite Hcount. destruct (Z.eqb_spec kp p) as [<-|Hn1]; [rewrite (proj2 (Z.eqb_neq bp kp)) by done; rewrite Hk; split; [by eexists|intros q [= <-]; lia]|].
    destruct (Z.eqb_spec bp p) as [<-|Hn2]; [rewrite Hb; split; [by eexists|intros q [= <-]; lia]|]. rewrite Hno by done. split; [lia|done].
Qed.

Lemma inv_boot boot kp bp : idle <> reaper -> boot <> idle -> boot <> reaper -> kp <> bp -> exists s, init_task boot kp bp = Some s /\ inv (mk_world s []).
Proof.
  intros Hir Hbi Hbr Hp. unfold init_task. set (s0 := mk_sched _ _ _ _ _ _ _ _ _ _ _ _ _). set (q1 := mk_proc [] 0 1).
  rewrite (task_new_eq idle kp q1 s0) by (apply lookup_insert_eq). cbn [mbind option_bind]. set (s1 := with_task idle kp q1 s0).
  assert (H1 : procs s1 !! bp = Some q1) by (unfold s1, with_task; cbn [procs]; rewrite lookup_insert_ne by done; unfold s0; cbn [procs]; rewrite lookup_insert_ne by done; apply lookup_singleton_eq).
  rewrite (task_new_eq boot bp q1 s1 H1). cbn [mbind option_bind]. set (s2 := with_task boot bp q1 s1). unfold upd_task. rewrite (lookup_insert_eq (tasks s1) boot _ : tasks s2 !! boot = _). cbn [mbind option_bind]. set (s3 := set_tasks _ s2).
  set (q2 := mk_proc [idle] 1 2). assert (H2 : procs s3 !! kp = Some q2) by (unfold s3, s2, with_task; cbn [procs set_tasks]; rewrite lookup_insert_ne by done; apply lookup_insert_eq).
  rewrite (task_new_eq reaper kp q2 s3 H2). cbn [mbind option_bind]. set (s4 := with_task reaper kp q2 s3).
  assert (I4 : inv (mk_world s4 [])).
  { eapply (inv_start s4 boot kp bp); try done.
    - unfold s4, with_task, s3, set_tasks, s2, with_task. cbn [tasks]. rewrite insert_insert_eq. reflexivity.
    - eexists. split; [apply lookup_insert_eq|done].
    - eexists. unfold s4, with_task at 1. cbn [procs]. rewrite lookup_insert_ne by done. split; [apply lookup_insert_eq|done].
    - intros p H3 H4. unfold s4, with_task at 1. cbn [procs]. rewrite lookup_insert_ne by done. unfold s3, s2, with_task. cbn [procs set_tasks]. rewrite lookup_insert_ne by done. unfold s1, with_task. cbn [procs]. rewrite lookup_insert_ne by done. unfold s0. cbn [procs]. rewrite lookup_insert_ne by done. by apply lookup_singleton_ne. }
  destruct (inv_fixed _ I4) as (Hne & _ & Hre). destruct (unblock_spec reaper WAKEUP_OTHER s4 [] I4 (not_eq_sym Hne) Hre) as (s5 & b & E & I5 & _). unfold unblock_task. rewrite E. cbn [mbind option_bind]. by eexists.
Qed.

(** ** The theorems *)

(** C7: in every run after the start whose steps are [allowed] (a dead task only gives up the processor, the idle task
    only blocks, preemption is enabled as often as it was disabled, a reference is given back by who has it, and a task
    exits only when it is off the list of timeouts: [exit_while_sleeping] shows what happens otherwise), in any order,
    the scheduler neither takes its lock twice nor uses memory that was freed.  Every task that is ready to run is the
    one that runs or is on the queue, once; these tasks have their stack and a reference, so that the reaper never frees
    a task under them; and a task that has died is off the queue for good. *)
Theorem scheduler_safe boot kp bp s w : idle <> reaper -> boot <> idle -> boot <> reaper -> kp <> bp -> init_task boot kp bp = Some s -> rtc step (mk_world s []) w ->
  (forall a, allowed a w -> is_Some (exec a w)) /\
  NoDup (current (sd w) :: queue (sd w)) /\
  (forall t x, tasks (sd w) !! t = Some x -> st x = TASK_STATUS_RUNNING -> t = current (sd w) \/ t ∈ queue (sd w)) /\
  (forall t, t = current (sd w) \/ t ∈ queue (sd w) -> exists x, tasks (sd w) !! t = Some x /\ kernel_stack x = true /\ 1 <= ref_count x /\ (st x = TASK_STATUS_DEAD -> t = current (sd w))) /\
  (forall t, t ∈ pending (sd w) -> exists x, tasks (sd w) !! t = Some x /\ st x = TASK_STATUS_DEAD /\ (t <> current (sd w) -> run_queue x = false)).
Proof.
  intros Hir Hbi Hbr Hp E Hs. destruct (inv_boot boot kp bp Hir Hbi Hbr Hp) as (s0 & E0 & I0). rewrite E in E0. injection E0 as <-. pose proof (steps_inv _ _ Hs I0) as I. clear I0 Hs E. split_and!.
  - intros a Ha. destruct (exec_spec a w I Ha) as (w' & E & _). by eexists.
  - apply NoDup_cons. split; [apply (inv_current _ I)|apply (inv_nodup _ I)].
  - intros t x Hx Hr. destruct (ok_running _ _ _ _ (inv_task _ I t x Hx) Hr); auto.
  - intros t Ht. assert (Hon : on (sd w) t) by (unfold on; tauto). destruct (inv_on _ I t Hon) as (x & Hx). pose proof (inv_task _ I t x Hx) as []. exists x. split; [done|].
    assert (Hdead : st x = TASK_STATUS_DEAD -> t = current (sd w)) by (intros Hd; destruct (ok_dead0 Hd) as (Hq & _); destruct Ht; [done|by destruct Hq]). split_and!; [|apply ok_refs0|done]. destruct (kernel_stack x); [done|]. destruct (ok_stack0 eq_refl) as (Hd & []). by apply Hdead.
  - intros t Ht. destruct (proj2 (inv_pending _ I) t Ht) as (x & Hx & Hd & _). exists x. split_and!; [done|done|]. intros Hc. pose proof (inv_task _ I t x Hx) as []. destruct (ok_dead0 Hd) as (Hq & _). destruct (run_queue x) eqn:Er; [|done]. exfalso.
    destruct (ok_on0) as (Ho & _); [intros ->; destruct (ok_idle0 eq_refl); congruence|]. by destruct (Ho eq_refl).
Qed.

(** A run with the number of calls of [yield] in it that were not refused. *)
Inductive path : world -> nat -> world -> Prop :=
  | path_refl w : path w 0 w
  | path_step a w w1 n w2 : allowed a w -> exec a w = Some w1 -> path w1 n w2 -> path w ((if is_turn a w then 1 else 0) + n) w2.

Lemma path_runs w n w' : path w n w' -> inv w -> forall k t, queue (sd w) !! k = Some t -> (k < n)%nat ->
  exists n1 w1 n2, path w n1 w1 /\ path w1 n2 w' /\ (n1 + n2 = n)%nat /\ (n1 <= S k)%nat /\ current (sd w1) = t.
Proof.
  induction 1 as [w|a w w1 n w2 Ha E Hp IH]; intros I k t Hk Hlt; [lia|]. destruct (exec_spec a w I Ha) as (w1' & E' & I1 & l & Hshape). rewrite E in E'. injection E' as <-.
  assert (Hl : (queue (sd w) ++ l) !! k = Some t) by (by apply lookup_app_l_Some). destruct (is_turn a w) eqn:Et; destruct Hshape as (Hq & Hc).
  - destruct k as [|k].
    + exists 1%nat, w1, n. split_and!; [|done|lia|lia|].
      * pose proof (path_step a w w1 0 w1 Ha E (path_refl w1)) as Hp1. by rewrite Et in Hp1.
      * rewrite Hc. destruct (queue (sd w) ++ l); [done|]. by injection Hl.
    + destruct (IH I1 k t) as (n1 & w3 & n2 & P1 & P2 & Hn & Hle & Hcur); [rewrite Hq; by destruct (queue (sd w) ++ l)|lia|]. exists (S n1), w3, n2. split_and!; [|done|lia|lia|done].
      pose proof (path_step a w w1 n1 w3 Ha E P1) as Hp1. by rewrite Et in Hp1.
  - destruct (IH I1 k t) as (n1 & w3 & n2 & P1 & P2 & Hn & Hle & Hcur); [by rewrite Hq|lia|]. exists n1, w3, n2. split_and!; [|done|lia|lia|done]. pose proof (path_step a w w1 n1 w3 Ha E P1) as Hp1. by rewrite Et in Hp1.
Qed.

(** C8: no task starves.  Once a task is the [k]-th of the queue, counted from 0, it has run when the processor was given
    up [k + 1] times, whatever else happened in between. *)
Theorem queued_task_runs boot kp bp s w n w' k t : idle <> reaper -> boot <> idle -> boot <> reaper -> kp <> bp -> init_task boot kp bp = Some s -> rtc step (mk_world s []) w ->
  path w n w' -> queue (sd w) !! k = Some t -> (k < n)%nat ->
  exists n1 w1 n2, path w n1 w1 /\ path w1 n2 w' /\ (n1 + n2 = n)%nat /\ (n1 <= S k)%nat /\ current (sd w1) = t.
Proof.
  intros Hir Hbi Hbr Hp E Hs. destruct (inv_boot boot kp bp Hir Hbi Hbr Hp) as (s0 & E0 & I0). rewrite E in E0. injection E0 as <-. intros Hpath. by apply (path_runs w n w' Hpath (steps_inv _ _ Hs I0)).
Qed.

(** The reaper never spins on a task that is still on the queue: a round frees the task that it took. *)
Theorem reaper_makes_progress w : inv w -> current (sd w) = reaper -> exists w', exec Free w = Some w' /\ inv w' /\ reaping (sd w') = None.
Proof. destruct w as [s h]. intros I Hc. destruct (free_spec s h I Hc) as (s' & E & I' & _ & _ & Hr). exists (mk_world s' h). cbn [exec sd held]. rewrite E. done. Qed.

(** A task that blocks and is woken is told why: the reason that [block_task] reads is the one of the last wake-up. *)
Theorem wakeup_reason_fresh t reason s h x s' : inv (mk_world s h) -> tasks s !! t = Some x -> unblock_task_reason t reason s = Some (s', true) -> exists x', tasks s' !! t = Some x' /\ st x' = TASK_STATUS_RUNNING /\ wakeup_reason x' = reason /\ on s' t.
Proof.
  intros I Hx. rewrite (unblock_eq t reason x s (inv_lock _ I) Hx). destruct (refuses reason (st x)) eqn:Er; intros [= <-]. exists (awake reason x). cbn. rewrite lookup_insert_eq. split_and!; try done.
  destruct (decide (t = idle)) as [->|Hi].
  - pose proof (inv_task _ I idle x Hx) as []. destruct (ok_idle0 eq_refl) as (_ & _ & Ho). unfold on, woken. cbn. rewrite elem_of_app. destruct (run_queue x) eqn:E; [destruct (Ho eq_refl); tauto|]. left. right. left.
  - pose proof (inv_woken t reason x s h I Hx Hi Er) as I'. eapply ok_running; [apply (inv_task _ I' t (awake reason x)); cbn; apply lookup_insert_eq|done].
Qed.

(** ** Where the code does not do what it means to *)

(** Unblocking a task that is on no queue takes no lock, puts the task on the queue without it, and releases the lock
    that somebody else may hold. *)
Theorem unblock_releases_foreign_lock t reason s x : tasks s !! t = Some x -> run_queue x = false -> refuses reason (st x) = false -> lock s = true ->
  exists s', unblock_task_reason t reason s = Some (s', true) /\ lock s' = false /\ queue s' = queue s ++ [t].
Proof.
  intros Hx Hq Hr Hl. unfold unblock_task_reason, run_queue_acquire_lock. rewrite Hx. cbn [mbind option_bind]. rewrite Hq. cbn [mbind option_bind]. rewrite Hx. cbn [mbind option_bind]. unfold refuses in Hr. rewrite Hr, Hq.
  unfold upd_task at 1. rewrite Hx. cbn [mbind option_bind]. unfold run_queue_push_task, upd_task. cbn [tasks set_queue set_tasks]. rewrite lookup_insert_eq. cbn [mbind option_bind]. unfold run_queue_release_lock. cbn [tasks set_tasks]. rewrite lookup_insert_eq. cbn [mbind option_bind]. eexists. split; [reflexivity|]. done.
Qed.

(** A preempted idle task is put on the queue like any other, and takes its turn although others are ready. *)
Theorem idle_takes_turns now s h x : inv (mk_world s h) -> current s = idle -> tasks s !! idle = Some x -> preempt_count x = 0 -> queue s <> [] -> exists s', yield true now s = Some s' /\ idle ∈ queue s'.
Proof.
  intros I Hc Hx Hp Hq. rewrite <- Hc in Hx. destruct (yield_spec true now s h x I Hx) as (s1 & x1 & E & _ & I1 & C1 & Hx1 & (l & Q1)); [by rewrite Hp|]. eexists. split; [exact E|]. cbn. unfold line, stays. cbn.
  rewrite Q1, C1, Hc. destruct (queue s) as [|u q]; [done|]. cbn. rewrite !elem_of_app. right. left.
Qed.

End steps.


(** ** A run *)

Module Example.
#[local] Instance fixed : Fixed := { idle := 1; reaper := 3 }.

Definition booted : world := mk_world (default (mk_sched ∅ ∅ [] 0 0 false false [] [] None ∅ 0 []) (init_task 2 100 200)) [].
Definition now : timespec := mk_timespec 5 0.

Lemma booted_eq : init_task 2 100 200 = Some (sd booted).
Proof. vm_compute. reflexivity. Qed.

Definition after_yield : world := default booted (exec (Yield false now) booted).

Lemma first_yield : exec (Yield false now) booted = Some after_yield /\ allowed (Yield false now) booted /\ is_turn (Yield false now) booted = true.
Proof. split_and!; [vm_compute; reflexivity| |vm_compute; reflexivity]. eexists. split; [vm_compute; reflexivity|exact I]. Qed.

Definition run (l : list action) (w : world) : option world := foldl (fun w a => w ← w; exec a w) (Some w) l.
End Example.

(** [allowed] does not let a task exit while it is on the list of timeouts, which [block_task_timeout] can leave it on:
    the list then leads to the task after it was freed, and the timeout uses it. *)
Theorem exit_while_sleeping :
  let before := [Add_timeout (mk_timespec 9 0); Exit_begin; Exit_end; Yield false (mk_timespec 5 0); Take; Free] in
  (exists w, Example.run before Example.booted = Some w /\ sleeping (sd w) = [2] /\ tasks (sd w) !! 2 = None) /\
  Example.run (before ++ [Yield false (mk_timespec 10 0)]) Example.booted = None.
Proof. split; [eexists; split_and!; [vm_compute; reflexivity..]|vm_compute; reflexivity]. Qed.

Lemma scheduler_safe_witness : rtc (@step Example.fixed) Example.booted Example.after_yield /\ NoDup (current (sd Example.after_yield) :: queue (sd Example.after_yield)) /\ current (sd Example.after_yield) = 3.
Proof.
  destruct Example.first_yield as (E & A & _). assert (Hs : rtc (@step Example.fixed) Example.booted Example.after_yield) by (eapply rtc_once, step_action; eassumption).
  split; [exact Hs|]. destruct (@scheduler_safe Example.fixed 2 100 200 (sd Example.booted) Example.after_yield) as (_ & H & _); [discriminate|discriminate|discriminate|discriminate|exact Example.booted_eq|exact Hs|]. split; [exact H|vm_compute; reflexivity].
Defined.

Lemma queued_task_runs_witness : exists n1 w1 n2, @path Example.fixed Example.booted n1 w1 /\ @path Example.fixed w1 n2 Example.after_yield /\ (n1 + n2 = 1)%nat /\ (n1 <= 1)%nat /\ current (sd w1) = 3.
Proof.
  destruct Example.first_yield as (E & A & T).
  apply (@queued_task_runs Example.fixed 2 100 200 (sd Example.booted) Example.booted 1 Example.after_yield 0 3); [discriminate|discriminate|discriminate|discriminate|exact Example.booted_eq|apply rtc_refl| |vm_compute; reflexivity|lia].
  pose proof (@path_step Example.fixed _ _ _ 0 _ A E (path_refl _)) as P. rewrite T in P. exact P.
Defined.

End Sched.
