(* ===== verification/Socket.v ===== *)
(** Sockets (kernel/fs/socket.c) and the unix domain (kernel/fs/unix.c).

    A call runs under the lock of its socket and is one step; the lock is given up where the call sleeps, and for the
    allocation of a packet, which is taken not to sleep.  A call of
    [recvmsg] that has to wait stops with what it has received and what is left to do, and goes on from there;
    [connect] is split in three: it enters the queue of the server, goes to sleep, and looks at the outcome when it is
    woken.  User memory is what a message holds or how many bytes of a buffer can be written.  A socket is an address;
    allocation gives an address or nothing.  The file system is a map from paths to nodes.  [None] is a failed
    assertion, a null pointer that is used or an access to a socket that was freed. *)

From S2P Require Import Prelude.

Module Socket.

(** ** The state *)

Inductive sock_type := SOCK_STREAM | SOCK_DGRAM | SOCK_RAW | SOCK_SEQPACKET.
Inductive sock_state := SOCKET_STATE_INIT | SOCKET_STATE_LISTEN | SOCKET_STATE_CONNECTED | SOCKET_STATE_DISCONNECTED.

#[global] Instance sock_type_eq_dec : EqDecision sock_type.
Proof. solve_decision. Defined.
#[global] Instance sock_state_eq_dec : EqDecision sock_state.
Proof. solve_decision. Defined.

(** A packet holds bytes, of which the first [read] were read, or a socket that wants to connect. *)
Inductive packet := Bytes (data : list Z) (read : Z) | Connection (peer : Z).

(** Where a call of [connect] is. *)
Inductive connecting := Queued | Asleep | Woken.

Record socket := mk_socket {
  type : sock_type;
  state : sock_state;
  nonblock : bool;
  recived : list packet;
  connected : option Z;
  bound : option Z;
  connect_pc : option connecting;
}.
Definition set_state v x := mk_socket (type x) v (nonblock x) (recived x) (connected x) (bound x) (connect_pc x).
Definition set_recived v x := mk_socket (type x) (state x) (nonblock x) v (connected x) (bound x) (connect_pc x).
Definition set_connected v x := mk_socket (type x) (state x) (nonblock x) (recived x) v (bound x) (connect_pc x).
Definition set_bound v x := mk_socket (type x) (state x) (nonblock x) (recived x) (connected x) v (connect_pc x).
Definition set_connect_pc v x := mk_socket (type x) (state x) (nonblock x) (recived x) (connected x) (bound x) v.

(** A node is a socket or not, with its device number. *)
Record net := mk_net { socks : gmap Z socket; unix_binding : gmap Z Z; files : gmap Z (bool * Z) }.
Implicit Types (n : net).
Definition set_socks v n := mk_net v (unix_binding n) (files n).
Definition upd (f : socket -> socket) a n : option net := x ← socks n !! a; Some (set_socks (<[a := f x]> (socks n)) n).

(** ** Packets *)

(** Everybody who sleeps on the socket wakes up. *)
Definition wakeup (x : socket) : socket := match connect_pc x with Some Asleep => set_connect_pc (Some Woken) x | _ => x end.

(** [size] bytes of user memory, or memory that cannot be read. *)
Definition socket_queue_recived_packet (a : Z) (data : option (list Z)) (memory : bool) n : option (net * res unit) :=
  if negb memory then _ ← socks n !! a; Some (n, Err ENOMEM)
  else
    match data with
    | None => _ ← socks n !! a; Some (n, Err EFAULT)
    | Some bs => n ← upd (fun x => wakeup (set_recived (recived x ++ [Bytes bs 0]) x)) a n; Some (n, Ok tt)
    end.

(** Whether there is something, or why not; [Ok false] is a task that sleeps. *)
Definition socket_wait (x : socket) : res bool :=
  match recived x with
  | _ :: _ => Ok true
  | [] =>
      if nonblock x then Err EAGAIN
      else if bool_decide (state x = SOCKET_STATE_DISCONNECTED) then Err ENOTCONN else Ok false
  end.

(** The loop over the packets: what is left of them, what was read, and whether the buffer could not be written.
    [writable] bytes of the buffer can be. *)
Fixpoint dequeue_loop (fuel : nat) (keep_bounds : bool) (size writable : Z) (l : list packet) : option (list packet * list Z * bool) :=
  match fuel with
  | O => None
  | S fuel =>
      if size <=? 0 then Some (l, [], false)
      else
        match l with
        | [] => Some (l, [], false)
        | Connection _ :: _ => None
        | Bytes data read :: l' =>
            let available := lenZ data - read in
            let to_read := if available <? size then available else size in
            if writable <? to_read then Some (l, [], true)
            else
              let bs := sliceZ read to_read data in
              let read := read + to_read in
              let rest := if lenZ data <=? read then l' else Bytes data read :: l' in
              if keep_bounds then Some (rest, bs, false)
              else '(l, bs', fault) ← dequeue_loop fuel keep_bounds (size - to_read) (writable - to_read) rest; Some (l, bs ++ bs', fault)
        end
  end.

(** [Ok None] is a task that sleeps. *)
Definition socket_dequeue_recived_packet (a : Z) (size writable : Z) (keep_bounds : bool) n : option (net * res (option (list Z))) :=
  x ← socks n !! a;
  match socket_wait x with
  | Err e => Some (n, Err e)
  | Ok false => Some (n, Ok None)
  | Ok true =>
      '(l, bs, fault) ← dequeue_loop (S (S (length (recived x)))) keep_bounds size writable (recived x);
      n ← upd (set_recived l) a n;
      Some (n, if fault && (lenZ bs =? 0) then Err EFAULT else Ok (Some bs))
  end.

Definition socket_queue_connection (a peer : Z) (memory : bool) n : option (net * res unit) :=
  if negb memory then _ ← socks n !! a; Some (n, Err ENOMEM)
  else n ← upd (fun x => wakeup (set_recived (recived x ++ [Connection peer]) x)) a n; Some (n, Ok tt).

Definition socket_dequeue_connection (a : Z) n : option (net * res (option Z)) :=
  x ← socks n !! a;
  kassert (bool_decide (state x = SOCKET_STATE_LISTEN) || bool_decide (state x = SOCKET_STATE_DISCONNECTED));;
  match socket_wait x with
  | Err e => Some (n, Err e)
  | Ok false => Some (n, Ok None)
  | Ok true =>
      match recived x with
      | Connection peer :: l => n ← upd (set_recived l) a n; Some (n, Ok (Some peer))
      | _ => None
      end
  end.

Definition socket_set_state (a : Z) (v : sock_state) n : option net := upd (fun x => wakeup (set_state v x)) a n.

(** ** The unix domain *)

Definition unix_pair (a b : Z) n : option net := n ← upd (set_connected (Some b)) a n; upd (set_connected (Some a)) b n.

(** [number] is what [xarray_allocate] gives; [failure] is an error of the file system other than that the name exists. *)
Definition unix_bind (a : Z) (valid : bool) (path number : Z) (failure : option errno) n : option (net * res unit) :=
  if negb valid then Some (n, Err EINVAL)
  else
    let n := mk_net (socks n) (<[number := a]> (unix_binding n)) (files n) in
    match failure, files n !! path with
    | Some e, _ => Some (n, Err e)
    | None, Some _ => Some (n, Err EADDRINUSE)
    | None, None => n ← upd (set_bound (Some number)) a n; Some (mk_net (socks n) (unix_binding n) (<[path := (true, number)]> (files n)), Ok tt)
    end.

(** Up to where the lock is given up; [Ok] is that the socket is in the queue of the server. *)
Definition unix_connect_begin (a : Z) (valid : bool) (path : Z) (memory : bool) n : option (net * res unit) :=
  if negb valid then Some (n, Err EINVAL)
  else
    match files n !! path with
    | None => Some (n, Err ECONNREFUSED)
    | Some (is_sock, rdev) =>
        if negb is_sock then Some (n, Err ECONNREFUSED)
        else
          server ← unix_binding n !! rdev;
          y ← socks n !! server;
          x ← socks n !! a;
          if negb (bool_decide (state y = SOCKET_STATE_LISTEN)) || negb (bool_decide (type y = type x)) then Some (n, Err ECONNREFUSED)
          else
            '(n, r) ← socket_queue_connection server a memory n;
            match r with Err e => Some (n, Err e) | Ok _ => n ← upd (set_connect_pc (Some Queued)) a n; Some (n, Ok tt) end
    end.

(** The socket is put on its own sleep queue. *)
Definition unix_connect_sleep (a : Z) n : option net := upd (set_connect_pc (Some Asleep)) a n.

Definition unix_connect_end (a : Z) (interrupted : bool) n : option (net * res unit) :=
  n ← upd (set_connect_pc None) a n;
  x ← socks n !! a;
  if interrupted then Some (n, Err EINTR)
  else match connected x with Some _ => Some (n, Ok tt) | None => Some (n, Err ECONNREFUSED) end.

Definition unix_create (new : option Z) (t : sock_type) n : net * option Z :=
  match new with
  | None => (n, None)
  | Some b => (set_socks (<[b := mk_socket t SOCKET_STATE_INIT false [] None None None]> (socks n)) n, Some b)
  end.

(** [Ok None] is a task that sleeps. *)
Definition unix_accept (a : Z) (new : option Z) n : option (net * res (option Z)) :=
  x ← socks n !! a;
  '(n, r) ← socket_dequeue_connection a n;
  match r with
  | Err e => Some (n, Err e)
  | Ok None => Some (n, Ok None)
  | Ok (Some peer) =>
      let '(n, b) := unix_create new (type x) n in
      b ← b;
      n ← unix_pair b peer n;
      n ← upd wakeup peer n;
      Some (n, Ok (Some b))
  end.

(** What a call of [recvmsg] ends with: bytes or an error, or, when it sleeps, what it has and the buffers left. *)
Inductive outcome := Done (r : res (list Z)) | Sleeps (got : list Z) (left : list (Z * Z)).

Fixpoint recv_loop (a : Z) (t : sock_type) (got : list Z) (iov : list (Z * Z)) n : option (net * outcome) :=
  match iov with
  | [] => Some (n, Done (Ok got))
  | (size, writable) :: iov' =>
      '(n, r) ← socket_dequeue_recived_packet a size writable (bool_decide (t = SOCK_SEQPACKET)) n;
      match r with
      | Err e => Some (n, Done (if 0 <? lenZ got then Ok got else Err e))
      | Ok None => Some (n, Sleeps got iov)
      | Ok (Some bs) => recv_loop a t (got ++ bs) iov' n
      end
  end.

Definition unix_recvmsg (a : Z) (iov : list (Z * Z)) n : option (net * outcome) :=
  x ← socks n !! a;
  if bool_decide (type x = SOCK_DGRAM) || bool_decide (type x = SOCK_RAW) then Some (n, Done (Err ENOSYS))
  else if bool_decide (state x = SOCKET_STATE_DISCONNECTED) && bool_decide (recived x = []) then Some (n, Done (Err ENOTCONN))
  else recv_loop a (type x) [] iov n.

(** The bytes that were delivered come with the result: an error hides them. *)
Fixpoint send_loop (a : Z) (total : Z) (iov : list (option (list Z) * bool)) n : option (net * res Z) :=
  match iov with
  | [] => Some (n, Ok total)
  | (data, memory) :: iov =>
      x ← socks n !! a;
      peer ← connected x;
      '(n, r) ← socket_queue_recived_packet peer data memory n;
      match r with Err e => Some (n, Err e) | Ok _ => send_loop a (total + match data with Some bs => lenZ bs | None => 0 end) iov n end
  end.

Definition unix_sendmsg (a : Z) (iov : list (option (list Z) * bool)) n : option (net * res Z) :=
  x ← socks n !! a;
  if bool_decide (type x = SOCK_DGRAM) || bool_decide (type x = SOCK_RAW) then Some (n, Err ENOSYS) else send_loop a 0 iov n.

Definition unix_close (a : Z) n : option net :=
  x ← socks n !! a;
  n ← upd (set_connected None) a n;
  let n := match bound x with Some k => mk_net (socks n) (delete k (unix_binding n)) (files n) | None => n end in
  match connected x with
  | None => Some n
  | Some peer => n ← socket_set_state peer SOCKET_STATE_DISCONNECTED n; upd (set_connected None) peer n
  end.

(** ** Sockets *)

Definition is_stream (t : sock_type) : bool := bool_decide (t = SOCK_STREAM) || bool_decide (t = SOCK_SEQPACKET).

Definition socket_create (new : option Z) (t : sock_type) (nonblocking : bool) n : option (net * option Z) :=
  let '(n, b) := unix_create new t n in
  match b with
  | None => Some (n, None)
  | Some b => n ← upd (fun x => mk_socket (type x) SOCKET_STATE_INIT nonblocking [] (connected x) (bound x) (connect_pc x)) b n; Some (n, Some b)
  end.

Definition socket_sendmsg (a : Z) (named : bool) (iov : list (option (list Z) * bool)) n : option (net * res Z) :=
  x ← socks n !! a;
  if bool_decide (state x = SOCKET_STATE_CONNECTED) then if named then Some (n, Err EISCONN) else unix_sendmsg a iov n
  else if is_stream (type x) then Some (n, Err EINVAL)
  else if negb named then Some (n, Err EDESTADDRREQ)
  else unix_sendmsg a iov n.

Definition socket_recvmsg (a : Z) (iov : list (Z * Z)) n : option (net * outcome) :=
  x ← socks n !! a;
  if is_stream (type x) && negb (bool_decide (state x = SOCKET_STATE_CONNECTED)) && negb (bool_decide (state x = SOCKET_STATE_DISCONNECTED)) then Some (n, Done (Err EINVAL))
  else unix_recvmsg a iov n.

(** A call that slept goes on when there is something or the socket was disconnected. *)
Definition socket_recv_again (a : Z) (got : list Z) (left : list (Z * Z)) n : option (net * outcome) :=
  x ← socks n !! a; recv_loop a (type x) got left n.

Definition socket_accept (a : Z) (new : option Z) n : option (net * res (option Z)) :=
  x ← socks n !! a;
  if negb (is_stream (type x)) then Some (n, Err EOPNOTSUPP)
  else if negb (bool_decide (state x = SOCKET_STATE_LISTEN)) then Some (n, Err EINVAL)
  else
    '(n, r) ← unix_accept a new n;
    match r with
    | Ok (Some b) => n ← upd (fun y => mk_socket (type y) SOCKET_STATE_CONNECTED (nonblock x) [] (connected y) (bound y) (connect_pc y)) b n; Some (n, Ok (Some b))
    | r => Some (n, r)
    end.

Definition socket_bind (a : Z) (family valid : bool) (path number : Z) (failure : option errno) n : option (net * res unit) :=
  x ← socks n !! a;
  if negb family then Some (n, Err EINVAL)
  else if negb (bool_decide (state x = SOCKET_STATE_INIT)) then Some (n, Err EINVAL)
  else unix_bind a valid path number failure n.

Definition socket_connect_begin (a : Z) (family valid : bool) (path : Z) (memory : bool) n : option (net * res unit) :=
  x ← socks n !! a;
  if negb family then Some (n, Err EINVAL)
  else if negb (bool_decide (state x = SOCKET_STATE_INIT)) then Some (n, Err EINVAL)
  else unix_connect_begin a valid path memory n.

Definition socket_connect_end (a : Z) (interrupted : bool) n : option (net * res unit) :=
  '(n, r) ← unix_connect_end a interrupted n;
  match r with Ok _ => n ← socket_set_state a SOCKET_STATE_CONNECTED n; Some (n, Ok tt) | Err e => Some (n, Err e) end.

Definition socket_listen (a : Z) n : option (net * res unit) :=
  x ← socks n !! a;
  if negb (is_stream (type x)) then Some (n, Err EOPNOTSUPP)
  else if negb (bool_decide (state x = SOCKET_STATE_INIT)) then Some (n, Err EINVAL)
  else n ← upd (set_state SOCKET_STATE_LISTEN) a n; Some (n, Ok tt).

(** The last close: the socket is freed after the domain has closed it. *)
Definition socket_close (a : Z) n : option net := n ← unix_close a n; Some (set_socks (delete a (socks n)) n).

(** [POLLIN], [POLLOUT] and [POLLHUP]. *)
Definition unix_poll_get (x : socket) : bool * bool * bool :=
  match state x with
  | SOCKET_STATE_DISCONNECTED => (false, false, true)
  | SOCKET_STATE_CONNECTED | SOCKET_STATE_LISTEN => (negb (bool_decide (recived x = [])), true, false)
  | SOCKET_STATE_INIT => (false, false, false)
  end.

(** ** Streams *)

(** The bytes that are left in the packets. *)
Definition left_in (p : packet) : list Z := match p with Bytes data read => dropZ read data | Connection _ => [] end.
Definition unread (l : list packet) : list Z := concat (map left_in l).
Definition packet_ok (p : packet) : Prop := match p with Bytes data read => 0 <= read <= lenZ data | Connection _ => True end.
Definition is_bytes (p : packet) : Prop := match p with Bytes _ _ => True | Connection _ => False end.

Lemma unread_app l1 l2 : unread (l1 ++ l2) = unread l1 ++ unread l2.
Proof. unfold unread. by rewrite map_app, concat_app. Qed.

Lemma slice_drop {A} read m (data : list A) : 0 <= read -> 0 <= m -> dropZ read data = sliceZ read m data ++ dropZ (read + m) data.
Proof. intros. unfold sliceZ, takeZ, dropZ. rewrite Z2Nat.inj_add by done. rewrite <- drop_drop. by rewrite take_drop. Qed.

Lemma dropZ_past {A} k (l : list A) : lenZ l <= k -> dropZ k l = [].
Proof. intros. unfold dropZ, lenZ in *. apply drop_ge. lia. Qed.

(** The part of a packet that a round takes, and what is left of the queue. *)
Lemma take_step data read l m : 0 <= read <= lenZ data -> 0 <= m <= lenZ data - read ->
  let rest := if lenZ data <=? read + m then l else Bytes data (read + m) :: l in
  unread (Bytes data read :: l) = sliceZ read m data ++ unread rest /\ lenZ (sliceZ read m data) = m /\ (Forall packet_ok l -> Forall packet_ok rest) /\ (Forall is_bytes l -> Forall is_bytes rest).
Proof.
  intros Hr Hm rest. split_and!.
  - unfold unread at 1. cbn [map concat left_in]. fold (unread l). rewrite (slice_drop read m data) by lia. rewrite <- app_assoc. f_equal. unfold rest. destruct (Z.leb_spec (lenZ data) (read + m)); [by rewrite dropZ_past|done].
  - apply lenZ_sliceZ; lia.
  - intros Hl. unfold rest. destruct (_ <=? _); [done|]. constructor; [cbn; lia|done].
  - intros Hl. unfold rest. destruct (_ <=? _); [done|]. by constructor.
Qed.

(** Whatever is read is the front of the stream, and with the rest it is the stream. *)
Lemma dequeue_loop_spec keep : forall fuel size writable l, (length l + 2 <= fuel)%nat \/ (size <= 0 /\ (1 <= fuel)%nat) -> Forall is_bytes l -> Forall packet_ok l ->
  exists l' bs fault, dequeue_loop fuel keep size writable l = Some (l', bs, fault) /\ unread l = bs ++ unread l' /\ Forall is_bytes l' /\ Forall packet_ok l' /\ lenZ bs <= Z.max 0 size /\
    (fault = true -> writable < size) /\ (fault = false -> keep = false -> bs = takeZ size (unread l)) /\
    (fault = false -> keep = true -> 0 < size -> match l with Bytes data read :: _ => bs = takeZ size (dropZ read data) | _ => bs = [] end).
Proof.
  induction fuel as [|fuel IH]; intros size writable l Hf Hb Hok; [lia|]. cbn [dequeue_loop]. destruct (Z.leb_spec size 0) as [Hs|Hs].
  { exists l, [], false. split_and!; try done; intros; try (unfold lenZ; cbn [length]; lia). unfold takeZ. by replace (Z.to_nat size) with O by lia. }
  destruct l as [|[data read|p] l]; [exists [], [], false; split_and!; try done; [unfold lenZ; cbn [length]; lia|..]; intros; first [done|unfold takeZ, unread; cbn [map concat]; by rewrite take_nil]| |by apply Forall_cons in Hb as (? & _)].
  apply Forall_cons in Hb as (_ & Hb). apply Forall_cons in Hok as (Hp & Hok). cbn in Hp. set (m := if lenZ data - read <? size then lenZ data - read else size).
  assert (Hm : 0 <= m <= lenZ data - read /\ m <= size) by (unfold m; destruct (Z.ltb_spec (lenZ data - read) size); lia). destruct (Z.ltb_spec writable m) as [Hw|Hw].
  { eexists _, [], true. split; [reflexivity|]. split_and!; try done; [by constructor|by constructor|unfold lenZ; cbn [length]; lia|lia]. }
  destruct (take_step data read l m Hp (proj1 Hm)) as (Hu & Hlen & Hok' & Hb'). set (rest := if lenZ data <=? read + m then l else _) in *.
  assert (Hfirst : sliceZ read m data = takeZ size (dropZ read data)). { unfold sliceZ. unfold m. destruct (Z.ltb_spec (lenZ data - read) size) as [Hlt|]; [|done]. unfold takeZ. rewrite !take_ge; [done|..]; unfold dropZ; rewrite length_drop; unfold lenZ in *; lia. }
  destruct keep.
  { eexists _, _, false. split; [reflexivity|]. split_and!; auto; lia || done. }
  destruct (IH (size - m) (writable - m) rest) as (l' & bs & fault & E & Hu2 & Hb2 & Hok2 & Hl2 & Hf2 & Ht2 & _); [|auto..|].
  { destruct Hf as [Hf|]; [|lia]. cbn [length] in Hf. unfold rest. destruct (Z.leb_spec (lenZ data) (read + m)) as [|Hlt]; [left; lia|]. right. unfold m in *. destruct (Z.ltb_spec (lenZ data - read) size); lia. }
  rewrite E. cbn [mbind option_bind]. eexists _, _, fault. split; [reflexivity|]. split_and!; try done.
  - by rewrite Hu, Hu2, app_assoc.
  - rewrite lenZ_app, Hlen. lia.
  - intros ->. specialize (Hf2 eq_refl). lia.
  - intros -> _. rewrite (Ht2 eq_refl eq_refl), Hu. unfold takeZ. rewrite take_app. f_equal.
    + rewrite take_ge; [done|]. unfold lenZ in Hlen. lia.
    + f_equal. unfold lenZ in Hlen. lia.
Qed.

Lemma dequeue_loop_some keep : forall fuel size writable l l' bs fault, Forall packet_ok l -> dequeue_loop fuel keep size writable l = Some (l', bs, fault) -> unread l = bs ++ unread l' /\ Forall packet_ok l'.
Proof.
  induction fuel as [|fuel IH]; intros size writable l l' bs fault Hok; [done|]. cbn [dequeue_loop]. destruct (Z.leb_spec size 0) as [Hs|Hs]; [by intros [= <- <- <-]|].
  destruct l as [|[data read|p] l]; [by intros [= <- <- <-]| |done]. pose proof Hok as Hok0. apply Forall_cons in Hok as (Hp & Hok). cbn in Hp. set (m := if lenZ data - read <? size then lenZ data - read else size).
  assert (Hm : 0 <= m <= lenZ data - read) by (unfold m; destruct (Z.ltb_spec (lenZ data - read) size); lia). destruct (writable <? m); [by intros [= <- <- <-]|].
  destruct (take_step data read l m Hp Hm) as (Hu & _ & Hok' & _). set (rest := if lenZ data <=? read + m then l else _) in *. destruct keep; [intros [= <- <- <-]; split; [done|by apply Hok']|].
  destruct (dequeue_loop fuel false (size - m) (writable - m) rest) as [[[l2 bs2] f2]|] eqn:E; [|done]. cbn [mbind option_bind]. intros [= <- <- <-]. destruct (IH _ _ _ _ _ _ (Hok' Hok) E) as (Hu2 & Hok2). by rewrite Hu, Hu2, app_assoc.
Qed.

(** ** Runs *)

Inductive action :=
  | Create (new : option Z) (t : sock_type) (nonblocking : bool)
  | Bind (a : Z) (family valid : bool) (path number : Z) (failure : option errno)
  | Listen (a : Z)
  | Connect (a : Z) (family valid : bool) (path : Z) (memory : bool)
  | Connect_sleep (a : Z)
  | Connect_end (a : Z) (interrupted : bool)
  | Accept (a : Z) (new : option Z)
  | Send (a : Z) (named : bool) (iov : list (option (list Z) * bool))
  | Recv (a : Z) (iov : list (Z * Z))
  | Recv_again (a : Z) (got : list Z) (rest : list (Z * Z))
  | Close (a : Z).

(** The bytes that were sent to each socket and those that were received from it, in order. *)
Record world := mk_world { nt : net; sent : gmap Z (list Z); rcvd : gmap Z (list Z) }.
Definition log (m : gmap Z (list Z)) (a : Z) : list Z := default [] (m !! a).

(** What reaches the peer: the parts of the message up to the first that fails. *)
Fixpoint delivered (iov : list (option (list Z) * bool)) : list Z := match iov with (Some bs, true) :: iov => bs ++ delivered iov | _ => [] end.
Definition bytes_of (o : outcome) : list Z := match o with Done (Ok bs) => bs | Done (Err _) => [] | Sleeps got _ => got end.
Definition sends (x : socket) (named : bool) : bool := bool_decide (state x = SOCKET_STATE_CONNECTED) && negb named && is_stream (type x).

Definition reset (b : Z) (w : world) n : world := mk_world n (<[b := []]> (sent w)) (<[b := []]> (rcvd w)).
Definition keep (w : world) n : world := mk_world n (sent w) (rcvd w).

Definition exec (c : action) (w : world) : option world :=
  let n := nt w in
  match c with
  | Create new t nb => '(n, r) ← socket_create new t nb n; Some (match r with Some b => reset b w n | None => keep w n end)
  | Bind a family valid path number failure => '(n, _) ← socket_bind a family valid path number failure n; Some (keep w n)
  | Listen a => '(n, _) ← socket_listen a n; Some (keep w n)
  | Connect a family valid path memory => '(n, _) ← socket_connect_begin a family valid path memory n; Some (keep w n)
  | Connect_sleep a => n ← unix_connect_sleep a n; Some (keep w n)
  | Connect_end a interrupted => '(n, _) ← socket_connect_end a interrupted n; Some (keep w n)
  | Accept a new => '(n, r) ← socket_accept a new n; Some (match r with Ok (Some b) => reset b w n | _ => keep w n end)
  | Send a named iov =>
      x ← socks n !! a;
      '(n, _) ← socket_sendmsg a named iov n;
      Some (match connected x with Some p => if sends x named then mk_world n (<[p := log (sent w) p ++ delivered iov]> (sent w)) (rcvd w) else keep w n | None => keep w n end)
  | Recv a iov => '(n, o) ← socket_recvmsg a iov n; Some (mk_world n (sent w) (<[a := log (rcvd w) a ++ bytes_of o]> (rcvd w)))
  | Recv_again a got rest => '(n, o) ← socket_recv_again a got rest n; Some (mk_world n (sent w) (<[a := log (rcvd w) a ++ dropZ (lenZ got) (bytes_of o)]> (rcvd w)))
  | Close a => n ← socket_close a n; Some (keep w n)
  end.

Fixpoint run (l : list action) (w : world) : option world := match l with [] => Some w | c :: l => w ← exec c w; run l w end.

Definition no_sockets : world := mk_world (mk_net ∅ ∅ ∅) ∅ ∅.

(** ** Delivery *)

Definition streams (w : world) : Prop := forall a x, socks (nt w) !! a = Some x -> Forall packet_ok (recived x) /\ log (sent w) a = log (rcvd w) a ++ unread (recived x).

Lemma log_insert_eq m a l : log (<[a := l]> m) a = l.
Proof. unfold log. by rewrite lookup_insert_eq. Qed.
Lemma log_insert_ne m a b l : a <> b -> log (<[a := l]> m) b = log m b.
Proof. intros. unfold log. by rewrite lookup_insert_ne. Qed.

(** What a call does to the queues, when it neither adds nor takes bytes. *)
Definition calm n n' : Prop := forall a x', socks n' !! a = Some x' -> exists x, socks n !! a = Some x /\ unread (recived x') = unread (recived x) /\ (Forall packet_ok (recived x) -> Forall packet_ok (recived x')).

Lemma calm_refl n : calm n n.
Proof. intros a x Hx. by exists x. Qed.
Lemma calm_trans n1 n2 n3 : calm n1 n2 -> calm n2 n3 -> calm n1 n3.
Proof. intros H1 H2 a x Hx. destruct (H2 a x Hx) as (y & Hy & E & P). destruct (H1 a y Hy) as (z & Hz & E' & P'). exists z. split; [done|]. split; [congruence|auto]. Qed.
Lemma calm_upd f a n n' : (forall x, unread (recived (f x)) = unread (recived x) /\ (Forall packet_ok (recived x) -> Forall packet_ok (recived (f x)))) -> upd f a n = Some n' -> calm n n'.
Proof.
  intros Hf. unfold upd. destruct (socks n !! a) as [x|] eqn:Ex; [|done]. cbn. intros [= <-] b y Hy. cbn in Hy. destruct (decide (b = a)) as [->|]; [rewrite lookup_insert_eq in Hy; injection Hy as <-; exists x; by split|rewrite lookup_insert_ne in Hy by done; by exists y].
Qed.
Lemma streams_calm w n : streams w -> calm (nt w) n -> streams (keep w n).
Proof. intros Hw Hq a x Hx. cbn in *. destruct (Hq a x Hx) as (y & Hy & E & P). destruct (Hw a y Hy) as (Hok & Hl). rewrite E. split; [by apply P|done]. Qed.

Lemma wakeup_recived x : recived (wakeup x) = recived x.
Proof. unfold wakeup. by destruct (connect_pc x) as [[]|]. Qed.
#[local] Hint Resolve calm_refl : core.

(** An update of one socket that keeps its queue. *)
Ltac calm_upd := eapply calm_upd; [|eassumption]; intros; rewrite ?wakeup_recived; cbn; rewrite ?wakeup_recived; done.

Lemma set_state_calm a v n n' : socket_set_state a v n = Some n' -> calm n n'.
Proof. unfold socket_set_state. intros. calm_upd. Qed.

Lemma bind_calm a family valid path number failure n n' r : socket_bind a family valid path number failure n = Some (n', r) -> calm n n'.
Proof.
  unfold socket_bind, unix_bind. destruct (socks n !! a); [|done]. cbn [mbind option_bind]. destruct (negb family); [by intros [= <- <-]|]. destruct (negb (bool_decide _)); [by intros [= <- <-]|]. destruct (negb valid); [by intros [= <- <-]|].
  set (n1 := mk_net (socks n) _ (files n)). change (files n1) with (files n). destruct failure; [intros [= <- <-]; by apply (calm_refl n)|]. destruct (files n !! path); [intros [= <- <-]; by apply (calm_refl n)|].
  destruct (upd _ a n1) as [n2|] eqn:E; [|done]. intros [= <- <-]. apply (calm_trans n n1); [by apply (calm_refl n)|]. apply (calm_trans n1 n2); [calm_upd|by apply (calm_refl n2)].
Qed.

Lemma queue_connection_calm a peer memory n n' r : socket_queue_connection a peer memory n = Some (n', r) -> calm n n'.
Proof.
  unfold socket_queue_connection. destruct (negb memory); [destruct (socks n !! a); [by intros [= <- <-]|done]|]. destruct (upd _ a n) as [n1|] eqn:E; [|done]. intros [= <- <-]. eapply calm_upd; [|eassumption].
  intros x. cbv beta. rewrite wakeup_recived. cbn [recived set_recived]. rewrite unread_app. change (unread [Connection peer]) with (@nil Z). rewrite app_nil_r. split; [done|]. intros. apply Forall_app. split; [done|by repeat constructor].
Qed.

Lemma connect_calm a family valid path memory n n' r : socket_connect_begin a family valid path memory n = Some (n', r) -> calm n n'.
Proof.
  unfold socket_connect_begin, unix_connect_begin. destruct (socks n !! a) as [x|]; [|done]. cbn [mbind option_bind]. destruct (negb family); [by intros [= <- <-]|]. destruct (negb (bool_decide (state x = _))); [by intros [= <- <-]|]. destruct (negb valid); [by intros [= <- <-]|].
  destruct (files n !! path) as [[[] rdev]|]; cbn [negb]; [|by intros [= <- <-]..]. destruct (unix_binding n !! rdev) as [server|]; [|done]. cbn [mbind option_bind]. destruct (socks n !! server) as [y|]; [|done]. cbn [mbind option_bind]. destruct (_ || _); [by intros [= <- <-]|].
  destruct (socket_queue_connection server a memory n) as [[n1 r1]|] eqn:E1; [|done]. cbn [mbind option_bind]. apply queue_connection_calm in E1. destruct r1; [|by intros [= <- <-]]. destruct (upd _ a n1) as [n2|] eqn:E2; [|done]. intros [= <- <-]. apply (calm_trans n n1); [done|calm_upd].
Qed.

Lemma connect_end_calm a interrupted n n' r : socket_connect_end a interrupted n = Some (n', r) -> calm n n'.
Proof.
  unfold socket_connect_end, unix_connect_end. destruct (upd _ a n) as [n1|] eqn:E1; [|done]. cbn [mbind option_bind]. assert (Q1 : calm n n1) by calm_upd. destruct (socks n1 !! a) as [x|]; [|done]. cbn [mbind option_bind].
  destruct interrupted; [by intros [= <- <-]|]. destruct (connected x); cbn [mbind option_bind]; [|by intros [= <- <-]]. destruct (socket_set_state a _ n1) as [n2|] eqn:E2; [|done]. intros [= <- <-]. apply set_state_calm in E2. by apply (calm_trans n n1).
Qed.

Lemma listen_calm a n n' r : socket_listen a n = Some (n', r) -> calm n n'.
Proof.
  unfold socket_listen. destruct (socks n !! a) as [x|]; [|done]. cbn [mbind option_bind]. destruct (negb _); [by intros [= <- <-]|]. destruct (negb _); [by intros [= <- <-]|]. destruct (upd _ a n) as [n1|] eqn:E; [|done]. intros [= <- <-]. calm_upd.
Qed.

Lemma close_calm a n n' : socket_close a n = Some n' -> calm n n'.
Proof.
  unfold socket_close. destruct (unix_close a n) as [n1|] eqn:E; [|done]. intros [= <-]. apply (calm_trans n n1).
  - unfold unix_close in E. destruct (socks n !! a) as [x|]; [|done]. cbn [mbind option_bind] in E. destruct (upd _ a n) as [n2|] eqn:E2; [|done]. cbn [mbind option_bind] in E. assert (Q2 : calm n n2) by calm_upd.
    set (n3 := match bound x with Some k => _ | None => n2 end) in E. assert (Q3 : calm n n3) by (unfold n3; destruct (bound x); done). destruct (connected x) as [peer|]; [|by injection E as <-].
    destruct (socket_set_state peer _ n3) as [n4|] eqn:E4; [|done]. cbn [mbind option_bind] in E. apply (calm_trans n n3); [done|]. apply set_state_calm in E4. apply (calm_trans n3 n4); [done|calm_upd].
  - intros b x Hx. cbn in Hx. apply lookup_delete_Some in Hx as (_ & Hx). by exists x.
Qed.

(** A new socket has an empty queue, whatever was at its address. *)
Lemma streams_reset w n b : streams w -> (forall a x, socks n !! a = Some x -> a = b /\ recived x = [] \/ a <> b /\ exists y, socks (nt w) !! a = Some y /\ unread (recived x) = unread (recived y) /\ (Forall packet_ok (recived y) -> Forall packet_ok (recived x))) -> streams (reset b w n).
Proof.
  intros Hw Hn a x Hx. cbn in *. destruct (Hn a x Hx) as [(-> & ->)|(Hne & y & Hy & E & P)]; [by rewrite !log_insert_eq|]. rewrite !log_insert_ne by done. destruct (Hw a y Hy) as (Hok & Hl). rewrite E. split; [by apply P|done].
Qed.

Lemma upd_result f a n n' : upd f a n = Some n' -> exists x, socks n !! a = Some x /\ socks n' = <[a := f x]> (socks n) /\ unix_binding n' = unix_binding n /\ files n' = files n.
Proof. unfold upd. destruct (socks n !! a) as [x|]; [|done]. cbn. intros [= <-]. by exists x. Qed.

Lemma create_streams w new t nb n r : streams w -> socket_create new t nb (nt w) = Some (n, r) -> streams (match r with Some b => reset b w n | None => keep w n end).
Proof.
  intros Hw. unfold socket_create, unix_create. destruct new as [b|]; cbn; [|by intros [= <- <-]; apply streams_calm]. unfold upd. cbn. rewrite lookup_insert_eq. cbn. intros [= <- <-]. apply streams_reset; [done|]. cbn. intros a x. rewrite insert_insert_eq. destruct (decide (a = b)) as [->|Hne].
  - rewrite lookup_insert_eq. intros [= <-]. by left.
  - rewrite lookup_insert_ne by done. intros Hx. right. split; [done|]. by exists x.
Qed.

Lemma accept_streams w a new n r : streams w -> socket_accept a new (nt w) = Some (n, r) -> streams (match r with Ok (Some b) => reset b w n | _ => keep w n end).
Proof.
  intros Hw. unfold socket_accept. destruct (socks (nt w) !! a) as [x|] eqn:Ex; [|done]. cbn [mbind option_bind]. destruct (negb (is_stream (type x))); [by intros [= <- <-]; apply streams_calm|]. destruct (negb _); [by intros [= <- <-]; apply streams_calm|].
  unfold unix_accept. rewrite Ex. cbn [mbind option_bind]. destruct (socket_dequeue_connection a (nt w)) as [[n1 r1]|] eqn:Ed; [|done]. cbn [mbind option_bind].
  assert (Q1 : calm (nt w) n1).
  { unfold socket_dequeue_connection in Ed. rewrite Ex in Ed. cbn [mbind option_bind] in Ed. destruct (kassert _); [|done]. cbn [mbind option_bind] in Ed. destruct (socket_wait x) as [[]|]; [|by injection Ed as <- _..]. destruct (recived x) as [|[|peer] l] eqn:El; [done..|].
    destruct (upd _ a (nt w)) as [n2|] eqn:E2; [|done]. injection Ed as <- _. apply upd_result in E2 as (y & Hy & E2 & _). rewrite Ex in Hy. injection Hy as <-. intros b z Hz. rewrite E2 in Hz. destruct (decide (b = a)) as [->|]; [rewrite lookup_insert_eq in Hz; injection Hz as <-; exists x; cbn; rewrite El; split_and!; [done..|by intros (_ & ?)%Forall_cons]|rewrite lookup_insert_ne in Hz by done; by exists z]. }
  destruct r1 as [[peer|]|e]; cbn [mbind option_bind]; [|by intros [= <- <-]; apply streams_calm..]. unfold unix_create. destruct new as [b|]; [|done]. set (n2 := set_socks (<[b := _]> (socks n1)) n1). cbn [mbind option_bind]. unfold unix_pair.
  destruct (upd (set_connected (Some peer)) b n2) as [n3|] eqn:E3; [|done]. cbn [mbind option_bind]. destruct (upd (set_connected (Some b)) peer n3) as [n4|] eqn:E4; [|done]. cbn [mbind option_bind]. destruct (upd wakeup peer n4) as [n5|] eqn:E5; [|done]. cbn [mbind option_bind]. destruct (upd _ b n5) as [n6|] eqn:E6; [|done]. intros [= <- <-].
  assert (Q5 : calm n2 n5) by (apply (calm_trans n2 n3); [calm_upd|]; apply (calm_trans n3 n4); calm_upd). apply upd_result in E6 as (y & Hy & E6 & _). apply streams_reset; [done|]. intros c z. rewrite E6. destruct (decide (c = b)) as [->|Hne]; [rewrite lookup_insert_eq; intros [= <-]; by left|].
  rewrite lookup_insert_ne by done. intros Hz. right. split; [done|]. destruct (Q5 c z Hz) as (z2 & Hz2 & U2 & P2). cbn in Hz2. rewrite lookup_insert_ne in Hz2 by done. destruct (Q1 c z2 Hz2) as (z1 & Hz1 & U1 & P1). exists z1. split_and!; [done|congruence|auto].
Qed.

(** *** Sending *)

Lemma send_loop_streams p : forall iov a total n n' r x, socks n !! a = Some x -> connected x = Some p -> send_loop a total iov n = Some (n', r) ->
  (forall b y', socks n' !! b = Some y' -> exists y, socks n !! b = Some y /\ unread (recived y') = unread (recived y) ++ (if decide (b = p) then delivered iov else []) /\ (Forall packet_ok (recived y) -> Forall packet_ok (recived y'))).
Proof.
  induction iov as [|[data memory] iov IH]; intros a total n n' r x Hx Hc; cbn [send_loop].
  { intros [= <- <-] b y Hy. exists y. cbn. destruct (decide (b = p)); by rewrite app_nil_r. }
  rewrite Hx. cbn [mbind option_bind]. rewrite Hc. cbn [mbind option_bind]. unfold socket_queue_recived_packet.
  assert (Hsame : forall b y, socks n !! b = Some y -> exists y0, socks n !! b = Some y0 /\ unread (recived y) = unread (recived y0) ++ (if decide (b = p) then [] else []) /\ (Forall packet_ok (recived y0) -> Forall packet_ok (recived y))) by (intros b y Hy; exists y; split_and!; [done|destruct (decide (b = p)); by rewrite app_nil_r|done]).
  destruct memory; cbn [negb]; [|destruct (socks n !! p); [|done]; cbn [mbind option_bind]; intros [= <- <-]; cbn; destruct data; exact Hsame].
  destruct data as [bs|]; [|destruct (socks n !! p); [|done]; cbn [mbind option_bind]; intros [= <- <-]; cbn; exact Hsame].
  destruct (upd _ p n) as [n1|] eqn:E; [|done]. cbn [mbind option_bind]. intros Hs. apply upd_result in E as (z & Hz & E & _). set (z' := wakeup (set_recived (recived z ++ [Bytes bs 0]) z)) in *.
  assert (Hx1 : exists x1, socks n1 !! a = Some x1 /\ connected x1 = Some p). { rewrite E. destruct (decide (a = p)) as [->|]; [rewrite lookup_insert_eq|rewrite lookup_insert_ne by done; by exists x]. exists z'. split; [done|]. unfold z', wakeup. cbn. destruct (connect_pc z) as [[]|]; cbn; congruence. }
  destruct Hx1 as (x1 & Hx1 & Hc1). intros b y' Hy'. destruct (IH a _ n1 n' r x1 Hx1 Hc1 Hs b y' Hy') as (y1 & Hy1 & U1 & P1). rewrite E in Hy1. destruct (decide (b = p)) as [->|Hne].
  - rewrite lookup_insert_eq in Hy1. injection Hy1 as <-. exists z. split; [done|]. unfold z' in U1, P1. rewrite wakeup_recived in U1, P1. cbn [recived set_recived] in U1, P1. rewrite unread_app in U1. split.
    + rewrite U1. cbn [delivered]. rewrite <- app_assoc. f_equal. unfold unread. cbn. by rewrite app_nil_r.
    + intros Hok. apply P1. apply Forall_app. split; [done|]. repeat constructor; cbn. { lia. } apply lenZ_nonneg.
  - rewrite lookup_insert_ne in Hy1 by done. exists y1. split; [done|]. by split.
Qed.

(** *** Receiving *)

Lemma recv_loop_streams : forall iov a t got n n' o x, socks n !! a = Some x -> Forall packet_ok (recived x) -> recv_loop a t got iov n = Some (n', o) ->
  exists x' bs, socks n' = <[a := x']> (socks n) /\ bytes_of o = (match o with Done (Err _) => [] | _ => got ++ bs end) /\ unread (recived x) = bs ++ unread (recived x') /\ Forall packet_ok (recived x') /\ (match o with Done (Err _) => got = [] /\ bs = [] | _ => True end).
Proof.
  induction iov as [|[size writable] iov IH]; intros a t got n n' o x Hx Hok; cbn [recv_loop].
  { intros [= <- <-]. exists x, []. rewrite insert_id by done. by rewrite app_nil_r. }
  unfold socket_dequeue_recived_packet. rewrite Hx. cbn [mbind option_bind]. destruct (socket_wait x) as [[]|e] eqn:Ew; cbn [mbind option_bind].
  - destruct (dequeue_loop _ _ _ _ _) as [[[l bs] fault]|] eqn:Ed; [|done]. cbn [mbind option_bind]. destruct (dequeue_loop_some _ _ _ _ _ _ _ _ Hok Ed) as (Hu & Hok'). unfold upd. rewrite Hx. cbn [mbind option_bind].
    set (n1 := set_socks _ n). assert (Hx1 : socks n1 !! a = Some (set_recived l x)) by (cbn; by rewrite lookup_insert_eq). destruct (fault && (lenZ bs =? 0)) eqn:Ef.
    + apply andb_true_iff in Ef as (_ & Ef). apply Z.eqb_eq in Ef. assert (bs = []) as -> by (destruct bs; [done|rewrite lenZ_cons in Ef; pose proof (lenZ_nonneg bs); lia]).
      intros [= <- <-]. exists (set_recived l x), []. cbn. destruct (Z.ltb_spec 0 (lenZ got)) as [Hg|Hg]; [by rewrite app_nil_r|]. split_and!; try done. destruct got; [done|]. rewrite lenZ_cons in Hg. pose proof (lenZ_nonneg got). lia.
    + intros Hr. destruct (IH a t (got ++ bs) n1 n' o _ Hx1 Hok' Hr) as (x' & bs' & E & Eb & U & Hok2 & Ho). exists x', (bs ++ bs'). unfold n1 in E. cbn [socks set_socks] in E. cbn [recived set_recived] in U. rewrite insert_insert_eq in E. split_and!; [done| |by rewrite Hu, U, app_assoc|done|].
      * rewrite Eb. destruct o as [[]|]; [by rewrite app_assoc|done|by rewrite app_assoc].
      * destruct o as [[]|]; try done. destruct Ho as (Hg & ->). by apply app_eq_nil in Hg as (-> & ->).
  - intros [= <- <-]. exists x, []. rewrite insert_id by done. by rewrite app_nil_r.
  - intros [= <- <-]. exists x, []. rewrite insert_id by done. destruct (Z.ltb_spec 0 (lenZ got)) as [Hg|Hg]; cbn; [by rewrite app_nil_r|]. split_and!; try done. destruct got; [done|]. rewrite lenZ_cons in Hg. pose proof (lenZ_nonneg got). lia.
Qed.

Lemma send_streams w a named iov n r x : streams w -> socks (nt w) !! a = Some x -> socket_sendmsg a named iov (nt w) = Some (n, r) ->
  streams (match connected x with Some p => if sends x named then mk_world n (<[p := log (sent w) p ++ delivered iov]> (sent w)) (rcvd w) else keep w n | None => keep w n end).
Proof.
  intros Hw Hx. unfold socket_sendmsg, unix_sendmsg, sends. rewrite Hx. cbn [mbind option_bind]. intros Hs.
  assert (Hsame : n = nt w -> streams (keep w n)) by (intros ->; by apply streams_calm).
  destruct (bool_decide (state x = SOCKET_STATE_CONNECTED)) eqn:Est; cbn [andb] in *; [|assert (n = nt w); [|by destruct (connected x); apply Hsame]; destruct (is_stream (type x)) eqn:Ety; [by injection Hs as <- _|]; destruct (negb named); [by injection Hs as <- _|]].
  2:{ unfold is_stream in Ety. destruct (type x); cbn in *; try done; by injection Hs as <- _. }
  destruct named; cbn [negb andb]; [injection Hs as <- _; destruct (connected x); by apply Hsame|]. destruct (is_stream (type x)) eqn:Ety.
  2:{ assert (n = nt w) by (unfold is_stream in Ety; destruct (type x); cbn in *; try done; by injection Hs as <- _). destruct (connected x); by apply Hsame. }
  destruct (bool_decide _ || bool_decide _) eqn:Eb; [unfold is_stream in Ety; destruct (type x); done|]. destruct (connected x) as [p|] eqn:Ec.
  - intros b y' Hy'. destruct (send_loop_streams p iov a 0 (nt w) n r x Hx Ec Hs b y' Hy') as (y & Hy & U & P). destruct (Hw b y Hy) as (Hok & Hl). split; [by apply P|]. cbn. rewrite U. destruct (decide (b = p)) as [->|Hne].
    + rewrite log_insert_eq, Hl. by rewrite app_assoc.
    + rewrite log_insert_ne by done. by rewrite app_nil_r.
  - apply Hsame. destruct iov as [|[data memory] iov]; cbn [send_loop] in Hs; [by injection Hs as <- _|]. rewrite Hx in Hs. cbn [mbind option_bind] in Hs. by rewrite Ec in Hs.
Qed.

Lemma recv_streams w a x n n' bs x' : streams w -> n = nt w -> socks n !! a = Some x -> socks n' = <[a := x']> (socks n) -> unread (recived x) = bs ++ unread (recived x') -> Forall packet_ok (recived x') ->
  streams (mk_world n' (sent w) (<[a := log (rcvd w) a ++ bs]> (rcvd w))).
Proof.
  intros Hw -> Hx E U Hok b y Hy. cbn in *. rewrite E in Hy. destruct (decide (b = a)) as [->|Hne].
  - rewrite lookup_insert_eq in Hy. injection Hy as <-. rewrite log_insert_eq. destruct (Hw a x Hx) as (_ & Hl). split; [done|]. by rewrite Hl, U, app_assoc.
  - rewrite lookup_insert_ne in Hy by done. rewrite log_insert_ne by done. by apply Hw.
Qed.

Lemma exec_streams c w w' : streams w -> exec c w = Some w' -> streams w'.
Proof.
  intros Hw. destruct c; cbn [exec].
  - destruct (socket_create _ _ _ _) as [[n r]|] eqn:E; [|done]. intros [= <-]. by eapply create_streams.
  - destruct (socket_bind _ _ _ _ _ _ _) as [[n r]|] eqn:E; [|done]. intros [= <-]. apply bind_calm in E. by apply streams_calm.
  - destruct (socket_listen _ _) as [[n r]|] eqn:E; [|done]. intros [= <-]. apply listen_calm in E. by apply streams_calm.
  - destruct (socket_connect_begin _ _ _ _ _ _) as [[n r]|] eqn:E; [|done]. intros [= <-]. apply connect_calm in E. by apply streams_calm.
  - destruct (unix_connect_sleep _ _) as [n|] eqn:E; [|done]. intros [= <-]. apply streams_calm; [done|]. unfold unix_connect_sleep in E. calm_upd.
  - destruct (socket_connect_end _ _ _) as [[n r]|] eqn:E; [|done]. intros [= <-]. apply connect_end_calm in E. by apply streams_calm.
  - destruct (socket_accept _ _ _) as [[n r]|] eqn:E; [|done]. intros [= <-]. by eapply accept_streams.
  - destruct (socks (nt w) !! a) as [x|] eqn:Ex; [|done]. cbn [mbind option_bind]. destruct (socket_sendmsg _ _ _ _) as [[n r]|] eqn:E; [|done]. intros [= <-]. by eapply send_streams.
  - destruct (socket_recvmsg _ _ _) as [[n o]|] eqn:E; [|done]. intros [= <-]. unfold socket_recvmsg in E. destruct (socks (nt w) !! a) as [x|] eqn:Ex; [|done]. cbn [mbind option_bind] in E.
    assert (Hnone : (n, bytes_of o) = (nt w, []) -> streams (mk_world n (sent w) (<[a := log (rcvd w) a ++ bytes_of o]> (rcvd w)))) by (intros [= -> ->]; eapply recv_streams; [done|done|exact Ex|by rewrite insert_id|done|by apply (Hw a)]).
    destruct (_ && _); [by injection E as <- <-; apply Hnone|]. unfold unix_recvmsg in E. rewrite Ex in E. cbn [mbind option_bind] in E. destruct (_ || _); [by injection E as <- <-; apply Hnone|]. destruct (_ && _); [by injection E as <- <-; apply Hnone|].
    destruct (recv_loop_streams _ _ _ _ _ _ _ x Ex (proj1 (Hw a x Ex)) E) as (x' & bs & Es & Eb & U & Hok & Ho). assert (Eb' : bytes_of o = bs) by (rewrite Eb; destruct o as [[]|]; [done|by destruct Ho as (_ & ->)|done]). rewrite Eb'. by eapply recv_streams.
  - destruct (socket_recv_again _ _ _ _) as [[n o]|] eqn:E; [|done]. intros [= <-]. unfold socket_recv_again in E. destruct (socks (nt w) !! a) as [x|] eqn:Ex; [|done]. cbn [mbind option_bind] in E.
    destruct (recv_loop_streams _ _ _ _ _ _ _ x Ex (proj1 (Hw a x Ex)) E) as (x' & bs & Es & Eb & U & Hok & Ho). assert (Eb' : dropZ (lenZ got) (bytes_of o) = bs).
    { rewrite Eb. assert (Hd : dropZ (lenZ got) (got ++ bs) = bs) by (unfold dropZ, lenZ; rewrite Nat2Z.id; by rewrite drop_app_length). destruct o as [[]|]; [done|destruct Ho as (-> & ->); done|done]. }
    rewrite Eb'. by eapply recv_streams.
  - destruct (socket_close _ _) as [n|] eqn:E; [|done]. intros [= <-]. apply close_calm in E. by apply streams_calm.
Qed.

Lemma run_streams : forall l w w', streams w -> run l w = Some w' -> streams w'.
Proof. induction l as [|c l IH]; intros w w' Hw; cbn [run]; [by intros [= <-]|]. destruct (exec c w) as [w1|] eqn:E; [|done]. cbn. intros Hr. apply (IH w1); [by eapply exec_streams|done]. Qed.

(** C18: a socket is a stream.  After any calls, in any order, by any tasks, what was received from a socket and what is
    still in its queue are together what was sent to it: no byte is lost, doubled or overtaken, also when calls are
    interrupted, fail or are cut short by memory that cannot be used, and with buffers of any sizes. *)
Theorem socket_delivers l w a x : run l no_sockets = Some w -> socks (nt w) !! a = Some x -> log (sent w) a = log (rcvd w) a ++ unread (recived x).
Proof. intros Hr Hx. apply (run_streams l no_sockets w) in Hr; [by apply Hr|]. intros b y Hy. cbn in Hy. by rewrite lookup_empty in Hy. Qed.

(** A call of [recvmsg] on a connected stream socket that has something gives the front of the stream, as much as its
    buffer takes; on a socket that keeps bounds it does not go beyond a packet. *)
Theorem recvmsg_correct a size x n : socks n !! a = Some x -> type x = SOCK_STREAM \/ type x = SOCK_SEQPACKET -> state x = SOCKET_STATE_CONNECTED -> recived x <> [] -> Forall is_bytes (recived x) -> Forall packet_ok (recived x) -> 0 < size ->
  exists n' bs x', socket_recvmsg a [(size, size)] n = Some (n', Done (Ok bs)) /\ socks n' = <[a := x']> (socks n) /\ unread (recived x) = bs ++ unread (recived x') /\
    match type x with SOCK_SEQPACKET => match recived x with Bytes data read :: _ => bs = takeZ size (dropZ read data) | _ => False end | _ => bs = takeZ size (unread (recived x)) end.
Proof.
  intros Hx Ht Hst Hne Hb Hok Hs. unfold socket_recvmsg. rewrite Hx. cbn [mbind option_bind]. rewrite Hst. cbn. rewrite andb_false_r. cbn. unfold unix_recvmsg. rewrite Hx. cbn [mbind option_bind]. rewrite Hst. cbn.
  assert (Ety : bool_decide (type x = SOCK_DGRAM) || bool_decide (type x = SOCK_RAW) = false) by (destruct Ht as [-> | ->]; done). rewrite Ety. cbn [recv_loop]. unfold socket_dequeue_recived_packet. rewrite Hx. cbn [mbind option_bind].
  assert (Ew : socket_wait x = Ok true) by (unfold socket_wait; by destruct (recived x)). rewrite Ew. set (k := bool_decide (type x = SOCK_SEQPACKET)).
  destruct (dequeue_loop_spec k (S (S (length (recived x)))) size size (recived x)) as (l & bs & fault & E & U & Hb' & Hok' & _ & Hf & Hstream & Hseq); [left; lia|done|done|]. rewrite E. cbn [mbind option_bind]. destruct fault; [specialize (Hf eq_refl); lia|]. unfold upd. rewrite Hx. cbn.
  eexists _, bs, (set_recived l x). split; [reflexivity|]. split; [done|]. split; [done|]. destruct Ht as [Ht|Ht]; rewrite Ht.
  - apply Hstream; [done|]. unfold k. by rewrite Ht.
  - assert (Hk : k = true) by (unfold k; by rewrite Ht). specialize (Hseq eq_refl Hk Hs). destruct (recived x) as [|[]]; [done|done|by apply Forall_cons in Hb as (? & _)].
Qed.

(** ** Safety *)

Definition is_connection (p : packet) : Prop := match p with Bytes _ _ => False | Connection _ => True end.
Definition waits_at n (p a : Z) : Prop := exists x, socks n !! a = Some x /\ Connection p ∈ recived x.
Definition pending n (p : Z) : Prop := exists a, waits_at n p a.

Record sock_ok n (a : Z) (x : socket) : Prop := {
  ok_peer : forall b, connected x = Some b -> b <> a /\ exists y, socks n !! b = Some y /\ connected y = Some a;
  ok_state : match state x with SOCKET_STATE_CONNECTED => connected x <> None | SOCKET_STATE_INIT => connected x = None -> recived x = [] | _ => connected x = None end;
  ok_kind : if bool_decide (state x = SOCKET_STATE_LISTEN) then Forall is_connection (recived x) else Forall is_bytes (recived x);
  ok_packets : Forall packet_ok (recived x);
  ok_nodup : NoDup (recived x) \/ state x <> SOCKET_STATE_LISTEN;
  ok_waiting : forall p, Connection p ∈ recived x -> exists y, socks n !! p = Some y /\ state y = SOCKET_STATE_INIT /\ connected y = None;
}.

Record inv n : Prop := {
  inv_sock : forall a x, socks n !! a = Some x -> sock_ok n a x;
  inv_once : forall p a b, waits_at n p a -> waits_at n p b -> a = b;
}.

Lemma bytes_no_connection l p : Forall is_bytes l -> Connection p ∉ l.
Proof. intros Hl Hin. rewrite Forall_forall in Hl. by apply (Hl _ Hin). Qed.

(** A socket changes, but neither its peer nor who waits at it; it keeps its state, or nobody relies on it. *)
Lemma inv_change n n' a x x' : inv n -> socks n !! a = Some x -> (forall c, socks n' !! c = if decide (c = a) then Some x' else socks n !! c) -> connected x' = connected x -> (state x' = state x \/ ~ pending n a) ->
  (forall p, Connection p ∈ recived x' <-> Connection p ∈ recived x) ->
  (match state x' with SOCKET_STATE_CONNECTED => connected x' <> None | SOCKET_STATE_INIT => connected x' = None -> recived x' = [] | _ => connected x' = None end) ->
  (if bool_decide (state x' = SOCKET_STATE_LISTEN) then Forall is_connection (recived x') else Forall is_bytes (recived x')) -> Forall packet_ok (recived x') -> (NoDup (recived x') \/ state x' <> SOCKET_STATE_LISTEN) -> inv n'.
Proof.
  intros I Hx Hl Hc Hs Hq Hst Hk Hp Hn.
  assert (Hw : forall p b, waits_at n' p b <-> waits_at n p b). { intros p b. unfold waits_at. rewrite Hl. destruct (decide (b = a)); [subst|reflexivity]. rewrite Hx. naive_solver. }
  assert (Hpeer : forall c b y, socks n !! c = Some y -> connected y = Some b -> b <> c /\ exists z, socks n' !! b = Some z /\ connected z = Some c).
  { intros c b y Hy Hcb. destruct (ok_peer _ _ _ (inv_sock _ I c y Hy) b Hcb) as (Hne & z & Hz & Hzc). split; [done|]. rewrite Hl. destruct (decide (b = a)); [subst b; rewrite Hx in Hz; injection Hz as <-; exists x'; by rewrite Hc|by exists z]. }
  assert (Hwait : forall p c, waits_at n p c -> exists y, socks n' !! p = Some y /\ state y = SOCKET_STATE_INIT /\ connected y = None).
  { intros p c (y & Hy & Hin). destruct (ok_waiting _ _ _ (inv_sock _ I c y Hy) p Hin) as (z & Hz & Hz1 & Hz2). rewrite Hl. destruct (decide (p = a)); [subst p|by exists z]. rewrite Hx in Hz. injection Hz as <-. exists x'. split; [done|]. rewrite Hc. split; [|done]. destruct Hs as [->|Hs]; [done|]. destruct Hs. exists c. by exists y. }
  split.
  - intros c y Hy. pose proof Hy as Hy0. rewrite Hl in Hy. destruct (decide (c = a)) as [Hca|Hca].
    + subst c. injection Hy as <-. constructor; try done; [|intros p Hin; apply (Hwait p a); exists x; split; [done|by apply Hq]]. intros b Hb. rewrite Hc in Hb. by apply (Hpeer a b x).
    + pose proof (inv_sock _ I c y Hy) as []. constructor; try done; [intros b Hb; by apply (Hpeer c b y)|]. intros p Hin. apply (Hwait p c). by exists y.
  - intros p b c. rewrite !Hw. apply (inv_once _ I).
Qed.

Lemma inv_create n n' b x' : inv n -> socks n !! b = None -> (forall c, socks n' !! c = if decide (c = b) then Some x' else socks n !! c) -> connected x' = None -> state x' = SOCKET_STATE_INIT -> recived x' = [] -> inv n'.
Proof.
  intros I Hb Hl Hc Hs Hr. assert (Hkeep : forall c y, socks n !! c = Some y -> socks n' !! c = Some y). { intros c y Hy. rewrite Hl. destruct (decide (c = b)); [congruence|done]. }
  assert (Hw : forall p c, waits_at n' p c -> waits_at n p c). { intros p c (y & Hy & Hin). rewrite Hl in Hy. destruct (decide (c = b)); [injection Hy as <-; rewrite Hr in Hin; by apply not_elem_of_nil in Hin|by exists y]. }
  split; [|intros p c d H1 H2; apply (inv_once _ I p); by apply Hw]. intros c y Hy. rewrite Hl in Hy. destruct (decide (c = b)).
  - injection Hy as <-. constructor; rewrite ?Hc, ?Hs, ?Hr; try done; try constructor; try (by intros p ?%not_elem_of_nil). apply NoDup_nil_2.
  - pose proof (inv_sock _ I c y Hy) as []. constructor; try done.
    + intros d Hd. destruct (ok_peer0 d Hd) as (Hne & z & Hz & ?). split; [done|]. exists z. split; [by apply Hkeep|done].
    + intros p Hin. destruct (ok_waiting0 p Hin) as (z & Hz & ?). exists z. split; [by apply Hkeep|done].
Qed.

(** A socket that waits at nobody's queue enters the queue of a server. *)
Lemma inv_enter n n' s y a x y' : inv n -> socks n !! s = Some y -> socks n !! a = Some x -> state y = SOCKET_STATE_LISTEN -> state x = SOCKET_STATE_INIT -> connected x = None -> ~ pending n a ->
  (forall c, socks n' !! c = if decide (c = s) then Some y' else socks n !! c) -> recived y' = recived y ++ [Connection a] -> state y' = state y -> connected y' = connected y -> inv n'.
Proof.
  intros I Hy Hx Hst Hsx Hcx Hnp Hl Hr Hs Hc. assert (Hsa : s <> a) by congruence. pose proof (inv_sock _ I s y Hy) as Oky.
  assert (Hkeep : forall c z, socks n !! c = Some z -> exists z', socks n' !! c = Some z' /\ state z' = state z /\ connected z' = connected z). { intros c z Hz. rewrite Hl. destruct (decide (c = s)); [subst; exists y'; split; [done|]; rewrite Hy in Hz; injection Hz as <-; done|by exists z]. }
  assert (Hw : forall p c, waits_at n' p c <-> waits_at n p c \/ (c = s /\ p = a)).
  { intros p c. unfold waits_at. rewrite Hl. destruct (decide (c = s)); [subst c|naive_solver]. rewrite Hy. split; [intros (z & [= <-] & Hin); rewrite Hr, elem_of_app, list_elem_of_singleton in Hin; destruct Hin as [Hin|[= ->]]; [left; by exists y|by right]|].
    intros [(z & [= <-] & Hin)|(_ & ->)]; exists y'; (split; [done|]); rewrite Hr; apply elem_of_app; [by left|right; left]. }
  split.
  - intros c z Hz. rewrite Hl in Hz. destruct (decide (c = s)).
    + subst c. injection Hz as <-. destruct Oky. rewrite Hst in *. cbn in *. constructor; rewrite ?Hs, ?Hst, ?Hc, ?Hr; cbn.
      * intros b Hb. congruence.
      * done.
      * apply Forall_app. split; [done|by repeat constructor].
      * apply Forall_app. split; [done|by repeat constructor].
      * left. destruct ok_nodup0 as [Hn|]; [|done]. apply NoDup_app. split_and!; [done| |apply NoDup_singleton]. intros q Hq ->%list_elem_of_singleton. apply Hnp. exists s. by exists y.
      * intros p Hin. apply elem_of_app in Hin as [Hin|Hin]; [|apply list_elem_of_singleton in Hin as [= ->]; destruct (Hkeep a x Hx) as (z' & ? & E1 & E2); exists z'; split; [done|]; rewrite E1, E2; done].
        destruct (ok_waiting0 p Hin) as (z & Hz & ? & ?). destruct (Hkeep p z Hz) as (z' & ? & E1 & E2). exists z'. split; [done|]. rewrite E1, E2. done.
    + pose proof (inv_sock _ I c z Hz) as []. constructor; try done.
      * intros d Hd. destruct (ok_peer0 d Hd) as (Hne & u & Hu & ?). split; [done|]. destruct (Hkeep d u Hu) as (u' & ? & _ & E2). exists u'. split; [done|congruence].
      * intros p Hin. destruct (ok_waiting0 p Hin) as (u & Hu & ? & ?). destruct (Hkeep p u Hu) as (u' & ? & E1 & E2). exists u'. split; [done|]. rewrite E1, E2. done.
  - intros p c d. rewrite !Hw. intros [H1|(-> & ->)] [H2|(-> & H2)]; [by apply (inv_once _ I p)|subst; destruct Hnp; by exists c|destruct Hnp; by exists d|done].
Qed.

(** The first socket of the queue of a server leaves it. *)
Lemma inv_leave n n' s y p l : inv n -> socks n !! s = Some y -> state y = SOCKET_STATE_LISTEN -> recived y = Connection p :: l -> (forall c, socks n' !! c = if decide (c = s) then Some (set_recived l y) else socks n !! c) ->
  inv n' /\ ~ pending n' p /\ exists x, socks n' !! p = Some x /\ state x = SOCKET_STATE_INIT /\ connected x = None /\ p <> s.
Proof.
  intros I Hy Hst Hr Hl. pose proof (inv_sock _ I s y Hy) as Oky.
  assert (Hkeep : forall c z, socks n !! c = Some z -> exists z', socks n' !! c = Some z' /\ state z' = state z /\ connected z' = connected z). { intros c z Hz. rewrite Hl. destruct (decide (c = s)); [subst; eexists; split; [done|]; rewrite Hy in Hz; injection Hz as <-; done|by exists z]. }
  assert (Hw : forall q c, waits_at n' q c -> waits_at n q c). { intros q c (z & Hz & Hin). rewrite Hl in Hz. destruct (decide (c = s)); [subst; injection Hz as <-; exists y; split; [done|]; rewrite Hr; by right|by exists z]. }
  assert (Hps : waits_at n p s) by (exists y; split; [done|]; rewrite Hr; left).
  assert (Hnd : Connection p ∉ l /\ NoDup l). { destruct (ok_nodup _ _ _ Oky) as [Hn|]; [|done]. rewrite Hr in Hn. by apply NoDup_cons in Hn. } destruct Hnd as (Hpl & Hnl).
  split_and!.
  - split; [|intros q c d H1 H2; apply (inv_once _ I q); by apply Hw]. intros c z Hz. rewrite Hl in Hz. destruct (decide (c = s)).
    + subst c. injection Hz as <-. destruct Oky. rewrite Hst, Hr in *. cbn in *. constructor; cbn; rewrite ?Hst; try done.
      * intros b Hb. congruence.
      * cbn. by apply Forall_cons in ok_kind0 as (_ & ?).
      * by apply Forall_cons in ok_packets0 as (_ & ?).
      * by left.
      * intros q Hin. destruct (ok_waiting0 q) as (u & Hu & ? & ?); [by right|]. destruct (Hkeep q u Hu) as (u' & ? & E1 & E2). exists u'. split; [done|]. rewrite E1, E2. done.
    + pose proof (inv_sock _ I c z Hz) as []. constructor; try done.
      * intros d Hd. destruct (ok_peer0 d Hd) as (Hne & u & Hu & ?). split; [done|]. destruct (Hkeep d u Hu) as (u' & ? & _ & E2). exists u'. split; [done|congruence].
      * intros q Hin. destruct (ok_waiting0 q Hin) as (u & Hu & ? & ?). destruct (Hkeep q u Hu) as (u' & ? & E1 & E2). exists u'. split; [done|]. rewrite E1, E2. done.
  - intros (c & Hc). pose proof (inv_once _ I p c s (Hw p c Hc) Hps) as ->. destruct Hc as (z & Hz & Hin). rewrite Hl in Hz. destruct (decide (s = s)); [injection Hz as <-; done|done].
  - destruct (ok_waiting _ _ _ Oky p) as (u & Hu & Hu1 & Hu2); [rewrite Hr; left|]. destruct (Hkeep p u Hu) as (u' & ? & E1 & E2). exists u'. split_and!; [done|congruence|congruence|]. intros ->. congruence.
Qed.

(** Two sockets that are connected to nobody and wait for nobody become peers; one of them is new. *)
Lemma inv_join n n' b p xb xp yb yp : inv n -> b <> p -> socks n !! b = Some xb -> socks n !! p = Some xp -> state xb = SOCKET_STATE_INIT -> connected xb = None -> state xp = SOCKET_STATE_INIT -> connected xp = None -> ~ pending n b -> ~ pending n p ->
  (forall c, socks n' !! c = if decide (c = b) then Some yb else if decide (c = p) then Some yp else socks n !! c) ->
  state yb = SOCKET_STATE_CONNECTED -> connected yb = Some p -> recived yb = [] -> state yp = SOCKET_STATE_INIT -> connected yp = Some b -> recived yp = recived xp -> inv n'.
Proof.
  intros I Hbp Hb Hp Hsb Hcb Hsp Hcp Hnb Hnp Hl Syb Cyb Ryb Syp Cyp Ryp. pose proof (inv_sock _ I p xp Hp) as Okp. assert (Rxp : recived xp = []) by (pose proof (ok_state _ _ _ Okp) as E; rewrite Hsp in E; by apply E).
  assert (Hother : forall c, c <> b -> c <> p -> socks n' !! c = socks n !! c) by (intros c H1 H2; rewrite Hl; by rewrite !decide_False).
  assert (Hlb : socks n' !! b = Some yb) by (rewrite Hl; by rewrite decide_True). assert (Hlp : socks n' !! p = Some yp) by (rewrite Hl, decide_False, decide_True; done).
  assert (Hw : forall q c, waits_at n' q c -> waits_at n q c).
  { intros q c (z & Hz & Hin). destruct (decide (c = b)) as [->|]; [rewrite Hlb in Hz; injection Hz as <-; rewrite Ryb in Hin; by apply not_elem_of_nil in Hin|]. destruct (decide (c = p)) as [->|]; [rewrite Hlp in Hz; injection Hz as <-; rewrite Ryp, Rxp in Hin; by apply not_elem_of_nil in Hin|]. rewrite Hother in Hz by done. by exists z. }
  split; [|intros q c d H1 H2; apply (inv_once _ I q); by apply Hw]. intros c z Hz. destruct (decide (c = b)) as [->|Hcb'].
  { rewrite Hlb in Hz. injection Hz as <-. constructor; rewrite ?Syb, ?Cyb, ?Ryb; cbn; try done; try apply Forall_nil_2; [|by right|by intros q ?%not_elem_of_nil]. intros d [= <-]. split; [done|]. by exists yp. }
  destruct (decide (c = p)) as [->|Hcp'].
  { rewrite Hlp in Hz. injection Hz as <-. constructor; rewrite ?Syp, ?Cyp, ?Ryp, ?Rxp; cbn; try done; try apply Forall_nil_2; [|by right|by intros q ?%not_elem_of_nil]. intros d [= <-]. split; [done|]. by exists yb. }
  rewrite Hother in Hz by done. pose proof (inv_sock _ I c z Hz) as []. constructor; try done.
  - intros d Hd. destruct (ok_peer0 d Hd) as (Hne & u & Hu & Huc). split; [done|]. exists u. rewrite Hother; [done|..]; intros ->; congruence.
  - intros q Hin. destruct (ok_waiting0 q Hin) as (u & Hu & ? & ?). exists u. rewrite Hother; [done|..]; intros ->; [apply Hnb|apply Hnp]; exists c; by exists z.
Qed.

(** A socket that waits for nobody is freed, and its peer is told. *)
Lemma inv_closed n n' a x : inv n -> socks n !! a = Some x -> ~ pending n a -> socks n' !! a = None ->
  (forall c z', socks n' !! c = Some z' -> exists z, c <> a /\ socks n !! c = Some z /\ recived z' = recived z /\ if decide (connected x = Some c) then state z' = SOCKET_STATE_DISCONNECTED /\ connected z' = None else z' = z) ->
  (forall c z, c <> a -> socks n !! c = Some z -> is_Some (socks n' !! c)) -> inv n'.
Proof.
  intros I Hx Hnp Hgone Hl Hk.
  assert (Hw : forall q c, waits_at n' q c -> waits_at n q c). { intros q c (z & Hz & Hin). destruct (Hl c z Hz) as (z0 & _ & Hz0 & Hr & _). exists z0. split; [done|by rewrite <- Hr]. }
  assert (Hpeer : forall c z, connected x = Some c -> socks n !! c = Some z -> connected z = Some a). { intros c z Hc Hz. destruct (ok_peer _ _ _ (inv_sock _ I a x Hx) c Hc) as (_ & y & Hy & ?). congruence. }
  split; [|intros q c d H1 H2; apply (inv_once _ I q); by apply Hw]. intros c z' Hz'. destruct (Hl c z' Hz') as (z & Hca & Hz & Hr & Hcase). pose proof (inv_sock _ I c z Hz) as [].
  assert (Hwait : forall q, Connection q ∈ recived z -> exists y, socks n' !! q = Some y /\ state y = SOCKET_STATE_INIT /\ connected y = None).
  { intros q Hin. destruct (ok_waiting0 q Hin) as (u & Hu & Hu1 & Hu2). assert (Hqa : q <> a) by (intros ->; apply Hnp; exists c; by exists z). destruct (Hk q u Hqa Hu) as (u' & Hu'). destruct (Hl q u' Hu') as (u0 & _ & Hu0 & _ & Hcu). rewrite Hu in Hu0. injection Hu0 as <-.
    destruct (decide (connected x = Some q)) as [Hq|]; [pose proof (Hpeer q u Hq Hu); congruence|]. subst u'. by exists u. }
  destruct (decide (connected x = Some c)) as [Hc|Hc].
  - destruct Hcase as (Es & Ec). assert (Hst : state z <> SOCKET_STATE_LISTEN) by (intros E; pose proof (Hpeer c z Hc Hz); rewrite E in ok_state0; congruence). rewrite bool_decide_eq_false_2 in ok_kind0 by done.
    constructor; rewrite ?Es, ?Ec, ?Hr; cbn; try done; [by right].
  - subst z'. constructor; try done. intros d Hd. destruct (ok_peer0 d Hd) as (Hne & u & Hu & Huc). split; [done|]. assert (Hda : d <> a) by (intros ->; rewrite Hx in Hu; congruence). destruct (Hk d u Hda Hu) as (u' & Hu'). destruct (Hl d u' Hu') as (u0 & _ & Hu0 & _ & Hcu). rewrite Hu in Hu0. injection Hu0 as <-.
    exists u'. split; [done|]. destruct (decide (connected x = Some d)) as [Hxd|]; [|congruence]. pose proof (Hpeer d u Hxd Hu). congruence.
Qed.

(** When a call leaves nothing behind that is used later.  A socket that waits in the queue of a server, as it does after
    an interrupted [connect] too, does nothing else before it is accepted; the name that is connected to belongs to a
    socket that is there; a new socket has memory. *)
Definition allowed (c : action) n : Prop :=
  match c with
  | Create new _ _ => match new with Some b => socks n !! b = None | None => True end
  | Bind a _ _ _ _ _ | Connect_sleep a | Connect_end a _ | Send a _ _ | Recv a _ => is_Some (socks n !! a)
  | Listen a => exists x, socks n !! a = Some x /\ ~ pending n a /\ connected x = None
  | Connect a _ _ path _ => exists x, socks n !! a = Some x /\ ~ pending n a /\ connected x = None /\ forall rdev, files n !! path = Some (true, rdev) -> exists s, unix_binding n !! rdev = Some s /\ is_Some (socks n !! s)
  | Accept a new => is_Some (socks n !! a) /\ exists b, new = Some b /\ socks n !! b = None
  | Recv_again a _ _ => exists x, socks n !! a = Some x /\ (state x = SOCKET_STATE_CONNECTED \/ state x = SOCKET_STATE_DISCONNECTED)
  | Close a => is_Some (socks n !! a) /\ ~ pending n a
  end.

Lemma upd_some f a n x : socks n !! a = Some x -> upd f a n = Some (set_socks (<[a := f x]> (socks n)) n).
Proof. intros Hx. unfold upd. by rewrite Hx. Qed.

Lemma lookup_one n a x' c : socks (set_socks (<[a := x']> (socks n)) n) !! c = if decide (c = a) then Some x' else socks n !! c.
Proof. cbn. destruct (decide (c = a)) as [->|]; [by rewrite lookup_insert_eq|by rewrite lookup_insert_ne]. Qed.

(** The file system and the table of names do not matter to the sockets. *)
Lemma inv_names n n' : inv n -> socks n' = socks n -> inv n'.
Proof.
  intros [I1 I2] E. split.
  - intros a x Hx. rewrite E in Hx. pose proof (I1 a x Hx) as []. constructor; rewrite ?E; done.
  - intros p a b. unfold waits_at. rewrite E. apply I2.
Qed.

(** A change of what has no part in the invariant. *)
Lemma inv_unrelated n a x x' : inv n -> socks n !! a = Some x -> connected x' = connected x -> state x' = state x -> recived x' = recived x -> inv (set_socks (<[a := x']> (socks n)) n).
Proof.
  intros I Hx Hc Hs Hr. pose proof (inv_sock _ I a x Hx) as []. eapply (inv_change n _ a x x'); try done; rewrite ?Hc, ?Hs, ?Hr; try done; try apply lookup_one; by left.
Qed.

Lemma wakeup_same x : connected (wakeup x) = connected x /\ state (wakeup x) = state x /\ recived (wakeup x) = recived x /\ type (wakeup x) = type x.
Proof. unfold wakeup. by destruct (connect_pc x) as [[]|]. Qed.

Lemma create_ok n new t nb : inv n -> match new with Some b => socks n !! b = None | None => True end -> exists n' r, socket_create new t nb n = Some (n', r) /\ inv n'.
Proof.
  intros I Hb. unfold socket_create, unix_create. destruct new as [b|]; [|by exists n, None]. set (n1 := set_socks _ n). assert (Hx : socks n1 !! b = Some (mk_socket t SOCKET_STATE_INIT false [] None None None)) by (cbn; by rewrite lookup_insert_eq).
  rewrite (upd_some _ b n1 _ Hx). cbn [mbind option_bind]. eexists _, _. split; [reflexivity|]. eapply (inv_create n _ b); [done|done|intros c; rewrite lookup_one; destruct (decide (c = b)); [reflexivity|cbn; by rewrite lookup_insert_ne]|done..].
Qed.

Lemma connect_ok n a x family valid path memory : inv n -> socks n !! a = Some x -> ~ pending n a -> connected x = None -> (forall rdev, files n !! path = Some (true, rdev) -> exists s, unix_binding n !! rdev = Some s /\ is_Some (socks n !! s)) ->
  exists n' r, socket_connect_begin a family valid path memory n = Some (n', r) /\ inv n'.
Proof.
  intros I Hx Hnp Hc Hf. unfold socket_connect_begin, unix_connect_begin. rewrite Hx. cbn [mbind option_bind]. destruct (negb family); [by exists n, (Err EINVAL)|]. destruct (bool_decide (state x = SOCKET_STATE_INIT)) eqn:Es; cbn [negb]; [|by exists n, (Err EINVAL)]. apply bool_decide_eq_true in Es.
  destruct (negb valid); [by exists n, (Err EINVAL)|]. destruct (files n !! path) as [[[] rdev]|] eqn:Ef; cbn [negb]; [|by exists n, (Err ECONNREFUSED)..]. destruct (Hf rdev eq_refl) as (s & Hb & (y & Hy)). rewrite Hb. cbn [mbind option_bind]. rewrite Hy. cbn [mbind option_bind].
  destruct (bool_decide (state y = SOCKET_STATE_LISTEN)) eqn:Ey; cbn [negb orb]; [|by exists n, (Err ECONNREFUSED)]. apply bool_decide_eq_true in Ey. destruct (negb (bool_decide (type y = type x))); [by exists n, (Err ECONNREFUSED)|].
  unfold socket_queue_connection. destruct memory; cbn [negb]; [|rewrite Hy; cbn; by exists n, (Err ENOMEM)]. rewrite (upd_some _ s n y Hy). cbn [mbind option_bind]. set (y' := wakeup (set_recived (recived y ++ [Connection a]) y)). set (n1 := set_socks _ n).
  destruct (wakeup_same (set_recived (recived y ++ [Connection a]) y)) as (W1 & W2 & W3 & _). assert (I1 : inv n1) by (by eapply (inv_enter n n1 s y a x y'); try done; apply lookup_one).
  assert (Hsa : a <> s) by congruence. assert (Hx1 : socks n1 !! a = Some x) by (unfold n1; rewrite lookup_one; by rewrite decide_False). rewrite (upd_some _ a n1 x Hx1). cbn [mbind option_bind]. eexists _, _. split; [reflexivity|]. by eapply inv_unrelated.
Qed.

Lemma connect_end_ok n a x interrupted : inv n -> socks n !! a = Some x -> exists n' r, socket_connect_end a interrupted n = Some (n', r) /\ inv n'.
Proof.
  intros I Hx. unfold socket_connect_end, unix_connect_end. rewrite (upd_some _ a n x Hx). cbn [mbind option_bind]. set (x1 := set_connect_pc None x). set (n1 := set_socks _ n). assert (I1 : inv n1) by (by eapply inv_unrelated). assert (Hx1 : socks n1 !! a = Some x1) by (unfold n1; rewrite lookup_one; by rewrite decide_True). rewrite Hx1. cbn [mbind option_bind].
  destruct interrupted; [by eexists _, _|]. destruct (connected x1) as [b|] eqn:Ec; cbn [mbind option_bind]; [|by eexists _, _]. unfold socket_set_state. rewrite (upd_some _ a n1 x1 Hx1). cbn [mbind option_bind]. eexists _, _. split; [reflexivity|].
  destruct (wakeup_same (set_state SOCKET_STATE_CONNECTED x1)) as (W1 & W2 & W3 & _). pose proof (inv_sock _ I1 a x1 Hx1) as []. assert (Hnl : state x1 <> SOCKET_STATE_LISTEN) by (intros E; rewrite E in ok_state0; congruence). rewrite bool_decide_eq_false_2 in ok_kind0 by done.
  assert (Hnp : ~ pending n1 a). { intros (c & z & Hz & Hin). destruct (ok_waiting _ _ _ (inv_sock _ I1 c z Hz) a Hin) as (u & Hu & _ & Hcu). congruence. }
  eapply (inv_change n1 _ a x1); try exact Hx1; [done|apply lookup_one|..]; rewrite ?W1, ?W2, ?W3; cbn; try done; first [by right|cbn in Ec; congruence].
Qed.

Lemma listen_ok n a x : inv n -> socks n !! a = Some x -> ~ pending n a -> connected x = None -> exists n' r, socket_listen a n = Some (n', r) /\ inv n'.
Proof.
  intros I Hx Hnp Hc. unfold socket_listen. rewrite Hx. cbn [mbind option_bind]. destruct (negb _); [by eexists _, _|]. destruct (bool_decide (state x = SOCKET_STATE_INIT)) eqn:Es; cbn [negb]; [|by eexists _, _]. apply bool_decide_eq_true in Es.
  rewrite (upd_some _ a n x Hx). cbn [mbind option_bind]. eexists _, _. split; [reflexivity|]. pose proof (inv_sock _ I a x Hx) as []. rewrite Es in ok_state0. specialize (ok_state0 Hc).
  eapply (inv_change n _ a x); [done|done|apply lookup_one|..]; cbn; rewrite ?ok_state0; try done; [by right|apply Forall_nil_2|left; apply NoDup_nil_2].
Qed.

Lemma not_pending_new n b : inv n -> socks n !! b = None -> ~ pending n b.
Proof. intros I Hb (c & z & Hz & Hin). destruct (ok_waiting _ _ _ (inv_sock _ I c z Hz) b Hin) as (u & Hu & _). congruence. Qed.

Lemma accept_ok n a b : inv n -> is_Some (socks n !! a) -> socks n !! b = None -> exists n' r, socket_accept a (Some b) n = Some (n', r) /\ inv n'.
Proof.
  intros I (x & Hx) Hb. unfold socket_accept. rewrite Hx. cbn [mbind option_bind]. destruct (negb _); [by eexists _, _|]. destruct (bool_decide (state x = SOCKET_STATE_LISTEN)) eqn:Es; cbn [negb]; [|by eexists _, _]. apply bool_decide_eq_true in Es.
  unfold unix_accept, socket_dequeue_connection. rewrite Hx. cbn [mbind option_bind]. rewrite (bool_decide_eq_true_2 _ Es). cbn [orb kassert mbind option_bind]. destruct (socket_wait x) as [[]|e] eqn:Ew; cbn [mbind option_bind]; [|by eexists _, _..]. pose proof (inv_sock _ I a x Hx) as Okx. pose proof (ok_kind _ _ _ Okx) as Hk. rewrite bool_decide_eq_true_2 in Hk by done.
  destruct (recived x) as [|[|p] l] eqn:El; [unfold socket_wait in Ew; rewrite El in Ew; destruct (nonblock x); [done|]; by destruct (bool_decide _)|by apply Forall_cons in Hk as (? & _)|]. rewrite (upd_some _ a n x Hx). cbn [mbind option_bind]. set (n1 := set_socks _ n).
  destruct (inv_leave n n1 a x p l I Hx Es El) as (I1 & Hnp & xp & Hxp & Sp & Cp & Hpa); [apply lookup_one|]. unfold unix_create. set (xb := mk_socket (type x) SOCKET_STATE_INIT false [] None None None). set (n2 := set_socks (<[b := xb]> (socks n1)) n1). cbn [mbind option_bind].
  assert (Hba : b <> a) by congruence. assert (Hb1 : socks n1 !! b = None) by (unfold n1; rewrite lookup_one; by rewrite decide_False). assert (Hbp : b <> p) by congruence.
  assert (I2 : inv n2) by (eapply (inv_create n1 n2 b xb); try done; apply lookup_one). assert (Hxb : socks n2 !! b = Some xb) by (unfold n2; rewrite lookup_one; by rewrite decide_True). assert (Hxp2 : socks n2 !! p = Some xp) by (unfold n2; rewrite lookup_one; by rewrite decide_False).
  assert (Hnp2 : ~ pending n2 p /\ ~ pending n2 b). { assert (Hw : forall q, pending n2 q -> pending n1 q); [|split; [intros Hq; by apply Hnp, Hw|intros Hq; by apply (not_pending_new n1 b I1 Hb1), Hw]]. intros q (c & z & Hz & Hin). unfold n2 in Hz. rewrite lookup_one in Hz. destruct (decide (c = b)); [injection Hz as <-; by apply not_elem_of_nil in Hin|]. exists c. by exists z. }
  unfold unix_pair. rewrite (upd_some _ b n2 xb Hxb). cbn [mbind option_bind]. set (n3 := set_socks _ n2). assert (Hxp3 : socks n3 !! p = Some xp) by (unfold n3; rewrite lookup_one; by rewrite decide_False). rewrite (upd_some _ p n3 xp Hxp3). cbn [mbind option_bind]. set (n4 := set_socks _ n3).
  assert (Hxp4 : socks n4 !! p = Some (set_connected (Some b) xp)) by (unfold n4; rewrite lookup_one; by rewrite decide_True). rewrite (upd_some _ p n4 _ Hxp4). cbn [mbind option_bind]. set (n5 := set_socks _ n4).
  assert (Hxb5 : socks n5 !! b = Some (set_connected (Some p) xb)) by (unfold n5; rewrite lookup_one, decide_False by done; unfold n4; rewrite lookup_one, decide_False by done; unfold n3; rewrite lookup_one; by rewrite decide_True). rewrite (upd_some _ b n5 _ Hxb5). cbn [mbind option_bind].
  eexists _, _. split; [reflexivity|]. destruct (wakeup_same (set_connected (Some b) xp)) as (W1 & W2 & W3 & _).
  apply (inv_join n2 _ b p xb xp (mk_socket (type x) SOCKET_STATE_CONNECTED (nonblock x) [] (Some p) None None) (wakeup (set_connected (Some b) xp))); try done; try apply Hnp2; [|by rewrite W2].
  intros c. rewrite lookup_one. destruct (decide (c = b)); [reflexivity|]. unfold n5. rewrite lookup_one. destruct (decide (c = p)); [reflexivity|]. unfold n4. rewrite lookup_one, decide_False by done. unfold n3. by rewrite lookup_one, decide_False.
Qed.

Lemma send_loop_ok p : forall iov a total n x, inv n -> socks n !! a = Some x -> connected x = Some p -> exists n' r, send_loop a total iov n = Some (n', r) /\ inv n'.
Proof.
  induction iov as [|[data memory] iov IH]; intros a total n x I Hx Hc; cbn [send_loop]; [by eexists _, _|]. rewrite Hx. cbn [mbind option_bind]. rewrite Hc. cbn [mbind option_bind]. destruct (ok_peer _ _ _ (inv_sock _ I a x Hx) p Hc) as (Hpa & y & Hy & Hyc).
  unfold socket_queue_recived_packet. rewrite Hy. destruct (negb memory); [cbn; by eexists _, _|]. destruct data as [bs|]; [|cbn; by eexists _, _]. rewrite (upd_some _ p n y Hy). cbn [mbind option_bind]. set (y' := wakeup (set_recived (recived y ++ [Bytes bs 0]) y)). set (n1 := set_socks _ n).
  destruct (wakeup_same (set_recived (recived y ++ [Bytes bs 0]) y)) as (W1 & W2 & W3 & _). pose proof (inv_sock _ I p y Hy) as []. assert (Hnl : state y <> SOCKET_STATE_LISTEN) by (intros E; rewrite E in ok_state0; congruence). rewrite bool_decide_eq_false_2 in ok_kind0 by done.
  assert (I1 : inv n1).
  { eapply (inv_change n n1 p y y'); [done|done|apply lookup_one|..]; unfold y'; rewrite ?W1, ?W2, ?W3; cbn [recived set_recived connected state]; [done|by left|..].
    - intros q. rewrite elem_of_app, list_elem_of_singleton. split; [intros [|]; done|by left].
    - cbn. destruct (state y); congruence.
    - cbn. rewrite bool_decide_eq_false_2 by done. apply Forall_app. split; [done|]. by repeat constructor.
    - apply Forall_app. split; [done|]. constructor; [split; [lia|apply lenZ_nonneg]|constructor].
    - by right. }
  apply (IH a _ n1 x I1); [unfold n1; rewrite lookup_one; by rewrite decide_False|done].
Qed.

Lemma recv_loop_ok : forall iov a t got n x, inv n -> socks n !! a = Some x -> state x = SOCKET_STATE_CONNECTED \/ state x = SOCKET_STATE_DISCONNECTED -> exists n' o, recv_loop a t got iov n = Some (n', o) /\ inv n'.
Proof.
  induction iov as [|[size writable] iov IH]; intros a t got n x I Hx Hst; cbn [recv_loop]; [by eexists _, _|]. unfold socket_dequeue_recived_packet. rewrite Hx. cbn [mbind option_bind]. destruct (socket_wait x) as [[]|e] eqn:Ew; cbn [mbind option_bind]; [|by eexists _, _..].
  pose proof (inv_sock _ I a x Hx) as []. assert (Hnl : state x <> SOCKET_STATE_LISTEN) by (destruct Hst; congruence). rewrite bool_decide_eq_false_2 in ok_kind0 by done.
  destruct (dequeue_loop_spec (bool_decide (t = SOCK_SEQPACKET)) (S (S (length (recived x)))) size writable (recived x)) as (l & bs & fault & E & U & Hb' & Hok' & _); [left; lia|done|done|]. rewrite E. cbn [mbind option_bind]. rewrite (upd_some _ a n x Hx). cbn [mbind option_bind]. set (n1 := set_socks _ n).
  assert (I1 : inv n1).
  { eapply (inv_change n n1 a x); [done|done|apply lookup_one|..]; cbn; [done|by left|..].
    - intros q. split; intros Hin; [by apply (bytes_no_connection _ q Hb') in Hin|by apply (bytes_no_connection _ q ok_kind0) in Hin].
    - destruct Hst as [Hst|Hst]; rewrite Hst in *; done.
    - by rewrite bool_decide_eq_false_2.
    - done.
    - by right. }
  destruct (fault && (lenZ bs =? 0)); [by eexists _, _|]. apply (IH a t _ n1 (set_recived l x) I1); [unfold n1; rewrite lookup_one; by rewrite decide_True|done].
Qed.

Lemma send_ok n a named iov : inv n -> is_Some (socks n !! a) -> exists n' r, socket_sendmsg a named iov n = Some (n', r) /\ inv n'.
Proof.
  intros I (x & Hx). unfold socket_sendmsg, unix_sendmsg. rewrite Hx. cbn [mbind option_bind]. destruct (bool_decide (state x = SOCKET_STATE_CONNECTED)) eqn:Es.
  - destruct named; [by eexists _, _|]. destruct (_ || _); [by eexists _, _|]. apply bool_decide_eq_true in Es. pose proof (ok_state _ _ _ (inv_sock _ I a x Hx)) as E. rewrite Es in E. destruct (connected x) as [p|] eqn:Ec; [|done]. by apply (send_loop_ok p iov a 0 n x).
  - destruct (is_stream (type x)) eqn:Et; [by eexists _, _|]. destruct (negb named); [by eexists _, _|]. unfold is_stream in Et. destruct (type x); cbn in *; try done; by eexists _, _.
Qed.

Lemma recv_ok n a iov : inv n -> is_Some (socks n !! a) -> exists n' o, socket_recvmsg a iov n = Some (n', o) /\ inv n'.
Proof.
  intros I (x & Hx). unfold socket_recvmsg. rewrite Hx. cbn [mbind option_bind]. destruct (is_stream (type x) && _ && _) eqn:Ec; [by eexists _, _|]. unfold unix_recvmsg. rewrite Hx. cbn [mbind option_bind]. destruct (bool_decide (type x = SOCK_DGRAM) || _) eqn:Et; [by eexists _, _|]. destruct (bool_decide (state x = SOCKET_STATE_DISCONNECTED) && bool_decide (recived x = [])); [by eexists _, _|].
  apply (recv_loop_ok iov a _ [] n x I Hx). assert (Hs : is_stream (type x) = true) by (unfold is_stream; destruct (type x); done). rewrite Hs in Ec. cbn in Ec. destruct (state x); cbn in Ec; try done; auto.
Qed.

Lemma close_ok n a : inv n -> is_Some (socks n !! a) -> ~ pending n a -> exists n', socket_close a n = Some n' /\ inv n'.
Proof.
  intros I (x & Hx) Hnp. unfold socket_close, unix_close. rewrite Hx. cbn [mbind option_bind]. rewrite (upd_some _ a n x Hx). cbn [mbind option_bind]. set (n1 := set_socks _ n). set (n2 := match bound x with Some k => _ | None => n1 end).
  assert (E2 : socks n2 = <[a := set_connected None x]> (socks n)) by (unfold n2; by destruct (bound x)). destruct (connected x) as [p|] eqn:Ec; cbn [mbind option_bind].
  - destruct (ok_peer _ _ _ (inv_sock _ I a x Hx) p Ec) as (Hpa & y & Hy & Hyc). assert (Hy2 : socks n2 !! p = Some y) by (rewrite E2; by rewrite lookup_insert_ne). unfold socket_set_state. rewrite (upd_some _ p n2 y Hy2). cbn [mbind option_bind]. set (y1 := wakeup (set_state SOCKET_STATE_DISCONNECTED y)). set (n3 := set_socks _ n2).
    assert (Hy3 : socks n3 !! p = Some y1) by (unfold n3; rewrite lookup_one; by rewrite decide_True). rewrite (upd_some _ p n3 y1 Hy3). cbn [mbind option_bind]. eexists. split; [reflexivity|]. destruct (wakeup_same (set_state SOCKET_STATE_DISCONNECTED y)) as (W1 & W2 & W3 & _).
    assert (Hlook : forall c, c <> a -> delete a (<[p := set_connected None y1]> (socks n3)) !! c = if decide (c = p) then Some (set_connected None y1) else socks n !! c).
    { intros c Hca. rewrite lookup_delete_ne by done. destruct (decide (c = p)) as [->|]; [by rewrite lookup_insert_eq|]. rewrite lookup_insert_ne by done. unfold n3. rewrite lookup_one, decide_False, E2, lookup_insert_ne by done. done. }
    eapply (inv_closed n _ a x); [done|done|done|cbn; apply lookup_delete_eq|..]; cbn [socks set_socks].
    + intros c z Hz. assert (Hca : c <> a) by (intros ->; by rewrite lookup_delete_eq in Hz). rewrite Hlook in Hz by done. rewrite Ec. destruct (decide (c = p)) as [->|Hne]; [injection Hz as <-; exists y; rewrite decide_True by done; cbn; unfold y1; by rewrite W2, W3|exists z; rewrite decide_False by congruence; done].
    + intros c z Hca Hz. rewrite Hlook by done. destruct (decide (c = p)); by eexists.
  - eexists. split; [reflexivity|]. eapply (inv_closed n _ a x); [done|done|done|cbn; apply lookup_delete_eq|..]; cbn [socks set_socks]; rewrite ?E2, ?delete_insert_eq.
    + intros c z Hz. apply lookup_delete_Some in Hz as (Hca & Hz). exists z. rewrite Ec. rewrite decide_False by done. done.
    + intros c z Hca Hz. rewrite lookup_delete_ne by done. by eexists.
Qed.

Lemma exec_ok c w : inv (nt w) -> allowed c (nt w) -> exists w', exec c w = Some w' /\ inv (nt w').
Proof.
  intros I Ha. destruct c; cbn [exec allowed] in *.
  - destruct (create_ok (nt w) new t nonblocking I Ha) as (n & r & E & I'). rewrite E. cbn. eexists. split; [reflexivity|]. by destruct r.
  - destruct Ha as (x & Hx). unfold socket_bind, unix_bind. rewrite Hx. cbn [mbind option_bind]. destruct (negb family); [by eexists|]. destruct (negb _); [by eexists|]. destruct (negb valid); [by eexists|]. set (n1 := mk_net _ _ _). assert (I1 : inv n1) by (by eapply inv_names).
    change (files n1) with (files (nt w)). destruct failure; [by eexists|]. destruct (files (nt w) !! path); [by eexists|]. rewrite (upd_some _ a n1 x Hx). cbn [mbind option_bind]. eexists. split; [reflexivity|]. eapply (inv_names (set_socks (<[a := set_bound (Some number) x]> (socks n1)) n1)); [|done]. by eapply inv_unrelated.
  - destruct Ha as (x & Hx & Hnp & Hc). destruct (listen_ok (nt w) a x I Hx Hnp Hc) as (n & r & E & I'). rewrite E. cbn. by eexists.
  - destruct Ha as (x & Hx & Hnp & Hc & Hf). destruct (connect_ok (nt w) a x family valid path memory I Hx Hnp Hc Hf) as (n & r & E & I'). rewrite E. cbn. by eexists.
  - destruct Ha as (x & Hx). unfold unix_connect_sleep. rewrite (upd_some _ a (nt w) x Hx). cbn [mbind option_bind]. eexists. split; [reflexivity|]. by eapply inv_unrelated.
  - destruct Ha as (x & Hx). destruct (connect_end_ok (nt w) a x interrupted I Hx) as (n & r & E & I'). rewrite E. cbn. by eexists.
  - destruct Ha as (Hx & b & -> & Hb). destruct (accept_ok (nt w) a b I Hx Hb) as (n & r & E & I'). rewrite E. cbn. eexists. split; [reflexivity|]. by destruct r as [[]|].
  - destruct (send_ok (nt w) a named iov I Ha) as (n & r & E & I'). destruct Ha as (x & Hx). rewrite Hx. cbn [mbind option_bind]. rewrite E. cbn [mbind option_bind]. eexists. split; [reflexivity|]. destruct (connected x); [|done]. by destruct (sends x named).
  - destruct (recv_ok (nt w) a iov I Ha) as (n & o & E & I'). rewrite E. cbn. by eexists.
  - destruct Ha as (x & Hx & Hst). unfold socket_recv_again. rewrite Hx. cbn [mbind option_bind]. destruct (recv_loop_ok rest a (type x) got (nt w) x I Hx Hst) as (n & o & E & I'). rewrite E. cbn. by eexists.
  - destruct Ha as (Hx & Hnp). destruct (close_ok (nt w) a I Hx Hnp) as (n & E & I'). rewrite E. cbn. by eexists.
Qed.

Inductive step : world -> world -> Prop := step_call c w w' : allowed c (nt w) -> exec c w = Some w' -> step w w'.

(** A connection joins two sockets that are there and know each other, whatever calls were made, and no call uses a
    socket that was freed, follows a null pointer or mistakes bytes for a connection, as long as sockets that wait to be
    accepted are left alone. *)
Theorem sockets_safe w : rtc step no_sockets w ->
  (forall c, allowed c (nt w) -> is_Some (exec c w)) /\
  (forall a x b, socks (nt w) !! a = Some x -> connected x = Some b -> exists y, socks (nt w) !! b = Some y /\ connected y = Some a) /\
  (forall a x, socks (nt w) !! a = Some x -> state x = SOCKET_STATE_CONNECTED -> is_Some (connected x)).
Proof.
  intros Hs. assert (I : inv (nt w)).
  { assert (I0 : inv (nt no_sockets)) by (split; [intros a x Hx; cbn in Hx; by rewrite lookup_empty in Hx|intros p a b (x & Hx & _); cbn in Hx; by rewrite lookup_empty in Hx]). revert I0. induction Hs as [|w1 w2 w3 Hs _ IH]; [done|]. intros I1. apply IH. revert I1. destruct Hs as [c w1 w2 Ha E]. intros I1. destruct (exec_ok c w1 I1 Ha) as (w2' & E' & I2). rewrite E in E'. by injection E' as <-. }
  split_and!.
  - intros c Ha. destruct (exec_ok c w I Ha) as (w' & E & _). by eexists.
  - intros a x b Hx Hb. by destruct (ok_peer _ _ _ (inv_sock _ I a x Hx) b Hb) as (_ & ?).
  - intros a x Hx Hst. pose proof (ok_state _ _ _ (inv_sock _ I a x Hx)) as E. rewrite Hst in E. by destruct (connected x).
Qed.

(** ** Runs *)

(** A server 1 that listens under the name 7, and a client 2. *)
Definition serving : list action := [Create (Some 1) SOCK_STREAM false; Bind 1 true true 7 0 None; Listen 1; Create (Some 2) SOCK_STREAM false].
Definition joined : list action := serving ++ [Connect 2 true true 7 true; Connect_sleep 2; Accept 1 (Some 3); Connect_end 2 false].
Definition hello : list Z := [104; 101; 108; 108; 111].

Definition final (l : list action) : world := default no_sockets (run l no_sockets).
Definition talk : list action := joined ++ [Send 2 false [(Some hello, true)]; Recv 3 [(3, 3)]].

Lemma socket_delivers_witness : log (sent (final talk)) 3 = hello /\ log (rcvd (final talk)) 3 = [104; 101; 108] /\ exists x, socks (nt (final talk)) !! 3 = Some x /\ log (sent (final talk)) 3 = log (rcvd (final talk)) 3 ++ unread (recived x).
Proof.
  split; [vm_compute; reflexivity|]. split; [vm_compute; reflexivity|]. eexists. split; [vm_compute; reflexivity|]. apply (socket_delivers talk); vm_compute; reflexivity.
Defined.

(** ** Where the code does not do what it means to *)

(** The name of a server that has closed stays; who connects to it follows a null pointer. *)
Theorem connect_to_stale_name : run (serving ++ [Close 1]) no_sockets <> None /\ run (serving ++ [Close 1; Connect 2 true true 7 true]) no_sockets = None.
Proof. split; vm_compute; [discriminate|reflexivity]. Qed.

(** [connect] enters the queue of the server before it sleeps, without a lock in between: a server that accepts at once
    wakes nobody, and the client sleeps although it is connected. *)
Theorem connect_loses_wakeup : exists x, socks (nt (final (serving ++ [Connect 2 true true 7 true; Accept 1 (Some 3); Connect_sleep 2]))) !! 2 = Some x /\ connected x = Some 3 /\ connect_pc x = Some Asleep.
Proof. eexists. split; [vm_compute; reflexivity|]. split; reflexivity. Qed.

(** A server that closes does not wake the clients in its queue. *)
Theorem closing_strands_clients : exists x, socks (nt (final (serving ++ [Connect 2 true true 7 true; Connect_sleep 2; Close 1]))) !! 2 = Some x /\ connect_pc x = Some Asleep /\ connected x = None /\ socks (nt (final (serving ++ [Connect 2 true true 7 true; Connect_sleep 2; Close 1]))) !! 1 = None.
Proof. eexists. split; [vm_compute; reflexivity|]. split_and!; [reflexivity|reflexivity|vm_compute; reflexivity]. Qed.

(** An interrupted client stays in the queue; when it closes, the server accepts a socket that was freed. *)
Theorem accept_of_closed_client : run (serving ++ [Connect 2 true true 7 true; Connect_end 2 true; Close 2]) no_sockets <> None /\ run (serving ++ [Connect 2 true true 7 true; Connect_end 2 true; Close 2; Accept 1 (Some 3)]) no_sockets = None.
Proof. split; vm_compute; [discriminate|reflexivity]. Qed.

(** When it is accepted and then listens itself, bytes that it got are taken for a socket. *)
Theorem bytes_taken_for_socket : run (serving ++ [Connect 2 true true 7 true; Connect_end 2 true; Accept 1 (Some 3); Send 3 false [(Some hello, true)]; Listen 2]) no_sockets <> None /\
  run (serving ++ [Connect 2 true true 7 true; Connect_end 2 true; Accept 1 (Some 3); Send 3 false [(Some hello, true)]; Listen 2; Accept 2 (Some 4)]) no_sockets = None.
Proof. split; vm_compute; [discriminate|reflexivity]. Qed.

(** A [bind] to a name that exists leaves the socket in the table of names, from which closing does not remove it. *)
Theorem failed_bind_dangles : unix_binding (nt (final (serving ++ [Bind 2 true true 7 1 None; Close 2]))) !! 1 = Some 2 /\ socks (nt (final (serving ++ [Bind 2 true true 7 1 None; Close 2]))) !! 2 = None.
Proof. split; vm_compute; reflexivity. Qed.

(** A message in two buffers waits for bytes for the second although there were some for the first. *)
Theorem second_buffer_waits : exists n, socket_recvmsg 3 [(5, 5); (5, 5)] (nt (final (joined ++ [Send 2 false [(Some hello, true)]]))) = Some (n, Sleeps hello [(5, 5)]).
Proof. eexists. vm_compute. reflexivity. Qed.

(** An error in a later part of a message hides that the first was delivered. *)
Theorem error_hides_delivery : exists n x, socket_sendmsg 2 false [(Some hello, true); (None, true)] (nt (final joined)) = Some (n, Err EFAULT) /\ socks n !! 3 = Some x /\ unread (recived x) = hello.
Proof. eexists _, _. split; [vm_compute; reflexivity|]. split; [vm_compute; reflexivity|reflexivity]. Qed.

(** On a socket that keeps the bounds of packets, what a short buffer leaves comes as a packet of its own. *)
Theorem packet_is_split : exists n1 n2, socket_recvmsg 3 [(3, 3)] (nt (final ([Create (Some 1) SOCK_SEQPACKET false; Bind 1 true true 7 0 None; Listen 1; Create (Some 2) SOCK_SEQPACKET false; Connect 2 true true 7 true; Connect_sleep 2; Accept 1 (Some 3); Connect_end 2 false; Send 2 false [(Some hello, true)]]))) = Some (n1, Done (Ok [104; 101; 108])) /\
  socket_recvmsg 3 [(5, 5)] n1 = Some (n2, Done (Ok [108; 111])).
Proof. eexists _, _. split; vm_compute; reflexivity. Qed.

End Socket.
