(* ===== verification/Part.v ===== *)
(** Partition tables (modules/block/part/mbr/mbr.c, modules/block/part/gpt/gpt.c) and the choice of their driver
    (block_device_rescan_partitions of kernel/drivers/block.c).

    A disk is its bytes.  A read of a structure gives the bytes that are there, through the cache; [None] is a
    structure that is not wholly on the disk, whose variable would keep what it held.  Text is a list of character
    codes. *)

From S2P Require Import Prelude.

Module Part.

(** ** Disks *)

Record block_partition := mk_block_partition { offset : Z; size : Z; part_uuid : list Z; fs_uuid : list Z; index : Z }.

Record disk := mk_disk { sector_size : Z; bytes : list Z; uuid : list Z; partitions : list block_partition; partitions_count : Z; part_driver : option Z }.
Implicit Types (d : disk).
Definition set_uuid v d := mk_disk (sector_size d) (bytes d) v (partitions d) (partitions_count d) (part_driver d).
Definition set_partitions v n d := mk_disk (sector_size d) (bytes d) (uuid d) v n (part_driver d).
Definition set_part_driver v d := mk_disk (sector_size d) (bytes d) (uuid d) (partitions d) (partitions_count d) v.

Definition block_device_read d (off n : Z) : option (list Z) := kassert (off + n <=? lenZ (bytes d));; Some (sliceZ off n (bytes d)).

Definition field (off n : Z) (bs : list Z) : Z := le_val (sliceZ off n bs).

Definition block_device_add_partition (off sz : Z) (id fs : list Z) d : disk :=
  set_partitions (partitions d ++ [mk_block_partition off sz id fs (partitions_count d)]) (partitions_count d + 1) d.

(** The lower-case hexadecimal digits of the conversions [%08x], [%04hx] and [%02hhx]: [n] digits of a number of 4 [n]
    bits. *)
Definition digit (z : Z) : Z := if z <? 10 then 48 + z else 87 + z.
Fixpoint hex (n : nat) (z : Z) : list Z := match n with O => [] | S n => hex n (z / 16) ++ [digit (z mod 16)] end.
Definition dash : Z := 45.

(** ** MBR *)

Record mbr_entry := mk_mbr_entry { type : Z; lba_start : Z; sectors_count : Z }.
Record mbr_table := mk_mbr { mbr_uuid : Z; entries : list mbr_entry; signature : Z }.
Definition MBR_SIGNATURE : Z := 0xaa55.

Definition mbr_entry_of (bs : list Z) : mbr_entry := mk_mbr_entry (field 4 1 bs) (field 8 4 bs) (field 12 4 bs).
Definition mbr_of (bs : list Z) : mbr_table :=
  mk_mbr (field 440 4 bs) (map (fun i => mbr_entry_of (sliceZ (446 + 16 * i) 16 bs)) [0; 1; 2; 3]) (field 510 2 bs).

Definition mbr_probe d : option Z := bs ← block_device_read d 0 512; Some (if signature (mbr_of bs) =? MBR_SIGNATURE then 1 else 0).

Fixpoint mbr_loop (id i : Z) (l : list mbr_entry) d : disk :=
  match l with
  | [] => d
  | e :: l =>
      mbr_loop id (i + 1) l
        (if sectors_count e =? 0 then d
         else block_device_add_partition (lba_start e *! sector_size d) (sectors_count e *! sector_size d) (hex 8 id ++ [dash] ++ hex 2 i) (hex 2 (type e)) d)
  end.

Definition mbr_attach d : option (disk * res unit) :=
  bs ← block_device_read d 0 512;
  let mbr := mbr_of bs in
  Some (mbr_loop (mbr_uuid mbr) 0 (entries mbr) (set_uuid (hex 8 (mbr_uuid mbr)) d), Ok tt).

(** ** GPT *)

Definition GPT_ID : Z := 0xee.
Definition GPT_SIGNATURE : list Z := [69; 70; 73; 32; 80; 65; 82; 84].

Record gpt_guid := mk_gpt_guid { e1 : Z; e2 : Z; e3 : Z; e4 : Z; e5 : list Z }.
Definition guid_of (bs : list Z) : gpt_guid := mk_gpt_guid (field 0 4 bs) (field 4 2 bs) (field 6 2 bs) (field 8 2 bs) (sliceZ 10 6 bs).

(** The fourth part is written with its bytes swapped. *)
Definition guid2str (g : gpt_guid) : list Z :=
  hex 8 (e1 g) ++ [dash] ++ hex 4 (e2 g) ++ [dash] ++ hex 4 (e3 g) ++ [dash] ++ hex 4 (Z.lor (Z.shiftl (Z.land (e4 g) 0xff) 8) (Z.land (Z.shiftr (e4 g) 8) 0xff)) ++ [dash] ++ concat (map (hex 2) (e5 g)).

Definition gpt_probe d : option Z :=
  bs ← block_device_read d 0 512;
  let mbr := mbr_of bs in
  if negb (signature mbr =? MBR_SIGNATURE) then Some 0
  else Some (if existsb (fun e => type e =? GPT_ID) (entries mbr) then 2 else 0).

Record gpt_entry := mk_gpt_entry { entry_type : list Z; guid : list Z; first_lba : Z; last_lba : Z }.
Definition gpt_entry_of (bs : list Z) : gpt_entry := mk_gpt_entry (sliceZ 0 16 bs) (sliceZ 16 16 bs) (field 32 8 bs) (field 40 8 bs).

Definition gpt_add (e : gpt_entry) d : disk :=
  if bool_decide (entry_type e = replicate 16 0) then d
  else block_device_add_partition (first_lba e *! sector_size d) ((last_lba e -! first_lba e) *! sector_size d) (guid2str (guid_of (guid e))) (guid2str (guid_of (entry_type e))) d.

(** The loop over the entries; each round leaves one entry less. *)
Fixpoint gpt_loop (count : nat) (off part_ent_size : Z) d : option disk :=
  match count with
  | O => Some d
  | S count => bs ← block_device_read d off 128; gpt_loop count (off + part_ent_size) part_ent_size (gpt_add (gpt_entry_of bs) d)
  end.

Definition gpt_attach d : option (disk * res unit) :=
  bs ← block_device_read d (sector_size d) 92;
  if negb (bool_decide (sliceZ 0 8 bs = GPT_SIGNATURE)) then Some (d, Err EFTYPE)
  else
    let d := set_uuid (guid2str (guid_of (sliceZ 56 16 bs))) d in
    d ← gpt_loop (Z.to_nat (field 80 4 bs)) (2 * sector_size d) (field 84 4 bs) d;
    Some (d, Ok tt).

(** ** The choice of the driver *)

(** A driver has a number, what it finds and how it attaches. *)
Record driver := mk_driver { number : Z; probe : disk -> option Z; attach : disk -> option (disk * res unit) }.
Definition mbr_driver : driver := mk_driver 0 mbr_probe mbr_attach.
Definition gpt_driver : driver := mk_driver 1 gpt_probe gpt_attach.

Fixpoint best_driver (best : option driver) (best_score : Z) (l : list driver) d : option (option driver) :=
  match l with
  | [] => Some best
  | x :: l => score ← probe x d; if score >? best_score then best_driver (Some x) score l d else best_driver best best_score l d
  end.

(** The partitions of before were removed.  With a driver the result of the function is not set; the driver is kept
    only when it attached. *)
Definition block_device_rescan_partitions (l : list driver) d : option (disk * option (res unit)) :=
  let d := set_part_driver None (set_partitions [] 0 d) in
  best ← best_driver None 0 l d;
  match best with
  | None => Some (d, Some (Err ENOTSUP))
  | Some x => '(d, r) ← attach x d; Some (match r with Ok _ => set_part_driver (Some (number x)) d | Err _ => d end, None)
  end.

(** ** What is written is what is read *)

Definition mbr_entry_bytes (e : mbr_entry) : list Z := [0; 0; 0; 0] ++ le_bytes 1 (type e) ++ [0; 0; 0] ++ le_bytes 4 (lba_start e) ++ le_bytes 4 (sectors_count e).
Definition mbr_bytes (boot : list Z) (t : mbr_table) : list Z := boot ++ le_bytes 4 (mbr_uuid t) ++ [0; 0] ++ concat (map mbr_entry_bytes (entries t)) ++ le_bytes 2 (signature t).

Definition entry_fits (e : mbr_entry) : Prop := 0 <= type e < 2 ^ 8 /\ 0 <= lba_start e < 2 ^ 32 /\ 0 <= sectors_count e < 2 ^ 32.
Definition table_fits (t : mbr_table) : Prop := 0 <= mbr_uuid t < 2 ^ 32 /\ 0 <= signature t < 2 ^ 16 /\ Forall entry_fits (entries t) /\ length (entries t) = 4%nat.

Lemma slice_app {A} off n (l1 l2 l3 : list A) : lenZ l1 = off -> lenZ l2 = n -> sliceZ off n (l1 ++ l2 ++ l3) = l2.
Proof.
  intros <- <-. unfold sliceZ, takeZ, dropZ, lenZ. rewrite !Nat2Z.id. rewrite drop_app_length. by rewrite take_app_length.
Qed.

Lemma slice_end {A} off n (l1 l2 : list A) : lenZ l1 = off -> lenZ l2 = n -> sliceZ off n (l1 ++ l2) = l2.
Proof. intros H1 H2. rewrite <- (app_nil_r l2) at 1. by apply slice_app. Qed.

Lemma lenZ_le_bytes n v : lenZ (le_bytes n v) = Z.of_nat n.
Proof. unfold lenZ. by rewrite length_le_bytes. Qed.

Lemma lenZ_entry e : lenZ (mbr_entry_bytes e) = 16.
Proof. unfold mbr_entry_bytes. rewrite !lenZ_app, !lenZ_le_bytes. done. Qed.

Lemma entry_roundtrip e : entry_fits e -> mbr_entry_of (mbr_entry_bytes e) = e.
Proof.
  intros (H1 & H2 & H3). unfold mbr_entry_of, field. unfold mbr_entry_bytes at 1. rewrite (slice_app 4 1 [0; 0; 0; 0]) by done. rewrite le_val_bytes by done.
  replace (mbr_entry_bytes e) with (([0; 0; 0; 0] ++ le_bytes 1 (type e) ++ [0; 0; 0]) ++ le_bytes 4 (lba_start e) ++ le_bytes 4 (sectors_count e)) by (unfold mbr_entry_bytes; by rewrite <- !app_assoc).
  rewrite (slice_app 8 4) by (rewrite ?lenZ_app, ?lenZ_le_bytes; done). rewrite le_val_bytes by done. rewrite app_assoc, (slice_end 12 4) by (rewrite ?lenZ_app, ?lenZ_le_bytes; done). rewrite le_val_bytes by done. by destruct e.
Qed.

Lemma mbr_roundtrip boot t rest : lenZ boot = 440 -> table_fits t -> mbr_of (sliceZ 0 512 (mbr_bytes boot t ++ rest)) = t.
Proof.
  intros Hb (Hu & Hs & He & Hn). destruct t as [u es sg]. cbn [mbr_uuid entries signature] in *. destruct es as [|a1 [|a2 [|a3 [|a4 [|]]]]]; try done. rewrite !Forall_cons in He. destruct He as (F1 & F2 & F3 & F4 & _).
  assert (Hlen : lenZ (mbr_bytes boot (mk_mbr u [a1; a2; a3; a4] sg)) = 512). { unfold mbr_bytes. cbn [mbr_uuid entries signature map concat]. rewrite !lenZ_app, !lenZ_entry, !lenZ_le_bytes, Hb. done. }
  replace (sliceZ 0 512 (mbr_bytes boot (mk_mbr u [a1; a2; a3; a4] sg) ++ rest)) with (mbr_bytes boot (mk_mbr u [a1; a2; a3; a4] sg)) by (symmetry; apply (slice_app 0 512 []); done).
  set (T := mbr_bytes boot _). assert (ET : T = boot ++ le_bytes 4 u ++ [0; 0] ++ mbr_entry_bytes a1 ++ mbr_entry_bytes a2 ++ mbr_entry_bytes a3 ++ mbr_entry_bytes a4 ++ le_bytes 2 sg) by (unfold T, mbr_bytes; cbn [mbr_uuid entries signature map concat]; by rewrite app_nil_r, <- !app_assoc).
  assert (Hslice : forall pre mid post off n, T = pre ++ mid ++ post -> lenZ pre = off -> lenZ mid = n -> sliceZ off n T = mid) by (intros pre mid post off n -> H1 H2; by apply slice_app).
  unfold mbr_of, field. cbn [map]. change (446 + 16 * 0) with 446. change (446 + 16 * 1) with 462. change (446 + 16 * 2) with 478. change (446 + 16 * 3) with 494.
  rewrite (Hslice boot (le_bytes 4 u) _ 440 4 ET Hb eq_refl).
  rewrite (Hslice (boot ++ le_bytes 4 u ++ [0; 0]) (mbr_entry_bytes a1) (mbr_entry_bytes a2 ++ mbr_entry_bytes a3 ++ mbr_entry_bytes a4 ++ le_bytes 2 sg) 446 16) by (first [rewrite ET, <- !app_assoc; reflexivity|rewrite !lenZ_app, lenZ_le_bytes, Hb; reflexivity|apply lenZ_entry]).
  rewrite (Hslice (boot ++ le_bytes 4 u ++ [0; 0] ++ mbr_entry_bytes a1) (mbr_entry_bytes a2) (mbr_entry_bytes a3 ++ mbr_entry_bytes a4 ++ le_bytes 2 sg) 462 16) by (first [rewrite ET, <- !app_assoc; reflexivity|rewrite !lenZ_app, lenZ_le_bytes, !lenZ_entry, Hb; reflexivity|apply lenZ_entry]).
  rewrite (Hslice (boot ++ le_bytes 4 u ++ [0; 0] ++ mbr_entry_bytes a1 ++ mbr_entry_bytes a2) (mbr_entry_bytes a3) (mbr_entry_bytes a4 ++ le_bytes 2 sg) 478 16) by (first [rewrite ET, <- !app_assoc; reflexivity|rewrite !lenZ_app, lenZ_le_bytes, !lenZ_entry, Hb; reflexivity|apply lenZ_entry]).
  rewrite (Hslice (boot ++ le_bytes 4 u ++ [0; 0] ++ mbr_entry_bytes a1 ++ mbr_entry_bytes a2 ++ mbr_entry_bytes a3) (mbr_entry_bytes a4) (le_bytes 2 sg) 494 16) by (first [rewrite ET, <- !app_assoc; reflexivity|rewrite !lenZ_app, lenZ_le_bytes, !lenZ_entry, Hb; reflexivity|apply lenZ_entry]).
  rewrite (Hslice (boot ++ le_bytes 4 u ++ [0; 0] ++ mbr_entry_bytes a1 ++ mbr_entry_bytes a2 ++ mbr_entry_bytes a3 ++ mbr_entry_bytes a4) (le_bytes 2 sg) [] 510 2) by (first [rewrite app_nil_r, ET, <- !app_assoc; reflexivity|rewrite !lenZ_app, lenZ_le_bytes, !lenZ_entry, Hb; reflexivity|apply lenZ_le_bytes]).
  rewrite !le_val_bytes, !entry_roundtrip by done. reflexivity.
Qed.

(** ** Attaching *)

(** The partitions that a table describes, numbered from [k], for entries from [i] on. *)
Fixpoint described (ss id i k : Z) (l : list mbr_entry) : list block_partition :=
  match l with
  | [] => []
  | e :: l =>
      if sectors_count e =? 0 then described ss id (i + 1) k l
      else mk_block_partition (lba_start e * ss) (sectors_count e * ss) (hex 8 id ++ [dash] ++ hex 2 i) (hex 2 (type e)) k :: described ss id (i + 1) (k + 1) l
  end.

Lemma mbr_loop_spec id : forall l i d, 0 <= sector_size d < 2 ^ 32 -> Forall entry_fits l ->
  partitions (mbr_loop id i l d) = partitions d ++ described (sector_size d) id i (partitions_count d) l /\ bytes (mbr_loop id i l d) = bytes d.
Proof.
  induction l as [|e l IH]; intros i d Hss He; cbn [mbr_loop described]; [by rewrite app_nil_r|]. apply Forall_cons in He as ((_ & H1 & H2) & He). destruct (sectors_count e =? 0); [by apply IH|]. destruct (IH (i + 1) (block_device_add_partition (lba_start e *! sector_size d) (sectors_count e *! sector_size d) (hex 8 id ++ [dash] ++ hex 2 i) (hex 2 (type e)) d)) as (E1 & E2); [done|done|].
  rewrite E1, E2. cbn. rewrite <- app_assoc. rewrite !u64_small by (unfold is_u64; nia). done.
Qed.

(** Attaching a disk that starts with a table makes the partitions that the table describes, those with no sectors left
    out, and nothing of the disk changes. *)
Theorem mbr_attach_correct boot t rest d : lenZ boot = 440 -> table_fits t -> 0 <= sector_size d < 2 ^ 32 -> bytes d = mbr_bytes boot t ++ rest ->
  exists d', mbr_attach d = Some (d', Ok tt) /\ partitions d' = partitions d ++ described (sector_size d) (mbr_uuid t) 0 (partitions_count d) (entries t) /\ bytes d' = bytes d.
Proof.
  intros Hb Ht Hss Hd. unfold mbr_attach, block_device_read. assert (Hlen : 512 <= lenZ (bytes d)).
  { rewrite Hd. unfold mbr_bytes. rewrite !lenZ_app, !lenZ_le_bytes, Hb. destruct Ht as (_ & _ & _ & Hn). assert (E : lenZ (concat (map mbr_entry_bytes (entries t))) = 64). { by destruct (entries t) as [|a1 [|a2 [|a3 [|a4 [|]]]]]. } rewrite E. pose proof (lenZ_nonneg rest). change (lenZ [0; 0]) with 2. lia. }
  rewrite (proj2 (Z.leb_le _ _)) by lia. cbn [kassert mbind option_bind]. assert (Em : mbr_of (sliceZ 0 512 (bytes d)) = t) by (rewrite Hd; by apply mbr_roundtrip). rewrite Em. eexists. split; [reflexivity|]. apply (mbr_loop_spec (mbr_uuid t) (entries t) 0 (set_uuid (hex 8 (mbr_uuid t)) d)); [done|apply Ht].
Qed.

(** A disk with a protective entry is given to the driver for GPT, whichever driver was registered first. *)
Theorem gpt_preferred d s : mbr_probe d = Some 1 -> gpt_probe d = Some s -> 
  best_driver None 0 [mbr_driver; gpt_driver] d = Some (Some (if s >? 1 then gpt_driver else mbr_driver)) /\ (s = 2 -> best_driver None 0 [gpt_driver; mbr_driver] d = Some (Some gpt_driver)).
Proof. intros Hm Hg. cbn [best_driver mbr_driver gpt_driver probe]. rewrite Hm, Hg. cbn. destruct (s >? 1); (split; [done|]); by intros ->. Qed.

(** A GUID takes 36 characters, so that it fits the buffers of 64. *)
Lemma length_hex n z : length (hex n z) = n.
Proof. revert z. induction n as [|n IH]; intros z; cbn; [done|]. rewrite length_app, IH. cbn. lia. Qed.

Theorem guid2str_length bs : 16 <= lenZ bs -> lenZ (guid2str (guid_of bs)) = 36.
Proof.
  intros Hb. unfold guid2str, guid_of. cbn [e1 e2 e3 e4 e5]. rewrite !lenZ_app. unfold lenZ at 1 2 3 4 5 6 7 8. rewrite !length_hex. set (l := sliceZ 10 6 bs). assert (Hl : lenZ l = 6) by (apply lenZ_sliceZ; lia).
  assert (E : lenZ (concat (map (hex 2) l)) = 2 * lenZ l). { clear. induction l as [|x l IH]; [done|]. cbn [map concat]. rewrite lenZ_app, IH, lenZ_cons. unfold lenZ at 1. rewrite length_hex. lia. } rewrite E, Hl. done.
Qed.

(** ** Where the code does not do what it means to *)

(** The last sector that an entry names belongs to its partition; the partition is made without it, so that one of a
    single sector is empty. *)
Theorem gpt_loses_last_sector e d : bool_decide (entry_type e = replicate 16 0) = false -> first_lba e = last_lba e -> map size (partitions (gpt_add e d)) = map size (partitions d) ++ [0].
Proof. intros Ht He. unfold gpt_add. rewrite Ht. cbn. rewrite map_app. cbn. by rewrite He, Z.sub_diag. Qed.
End Part.
